(* ===== verification/_CoqProject ===== *)
-Q . S2P
Prelude.v
LeaseStore.v
Lease.v
HaManager.v
HaSystem.v
HaSafety.v
HaDemo.v
Pitr.v
PitrStore.v
PitrChain.v
PitrPlan.v
Backup.v
Retention.v
Glob.v
Selection.v
Runs.v
Slots.v
Throttle.v
Access.v
Calendar.v
Snapshots.v
Segments.v
Pins.v
PitrRetention.v
Oplog.v
ChunkKeys.v
Collector.v
CollectorHistory.v
CollectorSafety.v
CollectorEffects.v
CollectorDemo.v
Json.v
AuditLog.v
AuditChain.v
AuditService.v
AuditDemo.v
GoStrings.v
Bson.v
BsonCodec.v
OplogScan.v
OplogFilter.v
OplogReplay.v
OplogCopy.v
OplogCounts.v
MongoArchive.v
OplogArchive.v
OplogDemo.v
Zones.v
BackupWindow.v
Jobs.v
Schedule.v
Scheduler.v
SchedulerSync.v
CatchUp.v
JobRuns.v
KeyLocks.v
ObjectStorage.v
Purge.v
PurgeSafety.v
PurgeDemo.v
Outbox.v
OutboxSafety.v
Protection.v
ProtectionSafety.v
ProtectionDemo.v
AccountStore.v
AccountInvariant.v
Accounts.v
AccountSafety.v
ApiKeys.v
AccountAccess.v
AccountDemo.v
