(* ===== verification/Prelude.v ===== *)
(** * MongoRescue: verification development

    MongoRescue is a backup and disaster-recovery service for MongoDB, written in Go.
    One active instance of a cluster, elected over a lease object in storage, schedules
    backups, collects the oplog for point-in-time recovery (PITR), deletes what
    retention selects and restores what an operator asks for. This development models
    the parts in which a mistake loses data: who may act, what may be deleted, which
    chunks are replayed, and which databases are backed up.

    ** Conventions

    Go functions are Rocq functions; methods that change a struct take and return it.
    [(value, error)] is [result]: sentinel errors are constructors, messages are left
    out. Integers of fixed width are [Z] with the wrap-around written out where it can
    happen ([u64], [i64]). A [time.Time] is its number of nanoseconds since year 1, the
    zero time being 0; a [time.Duration] is a number of nanoseconds, and [time_sub] has
    the saturation of [Time.Sub]. Strings are byte strings. Maps are [gmap]; a loop
    over a map is modelled on its rows in a sorted order. Clock readings, cryptography and services are arguments of the
    definitions that use them. Loops that do not recurse on their data have a fuel, with
    a theorem that the fuel given is enough.

    ** Files

    - Prelude (this file): automation, [result], integers, time, stable sorting,
      [strings.TrimSpace].
    - LeaseStore (src/internal/storage/lease.go, lease_local.go): the interface of
      conditional writes as a class with its laws [CasStore], the local driver as an
      instance of them, the probe that refuses services which ignore conditions.
    - Lease (src/internal/ha/lease.go, state.go): the lease object, its MAC, snapshot
      marks and the high-water state.
    - HaManager (src/internal/ha/manager.go): the state and operations of one lease
      manager. Operations that call the storage are split at the call: [renew_send] and
      [renew_recv] compose to [renew], and so on.
    - HaSystem: any number of managers over one store as a step relation. Requests are
      delayed, processed after their sender gave up, answers lost; instances restart.
      HaSafety: the invariant of the reachable states. HaDemo: an executable scheduler
      and concrete runs.
    - Pitr, PitrStore (src/internal/pitr/pitr.go, src/internal/store/pitr.go): the PITR
      data and the repository's operations on its tables. PitrChain: the repository as a
      state machine and the invariant of its chains. PitrPlan (src/internal/pitr/plan.go):
      the planner of a restore.
    - Backup (src/internal/models/backup.go, copy.go): the backup record, its deletion
      and its copies. Retention (src/internal/scheduler/retention.go and
      PruneBackupRecord of src/internal/store/integrity.go).
    - Glob, Selection (src/internal/models/selection.go, dbfilter.go, namespace.go): the
      pattern matcher, and the databases a job backs up.
    - Runs, Slots (src/internal/runs/runs.go, critical.go, slots.go): the keys operations
      hold alone or shared, and the counted slots of a connection, whose queues are
      objects in a heap with the pointers callers keep.
    - Throttle (src/internal/auth/throttle.go): password attempts and lockouts.
    - Access (src/internal/auth/role.go, scope.go, connections.go, approval.go): scopes,
      roles, connections and approvers.
    - Snapshots (src/internal/ha/snapshot.go, snapshotheader.go, override.go): names,
      headers, selection and retention of the metadata snapshots, over Calendar, the
      proleptic Gregorian calendar of Go's time package.
    - Segments (src/internal/pitr/collector/segments.go, status.go, maintain.go): what a
      stream can restore, as the dashboard and the base schedule see it. Pins
      (src/internal/pitr/pins.go), PitrRetention (collector/retention.go): what restores
      in flight hold, and what retention deletes and purges.

    - Oplog, ChunkKeys (src/internal/mongoconn/oplog.go, pitr/collector/collector.go): the
      read of an oplog range and the names of chunks. Collector
      (pitr/collector/worker.go, chunk.go): a tick of a collector as a computation over the
      worker, the database, the stored objects and an environment that answers each call.
      CollectorHistory, CollectorSafety: members' logs, the history in a chain's objects, and
      the invariant that ties them; CollectorEffects: what ticks may do to the tables, their
      waits and the ends of chains; CollectorDemo: runs on concrete replica sets.
    - Json: strings in UTF-8 and their JSON, as Go writes them. AuditLog
      (src/internal/auditlog/chain.go, auditlog.go, store/auditlog.go): entries, the hash
      chain, the table and its verification; AuditChain: what verification accepts;
      AuditService (auditlog.go, coalesce.go): recording, coalescing, queue and retention;
      AuditDemo: concrete logs.
    - GoStrings, Bson, BsonCodec: Go's string functions; BSON documents with the driver's
      functions as a class [Driver] and its laws; the BSON format as an instance, with its
      round trip. OplogScan (src/internal/oplog/oplog.go, scanner.go): reader and scanner
      on bytes. OplogFilter (filter.go, indexes.go, views.go): the filter of a replay in
      a state monad whose errors keep the state; OplogReplay: the operations an entry
      stands for, and that each filter operation preserves them; OplogCopy: whole streams.
      OplogCounts (counts.go): document counts. MongoArchive
      (src/internal/mongotools/archive.go), OplogArchive (oplog/archive.go): archive
      preludes read, archives written. OplogDemo: a replay on bytes.
    - Zones: time zones as offsets over time, and [time.Date]. BackupWindow
      (src/internal/models/window.go), Jobs (models/job.go, jobrun.go): windows, jobs and
      their runs. Schedule (src/internal/scheduler/rpo.go and the cron functions of
      scheduler.go): schedules over a cron parser with its laws [CronLaws]. Scheduler
      (scheduler.go, clockstep.go, pause.go): the cron entries and the stored jobs as a
      state machine; SchedulerSync: its invariant. CatchUp (catchup.go): missed schedules
      and the guard against repeated triggers, against the interface [StoreReads]. JobRuns
      (jobrun.go, window.go): skipped and multi-database runs.
    - KeyLocks (src/internal/runs/locks.go): the deletion locks, call by call.
      ObjectStorage (src/internal/storage/s3_lock.go): objects with versions and locks.
      Purge (src/internal/scheduler/purge.go, purgecopies.go): the removal of deleted
      backups; PurgeSafety: the invariant of a purge around a live archive, against the
      interface [Located] of the locator; PurgeDemo: two disks and a bucket.
    - Outbox (src/internal/notify/outbox.go, src/internal/store/outbox.go): the durable
      queue of notifications, its dispatcher and workers step by step, with crashes;
      OutboxSafety: its invariants and theorems.
    - Protection (src/internal/operations/protection.go, src/internal/settings/protection.go,
      src/internal/store/protection.go): requests, pending changes, protected settings and
      job edits as a state machine of interleaved calls; ProtectionSafety: its invariants
      and theorems; ProtectionDemo: runs of two administrators and three races.
    - AccountStore (src/internal/store/auth.go): the tables of users, sessions and API keys
      and the transactions on them; AccountInvariant: what every sequence of them keeps.
      Accounts (src/internal/auth/service.go, external.go, sessions.go, approval.go),
      ApiKeys (service.go, credentials.go, expiry.go): the handlers of requests as programs
      over their calls, run against an environment that commits other requests'
      transactions in between. AccountSafety, AccountAccess: what holds with any such
      interference, the latter by a small rely-guarantee logic; AccountDemo: witnesses and
      three races.

    ** What is shown

    High availability: mutual exclusion of the fencing check in every reachable state
    of the cluster, for clocks that drift apart by at most the renew interval within a
    TTL, instances in the middle of a release aside; the window of a release itself, in
    which two instances pass, as a concrete run; growth of the fencing epoch and the
    trust rules of a takeover; that a takeover happens; bounds on every waiting time.
    HaSafety is proved against [CasStore], which LeaseStore shows of the local driver.

    PITR: continuity of chains under every sequence of repository operations; soundness
    of a restore plan, the meaning of the liveness check; the purge list. The windows of
    a stream's status are promises the planner keeps, except for a base that starts
    exactly at the end of a failed or stopped run of chunks, shown by an example.
    Retention changes no plan of a base it keeps (but for one pinned during the run), keeps the newest eligible base, and
    leaves what restores have pinned.

    Deletion: undelete inverts delete, the exact condition of the purge, settlement and
    invalidation of copies, soundness and completeness of a retention plan, and that
    the transaction of the prune keeps the last verified backup whatever was planned.

    Selections: the matcher terminates and decides the reference glob (on names without
    a star, the other names being a defect shown by an example); a resolution is exact
    and decides every database once; system databases are never selected.

    Operations: keyed operations exclude each other; [Idle] and [ErrBusy] are exact; a
    connection's limit holds, no slot stays idle while a caller waits, and slots are
    given in the order of the calls, through cancellation, hand-over and shutdown.

    Access: one attempt per pair at a time, a lockout that nothing evades, API keys
    within their creator's access, approvals only by a second, older administrator.

    Snapshots: what a takeover restores is the newest authentic snapshot whatever is
    planted in the storage, retention never changes that choice, names round-trip, and
    the checker's memory changes no outcome.

    Collector: whatever fails, rolls back or restarts, the objects of a chain hold an
    unbroken range of one member's log up to the stored position; a chain ends only when
    the primary denies the position, a divergence keeps exactly the primary's history, a
    tick is a run of repository operations, and its waits are bounded.

    Audit: every log the service leaves verifies, a table that verifies up to a known head
    is unchanged after its anchor, no recorded action is lost on its way to the table.

    Replay: an oplog stream passed through the filter changes renamed selected databases
    only, whatever the stream and however it ends; a replay that succeeds writes exactly
    the selected writes before the limit, and counts what mongorestore will count; the
    scanner sees what the reader sees whatever the write boundaries; derived document
    counts are right; archives round-trip and no prelude makes their reader panic. The
    loops over bytes have the length of their input as fuel, enough by [walkFrom_fuel],
    [scanLoop_rest], [copyLoop_fuel] and [prelude_total].

    Scheduler: every job runs on its stored schedule and on no older one, through edits,
    deletions, loads and their retries; with steady clocks the guard against repeated
    triggers costs at most the first trigger after a start; a takeover catches up only
    fires after a job's newest scheduled run without a backup since, as far as the history
    shows that run; runs start under the lease; windows follow the wall clock of their zone; intervals are the largest gap; a run reported ok is recorded, in
    whatever order its databases end, and known databases are never forgotten.

    Purge: a live archive survives every purge, whatever is listed and fails, except for
    what two examples show; retained versions stay; of what is marked purged no data is left
    (in a bucket with versions and no Object Lock a delete marker hides it), or the record
    named as keeper holds it; the index of holders is never out of date.

    Deletion locks: exclusive, counted exactly, and free of deadlock when every goroutine
    keeps their order. Outbox: the deliveries of a channel succeed in queueing order, again
    only after a crash (runs of fewer than 2^64 steps, so that no counter of settled
    deliveries wraps), and no notification is lost without a reason in the log.

    Delete protection: an approved action runs once, with the rights of a second
    administrator; protections of the settings go down only after their grace period, the
    retention of jobs too but for racing edits; the two-person rule goes off only by an
    approval or in a lockout, for which an unreadable table of users counts.

    Accounts: once the setup is done an administrator remains through every interleaving
    of requests, a local one while single sign-on is on, and its password opens a session
    with the admin scope; replaced passwords, revoked sessions and deleted users are out
    for good, but for a sign-in that overtakes a reset; an API key never exceeds its
    creator.

    ** Bounds

    [mutual_exclusion] bounds the number of steps below 2^64 because the lease's write
    counter is a [uint64] that wraps around. [matchFuel] is a product of the lengths of
    pattern and name, enough by [match_terminates].

    ** Not modelled

    Process and network I/O (mongodump and mongorestore pipelines, drivers, S3, HTTP,
    MCP, CLI, desktop), cryptography (parameters), SQL failures (a failed transaction
    changes nothing), JSON encodings other than the lease's (a [content] is the lease or
    other bytes), logging, metrics, notifications. Executing a job, the
    collector's supervisor, the OIDC protocol and notification channels are not modelled
    either: they wire the modelled parts to services. *)

From Stdlib Require Export ZArith Lia.
From stdpp Require Export base gmap strings sorting pretty numbers functions list.

#[global] Open Scope Z_scope.

(** ** Automation *)

Create HintDb rescue discriminated.
#[export] Hint Constants Opaque : rescue.

(** Case analysis on the boolean tests of the code. *)
Ltac bool_cases :=
  repeat match goal with
  | H : _ && _ = true |- _ => apply andb_prop in H as [? ?]
  | H : _ || _ = false |- _ => apply orb_false_elim in H as [? ?]
  | H : negb _ = true |- _ => apply negb_true_iff in H
  | H : negb _ = false |- _ => apply negb_false_iff in H
  | H : (_ <? _) = true |- _ => apply Z.ltb_lt in H
  | H : (_ <? _) = false |- _ => apply Z.ltb_ge in H
  | H : (_ <=? _) = true |- _ => apply Z.leb_le in H
  | H : (_ <=? _) = false |- _ => apply Z.leb_gt in H
  | H : (_ =? _) = true |- _ => apply Z.eqb_eq in H
  | H : (_ =? _) = false |- _ => apply Z.eqb_neq in H
  | H : bool_decide _ = true |- _ => apply bool_decide_eq_true in H
  | H : bool_decide _ = false |- _ => apply bool_decide_eq_false in H
  end.

(** Splits the innermost conditionals of the goal and of the hypotheses. *)
Ltac split_ifs :=
  repeat match goal with
  | |- context [if ?b then _ else _] => destruct b eqn:?
  | H : context [if ?b then _ else _] |- _ => destruct b eqn:?
  end.

(** ** Results: Go's [(value, error)] pairs *)

Inductive result (E A : Type) : Type :=
| Ok (a : A)
| Err (e : E).
Arguments Ok {E A} a.
Arguments Err {E A} e.

#[global] Instance result_eq_dec {E A} `{EqDecision E, EqDecision A} : EqDecision (result E A).
Proof. solve_decision. Defined.

Definition is_ok {E A} (r : result E A) : bool :=
  match r with Ok _ => true | Err _ => false end.

Declare Scope rescue_scope.
Delimit Scope rescue_scope with rescue.
Notation "x <-! c ; k" :=
  (match c with Ok x => k | Err e => Err e end)
  (at level 60, c at next level, right associativity) : rescue_scope.

(** ** Machine integers *)

(** The value of a [uint64] after wrap-around. *)
Definition u64 (z : Z) : Z := z mod 2 ^ 64.

(** The value of a [uint32] after wrap-around. *)
Definition u32 (z : Z) : Z := z mod 2 ^ 32.

(** The value of an [int64] after wrap-around. *)
Definition i64 (z : Z) : Z := (z + 2 ^ 63) mod 2 ^ 64 - 2 ^ 63.

Lemma u64_small z : 0 <= z < 2 ^ 64 -> u64 z = z.
Proof. apply Z.mod_small. Qed.

Lemma u64_range z : 0 <= u64 z < 2 ^ 64.
Proof. by apply Z.mod_pos_bound. Qed.

Lemma i64_small z : - 2 ^ 63 <= z < 2 ^ 63 -> i64 z = z.
Proof. intros H. unfold i64. rewrite Z.mod_small; lia. Qed.

Lemma i64_range z : - 2 ^ 63 <= i64 z < 2 ^ 63.
Proof. unfold i64. pose proof (Z.mod_pos_bound (z + 2 ^ 63) (2 ^ 64)). lia. Qed.

Lemma i64_add_l a b : i64 (i64 a + b) = i64 (a + b).
Proof.
  unfold i64. f_equal. replace ((a + 2 ^ 63) mod 2 ^ 64 - 2 ^ 63 + b + 2 ^ 63) with ((a + 2 ^ 63) mod 2 ^ 64 + b) by lia.
  rewrite Z.add_mod_idemp_l by lia. f_equal. lia.
Qed.

Lemma i64_add_r a b : i64 (a + i64 b) = i64 (a + b).
Proof. rewrite Z.add_comm, i64_add_l. f_equal. lia. Qed.

Lemma i64_idem a : i64 (i64 a) = i64 a.
Proof. pose proof (i64_range a). by rewrite (i64_small (i64 a)) by lia. Qed.

(** ** Time

    A [time.Time] is the number of nanoseconds since Go's zero time (January 1,
    year 1, 00:00 UTC), so [IsZero] is the test for 0; a [time.Duration] is a
    number of nanoseconds. *)

Definition nanosecond : Z := 1.
Definition millisecond : Z := 1000000 * nanosecond.
Definition second : Z := 1000 * millisecond.
Definition minute : Z := 60 * second.
Definition hour : Z := 60 * minute.
Definition day : Z := 24 * hour.

(** [Time.IsZero]. *)
Definition IsZero (t : Z) : bool := t =? 0.

(** [Time.Sub]: the difference, saturated at the bounds of a [time.Duration]. *)
Definition time_sub (t u : Z) : Z := Z.max (- 2 ^ 63) (Z.min (t - u) (2 ^ 63 - 1)).

(** Seconds from Go's zero time to the Unix epoch. *)
Definition unix_epoch_seconds : Z := 62135596800.

(** [Time.Unix]: the seconds since the Unix epoch, rounded down. *)
Definition time_unix (t : Z) : Z := t / second - unix_epoch_seconds.

(** [time.Unix(s, 0)]. *)
Definition unix_time (s : Z) : Z := (s + unix_epoch_seconds) * second.

Lemma time_sub_ge t u d : d <= 2 ^ 63 - 1 -> d <= time_sub t u -> - 2 ^ 63 < d -> d <= t - u.
Proof. unfold time_sub. lia. Qed.

Lemma time_sub_lt t u d : - 2 ^ 63 < d <= 2 ^ 63 - 1 -> time_sub t u < d <-> t - u < d.
Proof. unfold time_sub. lia. Qed.

Lemma time_sub_small t u : - 2 ^ 63 <= t - u <= 2 ^ 63 - 1 -> time_sub t u = t - u.
Proof. unfold time_sub. lia. Qed.

Lemma time_unix_unix_time s : time_unix (unix_time s) = s.
Proof. unfold time_unix, unix_time. rewrite Z.div_mul; [lia | done]. Qed.

Lemma StronglySorted_weaken {A} (R S : A -> A -> Prop) (l : list A) :
  (∀ a b, R a b -> S a b) -> StronglySorted R l -> StronglySorted S l.
Proof.
  intros HRS. induction 1 as [|a l Hl IH Ha]; constructor; [done|]. rewrite Forall_forall in *. auto.
Qed.

(** ** Stable sorting ([sort.SliceStable], [slices.SortFunc] on distinct keys)

    A stable sort is determined by its order, so the insertion sort below has the
    result of the library's. *)

Section StableSort.
Context {A : Type} (less : A -> A -> bool).

Fixpoint sinsert (x : A) (l : list A) : list A :=
  match l with
  | [] => [x]
  | y :: t => if less y x then y :: sinsert x t else x :: y :: t
  end.

Fixpoint stable_sort (l : list A) : list A :=
  match l with
  | [] => []
  | x :: t => sinsert x (stable_sort t)
  end.

Lemma sinsert_Permutation x l : sinsert x l ≡ₚ x :: l.
Proof.
  induction l as [|y t IH]; simpl; [done|]. destruct (less y x); [|done].
  rewrite IH. apply Permutation_swap.
Qed.

Lemma stable_sort_Permutation l : stable_sort l ≡ₚ l.
Proof. induction l as [|x t IH]; simpl; [done|]. by rewrite sinsert_Permutation, IH. Qed.

Lemma stable_sort_length l : length (stable_sort l) = length l.
Proof. apply Permutation_length, stable_sort_Permutation. Qed.

Lemma elem_of_stable_sort x l : x ∈ stable_sort l <-> x ∈ l.
Proof. by rewrite stable_sort_Permutation. Qed.

(** [le a b]: [b] is not strictly below [a]. *)
Definition not_after (a b : A) : Prop := less b a = false.

Context (less_trans : ∀ a b c, not_after a b -> not_after b c -> not_after a c).
Context (less_asym : ∀ a b, less a b = true -> less b a = false).

Lemma sinsert_StronglySorted x l :
  StronglySorted not_after l -> StronglySorted not_after (sinsert x l).
Proof using less_trans less_asym.
  induction 1 as [|y t Ht IH Hall]; simpl; [by repeat constructor|].
  destruct (less y x) eqn:E.
  - constructor; [done|]. rewrite sinsert_Permutation.
    constructor; [|done]. by apply less_asym.
  - constructor; [by constructor|]. constructor; [done|].
    apply Forall_forall. intros z Hz. eapply less_trans; [exact E|].
    by eapply Forall_forall in Hall.
Qed.

Lemma stable_sort_StronglySorted l : StronglySorted not_after (stable_sort l).
Proof using less_trans less_asym.
  induction l; simpl; [constructor|]. by apply sinsert_StronglySorted.
Qed.

(** Dropping elements before or after a stable sort gives the same list. *)
Lemma sinsert_filter (P : A -> Prop) `{∀ x, Decision (P x)} x l :
  StronglySorted not_after l ->
  filter P (sinsert x l) = if decide (P x) then sinsert x (filter P l) else filter P l.
Proof using less_trans.
  induction 1 as [|y t Ht IH Hall]; simpl; [by rewrite filter_cons|].
  destruct (less y x) eqn:E.
  - rewrite !filter_cons, IH. destruct (decide (P y)), (decide (P x)); simpl; by rewrite ?E.
  - rewrite filter_cons. destruct (decide (P x)) as [Hx|]; [|done].
    destruct (filter P (y :: t)) as [|z r] eqn:Hf; [done|]. simpl.
    assert (z ∈ y :: t) as Hz.
    { apply (list_elem_of_filter P). rewrite Hf. left. }
    assert (less z x = false) as ->; [|done].
    apply elem_of_cons in Hz as [->|Hz]; [done|]. rewrite Forall_forall in Hall.
    exact (less_trans x y z E (Hall z Hz)).
Qed.

Lemma stable_sort_filter (P : A -> Prop) `{∀ x, Decision (P x)} l :
  filter P (stable_sort l) = stable_sort (filter P l).
Proof using less_trans less_asym.
  induction l as [|x l IH]; [done|]. cbn [stable_sort]. rewrite sinsert_filter by apply stable_sort_StronglySorted.
  rewrite filter_cons, IH. by destruct (decide (P x)).
Qed.
End StableSort.

#[export] Hint Resolve stable_sort_Permutation : rescue.

(** ** Lexicographic orders ([ORDER BY], [cmp.Compare] chains)

    An order is a three-way comparison; the class holds for comparisons of integers
    and strings and is closed under taking keys and under tie-breaking. *)

Class TotalCmp {A : Type} (cmp : A -> A -> comparison) : Prop := {
  cmp_anti a b : cmp b a = CompOpp (cmp a b);
  cmp_trans a b c : cmp a b <> Gt -> cmp b c <> Gt -> cmp a c <> Gt
}.

Definition cmpThen (c d : comparison) : comparison := match c with Eq => d | _ => c end.

(** Bytewise comparison of strings, as Go and SQLite's BINARY collation compare them. *)
Fixpoint strCmp (s t : string) : comparison :=
  match s, t with
  | EmptyString, EmptyString => Eq
  | EmptyString, _ => Lt
  | _, EmptyString => Gt
  | String a s', String b t' => cmpThen (N.compare (Ascii.N_of_ascii a) (Ascii.N_of_ascii b)) (strCmp s' t')
  end.

Definition cmpLess {A} (cmp : A -> A -> comparison) (a b : A) : bool :=
  match cmp a b with Lt => true | _ => false end.

#[global] Instance Zcompare_TotalCmp : TotalCmp Z.compare.
Proof. split; [intros a b; apply Z.compare_antisym|]. intros a b c. rewrite !Z.compare_le_iff. lia. Qed.

#[global] Instance strCmp_TotalCmp : TotalCmp strCmp.
Proof.
  split.
  - induction a as [|a s IH]; intros [|b t]; simpl; try done. rewrite (IH t), N.compare_antisym.
    by destruct (N.compare _ _).
  - induction a as [|a s IH]; intros [|b t] [|c u]; simpl; try done.
    destruct (N.compare_spec (Ascii.N_of_ascii a) (Ascii.N_of_ascii b)) as [Hab|Hab|Hab]; simpl; [..|done];
      destruct (N.compare_spec (Ascii.N_of_ascii b) (Ascii.N_of_ascii c)) as [Hbc|Hbc|Hbc]; simpl; try done;
      intros H1 H2; try (rewrite (proj2 (N.compare_lt_iff _ _)) by lia; done).
    rewrite (proj2 (N.compare_eq_iff (Ascii.N_of_ascii a) (Ascii.N_of_ascii c))) by congruence. simpl. eauto.
Qed.

Lemma TotalCmp_key {A B} (f : A -> B) cmp `{!TotalCmp cmp} : TotalCmp (λ a b, cmp (f a) (f b)).
Proof. split; intros; [apply cmp_anti|by eapply cmp_trans]. Qed.

Lemma TotalCmp_flip {A} (cmp : A -> A -> comparison) `{!TotalCmp cmp} : TotalCmp (λ a b, cmp b a).
Proof. split; intros; [apply cmp_anti|by eapply cmp_trans]. Qed.

Section TotalCmpThen.
Context {A : Type} (c1 c2 : A -> A -> comparison) (Hc1 : TotalCmp c1) (Hc2 : TotalCmp c2).

Lemma cmp_eq_l a b c : c1 a b = Eq -> c1 a c = c1 b c.
Proof using All.
  intros He. assert (c1 b a = Eq) as He' by (rewrite (cmp_anti (cmp := c1)), He; done).
  pose proof (cmp_trans (cmp := c1) a b c). pose proof (cmp_trans (cmp := c1) b a c).
  pose proof (cmp_trans (cmp := c1) c a b). pose proof (cmp_trans (cmp := c1) c b a).
  rewrite (cmp_anti (cmp := c1) a c), (cmp_anti (cmp := c1) b c) in *. rewrite He, He' in *.
  destruct (c1 a c), (c1 b c); simpl in *; try done; exfalso; intuition congruence.
Qed.

Lemma TotalCmp_then : TotalCmp (λ a b, cmpThen (c1 a b) (c2 a b)).
Proof using All.
  split.
  - intros a b. rewrite (cmp_anti (cmp := c1) a b), (cmp_anti (cmp := c2) a b). by destruct (c1 a b).
  - intros a b c. destruct (c1 a b) eqn:Hab; simpl; [..|done].
    + rewrite (cmp_eq_l _ _ c Hab). destruct (c1 b c); simpl; [|done..]. apply cmp_trans.
    + intros _ Hbc. assert (c1 a c <> Gt) as Hac.
      { apply (cmp_trans (cmp := c1) a b c); [congruence|]. by destruct (c1 b c). }
      destruct (c1 a c) eqn:E; simpl; try done.
      exfalso. assert (c1 c b = Lt) as Hcb by (rewrite <- (cmp_eq_l _ _ b E); done).
      rewrite (cmp_anti (cmp := c1)) in Hcb. by destruct (c1 b c).
Qed.
End TotalCmpThen.

Section CmpLess.
Context {A : Type} (cmp : A -> A -> comparison) `{!TotalCmp cmp}.

Lemma not_after_cmp a b : not_after (cmpLess cmp) a b <-> cmp a b <> Gt.
Proof using All. unfold not_after, cmpLess. rewrite (cmp_anti (cmp := cmp) a b). by destruct (cmp a b). Qed.

Lemma not_after_cmp_trans a b c :
  not_after (cmpLess cmp) a b -> not_after (cmpLess cmp) b c -> not_after (cmpLess cmp) a c.
Proof using All. rewrite !not_after_cmp. apply cmp_trans. Qed.

Lemma cmpLess_asym a b : cmpLess cmp a b = true -> cmpLess cmp b a = false.
Proof using All. unfold cmpLess. rewrite (cmp_anti (cmp := cmp) a b). by destruct (cmp a b). Qed.

(** A stable sort by an order is sorted by it. *)
Lemma cmp_sort_sorted l : StronglySorted (λ a b, cmp a b <> Gt) (stable_sort (cmpLess cmp) l).
Proof using All.
  apply StronglySorted_weaken with (R := not_after (cmpLess cmp)); [intros a b; apply not_after_cmp|].
  apply stable_sort_StronglySorted; [apply not_after_cmp_trans|apply cmpLess_asym].
Qed.

Lemma cmp_sort_filter (P : A -> Prop) `{∀ x, Decision (P x)} l :
  filter P (stable_sort (cmpLess cmp) l) = stable_sort (cmpLess cmp) (filter P l).
Proof using All. apply stable_sort_filter; [apply not_after_cmp_trans|apply cmpLess_asym]. Qed.
End CmpLess.

(** Tests that agree on the elements of a list filter it alike. *)
Lemma filter_all {A} (P : A -> Prop) `{∀ x, Decision (P x)} (l : list A) : (∀ x, x ∈ l -> P x) -> filter P l = l.
Proof.
  induction l as [|x l IH]; intros HP; [done|]. rewrite filter_cons, decide_True by (apply HP; left).
  f_equal. apply IH. intros y Hy. apply HP. by right.
Qed.

Lemma filter_none {A} (P : A -> Prop) `{∀ x, Decision (P x)} (l : list A) : (∀ x, x ∈ l -> ~ P x) -> filter P l = [].
Proof.
  induction l as [|x l IH]; intros HP; [done|]. rewrite filter_cons, decide_False by (apply HP; left).
  apply IH. intros y Hy. apply HP. by right.
Qed.

Lemma list_filter_agree {A} (P Q : A -> Prop) `{∀ x, Decision (P x), ∀ x, Decision (Q x)} (l : list A) :
  (∀ x, x ∈ l -> P x <-> Q x) -> filter P l = filter Q l.
Proof.
  induction l as [|x l IH]; intros Heq; [done|]. rewrite !filter_cons.
  assert (P x <-> Q x) as Hx by (apply Heq; left).
  rewrite IH by (intros y Hy; apply Heq; by right). destruct (decide (P x)), (decide (Q x)); tauto.
Qed.

Lemma fmap_sublist {A B} (f : A -> B) l1 l2 : l1 `sublist_of` l2 -> f <$> l1 `sublist_of` f <$> l2.
Proof. induction 1; simpl; by constructor. Qed.

(** Elements of a list with distinct keys are determined by their keys. *)
Lemma NoDup_fmap_inj_elem {A B} (f : A -> B) l x y :
  NoDup (f <$> l) -> x ∈ l -> y ∈ l -> f x = f y -> x = y.
Proof.
  induction l as [|z l IH]; simpl; intros Hnd Hx Hy E; [by apply elem_of_nil in Hx|].
  apply NoDup_cons in Hnd as [Hz Hnd].
  apply elem_of_cons in Hx as [->|Hx]; apply elem_of_cons in Hy as [->|Hy]; auto.
  - exfalso. apply Hz. rewrite E. by apply list_elem_of_fmap_2.
  - exfalso. apply Hz. rewrite <- E. by apply list_elem_of_fmap_2.
Qed.

(** ** Counting the entries of a table *)

Section CountIf.
Context {A : Type}.

Definition countIf (f : A -> bool) (m : gmap nat A) : Z :=
  Z.of_nat (size (filter (λ p : nat * A, f p.2 = true) m)).

Definition b2z (b : bool) : Z := if b then 1 else 0.

Lemma countIf_empty f : countIf f ∅ = 0.
Proof. unfold countIf. by rewrite map_filter_empty, map_size_empty. Qed.

Lemma countIf_insert f m i x : m !! i = None -> countIf f (<[i := x]> m) = countIf f m + b2z (f x).
Proof.
  intros Hi. unfold countIf, b2z. destruct (f x) eqn:Hx.
  - rewrite map_filter_insert_True by done. rewrite map_size_insert_None; [lia|].
    by apply map_lookup_filter_None; left.
  - rewrite map_filter_insert_not' by (try done; simpl; congruence). lia.
Qed.

Lemma countIf_delete f m i x : m !! i = Some x -> countIf f m = countIf f (delete i m) + b2z (f x).
Proof. intros Hi. rewrite <- (insert_delete_id _ _ _ Hi) at 1. apply countIf_insert, lookup_delete_eq. Qed.

Lemma countIf_update f m i x y :
  m !! i = Some x -> countIf f (<[i := y]> m) = countIf f m - b2z (f x) + b2z (f y).
Proof.
  intros Hi. rewrite <- insert_delete_eq, countIf_insert by apply lookup_delete_eq.
  pose proof (countIf_delete f _ _ _ Hi). lia.
Qed.

(** What an entry, or its absence, counts for. *)
Definition share (f : A -> bool) (x : option A) : Z := match x with Some x => b2z (f x) | None => 0 end.

Lemma countIf_share f m i y : countIf f (<[i := y]> m) = countIf f m - share f (m !! i) + b2z (f y).
Proof.
  destruct (m !! i) eqn:Hi; simpl; [by rewrite (countIf_update _ _ _ _ _ Hi)|].
  rewrite countIf_insert by done. lia.
Qed.

Lemma countIf_nonneg f m : 0 <= countIf f m.
Proof. unfold countIf. lia. Qed.

Lemma countIf_zero f m i x : countIf f m <= 0 -> m !! i = Some x -> f x = false.
Proof.
  intros Hz Hi. pose proof (countIf_delete f _ _ _ Hi). pose proof (countIf_nonneg f (delete i m)).
  unfold b2z in *. destruct (f x); [lia|done].
Qed.

Lemma countIf_elem f m i x : m !! i = Some x -> f x = true -> 1 <= countIf f m.
Proof.
  intros Hi Hf. pose proof (countIf_delete f _ _ _ Hi). pose proof (countIf_nonneg f (delete i m)).
  rewrite Hf in *. simpl in *. lia.
Qed.

Lemma countIf_unique f m i j x y :
  countIf f m <= 1 -> m !! i = Some x -> f x = true -> m !! j = Some y -> f y = true -> i = j.
Proof.
  intros Hc Hi Hx Hj Hy. destruct (decide (i = j)) as [|Hn]; [done|].
  pose proof (countIf_delete f _ _ _ Hi) as H1. rewrite Hx in H1. simpl in H1.
  assert (1 <= countIf f (delete i m)) by (apply (countIf_elem _ _ j y); [by rewrite lookup_delete_ne|done]). lia.
Qed.

Lemma countIf_pos f m : 0 < countIf f m -> ∃ i x, m !! i = Some x /\ f x = true.
Proof.
  unfold countIf. intros Hp. destruct (map_choose (filter (λ p : nat * A, f p.2 = true) m)) as (i & x & Hi).
  - intros He. rewrite He, map_size_empty in Hp. lia.
  - apply map_lookup_filter_Some in Hi as [? ?]. by exists i, x.
Qed.
End CountIf.

(** ** Stored times (store/sqlite.go, store/auth.go) *)

Definition timeKey (t : Z) : Z :=
  let n := t - unix_epoch_seconds * second in
  if n <? - 2 ^ 63 then - 2 ^ 63 else if n >? 2 ^ 63 - 1 then 2 ^ 63 - 1 else n.

Definition fromKey (n : Z) : Z := n + unix_epoch_seconds * second.

(** A time as it is read back after it was stored. *)
Definition stored (t : Z) : Z := fromKey (timeKey t).

(** ** White space ([strings.TrimSpace])

    Strings are bytes in UTF-8; [spaceRest s] is what follows a leading white-space
    rune of [s] (Unicode's White_Space). *)

Definition byteIs (n : N) (a : Ascii.ascii) : bool := (Ascii.N_of_ascii a =? n)%N.
Definition byteIn (lo hi : N) (a : Ascii.ascii) : bool :=
  ((lo <=? Ascii.N_of_ascii a) && (Ascii.N_of_ascii a <=? hi))%N.

(** The space and the control characters TAB to CR. *)
Definition space1 (a : Ascii.ascii) : bool := byteIs 32 a || byteIn 9 13 a.
(** U+0085 and U+00A0. *)
Definition space2 (a b : Ascii.ascii) : bool := byteIs 194 a && (byteIs 133 b || byteIs 160 b).
(** U+1680, U+2000 to U+200A, U+2028, U+2029, U+202F, U+205F and U+3000. *)
Definition space3 (a b c : Ascii.ascii) : bool :=
  (byteIs 225 a && byteIs 154 b && byteIs 128 c) ||
  (byteIs 226 a && ((byteIs 128 b && (byteIn 128 138 c || byteIs 168 c || byteIs 169 c || byteIs 175 c))
                    || (byteIs 129 b && byteIs 159 c))) ||
  (byteIs 227 a && byteIs 128 b && byteIs 128 c).

Fixpoint trimLeft (s : string) : string :=
  match s with
  | EmptyString => EmptyString
  | String a s1 =>
      if space1 a then trimLeft s1
      else match s1 with
      | String b s2 =>
          if space2 a b then trimLeft s2
          else match s2 with
          | String c s3 => if space3 a b c then trimLeft s3 else s
          | EmptyString => s
          end
      | EmptyString => s
      end
  end.

(** Cuts the longest suffix of white-space runes. *)
Fixpoint trimRight (s : string) : string :=
  match trimLeft s with
  | EmptyString => EmptyString
  | _ => match s with EmptyString => EmptyString | String a s' => String a (trimRight s') end
  end.

Definition TrimSpace (s : string) : string := trimRight (trimLeft s).

(** ** Concatenation of strings *)

Lemma str_app_nil s : EmptyString +:+ s = s.
Proof. done. Qed.

Lemma str_app_cons a s t : String a s +:+ t = String a (s +:+ t).
Proof. done. Qed.

Lemma str_app_assoc (a b c : string) : (a +:+ b) +:+ c = a +:+ (b +:+ c).
Proof. induction a as [|x a IH]; [done|]. change (String x ((a +:+ b) +:+ c) = String x (a +:+ b +:+ c)). by rewrite IH. Qed.

Lemma str_length_app (a b : string) : String.length (a +:+ b) = (String.length a + String.length b)%nat.
Proof. induction a as [|x a IH]; [done|]. change (S (String.length (a +:+ b)) = S (String.length a + String.length b)). by rewrite IH. Qed.

(** Suffixes of the same length split off. *)
Lemma str_app_inj (a b s t : string) : String.length s = String.length t -> a +:+ s = b +:+ t -> a = b /\ s = t.
Proof.
  intros Hl. revert b. induction a as [|x a IH]; intros [|y b] E; [done| | |].
  - exfalso. apply (f_equal String.length) in E. rewrite !str_length_app in E. simpl in E. lia.
  - exfalso. apply (f_equal String.length) in E. rewrite !str_length_app in E. simpl in E. lia.
  - change (String x (a +:+ s) = String y (b +:+ t)) in E. injection E as -> E. by destruct (IH _ E) as [-> ->].
Qed.

Lemma str_app_inj_l (p s t : string) : p +:+ s = p +:+ t -> s = t.
Proof.
  intros E. apply str_app_inj in E as [_ E]; [done|]. apply (f_equal String.length) in E.
  rewrite !str_length_app in E. lia.
Qed.

(** ** Classes of bytes, decimal numbers *)

Fixpoint allBytes (f : Ascii.ascii -> bool) (s : string) : bool :=
  match s with EmptyString => true | String a s => f a && allBytes f s end.

(** Two strings of bytes in a class split off at the first byte outside it. *)
Lemma allBytes_split f s t a b r r' :
  allBytes f s = true -> allBytes f t = true -> f a = false -> f b = false ->
  s +:+ String a r = t +:+ String b r' -> s = t /\ a = b /\ r = r'.
Proof.
  intros Hs. revert t. induction s as [|x s IH]; intros [|y t] Ht Ha Hb E; rewrite ?str_app_cons, ?str_app_nil in E; simpl in *.
  - by injection E as -> ->.
  - injection E as -> E. rewrite Ha in Ht. done.
  - injection E as -> E. rewrite Hb in Hs. done.
  - injection E as -> E. bool_cases. destruct (IH ltac:(done) t) as (-> & -> & ->); done.
Qed.

Definition numeric (a : Ascii.ascii) : bool := byteIn 48 57 a || byteIs 45 a.

Lemma pretty_N_go_numeric x s : allBytes numeric s = true -> allBytes numeric (pretty_N_go x s) = true.
Proof.
  revert s. induction x as [x IH] using (well_founded_induction N.lt_wf_0). intros s Hs.
  destruct (decide (x = 0%N)) as [->|Hx]; [by rewrite pretty_N_go_0|]. rewrite pretty_N_go_step by lia.
  apply IH; [apply N.div_lt; lia|]. simpl. rewrite Hs. unfold pretty_N_char. by repeat case_match.
Qed.

Lemma pretty_numeric (z : Z) : allBytes numeric (pretty z) = true.
Proof.
  assert (∀ p, allBytes numeric (pretty (N.pos p)) = true) as Hp.
  { intros p. unfold pretty, pretty_N. case_decide; [done|]. by apply pretty_N_go_numeric. }
  destruct z as [|p|p]; [done|apply Hp|]. change (pretty (Z.neg p)) with ("-" +:+ pretty (N.pos p)). simpl. apply Hp.
Qed.

Lemma allBytes_mono (f g : Ascii.ascii -> bool) s : (∀ a, f a = true -> g a = true) -> allBytes f s = true -> allBytes g s = true.
Proof. intros Hfg. induction s as [|a s IH]; simpl; [done|]. intros H. bool_cases. by rewrite Hfg, IH. Qed.
