(* ===== verification/LeaseStore.v ===== *)
(** * Conditional writes (src/internal/storage/lease.go, lease_local.go)

    The [LeaseStore] interface of a storage driver (compare-and-swap writes of small
    objects), its laws as a class, the local driver as an instance of them, and the
    probe that refuses a service which ignores its conditions. *)

From S2P Require Import Prelude.

(** The errors of a conditional read or write: the sentinel errors of storage.go and
    lease.go, and [ErrStorage] for every other failure (I/O, timeout). *)
Inductive StoreErr : Type :=
| ErrNotFound
| ErrPreconditionFailed
| ErrConditionalWritesUnsupported
| ErrObjectTooLarge
| ErrStorage.

#[global] Instance StoreErr_eq_dec : EqDecision StoreErr.
Proof. solve_decision. Defined.

Definition MaxLeaseObjectSize : Z := Z.shiftl 64 10.

(** The operations of a driver with the capability; the new state is returned
    beside the result. *)
Class LeaseStore (St Data : Type) : Type := {
  ReadVersioned : St -> string -> result StoreErr (Data * string);
  CreateIfAbsent : St -> string -> Data -> St * result StoreErr string;
  ReplaceIfMatch : St -> string -> Data -> string -> St * result StoreErr string
}.

(** What the interface promises its callers ([fits] says which contents are within
    [MaxLeaseObjectSize]). *)
Class CasStore (St Data : Type) `{LeaseStore St Data} (fits : Data -> Prop) : Prop := {
  cas_create_absent st k d :
    fits d -> ReadVersioned st k = Err ErrNotFound ->
    ∃ st' v, CreateIfAbsent st k d = (st', Ok v) /\ ReadVersioned st' k = Ok (d, v);
  cas_create_exists st k d x :
    fits d -> ReadVersioned st k = Ok x -> CreateIfAbsent st k d = (st, Err ErrPreconditionFailed);
  cas_replace_match st k d d0 v :
    fits d -> ReadVersioned st k = Ok (d0, v) ->
    ∃ st' v', ReplaceIfMatch st k d v = (st', Ok v') /\ ReadVersioned st' k = Ok (d, v');
  cas_replace_mismatch st k d d0 v v0 :
    fits d -> ReadVersioned st k = Ok (d0, v0) -> v <> v0 ->
    ReplaceIfMatch st k d v = (st, Err ErrPreconditionFailed);
  cas_replace_absent st k d v :
    fits d -> ReadVersioned st k = Err ErrNotFound ->
    ReplaceIfMatch st k d v = (st, Err ErrPreconditionFailed);
  cas_create_sound st k d st' r :
    CreateIfAbsent st k d = (st', r) ->
    match r with
    | Ok v => ReadVersioned st k = Err ErrNotFound /\ ReadVersioned st' k = Ok (d, v)
    | Err _ => st' = st
    end;
  cas_replace_sound st k d v st' r :
    ReplaceIfMatch st k d v = (st', r) ->
    match r with
    | Ok v' => (∃ d0, ReadVersioned st k = Ok (d0, v)) /\ ReadVersioned st' k = Ok (d, v')
    | Err _ => st' = st
    end;
  cas_version_content st1 st2 k d1 d2 v :
    ReadVersioned st1 k = Ok (d1, v) -> ReadVersioned st2 k = Ok (d2, v) -> d1 = d2;
  cas_version_nonempty st k d v : ReadVersioned st k = Ok (d, v) -> v <> ""
}.

(** ** The local driver

    Objects are files below the storage root; the operations run under the sidecar
    lock of their key, so each is one atomic step. [contentVersion] (the SHA-256 of
    the content) is a parameter. *)
Module Local.
Section Local.
Context {Data : Type} (size : Data -> Z) (contentVersion : Data -> string).

(** The files of the storage root, by key. *)
Definition files : Type := gmap string Data.

Definition readLeaseFile (fs : files) (key : string) : result StoreErr Data :=
  match (fs : gmap string Data) !! key with
  | None => Err ErrNotFound
  | Some data =>
      if size data >? MaxLeaseObjectSize then Err ErrObjectTooLarge else Ok data
  end.

Definition read (fs : files) (key : string) : result StoreErr (Data * string) :=
  match readLeaseFile fs key with
  | Err e => Err e
  | Ok data => Ok (data, contentVersion data)
  end.

Definition create (fs : files) (key : string) (data : Data) : files * result StoreErr string :=
  if size data >? MaxLeaseObjectSize then (fs, Err ErrObjectTooLarge) else
  match (fs : gmap string Data) !! key with
  | Some _ => (fs, Err ErrPreconditionFailed)
  | None => (<[key := data]> (fs : gmap string Data), Ok (contentVersion data))
  end.

Definition replace (fs : files) (key : string) (data : Data) (version : string)
  : files * result StoreErr string :=
  if size data >? MaxLeaseObjectSize then (fs, Err ErrObjectTooLarge) else
  match readLeaseFile fs key with
  | Err ErrNotFound => (fs, Err ErrPreconditionFailed)
  | Err e => (fs, Err e)
  | Ok current =>
      if bool_decide (contentVersion current = version)
      then (<[key := data]> (fs : gmap string Data), Ok (contentVersion data))
      else (fs, Err ErrPreconditionFailed)
  end.

#[export] Instance local_LeaseStore : LeaseStore files Data := {
  ReadVersioned := read;
  CreateIfAbsent := create;
  ReplaceIfMatch := replace
}.

Definition fits (data : Data) : Prop := size data <= MaxLeaseObjectSize.

Lemma fits_test data : fits data -> (size data >? MaxLeaseObjectSize) = false.
Proof. unfold fits. lia. Qed.

Lemma read_notfound fs key : read fs key = Err ErrNotFound <-> (fs : gmap string Data) !! key = None.
Proof. unfold read, readLeaseFile. destruct (_ !! _); simpl; [|done]. by split_ifs. Qed.

Lemma read_ok fs key d v :
  read fs key = Ok (d, v) <->
  (fs : gmap string Data) !! key = Some d /\ fits d /\ v = contentVersion d.
Proof.
  unfold read, readLeaseFile, fits. destruct (_ !! _) as [d'|]; simpl; [|naive_solver].
  destruct (_ >? _) eqn:E; split; intros Hr; destruct_and?; simplify_eq; try done; try lia.
  repeat split; lia.
Qed.

(** The digest of the content: injective up to collisions, and never empty. *)
Context `{!Inj (=) (=) contentVersion} (contentVersion_nonempty : ∀ d, contentVersion d <> "").

(** Writing and reading back. *)
Lemma read_insert fs key d :
  fits d -> read (<[key := d]> (fs : gmap string Data)) key = Ok (d, contentVersion d).
Proof. intros Hd. apply read_ok. by rewrite lookup_insert_eq. Qed.

Lemma fits_of_test data : (size data >? MaxLeaseObjectSize) = false -> fits data.
Proof. unfold fits. lia. Qed.

#[export] Instance local_CasStore : CasStore files Data fits.
Proof using Inj0 contentVersion_nonempty.
  split; simpl.
  - intros fs k d Hd Hn%read_notfound. unfold create. rewrite (fits_test _ Hd), Hn.
    do 2 eexists. split; [done|]. by apply read_insert.
  - intros fs k d [d' v] Hd (Hl & _ & _)%read_ok. unfold create. by rewrite (fits_test _ Hd), Hl.
  - intros fs k d d0 v Hd (Hl & Hf & ->)%read_ok. unfold replace, readLeaseFile.
    rewrite (fits_test _ Hd), Hl, (fits_test _ Hf), bool_decide_true by done.
    do 2 eexists. split; [done|]. by apply read_insert.
  - intros fs k d d0 v v0 Hd (Hl & Hf & ->)%read_ok Hne. unfold replace, readLeaseFile.
    by rewrite (fits_test _ Hd), Hl, (fits_test _ Hf), bool_decide_false.
  - intros fs k d v Hd Hn%read_notfound. unfold replace, readLeaseFile.
    by rewrite (fits_test _ Hd), Hn.
  - intros fs k d fs' r. unfold create. destruct (_ >? _) eqn:E; [by intros [= <- <-]|].
    destruct (_ !! _) eqn:El; intros [= <- <-]; [done|].
    split; [by apply read_notfound|by apply read_insert, fits_of_test].
  - intros fs k d v fs' r. unfold replace. destruct (_ >? _) eqn:E; [by intros [= <- <-]|].
    destruct (readLeaseFile fs k) as [c|[]] eqn:Er; [|by intros [= <- <-]..].
    case_bool_decide as Hv; intros [= <- <-]; [|done]. subst v.
    split; [|by apply read_insert, fits_of_test]. exists c. unfold read. by rewrite Er.
  - intros fs1 fs2 k d1 d2 v (_ & _ & ->)%read_ok (_ & _ & Hv)%read_ok. by apply (inj _).
  - intros fs k d v (_ & _ & ->)%read_ok. apply contentVersion_nonempty.
Qed.
End Local.
End Local.

(** ** The probe ([ProbeLeaseStore]) *)
Module Probe.

Definition fakeVersion : string := "00000000000000000000000000000000".
Definition otherFake : string := "11111111111111111111111111111111".

(** The one-character string of a double quote. *)
Definition dquote : string := String (Ascii.ascii_of_nat 34) EmptyString.

(** Whether the last character of [v] is [c]. *)
Fixpoint lastIs (c : Ascii.ascii) (v : string) : bool :=
  match v with
  | EmptyString => false
  | String a EmptyString => bool_decide (a = c)
  | String _ v' => lastIs c v'
  end.

(** [len(v) >= 2 && v[0] == quote && v[len(v)-1] == quote]. *)
Definition quoted (v : string) : bool :=
  match v with
  | String a (String b v') =>
      bool_decide (a = Ascii.ascii_of_nat 34) && lastIs (Ascii.ascii_of_nat 34) (String b v')
  | _ => false
  end.

Definition wrongVersion (v : string) : string :=
  if quoted v then
    if bool_decide (v = dquote +:+ fakeVersion +:+ dquote)
    then dquote +:+ otherFake +:+ dquote
    else dquote +:+ fakeVersion +:+ dquote
  else if bool_decide (v = fakeVersion) then otherFake else fakeVersion.

Lemma wrongVersion_neq v : wrongVersion v <> v.
Proof. unfold wrongVersion. destruct (quoted v); case_bool_decide as E; subst; done || congruence. Qed.

Section Probe.
Context {St Data : Type} `{LeaseStore St Data} `{EqDecision Data}.

(** The steps of the probe whose content is written. *)
Inductive step : Type := SCreate | SCreateAgain | SWrongVersion | SReplace.

(** [body] is the content of a step (a fresh nonce makes it unlike any other),
    and [del] deletes the probe object again (its error, if any). *)
Context (body : step -> Data) (del : option (St -> string -> St * option StoreErr)).

Definition probe_checks (st : St) (key version : string) : St * result StoreErr unit :=
  match CreateIfAbsent st key (body SCreateAgain) with
  | (st, Ok _) => (st, Err ErrConditionalWritesUnsupported)
  | (st, Err ErrPreconditionFailed) =>
      match ReplaceIfMatch st key (body SWrongVersion) (wrongVersion version) with
      | (st, Ok _) => (st, Err ErrConditionalWritesUnsupported)
      | (st, Err ErrPreconditionFailed) =>
          match ReplaceIfMatch st key (body SReplace) version with
          | (st, Err e) => (st, Err e)
          | (st, Ok _) =>
              match ReadVersioned st key with
              | Err e => (st, Err e)
              | Ok (data, _) =>
                  (st, if bool_decide (data = body SReplace) then Ok tt
                       else Err ErrConditionalWritesUnsupported)
              end
          end
      | (st, Err e) => (st, Err e)
      end
  | (st, Err e) => (st, Err e)
  end.

Definition ProbeLeaseStore (st : St) (key : string) : St * result StoreErr unit :=
  match CreateIfAbsent st key (body SCreate) with
  | (st, Err e) => (st, Err e)
  | (st, Ok version) =>
      let '(st, r) := probe_checks st key version in
      match del with
      | None => (st, r)
      | Some d =>
          match d st key with
          | (st, Some e) =>
              (st, match r with
                   | Ok _ => if bool_decide (e = ErrNotFound) then r else Err e
                   | Err _ => r
                   end)
          | (st, None) => (st, r)
          end
      end
  end.

Context {fits : Data -> Prop} `{!CasStore St Data fits}.

(** The checks pass on every store that keeps the laws. *)
Lemma probe_checks_ok st key d version :
  (∀ s, fits (body s)) -> ReadVersioned st key = Ok (d, version) ->
  snd (probe_checks st key version) = Ok tt.
Proof using CasStore0.
  intros Hf Hr. unfold probe_checks.
  rewrite (cas_create_exists _ _ _ _ (Hf SCreateAgain) Hr).
  rewrite (cas_replace_mismatch _ _ _ _ _ _ (Hf SWrongVersion) Hr (wrongVersion_neq _)).
  destruct (cas_replace_match _ _ _ _ _ (Hf SReplace) Hr) as (st' & v' & -> & ->).
  by rewrite bool_decide_true.
Qed.
End Probe.
End Probe.

(** A driver that keeps the laws of conditional writes passes the probe on a key
    that does not exist, whatever the deletion of the probe object does short of
    failing. *)
Theorem probe_accepts_cas {St Data : Type} `{LeaseStore St Data, EqDecision Data}
    {fits : Data -> Prop} `{!CasStore St Data fits}
    (body : Probe.step -> Data) (del : option (St -> string -> St * option StoreErr)) st key :
  (∀ s, fits (body s)) ->
  ReadVersioned st key = Err ErrNotFound ->
  (∀ d, del = Some d -> ∀ st' k, snd (d st' k) = None) ->
  snd (Probe.ProbeLeaseStore body del st key) = Ok tt.
Proof.
  intros Hf Hn Hd. unfold Probe.ProbeLeaseStore.
  destruct (cas_create_absent _ _ _ (Hf Probe.SCreate) Hn) as (st' & v & -> & Hr).
  pose proof (Probe.probe_checks_ok body _ _ _ _ Hf Hr) as Hc.
  destruct (Probe.probe_checks _ _ _ _) as [st2 r]. simpl in Hc. subst r.
  destruct del as [d|]; [|done]. specialize (Hd d eq_refl st2 key).
  destruct (d st2 key) as [st3 o]. simpl in Hd. by subst.
Qed.

(** A concrete run of the local driver on an empty root. *)
Lemma probe_accepts_cas_witness :
  snd (Probe.ProbeLeaseStore (H := Local.local_LeaseStore (λ _ : string, 0) (String.append "v"))
         (λ s, match s with Probe.SCreate => "a" | Probe.SCreateAgain => "b"
                          | Probe.SWrongVersion => "c" | Probe.SReplace => "d" end)
         (Some (λ st k, (delete k (st : gmap string string), None)))
         (∅ : gmap string string) "probe") = Ok tt.
Proof.
  apply (probe_accepts_cas (H := Local.local_LeaseStore (λ _ : string, 0) (String.append "v"))
           (fits := Local.fits (λ _ : string, 0))
           (CasStore0 := Local.local_CasStore (λ _ : string, 0) (String.append "v") (λ _ e, ltac:(discriminate e)))).
  - intros s. vm_compute. discriminate.
  - reflexivity.
  - intros d [= <-] st' k. reflexivity.
Defined.

(** A service that accepts a conditional create of an existing object, or a
    replace whose version does not match, is refused as unsupported: the probe never
    passes a store that ignores a condition. *)
Theorem probe_refuses_ignored_conditions {St Data : Type} `{LeaseStore St Data, EqDecision Data}
    (body : Probe.step -> Data) st key st1 version :
  CreateIfAbsent st key (body Probe.SCreate) = (st1, Ok version) ->
  (is_ok (snd (CreateIfAbsent st1 key (body Probe.SCreateAgain))) = true \/
   (∃ st2, CreateIfAbsent st1 key (body Probe.SCreateAgain) = (st2, Err ErrPreconditionFailed) /\
      is_ok (snd (ReplaceIfMatch st2 key (body Probe.SWrongVersion) (Probe.wrongVersion version))) = true)) ->
  snd (Probe.ProbeLeaseStore body None st key) = Err ErrConditionalWritesUnsupported.
Proof.
  intros Hc Hbad. unfold Probe.ProbeLeaseStore, Probe.probe_checks. rewrite Hc.
  destruct Hbad as [Hbad|(st2 & -> & Hbad)].
  - destruct (CreateIfAbsent st1 _ _) as [? [v|e]]; [done|discriminate].
  - destruct (ReplaceIfMatch st2 _ _ _) as [? [v|e]]; [done|discriminate].
Qed.

(** A service that ignores every condition (a plain overwrite) is refused. *)
Definition blind_store : LeaseStore (gmap string string) string := {|
  ReadVersioned := λ st k, match st !! k with Some d => Ok (d, d) | None => Err ErrNotFound end;
  CreateIfAbsent := λ st k d, (<[k := d]> st, Ok d);
  ReplaceIfMatch := λ st k d _, (<[k := d]> st, Ok d)
|}.

Lemma probe_refuses_ignored_conditions_witness :
  snd (Probe.ProbeLeaseStore (H := blind_store) (λ _, "x") None ∅ "probe") =
    Err ErrConditionalWritesUnsupported.
Proof.
  apply (probe_refuses_ignored_conditions (H := blind_store) (λ _, "x") ∅ "probe"
           (<["probe" := "x"]> ∅) "x").
  - reflexivity.
  - left. reflexivity.
Defined.
