(* ===== verification/Lease.v ===== *)
(** * The lease object (src/internal/ha/lease.go, state.go)

    The content of the lease, its authenticated form, the snapshot marks it carries
    and the HA state an instance keeps. HMAC-SHA256 and the RFC 3339 rendering of a
    time are parameters of the definitions that use them. *)

From S2P Require Import Prelude.

(** ** Hexadecimal text (encoding/hex) on byte strings *)
Module Hex.

Definition digit (n : N) : Ascii.ascii :=
  if (n <? 10)%N then Ascii.ascii_of_N (48 + n) else Ascii.ascii_of_N (87 + n).

Definition value (a : Ascii.ascii) : option N :=
  let n := Ascii.N_of_ascii a in
  if ((48 <=? n) && (n <=? 57))%N then Some (n - 48)%N
  else if ((97 <=? n) && (n <=? 102))%N then Some (n - 87)%N
  else if ((65 <=? n) && (n <=? 70))%N then Some (n - 55)%N
  else None.

(** [hex.EncodeToString]. *)
Fixpoint encode (s : string) : string :=
  match s with
  | EmptyString => EmptyString
  | String a s' =>
      String (digit (Ascii.N_of_ascii a / 16))
        (String (digit (Ascii.N_of_ascii a mod 16)) (encode s'))
  end.

(** [hex.DecodeString]: [None] for an odd length or a character that is no digit. *)
Fixpoint decode (s : string) : option string :=
  match s with
  | EmptyString => Some EmptyString
  | String a (String b s') =>
      match value a, value b, decode s' with
      | Some x, Some y, Some r => Some (String (Ascii.ascii_of_N (16 * x + y)) r)
      | _, _, _ => None
      end
  | String _ EmptyString => None
  end.

Lemma decode_encode s : decode (encode s) = Some s.
Proof.
  induction s as [|a s IH]; [done|]. cbn [encode decode]. rewrite IH.
  destruct a as [[] [] [] [] [] [] [] []]; reflexivity.
Qed.

End Hex.

(** ** Roles and snapshot marks *)

Inductive Role : Type := RoleStandby | RoleActive.

#[global] Instance Role_eq_dec : EqDecision Role.
Proof. solve_decision. Defined.

(** How new a metadata snapshot is: its epoch, then its time. *)
Record SnapshotMark : Type := mkMark { mEpoch : Z; mAt : Z }.

#[global] Instance SnapshotMark_eq_dec : EqDecision SnapshotMark.
Proof. solve_decision. Defined.

#[global] Instance SnapshotMark_countable : Countable SnapshotMark.
Proof.
  apply (inj_countable' (λ m, (mEpoch m, mAt m)) (λ p, mkMark p.1 p.2)). by intros [].
Defined.

Definition zeroMark : SnapshotMark := mkMark 0 0.

(** [SnapshotMark.Before]. *)
Definition Before (m o : SnapshotMark) : bool :=
  if negb (mEpoch m =? mEpoch o) then mEpoch m <? mEpoch o else mAt m <? mAt o.

(** [SnapshotMark.IsZero]. *)
Definition markIsZero (m : SnapshotMark) : bool := (mEpoch m =? 0) && IsZero (mAt m).

Definition LaterMark (a b : SnapshotMark) : SnapshotMark := if Before a b then b else a.

(** [notBefore a b]: [a] is at least as new as [b]. *)
Definition notBefore (a b : SnapshotMark) : Prop := Before a b = false.

Lemma notBefore_alt a b :
  notBefore a b <-> mEpoch b < mEpoch a \/ (mEpoch a = mEpoch b /\ mAt b <= mAt a).
Proof.
  unfold notBefore, Before. destruct (Z.eqb_spec (mEpoch a) (mEpoch b)); simpl;
    destruct (Z.ltb_spec (mAt a) (mAt b)), (Z.ltb_spec (mEpoch a) (mEpoch b)); split;
    intros; try discriminate; lia || done.
Qed.

Lemma notBefore_refl a : notBefore a a.
Proof. apply notBefore_alt. lia. Qed.

Lemma notBefore_trans a b c : notBefore a b -> notBefore b c -> notBefore a c.
Proof. rewrite !notBefore_alt. lia. Qed.

Lemma Before_notBefore a b : Before a b = true -> notBefore b a.
Proof. rewrite notBefore_alt. unfold Before. split_ifs; bool_cases; lia. Qed.

(** [LaterMark] is the least upper bound in the order of marks. *)
Lemma LaterMark_l a b : notBefore (LaterMark a b) a.
Proof. unfold LaterMark. destruct (Before a b) eqn:E; auto using Before_notBefore, notBefore_refl. Qed.

Lemma LaterMark_r a b : notBefore (LaterMark a b) b.
Proof. unfold LaterMark. destruct (Before a b) eqn:E; auto using notBefore_refl. Qed.

#[export] Hint Resolve notBefore_refl LaterMark_l LaterMark_r : rescue.

(** ** Cluster names and keys *)

Definition Prefix : string := "_mongorescue/ha/".

(** A character of the class [a-z0-9]. *)
Definition isLowerDigit (a : Ascii.ascii) : bool :=
  let n := Ascii.N_of_ascii a in
  (((97 <=? n) && (n <=? 122)) || ((48 <=? n) && (n <=? 57)))%N.

(** A character of the class [a-z0-9._-]. *)
Definition isClusterChar (a : Ascii.ascii) : bool :=
  let n := Ascii.N_of_ascii a in
  isLowerDigit a || ((n =? 46) || (n =? 95) || (n =? 45))%N.

(** [ValidateCluster]: whether the name matches [^[a-z0-9][a-z0-9._-]{0,62}$]. *)
Definition ValidateCluster (name : string) : bool :=
  match name with
  | EmptyString => false
  | String a s => isLowerDigit a && allBytes isClusterChar s && (Nat.leb (String.length s) 62)
  end.

Definition LeaseKey (cluster : string) : string := Prefix +:+ cluster +:+ "/lease.json".

Definition ProbeKey (cluster instanceID : string) : string :=
  Prefix +:+ cluster +:+ "/probe-" +:+ instanceID +:+ ".json".

(** ** The lease *)

Record Lease : Type := mkLease {
  Cluster : string;
  Holder : string;
  HolderName : string;
  Epoch : Z;
  Seq : Z;
  RenewedAt : Z;
  TTLSeconds : Z;
  KeyID : string;
  LastSnapshotEpoch : Z;
  LastSnapshotAt : Z;
  MAC : string
}.

#[global] Instance Lease_eq_dec : EqDecision Lease.
Proof. solve_decision. Defined.

#[global] Instance Lease_countable : Countable Lease.
Proof.
  apply (inj_countable'
    (λ l, (Cluster l, Holder l, HolderName l, (Epoch l, Seq l, RenewedAt l), (TTLSeconds l, KeyID l),
           (LastSnapshotEpoch l, LastSnapshotAt l, MAC l)))
    (λ '(c, h, n, (e, s, r), (t, k), (le, la, m)), mkLease c h n e s r t k le la m)).
  by intros [].
Defined.

Definition zeroLease : Lease := mkLease "" "" "" 0 0 0 0 "" 0 0 "".

(** [Lease.SnapshotMark]. *)
Definition leaseMark (l : Lease) : SnapshotMark := mkMark (LastSnapshotEpoch l) (LastSnapshotAt l).

Definition withSnapshotMark (m : SnapshotMark) (l : Lease) : Lease :=
  mkLease (Cluster l) (Holder l) (HolderName l) (Epoch l) (Seq l) (RenewedAt l) (TTLSeconds l)
    (KeyID l) (mEpoch m) (if IsZero (mAt m) then 0 else mAt m) (MAC l).

Definition setMAC (mac : string) (l : Lease) : Lease :=
  mkLease (Cluster l) (Holder l) (HolderName l) (Epoch l) (Seq l) (RenewedAt l) (TTLSeconds l)
    (KeyID l) (LastSnapshotEpoch l) (LastSnapshotAt l) mac.

(** [next.Seq++; next.RenewedAt = wall]: the content of the next write. *)
Definition bump (renewedAt : Z) (l : Lease) : Lease :=
  mkLease (Cluster l) (Holder l) (HolderName l) (Epoch l) (u64 (Seq l + 1)) renewedAt (TTLSeconds l)
    (KeyID l) (LastSnapshotEpoch l) (LastSnapshotAt l) (MAC l).

(** [next.Holder, next.HolderName = "", ""]. *)
Definition clearHolder (l : Lease) : Lease :=
  mkLease (Cluster l) "" "" (Epoch l) (Seq l) (RenewedAt l) (TTLSeconds l)
    (KeyID l) (LastSnapshotEpoch l) (LastSnapshotAt l) (MAC l).

Definition Released (l : Lease) : bool := bool_decide (Holder l = "").

(** [Lease.ttl]: the product is taken in [int64]. *)
Definition leaseTTL (l : Lease) : Z := i64 (TTLSeconds l * second).

Lemma leaseMark_withSnapshotMark m l : leaseMark (withSnapshotMark m l) = m.
Proof.
  destruct m as [e a]. unfold leaseMark, withSnapshotMark, IsZero. simpl.
  destruct (a =? 0) eqn:E; bool_cases; by subst.
Qed.

(** ** Lease objects in storage

    The content of the lease object: a JSON document that decodes to a lease, or
    bytes that do not decode. *)
Inductive content : Type :=
| LeaseJSON (l : Lease)
| Garbage (bytes : string).

#[global] Instance content_eq_dec : EqDecision content.
Proof. solve_decision. Defined.

#[global] Instance content_countable : Countable content.
Proof.
  apply (inj_countable'
    (λ c, match c with LeaseJSON l => inl l | Garbage s => inr s end)
    (λ s, match s with inl l => LeaseJSON l | inr b => Garbage b end)).
  by intros [].
Defined.

(** The times json.Marshal accepts: the years 0 to 9999. *)
Definition marshalable (t : Z) : bool := (- 366 * day <=? t) && (t <? 3652059 * day).

(** [Lease.encode]: json.Marshal refuses a time outside the years 0 to 9999. *)
Definition encodeLease (l : Lease) : option content :=
  if marshalable (RenewedAt l) && marshalable (LastSnapshotAt l) then Some (LeaseJSON l) else None.

Definition DecodeLease (data : content) : option Lease :=
  match data with
  | LeaseJSON l => Some l
  | Garbage _ => None
  end.

Lemma DecodeLease_encode l c : encodeLease l = Some c -> DecodeLease c = Some l.
Proof. unfold encodeLease. split_ifs; by intros [= <-]. Qed.

(** ** Authentication *)
Section Authentication.
(** HMAC-SHA256 (key, message) and [t.UTC().Format(time.RFC3339Nano)]. *)
Context (hmac : string -> string -> string) (rfc3339 : Z -> string).

Definition NUL : string := String (Ascii.ascii_of_nat 0) EmptyString.

Definition macInput (l : Lease) : string :=
  let at_ := if IsZero (LastSnapshotAt l) then "" else rfc3339 (LastSnapshotAt l) in
  "mongorescue-ha-lease/1" +:+ NUL +:+ Cluster l +:+ NUL +:+ pretty (Epoch l) +:+ NUL
    +:+ Holder l +:+ NUL +:+ pretty (LastSnapshotEpoch l) +:+ NUL +:+ at_.

Definition leaseMAC (l : Lease) (key : string) : string := hmac key (macInput l).

Definition sign (key : string) (l : Lease) : Lease := setMAC (Hex.encode (leaseMAC l key)) l.

Definition Authentic (l : Lease) (key : string) : bool :=
  match Hex.decode (MAC l) with
  | None => false
  | Some mac => negb (bool_decide (MAC l = "")) && bool_decide (mac = leaseMAC l key)
  end.

Lemma macInput_setMAC mac l : macInput (setMAC mac l) = macInput l.
Proof. done. Qed.

(** A signed lease is authentic under the same key. *)
Lemma sign_Authentic key l :
  (∀ k s, hmac k s <> "") -> Authentic (sign key l) key = true.
Proof.
  intros Hne. unfold Authentic, sign. simpl. rewrite Hex.decode_encode.
  rewrite (bool_decide_true (leaseMAC l key = _)) by done.
  destruct (leaseMAC l key) eqn:E; [|done]. by destruct (Hne key (macInput l)).
Qed.
End Authentication.

(** ** Framing of the MAC input *)

Definition noNUL (s : string) : Prop := allBytes (λ a, negb (bool_decide (a = Ascii.ascii_of_nat 0))) s = true.

(** Fields without a NUL before a NUL separator are read back uniquely. *)
Lemma frame_inj s1 s2 t1 t2 :
  noNUL s1 -> noNUL s2 -> s1 +:+ NUL +:+ t1 = s2 +:+ NUL +:+ t2 -> s1 = s2 /\ t1 = t2.
Proof. intros H1 H2 E. by apply (allBytes_split _ _ _ _ _ _ _ H1 H2) in E as (-> & _ & ->). Qed.

Lemma pretty_Z_noNUL (z : Z) : noNUL (pretty z).
Proof. eapply allBytes_mono, pretty_numeric. intros a. by destruct a as [[] [] [] [] [] [] [] []]. Qed.

Lemma macInput_fields rfc3339 l1 l2 :
  noNUL (Cluster l1) -> noNUL (Cluster l2) -> noNUL (Holder l1) -> noNUL (Holder l2) ->
  macInput rfc3339 l1 = macInput rfc3339 l2 ->
  Cluster l1 = Cluster l2 /\ Epoch l1 = Epoch l2 /\ Holder l1 = Holder l2 /\
  LastSnapshotEpoch l1 = LastSnapshotEpoch l2 /\
  (if IsZero (LastSnapshotAt l1) then "" else rfc3339 (LastSnapshotAt l1)) =
  (if IsZero (LastSnapshotAt l2) then "" else rfc3339 (LastSnapshotAt l2)).
Proof.
  intros ???? Heq. unfold macInput in Heq.
  apply frame_inj in Heq as [_ Heq]; [|done..].
  apply frame_inj in Heq as [? Heq]; [|done..].
  apply frame_inj in Heq as [?%(inj pretty) Heq]; [|by apply pretty_Z_noNUL..].
  apply frame_inj in Heq as [? Heq]; [|done..].
  apply frame_inj in Heq as [?%(inj pretty) Heq]; [|by apply pretty_Z_noNUL..].
  done.
Qed.

(** The fields a MAC covers. *)
Definition macFields (l : Lease) : string * Z * string * SnapshotMark :=
  (Cluster l, Epoch l, Holder l, leaseMark l).

(** Two leases with the same MAC input agree on every field the MAC covers
    (cluster, epoch, holder and last snapshot): no field can be shifted into another,
    for clusters and holders without a NUL byte. *)
Theorem macInput_injective (rfc3339 : Z -> string) l1 l2 :
  (∀ t u, rfc3339 t = rfc3339 u -> t = u) -> (∀ t, rfc3339 t <> "") ->
  noNUL (Cluster l1) -> noNUL (Cluster l2) -> noNUL (Holder l1) -> noNUL (Holder l2) ->
  macInput rfc3339 l1 = macInput rfc3339 l2 -> macFields l1 = macFields l2.
Proof.
  intros Hinj Hne ???? (Hc & He & Hh & Hl & Hat)%macInput_fields; [|done..].
  unfold macFields, leaseMark. rewrite Hc, He, Hh, Hl. do 2 f_equal.
  unfold IsZero in Hat. destruct (Z.eqb_spec (LastSnapshotAt l1) 0) as [->|_],
    (Z.eqb_spec (LastSnapshotAt l2) 0) as [->|_]; [done|..|by apply Hinj].
  - by destruct (Hne (LastSnapshotAt l2)).
  - by destruct (Hne (LastSnapshotAt l1)).
Qed.

Lemma macInput_injective_witness :
  macFields (mkLease "prod" "a" "host" 3 9 0 30 "k" 2 77 "") =
  macFields (mkLease "prod" "a" "renamed" 3 10 5 60 "k" 2 77 "ff").
Proof.
  apply (macInput_injective (λ t, "t" +:+ pretty t)); try reflexivity.
  - intros t u Htu. simpl in Htu. simplify_eq. done.
  - intros t. discriminate.
Defined.

(** ** The HA state of an instance (state.go) *)

Record State : Type := mkState {
  InstanceID : string;
  stCluster : string;
  LastActiveEpoch : Z;
  Clusters : gmap string SnapshotMark;
  AuthenticatedLease : gset string;
  UpdatedAt : Z
}.

Definition Seen (st : State) (cluster : string) : bool :=
  bool_decide (is_Some (Clusters st !! cluster)) ||
  (bool_decide (stCluster st = cluster) && (LastActiveEpoch st >? 0)).

(** A missing entry reads as the zero mark. *)
Definition HighWater (st : State) (cluster : string) : SnapshotMark :=
  default zeroMark (Clusters st !! cluster).

Definition Observe (cluster : string) (mark : SnapshotMark) (reset : bool) (st : State) : State :=
  let mark := if reset then mark else LaterMark (HighWater st cluster) mark in
  mkState (InstanceID st) (stCluster st) (LastActiveEpoch st) (<[cluster := mark]> (Clusters st))
    (AuthenticatedLease st) (UpdatedAt st).

Definition SeenAuthenticatedLease (st : State) (cluster : string) : bool :=
  bool_decide (cluster ∈ AuthenticatedLease st).

Definition MarkAuthenticatedLease (cluster : string) (st : State) : State :=
  mkState (InstanceID st) (stCluster st) (LastActiveEpoch st) (Clusters st)
    ({[cluster]} ∪ AuthenticatedLease st) (UpdatedAt st).

(** The observations of an instance, in order: cluster and mark, without a reset. *)
Definition observeAll (obs : list (string * SnapshotMark)) (st : State) : State :=
  foldl (λ st '(c, m), Observe c m false st) st obs.

Lemma Observe_HighWater_mono c m st c' :
  notBefore (HighWater (Observe c m false st) c') (HighWater st c').
Proof.
  unfold HighWater, Observe. simpl. rewrite lookup_insert. case_decide; subst; simpl; auto with rescue.
Qed.

Lemma observeAll_HighWater_mono obs st c :
  notBefore (HighWater (observeAll obs st) c) (HighWater st c).
Proof.
  revert st. induction obs as [|[c0 m] obs IH]; intros st; simpl; [auto with rescue|].
  eapply notBefore_trans; [apply IH|]. apply Observe_HighWater_mono.
Qed.

(** The high-water mark of a cluster never goes back: after any sequence of
    observations without an operator reset it is at least as new as before and as
    every mark observed, so a takeover refuses an older snapshot. *)
Theorem high_water_monotone obs st c :
  notBefore (HighWater (observeAll obs st) c) (HighWater st c) /\
  Forall (λ m, notBefore (HighWater (observeAll obs st) c) m)
         (snd <$> filter (λ p, p.1 = c) obs).
Proof.
  split; [apply observeAll_HighWater_mono|].
  revert st. induction obs as [|[c0 m] obs IH]; intros st; simpl; [constructor|].
  rewrite filter_cons. simpl. case_decide; subst; simpl; [|apply IH].
  constructor; [|apply IH]. eapply notBefore_trans; [apply observeAll_HighWater_mono|].
  unfold HighWater, Observe. simpl. rewrite lookup_insert_eq. simpl. auto with rescue.
Qed.
