(* ===== verification/HaManager.v ===== *)
(** * The lease manager of one instance (src/internal/ha/manager.go)

    The state of a [Manager] and its operations. An operation that calls the storage
    is split where the call is: [*_send] runs up to the request, [*_recv] continues
    with its result; the whole operation is their composition over an atomic storage
    call. The interleaved execution of several instances is in HaSystem. Every clock
    reading of the code is an argument. *)

From S2P Require Import Prelude LeaseStore Lease.

(** HMAC-SHA256 and the RFC 3339 rendering of times. *)
Class Crypto : Type := {
  hmac : string -> string -> string;
  rfc3339 : Z -> string
}.

(** ** Timing *)

Definition MinTTL : Z := 5 * second.
Definition MaxTTL : Z := 10 * minute.
Definition MinRenew : Z := second.
Definition DefaultTTL : Z := 30 * second.
Definition DefaultRenew : Z := 10 * second.

(** The refusals of [ValidateTiming], in order. *)
Inductive TimingErr : Type := TTLOutOfRange | RenewTooShort | RenewNotBelowHalf.

Definition ValidateTiming (ttl renew : Z) : result TimingErr unit :=
  if (ttl <? MinTTL) || (ttl >? MaxTTL) then Err TTLOutOfRange
  else if renew <? MinRenew then Err RenewTooShort
  else if i64 (2 * renew) >=? ttl then Err RenewNotBelowHalf
  else Ok tt.

(** ** Configuration and state *)

(** [Config], without the store, the clocks and the logger, which are arguments of
    the operations; [MACKey] is [None] for nil and [OnAuthenticLease] says whether
    the callback is set. *)
Record Config : Type := mkConfig {
  cCluster : string;
  cInstanceID : string;
  cInstanceName : string;
  cKeyID : string;
  cMACKey : option string;
  cOnAuthenticLease : bool;
  cTTL : Z;
  cRenew : Z
}.

Inductive LeaseTrust : Type := LeaseAbsent | LeaseAuthentic | LeaseUntrusted.

#[global] Instance LeaseTrust_eq_dec : EqDecision LeaseTrust.
Proof. solve_decision. Defined.

(** Why a lease is not trusted ([Predecessor.Reason]). *)
Inductive Reason : Type := ReasonNone | ReasonUnreadable | ReasonNoMAC | ReasonMACMismatch.

Record Predecessor : Type := mkPred {
  pTrust : LeaseTrust;
  pLease : Lease;
  pReason : Reason;
  pLegacy : bool;
  pMark : SnapshotMark
}.

(** The errors [lastErr] reports. *)
Inductive LeaseError : Type :=
| EStore (e : StoreErr)
| EEncode
| EFloor
| EDecode
| EKeyMismatch.

(** The lease this instance holds: [lease], [version], [sentAt], [sentWall],
    [fresh], [signed] and [pred] of the Manager. *)
Record Held : Type := mkHeld {
  lease : Lease;
  version : string;
  sentAt : Z;
  sentWall : Z;
  fresh : bool;
  signed : bool;
  pred : Predecessor
}.

(** The lease as last read: [seen], [seenVersion], [seenAt], [seenEpoch] and
    [seenMark]. *)
Record SeenLease : Type := mkSeen {
  seen : Lease;
  seenVersion : string;
  seenAt : Z;
  seenEpoch : Z;
  seenMark : SnapshotMark
}.

(** The health of the lease operations. *)
Record Health : Type := mkHealth {
  healthy : bool;
  lastErr : option LeaseError;
  keyMismatch : bool;
  leaseErrors : Z;
  takeovers : Z;
  retrying : bool
}.

(** [changes] is the pending value of the one-slot channel, [authNoted] whether
    [Config.OnAuthenticLease] has been called. *)
Record Manager : Type := mkManager {
  role : Role;
  held : Held;
  obs : SeenLease;
  health : Health;
  cooldownUntil : Z;
  changes : bool;
  authNoted : bool
}.

Definition zeroPred : Predecessor := mkPred LeaseAbsent zeroLease ReasonNone false zeroMark.

(** [New]: refused without an instance ID, with an invalid cluster name or timing. *)
Definition New (cfg : Config) : option Manager :=
  if bool_decide (cInstanceID cfg = "") then None
  else if negb (ValidateCluster (cCluster cfg)) then None
  else if negb (is_ok (ValidateTiming (cTTL cfg) (cRenew cfg))) then None
  else Some (mkManager RoleStandby
    (mkHeld zeroLease "" 0 0 false false zeroPred) (mkSeen zeroLease "" 0 0 zeroMark)
    (mkHealth false None false 0 0 false) 0 false false).

Definition isActive (m : Manager) : bool := bool_decide (role m = RoleActive).

Definition withHeld (h : Held) (m : Manager) : Manager :=
  mkManager (role m) h (obs m) (health m) (cooldownUntil m) (changes m) (authNoted m).
Definition withObs (o : SeenLease) (m : Manager) : Manager :=
  mkManager (role m) (held m) o (health m) (cooldownUntil m) (changes m) (authNoted m).
Definition withHealth (h : Health) (m : Manager) : Manager :=
  mkManager (role m) (held m) (obs m) h (cooldownUntil m) (changes m) (authNoted m).
Definition setLease (l : Lease) (h : Held) : Held :=
  mkHeld l (version h) (sentAt h) (sentWall h) (fresh h) (signed h) (pred h).
Definition setSigned (b : bool) (h : Held) : Held :=
  mkHeld (lease h) (version h) (sentAt h) (sentWall h) (fresh h) b (pred h).
(** A successful write of [l]: its version, and when it was sent. *)
Definition setWritten (l : Lease) (v : string) (sent wall : Z) (h : Held) : Held :=
  mkHeld l v sent wall (fresh h) (signed h) (pred h).
Definition setHealthy (h : Health) : Health :=
  mkHealth true None (keyMismatch h) (leaseErrors h) (takeovers h) (retrying h).
Definition setRetrying (b : bool) (h : Health) : Health :=
  mkHealth (healthy h) (lastErr h) (keyMismatch h) (leaseErrors h) (takeovers h) b.
Definition setKeyMismatch (b : bool) (h : Health) : Health :=
  mkHealth (healthy h) (lastErr h) b (leaseErrors h) (takeovers h) (retrying h).
Definition setLastErr (e : LeaseError) (h : Health) : Health :=
  mkHealth (healthy h) (Some e) (keyMismatch h) (leaseErrors h) (takeovers h) (retrying h).

(** ** The step-down deadline and the fencing check *)

Definition deadline (cfg : Config) (m : Manager) : Z := sentAt (held m) + (cTTL cfg - cRenew cfg).

Definition expired (cfg : Config) (m : Manager) (now wall : Z) : bool :=
  negb (now <? deadline cfg m) || (time_sub wall (sentWall (held m)) >=? cTTL cfg - cRenew cfg).

(** [Check]: [true] for nil, [false] for [ErrNotActive]. *)
Definition Check_ (cfg : Config) (m : Manager) (now wall : Z) : bool :=
  isActive m && negb (expired cfg m now wall).

(** [Manager.Epoch]. *)
Definition heldEpoch (m : Manager) : Z := if isActive m then Epoch (lease (held m)) else 0.

Definition retryPause (cfg : Config) : Z := Z.quot (cRenew cfg) 10.

Definition renewTimeout (cfg : Config) (left : Z) : Z :=
  Z.min (cRenew cfg) (Z.max (Z.quot left 2) (Z.min left (Z.quot (cRenew cfg) 2))).

Definition untilNextStep (cfg : Config) (m : Manager) (now wall : Z) : Z :=
  if isActive m then
    let wait := if retrying (health m) then retryPause cfg else cRenew cfg in
    Z.min wait (Z.min (Z.max (time_sub (deadline cfg m) now) 0)
                  (Z.max (time_sub (sentWall (held m) + (cTTL cfg - cRenew cfg)) wall) 0))
  else cRenew cfg.

(** [recordError]. *)
Definition recordError (e : LeaseError) (m : Manager) : Manager :=
  let h := health m in
  withHealth (mkHealth false (Some e) (keyMismatch h) (u64 (leaseErrors h + 1)) (takeovers h) (retrying h)) m.

(** [stepDown]: a standby that has seen its own last write, cooling down for a TTL. *)
Definition stepDown (cfg : Config) (now : Z) (cooldown : bool) (m : Manager) : Manager :=
  if negb (isActive m) then m
  else
    let h := held m in
    mkManager RoleStandby h
      (mkSeen (lease h) (version h) (sentAt h) (seenEpoch (obs m)) (seenMark (obs m)))
      (health m) (if cooldown then now + cTTL cfg else cooldownUntil m) true (authNoted m).

Section Manager.
Context `{Crypto}.

(** ** Trust *)

Definition authentic (cfg : Config) (l : Lease) : bool :=
  match cMACKey cfg with
  | None => true
  | Some key => Authentic hmac rfc3339 l key
  end.

Definition noteAuthentic (cfg : Config) (l : Lease) (m : Manager) : Manager :=
  match cMACKey cfg with
  | Some key =>
      if cOnAuthenticLease cfg && Authentic hmac rfc3339 l key
      then mkManager (role m) (held m) (obs m) (health m) (cooldownUntil m) (changes m) true
      else m
  | None => m
  end.

(** [Manager.encode]: the content of [l], with its MAC when signed. *)
Definition encode (cfg : Config) (l : Lease) (signed : bool) : option content :=
  let l := setMAC "" l in
  encodeLease (match cMACKey cfg with
               | Some key => if signed then sign hmac rfc3339 key l else l
               | None => l
               end).

Definition assess (cfg : Config) (prev : option content) (m : Manager) : Predecessor :=
  let mark := seenMark (obs m) in
  match prev with
  | None => mkPred LeaseAbsent zeroLease ReasonNone false mark
  | Some data =>
      match DecodeLease data with
      | None => mkPred LeaseUntrusted zeroLease ReasonUnreadable false mark
      | Some l =>
          if negb (authentic cfg l) && bool_decide (MAC l = "") then
            mkPred LeaseUntrusted l ReasonNoMAC true mark
          else if negb (authentic cfg l) then
            mkPred LeaseUntrusted l ReasonMACMismatch false mark
          else mkPred LeaseAuthentic l ReasonNone false (LaterMark mark (leaseMark l))
      end
  end.

(** ** Renewal *)

(** A conditional write. *)
Inductive wreq : Type :=
| WCreate (data : content)
| WReplace (data : content) (version : string).

(** [renew] up to its request: [inl] is the state of a renewal that sends none.
    [now] and [wall] are read first, [renewedAt] before the request and [nowSD] by
    [stepDown]. *)
Definition renew_send (cfg : Config) (now wall renewedAt nowSD : Z) (m : Manager)
  : Manager + (Lease * wreq) :=
  if expired cfg m now wall then inl (stepDown cfg nowSD true m)
  else
    let next := bump renewedAt (lease (held m)) in
    match encode cfg next (signed (held m)) with
    | None => inl (recordError EEncode m)
    | Some data => inr (next, WReplace data (version (held m)))
    end.

(** [renew] from the answer on; [now2] and [wall2] are read after a failure. *)
Definition renew_recv (cfg : Config) (next : Lease) (now wall : Z) (resp : result StoreErr string)
    (now2 wall2 nowSD : Z) (m : Manager) : Manager :=
  match resp with
  | Ok newVersion =>
      withHealth (setRetrying false (setHealthy (health m)))
        (withHeld (setWritten next newVersion now wall (held m)) m)
  | Err ErrPreconditionFailed =>
      stepDown cfg nowSD true (recordError (EStore ErrPreconditionFailed) m)
  | Err e =>
      let m := recordError (EStore e) m in
      let exp := expired cfg m now2 wall2 in
      let m := withHealth (setRetrying (negb exp) (health m)) m in
      if exp then stepDown cfg nowSD true m else m
  end.

(** The clock readings of one operation, in the order the code takes them. *)
Record ticks : Type := mkTicks {
  tNow : Z; tWall : Z; tRenewedAt : Z; tNow2 : Z; tWall2 : Z; tNowSD : Z
}.

Definition renew (cfg : Config) (t : ticks) (io : wreq -> result StoreErr string) (m : Manager) : Manager :=
  match renew_send cfg (tNow t) (tWall t) (tRenewedAt t) (tNowSD t) m with
  | inl m => m
  | inr (next, req) =>
      renew_recv cfg next (tNow t) (tWall t) (io req) (tNow2 t) (tWall2 t) (tNowSD t) m
  end.

(** ** Observation and takeover *)

(** The arguments of [acquire]. *)
Record acquireArgs : Type := mkAcq {
  aEpoch : Z; aSeq : Z; aPrev : option content; aVersion : string
}.

(** [observe] from the answer of the read on, up to its call of [acquire]; [now] is
    read when the read returned. *)
Definition observe_recv (cfg : Config) (rd : result StoreErr (content * string)) (now : Z) (m : Manager)
  : Manager * option acquireArgs :=
  match rd with
  | Err ErrNotFound =>
      let o := obs m in
      let m := withObs (mkSeen zeroLease "" (seenAt o) (seenEpoch o) (seenMark o))
                 (withHealth (setHealthy (health m)) m) in
      let cooling := now <? cooldownUntil m in
      (m, if cooling then None else Some (mkAcq (u64 (seenEpoch o + 1)) 1 None ""))
  | Err e => (recordError (EStore e) m, None)
  | Ok (data, v) =>
      let decoded := DecodeLease data in
      let m := match decoded with Some l => noteAuthentic cfg l m | None => m end in
      let h := setHealthy (health m) in
      let h := match decoded with Some _ => h | None => setLastErr EDecode h end in
      let l := default zeroLease decoded in
      if negb (bool_decide (KeyID l = "")) && negb (bool_decide (cKeyID cfg = ""))
         && negb (bool_decide (KeyID l = cKeyID cfg)) then
        (withHealth (setLastErr EKeyMismatch (setKeyMismatch true h)) m, None)
      else
        let o := obs m in
        let mark := match decoded with
                    | Some l => if authentic cfg l then LaterMark (seenMark o) (leaseMark l) else seenMark o
                    | None => seenMark o
                    end in
        let o := if bool_decide (v = seenVersion o) then o
                 else mkSeen l v now (seenEpoch o) (seenMark o) in
        let epoch := if Epoch l >? seenEpoch o then Epoch l else seenEpoch o in
        let o := mkSeen (seen o) (seenVersion o) (seenAt o) epoch mark in
        let m := withObs o (withHealth (setKeyMismatch false h) m) in
        let cooling := now <? cooldownUntil m in
        let released := match decoded with Some l => Released l | None => false end in
        let exp := released || (time_sub now (seenAt o) >=? Z.max (cTTL cfg) (leaseTTL l)) in
        (m, if cooling || negb exp then None
            else Some (mkAcq (u64 (epoch + 1)) (u64 (Seq l + 1)) (Some data) v))
  end.

(** The lease [acquire] writes. *)
Definition acquiredLease (cfg : Config) (epoch seq renewedAt : Z) (p : Predecessor) : Lease :=
  withSnapshotMark (pMark p)
    (mkLease (cCluster cfg) (cInstanceID cfg) (cInstanceName cfg) epoch seq renewedAt
       (Z.quot (cTTL cfg) second) (cKeyID cfg) 0 0 "").

(** [acquire] up to its request; [floor] is the result of [Config.EpochFloor] when
    it is set ([Err] for an error). *)
Definition acquire_send (cfg : Config) (floor : option (result unit Z)) (a : acquireArgs) (renewedAt : Z)
    (m : Manager) : Manager + (Lease * bool * Predecessor * wreq) :=
  let go epoch :=
    let p := assess cfg (aPrev a) m in
    let next := acquiredLease cfg epoch (aSeq a) renewedAt p in
    let sgn := bool_decide (pTrust p = LeaseAuthentic) in
    match encode cfg next sgn with
    | None => inl (recordError EEncode m)
    | Some data =>
        inr (next, sgn, p, match aPrev a with
                           | None => WCreate data
                           | Some _ => WReplace data (aVersion a)
                           end)
    end in
  match floor with
  | None => go (aEpoch a)
  | Some (Err _) => inl (recordError EFloor m)
  | Some (Ok f) => go (Z.max (aEpoch a) (u64 (f + 1)))
  end.

(** [acquire] from the answer on; [sent] and [sentW] were read before the request. *)
Definition acquire_recv (cfg : Config) (next : Lease) (sgn : bool) (p : Predecessor) (prev : option content)
    (sent sentW : Z) (resp : result StoreErr string) (m : Manager) : Manager :=
  match resp with
  | Err ErrPreconditionFailed => m
  | Err e => recordError (EStore e) m
  | Ok newVersion =>
      let h := health m in
      let m := mkManager RoleActive
        (mkHeld next newVersion sent sentW (bool_decide (prev = None)) sgn p)
        (mkSeen next newVersion sent (Epoch next) (seenMark (obs m)))
        (mkHealth true None (keyMismatch h) (leaseErrors h) (u64 (takeovers h + 1)) false)
        (cooldownUntil m) true (authNoted m) in
      if sgn then
        match cMACKey cfg with
        | Some key => noteAuthentic cfg (sign hmac rfc3339 key next) m
        | None => m
        end
      else m
  end.

Definition acquire (cfg : Config) (floor : option (result unit Z)) (a : acquireArgs)
    (renewedAt sent sentW : Z) (io : wreq -> result StoreErr string) (m : Manager) : Manager :=
  match acquire_send cfg floor a renewedAt m with
  | inl m => m
  | inr (next, sgn, p, req) => acquire_recv cfg next sgn p (aPrev a) sent sentW (io req) m
  end.

(** [observe]: [rd] is the answer of the read, [now] the clock when it returned. *)
Definition observe (cfg : Config) (rd : result StoreErr (content * string)) (now : Z)
    (floor : option (result unit Z)) (renewedAt sent sentW : Z)
    (io : wreq -> result StoreErr string) (m : Manager) : Manager :=
  let '(m, a) := observe_recv cfg rd now m in
  match a with
  | None => m
  | Some a => acquire cfg floor a renewedAt sent sentW io m
  end.

(** [Step]: nothing once the context ended, else a renewal or an observation. *)
Definition Step (cfg : Config) (cancelled : bool) (t : ticks) (rd : result StoreErr (content * string))
    (floor : option (result unit Z)) (io : wreq -> result StoreErr string) (m : Manager) : Manager :=
  if cancelled then m
  else if isActive m then renew cfg t io m
  else observe cfg rd (tNow t) floor (tRenewedAt t) (tNow2 t) (tWall2 t) io m.

(** ** Confirmation, snapshots and release *)

(** [Confirm] before its renewal: [None] is [ErrNotActive]. *)
Definition confirm_start (mark : SnapshotMark) (m : Manager) : option Manager :=
  if isActive m then
    let h := held m in
    Some (withHeld (setLease (withSnapshotMark (LaterMark (leaseMark (lease h)) mark) (lease h))
                      (setSigned true h)) m)
  else None.

Definition Confirm (cfg : Config) (mark : SnapshotMark) (t : ticks)
    (io : wreq -> result StoreErr string) (nowC wallC : Z) (m : Manager) : Manager * bool :=
  match confirm_start mark m with
  | None => (m, false)
  | Some m1 =>
      let m2 := renew cfg t io m1 in
      if Check_ cfg m2 nowC wallC then
        (match cMACKey cfg with
         | Some key => noteAuthentic cfg (sign hmac rfc3339 key (lease (held m1))) m2
         | None => m2
         end, true)
      else (m2, false)
  end.

(** [RecordSnapshot] before its renewal: [None] when nothing is written. *)
Definition record_start (mark : SnapshotMark) (m : Manager) : option Manager :=
  if negb (isActive m) || negb (Before (leaseMark (lease (held m))) mark) then None
  else Some (withHeld (setLease (withSnapshotMark mark (lease (held m))) (held m)) m).

Definition RecordSnapshot (cfg : Config) (mark : SnapshotMark) (t : ticks)
    (io : wreq -> result StoreErr string) (m : Manager) : Manager :=
  match record_start mark m with
  | None => m
  | Some m1 => renew cfg t io m1
  end.

(** [releaseLocked] up to its request: [inl] carries the state and whether an error
    is returned. *)
Definition release_send (cfg : Config) (renewedAt : Z) (m : Manager) : bool + (Lease * wreq) :=
  if negb (isActive m) then inl true
  else
    let next := bump renewedAt (clearHolder (lease (held m))) in
    match encode cfg next (signed (held m)) with
    | None => inl false
    | Some data => inr (next, WReplace data (version (held m)))
    end.

Definition release_recv (next : Lease) (resp : result StoreErr string) (now wall : Z) (m : Manager)
  : Manager * bool :=
  match resp with
  | Err e => (recordError (EStore e) m, false)
  | Ok newVersion => (withHeld (setWritten next newVersion now wall (held m)) m, true)
  end.

Definition releaseLocked (cfg : Config) (t : ticks) (io : wreq -> result StoreErr string) (m : Manager)
  : Manager * bool :=
  match release_send cfg (tRenewedAt t) m with
  | inl ok => (m, ok)
  | inr (next, req) => release_recv next (io req) (tNow2 t) (tWall2 t) m
  end.

Definition StepDown (cfg : Config) (release : bool) (t : ticks) (io : wreq -> result StoreErr string)
    (m : Manager) : Manager * bool :=
  let '(m, ok) := if release then releaseLocked cfg t io m else (m, true) in
  (stepDown cfg (tNowSD t) true m, ok).

Definition Release (cfg : Config) (t : ticks) (io : wreq -> result StoreErr string) (m : Manager)
  : Manager * bool :=
  let '(m, ok) := releaseLocked cfg t io m in
  (stepDown cfg (tNowSD t) true m, ok).
End Manager.

(** ** Timing *)

(** For every renew interval below 2^62 ns the validation accepts exactly the
    documented range: the TTL within its bounds, the renew interval at least
    [MinRenew] and below half the TTL. *)
Lemma ValidateTiming_exact ttl renew :
  0 <= renew < 2 ^ 62 ->
  ValidateTiming ttl renew = Ok tt <->
  MinTTL <= ttl <= MaxTTL /\ MinRenew <= renew /\ 2 * renew < ttl.
Proof.
  intros Hr. unfold ValidateTiming. rewrite i64_small by lia.
  destruct (_ || _) eqn:E1; [split; [done|]; lia|].
  destruct (renew <? MinRenew) eqn:E2; [split; [done|]; lia|].
  destruct (2 * renew >=? ttl) eqn:E3; split; try done; lia.
Qed.

(** The doubling of the renew interval is an [int64] product: an interval of
    2^62 ns (146 years) wraps around and is accepted although it is far above half the
    TTL. *)
Lemma ValidateTiming_overflow :
  ValidateTiming DefaultTTL (2 ^ 62) = Ok tt /\ DefaultTTL < 2 * 2 ^ 62.
Proof. split; reflexivity. Qed.

(** One renewal request never outlives the step-down deadline, takes at most a
    renew interval, and, while at least a renew interval is left, leaves time for
    another attempt of the same length. *)
Lemma renewTimeout_bounds cfg left :
  0 < left -> 2 <= cRenew cfg -> 
  0 <= renewTimeout cfg left <= left /\ renewTimeout cfg left <= cRenew cfg /\
  (cRenew cfg <= left -> 2 * renewTimeout cfg left <= left) /\
  (2 <= left -> 0 < renewTimeout cfg left).
Proof.
  intros Hl Hr. unfold renewTimeout.
  rewrite !Z.quot_div_nonneg by lia.
  pose proof (Z.div_mod left 2 ltac:(lia)). pose proof (Z.mod_pos_bound left 2 ltac:(lia)).
  pose proof (Z.div_mod (cRenew cfg) 2 ltac:(lia)). pose proof (Z.mod_pos_bound (cRenew cfg) 2 ltac:(lia)).
  lia.
Qed.

Definition witnessCfg : Config := mkConfig "prod" "a" "host" "k" None false DefaultTTL DefaultRenew.

(** The loop of an active instance never sleeps past its step-down deadline, on
    either clock: the next step runs at the deadline at the latest, so a step-down
    after a failed renewal is not late. *)
Theorem next_step_by_deadline cfg m now wall :
  isActive m = true -> now <= deadline cfg m -> wall <= sentWall (held m) + (cTTL cfg - cRenew cfg) ->
  now + untilNextStep cfg m now wall <= deadline cfg m /\
  wall + untilNextStep cfg m now wall <= sentWall (held m) + (cTTL cfg - cRenew cfg).
Proof.
  intros Ha Hn Hw. unfold untilNextStep. rewrite Ha. cbv zeta.
  assert (∀ a b, b <= a -> Z.max (time_sub a b) 0 <= a - b) as Hs by (intros; unfold time_sub; lia).
  pose proof (Hs _ _ Hn). pose proof (Hs _ _ Hw). lia.
Qed.

Definition witnessActive : Manager :=
  mkManager RoleActive (mkHeld (mkLease "prod" "a" "host" 4 9 0 30 "k" 0 0 "") "v" 1000 2000 false false zeroPred)
    (mkSeen zeroLease "v" 1000 4 zeroMark) (mkHealth true None false 0 1 false) 0 false false.

Lemma next_step_by_deadline_witness :
  5000 + untilNextStep witnessCfg witnessActive 5000 6000 <= deadline witnessCfg witnessActive /\
  6000 + untilNextStep witnessCfg witnessActive 5000 6000 <=
    sentWall (held witnessActive) + (cTTL witnessCfg - cRenew witnessCfg).
Proof.
  apply (next_step_by_deadline witnessCfg witnessActive 5000 6000); vm_compute; (reflexivity || discriminate).
Defined.

(** ** Takeovers *)
Section Takeover.
Context `{Crypto}.

(** [noteAuthentic] only notes that the callback was called. *)
Lemma noteAuthentic_frame cfg l m :
  role (noteAuthentic cfg l m) = role m /\ held (noteAuthentic cfg l m) = held m /\
  obs (noteAuthentic cfg l m) = obs m /\ cooldownUntil (noteAuthentic cfg l m) = cooldownUntil m.
Proof. unfold noteAuthentic. destruct (cMACKey cfg); [|done]. by destruct (_ && _). Qed.

Lemma acquire_recv_active cfg next sgn p prev sent sentW resp m :
  isActive m = false -> isActive (acquire_recv cfg next sgn p prev sent sentW resp m) = true ->
  ∃ v, resp = Ok v /\
    held (acquire_recv cfg next sgn p prev sent sentW resp m) =
      mkHeld next v sent sentW (bool_decide (prev = None)) sgn p.
Proof.
  intros Hm. destruct resp as [v|e].
  - intros _. exists v. split; [done|]. simpl.
    destruct sgn; [destruct (cMACKey cfg)|]; try done.
    apply noteAuthentic_frame.
  - simpl. destruct e; unfold isActive in *; simpl; congruence.
Qed.

(** What [acquire_send] writes and under which epoch. *)
Lemma acquire_send_inr cfg floor a renewedAt m next sgn p r :
  acquire_send cfg floor a renewedAt m = inr (next, sgn, p, r) ->
  p = assess cfg (aPrev a) m /\ sgn = bool_decide (pTrust p = LeaseAuthentic) /\
  Epoch next = match floor with Some (Ok f) => Z.max (aEpoch a) (u64 (f + 1)) | _ => aEpoch a end /\
  leaseMark next = pMark p /\
  ∃ d, encode cfg next sgn = Some d /\
    r = match aPrev a with None => WCreate d | Some _ => WReplace d (aVersion a) end.
Proof.
  unfold acquire_send. set (q := assess cfg (aPrev a) m).
  destruct floor as [[f|]|]; [|done|];
    (destruct (encode _ _ _) as [d|] eqn:He; [|done]; intros [= <- <- <- <-];
     rewrite He; do 3 (split; [done|]); split; [apply leaseMark_withSnapshotMark|]; by exists d).
Qed.

(** The decision of [observe] to acquire: the epoch and what it is taken from. *)
Lemma observe_recv_acquires cfg rd now m m' a :
  observe_recv cfg rd now m = (m', Some a) ->
  role m' = role m /\
  ((rd = Err ErrNotFound /\ aPrev a = None /\ aEpoch a = u64 (seenEpoch (obs m) + 1)) \/
   ∃ data, rd = Ok (data, aVersion a) /\ aPrev a = Some data /\
     aEpoch a = u64 (Z.max (seenEpoch (obs m)) (Epoch (default zeroLease (DecodeLease data))) + 1)).
Proof.
  destruct rd as [[data v]|[]]; simpl; try done.
  - set (m0 := match DecodeLease data with Some l => noteAuthentic cfg l m | None => m end).
    assert (role m0 = role m /\ obs m0 = obs m) as [Hr Ho].
    { unfold m0. destruct (DecodeLease data) as [l|]; [|done].
      by destruct (noteAuthentic_frame cfg l m) as (? & _ & ? & _). }
    destruct (negb _ && _ && _); [done|]. intros Hx. injection Hx as <- Hx.
    destruct (_ || negb _); [done|]. injection Hx as <-. simpl. split; [done|]. right.
    exists data. split; [done|]. split; [done|]. f_equal. rewrite Ho.
    case_bool_decide; simpl; destruct (_ >? _) eqn:E; lia.
  - destruct (_ <? _); [done|]. intros [= <- <-]. auto.
Qed.

(** [acquire] makes a standby active only with what [acquire_send] prepared. *)
Lemma acquire_active cfg floor a renewedAt sent sentW io m :
  isActive m = false -> isActive (acquire cfg floor a renewedAt sent sentW io m) = true ->
  ∃ next sgn p r v, acquire_send cfg floor a renewedAt m = inr (next, sgn, p, r) /\ io r = Ok v /\
    held (acquire cfg floor a renewedAt sent sentW io m) =
      mkHeld next v sent sentW (bool_decide (aPrev a = None)) sgn p.
Proof.
  intros Hm. unfold acquire. destruct (acquire_send _ _ _ _ _) as [m'|[[[next sgn] p] r]] eqn:Hs.
  - unfold acquire_send in Hs.
    assert (role m' = role m) as Hr.
    { destruct floor as [[f|]|]; try destruct (encode _ _ _); try discriminate Hs;
        by injection Hs as <-. }
    intros Ha. exfalso. unfold isActive in Hm, Ha. rewrite Hr, Hm in Ha. done.
  - intros Ha. destruct (acquire_recv_active _ _ _ _ _ _ _ _ _ Hm Ha) as (v & Hv & Hh).
    exists next, sgn, p, r, v. done.
Qed.

(** A standby that an observation made active acquired the lease. *)
Lemma observe_active cfg rd now floor renewedAt sent sentW io m :
  isActive m = false -> isActive (observe cfg rd now floor renewedAt sent sentW io m) = true ->
  ∃ m1 a, observe_recv cfg rd now m = (m1, Some a) /\ isActive m1 = false /\
    observe cfg rd now floor renewedAt sent sentW io m = acquire cfg floor a renewedAt sent sentW io m1.
Proof.
  intros Hm. unfold observe. destruct (observe_recv cfg rd now m) as [m1 [a|]] eqn:Ho.
  - intros _. exists m1, a. split; [done|]. split; [|done].
    apply observe_recv_acquires in Ho as [Hr _]. unfold isActive in *. by rewrite Hr.
  - intros Ha. exfalso.
    assert (role m1 = role m) as Hr; [|unfold isActive in Hm, Ha; by rewrite Hr, Hm in Ha].
    assert (∀ l, role (noteAuthentic cfg l m) = role m) as Hn.
    { intros l. apply noteAuthentic_frame. }
    apply (f_equal fst) in Ho. simpl in Ho. rewrite <- Ho.
    destruct rd as [[data v]|[]]; simpl; try done.
    destruct (DecodeLease data); destruct (negb _ && _ && _); simpl; auto.
Qed.
End Takeover.

(** Fencing. A standby that becomes active in an observation holds an epoch
    above every epoch it had seen, above the epoch of the lease it replaced and above
    the highest epoch on record outside the lease, as long as none of them is the
    largest 64-bit number. *)
Theorem takeover_epoch_grows `{Crypto} cfg rd now floor renewedAt sent sentW io m :
  let m' := observe cfg rd now floor renewedAt sent sentW io m in
  isActive m = false -> isActive m' = true ->
  0 <= seenEpoch (obs m) < 2 ^ 64 - 1 ->
  (∀ data v l, rd = Ok (data, v) -> DecodeLease data = Some l -> 0 <= Epoch l < 2 ^ 64 - 1) ->
  (∀ f, floor = Some (Ok f) -> 0 <= f < 2 ^ 64 - 1) ->
  seenEpoch (obs m) < heldEpoch m' /\
  (∀ data v l, rd = Ok (data, v) -> DecodeLease data = Some l -> Epoch l < heldEpoch m') /\
  (∀ f, floor = Some (Ok f) -> f < heldEpoch m').
Proof.
  intros m' Hm Ha Hseen Hl Hf. unfold heldEpoch. rewrite Ha. unfold m' in *.
  destruct (observe_active _ _ _ _ _ _ _ _ _ Hm Ha) as (m1 & a & Ho & Hm1 & He).
  rewrite He in Ha |- *.
  destruct (acquire_active _ _ _ _ _ _ _ _ Hm1 Ha) as (next & sgn & p & r & v & Hs & _ & ->).
  apply acquire_send_inr in Hs as (_ & _ & Hep & _). simpl. rewrite Hep.
  assert (aEpoch a <= match floor with Some (Ok f) => Z.max (aEpoch a) (u64 (f + 1)) | _ => aEpoch a end) as Hge
    by (destruct floor as [[]|]; lia).
  apply observe_recv_acquires in Ho as (_ & [(Hrd & _ & Hae)|(data & Hrd & _ & Hae)]).
  - rewrite u64_small in Hae by lia. split; [lia|]. split; [congruence|].
    intros f Hff. specialize (Hf f Hff). rewrite Hff, (u64_small (f + 1)) by lia. lia.
  - assert (0 <= Epoch (default zeroLease (DecodeLease data)) < 2 ^ 64 - 1) as Hle.
    { destruct (DecodeLease data) as [l|] eqn:Hd; simpl; [by eapply Hl|lia]. }
    rewrite u64_small in Hae by lia. split; [lia|]. split.
    + intros data' v' l Hrd' Hd. rewrite Hrd in Hrd'. injection Hrd' as <- _. rewrite Hd in Hae. simpl in Hae. lia.
    + intros f Hff. specialize (Hf f Hff). rewrite Hff, (u64_small (f + 1)) by lia. lia.
Qed.

(** A standby whose observed lease stopped changing a TTL ago takes it over. *)
Definition witnessStandby : Manager :=
  mkManager RoleStandby (mkHeld zeroLease "" 0 0 false false zeroPred)
    (mkSeen zeroLease "v1" 1000 7 zeroMark) (mkHealth true None false 0 0 false) 0 false false.

Definition witnessOther : Lease := mkLease "prod" "b" "other" 7 40 0 30 "k" 0 0 "".

#[local] Instance witnessCrypto : Crypto := { hmac := λ _ _, "mac"; rfc3339 := λ t, pretty t }.

Lemma takeover_epoch_grows_witness :
  let m' := observe witnessCfg (Ok (LeaseJSON witnessOther, "v1")) (1000 + DefaultTTL) (Some (Ok 9)) 0 5 6
              (λ _, Ok "v2") witnessStandby in
  seenEpoch (obs witnessStandby) < heldEpoch m' /\
  (∀ data v l, Ok (E := StoreErr) (LeaseJSON witnessOther, "v1") = Ok (data, v) ->
     DecodeLease data = Some l -> Epoch l < heldEpoch m') /\
  (∀ f, Some (Ok (E := unit) 9) = Some (Ok f) -> f < heldEpoch m').
Proof.
  apply (takeover_epoch_grows witnessCfg (Ok (LeaseJSON witnessOther, "v1")) (1000 + DefaultTTL)
    (Some (Ok 9)) 0 5 6 (λ _, Ok "v2") witnessStandby).
  - reflexivity.
  - vm_compute. reflexivity.
  - vm_compute. split; [discriminate|reflexivity].
  - intros data v l [= <- <-] [= <-]. vm_compute. split; [discriminate|reflexivity].
  - intros f [= <-]. vm_compute. split; [discriminate|reflexivity].
Defined.

(** ** Trust across a takeover *)

(** The lease [Manager.encode] writes. *)
Lemma encode_written `{Crypto} cfg key l sgn d :
  cMACKey cfg = Some key -> encode cfg l sgn = Some d ->
  d = LeaseJSON (if sgn then sign hmac rfc3339 key (setMAC "" l) else setMAC "" l).
Proof.
  intros Hk. unfold encode. rewrite Hk. unfold encodeLease.
  destruct sgn; simpl; destruct (_ && _); by intros [= <-].
Qed.

(** A takeover extends trust only from an authentic lease. The lease a takeover
    writes over an authentic predecessor is authentic and carries a last snapshot no
    older than the predecessor's; over a lease with no or a wrong MAC, over an
    unreadable one or over none, it is written without a MAC, with only the last
    snapshot this instance saw authenticated itself. *)
Theorem takeover_trust `{Crypto} cfg key floor a renewedAt m next sgn p r :
  cMACKey cfg = Some key -> (∀ k s, hmac k s <> "") ->
  acquire_send cfg floor a renewedAt m = inr (next, sgn, p, r) ->
  ∃ w, (r = WCreate (LeaseJSON w) \/ r = WReplace (LeaseJSON w) (aVersion a)) /\
    Holder w = cInstanceID cfg /\ notBefore (leaseMark w) (seenMark (obs m)) /\
    if match aPrev a ≫= DecodeLease with Some l => Authentic hmac rfc3339 l key | None => false end
    then Authentic hmac rfc3339 w key = true /\
         ∀ l, aPrev a ≫= DecodeLease = Some l -> notBefore (leaseMark w) (leaseMark l)
    else MAC w = "" /\ leaseMark w = seenMark (obs m).
Proof.
  intros Hk Hne Hs. pose proof Hs as (Hp & Hsgn & _ & Hmark & d & Hd & Hr)%acquire_send_inr.
  assert (Holder next = cInstanceID cfg) as Hh.
  { unfold acquire_send in Hs. destruct floor as [[]|]; [|done|];
      (destruct (encode _ _ _); [|done]; by injection Hs as <- <- <- <-). }
  apply (encode_written _ _ _ _ _ Hk) in Hd. rewrite Hd in Hr.
  exists (if sgn then sign hmac rfc3339 key (setMAC "" next) else setMAC "" next).
  split; [destruct (aPrev a); auto|]. split; [by destruct sgn|].
  assert (∀ b : bool, leaseMark (if b then sign hmac rfc3339 key (setMAC "" next) else setMAC "" next) = pMark p)
    as Hm by (intros []; exact Hmark).
  rewrite Hm. unfold assess, authentic in Hp. rewrite Hk in Hp. unfold authentic in Hp.
  destruct (aPrev a) as [c|]; simpl; [destruct (DecodeLease c) as [l|]; simpl in *|];
    [destruct (Authentic hmac rfc3339 l key); simpl in Hp; [|destruct (bool_decide _) in Hp]|..];
    rewrite Hp in Hsgn |- *; simpl in Hsgn |- *; subst sgn; split; auto with rescue;
    split; try done.
  - by apply sign_Authentic.
  - intros ? [= <-]. auto with rescue.
Qed.

Lemma takeover_trust_witness :
  let cfg := mkConfig "prod" "a" "host" "k" (Some "key") false DefaultTTL DefaultRenew in
  ∃ w, (WReplace (LeaseJSON (mkLease "prod" "a" "host" 8 41 0 30 "k" 0 0 "")) "v1" = WCreate (LeaseJSON w) \/
        WReplace (LeaseJSON (mkLease "prod" "a" "host" 8 41 0 30 "k" 0 0 "")) "v1" = WReplace (LeaseJSON w) "v1") /\
    Holder w = "a" /\ notBefore (leaseMark w) zeroMark /\
    if Authentic hmac rfc3339 witnessOther "key"
    then Authentic hmac rfc3339 w "key" = true /\
         ∀ l, Some witnessOther = Some l -> notBefore (leaseMark w) (leaseMark l)
    else MAC w = "" /\ leaseMark w = zeroMark.
Proof.
  apply (takeover_trust (mkConfig "prod" "a" "host" "k" (Some "key") false DefaultTTL DefaultRenew) "key" None
    (mkAcq 8 41 (Some (LeaseJSON witnessOther)) "v1") 0 witnessStandby
    (mkLease "prod" "a" "host" 8 41 0 30 "k" 0 0 "") false
    (mkPred LeaseUntrusted witnessOther ReasonNoMAC true zeroMark)).
  - reflexivity.
  - intros k s. discriminate.
  - vm_compute. reflexivity.
Defined.

(** A readable lease of this key that expired or was released is taken over. *)
Lemma observe_recv_expired `{Crypto} cfg l v now m :
  cooldownUntil m <= now -> (KeyID l = "" \/ KeyID l = cKeyID cfg) ->
  Released l = true \/ (v = seenVersion (obs m) /\ Z.max (cTTL cfg) (leaseTTL l) <= time_sub now (seenAt (obs m))) ->
  ∃ m1 ep, observe_recv cfg (Ok (LeaseJSON l, v)) now m =
             (m1, Some (mkAcq ep (u64 (Seq l + 1)) (Some (LeaseJSON l)) v)) /\
           (seenMark (obs m1) = seenMark (obs m) \/ seenMark (obs m1) = leaseMark l).
Proof.
  intros Hcool Hkey Hexp. simpl.
  destruct (noteAuthentic_frame cfg l m) as (_ & _ & -> & ->).
  rewrite (proj2 (Z.ltb_ge now (cooldownUntil m)) Hcool).
  assert (negb (bool_decide (KeyID l = "")) && negb (bool_decide (cKeyID cfg = "")) &&
            negb (bool_decide (KeyID l = cKeyID cfg)) = false) as ->.
  { destruct Hkey as [E|E]; rewrite E; [done|].
    rewrite (bool_decide_true (cKeyID cfg = cKeyID cfg)) by done. by rewrite andb_false_r. }
  set (e := Released l || _). simpl.
  assert (e = true) as ->.
  { unfold e. destruct Hexp as [->|[-> Hexp]]; [done|]. rewrite bool_decide_true by done. simpl.
    rewrite orb_true_iff. right. lia. }
  simpl. eexists _, _. split; [reflexivity|]. simpl. destruct (authentic cfg l); [|auto].
  unfold LaterMark. destruct (Before _ _); auto.
Qed.

(** The mark [assess] carries over is the one seen or the predecessor's. *)
Lemma assess_mark `{Crypto} cfg l m :
  pMark (assess cfg (Some (LeaseJSON l)) m) = seenMark (obs m) \/
  pMark (assess cfg (Some (LeaseJSON l)) m) = leaseMark l.
Proof.
  unfold assess. simpl. destruct (authentic cfg l); simpl; [|destruct (bool_decide _); by auto].
  unfold LaterMark. destruct (Before _ _); auto.
Qed.

(** A lease with times json.Marshal accepts is encoded. *)
Lemma encode_some `{Crypto} cfg l sgn :
  marshalable (RenewedAt l) = true -> marshalable (LastSnapshotAt l) = true -> is_Some (encode cfg l sgn).
Proof.
  intros H1 H2. unfold encode, encodeLease.
  destruct (cMACKey cfg); [destruct sgn|]; simpl; rewrite H1, H2; by eexists.
Qed.

(** A takeover whose write succeeds holds the lease. *)
Lemma acquire_live `{Crypto} cfg ep sq l v renewedAt sent sentW io m v' :
  marshalable renewedAt = true -> marshalable (mAt (seenMark (obs m))) = true ->
  marshalable (LastSnapshotAt l) = true -> (∀ d, io (WReplace d v) = Ok v') ->
  let m' := acquire cfg None (mkAcq ep sq (Some (LeaseJSON l)) v) renewedAt sent sentW io m in
  isActive m' = true /\ Holder (lease (held m')) = cInstanceID cfg /\ version (held m') = v' /\
  sentAt (held m') = sent.
Proof.
  intros Hr Hmark Hla Hio m'. unfold m', acquire, acquire_send. cbn [aPrev aEpoch aSeq aVersion].
  pose proof (assess_mark cfg l m) as Ha. set (q := assess cfg (Some (LeaseJSON l)) m) in *.
  set (next := acquiredLease _ _ _ _ _).
  assert (marshalable (LastSnapshotAt next) = true) as Hn.
  { change (LastSnapshotAt next) with (mAt (leaseMark next)). unfold next, acquiredLease.
    rewrite leaseMark_withSnapshotMark. by destruct Ha as [->| ->]. }
  destruct (encode_some cfg next (bool_decide (pTrust q = LeaseAuthentic)) Hr Hn) as [d ->].
  rewrite Hio. unfold acquire_recv. set (m1 := mkManager RoleActive _ _ _ _ _ _).
  destruct (bool_decide (pTrust q = LeaseAuthentic)); [|done]. destruct (cMACKey cfg) as [key|]; [|done].
  destruct (noteAuthentic_frame cfg (sign hmac rfc3339 key next) m1) as (Hro & -> & _).
  unfold isActive. by rewrite Hro.
Qed.

(** Liveness of a takeover: a standby that is not cooling down, reads a readable
    lease of its key and has seen it unchanged for the longer of the two TTLs (or
    finds it released) becomes active in that observation when the conditional write
    succeeds, no epoch floor is configured and its clock is within the years 0 to
    9999. *)
Theorem takeover_live `{Crypto} cfg l v now renewedAt sent sentW io m v' :
  isActive m = false -> cooldownUntil m <= now ->
  (KeyID l = "" \/ KeyID l = cKeyID cfg) ->
  Released l = true \/ (v = seenVersion (obs m) /\ Z.max (cTTL cfg) (leaseTTL l) <= time_sub now (seenAt (obs m))) ->
  marshalable renewedAt = true -> marshalable (mAt (seenMark (obs m))) = true ->
  marshalable (LastSnapshotAt l) = true ->
  (∀ d, io (WReplace d v) = Ok v') ->
  let m' := observe cfg (Ok (LeaseJSON l, v)) now None renewedAt sent sentW io m in
  isActive m' = true /\ Holder (lease (held m')) = cInstanceID cfg /\ version (held m') = v' /\
  sentAt (held m') = sent.
Proof.
  intros Hm Hcool Hkey Hexp Hr Hmark Hla Hio m'. unfold m', observe.
  destruct (observe_recv_expired cfg l v now m Hcool Hkey Hexp) as (m1 & ep & -> & Hsm).
  apply acquire_live; [done| |done..]. destruct Hsm as [->| ->]; done.
Qed.

Lemma takeover_live_witness :
  let m' := observe witnessCfg (Ok (LeaseJSON witnessOther, "v1")) (1000 + DefaultTTL) None 0 5 6
              (λ _, Ok "v2") witnessStandby in
  isActive m' = true /\ Holder (lease (held m')) = "a" /\ version (held m') = "v2" /\ sentAt (held m') = 5.
Proof.
  apply (takeover_live witnessCfg witnessOther "v1" (1000 + DefaultTTL) 0 5 6 (λ _, Ok "v2") witnessStandby "v2");
    try reflexivity.
  - vm_compute. discriminate.
  - right. reflexivity.
  - right. split; [reflexivity|]. vm_compute. discriminate.
Defined.
