(* ===== verification/HaSystem.v ===== *)
(** * A cluster of lease managers

    Several instances run the operations of HaManager over one lease object. Storage
    calls are asynchronous: a request may be processed at any later moment, also
    after its sender gave up waiting; answers may be lost. Clocks are per instance and
    drift apart; an instance may crash and restart at any time. The store is any
    driver that keeps the laws of [CasStore]. *)

From S2P Require Import Prelude LeaseStore Lease HaManager.

(** Where an instance is within an operation (it runs one at a time, under
    [Manager.opMu]); [id] names its storage request. *)
Inductive phase : Type :=
| Idle
| Reading
| ReadAns (rd : result StoreErr (content * string))
| AcqDecided (a : acquireArgs)
| AcqWait (id : nat) (next : Lease) (sgn : bool) (p : Predecessor) (prev : option content) (sent sentW : Z)
| RenewWait (id : nat) (next : Lease) (sent sentW : Z)
| RelWait (id : nat) (next : Lease)
| RelDone.

Record node : Type := mkNode { mgr : Manager; ph : phase }.

Section System.
Context `{Crypto} {St : Type} `{LeaseStore St content}.
(** The key of the lease, the instances' configurations, and their clocks as
    functions of real time. *)
Context (key : string) (cfg : nat -> Config) (clk wall : nat -> Z -> Z).

(** [committedAt] is the moment of the last successful write of the lease. *)
Record World : Type := mkWorld {
  now : Z;
  store : St;
  committedAt : Z;
  nodes : nat -> node;
  reqs : gmap nat (nat * wreq);
  resps : gmap nat (result StoreErr string);
  nextId : nat
}.

Definition setNode (i : nat) (nd : node) (w : World) : World :=
  mkWorld (now w) (store w) (committedAt w) (<[i := nd]> (nodes w)) (reqs w) (resps w) (nextId w).

(** Instance [i] sends [r] and continues in [nd]. *)
Definition sendReq (i : nat) (r : wreq) (nd : node) (w : World) : World :=
  mkWorld (now w) (store w) (committedAt w) (<[i := nd]> (nodes w))
    (<[nextId w := (i, r)]> (reqs w)) (resps w) (S (nextId w)).

(** The storage carries out a request. *)
Definition execReq (r : wreq) (st : St) : St * result StoreErr string :=
  match r with
  | WCreate data => CreateIfAbsent st key data
  | WReplace data v => ReplaceIfMatch st key data v
  end.

Definition process (id : nat) (r : wreq) (w : World) : World :=
  let '(st, res) := execReq r (store w) in
  mkWorld (now w) st (if is_ok res then now w else committedAt w) (nodes w)
    (delete id (reqs w)) (<[id := res]> (resps w)) (nextId w).

(** What an instance learns about its request [id]: the answer once it was
    processed, or a failure (a timeout) at any time. *)
Inductive answered (w : World) (id : nat) : result StoreErr string -> Prop :=
| answer_real r : resps w !! id = Some r -> answered w id r
| answer_lost : answered w id (Err ErrStorage).

(** The renewals of an idle active instance: of [Step], [Confirm] and
    [RecordSnapshot]. *)
Inductive renewal (m : Manager) : Manager -> Prop :=
| renewal_step : renewal m m
| renewal_confirm mark m1 : confirm_start mark m = Some m1 -> renewal m m1
| renewal_record mark m1 : record_start mark m = Some m1 -> renewal m m1.

Inductive step (w : World) : World -> Prop :=
| step_tick t : now w <= t ->
    step w (mkWorld t (store w) (committedAt w) (nodes w) (reqs w) (resps w) (nextId w))
| step_process id i r : reqs w !! id = Some (i, r) -> step w (process id r w)
| step_read_send i m :
    nodes w i = mkNode m Idle -> isActive m = false -> step w (setNode i (mkNode m Reading) w)
| step_read_serve i m :
    nodes w i = mkNode m Reading ->
    step w (setNode i (mkNode m (ReadAns (ReadVersioned (store w) key))) w)
| step_read_lost i m :
    nodes w i = mkNode m Reading -> step w (setNode i (mkNode m (ReadAns (Err ErrStorage))) w)
| step_read_recv i m rd m' a :
    nodes w i = mkNode m (ReadAns rd) ->
    observe_recv (cfg i) rd (clk i (now w)) m = (m', a) ->
    step w (setNode i (mkNode m' (match a with Some a => AcqDecided a | None => Idle end)) w)
| step_acq_drop i m a floor renewedAt m' :
    nodes w i = mkNode m (AcqDecided a) ->
    acquire_send (cfg i) floor a renewedAt m = inl m' ->
    step w (setNode i (mkNode m' Idle) w)
| step_acq_send i m a floor renewedAt next sgn p r :
    nodes w i = mkNode m (AcqDecided a) ->
    acquire_send (cfg i) floor a renewedAt m = inr (next, sgn, p, r) ->
    step w (sendReq i r
      (mkNode m (AcqWait (nextId w) next sgn p (aPrev a) (clk i (now w)) (wall i (now w)))) w)
| step_acq_recv i m id next sgn p prev sent sentW r :
    nodes w i = mkNode m (AcqWait id next sgn p prev sent sentW) ->
    answered w id r ->
    step w (setNode i (mkNode (acquire_recv (cfg i) next sgn p prev sent sentW r m) Idle) w)
| step_renew_drop i m m1 renewedAt m' :
    nodes w i = mkNode m Idle -> isActive m = true -> renewal m m1 ->
    renew_send (cfg i) (clk i (now w)) (wall i (now w)) renewedAt (clk i (now w)) m1 = inl m' ->
    step w (setNode i (mkNode m' Idle) w)
| step_renew_send i m m1 renewedAt next r :
    nodes w i = mkNode m Idle -> isActive m = true -> renewal m m1 ->
    renew_send (cfg i) (clk i (now w)) (wall i (now w)) renewedAt (clk i (now w)) m1 = inr (next, r) ->
    step w (sendReq i r (mkNode m1 (RenewWait (nextId w) next (clk i (now w)) (wall i (now w)))) w)
| step_renew_recv i m id next sent sentW r :
    nodes w i = mkNode m (RenewWait id next sent sentW) ->
    answered w id r ->
    step w (setNode i (mkNode
      (renew_recv (cfg i) next sent sentW r (clk i (now w)) (wall i (now w)) (clk i (now w)) m) Idle) w)
| step_release_send i m renewedAt next r :
    nodes w i = mkNode m Idle -> release_send (cfg i) renewedAt m = inr (next, r) ->
    step w (sendReq i r (mkNode m (RelWait (nextId w) next)) w)
| step_release_drop i m renewedAt ok :
    nodes w i = mkNode m Idle -> release_send (cfg i) renewedAt m = inl ok ->
    step w (setNode i (mkNode m RelDone) w)
| step_release_recv i m id next r :
    nodes w i = mkNode m (RelWait id next) ->
    answered w id r ->
    step w (setNode i
      (mkNode (fst (release_recv next r (clk i (now w)) (wall i (now w)) m)) RelDone) w)
| step_release_done i m :
    nodes w i = mkNode m RelDone ->
    step w (setNode i (mkNode (stepDown (cfg i) (clk i (now w)) true m) Idle) w)
| step_step_down i m :
    nodes w i = mkNode m Idle ->
    step w (setNode i (mkNode (stepDown (cfg i) (clk i (now w)) true m) Idle) w)
| step_restart i m0 :
    New (cfg i) = Some m0 -> step w (setNode i (mkNode m0 Idle) w).

(** [reach w0 n w]: [w] is reached from [w0] in [n] steps. *)
Inductive reach (w0 : World) : nat -> World -> Prop :=
| reach_refl : reach w0 0 w0
| reach_step n w w' : reach w0 n w -> step w w' -> reach w0 (S n) w'.

(** The lease sequence number in storage (0 for none or unreadable content). *)
Definition seqOf (c : content) : Z :=
  match c with LeaseJSON l => Seq l | Garbage _ => 0 end.

Definition curseq (w : World) : Z :=
  match ReadVersioned (store w) key with Ok (c, _) => seqOf c | Err _ => 0 end.

(** A cluster at its start: every instance new and idle, nothing in flight. *)
Definition initial (w : World) : Prop :=
  (∀ i, ∃ m, New (cfg i) = Some m /\ nodes w i = mkNode m Idle) /\
  reqs w = ∅ /\ resps w = ∅ /\ committedAt w <= now w /\ 0 <= curseq w.

(** Whether instance [i] is giving the lease up ([Release], [StepDown]). *)
Definition releasing (nd : node) : Prop :=
  match ph nd with RelWait _ _ | RelDone => True | _ => False end.

(** Whether [Check] returns nil on instance [i] now. *)
Definition passes (w : World) (i : nat) : bool :=
  Check_ (cfg i) (mgr (nodes w i)) (clk i (now w)) (wall i (now w)).
End System.
