(* ===== verification/HaSafety.v ===== *)
(** * Mutual exclusion of the cluster

    The invariant of the reachable states of HaSystem and its consequence: two
    instances never pass their fencing check at the same moment. *)

From S2P Require Import Prelude LeaseStore Lease HaManager HaSystem.

Section Safety.
Context `{Crypto} {St : Type} `{LeaseStore St content} {fits : content -> Prop}
  `{!CasStore St content fits}.
Context (key : string) (cfg : nat -> Config) (clk wall : nat -> Z -> Z).

Abbreviation World := (World (St := St)).
Abbreviation step := (step key cfg clk wall).
Abbreviation curseq := (curseq key).

(** ** Assumptions on the cluster *)

(** Instance IDs are set and distinct (LoadState generates them at random). *)
Context (ids_distinct : ∀ i j, cInstanceID (cfg i) = cInstanceID (cfg j) -> i = j)
  (ids_set : ∀ i, cInstanceID (cfg i) <> "")
  (timing : ∀ i, ValidateTiming (cTTL (cfg i)) (cRenew (cfg i)) = Ok tt).

(** Clocks do not go back, and over a span of at most [MaxTTL] on one of them no
    other advances by more than [drift] more. *)
Context (drift : Z)
  (clk_mono : ∀ i t u, t <= u -> clk i t <= clk i u)
  (clk_drift : ∀ i j t u, t <= u -> clk i u - clk i t <= MaxTTL ->
     clk j u - clk j t <= clk i u - clk i t + drift)
  (drift_small : ∀ i, drift <= cRenew (cfg i) - cTTL (cfg i) mod second).

(** ** Vocabulary *)

Definition cur (w : World) := ReadVersioned (store w) key.
Definition names (v : string) (c : content) : Prop := ∃ st, ReadVersioned st key = Ok (c, v).
Definition past (w : World) (v : string) (c : content) : Prop :=
  names v c /\ 0 <= seqOf c <= curseq w.
Definition ID (i : nat) : string := cInstanceID (cfg i).
Definition heldBy (i : nat) (l : Lease) : Prop :=
  Holder l = ID i /\ TTLSeconds l = Z.quot (cTTL (cfg i)) second.

(** Content whose holder is nobody or [i] itself. *)
Definition free_for (i : nat) (c : content) : Prop :=
  match c with Garbage _ => True | LeaseJSON l => Holder l = "" \/ Holder l = ID i end.

Definition ttlOf (c : content) : Z :=
  match c with Garbage _ => leaseTTL zeroLease | LeaseJSON l => leaseTTL l end.

(** [i] measured a whole TTL of [c] since a moment after its last write. *)
Definition waited (w : World) (i : nat) (c : content) : Prop :=
  ∃ So Sn, committedAt w <= So <= Sn /\ Sn <= now w /\
    Z.max (cTTL (cfg i)) (ttlOf c) <= clk i Sn - clk i So.

Definition just (w : World) (i : nat) (c : content) : Prop := free_for i c \/ waited w i c.

Definition same (l l' : Lease) : Prop :=
  Seq l = Seq l' /\ Holder l = Holder l' /\ TTLSeconds l = TTLSeconds l'.

(** The request an instance waits for, with the moment its claim would start. *)
Definition waits (p : phase) : option (nat * Lease * option Z) :=
  match p with
  | AcqWait id next _ _ _ sent _ | RenewWait id next sent _ => Some (id, next, Some sent)
  | RelWait id next => Some (id, next, None)
  | _ => None
  end.

(** The instance holds the lease since [s] on its clock, or will once it learns
    that its write succeeded. *)
Definition claims (w : World) (nd : node) (s : Z) : Prop :=
  (role (mgr nd) = RoleActive /\ ~ releasing nd /\ s = sentAt (held (mgr nd))) \/
  (∃ id next v, waits (ph nd) = Some (id, next, Some s) /\ resps w !! id = Some (Ok v)).

Definition wdata (r : wreq) : content :=
  match r with WCreate d => d | WReplace d _ => d end.

Definition roleOk (nd : node) : Prop :=
  match ph nd with
  | Reading | ReadAns _ | AcqDecided _ | AcqWait _ _ _ _ _ _ _ => role (mgr nd) = RoleStandby
  | RenewWait _ _ _ _ | RelWait _ _ => role (mgr nd) = RoleActive
  | _ => True
  end.

(** ** The invariant of one instance *)

Record LocalInv (w : World) (i : nat) (nd : node) : Prop := {
  li_role : roleOk nd;
  li_active : role (mgr nd) = RoleActive ->
    ∃ lc, past w (version (held (mgr nd))) (LeaseJSON lc) /\ free_for i (LeaseJSON lc) /\
      (ph nd <> RelDone ->
       heldBy i (lease (held (mgr nd))) /\ heldBy i lc /\ Seq lc = Seq (lease (held (mgr nd))));
  li_seen : seenVersion (obs (mgr nd)) = "" \/
    ∃ c, past w (seenVersion (obs (mgr nd))) c /\
      (cur w = Ok (c, seenVersion (obs (mgr nd))) ->
       free_for i c \/ ∃ S, seenAt (obs (mgr nd)) = clk i S /\ committedAt w <= S <= now w);
  li_read : ∀ c v, ph nd = ReadAns (Ok (c, v)) -> past w v c;
  li_decided : ∀ a, ph nd = AcqDecided a ->
    match aPrev a with
    | None => aSeq a = 1
    | Some c => past w (aVersion a) c /\ aSeq a = seqOf c + 1 /\
                (cur w = Ok (c, aVersion a) -> just w i c)
    end;
  li_waits : ∀ id next os, waits (ph nd) = Some (id, next, os) ->
    (id < nextId w)%nat /\
    (∀ s, os = Some s -> heldBy i next /\ ∃ S, s = clk i S /\ S <= now w) /\
    (os = None -> Holder next = "") /\
    (∀ j r, reqs w !! id = Some (j, r) -> j = i /\ ∃ l, wdata r = LeaseJSON l /\ same l next) /\
    (∀ v, resps w !! id = Some (Ok v) -> ∃ l, past w v (LeaseJSON l) /\ same l next)
}.

Record ClaimInv (w : World) (i : nat) (nd : node) : Prop := {
  ci_sent : ∀ s, claims w nd s -> ∃ S, s = clk i S /\ S <= committedAt w;
  ci_holds : ∀ s, claims w nd s -> clk i (now w) < s + (cTTL (cfg i) - cRenew (cfg i)) ->
    ∃ l v, cur w = Ok (LeaseJSON l, v) /\ heldBy i l
}.

(** ** The invariant of a request in flight *)

Record ReqInv (w : World) (id : nat) (i : nat) (r : wreq) : Prop := {
  ri_id : (id < nextId w)%nat;
  ri_cond : match r with
    | WCreate d => ∃ l, d = LeaseJSON l /\ Seq l = 1 /\ heldBy i l
    | WReplace d v => ∃ l c, d = LeaseJSON l /\ past w v c /\ Seq l = seqOf c + 1 /\
        (heldBy i l \/ Holder l = "") /\
        (cur w = Ok (c, v) -> just w i c /\
           (Holder l = "" -> free_for i c /\ ∀ s, ~ claims w (nodes w i) s))
    end
}.

Record Inv (w : World) : Prop := {
  inv_committed : committedAt w <= now w;
  inv_seq : 0 <= curseq w;
  inv_resps : ∀ id r, resps w !! id = Some r -> (id < nextId w)%nat;
  inv_local : ∀ i, LocalInv w i (nodes w i);
  inv_claims : ∀ i, ClaimInv w i (nodes w i);
  inv_reqs : ∀ id i r, reqs w !! id = Some (i, r) -> ReqInv w id i r;
  inv_unique : ∀ i j id n1 o1 n2 o2, waits (ph (nodes w i)) = Some (id, n1, o1) ->
    waits (ph (nodes w j)) = Some (id, n2, o2) -> i = j
}.

(** ** Basic facts *)

Lemma names_unique v c1 c2 : names v c1 -> names v c2 -> c1 = c2.
Proof using CasStore0. intros [st1 H1] [st2 H2]. by eapply cas_version_content. Qed.

Lemma names_nonempty v c : names v c -> v <> "".
Proof using CasStore0. intros [st Hr]. by eapply cas_version_nonempty. Qed.

Lemma cur_names w c v : cur w = Ok (c, v) -> names v c.
Proof. intros Hc. by exists (store w). Qed.

Lemma cur_curseq w c v : cur w = Ok (c, v) -> curseq w = seqOf c.
Proof. unfold cur, HaSystem.curseq. by intros ->. Qed.

Lemma cur_past w c v : 0 <= curseq w -> cur w = Ok (c, v) -> past w v c.
Proof. intros H0' Hc. split; [by eapply cur_names|]. rewrite (cur_curseq _ _ _ Hc) in *. lia. Qed.

Lemma free_for_other i j l : free_for i (LeaseJSON l) -> heldBy j l -> i = j.
Proof using ids_distinct ids_set.
  intros [Hf|Hf] [Hj _]; rewrite Hf in Hj; [by destruct (ids_set j)|]. by apply ids_distinct.
Qed.

Lemma timing_bounds i :
  second <= cRenew (cfg i) /\ 5 * second <= cTTL (cfg i) <= MaxTTL.
Proof using timing.
  pose proof (timing i) as Ht. unfold ValidateTiming in Ht. split_ifs; try discriminate.
  bool_cases. unfold MinTTL, MinRenew in *. lia.
Qed.

(** The TTL a holder writes is its own, rounded down to the second. *)
Lemma heldBy_ttl i l : heldBy i l -> leaseTTL l = cTTL (cfg i) - cTTL (cfg i) mod second.
Proof using timing.
  intros [_ Ht]. destruct (timing_bounds i) as [_ [Hl Hu]]. unfold leaseTTL. rewrite Ht.
  assert (0 < second) by done. assert (MaxTTL < 2 ^ 63) by done.
  rewrite Z.quot_div_nonneg by lia.
  pose proof (Z.div_mod (cTTL (cfg i)) second ltac:(lia)).
  pose proof (Z.mod_pos_bound (cTTL (cfg i)) second ltac:(lia)).
  rewrite i64_small; lia.
Qed.

(** The heart of the argument: an instance that measured a whole TTL of a lease
    since after its last write outlived the holder's step-down deadline. *)
Lemma waited_expired w i j l s :
  heldBy j l -> waited w i (LeaseJSON l) -> (∃ S, s = clk j S /\ S <= committedAt w) ->
  s + (cTTL (cfg j) - cRenew (cfg j)) <= clk j (now w).
Proof using timing clk_mono clk_drift drift_small.
  intros Hh (So & Sn & [Hc1 Hc2] & Hn & Hw) (S & -> & HS). simpl in Hw.
  rewrite (heldBy_ttl _ _ Hh) in Hw.
  destruct (Z.le_gt_cases (clk j S + (cTTL (cfg j) - cRenew (cfg j))) (clk j (now w)))
    as [|Hgt]; [done|exfalso].
  destruct (timing_bounds j) as [Hr [Hl Hu]]. assert (0 < second) by done.
  pose proof (clk_mono j S So ltac:(lia)). pose proof (clk_mono j Sn (now w) ltac:(lia)).
  pose proof (clk_drift j i So Sn ltac:(lia) ltac:(lia)). pose proof (drift_small j). lia.
Qed.

(** ** Worlds that move on *)

(** [w'] is later than [w]: content seen before is in storage again only if it
    still is. *)
Record advance (w w' : World) : Prop := {
  ad_now : now w <= now w';
  ad_seq : curseq w <= curseq w';
  ad_id : (nextId w <= nextId w')%nat;
  ad_cur : ∀ v c, past w v c -> cur w' = Ok (c, v) ->
    cur w = Ok (c, v) /\ committedAt w' = committedAt w
}.

Lemma past_advance w w' v c : advance w w' -> past w v c -> past w' v c.
Proof. intros [_ Hs _ _] [Hn Hq]. split; [done|lia]. Qed.

Lemma waited_advance w w' i c :
  advance w w' -> committedAt w' = committedAt w -> waited w i c -> waited w' i c.
Proof.
  intros Ha Hc (So & Sn & ? & ? & ?). pose proof (ad_now _ _ Ha).
  exists So, Sn. rewrite Hc. repeat split; lia.
Qed.

Lemma just_advance w w' i v c :
  advance w w' -> past w v c -> (cur w = Ok (c, v) -> just w i c) ->
  cur w' = Ok (c, v) -> just w' i c.
Proof.
  intros Ha Hp Hj Hc. destruct (ad_cur _ _ Ha _ _ Hp Hc) as [Hc' He].
  destruct (Hj Hc') as [|]; [by left|right]. by eapply waited_advance.
Qed.

(** The part of [li_waits] that the request and answer tables decide. *)
Definition tablesOk (w : World) (i : nat) (nd : node) : Prop :=
  ∀ id next os, waits (ph nd) = Some (id, next, os) ->
    (∀ j r, reqs w !! id = Some (j, r) -> j = i /\ ∃ l, wdata r = LeaseJSON l /\ same l next) /\
    (∀ v, resps w !! id = Some (Ok v) -> ∃ l, past w v (LeaseJSON l) /\ same l next).

Lemma LocalInv_advance w w' i nd :
  advance w w' -> tablesOk w' i nd -> LocalInv w i nd -> LocalInv w' i nd.
Proof.
  intros Ha Ht [Hr Hact Hseen Hread Hdec Hw]. pose proof (ad_now _ _ Ha).
  split; [done|..].
  - intros Hro. destruct (Hact Hro) as (lc & ? & ?). exists lc. split; [by eapply past_advance|done].
  - destruct Hseen as [|(c & Hp & Hc)]; [by left|right]. exists c.
    split; [by eapply past_advance|]. intros Hcur.
    destruct (ad_cur _ _ Ha _ _ Hp Hcur) as [Hc' He]. destruct (Hc Hc') as [|(S & ? & ?)]; [by left|].
    right. exists S. rewrite He. split; [done|lia].
  - intros c v Hp. eapply past_advance; eauto.
  - intros a Hp. specialize (Hdec a Hp). destruct (aPrev a); [|done].
    destruct Hdec as (Hp' & ? & Hj). split; [by eapply past_advance|]. split; [done|].
    by eapply just_advance.
  - intros id next os Hwt. destruct (Hw id next os Hwt) as (Hid & Hs & Hn & _).
    pose proof (ad_id _ _ Ha). destruct (Ht id next os Hwt).
    split; [lia|]. split; [|done]. intros s Hs'. destruct (Hs s Hs') as (? & S & ? & ?).
    split; [done|]. exists S. split; [done|lia].
Qed.

Lemma ReqInv_advance w w' id i r :
  advance w w' -> (∀ s, claims w' (nodes w' i) s -> cur w' = cur w -> claims w (nodes w i) s) ->
  ReqInv w id i r -> ReqInv w' id i r.
Proof.
  intros Ha Hcl [Hid Hc]. split; [pose proof (ad_id _ _ Ha); lia|].
  destruct r as [d|d v]; [done|]. destruct Hc as (l & c & -> & Hp & Hs & Hh & Hj).
  exists l, c. split; [done|]. split; [by eapply past_advance|]. do 2 (split; [done|]).
  intros Hcur. destruct (ad_cur _ _ Ha _ _ Hp Hcur) as [Hc' He].
  destruct (Hj Hc') as [Hj1 Hj2]. split.
  - destruct Hj1; [by left|right]. by eapply waited_advance.
  - intros Hl. destruct (Hj2 Hl) as [? Hno]. split; [done|]. intros s Hs'.
    apply (Hno s), Hcl; [done|congruence].
Qed.

(** Nothing but time, nodes and tables changed. *)
Lemma advance_same w w' :
  now w <= now w' -> store w' = store w -> committedAt w' = committedAt w ->
  (nextId w <= nextId w')%nat -> advance w w'.
Proof.
  intros Hn Hs Hc Hi. split; [done| |done|].
  - unfold HaSystem.curseq. rewrite Hs. lia.
  - intros v c _. unfold cur. by rewrite Hs.
Qed.

Lemma LocalInv_tables w i nd : LocalInv w i nd -> tablesOk w i nd.
Proof. intros Hl id next os Hw. by destruct (li_waits _ _ _ Hl id next os Hw) as (_ & _ & _ & ?). Qed.

(** ** Steps of one instance *)

(** Storage and tables stay; instance [i] moves to [nd] without a new claim. *)
Lemma setNode_inv w i nd :
  Inv w -> LocalInv w i nd ->
  (∀ s, claims w nd s -> claims w (nodes w i) s) ->
  (∀ id n o, waits (ph nd) = Some (id, n, o) -> ∃ n' o', waits (ph (nodes w i)) = Some (id, n', o')) ->
  Inv (setNode i nd w).
Proof.
  intros [Hcm Hsq Hrs Hl Hc Hq Hu] Hln Hcn Hwn.
  assert (∀ j, nodes (setNode i nd w) j = if decide (i = j) then nd else nodes w j) as Hnodes.
  { intros j. unfold setNode. simpl. unfold insert, fn_insert. done. }
  assert (∀ j s, claims (setNode i nd w) (nodes (setNode i nd w) j) s -> claims w (nodes w j) s) as Hcl.
  { intros j s. rewrite Hnodes. case_decide; subst; [apply Hcn|done]. }
  assert (advance w (setNode i nd w)) as Ha by (apply advance_same; simpl; lia || done).
  split; try done.
  - intros j. rewrite Hnodes. case_decide; subst.
    + eapply LocalInv_advance; [exact Ha|exact (LocalInv_tables _ _ _ Hln)|exact Hln].
    + eapply LocalInv_advance; [exact Ha|exact (LocalInv_tables _ _ _ (Hl j))|exact (Hl j)].
  - intros j. split.
    + intros s Hs. apply (ci_sent _ _ _ (Hc j) s), Hcl, Hs.
    + intros s Hs. apply (ci_holds _ _ _ (Hc j) s), Hcl, Hs.
  - intros id j r Hr. destruct (Hq id j r Hr) as [Hid Hcond]. split; [done|].
    destruct r as [d|d v]; [done|]. destruct Hcond as (l & c & ? & ? & ? & ? & Hj).
    exists l, c. repeat (split; [done|]). intros Hcur. destruct (Hj Hcur) as [? Hj2].
    split; [done|]. intros Hh. destruct (Hj2 Hh) as [? Hno]. split; [done|].
    intros s Hs. by apply (Hno s), Hcl.
  - assert (∀ j id n o, waits (ph (nodes (setNode i nd w) j)) = Some (id, n, o) ->
      ∃ n' o', waits (ph (nodes w j)) = Some (id, n', o')) as Hold.
    { intros j id n o. rewrite Hnodes. case_decide; subst; [apply Hwn|eauto]. }
    intros j k id n1 o1 n2 o2 Hj Hk. apply Hold in Hj as (? & ? & Hj).
    apply Hold in Hk as (? & ? & Hk). eauto.
Qed.

(** Instance [i] sends a request under a fresh identifier. *)
Lemma sendReq_inv w i r nd next os :
  Inv w -> waits (ph nd) = Some (nextId w, next, os) ->
  LocalInv (sendReq i r nd w) i nd ->
  (∀ s, claims w nd s -> claims w (nodes w i) s) ->
  ReqInv (sendReq i r nd w) (nextId w) i r ->
  Inv (sendReq i r nd w).
Proof.
  intros [Hcm Hsq Hrs Hl Hc Hq Hu] Hwn Hln Hcn Hrn.
  assert (∀ j, nodes (sendReq i r nd w) j = if decide (i = j) then nd else nodes w j) as Hnodes by done.
  assert (∀ j s, claims (sendReq i r nd w) (nodes (sendReq i r nd w) j) s -> claims w (nodes w j) s) as Hcl.
  { intros j s. rewrite Hnodes. case_decide; subst; [apply Hcn|done]. }
  assert (advance w (sendReq i r nd w)) as Ha by (apply advance_same; simpl; lia || done).
  assert (∀ j id n o, waits (ph (nodes w j)) = Some (id, n, o) -> (id < nextId w)%nat) as Hlt.
  { intros j id n o Hw. by destruct (li_waits _ _ _ (Hl j) _ _ _ Hw). }
  split; try done.
  - intros id r' Hr. simpl. specialize (Hrs id r' Hr). lia.
  - intros j. rewrite Hnodes. case_decide; subst; [done|].
    eapply LocalInv_advance; [exact Ha| |exact (Hl j)].
    intros id n o Hw. destruct (LocalInv_tables _ _ _ (Hl j) _ _ _ Hw) as [Ht1 Ht2]. split; [|done].
    intros k r'. simpl. rewrite lookup_insert_ne; [apply Ht1|]. specialize (Hlt _ _ _ _ Hw). lia.
  - intros j. split.
    + intros s Hs. apply (ci_sent _ _ _ (Hc j) s), Hcl, Hs.
    + intros s Hs. apply (ci_holds _ _ _ (Hc j) s), Hcl, Hs.
  - intros id j r'. simpl. rewrite lookup_insert. case_decide; [by intros [= <- <-]; subst|].
    intros Hr. eapply ReqInv_advance; [exact Ha| |exact (Hq id j r' Hr)]. intros s Hs _. by apply Hcl.
  - intros j k id n1 o1 n2 o2. rewrite !Hnodes.
    case_decide; case_decide; subst; try congruence.
    + intros Hw1 Hw2. rewrite Hwn in Hw1. simplify_eq. specialize (Hlt _ _ _ _ Hw2). lia.
    + intros Hw1 Hw2. rewrite Hwn in Hw2. simplify_eq. specialize (Hlt _ _ _ _ Hw1). lia.
    + apply Hu.
Qed.

(** ** The storage processes a request *)

(** What a successful write of a pending request does to the storage. *)
Lemma commit_cur w i id r st v :
  Inv w -> reqs w !! id = Some (i, r) -> execReq key r (store w) = (st, Ok v) ->
  ∃ l, wdata r = LeaseJSON l /\ ReadVersioned st key = Ok (LeaseJSON l, v) /\
    Seq l = curseq w + 1 /\ (heldBy i l \/ Holder l = "") /\
    (cur w = Err ErrNotFound /\ heldBy i l \/
     ∃ c v0, cur w = Ok (c, v0) /\ just w i c /\
       (Holder l = "" -> free_for i c /\ ∀ s, ~ claims w (nodes w i) s)).
Proof using CasStore0.
  intros HI Hr Hx. destruct (inv_reqs _ HI _ _ _ Hr) as [_ Hc]. destruct r as [d|d v0]; simpl in *.
  - apply cas_create_sound in Hx as [Hn Hr']. destruct Hc as (l & -> & Hs & Hh).
    exists l. split; [done|]. split; [done|]. split; [|by eauto 6].
    unfold HaSystem.curseq. rewrite Hn. lia.
  - apply cas_replace_sound in Hx as [[d0 Hn] Hr']. destruct Hc as (l & c & -> & [Hnm Hp] & Hs & Hh & Hj).
    assert (d0 = c) as -> by (eapply names_unique; [by exists (store w)|done]).
    exists l. do 2 (split; [done|]). split; [|split; [done|]].
    + unfold HaSystem.curseq. by rewrite Hn.
    + right. exists c, v0. destruct (Hj Hn). done.
Qed.

(** No other instance still holds the lease when a pending write goes through. *)
Lemma commit_excludes w i id r st v j s :
  Inv w -> reqs w !! id = Some (i, r) -> execReq key r (store w) = (st, Ok v) ->
  claims w (nodes w j) s -> clk j (now w) < s + (cTTL (cfg j) - cRenew (cfg j)) ->
  j = i /\ ∃ l, wdata r = LeaseJSON l /\ heldBy i l.
Proof using All.
  intros HI Hr Hx Hcl Hv. destruct (commit_cur _ _ _ _ _ _ HI Hr Hx) as (l & Hd & _ & _ & Hh & Hj).
  destruct (ci_holds _ _ _ (inv_claims _ HI j) _ Hcl Hv) as (lj & vj & Hcur & Hhj).
  destruct Hj as [[Hn _]|(c & v0 & Hc & Hj & Hrel)]; [congruence|].
  rewrite Hcur in Hc. simplify_eq. assert (i = j) as <-.
  { destruct Hj as [Hf|Hw]; [by eapply free_for_other|].
    pose proof (waited_expired _ _ _ _ _ Hhj Hw (ci_sent _ _ _ (inv_claims _ HI j) _ Hcl)). lia. }
  split; [done|]. exists l. split; [done|]. destruct Hh as [|He]; [done|].
  destruct (Hrel He) as [_ Hno]. by destruct (Hno s).
Qed.

Lemma process_advance w i id r :
  Inv w -> reqs w !! id = Some (i, r) -> advance w (process key id r w).
Proof using CasStore0.
  intros HI Hr. unfold process. destruct (execReq key r (store w)) as [st [v|e]] eqn:Hx.
  - destruct (commit_cur _ _ _ _ _ _ HI Hr Hx) as (l & _ & Hr' & Hs & _).
    split; simpl; [lia| |lia|].
    + unfold HaSystem.curseq at 2. simpl. rewrite Hr'. simpl. lia.
    + intros v' c [_ Hp]. unfold cur. simpl. rewrite Hr'. intros [= <- <-]. simpl in Hp. lia.
  - assert (st = store w) as ->.
    { destruct r; simpl in Hx; [apply cas_create_sound in Hx|apply cas_replace_sound in Hx]; done. }
    apply advance_same; simpl; done || lia.
Qed.

(** A claim after the step was one before, or comes from this very answer. *)
Lemma process_claims w id r j s :
  claims (process key id r w) (nodes w j) s ->
  claims w (nodes w j) s \/
  ∃ next v st, waits (ph (nodes w j)) = Some (id, next, Some s) /\ execReq key r (store w) = (st, Ok v).
Proof.
  unfold process. destruct (execReq key r (store w)) as [st res] eqn:Hx. intros [Hs|Hs].
  { left. by left. }
  destruct Hs as (id' & next & v & Hw & Hr). simpl in Hr. rewrite lookup_insert in Hr.
  case_decide; subst.
  - simplify_eq. right. by do 3 eexists.
  - left. right. by do 3 eexists.
Qed.

Lemma process_tables w i id r j :
  Inv w -> reqs w !! id = Some (i, r) -> tablesOk (process key id r w) j (nodes w j).
Proof using CasStore0.
  intros HI Hr id' next os Hw.
  pose proof (process_advance _ _ _ _ HI Hr) as Ha. pose proof (inv_seq _ HI) as Hsq.
  destruct (LocalInv_tables _ _ _ (inv_local _ HI j) _ _ _ Hw) as [Ht1 Ht2].
  destruct (execReq key r (store w)) as [st res] eqn:Hx.
  assert (reqs (process key id r w) = delete id (reqs w)) as Hq by (unfold process; by rewrite Hx).
  assert (resps (process key id r w) = <[id := res]> (resps w)) as Hp by (unfold process; by rewrite Hx).
  rewrite Hq, Hp. split.
  - intros k r' Hl. apply lookup_delete_Some in Hl as [_ Hl]. by apply Ht1.
  - intros v. rewrite lookup_insert. case_decide; subst.
    + intros [= ->]. destruct (Ht1 _ _ Hr) as (-> & l & Hd & Hsame).
      destruct (commit_cur _ _ _ _ _ _ HI Hr Hx) as (l' & Hd' & Hr' & Hs & _). simplify_eq.
      exists l. split; [|done]. rewrite Hd in Hd'. simplify_eq. split; [by exists st|].
      unfold process. rewrite Hx. unfold HaSystem.curseq. simpl. rewrite Hr'. simpl. lia.
    + intros Hv. destruct (Ht2 v Hv) as (l & ? & ?). exists l.
      split; [by eapply past_advance|done].
Qed.

Lemma process_claim_inv w i id r j :
  Inv w -> reqs w !! id = Some (i, r) -> ClaimInv (process key id r w) j (nodes w j).
Proof using All.
  intros HI Hr. pose proof (inv_committed _ HI) as Hcm.
  destruct (execReq key r (store w)) as [st res] eqn:Hx.
  assert (now (process key id r w) = now w) as Hn by (unfold process; by rewrite Hx).
  assert (committedAt (process key id r w) = if is_ok res then now w else committedAt w) as Hca
    by (unfold process; by rewrite Hx).
  assert (cur (process key id r w) = ReadVersioned st key) as Hcu by (unfold cur, process; by rewrite Hx).
  assert (∀ next s, waits (ph (nodes w j)) = Some (id, next, Some s) -> res <> Err ErrStorage -> is_ok res = true ->
    j = i /\ heldBy i next /\ ∃ S, s = clk j S /\ S <= now w) as Hnew.
  { intros next s Hw _ _. destruct (li_waits _ _ _ (inv_local _ HI j) _ _ _ Hw) as (_ & Hs & _ & Hq & _).
    destruct (Hq _ _ Hr) as [-> _]. destruct (Hs s eq_refl) as (? & ? & ? & ?). eauto. }
  split.
  - intros s Hs. apply process_claims in Hs as [Hs|(next & v & st' & Hw & Hx')].
    + destruct (ci_sent _ _ _ (inv_claims _ HI j) s Hs) as (S & ? & ?). exists S. split; [done|].
      rewrite Hca. destruct (is_ok res); lia.
    + rewrite Hx in Hx'. simplify_eq. destruct (Hnew _ _ Hw) as (_ & _ & S & ? & ?); [done..|].
      exists S. rewrite Hca. done.
  - intros s Hs Hv. rewrite Hn in Hv. rewrite Hcu. destruct res as [v|e].
    + destruct (commit_cur _ _ _ _ _ _ HI Hr Hx) as (l & Hd & Hr' & _). exists l, v. split; [done|].
      apply process_claims in Hs as [Hs|(next & v' & st' & Hw & _)].
      * destruct (commit_excludes _ _ _ _ _ _ _ _ HI Hr Hx Hs Hv) as (-> & l' & Hd' & ?). congruence.
      * destruct (Hnew _ _ Hw) as (-> & Hh & _); [done..|].
        destruct (li_waits _ _ _ (inv_local _ HI i) _ _ _ Hw) as (_ & _ & _ & Hq & _).
        destruct (Hq _ _ Hr) as (_ & l' & Hd' & _ & Hs1 & Hs2). rewrite Hd in Hd'. simplify_eq.
        destruct Hh as [Hh1 Hh2]. split; congruence.
    + assert (st = store w) as ->.
      { destruct r; simpl in Hx; [apply cas_create_sound in Hx|apply cas_replace_sound in Hx]; done. }
      apply process_claims in Hs as [Hs|(next & v' & st' & _ & Hx')]; [|congruence].
      exact (ci_holds _ _ _ (inv_claims _ HI j) s Hs Hv).
Qed.

Lemma process_inv w i id r :
  Inv w -> reqs w !! id = Some (i, r) -> Inv (process key id r w).
Proof using All.
  intros HI Hr. pose proof (process_advance _ _ _ _ HI Hr) as Ha.
  assert (∀ j, nodes (process key id r w) j = nodes w j) as Hnd.
  { intros j. unfold process. by destruct (execReq _ _ _). }
  assert (nextId (process key id r w) = nextId w) as Hid.
  { unfold process. by destruct (execReq _ _ _). }
  split.
  - pose proof (inv_committed _ HI). unfold process. destruct (execReq _ _ _) as [? []]; simpl; lia.
  - pose proof (inv_seq _ HI). pose proof (ad_seq _ _ Ha). lia.
  - intros id' r'. rewrite Hid. unfold process. destruct (execReq _ _ _). simpl. rewrite lookup_insert.
    case_decide; subst; [|apply (inv_resps _ HI)]. intros _. apply (ri_id _ _ _ _ (inv_reqs _ HI _ _ _ Hr)).
  - intros j. rewrite Hnd. eapply LocalInv_advance; [exact Ha|by eapply process_tables|apply (inv_local _ HI)].
  - intros j. rewrite Hnd. by eapply process_claim_inv.
  - intros id' j r' Hl.
    assert (reqs w !! id' = Some (j, r')) as Hl'.
    { revert Hl. unfold process. destruct (execReq _ _ _). simpl. by intros [_ ?]%lookup_delete_Some. }
    eapply ReqInv_advance; [exact Ha| |exact (inv_reqs _ HI _ _ _ Hl')].
    intros s Hs Hc. rewrite Hnd in Hs. apply process_claims in Hs as [Hs|(next & v & st & _ & Hx)]; [done|].
    destruct (commit_cur _ _ _ _ _ _ HI Hr Hx) as (l & _ & Hr' & Hs & _).
    exfalso. revert Hc. unfold cur, process. rewrite Hx. simpl. rewrite Hr'. intros Hc.
    unfold HaSystem.curseq in Hs. rewrite <- Hc in Hs. simpl in Hs. lia.
  - intros j k. rewrite !Hnd. apply (inv_unique _ HI).
Qed.

(** ** Operations of the manager *)

Lemma noteAuthentic_fields c l m :
  role (noteAuthentic c l m) = role m /\ held (noteAuthentic c l m) = held m /\
  obs (noteAuthentic c l m) = obs m.
Proof. unfold noteAuthentic. destruct (cMACKey c); [|done]. by destruct (_ && _). Qed.

Lemma observe_recv_ok c data v t m m' a :
  observe_recv c (Ok (data, v)) t m = (m', a) ->
  role m' = role m /\ held m' = held m /\
  ((obs m' = obs m /\ a = None) \/
   (seenVersion (obs m') = v /\
    seenAt (obs m') = (if decide (v = seenVersion (obs m)) then seenAt (obs m) else t) /\
    ∀ x, a = Some x -> aPrev x = Some data /\ aVersion x = v /\ aSeq x = u64 (seqOf data + 1) /\
      (match data with LeaseJSON l => Holder l = "" | Garbage _ => False end \/
       Z.max (cTTL c) (ttlOf data) <= time_sub t (seenAt (obs m'))))).
Proof.
  unfold observe_recv. set (m0 := match DecodeLease data with Some l => noteAuthentic c l m | None => m end).
  assert (role m0 = role m /\ held m0 = held m /\ obs m0 = obs m) as (Hr & Hh & Ho).
  { unfold m0. destruct (DecodeLease data); [apply noteAuthentic_fields|done]. }
  destruct (_ && _ && _) eqn:Hk; intros [= <- <-]; simpl; rewrite ?Hr, ?Hh, ?Ho.
  { do 2 (split; [done|]). by left. }
  do 2 (split; [done|]). right.
  set (o := if bool_decide (v = seenVersion (obs m)) then obs m else _).
  assert (seenVersion o = v /\
    seenAt o = if decide (v = seenVersion (obs m)) then seenAt (obs m) else t) as [Hov Hoa].
  { unfold o. destruct (decide (v = seenVersion (obs m))) as [E|E];
      [rewrite bool_decide_true by done|rewrite bool_decide_false by done]; by rewrite ?E. }
  split; [done|]. split; [done|]. intros x Hx. destruct (_ || negb _) eqn:Hb; [done|].
  apply orb_false_elim in Hb as [_ Hb%negb_false_iff%orb_true_iff]. injection Hx as <-. simpl.
  split; [done|]. split; [done|]. split; [by destruct data|].
  destruct data as [l|g]; simpl in *.
  - destruct Hb as [Hb|Hb]; [left|right; lia]. unfold Released in Hb. by bool_cases.
  - destruct Hb as [|Hb]; [done|right; lia].
Qed.

(** A standby that waits for no request claims nothing. *)
Lemma no_claims w nd s : role (mgr nd) = RoleStandby -> waits (ph nd) = None -> ~ claims w nd s.
Proof. intros Hr Hw [(? & _)|(? & ? & ? & ? & _)]; congruence. Qed.

(** An idle standby keeps its invariant when only health or trust fields change. *)
Lemma standby_local w i m m' p :
  LocalInv w i (mkNode m p) -> role m' = RoleStandby -> obs m' = obs m -> LocalInv w i (mkNode m' Idle).
Proof.
  intros [_ _ Hs _ _ _] Hr Ho. split; simpl; try done; try congruence. by rewrite Ho.
Qed.

Lemma observe_local w i m rd m' a :
  Inv w -> nodes w i = mkNode m (ReadAns rd) -> curseq w + 1 < 2 ^ 64 ->
  observe_recv (cfg i) rd (clk i (now w)) m = (m', a) ->
  role m' = RoleStandby /\
  LocalInv w i (mkNode m' (match a with Some a => AcqDecided a | None => Idle end)).
Proof using CasStore0 timing.
  intros HI Hn Hb Ho. pose proof (inv_local _ HI i) as Hl. rewrite Hn in Hl.
  assert (role m = RoleStandby) as Hr by exact (li_role _ _ _ Hl).
  destruct rd as [[data v]|e].
  - pose proof (li_read _ _ _ Hl data v eq_refl) as Hp.
    apply observe_recv_ok in Ho as (Hr' & _ & [[Ho ->]|(Hv & Ht & Ha)]).
    { split; [congruence|]. eapply standby_local; [exact Hl|congruence|done]. }
    split; [congruence|].
    assert (cur w = Ok (data, v) -> free_for i data \/
      ∃ S, seenAt (obs m') = clk i S /\ committedAt w <= S <= now w) as Hseen.
    { intros Hc. rewrite Ht. case_decide as Hd.
      - destruct (li_seen _ _ _ Hl) as [He|(c & Hpc & Hcc)]; simpl in *.
        + destruct (names_nonempty v data) as []; [apply Hp|congruence].
        + assert (c = data) as ->; [|apply Hcc; congruence].
          eapply names_unique; [apply Hpc|]. rewrite <- Hd. apply Hp.
      - right. exists (now w). pose proof (inv_committed _ HI). split; [done|lia]. }
    split; simpl.
    + unfold roleOk. destruct a; simpl; [congruence|done].
    + congruence.
    + right. exists data. rewrite Hv. done.
    + by destruct a.
    + intros x Hx. destruct a as [y|]; [|done]. simplify_eq/=.
      destruct (Ha x eq_refl) as (-> & -> & -> & Hw). split; [done|]. destruct Hp as [Hnm Hq].
      split; [apply u64_small; lia|]. intros Hc. destruct Hw as [Hw|Hw].
      { left. destruct data; simpl; auto. }
      destruct (Hseen Hc) as [|(S & HS & ?)]; [by left|right]. exists S, (now w).
      rewrite HS in Hw. split; [lia|]. split; [lia|]. unfold time_sub in Hw.
      destruct (timing_bounds i) as [_ [? _]]. assert (0 < second) by done. lia.
    + by destruct a.
  - assert (a = None \/ a = Some (mkAcq (u64 (seenEpoch (obs m) + 1)) 1 None "")) as Ha.
    { destruct e; simpl in Ho; simplify_eq; try (by left). destruct (_ <? _); simplify_eq; auto. }
    assert (role m' = RoleStandby /\ (seenVersion (obs m') = "" \/ obs m' = obs m)) as [Hr' Hs].
    { destruct e; simpl in Ho; simplify_eq; simpl; auto. }
    split; [done|]. split; simpl; try done; try congruence.
    + destruct Ha as [->| ->]; simpl; done.
    + destruct Hs as [|Hs]; [by left|rewrite Hs]. apply (li_seen _ _ _ Hl).
    + destruct Ha as [->| ->]; done.
    + destruct Ha as [->| ->]; [done|]. intros x [= <-]. done.
    + destruct Ha as [->| ->]; done.
Qed.

Lemma encode_data c l sgn d :
  encode c l sgn = Some d -> ∃ l', d = LeaseJSON l' /\ same l' l.
Proof.
  unfold encode, encodeLease. destruct (_ && _); [|done]. intros [= <-]. eexists. split; [done|].
  destruct (cMACKey c); [destruct sgn|]; done.
Qed.

Lemma acquire_send_spec c floor a renewedAt m next sgn p r :
  acquire_send c floor a renewedAt m = inr (next, sgn, p, r) ->
  Holder next = cInstanceID c /\ TTLSeconds next = Z.quot (cTTL c) second /\ Seq next = aSeq a /\
  ∃ l, same l next /\
    r = match aPrev a with None => WCreate (LeaseJSON l) | Some _ => WReplace (LeaseJSON l) (aVersion a) end.
Proof.
  assert (∀ epoch, match encode c (acquiredLease c epoch (aSeq a) renewedAt (assess c (aPrev a) m))
                       (bool_decide (pTrust (assess c (aPrev a) m) = LeaseAuthentic)) with
    | None => inl (recordError EEncode m)
    | Some data => inr (acquiredLease c epoch (aSeq a) renewedAt (assess c (aPrev a) m),
        bool_decide (pTrust (assess c (aPrev a) m) = LeaseAuthentic), assess c (aPrev a) m,
        match aPrev a with None => WCreate data | Some _ => WReplace data (aVersion a) end)
    end = inr (next, sgn, p, r) ->
    Holder next = cInstanceID c /\ TTLSeconds next = Z.quot (cTTL c) second /\ Seq next = aSeq a /\
    ∃ l, same l next /\
      r = match aPrev a with None => WCreate (LeaseJSON l) | Some _ => WReplace (LeaseJSON l) (aVersion a) end) as Hgo.
  { intros epoch. destruct (encode _ _ _) as [d|] eqn:He; [|done].
    intros [= <- <- <- <-]. apply encode_data in He as (l & -> & Hs).
    do 3 (split; [done|]). exists l. by destruct (aPrev a). }
  unfold acquire_send. destruct floor as [[f|]|]; [apply Hgo|done|apply Hgo].
Qed.

Lemma acquire_drop_spec c floor a renewedAt m m' :
  acquire_send c floor a renewedAt m = inl m' -> role m' = role m /\ obs m' = obs m.
Proof.
  unfold acquire_send. destruct floor as [[f|]|]; try (destruct (encode _ _ _); [done|]);
    intros [= <-]; done.
Qed.

Lemma renewal_spec m m1 :
  renewal m m1 -> role m1 = role m /\ obs m1 = obs m /\ version (held m1) = version (held m) /\
    sentAt (held m1) = sentAt (held m) /\ same (lease (held m1)) (lease (held m)).
Proof.
  destruct 1 as [|mark m1 Hs|mark m1 Hs]; [done|..].
  - unfold confirm_start in Hs. by destruct (isActive m); simplify_eq.
  - unfold record_start in Hs. by destruct (_ || _); simplify_eq.
Qed.

Lemma renew_send_spec c t wl renewedAt sd m next r :
  renew_send c t wl renewedAt sd m = inr (next, r) ->
  Holder next = Holder (lease (held m)) /\ TTLSeconds next = TTLSeconds (lease (held m)) /\
  Seq next = u64 (Seq (lease (held m)) + 1) /\
  ∃ l, same l next /\ r = WReplace (LeaseJSON l) (version (held m)).
Proof.
  unfold renew_send. destruct (expired _ _ _ _); [done|].
  destruct (encode _ _ _) as [d|] eqn:He; [|done]. intros [= <- <-].
  apply encode_data in He as (l & -> & Hs). do 3 (split; [done|]). by exists l.
Qed.

Lemma release_send_spec c renewedAt m next r :
  release_send c renewedAt m = inr (next, r) ->
  role m = RoleActive /\ Holder next = "" /\ Seq next = u64 (Seq (lease (held m)) + 1) /\
  ∃ l, same l next /\ r = WReplace (LeaseJSON l) (version (held m)).
Proof.
  unfold release_send, isActive. case_bool_decide; [|done]. simpl.
  destruct (encode _ _ _) as [d|] eqn:He; [|done]. intros [= <- <-].
  apply encode_data in He as (l & -> & Hs). do 3 (split; [done|]). by exists l.
Qed.

Lemma stepDown_role c t m : role (stepDown c t true m) = RoleStandby.
Proof. unfold stepDown, isActive. case_bool_decide; simpl; [done|]. by destruct (role m). Qed.

(** Stepping down, from any phase. *)
Lemma stepDown_local w i m p t :
  LocalInv w i (mkNode m p) -> LocalInv w i (mkNode (stepDown (cfg i) t true m) Idle).
Proof.
  intros Hl. pose proof (stepDown_role (cfg i) t m) as Hr. split; simpl; try done; try congruence.
  unfold stepDown, isActive. case_bool_decide as Ha; simpl; [|apply (li_seen _ _ _ Hl)].
  destruct (li_active _ _ _ Hl Ha) as (lc & Hp & Hf & _). right. exists (LeaseJSON lc). auto.
Qed.

Lemma recordError_local w i m p e : LocalInv w i (mkNode m p) -> LocalInv w i (mkNode (recordError e m) p).
Proof. intros [H1 H2 H3 H4 H5 H6]. by split. Qed.

(** An active instance goes back to idle with the same lease. *)
Lemma active_idle_local w i m m1 p :
  LocalInv w i (mkNode m p) -> p <> RelDone -> role m1 = role m -> obs m1 = obs m ->
  version (held m1) = version (held m) -> same (lease (held m1)) (lease (held m)) ->
  LocalInv w i (mkNode m1 Idle).
Proof.
  intros Hl Hp Hr Ho Hv (Hs1 & Hs2 & Hs3). split; simpl; try done.
  - rewrite Hr. intros Ha. destruct (li_active _ _ _ Hl Ha) as (lc & Hpa & Hf & Hh).
    exists lc. rewrite Hv. split; [done|]. split; [done|]. intros _.
    destruct (Hh Hp) as ([Hh1 Hh2] & Hlc & Hsq). simpl in *.
    split; [split; congruence|]. split; [done|congruence].
  - rewrite Ho. apply (li_seen _ _ _ Hl).
Qed.

(** ** Every step keeps the invariant *)

Lemma acq_recv_local w i m id next sgn p prev sent sentW r :
  Inv w -> nodes w i = mkNode m (AcqWait id next sgn p prev sent sentW) -> answered w id r ->
  let m' := acquire_recv (cfg i) next sgn p prev sent sentW r m in
  LocalInv w i (mkNode m' Idle) /\
  ∀ s, claims w (mkNode m' Idle) s -> claims w (nodes w i) s.
Proof.
  intros HI Hn Hr m'. pose proof (inv_local _ HI i) as Hl. rewrite Hn in Hl. rewrite Hn.
  assert (role m = RoleStandby) as Hro by exact (li_role _ _ _ Hl).
  destruct r as [v|e].
  - inversion Hr as [r Hv|]; subst.
    destruct (li_waits _ _ _ Hl _ _ _ eq_refl) as (_ & Hs & _ & _ & Ha).
    destruct (Hs sent eq_refl) as [Hh _]. destruct (Ha v Hv) as (l & Hp & Hs1 & Hs2 & Hs3).
    assert (held m' = mkHeld next v sent sentW (bool_decide (prev = None)) sgn p /\
            seenVersion (obs m') = v) as [Hhm Hom].
    { unfold m', acquire_recv. destruct sgn; [destruct (cMACKey (cfg i))|]; try done.
      match goal with |- context [noteAuthentic ?a ?b ?c] =>
        destruct (noteAuthentic_fields a b c) as (_ & -> & ->) end. done. }
    assert (heldBy i l) as Hhl by (destruct Hh; split; congruence).
    assert (free_for i (LeaseJSON l)) as Hf by (right; apply Hhl).
    split.
    + split; simpl; try done.
      * intros _. exists l. rewrite Hhm. done.
      * right. exists (LeaseJSON l). rewrite Hom. split; [done|]. by left.
    + intros s [(_ & _ & ->)|(? & ? & ? & ? & _)]; [|done]. right. simpl. rewrite Hhm. by do 3 eexists.
  - assert (role m' = RoleStandby /\ obs m' = obs m) as [Hr1 Ho1].
    { unfold m', acquire_recv. destruct e; done. }
    split; [by eapply standby_local|]. intros s Hs. exfalso. by eapply no_claims in Hs.
Qed.

Lemma renew_recv_err c next sent sentW e t wl sd m :
  e <> ErrPreconditionFailed ->
  renew_recv c next sent sentW (Err e) t wl sd m =
    let m1 := recordError (EStore e) m in
    let m2 := withHealth (setRetrying (negb (expired c m1 t wl)) (health m1)) m1 in
    if expired c m1 t wl then stepDown c sd true m2 else m2.
Proof. by destruct e. Qed.

Lemma renew_recv_local w i m id next sent sentW r t wl sd :
  Inv w -> nodes w i = mkNode m (RenewWait id next sent sentW) -> answered w id r ->
  let m' := renew_recv (cfg i) next sent sentW r t wl sd m in
  LocalInv w i (mkNode m' Idle) /\
  ∀ s, claims w (mkNode m' Idle) s -> claims w (nodes w i) s.
Proof.
  intros HI Hn Hr m'. pose proof (inv_local _ HI i) as Hl. rewrite Hn in Hl. rewrite Hn.
  assert (role m = RoleActive) as Hro by exact (li_role _ _ _ Hl).
  assert (∀ m1, role m1 = RoleStandby -> ∀ s, claims w (mkNode m1 Idle) s ->
    claims w (mkNode m (RenewWait id next sent sentW)) s) as Hno.
  { intros m1 Hr1 s Hs. exfalso. by eapply no_claims in Hs. }
  destruct r as [v|e].
  - inversion Hr as [r Hv|]; subst.
    destruct (li_waits _ _ _ Hl _ _ _ eq_refl) as (_ & Hs & _ & _ & Ha).
    destruct (Hs sent eq_refl) as [Hh _]. destruct (Ha v Hv) as (l & Hp & Hs1 & Hs2 & Hs3).
    assert (heldBy i l) as Hhl by (destruct Hh; split; congruence).
    split.
    + split; simpl; try done; [|apply (li_seen _ _ _ Hl)].
      intros _. exists l. split; [done|]. split; [right; apply Hhl|]. done.
    + intros s [(_ & _ & ->)|(? & ? & ? & ? & _)]; [|done]. right. simpl. by do 3 eexists.
  - destruct (decide (e = ErrPreconditionFailed)) as [->|He].
    { unfold m'. simpl. split; [by eapply stepDown_local, recordError_local|apply Hno, stepDown_role]. }
    unfold m'. rewrite renew_recv_err by done. cbv zeta.
    set (m1 := recordError (EStore e) m). set (exp := expired (cfg i) m1 t wl).
    set (m2 := withHealth (setRetrying (negb exp) (health m1)) m1).
    assert (LocalInv w i (mkNode m2 Idle)) as Hl2
      by (by apply (active_idle_local w i m m2 _ Hl)).
    destruct exp; [split; [by eapply stepDown_local|apply Hno, stepDown_role]|].
    split; [done|]. intros s [(_ & _ & ->)|(? & ? & ? & ? & _)]; [|done]. left.
    split; [done|]. split; [by intros []|done].
Qed.

(** Sending a request that renews or releases what an active instance holds. *)
Lemma held_send w i m m1 p next r os l :
  Inv w -> nodes w i = mkNode m Idle -> curseq w + 1 < 2 ^ 64 -> role m = RoleActive ->
  role m1 = role m -> obs m1 = obs m -> version (held m1) = version (held m) ->
  sentAt (held m1) = sentAt (held m) -> same (lease (held m1)) (lease (held m)) ->
  waits p = Some (nextId w, next, os) ->
  (p = RenewWait (nextId w) next (clk i (now w)) (wall i (now w)) /\ os = Some (clk i (now w)) /\ heldBy i next \/
   p = RelWait (nextId w) next /\ os = None /\ Holder next = "") ->
  Seq next = u64 (Seq (lease (held m1)) + 1) -> same l next ->
  r = WReplace (LeaseJSON l) (version (held m1)) ->
  Inv (sendReq i r (mkNode m1 p) w).
Proof using CasStore0 ids_set.
  intros HI Hn Hb Hro Hr Ho Hv Hse (Hs1 & Hs2 & Hs3) Hw Hp Hq (Hl1 & Hl2 & Hl3) ->.
  pose proof (inv_local _ HI i) as Hl. rewrite Hn in Hl.
  destruct (li_active _ _ _ Hl Hro) as (lc & [Hnm Hsq] & Hf & Hh). simpl in Hh, Hsq.
  destruct (Hh ltac:(done)) as ([Hh1 Hh2] & Hlc & Hseq). simpl in *.
  assert (p <> RelDone) as Hnd by (destruct Hp as [(-> & _)|(-> & _)]; done).
  assert (Seq next = seqOf (LeaseJSON lc) + 1) as Hseq'.
  { rewrite Hq, Hs1. simpl. rewrite u64_small; lia. }
  assert (resps w !! nextId w = None) as Hfresh.
  { destruct (resps w !! nextId w) eqn:E; [|done]. apply (inv_resps _ HI) in E. lia. }
  eapply sendReq_inv; [done|exact Hw|..].
  - split; simpl.
    + unfold roleOk. destruct Hp as [(-> & _)|(-> & _)]; simpl; congruence.
    + intros _. exists lc. rewrite Hv. split; [done|]. split; [done|]. intros _.
      split; [split; congruence|]. split; [done|congruence].
    + rewrite Ho. apply (li_seen _ _ _ Hl).
    + destruct Hp as [(-> & _)|(-> & _)]; done.
    + destruct Hp as [(-> & _)|(-> & _)]; done.
    + intros id nx os' Hw'. rewrite Hw in Hw'. simplify_eq. split; [lia|]. split; [|split; [|split]].
      * intros s ->. destruct Hp as [(_ & [= ->] & ?)|(_ & ? & _)]; [|done]. split; [done|].
        exists (now w). split; [done|lia].
      * intros ->. destruct Hp as [(_ & ? & _)|(_ & _ & ?)]; done.
      * intros j r'. rewrite lookup_insert_eq. intros [= <- <-]. split; [done|]. by exists l.
      * rewrite Hfresh. done.
  - rewrite Hn. intros s [(? & Hnr & ->)|(id & nx & v & Hw' & Hv')]; [left|].
    + simpl in *. split; [congruence|]. split; [by intros []|congruence].
    + simpl in Hw'. rewrite Hw in Hw'. simplify_eq.
  - split; simpl; [lia|]. exists l, (LeaseJSON lc). split; [done|].
    split; [by rewrite Hv|]. split; [simpl; simpl in Hseq'; congruence|]. split.
    + destruct Hp as [(_ & _ & [])|(_ & _ & ?)]; [left; split; congruence|right; congruence].
    + intros _. split; [by left|]. intros He. split; [done|]. intros s.
      rewrite fn_lookup_insert.
      destruct Hp as [(_ & _ & [Hx _])|(-> & _)]; [exfalso|].
      * apply (ids_set i). unfold ID in Hx. congruence.
      * intros [(_ & Hnr & _)|(? & ? & ? & ? & _)]; [by apply Hnr|done].
Qed.

(** A takeover request. *)
Lemma acq_send_inv w i m a floor renewedAt next sgn p r :
  Inv w -> nodes w i = mkNode m (AcqDecided a) ->
  acquire_send (cfg i) floor a renewedAt m = inr (next, sgn, p, r) ->
  Inv (sendReq i r
    (mkNode m (AcqWait (nextId w) next sgn p (aPrev a) (clk i (now w)) (wall i (now w)))) w).
Proof using CasStore0 ids_set.
  intros HI Hn (Hh & Ht & Hs & l & (Hl1 & Hl2 & Hl3) & Hr)%acquire_send_spec.
  pose proof (inv_local _ HI i) as Hl. rewrite Hn in Hl.
  assert (role m = RoleStandby) as Hro by exact (li_role _ _ _ Hl).
  assert (resps w !! nextId w = None) as Hfresh.
  { destruct (resps w !! nextId w) eqn:E; [|done]. apply (inv_resps _ HI) in E. lia. }
  assert (wdata r = LeaseJSON l) as Hd by (subst r; by destruct (aPrev a)).
  assert (heldBy i next /\ heldBy i l) as [Hhn Hhl] by (split; split; unfold ID; congruence).
  pose proof (li_decided _ _ _ Hl a eq_refl) as Hdec.
  eapply sendReq_inv; [done|done|..].
  - split; simpl; try done; [congruence|apply (li_seen _ _ _ Hl)|].
    intros id nx os [= <- <- <-]. split; [lia|]. split; [|split; [done|split]].
    + intros s [= <-]. split; [done|]. exists (now w). split; [done|lia].
    + intros j r'. rewrite lookup_insert_eq. intros [= <- <-]. split; [done|]. by exists l.
    + by rewrite Hfresh.
  - intros s [(? & _)|(id & nx & v & [= <- <- <-] & Hv)]; simpl in *; congruence.
  - split; simpl; [lia|]. subst r. destruct (aPrev a) as [c|]; [|by exists l; split; [done|]; split; [congruence|]].
    destruct Hdec as (Hp & Hq & Hj). exists l, c. split; [done|]. split; [done|].
    split; [congruence|]. split; [by left|]. intros Hc. split; [by apply Hj|].
    intros He. exfalso. apply (ids_set i). destruct Hhl as [Hx _]. unfold ID in Hx. congruence.
Qed.

Lemma tick_inv w t :
  Inv w -> now w <= t ->
  Inv (mkWorld t (store w) (committedAt w) (nodes w) (reqs w) (resps w) (nextId w)).
Proof using clk_mono.
  intros HI Ht. set (w' := mkWorld _ _ _ _ _ _ _).
  assert (advance w w') as Ha by (apply advance_same; simpl; done || lia).
  destruct HI as [Hcm Hsq Hrs Hl Hc Hq Hu]. split; try done; simpl.
  - lia.
  - intros i. eapply LocalInv_advance; [exact Ha|exact (LocalInv_tables _ _ _ (Hl i))|exact (Hl i)].
  - intros i. split; [exact (ci_sent _ _ _ (Hc i))|]. intros s Hs Hv. simpl in Hv.
    apply (ci_holds _ _ _ (Hc i) s Hs). pose proof (clk_mono i (now w) t Ht). lia.
  - intros id i r Hr. eapply ReqInv_advance; [exact Ha|done|by apply Hq].
Qed.

(** An instance that ends a step as a standby without a request. *)
Lemma standby_inv w i nd :
  Inv w -> LocalInv w i nd -> role (mgr nd) = RoleStandby -> waits (ph nd) = None -> Inv (setNode i nd w).
Proof.
  intros HI Hl Hr Hw. apply setNode_inv; [done|done| |congruence].
  intros s Hs. exfalso. by eapply no_claims in Hs.
Qed.

Lemma New_standby c m : New c = Some m -> role m = RoleStandby /\ seenVersion (obs m) = "".
Proof. unfold New. split_ifs; try done. by intros [= <-]. Qed.

(** An idle standby without an observation. *)
Lemma fresh_local w i m :
  role m = RoleStandby -> seenVersion (obs m) = "" -> LocalInv w i (mkNode m Idle).
Proof. intros Hr Hv. split; simpl; try done; try congruence. by left. Qed.

(** An instance that is giving the lease up claims nothing. *)
Lemma releasing_inv w i nd :
  Inv w -> LocalInv w i nd -> ph nd = RelDone -> Inv (setNode i nd w).
Proof.
  intros HI Hl Hp. apply setNode_inv; [done|done|..]; rewrite ?Hp; [|done].
  intros s [(_ & Hn & _)|(? & ? & ? & Hw & _)].
  - destruct Hn. unfold releasing. by rewrite Hp.
  - by rewrite Hp in Hw.
Qed.

Lemma release_recv_local w i m id next r t wl :
  LocalInv w i (mkNode m (RelWait id next)) -> answered w id r ->
  LocalInv w i (mkNode (fst (release_recv next r t wl m)) RelDone).
Proof.
  intros Hl Hr. assert (role m = RoleActive) as Hro by exact (li_role _ _ _ Hl).
  destruct (li_active _ _ _ Hl Hro) as (lc & Hp & Hf & _).
  destruct r as [v|e]; split; simpl; try done; try apply (li_seen _ _ _ Hl).
  - inversion Hr as [r Hv|]; subst. intros _.
    destruct (li_waits _ _ _ Hl _ _ _ eq_refl) as (_ & _ & He & _ & Ha).
    destruct (Ha v Hv) as (l & Hpl & _ & Hh & _). exists l. split; [done|].
    split; [|done]. left. rewrite Hh. by apply He.
  - intros _. by exists lc.
Qed.

Lemma step_inv w w' : Inv w -> step w w' -> curseq w + 1 < 2 ^ 64 -> Inv w'.
Proof using All.
  intros HI Hstep Hb. pose proof (inv_local _ HI) as HL.
  destruct Hstep as [t Ht|id i r Hr|i m Hn Ha|i m Hn|i m Hn|i m rd m' a Hn Ho|i m a fl ra m' Hn Hd
    |i m a fl ra next sgn p r Hn Hs|i m id next sgn p prev sent sentW r Hn Hr|i m m1 ra m' Hn Ha Hrn Hs
    |i m m1 ra next r Hn Ha Hrn Hs|i m id next sent sentW r Hn Hr|i m ra next r Hn Hs|i m ra ok Hn Hs
    |i m id next r Hn Hr|i m Hn|i m Hn|i m0 Hnew].
  all: try (pose proof (HL i) as Hl; rewrite ?Hn in Hl; pose proof (li_role _ _ _ Hl) as Hro;
    unfold roleOk in Hro; simpl in Hro).
  - by apply tick_inv.
  - by eapply process_inv.
  - assert (role m = RoleStandby) by (unfold isActive in Ha; case_bool_decide; by destruct (role m)).
    apply standby_inv; [done| |done|done].
    split; simpl; try done; try congruence. apply (li_seen _ _ _ Hl).
  - apply standby_inv; [done| |done|done].
    split; simpl; try done; try congruence; [apply (li_seen _ _ _ Hl)|].
    intros c v [= Hc]. apply cur_past; [apply (inv_seq _ HI)|done].
  - apply standby_inv; [done| |done|done].
    split; simpl; try done; try congruence. apply (li_seen _ _ _ Hl).
  - destruct (observe_local _ _ _ _ _ _ HI Hn Hb Ho) as [Hro' Hl'].
    apply standby_inv; [done|done|done|by destruct a].
  - apply acquire_drop_spec in Hd as [Hr1 Ho1].
    apply standby_inv; [done|eapply standby_local; [done|congruence|done]|simpl; congruence|done].
  - by eapply acq_send_inv.
  - destruct (acq_recv_local _ _ _ _ _ _ _ _ _ _ _ HI Hn Hr). by apply setNode_inv.
  - apply renewal_spec in Hrn as (Hr1 & Ho1 & Hv1 & Hse1 & Hsm1).
    assert (LocalInv w i (mkNode m1 Idle)) as Hl1 by (by apply (active_idle_local w i m m1 _ Hl)).
    unfold renew_send in Hs. destruct (expired _ _ _ _).
    + injection Hs as <-. apply standby_inv; [done|by eapply stepDown_local|apply stepDown_role|done].
    + destruct (encode _ _ _); [done|]. injection Hs as <-.
      apply setNode_inv; [done|by apply recordError_local| |done]. rewrite Hn.
      intros s [(? & _ & ->)|(? & ? & ? & ? & _)]; [|done]. left. simpl in *.
      split; [congruence|]. split; [by intros []|congruence].
  - apply renewal_spec in Hrn as (Hr1 & Ho1 & Hv1 & Hse1 & Hsm1).
    assert (role m = RoleActive) as Hact by (unfold isActive in Ha; by bool_cases).
    apply renew_send_spec in Hs as (Hh & Ht & Hq & l & Hsl & Hreq).
    destruct (li_active _ _ _ Hl Hact) as (lc & _ & _ & Hac).
    destruct (Hac ltac:(done)) as ([] & _). simpl in *. destruct Hsm1 as (? & ? & ?).
    eapply (held_send w i m m1 _ next r _ l); try done. left. split; [done|]. split; [done|].
    split; congruence.
  - destruct (renew_recv_local _ _ _ _ _ _ _ _ (clk i (now w)) (wall i (now w)) (clk i (now w)) HI Hn Hr).
    by apply setNode_inv.
  - apply release_send_spec in Hs as (Hact & Hh & Hq & l & Hsl & Hreq).
    eapply (held_send w i m m _ next r _ l); try done. by right.
  - apply releasing_inv; [done| |done]. split; simpl; try done; [|apply (li_seen _ _ _ Hl)].
    intros Hact. destruct (li_active _ _ _ Hl Hact) as (lc & ? & ? & _). by exists lc.
  - apply releasing_inv; [done| |done]. by eapply release_recv_local.
  - apply standby_inv; [done|by eapply stepDown_local|apply stepDown_role|done].
  - apply standby_inv; [done|by eapply stepDown_local|apply stepDown_role|done].
  - apply New_standby in Hnew as [Hro' Hv]. apply standby_inv; [done|by apply fresh_local|done|done].
Qed.

(** ** Reachable states *)

Lemma initial_inv w : initial key cfg w -> Inv w.
Proof.
  intros (Hn & Hq & Hr & Hc & Hs).
  assert (∀ i, role (mgr (nodes w i)) = RoleStandby /\ waits (ph (nodes w i)) = None /\
               LocalInv w i (nodes w i)) as Hi.
  { intros i. destruct (Hn i) as (m & [Hro Hv]%New_standby & ->). by eauto using fresh_local. }
  assert (∀ i s, ~ claims w (nodes w i) s) as Hno.
  { intros i s. destruct (Hi i) as (? & ? & _). by apply no_claims. }
  split; try done.
  - intros id r. by rewrite Hr.
  - intros i. apply Hi.
  - intros i. split; intros s Hcl; by destruct (Hno i s).
  - intros id i r. by rewrite Hq.
  - intros i j id n1 o1 n2 o2. destruct (Hi i) as (_ & -> & _). done.
Qed.

Lemma step_curseq w w' : Inv w -> step w w' -> curseq w' <= curseq w + 1.
Proof using CasStore0.
  intros HI Hs. assert (∀ w2, store w2 = store w -> curseq w2 <= curseq w + 1) as Hsame.
  { intros w2 He. unfold HaSystem.curseq. rewrite He. lia. }
  destruct Hs; try (by apply Hsame).
  unfold process. destruct (execReq key r (store w)) as [st [v|e]] eqn:Hx.
  - destruct (commit_cur _ _ _ _ _ _ HI H1 Hx) as (l & _ & Hr & Hq & _).
    unfold HaSystem.curseq at 1. simpl. rewrite Hr. simpl. lia.
  - apply Hsame. destruct r; simpl in Hx; [apply cas_create_sound in Hx|apply cas_replace_sound in Hx]; done.
Qed.

Lemma reach_inv w0 n w :
  initial key cfg w0 -> reach key cfg clk wall w0 n w -> curseq w0 + Z.of_nat n < 2 ^ 64 ->
  Inv w /\ curseq w <= curseq w0 + Z.of_nat n.
Proof using All.
  intros Hi. induction 1 as [|n w w' Hr IH Hs]; intros Hb.
  - split; [by apply initial_inv|lia].
  - destruct IH as [HI Hq]; [lia|]. pose proof (step_curseq _ _ HI Hs).
    split; [|lia]. eapply step_inv; [done|done|lia].
Qed.

(** An instance that passes its check and is not giving the lease up holds it in
    storage. *)
Lemma passes_holds w i :
  Inv w -> passes cfg clk wall w i = true -> ~ releasing (nodes w i) ->
  ∃ l v, cur w = Ok (LeaseJSON l, v) /\ Holder l = ID i.
Proof.
  intros HI Hp Hn. unfold passes, Check_, isActive, expired in Hp. bool_cases.
  destruct (ci_holds _ _ _ (inv_claims _ HI i) (sentAt (held (mgr (nodes w i))))) as (l & v & Hc & Hh & _).
  - left. done.
  - unfold deadline in *. lia.
  - by exists l, v.
Qed.
End Safety.

(** [C1] Mutual exclusion. In every reachable state of a cluster over a storage that
    keeps the laws of conditional writes, at most one instance passes its fencing
    check, instances that are in the middle of giving the lease up ([Release],
    [StepDown]) aside. Requests may be delayed arbitrarily and take effect after
    their sender timed out, answers may be lost, instances may crash and restart, and
    clocks may drift apart by up to the renew interval (less the part of the TTL
    below a second) within a TTL. The bound on the steps rules out the wrap-around of
    the 64-bit write counter. *)
Theorem mutual_exclusion `{Crypto} {St : Type} `{LeaseStore St content} {fits : content -> Prop}
    `{!CasStore St content fits} (key : string) (cfg : nat -> Config) (clk wall : nat -> Z -> Z) (drift : Z)
    (w0 w : World) (n i j : nat) :
  (∀ i j, cInstanceID (cfg i) = cInstanceID (cfg j) -> i = j) ->
  (∀ i, cInstanceID (cfg i) <> "") ->
  (∀ i, ValidateTiming (cTTL (cfg i)) (cRenew (cfg i)) = Ok tt) ->
  (∀ i t u, t <= u -> clk i t <= clk i u) ->
  (∀ i j t u, t <= u -> clk i u - clk i t <= MaxTTL ->
     clk j u - clk j t <= clk i u - clk i t + drift) ->
  (∀ i, drift <= cRenew (cfg i) - cTTL (cfg i) mod second) ->
  initial key cfg w0 -> reach key cfg clk wall w0 n w ->
  curseq key w0 + Z.of_nat n < 2 ^ 64 ->
  passes cfg clk wall w i = true -> ~ releasing (nodes w i) ->
  passes cfg clk wall w j = true -> ~ releasing (nodes w j) ->
  i = j.
Proof.
  intros Hid Hne Ht Hm Hd Hs Hi Hr Hb Hpi Hni Hpj Hnj.
  destruct (reach_inv key cfg clk wall Hid Hne Ht drift Hm Hd Hs _ _ _ Hi Hr Hb) as [HI _].
  destruct (passes_holds _ _ _ _ _ _ HI Hpi Hni) as (l1 & v1 & Hc1 & Hh1).
  destruct (passes_holds _ _ _ _ _ _ HI Hpj Hnj) as (l2 & v2 & Hc2 & Hh2).
  apply Hid. unfold ID in *. congruence.
Qed.
