(* ===== verification/HaDemo.v ===== *)
(** * Runs of a concrete cluster

    A cluster of instances with the default timing on the local driver: one takes the
    lease over (the witness of mutual exclusion), and the moment between the write
    that releases the lease and the step-down that follows it. *)

From S2P Require Import Prelude LeaseStore Lease HaManager HaSystem HaSafety.

(** ** An executable scheduler of the cluster

    Labels name the steps of a run; [exec] performs one when it is enabled. *)
Section Exec.
Context `{Crypto} {St : Type} `{LeaseStore St content}.
Context (key : string) (cfg : nat -> Config) (clk wall : nat -> Z -> Z).

Inductive label : Type :=
| LTick (t : Z)
| LReadSend (i : nat)
| LReadServe (i : nat)
| LReadRecv (i : nat)
| LAcqSend (i : nat)
| LProcess (id : nat)
| LAcqRecv (i : nat)
| LReleaseSend (i : nat)
| LReleaseDone (i : nat).

Definition exec (a : label) (w : World (St := St)) : option World :=
  match a with
  | LTick t =>
      if now w <=? t
      then Some (mkWorld t (store w) (committedAt w) (nodes w) (reqs w) (resps w) (nextId w)) else None
  | LReadSend i =>
      match nodes w i with
      | mkNode m Idle => if isActive m then None else Some (setNode i (mkNode m Reading) w)
      | _ => None
      end
  | LReadServe i =>
      match nodes w i with
      | mkNode m Reading => Some (setNode i (mkNode m (ReadAns (ReadVersioned (store w) key))) w)
      | _ => None
      end
  | LReadRecv i =>
      match nodes w i with
      | mkNode m (ReadAns rd) =>
          let '(m', a) := observe_recv (cfg i) rd (clk i (now w)) m in
          Some (setNode i (mkNode m' (match a with Some a => AcqDecided a | None => Idle end)) w)
      | _ => None
      end
  | LAcqSend i =>
      match nodes w i with
      | mkNode m (AcqDecided a) =>
          match acquire_send (cfg i) None a (wall i (now w)) m with
          | inl m' => Some (setNode i (mkNode m' Idle) w)
          | inr (next, sgn, p, r) =>
              Some (sendReq i r
                (mkNode m (AcqWait (nextId w) next sgn p (aPrev a) (clk i (now w)) (wall i (now w)))) w)
          end
      | _ => None
      end
  | LProcess id =>
      match reqs w !! id with
      | Some (_, r) => Some (process key id r w)
      | None => None
      end
  | LAcqRecv i =>
      match nodes w i with
      | mkNode m (AcqWait id next sgn p prev sent sentW) =>
          match resps w !! id with
          | Some r => Some (setNode i (mkNode (acquire_recv (cfg i) next sgn p prev sent sentW r m) Idle) w)
          | None => None
          end
      | _ => None
      end
  | LReleaseSend i =>
      match nodes w i with
      | mkNode m Idle =>
          match release_send (cfg i) (wall i (now w)) m with
          | inl _ => None
          | inr (next, r) => Some (sendReq i r (mkNode m (RelWait (nextId w) next)) w)
          end
      | _ => None
      end
  | LReleaseDone i =>
      match nodes w i with
      | mkNode m RelDone => Some (setNode i (mkNode (stepDown (cfg i) (clk i (now w)) true m) Idle) w)
      | _ => None
      end
  end.

Fixpoint exec_all (l : list label) (w : World) : option World :=
  match l with
  | [] => Some w
  | a :: l => match exec a w with Some w => exec_all l w | None => None end
  end.

Lemma exec_sound a w w' : exec a w = Some w' -> step key cfg clk wall w w'.
Proof.
  destruct a as [t|i|i|i|i|id|i|i|i]; cbn [exec].
  - destruct (_ <=? _) eqn:E; [|done]. intros [= <-]. apply step_tick. by bool_cases.
  - destruct (nodes w i) as [m []] eqn:E; try done. destruct (isActive m) eqn:Ea; [done|].
    intros [= <-]. by apply step_read_send.
  - destruct (nodes w i) as [m []] eqn:E; try done. intros [= <-]. by apply step_read_serve.
  - destruct (nodes w i) as [m []] eqn:E; try done. destruct (observe_recv _ _ _ _) eqn:Eo.
    intros [= <-]. by eapply step_read_recv.
  - destruct (nodes w i) as [m []] eqn:E; try done.
    destruct (acquire_send _ _ _ _ _) as [|[[[next sgn] p] r]] eqn:Ea; intros [= <-].
    + by eapply step_acq_drop.
    + by eapply step_acq_send.
  - destruct (reqs w !! id) as [[i r]|] eqn:E; [|done]. intros [= <-]. by eapply step_process.
  - destruct (nodes w i) as [m []] eqn:E; try done. destruct (resps w !! id) eqn:Er; [|done].
    intros [= <-]. eapply step_acq_recv; [done|by apply answer_real].
  - destruct (nodes w i) as [m []] eqn:E; try done.
    destruct (release_send _ _ _) as [|[next r]] eqn:Er; [done|]. intros [= <-]. by eapply step_release_send.
  - destruct (nodes w i) as [m []] eqn:E; try done. intros [= <-]. by apply step_release_done.
Qed.

Lemma exec_all_sound w0 n l w w' :
  reach key cfg clk wall w0 n w -> exec_all l w = Some w' ->
  reach key cfg clk wall w0 (n + length l) w'.
Proof.
  revert n w. induction l as [|a l IH]; intros n w Hr; simpl.
  - intros [= <-]. by rewrite Nat.add_0_r.
  - destruct (exec a w) as [w1|] eqn:E; [|done]. intros Hx. rewrite Nat.add_succ_r.
    apply (IH (S n) w1); [|done]. eapply reach_step; [exact Hr|by eapply exec_sound].
Qed.

(** A run whose last state satisfies a test. *)
Lemma exec_all_reach w0 l (P : World -> bool) :
  match exec_all l w0 with Some w => P w | None => false end = true ->
  ∃ w, reach key cfg clk wall w0 (length l) w /\ P w = true.
Proof.
  destruct (exec_all l w0) as [w|] eqn:E; [|done]. intros HP. exists w. split; [|done].
  apply (exec_all_sound w0 0 l w0); [apply reach_refl|done].
Qed.
End Exec.

Module Demo.

#[export] Instance demoCrypto : Crypto := {
  hmac := λ _ _, "mac";
  rfc3339 := λ t, pretty t
}.

Definition demoCfg (i : nat) : Config :=
  mkConfig "prod" ("node" +:+ pretty i) "host" "key" None false DefaultTTL DefaultRenew.

(** Perfect clocks. *)
Definition demoClk (i : nat) (t : Z) : Z := t.

Definition demoVersion (c : content) : string := "v" +:+ pretty (countable.encode c).

#[export] Instance demoStore : LeaseStore (gmap string content) content :=
  Local.local_LeaseStore (λ _, 0) demoVersion.

#[export] Instance demoVersion_inj : Inj (=) (=) demoVersion.
Proof. unfold demoVersion. intros c1 c2 E. simpl in E. by simplify_eq. Qed.

#[export] Instance demoCas : CasStore (gmap string content) content (Local.fits (λ _, 0)) :=
  Local.local_CasStore (λ _, 0) demoVersion (λ _ e, ltac:(discriminate e)).

Definition demoMgr (i : nat) : Manager := default
  (mkManager RoleStandby (mkHeld zeroLease "" 0 0 false false zeroPred) (mkSeen zeroLease "" 0 0 zeroMark)
     (mkHealth false None false 0 0 false) 0 false false) (New (demoCfg i)).

Definition demoWorld : World :=
  mkWorld 1000 (∅ : gmap string content) 1000 (λ i, mkNode (demoMgr i) Idle) ∅ ∅ 0.

Lemma demo_New i : New (demoCfg i) = Some (demoMgr i).
Proof. unfold demoMgr, New. rewrite bool_decide_false by done. reflexivity. Qed.

Lemma demo_initial : initial "lease" demoCfg demoWorld.
Proof.
  split; [|repeat split; simpl; try done; lia]. intros i. exists (demoMgr i).
  split; [apply demo_New|done].
Qed.

Definition isReleasing (nd : node) : bool :=
  match ph nd with RelWait _ _ | RelDone => true | _ => false end.

Lemma isReleasing_false nd : isReleasing nd = false -> ~ releasing nd.
Proof. unfold isReleasing, releasing. destruct (ph nd); discriminate || tauto. Qed.

(** Instance [i] reads the lease and acquires it; its request is number [id]. *)
Definition takeover (i id : nat) : list label :=
  [LReadSend i; LReadServe i; LReadRecv i; LAcqSend i; LProcess id; LAcqRecv i].

(** Instance 0 finds no lease and creates one. *)
Lemma demo_active :
  ∃ w, reach "lease" demoCfg demoClk demoClk demoWorld 6 w /\
    passes demoCfg demoClk demoClk w 0 && negb (isReleasing (nodes w 0%nat)) = true.
Proof. apply (exec_all_reach _ _ _ _ _ (takeover 0 0)). vm_compute. reflexivity. Qed.

(** Instance 0 then releases the lease: its write is done, and before it steps down
    instance 1 reads the released lease and takes it over. *)
Lemma demo_release_window :
  ∃ w, reach "lease" demoCfg demoClk demoClk demoWorld 14 w /\
    passes demoCfg demoClk demoClk w 0 && passes demoCfg demoClk demoClk w 1 = true.
Proof.
  apply (exec_all_reach _ _ _ _ _ (takeover 0 0 ++ [LReleaseSend 0; LProcess 1] ++ takeover 1 2)).
  vm_compute. reflexivity.
Qed.

Lemma demo_ids i j : cInstanceID (demoCfg i) = cInstanceID (demoCfg j) -> i = j.
Proof. simpl. intros E. by simplify_eq. Qed.

Lemma demo_drift i : 10 * second <= cRenew (demoCfg i) - cTTL (demoCfg i) mod second.
Proof. vm_compute. discriminate. Qed.
End Demo.

Import Demo.

(** The default timing tolerates a drift of a whole renew interval; instance 0 of the
    demo cluster is the only one that passes once it took the lease. *)
Lemma mutual_exclusion_witness :
  ∃ w, reach "lease" Demo.demoCfg Demo.demoClk Demo.demoClk Demo.demoWorld 6 w /\
    passes Demo.demoCfg Demo.demoClk Demo.demoClk w 0 = true /\
    ∀ j, passes Demo.demoCfg Demo.demoClk Demo.demoClk w j = true -> ~ releasing (nodes w j) -> 0%nat = j.
Proof.
  destruct Demo.demo_active as (w & Hr & [Hp Hn%negb_true_iff%Demo.isReleasing_false]%andb_prop). exists w. split; [exact Hr|]. split; [exact Hp|].
  intros j Hpj Hnj.
  refine (mutual_exclusion (CasStore0 := Demo.demoCas) "lease" Demo.demoCfg Demo.demoClk Demo.demoClk
    (10 * second) Demo.demoWorld w 6 0 j Demo.demo_ids _ _ _ _ Demo.demo_drift Demo.demo_initial Hr _ Hp Hn Hpj Hnj).
  - intros i. discriminate.
  - intros i. reflexivity.
  - intros i t u Htu. exact Htu.
  - intros i k t u _ _. unfold Demo.demoClk, second, millisecond, nanosecond. lia.
  - vm_compute. reflexivity.
Defined.

(** The release window: [Release] writes the lease without a holder before it
    steps down, so between the two another instance can take the lease over and both
    pass their fencing check. *)
Theorem release_window_two_pass :
  ∃ w, reach "lease" Demo.demoCfg Demo.demoClk Demo.demoClk Demo.demoWorld 14 w /\
    passes Demo.demoCfg Demo.demoClk Demo.demoClk w 0 = true /\
    passes Demo.demoCfg Demo.demoClk Demo.demoClk w 1 = true.
Proof. destruct Demo.demo_release_window as (w & ? & [? ?]%andb_prop). by exists w. Qed.
