(* ===== verification/Pitr.v ===== *)
(** * Point-in-time recovery: the data model (src/internal/pitr/pitr.go)

    Oplog positions, streams, chains, chunks and the collector's position, with the
    order of positions every later file uses. *)

From S2P Require Import Prelude.

(** The sentinel errors of pitr.go and plan.go; [ErrInvalidRecord] and [ErrConstraint]
    are the store's (a refused record, a failed CHECK of the schema). *)
Inductive PitrErr : Type :=
| ErrNotFound
| ErrAlreadyExists
| ErrConnectionTaken
| ErrChainOpen
| ErrChainEnded
| ErrDiscontinuous
| ErrInUse
| ErrInvalidRecord
| ErrConstraint
| ErrInvalidTarget
| ErrOutsideWindow
| ErrChainBreak
| ErrChunkFailed
| ErrKeyMissing
| ErrPlanStale.

#[global] Instance PitrErr_eq_dec : EqDecision PitrErr.
Proof. solve_decision. Defined.

(** ** Oplog positions *)

(** A BSON timestamp: two [uint32]. *)
Record Timestamp : Type := mkTS { tsT : Z; tsI : Z }.

#[global] Instance Timestamp_eq_dec : EqDecision Timestamp.
Proof. solve_decision. Defined.

Definition zeroTS : Timestamp := mkTS 0 0.

(** [cmp.Compare] on integers. *)
Definition cmpZ (a b : Z) : Z := if a <? b then -1 else if a >? b then 1 else 0.

Definition Compare (ts o : Timestamp) : Z :=
  let c := cmpZ (tsT ts) (tsT o) in
  if negb (c =? 0) then c else cmpZ (tsI ts) (tsI o).

(** [Timestamp.IsZero]. *)
Definition tsIsZero (ts : Timestamp) : bool := (tsT ts =? 0) && (tsI ts =? 0).

(** [Timestamp.Time]. *)
Definition tsTime (ts : Timestamp) : Z := unix_time (tsT ts).

(** Both halves are [uint32]. *)
Definition tsValid (ts : Timestamp) : Prop := 0 <= tsT ts < 2 ^ 32 /\ 0 <= tsI ts < 2 ^ 32.

(** The order of positions. *)
Definition tsle (a b : Timestamp) : Prop := tsT a < tsT b \/ (tsT a = tsT b /\ tsI a <= tsI b).
Definition tslt (a b : Timestamp) : Prop := tsT a < tsT b \/ (tsT a = tsT b /\ tsI a < tsI b).

Lemma Compare_spec a b :
  (Compare a b = -1 /\ tslt a b) \/ (Compare a b = 0 /\ a = b) \/ (Compare a b = 1 /\ tslt b a).
Proof.
  unfold Compare, cmpZ, tslt. destruct a as [aT aI], b as [bT bI]; simpl.
  destruct (aT <? bT) eqn:E1; simpl; [left; lia|]. destruct (aT >? bT) eqn:E2; simpl; [right; right; lia|].
  assert (aT = bT) as <- by lia.
  destruct (aI <? bI) eqn:E3; [left; lia|]. destruct (aI >? bI) eqn:E4; [right; right; lia|].
  right; left. split; [done|]. f_equal; lia.
Qed.

Lemma tsle_lt_eq a b : tsle a b <-> tslt a b \/ a = b.
Proof.
  destruct a as [aT aI], b as [bT bI]. unfold tsle, tslt; simpl. split.
  - intros H. destruct (decide (aT = bT /\ aI = bI)) as [[-> ->]|]; [by right|left; lia].
  - intros [H|[= -> ->]]; lia.
Qed.

Lemma Compare_lt a b : Compare a b < 0 <-> tslt a b.
Proof. destruct (Compare_spec a b) as [[-> ?]|[[-> ->]|[-> ?]]]; unfold tslt in *; split; intros; try done; lia. Qed.

Lemma Compare_le a b : Compare a b <= 0 <-> tsle a b.
Proof.
  rewrite tsle_lt_eq. destruct (Compare_spec a b) as [[-> ?]|[[-> ->]|[-> ?]]]; split; intros; auto; try lia.
  exfalso. destruct select (tslt a b \/ a = b) as [?| ->]; unfold tslt in *; lia.
Qed.

Lemma Compare_flip a b : Compare b a = - Compare a b.
Proof.
  unfold Compare, cmpZ. destruct a as [aT aI], b as [bT bI]; simpl.
  destruct (Z.ltb_spec aT bT), (Z.gtb_spec aT bT), (Z.ltb_spec bT aT), (Z.gtb_spec bT aT); simpl; try lia.
  destruct (Z.ltb_spec aI bI), (Z.gtb_spec aI bI), (Z.ltb_spec bI aI), (Z.gtb_spec bI aI); simpl; lia.
Qed.

Lemma Compare_gt a b : 0 < Compare a b <-> tslt b a.
Proof. rewrite <- Compare_lt, (Compare_flip a b). lia. Qed.

Lemma Compare_ge a b : 0 <= Compare a b <-> tsle b a.
Proof. rewrite <- Compare_le, (Compare_flip a b). lia. Qed.

Lemma tsle_refl a : tsle a a.
Proof. unfold tsle. lia. Qed.

Lemma tsle_trans a b c : tsle a b -> tsle b c -> tsle a c.
Proof. unfold tsle. lia. Qed.

Lemma tsle_antisym a b : tsle a b -> tsle b a -> a = b.
Proof. destruct a, b. unfold tsle; simpl. intros. f_equal; lia. Qed.

Lemma tsle_total a b : tsle a b \/ tslt b a.
Proof. unfold tsle, tslt. lia. Qed.

Lemma tslt_not_le a b : tslt a b -> ~ tsle b a.
Proof. unfold tsle, tslt. lia. Qed.

#[export] Hint Resolve tsle_refl : rescue.

(** Turns the comparisons of the code into the order of positions. *)
Ltac compare_cases :=
  bool_cases; repeat match goal with
  | H : (Compare _ _ >=? 0) = true |- _ => rewrite Z.geb_leb in H
  | H : (Compare _ _ >=? 0) = false |- _ => rewrite Z.geb_leb in H
  | H : (Compare _ _ >? 0) = true |- _ => rewrite Z.gtb_ltb in H
  | H : (Compare _ _ >? 0) = false |- _ => rewrite Z.gtb_ltb in H
  end; bool_cases;
  repeat match goal with
  | H : 0 <= Compare _ _ |- _ => apply Compare_ge in H
  | H : Compare _ _ <= 0 |- _ => apply Compare_le in H
  | H : 0 < Compare _ _ |- _ => apply Compare_gt in H
  | H : Compare _ _ < 0 |- _ => apply Compare_lt in H
  end.

(** ** Terms *)

Record OpTime : Type := mkOpTime { otTS : Timestamp; otTerm : Z }.

#[global] Instance OpTime_eq_dec : EqDecision OpTime.
Proof. solve_decision. Defined.

(** ** Streams, chains and chunks *)

Record Stream : Type := mkStream {
  sID : string;
  sConnectionID : string;
  sReplicaSet : string;
  sTargetID : string;
  sEnabled : bool;
  sBaseCron : string;
  sBaseKeepCount : Z;
  sBaseKeepDays : Z;
  sOplogMaxDays : Z;
  sChunkSeconds : Z;
  sBaseOnGap : bool;
  sReadPreference : string;
  sChainTestCron : string;
  sChainTestConnectionID : string;
  sCopyTargets : list string;
  sCreatedAt : Z;
  sUpdatedAt : Z
}.

Inductive EndReason : Type := EndNone | EndGap | EndReplicaSetChanged | EndDiverged | EndStopped.

#[global] Instance EndReason_eq_dec : EqDecision EndReason.
Proof. solve_decision. Defined.

Record Chain : Type := mkChain {
  chStreamID : string;
  chChainID : string;
  chStart : Timestamp;
  chEnd : Timestamp;
  chEndReason : EndReason;
  chEndedAt : option Z
}.

(** [Chain.Open]. *)
Definition chainOpen (c : Chain) : bool := bool_decide (chEndedAt c = None).

Inductive ChunkStatus : Type := ChunkCommitted | ChunkSuperseded | ChunkPruned.

#[global] Instance ChunkStatus_eq_dec : EqDecision ChunkStatus.
Proof. solve_decision. Defined.

Record Chunk : Type := mkChunk {
  cID : string;
  cStreamID : string;
  cChainID : string;
  cTargetID : string;
  cStorageKey : string;
  cFrom : Timestamp;
  cTo : Timestamp;
  cFirstTerm : Z;
  cLastTerm : Z;
  cEntries : Z;
  cSizeBytes : Z;
  cSHA256 : string;
  cEncrypted : bool;
  cEncryptionMode : string;
  cStatus : ChunkStatus;
  cCreatedAt : Z;
  cVerifiedAt : option Z;
  cVerifyError : string;
  cDeletedAt : option Z;
  cPurgeAfter : option Z;
  cVersionID : string;
  cRetainUntil : option Z
}.

#[global] Instance Chunk_eq_dec : EqDecision Chunk.
Proof. solve_decision. Defined.

(** [Chunk.Live]. *)
Definition Live (c : Chunk) : bool :=
  bool_decide (cStatus c = ChunkCommitted) && bool_decide (cDeletedAt c = None).

Record ChainSpan : Type := mkSpan {
  spChainID : string;
  spFrom : Timestamp;
  spTo : Timestamp;
  spChunks : Z;
  spSizeBytes : Z
}.

Inductive CollectorStatus : Type :=
| CollectorNone | CollectorStopped | CollectorRunning | CollectorFailed.

#[global] Instance CollectorStatus_eq_dec : EqDecision CollectorStatus.
Proof. solve_decision. Defined.

(** The collector's position ([State]). *)
Record PState : Type := mkPState {
  stStreamID : string;
  stChainID : string;
  stLast : OpTime;
  stStatus : CollectorStatus;
  stLastError : string;
  stLagSince : option Z;
  stWindowLowSince : option Z;
  stReplicaSetID : string;
  stUpdatedAt : Z
}.

(** [ChunkQuery]; [qStatus] is [None] for every status. *)
Record ChunkQuery : Type := mkQuery {
  qStreamID : string;
  qChainID : string;
  qAfter : Timestamp;
  qUntil : Timestamp;
  qStatus : option ChunkStatus;
  qLive : bool
}.
