(* ===== verification/PitrStore.v ===== *)
(** * The PITR repository (src/internal/store/pitr.go)

    The four PITR tables of the database and every operation of the repository on
    them. A method that runs in one transaction is one function from the tables to
    the tables and its result; a refused operation leaves the tables as they are.
    SQL statements are modelled on the tables: [UPDATE ... WHERE] by [updateWhere],
    [ORDER BY] by a stable sort on a total order, a UNIQUE or CHECK constraint of the
    schema by the refusal it causes. Failures of the database itself (I/O, a cancelled
    context), which roll the transaction back, are outside the model. *)

From S2P Require Import Prelude Pitr.

(** ** Tables *)

Record DB : Type := mkDB {
  dbStreams : gmap string Stream;
  dbChains : gmap (string * string) Chain;
  dbChunks : gmap string Chunk;
  dbStates : gmap string PState
}.

Definition emptyDB : DB := mkDB ∅ ∅ ∅ ∅.

Definition withStreams (m : gmap string Stream) (db : DB) : DB :=
  mkDB m (dbChains db) (dbChunks db) (dbStates db).
Definition withChains (m : gmap (string * string) Chain) (db : DB) : DB :=
  mkDB (dbStreams db) m (dbChunks db) (dbStates db).
Definition withChunks (m : gmap string Chunk) (db : DB) : DB :=
  mkDB (dbStreams db) (dbChains db) m (dbStates db).
Definition withStates (m : gmap string PState) (db : DB) : DB :=
  mkDB (dbStreams db) (dbChains db) (dbChunks db) m.

(** The rows of a table. *)
Definition rows {K A} `{Countable K} (m : gmap K A) : list A := (map_to_list m).*2.

(** [UPDATE ... SET g WHERE P], with the number of rows it affected. *)
Definition updateWhere {A} (P : A -> bool) (g : A -> A) (m : gmap string A) : gmap string A * Z :=
  ((λ x, if P x then g x else x) <$> m, Z.of_nat (length (filter P (rows m)))).

(** [SELECT ... WHERE P ORDER BY cmp]. *)
Definition selectBy {K A} `{Countable K} (P : A -> bool) (cmp : A -> A -> comparison) (m : gmap K A) : list A :=
  stable_sort (cmpLess cmp) (filter P (rows m)).

(** [LIMIT]: a negative limit is none. *)
Definition limitRows {A} (limit : Z) (l : list A) : list A :=
  if limit <? 0 then l else take (Z.to_nat limit) l.

Definition isEmpty (s : string) : bool := bool_decide (s = "").

(** ** Streams *)

(** The CHECK constraints of pitr_streams. *)
Definition streamChecks (st : Stream) : bool :=
  (0 <=? sBaseKeepCount st) && (0 <=? sBaseKeepDays st) && (0 <=? sOplogMaxDays st) && (0 <? sChunkSeconds st).

Definition setStreamTimes (created updated : Z) (st : Stream) : Stream :=
  mkStream (sID st) (sConnectionID st) (sReplicaSet st) (sTargetID st) (sEnabled st) (sBaseCron st)
    (sBaseKeepCount st) (sBaseKeepDays st) (sOplogMaxDays st) (sChunkSeconds st) (sBaseOnGap st)
    (sReadPreference st) (sChainTestCron st) (sChainTestConnectionID st) (sCopyTargets st) created updated.

(** Another stream has connection [conn]. *)
Definition connectionTaken (id conn : string) (db : DB) : bool :=
  existsb (λ o, negb (bool_decide (sID o = id)) && bool_decide (sConnectionID o = conn)) (rows (dbStreams db)).

(** [CreateStream]; the primary key is checked before the connection. *)
Definition CreateStream (now : Z) (st : Stream) (db : DB) : DB * result PitrErr Stream :=
  if isEmpty (sID st) || isEmpty (sConnectionID st) then (db, Err ErrInvalidRecord)
  else
    let created := if IsZero (sCreatedAt st) then now else sCreatedAt st in
    if negb (streamChecks st) then (db, Err ErrConstraint)
    else match dbStreams db !! sID st with
    | Some _ => (db, Err ErrAlreadyExists)
    | None =>
        if connectionTaken (sID st) (sConnectionID st) db then (db, Err ErrConnectionTaken)
        else (withStreams (<[sID st := setStreamTimes (stored created) (stored now) st]> (dbStreams db)) db,
              Ok (setStreamTimes created now st))
    end.

Definition UpdateStream (now : Z) (st : Stream) (db : DB) : DB * result PitrErr Stream :=
  if isEmpty (sID st) || isEmpty (sConnectionID st) then (db, Err ErrInvalidRecord)
  else match dbStreams db !! sID st with
  | None => (db, Err ErrNotFound)
  | Some old =>
      if negb (streamChecks st) then (db, Err ErrConstraint)
      else if connectionTaken (sID st) (sConnectionID st) db then (db, Err ErrConnectionTaken)
      else (withStreams (<[sID st := setStreamTimes (sCreatedAt old) (stored now) st]> (dbStreams db)) db,
            Ok (setStreamTimes (sCreatedAt old) now st))
  end.

Definition GetStream (id : string) (db : DB) : result PitrErr Stream :=
  match dbStreams db !! id with Some st => Ok st | None => Err ErrNotFound end.

Definition GetStreamByConnection (conn : string) (db : DB) : result PitrErr Stream :=
  match filter (λ st, sConnectionID st = conn) (rows (dbStreams db)) with
  | st :: _ => Ok st
  | [] => Err ErrNotFound
  end.

Definition ListStreams (db : DB) : list Stream :=
  selectBy (λ _, true) (λ a b, strCmp (sID a) (sID b)) (dbStreams db).

Definition streamExists (id : string) (db : DB) : bool := bool_decide (is_Some (dbStreams db !! id)).

Definition DeleteStream (id : string) (db : DB) : DB * result PitrErr unit :=
  if negb (streamExists id db) then (db, Err ErrNotFound)
  else if existsb (λ c, bool_decide (cStreamID c = id) && negb (bool_decide (cStatus c = ChunkPruned)))
            (rows (dbChunks db)) then (db, Err ErrInUse)
  else (mkDB (delete id (dbStreams db))
          (filter (λ '(_, ch), chStreamID ch <> id) (dbChains db))
          (filter (λ '(_, c), cStreamID c <> id) (dbChunks db))
          (delete id (dbStates db)), Ok tt).

(** ** Chains *)

Definition StartChain (streamID chainID : string) (start : OpTime) (at_ : Z) (db : DB) : DB * result PitrErr unit :=
  if isEmpty streamID || isEmpty chainID then (db, Err ErrInvalidRecord)
  else if negb (streamExists streamID db) then (db, Err ErrNotFound)
  else if existsb (λ ch, bool_decide (chStreamID ch = streamID) && chainOpen ch) (rows (dbChains db))
       then (db, Err ErrChainOpen)
  else match dbChains db !! (streamID, chainID) with
  | Some _ => (db, Err ErrAlreadyExists)
  | None =>
      let st := match dbStates db !! streamID with
        | None => mkPState streamID chainID start CollectorRunning "" None None "" (stored at_)
        | Some o => mkPState streamID chainID start (stStatus o) (stLastError o) (stLagSince o)
                      (stWindowLowSince o) (stReplicaSetID o) (stored at_)
        end in
      (withStates (<[streamID := st]> (dbStates db))
         (withChains (<[(streamID, chainID) := mkChain streamID chainID (otTS start) zeroTS EndNone None]>
                        (dbChains db)) db), Ok tt)
  end.

Definition openChain (streamID chainID : string) (db : DB) : result PitrErr Chain :=
  match dbChains db !! (streamID, chainID) with
  | None => Err ErrNotFound
  | Some ch => if chainOpen ch then Ok ch else Err ErrChainEnded
  end.

Definition EndChain (streamID chainID : string) (end_ : Timestamp) (reason : EndReason) (at_ : Z) (db : DB)
  : DB * result PitrErr unit :=
  if bool_decide (reason = EndNone) then (db, Err ErrInvalidRecord)
  else match openChain streamID chainID db with
  | Err e => (db, Err e)
  | Ok ch =>
      (withChains (<[(streamID, chainID) :=
         mkChain (chStreamID ch) (chChainID ch) (chStart ch) end_ reason (Some (stored at_))]> (dbChains db)) db, Ok tt)
  end.

Definition tsCmp (a b : Timestamp) : comparison := cmpThen (Z.compare (tsT a) (tsT b)) (Z.compare (tsI a) (tsI b)).

(** The order of [ListChains] and [ChainSpans]. *)
Definition chainCmp (a b : Chain) : comparison :=
  cmpThen (tsCmp (chStart a) (chStart b)) (strCmp (chChainID a) (chChainID b)).

Definition ListChains (streamID : string) (db : DB) : list Chain :=
  selectBy (λ ch, bool_decide (chStreamID ch = streamID)) chainCmp (dbChains db).

(** ** Chunks *)

(** The row [CommitChunk] inserts. *)
Definition committed (created : Z) (c : Chunk) : Chunk :=
  mkChunk (cID c) (cStreamID c) (cChainID c) (cTargetID c) (cStorageKey c) (cFrom c) (cTo c)
    (cFirstTerm c) (cLastTerm c) (cEntries c) (cSizeBytes c) (cSHA256 c) (cEncrypted c) (cEncryptionMode c)
    ChunkCommitted (stored created) (stored <$> cVerifiedAt c) (cVerifyError c) None None
    (cVersionID c) (stored <$> cRetainUntil c).

Definition moveState (to : OpTime) (at_ : Z) (st : PState) : PState :=
  mkPState (stStreamID st) (stChainID st) to CollectorRunning "" (stLagSince st) (stWindowLowSince st)
    (stReplicaSetID st) (stored at_).

(** [CommitChunk]; [now] is read when the chunk has no creation time. *)
Definition CommitChunk (now : Z) (c : Chunk) (db : DB) : DB * result PitrErr unit :=
  if isEmpty (cID c) || isEmpty (cStreamID c) || isEmpty (cChainID c) || isEmpty (cTargetID c)
     || isEmpty (cStorageKey c) then (db, Err ErrInvalidRecord)
  else if Compare (cTo c) (cFrom c) <? 0 then (db, Err ErrInvalidRecord)
  else
    let created := if IsZero (cCreatedAt c) then now else cCreatedAt c in
    match dbStates db !! cStreamID c with
    | None => (db, Err ErrNotFound)
    | Some st =>
        if negb (bool_decide (stChainID st = cChainID c)) then (db, Err ErrChainEnded)
        else match openChain (cStreamID c) (cChainID c) db with
        | Err e => (db, Err e)
        | Ok _ =>
            if negb (bool_decide (otTS (stLast st) = cFrom c)) then (db, Err ErrDiscontinuous)
            else if negb ((0 <=? cEntries c) && (0 <=? cSizeBytes c)) then (db, Err ErrConstraint)
            else if bool_decide (is_Some (dbChunks db !! cID c)) ||
                    existsb (λ o, bool_decide (cTargetID o = cTargetID c) && bool_decide (cStorageKey o = cStorageKey c))
                      (rows (dbChunks db)) then (db, Err ErrAlreadyExists)
            else (withStates (<[cStreamID c := moveState (mkOpTime (cTo c) (cLastTerm c)) created st]> (dbStates db))
                    (withChunks (<[cID c := committed created c]> (dbChunks db)) db), Ok tt)
        end
    end.

(** The order of [ListChunks]. *)
Definition chunkCmp (a b : Chunk) : comparison :=
  cmpThen (cmpThen (tsCmp (cFrom a) (cFrom b)) (tsCmp (cTo a) (cTo b))) (strCmp (cID a) (cID b)).

(** The WHERE clause of [ListChunks]. *)
Definition chunkMatches (q : ChunkQuery) (c : Chunk) : bool :=
  bool_decide (cStreamID c = qStreamID q) && bool_decide (cChainID c = qChainID q) &&
  (tsIsZero (qAfter q) || (Compare (cTo c) (qAfter q) >? 0)) &&
  (tsIsZero (qUntil q) || (Compare (cFrom c) (qUntil q) <? 0)) &&
  (match qStatus q with None => true | Some s => bool_decide (cStatus c = s) end) &&
  (negb (qLive q) || (bool_decide (cDeletedAt c = None) && negb (bool_decide (cStatus c = ChunkPruned)))).

Definition ListChunks (q : ChunkQuery) (db : DB) : result PitrErr (list Chunk) :=
  if isEmpty (qStreamID q) || isEmpty (qChainID q) then Err ErrInvalidRecord
  else Ok (selectBy (chunkMatches q) chunkCmp (dbChunks db)).

Definition ListStreamChunks (streamID : string) (limit offset : Z) (db : DB) : list Chunk * Z :=
  let all := filter (λ c, cStreamID c = streamID) (rows (dbChunks db)) in
  (limitRows limit (drop (Z.to_nat offset)
     (stable_sort (cmpLess (λ a b, cmpThen (tsCmp (cTo b) (cTo a)) (strCmp (cID b) (cID a)))) all)),
   Z.of_nat (length all)).

(** The live committed chunks of a chain ([liveChunk]). *)
Definition liveChunks (streamID chainID : string) (db : DB) : list Chunk :=
  filter (λ c, bool_decide (cStreamID c = streamID) && bool_decide (cChainID c = chainID) && Live c)
    (rows (dbChunks db)).

Definition ChainSpans (streamID : string) (db : DB) : list ChainSpan :=
  (λ ch,
     let live := liveChunks streamID (chChainID ch) db in
     mkSpan (chChainID ch)
       (match stable_sort (cmpLess (λ a b, tsCmp (cFrom a) (cFrom b))) live with c :: _ => cFrom c | [] => zeroTS end)
       (match stable_sort (cmpLess (λ a b, tsCmp (cTo b) (cTo a))) live with c :: _ => cTo c | [] => zeroTS end)
       (Z.of_nat (length live)) (foldr (λ c n, cSizeBytes c + n) 0 live)) <$> ListChains streamID db.

Definition setVerified (at_ : Z) (err : string) (c : Chunk) : Chunk :=
  mkChunk (cID c) (cStreamID c) (cChainID c) (cTargetID c) (cStorageKey c) (cFrom c) (cTo c)
    (cFirstTerm c) (cLastTerm c) (cEntries c) (cSizeBytes c) (cSHA256 c) (cEncrypted c) (cEncryptionMode c)
    (cStatus c) (cCreatedAt c) (Some (stored at_)) err (cDeletedAt c) (cPurgeAfter c) (cVersionID c) (cRetainUntil c).

Definition setDeleted (at_ purgeAfter : Z) (c : Chunk) : Chunk :=
  mkChunk (cID c) (cStreamID c) (cChainID c) (cTargetID c) (cStorageKey c) (cFrom c) (cTo c)
    (cFirstTerm c) (cLastTerm c) (cEntries c) (cSizeBytes c) (cSHA256 c) (cEncrypted c) (cEncryptionMode c)
    (cStatus c) (cCreatedAt c) (cVerifiedAt c) (cVerifyError c) (Some (stored at_)) (Some (stored purgeAfter))
    (cVersionID c) (cRetainUntil c).

Definition setStatus (s : ChunkStatus) (c : Chunk) : Chunk :=
  mkChunk (cID c) (cStreamID c) (cChainID c) (cTargetID c) (cStorageKey c) (cFrom c) (cTo c)
    (cFirstTerm c) (cLastTerm c) (cEntries c) (cSizeBytes c) (cSHA256 c) (cEncrypted c) (cEncryptionMode c)
    s (cCreatedAt c) (cVerifiedAt c) (cVerifyError c) (cDeletedAt c) (cPurgeAfter c) (cVersionID c) (cRetainUntil c).

Definition setRetain (until : Z) (c : Chunk) : Chunk :=
  mkChunk (cID c) (cStreamID c) (cChainID c) (cTargetID c) (cStorageKey c) (cFrom c) (cTo c)
    (cFirstTerm c) (cLastTerm c) (cEntries c) (cSizeBytes c) (cSHA256 c) (cEncrypted c) (cEncryptionMode c)
    (cStatus c) (cCreatedAt c) (cVerifiedAt c) (cVerifyError c) (cDeletedAt c) (cPurgeAfter c) (cVersionID c)
    (Some (stored until)).

(** An UPDATE of the chunks, and [execOne]: not found when no row was affected. *)
Definition updateChunks (P : Chunk -> bool) (g : Chunk -> Chunk) (db : DB) : DB * Z :=
  let '(m, n) := updateWhere P g (dbChunks db) in (withChunks m db, n).

Definition execOne (x : DB * Z) : DB * result PitrErr unit :=
  let '(db, n) := x in (db, if n =? 0 then Err ErrNotFound else Ok tt).

Definition MarkChunkVerified (id : string) (at_ : Z) (verifyError : string) (db : DB) : DB * result PitrErr unit :=
  execOne (updateChunks (λ c, bool_decide (cID c = id)) (setVerified at_ verifyError) db).

Definition DeleteChunks (ids : list string) (at_ purgeAfter : Z) (db : DB) : DB * Z :=
  foldl (λ '(db, n) id,
    let '(db, k) := updateChunks (λ c, bool_decide (cID c = id) && bool_decide (cDeletedAt c = None)
                      && negb (bool_decide (cStatus c = ChunkPruned))) (setDeleted at_ purgeAfter) db in
    (db, n + k)) (db, 0) ids.

Definition optCmp (a b : option Z) : comparison :=
  match a, b with
  | None, None => Eq
  | None, Some _ => Lt
  | Some _, None => Gt
  | Some a, Some b => Z.compare a b
  end.

Definition ListPurgeableChunks (streamID : string) (now limit : Z) (db : DB) : list Chunk :=
  limitRows limit (selectBy
    (λ c, bool_decide (cStreamID c = streamID)
          && (match cPurgeAfter c with Some p => timeKey p <=? timeKey now | None => false end)
          && negb (bool_decide (cStatus c = ChunkPruned))
          && (match cRetainUntil c with None => true | Some r => timeKey r <=? timeKey now end))
    (λ a b, cmpThen (optCmp (cPurgeAfter a) (cPurgeAfter b)) (strCmp (cID a) (cID b))) (dbChunks db)).

Definition SetChunkRetainUntil (id : string) (until : Z) (db : DB) : DB * result PitrErr unit :=
  execOne (updateChunks (λ c, bool_decide (cID c = id)) (setRetain until) db).

Definition MarkChunkPruned (id : string) (db : DB) : DB * result PitrErr unit :=
  execOne (updateChunks (λ c, bool_decide (cID c = id) && negb (bool_decide (cDeletedAt c = None))
             && negb (bool_decide (cStatus c = ChunkPruned))) (setStatus ChunkPruned) db).

(** [ListChunksToVerify]: NULLs sort first, so the first key is [verified_at IS NOT NULL]. *)
Definition ListChunksToVerify (before limit : Z) (db : DB) : list Chunk :=
  limitRows limit (selectBy
    (λ c, Live c && match cVerifiedAt c with None => true | Some v => timeKey v <? timeKey before end)
    (λ a b, cmpThen (optCmp (cVerifiedAt a) (cVerifiedAt b))
              (cmpThen (Z.compare (cCreatedAt a) (cCreatedAt b)) (strCmp (cID a) (cID b)))) (dbChunks db)).

Definition SupersedeChunks (streamID chainID : string) (after : Timestamp) (db : DB) : DB * Z :=
  updateChunks (λ c, bool_decide (cStreamID c = streamID) && bool_decide (cChainID c = chainID)
    && bool_decide (cStatus c = ChunkCommitted) && (Compare (cTo c) after >? 0)) (setStatus ChunkSuperseded) db.

(** The keys of the chunks of a target whose object is expected to exist. *)
Definition chunkKeys (targetID : string) (db : DB) : gset string :=
  list_to_set (cStorageKey <$> filter (λ c, bool_decide (cTargetID c = targetID)
    && negb (bool_decide (cStatus c = ChunkPruned))) (rows (dbChunks db))).

(** ** The collector's state *)

Definition LoadState (streamID : string) (db : DB) : result PitrErr PState :=
  match dbStates db !! streamID with Some st => Ok st | None => Err ErrNotFound end.

Definition updateState (streamID : string) (g : PState -> PState) (db : DB) : DB * result PitrErr unit :=
  match dbStates db !! streamID with
  | None => (db, Err ErrNotFound)
  | Some st => (withStates (<[streamID := g st]> (dbStates db)) db, Ok tt)
  end.

Definition SetCollectorStatus (streamID : string) (status : CollectorStatus) (lastError : string)
    (lagSince : option Z) (at_ : Z) (db : DB) : DB * result PitrErr unit :=
  if bool_decide (status = CollectorNone) then (db, Err ErrInvalidRecord)
  else updateState streamID (λ st, mkPState (stStreamID st) (stChainID st) (stLast st) status lastError
         (stored <$> lagSince) (stWindowLowSince st) (stReplicaSetID st) (stored at_)) db.

Definition SetWindowLow (streamID : string) (since : option Z) (db : DB) : DB * result PitrErr unit :=
  updateState streamID (λ st, mkPState (stStreamID st) (stChainID st) (stLast st) (stStatus st) (stLastError st)
    (stLagSince st) (stored <$> since) (stReplicaSetID st) (stUpdatedAt st)) db.

Definition SetReplicaSetID (streamID replicaSetID : string) (db : DB) : DB * result PitrErr unit :=
  updateState streamID (λ st, mkPState (stStreamID st) (stChainID st) (stLast st) (stStatus st) (stLastError st)
    (stLagSince st) (stWindowLowSince st) replicaSetID (stUpdatedAt st)) db.
