(* ===== verification/PitrChain.v ===== *)
(** * Continuity of oplog chains

    The repository of PitrStore as a state machine: any sequence of its operations
    keeps every chain an unbroken run of chunks from the chain's start, ending, for
    the stream's current chain, at the collector's position. *)

From S2P Require Import Prelude Pitr PitrStore.

(** ** The operations that change the tables *)

Inductive op : Type :=
| OCreateStream (now : Z) (st : Stream)
| OUpdateStream (now : Z) (st : Stream)
| ODeleteStream (id : string)
| OStartChain (streamID chainID : string) (start : OpTime) (at_ : Z)
| OEndChain (streamID chainID : string) (end_ : Timestamp) (reason : EndReason) (at_ : Z)
| OCommitChunk (now : Z) (c : Chunk)
| OMarkChunkVerified (id : string) (at_ : Z) (err : string)
| ODeleteChunks (ids : list string) (at_ purgeAfter : Z)
| OSetChunkRetainUntil (id : string) (until : Z)
| OMarkChunkPruned (id : string)
| OSupersedeChunks (streamID chainID : string) (after : Timestamp)
| OSetCollectorStatus (streamID : string) (status : CollectorStatus) (err : string) (lag : option Z) (at_ : Z)
| OSetWindowLow (streamID : string) (since : option Z)
| OSetReplicaSetID (streamID id : string).

Definition apply (o : op) (db : DB) : DB :=
  match o with
  | OCreateStream now st => (CreateStream now st db).1
  | OUpdateStream now st => (UpdateStream now st db).1
  | ODeleteStream id => (DeleteStream id db).1
  | OStartChain s c start at_ => (StartChain s c start at_ db).1
  | OEndChain s c e r at_ => (EndChain s c e r at_ db).1
  | OCommitChunk now c => (CommitChunk now c db).1
  | OMarkChunkVerified id at_ err => (MarkChunkVerified id at_ err db).1
  | ODeleteChunks ids at_ p => (DeleteChunks ids at_ p db).1
  | OSetChunkRetainUntil id u => (SetChunkRetainUntil id u db).1
  | OMarkChunkPruned id => (MarkChunkPruned id db).1
  | OSupersedeChunks s c a => (SupersedeChunks s c a db).1
  | OSetCollectorStatus s st err lag at_ => (SetCollectorStatus s st err lag at_ db).1
  | OSetWindowLow s since => (SetWindowLow s since db).1
  | OSetReplicaSetID s id => (SetReplicaSetID s id db).1
  end.

Definition run (ops : list op) (db : DB) : DB := foldl (λ db o, apply o db) db ops.

(** ** Paths *)

Definition span (c : Chunk) : Timestamp * Timestamp := (cFrom c, cTo c).

(** [path a l b]: the ranges [l] lead from [a] to [b] without a gap or an overlap. *)
Fixpoint path (a : Timestamp) (l : list (Timestamp * Timestamp)) (b : Timestamp) : Prop :=
  match l with
  | [] => a = b
  | (f, t) :: l => a = f /\ tsle f t /\ path t l b
  end.

Lemma path_snoc a l b t : path a l b -> tsle b t -> path a (l ++ [(b, t)]) t.
Proof.
  revert a. induction l as [|[f u] l IH]; simpl; intros a; [by intros ->|].
  intros (-> & ? & ?) ?. auto.
Qed.

Lemma path_le a l b : path a l b -> tsle a b.
Proof.
  revert a. induction l as [|[f t] l IH]; simpl; intros a; [intros ->; apply tsle_refl|].
  intros (-> & ? & ?). eapply tsle_trans; eauto.
Qed.

(** The order of ranges of [ListChunks], without the tie-break. *)
Definition spanle (x y : Timestamp * Timestamp) : Prop :=
  cmpThen (tsCmp x.1 y.1) (tsCmp x.2 y.2) <> Gt.

Lemma tsCmp_le a b : tsCmp a b <> Gt <-> tsle a b.
Proof.
  unfold tsCmp, tsle. destruct (Z.compare_spec (tsT a) (tsT b)); simpl; [..|split; [done|lia]].
  - rewrite Z.compare_le_iff. lia.
  - split; [lia|done].
Qed.

Lemma tsCmp_eq a b : tsCmp a b = Eq <-> a = b.
Proof.
  unfold tsCmp. destruct a as [aT aI], b as [bT bI]; simpl.
  destruct (Z.compare_spec aT bT); simpl; subst.
  - rewrite Z.compare_eq_iff. split; congruence.
  - split; [done|]. intros [= -> ->]. lia.
  - split; [done|]. intros [= -> ->]. lia.
Qed.

#[global] Instance tsCmp_TotalCmp : TotalCmp tsCmp.
Proof.
  apply (TotalCmp_then (λ a b, Z.compare (tsT a) (tsT b)) (λ a b, Z.compare (tsI a) (tsI b)));
    apply TotalCmp_key, _.
Qed.

Lemma spanle_alt x y : spanle x y <-> tslt x.1 y.1 \/ (x.1 = y.1 /\ tsle x.2 y.2).
Proof.
  unfold spanle. destruct (tsCmp x.1 y.1) eqn:E; simpl.
  - apply tsCmp_eq in E. rewrite tsCmp_le, E. split; [auto|]. intros [H|[_ H]]; [unfold tslt in H; lia|done].
  - split; [|done]. intros _. left. assert (tsle x.1 y.1) as H by (apply tsCmp_le; congruence).
    apply tsle_lt_eq in H as [?|H]; [done|]. apply tsCmp_eq in H. congruence.
  - split; [done|]. intros H. assert (tsle x.1 y.1) as H' by (apply tsle_lt_eq; tauto).
    apply tsCmp_le in H'. congruence.
Qed.

#[global] Instance spanle_antisym : AntiSymm (=) spanle.
Proof.
  intros [a b] [c d]. rewrite !spanle_alt. simpl. intros [H1|[-> H1]] [H2|[E H2]]; unfold tslt in *; subst; try lia.
  f_equal. by apply tsle_antisym.
Qed.

(** A path is sorted in the order of [ListChunks]. *)
Lemma path_sorted a l b : path a l b -> StronglySorted spanle l.
Proof.
  revert a. induction l as [|[f t] l IH]; simpl; intros a; [constructor|].
  intros (-> & Hft & Hp). constructor; [by eapply IH|].
  clear IH. revert t Hft Hp. induction l as [|[g u] l IH]; simpl; intros t Hft Hp; [constructor|].
  destruct Hp as (-> & Hgu & Hp). constructor.
  - apply spanle_alt. simpl. apply tsle_lt_eq in Hft as [?|<-]; auto.
  - assert (Forall (spanle (f, u)) l) as Hu by (apply IH; [by eapply tsle_trans|done]).
    eapply Forall_impl; [exact Hu|]. intros [x y]. rewrite !spanle_alt. simpl. intros [?|[-> ?]]; [by left|right].
    split; [done|]. by eapply tsle_trans.
Qed.

(** ** The rows of a chain *)

(** Chunk [c] belongs to chain [ch] of stream [s]. *)
Definition inChain (s ch : string) (c : Chunk) : Prop := cStreamID c = s /\ cChainID c = ch.

#[global] Instance inChain_dec s ch c : Decision (inChain s ch c).
Proof. unfold inChain. apply _. Defined.

(** What [f] reads of the rows of a chain. *)
Definition view {K} (f : Chunk -> K) (s ch : string) (m : gmap string Chunk) : list K :=
  f <$> filter (inChain s ch) (rows m).

Lemma view_insert {K} (f : Chunk -> K) s ch m k c :
  m !! k = None -> view f s ch (<[k := c]> m) ≡ₚ (if decide (inChain s ch c) then [f c] else []) ++ view f s ch m.
Proof.
  intros Hk. unfold view, rows. rewrite map_to_list_insert by done. simpl.
  rewrite filter_cons. by case_decide.
Qed.

Lemma view_update {K} (f : Chunk -> K) s ch P g m :
  (∀ c, cStreamID (g c) = cStreamID c /\ cChainID (g c) = cChainID c /\ f (g c) = f c) ->
  view f s ch (updateWhere P g m).1 = view f s ch m.
Proof.
  intros Hg. unfold view, rows, updateWhere. simpl. rewrite map_to_list_fmap.
  induction (map_to_list m) as [|[k c] l IH]; [done|]. simpl. rewrite !filter_cons.
  destruct (Hg c) as (Hs & Hc & Hsp).
  assert (inChain s ch (if P c then g c else c) <-> inChain s ch c) as Hiff.
  { destruct (P c); [|done]. unfold inChain. by rewrite Hs, Hc. }
  destruct (decide (inChain s ch c)) as [Hin|Hin].
  - rewrite decide_True by (by apply Hiff). simpl. f_equal; [by destruct (P c)|]. apply IH.
  - rewrite decide_False by (by rewrite Hiff). apply IH.
Qed.

(** Removing the rows of another stream. *)
Lemma view_delete_stream {K} (f : Chunk -> K) s ch id (m : gmap string Chunk) :
  s <> id -> view f s ch (filter (λ '(_, c), cStreamID c <> id) m) ≡ₚ view f s ch m.
Proof.
  intros Hne. unfold view. apply fmap_Permutation.
  induction m as [|k c m Hk IH] using map_ind; [by rewrite map_filter_empty|].
  unfold rows in *. rewrite (map_to_list_insert m) by done. simpl. rewrite filter_cons.
  destruct (decide (cStreamID c <> id)) as [Hc|Hc].
  - rewrite map_filter_insert_True by done. rewrite map_to_list_insert by (by rewrite map_lookup_filter_None; left).
    simpl. rewrite filter_cons. case_decide; by rewrite IH.
  - rewrite map_filter_insert_False by done. rewrite delete_id by done.
    rewrite decide_False; [done|]. unfold inChain. intros [<- _]. by destruct Hc.
Qed.

Lemma elem_of_view {K} (f : Chunk -> K) s ch (m : gmap string Chunk) x :
  x ∈ view f s ch m <-> ∃ k c, m !! k = Some c /\ inChain s ch c /\ x = f c.
Proof.
  unfold view, rows. rewrite list_elem_of_fmap. split.
  - intros (c & -> & [Hin ([k c'] & -> & Hk)%list_elem_of_fmap]%list_elem_of_filter).
    apply elem_of_map_to_list in Hk. eauto.
  - intros (k & c & Hk & Hin & ->). exists c. split; [done|]. apply list_elem_of_filter. split; [done|].
    apply list_elem_of_fmap. exists (k, c). split; [done|]. by apply elem_of_map_to_list.
Qed.

Definition spans (s ch : string) (m : gmap string Chunk) : list (Timestamp * Timestamp) := view span s ch m.

Lemma spans_insert s ch m k c :
  m !! k = None -> spans s ch (<[k := c]> m) ≡ₚ (if decide (inChain s ch c) then [span c] else []) ++ spans s ch m.
Proof. apply view_insert. Qed.

(** A row update that keeps the identity and the range of the chunks it changes. *)
Definition keepsSpan (g : Chunk -> Chunk) : Prop :=
  ∀ c, cID (g c) = cID c /\ cStreamID (g c) = cStreamID c /\ cChainID (g c) = cChainID c /\ span (g c) = span c.

Lemma spans_update s ch P g m : keepsSpan g -> spans s ch (updateWhere P g m).1 = spans s ch m.
Proof. intros Hg. apply view_update. intros c. by destruct (Hg c) as (_ & ? & ? & ?). Qed.

Lemma lookup_update P g (m : gmap string Chunk) k c :
  (updateWhere P g m).1 !! k = Some c ->
  ∃ c0, m !! k = Some c0 /\ c = (if P c0 then g c0 else c0).
Proof. simpl. rewrite lookup_fmap. intros (c0 & Hc & ->)%fmap_Some. eauto. Qed.

(** ** The invariant *)

Record Inv (db : DB) : Prop := mkInv {
  inv_chain_key s c ch : dbChains db !! (s, c) = Some ch -> chStreamID ch = s /\ chChainID ch = c;
  inv_state s st : dbStates db !! s = Some st -> is_Some (dbChains db !! (s, stChainID st));
  inv_chunk k c : dbChunks db !! k = Some c -> cID c = k /\ is_Some (dbChains db !! (cStreamID c, cChainID c));
  inv_open s c ch : dbChains db !! (s, c) = Some ch -> chainOpen ch = true ->
    ∃ st, dbStates db !! s = Some st /\ stChainID st = c;
  inv_path s c ch : dbChains db !! (s, c) = Some ch ->
    ∃ l e, l ≡ₚ spans s c (dbChunks db) /\ path (chStart ch) l e /\
      ∀ st, dbStates db !! s = Some st -> stChainID st = c -> otTS (stLast st) = e
}.

Lemma emptyDB_inv : Inv emptyDB.
Proof. by split. Qed.

(** Updates of chunk rows that keep ranges. *)
Lemma updateChunks_inv P g db : keepsSpan g -> Inv db -> Inv (updateChunks P g db).1.
Proof.
  intros Hg [H1 H2 H3 H4 H5]. unfold updateChunks. cbn. split; simpl; try done.
  - intros k c Hc. apply (lookup_update P g) in Hc as (c0 & Hc0 & ->).
    destruct (H3 _ _ Hc0) as [? ?]. destruct (Hg c0) as (Hi & Hs & Hh & _).
    destruct (P c0); [|done]. by rewrite Hi, Hs, Hh.
  - intros s c ch Hch. destruct (H5 _ _ _ Hch) as (l & e & Hl & Hp & He). exists l, e.
    rewrite <- (spans_update s c P g (dbChunks db) Hg) in Hl. done.
Qed.

Lemma execOne_fst x : (execOne x).1 = x.1.
Proof. by destruct x. Qed.

(** Updates of the collector's state that keep its position. *)
Lemma updateState_inv s g db :
  (∀ st, stChainID (g st) = stChainID st /\ stLast (g st) = stLast st) -> Inv db -> Inv (updateState s g db).1.
Proof.
  intros Hg Hinv. unfold updateState. destruct (dbStates db !! s) as [st0|] eqn:Hs; [|done].
  destruct Hinv as [H1 H2 H3 H4 H5]. destruct (Hg st0) as [Hc Hl]. split; simpl; try done.
  - intros s' st. rewrite lookup_insert. case_decide; [|by apply H2]. intros [= <-]. subst. rewrite Hc. by eapply H2.
  - intros s' c ch Hch Ho. destruct (H4 _ _ _ Hch Ho) as (st & Hst & Hcc). rewrite lookup_insert.
    case_decide; [|by eauto]. subst. rewrite Hs in Hst. injection Hst as <-. eexists. split; [done|congruence].
  - intros s' c ch Hch. destruct (H5 _ _ _ Hch) as (l & e & Hp & Hpath & He). exists l, e. do 2 (split; [done|]).
    intros st. rewrite lookup_insert. case_decide; [|by apply He]. intros [= <-]. subst. rewrite Hc, Hl. by apply He.
Qed.

(** The tables of chains, chunks and states are all the invariant speaks of. *)
Lemma withStreams_inv m db : Inv db -> Inv (withStreams m db).
Proof. by intros [H1 H2 H3 H4 H5]; split. Qed.

Lemma CreateStream_inv now st db : Inv db -> Inv (CreateStream now st db).1.
Proof.
  intros Hi. unfold CreateStream. repeat case_match; simpl; auto using withStreams_inv.
Qed.

Lemma UpdateStream_inv now st db : Inv db -> Inv (UpdateStream now st db).1.
Proof.
  intros Hi. unfold UpdateStream. repeat case_match; simpl; auto using withStreams_inv.
Qed.

Lemma DeleteStream_inv id db : Inv db -> Inv (DeleteStream id db).1.
Proof.
  intros Hi. unfold DeleteStream. destruct (negb _); [done|]. destruct (existsb _ _); [done|].
  destruct Hi as [H1 H2 H3 H4 H5]. simpl.
  assert (∀ s c ch, s <> id -> dbChains db !! (s, c) = Some ch ->
            filter (λ '(_, ch), chStreamID ch <> id) (dbChains db) !! (s, c) = Some ch) as Hkeep.
  { intros s c ch Hne Hch. apply map_lookup_filter_Some. split; [done|]. by destruct (H1 _ _ _ Hch) as [-> _]. }
  assert (∀ s c ch, filter (λ '(_, ch), chStreamID ch <> id) (dbChains db) !! (s, c) = Some ch ->
            s <> id /\ dbChains db !! (s, c) = Some ch) as Hback.
  { intros s c ch [Hch Hne]%map_lookup_filter_Some. split; [|done]. by destruct (H1 _ _ _ Hch) as [<- _]. }
  split; simpl.
  - intros s c ch [_ ?]%Hback. by apply H1.
  - intros s st [Hne Hst]%lookup_delete_Some. destruct (H2 _ _ Hst) as [ch Hch]. exists ch. by apply Hkeep.
  - intros k c [Hc Hne]%map_lookup_filter_Some. destruct (H3 _ _ Hc) as [? [ch Hch]]. split; [done|].
    exists ch. by apply Hkeep.
  - intros s c ch [Hne Hch]%Hback Ho. rewrite lookup_delete_ne by done. by eapply H4.
  - intros s c ch [Hne Hch]%Hback. destruct (H5 _ _ _ Hch) as (l & e & Hl & Hp & He). exists l, e.
    rewrite (view_delete_stream span) by done. split; [done|]. split; [done|].
    intros st. rewrite lookup_delete_ne by done. apply He.
Qed.

(** A chain that does not exist has no chunk. *)
Lemma view_no_chain {K} (f : Chunk -> K) s c db :
  Inv db -> dbChains db !! (s, c) = None -> view f s c (dbChunks db) = [].
Proof.
  intros Hi Hno. apply elem_of_nil_inv. intros x (k & c' & Hk & [Hs Hc] & _)%elem_of_view.
  destruct (inv_chunk _ Hi _ _ Hk) as [_ [y Hx]]. rewrite Hs, Hc in Hx. congruence.
Qed.

Lemma existsb_rows_false {K A} `{Countable K} (m : gmap K A) (P : A -> bool) k x :
  existsb P (rows m) = false -> m !! k = Some x -> P x = false.
Proof.
  intros He Hk. destruct (P x) eqn:E; [|done]. exfalso. apply (not_true_iff_false _) in He. apply He.
  apply existsb_exists. exists x. split; [|done]. apply list_elem_of_In, list_elem_of_fmap.
  exists (k, x). split; [done|]. by apply elem_of_map_to_list.
Qed.

Lemma StartChain_inv s c start at_ db : Inv db -> Inv (StartChain s c start at_ db).1.
Proof.
  intros Hi. unfold StartChain. destruct (isEmpty s || isEmpty c); [done|]. destruct (negb _); [done|].
  destruct (existsb _ _) eqn:Hex; [done|]. destruct (dbChains db !! (s, c)) eqn:Hno; [done|]. simpl.
  set (st := match dbStates db !! s with Some _ => _ | None => _ end).
  assert (stChainID st = c /\ stLast st = start) as [Hsc Hsl] by (unfold st; by case_match).
  clearbody st.
  pose proof (view_no_chain span s c db Hi Hno) as Hsp. pose proof Hi as [H1 H2 H3 H4 H5]. split; simpl.
  - intros s' c' ch. rewrite lookup_insert. case_decide; [|by apply H1]. intros [= <-]. by simplify_eq.
  - intros s' st'. rewrite lookup_insert. case_decide.
    + intros [= <-]. subst s'. rewrite Hsc, lookup_insert_eq. eauto.
    + intros Hst. rewrite lookup_insert_ne by congruence. by apply H2.
  - intros k ck Hck. destruct (H3 _ _ Hck) as [? [x Hx]]. split; [done|]. rewrite lookup_insert. case_decide; eauto.
  - intros s' c' ch. rewrite lookup_insert. case_decide as Hd.
    + intros _ _. injection Hd as <- <-. exists st. by rewrite lookup_insert_eq.
    + intros Hch Ho. assert (s' <> s) as Hne.
      { intros ->. apply (existsb_rows_false _ _ _ _ Hex) in Hch as Hf. destruct (H1 _ _ _ Hch) as [Hs _].
        rewrite bool_decide_true in Hf by done. simpl in Hf. congruence. }
      rewrite lookup_insert_ne by congruence. by eapply H4.
  - intros s' c' ch. rewrite lookup_insert. case_decide as Hd.
    + intros [= <-]. injection Hd as <- <-. exists [], (otTS start). unfold spans. rewrite Hsp. do 2 (split; [done|]).
      intros st'. rewrite lookup_insert_eq. intros [= <-]. by rewrite Hsl.
    + intros Hch. destruct (H5 _ _ _ Hch) as (l & e & Hl & Hp & He). exists l, e. do 2 (split; [done|]).
      intros st'. rewrite lookup_insert. case_decide; [|apply He]. intros [= <-] Hc'. subst. congruence.
Qed.

Lemma EndChain_inv s c e r at_ db : Inv db -> Inv (EndChain s c e r at_ db).1.
Proof.
  intros Hi. unfold EndChain, openChain. destruct (bool_decide _); [done|].
  destruct (dbChains db !! (s, c)) as [ch|] eqn:Hch; [|done]. destruct (chainOpen ch) eqn:Ho; [|done]. simpl.
  pose proof Hi as [H1 H2 H3 H4 H5]. destruct (H1 _ _ _ Hch) as [Hs Hc]. split; simpl.
  - intros s' c' ch'. rewrite lookup_insert. case_decide; [|by apply H1]. intros [= <-]. by simplify_eq.
  - intros s' st Hst. rewrite lookup_insert. case_decide; [by eauto|by apply H2].
  - intros k ck Hck. destruct (H3 _ _ Hck) as [? [x Hx]]. split; [done|]. rewrite lookup_insert. case_decide; eauto.
  - intros s' c' ch'. rewrite lookup_insert. case_decide; [|by apply H4]. by intros [= <-].
  - intros s' c' ch'. rewrite lookup_insert. case_decide as Hd; [|by apply H5]. intros [= <-]. simplify_eq.
    by apply (H5 _ _ ch).
Qed.

Lemma CommitChunk_inv now c db : Inv db -> Inv (CommitChunk now c db).1.
Proof.
  intros Hi. unfold CommitChunk. destruct (_ || _); [done|]. destruct (_ <? _) eqn:Hcmp; [done|].
  set (created := if IsZero _ then _ else _). destruct (dbStates db !! cStreamID c) as [st|] eqn:Hst; [|done].
  destruct (bool_decide (stChainID st = _)) eqn:Hchain; [|done]. bool_cases. simpl.
  unfold openChain. destruct (dbChains db !! (cStreamID c, cChainID c)) as [ch|] eqn:Hch; [|done].
  destruct (chainOpen ch) eqn:Ho; [|done]. destruct (bool_decide (otTS _ = _)) eqn:Hlast; [|done]. bool_cases. simpl.
  destruct (negb _); [done|]. destruct (bool_decide (is_Some _)) eqn:Hfresh; [done|]. bool_cases.
  destruct (existsb _ _); [done|]. simpl.
  assert (tsle (cFrom c) (cTo c)) as Hle by (apply Compare_ge; lia). apply eq_None_not_Some in Hfresh.
  pose proof Hi as [H1 H2 H3 H4 H5]. split; simpl; try done.
  - intros s st'. rewrite lookup_insert. case_decide; [|by apply H2]. intros [= <-]. subst. simpl. by rewrite Hchain, Hch.
  - intros k c'. rewrite lookup_insert. case_decide; [|by apply H3]. intros [= <-]. subst. simpl. rewrite Hch. eauto.
  - intros s c' ch' Hch' Ho'. destruct (H4 _ _ _ Hch' Ho') as (st' & Hst' & Hc'). rewrite lookup_insert.
    case_decide; [|by eauto]. subst. rewrite Hst in Hst'. injection Hst' as <-. eexists. by split.
  - intros s c' ch' Hch'. destruct (H5 _ _ _ Hch') as (l & e & Hl & Hp & He).
    pose proof (spans_insert s c' (dbChunks db) (cID c) (committed created c) Hfresh) as Hins.
    case_decide as Hin.
    + destruct Hin as [Hs Hc']. simpl in Hs, Hc'. subst s c'. specialize (He _ Hst Hchain). rewrite Hlast in He. subst e.
      exists (l ++ [(cFrom c, cTo c)]), (cTo c). split; [rewrite Hins, Permutation_app_comm; by rewrite Hl|].
      split; [by apply path_snoc|]. intros st'. rewrite lookup_insert_eq. by intros [= <-].
    + exists l, e. split; [by rewrite Hins|]. split; [done|]. intros st'. rewrite lookup_insert.
      case_decide; [|by apply He]. intros [= <-] Hx. exfalso. apply Hin. simpl in Hx. split; simpl; congruence.
Qed.

(** A chunk a deletion still marks. *)
Definition deletable (c : Chunk) : bool := bool_decide (cDeletedAt c = None) && negb (bool_decide (cStatus c = ChunkPruned)).

(** Deleting chunks one by one marks the named ones at once. *)
Lemma DeleteChunks_fst ids at_ p db :
  (DeleteChunks ids at_ p db).1 =
  (updateChunks (λ c, bool_decide (cID c ∈ ids) && deletable c) (setDeleted at_ p) db).1.
Proof.
  unfold DeleteChunks. generalize 0. revert db. induction ids as [|id ids IH]; intros db n.
  - destruct db as [m1 m2 m3 m4]. unfold updateChunks, withChunks. simpl. f_equal. symmetry.
    apply map_fmap_id.
  - cbn [foldl updateChunks updateWhere]. rewrite IH. unfold updateChunks, withChunks. simpl. f_equal.
    rewrite <- map_fmap_compose. apply map_fmap_ext. intros k c _. simpl. unfold deletable.
    destruct (decide (cID c = id)) as [->|Hne].
    + rewrite (bool_decide_true (id = id)), (bool_decide_true (id ∈ id :: ids)) by (done || left). simpl.
      destruct (bool_decide (cDeletedAt c = None)) eqn:Hd, (bool_decide (cStatus c = ChunkPruned)) eqn:Hs; simpl;
        rewrite ?Hd, ?Hs, ?andb_false_r; simpl; done.
    + rewrite (bool_decide_false (cID c = id)) by done. simpl.
      rewrite (bool_decide_ext (cID c ∈ id :: ids) (cID c ∈ ids)) by (rewrite elem_of_cons; tauto). done.
Qed.

Lemma DeleteChunks_inv ids at_ p db : Inv db -> Inv (DeleteChunks ids at_ p db).1.
Proof. rewrite DeleteChunks_fst. by apply updateChunks_inv. Qed.

Lemma apply_inv o db : Inv db -> Inv (apply o db).
Proof.
  intros Hi. destruct o; cbn [apply];
    unfold MarkChunkVerified, SetChunkRetainUntil, MarkChunkPruned, SupersedeChunks;
    rewrite ?execOne_fst;
    auto using CreateStream_inv, UpdateStream_inv, DeleteStream_inv, StartChain_inv, EndChain_inv,
      CommitChunk_inv, DeleteChunks_inv; try (apply updateChunks_inv; [by repeat split|done]).
  - unfold SetCollectorStatus. case_match; [done|]. by apply updateState_inv.
  - by apply updateState_inv.
  - by apply updateState_inv.
Qed.

Lemma run_inv ops db : Inv db -> Inv (run ops db).
Proof. revert db. induction ops as [|o ops IH]; intros db Hi; [done|]. apply IH, apply_inv, Hi. Qed.

(** ** The theorems *)

(** The chunks of a chain, as [ListChunks] returns them. *)
Definition allChunks (s c : string) : ChunkQuery := mkQuery s c zeroTS zeroTS None false.

Lemma allChunks_spans s c (m : gmap string Chunk) :
  span <$> selectBy (chunkMatches (allChunks s c)) chunkCmp m ≡ₚ spans s c m.
Proof.
  unfold selectBy, spans, view. rewrite stable_sort_Permutation. apply fmap_Permutation. apply reflexive_eq.
  apply list_filter_iff. intros x. unfold chunkMatches, inChain. simpl. rewrite !andb_true_r, <- bool_decide_and.
  by rewrite bool_decide_spec.
Qed.

#[global] Instance chunkCmp_TotalCmp : TotalCmp chunkCmp.
Proof.
  apply (TotalCmp_then (λ a b, cmpThen (tsCmp (cFrom a) (cFrom b)) (tsCmp (cTo a) (cTo b)))
                       (λ a b, strCmp (cID a) (cID b))); [|apply TotalCmp_key, _].
  apply (TotalCmp_then (λ a b, tsCmp (cFrom a) (cFrom b)) (λ a b, tsCmp (cTo a) (cTo b))); apply TotalCmp_key, _.
Qed.

Lemma selectBy_spans_sorted P (m : gmap string Chunk) : StronglySorted spanle (span <$> selectBy P chunkCmp m).
Proof.
  unfold selectBy. pose proof (cmp_sort_sorted chunkCmp (filter P (rows m))) as Hs.
  induction Hs as [|x t Hs IH Hf]; simpl; constructor; [done|]. apply Forall_fmap. eapply Forall_impl; [exact Hf|].
  intros y. unfold chunkCmp, spanle, span. simpl. by destruct (cmpThen (tsCmp _ _) _).
Qed.

Lemma ListChains_row db s c : Inv db -> c ∈ ListChains s db -> dbChains db !! (s, chChainID c) = Some c.
Proof.
  intros Hi Hin. unfold ListChains, selectBy in Hin.
  apply elem_of_stable_sort, list_elem_of_filter in Hin as [Hs Hin]. apply Is_true_true in Hs. bool_cases.
  apply list_elem_of_fmap in Hin as ([[s0 c0] ch0] & -> & Hin%elem_of_map_to_list). simpl in *.
  destruct (inv_chain_key _ Hi _ _ _ Hin) as [E1 E2]. by rewrite <- Hs, E1, E2.
Qed.

(** The chunks of a chain in the order of [ListChunks] are a path from its start. *)
Lemma ListChunks_path db s c ch l :
  Inv db -> dbChains db !! (s, c) = Some ch -> ListChunks (allChunks s c) db = Ok l ->
  ∃ e, path (chStart ch) (span <$> l) e /\
    ∀ st, LoadState s db = Ok st -> stChainID st = c -> otTS (stLast st) = e.
Proof.
  intros Hi Hch Hl. unfold ListChunks in Hl. destruct (_ || _); [done|]. injection Hl as <-.
  destruct (inv_path _ Hi _ _ _ Hch) as (p & e & Hp & Hpath & He). exists e. split.
  - rewrite (StronglySorted_unique spanle _ p); [done|apply selectBy_spans_sorted|by eapply path_sorted|].
    by rewrite allChunks_spans.
  - intros st. unfold LoadState. destruct (dbStates db !! s); intros [= <-]. by apply He.
Qed.

(** [C11] Chain continuity. After any sequence of repository operations on an empty
    database, the recorded chunks of every chain, in the order [ListChunks] returns
    them, start at the chain's start and each starts where the previous one ends, with
    no gap and no overlap; the chunks of the stream's current chain end at the
    collector's stored position. *)
Theorem chain_contiguous ops s c ch l :
  dbChains (run ops emptyDB) !! (s, c) = Some ch ->
  ListChunks (allChunks s c) (run ops emptyDB) = Ok l ->
  ∃ e, path (chStart ch) (span <$> l) e /\
    ∀ st, LoadState s (run ops emptyDB) = Ok st -> stChainID st = c -> otTS (stLast st) = e.
Proof. apply ListChunks_path, run_inv, emptyDB_inv. Qed.

(** A stream never has two open chains, and its open chain is the one its
    collector's position is on, after any sequence of repository operations. *)
Theorem one_open_chain ops s c1 c2 ch1 ch2 :
  dbChains (run ops emptyDB) !! (s, c1) = Some ch1 -> dbChains (run ops emptyDB) !! (s, c2) = Some ch2 ->
  chainOpen ch1 = true -> chainOpen ch2 = true ->
  c1 = c2 /\ ∃ st, LoadState s (run ops emptyDB) = Ok st /\ stChainID st = c1.
Proof.
  pose proof (run_inv ops _ emptyDB_inv) as Hi. intros H1 H2 Ho1 Ho2.
  destruct (inv_open _ Hi _ _ _ H1 Ho1) as (st1 & Hs1 & <-).
  destruct (inv_open _ Hi _ _ _ H2 Ho2) as (st2 & Hs2 & <-). rewrite Hs1 in Hs2. injection Hs2 as <-.
  split; [done|]. exists st1. unfold LoadState. by rewrite Hs1.
Qed.

(** A deleted chunk has both of its times, any other neither. *)
Definition PurgeInv (db : DB) : Prop :=
  map_Forall (λ _ c, is_Some (cPurgeAfter c) <-> is_Some (cDeletedAt c)) (dbChunks db).

Lemma updateChunks_purge P g db :
  (∀ c, (is_Some (cPurgeAfter c) <-> is_Some (cDeletedAt c)) ->
        is_Some (cPurgeAfter (g c)) <-> is_Some (cDeletedAt (g c))) ->
  PurgeInv db -> PurgeInv (updateChunks P g db).1.
Proof.
  intros Hg Hi k c Hc. apply (lookup_update P g) in Hc as (c0 & Hc0 & ->). specialize (Hi _ _ Hc0). simpl in Hi.
  destruct (P c0); auto.
Qed.

Lemma DeleteChunks_purge ids at_ p db : PurgeInv db -> PurgeInv (DeleteChunks ids at_ p db).1.
Proof. rewrite DeleteChunks_fst. apply updateChunks_purge. intros c _. simpl. split; by eauto. Qed.

Lemma apply_purge o db : PurgeInv db -> PurgeInv (apply o db).
Proof.
  intros Hi. destruct o; cbn [apply];
    unfold MarkChunkVerified, SetChunkRetainUntil, MarkChunkPruned, SupersedeChunks, SetCollectorStatus,
      SetWindowLow, SetReplicaSetID; rewrite ?execOne_fst; auto using DeleteChunks_purge;
    try (by apply updateChunks_purge).
  - unfold CreateStream. repeat case_match; simpl; done.
  - unfold UpdateStream. repeat case_match; simpl; done.
  - unfold DeleteStream. repeat case_match; simpl; try done. intros k c [Hc _]%map_lookup_filter_Some. by apply (Hi k).
  - unfold StartChain. repeat case_match; simpl; done.
  - unfold EndChain. repeat case_match; simpl; done.
  - unfold CommitChunk. repeat case_match; simpl; try done;
      (apply map_Forall_insert_2; [|done]; simpl; split; by intros []).
  - unfold updateState. repeat case_match; simpl; done.
  - unfold updateState. repeat case_match; simpl; done.
  - unfold updateState. repeat case_match; simpl; done.
Qed.

Lemma run_purge ops db : PurgeInv db -> PurgeInv (run ops db).
Proof. revert db. induction ops as [|o ops IH]; intros db Hi; [done|]. apply IH, apply_purge, Hi. Qed.

Lemma elem_of_limitRows {A} n (l : list A) x : x ∈ limitRows n l -> x ∈ l.
Proof. unfold limitRows. destruct (_ <? _); [done|]. apply subseteq_take. Qed.

(** The rows the purge is offered. *)
Lemma purgeable_row db s now limit c :
  PurgeInv db -> c ∈ ListPurgeableChunks s now limit db ->
  ∃ k p d, dbChunks db !! k = Some c /\ cPurgeAfter c = Some p /\ timeKey p <= timeKey now /\ cDeletedAt c = Some d /\
    cStatus c <> ChunkPruned /\ cStreamID c = s /\ (∀ r, cRetainUntil c = Some r -> timeKey r <= timeKey now).
Proof.
  intros Hi Hc%elem_of_limitRows. unfold selectBy in Hc. rewrite elem_of_stable_sort in Hc.
  apply list_elem_of_filter in Hc as [HP Hc]. apply Is_true_true in HP. bool_cases.
  apply list_elem_of_fmap in Hc as ([k c'] & -> & Hc%elem_of_map_to_list). simpl in *.
  pose proof (Hi _ _ Hc) as Hd. simpl in Hd. destruct (cPurgeAfter c') as [p|] eqn:Hp; [|done]. bool_cases.
  destruct (proj1 Hd ltac:(by eauto)) as [d Hd']. exists k, p, d. repeat split; try done.
  intros r Hr. rewrite Hr in *. by bool_cases.
Qed.

(** The purge never sees a chunk in use: every chunk [ListPurgeableChunks]
    returns was deleted before, has its object still stored, and neither its delete
    grace period nor its Object Lock retention reaches past [now] (as stored). *)
Theorem purgeable_safe ops s now limit c :
  c ∈ ListPurgeableChunks s now limit (run ops emptyDB) ->
  Live c = false /\ is_Some (cDeletedAt c) /\ cStatus c <> ChunkPruned /\ cStreamID c = s /\
  (∃ p, cPurgeAfter c = Some p /\ timeKey p <= timeKey now) /\
  (∀ r, cRetainUntil c = Some r -> timeKey r <= timeKey now).
Proof.
  intros Hc. destruct (purgeable_row _ _ _ _ _ (run_purge ops _ (map_Forall_empty _)) Hc)
    as (k & p & d & _ & Hp & Hle & Hd & Hs & Hid & Hr).
  repeat split; [|by eauto|done|done|by eauto|done]. unfold Live. rewrite Hd. apply andb_false_r.
Qed.

(** ** A concrete run *)

Definition demoStream : Stream :=
  mkStream "s" "conn" "rs0" "target" true "0 3 * * *" 7 0 0 60 true "" "" "" [] 0 0.

Definition demoChunk (id key : string) (from to : Z) : Chunk :=
  mkChunk id "s" "c1" "target" key (mkTS from 1) (mkTS to 1) 3 3 10 100 "aa" false "" ChunkCommitted
    0 None "" None None "" None.

(** Two chunks, the first deleted with a grace period, and an empty one between. *)
Definition demoOps : list op :=
  [OCreateStream 5 demoStream; OStartChain "s" "c1" (mkOpTime (mkTS 100 1) 3) 6;
   OCommitChunk 7 (demoChunk "k1" "o1" 100 200); OCommitChunk 8 (demoChunk "k2" "o2" 200 200);
   OCommitChunk 9 (demoChunk "k3" "o3" 200 300); OCommitChunk 9 (demoChunk "k4" "o4" 250 400);
   ODeleteChunks ["k1"] (unix_time 1000) (unix_time 2000)].

Definition demoChain : Chain := mkChain "s" "c1" (mkTS 100 1) zeroTS EndNone None.

Lemma chain_contiguous_witness :
  ∃ l, ListChunks (allChunks "s" "c1") (run demoOps emptyDB) = Ok l /\ length l = 3%nat /\
  ∃ e, path (mkTS 100 1) (span <$> l) e /\
    ∀ st, LoadState "s" (run demoOps emptyDB) = Ok st -> stChainID st = "c1" -> otTS (stLast st) = e.
Proof.
  eexists. split; [reflexivity|]. split; [vm_compute; reflexivity|].
  apply (chain_contiguous demoOps "s" "c1" demoChain); [vm_compute; reflexivity|reflexivity].
Defined.

Lemma one_open_chain_witness :
  "c1" = "c1" /\ ∃ st, LoadState "s" (run demoOps emptyDB) = Ok st /\ stChainID st = "c1".
Proof.
  apply (one_open_chain demoOps "s" "c1" "c1" demoChain demoChain); vm_compute; reflexivity.
Defined.

Lemma purgeable_safe_witness :
  ∃ c, cID c = "k1" /\ Live c = false /\ is_Some (cDeletedAt c) /\ cStatus c <> ChunkPruned /\ cStreamID c = "s" /\
  (∃ p, cPurgeAfter c = Some p /\ timeKey p <= timeKey (unix_time 2000)) /\
  (∀ r, cRetainUntil c = Some r -> timeKey r <= timeKey (unix_time 2000)).
Proof.
  eexists. split; [|apply (purgeable_safe demoOps "s" (unix_time 2000) 10); vm_compute; left].
  reflexivity.
Defined.
