(* ===== verification/PitrPlan.v ===== *)
(** * Planning a point-in-time restore (src/internal/pitr/plan.go)

    The choice of the base backup and of the oplog chunks a restore to a target
    replays, over the repository of PitrStore. *)

From S2P Require Import Prelude Pitr PitrStore PitrChain.

Definition MaxUint32 : Z := 2 ^ 32 - 1.

(** The moment to restore: [tAt] is the zero time or [tTS] is [None] for unset. *)
Record Target : Type := mkTarget { tAt : Z; tTS : option Timestamp }.

Definition Limit (t : Target) : result PitrErr Timestamp :=
  if Bool.eqb (IsZero (tAt t)) (bool_decide (tTS t = None)) then Err ErrInvalidTarget
  else match tTS t with
  | Some ts => if tsIsZero ts then Err ErrInvalidTarget else Ok ts
  | None =>
      let s := time_unix (tAt t) in
      if (s <=? 0) || (s >=? MaxUint32) then Err ErrInvalidTarget else Ok (mkTS (s + 1) 0)
  end.

Record Base : Type := mkBase {
  bID : string;
  bTBefore : OpTime;
  bTAfter : OpTime;
  bSizeBytes : Z;
  bEncrypted : bool;
  bEncryptionMode : string;
  bStartedAt : Z
}.

Record RestorePlan : Type := mkPlan {
  pStreamID : string;
  pChainID : string;
  pBase : Base;
  pChunks : list Chunk;
  pChunkCount : Z;
  pOplogBytes : Z;
  pUnverifiedChunks : Z;
  pLimit : Timestamp;
  pTargetTime : Z
}.

(** The chunks from the one that holds [tb] on: [start] of planFrom, [None] for -1. *)
Fixpoint startAt (tb : Timestamp) (chunks : list Chunk) : option (list Chunk) :=
  match chunks with
  | [] => None
  | ch :: rest =>
      if Compare (cTo ch) tb >=? 0
      then (if Compare (cFrom ch) tb <=? 0 then Some chunks else None)
      else startAt tb rest
  end.

(** The part of a plan the loop of planFrom builds. *)
Record Walk : Type := mkWalk {
  wChunks : list Chunk;
  wOplogBytes : Z;
  wUnverified : Z;
  wTermOK : bool
}.

(** One turn of that loop; [prev] is the chunk before, [None] at the start. *)
Definition walkChunk (b : Base) (prev : option Chunk) (ch : Chunk) (w : Walk) : result PitrErr Walk :=
  if (match prev with Some p => negb (bool_decide (cFrom ch = cTo p)) | None => false end) then Err ErrChainBreak
  else if isEmpty (TrimSpace (cSHA256 ch)) then Err ErrChunkFailed
  else if negb (isEmpty (cVerifyError ch)) then Err ErrChunkFailed
  else
    let holds := negb (wTermOK w) && (Compare (cFrom ch) (otTS (bTAfter b)) <? 0)
                 && (Compare (cTo ch) (otTS (bTAfter b)) >=? 0) in
    if holds && negb (otTerm (bTAfter b) =? 0)
       && ((otTerm (bTAfter b) <? cFirstTerm ch) || (otTerm (bTAfter b) >? cLastTerm ch))
    then Err ErrChainBreak
    else Ok (mkWalk (wChunks w ++ [ch]) (i64 (wOplogBytes w + cSizeBytes ch))
               (wUnverified w + (if bool_decide (cVerifiedAt ch = None) then 1 else 0))
               (wTermOK w || holds)).

(** The loop from the start chunk to the one that reaches [limit]. *)
Fixpoint walk (b : Base) (limit : Timestamp) (prev : option Chunk) (chunks : list Chunk) (w : Walk)
  : result PitrErr Walk :=
  match chunks with
  | [] => Err ErrChainBreak
  | ch :: rest =>
      match walkChunk b prev ch w with
      | Err e => Err e
      | Ok w =>
          if Compare (cTo ch) limit >=? 0 then
            if negb (wTermOK w)
               && (Compare (otTS (bTAfter b)) (match wChunks w with c :: _ => cFrom c | [] => zeroTS end) >? 0)
            then Err ErrChainBreak else Ok w
          else walk b limit (Some ch) rest w
      end
  end.

(** [planFrom]: [chains] are the chains with their live chunks. *)
Fixpoint planFrom (chains : list (Chain * list Chunk)) (b : Base) (limit : Timestamp) : result PitrErr RestorePlan :=
  match chains with
  | [] => Err ErrChainBreak
  | (c, chunks) :: rest =>
      match startAt (otTS (bTBefore b)) chunks with
      | None => planFrom rest b limit
      | Some from =>
          match walk b limit None from (mkWalk [] 0 0 false) with
          | Err e => Err e
          | Ok w => Ok (mkPlan "" (chChainID c) b (wChunks w) (Z.of_nat (length (wChunks w))) (wOplogBytes w)
                          (wUnverified w) limit 0)
          end
      end
  end.

Definition missingKey (hasKey : option (string -> bool)) (encrypted : bool) (mode : string) : bool :=
  encrypted && match hasKey with None => true | Some f => negb (f mode) end.

Definition checkKeys (plan : RestorePlan) (hasKey : option (string -> bool)) : result PitrErr unit :=
  if missingKey hasKey (bEncrypted (pBase plan)) (bEncryptionMode (pBase plan)) then Err ErrKeyMissing
  else if existsb (λ ch, missingKey hasKey (cEncrypted ch) (cEncryptionMode ch)) (pChunks plan)
  then Err ErrKeyMissing else Ok tt.

(** The live committed chunks of every chain, in order. *)
Fixpoint loadChains (streamID : string) (chains : list Chain) (db : DB) : result PitrErr (list (Chain * list Chunk)) :=
  match chains with
  | [] => Ok []
  | c :: rest =>
      match ListChunks (mkQuery streamID (chChainID c) zeroTS zeroTS (Some ChunkCommitted) true) db with
      | Err e => Err e
      | Ok chunks =>
          match loadChains streamID rest db with
          | Err e => Err e
          | Ok l => Ok ((c, filter Live chunks) :: l)
          end
      end
  end.

(** The newest end of a live chunk. *)
Definition newestOf (l : list (Chain * list Chunk)) : Timestamp :=
  foldl (λ newest '(_, live),
    match last live with
    | Some ch => if Compare (cTo ch) newest >? 0 then cTo ch else newest
    | None => newest
    end) zeroTS l.

(** The loop over the bases, newest first: the first plan, with its keys checked, or
    the reason of the first base. *)
Fixpoint tryBases (streamID : string) (chains : list (Chain * list Chunk)) (hasKey : option (string -> bool))
    (target : Target) (limit : Timestamp) (firstErr : option PitrErr) (bases : list Base)
  : result PitrErr RestorePlan :=
  match bases with
  | [] => Err (default ErrOutsideWindow firstErr)
  | b :: rest =>
      match planFrom chains b limit with
      | Ok p =>
          let time := match tTS target with
                      | Some ts => tsTime ts
                      | None => tAt target / second * second
                      end in
          let p := mkPlan streamID (pChainID p) (pBase p) (pChunks p) (pChunkCount p) (pOplogBytes p)
                     (pUnverifiedChunks p) (pLimit p) time in
          match checkKeys p hasKey with Err e => Err e | Ok _ => Ok p end
      | Err e => tryBases streamID chains hasKey target limit
                   (Some (match firstErr with None => e | Some f => f end)) rest
      end
  end.

(** The bases whose consistent point is before [limit], newest first. *)
Definition eligible (limit : Timestamp) (b : Base) : bool :=
  (Compare (otTS (bTAfter b)) limit <? 0) && negb (tsIsZero (otTS (bTBefore b))).

Definition newerBase (a b : Base) : bool := Compare (otTS (bTAfter a)) (otTS (bTAfter b)) >? 0.

Definition PlanRestore (stream : option Stream) (db : DB) (bases : list Base) (hasKey : option (string -> bool))
    (target : Target) : result PitrErr RestorePlan :=
  match stream with
  | None => Err ErrNotFound
  | Some st =>
      match Limit target with
      | Err e => Err e
      | Ok limit =>
          match loadChains (sID st) (ListChains (sID st) db) db with
          | Err e => Err e
          | Ok chains =>
              if Compare limit (newestOf chains) >? 0 then Err ErrOutsideWindow
              else match filter (eligible limit) bases with
              | [] => Err ErrOutsideWindow
              | bs => tryBases (sID st) chains hasKey target limit None (stable_sort newerBase bs)
              end
          end
      end
  end.

(** The bounds [CheckPlanLive] queries, widened by one position; zero is no bound. *)
Definition beforeTS (first : Timestamp) : Timestamp :=
  if tsI first >? 0 then mkTS (tsT first) (tsI first - 1)
  else if tsT first >? 0 then mkTS (tsT first - 1) MaxUint32
  else zeroTS.

Definition afterTS (last : Timestamp) : Timestamp :=
  if tsI last <? MaxUint32 then mkTS (tsT last) (tsI last + 1)
  else if tsT last <? MaxUint32 then mkTS (tsT last + 1) 0
  else zeroTS.

Definition CheckPlanLive (db : DB) (plan : option RestorePlan) : result PitrErr unit :=
  match plan with
  | None => Ok tt
  | Some p =>
      match pChunks p, last (pChunks p) with
      | first :: _, Some lst =>
          match ListChunks (mkQuery (pStreamID p) (pChainID p) (beforeTS (cFrom first)) (afterTS (cTo lst))
                              (Some ChunkCommitted) true) db with
          | Err e => Err e
          | Ok chunks =>
              let live : gset string := list_to_set (cID <$> filter Live chunks) in
              if forallb (λ ch, bool_decide (cID ch ∈ live)) (pChunks p) then Ok tt else Err ErrPlanStale
          end
      | _, _ => Ok tt
      end
  end.

(** ** What a plan promises *)

(** [linked a l b]: the chunks [l] lead from [a] to [b], each continuing the previous. *)
Fixpoint linked (a : Timestamp) (l : list Chunk) (b : Timestamp) : Prop :=
  match l with
  | [] => a = b
  | c :: l => cFrom c = a /\ linked (cTo c) l b
  end.

(** A chunk the replay may read: it has a checksum and did not fail verification. *)
Definition usable (c : Chunk) : Prop := TrimSpace (cSHA256 c) <> "" /\ cVerifyError c = "".

(** Chunk [c] holds the consistent point of [b], in a term it covers. *)
Definition holdsPoint (b : Base) (c : Chunk) : Prop :=
  tslt (cFrom c) (otTS (bTAfter b)) /\ tsle (otTS (bTAfter b)) (cTo c) /\
  (otTerm (bTAfter b) = 0 \/ cFirstTerm c <= otTerm (bTAfter b) <= cLastTerm c).

(** The contract of a plan of stream [s] that restores [b] and replays [chunks]. *)
Record ReplaySpec (b : Base) (limit : Timestamp) (chunks : list Chunk) : Prop := mkReplay {
  rs_split : ∃ init lst, chunks = init ++ [lst] /\ Forall (λ c, tslt (cTo c) limit) init /\ tsle limit (cTo lst) /\
    ∃ first rest, chunks = first :: rest /\ tsle (cFrom first) (otTS (bTBefore b)) /\
      tsle (otTS (bTBefore b)) (cTo first) /\ linked (cFrom first) chunks (cTo lst) /\
      (Exists (holdsPoint b) chunks \/ tsle (otTS (bTAfter b)) (cFrom first));
  rs_usable : Forall usable chunks
}.

Lemma startAt_Some tb l from :
  startAt tb l = Some from ->
  ∃ pre c rest, l = pre ++ from /\ from = c :: rest /\ tsle (cFrom c) tb /\ tsle tb (cTo c).
Proof.
  induction l as [|c l IH]; simpl; [done|]. destruct (_ >=? _) eqn:E1.
  - destruct (_ <=? _) eqn:E2; [|done]. intros [= <-]. exists [], c, l. compare_cases. done.
  - intros (pre & d & rest & -> & -> & ?)%IH. by exists (c :: pre), d, rest.
Qed.

Lemma walkChunk_Ok b prev ch w w' :
  walkChunk b prev ch w = Ok w' ->
  (∀ p, prev = Some p -> cFrom ch = cTo p) /\ usable ch /\ wChunks w' = wChunks w ++ [ch] /\
  (wTermOK w' = true -> wTermOK w = true \/ holdsPoint b ch).
Proof.
  unfold walkChunk. intros Hw.
  destruct (match prev with Some p => _ | None => false end) eqn:Hp; [done|].
  destruct (isEmpty (TrimSpace _)) eqn:Hsha; [done|]. destruct (isEmpty (cVerifyError ch)) eqn:Hv; [|done].
  unfold isEmpty in *. bool_cases. simpl in Hw.
  set (h := negb (wTermOK w) && _ && _) in Hw.
  destruct (h && _ && _) eqn:Ht; [done|]. injection Hw as <-. simpl.
  split; [intros p ->; by bool_cases|]. split; [done|]. split; [done|].
  intros [?|Hh]%orb_true_iff; [by left|right]. rewrite Hh in Ht. unfold h in Hh. compare_cases. simpl in Ht.
  split; [done|]. split; [done|]. destruct (otTerm (bTAfter b) =? 0) eqn:E; simpl in Ht; bool_cases; [by left|right; lia].
Qed.

Lemma walk_Ok b limit chunks : ∀ prev w w',
  walk b limit prev chunks w = Ok w' ->
  ∃ init lst rest, chunks = init ++ lst :: rest /\ wChunks w' = wChunks w ++ init ++ [lst] /\
    Forall (λ c, tslt (cTo c) limit) init /\ tsle limit (cTo lst) /\ Forall usable (init ++ [lst]) /\
    (∀ first tl, init ++ [lst] = first :: tl -> linked (cFrom first) (init ++ [lst]) (cTo lst) /\
       ∀ p, prev = Some p -> cFrom first = cTo p) /\
    (wTermOK w = true \/ Exists (holdsPoint b) (init ++ [lst]) \/
     tsle (otTS (bTAfter b)) (match wChunks w' with c :: _ => cFrom c | [] => zeroTS end)).
Proof.
  induction chunks as [|ch rest IH]; intros prev w w'; simpl; [done|].
  destruct (walkChunk b prev ch w) as [w1|] eqn:Hc; [|done].
  destruct (walkChunk_Ok _ _ _ _ _ Hc) as (Hprev & Hus & Hch & Hterm).
  destruct (Compare (cTo ch) limit >=? 0) eqn:Hlim; compare_cases.
  - destruct (negb (wTermOK w1) && _) eqn:Ht; [done|]. intros [= <-].
    exists [], ch, rest. rewrite Hch. do 2 (split; [done|]). split; [constructor|]. split; [done|].
    split; [by constructor|]. split; [intros first tl [= <- <-]; done|].
    destruct (wTermOK w1) eqn:Hw1.
    + destruct (Hterm eq_refl); [by left|right; left]. by constructor.
    + right. right. rewrite <- Hch. simpl in Ht. by compare_cases.
  - intros (init & lst & rest' & -> & Hw' & Hinit & Hl & Hu & Hlink & Ht)%IH.
    exists (ch :: init), lst, rest'. rewrite Hw', Hch, <- !app_assoc. do 2 (split; [done|]).
    split; [by constructor|]. split; [done|]. split; [by constructor|]. split.
    + intros first tl [= <- <-]. split; [|done]. split; [done|].
      destruct (init ++ [lst]) as [|f tl] eqn:E; [by destruct init|].
      destruct (Hlink f tl eq_refl) as [Hlk Hp]. by rewrite (Hp ch eq_refl) in Hlk.
    + rewrite Hw', Hch, <- !app_assoc in Ht. destruct Ht as [Ht|[Ht|Ht]].
      * destruct (Hterm Ht); [by left|right; left]. by constructor.
      * right. left. by constructor.
      * by right; right.
Qed.

Lemma planFrom_Ok chains b limit plan :
  planFrom chains b limit = Ok plan ->
  ∃ c l pre rest, (c, l) ∈ chains /\ l = pre ++ pChunks plan ++ rest /\
    pChainID plan = chChainID c /\ pBase plan = b /\ pLimit plan = limit /\
    pChunkCount plan = Z.of_nat (length (pChunks plan)) /\ ReplaySpec b limit (pChunks plan).
Proof.
  induction chains as [|[c l] chains IH]; simpl; [done|].
  destruct (startAt _ l) as [from|] eqn:Hs.
  - destruct (startAt_Some _ _ _ Hs) as (pre & f & tl & -> & Hfrom & Hf1 & Hf2).
    destruct (walk _ _ _ _ _) as [w|] eqn:Hw; [|done]. intros [= <-]. simpl.
    destruct (walk_Ok _ _ _ _ _ _ Hw) as (init & lst & rest & Hl & Hch & Hinit & Hlst & Hu & Hlink & Ht).
    simpl in Hch. exists c, (pre ++ from), pre, rest. rewrite Hch.
    split; [left|]. split; [by rewrite Hl, <- !app_assoc|]. do 4 (split; [done|]). split; [|done].
    exists init, lst. do 3 (split; [done|]).
    destruct (init ++ [lst]) as [|g tl'] eqn:E; [by destruct init|].
    assert (g = f) as ->.
    { assert (init ++ lst :: rest = (g :: tl') ++ rest) as E2 by (rewrite <- E, <- app_assoc; done).
      rewrite Hfrom, E2 in Hl. by injection Hl. }
    exists f, tl'. rewrite Hch in Ht. do 3 (split; [done|]). split; [by eapply Hlink|].
    destruct Ht as [Ht|Ht]; done.
  - intros (c' & l' & pre & rest & Hin & Hr)%IH. exists c', l', pre, rest. split; [by right|done].
Qed.

Lemma newerBase_spec a b : newerBase a b = true <-> tslt (otTS (bTAfter b)) (otTS (bTAfter a)).
Proof. unfold newerBase. rewrite <- Compare_gt. lia. Qed.

Lemma sorted_newest_first l :
  StronglySorted (not_after newerBase) (stable_sort newerBase l).
Proof.
  assert (∀ a b, not_after newerBase a b <-> tsle (otTS (bTAfter b)) (otTS (bTAfter a))) as Heq.
  { intros a b. unfold not_after. rewrite <- not_true_iff_false, newerBase_spec. unfold tslt, tsle. lia. }
  apply stable_sort_StronglySorted.
  - intros a b c. rewrite !Heq. intros. by eapply tsle_trans.
  - intros a b Hab%newerBase_spec. apply Heq. unfold tslt, tsle in *. lia.
Qed.

Lemma checkKeys_Ok plan hasKey :
  checkKeys plan hasKey = Ok tt ->
  missingKey hasKey (bEncrypted (pBase plan)) (bEncryptionMode (pBase plan)) = false /\
  Forall (λ c, missingKey hasKey (cEncrypted c) (cEncryptionMode c) = false) (pChunks plan).
Proof.
  unfold checkKeys. destruct (missingKey _ _ _); [done|]. destruct (existsb _ _) eqn:E; [done|]. intros _.
  split; [done|]. apply Forall_forall. intros c Hc. apply not_true_iff_false. intros Hm.
  apply not_true_iff_false in E. apply E, existsb_exists. exists c. split; [by apply list_elem_of_In|done].
Qed.

(** The loop over the bases returns the plan of the first base that has one. *)
Lemma tryBases_Ok s chains hasKey target limit fe bases plan :
  tryBases s chains hasKey target limit fe bases = Ok plan ->
  ∃ pre b post p, bases = pre ++ b :: post /\ planFrom chains b limit = Ok p /\
    Forall (λ b', is_ok (planFrom chains b' limit) = false) pre /\
    pStreamID plan = s /\ pChainID plan = pChainID p /\ pBase plan = pBase p /\ pChunks plan = pChunks p /\
    pLimit plan = pLimit p /\ pChunkCount plan = pChunkCount p /\ checkKeys plan hasKey = Ok tt.
Proof.
  revert fe. induction bases as [|b bases IH]; intros fe; simpl; [done|].
  destruct (planFrom chains b limit) as [p|e] eqn:Hp.
  - set (q := mkPlan s _ _ _ _ _ _ _ _). destruct (checkKeys q hasKey) as [[]|] eqn:Hk; [|done]. intros [= <-].
    exists [], b, bases, p. split_and!; done || constructor.
  - intros (pre & b' & post & p & -> & Hb & Hpre & Hr)%IH. exists (b :: pre), b', post, p.
    split; [done|]. split; [done|]. split; [|done]. constructor; [|done]. by rewrite Hp.
Qed.

Lemma loadChains_Ok s chains db l c lv :
  loadChains s chains db = Ok l -> (c, lv) ∈ l ->
  c ∈ chains /\ ∃ chunks,
    ListChunks (mkQuery s (chChainID c) zeroTS zeroTS (Some ChunkCommitted) true) db = Ok chunks /\
    lv = filter Live chunks.
Proof.
  revert l. induction chains as [|c0 chains IH]; cbn [loadChains]; intros l Hl Hin.
  - injection Hl as <-. by apply elem_of_nil in Hin.
  - destruct (ListChunks (mkQuery s (chChainID c0) zeroTS zeroTS (Some ChunkCommitted) true) db) as [chunks|] eqn:Hq; [|done]. destruct (loadChains s chains db) as [l'|]; [|done].
    injection Hl as <-. apply elem_of_cons in Hin as [[= -> ->]|Hin].
    + split; [left|]. eauto.
    + destruct (IH l' eq_refl Hin) as [? ?]. split; [by right|done].
Qed.

(** The rows a chunk query returns. *)
Lemma ListChunks_elem q db l c :
  Inv db -> ListChunks q db = Ok l -> c ∈ l ->
  dbChunks db !! cID c = Some c /\ cStreamID c = qStreamID q /\ cChainID c = qChainID q.
Proof.
  intros Hi. unfold ListChunks. destruct (_ || _); [done|]. intros [= <-]. unfold selectBy.
  rewrite elem_of_stable_sort. intros [HP Hc]%list_elem_of_filter. apply Is_true_true in HP.
  unfold chunkMatches in HP. bool_cases.
  apply list_elem_of_fmap in Hc as ([k c'] & -> & Hc%elem_of_map_to_list). simpl in *.
  destruct (inv_chunk _ Hi _ _ Hc) as [-> _]. done.
Qed.

(** What a plan of [PlanRestore] is. *)
Lemma PlanRestore_Ok db st bases hasKey target plan :
  Inv db -> PlanRestore (Some st) db bases hasKey target = Ok plan ->
  ∃ limit chains, Limit target = Ok limit /\ pLimit plan = limit /\ pStreamID plan = sID st /\
    isEmpty (pStreamID plan) || isEmpty (pChainID plan) = false /\
    loadChains (sID st) (ListChains (sID st) db) db = Ok chains /\
    pBase plan ∈ bases /\ eligible limit (pBase plan) = true /\
    ReplaySpec (pBase plan) limit (pChunks plan) /\
    Forall (λ c, dbChunks db !! cID c = Some c /\ Live c = true /\
                 cStreamID c = sID st /\ cChainID c = pChainID plan) (pChunks plan) /\
    missingKey hasKey (bEncrypted (pBase plan)) (bEncryptionMode (pBase plan)) = false /\
    Forall (λ c, missingKey hasKey (cEncrypted c) (cEncryptionMode c) = false) (pChunks plan) /\
    ∀ b, b ∈ bases -> eligible limit b = true -> newerBase b (pBase plan) = true ->
      is_ok (planFrom chains b limit) = false.
Proof.
  intros Hi. unfold PlanRestore. destruct (Limit target) as [limit|]; [|done].
  destruct (loadChains _ _ _) as [chains|] eqn:Hload; [|done]. destruct (_ >? _); [done|].
  set (bs := filter (eligible limit) bases).
  assert (∀ b, b ∈ stable_sort newerBase bs <-> eligible limit b = true /\ b ∈ bases) as Hbs.
  { intros b. rewrite elem_of_stable_sort. unfold bs. rewrite list_elem_of_filter. by rewrite Is_true_true. }
  pose proof (sorted_newest_first bs) as Hsorted.
  destruct bs as [|b0 bs0]; [done|]. intros Htry.
  destruct (tryBases_Ok _ _ _ _ _ _ _ _ Htry) as (pre & b & post & p & Hsplit & Hp & Hpre & Hs & Hc & Hb & Hch & Hlim & _ & Hk).
  destruct (planFrom_Ok _ _ _ _ Hp) as (c & l & pr & rs & Hcl & Hl & Hcid & Hpb & Hpl & _ & Hrs).
  destruct (checkKeys_Ok _ _ Hk) as [Hk1 Hk2].
  destruct (loadChains_Ok _ _ _ _ _ _ Hload Hcl) as (_ & chunks & Hq & Hlv).
  assert (pBase plan = b) as Hbb by congruence.
  assert (b ∈ stable_sort newerBase (b0 :: bs0)) as [Hel Hin]%Hbs by (rewrite Hsplit; set_solver).
  exists limit, chains. rewrite Hbb in *. rewrite Hch in *.
  do 3 (split; [congruence || done|]).
  split; [rewrite Hs, Hc, Hcid; unfold ListChunks in Hq; simpl in Hq; by destruct (_ || _)|].
  do 4 (split; [congruence || done|]). split; [|split; [done|split; [done|]]].
  - apply Forall_forall. intros x Hx. assert (x ∈ l) as Hxl by (rewrite Hl; set_solver).
    rewrite Hlv in Hxl. apply list_elem_of_filter in Hxl as [Hlive%Is_true_true Hxc].
    destruct (ListChunks_elem _ _ _ _ Hi Hq Hxc) as (? & ? & ?). simpl in *. by rewrite Hc, Hcid.
  - intros b' Hb' Hel' Hnew.
    assert (b' ∈ stable_sort newerBase (b0 :: bs0)) as Hin' by (by apply Hbs).
    rewrite Hsplit in Hin', Hsorted. apply elem_of_app in Hin' as [Hin'|Hin'].
    + by eapply Forall_forall in Hpre.
    + exfalso. apply StronglySorted_app in Hsorted as (_ & _ & Hsorted).
      apply StronglySorted_inv in Hsorted as [_ Hall].
      apply elem_of_cons in Hin' as [->|Hin'].
      * apply newerBase_spec in Hnew. unfold tslt in Hnew. lia.
      * eapply Forall_forall in Hall; [|exact Hin']. unfold not_after in Hall. congruence.
Qed.

(** [C3] Soundness of a restore plan. On a database reached by repository operations,
    a plan restores one of the given bases, whose consistent point is before the
    target, and replays live committed chunks of one chain of the stream: the first
    holds the position where the base's dump began, each continues the previous one
    without a gap, the last is the first to reach the target; every chunk has a
    checksum and did not fail verification, the consistent point of the base lies in
    the range in a term the chunk covers, and a key is configured for everything
    encrypted. Every newer base before the target has no plan. *)
Theorem plan_sound ops st bases hasKey target plan :
  PlanRestore (Some st) (run ops emptyDB) bases hasKey target = Ok plan ->
  ∃ limit chains, Limit target = Ok limit /\ pLimit plan = limit /\ pStreamID plan = sID st /\
    loadChains (sID st) (ListChains (sID st) (run ops emptyDB)) (run ops emptyDB) = Ok chains /\
    pBase plan ∈ bases /\ eligible limit (pBase plan) = true /\
    ReplaySpec (pBase plan) limit (pChunks plan) /\
    Forall (λ c, dbChunks (run ops emptyDB) !! cID c = Some c /\ Live c = true /\
                 cStreamID c = sID st /\ cChainID c = pChainID plan) (pChunks plan) /\
    missingKey hasKey (bEncrypted (pBase plan)) (bEncryptionMode (pBase plan)) = false /\
    Forall (λ c, missingKey hasKey (cEncrypted c) (cEncryptionMode c) = false) (pChunks plan) /\
    ∀ b, b ∈ bases -> eligible limit b = true -> newerBase b (pBase plan) = true ->
      is_ok (planFrom chains b limit) = false.
Proof.
  intros (limit & chains & ? & ? & ? & _ & Hr)%PlanRestore_Ok; [|by apply run_inv, emptyDB_inv].
  by exists limit, chains.
Qed.

(** ** A plan and its pins *)

(** Every recorded chunk ends at or after its start. *)
Lemma chunk_span_le db k c : Inv db -> dbChunks db !! k = Some c -> tsle (cFrom c) (cTo c).
Proof.
  intros Hi Hc. destruct (inv_chunk _ Hi _ _ Hc) as [_ [ch Hch]].
  destruct (inv_path _ Hi _ _ _ Hch) as (l & e & Hl & Hp & _).
  assert (span c ∈ l) as Hin.
  { rewrite Hl. unfold spans. apply list_elem_of_fmap_2, list_elem_of_filter. split; [done|].
    apply list_elem_of_fmap. exists (k, c). split; [done|]. by apply elem_of_map_to_list. }
  clear Hl Hch. revert Hp. generalize (chStart ch). induction l as [|[f t] l IH]; [by apply elem_of_nil in Hin|].
  intros a (-> & Hft & Hp). apply elem_of_cons in Hin as [Heq|Hin]; [|by eapply IH].
  unfold span in Heq. by injection Heq as -> ->.
Qed.

Lemma linked_bounds a l b c :
  linked a l b -> Forall (λ c, tsle (cFrom c) (cTo c)) l -> c ∈ l -> tsle a (cFrom c) /\ tsle (cTo c) b.
Proof.
  revert a. induction l as [|d l IH]; intros a Hl Hf Hin; [by apply elem_of_nil in Hin|].
  destruct Hl as [<- Hl]. apply Forall_cons in Hf as [Hd Hf].
  assert (∀ a', linked a' l b -> tsle a' b) as Hle.
  { clear -Hf. induction l as [|x l IH]; intros a'; [intros ->; apply tsle_refl|].
    intros [<- Hl]. apply Forall_cons in Hf as [Hx Hf]. eapply tsle_trans; [exact Hx|by apply IH]. }
  apply elem_of_cons in Hin as [->|Hin]; [split; [apply tsle_refl|by apply Hle]|].
  destruct (IH _ Hl Hf Hin) as [H1 H2]. split; [|done]. eapply tsle_trans; [exact Hd|done].
Qed.

Lemma beforeTS_spec t u :
  tsValid t -> tsle t u -> tsIsZero (beforeTS t) || (Compare u (beforeTS t) >? 0) = true.
Proof.
  intros [Ht Hi] Hle. apply orb_true_iff. unfold beforeTS.
  destruct (tsI t >? 0) eqn:E1; [right|destruct (tsT t >? 0) eqn:E2; [right|by left]];
    rewrite Z.gtb_ltb; apply Z.ltb_lt, Compare_gt; unfold tsle, tslt in *; simpl; lia.
Qed.

Lemma afterTS_spec t u :
  tsValid t -> tsle u t -> tsIsZero (afterTS t) || (Compare u (afterTS t) <? 0) = true.
Proof.
  intros [Ht Hi] Hle. apply orb_true_iff. unfold afterTS, MaxUint32.
  destruct (tsI t <? 2 ^ 32 - 1) eqn:E1; [right|destruct (tsT t <? 2 ^ 32 - 1) eqn:E2; [right|by left]];
    apply Z.ltb_lt, Compare_lt; unfold tsle, tslt in *; simpl; lia.
Qed.

Lemma CheckPlanLive_complete db plan first tl lst :
  Inv db -> isEmpty (pStreamID plan) || isEmpty (pChainID plan) = false ->
  pChunks plan = first :: tl -> last (pChunks plan) = Some lst -> linked (cFrom first) (pChunks plan) (cTo lst) ->
  tsValid (cFrom first) -> tsValid (cTo lst) ->
  Forall (λ c, dbChunks db !! cID c = Some c /\ Live c = true /\ cStreamID c = pStreamID plan /\
               cChainID c = pChainID plan) (pChunks plan) ->
  CheckPlanLive db (Some plan) = Ok tt.
Proof.
  intros Hi Hne Hch Hlst Hlink Hv1 Hv2 Hall. unfold CheckPlanLive. rewrite Hlst.
  destruct (pChunks plan) as [|f t] eqn:Hpc; [done|]. injection Hch as -> ->. rewrite <- Hpc in *.
  unfold ListChunks. simpl. rewrite Hne. simpl.
  match goal with |- context [if ?b then _ else _] => assert (b = true) as ->; [|done] end.
  apply forallb_forall. intros c Hc%list_elem_of_In.
  apply bool_decide_eq_true. apply elem_of_list_to_set, list_elem_of_fmap_2, list_elem_of_filter.
  rewrite Forall_forall in Hall. destruct (Hall c Hc) as (Hrow & Hlive & Hs & Hcc).
  split; [by apply Is_true_true|]. unfold selectBy. apply elem_of_stable_sort, list_elem_of_filter.
  split; [|apply list_elem_of_fmap; exists (cID c, c); split; [done|by apply elem_of_map_to_list]].
  apply Is_true_true. unfold chunkMatches. simpl.
  assert (Forall (λ c, tsle (cFrom c) (cTo c)) (pChunks plan)) as Hsp.
  { apply Forall_forall. intros d Hd. eapply chunk_span_le; [done|]. by apply Hall. }
  destruct (linked_bounds _ _ _ _ Hlink Hsp Hc) as [Hl1 Hl2].
  pose proof (chunk_span_le _ _ _ Hi Hrow) as Hcle.
  rewrite (beforeTS_spec _ (cTo c) Hv1), (afterTS_spec _ (cFrom c) Hv2) by (by eapply tsle_trans).
  unfold Live in Hlive. bool_cases. rewrite !bool_decide_true by done. simpl.
  destruct (cStatus c); done.
Qed.

(** A fresh plan passes the liveness check, whatever it covers: the check
    refuses no plan that was just made. *)
Theorem fresh_plan_live ops st bases hasKey target plan :
  PlanRestore (Some st) (run ops emptyDB) bases hasKey target = Ok plan ->
  Forall (λ c, tsValid (cFrom c) /\ tsValid (cTo c)) (pChunks plan) ->
  CheckPlanLive (run ops emptyDB) (Some plan) = Ok tt.
Proof.
  intros Hplan Hv. assert (Inv (run ops emptyDB)) as Hi by apply run_inv, emptyDB_inv.
  destruct (PlanRestore_Ok _ _ _ _ _ _ Hi Hplan) as
    (limit & chains & _ & _ & Hs & Hne & _ & _ & _ & [(init & lst & Hsplit & _ & _ & Hf) _] & Hall & _).
  destruct Hf as (first & tl & Hcons & _ & _ & Hlink & _). rewrite Forall_forall in Hv.
  eapply CheckPlanLive_complete; try done.
  - by rewrite Hsplit, last_snoc.
  - apply Hv. rewrite Hcons. left.
  - apply Hv. rewrite Hsplit. set_solver.
  - by rewrite Hs.
Qed.

(** [C27] The liveness check refuses a plan part of which was deleted: when it accepts
    a plan on any later database, every chunk of the plan is still recorded, live, on
    the plan's chain. *)
Theorem live_plan_sound ops plan c :
  CheckPlanLive (run ops emptyDB) (Some plan) = Ok tt -> c ∈ pChunks plan ->
  ∃ r, dbChunks (run ops emptyDB) !! cID c = Some r /\ Live r = true /\
    cStreamID r = pStreamID plan /\ cChainID r = pChainID plan.
Proof.
  assert (Inv (run ops emptyDB)) as Hi by apply run_inv, emptyDB_inv. intros Hok Hc.
  unfold CheckPlanLive in Hok. destruct (pChunks plan) as [|f t] eqn:Hp; [by apply elem_of_nil in Hc|].
  destruct (last (f :: t)) as [lst|] eqn:Hl; [|by apply last_None in Hl].
  destruct (ListChunks _ _) as [chunks|] eqn:Hq; [|done]. destruct (forallb _ _) eqn:Hf; [|done].
  rewrite forallb_forall in Hf. apply list_elem_of_In, Hf in Hc. bool_cases.
  apply elem_of_list_to_set, list_elem_of_fmap in Hc as (r & Hid & Hr).
  apply list_elem_of_filter in Hr as [Hlive%Is_true_true Hr]. exists r. rewrite Hid.
  by destruct (ListChunks_elem _ _ _ _ Hi Hq Hr) as (? & ? & ?).
Qed.

(** ** Completeness: an unbroken chain is restorable throughout *)

Lemma startAt_complete tb l : ∀ a e,
  path a (span <$> l) e -> tsle a tb -> tslt tb e ->
  ∃ from a', startAt tb l = Some from /\ path a' (span <$> from) e /\ tsle a' tb /\ from ⊆ l.
Proof.
  induction l as [|c l IH]; simpl; intros a e; [intros -> ? ?; unfold tsle, tslt in *; lia|].
  intros (-> & Hle & Hp) Ha He. destruct (Compare (cTo c) tb >=? 0) eqn:E1.
  - exists (c :: l), (cFrom c). assert ((Compare (cFrom c) tb <=? 0) = true) as -> by (apply Z.leb_le; by apply Compare_le).
    by repeat split.
  - compare_cases. destruct (IH _ _ Hp) as (from & a' & -> & ? & ? & ?); [unfold tsle, tslt in *; lia|done|].
    exists from, a'. repeat split; try done. set_solver.
Qed.

(** How far the consistent point of [b] is settled when the walk stands at [a]. *)
Definition pointReached (b : Base) (a : Timestamp) (w : Walk) : Prop :=
  wTermOK w = true \/ tslt a (otTS (bTAfter b)) \/
  match wChunks w with [] => True | c :: _ => tsle (otTS (bTAfter b)) (cFrom c) end.

(** If chunk [c] holds the consistent point of [b], it covers the point's term. *)
Definition termFine (b : Base) (c : Chunk) : Prop :=
  tslt (cFrom c) (otTS (bTAfter b)) -> tsle (otTS (bTAfter b)) (cTo c) ->
  otTerm (bTAfter b) = 0 \/ cFirstTerm c <= otTerm (bTAfter b) <= cLastTerm c.

Lemma walkChunk_complete b prev c w a :
  termFine b c -> cFrom c = a -> (∀ p, prev = Some p -> cTo p = a) -> usable c -> pointReached b a w ->
  ∃ w', walkChunk b prev c w = Ok w' /\ wChunks w' = wChunks w ++ [c] /\ pointReached b (cTo c) w' /\
    (tsle (otTS (bTAfter b)) (cTo c) -> wTermOK w' = true \/
       (Compare (otTS (bTAfter b)) (match wChunks w' with c :: _ => cFrom c | [] => zeroTS end) >? 0) = false).
Proof.
  intros Hterm <- Hprev [Hsha Hver] Hpt. unfold walkChunk.
  assert ((match prev with Some p => negb (bool_decide (cFrom c = cTo p)) | None => false end) = false) as ->.
  { destruct prev as [p|]; [|done]. by rewrite bool_decide_true by (symmetry; by apply Hprev). }
  unfold isEmpty. rewrite (bool_decide_false _ Hsha), (bool_decide_true _ Hver). simpl.
  set (h := negb (wTermOK w) && _ && _).
  assert (h && negb (otTerm (bTAfter b) =? 0)
          && ((otTerm (bTAfter b) <? cFirstTerm c) || (otTerm (bTAfter b) >? cLastTerm c)) = false) as ->.
  { destruct h eqn:Hh; [|done]. unfold h in Hh. compare_cases. destruct Hterm as [->|Hterm]; [done..|].
    rewrite (proj2 (Z.ltb_ge _ _)), Z.gtb_ltb, (proj2 (Z.ltb_ge _ _)) by lia. apply andb_false_r. }
  simpl.
  eexists. split; [done|]. split; [done|]. unfold pointReached in *. simpl.
  destruct (wTermOK w) eqn:Hw; simpl; [by auto|].
  assert (tsle (otTS (bTAfter b)) (cFrom c) -> match wChunks w ++ [c] with
            | [] => True | d :: _ => tsle (otTS (bTAfter b)) (cFrom d) end) as Hhd.
  { intros Hle. destruct (wChunks w) as [|d r]; simpl; [done|].
    destruct Hpt as [?|[?|?]]; [done|unfold tsle, tslt in *; lia|done]. }
  destruct h eqn:Hh; [by auto|]. unfold h in Hh. simpl in Hh.
  destruct (Compare (cFrom c) _ <? 0) eqn:E1; simpl in Hh; compare_cases.
  - split; [by auto|]. intros Hc. exfalso. unfold tsle, tslt in *. lia.
  - specialize (Hhd ltac:(by compare_cases)). split; [by auto|]. intros _. right.
    rewrite Z.gtb_ltb. apply Z.ltb_ge, Compare_le. by destruct (wChunks w).
Qed.

Lemma walk_complete b limit l : ∀ prev w a e,
  Forall (termFine b) l -> tslt (otTS (bTAfter b)) limit ->
  path a (span <$> l) e -> tslt a limit -> tsle limit e -> (∀ p, prev = Some p -> cTo p = a) ->
  Forall usable l -> pointReached b a w -> ∃ w', walk b limit prev l w = Ok w' /\ wChunks w' ⊆ wChunks w ++ l.
Proof.
  induction l as [|c l IH]; simpl; intros prev w a e Hterm Hlim Hp Ha He Hprev Hus Hpt.
  { subst. unfold tsle, tslt in *. lia. }
  destruct Hp as (-> & Hle & Hp). apply Forall_cons in Hus as [Hc Hus]. apply Forall_cons in Hterm as [Htc Hterm].
  destruct (walkChunk_complete b prev c w (cFrom c)) as (w1 & -> & Hch & Hpt1 & Hend); [done..|].
  destruct (Compare (cTo c) limit >=? 0) eqn:E; compare_cases.
  - exists w1. rewrite Hch. split; [|set_solver].
    destruct Hend as [->|Hf]; [unfold tsle, tslt in *; lia|done|].
    rewrite <- Hch. rewrite Hf, andb_false_r. done.
  - destruct (IH (Some c) w1 (cTo c) e) as (w' & -> & Hsub); try done; [by intros p [= <-]|].
    exists w'. split; [done|]. rewrite Hch in Hsub. set_solver.
Qed.

(** A chain whose live chunks lead from the base to past the limit has a plan. *)
Lemma planFrom_complete ch l b limit a e rest :
  path a (span <$> l) e -> tsle a (otTS (bTBefore b)) -> tsle (otTS (bTBefore b)) (otTS (bTAfter b)) ->
  tslt (otTS (bTAfter b)) limit -> tsle limit e -> Forall (termFine b) l -> Forall usable l ->
  ∃ plan, planFrom ((ch, l) :: rest) b limit = Ok plan /\ pBase plan = b /\ pChunks plan ⊆ l.
Proof.
  intros Hp Ha Hba Hal He Hterm Hus. simpl.
  destruct (startAt_complete (otTS (bTBefore b)) l a e) as (from & a' & -> & Hp' & Ha' & Hsub); [done..| |].
  { unfold tsle, tslt in *. lia. }
  destruct (walk_complete b limit from None (mkWalk [] 0 0 false) a' e) as (w & -> & Hw); try done.
  - apply Forall_forall. intros c Hc. rewrite Forall_forall in Hterm. by apply Hterm, Hsub.
  - unfold tsle, tslt in *. lia.
  - apply Forall_forall. intros c Hc. rewrite Forall_forall in Hus. by apply Hus, Hsub.
  - by right; right.
  - eexists. split; [done|]. split; [done|]. simpl. set_solver.
Qed.

(** Live chunks are what every other selection of their chain returns. *)
Lemma live_selection s c db l :
  ListChunks (allChunks s c) db = Ok l -> Forall (λ c, Live c = true) l ->
  ListChunks (mkQuery s c zeroTS zeroTS (Some ChunkCommitted) true) db = Ok l /\ filter Live l = l.
Proof.
  unfold ListChunks. simpl. destruct (_ || _); [done|]. intros [= <-] Hlive. rewrite Forall_forall in Hlive.
  split.
  - unfold selectBy. do 2 f_equal. apply list_filter_agree. intros x Hx.
    assert (chunkMatches (allChunks s c) x = true -> Live x = true) as Hl.
    { intros Hm. apply Hlive. unfold selectBy. apply elem_of_stable_sort, list_elem_of_filter.
      split; [by apply Is_true_true|done]. }
    rewrite !Is_true_true. unfold chunkMatches in *. simpl in *. unfold Live in Hl.
    rewrite !andb_true_r in *. destruct (_ && bool_decide (cChainID x = c)); simpl; [|done].
    specialize (Hl eq_refl). bool_cases. rewrite !bool_decide_true by done. by destruct (cStatus x).
  - assert (∀ l : list Chunk, (∀ x, x ∈ l -> Live x = true) -> filter Live l = l) as Hf; [|by apply Hf].
    induction l as [|x l IH]; intros Hx; [done|]. rewrite filter_cons_True.
    + f_equal. apply IH. set_solver.
    + apply Is_true_true, Hx. left.
Qed.

Lemma path_last a l e :
  path a (span <$> l) e -> a <> e -> ∃ c, last l = Some c /\ cTo c = e.
Proof.
  destruct (last l) as [c|] eqn:Hl.
  - intros Hp _. exists c. split; [done|]. apply last_Some in Hl as [l' ->]. revert a Hp.
    induction l' as [|d l' IH]; simpl; intros a; [tauto|]. intros (_ & _ & ?). by eapply IH.
  - apply last_None in Hl as ->. simpl. done.
Qed.

(** Completeness: with one chain, all of whose chunks are live, have a checksum
    and did not fail verification, and a key for everything, every target after the
    base's consistent point and up to the collector's position is restorable from a
    base the chain covers. *)
Theorem window_restorable ops st ch l pos b hasKey target limit :
  ListChains (sID st) (run ops emptyDB) = [ch] ->
  ListChunks (allChunks (sID st) (chChainID ch)) (run ops emptyDB) = Ok l ->
  Forall (λ c, Live c = true /\ usable c) l ->
  LoadState (sID st) (run ops emptyDB) = Ok pos -> stChainID pos = chChainID ch ->
  Limit target = Ok limit -> tsle limit (otTS (stLast pos)) ->
  tsle (chStart ch) (otTS (bTBefore b)) -> tslt zeroTS (otTS (bTBefore b)) ->
  tsle (otTS (bTBefore b)) (otTS (bTAfter b)) -> tslt (otTS (bTAfter b)) limit -> otTerm (bTAfter b) = 0 ->
  (∀ mode, hasKey mode = true) ->
  ∃ plan, PlanRestore (Some st) (run ops emptyDB) [b] (Some hasKey) target = Ok plan /\ pBase plan = b.
Proof.
  set (db := run ops emptyDB). assert (Inv db) as Hi by apply run_inv, emptyDB_inv.
  intros Hchains Hl Hall Hpos Hcur Hlimit Hle Hs0 Hz Hba Hal Hterm Hkey.
  apply Forall_and in Hall as [Hlive Hus].
  assert (dbChains db !! (sID st, chChainID ch) = Some ch) as Hrow.
  { assert (ch ∈ ListChains (sID st) db) as Hin by (rewrite Hchains; left). unfold ListChains, selectBy in Hin.
    apply elem_of_stable_sort, list_elem_of_filter in Hin as [Hs Hin]. apply Is_true_true in Hs. bool_cases.
    apply list_elem_of_fmap in Hin as ([[s0 c0] ch0] & -> & Hin%elem_of_map_to_list). simpl in *.
    destruct (inv_chain_key _ Hi _ _ _ Hin) as [E1 E2]. by rewrite <- Hs, E1, E2. }
  destruct (ListChunks_path _ _ _ _ _ Hi Hrow Hl) as (e & Hp & He). specialize (He _ Hpos Hcur). subst e.
  destruct (live_selection _ _ _ _ Hl Hlive) as [Hsel Hfil].
  unfold PlanRestore. rewrite Hlimit, Hchains. cbn [loadChains]. rewrite Hsel, Hfil.
  destruct (path_last _ _ _ Hp) as (c & Hlast & Hto).
  { intros E. rewrite E in Hs0. unfold tsle, tslt in *. lia. }
  unfold newestOf. simpl. rewrite Hlast, Hto.
  assert ((Compare (otTS (stLast pos)) zeroTS >? 0) = true) as ->.
  { rewrite Z.gtb_ltb. apply Z.ltb_lt, Compare_gt. unfold tsle, tslt in *. simpl in *. lia. }
  assert ((Compare limit (otTS (stLast pos)) >? 0) = false) as ->.
  { rewrite Z.gtb_ltb. apply Z.ltb_ge. by apply Compare_le. }
  rewrite filter_cons_True.
  2: { apply Is_true_true. unfold eligible. apply andb_true_iff. split; [by apply Z.ltb_lt, Compare_lt|].
       apply negb_true_iff. unfold tsIsZero, tslt in *. simpl in *. lia. }
  destruct (planFrom_complete ch l b limit (chStart ch) (otTS (stLast pos)) []) as (p & Hpl & Hpb & _); try done.
  { apply Forall_forall. intros c' _ _ _. by left. }
  cbn [filter list_filter stable_sort sinsert tryBases]. rewrite Hpl. set (q := mkPlan _ _ _ _ _ _ _ _ _).
  assert (∀ enc mode, missingKey (Some hasKey) enc mode = false) as Hk.
  { intros enc mode. unfold missingKey. rewrite Hkey. apply andb_false_r. }
  assert (checkKeys q (Some hasKey) = Ok tt) as ->.
  { unfold checkKeys. rewrite Hk. assert (existsb (λ ch, missingKey (Some hasKey) (cEncrypted ch) (cEncryptionMode ch)) (pChunks q) = false) as ->; [|done].
    induction (pChunks q); simpl; [done|]. by rewrite Hk. }
  by exists q.
Qed.

(** ** A concrete plan *)

Definition planOps : list op := take 5 demoOps.

Definition planBase (id : string) (before after : Z) (enc : bool) : Base :=
  mkBase id (mkOpTime (mkTS before 0) 3) (mkOpTime (mkTS after 0) 0) 1000 enc (if enc then "x25519" else "") 0.

Definition planTarget : Target := mkTarget 0 (Some (mkTS 260 0)).

(** Two bases before the target: the newer one is planned, over the three chunks. *)
Definition planDemo : result PitrErr RestorePlan :=
  PlanRestore (Some demoStream) (run planOps emptyDB) [planBase "b1" 110 120 false; planBase "b2" 150 160 false]
    None planTarget.

Definition planResult : RestorePlan :=
  mkPlan "s" "c1" (planBase "b2" 150 160 false)
    (committed 7 (demoChunk "k1" "o1" 100 200) :: committed 8 (demoChunk "k2" "o2" 200 200) ::
     [committed 9 (demoChunk "k3" "o3" 200 300)]) 3 300 3 (mkTS 260 0) (unix_time 260).

Lemma planDemo_Ok : planDemo = Ok planResult.
Proof. vm_compute. reflexivity. Qed.

Lemma plan_sound_witness :
  ReplaySpec (planBase "b2" 150 160 false) (mkTS 260 0) (pChunks planResult) /\
  eligible (mkTS 260 0) (pBase planResult) = true.
Proof.
  destruct (plan_sound planOps demoStream [planBase "b1" 110 120 false; planBase "b2" 150 160 false] None planTarget
    planResult planDemo_Ok) as (limit & chains & [= <-] & _ & _ & _ & _ & He & Hr & _).
  split; [exact Hr|exact He].
Defined.

Lemma fresh_plan_live_witness : CheckPlanLive (run planOps emptyDB) (Some planResult) = Ok tt.
Proof.
  apply (fresh_plan_live planOps demoStream [planBase "b1" 110 120 false; planBase "b2" 150 160 false] None planTarget
    planResult planDemo_Ok).
  repeat constructor; vm_compute; (discriminate || reflexivity).
Defined.

Lemma live_plan_sound_witness :
  ∃ r, dbChunks (run planOps emptyDB) !! "k2" = Some r /\ Live r = true /\ cStreamID r = "s" /\ cChainID r = "c1".
Proof.
  apply (live_plan_sound planOps planResult (committed 8 (demoChunk "k2" "o2" 200 200))).
  - vm_compute. reflexivity.
  - right. left.
Defined.

Lemma window_restorable_witness :
  ∃ plan, PlanRestore (Some demoStream) (run planOps emptyDB) [planBase "b1" 110 120 true] (Some (λ _, true))
            planTarget = Ok plan /\ pBase plan = planBase "b1" 110 120 true.
Proof.
  apply (window_restorable planOps demoStream demoChain
    (committed 7 (demoChunk "k1" "o1" 100 200) :: committed 8 (demoChunk "k2" "o2" 200 200) ::
     [committed 9 (demoChunk "k3" "o3" 200 300)])
    (mkPState "s" "c1" (mkOpTime (mkTS 300 1) 3) CollectorRunning "" None None "" (stored 9))
    (planBase "b1" 110 120 true) (λ _, true) planTarget (mkTS 260 0));
    try (vm_compute; reflexivity).
  - repeat constructor; vm_compute; (reflexivity || discriminate).
  - left. reflexivity.
  - left. reflexivity.
  - left. reflexivity.
  - left. reflexivity.
  - left. reflexivity.
Defined.

(** A missing key hides older bases. The newest base before the target has a
    plan but no key, an older base with a plan needs none, and the planner refuses the
    target although the comment of [PlanRestore] makes a configured key one of the
    conditions of the base it chooses. *)
Theorem key_missing_hides_older_base :
  PlanRestore (Some demoStream) (run planOps emptyDB) [planBase "b1" 110 120 false; planBase "b2" 150 160 true]
    None planTarget = Err ErrKeyMissing /\
  is_ok (PlanRestore (Some demoStream) (run planOps emptyDB) [planBase "b1" 110 120 false] None planTarget) = true.
Proof. split; vm_compute; reflexivity. Qed.
