(* ===== verification/Backup.v ===== *)
(** * Backup records and their copies (src/internal/models/backup.go, copy.go)

    The life of a backup record after its run: soft deletion with a grace period,
    undeletion, the purge's condition, S3 Object Lock, and the copies of its archive
    on other storage targets. The record has the fields these operations and the
    retention read or write, grouped as the code groups their updates. *)

From S2P Require Import Prelude.

Inductive BackupStatus : Type :=
| StatusNone
| StatusPending
| StatusInProgress
| StatusCompleted
| StatusFailed
| StatusPruned
| StatusCancelled
| StatusSkipped
| StatusMissing
| StatusDeleted
| StatusPurged.

#[global] Instance BackupStatus_eq_dec : EqDecision BackupStatus.
Proof. solve_decision. Defined.

(** [BackupStatus.Deleted]. *)
Definition statusDeleted (st : BackupStatus) : bool :=
  bool_decide (st = StatusDeleted) || bool_decide (st = StatusPurged).

Inductive BackupTrigger : Type :=
| TriggerNone | TriggerScheduled | TriggerOnDemand | TriggerManual | TriggerMCP.

#[global] Instance BackupTrigger_eq_dec : EqDecision BackupTrigger.
Proof. solve_decision. Defined.

Inductive VerificationStatus : Type :=
| VerificationNone | VerificationOK | VerificationMismatch | VerificationError.

#[global] Instance VerificationStatus_eq_dec : EqDecision VerificationStatus.
Proof. solve_decision. Defined.

Inductive BackupScope : Type := ScopeDatabase | ScopeInstance.

#[global] Instance BackupScope_eq_dec : EqDecision BackupScope.
Proof. solve_decision. Defined.

Inductive CopyMode : Type := CopyModeNone | CopyAsync | CopySync | CopyModeOther (s : string).

#[global] Instance CopyMode_eq_dec : EqDecision CopyMode.
Proof. solve_decision. Defined.

(** [CopyMode.Valid]. *)
Definition copyModeValid (m : CopyMode) : bool :=
  match m with CopyModeNone | CopyAsync | CopySync => true | CopyModeOther _ => false end.

Inductive CopyStatus : Type := CopyPending | CopyDone | CopyFailed | CopyPurged.

#[global] Instance CopyStatus_eq_dec : EqDecision CopyStatus.
Proof. solve_decision. Defined.

(** Where an object is stored, with its version and Object Lock. *)
Record Stored : Type := mkStored {
  TargetID : string;
  TargetName : string;
  StorageKey : string;
  VersionID : string;
  ObjectLockMode : string;
  RetainUntil : option Z
}.

(** What storage reports of a written object ([StorageObject]). *)
Record StorageObject : Type := mkObject {
  oVersionID : string;
  oObjectLockMode : string;
  oRetainUntil : option Z
}.

Record Verified : Type := mkVerified {
  VerifiedAt : option Z;
  Verification : VerificationStatus;
  VerificationErr : string
}.

Definition notVerified : Verified := mkVerified None VerificationNone "".

Record BackupCopy : Type := mkCopy {
  cpAt : Stored;
  cpStatus : CopyStatus;
  cpSHA256OK : bool;
  cpSHA256 : string;
  cpError : string;
  cpWritten : bool;
  cpCopiedAt : option Z;
  cpAttempts : Z;
  cpNextAttemptAt : option Z;
  cpVerified : Verified;
  cpPurgedAt : option Z
}.

(** The identity of a backup, which no operation changes. *)
Record Ident : Type := mkIdent {
  ID : string;
  JobID : string;
  Trigger : BackupTrigger;
  Database : string;
  ConnectionID : string;
  Scope : BackupScope;
  StartedAt : Z
}.

(** The fields of a deletion. *)
Record Deletion : Type := mkDeletion {
  DeletedAt : option Z;
  DeletedBy : string;
  DeleteApprovedBy : string;
  DeleteReason : string;
  PurgeAfter : option Z;
  StatusBeforeDelete : BackupStatus;
  PurgedAt : option Z
}.

Definition notDeleted : Deletion := mkDeletion None "" "" "" None StatusNone None.

(** The outcome of a run. *)
Record Outcome : Type := mkOutcome {
  CompletedAt : option Z;
  ErrorMessage : string;
  MissingSince : option Z;
  ArchiveCleanupPending : bool
}.

Record BackupRecord : Type := mkRecord {
  rIdent : Ident;
  rStatus : BackupStatus;
  rStored : Stored;
  rSHA256 : string;
  rOutcome : Outcome;
  rVerified : Verified;
  rPinned : bool;
  rLegalHold : bool;
  rDeletion : Deletion;
  rCopies : list BackupCopy;
  rCopyMode : CopyMode
}.

Definition rID (r : BackupRecord) : string := ID (rIdent r).

Definition withStatus (s : BackupStatus) (d : Deletion) (r : BackupRecord) : BackupRecord :=
  mkRecord (rIdent r) s (rStored r) (rSHA256 r) (rOutcome r) (rVerified r) (rPinned r) (rLegalHold r) d
    (rCopies r) (rCopyMode r).
Definition withOutcome (o : Outcome) (r : BackupRecord) : BackupRecord :=
  mkRecord (rIdent r) (rStatus r) (rStored r) (rSHA256 r) o (rVerified r) (rPinned r) (rLegalHold r) (rDeletion r)
    (rCopies r) (rCopyMode r).
Definition withCopies (l : list BackupCopy) (m : CopyMode) (r : BackupRecord) : BackupRecord :=
  mkRecord (rIdent r) (rStatus r) (rStored r) (rSHA256 r) (rOutcome r) (rVerified r) (rPinned r) (rLegalHold r)
    (rDeletion r) l m.
Definition withStored (s : Stored) (r : BackupRecord) : BackupRecord :=
  mkRecord (rIdent r) (rStatus r) s (rSHA256 r) (rOutcome r) (rVerified r) (rPinned r) (rLegalHold r) (rDeletion r)
    (rCopies r) (rCopyMode r).

(** ** Deletion *)

Record SoftDelete : Type := mkSoftDelete {
  sdAt : Z;
  sdPurgeAfter : Z;
  sdBy : string;
  sdApprovedBy : string;
  sdReason : string
}.

Definition MarkDeleted (d : SoftDelete) (r : BackupRecord) : BackupRecord :=
  withStatus StatusDeleted
    (mkDeletion (Some (sdAt d)) (sdBy d) (sdApprovedBy d) (sdReason d) (Some (sdPurgeAfter d)) (rStatus r) None) r.

Definition Undelete (r : BackupRecord) : BackupRecord :=
  let prev := StatusBeforeDelete (rDeletion r) in
  let prev := if bool_decide (prev = StatusNone) || statusDeleted prev then StatusCompleted else prev in
  withStatus prev notDeleted r.

(** [BackupCopy.LockedAt]. *)
Definition copyLockedAt (now : Z) (c : BackupCopy) : bool :=
  negb (bool_decide (cpStatus c = CopyPurged)) &&
  match RetainUntil (cpAt c) with Some u => now <? u | None => false end.

Definition LockedAt (now : Z) (r : BackupRecord) : bool :=
  (match RetainUntil (rStored r) with Some u => now <? u | None => false end) || existsb (copyLockedAt now) (rCopies r).

Definition PurgeDue (now grace : Z) (r : BackupRecord) : bool :=
  match DeletedAt (rDeletion r), PurgeAfter (rDeletion r) with
  | Some deleted, Some purgeAfter =>
      if negb (bool_decide (rStatus r = StatusDeleted)) || rPinned r || LockedAt now r then false
      else
        let byGrace := deleted + grace in
        let end_ := if byGrace >? purgeAfter then byGrace else purgeAfter in
        negb (now <? end_)
  | _, _ => false
  end.

(** [SetStorageObject] of a record and of a copy. *)
Definition storedObject (obj : option StorageObject) (s : Stored) : Stored :=
  match obj with
  | None => s
  | Some o =>
      match oRetainUntil o with
      | None => mkStored (TargetID s) (TargetName s) (StorageKey s) (oVersionID o) (ObjectLockMode s) (RetainUntil s)
      | Some u => mkStored (TargetID s) (TargetName s) (StorageKey s) (oVersionID o) (oObjectLockMode o) (Some u)
      end
  end.

Definition SetStorageObject (obj : option StorageObject) (r : BackupRecord) : BackupRecord :=
  withStored (storedObject obj (rStored r)) r.

Definition InstanceScope (r : BackupRecord) : bool := bool_decide (Scope (rIdent r) = ScopeInstance).

Definition EffectiveTrigger (r : BackupRecord) : BackupTrigger :=
  if negb (bool_decide (Trigger (rIdent r) = TriggerNone)) then Trigger (rIdent r)
  else if negb (bool_decide (JobID (rIdent r) = "")) then TriggerScheduled
  else TriggerManual.

(** ** Copies *)

Definition MaxCopyTargets : nat := 3.

Definition Healthy (c : BackupCopy) : bool :=
  bool_decide (cpStatus c = CopyDone) && negb (bool_decide (Verification (cpVerified c) = VerificationMismatch)).

Definition MayExist (c : BackupCopy) : bool :=
  match cpStatus c with
  | CopyDone | CopyPending => true
  | CopyPurged => false
  | CopyFailed => negb (bool_decide (RetainUntil (cpAt c) = None)) || cpWritten c
  end.

Definition RecordFailure (msg : string) (obj : option StorageObject) (c : BackupCopy) : BackupCopy :=
  mkCopy (storedObject obj (cpAt c)) CopyFailed false (cpSHA256 c) msg
    (match obj with Some _ => true | None => cpWritten c end)
    (cpCopiedAt c) (cpAttempts c) (cpNextAttemptAt c) (cpVerified c) (cpPurgedAt c).

Definition AtCopy (c : BackupCopy) (r : BackupRecord) : BackupRecord :=
  let o := rOutcome r in
  let missing := bool_decide (rStatus r = StatusMissing) in
  mkRecord (rIdent r) (if missing then StatusCompleted else rStatus r) (cpAt c) (rSHA256 r)
    (if missing then mkOutcome (CompletedAt o) (ErrorMessage o) None (ArchiveCleanupPending o) else o)
    (cpVerified c) (rPinned r) (rLegalHold r) (rDeletion r) (rCopies r) (rCopyMode r).

(** [strings.EqualFold] on the hexadecimal checksums it is called with. *)
Definition lowerByte (a : Ascii.ascii) : Ascii.ascii :=
  if byteIn 65 90 a then Ascii.ascii_of_N (Ascii.N_of_ascii a + 32) else a.

Fixpoint lowerString (s : string) : string :=
  match s with EmptyString => EmptyString | String a s => String (lowerByte a) (lowerString s) end.

Definition EqualFold (s t : string) : bool := bool_decide (lowerString s = lowerString t).

Definition CopyUsable (r : BackupRecord) (c : option BackupCopy) : bool :=
  match c with
  | None => false
  | Some c => Healthy c && negb (bool_decide (rSHA256 r = "")) && EqualFold (cpSHA256 c) (rSHA256 r)
  end.

(** A copy that was not made yet. *)
Definition pendingCopy (target name key : string) : BackupCopy :=
  mkCopy (mkStored target name key "" "" None) CopyPending false "" "" false None 0 None notVerified None.

Definition RequeueCopies (key : string) (r : BackupRecord) : BackupRecord :=
  withCopies ((λ c, if bool_decide (cpStatus c = CopyPurged) then c
                    else pendingCopy (TargetID (cpAt c)) (TargetName (cpAt c)) key) <$> rCopies r) (rCopyMode r) r.

Definition ErrNotCopied : string := "not copied: the backup did not complete".

Definition abandonCopy (c : BackupCopy) : BackupCopy :=
  if bool_decide (cpStatus c = CopyPending)
  then mkCopy (cpAt c) CopyFailed (cpSHA256OK c) (cpSHA256 c) ErrNotCopied (cpWritten c) (cpCopiedAt c)
         (cpAttempts c) None (cpVerified c) (cpPurgedAt c)
  else c.

Definition AbandonCopies (r : BackupRecord) : BackupRecord :=
  let o := rOutcome r in
  let made := existsb (λ c, negb (bool_decide (cpStatus c = CopyPending)) && MayExist c) (rCopies r) in
  withOutcome (mkOutcome (CompletedAt o) (ErrorMessage o) (MissingSince o) (ArchiveCleanupPending o || made))
    (withCopies (abandonCopy <$> rCopies r) (rCopyMode r) r).

Definition retryCopy (c : BackupCopy) : BackupCopy :=
  if bool_decide (cpStatus c = CopyFailed)
  then mkCopy (cpAt c) CopyPending (cpSHA256OK c) (cpSHA256 c) (cpError c) (cpWritten c) (cpCopiedAt c) 0 None
         (cpVerified c) (cpPurgedAt c)
  else c.

Definition RetryCopies (r : BackupRecord) : BackupRecord * bool :=
  (withCopies (retryCopy <$> rCopies r) (rCopyMode r) r,
   existsb (λ c, bool_decide (cpStatus c = CopyFailed)) (rCopies r)).

Definition Exhausted (c : BackupCopy) : bool :=
  bool_decide (cpStatus c = CopyFailed) && bool_decide (cpNextAttemptAt c = None).

Inductive CopyTargetsErr : Type := EmptyTarget | PrimaryTarget | TooManyTargets.

(** The loop of [NormalizeCopyTargets]; [out] is the list so far, in reverse. *)
Fixpoint normalizeLoop (primary : string) (ids out : list string) : result CopyTargetsErr (list string) :=
  match ids with
  | [] => Ok (reverse out)
  | id :: rest =>
      let id := TrimSpace id in
      if bool_decide (id = "") then Err EmptyTarget
      else if negb (bool_decide (primary = "")) && bool_decide (id = primary) then Err PrimaryTarget
      else if bool_decide (id ∈ out) then normalizeLoop primary rest out
      else normalizeLoop primary rest (id :: out)
  end.

Definition NormalizeCopyTargets (ids : list string) (primary : string) : result CopyTargetsErr (list string) :=
  match normalizeLoop primary ids [] with
  | Err e => Err e
  | Ok out => if Nat.ltb MaxCopyTargets (length out) then Err TooManyTargets else Ok out
  end.

Definition PlanCopies (copies : list (string * string)) (mode : CopyMode) (r : BackupRecord) : BackupRecord :=
  match copies with
  | [] => r
  | _ => withCopies ((λ '(id, name), pendingCopy id name (StorageKey (rStored r))) <$> copies)
           (if bool_decide (mode = CopyModeNone) then CopyAsync else mode) r
  end.

(** [BackupRecord.Copy]. *)
Definition findCopy (targetID : string) (r : BackupRecord) : option BackupCopy :=
  head (filter (λ c, TargetID (cpAt c) = targetID) (rCopies r)).

Definition DoneCopies (r : BackupRecord) : nat := length (filter (λ c, cpStatus c = CopyDone) (rCopies r)).

Definition CopiesComplete (r : BackupRecord) : bool := Nat.eqb (DoneCopies r) (length (rCopies r)).

Definition HoldsTarget (id : string) (r : BackupRecord) : bool :=
  bool_decide (TargetID (rStored r) = id) ||
  existsb (λ c, bool_decide (TargetID (cpAt c) = id) && MayExist c) (rCopies r).

(** ** A record that could not be saved *)

Definition ErrRecordNotSaved : string := "the backup record could not be saved".
Definition ArchiveKeptNote : string := "; the archive was kept".

Definition FailUnsaved (cause : string) (now : Z) (r : BackupRecord) : BackupRecord :=
  let o := rOutcome r in
  let kept := bool_decide (rStatus r = StatusCompleted) && negb (bool_decide (StorageKey (rStored r) = "")) in
  let msg :=
    if String.prefix ErrRecordNotSaved (ErrorMessage o) then ErrorMessage o
    else ErrRecordNotSaved +:+ (if bool_decide (cause = "") then "" else " (data disk full: " +:+ cause +:+ ")")
           +:+ (if kept then ArchiveKeptNote else "")
           +:+ (if bool_decide (ErrorMessage o = "") then "" else "; the run itself ended with: " +:+ ErrorMessage o) in
  let status := if bool_decide (rStatus r = StatusCancelled) then StatusCancelled else StatusFailed in
  let o := mkOutcome (Some (default now (CompletedAt o))) msg (MissingSince o) (ArchiveCleanupPending o) in
  let r := withOutcome o (withStatus status (rDeletion r) r) in
  let pending := ArchiveCleanupPending o in
  let r := AbandonCopies r in
  if kept then withOutcome (mkOutcome (CompletedAt (rOutcome r)) (ErrorMessage (rOutcome r))
                              (MissingSince (rOutcome r)) pending) r
  else r.

(** ** Deletion *)

(** Undeleting a deleted backup gives back the record as it was before. *)
Theorem delete_undelete d r :
  rStatus r <> StatusNone -> statusDeleted (rStatus r) = false -> rDeletion r = notDeleted ->
  Undelete (MarkDeleted d r) = r.
Proof.
  intros Hn Hd Hdel. unfold Undelete, MarkDeleted. simpl. rewrite Hd, bool_decide_false by done. simpl.
  destruct r; simpl in *. by subst.
Qed.

Definition demoRecord : BackupRecord :=
  mkRecord (mkIdent "b1" "job" TriggerScheduled "db" "conn" ScopeDatabase 100) StatusCompleted
    (mkStored "t1" "local" "db/b1.archive" "" "" None) "aa" (mkOutcome (Some 110) "" None false)
    (mkVerified (Some 120) VerificationOK "") false false notDeleted
    [pendingCopy "t2" "s3" "db/b1.archive"] CopyAsync.

Lemma delete_undelete_witness : Undelete (MarkDeleted (mkSoftDelete 5 9 "alice" "" "test") demoRecord) = demoRecord.
Proof. apply (delete_undelete _ demoRecord); (discriminate || reflexivity). Defined.

(** The lock of a stored object has ended at [now]. *)
Definition lockEnded (now : Z) (s : Stored) : Prop := ∀ u, RetainUntil s = Some u -> u <= now.

Lemma lock_test now s :
  (match RetainUntil s with Some u => now <? u | None => false end) = false <-> lockEnded now s.
Proof.
  unfold lockEnded. destruct (RetainUntil s) as [u|]; [|done]. rewrite Z.ltb_ge. split; [by intros ? ? [= <-]|auto].
Qed.

(** The purge's condition. A deleted backup is due exactly when it is not
    pinned, its recorded grace period and the one in force (counted from the
    deletion) have both ended, and neither its archive nor a copy that is not purged
    is under Object Lock. So raising the grace period only delays the purge. *)
Theorem PurgeDue_exact now grace r :
  PurgeDue now grace r = true <->
  rStatus r = StatusDeleted /\ rPinned r = false /\
  (∃ deleted purgeAfter, DeletedAt (rDeletion r) = Some deleted /\ PurgeAfter (rDeletion r) = Some purgeAfter /\
     purgeAfter <= now /\ deleted + grace <= now) /\
  lockEnded now (rStored r) /\ (∀ c, c ∈ rCopies r -> cpStatus c <> CopyPurged -> lockEnded now (cpAt c)).
Proof.
  assert (LockedAt now r = false <->
    lockEnded now (rStored r) /\ (∀ c, c ∈ rCopies r -> cpStatus c <> CopyPurged -> lockEnded now (cpAt c))) as Hlock.
  { unfold LockedAt. rewrite orb_false_iff, lock_test. apply and_iff_compat_l.
    rewrite <- not_true_iff_false, existsb_exists. split.
    - intros Hno c Hc Hp. apply lock_test. apply not_true_iff_false. intros Hl. apply Hno. exists c.
      split; [by apply list_elem_of_In|]. unfold copyLockedAt. by rewrite Hl, bool_decide_false.
    - intros Hall (c & Hc%list_elem_of_In & Hl). unfold copyLockedAt in Hl. bool_cases.
      apply (Hall c Hc) in H. apply lock_test in H. congruence. }
  rewrite <- Hlock. unfold PurgeDue.
  destruct (DeletedAt (rDeletion r)) as [d|]; [|split; [done|by intros (_ & _ & (? & ? & ? & _) & _)]].
  destruct (PurgeAfter (rDeletion r)) as [p|]; [|split; [done|by intros (_ & _ & (? & ? & _ & ? & _) & _)]].
  destruct (bool_decide (rStatus r = StatusDeleted)) eqn:Hs; bool_cases; simpl; [|split; [done|tauto]].
  destruct (rPinned r); simpl; [split; [done|by intros (_ & ? & _)]|].
  destruct (LockedAt now r); [split; [done|by intros (_ & _ & _ & ?)]|].
  rewrite negb_true_iff, Z.ltb_ge. split.
  - intros Hle. do 2 (split; [done|]). split; [|done]. exists d, p. do 2 (split; [done|]).
    destruct (d + grace >? p) eqn:E; lia.
  - intros (_ & _ & (? & ? & [= <-] & [= <-] & ? & ?) & _). destruct (d + grace >? p) eqn:E; lia.
Qed.

(** ** Copies *)

(** Settling the copies of a failed backup leaves none pending, and when an
    object of a copy may still exist the record is marked for cleanup, so the purge
    looks for it. *)
Theorem AbandonCopies_settles r :
  Forall (λ c, cpStatus c <> CopyPending) (rCopies (AbandonCopies r)) /\
  (Exists (λ c, cpStatus c <> CopyPending /\ MayExist c = true) (rCopies r) ->
   ArchiveCleanupPending (rOutcome (AbandonCopies r)) = true) /\
  (ArchiveCleanupPending (rOutcome r) = true -> ArchiveCleanupPending (rOutcome (AbandonCopies r)) = true).
Proof.
  split; [|split].
  - simpl. apply Forall_fmap, Forall_forall. intros c _. simpl. unfold abandonCopy.
    destruct (bool_decide (cpStatus c = CopyPending)) eqn:E; bool_cases; done.
  - intros (c & Hc & Hp & Hm)%Exists_exists. simpl. apply orb_true_iff. right. apply existsb_exists. exists c.
    split; [by apply list_elem_of_In|]. by rewrite Hm, bool_decide_false.
  - intros Hp. simpl. by rewrite Hp.
Qed.

(** A re-encryption leaves no stale copy readable: after [RequeueCopies] no copy
    can be used in place of the archive, whatever it was before. *)
Lemma RequeueCopies_none_usable key r c :
  c ∈ rCopies (RequeueCopies key r) -> CopyUsable (RequeueCopies key r) (Some c) = false.
Proof.
  simpl. intros (c0 & -> & _)%list_elem_of_fmap.
  assert (Healthy (if bool_decide (cpStatus c0 = CopyPurged) then c0
                   else pendingCopy (TargetID (cpAt c0)) (TargetName (cpAt c0)) key) = false) as ->; [|done].
  destruct (bool_decide (cpStatus c0 = CopyPurged)) eqn:E; bool_cases; [|done]. unfold Healthy. by rewrite E.
Qed.

Lemma normalizeLoop_Ok primary ids : ∀ out l,
  normalizeLoop primary ids out = Ok l -> NoDup out ->
  NoDup l /\ (∀ x, x ∈ l <-> x ∈ out \/ x ∈ TrimSpace <$> ids) /\
  ∀ id, id ∈ ids -> TrimSpace id <> "" /\ (primary <> "" -> TrimSpace id <> primary).
Proof.
  induction ids as [|id ids IH]; intros out l; simpl.
  - intros [= <-] Hnd. split; [by rewrite reverse_Permutation|]. split; [|by intros ? ?%elem_of_nil].
    intros x. rewrite elem_of_reverse. set_solver.
  - destruct (bool_decide (TrimSpace id = "")) eqn:E1; [done|]. bool_cases.
    destruct (negb _ && _) eqn:E2; [done|].
    assert (primary <> "" -> TrimSpace id <> primary) as Hp.
    { intros Hne Heq. by rewrite (bool_decide_false (primary = "")), bool_decide_true in E2. }
    assert (∀ out', normalizeLoop primary ids out' = Ok l -> NoDup out' ->
              (∀ x, x ∈ out' <-> x ∈ out \/ x = TrimSpace id) -> NoDup l /\
              (∀ x, x ∈ l <-> x ∈ out \/ x ∈ TrimSpace id :: (TrimSpace <$> ids)) /\
              ∀ i, i ∈ id :: ids -> TrimSpace i <> "" /\ (primary <> "" -> TrimSpace i <> primary)) as Hgo.
    { intros out' Hl Hnd Hout. destruct (IH _ _ Hl Hnd) as (? & Hin & Hall). split; [done|]. split.
      - intros x. rewrite Hin, Hout, elem_of_cons. tauto.
      - intros i [->|Hi]%elem_of_cons; auto. }
    destruct (bool_decide (TrimSpace id ∈ out)) eqn:E3; bool_cases; intros Hl Hnd; apply (Hgo _ Hl).
    + done.
    + intros x. split; [auto|]. by intros [?| ->].
    + by constructor.
    + intros x. rewrite elem_of_cons. tauto.
Qed.

(** Normalized copy targets are the trimmed targets asked for, without
    repetition, at most three, none empty and none the primary target. *)
Lemma NormalizeCopyTargets_Ok ids primary out :
  NormalizeCopyTargets ids primary = Ok out ->
  NoDup out /\ (length out <= MaxCopyTargets)%nat /\ (∀ x, x ∈ out <-> x ∈ TrimSpace <$> ids) /\
  "" ∉ out /\ (primary <> "" -> primary ∉ out).
Proof.
  unfold NormalizeCopyTargets. destruct (normalizeLoop primary ids []) as [l|] eqn:Hl; [|done].
  destruct (Nat.ltb MaxCopyTargets (length l)) eqn:Hlen; [done|]. intros [= <-].
  destruct (normalizeLoop_Ok _ _ _ _ Hl (NoDup_nil_2)) as (Hnd & Hin & Hall).
  assert (∀ x, x ∈ l <-> x ∈ TrimSpace <$> ids) as Hin' by (intros x; rewrite Hin; set_solver).
  split; [done|]. split; [by apply Nat.ltb_ge in Hlen|]. split; [done|].
  split; [|intros Hne]; rewrite Hin'; intros (i & Heq & Hi)%list_elem_of_fmap; apply Hall in Hi as [H1 H2]; [done|].
  by apply H2 in Hne.
Qed.

