(* ===== verification/Retention.v ===== *)
(** * Retention (src/internal/scheduler/retention.go, store/integrity.go)

    The plan of a retention policy over the backups of a job, and the transaction that
    deletes one planned backup after checking it again. *)

From S2P Require Import Prelude Backup.

Definition MinCountPruneAge : Z := 24 * hour.

Inductive RetentionReason : Type := RetentionMaxAge | RetentionMaxCount.

Inductive ProtectedReason : Type := ProtectedPinned | ProtectedLastVerified.

Record RetentionDecision : Type := mkDecision {
  dBackup : BackupRecord;
  dReason : RetentionReason;
  dDetail : string
}.

Record ProtectedBackup : Type := mkProtected { prBackupID : string; prReason : ProtectedReason }.

Record DatabaseRetention : Type := mkDbRetention {
  drDatabase : string;
  drConsidered : nat;
  drDelete : nat;
  drProtected : nat;
  drKept : nat;
  drLastGood : string
}.

Record RetentionPlan : Type := mkRPlan {
  rpDelete : list RetentionDecision;
  rpProtected : list ProtectedBackup;
  rpConsidered : nat;
  rpDatabases : list DatabaseRetention
}.

Definition startedAt (r : BackupRecord) : Z := StartedAt (rIdent r).
Definition database (r : BackupRecord) : string := Database (rIdent r).

(** ** The plan of one database *)

(** The rule that selects a backup, if any; the cutoff is [now.AddDate(0, 0, -days)]
    of a UTC time, where a day has 24 hours. *)
Definition selects (now days count : Z) (r : BackupRecord) : option RetentionDecision :=
  if (days >? 0) && (startedAt r <? now - days * day)
  then Some (mkDecision r RetentionMaxAge ("older than " +:+ pretty days +:+ " days"))
  else if (count >? 0) && (time_sub now (startedAt r) >=? MinCountPruneAge)
  then Some (mkDecision r RetentionMaxCount ("beyond the " +:+ pretty count +:+ " newest backups"))
  else None.

Definition newerFirst (a b : BackupRecord) : bool := startedAt b <? startedAt a.

(** The ID of the first verified backup, or the empty string. *)
Fixpoint lastVerified (l : list BackupRecord) : string :=
  match l with
  | [] => ""
  | r :: l => if bool_decide (Verification (rVerified r) = VerificationOK) then rID r else lastVerified l
  end.

(** The loop over the backups beyond the floor. *)
Fixpoint planLoop (now days count : Z) (verified : string) (l : list BackupRecord)
  : list RetentionDecision * list ProtectedBackup :=
  match l with
  | [] => ([], [])
  | r :: l =>
      let '(del, prot) := planLoop now days count verified l in
      match selects now days count r with
      | None => (del, prot)
      | Some d =>
          if rPinned r then (del, mkProtected (rID r) ProtectedPinned :: prot)
          else if bool_decide (rID r = verified) then (del, mkProtected (rID r) ProtectedLastVerified :: prot)
          else (d :: del, prot)
      end
  end.

(** [planDatabase]: the backups newest first, the deletions oldest first and the
    protected backups. *)
Definition planDatabase (now days count : Z) (successful : list BackupRecord)
  : list BackupRecord * list RetentionDecision * list ProtectedBackup :=
  let successful := stable_sort newerFirst successful in
  let floor := Z.to_nat (Z.max count 1) in
  let '(del, prot) := planLoop now days count (lastVerified successful)
                        (drop (Nat.min floor (length successful)) successful) in
  (successful, reverse del, prot).

(** ** The plan of a job *)

Definition considered (r : BackupRecord) : bool :=
  bool_decide (rStatus r = StatusCompleted) && bool_decide (EffectiveTrigger r = TriggerScheduled)
  && negb (InstanceScope r).

Definition group (name : string) (records : list BackupRecord) : list BackupRecord :=
  filter (λ r, considered r && bool_decide (database r = name)) records.

(** The databases of the considered backups, sorted. *)
Definition databaseNames (records : list BackupRecord) : list string :=
  stable_sort (cmpLess strCmp) (remove_dups (database <$> filter considered records)).

Definition olderFirst (a b : RetentionDecision) : bool := startedAt (dBackup a) <? startedAt (dBackup b).

(** One turn of the loop over the databases. *)
Definition addDatabase (now days count : Z) (records : list BackupRecord) (plan : RetentionPlan) (name : string)
  : RetentionPlan :=
  let '(successful, del, prot) := planDatabase now days count (group name records) in
  mkRPlan (rpDelete plan ++ del) (rpProtected plan ++ prot) (rpConsidered plan + length successful)
    (rpDatabases plan ++ [mkDbRetention name (length successful) (length del) (length prot)
       (length successful - length del) (match successful with r :: _ => rID r | [] => "" end)]).

Definition PlanRetention (now days count : Z) (records : list BackupRecord) : RetentionPlan :=
  if (days <=? 0) && (count <=? 0) then mkRPlan [] [] 0 []
  else
    let plan := foldl (addDatabase now days count records) (mkRPlan [] [] 0 []) (databaseNames records) in
    mkRPlan (stable_sort olderFirst (rpDelete plan)) (rpProtected plan) (rpConsidered plan) (rpDatabases plan).

(** The records a job's retention applies to. *)
Definition JobRetentionHistory (jobID connectionID targetID : string) (records : list BackupRecord)
  : list BackupRecord :=
  filter (λ r, bool_decide (JobID (rIdent r) = jobID) && bool_decide (EffectiveTrigger r = TriggerScheduled)
    && negb (InstanceScope r) && bool_decide (ConnectionID (rIdent r) = connectionID)
    && bool_decide (TargetID (rStored r) = targetID)) records.

(** ** Deleting a planned backup *)

(** A row of the backups table: its indexed columns and its record, [None] when the
    stored JSON does not decode. *)
Record Row : Type := mkRow {
  colJobID : string;
  colDatabase : string;
  colStatus : BackupStatus;
  colData : option BackupRecord
}.

(** [putBackup]: the row of a record. *)
Definition putBackup (r : BackupRecord) : Row := mkRow (JobID (rIdent r)) (database r) (rStatus r) (Some r).

(** The backups table, by ID. *)
Abbreviation Backups := (gmap string Row).

Inductive PruneErr : Type := PruneNotFound | PruneCorrupt | PruneInvalid | ErrPruneRefused.

(** A newer verified backup of the same job, database, connection, target and trigger. *)
Definition newerSibling (r o : BackupRecord) : bool :=
  negb (bool_decide (rID o = rID r)) && bool_decide (Verification (rVerified o) = VerificationOK)
  && (startedAt r <? startedAt o) && bool_decide (ConnectionID (rIdent o) = ConnectionID (rIdent r))
  && bool_decide (TargetID (rStored o) = TargetID (rStored r))
  && bool_decide (EffectiveTrigger o = EffectiveTrigger r).

(** The rows of the completed backups of [r]'s job and database. *)
Definition siblings (r : BackupRecord) (db : Backups) : list (option BackupRecord) :=
  colData <$> filter (λ o, bool_decide (colJobID o = JobID (rIdent r)) && bool_decide (colDatabase o = database r)
    && bool_decide (colStatus o = StatusCompleted)) (map_to_list db).*2.

(** [PruneBackupRecord] with a mark. *)
Definition PruneBackupRecord (id : string) (mark : BackupRecord -> BackupRecord) (db : Backups)
  : Backups * result PruneErr BackupRecord :=
  match db !! id with
  | None => (db, Err PruneNotFound)
  | Some row =>
      match colData row with
      | None => (db, Err PruneCorrupt)
      | Some r =>
          let sib := siblings r db in
          if rPinned r then (db, Err ErrPruneRefused)
          else if negb (bool_decide (rStatus r = StatusCompleted)) then (db, Err ErrPruneRefused)
          else if bool_decide (Verification (rVerified r) = VerificationOK)
                  && negb (bool_decide (JobID (rIdent r) = ""))
                  && (existsb (λ o, match o with None => true | Some _ => false end) sib || negb (existsb (newerSibling r) (omap (λ x, x) sib)))
          then (db, Err ErrPruneRefused)
          else if negb (bool_decide (rID (mark r) = id)) then (db, Err PruneInvalid)
          else (<[id := putBackup (mark r)]> db, Ok (mark r))
      end
  end.

Definition RetentionActor : string := "retention".

(** [prune] on the SQLite store: the planned backups are marked deleted one by one; a
    refused or vanished one is skipped, another error ends the loop. *)
Fixpoint pruneLoop (now grace : Z) (ds : list RetentionDecision) (db : Backups)
    (pruned : list string) : Backups * list string * option PruneErr :=
  match ds with
  | [] => (db, pruned, None)
  | d :: ds =>
      let mark := MarkDeleted (mkSoftDelete now (now + grace) RetentionActor "" (dDetail d)) in
      match PruneBackupRecord (rID (dBackup d)) mark db with
      | (db, Ok _) => pruneLoop now grace ds db (pruned ++ [rID (dBackup d)])
      | (db, Err ErrPruneRefused) | (db, Err PruneNotFound) => pruneLoop now grace ds db pruned
      | (db, Err e) => (db, pruned, Some e)
      end
  end.

Definition prune (now grace days count : Z) (records : list BackupRecord)
    (db : Backups) : Backups * list string * option PruneErr :=
  pruneLoop now grace (rpDelete (PlanRetention now days count records)) db [].

(** ** Deletions keep the last verified backup *)

Definition sameGroup (a b : BackupRecord) : Prop :=
  JobID (rIdent a) = JobID (rIdent b) /\ database a = database b /\ ConnectionID (rIdent a) = ConnectionID (rIdent b) /\
  TargetID (rStored a) = TargetID (rStored b) /\ EffectiveTrigger a = EffectiveTrigger b.

(** A completed backup whose archive passed verification is stored under its ID. *)
Definition verifiedIn (db : Backups) (r : BackupRecord) : Prop :=
  db !! rID r = Some (putBackup r) /\ rStatus r = StatusCompleted /\
  Verification (rVerified r) = VerificationOK.

(** Every readable row is the row of its record. *)
Definition wfBackups (db : Backups) : Prop :=
  map_Forall (λ id row, ∀ r, colData row = Some r -> row = putBackup r /\ rID r = id) db.

(** A mark that changes no identity. *)
Definition keepsIdent (mark : BackupRecord -> BackupRecord) : Prop := ∀ r, rIdent (mark r) = rIdent r.

Lemma PruneBackupRecord_wf id mark db : wfBackups db -> wfBackups (PruneBackupRecord id mark db).1.
Proof.
  intros Hwf. unfold PruneBackupRecord. destruct (_ !! id) as [row|]; [|done]. destruct (colData row) as [r|]; [|done].
  repeat case_match; try done. bool_cases. simpl. apply map_Forall_insert_2; [|done].
  simpl. intros r' [= <-]. done.
Qed.

Lemma existsb_newer r sib :
  existsb (newerSibling r) (omap (λ x, x) sib) = true ->
  ∃ o, Some o ∈ sib /\ newerSibling r o = true.
Proof.
  intros (o & Ho%list_elem_of_In & Hn)%existsb_exists. exists o. split; [|done].
  apply list_elem_of_omap in Ho as (x & Hx & Heq). simpl in Heq. by subst.
Qed.

(** A deletion changes nothing, or one row; a verified backup of a job only while a
    newer verified one of its group is stored. *)
Lemma PruneBackupRecord_cases id mark db :
  wfBackups db ->
  (PruneBackupRecord id mark db).1 = db \/
  ∃ r, db !! id = Some (putBackup r) /\ rID r = id /\ rPinned r = false /\
    rStatus r = StatusCompleted /\ (PruneBackupRecord id mark db).1 = <[id := putBackup (mark r)]> db /\
    (Verification (rVerified r) = VerificationOK -> JobID (rIdent r) <> "" ->
     ∃ o, verifiedIn db o /\ rID o <> id /\ sameGroup r o /\ startedAt r < startedAt o).
Proof.
  intros Hwf. unfold PruneBackupRecord. destruct (db !! id) as [row|] eqn:Hrow; [|by left].
  destruct (colData row) as [r|] eqn:Hd; [|by left]. destruct (Hwf _ _ Hrow r Hd) as [-> Hid].
  destruct (rPinned r) eqn:Hpin; [by left|].
  destruct (bool_decide (rStatus r = StatusCompleted)) eqn:Hst; [|by left]. bool_cases. simpl.
  destruct (bool_decide _ && _ && _) eqn:Hsib; [by left|].
  destruct (bool_decide (rID (mark r) = id)); [|by left]. simpl. right. exists r. split_and!; try done.
  intros Hv Hjob. rewrite bool_decide_true, bool_decide_false in Hsib by done. simpl in Hsib.
  apply orb_false_elim in Hsib as [_ Hsib]. apply negb_false_iff, existsb_newer in Hsib as (o & Ho & Hn).
  unfold newerSibling in Hn. bool_cases.
  apply list_elem_of_fmap in Ho as (row & Hdo & Ho). apply list_elem_of_filter in Ho as [Hcols%Is_true_true Ho].
  bool_cases. apply list_elem_of_fmap in Ho as ([k row'] & -> & Hk%elem_of_map_to_list). simpl in *.
  destruct (Hwf _ _ Hk o (eq_sym Hdo)) as [Hro Hko]. subst row' k. simpl in *. exists o.
  split; [by split|]. split; [congruence|]. split; [by repeat split|lia].
Qed.

Lemma PruneBackupRecord_keeps id mark db r :
  wfBackups db -> JobID (rIdent r) <> "" -> verifiedIn db r ->
  ∃ r', verifiedIn (PruneBackupRecord id mark db).1 r' /\ sameGroup r r' /\ startedAt r <= startedAt r'.
Proof.
  intros Hwf Hjob Hr. destruct (PruneBackupRecord_cases id mark db Hwf) as [->|(p & Hp & Hid & _ & _ & -> & Hnew)].
  { exists r. split; [done|]. split; [done|lia]. }
  assert (∀ x, verifiedIn db x -> rID x <> id -> verifiedIn (<[id := putBackup (mark p)]> db) x) as Hother.
  { intros x (Hx & ? & ?) Hne. split; [|done]. by rewrite lookup_insert_ne by done. }
  destruct (decide (rID r = id)) as [Heq|Hne].
  - destruct Hr as (Hrow & Hst & Hv). rewrite Heq, Hp in Hrow. injection Hrow as _ _ _ ->.
    destruct (Hnew Hv Hjob) as (o & Ho & Hne & Hg & Hlt). exists o. split; [by apply Hother|]. split; [done|lia].
  - exists r. split; [by apply Hother|]. split; [done|lia].
Qed.

Lemma sameGroup_trans a b c : sameGroup a b -> sameGroup b c -> sameGroup a c.
Proof. unfold sameGroup. intuition congruence. Qed.

Lemma pruneLoop_keeps now grace ds : ∀ db pruned r,
  wfBackups db -> JobID (rIdent r) <> "" -> verifiedIn db r ->
  ∃ r', verifiedIn (pruneLoop now grace ds db pruned).1.1 r' /\ sameGroup r r' /\ startedAt r <= startedAt r'.
Proof.
  induction ds as [|d ds IH]; intros db pruned r Hwf Hjob Hr; simpl.
  { exists r. split; [done|]. split; [done|lia]. }
  set (mark := MarkDeleted _).
  pose proof (PruneBackupRecord_wf (rID (dBackup d)) mark db Hwf) as Hwf'.
  destruct (PruneBackupRecord_keeps (rID (dBackup d)) mark db r Hwf Hjob Hr) as (r1 & Hr1 & Hg1 & Hle1).
  assert (JobID (rIdent r1) <> "") as Hjob1 by (by destruct Hg1 as [<- _]).
  destruct (PruneBackupRecord _ mark db) as [db' res]. simpl in *.
  assert (∀ pruned', ∃ r', verifiedIn (pruneLoop now grace ds db' pruned').1.1 r' /\ sameGroup r r' /\
            startedAt r <= startedAt r') as Hgo.
  { intros pruned'. destruct (IH db' pruned' r1 Hwf' Hjob1 Hr1) as (r2 & ? & ? & ?). exists r2.
    split; [done|]. split; [by eapply sameGroup_trans|lia]. }
  destruct res as [|[]]; try apply Hgo; exists r1; split; done.
Qed.

(** [C12] Retention never deletes the last verified backup. Whatever the policy and
    the records it was planned on, after a run of retention every job, database,
    connection, storage target and trigger that had a completed backup whose archive
    passed verification still has one at least as new. *)
Theorem prune_keeps_verified now grace days count records db r :
  wfBackups db -> JobID (rIdent r) <> "" -> verifiedIn db r ->
  ∃ r', verifiedIn (prune now grace days count records db).1.1 r' /\ sameGroup r r' /\ startedAt r <= startedAt r'.
Proof. apply pruneLoop_keeps. Qed.

Lemma pruneLoop_spares now grace ds : ∀ db pruned id row,
  wfBackups db -> db !! id = Some row ->
  (∀ r, colData row = Some r -> rPinned r = true \/ rStatus r <> StatusCompleted) ->
  (pruneLoop now grace ds db pruned).1.1 !! id = Some row.
Proof.
  induction ds as [|d ds IH]; intros db pruned id row Hwf Hrow Hkeep; simpl; [done|].
  set (mark := MarkDeleted _).
  pose proof (PruneBackupRecord_wf (rID (dBackup d)) mark db Hwf) as Hwf'.
  pose proof (PruneBackupRecord_cases (rID (dBackup d)) mark db Hwf) as Hc.
  destruct (PruneBackupRecord _ mark db) as [db' res]. simpl in *.
  assert (db' !! id = Some row) as Hrow'.
  { destruct Hc as [->|(p & Hp & _ & Hpin & Hst & -> & _)]; [done|].
    rewrite lookup_insert_ne; [done|]. intros <-. rewrite Hrow in Hp. injection Hp as ->.
    destruct (Hkeep p eq_refl); congruence. }
  destruct res as [|[]]; try done; by apply IH.
Qed.

(** Retention never touches a pinned backup or one that is not completed, even
    when it was pinned after the plan was made. *)
Theorem prune_spares_pinned now grace days count records db id r :
  wfBackups db -> db !! id = Some (putBackup r) ->
  rPinned r = true \/ rStatus r <> StatusCompleted ->
  (prune now grace days count records db).1.1 !! id = Some (putBackup r).
Proof. intros Hwf Hrow Hk. apply pruneLoop_spares; try done. by intros ? [= <-]. Qed.

(** ** The plan *)

Lemma planLoop_del now days count v l d :
  d ∈ (planLoop now days count v l).1 ->
  dBackup d ∈ l /\ selects now days count (dBackup d) = Some d /\ rPinned (dBackup d) = false /\ rID (dBackup d) <> v.
Proof.
  induction l as [|r l IH]; simpl; [by intros ?%elem_of_nil|].
  destruct (planLoop now days count v l) as [del prot]. simpl in IH.
  assert (d ∈ del -> dBackup d ∈ r :: l /\ selects now days count (dBackup d) = Some d /\
            rPinned (dBackup d) = false /\ rID (dBackup d) <> v) as Hrest.
  { intros [? ?]%IH. split; [by right|done]. }
  destruct (selects now days count r) as [e|] eqn:Hs; [|exact Hrest].
  destruct (rPinned r) eqn:Hp; [exact Hrest|]. destruct (bool_decide (rID r = v)) eqn:Hv; [exact Hrest|]. bool_cases.
  simpl. intros [->|Hd]%elem_of_cons; [|by apply Hrest].
  assert (dBackup e = r) as -> by (unfold selects in Hs; repeat case_match; by simplify_eq).
  split; [left|done].
Qed.

Lemma newerFirst_sorted l :
  StronglySorted (λ a b, startedAt b <= startedAt a) (stable_sort newerFirst l).
Proof.
  assert (∀ a b, not_after newerFirst a b <-> startedAt b <= startedAt a) as Heq.
  { intros a b. unfold not_after, newerFirst. by rewrite Z.ltb_ge. }
  assert (StronglySorted (not_after newerFirst) (stable_sort newerFirst l)) as Hs.
  { apply stable_sort_StronglySorted; intros *; rewrite ?Heq; unfold newerFirst; lia. }
  induction Hs as [|x t Hs IH Hf]; constructor; [done|]. eapply Forall_impl; [exact Hf|]. intros y. by rewrite Heq.
Qed.

(** What is deleted of one database. *)
Definition deletions (now days count : Z) (records : list BackupRecord) (name : string) : list RetentionDecision :=
  (planDatabase now days count (group name records)).1.2.

Lemma foldl_addDatabase now days count records names : ∀ plan,
  rpDelete (foldl (addDatabase now days count records) plan names) =
  rpDelete plan ++ concat (deletions now days count records <$> names).
Proof.
  induction names as [|n names IH]; intros plan; simpl; [by rewrite app_nil_r|].
  rewrite IH. unfold addDatabase, deletions. destruct (planDatabase _ _ _ _) as [[s del] prot]. simpl.
  by rewrite <- app_assoc.
Qed.

Lemma PlanRetention_Delete now days count records d :
  d ∈ rpDelete (PlanRetention now days count records) -> ∃ name, d ∈ deletions now days count records name.
Proof.
  unfold PlanRetention. destruct (_ && _); simpl; [by intros ?%elem_of_nil|].
  rewrite elem_of_stable_sort, foldl_addDatabase. simpl. rewrite list_elem_of_In, in_concat.
  intros (l & Hl & Hd). apply list_elem_of_In, list_elem_of_fmap in Hl as (name & -> & _).
  exists name. by apply list_elem_of_In.
Qed.

(** The backups of one database, newest first. *)
Definition newest (name : string) (records : list BackupRecord) : list BackupRecord :=
  stable_sort newerFirst (group name records).

Lemma elem_of_newest name records r :
  r ∈ newest name records <-> r ∈ records /\ considered r = true /\ database r = name.
Proof.
  unfold newest, group. rewrite elem_of_stable_sort, list_elem_of_filter, Is_true_true, andb_true_iff, bool_decide_eq_true.
  tauto.
Qed.

(** A deletion is beyond the floor, selected, not pinned and not the last verified. *)
Lemma deletions_elem now days count records name d :
  d ∈ deletions now days count records name ->
  (Z.to_nat (Z.max count 1) < length (newest name records))%nat /\
  dBackup d ∈ drop (Z.to_nat (Z.max count 1)) (newest name records) /\
  selects now days count (dBackup d) = Some d /\ rPinned (dBackup d) = false /\
  rID (dBackup d) <> lastVerified (newest name records).
Proof.
  unfold deletions, planDatabase. fold (newest name records). set (l := newest name records).
  set (n := Z.to_nat (Z.max count 1)).
  destruct (planLoop _ _ _ _ _) as [del prot] eqn:Hp. simpl. rewrite elem_of_reverse. intros Hd.
  assert (d ∈ (planLoop now days count (lastVerified l) (drop (Nat.min n (length l)) l)).1) as Hin by (by rewrite Hp).
  apply planLoop_del in Hin as (Hin & Hs & Hpin & Hv).
  destruct (Nat.le_gt_cases (length l) n) as [Hle|Hgt].
  - rewrite Nat.min_r, drop_all in Hin by done. by apply elem_of_nil in Hin.
  - rewrite Nat.min_l in Hin by lia. done.
Qed.

Lemma sorted_take_drop n l a b :
  StronglySorted (λ a b, startedAt b <= startedAt a) l -> a ∈ take n l -> b ∈ drop n l -> startedAt b <= startedAt a.
Proof.
  intros Hs Ha Hb. rewrite <- (take_drop n l) in Hs. apply StronglySorted_app in Hs as (Hs & _). by apply Hs.
Qed.

Lemma NoDup_take_drop {A} n (l : list A) x y (f : A -> string) :
  NoDup (f <$> l) -> x ∈ take n l -> y ∈ drop n l -> f x <> f y.
Proof.
  intros Hnd Hx Hy E. rewrite <- (take_drop n l), fmap_app in Hnd. apply NoDup_app in Hnd as (_ & Hd & _).
  apply (Hd (f x)); [by apply list_elem_of_fmap_2|]. rewrite E. by apply list_elem_of_fmap_2.
Qed.

Lemma NoDup_ids_newest name records : NoDup (rID <$> records) -> NoDup (rID <$> newest name records).
Proof.
  intros Hnd. unfold newest. rewrite (fmap_Permutation _ _ _ (stable_sort_Permutation _ _)).
  unfold group. eapply sublist_NoDup; [exact Hnd|]. apply fmap_sublist, sublist_filter.
Qed.

Lemma lastVerified_spec l :
  (∃ pre v post, l = pre ++ v :: post /\ Verification (rVerified v) = VerificationOK /\ lastVerified l = rID v /\
     Forall (λ r, Verification (rVerified r) <> VerificationOK) pre) \/
  Forall (λ r, Verification (rVerified r) <> VerificationOK) l.
Proof.
  induction l as [|r l IH]; simpl; [by right|]. destruct (bool_decide _) eqn:E; bool_cases.
  - left. by exists [], r, l.
  - destruct IH as [(pre & v & post & -> & Hv & Hl & Hp)|Hall]; [left|right; by constructor].
    exists (r :: pre), v, post. split_and!; try done. by constructor.
Qed.

(** What a retention plan deletes. Every backup it lists is one of the records,
    completed, scheduled and not a PITR base, not pinned, and selected by its rule: it
    is older than the policy's days, or the policy has a count and it is at least a
    day old. Of its database the max(count, 1) newest backups, none older than it,
    stay; and when its archive passed verification, so did that of another backup of
    the database which is no older. *)
Theorem retention_plan_safe now days count records d :
  NoDup (rID <$> records) -> d ∈ rpDelete (PlanRetention now days count records) ->
  let r := dBackup d in
  r ∈ records /\ considered r = true /\ rPinned r = false /\
  (match dReason d with
   | RetentionMaxAge => 0 < days /\ startedAt r < now - days * day
   | RetentionMaxCount => 0 < count /\ MinCountPruneAge <= time_sub now (startedAt r)
   end) /\
  (∃ keep, length keep = Z.to_nat (Z.max count 1) /\ NoDup (rID <$> keep) /\
     ∀ k, k ∈ keep -> k ∈ records /\ considered k = true /\ database k = database r /\ startedAt r <= startedAt k /\
       ∀ d', d' ∈ rpDelete (PlanRetention now days count records) -> rID (dBackup d') <> rID k) /\
  (Verification (rVerified r) = VerificationOK ->
   ∃ v, v ∈ records /\ considered v = true /\ database v = database r /\ rID v <> rID r /\
     Verification (rVerified v) = VerificationOK /\ startedAt r <= startedAt v).
Proof.
  intros Hnd Hd r. set (n := Z.to_nat (Z.max count 1)).
  pose proof Hd as [name Hdn]%PlanRetention_Delete.
  pose proof Hdn as (Hlen & Hdrop & Hsel & Hpin & Hlv)%deletions_elem. fold r n in Hlen, Hdrop, Hsel, Hpin, Hlv.
  pose proof (newerFirst_sorted (group name records)) as Hsort. fold (newest name records) in Hsort.
  assert (r ∈ newest name records) as Hin by (by eapply (subseteq_drop n)).
  pose proof Hin as (Hrec & Hcon & Hdb)%elem_of_newest.
  do 3 (split; [done|]). split; [|split].
  - unfold selects in Hsel. destruct (_ && _) eqn:E1; [|destruct (_ && (_ >=? _)) eqn:E2; [|done]];
      injection Hsel as Hsel; rewrite <- Hsel; simpl; bool_cases; lia.
  - exists (take n (newest name records)). split; [rewrite length_take; lia|]. split.
    { eapply sublist_NoDup; [by apply (NoDup_ids_newest name records)|]. apply fmap_sublist, sublist_take. }
    intros k Hk. assert (k ∈ newest name records) as (? & ? & Hkdb)%elem_of_newest by (by eapply (subseteq_take n)).
    split_and!; try done; [congruence|by eapply sorted_take_drop|].
    intros d' [name' Hd']%PlanRetention_Delete. apply deletions_elem in Hd' as (_ & Hd' & _). fold n in Hd'.
    destruct (decide (name' = name)) as [->|Hne].
    + intros E. eapply (NoDup_take_drop n _ k (dBackup d') rID); [by apply (NoDup_ids_newest name records)|done..].
    + assert (dBackup d' ∈ newest name' records) as (Hd1 & _ & Hd3)%elem_of_newest by (by eapply (subseteq_drop n)).
      intros E. apply Hne. rewrite <- Hd3, <- Hkdb. f_equal. by eapply (NoDup_fmap_inj_elem rID records).
  - intros Hv. destruct (lastVerified_spec (newest name records)) as [(pre & v & post & Hl & Hvv & Hid & Hpre)|Hall].
    + exists v. assert (v ∈ newest name records) as (? & ? & ?)%elem_of_newest by (rewrite Hl; set_solver).
      split_and!; try done; [congruence|congruence|]. rewrite Hl in Hin, Hsort.
      apply elem_of_app in Hin as [Hin|Hin]; [rewrite Forall_forall in Hpre; by apply Hpre in Hin|].
      apply elem_of_cons in Hin as [->|Hin]; [done|]. apply StronglySorted_app in Hsort as (_ & _ & Hsort).
      apply StronglySorted_inv in Hsort as [_ Hsort]. rewrite Forall_forall in Hsort. by apply Hsort.
    + exfalso. rewrite Forall_forall in Hall. by apply (Hall r).
Qed.

Lemma planLoop_complete now days count v l r d :
  r ∈ l -> selects now days count r = Some d -> rPinned r = false -> rID r <> v ->
  d ∈ (planLoop now days count v l).1.
Proof.
  induction l as [|x l IH]; simpl; intros Hin Hs Hp Hv; [by apply elem_of_nil in Hin|].
  destruct (planLoop now days count v l) as [del prot]. apply elem_of_cons in Hin as [<-|Hin].
  - rewrite Hs, Hp, bool_decide_false by done. left.
  - specialize (IH Hin Hs Hp Hv). simpl in IH. repeat case_match; simpl; try done. by right.
Qed.

(** The policy is enforced: a considered backup beyond the max(count, 1) newest of
    its database that a rule selects is deleted, unless it is pinned or the newest
    verified one. *)
Theorem retention_plan_complete now days count records r d :
  0 < days \/ 0 < count ->
  r ∈ drop (Z.to_nat (Z.max count 1)) (newest (database r) records) ->
  selects now days count r = Some d -> rPinned r = false -> rID r <> lastVerified (newest (database r) records) ->
  d ∈ rpDelete (PlanRetention now days count records).
Proof.
  intros Hpol Hin Hs Hp Hv. unfold PlanRetention.
  destruct ((days <=? 0) && (count <=? 0)) eqn:E; [bool_cases; lia|]. simpl.
  rewrite elem_of_stable_sort, foldl_addDatabase. simpl. apply list_elem_of_In, in_concat.
  exists (deletions now days count records (database r)). split; apply list_elem_of_In.
  - apply list_elem_of_fmap_2. unfold databaseNames. rewrite elem_of_stable_sort, elem_of_remove_dups.
    apply list_elem_of_fmap_2, list_elem_of_filter.
    apply subseteq_drop, elem_of_newest in Hin as (? & Hc & _). split; [by apply Is_true_true|done].
  - unfold deletions, planDatabase. fold (newest (database r) records). set (l := newest (database r) records) in *.
    set (n := Z.to_nat (Z.max count 1)) in *.
    assert (n < length l)%nat as Hlen.
    { destruct (Nat.le_gt_cases (length l) n) as [Hle|Hgt]; [|done]. rewrite drop_ge in Hin by done.
      by apply elem_of_nil in Hin. }
    rewrite Nat.min_l by lia.
    pose proof (planLoop_complete now days count (lastVerified l) (drop n l) r d Hin Hs Hp Hv) as Hd.
    destruct (planLoop _ _ _ _ _) as [del prot]. simpl in *. by rewrite elem_of_reverse.
Qed.

(** ** A concrete history *)

Definition demoBackup (id : string) (at_ : Z) (ver : VerificationStatus) (pinned : bool) : BackupRecord :=
  mkRecord (mkIdent id "job" TriggerScheduled "db" "conn" ScopeDatabase at_) StatusCompleted
    (mkStored "t1" "local" ("db/" +:+ id) "" "" None) "aa" (mkOutcome None "" None false)
    (mkVerified None ver "") pinned false notDeleted [] CopyModeNone.

Definition demoNow : Z := 100 * day.

(** Five days of backups: the second oldest is verified, the oldest pinned. *)
Definition demoHistory : list BackupRecord :=
  [demoBackup "b1" (10 * day) VerificationNone true; demoBackup "b2" (20 * day) VerificationOK false;
   demoBackup "b3" (30 * day) VerificationNone false; demoBackup "b4" (40 * day) VerificationNone false;
   demoBackup "b5" (50 * day) VerificationOK false].

Definition demoTable : Backups := list_to_map ((λ r, (rID r, putBackup r)) <$> demoHistory).

Lemma demoTable_wf : wfBackups demoTable.
Proof.
  unfold demoTable. simpl. repeat (apply map_Forall_insert_2; [by intros ? [= <-]|]). apply map_Forall_empty.
Qed.

Definition demoDecision (id : string) (at_ : Z) (ver : VerificationStatus) : RetentionDecision :=
  mkDecision (demoBackup id at_ ver false) RetentionMaxCount "beyond the 2 newest backups".

Lemma retention_plan_safe_witness :
  ∃ keep, length keep = 2%nat /\
    ∀ k, k ∈ keep -> k ∈ demoHistory /\ startedAt (demoBackup "b3" (30 * day) VerificationNone false) <= startedAt k.
Proof.
  destruct (retention_plan_safe demoNow 0 2 demoHistory (demoDecision "b3" (30 * day) VerificationNone))
    as (_ & _ & _ & _ & (keep & Hl & _ & Hk) & _).
  - vm_compute. repeat (constructor; [set_solver|]). constructor.
  - vm_compute. right. left.
  - exists keep. split; [exact Hl|]. intros k Hin. destruct (Hk k Hin) as (H1 & _ & _ & H2 & _).
    split; [exact H1|exact H2].
Defined.

Lemma retention_plan_complete_witness :
  demoDecision "b3" (30 * day) VerificationNone ∈ rpDelete (PlanRetention demoNow 0 2 demoHistory).
Proof.
  apply (retention_plan_complete demoNow 0 2 demoHistory (demoBackup "b3" (30 * day) VerificationNone false)).
  - right. reflexivity.
  - vm_compute. left.
  - vm_compute. reflexivity.
  - reflexivity.
  - vm_compute. discriminate.
Defined.

Lemma prune_keeps_verified_witness :
  ∃ r', verifiedIn (prune demoNow (7 * day) 0 2 demoHistory demoTable).1.1 r' /\
    sameGroup (demoBackup "b2" (20 * day) VerificationOK false) r' /\ 20 * day <= startedAt r'.
Proof.
  apply (prune_keeps_verified demoNow (7 * day) 0 2 demoHistory demoTable
    (demoBackup "b2" (20 * day) VerificationOK false) demoTable_wf).
  - discriminate.
  - split; [vm_compute; reflexivity|]. split; reflexivity.
Defined.

Lemma prune_spares_pinned_witness :
  (prune demoNow (7 * day) 0 2 demoHistory demoTable).1.1 !! "b1" =
  Some (putBackup (demoBackup "b1" (10 * day) VerificationNone true)).
Proof.
  apply (prune_spares_pinned demoNow (7 * day) 0 2 demoHistory demoTable "b1"
    (demoBackup "b1" (10 * day) VerificationNone true) demoTable_wf).
  - vm_compute. reflexivity.
  - left. reflexivity.
Defined.
