(* ===== verification/Glob.v ===== *)
(** * Database name patterns (src/internal/models/selection.go, namespace.go)

    Runes of a UTF-8 string, the glob matcher with its backtracking loop, and its
    equivalence with a reference definition of globs. *)

From S2P Require Import Prelude.

(** ** Runes ([[]rune(s)], [utf8.ValidString]) *)

Definition cont (a : Ascii.ascii) : bool := byteIn 128 191 a.
Definition byteZ (a : Ascii.ascii) : Z := Z.of_N (Ascii.N_of_ascii a).

(** The leading bytes of sequences of two, three and four bytes with the second bytes
    they admit. *)
Definition lead2 (a b : Ascii.ascii) : bool := byteIn 194 223 a && cont b.
Definition lead3 (a b : Ascii.ascii) : bool :=
  (byteIs 224 a && byteIn 160 191 b) || ((byteIn 225 236 a || byteIn 238 239 a) && cont b)
  || (byteIs 237 a && byteIn 128 159 b).
Definition lead4 (a b : Ascii.ascii) : bool :=
  (byteIs 240 a && byteIn 144 191 b) || (byteIn 241 243 a && cont b) || (byteIs 244 a && byteIn 128 143 b).

Definition RuneError : Z := 65533.

(** The runes of a string: a byte that starts no valid sequence is [RuneError]. *)
Fixpoint runes (s : string) : list Z :=
  match s with
  | EmptyString => []
  | String a s1 =>
      if byteIn 0 127 a then byteZ a :: runes s1
      else match s1 with
      | String b s2 =>
          if lead2 a b then (Z.land (byteZ a) 31 * 64 + Z.land (byteZ b) 63) :: runes s2
          else match s2 with
          | String c s3 =>
              if lead3 a b && cont c
              then (Z.land (byteZ a) 15 * 4096 + Z.land (byteZ b) 63 * 64 + Z.land (byteZ c) 63) :: runes s3
              else match s3 with
              | String d s4 =>
                  if lead4 a b && cont c && cont d
                  then (Z.land (byteZ a) 7 * 262144 + Z.land (byteZ b) 63 * 4096 + Z.land (byteZ c) 63 * 64
                        + Z.land (byteZ d) 63) :: runes s4
                  else RuneError :: runes s1
              | EmptyString => RuneError :: runes s1
              end
          | EmptyString => RuneError :: runes s1
          end
      | EmptyString => [RuneError]
      end
  end.

(** [utf8.ValidString]. *)
Fixpoint validUTF8 (s : string) : bool :=
  match s with
  | EmptyString => true
  | String a s1 =>
      if byteIn 0 127 a then validUTF8 s1
      else match s1 with
      | String b s2 =>
          if lead2 a b then validUTF8 s2
          else match s2 with
          | String c s3 =>
              if lead3 a b && cont c then validUTF8 s3
              else match s3 with
              | String d s4 => lead4 a b && cont c && cont d && validUTF8 s4
              | EmptyString => false
              end
          | EmptyString => false
          end
      | EmptyString => false
      end
  end.

(** ** The matcher *)

Definition star : Z := 42.
Definition question : Z := 63.

(** The loop of [MatchDatabasePattern]: [p] and [n] are what is left from [pi] and
    [ni]; [back] is [None] for [star = -1], else what follows the last star in the
    pattern and the name from [mark] on. *)
Fixpoint matchLoop (fuel : nat) (p n : list Z) (back : option (list Z * list Z)) : option bool :=
  match fuel with
  | O => None
  | S fuel =>
      match n with
      | [] => Some (forallb (λ x, x =? star) p)
      | c :: n' =>
          let backtrack :=
            match back with
            | Some (ps, _ :: m) => matchLoop fuel ps m (Some (ps, m))
            | _ => Some false
            end in
          match p with
          | x :: p' =>
              if (x =? question) || (x =? c) then matchLoop fuel p' n' back
              else if x =? star then matchLoop fuel p' n (Some (p', n))
              else backtrack
          | [] => backtrack
          end
      end
  end.

(** Enough turns: each shortens the rest of the pattern, or the name from the mark on. *)
Definition matchFuel (p n : list Z) : nat := S (S (length n) * S (length p) + length p).

Definition MatchDatabasePattern (pattern name : string) : bool :=
  default false (matchLoop (matchFuel (runes pattern) (runes name)) (runes pattern) (runes name) None).

(** ** Reference *)

(** A star matches any run of characters, a question mark one, another character
    itself. *)
Fixpoint glob (p : list Z) : list Z -> bool :=
  match p with
  | [] => λ n, match n with [] => true | _ => false end
  | x :: p' =>
      if x =? star then
        fix anywhere n := glob p' n || match n with [] => false | _ :: n' => anywhere n' end
      else λ n, match n with [] => false | c :: n' => ((x =? question) || (x =? c)) && glob p' n' end
  end.

Lemma glob_star p n : glob (star :: p) n = glob p n || match n with [] => false | _ :: n' => glob (star :: p) n' end.
Proof. by destruct n. Qed.

Lemma glob_cons x p n :
  x <> star -> glob (x :: p) n = match n with [] => false | c :: n' => ((x =? question) || (x =? c)) && glob p n' end.
Proof. intros Hx. simpl. by rewrite (proj2 (Z.eqb_neq x star) Hx). Qed.

(** A star absorbs whatever comes before a match. *)
Lemma glob_absorb p u k : glob (star :: p) k = true -> glob (star :: p) (u ++ k) = true.
Proof.
  intros Hk. induction u as [|c u IH]; [done|]. simpl app. rewrite glob_star. simpl. apply orb_true_iff. by right.
Qed.

(** A star matches from somewhere on. *)
Lemma glob_star_suffix p n : glob (star :: p) n = true -> ∃ u k, n = u ++ k /\ glob p k = true.
Proof.
  induction n as [|c n IH]; rewrite glob_star; intros [H|H]%orb_true_iff; try done.
  - by exists [], [].
  - by exists [], (c :: n).
  - destruct (IH H) as (u & k & -> & ?). by exists (c :: u), k.
Qed.

(** A pattern without stars matches as many characters as it has. *)
Lemma glob_fixed q p k :
  star ∉ q -> glob (q ++ p) k = true -> ∃ u k', k = u ++ k' /\ length u = length q /\ glob p k' = true.
Proof.
  revert k. induction q as [|x q IH]; intros k Hq Hk; [by exists [], k|].
  rewrite elem_of_cons in Hq. simpl app in Hk. rewrite glob_cons in Hk by (intros ->; tauto).
  destruct k as [|c k]; [done|]. apply andb_true_iff in Hk as [_ Hk].
  destruct (IH k) as (u & k' & -> & Hl & ?); [tauto|done|]. exists (c :: u), k'. split; [done|]. simpl. split; [lia|done].
Qed.

Lemma glob_nil p : glob p [] = forallb (λ x, x =? star) p.
Proof.
  induction p as [|x p IH]; [done|]. destruct (Z.eqb_spec x star) as [->|Hx].
  - rewrite glob_star. simpl. by rewrite orb_false_r.
  - rewrite glob_cons by done. simpl. by rewrite (proj2 (Z.eqb_neq x star) Hx).
Qed.

(** The loop stands [length u] characters after the mark, all matched by the part [q]
    of the pattern without stars since the last star. *)
Definition backInv (p n : list Z) (back : option (list Z * list Z)) : Prop :=
  match back with
  | None => True
  | Some (ps, m) => ∃ q u, ps = q ++ p /\ m = u ++ n /\ length q = length u /\ star ∉ q
  end.

(** What the loop decides: a match from here, or from a later start after the star. *)
Definition answer (p n : list Z) (back : option (list Z * list Z)) : bool :=
  glob p n || match back with Some (ps, _ :: m) => glob (star :: ps) m | _ => false end.

(** The turns left. *)
Definition turns (P : nat) (p n : list Z) (back : option (list Z * list Z)) : nat :=
  match back with None => S (length n) | Some (_, m) => length m end * S P + length p.

(** An earlier star is never needed again once a later one was met. *)
Lemma drop_earlier_star p' n ps c m q u :
  ps = q ++ star :: p' -> c :: m = u ++ n -> length q = length u -> star ∉ q ->
  glob (star :: ps) m = true -> glob (star :: p') n = true.
Proof.
  intros -> Hm Hl Hq (v & k & -> & Hk)%glob_star_suffix.
  destruct (glob_fixed _ _ _ Hq Hk) as (u' & k' & -> & Hl' & Hk').
  assert (∃ w, n = w ++ k') as [w ->]; [|by apply glob_absorb].
  exists (drop (length u) (c :: v ++ u')). rewrite app_comm_cons, app_assoc in Hm.
  apply (f_equal (drop (length u))) in Hm. rewrite drop_app_length in Hm.
  rewrite drop_app_le in Hm; [by rewrite <- Hm|]. simpl. rewrite length_app. lia.
Qed.

Lemma matchLoop_answer P fuel p n back :
  star ∉ n -> (∀ ps m, back = Some (ps, m) -> star ∉ m) -> backInv p n back ->
  (length p <= P)%nat -> (∀ ps m, back = Some (ps, m) -> (length ps <= P)%nat) ->
  (turns P p n back < fuel)%nat -> matchLoop fuel p n back = Some (answer p n back).
Proof.
  revert p n back. induction fuel as [|fuel IH]; intros p n back Hn Hb Hinv HP HPb Hf; [lia|]. simpl.
  destruct n as [|c n'].
  - f_equal. unfold answer. rewrite glob_nil. destruct back as [[ps m]|]; [|by rewrite orb_false_r].
    destruct m as [|c m]; [by rewrite orb_false_r|]. destruct (forallb _ p) eqn:E; [done|]. simpl. symmetry.
    apply not_true_iff_false. intros Hg. destruct Hinv as (q & u & -> & Hm & Hl & Hq).
    apply glob_star_suffix in Hg as (v & k & -> & Hk). apply glob_fixed in Hk as (u' & k' & -> & Hl' & Hk'); [|done].
    rewrite app_nil_r in Hm. apply (f_equal length) in Hm. simpl in Hm. rewrite !length_app in Hm. lia.
  - assert (Hback : match back with
        | Some (ps, _ :: m) => matchLoop fuel ps m (Some (ps, m)) | _ => Some false end =
        Some (match back with Some (ps, _ :: m) => glob (star :: ps) m | _ => false end)).
    { destruct back as [[ps [|d m]]|]; [done| |done].
      specialize (Hb _ _ eq_refl). rewrite elem_of_cons in Hb. specialize (HPb _ _ eq_refl).
      rewrite IH.
      - f_equal. unfold answer. destruct m; [by rewrite glob_star|by rewrite (glob_star ps (_ :: _))].
      - tauto.
      - intros ? ? [= <- <-]. tauto.
      - exists [], []. split_and!; try done. by intros ?%elem_of_nil.
      - done.
      - by intros ? ? [= <- <-].
      - unfold turns in *. simpl in *. nia. }
    destruct p as [|x p']; [rewrite Hback; done|].
    destruct ((x =? question) || (x =? c)) eqn:Exc; [|destruct (Z.eqb_spec x star) as [->|Hx]].
    + rewrite elem_of_cons in Hn.
      assert (x <> star) as Hx.
      { intros ->. apply orb_true_iff in Exc as [Exc|Exc]; bool_cases; [done|]. subst. tauto. }
      rewrite IH; try tauto.
      * f_equal. unfold answer. rewrite glob_cons by done. by rewrite Exc.
      * destruct back as [[ps m]|]; [|done]. destruct Hinv as (q & u & -> & -> & Hl & Hq).
        exists (q ++ [x]), (u ++ [c]). rewrite <- !app_assoc, !length_app. split_and!; try done; [simpl; lia|].
        rewrite elem_of_app, list_elem_of_singleton. intros [?|?]; [tauto|congruence].
      * simpl in HP. lia.
      * destruct back as [[ps m]|]; unfold turns in *; simpl in *; nia.
    + rewrite IH.
      * f_equal. unfold answer at 1. rewrite <- (glob_star p' (c :: n')). unfold answer.
        destruct (glob (star :: p') (c :: n')) eqn:Eg; [done|].
        destruct back as [[ps [|d m]]|]; try done. rewrite orb_false_l.
        destruct Hinv as (q & u & Hps & Hm & Hl & Hq). symmetry. apply not_true_iff_false. intros Hg.
        rewrite (drop_earlier_star p' (c :: n') ps d m q u) in Eg; done.
      * done.
      * by intros ? ? [= <- <-].
      * exists [], []. split_and!; try done. by intros ?%elem_of_nil.
      * simpl in HP. lia.
      * intros ? ? [= <- <-]. simpl in HP. lia.
      * destruct back as [[ps m]|]; unfold turns in *; simpl in *; [|nia].
        destruct Hinv as (q & u & _ & -> & _). rewrite length_app in Hf. simpl in Hf. nia.
    + rewrite Hback. unfold answer. by rewrite glob_cons, Exc by done.
Qed.

Lemma matchLoop_total P fuel p n back :
  (length p <= P)%nat -> (∀ ps m, back = Some (ps, m) -> (length ps <= P)%nat /\ (length n <= length m)%nat) ->
  (turns P p n back < fuel)%nat -> is_Some (matchLoop fuel p n back).
Proof.
  revert p n back. induction fuel as [|fuel IH]; intros p n back HP Hb Hf; [lia|]. simpl.
  destruct n as [|c n']; [by eexists|].
  assert (is_Some (match back with Some (ps, _ :: m) => matchLoop fuel ps m (Some (ps, m)) | _ => Some false end)) as Hback.
  { destruct back as [[ps [|d m]]|]; [by eexists| |by eexists]. destruct (Hb _ _ eq_refl). apply IH; [done|..].
    - by intros ? ? [= <- <-].
    - unfold turns in *. simpl in *. nia. }
  destruct p as [|x p']; [done|]. simpl in HP.
  destruct ((x =? question) || (x =? c)); [|destruct (x =? star); [|done]]; apply IH; try lia.
  - intros ps m E. destruct (Hb ps m E). simpl in *. lia.
  - destruct back as [[ps m]|]; unfold turns in *; simpl in *; nia.
  - intros ps m [= <- <-]. lia.
  - destruct back as [[ps m]|]; unfold turns in *; simpl in *; [|nia].
    destruct (Hb _ _ eq_refl). simpl in *. nia.
Qed.

(** [C38] The matcher terminates on every pattern and name: its loop ends within the
    turns it is given, so [MatchDatabasePattern] is the loop's own answer. *)
Theorem match_terminates pattern name :
  ∃ b, matchLoop (matchFuel (runes pattern) (runes name)) (runes pattern) (runes name) None = Some b /\
    MatchDatabasePattern pattern name = b.
Proof.
  destruct (matchLoop_total (length (runes pattern)) (matchFuel (runes pattern) (runes name))
    (runes pattern) (runes name) None) as [b Hb]; [done|done|unfold turns, matchFuel; lia|].
  exists b. split; [done|]. unfold MatchDatabasePattern. by rewrite Hb.
Qed.

(** [C36] The backtracking matcher is the glob it documents, for names without a star:
    a star of the pattern matches any run of characters, a question mark one
    character and every other character itself. *)
Theorem match_glob pattern name :
  star ∉ runes name -> MatchDatabasePattern pattern name = glob (runes pattern) (runes name).
Proof.
  intros Hn. unfold MatchDatabasePattern.
  rewrite (matchLoop_answer (length (runes pattern))); try done.
  - simpl. unfold answer. by rewrite orb_false_r.
  - unfold turns, matchFuel. lia.
Qed.

Lemma match_glob_witness :
  MatchDatabasePattern "app_*_v?" "app_eu_x_v2" = glob (runes "app_*_v?") (runes "app_eu_x_v2").
Proof. apply match_glob. vm_compute. set_solver. Defined.

(** A star in the name breaks the star of the pattern: the loop compares the
    characters before it looks for a wildcard, so the pattern of one star does not
    match a name that starts with a star, which MongoDB and [ValidateDatabaseName]
    allow; the reference matches it. *)
Theorem star_name_not_matched :
  MatchDatabasePattern "*" "*a" = false /\ glob (runes "*") (runes "*a") = true.
Proof. split; vm_compute; reflexivity. Qed.
