(* ===== verification/Selection.v ===== *)
(** * Database selections (src/internal/models/selection.go, dbfilter.go, namespace.go)

    Validation and normalization of the databases a job backs up, and the resolution
    of a selection against the databases of a server. *)

From S2P Require Import Prelude Glob.

Inductive SelectionMode : Type :=
| SelectionNone | SelectionSingle | SelectionList | SelectionAll | SelectionPattern | SelectionOther (s : string).

#[global] Instance SelectionMode_eq_dec : EqDecision SelectionMode.
Proof. solve_decision. Defined.

Definition MaxSelectionDatabases : nat := 500.
Definition MaxSelectionPatterns : nat := 50.
Definition MaxFilterCollections : nat := 1000.
Definition MaxDatabaseNameLength : nat := 63.

Definition SystemDatabases : list string := ["admin"; "config"; "local"].
Definition IsSystemDatabase (name : string) : bool := bool_decide (name ∈ SystemDatabases).

Record DatabaseFilter : Type := mkFilter {
  fName : string;
  fCollections : list string;
  fExcludeCollections : list string
}.

Record DatabaseSelection : Type := mkSelection {
  selMode : SelectionMode;
  selDatabases : list string;
  selCollectionFilters : list DatabaseFilter;
  selInclude : list string;
  selExclude : list string;
  selAutoIncludeNew : bool
}.

Definition Multi (s : DatabaseSelection) : bool :=
  negb (bool_decide (selMode s = SelectionSingle)) && negb (bool_decide (selMode s = SelectionNone)).

Definition Discovers (s : DatabaseSelection) : bool :=
  bool_decide (selMode s = SelectionAll) || bool_decide (selMode s = SelectionPattern).

Definition SameMatch (s o : DatabaseSelection) : bool :=
  bool_decide (selMode s = selMode o) && bool_decide (selDatabases s = selDatabases o)
  && bool_decide (selInclude s = selInclude o) && bool_decide (selExclude s = selExclude o).

(** ** Names *)

(** The bytes of [s] satisfy [p] somewhere. *)
Fixpoint anyByte (p : Ascii.ascii -> bool) (s : string) : bool :=
  match s with EmptyString => false | String a s => p a || anyByte p s end.

(** [hasControl]: control characters are single bytes. *)
Definition hasControl (s : string) : bool := anyByte (λ a, byteIn 0 31 a || byteIs 127 a) s.

(** [databaseNameForbidden]: slash, backslash, dot, space, double quote and dollar. *)
Definition forbidden (a : Ascii.ascii) : bool :=
  byteIs 47 a || byteIs 92 a || byteIs 46 a || byteIs 32 a || byteIs 34 a || byteIs 36 a.

(** [ValidateDatabaseName]: whether the name is accepted. *)
Definition ValidateDatabaseName (name : string) : bool :=
  if bool_decide (name = "") then false
  else if Nat.ltb MaxDatabaseNameLength (String.length name) then false
  else if hasControl name then false
  else if anyByte forbidden name then false
  else negb (String.prefix "-" name).

Definition ValidateDatabasePattern (pattern : string) : bool :=
  if bool_decide (pattern = "") then false
  else if Nat.ltb MaxDatabaseNameLength (String.length pattern) then false
  else if negb (validUTF8 pattern) then false
  else if hasControl pattern then false
  else if anyByte forbidden pattern then false
  else negb (String.prefix "-" pattern).

Definition ValidateCollectionName (name : string) : bool :=
  if bool_decide (name = "") then false
  else if hasControl name then false
  else negb (anyByte (byteIs 36) name).

Definition ValidateCollectionNames (names : list string) : bool :=
  forallb (λ n, let t := TrimSpace n in bool_decide (t = "") || ValidateCollectionName t) names.

Definition IsCollectionPattern (name : string) : bool := anyByte (λ a, byteIs 42 a || byteIs 63 a) name.

Definition MatchCollectionPattern (pattern name : string) : bool :=
  negb (String.prefix "system." name) && MatchDatabasePattern pattern name.

(** [matchesAny]: the first of the patterns that matches, or the empty string. *)
Fixpoint matchesAny (patterns : list string) (name : string) : string :=
  match patterns with
  | [] => ""
  | p :: patterns => if MatchDatabasePattern p name then p else matchesAny patterns name
  end.

(** ** Normalization *)

(** The loop of [cleanList]; [out] is the result so far, in reverse. *)
Fixpoint cleanLoop (list_ out : list string) : list string :=
  match list_ with
  | [] => reverse out
  | v :: rest =>
      let v := TrimSpace v in
      if negb (bool_decide (v = "")) && negb (bool_decide (v ∈ out)) then cleanLoop rest (v :: out)
      else cleanLoop rest out
  end.

Definition cleanList (l : list string) : list string := cleanLoop l [].

(** The refusals of [Normalize] and [normalizeFilters]. *)
Inductive SelErr : Type :=
| ErrTooMany | ErrInvalidNamespace | ErrIncludeAndExclude | ErrModeFields | ErrUnknownMode | ErrSystemDatabase
| ErrDuplicateFilter | ErrFilterNotListed | ErrFilterSystem | ErrFilterExcluded | ErrFilterMode.

Definition Filtered (f : DatabaseFilter) : bool :=
  negb (bool_decide (fCollections f = [])) || negb (bool_decide (fExcludeCollections f = [])).

(** [DatabaseFilter.Normalize]. *)
Definition normalizeFilter (f : DatabaseFilter) : result SelErr DatabaseFilter :=
  let f := mkFilter (TrimSpace (fName f)) (cleanList (fCollections f)) (cleanList (fExcludeCollections f)) in
  if negb (ValidateDatabaseName (fName f)) then Err ErrInvalidNamespace
  else if Nat.ltb MaxFilterCollections (length (fCollections f))
          || Nat.ltb MaxFilterCollections (length (fExcludeCollections f)) then Err ErrInvalidNamespace
  else if negb (ValidateCollectionNames (fCollections f)) then Err ErrInvalidNamespace
  else if negb (ValidateCollectionNames (fExcludeCollections f)) then Err ErrInvalidNamespace
  else if negb (bool_decide (fCollections f = [])) && negb (bool_decide (fExcludeCollections f = []))
  then Err ErrIncludeAndExclude
  else Ok f.

(** The loop that normalizes the filters and drops those that filter nothing. *)
Fixpoint filtersLoop (filters out : list DatabaseFilter) : result SelErr (list DatabaseFilter) :=
  match filters with
  | [] => Ok out
  | f :: rest =>
      match normalizeFilter f with
      | Err e => Err e
      | Ok f =>
          if negb (Filtered f) then filtersLoop rest out
          else if existsb (λ o, bool_decide (fName o = fName f)) out then Err ErrDuplicateFilter
          else filtersLoop rest (out ++ [f])
      end
  end.

(** The databases the filters of an all selection may name. *)
Fixpoint checkAllFilters (s : DatabaseSelection) (filters : list DatabaseFilter) : result SelErr unit :=
  match filters with
  | [] => Ok tt
  | f :: rest =>
      if bool_decide (fName f ∈ selDatabases s) then checkAllFilters s rest
      else if IsSystemDatabase (fName f) then Err ErrFilterSystem
      else if negb (bool_decide (matchesAny (selExclude s) (fName f) = "")) then Err ErrFilterExcluded
      else checkAllFilters s rest
  end.

Definition withFilters (l : list DatabaseFilter) (s : DatabaseSelection) : DatabaseSelection :=
  mkSelection (selMode s) (selDatabases s) l (selInclude s) (selExclude s) (selAutoIncludeNew s).

Definition sortFilters (l : list DatabaseFilter) : list DatabaseFilter :=
  stable_sort (cmpLess (λ a b, strCmp (fName a) (fName b))) l.

Definition normalizeFilters (s : DatabaseSelection) : result SelErr DatabaseSelection :=
  match selCollectionFilters s with
  | [] => Ok (withFilters [] s)
  | filters =>
      if Nat.ltb MaxSelectionDatabases (length filters) then Err ErrTooMany
      else match filtersLoop filters [] with
      | Err e => Err e
      | Ok [] => Ok (withFilters [] s)
      | Ok out =>
          match selMode s with
          | SelectionList =>
              if forallb (λ f, bool_decide (fName f ∈ selDatabases s)) out
              then Ok (withFilters (sortFilters out) s) else Err ErrFilterNotListed
          | SelectionAll =>
              match checkAllFilters s out with
              | Err e => Err e
              | Ok _ => Ok (withFilters (sortFilters out) s)
              end
          | _ => Err ErrFilterMode
          end
      end
  end.

(** The fields each mode needs and allows. *)
Definition modeFields (s : DatabaseSelection) : result SelErr unit :=
  let discovering := negb (bool_decide (selInclude s = [])) || negb (bool_decide (selExclude s = [])) || selAutoIncludeNew s in
  match selMode s with
  | SelectionSingle =>
      if negb (Nat.eqb (length (selDatabases s)) 1) then Err ErrModeFields
      else if discovering then Err ErrModeFields else Ok tt
  | SelectionList =>
      if bool_decide (selDatabases s = []) then Err ErrModeFields
      else if discovering then Err ErrModeFields else Ok tt
  | SelectionAll => if bool_decide (selInclude s = []) then Ok tt else Err ErrModeFields
  | SelectionPattern => if bool_decide (selInclude s = []) then Err ErrModeFields else Ok tt
  | SelectionNone | SelectionOther _ => Err ErrUnknownMode
  end.

Definition Normalize (s : DatabaseSelection) : result SelErr DatabaseSelection :=
  let s := mkSelection (selMode s) (cleanList (selDatabases s)) (selCollectionFilters s) (cleanList (selInclude s))
             (cleanList (selExclude s)) (selAutoIncludeNew s) in
  if Nat.ltb MaxSelectionDatabases (length (selDatabases s)) then Err ErrTooMany
  else if Nat.ltb MaxSelectionPatterns (length (selInclude s)) || Nat.ltb MaxSelectionPatterns (length (selExclude s))
  then Err ErrTooMany
  else if negb (forallb ValidateDatabaseName (selDatabases s)) then Err ErrInvalidNamespace
  else if negb (forallb ValidateDatabasePattern (selInclude s)) then Err ErrInvalidNamespace
  else if negb (forallb ValidateDatabasePattern (selExclude s)) then Err ErrInvalidNamespace
  else match modeFields s with
  | Err e => Err e
  | Ok _ =>
      if Multi s && existsb IsSystemDatabase (selDatabases s) then Err ErrSystemDatabase
      else normalizeFilters s
  end.

(** The filter of a database. *)
Definition FilterFor (name : string) (s : DatabaseSelection) : option DatabaseFilter :=
  head (filter (λ f, fName f = name) (selCollectionFilters s)).

(** ** Resolution *)

Inductive ExcludedReason : Type :=
| ExcludedSystem | ExcludedByPattern | ExcludedNotMatched | ExcludedNotSelected | ExcludedNew | ExcludedNotFound.

Record ExcludedDatabase : Type := mkExcluded { exName : string; exReason : ExcludedReason; exPattern : string }.

(** The notes of a resolution. *)
Inductive Warning : Type := IncludeUnmatched (p : string) | ExcludeUnmatched (p : string) | MatchesNothing.

Record DatabaseResolution : Type := mkResolution {
  resIncluded : list string;
  resExcluded : list ExcludedDatabase;
  resMissing : list string;
  resNew : list string;
  resKnown : option (list string);
  resWarnings : list Warning
}.

(** The variables [ResolveSelection] fills. *)
Record Resolving : Type := mkResolving {
  included : gset string;
  excluded : gmap string ExcludedDatabase;
  missing_ : list string;
  new_ : list string;
  known_ : option (list string)
}.

Definition include (name : string) (r : Resolving) : Resolving :=
  mkResolving ({[name]} ∪ included r) (delete name (excluded r)) (missing_ r) (new_ r) (known_ r).

Definition exclude (name : string) (reason : ExcludedReason) (pattern : string) (r : Resolving) : Resolving :=
  if bool_decide (name ∈ included r) then r
  else mkResolving (included r) (<[name := mkExcluded name reason pattern]> (excluded r)) (missing_ r) (new_ r) (known_ r).

Definition missing (name : string) (r : Resolving) : Resolving :=
  exclude name ExcludedNotFound ""
    (mkResolving (included r) (excluded r) (missing_ r ++ [name]) (new_ r) (known_ r)).

Definition addNew (name : string) (r : Resolving) : Resolving :=
  mkResolving (included r) (excluded r) (missing_ r) (new_ r ++ [name]) (known_ r).

(** [res.Known = append(res.Known, name)]. *)
Definition addKnown (name : string) (r : Resolving) : Resolving :=
  mkResolving (included r) (excluded r) (missing_ r) (new_ r) (Some (default [] (known_ r) ++ [name])).

Definition systemOr (name : string) (reason : ExcludedReason) : ExcludedReason :=
  if IsSystemDatabase name then ExcludedSystem else reason.

(** The loop over the named databases. *)
Definition addNamed (server : list string) (r : Resolving) (name : string) : Resolving :=
  if bool_decide (name ∈ server) then include name r else missing name r.

(** The loop that excludes the databases a single or list selection does not name. *)
Definition addRest (r : Resolving) (name : string) : Resolving :=
  if bool_decide (name ∈ included r) then r else exclude name (systemOr name ExcludedNotSelected) "" r.

(** Whether an all or pattern selection matches a database of the server, with the
    reason why not. *)
Definition matchServer (s : DatabaseSelection) (name : string) : option (ExcludedReason * string) :=
  if IsSystemDatabase name then Some (ExcludedSystem, "")
  else if bool_decide (selMode s = SelectionPattern) && bool_decide (matchesAny (selInclude s) name = "")
  then Some (ExcludedNotMatched, "")
  else if negb (bool_decide (matchesAny (selExclude s) name = ""))
  then Some (ExcludedByPattern, matchesAny (selExclude s) name)
  else None.

Definition addUnmatched (s : DatabaseSelection) (r : Resolving) (name : string) : Resolving :=
  match matchServer s name with Some (reason, p) => exclude name reason p r | None => r end.

(** The matched databases, sorted. *)
Definition matched (s : DatabaseSelection) (server : list string) : list string :=
  stable_sort (cmpLess strCmp) (filter (λ n, matchServer s n = None) server).

(** The loop over the matched databases. *)
Definition addMatched (s : DatabaseSelection) (known : option (list string)) (r : Resolving) (name : string) : Resolving :=
  match known with
  | None => include name (addKnown name r)
  | Some k =>
      if bool_decide (name ∈ k) then include name r
      else
        let r := addNew name r in
        if selAutoIncludeNew s then include name (addKnown name r) else exclude name ExcludedNew "" r
  end.

(** [slices.Compact]: drops repeated neighbours. *)
Fixpoint compact (l : list string) : list string :=
  match l with
  | [] => []
  | x :: l => match l with
              | y :: _ => if bool_decide (x = y) then compact l else x :: compact l
              | [] => [x]
              end
  end.

(** The patterns that match no database of the server. *)
Definition unmatched (server patterns : list string) : list string :=
  filter (λ p, negb (existsb (MatchDatabasePattern p) server)) patterns.

(** The resolution before the results are sorted. *)
Definition resolve (s : DatabaseSelection) (server : list string) (known : option (list string)) : Resolving :=
  let r := mkResolving ∅ ∅ [] [] None in
  match selMode s with
  | SelectionSingle | SelectionNone => foldl addRest (foldl (λ r n, include n r) r (selDatabases s)) server
  | SelectionList => foldl addRest (foldl (addNamed server) r (selDatabases s)) server
  | SelectionAll | SelectionPattern =>
      let r := foldl (addUnmatched s) r server in
      let r := mkResolving (included r) (excluded r) (missing_ r) (new_ r) known in
      let r := foldl (addMatched s known) r (matched s server) in
      let known := compact (stable_sort (cmpLess strCmp) (default [] (known_ r))) in
      let r := mkResolving (included r) (excluded r) (missing_ r) (new_ r) (Some known) in
      foldl (addNamed server) r (selDatabases s)
  | SelectionOther _ => r
  end.

Definition ResolveSelection (s : DatabaseSelection) (server : list string) (known : option (list string))
  : DatabaseResolution :=
  let r := resolve s server known in
  let inc := stable_sort (cmpLess strCmp) (elements (included r)) in
  mkResolution inc
    (stable_sort (cmpLess (λ a b, strCmp (exName a) (exName b))) (map_to_list (excluded r)).*2)
    (missing_ r) (new_ r) (known_ r)
    ((if Discovers s then (IncludeUnmatched <$> unmatched server (selInclude s))
                          ++ (ExcludeUnmatched <$> unmatched server (selExclude s)) else []) ++
     (if bool_decide (inc = []) && Multi s then [MatchesNothing] else [])).

(** [DatabaseSelection.Matches]. *)
Definition Matches (name : string) (s : DatabaseSelection) : bool :=
  if bool_decide (name ∈ selDatabases s) then true
  else match selMode s with
  | SelectionAll => negb (IsSystemDatabase name) && bool_decide (matchesAny (selExclude s) name = "")
  | SelectionPattern =>
      negb (IsSystemDatabase name) && negb (bool_decide (matchesAny (selInclude s) name = ""))
      && bool_decide (matchesAny (selExclude s) name = "")
  | _ => false
  end.

(** ** What a resolution includes *)

Lemma included_exclude n reason p r : included (exclude n reason p r) = included r.
Proof. unfold exclude. by destruct (bool_decide _). Qed.

Lemma included_missing n r : included (missing n r) = included r.
Proof. unfold missing. by rewrite included_exclude. Qed.

(** A loop that includes the names that satisfy [P]. *)
Lemma foldl_included (f : Resolving -> string -> Resolving) (P : string -> Prop) l :
  (∀ r n x, x ∈ included (f r n) <-> x ∈ included r \/ (x = n /\ P n)) ->
  ∀ r x, x ∈ included (foldl f r l) <-> x ∈ included r \/ (x ∈ l /\ P x).
Proof.
  intros Hf. induction l as [|n l IH]; intros r x; simpl; [set_solver|]. rewrite IH, Hf, elem_of_cons.
  split; [intros [[?|[-> ?]]|?]|intros [?|[[->|?] ?]]]; tauto.
Qed.

Lemma included_addNamed server r n x :
  x ∈ included (addNamed server r n) <-> x ∈ included r \/ (x = n /\ n ∈ server).
Proof.
  unfold addNamed. case_bool_decide as Hs; [simpl; set_solver|]. rewrite included_missing. naive_solver.
Qed.

Lemma included_addRest r n x : x ∈ included (addRest r n) <-> x ∈ included r \/ (x = n /\ False).
Proof. unfold addRest. case_bool_decide; rewrite ?included_exclude; naive_solver. Qed.

Lemma included_addUnmatched s r n x : x ∈ included (addUnmatched s r n) <-> x ∈ included r \/ (x = n /\ False).
Proof. unfold addUnmatched. destruct (matchServer s n) as [[]|]; rewrite ?included_exclude; naive_solver. Qed.

(** A matched database is backed up: the job knows it, or takes new ones. *)
Definition backedUp (s : DatabaseSelection) (known : option (list string)) (n : string) : Prop :=
  match known with None => True | Some k => n ∈ k \/ selAutoIncludeNew s = true end.

Lemma included_addMatched s known r n x :
  x ∈ included (addMatched s known r n) <-> x ∈ included r \/ (x = n /\ backedUp s known n).
Proof.
  unfold addMatched, backedUp. destruct known as [k|]; [|simpl; set_solver].
  case_bool_decide; [simpl; set_solver|]. destruct (selAutoIncludeNew s); rewrite ?included_exclude; simpl; set_solver.
Qed.

Lemma elem_of_matched s server n : n ∈ matched s server <-> n ∈ server /\ matchServer s n = None.
Proof. unfold matched. rewrite elem_of_stable_sort, list_elem_of_filter. tauto. Qed.

(** A server's database is matched as [Matches] says, the named ones aside. *)
Lemma matchServer_Matches s n :
  Discovers s = true -> n ∉ selDatabases s -> matchServer s n = None <-> Matches n s = true.
Proof.
  unfold Discovers, Matches, matchServer. intros Hd Hn. rewrite (bool_decide_false (n ∈ selDatabases s)) by done.
  destruct (selMode s); try discriminate Hd; simpl; destruct (IsSystemDatabase n); simpl; try done;
    repeat (case_bool_decide; simpl; try done).
Qed.

Lemma elem_of_resIncluded s server known n :
  n ∈ resIncluded (ResolveSelection s server known) <-> n ∈ included (resolve s server known).
Proof. simpl. by rewrite elem_of_stable_sort, elem_of_elements. Qed.

Lemma resolve_discovers s server known n :
  Discovers s = true ->
  n ∈ included (resolve s server known) <->
  n ∈ server /\ (n ∈ selDatabases s \/ (matchServer s n = None /\ backedUp s known n)).
Proof.
  intros Hd. unfold resolve. unfold Discovers in Hd.
  assert (∀ r, n ∈ included (foldl (addNamed server) r (selDatabases s)) <->
               n ∈ included r \/ (n ∈ selDatabases s /\ n ∈ server)) as Hnamed
    by (intros r; by rewrite (foldl_included _ (λ x, x ∈ server) _ (included_addNamed server))).
  destruct (selMode s); try discriminate Hd; rewrite Hnamed; simpl;
    rewrite (foldl_included _ (backedUp s known) _ (included_addMatched s known)); simpl;
    rewrite (foldl_included _ (λ _, False) _ (included_addUnmatched s)); simpl;
    rewrite elem_of_matched, elem_of_empty; tauto.
Qed.

(** An all or pattern selection backs up exactly the server's databases it names
    and those it matches ([Matches]) that the job knows, that were never recorded
    before, or that appeared since on a job that takes new databases. *)
Theorem resolution_exact s server known n :
  Discovers s = true ->
  n ∈ resIncluded (ResolveSelection s server known) <->
  n ∈ server /\ (n ∈ selDatabases s \/ (Matches n s = true /\ backedUp s known n)).
Proof.
  intros Hd. rewrite elem_of_resIncluded, resolve_discovers by done. apply and_iff_compat_l.
  destruct (decide (n ∈ selDatabases s)); [tauto|]. by rewrite matchServer_Matches.
Qed.

(** ** Partition *)

(** Nothing is both included and excluded. *)
Definition disjointR (r : Resolving) : Prop :=
  ∀ n e, excluded r !! n = Some e -> n ∉ included r /\ exName e = n.

Lemma include_disjoint n r : disjointR r -> disjointR (include n r).
Proof. intros H m e. simpl. intros [Hne He]%lookup_delete_Some. apply H in He as [? ?]. set_solver. Qed.

Lemma exclude_disjoint n reason p r : disjointR r -> disjointR (exclude n reason p r).
Proof.
  intros H. unfold exclude. case_bool_decide; [done|]. intros m e. simpl. rewrite lookup_insert.
  case_decide; [|apply H]. by intros [= <-]; subst.
Qed.

Lemma missing_disjoint n r : disjointR r -> disjointR (missing n r).
Proof. intros H. by apply exclude_disjoint. Qed.

Lemma foldl_disjoint (f : Resolving -> string -> Resolving) l r :
  (∀ r n, disjointR r -> disjointR (f r n)) -> disjointR r -> disjointR (foldl f r l).
Proof. intros Hf. revert r. induction l; simpl; auto. Qed.

Lemma step_disjoint s server known :
  (∀ r n, disjointR r -> disjointR (addNamed server r n)) /\ (∀ r n, disjointR r -> disjointR (addRest r n)) /\
  (∀ r n, disjointR r -> disjointR (addUnmatched s r n)) /\ (∀ r n, disjointR r -> disjointR (addMatched s known r n)).
Proof.
  split_and!; intros r n Hr; unfold addNamed, addRest, addUnmatched, addMatched;
    repeat case_match; eauto using include_disjoint, missing_disjoint, exclude_disjoint.
Qed.

Lemma resolve_disjoint s server known : disjointR (resolve s server known).
Proof.
  destruct (step_disjoint s server known) as (Hn & Hr & Hu & Hm).
  assert (disjointR (mkResolving ∅ ∅ [] [] None)) as H0 by (intros n e; simpl; by rewrite lookup_empty).
  unfold resolve. destruct (selMode s); try done; repeat (apply foldl_disjoint; [done|]); try done.
  1,2: apply foldl_disjoint; [by intros; apply include_disjoint|done].
  all: assert (∀ a b c d e e', disjointR (mkResolving a b c d e) -> disjointR (mkResolving a b c d e')) as Hk by done.
  all: eapply Hk; apply foldl_disjoint; [done|]; eapply Hk; by apply foldl_disjoint.
Qed.

(** A database a resolution has decided about. *)
Definition decided (n : string) (r : Resolving) : Prop := n ∈ included r \/ is_Some (excluded r !! n).

Lemma decided_include n m r : decided n r \/ n = m -> decided n (include m r).
Proof.
  unfold decided. simpl. destruct (decide (n = m)) as [->|Hne]; [set_solver|].
  rewrite lookup_delete_ne by done. set_solver.
Qed.

Lemma decided_exclude n m reason p r : decided n r \/ n = m -> decided n (exclude m reason p r).
Proof.
  unfold decided, exclude. case_bool_decide; [naive_solver|]. simpl. rewrite lookup_insert.
  case_decide; [by eauto|]. intros [?|?]; [done|congruence].
Qed.

Lemma decided_missing n m r : decided n r \/ n = m -> decided n (missing m r).
Proof. intros Hd. unfold missing. apply decided_exclude. exact Hd. Qed.

Lemma decided_steps s server known n m r :
  (decided n r -> decided n (addNamed server r m)) /\ (decided n r \/ n = m -> decided n (addRest r m)) /\
  (decided n r \/ (n = m /\ matchServer s m <> None) -> decided n (addUnmatched s r m)) /\
  (decided n r \/ n = m -> decided n (addMatched s known r m)).
Proof.
  split_and!; intros Hd; unfold addNamed, addRest, addUnmatched, addMatched.
  - case_bool_decide; auto using decided_include, decided_missing.
  - case_bool_decide; [destruct Hd as [?| ->]; [done|by left]|]. by apply decided_exclude.
  - destruct (matchServer s m) as [[]|]; [apply decided_exclude; tauto|tauto].
  - destruct known as [k|]; [|apply decided_include; exact Hd].
    case_bool_decide; [by apply decided_include|].
    destruct (selAutoIncludeNew s); [apply decided_include|apply decided_exclude]; exact Hd.
Qed.

Lemma foldl_decided (f : Resolving -> string -> Resolving) (P : string -> Prop) n l r :
  (∀ r m, decided n r \/ (n = m /\ P m) -> decided n (f r m)) ->
  decided n r \/ (n ∈ l /\ P n) -> decided n (foldl f r l).
Proof.
  intros Hf. revert r. induction l as [|m l IH]; intros r Hd; simpl; [set_solver|].
  apply IH. rewrite elem_of_cons in Hd. destruct Hd as [?|[[->|?] ?]]; auto.
Qed.

Lemma decided_known n r k :
  decided n r -> decided n (mkResolving (included r) (excluded r) (missing_ r) (new_ r) k).
Proof. done. Qed.

Lemma resolve_decided s server known n :
  (∀ m, selMode s <> SelectionOther m) -> n ∈ server -> decided n (resolve s server known).
Proof.
  intros Hm Hn. unfold resolve.
  assert (∀ r m, decided n r \/ (n = m /\ True) -> decided n (addRest r m)) as Hrest.
  { intros r m Hd. apply (decided_steps s server known n m r). tauto. }
  assert (∀ r, decided n r -> decided n (foldl (addNamed server) r (selDatabases s))) as Hnamed.
  { intros r Hd. apply (foldl_decided _ (λ _, False)); [|by left].
    intros r' m Hd'. apply (decided_steps s server known n m r'). tauto. }
  assert (∀ r, decided n r \/ matchServer s n = None ->
            decided n (foldl (addMatched s known) r (matched s server))) as Hmatch.
  { intros r Hd. apply (foldl_decided _ (λ _, True)); [|rewrite elem_of_matched; tauto].
    intros r' m Hd'. apply (decided_steps s server known n m r'). tauto. }
  assert (∀ r, matchServer s n <> None -> decided n (foldl (addUnmatched s) r server)) as Hun.
  { intros r Hne. apply (foldl_decided _ (λ m, matchServer s m <> None)); [|by right].
    intros r' m Hd'. by apply (decided_steps s server known n m r'). }
  destruct (selMode s) eqn:Hmode; try (by exfalso; eapply Hm).
  1-3: apply (foldl_decided _ (λ _, True)); auto.
  all: apply Hnamed, (decided_known n), Hmatch; destruct (matchServer s n) eqn:E; [left|by right];
    apply (decided_known n), Hun; congruence.
Qed.

(** A resolution decides about every database of the server, once: it is in the
    included ones or in the excluded ones with a reason, never in both. *)
Theorem resolution_partition s server known n :
  (∀ m, selMode s <> SelectionOther m) -> n ∈ server ->
  (n ∈ resIncluded (ResolveSelection s server known) /\ n ∉ exName <$> resExcluded (ResolveSelection s server known)) \/
  (n ∉ resIncluded (ResolveSelection s server known) /\ n ∈ exName <$> resExcluded (ResolveSelection s server known)).
Proof.
  intros Hm Hn. rewrite elem_of_resIncluded.
  assert (n ∈ exName <$> resExcluded (ResolveSelection s server known) <->
          is_Some (excluded (resolve s server known) !! n)) as ->.
  { simpl. rewrite list_elem_of_fmap. setoid_rewrite elem_of_stable_sort. setoid_rewrite list_elem_of_fmap. split.
    - intros (e & -> & [k e'] & -> & Hk%elem_of_map_to_list). simpl.
      destruct (resolve_disjoint s server known _ _ Hk) as [_ ->]. by eexists.
    - intros [e He]. exists e. destruct (resolve_disjoint s server known _ _ He) as [_ Hname]. split; [done|].
      exists (n, e). split; [done|]. by apply elem_of_map_to_list. }
  destruct (resolve_decided s server known n Hm Hn) as [Hin|[e He]].
  - left. split; [done|]. intros [e He]. by destruct (resolve_disjoint s server known _ _ He).
  - right. destruct (resolve_disjoint s server known _ _ He). by split; [|eexists].
Qed.

(** ** Normalized selections *)

Lemma cleanLoop_spec l : ∀ out,
  NoDup out -> "" ∉ out ->
  NoDup (cleanLoop l out) /\ "" ∉ cleanLoop l out /\
  ∀ x, x ∈ cleanLoop l out <-> x ∈ out \/ (x <> "" /\ x ∈ TrimSpace <$> l).
Proof.
  induction l as [|v l IH]; intros out Hnd He; simpl.
  - split; [by rewrite reverse_Permutation|]. split; [by rewrite elem_of_reverse|].
    intros x. rewrite elem_of_reverse. set_solver.
  - destruct (negb _ && negb _) eqn:E; bool_cases.
    + destruct (IH (TrimSpace v :: out)) as (? & ? & Hx); [by constructor|set_solver|].
      split_and!; try done. intros x. rewrite Hx, !elem_of_cons. split; [|tauto]. intros [[->|?]|?]; tauto.
    + destruct (IH out) as (? & ? & Hx); [done..|]. split_and!; try done.
      intros x. rewrite Hx, elem_of_cons. apply andb_false_iff in E as [E|E]; bool_cases; naive_solver.
Qed.

(** [normalizeFilters] changes only the filters. *)
Lemma normalizeFilters_frame s s' :
  normalizeFilters s = Ok s' -> selMode s' = selMode s /\ selDatabases s' = selDatabases s.
Proof.
  unfold normalizeFilters. intros Hf.
  assert (∃ l, s' = withFilters l s) as [l ->]; [|done].
  repeat case_match; try discriminate Hf; injection Hf as <-; eauto.
Qed.

(** What [Normalize] leaves of the lists is clean, and its other fields are the
    selection's. *)
Lemma Normalize_Ok s s' :
  Normalize s = Ok s' ->
  selMode s' = selMode s /\ selDatabases s' = cleanList (selDatabases s) /\
  Forall (λ n, ValidateDatabaseName n = true) (selDatabases s') /\
  (Multi s' = true -> Forall (λ n, IsSystemDatabase n = false) (selDatabases s')).
Proof.
  unfold Normalize. set (s0 := mkSelection _ _ _ _ _ _). destruct (Nat.ltb _ _); [done|]. destruct (_ || _); [done|].
  destruct (forallb ValidateDatabaseName _) eqn:Hv; [|done]. simpl. do 2 (destruct (negb _); [done|]).
  destruct (modeFields s0); [|done]. destruct (Multi s0 && _) eqn:Hsys; [done|]. intros Hf.
  assert (selMode s' = selMode s0 /\ selDatabases s' = selDatabases s0) as [Hm Hd].
  { by apply normalizeFilters_frame. }
  split; [by rewrite Hm|]. split; [by rewrite Hd|]. rewrite Hd. split.
  - apply Forall_forall. intros n Hn. rewrite forallb_forall in Hv. by apply Hv, list_elem_of_In.
  - unfold Multi. rewrite Hm. fold (Multi s0). intros Hmu. rewrite Hmu in Hsys. simpl in Hsys.
    apply Forall_forall. intros n Hn. apply not_true_iff_false. intros Hs.
    apply not_true_iff_false in Hsys. apply Hsys, existsb_exists. exists n. split; [by apply list_elem_of_In|done].
Qed.

(** A normalized selection of several databases never backs up admin, config or
    local, whatever the server has and the job knew. *)
Theorem normalized_never_system s s' server known n :
  Normalize s = Ok s' -> Multi s' = true -> n ∈ resIncluded (ResolveSelection s' server known) ->
  IsSystemDatabase n = false.
Proof.
  intros (_ & _ & _ & Hsys)%Normalize_Ok Hmu. specialize (Hsys Hmu). rewrite Forall_forall in Hsys.
  rewrite elem_of_resIncluded. unfold Multi in Hmu. destruct (Discovers s') eqn:Hd.
  - rewrite resolve_discovers by done. intros [_ [?|[Hms _]]]; [by apply Hsys|].
    unfold matchServer in Hms. by destruct (IsSystemDatabase n).
  - unfold resolve, Discovers in *. destruct (selMode s') eqn:Hm; try discriminate; simpl.
    + rewrite (foldl_included _ (λ _, False) _ included_addRest).
      rewrite (foldl_included _ (λ x, x ∈ server) _ (included_addNamed server)). simpl.
      intros [[?|[? _]]|[_ []]]; [set_solver|by apply Hsys].
Qed.

(** ** A concrete selection *)

Definition demoSelection : DatabaseSelection :=
  mkSelection SelectionPattern ["extra"] [] ["app_*"] ["*_tmp"] false.

Definition demoServer : list string := ["admin"; "app_a"; "app_b_tmp"; "app_c"; "extra"; "other"].

Lemma resolution_exact_witness :
  Discovers demoSelection = true /\
  ("app_a" ∈ resIncluded (ResolveSelection demoSelection demoServer (Some ["app_a"])) <->
   "app_a" ∈ demoServer /\ ("app_a" ∈ selDatabases demoSelection \/
     (Matches "app_a" demoSelection = true /\ backedUp demoSelection (Some ["app_a"]) "app_a"))).
Proof. split; [reflexivity|]. apply (resolution_exact demoSelection demoServer (Some ["app_a"]) "app_a"). reflexivity. Defined.

Lemma resolution_partition_witness :
  ("app_c" ∈ resIncluded (ResolveSelection demoSelection demoServer (Some ["app_a"])) /\
   "app_c" ∉ exName <$> resExcluded (ResolveSelection demoSelection demoServer (Some ["app_a"]))) \/
  ("app_c" ∉ resIncluded (ResolveSelection demoSelection demoServer (Some ["app_a"])) /\
   "app_c" ∈ exName <$> resExcluded (ResolveSelection demoSelection demoServer (Some ["app_a"]))).
Proof.
  apply (resolution_partition demoSelection demoServer (Some ["app_a"]) "app_c").
  - intros m. discriminate.
  - do 3 right. left.
Defined.

Lemma normalized_never_system_witness :
  Normalize demoSelection = Ok demoSelection /\ IsSystemDatabase "app_a" = false.
Proof.
  assert (Normalize demoSelection = Ok demoSelection) as Hn by (vm_compute; reflexivity).
  split; [exact Hn|].
  apply (normalized_never_system demoSelection demoSelection demoServer (Some ["app_a"]) "app_a" Hn); [reflexivity|].
  vm_compute. left.
Defined.
