(* ===== verification/Runs.v ===== *)
(** * The run manager (src/internal/runs/runs.go, critical.go)

    Keys that operations hold alone or shared, the operations started with [Go], and
    the critical steps a shutdown waits for. Every method runs under [Manager.mu] and
    is one function on the manager; the release functions the methods return are
    handles of the system at the end of the file. The slots of the same manager are in
    Slots. *)

From S2P Require Import Prelude.

Local Open Scope rescue_scope.

Inductive RunErr : Type := ErrBusy | ErrShuttingDown | ErrAdmission.

(** [mAdmit] is what the installed admission callback answers now, [None] for none. *)
Record Manager : Type := mkManager {
  mActive : gset string;
  mShared : gmap string Z;
  mClosed : bool;
  mRefusing : bool;
  mAdmit : option bool;
  mStarted : Z;
  mCritical : Z
}.

Definition NewManager : Manager := mkManager ∅ ∅ false false None 0 0.

Definition withActive (a : gset string) (m : Manager) : Manager :=
  mkManager a (mShared m) (mClosed m) (mRefusing m) (mAdmit m) (mStarted m) (mCritical m).
Definition withShared (s : gmap string Z) (m : Manager) : Manager :=
  mkManager (mActive m) s (mClosed m) (mRefusing m) (mAdmit m) (mStarted m) (mCritical m).
Definition withFlags (closed refusing : bool) (admission : option bool) (m : Manager) : Manager :=
  mkManager (mActive m) (mShared m) closed refusing admission (mStarted m) (mCritical m).
Definition withCounts (started critical : Z) (m : Manager) : Manager :=
  mkManager (mActive m) (mShared m) (mClosed m) (mRefusing m) (mAdmit m) started critical.

(** ** Keys *)

Definition BackupKey (connectionID database : string) : string := "backup:" +:+ connectionID +:+ "/" +:+ database.
Definition PITRBaseKey (connectionID : string) : string := "pitr-base:" +:+ connectionID.
Definition RestoreKey (connectionID database : string) : string := "restore:" +:+ connectionID +:+ "/" +:+ database.
Definition InstanceKey (connectionID : string) : string := "instance:" +:+ connectionID.

Definition isRunKey (key : string) : bool :=
  String.prefix "backup:" key || String.prefix "restore:" key || String.prefix "pitr-base:" key.

Definition isEmptyKey (key : string) : bool := bool_decide (key = "").

(** ** Operations *)

Definition checkAdmissionLocked (key : string) (m : Manager) : result RunErr unit :=
  match mAdmit m with
  | None => Ok tt
  | Some accepts => if negb (isRunKey key) then Ok tt else if accepts then Ok tt else Err ErrAdmission
  end.

Definition sharedCount (key : string) (m : Manager) : Z := default 0 (mShared m !! key).

Definition reserveLocked (key : string) (m : Manager) : result RunErr Manager :=
  if isEmptyKey key then Ok m
  else if bool_decide (key ∈ mActive m) || (sharedCount key m >? 0) then Err ErrBusy
  else Ok (withActive ({[key]} ∪ mActive m) m).

Definition Acquire (key : string) (m : Manager) : result RunErr Manager :=
  if mClosed m || mRefusing m then Err ErrShuttingDown
  else
    _ <-! checkAdmissionLocked key m;
    reserveLocked key m.

(** [Go] up to the start of its goroutine, whose body and deferred calls follow as
    [releaseKey] and [returned]. *)
Definition Go (key : string) (m : Manager) : result RunErr Manager :=
  if mClosed m || mRefusing m then Err ErrShuttingDown
  else
    _ <-! checkAdmissionLocked key m;
    m1 <-! reserveLocked key m;
    Ok (withCounts (mStarted m1 + 1) (mCritical m1) m1).

Definition releaseKey (key : string) (m : Manager) : Manager :=
  if isEmptyKey key then m else withActive (mActive m ∖ {[key]}) m.

Definition returned (m : Manager) : Manager := withCounts (mStarted m - 1) (mCritical m) m.

Definition AcquireShared (key : string) (m : Manager) : result RunErr Manager :=
  if mClosed m || mRefusing m then Err ErrShuttingDown
  else if bool_decide (key ∈ mActive m) then Err ErrBusy
  else Ok (withShared (<[key := sharedCount key m + 1]> (mShared m)) m).

Definition releaseShared (key : string) (m : Manager) : Manager :=
  let n := sharedCount key m - 1 in
  withShared (if n <=? 0 then delete key (mShared m) else <[key := n]> (mShared m)) m.

Definition Refuse (m : Manager) : Manager := withFlags (mClosed m) true (mAdmit m) m.
Definition Accept (m : Manager) : Manager := withFlags (mClosed m) false (mAdmit m) m.
Definition SetAdmission (admission : option bool) (m : Manager) : Manager := withFlags (mClosed m) (mRefusing m) admission m.
Definition Shutdown (m : Manager) : Manager := withFlags true (mRefusing m) (mAdmit m) m.

Definition Critical (m : Manager) : Manager := withCounts (mStarted m) (mCritical m + 1) m.
Definition endCritical (m : Manager) : Manager := withCounts (mStarted m) (mCritical m - 1) m.

Definition Running (key : string) (m : Manager) : bool := bool_decide (key ∈ mActive m).
Definition Idle (m : Manager) : bool := Nat.eqb (size (mActive m)) 0 && (mStarted m =? 0).
Definition CriticalCount (m : Manager) : Z := mCritical m.

(** ** The manager and its callers

    A handle is the release function of one call: what releasing it still does. The
    deferred calls of a goroutine of [Go] run in two critical sections, first the
    release of its key ([HGo] to [HReturned]), then the decrement of [started]. *)

Inductive handle : Type :=
| HAlone (key : string)
| HShared (key : string)
| HGo (key : string)
| HReturned
| HCritical
| HDone.

Record World : Type := mkWorld { wManager : Manager; wHandles : gmap nat handle; wNext : nat }.

Definition start : World := mkWorld NewManager ∅ 0.

Inductive op : Type :=
| OAcquire (key : string)
| OGo (key : string)
| OAcquireShared (key : string)
| OCritical
| ORelease (h : nat)
| ORefuse | OAccept | OShutdown
| OSetAdmission (admission : option bool).

(** A call that returns a handle on success, and changes nothing on error. *)
Definition call (r : result RunErr Manager) (h : handle) (w : World) : World :=
  match r with
  | Ok m => mkWorld m (<[wNext w := h]> (wHandles w)) (S (wNext w))
  | Err _ => w
  end.

Definition onManager (f : Manager -> Manager) (w : World) : World :=
  mkWorld (f (wManager w)) (wHandles w) (wNext w).

(** Calling the release function [h]: each runs its effect once. *)
Definition release (h : nat) (w : World) : World :=
  let to m x := mkWorld m (<[h := x]> (wHandles w)) (wNext w) in
  match wHandles w !! h with
  | Some (HAlone key) => to (releaseKey key (wManager w)) HDone
  | Some (HShared key) => to (releaseShared key (wManager w)) HDone
  | Some (HGo key) => to (releaseKey key (wManager w)) HReturned
  | Some HReturned => to (returned (wManager w)) HDone
  | Some HCritical => to (endCritical (wManager w)) HDone
  | Some HDone | None => w
  end.

Definition exec (w : World) (o : op) : World :=
  match o with
  | OAcquire key => call (Acquire key (wManager w)) (HAlone key) w
  | OGo key => call (Go key (wManager w)) (HGo key) w
  | OAcquireShared key => call (AcquireShared key (wManager w)) (HShared key) w
  | OCritical => call (Ok (Critical (wManager w))) HCritical w
  | ORelease h => release h w
  | ORefuse => onManager Refuse w
  | OAccept => onManager Accept w
  | OShutdown => onManager Shutdown w
  | OSetAdmission admission => onManager (SetAdmission admission) w
  end.

Definition run (ops : list op) : World := foldl exec start ops.

(** ** The invariant *)

Definition alone (key : string) (h : handle) : bool :=
  match h with HAlone k | HGo k => bool_decide (k = key) && negb (isEmptyKey key) | _ => false end.
Definition sharing (key : string) (h : handle) : bool :=
  match h with HShared k => bool_decide (k = key) | _ => false end.
Definition isStarted (h : handle) : bool := match h with HGo _ | HReturned => true | _ => false end.
Definition isCritical (h : handle) : bool := match h with HCritical => true | _ => false end.

Record Inv (w : World) : Prop := mkInv {
  inv_active : ∀ k, countIf (alone k) (wHandles w) = b2z (bool_decide (k ∈ mActive (wManager w)));
  inv_shared : ∀ k, countIf (sharing k) (wHandles w) = sharedCount k (wManager w);
  inv_apart : ∀ k, k ∈ mActive (wManager w) -> sharedCount k (wManager w) = 0;
  inv_started : mStarted (wManager w) = countIf isStarted (wHandles w);
  inv_critical : mCritical (wManager w) = countIf isCritical (wHandles w);
  inv_next : ∀ h, (wNext w <= h)%nat -> wHandles w !! h = None
}.

Lemma runs_start_inv : Inv start.
Proof. split; intros; simpl; rewrite ?countIf_empty; unfold sharedCount; simpl; set_solver. Qed.

(** How replacing the handle [x] by [y] changes the manager's books. *)
Record books (m m' : Manager) (x : option handle) (y : handle) : Prop := mkBooks {
  bk_active : ∀ k, b2z (bool_decide (k ∈ mActive m')) =
    b2z (bool_decide (k ∈ mActive m)) - share (alone k) x + b2z (alone k y);
  bk_shared : ∀ k, sharedCount k m' = sharedCount k m - share (sharing k) x + b2z (sharing k y);
  bk_apart : ∀ k, k ∈ mActive m' -> sharedCount k m' = 0;
  bk_started : mStarted m' = mStarted m - share isStarted x + b2z (isStarted y);
  bk_critical : mCritical m' = mCritical m - share isCritical x + b2z (isCritical y)
}.

Lemma books_inv w m' h y n :
  Inv w -> books (wManager w) m' (wHandles w !! h) y -> (h < n)%nat -> (wNext w <= n)%nat ->
  Inv (mkWorld m' (<[h := y]> (wHandles w)) n).
Proof.
  intros HI HB Hh Hn. split; simpl; intros; rewrite ?countIf_share.
  - by rewrite (inv_active _ HI), (bk_active _ _ _ _ HB).
  - by rewrite (inv_shared _ HI), (bk_shared _ _ _ _ HB).
  - by apply (bk_apart _ _ _ _ HB).
  - by rewrite <- (inv_started _ HI), (bk_started _ _ _ _ HB).
  - by rewrite <- (inv_critical _ HI), (bk_critical _ _ _ _ HB).
  - rewrite lookup_insert_ne by lia. apply (inv_next _ HI). lia.
Qed.

Lemma call_inv r h w :
  Inv w -> (∀ m, r = Ok m -> books (wManager w) m None h) -> Inv (call r h w).
Proof.
  intros HI HB. destruct r as [m|e]; [|done]. apply books_inv; try done; try lia.
  rewrite (inv_next _ HI) by lia. by apply HB.
Qed.

Lemma handle_bound w h x : Inv w -> wHandles w !! h = Some x -> (h < wNext w)%nat.
Proof. intros HI Hh. destruct (decide (h < wNext w)%nat); [done|]. rewrite (inv_next _ HI) in Hh by lia. done. Qed.

(** A key held alone is active, once. *)
Lemma alone_active w h x k :
  Inv w -> wHandles w !! h = Some x -> alone k x = true -> k ∈ mActive (wManager w).
Proof.
  intros HI Hh Hx. pose proof (countIf_elem _ _ _ _ Hh Hx) as Hc. rewrite (inv_active _ HI) in Hc.
  destruct (bool_decide_reflect (k ∈ mActive (wManager w))); simpl in Hc; [done|lia].
Qed.

Lemma sharing_count w h x k :
  Inv w -> wHandles w !! h = Some x -> sharing k x = true -> 1 <= sharedCount k (wManager w).
Proof. intros HI Hh Hx. rewrite <- (inv_shared _ HI). by apply (countIf_elem _ _ _ _ Hh). Qed.

Lemma reserve_books w key m1 :
  Inv w -> reserveLocked key (wManager w) = Ok m1 -> books (wManager w) m1 None (HAlone key).
Proof.
  intros HI. unfold reserveLocked, isEmptyKey. case_bool_decide as Hk.
  - intros [= <-]. split; simpl; intros; rewrite ?Z.sub_0_r, ?Z.add_0_r; try done; [|by apply HI].
    unfold isEmptyKey. subst key. destruct (decide (k = "")) as [->|Hn].
    + rewrite !(bool_decide_true ("" = "")) by done. simpl. lia.
    + rewrite (bool_decide_false ("" = k)) by congruence. simpl. lia.
  - destruct (_ || _) eqn:Hb; [done|]. intros [= <-]. bool_cases.
    assert (sharedCount key (wManager w) = 0) as Hs.
    { rewrite Z.gtb_ltb in *. bool_cases. pose proof (countIf_nonneg (sharing key) (wHandles w)) as Hn.
      rewrite (inv_shared _ HI) in Hn. lia. }
    split; simpl; intros; rewrite ?Z.sub_0_r, ?Z.add_0_r; try done.
    + unfold isEmptyKey. destruct (decide (k = key)) as [->|Hn].
      * rewrite (bool_decide_true (key ∈ {[key]} ∪ _)) by set_solver.
        rewrite (bool_decide_false (key ∈ _)), (bool_decide_true (key = key)), (bool_decide_false (key = "")); done.
      * rewrite (bool_decide_false (key = k)) by done. simpl. rewrite Z.add_0_r. f_equal. apply bool_decide_ext. set_solver.
    + destruct (decide (k = key)) as [->|Hn]; [done|]. apply HI. set_solver.
Qed.

Lemma shared_books w key :
  Inv w -> key ∉ mActive (wManager w) ->
  books (wManager w) (withShared (<[key := sharedCount key (wManager w) + 1]> (mShared (wManager w))) (wManager w))
    None (HShared key).
Proof.
  intros HI Hk. split; simpl; intros; rewrite ?Z.sub_0_r, ?Z.add_0_r; try done.
  - unfold sharedCount. simpl. destruct (decide (k = key)) as [->|Hn].
    + by rewrite lookup_insert_eq, bool_decide_true.
    + rewrite lookup_insert_ne, (bool_decide_false (key = k)) by done. simpl. lia.
  - unfold sharedCount. simpl. rewrite lookup_insert_ne by set_solver. by apply HI.
Qed.

Lemma active_holder w k :
  Inv w -> k ∈ mActive (wManager w) -> ∃ h x, wHandles w !! h = Some x /\ alone k x = true.
Proof.
  intros HI Hin. apply countIf_pos. rewrite (inv_active _ HI), bool_decide_true by done. simpl. lia.
Qed.

Lemma active_nonempty w : Inv w -> "" ∉ mActive (wManager w).
Proof.
  intros HI Hin. destruct (active_holder _ _ HI Hin) as (h & z & _ & Hz).
  destruct z; simpl in Hz; rewrite ?andb_false_r in Hz; done.
Qed.

Lemma releaseKey_spec w key :
  Inv w -> ∃ a, releaseKey key (wManager w) = withActive a (wManager w) /\
    ∀ k, k ∈ a <-> k ∈ mActive (wManager w) /\ k <> key.
Proof.
  intros HI. unfold releaseKey, isEmptyKey. case_bool_decide as Hk.
  - exists (mActive (wManager w)). split; [by destruct (wManager w)|]. subst key. intros k. split; [|by intros [? _]].
    intros Hin. split; [done|]. intros ->. by apply (active_nonempty _ HI).
  - exists (mActive (wManager w) ∖ {[key]}). split; [done|]. set_solver.
Qed.

Lemma release_books w h x key :
  Inv w -> wHandles w !! h = Some x -> (x = HAlone key \/ x = HGo key) ->
  books (wManager w) (releaseKey key (wManager w)) (Some x) (if isStarted x then HReturned else HDone).
Proof.
  intros HI Hh Hx. destruct (releaseKey_spec w key HI) as (a & -> & Ha).
  assert (∀ k, alone k x = bool_decide (key = k) && negb (isEmptyKey k)) as Hal by (by destruct Hx as [-> | ->]).
  pose proof (λ k, alone_active w h x k HI Hh) as Hin.
  split; [|by intros; destruct Hx as [-> | ->]; unfold sharedCount; simpl; lia
          |intros k Hk; apply (inv_apart _ HI); by apply Ha
          |by destruct Hx as [-> | ->]; simpl; lia|by destruct Hx as [-> | ->]; simpl; lia].
  intros k. specialize (Hin k). rewrite Hal in Hin. simpl. rewrite Hal, (bool_decide_ext _ _ (Ha k)).
  assert (alone k (if isStarted x then HReturned else HDone) = false) as -> by (by destruct (isStarted x)).
  destruct (decide (key = k)) as [->|Hn].
  - rewrite (bool_decide_true (k = k)) in * by done. rewrite (bool_decide_false (_ /\ k <> k)) by tauto.
    unfold isEmptyKey in *. case_bool_decide as He; simpl in *.
    + rewrite bool_decide_false; [done|]. subst k. by apply active_nonempty.
    + rewrite bool_decide_true by auto. done.
  - rewrite (bool_decide_false (key = k)) by done. simpl. rewrite Z.sub_0_r, Z.add_0_r.
    f_equal. apply bool_decide_ext. naive_solver.
Qed.

Lemma releaseShared_books w h key :
  Inv w -> wHandles w !! h = Some (HShared key) ->
  books (wManager w) (releaseShared key (wManager w)) (Some (HShared key)) HDone.
Proof.
  intros HI Hh. assert (1 <= sharedCount key (wManager w)) as Hc.
  { by apply (sharing_count _ _ _ _ HI Hh), bool_decide_eq_true. }
  assert (∀ k, sharedCount k (releaseShared key (wManager w)) =
    sharedCount k (wManager w) - b2z (bool_decide (key = k))) as Hs.
  { intros k. unfold releaseShared, sharedCount in *. simpl. destruct (decide (key = k)) as [->|Hn].
    - rewrite bool_decide_true by done. simpl. destruct (_ <=? 0) eqn:Hz; bool_cases.
      + rewrite lookup_delete_eq. simpl. lia.
      + by rewrite lookup_insert_eq.
    - rewrite bool_decide_false by done. simpl. destruct (_ <=? 0).
      + rewrite lookup_delete_ne by done. lia.
      + rewrite lookup_insert_ne by done. lia. }
  split; intros; rewrite ?Hs; simpl; try lia.
  rewrite (inv_apart _ HI k) by done. destruct (decide (key = k)) as [->|Hn].
  - pose proof (inv_apart _ HI k H). lia.
  - by rewrite bool_decide_false.
Qed.

Lemma counts_books w s c x y :
  Inv w -> (∀ k, share (alone k) x = 0 /\ alone k y = false /\ share (sharing k) x = 0 /\ sharing k y = false) ->
  s = mStarted (wManager w) - share isStarted x + b2z (isStarted y) ->
  c = mCritical (wManager w) - share isCritical x + b2z (isCritical y) ->
  books (wManager w) (withCounts s c (wManager w)) x y.
Proof.
  intros HI Hk -> ->. split; try done; intros k.
  - destruct (Hk k) as (-> & -> & _). simpl. lia.
  - destruct (Hk k) as (_ & _ & -> & ->). unfold sharedCount. simpl. lia.
  - apply (inv_apart _ HI).
Qed.

Lemma runs_exec_inv w o : Inv w -> Inv (exec w o).
Proof.
  intros HI. destruct o as [key|key|key| |h| | | |admission]; simpl; try (destruct HI; by split).
  - apply call_inv; [done|]. intros m1. unfold Acquire. destruct (_ || _); [done|].
    destruct (checkAdmissionLocked _ _); [|done]. simpl. by apply reserve_books.
  - apply call_inv; [done|]. intros m1. unfold Go. destruct (_ || _); [done|].
    destruct (checkAdmissionLocked _ _); [|done]. simpl. destruct (reserveLocked _ _) as [m2|] eqn:Hr; [|done].
    simpl. intros [= <-]. destruct (reserve_books _ _ _ HI Hr) as [? ? ? Hst ?]. split; try done.
    simpl in *. lia.
  - apply call_inv; [done|]. intros m1. unfold AcquireShared. destruct (_ || _); [done|].
    case_bool_decide; [done|]. intros [= <-]. by apply shared_books.
  - apply (call_inv (Ok _)); [done|]. intros m1 [= <-]. apply counts_books; simpl; [done..|lia|lia].
  - unfold release. destruct (wHandles w !! h) as [[key|key|key| | |]|] eqn:Hh; try done;
      (apply books_inv; [done| |by eapply handle_bound|done]); rewrite Hh.
    + by apply (release_books w h (HAlone key)); auto.
    + by apply (releaseShared_books w h).
    + by apply (release_books w h (HGo key)); auto.
    + apply counts_books; simpl; [done..|lia|lia].
    + apply counts_books; simpl; [done..|lia|lia].
Qed.

Lemma runs_run_inv ops : Inv (run ops).
Proof.
  unfold run. induction ops as [|o ops IH] using rev_ind; [apply runs_start_inv|].
  rewrite foldl_app. by apply runs_exec_inv.
Qed.

(** [C37] Mutual exclusion of keyed operations. After any sequence of calls and
    releases, an operation that holds a key alone ([Acquire], [Go]) is the only one
    that holds it, alone or shared; so no two backups of a database run at once, and an
    in-place restore never runs next to a whole-instance run of its connection. *)
Theorem runs_exclusive ops key h1 h2 x1 x2 :
  wHandles (run ops) !! h1 = Some x1 -> wHandles (run ops) !! h2 = Some x2 ->
  alone key x1 = true -> alone key x2 = true \/ sharing key x2 = true -> h1 = h2.
Proof.
  intros H1 H2 Ha Hb. pose proof (runs_run_inv ops) as HI. pose proof (alone_active _ _ _ _ HI H1 Ha) as Hin.
  destruct Hb as [Hb|Hb].
  - apply (countIf_unique (alone key) (wHandles (run ops)) _ _ x1 x2); try done.
    rewrite (inv_active _ HI). by case_bool_decide.
  - pose proof (sharing_count _ _ _ _ HI H2 Hb). pose proof (inv_apart _ HI _ Hin). lia.
Qed.

Lemma runs_exclusive_witness :
  let ops := [OAcquire "instance:c"; OAcquireShared "instance:c"; OGo "backup:c/db"] in
  wHandles (run ops) !! 0%nat = Some (HAlone "instance:c") /\ wHandles (run ops) !! 1%nat = Some (HGo "backup:c/db") /\
  0%nat = 0%nat.
Proof.
  split; [vm_compute; reflexivity|]. split; [vm_compute; reflexivity|].
  apply (runs_exclusive [OAcquire "instance:c"; OAcquireShared "instance:c"; OGo "backup:c/db"] "instance:c" 0 0
           (HAlone "instance:c") (HAlone "instance:c")); try (vm_compute; reflexivity). left. vm_compute. reflexivity.
Defined.

(** [Idle] and [ErrBusy] are exact. [Idle] reports that no operation holds a key
    alone and every operation started with [Go] has returned; a call that is admitted
    is refused with [ErrBusy] exactly when another operation holds the key, alone or
    shared. *)
Theorem runs_idle_busy_exact ops :
  let w := run ops in
  (Idle (wManager w) = true <->
   ∀ h x, wHandles w !! h = Some x -> isStarted x = false /\ ∀ key, alone key x = false) /\
  (∀ key, mClosed (wManager w) = false -> mRefusing (wManager w) = false -> mAdmit (wManager w) = None ->
     (Acquire key (wManager w) = Err ErrBusy <->
      key <> "" /\ ∃ h x, wHandles w !! h = Some x /\ (alone key x = true \/ sharing key x = true))).
Proof.
  simpl. pose proof (runs_run_inv ops) as HI. split.
  - unfold Idle. rewrite andb_true_iff, Nat.eqb_eq, Z.eqb_eq, size_empty_iff, (inv_started _ HI). split.
    + intros [Ha Hs] h x Hh. split; [eapply countIf_zero; [|done]; lia|].
      intros key. destruct (alone key x) eqn:Hx; [|done]. pose proof (alone_active _ _ _ _ HI Hh Hx). set_solver.
    + intros Hall. split.
      * intros k. split; [|set_solver]. intros (h & x & Hh & Hx)%active_holder; [|done].
        destruct (Hall _ _ Hh) as [_ Hn]. by rewrite Hn in Hx.
      * apply Z.le_antisymm; [|apply countIf_nonneg]. apply Z.nlt_ge. intros (h & x & Hh & Hx)%countIf_pos.
        destruct (Hall _ _ Hh) as [Hn _]. congruence.
  - intros key Hc Hr Ha. unfold Acquire, checkAdmissionLocked. rewrite Hc, Hr, Ha. simpl.
    unfold reserveLocked, isEmptyKey. case_bool_decide as Hk; [split; [done|by intros [? _]]|].
    rewrite Z.gtb_ltb. destruct (_ || _) eqn:Hb.
    + split; [|done]. intros _. split; [done|]. apply orb_true_iff in Hb as [Hb|Hb]; bool_cases.
      * destruct (active_holder _ _ HI Hb) as (h & x & ? & ?). eauto.
      * rewrite <- (inv_shared _ HI) in Hb. apply countIf_pos in Hb as (h & x & ? & ?). eauto.
    + split; [done|]. intros (_ & h & x & Hh & [Hx|Hx]); bool_cases.
      * by pose proof (alone_active _ _ _ _ HI Hh Hx).
      * pose proof (sharing_count _ _ _ _ HI Hh Hx). lia.
Qed.
