(* ===== verification/Slots.v ===== *)
(** * Counted slots of the run manager (src/internal/runs/slots.go)

    [AcquireSlot] queues the backups of a connection once its limit is reached. A queue
    is an object of its own, found through the map [slots] and through the pointers its
    callers keep while they wait or hold a slot; it is dropped from the map when nobody
    uses it. The model has that heap of queues. The parts of [AcquireSlot] that run
    under [Manager.mu] are one step each; between them other callers run. *)

From S2P Require Import Prelude.

Inductive SlotErr : Type := ErrShuttingDown | ErrContext.

(** The state of one slot key; a waiter's channel is named by its caller. *)
Record slotQueue : Type := mkQueue { qHeld : Z; qLimit : Z; qWaiters : list nat }.

(** Where a call of [AcquireSlot] is: it needed no slot; it waits on its channel, which
    is closed once [ready]; it holds a slot; it released it; it returned an error. *)
Inductive caller : Type :=
| CFree
| CWaiting (key : string) (q : nat) (ready : bool)
| CHolding (key : string) (q : nat)
| CReleased
| CFailed (e : SlotErr).

Record Slots : Type := mkSlots {
  sClosed : bool;
  sSlots : gmap string nat;
  sHeap : gmap nat slotQueue;
  sNextQueue : nat;
  sCallers : gmap nat caller;
  sNextCaller : nat
}.

Definition empty : Slots := mkSlots false ∅ ∅ 0 ∅ 0.

Definition withQueue (r : nat) (q : slotQueue) (s : Slots) : Slots :=
  mkSlots (sClosed s) (sSlots s) (<[r := q]> (sHeap s)) (sNextQueue s) (sCallers s) (sNextCaller s).
Definition withCaller (c : nat) (x : caller) (s : Slots) : Slots :=
  mkSlots (sClosed s) (sSlots s) (sHeap s) (sNextQueue s) (<[c := x]> (sCallers s)) (sNextCaller s).

(** [close(next)]: the caller's channel is ready. *)
Definition wake (c : nat) (s : Slots) : Slots :=
  match sCallers s !! c with
  | Some (CWaiting key q _) => withCaller c (CWaiting key q true) s
  | _ => s
  end.

(** The loop of [admitLocked] on the fields of the queue at [r]. *)
Fixpoint admitLoop (r : nat) (held limit : Z) (waiters : list nat) (s : Slots) : Slots :=
  match waiters with
  | next :: rest =>
      if held <? limit then admitLoop r (held + 1) limit rest (wake next s)
      else withQueue r (mkQueue held limit waiters) s
  | [] => withQueue r (mkQueue held limit []) s
  end.

Definition admitLocked (r : nat) (s : Slots) : Slots :=
  match sHeap s !! r with
  | Some q => admitLoop r (qHeld q) (qLimit q) (qWaiters q) s
  | None => s
  end.

Definition dropIdleLocked (key : string) (r : nat) (s : Slots) : Slots :=
  match sHeap s !! r with
  | Some q =>
      if (qHeld q <=? 0) && Nat.eqb (length (qWaiters q)) 0 && bool_decide (sSlots s !! key = Some r)
      then mkSlots (sClosed s) (delete key (sSlots s)) (sHeap s) (sNextQueue s) (sCallers s) (sNextCaller s)
      else s
  | None => s
  end.

Definition freeLocked (key : string) (r : nat) (s : Slots) : Slots :=
  match sHeap s !! r with
  | Some q => dropIdleLocked key r (admitLocked r (withQueue r (mkQueue (qHeld q - 1) (qLimit q) (qWaiters q)) s))
  | None => s
  end.

(** [m.slots[key]], created when absent. *)
Definition queueOf (key : string) (s : Slots) : nat * Slots :=
  match sSlots s !! key with
  | Some r => (r, s)
  | None =>
      let r := sNextQueue s in
      (r, mkSlots (sClosed s) (<[key := r]> (sSlots s)) (<[r := mkQueue 0 0 []]> (sHeap s)) (S r)
            (sCallers s) (sNextCaller s))
  end.

Definition newCaller (x : caller) (s : Slots) : Slots :=
  mkSlots (sClosed s) (sSlots s) (sHeap s) (sNextQueue s) (<[sNextCaller s := x]> (sCallers s)) (S (sNextCaller s)).

(** A new call up to its return or its wait. *)
Definition AcquireSlot (key : string) (limit : Z) (s : Slots) : Slots :=
  if (limit <=? 0) || bool_decide (key = "") then newCaller CFree s
  else if sClosed s then newCaller (CFailed ErrShuttingDown) s
  else
    let '(r, s1) := queueOf key s in
    match sHeap s1 !! r with
    | None => s1
    | Some q0 =>
        let s2 := admitLocked r (withQueue r (mkQueue (qHeld q0) limit (qWaiters q0)) s1) in
        match sHeap s2 !! r with
        | None => s2
        | Some q =>
            if (qHeld q <? qLimit q) && Nat.eqb (length (qWaiters q)) 0 then
              newCaller (CHolding key r) (withQueue r (mkQueue (qHeld q + 1) (qLimit q) (qWaiters q)) s2)
            else
              newCaller (CWaiting key r false)
                (withQueue r (mkQueue (qHeld q) (qLimit q) (qWaiters q ++ [sNextCaller s2])) s2)
        end
    end.

(** [append(waiters[:i], waiters[i+1:]...)] at the first [i] that holds [c]. *)
Fixpoint removeWaiter (c : nat) (l : list nat) : list nat :=
  match l with
  | w :: l' => if Nat.eqb w c then l' else w :: removeWaiter c l'
  | [] => []
  end.

(** The rest of a call whose [select] took the end of a context: it leaves the queue,
    or passes on the slot it was handed meanwhile. *)
Definition cancelled (c : nat) (key : string) (r : nat) (e : SlotErr) (s : Slots) : Slots :=
  match sHeap s !! r with
  | None => s
  | Some q =>
      let s1 := withCaller c (CFailed e) s in
      if bool_decide (c ∈ qWaiters q) then
        dropIdleLocked key r
          (withQueue r (mkQueue (qHeld q) (qLimit q) (removeWaiter c (qWaiters q))) s1)
      else freeLocked key r s1
  end.

(** ** The manager and its callers *)

Inductive op : Type :=
| OAcquire (key : string) (limit : Z)
| OWake (c : nat)
| OCancel (c : nat)
| OShutdownSeen (c : nat)
| ORelease (c : nat)
| OShutdown.

(** [select] takes any of its ready cases: the wait may end with an error although the
    channel is ready. An operation that is not enabled changes nothing. *)
Definition exec (s : Slots) (o : op) : Slots :=
  match o with
  | OAcquire key limit => AcquireSlot key limit s
  | OWake c =>
      match sCallers s !! c with
      | Some (CWaiting key r true) => withCaller c (CHolding key r) s
      | _ => s
      end
  | OCancel c =>
      match sCallers s !! c with Some (CWaiting key r _) => cancelled c key r ErrContext s | _ => s end
  | OShutdownSeen c =>
      match sCallers s !! c with
      | Some (CWaiting key r _) => if sClosed s then cancelled c key r ErrShuttingDown s else s
      | _ => s
      end
  | ORelease c =>
      match sCallers s !! c with
      | Some (CHolding key r) => freeLocked key r (withCaller c CReleased s)
      | _ => s
      end
  | OShutdown => mkSlots true (sSlots s) (sHeap s) (sNextQueue s) (sCallers s) (sNextCaller s)
  end.

Definition run (ops : list op) : Slots := foldl exec empty ops.

Definition SlotWaiters (key : string) (s : Slots) : nat :=
  match sSlots s !! key with
  | Some r => match sHeap s !! r with Some q => length (qWaiters q) | None => 0 end
  | None => 0
  end.

(** ** The invariant *)

(** A caller has a slot of [key] once it holds it or its channel was closed. *)
Definition served (key : string) (x : caller) : bool :=
  match x with CHolding k _ | CWaiting k _ true => bool_decide (k = key) | _ => false end.

Definition uses (x : caller) : option (string * nat) :=
  match x with CHolding k r | CWaiting k r _ => Some (k, r) | _ => None end.

Definition queueOk (callers : gmap nat caller) (key : string) (r : nat) (q : slotQueue) : Prop :=
  qHeld q = countIf (served key) callers /\
  (∀ c, c ∈ qWaiters q <-> callers !! c = Some (CWaiting key r false)) /\
  StronglySorted lt (qWaiters q).

Record Core (s : Slots) : Prop := mkCore {
  core_queue : ∀ key r, sSlots s !! key = Some r -> ∃ q, sHeap s !! r = Some q /\ queueOk (sCallers s) key r q;
  core_users : ∀ c x key r, sCallers s !! c = Some x -> uses x = Some (key, r) -> sSlots s !! key = Some r;
  core_inj : ∀ k1 k2 r, sSlots s !! k1 = Some r -> sSlots s !! k2 = Some r -> k1 = k2;
  core_nextq : ∀ r, (sNextQueue s <= r)%nat -> sHeap s !! r = None;
  core_nextc : ∀ c, (sNextCaller s <= c)%nat -> sCallers s !! c = None
}.

Lemma empty_core : Core empty.
Proof. split; intros; simpl in *; try done; by apply lookup_empty. Qed.

(** Caller [c] becomes [y] and the queue [r] of [key] becomes [q'], at once. *)
Definition update (r : nat) (q' : slotQueue) (c : nat) (y : caller) (n : nat) (s : Slots) : Slots :=
  mkSlots (sClosed s) (sSlots s) (<[r := q']> (sHeap s)) (sNextQueue s) (<[c := y]> (sCallers s)) n.

Definition onlyUses (key : string) (r : nat) (x : option caller) : Prop :=
  ∀ y, x = Some y -> uses y = None \/ uses y = Some (key, r).

Lemma served_other key r key' y : onlyUses key r (Some y) -> key' <> key -> served key' y = false.
Proof.
  intros Hu Hn. specialize (Hu y eq_refl).
  destruct y as [|k q [|]|k q| |]; simpl in *; try done; destruct Hu as [Hu|Hu]; simplify_eq; by rewrite bool_decide_false.
Qed.

Lemma queue_bound s key r : Core s -> sSlots s !! key = Some r -> (r < sNextQueue s)%nat.
Proof.
  intros HC Hk. destruct (core_queue _ HC _ _ Hk) as (q & Hq & _).
  destruct (decide (r < sNextQueue s)%nat); [done|]. rewrite (core_nextq _ HC) in Hq by lia. done.
Qed.

Lemma update_core s key r q q' c y n :
  Core s -> sSlots s !! key = Some r -> sHeap s !! r = Some q ->
  onlyUses key r (sCallers s !! c) -> onlyUses key r (Some y) ->
  qHeld q' = qHeld q - share (served key) (sCallers s !! c) + b2z (served key y) ->
  (∀ c', c' ∈ qWaiters q' <-> <[c := y]> (sCallers s) !! c' = Some (CWaiting key r false)) ->
  StronglySorted lt (qWaiters q') -> (c < n)%nat -> (sNextCaller s <= n)%nat ->
  Core (update r q' c y n s).
Proof.
  intros HC Hk Hq Hx Hy Hh Hw Hs Hc Hn. split; simpl.
  - intros key' r' Hk'. destruct (core_queue _ HC _ _ Hk') as (q2 & Hq2 & Hheld & Hwait & Hsort).
    destruct (decide (key' = key)) as [->|Hne].
    + rewrite Hk in Hk'. injection Hk' as <-. rewrite lookup_insert_eq. exists q'. split; [done|].
      split; [|done]. rewrite countIf_share. rewrite Hq in Hq2. injection Hq2 as <-. lia.
    + assert (r' <> r) as Hr by (intros ->; apply Hne; by apply (core_inj _ HC _ _ r)).
      rewrite lookup_insert_ne by done. exists q2. split; [done|]. split; [|split; [|done]].
      * rewrite countIf_share. rewrite (served_other key r key' y Hy Hne).
        assert (share (served key') (sCallers s !! c) = 0) as ->.
        { destruct (sCallers s !! c) as [x|] eqn:Hcx; [|done]. simpl. by rewrite (served_other key r key' x Hx Hne). }
        simpl. lia.
      * intros c'. rewrite Hwait. destruct (decide (c' = c)) as [->|Hcc]; [|by rewrite lookup_insert_ne].
        rewrite lookup_insert_eq. split; intros He.
        -- destruct (Hx _ He) as [Hu|Hu]; simpl in Hu; simplify_eq.
        -- injection He as ->. destruct (Hy _ eq_refl) as [Hu|Hu]; simpl in Hu; simplify_eq.
  - intros c' x key' r' Hcx Hu. destruct (decide (c' = c)) as [->|Hcc].
    + rewrite lookup_insert_eq in Hcx. injection Hcx as <-. destruct (Hy _ eq_refl) as [Hu'|Hu']; congruence.
    + rewrite lookup_insert_ne in Hcx by done. by apply (core_users _ HC c' x).
  - apply HC.
  - intros r' Hr. pose proof (queue_bound _ _ _ HC Hk). rewrite lookup_insert_ne by lia. by apply (core_nextq _ HC).
  - intros c' Hc'. rewrite lookup_insert_ne by lia. apply (core_nextc _ HC). lia.
Qed.

(** One turn of [admitLocked]. *)
Lemma admit_turn s key r held limit c rest :
  Core (withQueue r (mkQueue held limit (c :: rest)) s) -> sSlots s !! key = Some r ->
  sCallers s !! c = Some (CWaiting key r false) /\
  Core (withQueue r (mkQueue (held + 1) limit rest) (wake c s)).
Proof.
  intros HC Hk. set (s0 := withQueue r (mkQueue held limit (c :: rest)) s) in *.
  assert (sHeap s0 !! r = Some (mkQueue held limit (c :: rest))) as Hq by apply lookup_insert_eq.
  destruct (core_queue _ HC key r Hk) as (q & Hq' & Hheld & Hwait & Hsort).
  rewrite Hq in Hq'. injection Hq' as <-. simpl in *.
  assert (sCallers s !! c = Some (CWaiting key r false)) as Hc by (apply Hwait; left).
  split; [done|].
  replace (withQueue r (mkQueue (held + 1) limit rest) (wake c s)) with
    (update r (mkQueue (held + 1) limit rest) c (CWaiting key r true) (sNextCaller s0) s0).
  - apply StronglySorted_inv in Hsort as [Hsort Hall]. apply (update_core _ key r _ _ _ _ _ HC Hk Hq); try done.
    + simpl. rewrite Hc. intros y [= <-]. by right.
    + intros y [= <-]. by right.
    + simpl. rewrite Hc. simpl. rewrite bool_decide_true by done. simpl. lia.
    + intros c'. simpl. destruct (decide (c' = c)) as [->|Hn].
      * rewrite lookup_insert_eq. split; [|done]. intros Hin. rewrite Forall_forall in Hall.
        specialize (Hall c Hin). lia.
      * rewrite lookup_insert_ne, <- Hwait, elem_of_cons by done. naive_solver.
    + destruct (decide (c < sNextCaller s0)%nat); [done|]. 
      pose proof (core_nextc _ HC c ltac:(lia)) as Hno. simpl in Hno. congruence.
  - unfold update, withQueue, wake. rewrite Hc. simpl. by rewrite insert_insert_eq.
Qed.

(** The callers [admitLocked] serves: a prefix of the queue. *)
Definition admitted (key : string) (r : nat) (tk : list nat) (s s' : Slots) : Prop :=
  ∀ c x, sCallers s' !! c = Some x ->
    sCallers s !! c = Some x \/
    (c ∈ tk /\ x = CWaiting key r true /\ sCallers s !! c = Some (CWaiting key r false)).

Lemma admitLoop_spec key r limit waiters : ∀ held s,
  Core (withQueue r (mkQueue held limit waiters) s) -> sSlots s !! key = Some r ->
  let s' := admitLoop r held limit waiters s in
  Core s' /\ sSlots s' = sSlots s /\ sClosed s' = sClosed s /\ sNextCaller s' = sNextCaller s /\
  ∃ q' tk, sHeap s' = <[r := q']> (sHeap s) /\ qLimit q' = limit /\ qHeld q' <= Z.max held limit /\
    (qWaiters q' <> [] -> limit <= qHeld q') /\ waiters = tk ++ qWaiters q' /\ admitted key r tk s s'.
Proof.
  induction waiters as [|c rest IH]; intros held s HC Hk; simpl.
  - split_and!; try done. exists (mkQueue held limit []), []. split_and!; simpl; try done; [lia|]. intros ???. by left.
  - destruct (held <? limit) eqn:Hlt; bool_cases.
    + destruct (admit_turn _ _ _ _ _ _ _ HC Hk) as [Hc HC'].
      assert (wake c s = withCaller c (CWaiting key r true) s) as Hwk by (unfold wake; by rewrite Hc).
      rewrite Hwk in *.
      destruct (IH (held + 1) _ HC') as (H1 & H2 & H3 & H4 & q' & tk & Hh & Hl & Hb & Hf & Hw & Ha); [done|].
      split_and!; try done.
      exists q', (c :: tk). split_and!; try done; [lia|by rewrite Hw|].
      intros c' x Hx. destruct (Ha _ _ Hx) as [Hs|(Hin & -> & Hs)]; simpl in Hs;
        destruct (decide (c' = c)) as [->|Hn].
      * rewrite lookup_insert_eq in Hs. injection Hs as <-. right. split; [left|done].
      * rewrite lookup_insert_ne in Hs by done. by left.
      * by rewrite lookup_insert_eq in Hs.
      * rewrite lookup_insert_ne in Hs by done. right. split; [by right|done].
    + split_and!; try done. exists (mkQueue held limit (c :: rest)), []. split_and!; simpl; try done; [lia|].
      intros ???. by left.
Qed.

Lemma withQueue_id s r q : sHeap s !! r = Some q -> withQueue r q s = s.
Proof. intros Hq. destruct s. unfold withQueue. simpl in *. by rewrite insert_id. Qed.

Lemma admitLocked_spec s key r q :
  Core s -> sSlots s !! key = Some r -> sHeap s !! r = Some q ->
  let s' := admitLocked r s in
  Core s' /\ sSlots s' = sSlots s /\ sClosed s' = sClosed s /\ sNextCaller s' = sNextCaller s /\
  ∃ q' tk, sHeap s' = <[r := q']> (sHeap s) /\ qLimit q' = qLimit q /\ qHeld q' <= Z.max (qHeld q) (qLimit q) /\
    (qWaiters q' <> [] -> qLimit q' <= qHeld q') /\ qWaiters q = tk ++ qWaiters q' /\ admitted key r tk s s'.
Proof.
  intros HC Hk Hq. unfold admitLocked. rewrite Hq.
  destruct (admitLoop_spec key r (qLimit q) (qWaiters q) (qHeld q) s) as (? & ? & ? & ? & q' & tk & ? & Hl & ? & ? & ? & ?); try done.
  - rewrite withQueue_id; [done|]. by destruct q.
  - split_and!; try done. exists q', tk. split_and!; try done. by rewrite Hl.
Qed.

Lemma dropIdle_core s key r :
  Core s -> sSlots s !! key = Some r ->
  Core (dropIdleLocked key r s) /\ sHeap (dropIdleLocked key r s) = sHeap s /\
  sCallers (dropIdleLocked key r s) = sCallers s /\ sClosed (dropIdleLocked key r s) = sClosed s /\
  (∀ key' r', sSlots (dropIdleLocked key r s) !! key' = Some r' -> sSlots s !! key' = Some r').
Proof.
  intros HC Hk. destruct (core_queue _ HC _ _ Hk) as (q & Hq & Hheld & Hwait & _).
  unfold dropIdleLocked. rewrite Hq. destruct (_ && _) eqn:Hb; [|done]. bool_cases.
  split; [|split_and!; try done; intros key' r' Hk'; simpl in Hk'; by apply lookup_delete_Some in Hk' as [_ ?]].
  assert (qWaiters q = []) as Hnil by (by apply nil_length_inv, Nat.eqb_eq).
  split; simpl; try apply HC.
  - intros key' r' [_ Hk']%lookup_delete_Some. by apply (core_queue _ HC).
  - intros c x key' r' Hx Hu. pose proof (core_users _ HC _ _ _ _ Hx Hu) as Hs.
    apply lookup_delete_Some. split; [intros <-|done]. rewrite Hk in Hs. injection Hs as <-.
    assert (served key x = false) as Hns by (eapply countIf_zero; [|done]; lia).
    destruct x as [|k r0 [|]|k r0| |]; simpl in *; simplify_eq; try (by rewrite bool_decide_true in Hns).
    rewrite <- Hwait, Hnil in Hx. set_solver.
  - intros k1 k2 r' [_ ?]%lookup_delete_Some [_ ?]%lookup_delete_Some. by apply (core_inj _ HC _ _ r').
Qed.

(** What a step may leave of the queues: those of other keys as they were, and [P] of
    the queue of [key]. *)
Definition queuesAfter (key : string) (P : slotQueue -> Prop) (s s' : Slots) : Prop :=
  ∀ key' r' q', sSlots s' !! key' = Some r' -> sHeap s' !! r' = Some q' ->
    if decide (key' = key) then P q' else sSlots s !! key' = Some r' /\ sHeap s !! r' = Some q'.

(** A caller that gets a slot in a step arrived before everyone who still waits. *)
Definition fair (s s' : Slots) : Prop :=
  ∀ c1 c2 key r x, sCallers s' !! c2 = Some x -> served key x = true ->
    share (served key) (sCallers s !! c2) = 0 ->
    sCallers s' !! c1 = Some (CWaiting key r false) -> (c2 < c1)%nat.

Lemma admitted_fair s s' key r tk q' w :
  Core s' -> admitted key r tk s s' -> sHeap s' !! r = Some q' -> StronglySorted lt (tk ++ w) ->
  qWaiters q' = w -> fair s s'.
Proof.
  intros HC Ha Hq Hs Hw c1 c2 key' r1 x Hx Hsv Hn H1. destruct (Ha _ _ Hx) as [Hold|(Hin & -> & Hold)].
  - rewrite Hold in Hn. simpl in Hn. by rewrite Hsv in Hn.
  - simpl in Hsv. bool_cases. subst key'.
    pose proof (core_users _ HC _ _ _ _ H1 eq_refl) as Hk1. pose proof (core_users _ HC _ _ _ _ Hx eq_refl) as Hk2.
    rewrite Hk1 in Hk2. injection Hk2 as ->.
    destruct (core_queue _ HC _ _ Hk1) as (q2 & Hq2 & _ & Hwait & _). rewrite Hq in Hq2. injection Hq2 as <-.
    apply (StronglySorted_app_1_elem_of lt tk w); [done..|]. rewrite <- Hw. by apply Hwait.
Qed.

Lemma freeLocked_spec s key r q :
  sSlots s !! key = Some r -> sHeap s !! r = Some q ->
  Core (withQueue r (mkQueue (qHeld q - 1) (qLimit q) (qWaiters q)) s) ->
  let s' := freeLocked key r s in
  Core s' /\ sClosed s' = sClosed s /\ fair s s' /\
  (∀ c x, sCallers s' !! c = Some x ->
     sCallers s !! c = Some x \/ sCallers s !! c = Some (CWaiting key r false)) /\
  queuesAfter key (λ q', qLimit q' = qLimit q /\ (qWaiters q' <> [] -> qLimit q' <= qHeld q') /\
                         qHeld q' <= Z.max (qHeld q) (qLimit q)) s s'.
Proof.
  intros Hk Hq HC. unfold freeLocked. rewrite Hq. set (s1 := withQueue r _ s) in *.
  assert (sHeap s1 !! r = Some (mkQueue (qHeld q - 1) (qLimit q) (qWaiters q))) as Hq1 by apply lookup_insert_eq.
  destruct (admitLocked_spec s1 key r _ HC Hk Hq1) as (HC2 & Hs2 & Hcl & Hnc & q' & tk & Hh2 & Hl & Hb & Hf & Hw & Ha).
  destruct (dropIdle_core (admitLocked r s1) key r HC2) as (HC3 & Hh3 & Hc3 & Hcl3 & Hs3); [by rewrite Hs2|].
  destruct (core_queue _ HC _ _ Hk) as (q0 & Hq0 & _ & Hwait0 & Hsort0). rewrite Hq1 in Hq0. injection Hq0 as <-.
  simpl in *. split_and!; try done; [by rewrite Hcl3| | |].
  - apply (admitted_fair _ _ key r tk q' (qWaiters q')); try done.
    + intros c x. rewrite Hc3. apply Ha.
    + by rewrite Hh3, Hh2, lookup_insert_eq.
    + by rewrite <- Hw.
  - intros c x. rewrite Hc3. intros Hx. destruct (Ha _ _ Hx) as [?|(_ & _ & ?)]; auto.
  - intros key' r' q2 Hk' Hq'. apply Hs3 in Hk'. rewrite Hs2 in Hk'. rewrite Hh3, Hh2 in Hq'. case_decide as Hkk.
    + subst key'. simpl in Hk'. rewrite Hk in Hk'. injection Hk' as <-. rewrite lookup_insert_eq in Hq'.
      injection Hq' as <-. split_and!; try done. lia.
    + assert (r' <> r) as Hr by (intros ->; apply Hkk; by apply (core_inj _ HC _ _ r)).
      rewrite !lookup_insert_ne in Hq' by done. done.
Qed.

(** ** The steps *)

Lemma fair_from s c y s' :
  uses y = None -> fair (withCaller c y s) s' -> (∀ x, sCallers s' !! c = Some x -> x = y) -> fair s s'.
Proof.
  intros Hy Hf Hc c1 c2 key r x Hx Hsv Hn H1. apply (Hf c1 c2 key r x); try done. simpl.
  destruct (decide (c2 = c)) as [->|Hne]; [|by rewrite lookup_insert_ne].
  rewrite (Hc _ Hx) in Hsv. destruct y as [|? ? [|]|? ?| |]; done.
Qed.

Lemma removeWaiter_elem c l c' : StronglySorted lt l -> c' ∈ removeWaiter c l <-> c' ∈ l /\ c' <> c.
Proof.
  induction l as [|w l IH]; simpl; [set_solver|]. intros [Hs Hw]%StronglySorted_inv. rewrite Forall_forall in Hw.
  destruct (Nat.eqb w c) eqn:He.
  - apply Nat.eqb_eq in He as ->. split; [|set_solver]. intros Hin. split; [by right|]. intros ->. specialize (Hw _ Hin). lia.
  - apply Nat.eqb_neq in He. rewrite !elem_of_cons, IH by done. naive_solver.
Qed.

Lemma removeWaiter_sorted c l : StronglySorted lt l -> StronglySorted lt (removeWaiter c l).
Proof.
  induction l as [|w l IH]; simpl; [done|]. intros [Hs Hw]%StronglySorted_inv.
  destruct (Nat.eqb w c); [done|]. constructor; [by apply IH|]. rewrite Forall_forall in *.
  intros c' [Hin _]%removeWaiter_elem; [|done]. by apply Hw.
Qed.

Lemma withQueue_core s key r q q' :
  Core s -> sSlots s !! key = Some r -> sHeap s !! r = Some q -> qHeld q' = qHeld q -> qWaiters q' = qWaiters q ->
  Core (withQueue r q' s).
Proof.
  intros HC Hk Hq Hh Hw. split; simpl; try apply HC.
  - intros key' r' Hk'. destruct (core_queue _ HC _ _ Hk') as (q2 & Hq2 & Hok).
    destruct (decide (r' = r)) as [->|Hr]; [|rewrite lookup_insert_ne by done; eauto].
    rewrite lookup_insert_eq. exists q'. split; [done|]. rewrite Hq in Hq2. injection Hq2 as <-.
    unfold queueOk in *. by rewrite Hh, Hw.
  - intros r' Hr. pose proof (queue_bound _ _ _ HC Hk). rewrite lookup_insert_ne by lia. by apply (core_nextq _ HC).
Qed.

Lemma caller_bound s c x : Core s -> sCallers s !! c = Some x -> (c < sNextCaller s)%nat.
Proof. intros HC Hc. destruct (decide (c < sNextCaller s)%nat); [done|]. rewrite (core_nextc _ HC) in Hc by lia. done. Qed.

(** What a step on a queue of limit [limit] and [held] slots taken leaves of it. *)
Definition settled (limit held : Z) (q' : slotQueue) : Prop :=
  qLimit q' = limit /\ (qWaiters q' <> [] -> qLimit q' <= qHeld q') /\ qHeld q' <= Z.max held limit.

(** A caller [x] that has a slot of [key] gives it up and becomes [y]. *)
Lemma give_up_spec s c x y key r q :
  Core s -> sCallers s !! c = Some x -> uses x = Some (key, r) -> served key x = true -> uses y = None ->
  sHeap s !! r = Some q ->
  let s' := freeLocked key r (withCaller c y s) in
  Core s' /\ sClosed s' = sClosed s /\ fair s s' /\ queuesAfter key (settled (qLimit q) (qHeld q)) s s'.
Proof.
  intros HC Hc Hu Hsv Hy Hq. pose proof (core_users _ HC _ _ _ _ Hc Hu) as Hk.
  assert (served key y = false) as Hny by (by destruct y as [|? ? [|]|? ?| |]).
  destruct (freeLocked_spec (withCaller c y s) key r q) as (H1 & H2 & H3 & H4 & H5); try done.
  - change (withQueue r (mkQueue (qHeld q - 1) (qLimit q) (qWaiters q)) (withCaller c y s)) with
      (update r (mkQueue (qHeld q - 1) (qLimit q) (qWaiters q)) c y (sNextCaller s) s).
    destruct (core_queue _ HC _ _ Hk) as (q0 & Hq0 & _ & Hwait & Hsort). rewrite Hq in Hq0. injection Hq0 as <-.
    apply (update_core _ key r q); simpl; try done.
    + rewrite Hc. intros z [= <-]. by right.
    + intros z [= <-]. by left.
    + rewrite Hc. simpl. rewrite Hsv, Hny. simpl. lia.
    + intros c'. rewrite Hwait. destruct (decide (c' = c)) as [->|Hn]; [|by rewrite lookup_insert_ne].
      rewrite lookup_insert_eq, Hc. split; intros [= ->]; done.
    + by eapply caller_bound.
  - split_and!; try done. apply (fair_from s c y); try done. intros z Hz.
    destruct (H4 _ _ Hz) as [Hz'|Hz']; simpl in Hz'; rewrite lookup_insert_eq in Hz'; injection Hz' as ->; [done|].
    discriminate.
Qed.

Lemma cancelled_spec s c key r b e q :
  Core s -> sCallers s !! c = Some (CWaiting key r b) -> sHeap s !! r = Some q ->
  (qWaiters q <> [] -> qLimit q <= qHeld q) ->
  let s' := cancelled c key r e s in
  Core s' /\ sClosed s' = sClosed s /\ fair s s' /\ queuesAfter key (settled (qLimit q) (qHeld q)) s s'.
Proof.
  intros HC Hc Hq Hfull. pose proof (core_users _ HC _ _ _ _ Hc eq_refl) as Hk.
  destruct (core_queue _ HC _ _ Hk) as (q0 & Hq0 & _ & Hwait & Hsort). rewrite Hq in Hq0. injection Hq0 as <-.
  unfold cancelled. rewrite Hq. case_bool_decide as Hin.
  - rewrite Hwait, Hc in Hin. injection Hin as ->.
    set (q' := mkQueue (qHeld q) (qLimit q) (removeWaiter c (qWaiters q))).
    change (withQueue r q' (withCaller c (CFailed e) s)) with (update r q' c (CFailed e) (sNextCaller s) s).
    assert (Core (update r q' c (CFailed e) (sNextCaller s) s)) as HC1.
    { apply (update_core _ key r q); simpl; try done.
      - rewrite Hc. intros z [= <-]. by right.
      - intros z [= <-]. by left.
      - rewrite Hc. simpl. lia.
      - intros c'. rewrite removeWaiter_elem, Hwait by done. destruct (decide (c' = c)) as [->|Hn].
        + rewrite lookup_insert_eq. naive_solver.
        + rewrite lookup_insert_ne by done. naive_solver.
      - by apply removeWaiter_sorted.
      - by eapply caller_bound. }
    destruct (dropIdle_core _ key r HC1) as (H1 & Hh & Hcs & Hcl & Hs); [done|].
    split_and!; try done.
    + intros c1 c2 key' r' x Hx Hsv Hn H1'. rewrite Hcs in Hx. simpl in Hx. exfalso.
      destruct (decide (c2 = c)) as [->|Hne]; [rewrite lookup_insert_eq in Hx; injection Hx as <-; done|].
      rewrite lookup_insert_ne in Hx by done. rewrite Hx in Hn. simpl in Hn. by rewrite Hsv in Hn.
    + intros key' r' q2 Hk' Hq'. apply Hs in Hk'. rewrite Hh in Hq'. simpl in Hk', Hq'. case_decide as Hkk.
      * subst key'. rewrite Hk in Hk'. injection Hk' as <-. rewrite lookup_insert_eq in Hq'. injection Hq' as <-.
        split_and!; simpl; [done| |lia]. intros Hne. apply Hfull. intros Hnil. by rewrite Hnil in Hne.
      * rewrite lookup_insert_ne in Hq' by (intros <-; apply Hkk; by apply (core_inj _ HC _ _ r)). done.
  - destruct b; [|by rewrite Hwait in Hin].
    apply (give_up_spec s c (CWaiting key r true)); try done. by apply bool_decide_eq_true.
Qed.

Lemma queueOf_spec s key r s1 :
  Core s -> queueOf key s = (r, s1) ->
  Core s1 /\ sSlots s1 !! key = Some r /\ sClosed s1 = sClosed s /\ sCallers s1 = sCallers s /\
  sNextCaller s1 = sNextCaller s /\
  ∃ q, sHeap s1 !! r = Some q /\
    queuesAfter key (λ q', q' = q /\ (sSlots s !! key = Some r /\ sHeap s !! r = Some q \/ qHeld q = 0)) s s1.
Proof.
  intros HC. unfold queueOf. destruct (sSlots s !! key) as [r0|] eqn:Hk; intros [= <- <-].
  - destruct (core_queue _ HC _ _ Hk) as (q & Hq & _). split_and!; try done. exists q. split; [done|].
    intros key' r' q' Hk' Hq'. case_decide; [|done]. subst key'. rewrite Hk in Hk'. injection Hk' as <-.
    rewrite Hq in Hq'. injection Hq' as <-. auto.
  - assert (∀ c x r', sCallers s !! c = Some x -> uses x <> Some (key, r')) as Hnone.
    { intros c x r' Hc Hu. pose proof (core_users _ HC _ _ _ _ Hc Hu). congruence. }
    split_and!; simpl; try done; [|apply lookup_insert_eq|].
    + split; simpl.
      * intros key' r' [[-> <-]|[Hn Hk']]%lookup_insert_Some.
        -- rewrite lookup_insert_eq. exists (mkQueue 0 0 []). split; [done|]. split_and!; simpl.
           ++ apply Z.le_antisymm; [apply countIf_nonneg|]. apply Z.nlt_ge. intros (c & x & Hc & Hx)%countIf_pos.
              destruct x as [|k0 r0 [|]|k0 r0| |]; simpl in Hx; try done; bool_cases; subst k0; by eapply Hnone.
           ++ intros c. split; [set_solver|]. intros Hc. exfalso. by eapply Hnone.
           ++ constructor.
        -- destruct (core_queue _ HC _ _ Hk') as (q & Hq & Hok). exists q.
           pose proof (queue_bound _ _ _ HC Hk'). rewrite lookup_insert_ne by lia. done.
      * intros c x key' r' Hc Hu. rewrite lookup_insert_ne; [by apply (core_users _ HC c x)|].
        intros <-. by eapply Hnone.
      * intros k1 k2 r' [[<- <-]|[_ H1]]%lookup_insert_Some [[<- E]|[_ H2]]%lookup_insert_Some; try done.
        -- pose proof (queue_bound _ _ _ HC H2). lia.
        -- subst r'. pose proof (queue_bound _ _ _ HC H1). lia.
        -- by apply (core_inj _ HC _ _ r').
      * intros r' Hr. rewrite lookup_insert_ne by lia. apply (core_nextq _ HC). lia.
      * apply (core_nextc _ HC).
    + exists (mkQueue 0 0 []). split; [apply lookup_insert_eq|]. intros key' r' q' Hk' Hq'. simpl in Hk', Hq'.
      case_decide as Hkk.
      * subst key'. rewrite lookup_insert_eq in Hk'. injection Hk' as <-. rewrite lookup_insert_eq in Hq'.
        injection Hq' as <-. auto.
      * rewrite lookup_insert_ne in Hk' by done. pose proof (queue_bound _ _ _ HC Hk').
        rewrite lookup_insert_ne in Hq' by lia. done.
Qed.

(** The end of [AcquireSlot]: the new caller takes a free slot or joins the queue. *)
Lemma enter_spec s key r q :
  Core s -> sSlots s !! key = Some r -> sHeap s !! r = Some q -> (qWaiters q <> [] -> qLimit q <= qHeld q) ->
  let s' := if (qHeld q <? qLimit q) && Nat.eqb (length (qWaiters q)) 0
            then newCaller (CHolding key r) (withQueue r (mkQueue (qHeld q + 1) (qLimit q) (qWaiters q)) s)
            else newCaller (CWaiting key r false)
                   (withQueue r (mkQueue (qHeld q) (qLimit q) (qWaiters q ++ [sNextCaller s])) s) in
  Core s' /\ sClosed s' = sClosed s /\ queuesAfter key (settled (qLimit q) (qHeld q)) s s' /\
  ∃ y, sCallers s' = <[sNextCaller s := y]> (sCallers s) /\
    (served key y = true -> ∀ c r', sCallers s' !! c <> Some (CWaiting key r' false)) /\
    (∀ key', key' <> key -> served key' y = false).
Proof.
  intros HC Hk Hq Hfull. simpl. pose proof (core_nextc _ HC (sNextCaller s) ltac:(lia)) as Hnew.
  destruct (core_queue _ HC _ _ Hk) as (q0 & Hq0 & Hheld & Hwait & Hsort). rewrite Hq in Hq0. injection Hq0 as <-.
  assert (∀ q' y, settled (qLimit q) (qHeld q) q' ->
    queuesAfter key (settled (qLimit q) (qHeld q)) s (newCaller y (withQueue r q' s))) as HQ.
  { intros q' y Hs key' r' q2 Hk' Hq'. simpl in Hk', Hq'. case_decide as Hkk.
    - subst key'. rewrite Hk in Hk'. injection Hk' as <-. rewrite lookup_insert_eq in Hq'. by injection Hq' as <-.
    - rewrite lookup_insert_ne in Hq' by (intros <-; apply Hkk; by apply (core_inj _ HC _ _ r)). done. }
  destruct (_ && _) eqn:Hb.
  - bool_cases. assert (qWaiters q = []) as Hnil by (by apply nil_length_inv, Nat.eqb_eq).
    set (q' := mkQueue (qHeld q + 1) (qLimit q) (qWaiters q)).
    change (newCaller (CHolding key r) (withQueue r q' s)) with (update r q' (sNextCaller s) (CHolding key r) (S (sNextCaller s)) s).
    assert (∀ c, <[sNextCaller s := CHolding key r]> (sCallers s) !! c <> Some (CWaiting key r false)) as Hno.
    { intros c Hc. destruct (decide (c = sNextCaller s)) as [->|Hn]; [by rewrite lookup_insert_eq in Hc|].
      rewrite lookup_insert_ne, <- Hwait, Hnil in Hc by done. set_solver. }
    assert (Core (update r q' (sNextCaller s) (CHolding key r) (S (sNextCaller s)) s)) as HC'.
    { apply (update_core _ key r q); simpl; try done; try lia.
      + by rewrite Hnew.
      + intros y [= <-]. by right.
      + rewrite Hnew. simpl. rewrite bool_decide_true by done. simpl. lia.
      + intros c'. rewrite Hnil. split; [set_solver|]. intros Hc. by apply Hno in Hc. }
    split_and!; try done.
    + apply (HQ q' (CHolding key r)). split_and!; simpl; [done| |lia]. by rewrite Hnil.
    + exists (CHolding key r). split_and!; [done| |].
      * intros _ c r' Hc. pose proof (core_users _ HC' _ _ _ _ Hc eq_refl) as Hr. simpl in Hr. rewrite Hk in Hr.
        injection Hr as <-. by apply (Hno c).
      * intros key' Hn. simpl. by rewrite bool_decide_false.
  - set (q' := mkQueue (qHeld q) (qLimit q) (qWaiters q ++ [sNextCaller s])).
    change (newCaller (CWaiting key r false) (withQueue r q' s)) with
      (update r q' (sNextCaller s) (CWaiting key r false) (S (sNextCaller s)) s).
    split_and!; [|done| |].
    + apply (update_core _ key r q); simpl; try done; try lia.
      * by rewrite Hnew.
      * intros y [= <-]. by right.
      * rewrite Hnew. simpl. lia.
      * intros c'. rewrite elem_of_app, Hwait, list_elem_of_singleton. destruct (decide (c' = sNextCaller s)) as [->|Hn].
        -- rewrite lookup_insert_eq. naive_solver.
        -- rewrite lookup_insert_ne by done. naive_solver.
      * apply StronglySorted_app_2; try done; [|repeat constructor].
        intros x y Hx Hy%list_elem_of_singleton. subst y. apply Hwait in Hx. by eapply caller_bound.
    + apply (HQ q' (CWaiting key r false)). split_and!; simpl; [done| |lia]. intros _.
      apply andb_false_iff in Hb as [Hb|Hb]; bool_cases; [lia|]. apply Hfull. intros Hnil. by rewrite Hnil in Hb.
    + exists (CWaiting key r false). done.
Qed.

Lemma queuesAfter_trans key P Q s s1 s2 :
  queuesAfter key P s s1 -> queuesAfter key Q s1 s2 -> queuesAfter key Q s s2.
Proof.
  intros H1 H2 key' r' q' Hk Hq. specialize (H2 _ _ _ Hk Hq). case_decide; [done|]. destruct H2 as [H2 H3].
  specialize (H1 _ _ _ H2 H3). by rewrite decide_False in H1.
Qed.

Definition heldBefore (key : string) (s : Slots) (n : Z) : Prop :=
  n = 0 \/ ∃ r q, sSlots s !! key = Some r /\ sHeap s !! r = Some q /\ qHeld q = n.

Lemma AcquireSlot_spec s key limit :
  Core s -> 0 < limit -> key <> "" -> sClosed s = false ->
  let s' := AcquireSlot key limit s in
  Core s' /\ sClosed s' = sClosed s /\ fair s s' /\
  ∃ n, heldBefore key s n /\ queuesAfter key (settled limit n) s s'.
Proof.
  intros HC Hl Hne Hcl. unfold AcquireSlot. rewrite Hcl, bool_decide_false, orb_false_r by done.
  destruct (limit <=? 0) eqn:Hl0; bool_cases; [lia|].
  destruct (queueOf key s) as [r s1] eqn:Hq0.
  destruct (queueOf_spec _ _ _ _ HC Hq0) as (HC1 & Hk1 & Hcl1 & Hc1 & Hn1 & q & Hq & Hb1). rewrite Hq.
  set (s2 := withQueue r (mkQueue (qHeld q) limit (qWaiters q)) s1).
  assert (Core s2) as HC2 by (by apply (withQueue_core _ key r q)).
  assert (sHeap s2 !! r = Some (mkQueue (qHeld q) limit (qWaiters q))) as Hq2 by apply lookup_insert_eq.
  destruct (admitLocked_spec s2 key r _ HC2 Hk1 Hq2) as (HC3 & Hs3 & Hcl3 & Hn3 & q3 & tk & Hh3 & Hl3 & Hb3 & Hf3 & Hw3 & Ha3).
  simpl in Hs3, Hcl3, Hn3, Hh3, Hl3, Hb3, Hw3.
  assert (sHeap (admitLocked r s2) !! r = Some q3) as Hq3 by (by rewrite Hh3, lookup_insert_eq).
  rewrite Hq3. set (s3 := admitLocked r s2) in *.
  assert (sSlots s3 !! key = Some r) as Hk3 by (by rewrite Hs3).
  destruct (enter_spec s3 key r q3 HC3 Hk3 Hq3 Hf3) as (HC4 & Hcl4 & Hb4 & y & Hc4 & Hy & Hyo).
  cbv zeta. match goal with |- Core ?x /\ _ => set (s4 := x) in * end. split_and!; [done|by rewrite Hcl4, Hcl3, Hcl1| |].
  - assert (fair s s3) as Hfair.
    { intros c1 c2 key' r' x Hx Hsv Hsh. apply (admitted_fair s2 s3 key r tk q3 (qWaiters q3) HC3 Ha3 Hq3) with x; try done.
      - destruct (core_queue _ HC2 _ _ Hk1) as (q0 & Hq0' & _ & _ & Hsort). rewrite Hq2 in Hq0'. injection Hq0' as <-.
        simpl in Hsort. by rewrite Hw3 in Hsort.
      - simpl. by rewrite Hc1. }
    intros c1 c2 key' r' x Hx Hsv Hsh H1. rewrite Hc4 in Hx. destruct (decide (c2 = sNextCaller s3)) as [->|Hn2].
    + rewrite lookup_insert_eq in Hx. injection Hx as <-. exfalso. destruct (decide (key' = key)) as [->|Hkk].
      * by apply (Hy Hsv c1 r').
      * by rewrite (Hyo _ Hkk) in Hsv.
    + rewrite lookup_insert_ne in Hx by done. rewrite Hc4 in H1. destruct (decide (c1 = sNextCaller s3)) as [->|Hn1'].
      * by eapply caller_bound.
      * rewrite lookup_insert_ne in H1 by done. by eapply (Hfair c1 c2).
  - assert (queuesAfter key (λ _, True) s s3) as Hb.
    { intros key' r' q' Hk' Hq'. rewrite Hs3 in Hk'. rewrite Hh3, insert_insert_eq in Hq'. case_decide as Hkk; [done|].
      assert (r' <> r) as Hr by (intros ->; apply Hkk; by apply (core_inj _ HC1 _ _ r)).
      rewrite lookup_insert_ne in Hq' by done. specialize (Hb1 _ _ _ Hk' Hq'). by rewrite decide_False in Hb1. }
    exists (qHeld q). split.
    + specialize (Hb1 _ _ _ Hk1 Hq). rewrite decide_True in Hb1 by done. destruct Hb1 as [_ [[? ?]|?]]; [right; eauto|by left].
    + intros key' r' q' Hk' Hq'. pose proof (queuesAfter_trans _ _ _ _ _ _ Hb Hb4 _ _ _ Hk' Hq') as Hst.
      case_decide; [|done]. destruct Hst as (E1 & E2 & E3). rewrite Hl3 in *. split_and!; [done|done|]. lia.
Qed.

(** ** Runs *)

(** The newest limit that took effect for [key], and whether the manager is closed. *)
Definition noteLimit (key : string) (st : bool * option Z) (o : op) : bool * option Z :=
  match o with
  | OAcquire k limit => if bool_decide (k = key) && (0 <? limit) && negb (bool_decide (k = "")) && negb st.1 then (st.1, Some limit) else st
  | OShutdown => (true, st.2)
  | _ => st
  end.

Definition newest (key : string) (ops : list op) : bool * option Z := foldl (noteLimit key) (false, None) ops.

Definition limitsBelow (key : string) (n : Z) (ops : list op) : Prop :=
  ∀ limit, OAcquire key limit ∈ ops -> limit <= n.

Definition queueGood (ops : list op) (key : string) (q : slotQueue) : Prop :=
  (newest key ops).2 = Some (qLimit q) /\ 0 < qLimit q /\ (qWaiters q <> [] -> qLimit q <= qHeld q) /\
  ∀ n, limitsBelow key n ops -> qLimit q <= n /\ qHeld q <= n.

Record Inv (ops : list op) (s : Slots) : Prop := mkInv {
  inv_core : Core s;
  inv_closed : ∀ key, (newest key ops).1 = sClosed s;
  inv_good : ∀ key r q, sSlots s !! key = Some r -> sHeap s !! r = Some q -> queueGood ops key q
}.

Lemma newest_snoc key ops o : newest key (ops ++ [o]) = noteLimit key (newest key ops) o.
Proof. unfold newest. by rewrite foldl_app. Qed.

Lemma limitsBelow_snoc key n ops o : limitsBelow key n (ops ++ [o]) -> limitsBelow key n ops.
Proof. intros H limit Hin. apply H, elem_of_app. by left. Qed.

(** A queue stays good when its key's limit is not changed. *)
Lemma good_keep ops o key q :
  queueGood ops key q -> (newest key (ops ++ [o])).2 = (newest key ops).2 -> queueGood (ops ++ [o]) key q.
Proof.
  intros (H1 & H2 & H3 & H4) He. split_and!; [by rewrite He|done..|].
  intros n Hb. by eapply H4, limitsBelow_snoc.
Qed.

Lemma good_settled ops o key q q' :
  queueGood ops key q -> settled (qLimit q) (qHeld q) q' ->
  (newest key (ops ++ [o])).2 = (newest key ops).2 -> queueGood (ops ++ [o]) key q'.
Proof.
  intros (H1 & H2 & H3 & H4) (E1 & E2 & E3) He. split_and!; [by rewrite He, E1|lia|done|].
  intros n Hb. apply limitsBelow_snoc in Hb. specialize (H4 n Hb). lia.
Qed.

(** A step that leaves the key's limit alone and settles the queue of one key. *)
Lemma settle_inv ops o s s' key r q :
  Inv ops s -> sSlots s !! key = Some r -> sHeap s !! r = Some q ->
  Core s' -> sClosed s' = sClosed s -> queuesAfter key (settled (qLimit q) (qHeld q)) s s' ->
  (∀ k st, noteLimit k st o = st) -> Inv (ops ++ [o]) s'.
Proof.
  intros HI Hk Hq HC Hcl Hqs Ho. split; [done| |].
  - intros k. by rewrite newest_snoc, Ho, Hcl, (inv_closed _ _ HI).
  - intros key' r' q' Hk' Hq'. specialize (Hqs _ _ _ Hk' Hq'). case_decide as Hkk.
    + subst key'. eapply good_settled; [by eapply (inv_good _ _ HI)|done|]. by rewrite newest_snoc, Ho.
    + destruct Hqs as [? ?]. eapply good_keep; [by eapply (inv_good _ _ HI)|]. by rewrite newest_snoc, Ho.
Qed.

(** A step on the callers alone that changes nobody's slot. *)
Lemma frame_inv ops o s callers n :
  Inv ops s -> (∀ k st, (noteLimit k st o).1 = st.1 /\ (st.1 = sClosed s -> noteLimit k st o = st)) ->
  Core (mkSlots (sClosed s) (sSlots s) (sHeap s) (sNextQueue s) callers n) ->
  Inv (ops ++ [o]) (mkSlots (sClosed s) (sSlots s) (sHeap s) (sNextQueue s) callers n).
Proof.
  intros HI Ho HC. split; [done| |]; simpl.
  - intros k. rewrite newest_snoc. destruct (Ho k (newest k ops)) as [-> _]. apply (inv_closed _ _ HI).
  - intros key r q Hk Hq. eapply good_keep; [by eapply (inv_good _ _ HI)|]. rewrite newest_snoc.
    destruct (Ho key (newest key ops)) as [_ ->]; [done|]. apply (inv_closed _ _ HI).
Qed.

Lemma fair_none s s' :
  (∀ c x key, sCallers s' !! c = Some x -> served key x = true -> share (served key) (sCallers s !! c) <> 0) -> fair s s'.
Proof. intros H c1 c2 key r x Hx Hsv Hn. exfalso. by eapply H. Qed.

Lemma newCaller_core s y : Core s -> uses y = None -> Core (newCaller y s) /\ fair s (newCaller y s).
Proof.
  intros HC Hy. pose proof (core_nextc _ HC (sNextCaller s) ltac:(lia)) as Hnew.
  assert (∀ k, served k y = false) as Hsv by (intros k; by destruct y as [|? ? [|]|? ?| |]).
  split.
  - split; simpl; try apply HC.
    + intros key r Hk. destruct (core_queue _ HC _ _ Hk) as (q & Hq & Hheld & Hwait & Hsort).
      exists q. split; [done|]. split_and!; [rewrite countIf_share, Hnew, Hsv; simpl; lia| |done].
      intros c. rewrite Hwait. destruct (decide (c = sNextCaller s)) as [->|Hn]; [|by rewrite lookup_insert_ne].
      rewrite lookup_insert_eq, Hnew. split; [done|]. by intros [= ->].
    + intros c x key r Hx Hu. destruct (decide (c = sNextCaller s)) as [->|Hn].
      * rewrite lookup_insert_eq in Hx. injection Hx as <-. congruence.
      * rewrite lookup_insert_ne in Hx by done. by apply (core_users _ HC c x).
    + intros c Hc. rewrite lookup_insert_ne by lia. apply (core_nextc _ HC). lia.
  - apply fair_none. intros c x key Hx Hs. simpl in Hx. destruct (decide (c = sNextCaller s)) as [->|Hn].
    + rewrite lookup_insert_eq in Hx. injection Hx as <-. by rewrite Hsv in Hs.
    + rewrite lookup_insert_ne in Hx by done. rewrite Hx. simpl. by rewrite Hs.
Qed.

(** A woken caller returns with the slot it was handed. *)
Lemma wake_core s c key r :
  Core s -> sCallers s !! c = Some (CWaiting key r true) ->
  Core (withCaller c (CHolding key r) s) /\ fair s (withCaller c (CHolding key r) s).
Proof.
  intros HC Hc. pose proof (core_users _ HC _ _ _ _ Hc eq_refl) as Hk.
  destruct (core_queue _ HC _ _ Hk) as (q & Hq & Hheld & Hwait & Hsort). split.
  - replace (withCaller c (CHolding key r) s) with (update r q c (CHolding key r) (sNextCaller s) s).
    + apply (update_core _ key r q); try done.
      * rewrite Hc. intros y [= <-]. by right.
      * intros y [= <-]. by right.
      * rewrite Hc. simpl. rewrite bool_decide_true by done. simpl. lia.
      * intros c'. rewrite Hwait. destruct (decide (c' = c)) as [->|Hn]; [|by rewrite lookup_insert_ne].
        by rewrite lookup_insert_eq, Hc.
      * by eapply caller_bound.
    + unfold update, withCaller. by rewrite insert_id.
  - apply fair_none. intros c' x k Hx Hs. simpl in Hx. destruct (decide (c' = c)) as [->|Hn].
    + rewrite lookup_insert_eq in Hx. injection Hx as <-. rewrite Hc. simpl in *. by rewrite Hs.
    + rewrite lookup_insert_ne in Hx by done. rewrite Hx. simpl. by rewrite Hs.
Qed.

Lemma fair_refl s : fair s s.
Proof. apply fair_none. intros c x key Hx Hs. rewrite Hx. simpl. by rewrite Hs. Qed.

Lemma same_inv ops o s : Inv ops s -> (∀ k st, noteLimit k st o = st) -> Inv (ops ++ [o]) s /\ fair s s.
Proof.
  intros HI Ho. split; [|apply fair_refl]. pose proof (frame_inv ops o s (sCallers s) (sNextCaller s) HI) as Hf.
  destruct s. apply Hf; [|apply HI]. intros k st. by rewrite Ho.
Qed.

Lemma acquire_inv ops key limit s :
  Inv ops s -> Inv (ops ++ [OAcquire key limit]) (AcquireSlot key limit s) /\ fair s (AcquireSlot key limit s).
Proof.
  intros HI. pose proof (inv_core _ _ HI) as HC.
  destruct (decide (0 < limit /\ key <> "" /\ sClosed s = false)) as [(Hl & Hk & Hcl)|Hoff].
  - destruct (AcquireSlot_spec s key limit HC Hl Hk Hcl) as (HC' & Hcl' & Hf & n & Hn & Hqs). split; [|done].
    assert (∀ k, newest k (ops ++ [OAcquire key limit]) =
      (sClosed s, if decide (key = k) then Some limit else (newest k ops).2)) as Hnew.
    { intros k. rewrite newest_snoc. unfold noteLimit. rewrite (inv_closed _ _ HI), Hcl, (bool_decide_false (key = "")) by done.
      rewrite (proj2 (Z.ltb_lt 0 limit)) by done. rewrite !andb_true_r.
      case_bool_decide; [by rewrite decide_True|]. rewrite decide_False by done.
      pose proof (inv_closed _ _ HI k). destruct (newest k ops). simpl in *. congruence. }
    split; [done| |].
    + intros k. by rewrite Hnew, Hcl'.
    + intros key' r' q' Hk' Hq'. specialize (Hqs _ _ _ Hk' Hq'). case_decide as Hkk.
      * subst key'. destruct Hqs as (E1 & E2 & E3). split_and!; [|lia|done|].
        -- rewrite Hnew, decide_True, E1 by done. done.
        -- intros m Hm. assert (limit <= m) as Hlm by (apply Hm; set_solver).
           assert (n <= m) as Hnm; [|lia]. destruct Hn as [->|(r & q & Hr & Hq & <-)]; [lia|].
           destruct (inv_good _ _ HI _ _ _ Hr Hq) as (_ & _ & _ & Hb). by eapply Hb, limitsBelow_snoc.
      * destruct Hqs as [? ?]. eapply good_keep; [by eapply (inv_good _ _ HI)|]. by rewrite Hnew, decide_False.
  - assert (∃ y, AcquireSlot key limit s = newCaller y s /\ uses y = None) as (y & -> & Hy).
    { unfold AcquireSlot. destruct (limit <=? 0) eqn:Hl; [by eexists|]. case_bool_decide; [by eexists|]. simpl.
      destruct (sClosed s) eqn:Hcl; [by eexists|]. bool_cases. naive_solver lia. }
    destruct (newCaller_core _ _ HC Hy) as [HC' Hf]. split; [|done]. apply frame_inv; try done.
    intros k st. simpl. destruct (_ && _ && _ && _) eqn:Hb; [|done]. simpl. split; [done|]. intros Hst. exfalso.
    bool_cases. apply Hoff. subst k. by rewrite <- Hst.
Qed.

Lemma slots_exec_inv ops o s : Inv ops s -> Inv (ops ++ [o]) (exec s o) /\ fair s (exec s o).
Proof.
  intros HI. pose proof (inv_core _ _ HI) as HC. destruct o as [key limit|c|c|c|c|]; simpl.
  - by apply acquire_inv.
  - destruct (sCallers s !! c) as [[|key r [|]|key r| |]|] eqn:Hc; try (by apply same_inv).
    destruct (wake_core _ _ _ _ HC Hc). split; [|done]. by apply frame_inv.
  - destruct (sCallers s !! c) as [[|key r b|key r| |]|] eqn:Hc; try (by apply same_inv).
    pose proof (core_users _ HC _ _ _ _ Hc eq_refl) as Hk. destruct (core_queue _ HC _ _ Hk) as (q & Hq & _).
    destruct (inv_good _ _ HI _ _ _ Hk Hq) as (_ & _ & Hfull & _).
    destruct (cancelled_spec s c key r b ErrContext q HC Hc Hq Hfull) as (? & ? & ? & ?).
    split; [|done]. by eapply settle_inv.
  - destruct (sCallers s !! c) as [[|key r b|key r| |]|] eqn:Hc; try (by apply same_inv).
    destruct (sClosed s) eqn:Hcl; [|by apply same_inv].
    pose proof (core_users _ HC _ _ _ _ Hc eq_refl) as Hk. destruct (core_queue _ HC _ _ Hk) as (q & Hq & _).
    destruct (inv_good _ _ HI _ _ _ Hk Hq) as (_ & _ & Hfull & _).
    destruct (cancelled_spec s c key r b ErrShuttingDown q HC Hc Hq Hfull) as (? & ? & ? & ?).
    split; [|done]. by eapply settle_inv.
  - destruct (sCallers s !! c) as [[|key r b|key r| |]|] eqn:Hc; try (by apply same_inv).
    pose proof (core_users _ HC _ _ _ _ Hc eq_refl) as Hk. destruct (core_queue _ HC _ _ Hk) as (q & Hq & _).
    destruct (give_up_spec s c (CHolding key r) CReleased key r q) as (? & ? & ? & ?); try done.
    { by apply bool_decide_eq_true. }
    split; [|done]. by eapply settle_inv.
  - split; [|apply fair_none; intros c x key Hx Hs; simpl in Hx; rewrite Hx; simpl; by rewrite Hs].
    split; simpl.
    + destruct HC. by split.
    + intros k. by rewrite newest_snoc.
    + intros key r q Hk Hq. eapply good_keep; [by eapply (inv_good _ _ HI)|]. by rewrite newest_snoc.
Qed.

Lemma slots_run_inv ops : Inv ops (run ops).
Proof.
  unfold run. induction ops as [|o ops IH] using rev_ind.
  - split; [apply empty_core|done|done].
  - rewrite foldl_app. by apply slots_exec_inv.
Qed.

(** [C40] The limit of a connection holds: after any sequence of calls, cancellations,
    releases and shutdowns, when no call for the key gave a limit above [n], at most [n]
    callers have a slot of the key, those that were handed one but have not returned
    included. *)
Theorem slots_bounded ops key n :
  0 <= n -> (∀ limit, OAcquire key limit ∈ ops -> limit <= n) ->
  countIf (served key) (sCallers (run ops)) <= n.
Proof.
  intros Hn Hb. pose proof (slots_run_inv ops) as HI. pose proof (inv_core _ _ HI) as HC.
  destruct (Z.le_gt_cases (countIf (served key) (sCallers (run ops))) 0) as [|Hp]; [lia|].
  destruct (countIf_pos (served key) (sCallers (run ops))) as (c & x & Hc & Hx); [lia|].
  assert (∃ r, uses x = Some (key, r)) as [r Hu].
  { destruct x as [|k r [|]|k r| |]; simpl in Hx; try done; bool_cases; subst k; by exists r. }
  pose proof (core_users _ HC _ _ _ _ Hc Hu) as Hk. destruct (core_queue _ HC _ _ Hk) as (q & Hq & Hheld & _).
  destruct (inv_good _ _ HI _ _ _ Hk Hq) as (_ & _ & _ & Hg). rewrite <- Hheld. by apply Hg.
Qed.

(** No slot is left idle: a caller waits without a slot only while as many callers
    have one as the newest limit of its key allows, and at least one does. So a release
    or a raised limit never leaves a waiter behind. *)
Theorem slots_work_conserving ops c key r :
  sCallers (run ops) !! c = Some (CWaiting key r false) ->
  ∃ limit, (newest key ops).2 = Some limit /\ 1 <= limit <= countIf (served key) (sCallers (run ops)).
Proof.
  intros Hc. pose proof (slots_run_inv ops) as HI. pose proof (inv_core _ _ HI) as HC.
  pose proof (core_users _ HC _ _ _ _ Hc eq_refl) as Hk. destruct (core_queue _ HC _ _ Hk) as (q & Hq & Hheld & Hwait & _).
  destruct (inv_good _ _ HI _ _ _ Hk Hq) as (Hl & Hp & Hfull & _). exists (qLimit q). split; [done|].
  assert (qWaiters q <> []) as Hne by (intros Hnil; apply Hwait in Hc; rewrite Hnil in Hc; set_solver).
  specialize (Hfull Hne). lia.
Qed.

(** First come, first served: a caller that gets a slot in a step called before
    every caller that still waits for one of the key after it. *)
Theorem slots_fifo ops o c1 c2 key r x :
  let s := run ops in let s' := exec s o in
  sCallers s' !! c2 = Some x -> served key x = true -> share (served key) (sCallers s !! c2) = 0 ->
  sCallers s' !! c1 = Some (CWaiting key r false) -> (c2 < c1)%nat.
Proof. apply (slots_exec_inv ops o (run ops) (slots_run_inv ops)). Qed.

Definition demoOps : list op :=
  [OAcquire "connection:a" 1; OAcquire "connection:a" 1; OAcquire "connection:a" 1].

Lemma slots_bounded_witness : countIf (served "connection:a") (sCallers (run demoOps)) <= 1.
Proof.
  apply (slots_bounded demoOps "connection:a" 1); [lia|].
  intros limit Hin. unfold demoOps in Hin. rewrite !elem_of_cons, elem_of_nil in Hin.
  destruct Hin as [[= ->]|[[= ->]|[[= ->]|[]]]]; lia.
Defined.

Lemma slots_work_conserving_witness :
  ∃ limit, (newest "connection:a" demoOps).2 = Some limit /\
    1 <= limit <= countIf (served "connection:a") (sCallers (run demoOps)).
Proof. apply (slots_work_conserving demoOps 2 "connection:a" 0). vm_compute. reflexivity. Defined.

Lemma slots_fifo_witness : (1 < 2)%nat.
Proof.
  apply (slots_fifo demoOps (ORelease 0) 2 1 "connection:a" 0 (CWaiting "connection:a" 0 true)); vm_compute; reflexivity.
Defined.
