(* ===== verification/Throttle.v ===== *)
(** * Password throttling (src/internal/auth/throttle.go)

    Failed attempts per (address, user) pair and per address, lockouts that double,
    and attempts that are reserved before the slow password check. Entries are objects
    found by key; every method runs under [Throttle.mu] and is one function on the
    table. A loop over the Go map takes its order of iteration as an argument. *)

From S2P Require Import Prelude.

Definition FreeAttempts : Z := 5.
Definition LockoutBase : Z := 30 * second.
Definition MaxLockout : Z := 15 * minute.
Definition ForgetAfter : Z := 30 * minute.
Definition maxTrackedKeys : Z := 10000.
Definition ipFreeAttempts : Z := 4 * FreeAttempts.
Definition noisyPairBudget : Z := 1.
Definition maxInFlightPerPair : Z := 1.
Definition maxInFlightPerIP : Z := 4.
Definition busyRetry : Z := second.

Record throttleEntry : Type := mkEntry {
  failures : Z;
  inFlight : Z;
  lockedUntil : Z;
  lastFailure : Z;
  windowStart : Z
}.

Definition zeroEntry : throttleEntry := mkEntry 0 0 0 0 0.

Abbreviation Throttle := (gmap string throttleEntry).

Definition setFailures (n : Z) (e : throttleEntry) : throttleEntry :=
  mkEntry n (inFlight e) (lockedUntil e) (lastFailure e) (windowStart e).
Definition setInFlight (n : Z) (e : throttleEntry) : throttleEntry :=
  mkEntry (failures e) n (lockedUntil e) (lastFailure e) (windowStart e).
Definition setLocked (t : Z) (e : throttleEntry) : throttleEntry :=
  mkEntry (failures e) (inFlight e) t (lastFailure e) (windowStart e).
Definition addFailure (now : Z) (e : throttleEntry) : throttleEntry :=
  mkEntry (failures e + 1) (inFlight e) (lockedUntil e) now (windowStart e).

(** ** Helpers *)

(** The entry of [key], the zero entry when there is none ([entryLocked] creates it). *)
Definition entry (t : Throttle) (key : string) : throttleEntry := default zeroEntry (t !! key).

Definition entryLocked (key : string) (t : Throttle) : Throttle := <[key := entry t key]> t.

Definition forgetStale (now : Z) (e : throttleEntry) : throttleEntry :=
  if (failures e >? 0) && negb (now <? lockedUntil e) && (time_sub now (lastFailure e) >? ForgetAfter)
  then setFailures 0 e else e.

Definition lockoutFor (over : Z) : Z :=
  if over >=? 16 then MaxLockout else Z.min (Z.shiftl LockoutBase over) MaxLockout.

(** An idle entry whose lockout is over. *)
Definition idleUnlocked (now : Z) (e : throttleEntry) : bool := (inFlight e =? 0) && (now >? lockedUntil e).

Fixpoint dropUnlocked (now : Z) (order : list string) (t : Throttle) : Throttle :=
  match order with
  | [] => t
  | k :: order' =>
      let t1 := match t !! k with Some e => if idleUnlocked now e then delete k t else t | None => t end in
      if Z.of_nat (size t1) <? Z.quot maxTrackedKeys 2 then t1 else dropUnlocked now order' t1
  end.

Definition pruneLocked (now : Z) (order : list string) (t : Throttle) : Throttle :=
  if Z.of_nat (size t) <? Z.quot maxTrackedKeys 2 then t
  else
    let t1 := filter (λ p : string * throttleEntry,
                        (idleUnlocked now p.2 && (time_sub now (lastFailure p.2) >? ForgetAfter)) = false) t in
    if Z.of_nat (size t1) <? maxTrackedKeys then t1 else dropUnlocked now order t1.

(** ** Operations *)

(** [Reserve]: [Ok] with the attempt, or the time to wait. *)
Definition Reserve (now : Z) (order : list string) (pairKey ipKey : string) (t : Throttle) : Throttle * result Z unit :=
  let t := pruneLocked now order t in
  let t := <[pairKey := forgetStale now (entry t pairKey)]> t in
  let wait := time_sub (lockedUntil (entry t pairKey)) now in
  if wait >? 0 then (t, Err wait)
  else if inFlight (entry t pairKey) >=? maxInFlightPerPair then (t, Err busyRetry)
  else if bool_decide (ipKey = "") then
    (<[pairKey := setInFlight (inFlight (entry t pairKey) + 1) (entry t pairKey)]> t, Ok tt)
  else
    let t := <[ipKey := forgetStale now (entry t ipKey)]> t in
    if (failures (entry t pairKey) >? 0) && (inFlight (entry t ipKey) >=? maxInFlightPerIP) then (t, Err busyRetry)
    else
      let t := <[ipKey := setInFlight (inFlight (entry t ipKey) + 1) (entry t ipKey)]> t in
      (<[pairKey := setInFlight (inFlight (entry t pairKey) + 1) (entry t pairKey)]> t, Ok tt).

Definition releaseKey (key : string) (t : Throttle) : Throttle :=
  match t !! key with
  | Some e => if inFlight e >? 0 then <[key := setInFlight (inFlight e - 1) e]> t else t
  | None => t
  end.

Definition releaseLocked (pairKey ipKey : string) (t : Throttle) : Throttle :=
  let t := releaseKey pairKey t in if bool_decide (ipKey = "") then t else releaseKey ipKey t.

Definition Succeeded (pairKey ipKey : string) (t : Throttle) : Throttle :=
  delete pairKey (releaseLocked pairKey ipKey t).

(** The failure of the address, and the pair's budget after it. *)
Definition failIP (now : Z) (ipKey : string) (t : Throttle) : Throttle * Z :=
  if bool_decide (ipKey = "") then (t, FreeAttempts)
  else
    let e := addFailure now (entry t ipKey) in
    (<[ipKey := e]> t, if failures e >=? ipFreeAttempts then noisyPairBudget else FreeAttempts).

Definition Failed (now : Z) (pairKey ipKey : string) (t : Throttle) : Throttle :=
  let t := releaseLocked pairKey ipKey t in
  let '(t, budget) := failIP now ipKey t in
  let e := addFailure now (entry t pairKey) in
  let over := failures e - budget in
  <[pairKey := if over >=? 0 then setLocked (now + lockoutFor over) e else e]> t.

Definition Released (pairKey ipKey : string) (t : Throttle) : Throttle := releaseLocked pairKey ipKey t.

Definition CountFailure (now : Z) (order : list string) (key : string) (free window : Z) (t : Throttle) : Throttle * Z :=
  let t := pruneLocked now order t in
  let e := entry t key in
  let e := if IsZero (windowStart e) || (time_sub now (windowStart e) >=? window)
           then mkEntry 0 (inFlight e) (lockedUntil e) (lastFailure e) now else e in
  let e := addFailure now e in
  if failures e <=? free then (<[key := e]> t, 0)
  else
    let e := setLocked (windowStart e + window) e in
    (<[key := e]> t, time_sub (lockedUntil e) now).

(** ** The throttle and its attempts *)

Inductive attempt : Type := AOpen (pairKey ipKey : string) | ADone.

Record World : Type := mkWorld { wTable : Throttle; wAttempts : gmap nat attempt; wNext : nat }.

Definition start : World := mkWorld ∅ ∅ 0.

Inductive op : Type :=
| OReserve (now : Z) (order : list string) (pairKey ipKey : string)
| OSucceeded (a : nat)
| OFailed (now : Z) (a : nat)
| OReleased (a : nat)
| OCountFailure (now : Z) (order : list string) (key : string) (free window : Z).

(** Ends attempt [a], once. *)
Definition finish (a : nat) (f : string -> string -> Throttle -> Throttle) (w : World) : World :=
  match wAttempts w !! a with
  | Some (AOpen p ip) => mkWorld (f p ip (wTable w)) (<[a := ADone]> (wAttempts w)) (wNext w)
  | _ => w
  end.

Definition exec (w : World) (o : op) : World :=
  match o with
  | OReserve now order p ip =>
      match Reserve now order p ip (wTable w) with
      | (t, Ok _) => mkWorld t (<[wNext w := AOpen p ip]> (wAttempts w)) (S (wNext w))
      | (t, Err _) => mkWorld t (wAttempts w) (wNext w)
      end
  | OSucceeded a => finish a Succeeded w
  | OFailed now a => finish a (Failed now) w
  | OReleased a => finish a Released w
  | OCountFailure now order key free window =>
      mkWorld (fst (CountFailure now order key free window (wTable w))) (wAttempts w) (wNext w)
  end.

Definition run (ops : list op) (w : World) : World := foldl exec w ops.

(** ** What an operation does to the entry of one pair *)

(** [p] is used as a pair only, as the keys of the service are ("login|", "password|"
    for pairs, "ip|", "setup|" and "oidc|" for the others). *)
Definition pairOnly (p : string) (o : op) : Prop :=
  match o with
  | OReserve _ _ _ ip => ip <> p
  | OCountFailure _ _ key _ _ => key <> p
  | _ => True
  end.

Lemma dropUnlocked_lookup now p order : ∀ t,
  dropUnlocked now order t !! p = t !! p \/
  (dropUnlocked now order t !! p = None /\ ∃ e, t !! p = Some e /\ idleUnlocked now e = true).
Proof.
  induction order as [|k order IH]; intros t; simpl; [by left|].
  set (t1 := match t !! k with Some e => _ | None => _ end).
  assert (t1 !! p = t !! p \/ (t1 !! p = None /\ ∃ e, t !! p = Some e /\ idleUnlocked now e = true)) as H1.
  { subst t1. destruct (t !! k) as [e|] eqn:Hk; [|by left]. destruct (idleUnlocked now e) eqn:Hi; [|by left].
    destruct (decide (k = p)) as [->|Hn]; [right; rewrite lookup_delete_eq; eauto|]. left. by rewrite lookup_delete_ne. }
  destruct (_ <? _); [done|].
  destruct (IH t1) as [->|(-> & e & He & Hi)]; [done|].
  right. split; [done|]. destruct H1 as [H1|(H1 & ?)]; [rewrite <- H1; eauto|done].
Qed.

Lemma pruneLocked_lookup now order t p :
  pruneLocked now order t !! p = t !! p \/
  (pruneLocked now order t !! p = None /\ ∃ e, t !! p = Some e /\ idleUnlocked now e = true).
Proof.
  unfold pruneLocked. destruct (_ <? _); [by left|]. set (t1 := filter _ t).
  assert (t1 !! p = t !! p \/ (t1 !! p = None /\ ∃ e, t !! p = Some e /\ idleUnlocked now e = true)) as H1.
  { subst t1. destruct (t !! p) as [e|] eqn:Hp.
    - destruct (idleUnlocked now e && (time_sub now (lastFailure e) >? ForgetAfter)) eqn:Hi.
      + right. split; [|exists e; bool_cases; auto]. apply map_lookup_filter_None. right.
        intros x Hx. rewrite Hp in Hx. injection Hx as <-. simpl. by rewrite Hi.
      + left. by apply map_lookup_filter_Some.
    - left. apply map_lookup_filter_None. by left. }
  destruct (_ <? _); [done|].
  destruct (dropUnlocked_lookup now p order t1) as [->|(-> & e & He & Hi)]; [done|].
  right. split; [done|]. destruct H1 as [H1|(H1 & ?)]; [rewrite <- H1; eauto|done].
Qed.

Lemma pruneLocked_inFlight now order t p : inFlight (entry (pruneLocked now order t) p) = inFlight (entry t p).
Proof.
  unfold entry. destruct (pruneLocked_lookup now order t p) as [->|(-> & e & -> & Hi)]; [done|].
  unfold idleUnlocked in Hi. bool_cases. by simpl.
Qed.

Lemma forgetStale_inFlight now e : inFlight (forgetStale now e) = inFlight e.
Proof. unfold forgetStale. by destruct (_ && _). Qed.

Lemma releaseKey_ne key t p : key <> p -> releaseKey key t !! p = t !! p.
Proof. intros Hn. unfold releaseKey. destruct (t !! key); [|done]. destruct (_ >? _); [by rewrite lookup_insert_ne|done]. Qed.

Lemma releaseLocked_ne pk ip t p : pk <> p -> ip <> p -> releaseLocked pk ip t !! p = t !! p.
Proof. intros Hp Hi. unfold releaseLocked. case_bool_decide; by rewrite ?releaseKey_ne. Qed.

Lemma failIP_ne now ip t p : ip <> p -> fst (failIP now ip t) !! p = t !! p.
Proof. intros Hn. unfold failIP. case_bool_decide; simpl; [done|]. by rewrite lookup_insert_ne. Qed.

Lemma Failed_ne now pk ip t p : pk <> p -> ip <> p -> Failed now pk ip t !! p = t !! p.
Proof.
  intros Hp Hi. unfold Failed. pose proof (failIP_ne now ip (releaseLocked pk ip t) p Hi) as Hf.
  destruct (failIP now ip (releaseLocked pk ip t)) as [t1 b]. simpl in Hf.
  rewrite lookup_insert_ne, Hf by done. by apply releaseLocked_ne.
Qed.

(** The release of an attempt of the pair itself. *)
Lemma releaseLocked_pair p ip t :
  ip <> p -> 0 < inFlight (entry t p) ->
  releaseLocked p ip t !! p = Some (setInFlight (inFlight (entry t p) - 1) (entry t p)).
Proof.
  intros Hn Hp. assert (releaseKey p t !! p = Some (setInFlight (inFlight (entry t p) - 1) (entry t p))) as Hr.
  { unfold releaseKey, entry in *. destruct (t !! p) as [e|]; simpl in *; [|lia].
    rewrite Z.gtb_ltb, (proj2 (Z.ltb_lt _ _)) by lia. by rewrite lookup_insert_eq. }
  unfold releaseLocked. case_bool_decide; [done|]. by rewrite releaseKey_ne.
Qed.

Lemma Failed_pair now p ip t :
  ip <> p -> 0 < inFlight (entry t p) ->
  ∃ b e, (b = FreeAttempts \/ b = noisyPairBudget) /\ Failed now p ip t !! p = Some e /\
    failures e = failures (entry t p) + 1 /\ inFlight e = inFlight (entry t p) - 1 /\ lastFailure e = now /\
    lockedUntil e = (if failures e - b >=? 0 then now + lockoutFor (failures e - b) else lockedUntil (entry t p)).
Proof.
  intros Hn Hp. unfold Failed. pose proof (failIP_ne now ip (releaseLocked p ip t) p Hn) as Hf.
  assert (snd (failIP now ip (releaseLocked p ip t)) = FreeAttempts \/ snd (failIP now ip (releaseLocked p ip t)) = noisyPairBudget) as Hb.
  { unfold failIP. case_bool_decide; simpl; [by left|]. destruct (_ >=? _); auto. }
  destruct (failIP now ip (releaseLocked p ip t)) as [t1 b]. simpl in Hf, Hb.
  assert (entry t1 p = setInFlight (inFlight (entry t p) - 1) (entry t p)) as He.
  { unfold entry at 1. by rewrite Hf, releaseLocked_pair. }
  rewrite He. eexists b, _. split; [done|]. rewrite lookup_insert_eq. split; [done|]. simpl.
  destruct (_ >=? 0) eqn:Ho; simpl; rewrite ?Ho; done.
Qed.

Lemma entry_insert t k e p : entry (<[k := e]> t) p = if decide (k = p) then e else entry t p.
Proof. unfold entry. case_decide as Hk; [subst; by rewrite lookup_insert_eq|by rewrite lookup_insert_ne]. Qed.

Lemma Reserve_other now order pk ip t p :
  pk <> p -> ip <> p ->
  fst (Reserve now order pk ip t) !! p = pruneLocked now order t !! p.
Proof.
  intros Hp Hi. unfold Reserve.
  destruct (_ >? 0); simpl; [by rewrite lookup_insert_ne|].
  destruct (_ >=? maxInFlightPerPair); simpl; [by rewrite lookup_insert_ne|].
  case_bool_decide; simpl; [by rewrite !lookup_insert_ne|].
  destruct (_ && _); simpl; by rewrite !lookup_insert_ne.
Qed.

Lemma Reserve_pair now order p ip t :
  ip <> p ->
  let e := forgetStale now (entry (pruneLocked now order t) p) in
  let '(t', r) := Reserve now order p ip t in
  match r with
  | Ok _ => time_sub (lockedUntil e) now <= 0 /\ inFlight e < maxInFlightPerPair /\
            t' !! p = Some (setInFlight (inFlight e + 1) e)
  | Err wait => t' !! p = Some e /\ (0 < time_sub (lockedUntil e) now -> wait = time_sub (lockedUntil e) now)
  end.
Proof.
  intros Hi. unfold Reserve. rewrite entry_insert, decide_True by done.
  set (e := forgetStale now (entry (pruneLocked now order t) p)).
  rewrite Z.gtb_ltb. destruct (0 <? _) eqn:Hw; bool_cases; [by rewrite lookup_insert_eq|].
  rewrite Z.geb_leb. destruct (_ <=? _) eqn:Hf; bool_cases; [rewrite lookup_insert_eq; split; [done|lia]|].
  case_bool_decide as He; [by rewrite lookup_insert_eq|].
  rewrite (entry_insert _ ip _ p), decide_False, (entry_insert _ p _ p), decide_True by done.
  destruct (_ && _).
  - rewrite lookup_insert_ne, lookup_insert_eq by done. split; [done|lia].
  - rewrite lookup_insert_eq. rewrite (entry_insert _ ip _ p), decide_False by done.
    rewrite (entry_insert _ ip _ p), decide_False, (entry_insert _ p _ p), decide_True by done. done.
Qed.

(** ** One attempt at a time *)

Definition openOn (p : string) (x : attempt) : bool := match x with AOpen q _ => bool_decide (q = p) | ADone => false end.

Record Inv (p : string) (w : World) : Prop := mkInv {
  inv_flight : inFlight (entry (wTable w) p) = countIf (openOn p) (wAttempts w);
  inv_one : inFlight (entry (wTable w) p) <= maxInFlightPerPair;
  inv_ip : ∀ a q ip, wAttempts w !! a = Some (AOpen q ip) -> ip <> p;
  inv_next : ∀ a, (wNext w <= a)%nat -> wAttempts w !! a = None
}.

(** An open attempt of the pair is the one in flight. *)
Lemma open_flight p w a ip :
  Inv p w -> wAttempts w !! a = Some (AOpen p ip) -> inFlight (entry (wTable w) p) = 1.
Proof.
  intros HI Ha. assert (1 <= countIf (openOn p) (wAttempts w)).
  { apply (countIf_elem _ _ _ _ Ha). by apply bool_decide_eq_true. }
  pose proof (inv_flight _ _ HI). pose proof (inv_one _ _ HI). unfold maxInFlightPerPair in *. lia.
Qed.

Lemma entry_of (t : Throttle) p e : t !! p = Some e -> entry t p = e.
Proof. unfold entry. by intros ->. Qed.

Lemma entry_same (t t' : Throttle) p : t' !! p = t !! p -> entry t' p = entry t p.
Proof. unfold entry. by intros ->. Qed.

(** An attempt that ends leaves the books of the pair in order. *)
Lemma finish_inv p w a f :
  Inv p w ->
  (∀ q ip t, q <> p -> ip <> p -> f q ip t !! p = t !! p) ->
  (∀ ip t, ip <> p -> inFlight (entry t p) = 1 -> inFlight (entry (f p ip t) p) = 0) ->
  Inv p (finish a f w).
Proof.
  intros HI Hne Hp. unfold finish. destruct (wAttempts w !! a) as [[q ip|]|] eqn:Ha; try done.
  pose proof (inv_ip _ _ HI _ _ _ Ha) as Hip.
  assert (inFlight (entry (f q ip (wTable w)) p) = inFlight (entry (wTable w) p) - b2z (bool_decide (q = p))) as Hfl.
  { destruct (decide (q = p)) as [->|Hn].
    - rewrite bool_decide_true by done. simpl.
      pose proof (open_flight _ _ _ _ HI Ha). rewrite Hp by done. lia.
    - rewrite bool_decide_false, (entry_same _ _ _ (Hne q ip (wTable w) Hn Hip)) by done. simpl. lia. }
  split; simpl.
  - rewrite countIf_share, Ha, Hfl, (inv_flight _ _ HI). simpl. lia.
  - pose proof (inv_one _ _ HI). destruct (bool_decide (q = p)); simpl in Hfl; lia.
  - intros a' q' ip'. destruct (decide (a' = a)) as [->|Hn]; [by rewrite lookup_insert_eq|].
    rewrite lookup_insert_ne by done. apply (inv_ip _ _ HI).
  - intros a' Ha'. rewrite lookup_insert_ne; [by apply (inv_next _ _ HI)|]. intros <-.
    rewrite (inv_next _ _ HI) in Ha by done. done.
Qed.

Lemma reserve_inv p w now order q ip : Inv p w -> ip <> p -> Inv p (exec w (OReserve now order q ip)).
Proof.
  intros HI Ho. simpl.
  destruct (Reserve now order q ip (wTable w)) as [t r] eqn:Hr.
  destruct (decide (q = p)) as [->|Hn].
  + pose proof (Reserve_pair now order p ip (wTable w) Ho) as Hs. rewrite Hr in Hs. simpl in Hs.
    destruct r as [u|wait].
    * destruct Hs as (_ & Hlt & Ht). rewrite forgetStale_inFlight, pruneLocked_inFlight in Hlt.
      pose proof (countIf_nonneg (openOn p) (wAttempts w)). pose proof (inv_flight _ _ HI).
      unfold maxInFlightPerPair in *.
      assert (inFlight (entry t p) = inFlight (entry (wTable w) p) + 1) as Hf.
      { rewrite (entry_of _ _ _ Ht). simpl. by rewrite forgetStale_inFlight, pruneLocked_inFlight. }
      split; simpl.
      -- rewrite countIf_insert by (by apply (inv_next _ _ HI)). simpl. rewrite bool_decide_true by done. simpl. lia.
      -- unfold maxInFlightPerPair. lia.
      -- intros a q' ip'. destruct (decide (a = wNext w)) as [->|Ha].
         ++ rewrite lookup_insert_eq. by intros [= <- <-].
         ++ rewrite lookup_insert_ne by done. apply (inv_ip _ _ HI).
      -- intros a Ha. rewrite lookup_insert_ne by lia. apply (inv_next _ _ HI). lia.
    * destruct Hs as [Ht _]. destruct HI. split; simpl; try done;
        rewrite (entry_of _ _ _ Ht), forgetStale_inFlight, pruneLocked_inFlight; done.
  + pose proof (Reserve_other now order q ip (wTable w) p Hn Ho) as Hs. rewrite Hr in Hs. simpl in Hs.
    assert (inFlight (entry t p) = inFlight (entry (wTable w) p)) as Hf.
    { by rewrite (entry_same _ _ _ Hs), pruneLocked_inFlight. }
    destruct HI as [Hfl Hone Hip Hnext]. destruct r; split; simpl; rewrite ?Hf; try done.
    * rewrite countIf_insert by (by apply Hnext). simpl. rewrite bool_decide_false by done. simpl. lia.
    * intros a' q' ip'. destruct (decide (a' = wNext w)) as [->|Ha].
      -- rewrite lookup_insert_eq. by intros [= <- <-].
      -- rewrite lookup_insert_ne by done. apply Hip.
    * intros a' Ha. rewrite lookup_insert_ne by lia. apply Hnext. lia.
Qed.

Lemma throttle_exec_inv p w o : Inv p w -> pairOnly p o -> Inv p (exec w o).
Proof.
  intros HI Ho. destruct o as [now order q ip|a|now a|a|now order key free window]; [by apply reserve_inv|..]; simpl in *.
  - apply finish_inv; try done.
    + intros q ip t Hq Hi. unfold Succeeded. rewrite lookup_delete_ne by done. by apply releaseLocked_ne.
    + intros ip t Hi Hf. unfold entry, Succeeded. by rewrite lookup_delete_eq.
  - apply finish_inv; try done.
    + intros q ip t. apply Failed_ne.
    + intros ip t Hi Hf. destruct (Failed_pair now p ip t Hi ltac:(lia)) as (b & e & _ & He & _ & Hin & _).
      rewrite (entry_of _ _ _ He). lia.
  - apply finish_inv; try done.
    + intros q ip t. apply releaseLocked_ne.
    + intros ip t Hi Hf. unfold Released. rewrite (entry_of _ _ _ (releaseLocked_pair p ip t Hi ltac:(lia))). simpl. lia.
  - assert (inFlight (entry (fst (CountFailure now order key free window (wTable w))) p) = inFlight (entry (wTable w) p)) as Hf.
    { unfold CountFailure. destruct (_ <=? free); simpl; rewrite entry_insert, decide_False, pruneLocked_inFlight by done; done. }
    destruct HI. split; simpl; rewrite ?Hf; done.
Qed.

Lemma throttle_run_inv p ops w : Inv p w -> Forall (pairOnly p) ops -> Inv p (run ops w).
Proof.
  unfold run. revert w. induction ops as [|o ops IH]; intros w HI Hall; simpl; [done|].
  inversion Hall; subst. apply IH; [by apply throttle_exec_inv|done].
Qed.

Lemma throttle_start_inv p : Inv p start.
Proof. split; try done. Qed.

(** Parallel requests cannot slip past the failure counter: whatever is reserved,
    ended, counted or pruned, at most one attempt of a pair is under way. *)
Theorem throttle_one_attempt p ops a1 a2 ip1 ip2 :
  Forall (pairOnly p) ops ->
  wAttempts (run ops start) !! a1 = Some (AOpen p ip1) -> wAttempts (run ops start) !! a2 = Some (AOpen p ip2) ->
  a1 = a2.
Proof.
  intros Hall H1 H2. pose proof (throttle_run_inv p ops start (throttle_start_inv p) Hall) as HI.
  apply (countIf_unique (openOn p) (wAttempts (run ops start)) _ _ (AOpen p ip1) (AOpen p ip2)); try done;
    try (by apply bool_decide_eq_true).
  rewrite <- (inv_flight _ _ HI). apply (inv_one _ _ HI).
Qed.

(** ** Lockouts *)

Lemma lockoutFor_mono a b : 0 <= a <= b -> lockoutFor a <= lockoutFor b.
Proof.
  intros Hab. unfold lockoutFor. rewrite !Z.geb_leb. destruct (16 <=? a) eqn:Ha, (16 <=? b) eqn:Hb; bool_cases; try lia.
  rewrite !Z.shiftl_mul_pow2 by lia. assert (2 ^ a <= 2 ^ b) by (apply Z.pow_le_mono_r; lia).
  assert (0 < LockoutBase) by done. nia.
Qed.

Lemma lockoutFor_pos a : 0 <= a -> LockoutBase <= lockoutFor a <= MaxLockout.
Proof.
  intros Ha. split; [|unfold lockoutFor; destruct (_ >=? _); lia].
  transitivity (lockoutFor 0); [by vm_compute|]. apply lockoutFor_mono. lia.
Qed.

(** The pair is locked until [T] and no attempt of it is under way. *)
Definition lockedPair (p : string) (T : Z) (w : World) : Prop :=
  ∃ e, wTable w !! p = Some e /\ T <= lockedUntil e /\ inFlight e = 0.

(** The time of an operation, when it reads the clock. *)
Definition before (T : Z) (o : op) : Prop :=
  match o with
  | OReserve now _ _ _ | OFailed now _ | OCountFailure now _ _ _ _ => now < T
  | _ => True
  end.

Lemma prune_locked now order (t : Throttle) p e : t !! p = Some e -> now < lockedUntil e -> pruneLocked now order t !! p = Some e.
Proof.
  intros Hp Ht. destruct (pruneLocked_lookup now order t p) as [->|(_ & e' & He & Hi)]; [done|].
  rewrite Hp in He. injection He as <-. unfold idleUnlocked in Hi. rewrite Z.gtb_ltb in Hi. bool_cases. lia.
Qed.

Lemma forget_locked now e : now < lockedUntil e -> forgetStale now e = e.
Proof. intros Ht. unfold forgetStale. rewrite (proj2 (Z.ltb_lt _ _) Ht). simpl. by rewrite andb_false_r. Qed.

Lemma time_sub_pos t u : u < t -> 0 < time_sub t u.
Proof. unfold time_sub. lia. Qed.

Lemma Reserve_locked now order p ip (t : Throttle) e :
  ip <> p -> t !! p = Some e -> now < lockedUntil e ->
  ∃ wait, 0 < wait /\ snd (Reserve now order p ip t) = Err wait /\ fst (Reserve now order p ip t) !! p = Some e.
Proof.
  intros Hi Hp Ht. pose proof (Reserve_pair now order p ip t Hi) as Hs.
  rewrite (entry_of _ _ _ (prune_locked now order t p e Hp Ht)), forget_locked in Hs by done.
  pose proof (time_sub_pos _ _ Ht). destruct (Reserve now order p ip t) as [t' [u|wait]]; simpl in *; [lia|].
  destruct Hs as [Ht' Hw]. exists wait. split_and!; try done. rewrite Hw; lia.
Qed.

Lemma exec_locked p T w o :
  Inv p w -> lockedPair p T w -> pairOnly p o -> before T o -> lockedPair p T (exec w o).
Proof.
  intros HI (e & He & HT & Hz) Ho Hb.
  assert (∀ a q ip, wAttempts w !! a = Some (AOpen q ip) -> q <> p /\ ip <> p) as Hop.
  { intros a q ip Ha. split; [|by eapply (inv_ip _ _ HI)]. intros ->. pose proof (open_flight _ _ _ _ HI Ha) as Hf.
    rewrite (entry_of _ _ _ He) in Hf. lia. }
  assert (∀ a f, (∀ q ip t, q <> p -> ip <> p -> f q ip t !! p = t !! p) -> lockedPair p T (finish a f w)) as Hfin.
  { intros a f Hf. unfold finish. destruct (wAttempts w !! a) as [[q ip|]|] eqn:Ha; try (by exists e).
    destruct (Hop _ _ _ Ha) as [? ?]. exists e. simpl. by rewrite Hf. }
  destruct o as [now order q ip|a|now a|a|now order key free window]; simpl in *.
  - assert (fst (Reserve now order q ip (wTable w)) !! p = Some e) as Hr.
    { destruct (decide (q = p)) as [->|Hn].
      - by destruct (Reserve_locked now order p ip (wTable w) e Ho He ltac:(lia)) as (wait & _ & _ & ?).
      - rewrite Reserve_other by done. apply prune_locked; [done|lia]. }
    destruct (Reserve now order q ip (wTable w)) as [t [u|wait]]; simpl in Hr; by exists e.
  - apply Hfin. intros q ip t Hq Hi. unfold Succeeded. rewrite lookup_delete_ne by done. by apply releaseLocked_ne.
  - apply Hfin. intros q ip t. apply Failed_ne.
  - apply Hfin. intros q ip t. apply releaseLocked_ne.
  - exists e. simpl. split; [|done]. unfold CountFailure. destruct (_ <=? free); simpl;
      rewrite lookup_insert_ne by done; apply prune_locked; try done; lia.
Qed.

Lemma run_locked p T ops : ∀ w,
  Inv p w -> lockedPair p T w -> Forall (pairOnly p) ops -> Forall (before T) ops -> lockedPair p T (run ops w).
Proof.
  induction ops as [|o ops IH]; intros w HI HL Hp Hb; simpl; [done|]. inversion Hp; inversion Hb; subst.
  apply IH; try done; [by apply throttle_exec_inv|by apply exec_locked].
Qed.

(** [C35] A lockout cannot be evaded. When the failure of an attempt is the pair's
    [FreeAttempts]-th or a later one, the pair is refused until the lockout that belongs
    to the number of its failures has passed, whatever happens meanwhile: requests for
    other pairs and from other addresses, attempts that end, a full table that is
    pruned. The lockout lasts from 30 seconds to 15 minutes. *)
Theorem throttle_lockout p ops a t ip ops2 now order ip' :
  let w := exec (run ops start) (OFailed t a) in
  let f := failures (entry (wTable w) p) in
  let until := t + lockoutFor (f - FreeAttempts) in
  Forall (pairOnly p) (ops ++ ops2) -> ip' <> p ->
  wAttempts (run ops start) !! a = Some (AOpen p ip) -> FreeAttempts <= f ->
  Forall (before until) ops2 -> now < until ->
  (∃ wait, 0 < wait /\ snd (Reserve now order p ip' (wTable (run ops2 w))) = Err wait) /\
  LockoutBase <= until - t <= MaxLockout.
Proof.
  intros w f until [Hp1 Hp2]%Forall_app Hip Ha Hf Hb Hn.
  pose proof (throttle_run_inv p ops start (throttle_start_inv p) Hp1) as HI.
  assert (Inv p w) as HIw by (by apply throttle_exec_inv).
  pose proof (inv_ip _ _ HI _ _ _ Ha) as Hip0.
  pose proof (open_flight _ _ _ _ HI Ha) as Hfl.
  destruct (Failed_pair t p ip (wTable (run ops start)) Hip0 ltac:(lia)) as (b & e & Hbud & He & _ & Hin & _ & Hlk).
  assert (wTable w !! p = Some e) as Hw by (subst w; simpl; unfold finish; rewrite Ha; done).
  assert (f = failures e) as Hfe by (subst f; by rewrite (entry_of _ _ _ Hw)).
  unfold FreeAttempts, noisyPairBudget in *.
  assert (until <= lockedUntil e) as Hu.
  { rewrite Hlk, Z.geb_leb, (proj2 (Z.leb_le _ _)) by lia. subst until. rewrite Hfe.
    pose proof (lockoutFor_mono (failures e - 5) (failures e - b)). lia. }
  split; [|pose proof (lockoutFor_pos (f - 5)); lia].
  destruct (run_locked p until ops2 w) as (e2 & He2 & Hl2 & _); try done.
  { exists e. split_and!; try done. lia. }
  destruct (Reserve_locked now order p ip' _ e2 Hip He2 ltac:(lia)) as (wait & ? & ? & _). by exists wait.
Qed.

Definition guesses (n : nat) : list op :=
  concat ((λ i, [OReserve (Z.of_nat i * second) [] "login|1.2.3.4|eve" "ip|1.2.3.4"; OFailed (Z.of_nat i * second) i]) <$> seq 0 n).

Lemma throttle_one_attempt_witness :
  let ops := guesses 3 ++ [OReserve (4 * second) [] "login|1.2.3.4|eve" "ip|1.2.3.4";
                           OReserve (4 * second) [] "login|1.2.3.4|eve" "ip|1.2.3.4"] in
  wAttempts (run ops start) !! 3%nat = Some (AOpen "login|1.2.3.4|eve" "ip|1.2.3.4") /\ 3%nat = 3%nat.
Proof.
  split; [vm_compute; reflexivity|].
  apply (throttle_one_attempt "login|1.2.3.4|eve"
    (guesses 3 ++ [OReserve (4 * second) [] "login|1.2.3.4|eve" "ip|1.2.3.4";
                   OReserve (4 * second) [] "login|1.2.3.4|eve" "ip|1.2.3.4"]) 3 3 "ip|1.2.3.4" "ip|1.2.3.4");
    [|vm_compute; reflexivity..].
  repeat constructor; discriminate.
Defined.

Definition fiveGuesses : list op := guesses 4 ++ [OReserve (4 * second) [] "login|1.2.3.4|eve" "ip|1.2.3.4"].

Lemma throttle_lockout_witness :
  let w := exec (run fiveGuesses start) (OFailed (5 * second) 4) in
  let f := failures (entry (wTable w) "login|1.2.3.4|eve") in
  let until := 5 * second + lockoutFor (f - FreeAttempts) in
  until = 35 * second /\
  (∃ wait, 0 < wait /\ snd (Reserve (34 * second) [] "login|1.2.3.4|eve" "ip|1.2.3.4" (wTable (run [] w))) = Err wait) /\
  LockoutBase <= until - 5 * second <= MaxLockout.
Proof.
  intros w f until. split; [vm_compute; reflexivity|].
  apply (throttle_lockout "login|1.2.3.4|eve" fiveGuesses 4 (5 * second) "ip|1.2.3.4" [] (34 * second) [] "ip|1.2.3.4").
  - repeat constructor; discriminate.
  - discriminate.
  - vm_compute. reflexivity.
  - vm_compute. discriminate.
  - constructor.
  - vm_compute. reflexivity.
Defined.
