(* ===== verification/Access.v ===== *)
(** * Access of a caller (src/internal/auth/role.go, scope.go, connections.go, approval.go)

    Dashboard roles, scopes of API keys, the connections a caller may touch, and who may
    approve a destructive action. *)

From S2P Require Import Prelude Glob Selection.

Local Open Scope rescue_scope.

(** ** Scopes and roles *)

Inductive Scope : Type := ScopeRead | ScopeOperator | ScopeAdmin | ScopeOther (name : string).
Inductive Role : Type := RoleViewer | RoleOperator | RoleAdmin | RoleOther (name : string).
Inductive Method : Type := MethodSession | MethodAPIKey | MethodSystem | MethodOther.

#[global] Instance Scope_eq_dec : EqDecision Scope.
Proof. solve_decision. Defined.
#[global] Instance Role_eq_dec : EqDecision Role.
Proof. solve_decision. Defined.
#[global] Instance Method_eq_dec : EqDecision Method.
Proof. solve_decision. Defined.

Definition roleValid (r : Role) : bool := match r with RoleOther _ => false | _ => true end.

Definition roleScope (r : Role) : Scope :=
  match r with RoleOperator => ScopeOperator | RoleAdmin => ScopeAdmin | _ => ScopeRead end.

Inductive AuthErr : Type :=
| ErrInvalidRole | ErrInvalidScope | ErrInvalidConnections | ErrConnectionsLimited | ErrUnauthenticated
| ErrForbidden
| ErrApprovalNeedsSession | ErrSelfApproval | ErrApproverTooRecent | ErrTooFewAdmins.

Definition roleNamed (name : string) : Role :=
  if bool_decide (name = "viewer") then RoleViewer
  else if bool_decide (name = "operator") then RoleOperator
  else if bool_decide (name = "admin") then RoleAdmin else RoleOther name.

Definition scopeNamed (name : string) : Scope :=
  if bool_decide (name = "read") then ScopeRead
  else if bool_decide (name = "operator") then ScopeOperator
  else if bool_decide (name = "admin") then ScopeAdmin else ScopeOther name.

Definition ParseRole (name : string) : result AuthErr Role :=
  if roleValid (roleNamed name) then Ok (roleNamed name) else Err ErrInvalidRole.

Definition rank (s : Scope) : Z :=
  match s with ScopeRead => 1 | ScopeOperator => 2 | ScopeAdmin => 3 | ScopeOther _ => 0 end.

Definition scopeValid (s : Scope) : bool := rank s >? 0.

Definition Allows (s need : Scope) : bool := scopeValid s && scopeValid need && (rank s >=? rank need).

Definition ParseScope (name : string) : result AuthErr Scope :=
  if bool_decide (name = "") then Ok ScopeRead
  else if scopeValid (scopeNamed name) then Ok (scopeNamed name) else Err ErrInvalidScope.

Definition minScope (a b : Scope) : Scope := if rank a <=? rank b then a else b.

(** ** Connections: [None] is Go's nil set, every connection *)

Definition MaxConnectionIDs : nat := 256.
Definition maxConnectionIDLength : nat := 128.

Abbreviation ConnectionSet := (option (gset string)).

Record ConnectionAccess : Type := mkAccess { AllConnections : bool; ConnectionIDs : list string }.

Definition EveryConnection : ConnectionAccess := mkAccess true [].

Definition OnlyConnections (ids : list string) : ConnectionSet := Some (list_to_set ids).

Definition connectionSet (a : ConnectionAccess) : ConnectionSet :=
  if AllConnections a then None else OnlyConnections (ConnectionIDs a).

Definition Limited (s : ConnectionSet) : bool := match s with Some _ => true | None => false end.

Definition allowsConn (s : ConnectionSet) (id : string) : bool :=
  match s with None => true | Some m => negb (bool_decide (id = "")) && bool_decide (id ∈ m) end.

Definition stringLess (a b : string) : bool := cmpLess strCmp a b.

Definition IDs (s : ConnectionSet) : option (list string) :=
  match s with None => None | Some m => Some (stable_sort stringLess (elements m)) end.

Definition AccessOf (s : ConnectionSet) : ConnectionAccess :=
  match IDs s with None => EveryConnection | Some ids => mkAccess false ids end.

Definition Intersect (s o : ConnectionSet) : ConnectionSet :=
  match s, o with None, _ => o | _, None => s | Some a, Some b => Some (a ∩ b) end.

Definition Covers (s o : ConnectionSet) : bool :=
  match s, o with None, _ => true | _, None => false | Some a, Some b => bool_decide (b ⊆ a) end.

Definition badConnectionID (id : string) : bool :=
  bool_decide (id = "") || Nat.ltb maxConnectionIDLength (String.length id) || hasControl id.

(** [None] is the nil slice. *)
Definition NormalizeConnectionIDs (ids : list string) : result AuthErr (option (list string)) :=
  match ids with
  | [] => Ok None
  | _ =>
      if Nat.ltb MaxConnectionIDs (length ids) then Err ErrInvalidConnections
      else
        let out := TrimSpace <$> ids in
        if existsb badConnectionID out then Err ErrInvalidConnections
        else Ok (Some (compact (stable_sort stringLess out)))
  end.

Definition Normalized (a : ConnectionAccess) : result AuthErr ConnectionAccess :=
  ids <-! NormalizeConnectionIDs (ConnectionIDs a);
  if AllConnections a then
    if Nat.ltb 0 (length (default [] ids)) then Err ErrInvalidConnections else Ok EveryConnection
  else Ok (mkAccess false (default [] ids)).

(** ** Effective access *)

Record Access : Type := mkEffective { aScope : Scope; aConnections : ConnectionSet }.

Definition effectiveScope (method : Method) (role : Role) (keyScope : Scope) (hasCreator : bool) : Access :=
  match method with
  | MethodSession => mkEffective (roleScope role) None
  | MethodAPIKey =>
      let keyScope := if scopeValid keyScope then keyScope else ScopeRead in
      if hasCreator then mkEffective (minScope keyScope (roleScope role)) None else mkEffective keyScope None
  | MethodSystem => mkEffective ScopeAdmin None
  | MethodOther => mkEffective ScopeRead None
  end.

Definition effectiveConnections (method : Method) (role : Role) (hasCreator : bool) (user key : ConnectionSet) : ConnectionSet :=
  match method with
  | MethodSession => if bool_decide (role = RoleAdmin) then None else user
  | MethodAPIKey =>
      if negb hasCreator then None else if bool_decide (role = RoleAdmin) then key else Intersect key user
  | _ => None
  end.

Definition effectiveAccess (method : Method) (role : Role) (keyScope : Scope) (hasCreator : bool)
    (user key : ConnectionSet) : Access :=
  let a := effectiveScope method role keyScope hasCreator in
  let conns := effectiveConnections method role hasCreator user key in
  mkEffective (if Limited conns && bool_decide (aScope a = ScopeAdmin) then ScopeOperator else aScope a) conns.

(** ** Principals *)

Record User : Type := mkUser { uID : string; uRole : Role; uRoleChangedAt : Z }.

Record Principal : Type := mkPrincipal {
  pUser : option User;
  pMethod : Method;
  pScope : Scope;
  pRole : Role;
  pKeyScope : Scope;
  pConnections : ConnectionSet
}.

Inductive ScopeSource : Type := SourceNone | SourceRole | SourceKey | SourceKeyCappedByRole.

Definition scopeSource (p : option Principal) : ScopeSource :=
  match p with
  | None => SourceNone
  | Some p =>
      match pMethod p with
      | MethodSession => SourceRole
      | MethodAPIKey => if rank (pKeyScope p) >? rank (pScope p) then SourceKeyCappedByRole else SourceKey
      | _ => SourceNone
      end
  end.

Definition principalAllows (p : option Principal) (need : Scope) : bool :=
  match p with Some p => Allows (pScope p) need | None => false end.

Definition Require_ (p : option Principal) (need : Scope) : result AuthErr unit :=
  if principalAllows p need then Ok tt else Err ErrForbidden.

Definition AllowsConnection (p : option Principal) (id : string) : bool :=
  match p with Some p => allowsConn (pConnections p) id | None => false end.

Definition RequireKeyCreator (p : option Principal) : result AuthErr unit :=
  match p with
  | None => Err ErrUnauthenticated
  | Some q => if bool_decide (pMethod q = MethodSession) then Ok tt else Require_ p ScopeAdmin
  end.

Definition RequireAllConnections (p : option Principal) : result AuthErr unit :=
  match p with
  | None => Err ErrForbidden
  | Some q => if Limited (pConnections q) then Err ErrConnectionsLimited else Ok tt
  end.

(** ** Approvals *)

Definition MinApprovalAdmins : nat := 2.

Definition CheckApprover (p : option Principal) (requesterUserID : string) (requestedAt : Z) : result AuthErr unit :=
  match p with
  | Some q =>
      match pUser q with
      | Some u =>
          if negb (bool_decide (pMethod q = MethodSession)) then Err ErrApprovalNeedsSession
          else
            _ <-! Require_ p ScopeAdmin;
            if negb (bool_decide (requesterUserID = "")) && bool_decide (uID u = requesterUserID) then Err ErrSelfApproval
            else if negb (IsZero requestedAt) && (IsZero (uRoleChangedAt u) || negb (uRoleChangedAt u <? requestedAt))
            then Err ErrApproverTooRecent
            else Ok tt
      | None => Err ErrApprovalNeedsSession
      end
  | None => Err ErrApprovalNeedsSession
  end.

Definition CountAdmins (users : list User) : nat := length (filter (λ u, uRole u = RoleAdmin) users).

Definition CheckSecondApproverPossible (users : list User) : result AuthErr unit :=
  if Nat.ltb (CountAdmins users) MinApprovalAdmins then Err ErrTooFewAdmins else Ok tt.

(** ** Properties *)

Lemma Allows_rank s need : Allows s need = true <-> 0 < rank need <= rank s.
Proof. unfold Allows, scopeValid. rewrite !Z.gtb_ltb, Z.geb_leb, !andb_true_iff, !Z.ltb_lt, Z.leb_le. lia. Qed.

Lemma minScope_rank a b : rank (minScope a b) = Z.min (rank a) (rank b).
Proof. unfold minScope. destruct (_ <=? _) eqn:H; bool_cases; lia. Qed.

Lemma Intersect_allows s o id : allowsConn (Intersect s o) id = allowsConn s id && allowsConn o id.
Proof.
  destruct s as [a|], o as [b|]; simpl; rewrite ?andb_true_r; try done.
  destruct (bool_decide (id = "")); simpl; [done|]. rewrite <- bool_decide_and. apply bool_decide_ext. set_solver.
Qed.

(** The scope after the cap of a limited caller. *)
Lemma cap_rank conns s :
  rank (if Limited conns && bool_decide (s = ScopeAdmin) then ScopeOperator else s) =
  if Limited conns then Z.min (rank s) 2 else rank s.
Proof.
  destruct (Limited conns); simpl; [|done]. case_bool_decide as Hs; [by subst|].
  destruct s; simpl; done.
Qed.

(** An API key never exceeds its creator. Whatever role and connections the
    creator has now, every scope and every connection the key is granted is granted to
    a session of the creator, to the key itself (an unknown key scope counting as read),
    and a caller limited to some connections is never admin. *)
Theorem key_within_creator role keyScope user key need id :
  let k := effectiveAccess MethodAPIKey role keyScope true user key in
  let session := effectiveAccess MethodSession role ScopeRead true user None in
  (Allows (aScope k) need = true ->
   Allows (aScope session) need = true /\
   (Allows keyScope need = true \/ scopeValid keyScope = false /\ need = ScopeRead)) /\
  (allowsConn (aConnections k) id = true ->
   allowsConn (aConnections session) id = true /\ allowsConn key id = true) /\
  (Limited (aConnections k) = true -> Allows (aScope k) ScopeAdmin = false).
Proof.
  simpl. set (valid := if scopeValid keyScope then keyScope else ScopeRead).
  assert (∀ need, Allows valid need = true -> Allows keyScope need = true \/ scopeValid keyScope = false /\ need = ScopeRead) as Hv.
  { intros n Hn. subst valid. destruct (scopeValid keyScope); [by left|]. right. split; [done|].
    apply Allows_rank in Hn. destruct n; simpl in Hn; (done || lia). }
  assert (1 <= rank valid) as Hrv.
  { subst valid. unfold scopeValid. rewrite Z.gtb_ltb. destruct (0 <? rank keyScope) eqn:E; bool_cases; simpl; lia. }
  split_and!.
  - rewrite !Allows_rank, !cap_rank, minScope_rank. intros Hk. split.
    + assert (Limited (if bool_decide (role = RoleAdmin) then None else user) = true ->
              rank (roleScope role) <= 2 /\ Limited (if bool_decide (role = RoleAdmin) then key else Intersect key user) = true) as Hl.
      { case_bool_decide as Hr; [done|]. destruct user; [|done]. intros _. destruct role, key; simpl; (done || lia). }
      destruct (Limited (if bool_decide (role = RoleAdmin) then None else user)), (Limited (if bool_decide _ then key else _)); lia.
    + rewrite <- Allows_rank. apply Hv, Allows_rank. destruct (Limited _); lia.
  - case_bool_decide; [done|]. rewrite Intersect_allows. by intros [? ?]%andb_prop.
  - intros Hl. apply not_true_iff_false. rewrite Allows_rank, cap_rank, Hl. simpl. lia.
Qed.

(** The two-person rule. An approval is given only by a signed-in session of a user
    other than the requester that has the admin scope and whose admin role is older than
    the request; a role given at or after the request never approves it. *)
Theorem approver_sound p requester at_ :
  CheckApprover p requester at_ = Ok tt <->
  ∃ q u, p = Some q /\ pUser q = Some u /\ pMethod q = MethodSession /\ pScope q = ScopeAdmin /\
    (requester = "" \/ uID u <> requester) /\ (at_ = 0 \/ (uRoleChangedAt u <> 0 /\ uRoleChangedAt u < at_)).
Proof.
  unfold CheckApprover, Require_, principalAllows. split.
  - destruct p as [q|]; [|done]. destruct (pUser q) as [u|] eqn:Hu; [|done].
    case_bool_decide as Hm; simpl; [|done]. destruct (Allows (pScope q) ScopeAdmin) eqn:Ha; simpl; [|done].
    destruct (_ && _) eqn:Hs; [done|]. destruct (negb (IsZero at_) && _) eqn:Ht; [done|]. intros _.
    exists q, u. split_and!; try done.
    + apply Allows_rank in Ha. destruct (pScope q); simpl in Ha; (done || lia).
    + apply andb_false_iff in Hs as [Hs|Hs]; bool_cases; auto.
    + unfold IsZero in *. apply andb_false_iff in Ht as [Ht|Ht]; bool_cases; auto.
  - intros (q & u & -> & Hu & Hm & Hsc & Hr & Ht). rewrite Hu, Hm, Hsc, bool_decide_true by done. simpl.
    assert (negb (bool_decide (requester = "")) && bool_decide (uID u = requester) = false) as ->.
    { destruct Hr as [->|Hr]; [by rewrite bool_decide_true|]. rewrite (bool_decide_false (uID u = _)) by done. apply andb_false_r. }
    assert (negb (IsZero at_) && (IsZero (uRoleChangedAt u) || negb (uRoleChangedAt u <? at_)) = false) as ->; [|done].
    unfold IsZero. destruct Ht as [->|[Hz Hlt]]; [done|].
    rewrite (proj2 (Z.ltb_lt _ _) Hlt), (proj2 (Z.eqb_neq _ _) Hz). apply andb_false_r.
Qed.
