(* ===== verification/Calendar.v ===== *)
(** * Dates of the proleptic Gregorian calendar (Go's [time] package)

    The conversion between a day count and year, month and day that [Time.Format] and
    [time.Parse] perform, and decimal numbers of fixed width. Day 0 is 1 January of
    year 1, the day of Go's zero time. *)

From S2P Require Import Prelude.

Definition isLeap (y : Z) : bool := (y mod 4 =? 0) && (negb (y mod 100 =? 0) || (y mod 400 =? 0)).

Definition daysIn (y m : Z) : Z :=
  if m =? 2 then (if isLeap y then 29 else 28)
  else if (m =? 4) || (m =? 6) || (m =? 9) || (m =? 11) then 30 else 31.

Definition daysBeforeYear (y : Z) : Z := 365 * (y - 1) + (y - 1) / 4 - (y - 1) / 100 + (y - 1) / 400.

Definition months : list Z := seqZ 1 12.

(** The days of year [y] before month [m]. *)
Definition daysBeforeMonth (y m : Z) : Z :=
  foldr Z.add 0 (daysIn y <$> filter (λ k, k < m) months).

Definition dateDays (y m d : Z) : Z := daysBeforeYear y + daysBeforeMonth y m + (d - 1).

Definition yearOf (days : Z) : Z :=
  let y := days * 400 / 146097 + 1 in
  if days <? daysBeforeYear y then y - 1
  else if daysBeforeYear (y + 1) <=? days then y + 1 else y.

(** The month and day of the [rem]-th day (from 0) of year [y], among months [l]. *)
Fixpoint monthDay (y : Z) (l : list Z) (rem : Z) : Z * Z :=
  match l with
  | [] => (12, rem + 1)
  | m :: l => if rem <? daysIn y m then (m, rem + 1) else monthDay y l (rem - daysIn y m)
  end.

Definition civil (days : Z) : Z * Z * Z :=
  let y := yearOf days in
  let '(m, d) := monthDay y months (days - daysBeforeYear y) in (y, m, d).

(** ** Correctness *)

Lemma isLeap_spec y :
  isLeap y = true <-> y mod 4 = 0 /\ (y mod 100 <> 0 \/ y mod 400 = 0).
Proof. unfold isLeap. rewrite andb_true_iff, orb_true_iff, negb_true_iff, !Z.eqb_eq, Z.eqb_neq. tauto. Qed.

Lemma daysBeforeYear_succ y : daysBeforeYear (y + 1) = daysBeforeYear y + 365 + (if isLeap y then 1 else 0).
Proof.
  unfold daysBeforeYear. replace (y + 1 - 1) with y by lia.
  destruct (isLeap y) eqn:Hl.
  - apply isLeap_spec in Hl. Z.div_mod_to_equations. lia.
  - assert (~ (y mod 4 = 0 /\ (y mod 100 <> 0 \/ y mod 400 = 0))) as Hn by (rewrite <- isLeap_spec; congruence).
    clear Hl. Z.div_mod_to_equations. lia.
Qed.

Lemma yearOf_spec days : daysBeforeYear (yearOf days) <= days < daysBeforeYear (yearOf days + 1).
Proof.
  unfold yearOf. set (q := days * 400 / 146097).
  assert (146097 * q <= days * 400 < 146097 * q + 146097) as Hq by (subst q; Z.div_mod_to_equations; lia).
  clearbody q. destruct (_ <? _) eqn:H1; bool_cases; [|destruct (_ <=? _) eqn:H2; bool_cases].
  all: unfold daysBeforeYear in *; Z.div_mod_to_equations; lia.
Qed.

Definition sumDays (y : Z) (l : list Z) : Z := foldr Z.add 0 (daysIn y <$> l).

Lemma sumDays_cons y m l : sumDays y (m :: l) = daysIn y m + sumDays y l.
Proof. done. Qed.

Lemma monthDay_spec y l : ∀ rem m d,
  StronglySorted Z.lt l -> 0 <= rem < sumDays y l -> monthDay y l rem = (m, d) ->
  m ∈ l /\ 1 <= d <= daysIn y m /\ rem = sumDays y (filter (λ k, k < m) l) + (d - 1).
Proof.
  induction l as [|m0 l IH]; intros rem m d Hs Hr He; simpl in *; [unfold sumDays in Hr; simpl in Hr; lia|].
  apply StronglySorted_inv in Hs as [Hs Hall]. rewrite Forall_forall in Hall.
  destruct (rem <? daysIn y m0) eqn:Hlt; bool_cases.
  - injection He as <- <-. split_and!; [left|lia..|].
    assert (filter (λ k, k < m0) (m0 :: l) = []) as ->; [|unfold sumDays; simpl; lia].
    apply elem_of_nil_inv. intros k [Hlt' Hk]%list_elem_of_filter. apply elem_of_cons in Hk as [->|Hk]; [lia|].
    specialize (Hall _ Hk). lia.
  - rewrite sumDays_cons in Hr.
    assert (0 <= rem - daysIn y m0 < sumDays y l) as Hr2 by lia.
    destruct (IH _ m d Hs Hr2 He) as (Hm & Hd & Hrem). split; [by right|]. split; [done|].
    rewrite filter_cons_True by (by apply Hall). rewrite sumDays_cons. lia.
Qed.

Lemma year_length y : sumDays y months = 365 + (if isLeap y then 1 else 0).
Proof. unfold sumDays, daysIn. simpl. destruct (isLeap y); reflexivity. Qed.

Lemma months_sorted : StronglySorted Z.lt months.
Proof. unfold months. repeat constructor; lia. Qed.

Lemma civil_spec days y m d :
  civil days = (y, m, d) -> 1 <= m <= 12 /\ 1 <= d <= daysIn y m /\ dateDays y m d = days /\ y = yearOf days.
Proof.
  unfold civil. pose proof (yearOf_spec days) as Hy. rewrite daysBeforeYear_succ in Hy.
  destruct (monthDay _ _ _) as [m' d'] eqn:Hm. intros [= <- <- <-].
  assert (0 <= days - daysBeforeYear (yearOf days) < sumDays (yearOf days) months) as Hr by (rewrite year_length; lia).
  destruct (monthDay_spec _ _ _ _ _ months_sorted Hr Hm) as (Hin & Hd & Hrem).
  assert (Forall (λ k, 1 <= k <= 12) months) as Hall by (repeat constructor; lia). rewrite Forall_forall in Hall.
  split; [by apply Hall|]. split; [done|]. split; [|done].
  unfold dateDays. change (daysBeforeMonth (yearOf days) m') with (sumDays (yearOf days) (filter (λ k, k < m') months)). lia.
Qed.

Lemma daysIn_bound y m : 28 <= daysIn y m <= 31.
Proof. unfold daysIn. destruct (m =? 2); [destruct (isLeap y); lia|]. destruct (_ || _); lia. Qed.

(** ** Decimal numbers of fixed width *)

Definition digitChar (n : Z) : Ascii.ascii := Ascii.ascii_of_N (Z.to_N (48 + n)).

(** [%0wd] of a number below 10^w. *)
Fixpoint padded (w : nat) (n : Z) (rest : string) : string :=
  match w with
  | O => rest
  | S w => padded w (n / 10) (String (digitChar (n mod 10)) rest)
  end.

Definition digitValue (a : Ascii.ascii) : option Z :=
  if byteIn 48 57 a then Some (Z.of_N (Ascii.N_of_ascii a) - 48) else None.

(** The first [w] characters of [s], all digits, as a number, and the rest. *)
Fixpoint readDigits (w : nat) (acc : Z) (s : string) : option (Z * string) :=
  match w, s with
  | O, _ => Some (acc, s)
  | S w, String a s => match digitValue a with Some v => readDigits w (10 * acc + v) s | None => None end
  | S _, EmptyString => None
  end.

(** A claim about the ten digits is checked on each of them. *)
Lemma digit_ind (P : Z -> Prop) n : Forall P (seqZ 0 10) -> 0 <= n < 10 -> P n.
Proof. intros H Hn. rewrite Forall_forall in H. apply H, elem_of_seqZ. lia. Qed.

Lemma digitValue_char n : 0 <= n < 10 -> digitValue (digitChar n) = Some n.
Proof.
  by apply (digit_ind (λ n, digitValue (digitChar n) = Some n)); repeat constructor.
Qed.

Lemma readDigits_padded w : ∀ k n acc rest,
  readDigits (w + k) acc (padded w n rest) = readDigits k (acc * 10 ^ Z.of_nat w + n mod 10 ^ Z.of_nat w) rest.
Proof.
  induction w as [|w IH]; intros k n acc rest.
  - cbn [padded Nat.add]. f_equal. change (10 ^ Z.of_nat 0) with 1. rewrite Z.mod_1_r. lia.
  - cbn [padded]. replace (S w + k)%nat with (w + S k)%nat by lia. rewrite IH. cbn [readDigits].
    rewrite digitValue_char by (apply Z.mod_pos_bound; lia). f_equal.
    rewrite <- Nat.add_1_r, Nat2Z.inj_add, Z.pow_add_r by lia. change (10 ^ Z.of_nat 1) with 10.
    assert (0 < 10 ^ Z.of_nat w) by (apply Z.pow_pos_nonneg; lia).
    rewrite (Z.mul_comm (10 ^ Z.of_nat w) 10), Z.rem_mul_r by lia. lia.
Qed.

Lemma readDigits_pad w n rest : 0 <= n < 10 ^ Z.of_nat w -> readDigits w 0 (padded w n rest) = Some (n, rest).
Proof.
  intros Hn. rewrite <- (Nat.add_0_r w) at 1. rewrite readDigits_padded. simpl. by rewrite Z.mod_small by done.
Qed.

Lemma padded_length w : ∀ n rest, String.length (padded w n rest) = (w + String.length rest)%nat.
Proof. induction w as [|w IH]; intros n rest; [done|]. cbn [padded]. rewrite IH. cbn [String.length]. lia. Qed.

Lemma padded_inj w n n' rest rest' :
  0 <= n < 10 ^ Z.of_nat w -> 0 <= n' < 10 ^ Z.of_nat w -> padded w n rest = padded w n' rest' -> n = n' /\ rest = rest'.
Proof.
  intros Hn Hn' E. pose proof (readDigits_pad w n rest Hn) as H. rewrite E, readDigits_pad in H by done. by injection H.
Qed.
