(* ===== verification/Snapshots.v ===== *)
(** * Metadata snapshots of a cluster (src/internal/ha/snapshot.go, snapshotheader.go, override.go)

    The names of the snapshots an active instance writes, their authenticated headers,
    the selection a takeover restores from, the retention of snapshots, and the
    operator's override. Anyone with write access to the storage can list objects under
    any name: decisions rest on the headers, which only a holder of the secret key can
    write. Downloading and decrypting an object is an argument, [snapshotObject]. *)

From S2P Require Import Prelude Calendar Lease.

(** ** Names *)

Definition SnapshotsPrefix : string := "_mongorescue/metadata/ha/".
Definition SnapshotsKept : Z := 12.

Definition SnapshotPrefix (cluster : string) : string := SnapshotsPrefix +:+ cluster +:+ "/".

(** [t.UTC().Format(snapshotLayout)] without the dot, for the years 0 to 9999. *)
Definition stamp (t : Z) (rest : string) : string :=
  let '(y, m, d) := civil (t / day) in
  let ms := t mod day / millisecond in
  padded 4 y (padded 2 m (padded 2 d ("T" +:+
    padded 2 (ms / 3600000) (padded 2 (ms / 60000 mod 60) (padded 2 (ms / 1000 mod 60) (padded 3 (ms mod 1000) rest)))))).

Definition snapshotFile (t epoch : Z) : string :=
  "mongorescue-" +:+ stamp t ("Z-e" +:+ padded 20 epoch ".db.age").

Definition SnapshotKey (cluster : string) (t epoch : Z) : string := SnapshotPrefix cluster +:+ snapshotFile t epoch.

Definition isSlash (a : Ascii.ascii) : bool := byteIs 47 a.

Fixpoint hasSlash (s : string) : bool :=
  match s with EmptyString => false | String a s => isSlash a || hasSlash s end.

(** [key[strings.LastIndex(key, "/")+1:]] *)
Fixpoint baseName (s : string) : string :=
  match s with
  | EmptyString => EmptyString
  | String _ s' => if hasSlash s then baseName s' else s
  end.

Fixpoint stripPrefix (p s : string) : option string :=
  match p, s with
  | EmptyString, _ => Some s
  | String a p, String b s => if bool_decide (a = b) then stripPrefix p s else None
  | String _ _, EmptyString => None
  end.

(** The fields of [snapshotName], read by position as the regular expression has them. *)
Definition splitName (base : string) : option (Z * Z * Z * (Z * Z * Z * Z) * Z) :=
  s ← stripPrefix "mongorescue-" base;
  '(y, s) ← readDigits 4 0 s; '(m, s) ← readDigits 2 0 s; '(d, s) ← readDigits 2 0 s;
  s ← stripPrefix "T" s;
  '(hh, s) ← readDigits 2 0 s; '(mm, s) ← readDigits 2 0 s; '(ss, s) ← readDigits 2 0 s; '(ms, s) ← readDigits 3 0 s;
  s ← stripPrefix "Z-e" s;
  '(e, s) ← readDigits 20 0 s;
  if bool_decide (s = ".db.age") then Some (y, m, d, (hh, mm, ss, ms), e) else None.

(** [time.ParseInLocation] on the fields, and [strconv.ParseUint] on the epoch. *)
Definition parseSnapshotKey (key : string) : option (Z * Z) :=
  '(y, m, d, (hh, mm, ss, ms), e) ← splitName (baseName key);
  if (1 <=? m) && (m <=? 12) && (1 <=? d) && (d <=? daysIn y m) && (hh <? 24) && (mm <? 60) && (ss <? 60)
     && (e <? 2 ^ 64)
  then Some (dateDays y m d * day + hh * hour + mm * minute + ss * second + ms * millisecond, e)
  else None.

Record SnapshotInfo : Type := mkInfo {
  siKey : string;
  siCreatedAt : Z;
  siEpoch : Z;
  siSizeBytes : Z;
  siModTime : Z;
  siETag : string
}.

#[global] Instance SnapshotInfo_eq_dec : EqDecision SnapshotInfo.
Proof. solve_decision. Defined.

Definition infoMark (i : SnapshotInfo) : SnapshotMark := mkMark (siEpoch i) (siCreatedAt i).

(** An object of a listing: its key, size, modification time and ETag. *)
Record listed : Type := mkListed { loKey : string; loSize : Z; loModTime : Z; loETag : string }.

Definition infoOf (cluster : string) (o : listed) : option SnapshotInfo :=
  if negb (String.prefix (SnapshotPrefix cluster) (loKey o)) then None
  else
    '(at_, epoch) ← parseSnapshotKey (loKey o);
    Some (mkInfo (loKey o) at_ epoch (loSize o) (loModTime o) (loETag o)).

Definition newerName (a b : SnapshotInfo) : bool :=
  if negb (siEpoch a =? siEpoch b) then siEpoch a >? siEpoch b else siCreatedAt a >? siCreatedAt b.

(** [sort.Slice] may order two objects with the same epoch and time either way; the
    model keeps the order of the listing, which is one of them. *)
Definition ListSnapshots (cluster : string) (objs : list listed) : list SnapshotInfo :=
  stable_sort newerName (omap (infoOf cluster) objs).

(** ** Headers *)

Definition SnapshotFormat : Z := 1.

Record SnapshotHeader : Type := mkHeader {
  hFormat : Z;
  hCluster : string;
  hEpoch : Z;
  hInstanceID : string;
  hCreatedAt : Z
}.

Inductive SnapErr : Type :=
| ErrSnapshotRejected | ErrSnapshotLegacy | ErrSnapshotFormat | ErrSnapshotUnreadable | ErrSnapshotStorage.

#[global] Instance SnapErr_eq_dec : EqDecision SnapErr.
Proof. solve_decision. Defined.

(** What downloading and decrypting the start of an object gives, up to the JSON of the
    header: a storage error, a failed
    decryption, or a plaintext without a header, with a malformed or truncated one, or
    with a header. *)
Inductive snapshotObject : Type :=
| SObjStorageError
| SObjUndecryptable
| SObjLegacy
| SObjMalformed
| SObjHeader (h : SnapshotHeader).

Definition parseSnapshotHeader (o : snapshotObject) : result SnapErr SnapshotHeader :=
  match o with
  | SObjStorageError => Err ErrSnapshotStorage
  | SObjUndecryptable => Err ErrSnapshotUnreadable
  | SObjLegacy => Err ErrSnapshotLegacy
  | SObjMalformed => Err ErrSnapshotRejected
  | SObjHeader h =>
      if negb (hFormat h =? SnapshotFormat)
      then (if hFormat h >? SnapshotFormat then Err ErrSnapshotFormat else Err ErrSnapshotRejected)
      else Ok h
  end.

(** [SnapshotHeader.verify]; [true] for nil. *)
Definition verifyHeader (h : SnapshotHeader) (cluster key : string) : bool :=
  String.prefix (SnapshotPrefix cluster) key &&
  match parseSnapshotKey key with
  | None => false
  | Some (at_, epoch) =>
      bool_decide (hCluster h = cluster) && (hEpoch h =? epoch) && (hCreatedAt h =? at_)
  end.

Record SnapshotCheck : Type := mkCheck {
  ckInfo : SnapshotInfo;
  ckHeader : option SnapshotHeader;
  ckErr : option SnapErr;
  ckIndex : nat
}.

Definition ckVerified (c : SnapshotCheck) : bool :=
  bool_decide (ckErr c = None) && match ckHeader c with Some _ => true | None => false end.
Definition ckLegacy (c : SnapshotCheck) : bool := bool_decide (ckErr c = Some ErrSnapshotLegacy).
Definition ckRefused (c : SnapshotCheck) : bool :=
  bool_decide (ckErr c = Some ErrSnapshotRejected) || bool_decide (ckErr c = Some ErrSnapshotUnreadable).
Definition determinate (c : SnapshotCheck) : bool :=
  bool_decide (ckErr c = None) || ckLegacy c || ckRefused c || bool_decide (ckErr c = Some ErrSnapshotFormat).

(** The header is absent for a legacy snapshot; one that does not match its key is kept
    next to the error. *)
Definition openSnapshot (cluster key : string) (obj : snapshotObject) : option SnapshotHeader * option SnapErr :=
  match parseSnapshotHeader obj with
  | Err ErrSnapshotLegacy => (None, None)
  | Err e => (None, Some e)
  | Ok h => if verifyHeader h cluster key then (Some h, None) else (Some h, Some ErrSnapshotRejected)
  end.

Definition CheckSnapshot (cluster : string) (obj : snapshotObject) (info : SnapshotInfo) : SnapshotCheck :=
  let '(h, err) := openSnapshot cluster (siKey info) obj in
  mkCheck info h (match err, h with None, None => Some ErrSnapshotLegacy | _, _ => err end) 0.

Lemma CheckSnapshot_eq cluster obj info :
  CheckSnapshot cluster obj info =
  match parseSnapshotHeader obj with
  | Err e => mkCheck info None (Some e) 0
  | Ok h =>
      if verifyHeader h cluster (siKey info) then mkCheck info (Some h) None 0
      else mkCheck info (Some h) (Some ErrSnapshotRejected) 0
  end.
Proof.
  unfold CheckSnapshot, openSnapshot. destruct (parseSnapshotHeader obj) as [h|[]]; try done.
  by destruct (verifyHeader _ _ _).
Qed.

(** ** Selection *)

Record SnapshotSelection : Type := mkSel {
  selVerified : list SnapshotCheck;
  selLegacy : list SnapshotCheck;
  selRefused : list SnapshotCheck;
  selFailed : list SnapshotCheck;
  selListed : nat;
  selComplete : bool;
  selHeaderSeen : bool;
  selFailedAhead : bool
}.

Definition setIndex (i : nat) (c : SnapshotCheck) : SnapshotCheck := mkCheck (ckInfo c) (ckHeader c) (ckErr c) i.

Definition authenticOf (cluster : string) (c : SnapshotCheck) : bool :=
  match ckHeader c with Some h => bool_decide (hCluster h = cluster) | None => false end
  || bool_decide (ckErr c = Some ErrSnapshotFormat).

(** One turn of the loop, on the check [c] of the [i]-th snapshot. *)
Definition addCheck (cluster : string) (c : SnapshotCheck) (s : SnapshotSelection) : SnapshotSelection :=
  let seen := selHeaderSeen s || authenticOf cluster c in
  let complete := selComplete s && determinate c in
  if ckVerified c then
    mkSel (selVerified s ++ [c]) (selLegacy s) (selRefused s) (selFailed s) (selListed s) complete seen (selFailedAhead s)
  else if ckLegacy c then
    mkSel (selVerified s) (selLegacy s ++ [c]) (selRefused s) (selFailed s) (selListed s) complete seen (selFailedAhead s)
  else if ckRefused c then
    mkSel (selVerified s) (selLegacy s) (selRefused s ++ [c]) (selFailed s) (selListed s) complete seen (selFailedAhead s)
  else
    mkSel (selVerified s) (selLegacy s) (selRefused s) (selFailed s ++ [c]) (selListed s) complete seen
      (selFailedAhead s || Nat.eqb (length (selVerified s)) 0).

Fixpoint selectLoop (cluster : string) (check : SnapshotInfo -> SnapshotCheck) (want : Z) (i : nat)
    (list_ : list SnapshotInfo) (s : SnapshotSelection) : SnapshotSelection :=
  match list_ with
  | [] => s
  | info :: rest =>
      if (want >? 0) && (Z.of_nat (length (selVerified s)) >=? want) then
        mkSel (selVerified s) (selLegacy s) (selRefused s) (selFailed s) (selListed s) false (selHeaderSeen s) (selFailedAhead s)
      else selectLoop cluster check want (S i) rest (addCheck cluster (setIndex i (check info)) s)
  end.

Definition selectSnapshots (cluster : string) (list_ : list SnapshotInfo) (want : Z)
    (check : SnapshotInfo -> SnapshotCheck) : SnapshotSelection :=
  selectLoop cluster check want 0 list_ (mkSel [] [] [] [] (length list_) true false false).

Definition Candidates (s : SnapshotSelection) : list SnapshotCheck * bool :=
  if selFailedAhead s then ([], false)
  else if Nat.ltb 0 (length (selVerified s)) then (selVerified s, false)
  else if selComplete s && negb (selHeaderSeen s) && Nat.ltb 0 (length (selLegacy s)) then (selLegacy s, true)
  else ([], false).

Definition FailedAhead (s : SnapshotSelection) : option SnapshotCheck :=
  if negb (selFailedAhead s) then None else head (selFailed s).

Definition isTrue (f : SnapshotCheck -> bool) (c : SnapshotCheck) : Prop := f c = true.

#[global] Instance isTrue_dec f c : Decision (isTrue f c).
Proof. unfold isTrue. apply _. Defined.

Definition headerOf (cluster : string) (c : SnapshotCheck) : bool :=
  match ckHeader c with Some h => bool_decide (hCluster h = cluster) | None => false end.

Definition headerEpoch (c : SnapshotCheck) : Z := match ckHeader c with Some h => hEpoch h | None => 0 end.

Definition AuthenticEpoch (cluster : string) (s : SnapshotSelection) : Z * bool :=
  let e := foldl Z.max 0 (headerEpoch <$> selVerified s) in
  let e := foldl Z.max e (headerEpoch <$> filter (isTrue (headerOf cluster)) (selRefused s)) in
  let e := match Candidates s with (l, true) => foldl Z.max e ((λ c, siEpoch (ckInfo c)) <$> l) | _ => e end in
  (e, negb (selFailedAhead s) && (Nat.ltb 0 (length (selVerified s)) || selComplete s)).

(** ** Retention *)

Record Keeping : Type := mkKeeping { kpKept : gset string; kpInEpoch : Z; kpNewest : option SnapshotInfo }.

Definition keepOne (current keep : Z) (k : Keeping) (p : nat * SnapshotInfo) : Keeping :=
  let '(i, sn) := p in
  let kept := if Z.of_nat i <? keep then {[siKey sn]} ∪ kpKept k else kpKept k in
  let inEpoch := (siEpoch sn =? current) && (kpInEpoch k <? keep) in
  mkKeeping (if inEpoch then {[siKey sn]} ∪ kept else kept)
    (if inEpoch then kpInEpoch k + 1 else kpInEpoch k)
    (match kpNewest k with
     | None => Some sn
     | Some n => if bool_decide (siKey n = "") || (siCreatedAt sn >? siCreatedAt n) then Some sn else Some n
     end).

Definition keptSnapshots (list_ : list SnapshotInfo) (current keep : Z) : gset string :=
  let k := foldl (keepOne current keep) (mkKeeping ∅ 0 None) (imap pair list_) in
  match kpNewest k with
  | Some n => if bool_decide (siKey n = "") then kpKept k else {[siKey n]} ∪ kpKept k
  | None => kpKept k
  end.

(** The snapshots the retention deletes, given a complete selection. *)
Definition pruneDrops (s : SnapshotSelection) (current keep : Z) : list SnapshotCheck :=
  let lastFailed := foldl Z.max (-1) ((λ c, Z.of_nat (ckIndex c)) <$> selFailed s) in
  let kept := keptSnapshots (ckInfo <$> selVerified s) current (Z.max keep 1) in
  let drop := filter (λ c, siKey (ckInfo c) ∉ kept) (selVerified s)
              ++ (if Nat.ltb 0 (length (selVerified s)) then selLegacy s else []) in
  filter (λ c, lastFailed <= Z.of_nat (ckIndex c)) drop.

(** ** The checker's memory *)

Definition sameObject (a b : SnapshotInfo) : bool :=
  bool_decide (siKey a = siKey b) && (siSizeBytes a =? siSizeBytes b) && (siModTime a =? siModTime b)
  && bool_decide (siETag a = siETag b).

(** Entries of objects that are no longer listed, or changed, are forgotten. *)
Definition evict (list_ : list SnapshotInfo) (cache : gmap string SnapshotCheck) : gmap string SnapshotCheck :=
  filter (λ p : string * SnapshotCheck,
            match list_find (λ i, siKey i = p.1) (reverse list_) with
            | Some (_, info) => sameObject (ckInfo p.2) info
            | None => false
            end = true) cache.

(** The check of one snapshot through the cache. *)
Definition cachedCheck (cluster : string) (read : SnapshotInfo -> snapshotObject) (info : SnapshotInfo)
    (cache : gmap string SnapshotCheck) : SnapshotCheck * gmap string SnapshotCheck :=
  match cache !! siKey info with
  | Some old => (old, cache)
  | None =>
      let c := CheckSnapshot cluster (read info) info in
      if determinate c then (c, <[siKey info := c]> cache) else (c, cache)
  end.

Fixpoint selectCached (cluster : string) (read : SnapshotInfo -> snapshotObject) (want : Z) (i : nat)
    (list_ : list SnapshotInfo) (s : SnapshotSelection) (cache : gmap string SnapshotCheck)
  : SnapshotSelection * gmap string SnapshotCheck :=
  match list_ with
  | [] => (s, cache)
  | info :: rest =>
      if (want >? 0) && (Z.of_nat (length (selVerified s)) >=? want) then
        (mkSel (selVerified s) (selLegacy s) (selRefused s) (selFailed s) (selListed s) false (selHeaderSeen s) (selFailedAhead s), cache)
      else
        let '(c, cache) := cachedCheck cluster read info cache in
        selectCached cluster read want (S i) rest (addCheck cluster (setIndex i c) s) cache
  end.

(** [SnapshotChecker.Select] on a listing. *)
Definition Select (cluster : string) (read : SnapshotInfo -> snapshotObject) (list_ : list SnapshotInfo) (want : Z)
    (cache : gmap string SnapshotCheck) : SnapshotSelection * gmap string SnapshotCheck :=
  selectCached cluster read want 0 list_ (mkSel [] [] [] [] (length list_) true false false) (evict list_ cache).

(** [SnapshotChecker.refused] after a [Select]. *)
Definition refusedCount (cache : gmap string SnapshotCheck) : nat :=
  size (filter (λ p : string * SnapshotCheck, ckRefused p.2 = true) cache).

(** ** The operator's override *)

Record Override : Type := mkOverride { ovCluster : string; ovSnapshot : string; ovKeepLocal : bool }.

Definition validateOverride (o : Override) : bool :=
  ValidateCluster (ovCluster o) &&
  if ovKeepLocal o then bool_decide (ovSnapshot o = "")
  else negb (bool_decide (ovSnapshot o = "")) &&
       match parseSnapshotKey (ovSnapshot o) with Some _ => true | None => false end &&
       String.prefix (SnapshotPrefix (ovCluster o)) (ovSnapshot o).

(** ** What a selection holds *)

Definition ckFailed (c : SnapshotCheck) : bool := negb (ckVerified c) && negb (ckLegacy c) && negb (ckRefused c).

(** Whether a check failed before the first verified one. *)
Fixpoint failedFirst (l : list SnapshotCheck) : bool :=
  match l with
  | [] => false
  | c :: l => if ckVerified c then false else ckFailed c || failedFirst l
  end.

Definition checksFrom (check : SnapshotInfo -> SnapshotCheck) (i : nat) (l : list SnapshotInfo) : list SnapshotCheck :=
  imap (λ k info, setIndex (i + k) (check info)) l.

(** The selection of the checks [l], after [s]. *)
Definition extend (cluster : string) (s : SnapshotSelection) (l : list SnapshotCheck) : SnapshotSelection :=
  mkSel (selVerified s ++ filter (isTrue ckVerified) l)
    (selLegacy s ++ filter (isTrue ckLegacy) l)
    (selRefused s ++ filter (isTrue ckRefused) l)
    (selFailed s ++ filter (isTrue ckFailed) l) (selListed s)
    (selComplete s && forallb determinate l) (selHeaderSeen s || existsb (authenticOf cluster) l)
    (selFailedAhead s || (Nat.eqb (length (selVerified s)) 0 && failedFirst l)).

Lemma extend_nil cluster s : extend cluster s [] = s.
Proof.
  destruct s. unfold extend. simpl. by rewrite !app_nil_r, andb_true_r, orb_false_r, andb_false_r, orb_false_r.
Qed.

Lemma verified_not_legacy c : ckVerified c = true -> ckLegacy c = false /\ ckRefused c = false.
Proof.
  unfold ckVerified, ckLegacy, ckRefused. intros Hv. bool_cases. by rewrite !bool_decide_false by congruence.
Qed.

Lemma legacy_not_refused c : ckLegacy c = true -> ckRefused c = false.
Proof. unfold ckLegacy, ckRefused. intros Hv. bool_cases. by rewrite !bool_decide_false by congruence. Qed.

Lemma filter_isTrue_cons p c l :
  filter (isTrue p) (c :: l) = (if p c then [c] else []) ++ filter (isTrue p) l.
Proof.
  rewrite filter_cons. unfold isTrue at 1 3. destruct (decide (p c = true)) as [Hp|Hp].
  - by rewrite Hp.
  - by apply not_true_iff_false in Hp as ->.
Qed.

Lemma extend_cons cluster s c l : extend cluster (addCheck cluster c s) l = extend cluster s (c :: l).
Proof.
  unfold extend. rewrite !filter_isTrue_cons. unfold addCheck. simpl.
  assert (ckFailed c = negb (ckVerified c) && negb (ckLegacy c) && negb (ckRefused c)) as Hf by done.
  destruct (ckVerified c) eqn:Hv; simpl in *.
  - destruct (verified_not_legacy _ Hv) as [-> ->]. rewrite Hf. simpl.
    by rewrite <- app_assoc, length_app, andb_assoc, orb_assoc, Nat.add_1_r, andb_false_r.
  - destruct (ckLegacy c) eqn:Hl; simpl in *.
    + rewrite (legacy_not_refused _ Hl), Hf. simpl. by rewrite <- app_assoc, andb_assoc, orb_assoc.
    + destruct (ckRefused c) eqn:Hr; simpl in *; rewrite Hf; simpl; rewrite <- app_assoc, andb_assoc, orb_assoc; [done|].
      f_equal. destruct (selFailedAhead s), (Nat.eqb _ 0); done.
Qed.

Lemma checksFrom_cons check i info l :
  checksFrom check i (info :: l) = setIndex i (check info) :: checksFrom check (S i) l.
Proof.
  unfold checksFrom. simpl. rewrite Nat.add_0_r. f_equal. apply imap_ext. intros k x _. simpl. f_equal. lia.
Qed.

Lemma checksFrom_nil check i : checksFrom check i [] = [].
Proof. done. Qed.

(** The loop takes a prefix of the listing; it stops early only with as many verified
    snapshots as wanted. *)
Lemma selectLoop_spec cluster check want l : ∀ i s,
  ∃ pre post, l = pre ++ post /\
    let e := extend cluster s (checksFrom check i pre) in
    let r := selectLoop cluster check want i l s in
    (post = [] /\ r = e \/
     post <> [] /\ 0 < want <= Z.of_nat (length (selVerified e)) /\
     selVerified r = selVerified e /\ selFailedAhead r = selFailedAhead e /\ selComplete r = false).
Proof.
  induction l as [|info l IH]; intros i s; cbn [selectLoop].
  - exists [], []. split; [done|]. rewrite checksFrom_nil, extend_nil. by left.
  - destruct (_ && _) eqn:Hw.
    + exists [], (info :: l). split; [done|]. rewrite checksFrom_nil, extend_nil. right. cbv zeta.
      rewrite Z.gtb_ltb, Z.geb_leb in Hw. bool_cases. split_and!; (done || lia).
    + destruct (IH (S i) (addCheck cluster (setIndex i (check info)) s)) as (pre & post & -> & Hc).
      exists (info :: pre), post. split; [done|]. rewrite checksFrom_cons, <- extend_cons. done.
Qed.

Lemma selectSnapshots_all cluster l check :
  selectSnapshots cluster l 0 check = extend cluster (mkSel [] [] [] [] (length l) true false false) (checksFrom check 0 l).
Proof.
  unfold selectSnapshots. destruct (selectLoop_spec cluster check 0 l 0 (mkSel [] [] [] [] (length l) true false false))
    as (pre & post & -> & [[-> ->]|(_ & Hw & _)]); [by rewrite app_nil_r|lia].
Qed.

(** The first verified check: nothing before it is verified or failed to be checked. *)
Lemma first_verified l c cs :
  failedFirst l = false -> filter (isTrue ckVerified) l = c :: cs ->
  ∃ l1 l2, l = l1 ++ c :: l2 /\ ckVerified c = true /\
    Forall (λ c', ckVerified c' = false /\ (ckLegacy c' = true \/ ckRefused c' = true)) l1.
Proof.
  induction l as [|a l IH]; simpl; intros Hf Hv; [done|]. rewrite filter_isTrue_cons in Hv.
  destruct (ckVerified a) eqn:Ha; simpl in Hv.
  - injection Hv as <- _. exists [], l. split_and!; try done.
  - bool_cases. destruct (IH ltac:(done) Hv) as (l1 & l2 & -> & Hc & Hall). exists (a :: l1), l2. split_and!; try done.
    constructor; [|done]. split; [done|]. unfold ckFailed in *. rewrite Ha in *. simpl in *.
    destruct (ckLegacy a), (ckRefused a); simpl in *; auto; discriminate.
Qed.

Lemma CheckSnapshot_info cluster obj info : ckInfo (CheckSnapshot cluster obj info) = info.
Proof. rewrite CheckSnapshot_eq. destruct (parseSnapshotHeader obj); [|done]. by destruct (verifyHeader _ _ _). Qed.

(** A verified snapshot has a header of the cluster, with the mark its name says. *)
Lemma CheckSnapshot_verified cluster obj info :
  ckVerified (CheckSnapshot cluster obj info) = true ->
  ∃ h, obj = SObjHeader h /\ ckHeader (CheckSnapshot cluster obj info) = Some h /\ hFormat h = SnapshotFormat /\
    hCluster h = cluster /\ parseSnapshotKey (siKey info) = Some (hCreatedAt h, hEpoch h).
Proof.
  rewrite CheckSnapshot_eq. destruct (parseSnapshotHeader obj) as [h|e] eqn:Hp; [|done].
  destruct (verifyHeader h cluster (siKey info)) eqn:Hver; [|done]. intros _. exists h.
  destruct obj as [| | | |h']; simpl in Hp; try done.
  destruct (negb (hFormat h' =? SnapshotFormat)) eqn:Hf; [by destruct (_ >? _)|]. injection Hp as ->.
  unfold verifyHeader in Hver. bool_cases. destruct (parseSnapshotKey (siKey info)) as [[at_ e]|]; [|done].
  bool_cases. subst. done.
Qed.

Lemma elem_of_ListSnapshots cluster objs info :
  info ∈ ListSnapshots cluster objs ->
  parseSnapshotKey (siKey info) = Some (siCreatedAt info, siEpoch info) /\ ∃ o, o ∈ objs /\ siKey info = loKey o.
Proof.
  unfold ListSnapshots. rewrite elem_of_stable_sort, list_elem_of_omap. intros (o & Ho & Hi). unfold infoOf in Hi.
  destruct (negb _); [done|]. destruct (parseSnapshotKey (loKey o)) as [[at_ e]|] eqn:Hp; simpl in Hi; [|done].
  injection Hi as <-. split; [done|]. by exists o.
Qed.

Lemma newerName_mark a b : newerName a b = Before (infoMark b) (infoMark a).
Proof.
  unfold newerName, Before. simpl. rewrite (Z.eqb_sym (siEpoch b)). destruct (siEpoch a =? siEpoch b); simpl; by rewrite Z.gtb_ltb.
Qed.

(** A listing is in the order of the marks of its names, newest first. *)
Lemma ListSnapshots_sorted cluster objs :
  StronglySorted (λ a b, notBefore (infoMark a) (infoMark b)) (ListSnapshots cluster objs).
Proof.
  assert (∀ a b, not_after newerName a b <-> notBefore (infoMark a) (infoMark b)) as Hn.
  { intros a b. unfold not_after, notBefore. by rewrite newerName_mark. }
  unfold ListSnapshots. eapply StronglySorted_weaken; [|apply (stable_sort_StronglySorted newerName)].
  - intros a b. apply Hn.
  - intros a b c. rewrite !Hn. apply notBefore_trans.
  - intros a b. rewrite !newerName_mark. apply Before_notBefore.
Qed.

(** What an instance that reads the objects with [read] restores on a takeover. *)
Definition selection (cluster : string) (read : SnapshotInfo -> snapshotObject) (l : list SnapshotInfo) (want : Z)
  : SnapshotSelection := selectSnapshots cluster l want (λ info, CheckSnapshot cluster (read info) info).

Lemma Candidates_verified s c cs :
  Candidates s = (c :: cs, false) -> selFailedAhead s = false /\ selVerified s = c :: cs.
Proof.
  unfold Candidates. destruct (selFailedAhead s); [done|]. destruct (selVerified s) as [|v vs]; simpl.
  - by destruct (_ && _).
  - by intros [= <- <-].
Qed.

Lemma checksFrom_split check l : ∀ i l1 c l2,
  checksFrom check i l = l1 ++ c :: l2 ->
  ∃ a info b, l = a ++ info :: b /\ l1 = checksFrom check i a /\ c = setIndex (i + length a) (check info) /\
    l2 = checksFrom check (S (i + length a)) b.
Proof.
  induction l as [|x l IH]; intros i l1 c l2; [by destruct l1|]. rewrite checksFrom_cons.
  destruct l1 as [|y l1]; simpl; intros [= Hy Hl].
  - exists [], x, l. simpl. rewrite Nat.add_0_r. done.
  - destruct (IH (S i) l1 c l2 Hl) as (a & info & b & -> & -> & -> & ->). exists (x :: a), info, b. simpl.
    rewrite checksFrom_cons, Nat.add_succ_r. by rewrite Hy.
Qed.

Lemma elem_of_checksFrom check i l info :
  info ∈ l -> ∃ k, setIndex k (check info) ∈ checksFrom check i l.
Proof.
  revert i. induction l as [|x l IH]; intros i; [set_solver|]. rewrite checksFrom_cons, elem_of_cons.
  intros [->|Hin]; [eexists; by left|]. destruct (IH (S i) Hin) as [k Hk]. exists k. by right.
Qed.

(** A takeover restores the newest authentic snapshot. When snapshots with headers
    are offered, the first has a header of the cluster whose epoch and time are those
    of its name; no other verified snapshot of the listing is newer; and every object
    listed under a newer name was read and refused, or has no header: none that could
    not be checked stands before it. So planted, renamed or copied objects neither
    replace it nor hide a newer one. *)
Theorem candidates_newest cluster objs read want c cs :
  let l := ListSnapshots cluster objs in
  let check info := CheckSnapshot cluster (read info) info in
  Candidates (selection cluster read l want) = (c :: cs, false) ->
  ckInfo c ∈ l /\
  (∃ h, read (ckInfo c) = SObjHeader h /\ ckHeader c = Some h /\ hCluster h = cluster /\
        infoMark (ckInfo c) = mkMark (hEpoch h) (hCreatedAt h)) /\
  (∀ info, info ∈ l -> ckVerified (check info) = true -> notBefore (infoMark (ckInfo c)) (infoMark info)) /\
  (∀ info, info ∈ l -> Before (infoMark (ckInfo c)) (infoMark info) = true ->
     ckLegacy (check info) = true \/ ckRefused (check info) = true).
Proof.
  intros l check [Hfa Hv]%Candidates_verified. unfold selection, selectSnapshots in *.
  destruct (selectLoop_spec cluster check want l 0 (mkSel [] [] [] [] (length l) true false false)) as (pre & post & Hl & Hc).
  set (r := selectLoop cluster _ want 0 l _) in *. fold check in Hc.
  assert (failedFirst (checksFrom check 0 pre) = false /\ filter (isTrue ckVerified) (checksFrom check 0 pre) = c :: cs) as [Hff Hfv].
  { destruct Hc as [[_ Hr]|(_ & _ & Hr1 & Hr2 & _)].
    - fold r in Hr. rewrite Hr in Hfa, Hv. done.
    - fold r in Hr1, Hr2. rewrite Hr2 in Hfa. rewrite Hr1 in Hv. done. }
  destruct (first_verified _ _ _ Hff Hfv) as (l1 & l2 & Hsplit & Hcv & Hall).
  destruct (checksFrom_split _ _ _ _ _ _ Hsplit) as (a & info & b & Hpre & Hl1 & Hce & _). simpl in Hce.
  assert (l = a ++ info :: (b ++ post)) as Hl' by (rewrite Hl, Hpre, <- app_assoc; done).
  assert (ckInfo c = info) as Hci by (rewrite Hce; simpl; apply CheckSnapshot_info).
  assert (ckVerified (check info) = true) as Hvi by (by rewrite Hce in Hcv).
  assert (∀ x, x ∈ a -> ckVerified (check x) = false /\ (ckLegacy (check x) = true \/ ckRefused (check x) = true)) as Hbefore.
  { intros x Hx. rewrite Forall_forall in Hall. destruct (elem_of_checksFrom check 0 a x Hx) as [k Hk].
    specialize (Hall (setIndex k (check x))). rewrite Hl1 in Hall. by apply Hall. }
  pose proof (ListSnapshots_sorted cluster objs) as Hs. fold l in Hs. rewrite Hl' in Hs.
  apply StronglySorted_app in Hs as (_ & _ & Hs). apply StronglySorted_inv in Hs as [_ Hs]. rewrite Forall_forall in Hs.
  assert (∀ x, x ∈ l -> x ∈ a \/ notBefore (infoMark info) (infoMark x)) as Hpos.
  { intros x Hx. rewrite Hl', elem_of_app, elem_of_cons in Hx. destruct Hx as [Hx|[->|Hx]]; auto using notBefore_refl. }
  rewrite Hci. split_and!.
  - rewrite Hl'. set_solver.
  - destruct (CheckSnapshot_verified _ _ _ Hvi) as (h & Hr & Hh & _ & Hcl & Hp). exists h. split_and!; try done.
    + by rewrite Hce.
    + destruct (elem_of_ListSnapshots cluster objs info) as [Hp' _]; [fold l; rewrite Hl'; set_solver|].
      rewrite Hp in Hp'. injection Hp' as E1 E2. unfold infoMark. by rewrite E1, E2.
  - intros x Hx Hxv. destruct (Hpos _ Hx) as [Ha|?]; [|done]. destruct (Hbefore _ Ha). congruence.
  - intros x Hx Hn. destruct (Hpos _ Hx) as [Ha|Hnb]; [by apply Hbefore|]. unfold notBefore in Hnb. congruence.
Qed.

(** ** Names carry their time and epoch *)

Lemma digitChar_slash n : 0 <= n < 10 -> isSlash (digitChar n) = false.
Proof.
  by apply (digit_ind (λ n, isSlash (digitChar n) = false)); repeat constructor.
Qed.

Lemma padded_slash w : ∀ n rest, hasSlash (padded w n rest) = hasSlash rest.
Proof.
  induction w as [|w IH]; intros n rest; [done|]. cbn [padded]. rewrite IH. cbn [hasSlash].
  by rewrite digitChar_slash by (apply Z.mod_pos_bound; lia).
Qed.

Lemma hasSlash_app p s : hasSlash (p +:+ s) = hasSlash p || hasSlash s.
Proof.
  induction p as [|a p IH]; [done|]. change (String a p +:+ s) with (String a (p +:+ s)). cbn [hasSlash].
  by rewrite IH, orb_assoc.
Qed.

Lemma snapshotFile_slash t epoch : hasSlash (snapshotFile t epoch) = false.
Proof.
  unfold snapshotFile, stamp. destruct (civil (t / day)) as [[y m] d].
  rewrite hasSlash_app, !padded_slash, hasSlash_app, !padded_slash, hasSlash_app, padded_slash. reflexivity.
Qed.

Lemma baseName_noslash s : hasSlash s = false -> baseName s = s.
Proof. destruct s as [|a s]; [done|]. cbn [baseName]. by intros ->. Qed.

Lemma baseName_app p s : hasSlash s = false -> baseName (p +:+ "/" +:+ s) = s.
Proof.
  intros Hs. induction p as [|a p IH].
  - change (baseName (String (Ascii.ascii_of_nat 47) s) = s). cbn [baseName hasSlash]. by apply baseName_noslash.
  - change (baseName (String a (p +:+ "/" +:+ s)) = s). cbn [baseName].
    assert (hasSlash (String a (p +:+ "/" +:+ s)) = true) as ->; [|done].
    change (String a (p +:+ "/" +:+ s)) with (String a p +:+ "/" +:+ s).
    rewrite !hasSlash_app. by rewrite orb_true_r.
Qed.

Lemma stripPrefix_app p s : stripPrefix p (p +:+ s) = Some s.
Proof.
  induction p as [|a p IH]; [done|].
  change ((if bool_decide (a = a) then stripPrefix p (p +:+ s) else None) = Some s). by rewrite bool_decide_true.
Qed.

(** The name of a snapshot carries its time, to the millisecond, and its epoch:
    reading back the key an instance writes gives both, for times of the years 1 to
    9999 and every 64-bit epoch. *)
Theorem parse_SnapshotKey cluster t epoch :
  0 <= t -> yearOf (t / day) <= 9999 -> 0 <= epoch < 2 ^ 64 ->
  parseSnapshotKey (SnapshotKey cluster t epoch) = Some (t - t mod millisecond, epoch).
Proof.
  intros Ht Hy He. unfold SnapshotKey, SnapshotPrefix, parseSnapshotKey. rewrite !str_app_assoc.
  rewrite <- (str_app_assoc SnapshotsPrefix cluster), baseName_app by apply snapshotFile_slash.
  unfold snapshotFile, stamp. destruct (civil (t / day)) as [[y m] d] eqn:Hc.
  destruct (civil_spec _ _ _ _ Hc) as (Hm & Hd & Hdate & ->).
  assert (1 <= yearOf (t / day)) as Hy1.
  { pose proof (yearOf_spec (t / day)) as Hs. assert (0 <= t / day) by (apply Z.div_pos; [done|by vm_compute]).
    unfold daysBeforeYear in Hs. Z.div_mod_to_equations. lia. }
  set (ms := t mod day / millisecond).
  assert (0 <= ms < 86400000 /\ t - t mod millisecond = t / day * day + ms * millisecond) as [Hms Hval].
  { subst ms. unfold day, hour, minute, second, millisecond, nanosecond. Z.div_mod_to_equations. lia. }
  pose proof (daysIn_bound (yearOf (t / day)) m) as H31.
  unfold splitName. rewrite stripPrefix_app. cbn [mbind option_bind].
  rewrite readDigits_pad by lia. cbn [mbind option_bind]. rewrite readDigits_pad by lia. cbn [mbind option_bind].
  rewrite readDigits_pad by lia. cbn [mbind option_bind]. rewrite stripPrefix_app. cbn [mbind option_bind].
  rewrite readDigits_pad by (Z.div_mod_to_equations; lia). cbn [mbind option_bind].
  rewrite readDigits_pad by (Z.div_mod_to_equations; lia). cbn [mbind option_bind].
  rewrite readDigits_pad by (Z.div_mod_to_equations; lia). cbn [mbind option_bind].
  rewrite readDigits_pad by (Z.div_mod_to_equations; lia). cbn [mbind option_bind]. rewrite stripPrefix_app. cbn [mbind option_bind].
  rewrite readDigits_pad by lia. cbn [mbind option_bind]. rewrite bool_decide_true by done. cbn [mbind option_bind].
  assert ((1 <=? m) && (m <=? 12) && (1 <=? d) && (d <=? daysIn (yearOf (t / day)) m) && (ms / 3600000 <? 24)
     && (ms / 60000 mod 60 <? 60) && (ms / 1000 mod 60 <? 60) && (epoch <? 2 ^ 64) = true) as ->.
  { rewrite !andb_true_iff, !Z.leb_le, !Z.ltb_lt. Z.div_mod_to_equations. lia. }
  assert (ms = 3600000 * (ms / 3600000) + 60000 * (ms / 60000 mod 60) + 1000 * (ms / 1000 mod 60) + ms mod 1000) as Hparts
    by (Z.div_mod_to_equations; lia).
  f_equal. f_equal. rewrite Hdate, Hval. revert Hparts. clear. clearbody ms.
  generalize (ms / 3600000) (ms / 60000 mod 60) (ms / 1000 mod 60) (ms mod 1000) (t / day * day). intros a b c e x Hparts.
  unfold hour, minute, second, millisecond, nanosecond. lia.
Qed.

Definition demoTime : Z := unix_time 1700000000 + 123456789.

Lemma parse_SnapshotKey_witness :
  SnapshotKey "prod" demoTime 7 = "_mongorescue/metadata/ha/prod/mongorescue-20231114T221320123Z-e00000000000000000007.db.age" /\
  parseSnapshotKey (SnapshotKey "prod" demoTime 7) = Some (demoTime - demoTime mod millisecond, 7).
Proof.
  split; [vm_compute; reflexivity|].
  apply (parse_SnapshotKey "prod" demoTime 7).
  - vm_compute. discriminate.
  - vm_compute. discriminate.
  - vm_compute. split; [discriminate|reflexivity].
Defined.

(** ** Retention keeps what a takeover restores *)

Lemma foldl_max_ge l : ∀ a, a <= foldl Z.max a l /\ ∀ x, x ∈ l -> x <= foldl Z.max a l.
Proof.
  induction l as [|y l IH]; intros a; simpl; [split; [lia|set_solver]|]. destruct (IH (Z.max a y)) as [H1 H2].
  split; [lia|]. intros x [->|Hx]%elem_of_cons; [lia|]. by apply H2.
Qed.

Lemma foldl_max_le l b : ∀ a, a <= b -> (∀ x, x ∈ l -> x <= b) -> foldl Z.max a l <= b.
Proof.
  induction l as [|y l IH]; intros a Ha Hl; simpl; [done|].
  apply IH; [|intros x Hx; apply Hl; by right]. assert (y <= b) by (apply Hl; left). lia.
Qed.

Lemma foldl_max a l v : v ∈ l -> (∀ x, x ∈ l -> x <= v) -> foldl Z.max a l = Z.max a v.
Proof.
  intros Hv Hall. destruct (foldl_max_ge l a) as [H1 H2]. specialize (H2 v Hv).
  assert (foldl Z.max a l <= Z.max a v); [|lia]. apply foldl_max_le; [lia|]. intros x Hx. specialize (Hall x Hx). lia.
Qed.

Definition strip (c : SnapshotCheck) : SnapshotCheck := setIndex 0 c.

Lemma strip_checks check i l : (∀ x, strip (check x) = check x) -> strip <$> checksFrom check i l = check <$> l.
Proof.
  intros Hs. revert i. induction l as [|x l IH]; intros i; [done|]. rewrite checksFrom_cons, !fmap_cons, IH. f_equal. apply Hs.
Qed.

Lemma strip_filter (p : SnapshotCheck -> bool) (l : list SnapshotCheck) :
  (∀ c, p (strip c) = p c) -> strip <$> filter (isTrue p) l = filter (isTrue p) (strip <$> l).
Proof.
  intros Hp. induction l as [|c l IH]; [done|]. rewrite fmap_cons, !filter_isTrue_cons, fmap_app, IH, Hp.
  by destruct (p c).
Qed.

(** The first of the kept ones is always kept. *)
Lemma kept_grows current keep l : ∀ k x, x ∈ kpKept k -> x ∈ kpKept (foldl (keepOne current keep) k l).
Proof.
  induction l as [|[i sn] l IH]; intros k x Hx; simpl; [done|]. apply IH. simpl.
  destruct (_ && _), (_ <? keep); set_solver.
Qed.

Lemma kept_first v l current keep : 1 <= keep -> siKey v ∈ keptSnapshots (v :: l) current keep.
Proof.
  intros Hk. unfold keptSnapshots. simpl.
  set (k := foldl _ _ _). assert (siKey v ∈ kpKept k) as Hin.
  { apply kept_grows. cbn [keepOne kpKept]. change (Z.of_nat 0) with 0. rewrite (proj2 (Z.ltb_lt 0 keep)) by lia.
    destruct ((siEpoch v =? current) && true); rewrite !elem_of_union, !elem_of_singleton; auto. }
  destruct (kpNewest k); [|done]. case_bool_decide; [done|]. apply elem_of_union. by right.
Qed.

(** What retention deletes: verified snapshots other than the first, or legacy ones when
    there is a verified one, and none that sorts before a snapshot whose check failed. *)
Lemma pruneDrops_spec s current keep c :
  c ∈ pruneDrops s current keep ->
  (∃ v vs, selVerified s = v :: vs /\
     ((c ∈ selVerified s /\ siKey (ckInfo c) <> siKey (ckInfo v)) \/ c ∈ selLegacy s)) /\
  (∀ f, f ∈ selFailed s -> (ckIndex f <= ckIndex c)%nat).
Proof.
  unfold pruneDrops. intros [Hi Hc]%list_elem_of_filter. split.
  - apply elem_of_app in Hc as [[Hk Hc]%list_elem_of_filter|Hc];
      destruct (selVerified s) as [|v vs] eqn:Hv; simpl in Hc; try set_solver; exists v, vs; split; auto.
    left. split; [done|]. intros He. apply Hk. rewrite He, fmap_cons. apply kept_first. lia.
  - intros f Hf. destruct (foldl_max_ge ((λ c, Z.of_nat (ckIndex c)) <$> selFailed s) (-1)) as [_ Hge].
    specialize (Hge (Z.of_nat (ckIndex f)) ltac:(by apply (list_elem_of_fmap_2 (λ c, Z.of_nat (ckIndex c))))). lia.
Qed.

Section Pruned.
Context (cluster : string) (read : SnapshotInfo -> snapshotObject) (l : list SnapshotInfo) (gone : list string).

Let check (info : SnapshotInfo) : SnapshotCheck := CheckSnapshot cluster (read info) info.
Let remaining : list SnapshotInfo := filter (λ i, siKey i ∉ gone) l.

Context (v : SnapshotInfo) (vs : list SnapshotInfo).
Hypothesis names : ∀ x, x ∈ l -> parseSnapshotKey (siKey x) = Some (siCreatedAt x, siEpoch x).
Hypothesis sorted : StronglySorted (λ a b, notBefore (infoMark a) (infoMark b)) l.
Hypothesis first : filter (λ x, ckVerified (check x) = true) l = v :: vs.
Hypothesis only : ∀ x, x ∈ l -> siKey x ∈ gone -> (ckVerified (check x) = true /\ siKey x <> siKey v) \/ ckLegacy (check x) = true.

Lemma check_strip x : strip (check x) = check x.
Proof. unfold check. rewrite CheckSnapshot_eq. destruct (parseSnapshotHeader _); [|done]. by destruct (verifyHeader _ _ _). Qed.

Lemma checks_filter (p : SnapshotCheck -> bool) i m :
  (∀ c, p (strip c) = p c) ->
  strip <$> filter (isTrue p) (checksFrom check i m) = check <$> filter (λ x, p (check x) = true) m.
Proof.
  intros Hp. rewrite (strip_filter p _ Hp), (strip_checks _ _ _ check_strip). clear. induction m as [|x m IH]; [done|].
  rewrite fmap_cons, filter_isTrue_cons, filter_cons, IH. destruct (decide (p (check x) = true)) as [Hx|Hx].
  - by rewrite Hx.
  - by apply not_true_iff_false in Hx as ->.
Qed.

(** A list with a property that deleted elements lack is not changed. *)
Lemma remaining_filter (p : SnapshotInfo -> Prop) `{∀ x, Decision (p x)} :
  (∀ x, x ∈ l -> siKey x ∈ gone -> ~ p x) -> filter p remaining = filter p l.
Proof.
  intros Hp. unfold remaining. rewrite list_filter_filter. apply list_filter_agree. intros x Hx. split; [by intros [? ?]|].
  intros Hpx. split; [done|]. intros Hg. by apply (Hp x).
Qed.

Lemma first_in : v ∈ l /\ ckVerified (check v) = true.
Proof.
  assert (v ∈ filter (λ x, ckVerified (check x) = true) l) as Hin by (rewrite first; by left).
  by apply list_elem_of_filter in Hin as [? ?].
Qed.

Lemma first_left : siKey v ∉ gone.
Proof.
  destruct first_in as [Hin Hv]. intros Hg. destruct (only v Hin Hg) as [[_ Hn]|Hl]; [done|].
  destruct (verified_not_legacy _ Hv). congruence.
Qed.

Lemma first_split : ∃ a b, l = a ++ v :: b /\ ∀ x, x ∈ a -> ckVerified (check x) = false.
Proof.
  clear names sorted only. revert first. generalize l. intros m. induction m as [|x m IH]; [done|]. rewrite filter_cons.
  destruct (decide (ckVerified (check x) = true)) as [Hx|Hx].
  - intros [= -> _]. exists [], m. split; [done|]. set_solver.
  - intros Hf. destruct (IH Hf) as (a & b & -> & Ha). exists (x :: a), b. split; [done|].
    intros y [->|Hy]%elem_of_cons; [by apply not_true_iff_false|]. by apply Ha.
Qed.

Lemma failedFirst_split i a b :
  (∀ x, x ∈ a -> ckVerified (check x) = false) ->
  failedFirst (checksFrom check i (a ++ v :: b)) = existsb (λ x, ckFailed (check x)) a.
Proof.
  destruct first_in as [_ Hv]. revert i. induction a as [|x a IH]; intros i Ha.
  - cbn [app]. rewrite checksFrom_cons. cbn [failedFirst existsb].
    change (ckVerified (setIndex i (check v))) with (ckVerified (check v)). by rewrite Hv.
  - cbn [app]. rewrite checksFrom_cons. cbn [failedFirst existsb]. change (ckVerified (setIndex i (check x))) with (ckVerified (check x)).
    rewrite (Ha x) by left. f_equal. apply IH. intros y Hy. apply Ha. by right.
Qed.

(** The deletion changes neither the first verified snapshot nor what failed before it. *)
Lemma remaining_first :
  (∃ vs', filter (λ x, ckVerified (check x) = true) remaining = v :: vs' /\ ∀ x, x ∈ vs' -> x ∈ vs) /\
  failedFirst (checksFrom check 0 remaining) = failedFirst (checksFrom check 0 l).
Proof.
  destruct first_split as (a & b & Hl & Ha). destruct first_in as [_ Hv].
  assert (remaining = filter (λ i, siKey i ∉ gone) a ++ v :: filter (λ i, siKey i ∉ gone) b) as Hr.
  { unfold remaining. rewrite Hl, filter_app, filter_cons_True; [done|]. apply first_left. }
  assert (∀ m, (∀ x, x ∈ m -> ckVerified (check x) = false) -> filter (λ x, ckVerified (check x) = true) m = []) as Hnil.
  { intros m Hm. apply elem_of_nil_inv. intros x [Hx Hin]%list_elem_of_filter. rewrite Hm in Hx; done. }
  split.
  - exists (filter (λ x, ckVerified (check x) = true) (filter (λ i, siKey i ∉ gone) b)). split.
    + rewrite Hr, filter_app, Hnil, filter_cons_True; [done..|]. intros x [_ Hx]%list_elem_of_filter. by apply Ha.
    + intros x [Hx [_ Hb]%list_elem_of_filter]%list_elem_of_filter.
      assert (v :: vs = v :: filter (λ x, ckVerified (check x) = true) b) as He.
      { rewrite <- first, Hl, filter_app, Hnil, filter_cons_True; done. }
      injection He as ->. by apply list_elem_of_filter.
  - rewrite Hr, Hl, !failedFirst_split; [|done|intros x [_ Hx]%list_elem_of_filter; by apply Ha].
    apply Bool.eq_iff_eq_true. rewrite !existsb_exists. split.
    + intros (x & Hx & Hf). exists x. split; [|done]. rewrite <- list_elem_of_In in *. by apply list_elem_of_filter in Hx as [_ ?].
    + intros (x & Hx & Hf). exists x. split; [|done]. rewrite <- list_elem_of_In in *. apply list_elem_of_filter. split; [|done].
      intros Hg. assert (x ∈ l) as Hin by (rewrite Hl; set_solver). unfold ckFailed in Hf.
      destruct (only x Hin Hg) as [[Hx1 _]|Hx1]; rewrite Hx1 in Hf; simpl in Hf; rewrite ?andb_false_r in Hf; done.
Qed.

Lemma verified_epoch x : x ∈ l -> ckVerified (check x) = true -> headerEpoch (check x) = siEpoch x.
Proof.
  intros Hx Hv. destruct (CheckSnapshot_verified _ _ _ Hv) as (h & _ & Hh & _ & _ & Hp). unfold headerEpoch, check. rewrite Hh.
  pose proof (names x Hx) as Hn. rewrite Hp in Hn. by injection Hn as _ ->.
Qed.

Lemma verified_after x : x ∈ v :: vs -> x ∈ l /\ ckVerified (check x) = true /\ siEpoch x <= siEpoch v.
Proof.
  rewrite <- first. intros [Hv Hx]%list_elem_of_filter. split_and!; try done.
  destruct first_split as (a & b & Hl & Ha). rewrite Hl, elem_of_app, elem_of_cons in Hx.
  destruct Hx as [Hx|[->|Hx]]; [rewrite Ha in Hv; done|lia|].
  pose proof sorted as Hs. rewrite Hl in Hs. apply StronglySorted_app in Hs as (_ & _ & Hs).
  apply StronglySorted_inv in Hs as [_ Hs]. rewrite Forall_forall in Hs. specialize (Hs _ Hx).
  apply notBefore_alt in Hs. simpl in Hs. lia.
Qed.

(** The selection of a listing [m] whose verified snapshots are [v] and [t]. *)
Lemma selection_first m t :
  filter (λ x, ckVerified (check x) = true) m = v :: t -> (∀ x, x ∈ t -> x ∈ vs) ->
  let s := selection cluster read m 0 in
  selFailedAhead s = failedFirst (checksFrom check 0 m) /\
  ckInfo <$> head (selVerified s) = Some v /\
  foldl Z.max 0 (headerEpoch <$> selVerified s) = Z.max 0 (siEpoch v) /\
  headerEpoch <$> filter (isTrue (headerOf cluster)) (selRefused s) =
    headerEpoch <$> filter (isTrue (headerOf cluster)) (check <$> filter (λ x, ckRefused (check x) = true) m).
Proof.
  intros Hm Ht s. subst s. unfold selection. rewrite selectSnapshots_all. fold check. simpl.
  pose proof (checks_filter ckVerified 0 m ltac:(done)) as HV. rewrite Hm in HV.
  pose proof (checks_filter ckRefused 0 m ltac:(done)) as HR.
  split_and!; [done| | |].
  - destruct (filter (isTrue ckVerified) (checksFrom check 0 m)) as [|w ws]; [done|]. injection HV as Hw _.
    change (ckInfo w) with (ckInfo (strip w)). simpl. f_equal. change (ckInfo (strip w) = v). rewrite Hw. apply CheckSnapshot_info.
  - assert (∀ L : list SnapshotCheck, headerEpoch <$> L = headerEpoch <$> (strip <$> L)) as Hst.
    { intros L. rewrite <- list_fmap_compose. done. }
    rewrite Hst, HV. apply foldl_max.
    + rewrite fmap_cons, fmap_cons. rewrite (verified_epoch v) by apply first_in. left.
    + intros e (x & -> & Hx)%list_elem_of_fmap. apply list_elem_of_fmap in Hx as (y & -> & Hy).
      assert (y ∈ v :: vs) as Hy' by (apply elem_of_cons in Hy as [->|Hy]; [left|right; by apply Ht]).
      destruct (verified_after y Hy') as (Hin & Hv & Hle). by rewrite verified_epoch.
  - rewrite <- HR, <- (strip_filter (headerOf cluster)) by done. rewrite <- list_fmap_compose. done.
Qed.

Lemma remaining_selection :
  let s := selection cluster read l 0 in let s' := selection cluster read remaining 0 in
  (ckInfo <$> head (Candidates s').1, (Candidates s').2) = (ckInfo <$> head (Candidates s).1, (Candidates s).2) /\
  AuthenticEpoch cluster s' = AuthenticEpoch cluster s.
Proof.
  intros s s'. destruct remaining_first as [(vs' & Hr & Hsub) Hff].
  destruct (selection_first l vs first ltac:(done)) as (Hf1 & Hh1 & He1 & Hx1). fold s in Hf1, Hh1, He1, Hx1.
  destruct (selection_first remaining vs' Hr Hsub) as (Hf2 & Hh2 & He2 & Hx2). fold s' in Hf2, Hh2, He2, Hx2.
  assert (selFailedAhead s' = selFailedAhead s) as Hfa by congruence.
  assert (filter (λ x, ckRefused (check x) = true) remaining = filter (λ x, ckRefused (check x) = true) l) as Hrf.
  { apply remaining_filter. intros x Hx Hg Href. destruct (only x Hx Hg) as [[Hv _]|Hl].
    - destruct (verified_not_legacy _ Hv). congruence.
    - pose proof (legacy_not_refused _ Hl). congruence. }
  assert (∀ r : SnapshotSelection, ckInfo <$> head (selVerified r) = Some v ->
    Candidates r = (if selFailedAhead r then [] else selVerified r, false) /\ Nat.ltb 0 (length (selVerified r)) = true) as Hc.
  { intros r Hr'. unfold Candidates. destruct (selVerified r); [done|]. simpl. by destruct (selFailedAhead r). }
  destruct (Hc s Hh1) as [Hc1 Hl1], (Hc s' Hh2) as [Hc2 Hl2]. split.
  - rewrite Hc1, Hc2, Hfa. simpl. by destruct (selFailedAhead s); [|rewrite Hh1, Hh2].
  - unfold AuthenticEpoch. by rewrite Hc1, Hc2, Hl1, Hl2, He1, He2, Hx1, Hx2, Hrf, Hfa.
Qed.

End Pruned.

Lemma elem_of_extend check m cluster n c :
  let s := extend cluster (mkSel [] [] [] [] n true false false) (checksFrom check 0 m) in
  c ∈ selVerified s \/ c ∈ selLegacy s ->
  ∃ k x, x ∈ m /\ c = setIndex k (check x) /\ (c ∈ selVerified s -> ckVerified (check x) = true) /\
    (c ∈ selLegacy s -> ckLegacy (check x) = true).
Proof.
  simpl. intros Hc. assert (c ∈ checksFrom check 0 m) as Hin by (destruct Hc as [[_ ?]%list_elem_of_filter|[_ ?]%list_elem_of_filter]; done).
  apply list_elem_of_split in Hin as (l1 & l2 & Hs). destruct (checksFrom_split _ _ _ _ _ _ Hs) as (a & x & b & -> & _ & -> & _).
  eexists _, x. split_and!; [set_solver|done| |]; by intros [Hp _]%list_elem_of_filter.
Qed.

Section Drops.
Context (cluster : string) (read : SnapshotInfo -> snapshotObject) (l : list SnapshotInfo) (current keep : Z).

Let check (info : SnapshotInfo) : SnapshotCheck := CheckSnapshot cluster (read info) info.
Let s : SnapshotSelection := selection cluster read l 0.

Lemma selection_extend : s = extend cluster (mkSel [] [] [] [] (length l) true false false) (checksFrom check 0 l).
Proof. apply selectSnapshots_all. Qed.

(** Where a planned deletion comes from. *)
Lemma drop_origin c :
  c ∈ pruneDrops s current keep ->
  ∃ k x v vs, x ∈ l /\ c = setIndex k (check x) /\ selVerified s = v :: vs /\
    ((ckVerified (check x) = true /\ siKey x <> siKey (ckInfo v)) \/ ckLegacy (check x) = true).
Proof.
  intros [(v & vs & Hv & Hc) _]%pruneDrops_spec.
  destruct (elem_of_extend check l cluster (length l) c) as (k & x & Hx & -> & H1 & H2).
  { rewrite <- selection_extend. destruct Hc as [[? _]|?]; auto. }
  rewrite <- selection_extend in H1, H2. exists k, x, v, vs. split_and!; try done.
  destruct Hc as [[Hc Hk]|Hc]; [|auto]. left. split; [by apply H1|]. simpl in Hk. unfold check in Hk.
  by rewrite CheckSnapshot_info in Hk.
Qed.

(** Deleted objects are legacy, or verified and not the first verified one. *)
Lemma drop_only (gone : list string) :
  NoDup (siKey <$> l) -> gone <> [] ->
  (∀ k, k ∈ gone -> k ∈ (λ c, siKey (ckInfo c)) <$> pruneDrops s current keep) ->
  ∃ v vs, filter (λ x, ckVerified (check x) = true) l = v :: vs /\
    ∀ x, x ∈ l -> siKey x ∈ gone -> (ckVerified (check x) = true /\ siKey x <> siKey v) \/ ckLegacy (check x) = true.
Proof.
  intros Hnd Hne Hgone. assert (∀ x, ckInfo (check x) = x) as Hci by (intros x; apply CheckSnapshot_info).
  destruct gone as [|k0 gone']; [done|].
  assert (∃ w ws, selVerified s = w :: ws) as (w & ws & Hw).
  { specialize (Hgone k0 ltac:(left)). apply list_elem_of_fmap in Hgone as (c & _ & Hc).
    destruct (drop_origin c Hc) as (_ & _ & w & ws & _ & _ & Hw & _). eauto. }
  pose proof (checks_filter cluster read ckVerified 0 l ltac:(done)) as HV. fold check in HV.
  assert (selVerified s = filter (isTrue ckVerified) (checksFrom check 0 l)) as Hsv by (by rewrite selection_extend).
  rewrite <- Hsv, Hw in HV. destruct (filter (λ x, ckVerified (check x) = true) l) as [|v vs]; [done|].
  exists v, vs. split; [done|]. injection HV as Hwv _.
  assert (ckInfo w = v) as Hwi by (change (ckInfo w) with (ckInfo (strip w)); rewrite Hwv; apply Hci).
  intros x Hx Hg. specialize (Hgone _ Hg). apply list_elem_of_fmap in Hgone as (c & Hk & Hc).
  destruct (drop_origin c Hc) as (k & y & w' & ws' & Hy & -> & Hw' & Hcase). simpl in Hk. rewrite Hci in Hk.
  assert (x = y) as -> by (by apply (NoDup_fmap_inj_elem siKey l)). rewrite Hw in Hw'. injection Hw' as <- <-. by rewrite Hwi in Hcase.
Qed.
End Drops.

Lemma filter_nothing (l : list SnapshotInfo) : filter (λ i, siKey i ∉ (@nil string)) l = l.
Proof. induction l as [|x m IH]; [done|]. rewrite filter_cons_True by set_solver. by rewrite IH. Qed.

(** Retention never changes what a takeover restores. Whatever part of the planned
    deletions succeeds, the first snapshot offered to a takeover and the highest epoch
    the snapshots prove are the same before and after; only verified or legacy
    snapshots are deleted, and none that sorts before a snapshot that could not be
    checked. *)
Theorem prune_keeps_candidate cluster objs read current keep (gone : list string) :
  let l := ListSnapshots cluster objs in
  let s := selection cluster read l 0 in
  let s' := selection cluster read (filter (λ i, siKey i ∉ gone) l) 0 in
  NoDup (siKey <$> l) ->
  (∀ k, k ∈ gone -> k ∈ (λ c, siKey (ckInfo c)) <$> pruneDrops s current keep) ->
  (ckInfo <$> head (Candidates s').1, (Candidates s').2) = (ckInfo <$> head (Candidates s).1, (Candidates s).2) /\
  AuthenticEpoch cluster s' = AuthenticEpoch cluster s /\
  (∀ c f, c ∈ pruneDrops s current keep -> f ∈ selFailed s ->
     (ckVerified c = true \/ ckLegacy c = true) /\ (ckIndex f <= ckIndex c)%nat).
Proof.
  intros l s s' Hnd Hgone.
  assert (∀ c f, c ∈ pruneDrops s current keep -> f ∈ selFailed s ->
     (ckVerified c = true \/ ckLegacy c = true) /\ (ckIndex f <= ckIndex c)%nat) as Hlast.
  { intros c f Hc Hf. split; [|by apply (pruneDrops_spec _ _ _ _ Hc)].
    destruct (drop_origin cluster read l current keep c Hc) as (k & x & _ & _ & _ & -> & _ & [[Hv _]|Hl]); [by left|by right]. }
  destruct (decide (gone = [])) as [->|Hne]; [subst s'; by rewrite filter_nothing|].
  destruct (drop_only cluster read l current keep gone Hnd Hne Hgone) as (v & vs & Hv & Honly).
  destruct (remaining_selection cluster read l gone v vs) as [H1 H2]; try done.
  - intros x Hx. by apply (elem_of_ListSnapshots cluster objs).
  - apply ListSnapshots_sorted.
Qed.

(** ** The checker's memory *)

(** Every remembered outcome is that of reading the object version it was made for. *)
Definition cacheOk (cluster : string) (read : SnapshotInfo -> snapshotObject) (cache : gmap string SnapshotCheck) : Prop :=
  ∀ k c, cache !! k = Some c ->
    siKey (ckInfo c) = k /\ c = CheckSnapshot cluster (read (ckInfo c)) (ckInfo c) /\
    parseSnapshotKey k = Some (siCreatedAt (ckInfo c), siEpoch (ckInfo c)).

(** ... and, after eviction, of a listed object. *)
Definition cacheFor (cluster : string) (read : SnapshotInfo -> snapshotObject) (l : list SnapshotInfo)
    (cache : gmap string SnapshotCheck) : Prop :=
  ∀ x c, x ∈ l -> cache !! siKey x = Some c -> c = CheckSnapshot cluster (read x) x.

Lemma sameObject_eq a b :
  sameObject a b = true -> parseSnapshotKey (siKey a) = Some (siCreatedAt a, siEpoch a) ->
  parseSnapshotKey (siKey b) = Some (siCreatedAt b, siEpoch b) -> a = b.
Proof.
  unfold sameObject. intros Hs Ha Hb. bool_cases. destruct a as [k1 c1 e1 s1 m1 t1], b as [k2 c2 e2 s2 m2 t2]. simpl in *.
  subst. rewrite Ha in Hb. by injection Hb as -> ->.
Qed.

Lemma evict_ok cluster read l cache :
  NoDup (siKey <$> l) -> (∀ x, x ∈ l -> parseSnapshotKey (siKey x) = Some (siCreatedAt x, siEpoch x)) ->
  cacheOk cluster read cache -> cacheOk cluster read (evict l cache) /\ cacheFor cluster read l (evict l cache).
Proof.
  intros Hnd Hp Hok. unfold evict. split.
  - intros k c [Hk _]%map_lookup_filter_Some. by apply Hok.
  - intros x c Hx [Hk Hm]%map_lookup_filter_Some. simpl in Hm. destruct (Hok _ _ Hk) as (Hkey & Hc & Hpc).
    destruct (list_find _ _) as [[i y]|] eqn:Hf; [|done]. apply list_find_Some in Hf as (Hy & Hky & _).
    assert (y ∈ l) as Hyl by (rewrite <- elem_of_reverse; by eapply list_elem_of_lookup_2).
    assert (y = x) as -> by (by apply (NoDup_fmap_inj_elem siKey l)).
    assert (ckInfo c = x) as <-; [|done]. apply sameObject_eq; try done; [by rewrite Hkey|by apply Hp].
Qed.

Lemma selectCached_spec cluster read want l : ∀ i s cache,
  NoDup (siKey <$> l) -> (∀ x, x ∈ l -> parseSnapshotKey (siKey x) = Some (siCreatedAt x, siEpoch x)) ->
  cacheOk cluster read cache -> cacheFor cluster read l cache ->
  fst (selectCached cluster read want i l s cache) =
    selectLoop cluster (λ info, CheckSnapshot cluster (read info) info) want i l s /\
  cacheOk cluster read (snd (selectCached cluster read want i l s cache)).
Proof.
  induction l as [|x l IH]; intros i s cache Hnd Hp Hok Hfor; cbn [selectCached selectLoop]; [done|].
  destruct (_ && _); [done|]. rewrite fmap_cons in Hnd. apply NoDup_cons in Hnd as [Hx Hnd].
  assert (∃ cache', cachedCheck cluster read x cache = (CheckSnapshot cluster (read x) x, cache') /\
    cacheOk cluster read cache' /\ cacheFor cluster read l cache') as (cache' & -> & Hok' & Hfor').
  { unfold cachedCheck. destruct (cache !! siKey x) as [old|] eqn:Hc.
    - rewrite (Hfor x old) by (done || left). eexists. split_and!; try done. intros y c Hy. apply Hfor. by right.
    - destruct (determinate _); eexists; split_and!; try done.
      + intros k c [[<- <-]|[_ ?]]%lookup_insert_Some; [|by apply Hok]. rewrite CheckSnapshot_info. split_and!; try done. apply Hp. left.
      + intros y c Hy. rewrite lookup_insert_ne; [intros; apply Hfor; [by right|done]|].
        intros He. apply Hx. rewrite He. by apply list_elem_of_fmap_2.
      + intros y c Hy. apply Hfor. by right. }
  apply IH; try done. intros y Hy. apply Hp. by right.
Qed.

(** The checker's memory is transparent: while an object version has one content,
    selecting through the remembered outcomes of earlier listings gives what reading
    every object again gives, and what it remembers stays right for the next listing. *)
Theorem checker_transparent cluster read objs want cache :
  let l := ListSnapshots cluster objs in
  NoDup (siKey <$> l) -> cacheOk cluster read cache ->
  fst (Select cluster read l want cache) = selection cluster read l want /\
  cacheOk cluster read (snd (Select cluster read l want cache)).
Proof.
  intros l Hnd Hok. assert (∀ x, x ∈ l -> parseSnapshotKey (siKey x) = Some (siCreatedAt x, siEpoch x)) as Hp
    by (intros x Hx; by apply (elem_of_ListSnapshots cluster objs)).
  destruct (evict_ok cluster read l cache Hnd Hp Hok) as [H1 H2]. by apply selectCached_spec.
Qed.

(** ** A concrete listing: a planted object under a newer name, three snapshots of the
    cluster and one without a header. *)

Definition demoKey (t epoch : Z) : string := SnapshotKey "prod" (demoTime + t * minute) epoch.

Definition demoObjects : list listed :=
  (λ k, mkListed k 100 0 "v1") <$> [demoKey 1 6; demoKey 9 9; demoKey 2 7; demoKey 3 7; demoKey 0 5].

Definition demoRead (i : SnapshotInfo) : snapshotObject :=
  if siEpoch i =? 9 then SObjUndecryptable
  else if siEpoch i =? 5 then SObjLegacy
  else SObjHeader (mkHeader 1 "prod" (siEpoch i) "a" (siCreatedAt i)).

Definition demoFirst : SnapshotCheck :=
  default (mkCheck (mkInfo "" 0 0 0 0 "") None None 0) (head (Candidates (selection "prod" demoRead (ListSnapshots "prod" demoObjects) 0)).1).

Lemma candidates_newest_witness :
  siKey (ckInfo demoFirst) = demoKey 3 7 /\
  (∀ info, info ∈ ListSnapshots "prod" demoObjects ->
     ckVerified (CheckSnapshot "prod" (demoRead info) info) = true -> notBefore (infoMark (ckInfo demoFirst)) (infoMark info)).
Proof.
  split; [vm_compute; reflexivity|].
  apply (candidates_newest "prod" demoObjects demoRead 0 demoFirst
    (tail (Candidates (selection "prod" demoRead (ListSnapshots "prod" demoObjects) 0)).1)).
  vm_compute. reflexivity.
Defined.

Definition demoGone : list string := [demoKey 1 6; demoKey 0 5].

Lemma demo_names : NoDup (siKey <$> ListSnapshots "prod" demoObjects).
Proof. apply (bool_decide_unpack _). vm_compute. exact I. Qed.

Lemma demo_planned k :
  k ∈ demoGone -> k ∈ (λ c, siKey (ckInfo c)) <$> pruneDrops (selection "prod" demoRead (ListSnapshots "prod" demoObjects) 0) 7 1.
Proof.
  unfold demoGone. intros [-> | [-> | []%elem_of_nil]%elem_of_cons]%elem_of_cons;
    apply (bool_decide_unpack _); vm_compute; exact I.
Qed.

Lemma prune_keeps_candidate_witness :
  ckInfo <$> head (Candidates (selection "prod" demoRead (filter (λ i, siKey i ∉ demoGone) (ListSnapshots "prod" demoObjects)) 0)).1 =
  ckInfo <$> head (Candidates (selection "prod" demoRead (ListSnapshots "prod" demoObjects) 0)).1.
Proof.
  exact (f_equal fst (proj1 (prune_keeps_candidate "prod" demoObjects demoRead 7 1 demoGone demo_names demo_planned))).
Defined.

Lemma checker_transparent_witness :
  fst (Select "prod" demoRead (ListSnapshots "prod" demoObjects) 1 ∅) =
  selection "prod" demoRead (ListSnapshots "prod" demoObjects) 1.
Proof.
  apply (checker_transparent "prod" demoRead demoObjects 1 ∅ demo_names). intros k c Hk. by rewrite lookup_empty in Hk.
Defined.
