(* ===== verification/Segments.v ===== *)
(** * Segments, windows and the status of a stream
    (src/internal/pitr/collector/segments.go, status.go, maintain.go)

    What a stream can restore, as the dashboard and the base schedule see it: the runs
    of usable chunks of each chain, the base backups they cover, and the windows these
    open. The theorems tie the windows to the planner of PitrPlan. *)

From S2P Require Import Prelude Pitr PitrStore PitrChain PitrPlan Backup.

(** A base backup: the record of the run with its PITR fields. *)
Record BaseBackup : Type := mkBaseBackup {
  bbRecord : BackupRecord;
  bbTBefore : option OpTime;
  bbTAfter : option OpTime;
  bbSizeBytes : Z;
  bbEncrypted : bool;
  bbEncryptionMode : string;
  bbCancelledBy : string
}.

Definition bbID (b : BaseBackup) : string := rID (bbRecord b).
Definition bbStartedAt (b : BaseBackup) : Z := StartedAt (rIdent (bbRecord b)).

(** ** Segments *)

Record Segment : Type := mkSegment {
  sgFrom : Timestamp;
  sgTo : Timestamp;
  sgCount : Z;
  sgChunks : list Chunk
}.

Definition segOf (c : Chunk) : Segment := mkSegment (cFrom c) (cTo c) 1 [c].

Definition segAdd (s : Segment) (c : Chunk) : Segment :=
  mkSegment (sgFrom s) (cTo c) (sgCount s + 1) (sgChunks s ++ [c]).

(** The loop of [segments]: [cur] is the segment being built. *)
Fixpoint segLoop (cur : option Segment) (chunks : list Chunk) : list Segment * Z :=
  match chunks with
  | [] => (option_list cur, 0)
  | c :: rest =>
      if negb (Live c) then segLoop cur rest
      else if negb (isEmpty (cVerifyError c)) then
        let '(out, corrupt) := segLoop None rest in (option_list cur ++ out, corrupt + 1)
      else match cur with
      | None => segLoop (Some (segOf c)) rest
      | Some s =>
          if bool_decide (cFrom c = sgTo s) then segLoop (Some (segAdd s c)) rest
          else let '(out, corrupt) := segLoop (Some (segOf c)) rest in (s :: out, corrupt)
      end
  end.

Definition segments (chunks : list Chunk) : list Segment * Z := segLoop None chunks.

(** The terms of the first chunk of [l] with From < [ts] <= To. *)
Fixpoint termIn (ts : Timestamp) (l : list Chunk) : option (Z * Z) :=
  match l with
  | [] => None
  | c :: l =>
      if (Compare (cFrom c) ts <? 0) && (Compare (cTo c) ts >=? 0) then Some (cFirstTerm c, cLastTerm c)
      else termIn ts l
  end.

(** [Segment.termAt]: the first chunk also holds its start. *)
Definition termAt (s : Segment) (ts : Timestamp) : option (Z * Z) :=
  match sgChunks s with
  | [] => None
  | c :: l =>
      if ((Compare (cFrom c) ts <? 0) || bool_decide (cFrom c = ts)) && (Compare (cTo c) ts >=? 0)
      then Some (cFirstTerm c, cLastTerm c)
      else termIn ts l
  end.

(** [Segment.covers]. *)
Definition covers (s : Segment) (b : BaseBackup) : bool :=
  match bbTBefore b, bbTAfter b with
  | Some before, Some after =>
      if (Compare (sgFrom s) (otTS before) >? 0) || (Compare (sgTo s) (otTS after) <? 0) then false
      else match termAt s (otTS after) with
      | None => false
      | Some (first, last) => (otTerm after =? 0) || ((first <=? otTerm after) && (otTerm after <=? last))
      end
  | _, _ => false
  end.

Fixpoint coveringSegment (segs : list Segment) (b : BaseBackup) : option Segment :=
  match segs with
  | [] => None
  | s :: segs => if covers s b then Some s else coveringSegment segs b
  end.

Definition eligibleBase (b : BaseBackup) : bool :=
  bool_decide (rStatus (bbRecord b) = StatusCompleted) && InstanceScope (bbRecord b)
  && match bbTBefore b with Some _ => true | None => false end
  && match bbTAfter b with Some _ => true | None => false end.

(** ** The status of a stream *)

Record ChainStatus : Type := mkChainStatus {
  csChain : Chain;
  csSpan : option ChainSpan;
  csSegments : list Segment;
  csCorrupt : Z;
  csLastTo : Timestamp
}.

Record BaseStatus : Type := mkBaseStatus {
  bsBase : BaseBackup;
  bsChainID : string;
  bsEligible : bool;
  bsSegmentTo : Timestamp
}.

Record Window : Type := mkWindow {
  wChainID : string;
  wOpen : bool;
  wStart : Timestamp;
  wEnd : Timestamp;
  wBases : Z
}.

(** The collector's stored position, what it would lose now, and what can be restored.
    The fields of a running collector are left out. *)
Record StreamStatus : Type := mkStatus {
  ssStream : Stream;
  ssState : option PState;
  ssDurableRPO : option Z;
  ssWindows : list Window;
  ssChains : list ChainStatus;
  ssBases : list BaseStatus;
  ssChainBreaks : Z
}.

(** The query of [Status] and of the planner: the live committed chunks of a chain. *)
Definition liveQuery (streamID chainID : string) : ChunkQuery :=
  mkQuery streamID chainID zeroTS zeroTS (Some ChunkCommitted) true.

Definition chainStatus (spans : list ChainSpan) (c : Chain) (chunks : list Chunk) : ChainStatus :=
  let '(segs, corrupt) := segments chunks in
  mkChainStatus c (last (filter (λ sp, spChainID sp = chChainID c) spans)) segs corrupt
    (match last chunks with Some ch => cTo ch | None => zeroTS end).

Fixpoint chainStatuses (streamID : string) (spans : list ChainSpan) (chains : list Chain) (db : DB)
  : result PitrErr (list ChainStatus) :=
  match chains with
  | [] => Ok []
  | c :: rest =>
      match ListChunks (liveQuery streamID (chChainID c)) db with
      | Err e => Err e
      | Ok chunks =>
          match chainStatuses streamID spans rest db with
          | Err e => Err e
          | Ok l => Ok (chainStatus spans c chunks :: l)
          end
      end
  end.

(** The first chain with a segment that covers [b]. *)
Fixpoint coveringChain (chains : list ChainStatus) (b : BaseBackup) : option (string * Segment) :=
  match chains with
  | [] => None
  | c :: rest =>
      match coveringSegment (csSegments c) b with
      | Some s => Some (chChainID (csChain c), s)
      | None => coveringChain rest b
      end
  end.

Definition baseStatus (chains : list ChainStatus) (b : BaseBackup) : BaseStatus :=
  match coveringChain chains b with
  | Some (id, s) => mkBaseStatus b id (eligibleBase b) (sgTo s)
  | None => mkBaseStatus b "" false zeroTS
  end.

(** One turn of the loop over the bases of a segment's window. *)
Definition windowBase (chainID : string) (seg : Segment) (w : Window) (b : BaseStatus) : Window :=
  if negb (bool_decide (bsChainID b = chainID)) || negb (bsEligible b) || negb (bool_decide (bsSegmentTo b = sgTo seg))
  then w
  else match bbTAfter (bsBase b) with
  | None => w
  | Some after =>
      let start := if (wBases w =? 0) || (Compare (otTS after) (wStart w) <? 0) then otTS after else wStart w in
      mkWindow (wChainID w) (wOpen w) start (wEnd w) (wBases w + 1)
  end.

Definition segmentWindow (c : ChainStatus) (bases : list BaseStatus) (seg : Segment) : Window :=
  foldl (windowBase (chChainID (csChain c)) seg)
    (mkWindow (chChainID (csChain c)) (chainOpen (csChain c) && bool_decide (sgTo seg = csLastTo c)) zeroTS (sgTo seg) 0)
    bases.

Definition windows (chains : list ChainStatus) (bases : list BaseStatus) : list Window :=
  chains ≫= λ c, filter (λ w, wBases w <> 0) (segmentWindow c bases <$> csSegments c).

Definition chainBroken (c : Chain) : bool :=
  bool_decide (chEndReason c = EndGap) || bool_decide (chEndReason c = EndDiverged)
  || bool_decide (chEndReason c = EndReplicaSetChanged).

(** [Service.Status] of the stored data, at [now]; [bases] is [Config.Bases]. *)
Definition Status (now : Z) (id : string) (bases : list BaseBackup) (db : DB) : result PitrErr StreamStatus :=
  match GetStream id db with
  | Err e => Err e
  | Ok st =>
      let state := match LoadState id db with Ok s => Some s | Err _ => None end in
      let rpo := match state with
                 | Some s => if tsIsZero (otTS (stLast s)) then None else Some (time_sub now (tsTime (otTS (stLast s))))
                 | None => None
                 end in
      match chainStatuses id (ChainSpans id db) (ListChains id db) db with
      | Err e => Err e
      | Ok chains =>
          let bs := baseStatus chains <$> filter (λ b, negb (statusDeleted (rStatus (bbRecord b)))) bases in
          Ok (mkStatus st state rpo (windows chains bs) chains bs
                (Z.of_nat (length (filter (λ c, chainBroken (csChain c)) chains))))
      end
  end.

(** ** The base schedule *)

Definition hasOpenWindow (s : StreamStatus) : bool := existsb wOpen (ssWindows s).

Fixpoint awaitsOpen (b : BaseBackup) (before after : OpTime) (chains : list ChainStatus) : bool :=
  match chains with
  | [] => false
  | c :: rest =>
      if negb (chainOpen (csChain c)) then awaitsOpen b before after rest
      else match last (csSegments c) with
      | None => (csCorrupt c =? 0) && bool_decide (csLastTo c = zeroTS) && (Compare (otTS before) (chStart (csChain c)) >=? 0)
      | Some s => bool_decide (sgTo s = csLastTo c) && (Compare (sgFrom s) (otTS before) <=? 0)
                  && (Compare (sgTo s) (otTS after) <? 0)
      end
  end.

Definition awaitsCoverage (s : StreamStatus) (b : BaseBackup) : bool :=
  if negb (bool_decide (rStatus (bbRecord b) = StatusCompleted)) then false
  else match bbTBefore b, bbTAfter b with
  | Some before, Some after => awaitsOpen b before after (ssChains s)
  | _, _ => false
  end.

Definition retryFailedBase : Z := hour.
Definition SystemActor : string := "system".

(** The base a schedule counts from: not deleted, not skipped. *)
Definition countedBase (b : BaseBackup) : bool :=
  negb (statusDeleted (rStatus (bbRecord b))) && negb (bool_decide (rStatus (bbRecord b) = StatusSkipped)).

(** [baseDue]; [nextRun] is the cron library's next activation after a time. *)
Definition baseDue (nextRun : string -> Z -> option Z) (st : Stream) (s : StreamStatus) (bases : list BaseBackup)
    (now : Z) : bool :=
  match head (filter countedBase bases) with
  | None => true
  | Some b =>
      let bySchedule := match nextRun (sBaseCron st) (bbStartedAt b) with Some next => next <=? now | None => false end in
      match rStatus (bbRecord b) with
      | StatusInProgress | StatusPending => false
      | StatusFailed => if time_sub now (bbStartedAt b) >=? retryFailedBase then true else bySchedule
      | StatusCancelled =>
          if bool_decide (bbCancelledBy b = SystemActor) then negb (hasOpenWindow s)
          else if time_sub now (bbStartedAt b) >=? retryFailedBase then true else bySchedule
      | _ => if negb (hasOpenWindow s) then negb (awaitsCoverage s b) else bySchedule
      end
  end.

(** ** The bases a restore may start from (operations/pitrrestore.go) *)

Definition toBase (b : BaseBackup) (before after : OpTime) : Base :=
  mkBase (bbID b) before after (bbSizeBytes b) (bbEncrypted b) (bbEncryptionMode b) (bbStartedAt b).

Definition hasUsableCopy (r : BackupRecord) : bool := existsb (λ c, CopyUsable r (Some c)) (rCopies r).

Definition pitrBase (b : BaseBackup) : option Base :=
  let usable := bool_decide (rStatus (bbRecord b) = StatusCompleted)
                || (bool_decide (rStatus (bbRecord b) = StatusMissing) && hasUsableCopy (bbRecord b)) in
  if negb usable || negb (InstanceScope (bbRecord b)) then None
  else match bbTBefore b, bbTAfter b with
  | Some before, Some after => Some (toBase b before after)
  | _, _ => None
  end.

Definition pitrBases (records : list BaseBackup) : list Base := omap pitrBase records.

(** ** The shape of segments *)

(** The chunks [pre] do not lead into a segment that starts at [a]. *)
Definition breaksAt (pre : list Chunk) (a : Timestamp) : Prop :=
  ∀ p, last pre = Some p -> cVerifyError p <> "" \/ cTo p <> a.

Record SegmentOK (s : Segment) : Prop := mkSegmentOK {
  so_linked : linked (sgFrom s) (sgChunks s) (sgTo s);
  so_nonempty : sgChunks s <> [];
  so_verified : Forall (λ c, cVerifyError c = "") (sgChunks s);
  so_count : sgCount s = Z.of_nat (length (sgChunks s))
}.

Definition curChunks (cur : option Segment) : list Chunk := match cur with Some s => sgChunks s | None => [] end.

(** What the loop knows when it stands behind the live chunks [pre] and [cur]. *)
Definition loopOK (pre : list Chunk) (cur : option Segment) : Prop :=
  match cur with
  | None => ∀ p, last pre = Some p -> cVerifyError p <> ""
  | Some s => SegmentOK s /\ breaksAt pre (sgFrom s)
  end.

Lemma linked_snoc a l b c : linked a l b -> cFrom c = b -> linked a (l ++ [c]) (cTo c).
Proof. revert a. induction l as [|d l IH]; simpl; intros a; [by intros -> ->|]. intros [<- ?] ?. auto. Qed.

Lemma segOf_OK c : cVerifyError c = "" -> SegmentOK (segOf c).
Proof. intros Hc. split; simpl; [done|done|by constructor|done]. Qed.

Lemma segAdd_OK s c : SegmentOK s -> cFrom c = sgTo s -> cVerifyError c = "" -> SegmentOK (segAdd s c).
Proof.
  intros [Hl Hn Hv Hc] Hf Hc'. split; simpl.
  - by eapply linked_snoc.
  - by destruct (sgChunks s).
  - apply Forall_app. split; [done|by constructor].
  - rewrite length_app, Hc. simpl. lia.
Qed.

Lemma filter_live_cons c l : filter Live (c :: l) = (if Live c then [c] else []) ++ filter Live l.
Proof. rewrite filter_cons. unfold Is_true. destruct (Live c); by case_decide. Qed.

(** Every segment of the loop is a maximal run of the live chunks. *)
Lemma segLoop_spec chunks : ∀ pre cur s,
  loopOK pre cur -> s ∈ (segLoop cur chunks).1 ->
  ∃ p q, pre ++ curChunks cur ++ filter Live chunks = p ++ sgChunks s ++ q /\ SegmentOK s /\ breaksAt p (sgFrom s).
Proof.
  induction chunks as [|c chunks IH]; intros pre cur s Hok Hs; cbn [segLoop] in Hs.
  { destruct cur as [s0|]; simpl in Hs; [|by apply elem_of_nil in Hs].
    apply list_elem_of_singleton in Hs as ->. by exists pre, []. }
  rewrite filter_live_cons. destruct (Live c); simpl in Hs; [|by apply IH].
  destruct (isEmpty (cVerifyError c)) eqn:Hv; unfold isEmpty in Hv; simpl in Hs.
  - bool_cases. destruct cur as [s0|].
    + destruct Hok as [Hs0 Hb]. destruct (bool_decide (cFrom c = sgTo s0)) eqn:Hf; bool_cases.
      * destruct (IH pre (Some (segAdd s0 c)) s) as (p & q & Heq & ?); [|done|].
        { split; [by apply segAdd_OK|done]. }
        exists p, q. split; [|done]. rewrite <- Heq. simpl. by rewrite <- !app_assoc.
      * destruct (segLoop (Some (segOf c)) chunks) as [out n] eqn:Ho. apply elem_of_cons in Hs as [->|Hs].
        { by exists pre, ([c] ++ filter Live chunks). }
        destruct (IH (pre ++ sgChunks s0) (Some (segOf c)) s) as (p & q & Heq & ?); [|by rewrite Ho|].
        { split; [by apply segOf_OK|]. intros x Hx. right. simpl. intros E. apply Hf. rewrite <- E.
          destruct Hs0 as [Hl Hn _ _]. rewrite last_app in Hx. destruct (last (sgChunks s0)) as [y|] eqn:Hy.
          - injection Hx as ->. apply last_Some in Hy as [l' Hl']. rewrite Hl' in Hl. clear -Hl.
            revert Hl. generalize (sgFrom s0). induction l' as [|d l' IH]; simpl; intros a; [tauto|].
            intros [_ ?]. eauto.
          - by apply last_None in Hy. }
        exists p, q. split; [|done]. rewrite <- Heq. by rewrite <- !app_assoc.
    + by apply (IH pre (Some (segOf c)) s); [|done]; split; [apply segOf_OK|intros p Hp; left; apply Hok].
  - bool_cases. destruct (segLoop None chunks) as [out n] eqn:Ho. simpl in Hs.
    apply elem_of_app in Hs as [Hs|Hs].
    + destruct cur as [s0|]; [|by apply elem_of_nil in Hs]. apply list_elem_of_singleton in Hs as ->.
      destruct Hok. by exists pre, ([c] ++ filter Live chunks).
    + destruct (IH (pre ++ curChunks cur ++ [c]) None s) as (p & q & Heq & ?); [|by rewrite Ho|].
      { intros x Hx. rewrite app_assoc, last_snoc in Hx. by injection Hx as <-. }
      exists p, q. split; [|done]. rewrite <- Heq. simpl. by rewrite <- !app_assoc.
Qed.

Lemma segments_spec chunks s :
  s ∈ (segments chunks).1 ->
  ∃ p q, filter Live chunks = p ++ sgChunks s ++ q /\ SegmentOK s /\ breaksAt p (sgFrom s).
Proof. intros Hs. by apply (segLoop_spec chunks [] None s). Qed.

(** Every usable live chunk is in a segment, so nothing restorable is left out. *)
Lemma segLoop_complete chunks : ∀ cur c,
  (c ∈ curChunks cur \/ (c ∈ chunks /\ Live c = true /\ cVerifyError c = "")) ->
  ∃ s, s ∈ (segLoop cur chunks).1 /\ c ∈ sgChunks s.
Proof.
  induction chunks as [|d chunks IH]; intros cur c Hc; cbn [segLoop].
  { destruct Hc as [Hc|[Hc _]]; [|by apply elem_of_nil in Hc]. destruct cur as [s|]; [|by apply elem_of_nil in Hc].
    exists s. simpl. split; [left|done]. }
  assert (c ∈ d :: chunks -> Live c = true -> cVerifyError c = "" ->
          (c = d /\ Live d = true /\ cVerifyError d = "") \/ (c ∈ chunks /\ Live c = true /\ cVerifyError c = "")) as Hd.
  { intros [->|?]%elem_of_cons ? ?; auto. }
  destruct (Live d) eqn:Hl; simpl.
  2: { apply IH. destruct Hc as [?|(Hc & ? & ?)]; [by left|]. destruct (Hd Hc) as [(-> & ? & _)|?]; [done..|congruence|by right]. }
  unfold isEmpty. destruct (bool_decide (cVerifyError d = "")) eqn:Hv; bool_cases; simpl.
  - destruct cur as [s|]; simpl in *.
    + destruct (bool_decide (cFrom d = sgTo s)) eqn:Hf.
      * apply IH. simpl. destruct Hc as [?|(Hc & ? & ?)]; [left; set_solver|].
        destruct (Hd Hc) as [(-> & _)|?]; [done..|left; set_solver|by right].
      * destruct (segLoop (Some (segOf d)) chunks) as [out n] eqn:Ho. simpl.
        destruct Hc as [Hc|(Hc & ? & ?)]; [exists s; split; [left|done]|].
        destruct (IH (Some (segOf d)) c) as (s' & Hs' & ?).
        { destruct (Hd Hc) as [(-> & _)|?]; [done..|left; simpl; set_solver|by right]. }
        rewrite Ho in Hs'. exists s'. split; [by right|done].
    + destruct Hc as [Hc|(Hc & ? & ?)]; [by apply elem_of_nil in Hc|]. apply IH. simpl.
      destruct (Hd Hc) as [(-> & _)|?]; [done..|left; set_solver|by right].
  - destruct (segLoop None chunks) as [out n] eqn:Ho. simpl. destruct Hc as [Hc|(Hc & ? & ?)].
    + destruct cur as [s|]; [|by apply elem_of_nil in Hc]. exists s. split; [simpl; left|done].
    + destruct (Hd Hc) as [(-> & _ & ?)|?]; [done..|]. destruct (IH None c) as (s & Hs & ?); [by right|].
      rewrite Ho in Hs. exists s. split; [|done]. apply elem_of_app. by right.
Qed.

(** ** Order within a chain *)

(** Each chunk ends where or before the next ones start. *)
Definition ordered (l : list Chunk) : Prop :=
  StronglySorted (λ a b, tsle (cTo a) (cFrom b)) l /\ Forall (λ c, tsle (cFrom c) (cTo c)) l.

Lemma path_ordered a l e : path a (span <$> l) e -> ordered l /\ Forall (λ c, tsle a (cFrom c) /\ tsle (cTo c) e) l.
Proof.
  revert a. induction l as [|c l IH]; simpl; intros a; [by repeat constructor|].
  intros (-> & Hle & Hp). destruct (IH _ Hp) as ([Hs Hf] & Hb). split; [split; constructor; try done|constructor].
  - eapply Forall_impl; [exact Hb|]. by intros x [? _].
  - split; [apply tsle_refl|by eapply path_le].
  - eapply Forall_impl; [exact Hb|]. intros x [? ?]. split; [by eapply tsle_trans|done].
Qed.

Lemma Forall_filter_incl {A} (P : A -> Prop) `{∀ x, Decision (P x)} (Q : A -> Prop) (l : list A) :
  Forall Q l -> Forall Q (filter P l).
Proof. rewrite !Forall_forall. intros HQ x [_ Hx]%list_elem_of_filter. auto. Qed.

Lemma ordered_filter (P : Chunk -> Prop) `{∀ x, Decision (P x)} l : ordered l -> ordered (filter P l).
Proof.
  intros [Hs Hf]. split; [|by apply Forall_filter_incl].
  induction Hs as [|c l Hs IH Hc]; [constructor|]. apply Forall_cons in Hf as [_ Hf]. rewrite filter_cons.
  destruct (decide (P c)); [|by apply IH]. constructor; [by apply IH|by apply Forall_filter_incl].
Qed.

Lemma ordered_app l1 l2 :
  ordered (l1 ++ l2) -> ordered l1 /\ ordered l2 /\ ∀ a b, a ∈ l1 -> b ∈ l2 -> tsle (cTo a) (cFrom b).
Proof.
  induction l1 as [|c l1 IH]; simpl; intros [Hs Hf].
  { split; [by repeat constructor|]. split; [done|]. by intros a b ?%elem_of_nil. }
  apply StronglySorted_inv in Hs as [Hs Hc]. apply Forall_cons in Hf as [Hf1 Hf].
  destruct IH as ([Hs1 Hf'] & H2 & Hx); [by split|]. apply Forall_app in Hc as [Hc1 Hc2].
  split; [split; by constructor|]. split; [done|].
  intros a b [->|Ha]%elem_of_cons Hb; [|by apply Hx]. rewrite Forall_forall in Hc2. by apply Hc2.
Qed.

(** The live chunks of a chain are its rows, without the others, in the same order. *)
Lemma live_chunks db s c l :
  ListChunks (liveQuery s c) db = Ok l ->
  ∃ all, ListChunks (allChunks s c) db = Ok all /\ l = filter Live all.
Proof.
  unfold ListChunks. simpl. destruct (_ || _); [done|]. intros [= <-].
  eexists. split; [done|]. unfold selectBy. rewrite (cmp_sort_filter chunkCmp). f_equal.
  rewrite list_filter_filter. apply list_filter_iff. intros x. unfold chunkMatches, Live. simpl.
  rewrite !andb_true_r, !Is_true_true.
  destruct (bool_decide (cStreamID x = s) && bool_decide (cChainID x = c)); simpl; [|naive_solver].
  destruct (cStatus x), (bool_decide (cDeletedAt x = None)); simpl; intuition congruence.
Qed.

Lemma live_ordered db s c l :
  Inv db -> c ∈ ListChains s db -> ListChunks (liveQuery s (chChainID c)) db = Ok l -> ordered l.
Proof.
  intros Hi Hc Hl. destruct (live_chunks _ _ _ _ Hl) as (all & Hall & ->). apply ordered_filter.
  destruct (ListChunks_path _ _ _ _ _ Hi (ListChains_row _ _ _ Hi Hc) Hall) as (e & Hp & _).
  by apply (path_ordered _ _ _ Hp).
Qed.

(** ** A covered base has its consistent point in the segment *)

Lemma linked_ordered a l e : linked a l e -> Forall (λ c, tsle (cFrom c) (cTo c)) l -> path a (span <$> l) e.
Proof.
  revert a. induction l as [|c l IH]; simpl; intros a; [done|]. intros [<- Hl] [Hc Hf]%Forall_cons. auto.
Qed.

Lemma termIn_spec ts l f t c :
  ordered l -> termIn ts l = Some (f, t) -> c ∈ l -> tslt (cFrom c) ts -> tsle ts (cTo c) ->
  (cFirstTerm c, cLastTerm c) = (f, t).
Proof.
  induction l as [|d l IH]; simpl; intros [Hs Hf] Ht Hc Hfrom Hto; [done|].
  apply StronglySorted_inv in Hs as [Hs Hd]. apply Forall_cons in Hf as [_ Hf].
  destruct ((Compare (cFrom d) ts <? 0) && (Compare (cTo d) ts >=? 0)) eqn:E.
  - injection Ht as <- <-. compare_cases. apply elem_of_cons in Hc as [->|Hc]; [done|].
    rewrite Forall_forall in Hd. pose proof (Hd _ Hc). exfalso. unfold tsle, tslt in *. lia.
  - apply elem_of_cons in Hc as [->|Hc]; [|by apply IH].
    exfalso. apply andb_false_iff in E as [E|E]; compare_cases; unfold tsle, tslt in *; lia.
Qed.

Lemma termAt_spec s ts f t c :
  ordered (sgChunks s) -> termAt s ts = Some (f, t) -> c ∈ sgChunks s -> tslt (cFrom c) ts -> tsle ts (cTo c) ->
  (cFirstTerm c, cLastTerm c) = (f, t).
Proof.
  unfold termAt. destruct (sgChunks s) as [|d l]; [done|]. intros Ho Ht Hc Hfrom Hto.
  destruct (_ && _) eqn:E.
  - injection Ht as <- <-. compare_cases. apply elem_of_cons in Hc as [->|Hc]; [done|].
    destruct Ho as [[_ Hd]%StronglySorted_inv _]. rewrite Forall_forall in Hd. pose proof (Hd _ Hc).
    exfalso. unfold tsle, tslt in *. lia.
  - destruct Ho as [[Hs _]%StronglySorted_inv [_ Hf]%Forall_cons].
    apply elem_of_cons in Hc as [->|Hc]; [|by eapply (termIn_spec ts l)].
    exfalso. apply andb_false_iff in E as [E|E]; bool_cases; compare_cases; unfold tsle, tslt in *; lia.
Qed.

Lemma covers_spec s b before after :
  covers s b = true -> bbTBefore b = Some before -> bbTAfter b = Some after -> ordered (sgChunks s) ->
  tsle (sgFrom s) (otTS before) /\ tsle (otTS after) (sgTo s) /\ Forall (termFine (toBase b before after)) (sgChunks s).
Proof.
  unfold covers. intros Hc Hb Ha Ho. rewrite Hb, Ha in Hc. destruct (_ || _) eqn:E1; [done|]. compare_cases.
  destruct (termAt s (otTS after)) as [[f t]|] eqn:Ht; [|done]. split; [done|]. split; [done|].
  apply Forall_forall. intros c Hin Hf Hto. simpl in *.
  pose proof (termAt_spec _ _ _ _ _ Ho Ht Hin Hf Hto) as [= -> ->].
  apply orb_prop in Hc as [Hc|Hc]; bool_cases; [by left|right; lia].
Qed.

(** ** Planning from a covered base *)

(** Every live chunk of stream [sid] that touches [tb] is a chunk of chain [chainID]
    and did not fail verification. *)
Definition cleanStart (db : DB) (sid chainID : string) (tb : Timestamp) : Prop :=
  ∀ k c, dbChunks db !! k = Some c -> cStreamID c = sid -> Live c = true ->
    tsle (cFrom c) tb -> tsle tb (cTo c) -> cChainID c = chainID /\ cVerifyError c = "".

Lemma startAt_skip tb l1 l2 : Forall (λ c, tslt (cTo c) tb) l1 -> startAt tb (l1 ++ l2) = startAt tb l2.
Proof.
  induction 1 as [|c l1 Hc _ IH]; [done|]. simpl. rewrite Z.geb_leb.
  rewrite (proj2 (Z.leb_gt _ _)); [done|]. by apply Compare_lt.
Qed.

Lemma startAt_app tb l from q : startAt tb l = Some from -> startAt tb (l ++ q) = Some (from ++ q).
Proof.
  induction l as [|c l IH]; simpl; [done|]. destruct (_ >=? 0); [|done]. by destruct (_ <=? 0); [intros [= <-]|].
Qed.

Lemma walk_app b limit l q : ∀ prev w w', walk b limit prev l w = Ok w' -> walk b limit prev (l ++ q) w = Ok w'.
Proof.
  induction l as [|c l IH]; simpl; intros prev w w'; [done|]. destruct (walkChunk b prev c w) as [w1|]; [|done].
  destruct (_ >=? 0); [done|]. apply IH.
Qed.

(** Before a maximal segment nothing usable touches [tb]. *)
Lemma before_segment p s q tb :
  ordered (p ++ sgChunks s ++ q) -> SegmentOK s -> breaksAt p (sgFrom s) -> tsle (sgFrom s) tb ->
  (∀ c, c ∈ p -> tsle (cFrom c) tb -> tsle tb (cTo c) -> cVerifyError c = "") ->
  Forall (λ c, tslt (cTo c) tb) p.
Proof.
  intros Ho [Hl Hne _ _] Hb Htb Hclean. destruct (ordered_app _ _ Ho) as (Hp & _ & Hx).
  destruct (sgChunks s) as [|c0 l] eqn:Hs; [done|]. simpl in Hl. destruct Hl as [Hc0 _].
  destruct Hp as [Hsort Hspan]. apply Forall_forall. intros c Hc.
  assert (∀ x, x ∈ p -> tsle (cTo x) (sgFrom s)) as Hle by (intros x Hin; rewrite <- Hc0; apply Hx; [done|left]).
  destruct (tsle_total tb (cTo c)) as [Htc|]; [|done]. exfalso.
  assert (cTo c = tb) as Ec by (apply tsle_antisym; [by eapply tsle_trans; [apply Hle|]|done]).
  destruct (last p) as [y|] eqn:Hy; [|by apply last_None in Hy as ->; apply elem_of_nil in Hc].
  assert (y ∈ p) as Hyp by by apply last_Some_elem_of.
  assert (tsle (cTo c) (cTo y)) as Hcy.
  { apply last_Some in Hy as [p' ->]. apply elem_of_app in Hc as [Hc|Hc%list_elem_of_singleton]; [|subst; apply tsle_refl].
    destruct (ordered_app p' [y] (conj Hsort Hspan)) as (_ & [_ [Hyy _]%Forall_cons] & Hpy).
    eapply tsle_trans; [by apply Hpy; [|left]|done]. }
  assert (cTo y = tb) as Ey.
  { apply tsle_antisym; [by eapply tsle_trans; [apply Hle|]|by rewrite <- Ec]. }
  assert (sgFrom s = tb) as Es by (apply tsle_antisym; [done|rewrite <- Ey; by apply Hle]).
  destruct (Hb y Hy) as [Hv|Hv]; [|congruence]. apply Hv, Hclean; [done| |rewrite Ey; apply tsle_refl].
  rewrite Forall_forall in Hspan. rewrite <- Ey. by apply Hspan.
Qed.

(** The chunks of a covered base reach every limit up to the segment's end. *)
Lemma segment_plan p s q b before after limit :
  ordered (p ++ sgChunks s ++ q) -> SegmentOK s -> breaksAt p (sgFrom s) ->
  Forall usable (sgChunks s) -> covers s b = true -> bbTBefore b = Some before -> bbTAfter b = Some after ->
  (∀ c, c ∈ p -> tsle (cFrom c) (otTS before) -> tsle (otTS before) (cTo c) -> cVerifyError c = "") ->
  tsle (otTS before) (otTS after) -> tslt (otTS after) limit -> tsle limit (sgTo s) ->
  ∃ from w, startAt (otTS before) (p ++ sgChunks s ++ q) = Some from /\
    walk (toBase b before after) limit None from (mkWalk [] 0 0 false) = Ok w.
Proof.
  intros Ho Hs Hb Hus Hcov Hbe Haf Hclean Hba Hal Hle.
  destruct (ordered_app _ _ Ho) as (_ & Hsq & _). destruct (ordered_app _ _ Hsq) as (Hso & _ & _).
  destruct (covers_spec _ _ _ _ Hcov Hbe Haf Hso) as (H1 & H2 & Ht).
  rewrite startAt_skip by by eapply before_segment.
  assert (path (sgFrom s) (span <$> sgChunks s) (sgTo s)) as Hp by (apply linked_ordered; [apply Hs|apply Hso]).
  destruct (startAt_complete (otTS before) (sgChunks s) (sgFrom s) (sgTo s)) as (from & a & Hst & Hpa & Ha & Hsub); [done..| |].
  { unfold tsle, tslt in *. lia. }
  destruct (walk_complete (toBase b before after) limit from None (mkWalk [] 0 0 false) a (sgTo s)) as (w & Hw & _); try done.
  - rewrite Forall_forall in *. auto.
  - unfold tsle, tslt in *. lia.
  - rewrite Forall_forall in *. auto.
  - by right; right.
  - exists (from ++ q), w. split; [|by apply walk_app].
    by apply startAt_app.
Qed.

Lemma planFrom_found chains c lv b limit from w :
  (c, lv) ∈ chains ->
  (∀ c0 lv0, (c0, lv0) ∈ chains -> startAt (otTS (bTBefore b)) lv0 <> None -> lv0 = lv) ->
  startAt (otTS (bTBefore b)) lv = Some from -> walk b limit None from (mkWalk [] 0 0 false) = Ok w ->
  is_ok (planFrom chains b limit) = true.
Proof.
  intros Hin Huniq Hst Hw. induction chains as [|[c0 lv0] chains IH]; [by apply elem_of_nil in Hin|]. simpl.
  destruct (startAt (otTS (bTBefore b)) lv0) as [from0|] eqn:E0.
  - assert (lv0 = lv) as -> by (apply (Huniq c0); [left|congruence]). rewrite Hst in E0. injection E0 as <-.
    by rewrite Hw.
  - apply IH; [|intros c1 lv1 Hc1; apply (Huniq c1); by right].
    apply elem_of_cons in Hin as [[= <- <-]|?]; [congruence|done].
Qed.

Lemma tryBases_found s chains hasKey target limit bases b : ∀ fe,
  (∀ mode, hasKey mode = true) -> b ∈ bases -> is_ok (planFrom chains b limit) = true ->
  is_ok (tryBases s chains (Some hasKey) target limit fe bases) = true.
Proof.
  intros fe Hkey Hin Hp. revert fe. assert (∀ enc mode, missingKey (Some hasKey) enc mode = false) as Hk.
  { intros enc mode. unfold missingKey. rewrite Hkey. apply andb_false_r. }
  induction bases as [|b0 bases IH]; [by apply elem_of_nil in Hin|]; intros fe. cbn [tryBases].
  destruct (planFrom chains b0 limit) as [p|e] eqn:E.
  - set (q := mkPlan _ _ _ _ _ _ _ _ _). assert (checkKeys q (Some hasKey) = Ok tt) as ->; [|done].
    unfold checkKeys. rewrite Hk.
    assert (existsb (λ ch, missingKey (Some hasKey) (cEncrypted ch) (cEncryptionMode ch)) (pChunks q) = false) as ->; [|done].
    induction (pChunks q); simpl; [done|]. by rewrite Hk.
  - apply elem_of_cons in Hin as [->|Hin]; [by rewrite E in Hp|]. by apply IH.
Qed.

Lemma newestOf_ge chains c lv ch : (c, lv) ∈ chains -> last lv = Some ch -> tsle (cTo ch) (newestOf chains).
Proof.
  intros Hin Hl. unfold newestOf.
  assert (∀ l z, tsle z (foldl (λ newest '(_, live),
    match last live with
    | Some ch => if Compare (cTo ch) newest >? 0 then cTo ch else newest
    | None => newest
    end) z (l : list (Chain * list Chunk)))) as Hmono.
  { induction l as [|[c0 l0] l IH]; intros z; simpl; [apply tsle_refl|]. eapply tsle_trans; [|apply IH].
    destruct (last l0); [|apply tsle_refl]. destruct (_ >? 0) eqn:E; [|apply tsle_refl].
    compare_cases. apply tsle_lt_eq. by left. }
  generalize zeroTS. induction chains as [|[c0 l0] chains IH]; intros z; [by apply elem_of_nil in Hin|]. simpl.
  apply elem_of_cons in Hin as [[= <- <-]|Hin]; [|by apply IH]. rewrite Hl.
  eapply tsle_trans; [|apply Hmono]. destruct (_ >? 0) eqn:E; [apply tsle_refl|by compare_cases].
Qed.

Lemma ordered_last l c x : ordered l -> last l = Some x -> c ∈ l -> tsle (cTo c) (cTo x).
Proof.
  intros Ho [l' ->]%last_Some Hc. apply elem_of_app in Hc as [Hc|Hc%list_elem_of_singleton]; [|subst; apply tsle_refl].
  destruct (ordered_app _ _ Ho) as (_ & [_ [Hx _]%Forall_cons] & Hlx). eapply tsle_trans; [by apply Hlx; [|left]|done].
Qed.

Lemma linked_last a l e : linked a l e -> l <> [] -> ∃ x, last l = Some x /\ cTo x = e.
Proof.
  revert a. induction l as [|c l IH]; simpl; intros a; [done|]. intros [_ Hl] _.
  destruct l as [|d l]; [by exists c|]. by apply (IH (cTo c)).
Qed.

(** ** Windows *)

(** The start of a window is the consistent point of one of its bases. *)
Definition windowOf (chainID : string) (seg : Segment) (all : list BaseStatus) (w : Window) : Prop :=
  wEnd w = sgTo seg /\ wChainID w = chainID /\ 0 <= wBases w /\
  (wBases w = 0 \/ ∃ b after, b ∈ all /\ bsChainID b = chainID /\ bsEligible b = true /\ bsSegmentTo b = sgTo seg /\
     bbTAfter (bsBase b) = Some after /\ wStart w = otTS after).

Lemma windowBase_of chainID seg all w b : windowOf chainID seg all w -> b ∈ all -> windowOf chainID seg all (windowBase chainID seg w b).
Proof.
  intros (H1 & H2 & H3 & H4) Hb. unfold windowBase. destruct (_ || _) eqn:E; [done|]. bool_cases.
  destruct (bbTAfter (bsBase b)) as [after|] eqn:Ha; [|done]. split; [done|]. split; [done|]. split; [simpl; lia|].
  right. simpl. destruct ((wBases w =? 0) || _) eqn:E'; [by exists b, after|]. bool_cases.
  destruct H4 as [?|?]; [lia|done].
Qed.

Lemma segmentWindow_of c all seg : windowOf (chChainID (csChain c)) seg all (segmentWindow c all seg).
Proof.
  unfold segmentWindow. set (w0 := mkWindow _ _ _ _ _).
  assert (windowOf (chChainID (csChain c)) seg all w0) as H0 by (repeat split; try done; by left).
  assert (∀ l w, windowOf (chChainID (csChain c)) seg all w -> l ⊆ all ->
            windowOf (chChainID (csChain c)) seg all (foldl (windowBase (chChainID (csChain c)) seg) w l)) as Hfold.
  { induction l as [|b l IH]; intros w Hw Hl; simpl; [done|]. apply IH; [|set_solver].
    apply windowBase_of; [done|set_solver]. }
  by apply Hfold.
Qed.

Lemma windows_spec chains bases w :
  w ∈ windows chains bases ->
  ∃ b after, b ∈ bases /\ bsChainID b = wChainID w /\ bsEligible b = true /\ bsSegmentTo b = wEnd w /\
    bbTAfter (bsBase b) = Some after /\ wStart w = otTS after.
Proof.
  unfold windows. intros (c & Hw & Hc)%list_elem_of_bind. apply list_elem_of_filter in Hw as [Hne Hw].
  apply list_elem_of_fmap in Hw as (seg & -> & Hseg).
  destruct (segmentWindow_of c bases seg) as (He & Hid & _ & [?|(b & a & ? & ? & ? & ? & ? & ?)]); [done|].
  exists b, a. by rewrite He, Hid.
Qed.

Lemma coveringChain_spec chains b id s :
  coveringChain chains b = Some (id, s) ->
  ∃ c, c ∈ chains /\ chChainID (csChain c) = id /\ s ∈ csSegments c /\ covers s b = true.
Proof.
  induction chains as [|c chains IH]; simpl; [done|]. destruct (coveringSegment (csSegments c) b) as [s0|] eqn:Hs.
  - intros [= <- <-]. exists c. split; [left|]. split; [done|].
    induction (csSegments c) as [|s1 l IHl]; simpl in Hs; [done|]. destruct (covers s1 b) eqn:Hc.
    + injection Hs as ->. split; [left|done].
    + destruct (IHl Hs). split; [by right|done].
  - intros (c' & ? & ?)%IH. exists c'. split; [by right|done].
Qed.

Lemma chainStatuses_spec sid spans chains db l c :
  chainStatuses sid spans chains db = Ok l -> c ∈ l ->
  csChain c ∈ chains /\ ∃ chunks, ListChunks (liveQuery sid (chChainID (csChain c))) db = Ok chunks /\
    csSegments c = (segments chunks).1.
Proof.
  revert l. induction chains as [|c0 chains IH]; cbn [chainStatuses]; intros l Hl Hin.
  { injection Hl as <-. by apply elem_of_nil in Hin. }
  destruct (ListChunks (liveQuery sid (chChainID c0)) db) as [chunks|] eqn:Hq; [|done].
  destruct (chainStatuses sid spans chains db) as [l'|]; [|done]. injection Hl as <-.
  apply elem_of_cons in Hin as [->|Hin].
  - unfold chainStatus. destruct (segments chunks) as [segs n] eqn:Hs. simpl. split; [left|].
    exists chunks. by rewrite Hs.
  - destruct (IH l' eq_refl Hin) as [? ?]. split; [by right|done].
Qed.

Lemma loadChains_status sid spans chains db l :
  chainStatuses sid spans chains db = Ok l -> ∃ l', loadChains sid chains db = Ok l' /\
  ∀ c chunks, c ∈ chains -> ListChunks (liveQuery sid (chChainID c)) db = Ok chunks -> (c, filter Live chunks) ∈ l'.
Proof.
  revert l. induction chains as [|c0 chains IH]; cbn [chainStatuses loadChains]; intros l Hl.
  { exists []. split; [done|]. by intros c ? ?%elem_of_nil. }
  fold (liveQuery sid (chChainID c0)).
  destruct (ListChunks (liveQuery sid (chChainID c0)) db) as [chunks|] eqn:Hq; [|done].
  destruct (chainStatuses sid spans chains db) as [l0|]; [|done]. destruct (IH l0 eq_refl) as (l' & -> & Hl').
  eexists. split; [done|]. intros c chunks' [->|Hc]%elem_of_cons Hq'; [|right; by apply Hl'].
  rewrite Hq in Hq'. injection Hq' as <-. left.
Qed.

(** ** Streams are stored under their ID *)

Definition StreamKeys (db : DB) : Prop := ∀ k st, dbStreams db !! k = Some st -> sID st = k.

Lemma updateChunks_streams P g db : dbStreams (updateChunks P g db).1 = dbStreams db.
Proof. done. Qed.

Lemma apply_streams o db : StreamKeys db -> StreamKeys (apply o db).
Proof.
  intros Hk. assert (∀ db', dbStreams db' = dbStreams db -> StreamKeys db') as Hsame.
  { intros db' He k st. rewrite He. apply Hk. }
  destruct o; cbn [apply]; unfold MarkChunkVerified, SetChunkRetainUntil, MarkChunkPruned, SupersedeChunks, SetCollectorStatus,
    SetWindowLow, SetReplicaSetID, updateState, CreateStream, UpdateStream, DeleteStream, StartChain, EndChain, CommitChunk;
    rewrite ?execOne_fst, ?DeleteChunks_fst; try (repeat case_match; simpl; solve [by apply Hsame]).
  all: repeat case_match; simpl; try done;
    (intros k st'; simpl; rewrite ?lookup_insert_Some, ?lookup_delete_Some; naive_solver).
Qed.

Lemma run_streams ops : StreamKeys (run ops emptyDB).
Proof.
  assert (∀ db, StreamKeys db -> StreamKeys (run ops db)) as H; [|by apply H; intros k st; simpl; rewrite lookup_empty].
  induction ops as [|o ops IH]; intros db Hk; [done|]. apply IH, apply_streams, Hk.
Qed.

(** ** Windows keep their promise *)

(** Base [b] of stream [sid] was read forwards, and every live chunk that touches its
    start is a usable one of the chain that covers it. *)
Definition wellPlaced (db : DB) (sid : string) (b : BaseStatus) : Prop :=
  ∃ before after, bbTBefore (bsBase b) = Some before /\ bbTAfter (bsBase b) = Some after /\
    tslt zeroTS (otTS before) /\ tsle (otTS before) (otTS after) /\ cleanStart db sid (bsChainID b) (otTS before).

(** A well-placed base has a plan for every limit in its segment. *)
Lemma base_plan db sid spans sts chains b0 limit :
  Inv db -> chainStatuses sid spans (ListChains sid db) db = Ok sts ->
  loadChains sid (ListChains sid db) db = Ok chains ->
  (∀ k c, dbChunks db !! k = Some c -> TrimSpace (cSHA256 c) <> "") ->
  let b := baseStatus sts b0 in
  bsEligible b = true -> wellPlaced db sid b ->
  ∃ before after, bbTBefore b0 = Some before /\ bbTAfter b0 = Some after /\ tslt zeroTS (otTS before) /\
    (tslt (otTS after) limit -> tsle limit (bsSegmentTo b) ->
     is_ok (planFrom chains (toBase b0 before after) limit) = true /\ tsle (bsSegmentTo b) (newestOf chains)).
Proof.
  intros Hi Hsts Hch Hsha b He Hwp. assert (bsBase b = b0) as Hb0 by (unfold b, baseStatus; by destruct (coveringChain sts b0) as [[]|]).
  destruct Hwp as (before & after & Hbe & Haf & Hz & Hba & Hclean). rewrite Hb0 in *.
  exists before, after. do 3 (split; [done|]). intros Hal Hle.
  unfold b, baseStatus in *. destruct (coveringChain sts b0) as [[id s]|] eqn:Hcov; [|done]. simpl in *.
  destruct (coveringChain_spec _ _ _ _ Hcov) as (c & Hc & <- & Hs & Hcv).
  destruct (chainStatuses_spec _ _ _ _ _ _ Hsts Hc) as (Hin & chunks & Hq & Hsegs). rewrite Hsegs in Hs.
  destruct (segments_spec _ _ Hs) as (p & q & Heq & Hso & Hbr).
  assert (ordered (filter Live chunks)) as Ho by (apply ordered_filter; by eapply live_ordered).
  destruct (loadChains_status _ _ _ _ _ Hsts) as (chains' & Hch' & Hall). rewrite Hch in Hch'. injection Hch' as <-.
  pose proof (Hall _ _ Hin Hq) as Hmem.
  assert (∀ x, x ∈ filter Live chunks -> ∃ k, dbChunks db !! k = Some x /\ cStreamID x = sid /\ Live x = true) as Hrow.
  { intros x [Hl%Is_true_true Hx]%list_elem_of_filter. exists (cID x).
    by destruct (ListChunks_elem _ _ _ _ Hi Hq Hx) as (? & ? & _). }
  rewrite Heq in Ho.
  destruct (segment_plan p s q b0 before after limit) as (from & w & Hst & Hw); try done.
  { apply Forall_forall. intros x Hx. split.
    - destruct (Hrow x) as (k & Hk & _); [rewrite Heq; set_solver|by eapply Hsha].
    - pose proof (so_verified _ Hso) as Hv. rewrite Forall_forall in Hv. by apply Hv. }
  { intros x Hx H1 H2. destruct (Hrow x) as (k & Hk & Hsid & Hl); [rewrite Heq; set_solver|]. by eapply Hclean. }
  split.
  - eapply (planFrom_found chains (csChain c) (filter Live chunks)); [done| |by rewrite Heq|done].
    intros c0 lv0 H0 Hne. destruct (loadChains_Ok _ _ _ _ _ _ Hch H0) as (_ & chunks0 & Hq0 & ->).
    destruct (startAt (otTS before) (filter Live chunks0)) as [from0|] eqn:Hs0; [|by destruct Hne].
    destruct (startAt_Some _ _ _ Hs0) as (pre & x & rest & Hx & -> & Hx1 & Hx2).
    assert (x ∈ filter Live chunks0) as Hxin by (rewrite Hx; set_solver).
    apply list_elem_of_filter in Hxin as [Hl%Is_true_true Hxin].
    destruct (ListChunks_elem _ _ _ _ Hi Hq0 Hxin) as (Hk & Hsid & Hcid). simpl in *.
    destruct (Hclean _ _ Hk Hsid Hl Hx1 Hx2) as [Hid _]. rewrite <- Hcid, Hid in Hq0.
    fold (liveQuery sid (chChainID (csChain c))) in Hq0. congruence.
  - destruct (linked_last _ _ _ (so_linked _ Hso) (so_nonempty _ Hso)) as (x & Hx & <-).
    destruct (last (filter Live chunks)) as [y|] eqn:Hy.
    + apply (tsle_trans _ (cTo y)); [|by eapply newestOf_ge]. apply (ordered_last (filter Live chunks)); [by rewrite Heq|done|].
      rewrite Heq. apply elem_of_app. right. apply elem_of_app. left. by apply last_Some_elem_of.
    + apply last_None in Hy. rewrite Hy in Heq. destruct p, (sgChunks s); done.
Qed.

(** A window is a promise. After any sequence of repository operations, every
    target after the start and up to the end of a window [Status] reports has a restore
    plan, given a key for every mode, checksums on the chunks, and bases read forwards
    whose start only touches usable chunks of the chain that covers them. *)
Theorem window_promise ops now id bases s w target limit hasKey :
  Status now id bases (run ops emptyDB) = Ok s -> w ∈ ssWindows s ->
  Limit target = Ok limit -> tslt (wStart w) limit -> tsle limit (wEnd w) ->
  (∀ mode, hasKey mode = true) ->
  (∀ k c, dbChunks (run ops emptyDB) !! k = Some c -> TrimSpace (cSHA256 c) <> "") ->
  (∀ b, b ∈ ssBases s -> bsEligible b = true -> wellPlaced (run ops emptyDB) id b) ->
  ∃ plan, PlanRestore (Some (ssStream s)) (run ops emptyDB) (pitrBases bases) (Some hasKey) target = Ok plan.
Proof.
  set (db := run ops emptyDB). assert (Inv db) as Hi by apply run_inv, emptyDB_inv.
  unfold Status, GetStream. destruct (dbStreams db !! id) as [st|] eqn:Hst; [|done].
  assert (sID st = id) as Hid by (by apply (run_streams ops)).
  destruct (chainStatuses id (ChainSpans id db) (ListChains id db) db) as [sts|] eqn:Hsts; [|done].
  intros [= <-] Hw Hlim Hlo Hhi Hkey Hsha Hwell. simpl in *.
  destruct (windows_spec _ _ _ Hw) as (b & after & Hb & _ & He & Hto & Haf & Hstart).
  pose proof (Hwell b Hb He) as Hwp. apply list_elem_of_fmap in Hb as (b0 & -> & Hb0).
  apply list_elem_of_filter in Hb0 as [_ Hb0].
  destruct (loadChains_status _ _ _ _ _ Hsts) as (chains & Hch & _).
  destruct (base_plan db id _ sts chains b0 limit Hi Hsts Hch Hsha He Hwp) as (before & after' & Hbe & Haf' & Hz & Hplan).
  assert (bsBase (baseStatus sts b0) = b0) as Eb by (unfold baseStatus; by destruct (coveringChain sts b0) as [[]|]).
  rewrite Eb, Haf' in Haf. injection Haf as ->. rewrite Hstart in Hlo. rewrite <- Hto in Hhi.
  destruct (Hplan Hlo Hhi) as [Hok Hnew].
  unfold PlanRestore. rewrite Hlim, Hid, Hch.
  assert ((Compare limit (newestOf chains) >? 0) = false) as ->.
  { rewrite Z.gtb_ltb. apply Z.ltb_ge, Compare_le. by eapply tsle_trans. }
  assert (toBase b0 before after ∈ filter (eligible limit) (pitrBases bases)) as Hin.
  { apply list_elem_of_filter. split.
    - apply Is_true_true. unfold eligible. simpl. apply andb_true_iff. split; [by apply Z.ltb_lt, Compare_lt|].
      apply negb_true_iff. unfold tsIsZero, tslt in *. simpl in *. lia.
    - apply list_elem_of_omap. exists b0. split; [done|]. unfold pitrBase.
      assert (eligibleBase b0 = true) as Hel.
      { revert He. unfold baseStatus. destruct (coveringChain sts b0) as [[]|]; [done|done]. }
      unfold eligibleBase in Hel. bool_cases. rewrite Hbe, Haf'.
      rewrite bool_decide_true by done. simpl. by destruct (InstanceScope (bbRecord b0)). }
  destruct (filter (eligible limit) (pitrBases bases)) as [|x bs] eqn:Hbs; [by apply elem_of_nil in Hin|].
  assert (is_ok (tryBases id chains (Some hasKey) target limit None (stable_sort newerBase (x :: bs))) = true) as Ht.
  { apply (tryBases_found _ _ _ _ _ _ (toBase b0 before after)); [done| |done]. by apply elem_of_stable_sort. }
  destruct (tryBases _ _ _ _ _ _ _) as [plan|]; [by exists plan|done].
Qed.

(** ** Concrete streams *)

Definition baseRecord (id : string) (started : Z) (status : BackupStatus) : BackupRecord :=
  mkRecord (mkIdent id "" TriggerScheduled "" "conn" ScopeInstance started) status (mkStored "target" "" id "" "" None) "aa"
    (mkOutcome None "" None false) notVerified false false notDeleted [] CopyModeNone.

Definition demoBase (id : string) (started : Z) (before after : Timestamp) : BaseBackup :=
  mkBaseBackup (baseRecord id started StatusCompleted) (Some (mkOpTime before 3)) (Some (mkOpTime after 3)) 1000 true "x25519" "".

(** The status of the stream of [planOps] with a base inside its first chunk. *)
Definition statusDemo (ops : list op) (b : BaseBackup) : result PitrErr StreamStatus :=
  Status (unix_time 1000) "s" [b] (run ops emptyDB).

Definition insideBase : BaseBackup := demoBase "b1" 1 (mkTS 150 0) (mkTS 160 0).

Definition statusWindows (r : result PitrErr StreamStatus) : list Window :=
  match r with Ok s => ssWindows s | Err _ => [] end.

Lemma chunks_forallb (P : Chunk -> bool) db k c :
  forallb P (rows (dbChunks db)) = true -> dbChunks db !! k = Some c -> P c = true.
Proof.
  intros Hall Hk. apply (proj1 (forallb_forall P _) Hall), list_elem_of_In, list_elem_of_fmap.
  exists (k, c). split; [done|]. by apply elem_of_map_to_list.
Qed.

Lemma window_promise_witness :
  statusWindows (statusDemo planOps insideBase) = [mkWindow "c1" true (mkTS 160 0) (mkTS 300 1) 1] /\
  ∃ plan, PlanRestore (Some (setStreamTimes (stored 5) (stored 5) demoStream)) (run planOps emptyDB)
            (pitrBases [insideBase]) (Some (λ _, true)) planTarget = Ok plan.
Proof.
  split; [vm_compute; reflexivity|].
  destruct (statusDemo planOps insideBase) as [s|] eqn:Hs; [|by vm_compute in Hs].
  assert (ssStream s = setStreamTimes (stored 5) (stored 5) demoStream) as <-.
  { vm_compute in Hs. injection Hs as <-. reflexivity. }
  apply (window_promise planOps (unix_time 1000) "s" [insideBase] s (mkWindow "c1" true (mkTS 160 0) (mkTS 300 1) 1)
    planTarget (mkTS 260 0) (λ _, true) Hs).
  - vm_compute in Hs. injection Hs as <-. vm_compute. left.
  - reflexivity.
  - left. reflexivity.
  - left. reflexivity.
  - reflexivity.
  - intros k c Hk. pose proof (chunks_forallb (λ c, negb (isEmpty (TrimSpace (cSHA256 c)))) (run planOps emptyDB) k c ltac:(by vm_compute) Hk) as Hc.
    unfold isEmpty in Hc. by bool_cases.
  - vm_compute in Hs. injection Hs as <-. intros b Hb _. vm_compute in Hb.
    apply list_elem_of_singleton in Hb as ->. eexists _, _. split; [reflexivity|]. split; [reflexivity|].
    split; [left; reflexivity|]. split; [left; reflexivity|].
    intros k c Hk _ _ _ _.
    pose proof (chunks_forallb (λ c, bool_decide (cChainID c = "c1") && bool_decide (cVerifyError c = "")) (run planOps emptyDB) k c ltac:(by vm_compute) Hk) as Hc.
    cbv beta in Hc. bool_cases. by split.
Defined.

(** A chunk that failed verification and ends where the base starts. *)
Definition failedBefore : list op := planOps ++ [OMarkChunkVerified "k1" (unix_time 900) "mismatch"].

(** A chain that stopped where the next one, which covers the base, starts. *)
Definition nextChain : list op :=
  [OCreateStream 5 demoStream; OStartChain "s" "c1" (mkOpTime (mkTS 100 1) 3) 6;
   OCommitChunk 7 (demoChunk "k1" "o1" 100 200); OEndChain "s" "c1" (mkTS 200 1) EndStopped 8;
   OStartChain "s" "c2" (mkOpTime (mkTS 200 1) 3) 9;
   OCommitChunk 10 (mkChunk "k2" "s" "c2" "target" "o2" (mkTS 200 1) (mkTS 300 1) 3 3 10 100 "aa" false "" ChunkCommitted
                      0 None "" None None "" None)].

Definition boundaryBase : BaseBackup := demoBase "b1" 1 (mkTS 200 1) (mkTS 250 0).

(** The promise fails at a chunk boundary. With a base that starts exactly where a
    chunk that failed verification ends, or where a stopped chain ends and the next one
    starts, the status reports a window in which the planner refuses every target: it
    starts from the first chunk that touches the base. *)
Theorem window_boundary_refused :
  statusWindows (statusDemo failedBefore boundaryBase) = [mkWindow "c1" true (mkTS 250 0) (mkTS 300 1) 1] /\
  PlanRestore (Some demoStream) (run failedBefore emptyDB) (pitrBases [boundaryBase]) (Some (λ _, true)) planTarget
    = Err ErrChunkFailed /\
  statusWindows (statusDemo nextChain boundaryBase) = [mkWindow "c2" true (mkTS 250 0) (mkTS 300 1) 1] /\
  PlanRestore (Some demoStream) (run nextChain emptyDB) (pitrBases [boundaryBase]) (Some (λ _, true)) planTarget
    = Err ErrChainBreak.
Proof. repeat split; vm_compute; reflexivity. Qed.
