(* ===== verification/Pins.v ===== *)
(** * Pins of the restores in flight (src/internal/pitr/pins.go)

    A point-in-time restore pins the base, the archive and the chunks it planned;
    retention asks for a snapshot of the pins and leaves what they name. A pin that was
    not refreshed for its maximum age is dropped by the next snapshot. *)

From S2P Require Import Prelude.

Definition DefaultPinMaxAge : Z := hour.

Record ArchiveRef : Type := mkArchiveRef { arTargetID : string; arKey : string }.

#[global] Instance ArchiveRef_eq_dec : EqDecision ArchiveRef.
Proof. solve_decision. Defined.

#[global] Instance ArchiveRef_countable : Countable ArchiveRef.
Proof.
  refine (inj_countable' (λ a, (arTargetID a, arKey a)) (λ p, mkArchiveRef p.1 p.2) _). by intros [].
Defined.

Record PinTarget : Type := mkPinTarget {
  ptBases : list string;
  ptChunks : list string;
  ptArchives : list ArchiveRef
}.

Record pinEntry : Type := mkPinEntry { peOwner : string; peRefreshed : Z; peWhat : PinTarget }.

Record PinSet : Type := mkPinSet {
  psMaxAge : Z;
  psSeq : Z;
  psPins : gmap Z pinEntry
}.

Definition NewPinSet (maxAge : Z) : PinSet := mkPinSet (if maxAge <=? 0 then DefaultPinMaxAge else maxAge) 0 ∅.

(** [PinSet.Pin] at time [now], with the identifier of the pin. *)
Definition Pin (owner : string) (what : PinTarget) (now : Z) (p : PinSet) : PinSet * Z :=
  let seq := u64 (psSeq p + 1) in
  (mkPinSet (psMaxAge p) seq (<[seq := mkPinEntry owner now what]> (psPins p)), seq).

(** [Pin.Release]; releasing again deletes nothing. *)
Definition Release (id : Z) (p : PinSet) : PinSet := mkPinSet (psMaxAge p) (psSeq p) (delete id (psPins p)).

(** [Pin.Refresh]; [false] for a pin that was released or dropped. *)
Definition Refresh (id now : Z) (p : PinSet) : PinSet * bool :=
  match psPins p !! id with
  | None => (p, false)
  | Some e => (mkPinSet (psMaxAge p) (psSeq p) (<[id := mkPinEntry (peOwner e) now (peWhat e)]> (psPins p)), true)
  end.

Record PinSnapshot : Type := mkSnapshot {
  snBases : gset string;
  snChunks : gset string;
  snArchives : gset ArchiveRef;
  snExpired : list (string * Z)
}.

Definition emptySnapshot : PinSnapshot := mkSnapshot ∅ ∅ ∅ [].

Definition pinIdle (now : Z) (e : pinEntry) : Z := time_sub now (peRefreshed e).

(** One turn of the loop over the pins. *)
Definition addPin (maxAge now : Z) (s : PinSnapshot) (e : pinEntry) : PinSnapshot :=
  if pinIdle now e >? maxAge
  then mkSnapshot (snBases s) (snChunks s) (snArchives s) (snExpired s ++ [(peOwner e, pinIdle now e)])
  else mkSnapshot (snBases s ∪ list_to_set (ptBases (peWhat e))) (snChunks s ∪ list_to_set (ptChunks (peWhat e)))
         (snArchives s ∪ list_to_set (ptArchives (peWhat e))) (snExpired s).

(** [PinSet.Snapshot]; the order of the loop only orders [Expired]. *)
Definition Snapshot (now : Z) (p : PinSet) : PinSet * PinSnapshot :=
  (mkPinSet (psMaxAge p) (psSeq p) (filter (λ '(_, e), pinIdle now e <= psMaxAge p) (psPins p)),
   foldl (addPin (psMaxAge p) now) emptySnapshot (map_to_list (psPins p)).*2).

(** [PinSnapshot.Empty], [Base], [Chunk] and [Archive]. *)
Definition snEmpty (s : PinSnapshot) : bool :=
  bool_decide (snBases s = ∅) && bool_decide (snChunks s = ∅) && bool_decide (snArchives s = ∅).
Definition pinsBase (s : PinSnapshot) (id : string) : bool := bool_decide (id ∈ snBases s).
Definition pinsChunk (s : PinSnapshot) (id : string) : bool := bool_decide (id ∈ snChunks s).
Definition pinsArchive (s : PinSnapshot) (targetID key : string) : bool :=
  bool_decide (mkArchiveRef targetID key ∈ snArchives s).

(** ** What a snapshot names *)

(** The snapshot [s] pins everything [what] names. *)
Definition protects (s : PinSnapshot) (what : PinTarget) : Prop :=
  (∀ b, b ∈ ptBases what -> pinsBase s b = true) /\ (∀ c, c ∈ ptChunks what -> pinsChunk s c = true) /\
  (∀ a, a ∈ ptArchives what -> pinsArchive s (arTargetID a) (arKey a) = true).

Lemma addPin_mono maxAge now s e what : protects s what -> protects (addPin maxAge now s e) what.
Proof.
  unfold protects, addPin, pinsBase, pinsChunk, pinsArchive. setoid_rewrite bool_decide_eq_true.
  intros (H1 & H2 & H3). destruct (_ >? maxAge); simpl; set_solver.
Qed.

Lemma addPin_new maxAge now s e : pinIdle now e <= maxAge -> protects (addPin maxAge now s e) (peWhat e).
Proof.
  intros Hi. unfold protects, addPin, pinsBase, pinsChunk, pinsArchive. setoid_rewrite bool_decide_eq_true.
  destruct (pinIdle now e >? maxAge) eqn:E; [rewrite Z.gtb_ltb in E; bool_cases; lia|]. simpl.
  split_and!; intros x Hx; [set_solver..|]. destruct x. set_solver.
Qed.

Lemma foldl_addPin maxAge now l e : ∀ s,
  e ∈ l -> pinIdle now e <= maxAge -> protects (foldl (addPin maxAge now) s l) (peWhat e).
Proof.
  induction l as [|e' l IH]; intros s Hin Hi; [by apply elem_of_nil in Hin|]. simpl.
  apply elem_of_cons in Hin as [->|Hin]; [|by apply IH].
  assert (∀ l s, protects s (peWhat e') -> protects (foldl (addPin maxAge now) s l) (peWhat e')) as Hf.
  { clear. induction l as [|x l IH]; intros s Hs; [done|]. apply IH, addPin_mono, Hs. }
  apply Hf, addPin_new, Hi.
Qed.

Lemma snapshot_protects now p id e :
  psPins p !! id = Some e -> pinIdle now e <= psMaxAge p -> protects (Snapshot now p).2 (peWhat e).
Proof.
  intros Hid Hi. apply foldl_addPin; [|done]. apply list_elem_of_fmap. exists (id, e). split; [done|].
  by apply elem_of_map_to_list.
Qed.

(** ** Pins over time *)

Inductive pinOp : Type :=
| OPin (owner : string) (what : PinTarget) (now : Z)
| ORelease (id : Z)
| ORefresh (id now : Z)
| OSnapshot (now : Z).

Definition pinStep (o : pinOp) (p : PinSet) : PinSet :=
  match o with
  | OPin owner what now => (Pin owner what now p).1
  | ORelease id => Release id p
  | ORefresh id now => (Refresh id now p).1
  | OSnapshot now => (Snapshot now p).1
  end.

Definition pinRun (ops : list pinOp) (p : PinSet) : PinSet := foldl (λ p o, pinStep o p) p ops.

(** [kept id maxAge t ops t']: [ops] do not release pin [id], last refreshed at [t], and
    take no snapshot later than its maximum age after its last refresh, which is [t'] at
    their end. *)
Inductive kept (id maxAge : Z) : Z -> list pinOp -> Z -> Prop :=
| kept_nil t : kept id maxAge t [] t
| kept_pin t t' owner what now ops : kept id maxAge t ops t' -> kept id maxAge t (OPin owner what now :: ops) t'
| kept_release t t' id' ops : id' <> id -> kept id maxAge t ops t' -> kept id maxAge t (ORelease id' :: ops) t'
| kept_other t t' id' now ops : id' <> id -> kept id maxAge t ops t' -> kept id maxAge t (ORefresh id' now :: ops) t'
| kept_refresh t t' now ops : kept id maxAge now ops t' -> kept id maxAge t (ORefresh id now :: ops) t'
| kept_snapshot t t' now ops :
    time_sub now t <= maxAge -> kept id maxAge t ops t' -> kept id maxAge t (OSnapshot now :: ops) t'.

(** Pin [id] is held for [what], last refreshed at [t]. *)
Definition held (id : Z) (what : PinTarget) (t : Z) (p : PinSet) : Prop :=
  ∃ e, psPins p !! id = Some e /\ peRefreshed e = t /\ peWhat e = what.

Lemma kept_run id maxAge what t ops t' : kept id maxAge t ops t' -> ∀ p,
  psMaxAge p = maxAge -> held id what t p -> 0 < id <= psSeq p -> psSeq p + Z.of_nat (length ops) < 2 ^ 64 ->
  psMaxAge (pinRun ops p) = maxAge /\ held id what t' (pinRun ops p).
Proof.
  induction 1 as [t|t t' owner w now ops Hk IH|t t' id' ops Hne Hk IH|t t' id' now ops Hne Hk IH|t t' now ops Hk IH|t t' now ops Hle Hk IH];
    intros p Hm (e & He & Ht & Hw) Hid Hseq; [by split; [|exists e]|..]; cbn [length] in Hseq; simpl; apply IH; try done; simpl; try lia.
  - exists e. split; [|done]. simpl. rewrite u64_small by lia. by rewrite lookup_insert_ne by lia.
  - rewrite u64_small by lia. lia.
  - rewrite u64_small by lia. lia.
  - exists e. split; [|done]. simpl. by rewrite lookup_delete_ne.
  - unfold Refresh. by destruct (psPins p !! id').
  - exists e. split; [|done]. unfold Refresh. destruct (psPins p !! id'); simpl; [by rewrite lookup_insert_ne|done].
  - unfold Refresh. by destruct (psPins p !! id').
  - unfold Refresh. destruct (psPins p !! id'); simpl; lia.
  - unfold Refresh. by rewrite He.
  - unfold Refresh. rewrite He. simpl. eexists. split; [apply lookup_insert_eq|done].
  - unfold Refresh. by rewrite He.
  - unfold Refresh. rewrite He. simpl. lia.
  - exists e. split; [|done]. simpl. apply map_lookup_filter_Some. split; [done|]. unfold pinIdle. by rewrite Ht, Hm.
Qed.

(** A pin protects until it is released. Whatever other pins are taken, refreshed
    and released and whatever snapshots are taken meanwhile, a snapshot names
    everything a pin names, as long as the pin was not released and no snapshot came
    later than its maximum age after its last refresh. *)
Theorem pin_protects p owner what t0 ops t now :
  let '(p', id) := Pin owner what t0 p in
  kept id (psMaxAge p) t0 ops t -> 0 <= psSeq p -> psSeq p + 1 + Z.of_nat (length ops) < 2 ^ 64 ->
  time_sub now t <= psMaxAge p ->
  protects (Snapshot now (pinRun ops p')).2 what.
Proof.
  unfold Pin. simpl. intros Hk Hs Hseq Hnow. rewrite u64_small in * by lia.
  destruct (kept_run _ _ what _ _ _ Hk (mkPinSet (psMaxAge p) (psSeq p + 1)
    (<[psSeq p + 1 := mkPinEntry owner t0 what]> (psPins p)))) as (Hm & e & He & Ht & <-); simpl; try done; try lia.
  { eexists. split; [apply lookup_insert_eq|done]. }
  eapply snapshot_protects; [exact He|]. unfold pinIdle. by rewrite Ht, Hm.
Qed.

Definition demoPins : PinSet := NewPinSet 0.
Definition demoWhat : PinTarget := mkPinTarget ["b1"] ["k1"; "k2"] [mkArchiveRef "t" "a"].
Definition demoPinOps : list pinOp :=
  [OPin "other" (mkPinTarget ["b2"] [] []) 10; OSnapshot (30 * minute); ORefresh 1 (50 * minute); ORelease 2;
   OSnapshot (100 * minute)].

Lemma pin_protects_witness : protects (Snapshot (105 * minute) (pinRun demoPinOps (Pin "restore" demoWhat 0 demoPins).1)).2 demoWhat.
Proof.
  apply (pin_protects demoPins "restore" demoWhat 0 demoPinOps (50 * minute) (105 * minute));
    try (vm_compute; congruence).
  apply kept_pin, kept_snapshot; [vm_compute; congruence|]. apply kept_refresh, kept_release; [done|].
  apply kept_snapshot; [vm_compute; congruence|]. apply kept_nil.
Defined.
