(* ===== verification/PitrRetention.v ===== *)
(** * Retention of bases and oplog chunks (src/internal/pitr/collector/retention.go)

    What the retention of a stream deletes, the run that applies it over the repository
    of PitrStore, the purge of deleted chunks and the sweep of orphan objects. *)

From S2P Require Import Prelude Pitr PitrStore PitrChain PitrPlan Backup Segments Pins.

Definition RetentionActor : string := "pitr-retention".
Definition purgeBatch : Z := 1000.

(** What retention deletes of one stream. *)
Record ChunkPlan : Type := mkChunkPlan { DeleteBases : list string; DeleteChunkIDs : list string }.

(** The chains with all their chunks, in order: [chains] and [chunks] of the code. *)
Notation Chains := (list (Chain * list Chunk)).

(** The first chain one of whose segments covers [b], the empty string for none. *)
Fixpoint chainOf (chains : Chains) (b : BaseBackup) : string :=
  match chains with
  | [] => ""
  | (c, chunks) :: rest =>
      match coveringSegment (segments chunks).1 b with
      | Some _ => chChainID c
      | None => chainOf rest b
      end
  end.

Definition completedBase (b : BaseBackup) : bool :=
  bool_decide (rStatus (bbRecord b) = StatusCompleted) && InstanceScope (bbRecord b).

Definition newerStart (a b : BaseBackup) : bool := bbStartedAt a >? bbStartedAt b.

Definition completedBases (bases : list BaseBackup) : list BaseBackup :=
  stable_sort newerStart (filter completedBase bases).

Definition newestEligible (chains : Chains) (completed : list BaseBackup) : string :=
  match head (filter (λ b, eligibleBase b && negb (bool_decide (chainOf chains b = ""))) completed) with
  | Some b => bbID b
  | None => ""
  end.

(** Whether the [i]-th newest base [b] is kept. *)
Definition keepBase (now : Z) (st : Stream) (pins : PinSnapshot) (newest : string) (i : nat) (b : BaseBackup) : bool :=
  (Z.of_nat i <? sBaseKeepCount st) || rPinned (bbRecord b) || pinsBase pins (bbID b) || bool_decide (bbID b = newest)
  || ((sBaseKeepDays st >? 0) && (time_sub now (bbStartedAt b) <? i64 (sBaseKeepDays st * day))).

(** The loop over the completed bases: those to delete, and for each chain the oldest
    T_before of its kept eligible bases. *)
Fixpoint baseLoop (now : Z) (st : Stream) (pins : PinSnapshot) (chains : Chains) (newest : string) (i : nat)
    (completed : list BaseBackup) (keptBefore : gmap string Timestamp) : list string * gmap string Timestamp :=
  match completed with
  | [] => ([], keptBefore)
  | b :: rest =>
      if negb (keepBase now st pins newest i b) then
        let '(del, kb) := baseLoop now st pins chains newest (S i) rest keptBefore in (bbID b :: del, kb)
      else
        let kb :=
          match bbTBefore b with
          | Some before =>
              if negb (bool_decide (chainOf chains b = "")) && eligibleBase b then
                match keptBefore !! chainOf chains b with
                | Some cur => if Compare (otTS before) cur <? 0 then <[chainOf chains b := otTS before]> keptBefore else keptBefore
                | None => <[chainOf chains b := otTS before]> keptBefore
                end
              else keptBefore
          | None => keptBefore
          end in
        baseLoop now st pins chains newest (S i) rest kb
  end.

(** The oplog position [OplogMaxDays] before [now]; zero for no limit. *)
Definition maxAgeTS (now : Z) (st : Stream) : Timestamp :=
  if sOplogMaxDays st >? 0 then mkTS (u32 (time_unix (now + i64 (- sOplogMaxDays st * day)))) 0 else zeroTS.

Definition deleteChunk (pins : PinSnapshot) (cutoff : option Timestamp) (maxAge : Timestamp) (c : Chain) (ch : Chunk) : bool :=
  if negb (bool_decide (cDeletedAt ch = None)) || bool_decide (cStatus ch = ChunkPruned) || pinsChunk pins (cID ch) then false
  else bool_decide (cStatus ch = ChunkSuperseded)
       || (match cutoff with Some t => Compare (cTo ch) t <? 0 | None => false end)
       || (match cutoff with None => negb (chainOpen c) | Some _ => false end)
       || (negb (tsIsZero maxAge) && (Compare (cTo ch) maxAge <? 0)).

Definition planRetention (now : Z) (st : Stream) (bases : list BaseBackup) (chains : Chains) (pins : PinSnapshot) : ChunkPlan :=
  let completed := completedBases bases in
  let '(del, kb) := baseLoop now st pins chains (newestEligible chains completed) 0 completed ∅ in
  mkChunkPlan del
    (chains ≫= λ '(c, chunks),
       cID <$> filter (deleteChunk pins (kb !! chChainID c) (maxAgeTS now st) c) chunks).

(** The exported [PlanRetention]: without pins. *)
Definition PlanRetention (now : Z) (st : Stream) (bases : list BaseBackup) (chains : Chains) : ChunkPlan :=
  planRetention now st bases chains emptySnapshot.

(** ** Purging deleted chunks *)

(** What [storage.Purge] reports of an object: removed or still locked until a time, not
    found, or a failure (also of the lock and of the target). *)
Inductive PurgeResult : Type := PurgeDone (until : option Z) | PurgeNotFound | PurgeFailed.

(** [purgeChunk]; [false] for an error. *)
Definition purgeChunk (r : PurgeResult) (c : Chunk) (db : DB) : DB * bool :=
  match r with
  | PurgeFailed => (db, false)
  | PurgeDone (Some until) =>
      let '(db, e) := SetChunkRetainUntil (cID c) until db in (db, is_ok e)
  | _ => let '(db, e) := MarkChunkPruned (cID c) db in (db, is_ok e || bool_decide (e = Err ErrNotFound))
  end.

(** [purgeChunks]: the chunks skipped for a pin and whether every other one was handled. *)
Fixpoint purgeLoop (purge : Chunk -> PurgeResult) (pins : PinSnapshot) (due : list Chunk) (db : DB) : DB * Z * bool :=
  match due with
  | [] => (db, 0, true)
  | c :: rest =>
      if pinsChunk pins (cID c) then
        let '(db, skipped, ok) := purgeLoop purge pins rest db in (db, skipped + 1, ok)
      else
        let '(db, ok1) := purgeChunk (purge c) c db in
        let '(db, skipped, ok) := purgeLoop purge pins rest db in (db, skipped, ok1 && ok)
  end.

Definition purgeChunks (purge : Chunk -> PurgeResult) (streamID : string) (now : Z) (pins : PinSnapshot) (db : DB) : DB * Z * bool :=
  purgeLoop purge pins (ListPurgeableChunks streamID now purgeBatch db) db.

(** ** The run *)

(** The base records of the stream, by ID. *)
Notation Bases := (gmap string BaseBackup).

Definition withRecord (r : BackupRecord) (b : BaseBackup) : BaseBackup :=
  mkBaseBackup r (bbTBefore b) (bbTAfter b) (bbSizeBytes b) (bbEncrypted b) (bbEncryptionMode b) (bbCancelledBy b).

(** The order of [ListBaseBackups]. *)
Definition listBases (bs : Bases) : list BaseBackup :=
  selectBy (λ _, true) (λ a b, cmpThen (Z.compare (bbStartedAt b) (bbStartedAt a)) (strCmp (bbID b) (bbID a))) bs.

(** [UpdateBase] with the retention's callback; [pinned] is a fresh look at the pins.
    [None] for a record that is gone. *)
Definition deleteBase (now purgeAfter : Z) (stream : string) (pinned : bool) (id : string) (bs : Bases) : option Bases :=
  match bs !! id with
  | None => None
  | Some b =>
      let r := bbRecord b in
      if rPinned r || negb (bool_decide (rStatus r = StatusCompleted)) || pinned then Some bs
      else Some (<[id := withRecord (MarkDeleted (mkSoftDelete now purgeAfter RetentionActor ""
                                       ("PITR base retention of stream " +:+ stream)) r) b]> bs)
  end.

Fixpoint deleteBasesLoop (now purgeAfter : Z) (stream : string) (pinned : string -> bool) (ids : list string) (bs : Bases) : Bases * bool :=
  match ids with
  | [] => (bs, true)
  | id :: rest =>
      match deleteBase now purgeAfter stream (pinned id) id bs with
      | None => (bs, false)
      | Some bs => deleteBasesLoop now purgeAfter stream pinned rest bs
      end
  end.

Fixpoint loadAll (streamID : string) (chains : list Chain) (db : DB) : result PitrErr Chains :=
  match chains with
  | [] => Ok []
  | c :: rest =>
      match ListChunks (allChunks streamID (chChainID c)) db with
      | Err e => Err e
      | Ok chunks =>
          match loadAll streamID rest db with
          | Err e => Err e
          | Ok l => Ok ((c, chunks) :: l)
          end
      end
  end.

(** What one run sees of the rest of the system: the clock, the grace period, the pins
    when it starts, a later look at the pins of a base, and the storage. *)
Record RetainEnv : Type := mkRetainEnv {
  reNow : Z;
  reGrace : Z;
  rePins : PinSnapshot;
  rePinned : string -> bool;
  rePurge : Chunk -> PurgeResult
}.

(** [RetainStream]: the tables and the base records after it, and whether it ended
    without an error. Between the snapshot and the update of a base only a pin of a restore
    is taken into account ([rePinned]); no other request changes the records meanwhile. *)
Definition RetainStream (env : RetainEnv) (id : string) (db : DB) (bs : Bases) : DB * Bases * bool :=
  match GetStream id db with
  | Err _ => (db, bs, false)
  | Ok st =>
      let '(db, _, ok) := purgeChunks (rePurge env) id (reNow env) (rePins env) db in
      if negb ok then (db, bs, false)
      else match loadAll id (ListChains id db) db with
      | Err _ => (db, bs, false)
      | Ok chains =>
          let plan := planRetention (reNow env) st (listBases bs) chains (rePins env) in
          let purgeAfter := reNow env + reGrace env in
          let '(bs, ok) := deleteBasesLoop (reNow env) purgeAfter id (rePinned env) (DeleteBases plan) bs in
          if negb ok then (db, bs, false)
          else (match DeleteChunkIDs plan with
                | [] => db
                | ids => (DeleteChunks ids (reNow env) purgeAfter db).1
                end, bs, true)
      end
  end.

(** ** Orphan objects *)

Definition OrphanAge : Z := hour.

(** A listed object: its key and modification time. *)
Record StoredObject : Type := mkStoredObject { obKey : string; obModTime : Z }.

(** The keys [sweepOrphans] hands to [purgeOrphan]. *)
Definition orphans (prefix : string) (now grace : Z) (keys : gset string) (objects : list StoredObject) : list string :=
  let cutoff := now + i64 (- (OrphanAge + grace)) in
  obKey <$> filter (λ o, ¬ (obKey o ∈ keys \/ String.prefix prefix (obKey o) = false \/ IsZero (obModTime o) = true
                            \/ obModTime o > cutoff)) objects.

(** [purgeOrphan] removes the object only when, under its lock, no row names it. *)
Definition purgesOrphan (keysNow : gset string) (key : string) : bool := negb (bool_decide (key ∈ keysNow)).

(** ** Deleted chunks leave the live ones in place *)

Lemma liveQuery_matches s c x :
  chunkMatches (liveQuery s c) x = bool_decide (cStreamID x = s) && bool_decide (cChainID x = c) && Live x.
Proof.
  unfold chunkMatches, Live. simpl. rewrite !andb_true_r, <- andb_assoc. f_equal.
  by destruct (cStatus x), (bool_decide (cDeletedAt x = None)).
Qed.

(** An update that ends the life of the rows it selects removes them from the live ones
    and changes nothing else there. *)
Lemma live_update P0 g db s c l :
  (∀ k x, dbChunks db !! k = Some x -> P0 x = true -> Live (g x) = false) ->
  ListChunks (liveQuery s c) db = Ok l ->
  ListChunks (liveQuery s c) (updateChunks P0 g db).1 = Ok (filter (λ x, P0 x = false) l).
Proof.
  intros Hg. unfold ListChunks. cbn [qStreamID qChainID liveQuery]. destruct (_ || _); [done|]. intros [= <-]. f_equal.
  unfold selectBy. rewrite (cmp_sort_filter chunkCmp). f_equal. cbn [updateChunks updateWhere withChunks dbChunks fst].
  unfold rows. rewrite map_to_list_fmap.
  assert (∀ k x, (k, x) ∈ map_to_list (dbChunks db) -> P0 x = true -> Live (g x) = false) as Hg'.
  { intros k x Hx%elem_of_map_to_list. by apply (Hg k). }
  clear Hg. induction (map_to_list (dbChunks db)) as [|[k x] m IH]; [done|]. cbn [fmap list_fmap prod_map fst snd].
  rewrite !(filter_cons (chunkMatches (liveQuery s c))), IH by (intros k' x' ?; apply (Hg' k'); by right).
  destruct (P0 x) eqn:HP.
  - specialize (Hg' k x ltac:(left) HP). rewrite decide_False.
    2: { rewrite liveQuery_matches, Hg', andb_false_r. by intros []. }
    destruct (decide (chunkMatches (liveQuery s c) x)); [|done]. rewrite filter_cons, decide_False by congruence. done.
  - destruct (decide (chunkMatches (liveQuery s c) x)); [|done]. by rewrite filter_cons, decide_True by done.
Qed.

(** Two tables with the same chains and the same live chunks. *)
Definition liveSame (db db' : DB) : Prop :=
  dbChains db' = dbChains db /\ ∀ s c, ListChunks (liveQuery s c) db' = ListChunks (liveQuery s c) db.

Lemma liveSame_update P0 g db :
  Inv db -> keepsSpan g ->
  (∀ k x, dbChunks db !! k = Some x -> P0 x = true -> Live x = false /\ Live (g x) = false) ->
  Inv (updateChunks P0 g db).1 /\ liveSame db (updateChunks P0 g db).1.
Proof.
  intros Hi Hg HP. split; [by apply updateChunks_inv|]. split; [done|]. intros s c.
  destruct (ListChunks (liveQuery s c) db) as [l|e] eqn:Hl.
  - rewrite (live_update P0 g db s c l); [|intros k x Hx Hp; by apply (HP k x)|done]. f_equal. apply filter_all.
    intros x Hx. destruct (P0 x) eqn:E; [|done].
    destruct (live_chunks _ _ _ _ Hl) as (all & Hall & ->). apply list_elem_of_filter in Hx as [Hlive%Is_true_true Hx].
    destruct (ListChunks_elem _ _ _ _ Hi Hall Hx) as (Hk & _). destruct (HP _ _ Hk E). congruence.
  - unfold ListChunks in *. cbn [qStreamID qChainID liveQuery] in *. by destruct (_ || _).
Qed.

(** A due chunk is dead, and stays dead while the others are purged. *)
Definition dead (due : list Chunk) (db : DB) : Prop :=
  ∀ c k x, c ∈ due -> dbChunks db !! k = Some x -> cID x = cID c -> Live x = false.

Lemma dead_update due P0 g db :
  (∀ x, cID (g x) = cID x) -> (∀ x, Live x = false -> Live (g x) = false) -> dead due db -> dead due (updateChunks P0 g db).1.
Proof.
  intros Hid Hl Hd c k x Hc Hx Hcx. apply (lookup_update P0 g) in Hx as (x0 & Hx0 & ->).
  destruct (P0 x0); [|by eapply Hd]. rewrite Hid in Hcx. apply Hl. by eapply Hd.
Qed.

Lemma purgeChunk_live due r c db :
  Inv db -> dead due db -> c ∈ due ->
  Inv (purgeChunk r c db).1 /\ dead due (purgeChunk r c db).1 /\ liveSame db (purgeChunk r c db).1.
Proof.
  intros Hi Hd Hc.
  assert (∀ P0 g, keepsSpan g -> (∀ x, cID (g x) = cID x) -> (∀ x, Live x = false -> Live (g x) = false) ->
            (∀ x, P0 x = true -> cID x = cID c) ->
            Inv (updateChunks P0 g db).1 /\ dead due (updateChunks P0 g db).1 /\ liveSame db (updateChunks P0 g db).1) as Hu.
  { intros P0 g Hg Hid Hl HP. destruct (liveSame_update P0 g db Hi Hg) as [? ?].
    - intros k x Hx E. assert (Live x = false) as Hx' by (eapply Hd; [done..|by apply HP]). by split; [|apply Hl].
    - split; [done|]. split; [by apply dead_update|done]. }
  unfold purgeChunk. destruct r as [[until|]| |]; [..|by split_and!; [done|done|split]];
    unfold SetChunkRetainUntil, MarkChunkPruned.
  all: destruct (execOne _) as [db' e] eqn:E; rewrite (surjective_pairing (execOne _)), execOne_fst in E; injection E as <- _;
    simpl; apply Hu; try done; intros x Hx; by bool_cases.
Qed.

Lemma liveSame_trans db1 db2 db3 : liveSame db1 db2 -> liveSame db2 db3 -> liveSame db1 db3.
Proof. intros [E1 H1] [E2 H2]. split; [congruence|]. intros s c. by rewrite H2. Qed.

Lemma purgeLoop_live purge pins due0 due : ∀ db,
  Inv db -> dead due0 db -> due ⊆ due0 ->
  Inv (purgeLoop purge pins due db).1.1 /\ liveSame db (purgeLoop purge pins due db).1.1.
Proof.
  induction due as [|c due IH]; intros db Hi Hd Hsub; [by split; [|split]|]. cbn [purgeLoop].
  destruct (pinsChunk pins (cID c)).
  - destruct (IH db Hi Hd) as [H1 H2]; [set_solver|]. by destruct (purgeLoop purge pins due db) as [[db' n] ok].
  - destruct (purgeChunk_live due0 (purge c) c db Hi Hd) as (Hi1 & Hd1 & Hs1); [set_solver|].
    destruct (purgeChunk (purge c) c db) as [db1 ok1]. simpl in *.
    destruct (IH db1 Hi1 Hd1) as [H1 H2]; [set_solver|].
    destruct (purgeLoop purge pins due db1) as [[db' n] ok]. simpl in *. split; [done|]. by eapply liveSame_trans.
Qed.

Lemma purgeChunks_live purge s now pins db :
  Inv db -> PurgeInv db ->
  Inv (purgeChunks purge s now pins db).1.1 /\ liveSame db (purgeChunks purge s now pins db).1.1.
Proof.
  intros Hi Hp. eapply purgeLoop_live; [done| |done]. intros c k x Hc Hx Hid.
  destruct (purgeable_row _ _ _ _ _ Hp Hc) as (k' & p & d & Hk & _ & _ & Hd & _).
  destruct (inv_chunk _ Hi _ _ Hx) as [Hx1 _]. destruct (inv_chunk _ Hi _ _ Hk) as [Hk1 _].
  assert (x = c) as -> by congruence. unfold Live. rewrite Hd. apply andb_false_r.
Qed.

(** ** What the plan keeps *)

Lemma segLoop_filter l : ∀ cur, segLoop cur l = segLoop cur (filter Live l).
Proof.
  induction l as [|c l IH]; intros cur; [done|]. rewrite filter_live_cons. cbn [segLoop].
  destruct (Live c) eqn:Hl; simpl; [|apply IH]. rewrite Hl. simpl.
  destruct (isEmpty (cVerifyError c)); simpl; [destruct cur as [s|]; [case_bool_decide|]|]; by rewrite IH.
Qed.

Lemma segments_filter l : segments l = segments (filter Live l).
Proof. apply segLoop_filter. Qed.

Lemma baseLoop_mono now st pins chains newest completed ch t : ∀ i kb,
  kb !! ch = Some t -> ∃ t', (baseLoop now st pins chains newest i completed kb).2 !! ch = Some t' /\ tsle t' t.
Proof.
  revert t. induction completed as [|b l IH]; intros t i kb Hk; cbn [baseLoop]; [exists t; split; [done|apply tsle_refl]|].
  destruct (keepBase now st pins newest i b); simpl.
  2: { destruct (IH t (S i) kb Hk) as (t' & ? & ?).
       destruct (baseLoop now st pins chains newest (S i) l kb) as [del kb']. by exists t'. }
  destruct (bbTBefore b) as [before|]; [|by apply IH]. destruct (_ && eligibleBase b); [|by apply IH].
  destruct (decide (chainOf chains b = ch)) as [<-|Hne].
  - rewrite Hk. destruct (Compare (otTS before) t <? 0) eqn:E; [|by apply IH]. compare_cases.
    destruct (IH (otTS before) (S i) (<[chainOf chains b:=otTS before]> kb)) as (t' & ? & ?); [apply lookup_insert_eq|].
    exists t'. split; [done|]. unfold tsle, tslt in *. lia.
  - apply IH. destruct (kb !! chainOf chains b); [case_match|]; by rewrite ?lookup_insert_ne.
Qed.

(** A kept eligible base bounds the cutoff of its chain. *)
Lemma baseLoop_kept now st pins chains newest completed b before : ∀ i kb,
  b ∈ completed -> bbID b ∉ (baseLoop now st pins chains newest i completed kb).1 ->
  bbTBefore b = Some before -> eligibleBase b = true -> chainOf chains b <> "" ->
  ∃ t, (baseLoop now st pins chains newest i completed kb).2 !! chainOf chains b = Some t /\ tsle t (otTS before).
Proof.
  induction completed as [|b0 l IH]; intros i kb Hin Hdel Hbe He Hc; [by apply elem_of_nil in Hin|]. cbn [baseLoop] in *.
  destruct (keepBase now st pins newest i b0) eqn:Hk; simpl in *.
  2: { destruct (baseLoop now st pins chains newest (S i) l kb) as [del kb'] eqn:E. simpl in *.
       apply elem_of_cons in Hin as [->|Hin]; [set_solver|].
       pose proof (IH (S i) kb Hin) as IH'. rewrite E in IH'. apply IH'; [set_solver|done..]. }
  apply elem_of_cons in Hin as [<-|Hin]; [|by apply IH].
  rewrite Hbe, He, (bool_decide_false _ Hc). simpl.
  assert (∀ kb t, kb !! chainOf chains b = Some t -> tsle t (otTS before) ->
    ∃ t', (baseLoop now st pins chains newest (S i) l kb).2 !! chainOf chains b = Some t' /\ tsle t' (otTS before)) as Hm.
  { intros kb' t Ht Hle. destruct (baseLoop_mono now st pins chains newest l _ _ (S i) kb' Ht) as (t' & ? & ?).
    exists t'. split; [done|by eapply tsle_trans]. }
  destruct (kb !! chainOf chains b) as [cur|] eqn:Hcur; [|eapply Hm; [apply lookup_insert_eq|apply tsle_refl]].
  destruct (Compare (otTS before) cur <? 0) eqn:E; [eapply Hm; [apply lookup_insert_eq|apply tsle_refl]|].
  compare_cases. by eapply Hm.
Qed.

(** A base the plan deletes was not kept for any reason. *)
Lemma baseLoop_deleted now st pins chains newest completed id : ∀ i kb,
  id ∈ (baseLoop now st pins chains newest i completed kb).1 ->
  ∃ j b, b ∈ completed /\ bbID b = id /\ keepBase now st pins newest j b = false.
Proof.
  induction completed as [|b0 l IH]; intros i kb Hin; cbn [baseLoop] in *; [by apply elem_of_nil in Hin|].
  assert (∀ kb, id ∈ (baseLoop now st pins chains newest (S i) l kb).1 ->
    ∃ j b, b ∈ b0 :: l /\ bbID b = id /\ keepBase now st pins newest j b = false) as IH'.
  { intros kb' H. destruct (IH _ _ H) as (j & b & ? & ? & ?). exists j, b. split; [by right|done]. }
  destruct (keepBase now st pins newest i b0) eqn:Hk; simpl in *; [by eapply IH'|].
  destruct (baseLoop now st pins chains newest (S i) l kb) as [del kb'] eqn:E. simpl in *.
  apply elem_of_cons in Hin as [->|Hin]; [exists i, b0; split; [left|done]|]. apply (IH' kb). by rewrite E.
Qed.

Lemma loadAll_elem sid chains db l c chunks :
  loadAll sid chains db = Ok l -> (c, chunks) ∈ l ->
  c ∈ chains /\ ListChunks (allChunks sid (chChainID c)) db = Ok chunks.
Proof.
  revert l. induction chains as [|c0 chains IH]; cbn [loadAll]; intros l Hl Hin.
  { injection Hl as <-. by apply elem_of_nil in Hin. }
  destruct (ListChunks (allChunks sid (chChainID c0)) db) as [ch0|] eqn:Hq; [|done].
  destruct (loadAll sid chains db) as [l'|]; [|done]. injection Hl as <-.
  apply elem_of_cons in Hin as [[= -> ->]|Hin]; [split; [left|done]|].
  destruct (IH l' eq_refl Hin) as [? ?]. split; [by right|done].
Qed.

(** The chain retention finds for a base is the one its status shows. *)
Lemma chainOf_status sid spans chains db db' sts l b :
  chainStatuses sid spans chains db = Ok sts -> loadAll sid chains db' = Ok l -> liveSame db db' ->
  chainOf l b = match coveringChain sts b with Some (id, _) => id | None => "" end.
Proof.
  intros Hs Hl [_ Hlive]. revert sts l Hs Hl. induction chains as [|c chains IH]; cbn [chainStatuses loadAll]; intros sts l Hs Hl.
  { by injection Hs as <-; injection Hl as <-. }
  destruct (ListChunks (liveQuery sid (chChainID c)) db) as [lv|] eqn:Hq; [|done].
  destruct (chainStatuses sid spans chains db) as [sts'|]; [|done]. injection Hs as <-.
  destruct (ListChunks (allChunks sid (chChainID c)) db') as [all|] eqn:Ha; [|done].
  destruct (loadAll sid chains db') as [l'|]; [|done]. injection Hl as <-.
  rewrite <- Hlive in Hq. destruct (live_chunks _ _ _ _ Hq) as (all' & Hall & ->).
  rewrite Ha in Hall. injection Hall as <-. cbn [chainOf coveringChain].
  unfold chainStatus. rewrite <- segments_filter. destruct (segments all) as [segs n]. simpl.
  destruct (coveringSegment segs b); [done|]. by apply IH.
Qed.

(** Chunks from the start of a kept base on are not deleted. *)
Lemma plan_keeps_chunks now st bases chains pins sid db b before c x :
  Inv db -> loadAll sid (ListChains sid db) db = Ok chains -> sOplogMaxDays st <= 0 ->
  b ∈ bases -> eligibleBase b = true -> bbTBefore b = Some before -> chainOf chains b = chChainID c -> chChainID c <> "" ->
  bbID b ∉ DeleteBases (planRetention now st bases chains pins) ->
  dbChunks db !! cID x = Some x -> Live x = true -> cChainID x = chChainID c -> tsle (otTS before) (cTo x) ->
  cID x ∉ DeleteChunkIDs (planRetention now st bases chains pins).
Proof.
  intros Hi Hl Hmax Hb He Hbe Hc Hne Hdel Hx Hlive Hcx Hto. unfold planRetention in *.
  destruct (baseLoop _ _ _ _ _ _ _ _) as [del kb] eqn:E. simpl in *.
  destruct (baseLoop_kept now st pins chains (newestEligible chains (completedBases bases)) (completedBases bases) b before 0 ∅)
    as (t & Ht & Hle); [|by rewrite E|done..|congruence|].
  { apply elem_of_stable_sort, list_elem_of_filter. split; [|done]. apply Is_true_true.
    unfold eligibleBase in He. unfold completedBase. bool_cases.
    by rewrite bool_decide_true by done. }
  rewrite E, Hc in Ht. simpl in Ht. intros ([c' chunks] & Hin & Hc')%list_elem_of_bind.
  apply list_elem_of_fmap in Hin as (y & Hy & Hin). apply list_elem_of_filter in Hin as [Hd%Is_true_true Hin].
  destruct (loadAll_elem _ _ _ _ _ _ Hl Hc') as [_ Hq]. destruct (ListChunks_elem _ _ _ _ Hi Hq Hin) as (Hky & _ & Hcy).
  simpl in Hcy. assert (y = x) as -> by congruence. rewrite <- Hcy, Hcx, Ht in Hd.
  unfold deleteChunk, maxAgeTS in Hd. destruct (_ || _); [done|].
  unfold Live in Hlive. bool_cases. rewrite (bool_decide_false (cStatus x = ChunkSuperseded)) in Hd by congruence.
  assert ((Compare (cTo x) t <? 0) = false) as Hcmp.
  { apply Z.ltb_ge, Compare_ge. by eapply tsle_trans. }
  rewrite Hcmp, Z.gtb_ltb, (proj2 (Z.ltb_ge 0 (sOplogMaxDays st))) in Hd by lia. by simpl in Hd.
Qed.

(** ** Plans survive *)

Lemma ordered_holder tb l x y :
  ordered l -> startAt tb l = Some (x :: y) -> Forall (λ c, tsle tb (cTo c)) (x :: y).
Proof.
  intros Ho Hs. destruct (startAt_Some _ _ _ Hs) as (pre & c & rest & -> & [= <- <-] & _ & Hto).
  destruct (ordered_app _ _ Ho) as (_ & [Hsort Hspan] & _). apply StronglySorted_inv in Hsort as [_ Hr].
  apply Forall_cons in Hspan as [_ Hspan]. constructor; [done|]. rewrite Forall_forall in *. intros z Hz.
  eapply tsle_trans; [exact Hto|]. eapply tsle_trans; [by apply Hr|by apply Hspan].
Qed.

Lemma startAt_filter_None tb l (P : Chunk -> Prop) `{∀ x, Decision (P x)} :
  ordered l -> startAt tb l = None -> startAt tb (filter P l) = None.
Proof.
  intros Ho Hn. destruct (startAt tb (filter P l)) as [from|] eqn:E; [exfalso|done].
  destruct (startAt_Some _ _ _ E) as (pre & c & rest & Hf & -> & Hfr & Hto).
  assert (c ∈ l) as Hc by (apply (list_elem_of_filter P l); rewrite Hf; set_solver). clear E Hf.
  induction l as [|d l IH]; [by apply elem_of_nil in Hc|]. simpl in Hn. destruct Ho as [Hsort Hspan].
  apply StronglySorted_inv in Hsort as [Hsort Hd]. apply Forall_cons in Hspan as [Hspd Hspan].
  destruct (Compare (cTo d) tb >=? 0) eqn:E1; [destruct (Compare (cFrom d) tb <=? 0) eqn:E2; [done|]|]; compare_cases.
  - apply elem_of_cons in Hc as [->|Hc]; [unfold tsle, tslt in *; lia|]. rewrite Forall_forall in Hd.
    pose proof (Hd _ Hc). unfold tsle, tslt in *. lia.
  - apply elem_of_cons in Hc as [->|Hc]; [unfold tsle, tslt in *; lia|]. by apply IH.
Qed.

Lemma startAt_filter tb l from (P : Chunk -> Prop) `{∀ x, Decision (P x)} :
  ordered l -> startAt tb l = Some from -> (∀ x, x ∈ l -> tsle tb (cTo x) -> P x) -> startAt tb (filter P l) = Some from.
Proof.
  intros Ho Hs HP. destruct (startAt_Some _ _ _ Hs) as (pre & c & rest & -> & -> & Hfr & Hto).
  assert (Forall (λ c, tslt (cTo c) tb) pre) as Hpre.
  { clear Ho HP. induction pre as [|d pre IH]; [done|]. simpl in Hs. destruct (Compare (cTo d) tb >=? 0) eqn:E1.
    - destruct (Compare (cFrom d) tb <=? 0); [|done].
      apply (f_equal (from_option length 0%nat)) in Hs. revert Hs. simpl. rewrite length_app. simpl. lia.
    - compare_cases. constructor; [done|]. by apply IH. }
  pose proof (ordered_holder _ _ _ _ Ho Hs) as Hall. rewrite filter_app, startAt_skip by by apply Forall_filter_incl.
  rewrite (filter_all P (c :: rest)).
  - rewrite startAt_skip in Hs by done. exact Hs.
  - intros x Hx. rewrite Forall_forall in Hall. apply HP; [set_solver|by apply Hall].
Qed.

Lemma planFrom_filter chains b limit plan (P : Chunk -> Prop) `{∀ x, Decision (P x)} :
  (∀ c lv, (c, lv) ∈ chains -> ordered lv) ->
  (∀ c lv x, (c, lv) ∈ chains -> chChainID c = pChainID plan -> x ∈ lv -> tsle (otTS (bTBefore b)) (cTo x) -> P x) ->
  planFrom chains b limit = Ok plan ->
  planFrom ((λ p, (p.1, filter P p.2)) <$> chains) b limit = Ok plan.
Proof.
  intros Ho HP. induction chains as [|[c lv] chains IH]; [done|]. cbn [planFrom fmap list_fmap fst snd].
  destruct (startAt (otTS (bTBefore b)) lv) as [from|] eqn:Hs.
  - destruct (walk b limit None from _) as [w|] eqn:Hw; [|done]. intros [= <-].
    rewrite (startAt_filter _ _ from P), Hw; [done|apply (Ho c); left|done|].
    intros x Hx Hto. apply (HP c lv); [left|done..].
  - intros Hp. rewrite startAt_filter_None; [|apply (Ho c); left|done]. apply IH; [| |done].
    + intros c' lv' ?. apply (Ho c'). by right.
    + intros c' lv' x ?. apply (HP c'). by right.
Qed.

Lemma loadChains_after sid chains db db' l (P : Chunk -> Prop) `{∀ x, Decision (P x)} :
  (∀ c lv, ListChunks (liveQuery sid c) db = Ok lv -> ListChunks (liveQuery sid c) db' = Ok (filter P lv)) ->
  loadChains sid chains db = Ok l -> loadChains sid chains db' = Ok ((λ p, (p.1, filter P p.2)) <$> l).
Proof.
  intros Hq. revert l. induction chains as [|c chains IH]; cbn [loadChains]; intros l Hl; [by injection Hl as <-|].
  fold (liveQuery sid (chChainID c)) in *.
  destruct (ListChunks (liveQuery sid (chChainID c)) db) as [lv|] eqn:E; [|done]. rewrite (Hq _ _ E).
  destruct (loadChains sid chains db) as [l'|]; [|done]. injection Hl as <-. rewrite (IH l' eq_refl). simpl. do 3 f_equal.
  rewrite !list_filter_filter. apply list_filter_iff. tauto.
Qed.

Lemma live_after_delete ids at_ p db s c l :
  ListChunks (liveQuery s c) db = Ok l ->
  ListChunks (liveQuery s c) (DeleteChunks ids at_ p db).1 = Ok (filter (λ x, cID x ∉ ids) l).
Proof.
  intros Hl. rewrite DeleteChunks_fst. rewrite (live_update _ _ _ _ _ l); [|by intros; apply andb_false_r|done]. f_equal.
  destruct (live_chunks _ _ _ _ Hl) as (all & _ & ->). rewrite !list_filter_filter. apply list_filter_iff. intros x.
  rewrite Is_true_true. unfold Live, deletable.
  destruct (bool_decide (cID x ∈ ids)) eqn:Ei, (cStatus x), (bool_decide (cDeletedAt x = None)); bool_cases; simpl; naive_solver.
Qed.

(** ** The chain of a plan *)

Lemma split_unique {A} (x : A) l1 r1 l2 r2 : l1 ++ x :: r1 = l2 ++ x :: r2 -> x ∉ l1 -> x ∉ l2 -> l1 = l2.
Proof.
  revert l2. induction l1 as [|a l1 IH]; intros [|b l2]; simpl; intros E H1 H2; [done|..].
  - injection E as -> _. set_solver.
  - injection E as -> _. set_solver.
  - injection E as -> E. f_equal. apply IH; set_solver.
Qed.

Lemma ordered_once l1 c l2 : ordered (l1 ++ c :: l2) -> tslt (cFrom c) (cTo c) -> c ∉ l1.
Proof.
  intros Ho Hc Hin. destruct (ordered_app _ _ Ho) as (_ & _ & Hx). pose proof (Hx c c Hin ltac:(left)). unfold tsle, tslt in *. lia.
Qed.

Lemma startAt_holds tb l c : ordered l -> c ∈ l -> tsle (cFrom c) tb -> tsle tb (cTo c) -> startAt tb l <> None.
Proof.
  intros Ho Hc Hfr Hto. induction l as [|d l IH]; [by apply elem_of_nil in Hc|]. simpl. destruct Ho as [Hsort Hspan].
  apply StronglySorted_inv in Hsort as [Hsort Hd]. apply Forall_cons in Hspan as [Hspd Hspan].
  destruct (Compare (cTo d) tb >=? 0) eqn:E1; [destruct (Compare (cFrom d) tb <=? 0) eqn:E2; [done|]|]; compare_cases.
  - exfalso. apply elem_of_cons in Hc as [->|Hc]; [unfold tsle, tslt in *; lia|]. rewrite Forall_forall in Hd.
    pose proof (Hd _ Hc). unfold tsle, tslt in *. lia.
  - apply elem_of_cons in Hc as [->|Hc]; [unfold tsle, tslt in *; lia|]. by apply IH.
Qed.

Lemma coveringSegment_in segs b s : s ∈ segs -> covers s b = true -> coveringSegment segs b <> None.
Proof.
  induction segs as [|s0 segs IH]; simpl; [by intros ?%elem_of_nil|]. intros [->|Hs]%elem_of_cons Hc; [by rewrite Hc|].
  destruct (covers s0 b); [done|auto].
Qed.

Lemma coveringSegment_Some segs b s : coveringSegment segs b = Some s -> s ∈ segs /\ covers s b = true.
Proof.
  induction segs as [|s0 segs IH]; simpl; [done|]. destruct (covers s0 b) eqn:E; [intros [= <-]; split; [left|done]|].
  intros [? ?]%IH. split; [by right|done].
Qed.

(** The segment of the chunk that holds the consistent point covers the base. *)
Lemma holder_covers s b before after c :
  SegmentOK s -> ordered (sgChunks s) -> bbTBefore b = Some before -> bbTAfter b = Some after ->
  c ∈ sgChunks s -> holdsPoint (toBase b before after) c -> tsle (sgFrom s) (otTS before) -> covers s b = true.
Proof.
  intros Hs Ho Hbe Haf Hc (Hfr & Hto & Hterm) Hfrom. simpl in *.
  destruct (path_ordered _ _ _ (linked_ordered _ _ _ (so_linked _ Hs) (proj2 Ho))) as [_ Hin]. rewrite Forall_forall in Hin.
  destruct (Hin _ Hc) as [_ Hend]. unfold covers. rewrite Hbe, Haf.
  assert ((Compare (sgFrom s) (otTS before) >? 0) || (Compare (sgTo s) (otTS after) <? 0) = false) as ->.
  { apply orb_false_iff. rewrite Z.gtb_ltb. split; apply Z.ltb_ge; [by apply Compare_le|apply Compare_ge; by eapply tsle_trans]. }
  assert (∃ f t, termAt s (otTS after) = Some (f, t)) as (f & t & Ht).
  { assert (∀ l, c ∈ l -> ∃ f t, termIn (otTS after) l = Some (f, t)) as HI.
    { induction l as [|d l IH]; [by intros ?%elem_of_nil|]. intros [->|Hl]%elem_of_cons; simpl; [|destruct (_ && _); eauto].
      rewrite (proj2 (Z.ltb_lt _ _)) by by apply Compare_lt. rewrite Z.geb_leb, (proj2 (Z.leb_le _ _)) by by apply Compare_ge. simpl. eauto. }
    unfold termAt. destruct (sgChunks s) as [|d l]; [by apply elem_of_nil in Hc|]. destruct (_ && _) eqn:E; [eauto|].
    apply elem_of_cons in Hc as [->|Hl]; [|by apply HI]. exfalso.
    rewrite (proj2 (Z.ltb_lt (Compare (cFrom d) _) _)) in E by by apply Compare_lt. simpl in E. compare_cases. unfold tsle, tslt in *. lia. }
  rewrite Ht. pose proof (termAt_spec _ _ _ _ _ Ho Ht Hc Hfr Hto) as [= <- <-].
  destruct Hterm as [->|Hterm]; [done|]. apply orb_true_iff. right. apply andb_true_iff. rewrite !Z.leb_le. lia.
Qed.

Lemma linked_next a l x y r e : linked a (l ++ x :: y :: r) e -> cTo x = cFrom y.
Proof. revert a. induction l as [|d l IH]; simpl; intros a; [intros (_ & -> & _); done|]. intros [_ ?]. eauto. Qed.

(** The chunks of a plan lie in one segment, and it covers the base. *)
Lemma walked_covered chunks pre walked rest b before after limit :
  ordered (filter Live chunks) -> filter Live chunks = pre ++ walked ++ rest -> ReplaySpec (toBase b before after) limit walked ->
  bbTBefore b = Some before -> bbTAfter b = Some after -> tslt (otTS before) (otTS after) ->
  coveringSegment (segments chunks).1 b <> None.
Proof.
  intros Ho Hl [(init & lst & Hw & _ & _ & first & tl & Hf & Hfrom & _ & Hlink & Hpoint) Hus] Hbe Haf Hlt. simpl in *.
  destruct Hpoint as [(c & Hc & Hp)%Exists_exists|Hpoint]; [|unfold tsle, tslt in *; lia].
  assert (c ∈ filter Live chunks) as [Hlive%Is_true_true Hcin]%list_elem_of_filter by (rewrite Hl; set_solver +Hc).
  rewrite Forall_forall in Hus. destruct (segLoop_complete chunks None c) as (s & Hs & Hcs); [right; by destruct (Hus _ Hc)|].
  destruct (segments_spec chunks s Hs) as (p & q & Heq & Hso & Hbr). apply (coveringSegment_in _ _ s Hs).
  rewrite Heq in Ho. destruct (ordered_app _ _ Ho) as (_ & Hsq & _). destruct (ordered_app _ _ Hsq) as (Hsorted & _ & _).
  eapply holder_covers; [done..|]. apply list_elem_of_split in Hc as (w1 & w2 & Ew). apply list_elem_of_split in Hcs as (s1 & s2 & Es).
  assert (pre ++ w1 = p ++ s1) as Hpos.
  { destruct Hp as (Hp1 & Hp2 & _). simpl in *. assert (tslt (cFrom c) (cTo c)) as Hcc by (unfold tsle, tslt in *; lia).
    apply (split_unique c _ (w2 ++ rest) _ (s2 ++ q)).
    - rewrite Heq, Es, Ew in Hl. rewrite <- !app_assoc in *. simpl in *. rewrite <- ?app_assoc in *. simpl in *. by rewrite Hl.
    - apply (ordered_once _ _ (w2 ++ rest)); [|done]. rewrite <- Heq, Hl, Ew, <- !app_assoc in Ho. by rewrite <- app_assoc.
    - apply (ordered_once _ _ (s2 ++ q)); [|done]. rewrite Es, <- !app_assoc in Ho. by rewrite <- app_assoc. }
  assert (first ∈ sgChunks s -> tsle (sgFrom s) (otTS before)) as Hdone.
  { intros Hin. destruct (path_ordered _ _ _ (linked_ordered _ _ _ (so_linked _ Hso) (proj2 Hsorted))) as [_ Hall].
    rewrite Forall_forall in Hall. eapply tsle_trans; [by apply Hall|done]. }
  assert (∃ z, w1 ++ [c] = first :: z) as [z Hz].
  { rewrite Ew in Hf. destruct w1; injection Hf as -> _; eauto. }
  apply app_eq_app in Hpos as (l & [[-> ->]|[-> ->]]).
  - apply Hdone. rewrite Es. assert (first ∈ w1 ++ [c]) by (rewrite Hz; left). set_solver.
  - destruct (last l) as [y|] eqn:Hy.
    + exfalso. apply last_Some in Hy as [l' ->]. destruct (Hbr y) as [Hv|Hv]; [by rewrite last_app, last_snoc| |].
      * apply Hv. destruct (Hus y); [rewrite Ew; set_solver|done].
      * apply Hv. destruct Hso as [Hlk _ _ _]. rewrite Ew, <- !app_assoc in Hlink. rewrite Es in Hlk.
        destruct s1; simpl in *; apply linked_next in Hlink; by destruct Hlk as [<- _].
    + apply last_None in Hy as ->. apply Hdone. rewrite Es. simpl in Hz. assert (first ∈ s1 ++ [c]) by (rewrite Hz; left). set_solver.
Qed.

(** A plan of a base whose dump took time is on the chain its status shows. *)
Lemma plan_chain sid spans chains db sts l b before after limit plan :
  (∀ c lv, c ∈ chains -> ListChunks (liveQuery sid (chChainID c)) db = Ok lv -> ordered lv) ->
  chainStatuses sid spans chains db = Ok sts -> loadChains sid chains db = Ok l ->
  bbTBefore b = Some before -> bbTAfter b = Some after -> tslt (otTS before) (otTS after) ->
  planFrom l (toBase b before after) limit = Ok plan -> ∃ s, coveringChain sts b = Some (pChainID plan, s).
Proof.
  intros Hord Hs Hl Hbe Haf Hlt. revert sts l Hs Hl. induction chains as [|c chains IH]; cbn [chainStatuses loadChains]; intros sts l Hs Hl.
  { by injection Hl as <-. }
  fold (liveQuery sid (chChainID c)) in *. destruct (ListChunks (liveQuery sid (chChainID c)) db) as [lv|] eqn:Hq; [|done].
  destruct (chainStatuses sid spans chains db) as [sts'|]; [|done]. injection Hs as <-.
  destruct (loadChains sid chains db) as [l'|]; [|done]. injection Hl as <-.
  assert (ordered (filter Live lv)) as Ho by (apply ordered_filter, (Hord c); [left|done]).
  cbn [coveringChain]. unfold chainStatus at 1 2. destruct (segments lv) as [segs n] eqn:Hseg. simpl.
  destruct (startAt (otTS before) (filter Live lv)) as [from|] eqn:Hst; intros Hplan.
  - assert (planFrom [(c, filter Live lv)] (toBase b before after) limit = Ok plan) as Hone by (simpl; by rewrite Hst).
    destruct (planFrom_Ok _ _ _ _ Hone) as (c' & l0 & pre & rest & [= -> ->]%list_elem_of_singleton & Hl0 & -> & _ & _ & _ & Hrep).
    pose proof (walked_covered lv pre _ rest b before after limit Ho Hl0 Hrep Hbe Haf Hlt) as Hcov. rewrite Hseg in Hcov.
    simpl in Hcov. destruct (coveringSegment segs b) as [s|]; [eauto|done].
  - destruct (coveringSegment segs b) as [s|] eqn:Hc; [exfalso|].
    2: { apply (λ H, IH H _ _ eq_refl eq_refl Hplan). intros c0 lv0 H0. apply Hord. by right. }
    apply coveringSegment_Some in Hc as [Hin Hc]. destruct (segments_spec lv s) as (p & q & Heq & Hso & _); [by rewrite Hseg|].
    rewrite Heq in Ho. destruct (ordered_app _ _ Ho) as (_ & Hsq & _). destruct (ordered_app _ _ Hsq) as (Hsorted & _ & _).
    destruct (covers_spec _ _ _ _ Hc Hbe Haf Hsorted) as (H1 & H2 & _).
    destruct (startAt_complete (otTS before) (sgChunks s) (sgFrom s) (sgTo s)) as (from & a & Hf & _);
      [apply linked_ordered; [apply Hso|apply Hsorted]|done|unfold tsle, tslt in *; lia|].
    destruct (startAt_Some _ _ _ Hf) as (pr & x & tl & E & -> & Hx1 & Hx2).
    eapply (startAt_holds (otTS before) (filter Live lv) x); [by rewrite Heq| |done..]. rewrite Heq, E. set_solver.
Qed.

(** ** The base records *)

Lemma deleteBasesLoop_other now pa s pinned ids k : ∀ bs,
  (k ∉ ids \/ pinned k = true \/ (∃ b, bs !! k = Some b /\ (rPinned (bbRecord b) = true \/ rStatus (bbRecord b) <> StatusCompleted))) ->
  (deleteBasesLoop now pa s pinned ids bs).1 !! k = bs !! k.
Proof.
  induction ids as [|id ids IH]; intros bs Hk; [done|]. cbn [deleteBasesLoop]. unfold deleteBase.
  destruct (bs !! id) as [b|] eqn:Hb; [|done].
  destruct (_ || pinned id) eqn:E; [apply IH; destruct Hk as [?|?]; [left; set_solver|by right]|].
  bool_cases. assert (id <> k) as Hne.
  { intros ->. destruct Hk as [Hk|[Hk|(b' & Hb' & Hk)]]; [set_solver|congruence|].
    rewrite Hb in Hb'. injection Hb' as <-. destruct Hk as [?|?]; congruence. }
  etrans; [apply IH|by apply lookup_insert_ne]. setoid_rewrite lookup_insert_ne; [|done].
  destruct Hk as [?|?]; [left; set_solver|by right].
Qed.

Lemma deleteBasesLoop_deletes now pa s pinned ids k b : ∀ bs,
  k ∈ ids -> (deleteBasesLoop now pa s pinned ids bs).2 = true -> bs !! k = Some b ->
  rStatus (bbRecord b) = StatusCompleted -> rPinned (bbRecord b) = false -> pinned k = false ->
  ∃ b', (deleteBasesLoop now pa s pinned ids bs).1 !! k = Some b' /\ rStatus (bbRecord b') = StatusDeleted.
Proof.
  induction ids as [|id ids IH]; intros bs Hk Hok Hb Hst Hp Hpk; [by apply elem_of_nil in Hk|].
  cbn [deleteBasesLoop] in *. unfold deleteBase in *. destruct (decide (id = k)) as [->|Hne].
  - rewrite Hb, Hp, Hpk, (bool_decide_true _ Hst) in *. simpl in *.
    eexists. rewrite deleteBasesLoop_other; [split; [apply lookup_insert_eq|done]|].
    right. right. eexists. split; [apply lookup_insert_eq|]. by right.
  - destruct (bs !! id) as [b0|] eqn:Hb0; [|done]. apply elem_of_cons in Hk as [->|Hk]; [done|].
    revert Hok. destruct (_ || pinned id); intros Hok; apply IH; try done. by rewrite lookup_insert_ne.
Qed.

Definition keyed (bs : Bases) : Prop := ∀ k b, bs !! k = Some b -> bbID b = k.

Lemma listBases_elem bs b : keyed bs -> b ∈ listBases bs <-> bs !! bbID b = Some b.
Proof.
  intros Hk. unfold listBases, selectBy. rewrite elem_of_stable_sort, list_elem_of_filter, Is_true_true. unfold rows.
  rewrite list_elem_of_fmap. split.
  - intros (_ & [k b'] & -> & Hb%elem_of_map_to_list). simpl. by rewrite (Hk _ _ Hb).
  - intros Hb. split; [done|]. exists (bbID b, b). split; [done|]. by apply elem_of_map_to_list.
Qed.

(** ** Runs *)

Lemma RetainStream_Ok env id db bs db' bs' :
  RetainStream env id db bs = (db', bs', true) ->
  ∃ st chains, let db1 := (purgeChunks (rePurge env) id (reNow env) (rePins env) db).1.1 in
    let plan := planRetention (reNow env) st (listBases bs) chains (rePins env) in
    GetStream id db = Ok st /\ loadAll id (ListChains id db1) db1 = Ok chains /\
    deleteBasesLoop (reNow env) (reNow env + reGrace env) id (rePinned env) (DeleteBases plan) bs = (bs', true) /\
    db' = (DeleteChunks (DeleteChunkIDs plan) (reNow env) (reNow env + reGrace env) db1).1.
Proof.
  unfold RetainStream. destruct (GetStream id db) as [st|]; [|done].
  destruct (purgeChunks _ _ _ _ db) as [[db1 n] ok]. simpl. destruct ok; [|done]. simpl.
  destruct (loadAll id (ListChains id db1) db1) as [chains|]; [|done].
  destruct (deleteBasesLoop _ _ _ _ _ bs) as [bs1 ok] eqn:Hd. destruct ok; [|done]. simpl. intros [= <- <-].
  exists st, chains. split_and!; try done. by destruct (DeleteChunkIDs _).
Qed.

(** A base that is still there was kept by the plan, unless it was pinned meanwhile. *)
Lemma kept_by_plan env id st chains bs bs' b :
  keyed bs -> (rePinned env (bbID b) = true -> pinsBase (rePins env) (bbID b) = true) ->
  deleteBasesLoop (reNow env) (reNow env + reGrace env) id (rePinned env)
    (DeleteBases (planRetention (reNow env) st (listBases bs) chains (rePins env))) bs = (bs', true) ->
  bs !! bbID b = Some b -> bs' !! bbID b = Some b ->
  bbID b ∉ DeleteBases (planRetention (reNow env) st (listBases bs) chains (rePins env)).
Proof.
  intros Hkey Hpins Hrun Hb Hb' Hin. set (ids := DeleteBases _) in *.
  assert (∃ j, keepBase (reNow env) st (rePins env) (newestEligible chains (completedBases (listBases bs))) j b = false
               /\ completedBase b = true) as (j & Hkeep & Hcomp).
  { unfold ids, planRetention in Hin. destruct (baseLoop _ _ _ _ _ _ _ _) as [del kb] eqn:E. simpl in Hin.
    destruct (baseLoop_deleted (reNow env) st (rePins env) chains (newestEligible chains (completedBases (listBases bs)))
      (completedBases (listBases bs)) (bbID b) 0 ∅) as (j & b2 & Hb2 & Hid & Hk); [by rewrite E|].
    exists j. apply elem_of_stable_sort, list_elem_of_filter in Hb2 as [Hc%Is_true_true Hb2].
    apply (listBases_elem _ _ Hkey) in Hb2. rewrite Hid, Hb in Hb2. by injection Hb2 as <-. }
  unfold keepBase, completedBase in *. bool_cases.
  destruct (deleteBasesLoop_deletes (reNow env) (reNow env + reGrace env) id (rePinned env) ids (bbID b) b bs)
    as (b1 & Hb1 & Hst); try done; [by rewrite Hrun| |].
  - destruct (rePinned env (bbID b)); [|done]. rewrite Hpins in *; done.
  - rewrite Hrun in Hb1. simpl in Hb1. rewrite Hb' in Hb1. injection Hb1 as <-. congruence.
Qed.

Lemma liveSame_chains db db' s : liveSame db db' -> ListChains s db' = ListChains s db.
Proof. intros [E _]. unfold ListChains. by rewrite E. Qed.

Lemma Status_Ok now id bases db s :
  Status now id bases db = Ok s ->
  GetStream id db = Ok (ssStream s) /\ chainStatuses id (ChainSpans id db) (ListChains id db) db = Ok (ssChains s).
Proof.
  unfold Status. destruct (GetStream id db); [|done]. destruct (chainStatuses _ _ _ _); [|done]. by intros [= <-].
Qed.

Lemma liveSame_load sid chains db db' l : liveSame db db' -> loadChains sid chains db = Ok l -> loadChains sid chains db' = Ok l.
Proof.
  intros [_ Hs]. revert l. induction chains as [|c chains IH]; cbn [loadChains]; intros l Hl; [done|].
  fold (liveQuery sid (chChainID c)) in *. rewrite Hs. destruct (ListChunks _ db); [|done].
  destruct (loadChains sid chains db) as [l'|]; [|done]. by rewrite (IH l' eq_refl).
Qed.

(** [C28] Retention never takes a restore away. After a run on a stream without
    OplogMaxDays, whatever was purged and deleted and whatever other bases were pinned: every
    base [b] that was eligible and is still recorded has, for every limit, the very plan it
    had before, unless [b] itself was pinned only between the snapshot of the pins and its
    update (reported). The dump of [b] took oplog time, or else the plan is on the chain the
    status shows for [b]. *)
Theorem retention_keeps_plans ops now env id bs s db' bs' b before after chains limit plan :
  let db := run ops emptyDB in
  keyed bs -> Status now id (listBases bs) db = Ok s -> sOplogMaxDays (ssStream s) <= 0 ->
  RetainStream env id db bs = (db', bs', true) ->
  (rePinned env (bbID b) = true -> pinsBase (rePins env) (bbID b) = true) ->
  bs !! bbID b = Some b -> bs' !! bbID b = Some b ->
  bsEligible (baseStatus (ssChains s) b) = true -> bbTBefore b = Some before -> bbTAfter b = Some after ->
  loadChains id (ListChains id db) db = Ok chains ->
  planFrom chains (toBase b before after) limit = Ok plan ->
  tslt (otTS before) (otTS after) \/ pChainID plan = bsChainID (baseStatus (ssChains s) b) ->
  ∃ chains', loadChains id (ListChains id db') db' = Ok chains' /\
    planFrom chains' (toBase b before after) limit = Ok plan.
Proof.
  intros db Hkey Hst Hmax Hrun Hpins Hb Hb' Hel Hbe Haf Hch Hplan Hid0.
  destruct (Status_Ok _ _ _ _ _ Hst) as [Hg Hsts].
  assert (pChainID plan = bsChainID (baseStatus (ssChains s) b)) as Hid.
  { destruct Hid0 as [Hlt|]; [|done]. unfold baseStatus. edestruct plan_chain as [sg ->]; [|exact Hsts|exact Hch|done..].
    intros c lv Hc Hq. eapply live_ordered; [|done..]. apply run_inv, emptyDB_inv. }
  destruct (RetainStream_Ok _ _ _ _ _ _ Hrun) as (st & all & Hg' & Hall & Hdel & ->). rewrite Hg in Hg'. injection Hg' as <-.
  destruct (purgeChunks_live (rePurge env) id (reNow env) (rePins env) db) as [Hi1 Hsame];
    [apply run_inv, emptyDB_inv|apply run_purge, map_Forall_empty|].
  set (db1 := (purgeChunks _ _ _ _ db).1.1) in *. rewrite (liveSame_chains db db1 id Hsame) in Hall.
  pose proof (chainOf_status _ _ _ _ _ _ _ b Hsts Hall Hsame) as Hchain.
  assert (chainOf all b = bsChainID (baseStatus (ssChains s) b) /\ eligibleBase b = true) as [Hc He].
  { unfold baseStatus in *. destruct (coveringChain (ssChains s) b) as [[i sg]|]; [|done]. by split. }
  pose proof (kept_by_plan _ _ _ _ _ _ _ Hkey Hpins Hdel Hb Hb') as Hkept.
  set (plan0 := planRetention _ _ _ _ _) in *. set (keep := λ x, cID x ∉ DeleteChunkIDs plan0).
  pose proof (liveSame_load _ _ _ _ _ Hsame Hch) as Hch1.
  exists ((λ p, (p.1, filter keep p.2)) <$> chains). split.
  - replace (ListChains id (DeleteChunks _ _ _ db1).1) with (ListChains id db).
    2: { rewrite DeleteChunks_fst. symmetry. by apply (liveSame_chains db db1). }
    apply (loadChains_after id _ db1); [|done]. intros c lv. apply live_after_delete.
  - apply planFrom_filter; [| |done]; intros c lv.
    + intros Hin. destruct (loadChains_Ok _ _ _ _ _ _ Hch1 Hin) as (Hcin & chunks & Hq & ->).
      apply ordered_filter. eapply live_ordered; [done| |exact Hq]. by rewrite (liveSame_chains db db1).
    + intros x Hin Hcid Hx Hto. destruct (loadChains_Ok _ _ _ _ _ _ Hch1 Hin) as (Hcin & chunks & Hq & ->).
      apply list_elem_of_filter in Hx as [Hlive%Is_true_true Hx].
      destruct (ListChunks_elem _ _ _ _ Hi1 Hq Hx) as (Hk & _ & Hcx). simpl in Hcx.
      assert (chChainID c <> "") as Hne.
      { unfold ListChunks in Hq. simpl in Hq. unfold isEmpty in Hq. intros E.
        rewrite E, (bool_decide_true ("" = "")), orb_true_r in Hq by done. done. }
      eapply (plan_keeps_chunks (reNow env) (ssStream s) (listBases bs) all (rePins env) id db1 b before c x);
        try done; [by rewrite (liveSame_chains db db1)|by apply listBases_elem|congruence].
Qed.

Lemma newerStart_not_after a b : not_after newerStart a b <-> bbStartedAt b <= bbStartedAt a.
Proof. unfold not_after, newerStart. rewrite Z.gtb_ltb. apply Z.ltb_ge. Qed.

Lemma completedBases_sorted P bases : StronglySorted (not_after newerStart) (filter (λ b, Is_true (P b)) (completedBases bases)).
Proof.
  assert (∀ a b c, not_after newerStart a b -> not_after newerStart b c -> not_after newerStart a c) as Ht.
  { intros a b c. rewrite !newerStart_not_after. lia. }
  assert (∀ a b, newerStart a b = true -> newerStart b a = false) as Ha.
  { intros a b. unfold newerStart. rewrite !Z.gtb_ltb, Z.ltb_lt, Z.ltb_ge. lia. }
  unfold completedBases. rewrite (stable_sort_filter newerStart Ht Ha). by apply stable_sort_StronglySorted.
Qed.

(** The newest eligible base, by its start, in the order of the run. *)
Lemma newestEligible_spec chains bases b :
  b ∈ bases -> eligibleBase b = true -> chainOf chains b <> "" ->
  ∃ n, n ∈ bases /\ newestEligible chains (completedBases bases) = bbID n /\ eligibleBase n = true /\
    chainOf chains n <> "" /\ bbStartedAt b <= bbStartedAt n.
Proof.
  intros Hb He Hc. set (P := λ b, eligibleBase b && negb (bool_decide (chainOf chains b = ""))).
  assert (∀ x, eligibleBase x = true -> x ∈ bases -> x ∈ completedBases bases) as Hcomp.
  { intros x Hx Hin. apply elem_of_stable_sort, list_elem_of_filter. split; [|done]. apply Is_true_true.
    unfold eligibleBase in Hx. unfold completedBase. bool_cases. by rewrite bool_decide_true by done. }
  assert (b ∈ filter P (completedBases bases)) as Hin.
  { apply list_elem_of_filter. split; [|by apply Hcomp]. apply Is_true_true. unfold P. by rewrite He, bool_decide_false. }
  pose proof (completedBases_sorted P bases) as Hsort.
  destruct (filter P (completedBases bases)) as [|n l] eqn:Hf; [by apply elem_of_nil in Hin|]. exists n.
  assert (newestEligible chains (completedBases bases) = bbID n) as Hnew.
  { unfold newestEligible. change (filter _ (completedBases bases)) with (filter P (completedBases bases)). by rewrite Hf. }
  assert (n ∈ filter P (completedBases bases)) as Hn by (rewrite Hf; left).
  apply list_elem_of_filter in Hn as [HP%Is_true_true Hn]. unfold P in HP. bool_cases.
  apply elem_of_stable_sort, list_elem_of_filter in Hn as [_ Hn]. split_and!; try done.
  apply elem_of_cons in Hin as [->|Hin]; [lia|]. apply StronglySorted_inv in Hsort as [_ Hs].
  rewrite Forall_forall in Hs. by apply newerStart_not_after, Hs.
Qed.

(** A stream that can be restored stays restorable: after a run, some base that
    was eligible, none eligible being newer, is recorded as it was. *)
Theorem retention_keeps_newest ops now env id bs s db' bs' b :
  let db := run ops emptyDB in
  keyed bs -> Status now id (listBases bs) db = Ok s ->
  RetainStream env id db bs = (db', bs', true) ->
  bs !! bbID b = Some b -> bsEligible (baseStatus (ssChains s) b) = true -> bsChainID (baseStatus (ssChains s) b) <> "" ->
  ∃ n, bs' !! bbID n = Some n /\ bsEligible (baseStatus (ssChains s) n) = true /\ bbStartedAt b <= bbStartedAt n.
Proof.
  intros db Hkey Hst Hrun Hb Hel Hne.
  destruct (Status_Ok _ _ _ _ _ Hst) as [Hg Hsts].
  destruct (RetainStream_Ok _ _ _ _ _ _ Hrun) as (st & all & Hg' & Hall & Hdel & _). rewrite Hg in Hg'. injection Hg' as <-.
  destruct (purgeChunks_live (rePurge env) id (reNow env) (rePins env) db) as [Hi1 Hsame];
    [apply run_inv, emptyDB_inv|apply run_purge, map_Forall_empty|].
  set (db1 := (purgeChunks _ _ _ _ db).1.1) in *. rewrite (liveSame_chains db db1 id Hsame) in Hall.
  assert (∀ x, (bsEligible (baseStatus (ssChains s) x) = true /\ bsChainID (baseStatus (ssChains s) x) <> "") <->
               (eligibleBase x = true /\ chainOf all x <> "")) as Hiff.
  { intros x. rewrite (chainOf_status _ _ _ _ _ _ _ x Hsts Hall Hsame). unfold baseStatus.
    destruct (coveringChain (ssChains s) x) as [[i sg]|]; simpl; naive_solver. }
  destruct (proj1 (Hiff b) (conj Hel Hne)) as [He Hc].
  destruct (newestEligible_spec all (listBases bs) b) as (n & Hn & Hnew & Hen & Hcn & Hle);
    [by apply listBases_elem|done..|].
  apply (listBases_elem _ _ Hkey) in Hn. exists n. split; [|split; [by apply Hiff|done]].
  assert (bs' = (deleteBasesLoop (reNow env) (reNow env + reGrace env) id (rePinned env)
    (DeleteBases (planRetention (reNow env) (ssStream s) (listBases bs) all (rePins env))) bs).1) as -> by by rewrite Hdel.
  rewrite deleteBasesLoop_other; [done|]. left. intros Hin. unfold planRetention in Hin.
  destruct (baseLoop _ _ _ _ _ _ _ _) as [del kb] eqn:E. simpl in Hin.
  destruct (baseLoop_deleted (reNow env) (ssStream s) (rePins env) all (newestEligible all (completedBases (listBases bs)))
    (completedBases (listBases bs)) (bbID n) 0 ∅) as (j & b2 & _ & Hid & Hk); [by rewrite E|].
  unfold keepBase in Hk. bool_cases. congruence.
Qed.

(** ** Pinned objects *)

Lemma updateChunks_lookup_ne P0 g db k :
  (∀ x, dbChunks db !! k = Some x -> P0 x = false) -> dbChunks (updateChunks P0 g db).1 !! k = dbChunks db !! k.
Proof.
  intros HP. cbn [updateChunks updateWhere withChunks dbChunks fst]. rewrite lookup_fmap.
  destruct (dbChunks db !! k) as [x|]; [|done]. simpl. by rewrite HP.
Qed.

Lemma purgeLoop_pinned purge pins due k : ∀ db,
  Inv db -> pinsChunk pins k = true ->
  Inv (purgeLoop purge pins due db).1.1 /\ dbChunks (purgeLoop purge pins due db).1.1 !! k = dbChunks db !! k.
Proof.
  induction due as [|c due IH]; intros db Hi Hp; [done|]. cbn [purgeLoop]. destruct (pinsChunk pins (cID c)) eqn:Hc.
  - destruct (IH db Hi Hp) as [H1 H2]. by destruct (purgeLoop purge pins due db) as [[db' n] ok].
  - assert (Inv (purgeChunk (purge c) c db).1 /\ dbChunks (purgeChunk (purge c) c db).1 !! k = dbChunks db !! k) as [Hi1 Hk1].
    { assert (∀ P0 g, keepsSpan g -> (∀ x, P0 x = true -> cID x = cID c) ->
        Inv (updateChunks P0 g db).1 /\ dbChunks (updateChunks P0 g db).1 !! k = dbChunks db !! k) as Hu.
      { intros P0 g Hg HP. split; [by apply updateChunks_inv|]. apply updateChunks_lookup_ne. intros x Hx.
        destruct (P0 x) eqn:E; [|done]. apply HP in E. destruct (inv_chunk _ Hi _ _ Hx) as [<- _]. congruence. }
      unfold purgeChunk. destruct (purge c) as [[until|]| |]; [..|done]; unfold SetChunkRetainUntil, MarkChunkPruned;
        destruct (execOne _) as [db' e] eqn:E; rewrite (surjective_pairing (execOne _)), execOne_fst in E; injection E as <- _;
        simpl; apply Hu; try done; intros x Hx; by bool_cases. }
    destruct (purgeChunk (purge c) c db) as [db1 ok1]. simpl in *. destruct (IH db1 Hi1 Hp) as [H1 H2].
    destruct (purgeLoop purge pins due db1) as [[db' n] ok]. simpl in *. split; [done|congruence].
Qed.

(** Retention leaves what a restore reads: a run, whether it succeeds or not,
    changes no chunk the pins name, and no base that the pins name or that is pinned. *)
Theorem retention_spares_pins ops env id bs db' bs' ok k :
  RetainStream env id (run ops emptyDB) bs = (db', bs', ok) ->
  (pinsChunk (rePins env) k = true -> dbChunks db' !! k = dbChunks (run ops emptyDB) !! k) /\
  (∀ b, keyed bs -> bs !! k = Some b -> pinsBase (rePins env) k = true \/ rPinned (bbRecord b) = true -> bs' !! k = bs !! k).
Proof.
  set (db := run ops emptyDB). assert (Inv db) as Hi by apply run_inv, emptyDB_inv.
  unfold RetainStream. destruct (GetStream id db) as [st|]; [|by intros [= <- <- _]].
  assert (pinsChunk (rePins env) k = true ->
    Inv (purgeChunks (rePurge env) id (reNow env) (rePins env) db).1.1 /\
    dbChunks (purgeChunks (rePurge env) id (reNow env) (rePins env) db).1.1 !! k = dbChunks db !! k) as Hpurge
    by (intros; by apply purgeLoop_pinned).
  destruct (purgeChunks _ _ _ _ db) as [[db1 n] ok1] eqn:Hp. simpl in Hpurge.
  assert (∀ db2, db2 = db1 -> pinsChunk (rePins env) k = true -> dbChunks db2 !! k = dbChunks db !! k) as Hdb1
    by (intros db2 -> ?; by apply Hpurge).
  destruct ok1; simpl; [|intros [= <- <- _]; split; [by apply Hdb1|done]].
  destruct (loadAll id (ListChains id db1) db1) as [chains|] eqn:Hl; [|intros [= <- <- _]; split; [by apply Hdb1|done]].
  set (plan := planRetention _ _ _ _ _).
  assert (∀ b, keyed bs -> bs !! k = Some b -> pinsBase (rePins env) k = true \/ rPinned (bbRecord b) = true ->
    (deleteBasesLoop (reNow env) (reNow env + reGrace env) id (rePinned env) (DeleteBases plan) bs).1 !! k = bs !! k) as Hbs.
  { intros b Hkey Hb [Hpk|Hpk]; apply deleteBasesLoop_other; [|by right; right; eauto].
    left. intros Hin. unfold plan, planRetention in Hin. destruct (baseLoop _ _ _ _ _ _ _ _) as [del kb] eqn:E. simpl in Hin.
    destruct (baseLoop_deleted (reNow env) st (rePins env) chains (newestEligible chains (completedBases (listBases bs)))
      (completedBases (listBases bs)) k 0 ∅) as (j & b2 & _ & <- & Hk); [by rewrite E|].
    unfold keepBase in Hk. bool_cases. congruence. }
  destruct (deleteBasesLoop _ _ _ _ _ bs) as [bs1 ok2]. simpl in Hbs.
  destruct ok2; simpl; intros [= <- <- _]; (split; [|done]); [|by apply Hdb1].
  intros Hpk. destruct (Hpurge Hpk) as [Hi1 <-].
  assert (∀ ids, k ∉ ids -> dbChunks (DeleteChunks ids (reNow env) (reNow env + reGrace env) db1).1 !! k = dbChunks db1 !! k) as Hd.
  { intros ids Hk. rewrite DeleteChunks_fst. apply updateChunks_lookup_ne. intros x Hx.
    destruct (inv_chunk _ Hi1 _ _ Hx) as [-> _]. by rewrite bool_decide_false. }
  destruct (DeleteChunkIDs plan) as [|i ids] eqn:Hids; [done|]. apply Hd. rewrite <- Hids. clear Hids.
  unfold plan, planRetention. destruct (baseLoop _ _ _ _ _ _ _ _) as [del kb]. simpl.
  intros ([c chunks] & Hin & _)%list_elem_of_bind. apply list_elem_of_fmap in Hin as (x & -> & Hin).
  apply list_elem_of_filter in Hin as [Hx%Is_true_true _]. unfold deleteChunk in Hx. by rewrite Hpk, orb_true_r in Hx.
Qed.

(** ** A concrete run *)

Definition keepOneStream : Stream :=
  mkStream "s" "conn" "rs0" "target" true "0 3 * * *" 1 0 0 60 true "" "" "" [] 0 0.

Definition retainOps : list op :=
  OCreateStream 5 keepOneStream :: OStartChain "s" "c1" (mkOpTime (mkTS 100 1) 3) 6 ::
  OCommitChunk 7 (demoChunk "k1" "o1" 100 200) :: OCommitChunk 8 (demoChunk "k2" "o2" 200 300) ::
  OCommitChunk 9 (demoChunk "k3" "o3" 300 400) :: [OMarkChunkVerified "k3" 10 ""].

Definition oldBase : BaseBackup := demoBase "b1" 10 (mkTS 150 0) (mkTS 160 0).
Definition newBase : BaseBackup := demoBase "b2" 20 (mkTS 310 0) (mkTS 320 0).
Definition retainBases : Bases := {[ "b1" := oldBase; "b2" := newBase ]}.

Definition retainEnv (pins : PinSnapshot) : RetainEnv :=
  mkRetainEnv (unix_time 1000) (7 * day) pins (pinsBase pins) (λ _, PurgeDone None).

Definition retained (pins : PinSnapshot) : DB * Bases * bool :=
  RetainStream (retainEnv pins) "s" (run retainOps emptyDB) retainBases.

(** The old base and the two chunks before the new one go; a pin keeps the first. *)
Lemma retained_effect :
  let live db := match ListChunks (liveQuery "s" "c1") db with Ok l => cID <$> l | Err _ => [] end in
  let status (bs : Bases) := (λ b, rStatus (bbRecord b)) <$> bs !! "b1" in
  (live (retained emptySnapshot).1.1, status (retained emptySnapshot).1.2, (retained emptySnapshot).2)
    = (["k3"], Some StatusDeleted, true) /\
  live (retained (mkSnapshot ∅ {["k1"]} ∅ [])).1.1 = ["k1"; "k3"].
Proof. vm_compute. done. Qed.

Lemma retainBases_keyed : keyed retainBases.
Proof.
  intros k b. unfold retainBases. intros [[<- <-]|[_ [<- <-]%lookup_singleton_Some]]%lookup_insert_Some; reflexivity.
Qed.

Definition retainStatus : StreamStatus :=
  match Status 0 "s" (listBases retainBases) (run retainOps emptyDB) with
  | Ok s => s
  | Err _ => mkStatus keepOneStream None None [] [] [] 0
  end.

Definition retainChains (db : DB) : Chains := match loadChains "s" (ListChains "s" db) db with Ok l => l | Err _ => [] end.

Definition retainPlan : result PitrErr RestorePlan :=
  planFrom (retainChains (run retainOps emptyDB)) (toBase newBase (mkOpTime (mkTS 310 0) 3) (mkOpTime (mkTS 320 0) 3)) (mkTS 350 0).

Lemma retention_keeps_plans_witness :
  ∃ plan chains', retainPlan = Ok plan /\
    loadChains "s" (ListChains "s" (retained emptySnapshot).1.1) (retained emptySnapshot).1.1 = Ok chains' /\
    planFrom chains' (toBase newBase (mkOpTime (mkTS 310 0) 3) (mkOpTime (mkTS 320 0) 3)) (mkTS 350 0) = Ok plan.
Proof.
  destruct retainPlan as [plan|] eqn:Hp; [|by vm_compute in Hp].
  destruct (retention_keeps_plans retainOps 0 (retainEnv emptySnapshot) "s" retainBases retainStatus
    (retained emptySnapshot).1.1 (retained emptySnapshot).1.2 newBase (mkOpTime (mkTS 310 0) 3) (mkOpTime (mkTS 320 0) 3)
    (retainChains (run retainOps emptyDB)) (mkTS 350 0) plan) as (chains' & H1 & H2).
  - exact retainBases_keyed.
  - vm_compute. reflexivity.
  - vm_compute. congruence.
  - vm_compute. reflexivity.
  - intros H. exact H.
  - reflexivity.
  - vm_compute. reflexivity.
  - vm_compute. reflexivity.
  - reflexivity.
  - reflexivity.
  - vm_compute. reflexivity.
  - exact Hp.
  - left. left. vm_compute. reflexivity.
  - exists plan, chains'. split; [reflexivity|]. split; [exact H1|exact H2].
Defined.

(** The old base is pinned after the run took its snapshot of the pins and before its
    record is updated: it stays, but the chunks its plan needs are deleted by the plan made
    before, and no restore from it can be planned any more. *)
Definition lateEnv : RetainEnv :=
  mkRetainEnv (unix_time 1000) (7 * day) emptySnapshot (λ k, bool_decide (k = "b1")) (λ _, PurgeDone None).
Definition lateRun : DB * Bases * bool := RetainStream lateEnv "s" (run retainOps emptyDB) retainBases.

Example late_pin_loses_plan :
  let plan db := is_ok (planFrom (retainChains db) (toBase oldBase (mkOpTime (mkTS 150 0) 3) (mkOpTime (mkTS 160 0) 3)) (mkTS 250 0)) in
  lateRun.2 = true /\ lateRun.1.2 !! "b1" = Some oldBase /\
  plan (run retainOps emptyDB) = true /\ plan lateRun.1.1 = false.
Proof. vm_compute. done. Qed.

Lemma retention_keeps_newest_witness :
  ∃ n, (retained emptySnapshot).1.2 !! bbID n = Some n /\ bsEligible (baseStatus (ssChains retainStatus) n) = true /\
    bbStartedAt oldBase <= bbStartedAt n.
Proof.
  apply (retention_keeps_newest retainOps 0 (retainEnv emptySnapshot) "s" retainBases retainStatus
    (retained emptySnapshot).1.1 (retained emptySnapshot).1.2 oldBase).
  - exact retainBases_keyed.
  - vm_compute. reflexivity.
  - vm_compute. reflexivity.
  - reflexivity.
  - vm_compute. reflexivity.
  - vm_compute. discriminate.
Defined.

Lemma retention_spares_pins_witness :
  dbChunks (retained (mkSnapshot ∅ {["k1"]} ∅ [])).1.1 !! "k1" = dbChunks (run retainOps emptyDB) !! "k1".
Proof.
  apply (retention_spares_pins retainOps (retainEnv (mkSnapshot ∅ {["k1"]} ∅ [])) "s" retainBases
    (retained (mkSnapshot ∅ {["k1"]} ∅ [])).1.1 (retained (mkSnapshot ∅ {["k1"]} ∅ [])).1.2 true "k1").
  - vm_compute. reflexivity.
  - reflexivity.
Defined.
