(* ===== verification/Oplog.v ===== *)
(** * Range reads of the oplog (src/internal/mongoconn/oplog.go, src/internal/pitr/pitr.go)

    [copyOplog] proves the continuity of a range while it copies it: the first entry
    must be the one the range continues from, with its term, entries must increase, and
    the last must be the end of the range. Over the logs of replica set members these
    checks pin a range down to one history. *)

From S2P Require Import Prelude Pitr.

Record OplogWindow : Type := mkOplogWindow {
  owOldest : Timestamp;
  owNewest : Timestamp;
  owMajority : OpTime;
  owReplicaSet : string;
  owReplicaSetID : string
}.

Record OplogRange : Type := mkRange {
  rgFrom : Timestamp;
  rgTo : Timestamp;
  rgCheckTerm : bool;
  rgFromTerm : Z;
  rgInclusive : bool
}.

Definition zeroOp : OpTime := mkOpTime zeroTS 0.

Record OplogStats : Type := mkStats { osEntries : Z; osFirst : OpTime; osLast : OpTime }.

(** An oplog entry: its position, with the term, and the rest of its document. *)
Record Entry : Type := mkEntry { eOp : OpTime; eData : string }.

#[global] Instance Entry_eq_dec : EqDecision Entry.
Proof. solve_decision. Defined.

Definition eTS (e : Entry) : Timestamp := otTS (eOp e).

(** [ErrConsumerStopped] is the error of a writer nobody reads from any more
    (errConsumerStopped of collector/chunk.go); other failures are [ErrReadOther]. *)
Inductive ReadErr : Type := ErrOplogGap | ErrOplogBehind | ErrInvalidRange | ErrConsumerStopped | ErrReadOther.

#[global] Instance ReadErr_eq_dec : EqDecision ReadErr.
Proof. solve_decision. Defined.

(** What the server's cursor gives: documents, [None] for one without a timestamp, and
    whether it ended with an error. *)
Record Cursor : Type := mkCursor { cuDocs : list (option Entry); cuErr : bool }.

(** The variables of the loop of [copyOplog], with what was written. *)
Record CopyState : Type := mkCopy {
  cyStats : OplogStats;
  cyPrev : Timestamp;
  cyStarted : bool;
  cyOut : list Entry
}.

Definition copyStart : CopyState := mkCopy (mkStats 0 zeroOp zeroOp) zeroTS false [].

(** The writer: its error on an entry when it has taken [n] entries, if any. *)
Definition Writer : Type := nat -> Entry -> option ReadErr.

(** The end of the loop body: the entry is written and counted. *)
Definition writeEntry (put : Writer) (e : Entry) (s : CopyState) : result ReadErr CopyState :=
  match put (length (cyOut s)) e with
  | Some err => Err err
  | None =>
      let st := cyStats s in
      Ok (mkCopy (mkStats (osEntries st + 1) (if osEntries st =? 0 then eOp e else osFirst st) (eOp e)) (eTS e) true
            (cyOut s ++ [e]))
  end.

Definition copyEntry (r : OplogRange) (put : Writer) (d : option Entry) (s : CopyState) : result ReadErr CopyState :=
  match d with
  | None => Err ErrReadOther
  | Some e =>
      if negb (cyStarted s) then
        if negb (bool_decide (eTS e = rgFrom r)) then Err ErrOplogGap
        else if rgCheckTerm r && negb (otTerm (eOp e) =? rgFromTerm r) then Err ErrOplogGap
        else
          let s := mkCopy (cyStats s) (eTS e) true (cyOut s) in
          if negb (rgInclusive r) then Ok s else writeEntry put e s
      else if Compare (eTS e) (cyPrev s) <=? 0 then Err ErrReadOther
      else writeEntry put e s
  end.

Fixpoint copyLoop (r : OplogRange) (put : Writer) (docs : list (option Entry)) (s : CopyState) : result ReadErr CopyState :=
  match docs with
  | [] => Ok s
  | d :: docs =>
      match copyEntry r put d s with
      | Err e => Err e
      | Ok s => copyLoop r put docs s
      end
  end.

Definition copyOplog (r : OplogRange) (put : Writer) (cur : Cursor) : result ReadErr CopyState :=
  match copyLoop r put (cuDocs cur) copyStart with
  | Err e => Err e
  | Ok s =>
      if cuErr cur then Err ErrReadOther
      else if negb (cyStarted s) then Err ErrOplogGap
      else if negb (bool_decide (cyPrev s = rgTo r)) then Err ErrOplogBehind
      else Ok s
  end.

(** [ReadOplog]; [None] for a find that failed. *)
Definition ReadOplog (find : Timestamp -> Timestamp -> option Cursor) (r : OplogRange) (put : Writer)
  : result ReadErr CopyState :=
  if Compare (rgTo r) (rgFrom r) <? 0 then Err ErrInvalidRange
  else match find (rgFrom r) (rgTo r) with
  | None => Err ErrReadOther
  | Some cur => copyOplog r put cur
  end.

(** ** Logs *)

(** The entries of a log, oldest first: positions increase. *)
Definition increasing (m : list Entry) : Prop := StronglySorted (λ a b, tslt (eTS a) (eTS b)) m.

#[global] Instance tsle_dec a b : Decision (tsle a b).
Proof. unfold tsle. apply _. Defined.

#[global] Instance tslt_dec a b : Decision (tslt a b).
Proof. unfold tslt. apply _. Defined.

(** The entries of [m] from [lo] to [hi], and those after [lo]. *)
Definition slice (m : list Entry) (lo hi : Timestamp) : list Entry :=
  filter (λ e, tsle lo (eTS e) /\ tsle (eTS e) hi) m.

Definition sliceAfter (m : list Entry) (lo hi : Timestamp) : list Entry :=
  filter (λ e, tslt lo (eTS e) /\ tsle (eTS e) hi) m.

#[global] Arguments slice : simpl never.
#[global] Arguments sliceAfter : simpl never.

(** A find on a member with log [m]: the entries of the range in order, from the oldest
    the member still has, cut off when the cursor fails. *)
Definition findsFrom (m : list Entry) (find : Timestamp -> Timestamp -> option Cursor) : Prop :=
  ∀ lo hi cur, find lo hi = Some cur ->
    ∃ gone docs, slice m lo hi = gone ++ docs /\ (cuErr cur = false -> cuDocs cur = Some <$> docs).

(** Unfolds the order of positions for [lia]. *)
Ltac tslia := unfold tsle, tslt in *; lia.

Lemma increasing_inj m e1 e2 : increasing m -> e1 ∈ m -> e2 ∈ m -> eTS e1 = eTS e2 -> e1 = e2.
Proof.
  induction 1 as [|e m Hs IH Hf]; [by intros ?%elem_of_nil|]. rewrite Forall_forall in Hf.
  intros [->|H1]%elem_of_cons [->|H2]%elem_of_cons E; [done| | |by apply IH].
  - pose proof (Hf _ H2) as H. rewrite E in H. tslia.
  - pose proof (Hf _ H1) as H. rewrite E in H. tslia.
Qed.

Lemma increasing_filter (P : Entry -> Prop) `{∀ e, Decision (P e)} m : increasing m -> increasing (filter P m).
Proof.
  induction 1 as [|e m Hs IH Hf]; [constructor|]. rewrite filter_cons. destruct (decide (P e)); [|done].
  constructor; [done|]. rewrite Forall_forall in *. intros x [_ Hx]%list_elem_of_filter. auto.
Qed.

Lemma elem_of_slice m lo hi e : e ∈ slice m lo hi <-> tsle lo (eTS e) /\ tsle (eTS e) hi /\ e ∈ m.
Proof. unfold slice. rewrite list_elem_of_filter. tauto. Qed.

Lemma elem_of_sliceAfter m lo hi e : e ∈ sliceAfter m lo hi <-> tslt lo (eTS e) /\ tsle (eTS e) hi /\ e ∈ m.
Proof. unfold sliceAfter. rewrite list_elem_of_filter. tauto. Qed.

(** Keeping a downward closed part of a log and what comes after it. *)
Lemma filter_split (P Q R : Entry -> Prop) `{∀ e, Decision (P e), ∀ e, Decision (Q e), ∀ e, Decision (R e)} m :
  increasing m -> (∀ e, e ∈ m -> P e <-> Q e \/ R e) -> (∀ a b, Q a -> R b -> tslt (eTS a) (eTS b)) ->
  filter P m = filter Q m ++ filter R m.
Proof.
  intros Hm. induction Hm as [|x m Hs IH Hf]; intros Hiff HQR; [done|]. rewrite Forall_forall in Hf.
  rewrite !filter_cons, IH by (done || (intros; apply Hiff; by right)). pose proof (Hiff x ltac:(left)) as Hx.
  destruct (decide (Q x)) as [HQ|HQ].
  - rewrite decide_True by tauto. rewrite decide_False; [done|]. intros HR. pose proof (HQR x x HQ HR). tslia.
  - destruct (decide (R x)) as [HR|HR]; [|by rewrite decide_False by tauto].
    rewrite decide_True by tauto. assert (filter Q m = []) as ->; [|done].
    apply elem_of_nil_inv. intros y [HQy Hy]%list_elem_of_filter.
    pose proof (Hf _ Hy). pose proof (HQR _ _ HQy HR). tslia.
Qed.

Lemma slice_split m lo mid hi :
  increasing m -> tsle lo mid -> tsle mid hi -> slice m lo hi = slice m lo mid ++ sliceAfter m mid hi.
Proof. intros Hm H1 H2. apply filter_split; [done|intros e _; tslia|intros; tslia]. Qed.

Lemma sliceAfter_split m lo mid hi :
  increasing m -> tsle lo mid -> tsle mid hi -> sliceAfter m lo hi = sliceAfter m lo mid ++ sliceAfter m mid hi.
Proof. intros Hm H1 H2. apply filter_split; [done|intros e _; tslia|intros; tslia]. Qed.

(** A range from an entry of the log is that entry and what follows. *)
Lemma slice_from m e hi :
  increasing m -> e ∈ m -> tsle (eTS e) hi -> slice m (eTS e) hi = e :: sliceAfter m (eTS e) hi.
Proof.
  intros Hm Hin Hle. rewrite (slice_split m (eTS e) (eTS e) hi) by (done || apply tsle_refl).
  assert (slice m (eTS e) (eTS e) = [e]) as ->; [|done]. unfold slice.
  induction Hm as [|x m Hs IH Hf]; [by apply elem_of_nil in Hin|]. rewrite Forall_forall in Hf. rewrite filter_cons.
  apply elem_of_cons in Hin as [<-|Hin].
  - rewrite decide_True by (split; apply tsle_refl). f_equal. apply elem_of_nil_inv.
    intros y [[_ Hy] Hin]%list_elem_of_filter. pose proof (Hf _ Hin). tslia.
  - pose proof (Hf _ Hin). rewrite decide_False by tslia. by apply IH.
Qed.

(** ** What a range read proves *)

Lemma default_last_cons {A B} (f : A -> B) x l d : default (f x) (f <$> last l) = default d (f <$> last (x :: l)).
Proof. rewrite last_cons. by destruct (last l). Qed.

(** A loop that has started appends every document it sees, in increasing order. *)
Lemma copyLoop_started r put docs s s' :
  copyLoop r put docs s = Ok s' -> cyStarted s = true ->
  ∃ es, docs = Some <$> es /\ cyOut s' = cyOut s ++ es /\ cyStarted s' = true /\
    cyPrev s' = default (cyPrev s) (eTS <$> last es) /\
    cyStats s' = foldl (λ st e, mkStats (osEntries st + 1) (if osEntries st =? 0 then eOp e else osFirst st) (eOp e)) (cyStats s) es.
Proof.
  revert s. induction docs as [|d docs IH]; intros s; simpl.
  { intros [= <-] ?. exists []. by rewrite app_nil_r. }
  destruct (copyEntry r put d s) as [s1|] eqn:E; [|done]. intros HL Hst. destruct d as [e|]; [|done]. simpl in E.
  rewrite Hst in E. simpl in E. destruct (_ <=? 0); [done|]. unfold writeEntry in E.
  destruct (put _ e); [done|]. injection E as <-.
  destruct (IH _ HL eq_refl) as (es & -> & Ho & Hs & Hp & Hst'). exists (e :: es). simpl in *.
  split_and!; try done; [by rewrite Ho, <- app_assoc|].
  rewrite Hp. apply default_last_cons.
Qed.

(** The statistics of entries written from the start. *)
Definition statsOf (es : list Entry) : OplogStats :=
  mkStats (Z.of_nat (length es)) (default zeroOp (eOp <$> head es)) (default zeroOp (eOp <$> last es)).

Lemma foldl_stats es : ∀ st, 0 <= osEntries st ->
  foldl (λ st e, mkStats (osEntries st + 1) (if osEntries st =? 0 then eOp e else osFirst st) (eOp e)) st es =
  mkStats (osEntries st + Z.of_nat (length es)) (if osEntries st =? 0 then default (osFirst st) (eOp <$> head es) else osFirst st)
    (default (osLast st) (eOp <$> last es)).
Proof.
  induction es as [|e es IH]; intros st Hst; simpl.
  { destruct st as [n f l]; simpl in *. rewrite Z.add_0_r. by case_match. }
  rewrite IH by (simpl; lia). simpl. f_equal; [lia| |].
  - rewrite (proj2 (Z.eqb_neq (osEntries st + 1) 0)) by lia. done.
  - apply default_last_cons.
Qed.

Lemma copyOplog_ok r put cur s :
  copyOplog r put cur = Ok s ->
  cuErr cur = false /\ ∃ e es, cuDocs cur = Some <$> (e :: es) /\ eTS e = rgFrom r /\
    (rgCheckTerm r = true -> otTerm (eOp e) = rgFromTerm r) /\
    cyOut s = (if rgInclusive r then e :: es else es) /\ cyStats s = statsOf (cyOut s) /\
    default (rgFrom r) (eTS <$> last es) = rgTo r.
Proof.
  unfold copyOplog. destruct (cuDocs cur) as [|d docs] eqn:Hd; simpl.
  { destruct (cuErr cur); done. }
  destruct (copyEntry r put d copyStart) as [s1|] eqn:E; [|done].
  destruct (copyLoop r put docs s1) as [s2|] eqn:EL; [|done].
  destruct (cuErr cur) eqn:Hce; [done|]. destruct (negb (cyStarted s2)) eqn:Hs2; [done|].
  destruct (negb (bool_decide (cyPrev s2 = rgTo r))) eqn:Hp; [done|]. bool_cases. intros [= <-]. split; [done|].
  destruct d as [e|]; [|done]. simpl in E. destruct (negb (bool_decide (eTS e = rgFrom r))) eqn:Hf; [done|]. bool_cases.
  destruct (rgCheckTerm r && negb (otTerm (eOp e) =? rgFromTerm r)) eqn:Ht; [done|].
  assert (cyStarted s1 = true /\ cyPrev s1 = rgFrom r /\ cyOut s1 = (if rgInclusive r then [e] else []) /\
    cyStats s1 = statsOf (cyOut s1)) as (Hst & Hpr & Ho & Hstat).
  { destruct (rgInclusive r); simpl in E; [|by injection E as <-]. unfold writeEntry in E.
    destruct (put _ e); [done|]. by injection E as <-. }
  destruct (copyLoop_started _ _ _ _ _ EL Hst) as (es & -> & Ho2 & _ & Hp2 & Hst2). exists e, es.
  split_and!; [done|done| | | |].
  - intros Hc. rewrite Hc in Ht. simpl in Ht. lia.
  - rewrite Ho2, Ho. by destruct (rgInclusive r).
  - rewrite Hst2, Hstat, foldl_stats by (unfold statsOf; simpl; lia). rewrite Ho2, Ho. unfold statsOf.
    destruct (rgInclusive r); simpl; f_equal; try lia. apply default_last_cons.
  - congruence.
Qed.

(** A range read that succeeds on a member with log [m] wrote exactly the entries of
    the range, and both its ends are entries of the log, the first with the term asked
    for. *)
Lemma ReadOplog_exact m find r put s :
  increasing m -> findsFrom m find -> ReadOplog find r put = Ok s ->
  (∃ e, e ∈ m /\ eTS e = rgFrom r /\ (rgCheckTerm r = true -> otTerm (eOp e) = rgFromTerm r)) /\
  (if decide (cyOut s = []) then rgTo r = rgFrom r else ∃ e, e ∈ m /\ eTS e = rgTo r /\ osLast (cyStats s) = eOp e) /\
  tsle (rgFrom r) (rgTo r) /\
  cyOut s = (if rgInclusive r then slice else sliceAfter) m (rgFrom r) (rgTo r) /\ cyStats s = statsOf (cyOut s).
Proof.
  intros Hm Hf. unfold ReadOplog. destruct (Compare (rgTo r) (rgFrom r) <? 0) eqn:Hc; [done|]. compare_cases.
  destruct (find (rgFrom r) (rgTo r)) as [cur|] eqn:Hfind; [|done].
  intros (Hce & e & es & Hd & He & Ht & Ho & Hst & Hto)%copyOplog_ok.
  destruct (Hf _ _ _ Hfind) as (gone & docs & Hsl & Hdocs). rewrite (Hdocs Hce) in Hd.
  apply (inj (fmap Some)) in Hd as ->.
  assert (e ∈ m /\ gone = []) as [Hin ->].
  { split; [apply (elem_of_slice m (rgFrom r) (rgTo r)); rewrite Hsl; set_solver|].
    pose proof (increasing_filter (λ e, tsle (rgFrom r) (eTS e) /\ tsle (eTS e) (rgTo r)) m Hm) as Hinc.
    fold (slice m (rgFrom r) (rgTo r)) in Hinc. rewrite Hsl in Hinc. destruct gone as [|g gone]; [done|]. exfalso.
    apply StronglySorted_inv in Hinc as [_ Hall]. rewrite Forall_forall in Hall.
    pose proof (Hall e ltac:(set_solver)) as Hlt. rewrite He in Hlt.
    assert (g ∈ slice m (rgFrom r) (rgTo r)) as (? & _)%elem_of_slice by (rewrite Hsl; left). tslia. }
  assert (Hse := slice_from m e (rgTo r) Hm Hin). rewrite He in Hse. specialize (Hse Hc).
  rewrite Hsl in Hse. simpl in Hse, Hsl. injection Hse as ->.
  split_and!; [by eauto| |done| |done].
  - rewrite Hst. unfold statsOf. simpl.
    destruct (last (sliceAfter m (rgFrom r) (rgTo r))) as [e'|] eqn:El; simpl in Hto.
    + assert (last (cyOut s) = Some e') as Hl by (rewrite Ho; destruct (rgInclusive r); [by rewrite last_cons, El|done]).
      destruct (decide _) as [E|_]; [by rewrite E in Hl|]. exists e'. rewrite Hl.
      apply last_Some_elem_of, elem_of_sliceAfter in El. tauto.
    + apply last_None in El. rewrite El in *. rewrite Ho. destruct (rgInclusive r); simpl; [|done].
      exists e. split_and!; [done|congruence|done].
  - rewrite Ho. by destruct (rgInclusive r).
Qed.
