(* ===== verification/ChunkKeys.v ===== *)
(** * Names of chains and chunk objects (src/internal/pitr/collector/collector.go, worker.go)

    The storage key of a chunk names its chain and its range. Within one stream no two
    chunks with different ranges or chains share a key. *)

From S2P Require Import Prelude Pitr Glob Calendar.

(** [models.SanitizeIDComponent] without a length limit: runes other than ASCII letters,
    digits, [_] and [-] become [_]. *)
Definition idRune (r : Z) : bool :=
  ((97 <=? r) && (r <=? 122)) || ((65 <=? r) && (r <=? 90)) || ((48 <=? r) && (r <=? 57)) || (r =? 95) || (r =? 45).

Definition SanitizeIDComponent (s : string) : string :=
  foldr (λ r t, String (if idRune r then Ascii.ascii_of_N (Z.to_N r) else Ascii.ascii_of_N 95) t) EmptyString (runes s).

(** [Timestamp.String], followed by [rest]: two numbers of ten digits. *)
Definition tsString (ts : Timestamp) (rest : string) : string :=
  padded 10 (tsT ts) ("." +:+ padded 10 (tsI ts) rest).

Definition KeyPrefix : string := "_mongorescue/oplog/".

Definition chunkFile (from to : Timestamp) : string := tsString from ("-" +:+ tsString to ".bson.gz.age").

Definition ChunkKey (st : Stream) (chainID : string) (from to : Timestamp) : string :=
  KeyPrefix +:+ SanitizeIDComponent (sConnectionID st) +:+ "/" +:+ SanitizeIDComponent (sReplicaSet st) +:+ "/" +:+
  chainID +:+ "/" +:+ chunkFile from to.

(** [at.UTC().Format("20060102T150405Z")], followed by [rest], for the years 0 to 9999. *)
Definition compactTime (t : Z) (rest : string) : string :=
  let '(y, m, d) := civil (t / day) in
  let s := t mod day / second in
  padded 4 y (padded 2 m (padded 2 d ("T" +:+ padded 2 (s / 3600) (padded 2 (s / 60 mod 60) (padded 2 (s mod 60) ("Z" +:+ rest)))))).

(** [newID]: [random] is the hexadecimal text of eight random bytes. *)
Definition newID (prefix random : string) : string := prefix +:+ random.

Definition newChainID (at_ : Z) (random : string) : string := newID ("ch_" +:+ compactTime at_ "_") random.

(** ** Injectivity *)

Lemma tsString_length ts rest : String.length (tsString ts rest) = (21 + String.length rest)%nat.
Proof. unfold tsString. rewrite padded_length, str_length_app, padded_length. simpl. lia. Qed.

Lemma tsString_inj a b rest rest' : tsValid a -> tsValid b -> tsString a rest = tsString b rest' -> a = b /\ rest = rest'.
Proof.
  destruct a as [aT aI], b as [bT bI]. unfold tsValid, tsString; cbn [tsT tsI]. intros [? ?] [? ?] E.
  apply padded_inj in E as [-> E]; [|lia..]. apply str_app_inj_l in E.
  apply padded_inj in E as [-> ->]; [done|lia..].
Qed.

(** The key determines the range; with chain IDs of one length, the chain too. *)
Lemma ChunkKey_inj st st' c c' f f' t t' :
  tsValid f -> tsValid f' -> tsValid t -> tsValid t' -> String.length c = String.length c' ->
  ChunkKey st c f t = ChunkKey st' c' f' t' -> c = c' /\ f = f' /\ t = t'.
Proof.
  intros Hf Hf' Ht Ht' Hc E. unfold ChunkKey in E. rewrite <- !str_app_assoc in E.
  apply str_app_inj in E as [E Ek].
  - apply str_app_inj in E as [E _]; [|done]. apply str_app_inj in E as [_ ->]; [|done]. split; [done|].
    unfold chunkFile in Ek. apply tsString_inj in Ek as [-> Ek]; [|done..]. apply str_app_inj in Ek as [_ Ek].
    + by apply tsString_inj in Ek as [-> _].
    + by rewrite !tsString_length.
  - unfold chunkFile. by rewrite !tsString_length, !str_length_app, !tsString_length.
Qed.

Lemma newChainID_length at_ random : String.length (newChainID at_ random) = (20 + String.length random)%nat.
Proof.
  unfold newChainID, newID, compactTime. destruct (civil (at_ / day)) as [[y m] d].
  rewrite !str_length_app, !padded_length, str_length_app, !padded_length, str_length_app. simpl. lia.
Qed.
