(* ===== verification/Collector.v ===== *)
(** * The oplog collector (src/internal/pitr/collector/worker.go, chunk.go)

    The worker of one stream. A tick loads the stored position, pins a member of the
    replica set, decides whether the chain can go on, and writes and commits the next
    chunk. The world is the worker, the repository's tables, the objects of the storage
    targets and the effects on other services; every call to something outside the
    process (a member, the repository, the storage, the clock) is numbered, and the
    environment [Env] answers call number [n], so any call may fail at any time. *)

From S2P Require Import Prelude Pitr PitrStore Oplog ChunkKeys.

(** ** Configuration and environment *)

Definition minLagThreshold : Z := 5 * minute.
Definition lagIntervals : Z := 5.
Definition minHeadroom : Z := 6 * hour.
Definition behindRetries : Z := 3.
Definition behindDelay : Z := second.
Definition maxFailureDelay : Z := minute.
Definition maxGapBackoff : Z := 10 * minute.
Definition brokenEventEvery : Z := 10 * minute.

Definition DefaultChunkSeconds : Z := 60.
Definition MinChunkSeconds : Z := 15.
Definition MaxChunkSeconds : Z := 900.
Definition DefaultMaxChunkBytes : Z := 4 * 2 ^ 30.

Definition LagThreshold (interval : Z) : Z := Z.max minLagThreshold (i64 (lagIntervals * interval)).
Definition HeadroomThreshold (lag : Z) : Z := Z.max minHeadroom (i64 (3 * lag)).

(** A reader of the oplog ([Member]): the answers to call number [n]; [None] is an error. *)
Record Member : Type := mkMember {
  mbWindow : nat -> option OplogWindow;
  mbEntryAt : nat -> Timestamp -> option (option Z);
  mbEntryAtOrAfter : nat -> Timestamp -> option (option OpTime);
  mbFind : nat -> Timestamp -> Timestamp -> option Cursor
}.

(** The member before the first pin. *)
Definition nilMember : Member := mkMember (λ _, None) (λ _ _, None) (λ _ _, None) (λ _ _ _, None).

(** What the process meets during a tick. *)
Record Env : Type := mkEnv {
  evNow : nat -> Z;                                    (** the clock *)
  evRand : nat -> string;                              (** eight random bytes in hex *)
  evFault : nat -> bool;                               (** the repository fails *)
  evOpen : nat -> bool;                                (** [Config.Open] succeeds *)
  evPin : nat -> Timestamp -> option Member;           (** [Session.Pin] *)
  evPrimary : Member;                                  (** [Session.Primary] *)
  evEncryptor : nat -> option string;                  (** the encryption mode, when on *)
  evStorage : nat -> bool;                             (** [Config.Storage] succeeds *)
  evFence : nat -> bool;                               (** the HA fence passes *)
  evDocPos : Entry -> option OpTime;                   (** what the scanner reads of an entry *)
  evRoom : nat -> option nat;                          (** entries taken before the upload stops reading *)
  evSave : nat -> option (option (string * option Z)); (** [Storage.Save] *)
  evPartial : nat -> option (list Entry);              (** what an upload without a full read leaves *)
  evSize : list Entry -> Z;                            (** the bytes of a sealed chunk *)
  evRaw : list Entry -> Z;                             (** the bytes of its entries *)
  evSHA : list Entry -> string;
  evPurge : nat -> bool;                               (** [storage.Purge] succeeds *)
  evHasBase : bool;                                    (** [Config.StartBase] is set *)
  evStartBase : nat -> bool;                           (** it succeeds *)
  evMaxChunkBytes : Z;
  evCancelled : bool                                   (** the context ended during the tick *)
}.

(** ** The worker *)

(** [Live] of worker.go. *)
Record LiveState : Type := mkLive {
  lvLag : Z;
  lvHeadroom : Z;
  lvOldest : Timestamp;
  lvNewest : Timestamp;
  lvInterval : Z;
  lvCatchingUp : bool;
  lvWindowLow : bool;
  lvLastTick : Z
}.

Record worker : Type := mkWorker {
  wkStream : Stream;
  wkSess : bool;
  wkM : Member;
  wkInterval : Z;
  wkChecked : bool;
  wkInclusive : bool;
  wkRsID : string;
  wkFailing : bool;
  wkLagSince : option Z;
  wkWindowLow : bool;
  wkBehind : Z;
  wkEmptyAt : Timestamp;
  wkGapBackoff : Z;
  wkBrokenEventAt : Z;
  wkLive : LiveState
}.

(** Assignments to the fields of a worker. *)
Definition setStream (x : Stream) (w : worker) : worker :=
  mkWorker x (wkSess w) (wkM w) (wkInterval w) (wkChecked w) (wkInclusive w) (wkRsID w) (wkFailing w)
    (wkLagSince w) (wkWindowLow w) (wkBehind w) (wkEmptyAt w) (wkGapBackoff w) (wkBrokenEventAt w)
    (wkLive w).
Definition setSess (x : bool) (w : worker) : worker :=
  mkWorker (wkStream w) x (wkM w) (wkInterval w) (wkChecked w) (wkInclusive w) (wkRsID w) (wkFailing w)
    (wkLagSince w) (wkWindowLow w) (wkBehind w) (wkEmptyAt w) (wkGapBackoff w) (wkBrokenEventAt w)
    (wkLive w).
Definition setM (x : Member) (w : worker) : worker :=
  mkWorker (wkStream w) (wkSess w) x (wkInterval w) (wkChecked w) (wkInclusive w) (wkRsID w)
    (wkFailing w) (wkLagSince w) (wkWindowLow w) (wkBehind w) (wkEmptyAt w) (wkGapBackoff w)
    (wkBrokenEventAt w) (wkLive w).
Definition setInterval (x : Z) (w : worker) : worker :=
  mkWorker (wkStream w) (wkSess w) (wkM w) x (wkChecked w) (wkInclusive w) (wkRsID w) (wkFailing w)
    (wkLagSince w) (wkWindowLow w) (wkBehind w) (wkEmptyAt w) (wkGapBackoff w) (wkBrokenEventAt w)
    (wkLive w).
Definition setChecked (x : bool) (w : worker) : worker :=
  mkWorker (wkStream w) (wkSess w) (wkM w) (wkInterval w) x (wkInclusive w) (wkRsID w) (wkFailing w)
    (wkLagSince w) (wkWindowLow w) (wkBehind w) (wkEmptyAt w) (wkGapBackoff w) (wkBrokenEventAt w)
    (wkLive w).
Definition setInclusive (x : bool) (w : worker) : worker :=
  mkWorker (wkStream w) (wkSess w) (wkM w) (wkInterval w) (wkChecked w) x (wkRsID w) (wkFailing w)
    (wkLagSince w) (wkWindowLow w) (wkBehind w) (wkEmptyAt w) (wkGapBackoff w) (wkBrokenEventAt w)
    (wkLive w).
Definition setRsID (x : string) (w : worker) : worker :=
  mkWorker (wkStream w) (wkSess w) (wkM w) (wkInterval w) (wkChecked w) (wkInclusive w) x (wkFailing w)
    (wkLagSince w) (wkWindowLow w) (wkBehind w) (wkEmptyAt w) (wkGapBackoff w) (wkBrokenEventAt w)
    (wkLive w).
Definition setFailing (x : bool) (w : worker) : worker :=
  mkWorker (wkStream w) (wkSess w) (wkM w) (wkInterval w) (wkChecked w) (wkInclusive w) (wkRsID w) x
    (wkLagSince w) (wkWindowLow w) (wkBehind w) (wkEmptyAt w) (wkGapBackoff w) (wkBrokenEventAt w)
    (wkLive w).
Definition setLagSince (x : option Z) (w : worker) : worker :=
  mkWorker (wkStream w) (wkSess w) (wkM w) (wkInterval w) (wkChecked w) (wkInclusive w) (wkRsID w)
    (wkFailing w) x (wkWindowLow w) (wkBehind w) (wkEmptyAt w) (wkGapBackoff w) (wkBrokenEventAt w)
    (wkLive w).
Definition setWindowLow (x : bool) (w : worker) : worker :=
  mkWorker (wkStream w) (wkSess w) (wkM w) (wkInterval w) (wkChecked w) (wkInclusive w) (wkRsID w)
    (wkFailing w) (wkLagSince w) x (wkBehind w) (wkEmptyAt w) (wkGapBackoff w) (wkBrokenEventAt w)
    (wkLive w).
Definition setBehind (x : Z) (w : worker) : worker :=
  mkWorker (wkStream w) (wkSess w) (wkM w) (wkInterval w) (wkChecked w) (wkInclusive w) (wkRsID w)
    (wkFailing w) (wkLagSince w) (wkWindowLow w) x (wkEmptyAt w) (wkGapBackoff w) (wkBrokenEventAt w)
    (wkLive w).
Definition setEmptyAt (x : Timestamp) (w : worker) : worker :=
  mkWorker (wkStream w) (wkSess w) (wkM w) (wkInterval w) (wkChecked w) (wkInclusive w) (wkRsID w)
    (wkFailing w) (wkLagSince w) (wkWindowLow w) (wkBehind w) x (wkGapBackoff w) (wkBrokenEventAt w)
    (wkLive w).
Definition setGapBackoff (x : Z) (w : worker) : worker :=
  mkWorker (wkStream w) (wkSess w) (wkM w) (wkInterval w) (wkChecked w) (wkInclusive w) (wkRsID w)
    (wkFailing w) (wkLagSince w) (wkWindowLow w) (wkBehind w) (wkEmptyAt w) x (wkBrokenEventAt w)
    (wkLive w).
Definition setBrokenEventAt (x : Z) (w : worker) : worker :=
  mkWorker (wkStream w) (wkSess w) (wkM w) (wkInterval w) (wkChecked w) (wkInclusive w) (wkRsID w)
    (wkFailing w) (wkLagSince w) (wkWindowLow w) (wkBehind w) (wkEmptyAt w) (wkGapBackoff w) x
    (wkLive w).
Definition setLive (x : LiveState) (w : worker) : worker :=
  mkWorker (wkStream w) (wkSess w) (wkM w) (wkInterval w) (wkChecked w) (wkInclusive w) (wkRsID w)
    (wkFailing w) (wkLagSince w) (wkWindowLow w) (wkBehind w) (wkEmptyAt w) (wkGapBackoff w)
    (wkBrokenEventAt w) x.

Definition configuredOf (st : Stream) : Z :=
  i64 ((if sChunkSeconds st <=? 0 then DefaultChunkSeconds else sChunkSeconds st) * second).

Definition newWorker (st : Stream) : worker :=
  mkWorker st false nilMember (configuredOf st) false false "" false None false 0 zeroTS 0 0
    (mkLive 0 0 zeroTS zeroTS 0 false false 0).

Definition configured (w : worker) : Z := configuredOf (wkStream w).

Inductive EventType : Type :=
| PITRCollectorFailed | PITRCollectorRecovered | PITRChainBroken | PITRDiverged | PITRLagHigh | PITRLagRecovered
| PITRWindowLow.

#[global] Instance EventType_eq_dec : EqDecision EventType.
Proof. solve_decision. Defined.

(** Effects on other services: an event, a base backup that was asked for (and whether it
    started), a reload of the supervisor, a failed commit reported to [OnWriteError]. *)
Inductive Effect : Type :=
| Published (t : EventType)
| BaseAsked (started : bool)
| Reloaded
| WriteErrorReported.

(** ** The world and its computations *)

Record World : Type := mkWorld {
  wdW : worker;
  wdDB : DB;
  wdObjects : gmap (string * string) (list Entry);
  wdEffects : list Effect;
  wdN : nat
}.

(** Errors; only those the code tells apart. *)
Inductive CErr : Type := CRead (e : ReadErr) | CFail.

Definition M (A : Type) : Type := World -> World * result CErr A.

#[global] Instance M_ret : MRet M := λ A a w, (w, Ok a).
#[global] Instance M_bind : MBind M := λ A B k c w,
  match c w with
  | (w, Ok a) => k a w
  | (w, Err e) => (w, Err e)
  end.

Definition raise {A} (e : CErr) : M A := λ w, (w, Err e).
Definition getW : M worker := λ w, (w, Ok (wdW w)).
Definition modW (f : worker -> worker) : M unit := λ w,
  (mkWorld (f (wdW w)) (wdDB w) (wdObjects w) (wdEffects w) (wdN w), Ok tt).
Definition effect (x : Effect) : M unit := λ w,
  (mkWorld (wdW w) (wdDB w) (wdObjects w) (wdEffects w ++ [x]) (wdN w), Ok tt).
Definition publish (t : EventType) : M unit := effect (Published t).

(** The number of the next call. *)
Definition call : M nat := λ w, (mkWorld (wdW w) (wdDB w) (wdObjects w) (wdEffects w) (S (wdN w)), Ok (wdN w)).

Definition setObject (k : string * string) (o : option (list Entry)) : M unit := λ w,
  (mkWorld (wdW w) (wdDB w) (partial_alter (λ _, o) k (wdObjects w)) (wdEffects w) (wdN w), Ok tt).

(** The value of an answer, or the failure of the call. *)
Definition need {A} (x : option A) : M A := match x with Some a => mret a | None => raise CFail end.

Section Worker.
Context (E : Env).

Definition now : M Z := n ← call; mret (evNow E n).
Definition random : M string := n ← call; mret (evRand E n).

(** A transaction of the repository; [None] is a failure of the database. *)
Definition repo {A} (f : DB -> DB * result PitrErr A) : M (result (option PitrErr) A) :=
  n ← call;
  if evFault E n then mret (Err None)
  else λ w, let '(db, r) := f (wdDB w) in
    (mkWorld (wdW w) db (wdObjects w) (wdEffects w) (wdN w),
     Ok (match r with Ok a => Ok a | Err e => Err (Some e) end)).

(** A query. *)
Definition query {A} (f : DB -> result PitrErr A) : M (result (option PitrErr) A) := repo (λ db, (db, f db)).

Definition orFail {A} (r : result (option PitrErr) A) : M A := match r with Ok a => mret a | Err _ => raise CFail end.

(** A failure other than [e] is returned. *)
Definition orFailUnless (e : PitrErr) (r : result (option PitrErr) unit) : M unit :=
  match r with
  | Ok _ => mret tt
  | Err x => if bool_decide (x = Some e) then mret tt else raise CFail
  end.

(** Calls on the current member. *)
Definition memberWindow : M OplogWindow := n ← call; w ← getW; need (mbWindow (wkM w) n).
Definition memberEntryAt (ts : Timestamp) : M (option Z) := n ← call; w ← getW; need (mbEntryAt (wkM w) n ts).
Definition memberEntryAtOrAfter (ts : Timestamp) : M (option OpTime) :=
  n ← call; w ← getW; need (mbEntryAtOrAfter (wkM w) n ts).

Definition checkFence : M bool := n ← call; mret (evFence E n).

(** ** Alerts and recorded status *)

Definition setLagSinceDB (st : PState) : M unit :=
  let status := if bool_decide (stStatus st = CollectorNone) || bool_decide (stStatus st = CollectorStopped)
                then CollectorRunning else stStatus st in
  t ← now; w ← getW;
  _ ← repo (SetCollectorStatus (sID (wkStream w)) status (stLastError st) (wkLagSince w) t);
  mret tt.

Definition setWindowLowDB (since : option Z) : M unit :=
  w ← getW; _ ← repo (SetWindowLow (sID (wkStream w)) since); mret tt.

Definition adoptReplicaSetID (id : string) : M unit :=
  if isEmpty id then mret tt
  else modW (setRsID id);; w ← getW; _ ← repo (SetReplicaSetID (sID (wkStream w)) id); mret tt.

Definition observeLag (st : PState) (win : OplogWindow) (t : Z) : M unit :=
  let newest := if Compare (otTS (owMajority win)) (owNewest win) >? 0 then otTS (owMajority win) else owNewest win in
  let last := otTS (stLast st) in
  let lag := if tsT newest >? tsT last then u32 (tsT newest - tsT last) * second else 0 in
  let headroom := if tsT last >? tsT (owOldest win) then u32 (tsT last - tsT (owOldest win)) * second else 0 in
  let low := headroom <? HeadroomThreshold lag in
  modW (λ w, let l := wkLive w in
    setLive (mkLive lag headroom (lvOldest l) (lvNewest l) (lvInterval l) (lvCatchingUp l) low (lvLastTick l)) w);;
  w ← getW;
  (match lag >? LagThreshold (configured w), wkLagSince w with
   | true, None => modW (setLagSince (Some t));; setLagSinceDB st;; publish PITRLagHigh
   | false, Some _ => modW (setLagSince None);; setLagSinceDB st;; publish PITRLagRecovered
   | _, _ => mret tt
   end);;
  (match low, wkWindowLow w with
   | true, false => modW (setWindowLow true);; setWindowLowDB (Some t);; publish PITRWindowLow
   | false, true => modW (setWindowLow false);; setWindowLowDB None
   | _, _ => mret tt
   end).

(** ** Chains *)

Definition startChain (start : OpTime) : M unit :=
  t1 ← now; r ← random; t2 ← now; w ← getW;
  x ← repo (StartChain (sID (wkStream w)) (newChainID t1 r) start t2);
  orFail x;;
  modW (λ w, setEmptyAt zeroTS (setChecked true (setInclusive true w))).

Definition startAtOldest (win : OplogWindow) : M unit :=
  e ← memberEntryAt (owOldest win);
  match e with
  | None => raise CFail
  | Some term => startChain (mkOpTime (owOldest win) term)
  end.

Definition baseAfterBreak : M unit :=
  w ← getW;
  if negb (sBaseOnGap (wkStream w)) || negb (evHasBase E) then mret tt
  else n ← call;
    if evStartBase E n then effect (BaseAsked true)
    else effect (BaseAsked false);; effect Reloaded.

Definition prev (ts : Timestamp) : Timestamp :=
  if tsI ts >? 0 then mkTS (tsT ts) (tsI ts - 1)
  else if tsT ts >? 0 then mkTS (tsT ts - 1) (2 ^ 32 - 1)
  else ts.

(** The chunks of the state's chain that end at its position or later. *)
Definition lastChunks (st : PState) : M (list Chunk) :=
  w ← getW;
  x ← query (ListChunks (mkQuery (sID (wkStream w)) (stChainID st) (prev (otTS (stLast st))) zeroTS None false));
  orFail x.

Definition chainStartsAt (st : PState) : M bool :=
  w ← getW; x ← query (λ db, Ok (ListChains (sID (wkStream w)) db));
  match x with
  | Err _ => mret false
  | Ok chains =>
      match List.find (λ c, bool_decide (chChainID c = stChainID st)) chains with
      | Some c => mret (bool_decide (chStart c = otTS (stLast st)))
      | None => mret false
      end
  end.

Definition endedChain (id : string) : M (option Chain) :=
  w ← getW; x ← query (λ db, Ok (ListChains (sID (wkStream w)) db));
  chains ← orFail x;
  mret (List.find (λ c, bool_decide (chChainID c = id) && negb (chainOpen c)) chains).

Definition startChecked (st : PState) : M unit :=
  chunks ← lastChunks st;
  incl ← (match chunks with [] => chainStartsAt st | _ => mret false end);
  modW (λ w, setChecked true (setInclusive incl w)).

Definition emptyChunkExists (st : PState) : M bool :=
  chunks ← lastChunks st;
  mret (existsb (λ c, bool_decide (cFrom c = otTS (stLast st)) && bool_decide (cTo c = otTS (stLast st))) chunks).

Definition adjustInterval (rawBytes : Z) : M unit :=
  w ← getW;
  let limit := evMaxChunkBytes E in
  if (rawBytes >? limit) && (wkInterval w >? second) then modW (setInterval (Z.max (Z.quot (wkInterval w) 2) second))
  else if (rawBytes <? Z.quot limit 4) && (wkInterval w <? configured w)
       then modW (setInterval (Z.min (i64 (wkInterval w * 2)) (configured w)))
  else mret tt.

(** [rsChanged]. *)
Definition rsChanged (w : worker) (win : OplogWindow) : bool :=
  negb (bool_decide (owReplicaSet win = sReplicaSet (wkStream w))) ||
  (negb (isEmpty (wkRsID w)) && negb (isEmpty (owReplicaSetID win)) && negb (bool_decide (owReplicaSetID win = wkRsID w))).

Definition afterBreak : M Z :=
  modW (λ w, setGapBackoff (Z.max (Z.min (i64 (2 * wkGapBackoff w)) maxGapBackoff) (wkInterval w)) w);;
  w ← getW; mret (wkGapBackoff w).

Definition setReplicaSet (rs : string) (updated : Z) (st : Stream) : Stream :=
  mkStream (sID st) (sConnectionID st) rs (sTargetID st) (sEnabled st) (sBaseCron st) (sBaseKeepCount st)
    (sBaseKeepDays st) (sOplogMaxDays st) (sChunkSeconds st) (sBaseOnGap st) (sReadPreference st) (sChainTestCron st)
    (sChainTestConnectionID st) (sCopyTargets st) (sCreatedAt st) updated.

Definition breakChain (st : PState) (win : OplogWindow) (reason : EndReason) : M unit :=
  t ← now; w ← getW;
  x ← repo (EndChain (sID (wkStream w)) (stChainID st) (otTS (stLast st)) reason t);
  orFailUnless ErrChainEnded x;;
  (if bool_decide (reason = EndReplicaSetChanged) && negb (isEmpty (owReplicaSet win))
      && negb (bool_decide (owReplicaSet win = sReplicaSet (wkStream w))) then
     t ← now;
     x ← repo (UpdateStream t (setReplicaSet (owReplicaSet win) (sUpdatedAt (wkStream w)) (wkStream w)));
     u ← orFail x;
     modW (setStream (setReplicaSet (owReplicaSet win) (sUpdatedAt u) (wkStream w)))
   else mret tt);;
  t ← now;
  (if IsZero (wkBrokenEventAt w) || (time_sub t (wkBrokenEventAt w) >=? brokenEventEvery)
   then modW (setBrokenEventAt t);; publish PITRChainBroken
   else mret tt);;
  startAtOldest win;;
  adoptReplicaSetID (owReplicaSetID win);;
  baseAfterBreak.

(** The loop of [divergencePoint] over the chunks, newest first. *)
Fixpoint newestGood (win : OplogWindow) (chunks : list Chunk) : M (option Timestamp) :=
  match chunks with
  | [] => mret None
  | c :: chunks =>
      if Compare (cTo c) (owOldest win) <? 0 then mret (Some (cTo c))
      else
        e ← memberEntryAt (cTo c);
        if bool_decide (e = Some (cLastTerm c)) then mret (Some (cTo c)) else newestGood win chunks
  end.

Definition divergencePoint (st : PState) (win : OplogWindow) : M Timestamp :=
  w ← getW;
  x ← query (ListChunks (mkQuery (sID (wkStream w)) (stChainID st) zeroTS zeroTS (Some ChunkCommitted) false));
  chunks ← orFail x;
  p ← newestGood win (reverse chunks);
  match p with
  | Some ts => mret ts
  | None =>
      x ← query (λ db, Ok (ListChains (sID (wkStream w)) db));
      chains ← orFail x;
      match List.find (λ c, bool_decide (chChainID c = stChainID st)) chains with
      | Some c => mret (chStart c)
      | None => mret (otTS (stLast st))
      end
  end.

Definition diverge (st : PState) (win : OplogWindow) : M unit :=
  point ← divergencePoint st win;
  w ← getW;
  x ← repo (λ db, let '(db, n) := SupersedeChunks (sID (wkStream w)) (stChainID st) point db in (db, Ok n));
  orFail x;;
  t ← now;
  x ← repo (EndChain (sID (wkStream w)) (stChainID st) point EndDiverged t);
  orFailUnless ErrChainEnded x;;
  publish PITRDiverged;;
  adoptReplicaSetID (owReplicaSetID win);;
  e ← memberEntryAt point;
  (match e with
   | Some term => startChain (mkOpTime point term)
   | None => startAtOldest win
   end);;
  baseAfterBreak.

(** The window of the primary, whether the chain ended, and the wait. *)
Definition confirm (st : PState) : M (OplogWindow * bool * Z) :=
  modW (setM (evPrimary E));;
  win ← memberWindow;
  w ← getW;
  if rsChanged w win then
    d ← afterBreak; breakChain st win EndReplicaSetChanged;; mret (win, true, d)
  else
    e ← memberEntryAt (otTS (stLast st));
    if bool_decide (e = None) && (Compare (owOldest win) (otTS (stLast st)) >? 0) then
      d ← afterBreak; breakChain st win EndGap;; mret (win, true, d)
    else if negb (bool_decide (e = Some (otTerm (stLast st)))) then
      d ← afterBreak; diverge st win;; mret (win, true, d)
    else mret (win, false, 0).

Definition resumeEnded (c : Chain) (win : OplogWindow) : M Z :=
  w ← getW;
  if bool_decide (chEndReason c = EndStopped) && tsIsZero (otTS (owMajority win)) then mret (wkInterval w)
  else
    (match chEndReason c with
     | EndStopped => startChain (owMajority win)
     | EndDiverged =>
         e ← memberEntryAt (chEnd c);
         match e with
         | Some term => startChain (mkOpTime (chEnd c) term)
         | None => startAtOldest win
         end
     | _ => startAtOldest win
     end);;
    w ← getW;
    (if isEmpty (wkRsID w) then adoptReplicaSetID (owReplicaSetID win) else mret tt);;
    (if negb (bool_decide (chEndReason c = EndStopped)) then baseAfterBreak else mret tt);;
    mret 0.

(** ** Chunks *)

(** The chunk pipeline: an entry the scanner refuses fails the read, and so does one the
    upload no longer takes. *)
Definition pipeline (room : option nat) : Writer := λ n e,
  match evDocPos E e with
  | None => Some ErrReadOther
  | Some _ =>
      match room with
      | Some k => if Nat.leb k n then Some ErrConsumerStopped else None
      | None => None
      end
  end.

(** The scanner's view of the entries it passed on. *)
Definition scanCount (es : list Entry) : Z := Z.of_nat (length es).
Definition scanFirst (es : list Entry) : OpTime := default zeroOp (head es ≫= evDocPos E).
Definition scanLast (es : list Entry) : OpTime := default zeroOp (last es ≫= evDocPos E).

(** [checkScan]; [true] for nil. *)
Definition checkScan (es : list Entry) (stats : OplogStats) : bool :=
  (scanCount es =? osEntries stats) &&
  ((osEntries stats =? 0) ||
   (bool_decide (otTS (scanFirst es) = otTS (osFirst stats)) && bool_decide (otTS (scanLast es) = otTS (osLast stats)))).

(** The producer: the read through the pipeline, and the seal once it is complete. *)
Definition produce (rng : OplogRange) : M (result ReadErr CopyState) :=
  n ← call; w ← getW;
  let room := evRoom E n in
  match ReadOplog (mbFind (wkM w) n) rng (pipeline room) with
  | Err e => mret (Err e)
  | Ok s => mret (match room with Some _ => Err ErrConsumerStopped | None => Ok s end)
  end.

Definition removeObject (k : string * string) : M unit :=
  ok ← checkFence;
  if negb ok then mret tt
  else n ← call; if evPurge E n then setObject k None else mret tt.

(** The upload: the fence, then [Save] of what the producer sends. *)
Definition upload (k : string * string) (read : result ReadErr CopyState) : M (option (option (string * option Z))) :=
  ok ← checkFence;
  if negb ok then mret None
  else
    n ← call;
    match read, evSave E n with
    | Ok s, Some saved => setObject k (Some (cyOut s));; mret (Some saved)
    | _, saved =>
        (match evPartial E n with Some junk => setObject k (Some junk) | None => mret tt end);;
        mret saved
    end.

Definition writeChunk (chainID : string) (rng : OplogRange) (fromTerm : Z) : M (Chunk * Z) :=
  n ← call; mode ← need (evEncryptor E n);
  n ← call;
  if negb (evStorage E n) then raise CFail
  else
  w ← getW;
  let st := wkStream w in
  let key := ChunkKey st chainID (rgFrom rng) (rgTo rng) in
  let obj := (sTargetID st, key) in
  read ← produce rng;
  saved ← upload obj read;
  match read, saved with
  | Err ErrConsumerStopped, None => removeObject obj;; raise CFail
  | Err e, _ => removeObject obj;; raise (CRead e)
  | Ok _, None => removeObject obj;; raise CFail
  | Ok s, Some saved =>
      let stats := cyStats s in
      let es := cyOut s in
      if negb (checkScan es stats) then removeObject obj;; raise CFail
      else
        id ← random; t ← now;
        let c := mkChunk (newID "chk_" id) (sID st) chainID (sTargetID st) key (rgFrom rng) (rgTo rng)
          (if osEntries stats >? 0 then otTerm (osFirst stats) else fromTerm)
          (if osEntries stats >? 0 then otTerm (osLast stats) else fromTerm)
          (osEntries stats) (evSize E es) (evSHA E es) true mode ChunkCommitted t None "" None None
          (match saved with Some (v, _) => v | None => "" end) (match saved with Some (_, r) => r | None => None end) in
        ok ← checkFence;
        if negb ok then removeObject obj;; raise CFail
        else
          t ← now;
          x ← repo (CommitChunk t c);
          match x with
          | Err _ => effect WriteErrorReported;; removeObject obj;; raise CFail
          | Ok _ => mret (c, evRaw E es)
          end
  end.

(** ** A tick *)

(** Opens the session, loads the state, pins a member and reads its window. *)
Definition stepOpen : M (option PState * OplogWindow * Z) :=
  w ← getW;
  (if wkSess w then mret tt
   else n ← call; if evOpen E n then modW (setSess true) else raise CFail);;
  x ← query (LoadState (sID (wkStream w)));
  st ← (match x with
        | Ok st => mret (Some st)
        | Err e => if bool_decide (e = Some ErrNotFound) then mret None else raise CFail
        end);
  n ← call;
  m ← need (evPin E n (match st with Some st => otTS (stLast st) | None => zeroTS end));
  modW (setM m);;
  win ← memberWindow;
  t ← now;
  modW (λ w, let l := wkLive w in
    setLive (mkLive (lvLag l) (lvHeadroom l) (owOldest win) (owNewest win) (wkInterval w) (lvCatchingUp l) (lvWindowLow l) t) w);;
  mret (st, win, t).

(** No state: the first chain of a stream. *)
Definition stepNew (win : OplogWindow) : M Z :=
  w ← getW;
  if tsIsZero (otTS (owMajority win)) then mret (wkInterval w)
  else startChain (owMajority win);; adoptReplicaSetID (owReplicaSetID win);; mret 0.

(** The first look at a stored position; [Some] wait when its chain has ended. *)
Definition stepRestored (st : PState) (win : OplogWindow) : M (option Z) :=
  w ← getW;
  if wkChecked w then mret None
  else
    ended ← endedChain (stChainID st);
    let recall := λ w, setRsID (stReplicaSetID st) (setWindowLow (bool_decide (is_Some (stWindowLowSince st)))
                          (setLagSince (stLagSince st) w)) in
    match ended with
    | Some c => modW recall;; d ← resumeEnded c win; mret (Some d)
    | None => modW (λ w, recall (setFailing (wkFailing w || bool_decide (stStatus st = CollectorFailed)) w));; mret None
    end.

(** The position is checked against the member, or the primary; [inl] wait when the chain
    ended, otherwise the window to go on with. *)
Definition stepPosition (st : PState) (win : OplogWindow) : M (Z + OplogWindow) :=
  w ← getW;
  r ← (if rsChanged w win || (Compare (owOldest win) (otTS (stLast st)) >? 0) then
         '(win, handled, d) ← confirm st; mret (if handled : bool then inl d else inr win)
       else mret (inr win));
  match r with
  | inl d => mret (inl d)
  | inr win =>
      w ← getW;
      (if isEmpty (wkRsID w) then adoptReplicaSetID (owReplicaSetID win) else mret tt);;
      if wkChecked w then mret (inr win)
      else
        e ← memberEntryAt (otTS (stLast st));
        r ← (if negb (bool_decide (e = Some (otTerm (stLast st)))) then
               '(win, handled, d) ← confirm st; mret (if handled : bool then inl d else inr win)
             else mret (inr win));
        match r with
        | inl d => mret (inl d)
        | inr win => startChecked st;; mret (inr win)
        end
  end.

(** The end of the next range, and whether it was capped at one interval. *)
Definition rangeEnd (a b : Timestamp) : M (Timestamp * bool) :=
  w ← getW;
  if u32 (tsT b - tsT a) * second >? wkInterval w then
    op ← memberEntryAtOrAfter (mkTS (u32 (tsT a + u32 (Z.quot (wkInterval w) second))) 0);
    match op with
    | Some op => if (Compare (otTS op) b <? 0) && (Compare (otTS op) a >? 0) then mret (otTS op, true) else mret (b, false)
    | None => mret (b, false)
    end
  else mret (b, false).

(** Whether there is nothing to write: an empty chunk at the position exists. *)
Definition nothingNew (st : PState) (to : Timestamp) : M bool :=
  w ← getW;
  if bool_decide (to = otTS (stLast st)) && negb (wkInclusive w) then
    if bool_decide (wkEmptyAt w = otTS (stLast st)) then mret true
    else
      exists_ ← emptyChunkExists st;
      if exists_ : bool then modW (setEmptyAt (otTS (stLast st)));; mret true else mret false
  else mret false.

(** The outcome of [writeChunk], an error being one to look at. *)
Definition tryWrite (chainID : string) (rng : OplogRange) (fromTerm : Z) : M (result CErr (Chunk * Z)) := λ w,
  let '(w, r) := writeChunk chainID rng fromTerm w in (w, Ok r).

Definition stepWrite (st : PState) (to : Timestamp) (catchUp : bool) : M Z :=
  w ← getW;
  r ← tryWrite (stChainID st) (mkRange (otTS (stLast st)) to true (otTerm (stLast st)) (wkInclusive w)) (otTerm (stLast st));
  match r with
  | Err (CRead ErrOplogBehind) =>
      modW (λ w, setBehind (wkBehind w + 1) w);; w ← getW;
      if wkBehind w <? behindRetries then mret behindDelay
      else modW (setBehind 0);; raise (CRead ErrOplogBehind)
  | Err (CRead ErrOplogGap) =>
      '(_, handled, d) ← confirm st;
      mret (if handled : bool then d else behindDelay)
  | Err e => raise e
  | Ok (c, raw) =>
      modW (λ w, setInclusive false (setBehind 0 w));;
      (if cEntries c =? 0 then modW (setEmptyAt (cTo c)) else mret tt);;
      adjustInterval raw;;
      if catchUp then mret 0
      else modW (setGapBackoff 0);; w ← getW; mret (wkInterval w)
  end.

(** The rest of a step: the range to read from the position on. *)
Definition stepRange (st : PState) (win : OplogWindow) (t : Z) : M Z :=
  let a := otTS (stLast st) in
  let b := otTS (owMajority win) in
  observeLag st win t;;
  w ← getW;
  if Compare b a <? 0 then mret (wkInterval w)
  else
    '(to, catchUp) ← rangeEnd a b;
    modW (λ w, let l := wkLive w in
      setLive (mkLive (lvLag l) (lvHeadroom l) (lvOldest l) (lvNewest l) (lvInterval l) catchUp (lvWindowLow l) (lvLastTick l)) w);;
    skip ← nothingNew st to;
    if skip : bool then w ← getW; mret (wkInterval w)
    else stepWrite st to catchUp.

Definition step : M Z :=
  '(st, win, t) ← stepOpen;
  match st with
  | None => stepNew win
  | Some st =>
      d ← stepRestored st win;
      match d with
      | Some d => mret d
      | None =>
          r ← stepPosition st win;
          match r with
          | inl d => mret d
          | inr win => stepRange st win t
          end
      end
  end.

(** Records a failed step; the first failure of an episode is published. [msg] is the
    redacted message of the error. *)
Definition fail (msg : string) : M unit :=
  t ← now; w ← getW;
  _ ← repo (SetCollectorStatus (sID (wkStream w)) CollectorFailed msg (wkLagSince w) t);
  if wkFailing w then mret tt
  else modW (setFailing true);; publish PITRCollectorFailed.

Definition recover : M unit :=
  w ← getW;
  if negb (wkFailing w) then mret tt
  else
    modW (setFailing false);;
    t ← now;
    _ ← repo (SetCollectorStatus (sID (wkStream w)) CollectorRunning "" (wkLagSince w) t);
    publish PITRCollectorRecovered.

(** The step's outcome and the wait before the next; [msg] renders an error. *)
Definition tick (msg : CErr -> string) : M Z := λ w,
  let '(w, r) := step w in
  if evCancelled E then (w, Ok 0)
  else match r with
  | Err e => (fail (msg e);; w ← getW; mret (Z.min (wkInterval w) maxFailureDelay)) w
  | Ok d => (recover;; mret d) w
  end.

End Worker.
