(* ===== verification/CollectorHistory.v ===== *)
(** * What the collector's chunks hold

    The members of a replica set have logs; a rollback makes some of them differ in their
    newest entries. Whatever the collector meets (failing calls, lagging members, crashes,
    failovers, other users of the repository), the objects of a chain's chunks are, one
    after the other, an unbroken range of one of these logs. *)

From S2P Require Import Prelude Pitr PitrStore PitrChain Oplog ChunkKeys Collector.

(** ** Replica set logs *)

(** The logs of a replica set. An entry with its term fixes the log up to it. *)
Class ReplicaLogs (logs : list Entry -> Prop) : Prop := {
  logs_increasing m : logs m -> increasing m;
  logs_matching m1 m2 e : logs m1 -> logs m2 -> e ∈ m1 -> (∃ e', e' ∈ m2 /\ eOp e' = eOp e) ->
    filter (λ x, tsle (eTS x) (eTS e)) m1 = filter (λ x, tsle (eTS x) (eTS e)) m2
}.

(** Ranges below a common entry are the same in both logs. *)
Lemma slice_below m lo hi ts : tsle hi ts -> slice (filter (λ x, tsle (eTS x) ts) m) lo hi = slice m lo hi.
Proof. intros H. unfold slice. rewrite list_filter_filter. apply list_filter_iff. intros x. tslia. Qed.

Lemma sliceAfter_below m lo hi ts :
  tsle hi ts -> sliceAfter (filter (λ x, tsle (eTS x) ts) m) lo hi = sliceAfter m lo hi.
Proof. intros H. unfold sliceAfter. rewrite list_filter_filter. apply list_filter_iff. intros x. tslia. Qed.

(** ** Pieces *)

(** What identifies a chunk's object: unlike its status, it never changes. *)
Record Piece : Type := mkPiece {
  pcID : string; pcTarget : string; pcKey : string; pcFrom : Timestamp; pcTo : Timestamp; pcLastTerm : Z }.

Definition piece (c : Chunk) : Piece := mkPiece (cID c) (cTargetID c) (cStorageKey c) (cFrom c) (cTo c) (cLastTerm c).
Definition pcObject (p : Piece) : string * string := (pcTarget p, pcKey p).
Definition pcSpan (p : Piece) : Timestamp * Timestamp := (pcFrom p, pcTo p).

(** The end of a piece is an entry of the log, with its term. *)
Definition endIn (m : list Entry) (p : Piece) : Prop := ∃ x, x ∈ m /\ eOp x = mkOpTime (pcTo p) (pcLastTerm p).

Definition pieces (s c : string) (db : DB) : list Piece := view piece s c (dbChunks db).

Definition spanlt (x y : Timestamp * Timestamp) : Prop := tslt x.1 y.1 \/ (x.1 = y.1 /\ tslt x.2 y.2).

(** ** Operations that leave a stream's collected chunks alone *)

Record quiet (s : string) (db db' : DB) : Prop := mkQuiet {
  q_chain c ch' : dbChains db' !! (s, c) = Some ch' ->
    ∃ ch, dbChains db !! (s, c) = Some ch /\ chStart ch' = chStart ch /\ pieces s c db' ≡ₚ pieces s c db /\
      (tsValid (chEnd ch) -> tsValid (chEnd ch'));
  q_state st' : dbStates db' !! s = Some st' ->
    ∃ st, dbStates db !! s = Some st /\ stChainID st' = stChainID st /\ stLast st' = stLast st
}.

#[global] Instance quiet_refl s : Reflexive (quiet s).
Proof. intros db. split; eauto. Qed.

#[global] Instance quiet_trans s : Transitive (quiet s).
Proof.
  intros a b c [H1 H2] [H3 H4]. split.
  - intros x ch Hx. destruct (H3 _ _ Hx) as (ch1 & Hx1 & Hs1 & Hp1 & He1).
    destruct (H1 _ _ Hx1) as (ch2 & Hx2 & Hs2 & Hp2 & He2).
    exists ch2. split_and!; [done|congruence|by rewrite Hp1|auto].
  - intros st Hst. destruct (H4 _ Hst) as (st1 & Hst1 & ? & ?). destruct (H2 _ Hst1) as (st2 & ? & ? & ?).
    exists st2. split_and!; congruence.
Qed.

(** Operations of the rest of the program: everything but starting chains and committing
    chunks of the stream; positions are [uint32] pairs. *)
Definition foreign (s : string) (o : op) : Prop :=
  match o with
  | OStartChain s' _ _ _ => s' <> s
  | OEndChain _ _ e _ _ => tsValid e
  | OCommitChunk _ c => cStreamID c <> s
  | _ => True
  end.

Lemma updateChunks_quiet s P g db :
  (∀ c, cStreamID (g c) = cStreamID c /\ cChainID (g c) = cChainID c /\ piece (g c) = piece c) ->
  quiet s db (updateChunks P g db).1.
Proof.
  intros Hg. split; simpl; [|eauto]. intros c ch' Hc. exists ch'. split_and!; [done..| |done].
  unfold pieces. apply reflexive_eq. by apply (view_update piece s c P g).
Qed.

Lemma updateState_quiet s s' g db :
  (∀ st, stChainID (g st) = stChainID st /\ stLast (g st) = stLast st) -> quiet s db (updateState s' g db).1.
Proof.
  intros Hg. unfold updateState. destruct (dbStates db !! s') as [st|] eqn:Hst; [|done]. split; simpl; [eauto|].
  intros st'. rewrite lookup_insert. case_decide as Hd; [|eauto]. subst s'. intros [= <-]. exists st.
  destruct (Hg st). by split_and!.
Qed.

Lemma withStreams_quiet s m db : quiet s db (withStreams m db).
Proof. by split; simpl; eauto. Qed.

Lemma DeleteStream_quiet s id db : Inv db -> quiet s db (DeleteStream id db).1.
Proof.
  intros Hi. unfold DeleteStream. destruct (negb _); [done|]. destruct (existsb _ _); [done|]. split; simpl.
  - intros c ch (Hc & Hne)%map_lookup_filter_Some. destruct (inv_chain_key _ Hi _ _ _ Hc) as [<- _].
    exists ch. split_and!; [done..| |done]. unfold pieces; simpl. by apply view_delete_stream.
  - intros st'. rewrite lookup_delete_Some. intros [_ ?]. eauto.
Qed.

Lemma StartChain_quiet s s' c start at_ db : s' <> s -> quiet s db (StartChain s' c start at_ db).1.
Proof.
  intros Hne. unfold StartChain. destruct (_ || _); [done|]. destruct (negb _); [done|]. destruct (existsb _ _); [done|].
  destruct (dbChains db !! (s', c)); [done|]. split; simpl.
  - intros c' ch'. rewrite lookup_insert_ne by congruence. eauto.
  - intros st'. rewrite lookup_insert_ne by congruence. eauto.
Qed.

Lemma EndChain_quiet s s' c e r at_ db : tsValid e -> quiet s db (EndChain s' c e r at_ db).1.
Proof.
  intros He. unfold EndChain, openChain. destruct (bool_decide _); [done|].
  destruct (dbChains db !! (s', c)) as [ch|] eqn:Hch; [|done]. destruct (chainOpen ch); [|done]. split; simpl; [|eauto]. intros c' ch'. rewrite lookup_insert. case_decide as Hd; [|eauto].
  injection Hd as <- <-. intros [= <-]. exists ch. by split_and!.
Qed.

Lemma CommitChunk_quiet s now c db : cStreamID c <> s -> quiet s db (CommitChunk now c db).1.
Proof.
  intros Hne. unfold CommitChunk. destruct (_ || _); [done|]. destruct (_ <? _); [done|].
  destruct (dbStates db !! cStreamID c) as [st|] eqn:Hst; [|done]. destruct (negb _); [done|].
  destruct (openChain _ _ _); [|done]. destruct (negb _); [done|]. destruct (negb _); [done|].
  destruct (bool_decide (is_Some (dbChunks db !! cID c)) || _) eqn:Hk; [done|]. bool_cases.
  assert (dbChunks db !! cID c = None) as Hid by (by apply eq_None_not_Some). split; simpl.
  - intros c' ch' Hch. exists ch'. split_and!; [done..| |done]. unfold pieces. simpl. rewrite view_insert by done.
    rewrite decide_False; [done|]. by intros [??].
  - intros st'. rewrite lookup_insert_ne by done. eauto.
Qed.

Lemma apply_quiet s o db : Inv db -> foreign s o -> quiet s db (apply o db).
Proof.
  intros Hi Hf. destruct o; cbn [apply];
    unfold CreateStream, UpdateStream, MarkChunkVerified, SetChunkRetainUntil, MarkChunkPruned, SupersedeChunks,
      SetCollectorStatus, SetWindowLow, SetReplicaSetID; rewrite ?execOne_fst, ?DeleteChunks_fst;
    auto using DeleteStream_quiet, StartChain_quiet, EndChain_quiet, CommitChunk_quiet;
    repeat case_match; try (by apply updateChunks_quiet); try (by apply updateState_quiet);
    simpl; first [apply withStreams_quiet|reflexivity].
Qed.

(** No operation but the deletion of a stream takes its state away. *)
Lemma apply_state s o db :
  (∀ id, o <> ODeleteStream id) -> is_Some (dbStates db !! s) -> is_Some (dbStates (apply o db) !! s).
Proof.
  intros Hne Hs. assert (∀ k (x : PState), is_Some (<[k := x]> (dbStates db) !! s)) as Hins.
  { intros k x. rewrite lookup_insert. case_decide; by eauto. }
  destruct o; cbn [apply];
    unfold CreateStream, UpdateStream, StartChain, EndChain, CommitChunk, MarkChunkVerified, SetChunkRetainUntil,
      MarkChunkPruned, SupersedeChunks, SetCollectorStatus, SetWindowLow, SetReplicaSetID, updateState;
    rewrite ?execOne_fst, ?DeleteChunks_fst; try (by destruct (Hne id)); repeat case_match; simpl; done || apply Hins.
Qed.

(** ** The history of a chain *)

Section History.
Context (logs : list Entry -> Prop) `{!ReplicaLogs logs} (s : string).

(** What the objects of the pieces [H] hold when they were read from log [m], the first
    with the entry it starts at when [incl] is set. *)
Definition contentsOf (m : list Entry) (incl : bool) (H : list Piece) : list (list Entry) :=
  match H with
  | [] => []
  | p :: H => (if incl then slice else sliceAfter) m (pcFrom p) (pcTo p) :: ((λ q, sliceAfter m (pcFrom q) (pcTo q)) <$> H)
  end.

Definition collected (objs : gmap (string * string) (list Entry)) (m : list Entry) (incl : bool) (H : list Piece) : Prop :=
  H <> [] /\ (λ p, objs !! pcObject p) <$> H = Some <$> contentsOf m incl H /\ Forall (endIn m) H.

Definition keyed (c : string) (p : Piece) : Prop :=
  tsValid (pcFrom p) /\ tsValid (pcTo p) /\ ∃ st, pcKey p = ChunkKey st c (pcFrom p) (pcTo p).

Record chainHist (db : DB) (objs : gmap (string * string) (list Entry)) (c : string) (start : Timestamp) (H : list Piece)
  : Prop := mkHist {
  h_pieces : pieces s c db ≡ₚ H;
  h_sorted : StronglySorted spanlt (pcSpan <$> H);
  h_keys : Forall (keyed c) H;
  h_data : ∃ e, path start (pcSpan <$> H) e /\
    (∀ st, dbStates db !! s = Some st -> stChainID st = c -> otTS (stLast st) = e) /\
    (H = [] \/ ∃ m incl, logs m /\ collected objs m incl H /\ (∃ x, x ∈ m /\ eTS x = start) /\
       ∃ x, x ∈ m /\ eTS x = e /\ ∀ st, dbStates db !! s = Some st -> stChainID st = c -> stLast st = eOp x)
}.

Lemma chainHist_quiet db db' objs c start H ch' :
  quiet s db db' -> dbChains db' !! (s, c) = Some ch' -> chainHist db objs c start H -> chainHist db' objs c start H.
Proof.
  intros [Hq1 Hq2] Hch [Hp Hs Hk (e & Hpath & Hst & Hd)]. destruct (Hq1 _ _ Hch) as (_ & _ & _ & Hpp & _).
  split; [by rewrite Hpp|done..|]. exists e. split_and!; [done| |].
  - intros st (st0 & H0 & -> & ->)%Hq2. eauto.
  - destruct Hd as [->|(m & incl & Hm & Hc & Hx & x & Hx1 & Hx2 & Hx3)]; [by left|right]. exists m, incl. split_and!; [done..|].
    exists x. split_and!; [done..|]. intros st (st0 & H0 & -> & ->)%Hq2. eauto.
Qed.

Lemma collected_objects objs objs' m incl H :
  Forall (λ p, objs' !! pcObject p = objs !! pcObject p) H -> collected objs m incl H -> collected objs' m incl H.
Proof.
  intros Ho (Hne & Hc & He). split_and!; [done| |done]. rewrite <- Hc. apply list_fmap_ext. intros i p Hi.
  rewrite Forall_forall in Ho. apply Ho. by eapply list_elem_of_lookup_2.
Qed.

Lemma chainHist_objects db objs objs' c start H :
  Forall (λ p, objs' !! pcObject p = objs !! pcObject p) H -> chainHist db objs c start H -> chainHist db objs' c start H.
Proof.
  intros Ho [Hp Hs Hk (e & Hpath & Hst & Hd)]. split; [done..|]. exists e. split_and!; [done..|].
  destruct Hd as [->|(m & incl & Hm & Hc & Hx)]; [by left|right]. exists m, incl. split_and!; [done| |by destruct Hx..].
  by eapply collected_objects.
Qed.

Lemma path_app a l1 l2 b : path a (l1 ++ l2) b <-> ∃ mid, path a l1 mid /\ path mid l2 b.
Proof.
  revert a. induction l1 as [|[f t] l1 IH]; intros a; simpl.
  - split; [by exists a|]. by intros (? & <- & ?).
  - rewrite IH. naive_solver.
Qed.

Lemma path_bounds a l b f t : path a l b -> (f, t) ∈ l -> tsle a f /\ tsle f t /\ tsle t b.
Proof.
  revert a. induction l as [|[g u] l IH]; intros a; simpl; [by intros _ ?%elem_of_nil|].
  intros (-> & Hgu & Hp) [[= -> ->]|Hin]%elem_of_cons.
  - split_and!; [apply tsle_refl|done|by eapply path_le].
  - destruct (IH _ Hp Hin) as (? & ? & ?). split_and!; [by eapply tsle_trans|done..].
Qed.

(** Logs with a common entry share what is before it. *)
Lemma entry_transfer m0 m z y :
  logs m0 -> logs m -> z ∈ m0 -> (∃ x, x ∈ m /\ eOp x = eOp z) -> y ∈ m0 -> tsle (eTS y) (eTS z) -> y ∈ m.
Proof.
  intros Hm0 Hm Hz Hx Hy Hle. pose proof (logs_matching m0 m z Hm0 Hm Hz Hx) as Hmatch.
  assert (y ∈ filter (λ x, tsle (eTS x) (eTS z)) m0) as Hf by (by apply list_elem_of_filter).
  rewrite Hmatch in Hf. by apply list_elem_of_filter in Hf as [_ ?].
Qed.

Lemma slice_transfer m0 m z lo hi :
  logs m0 -> logs m -> z ∈ m0 -> (∃ x, x ∈ m /\ eOp x = eOp z) -> tsle hi (eTS z) ->
  slice m0 lo hi = slice m lo hi /\ sliceAfter m0 lo hi = sliceAfter m lo hi.
Proof.
  intros Hm0 Hm Hz Hx Hle. pose proof (logs_matching m0 m z Hm0 Hm Hz Hx) as Hmatch.
  rewrite <- (slice_below m lo hi (eTS z)), <- (sliceAfter_below m lo hi (eTS z)), <- Hmatch by done.
  by rewrite slice_below, sliceAfter_below.
Qed.

(** What was collected up to an entry is there in every log with that entry. *)
Lemma collected_transfer objs m0 m z incl H :
  logs m0 -> logs m -> z ∈ m0 -> (∃ x, x ∈ m /\ eOp x = eOp z) -> Forall (λ p, tsle (pcTo p) (eTS z)) H ->
  collected objs m0 incl H -> collected objs m incl H.
Proof.
  intros Hm0 Hm Hz Hx Hle (Hne & Hc & He). rewrite Forall_forall in Hle, He. split_and!; [done| |].
  - rewrite Hc. f_equal. destruct H as [|p H]; [done|]. unfold contentsOf. f_equal.
    + destruct (slice_transfer m0 m z (pcFrom p) (pcTo p)); [done..|apply Hle; by left|]. by destruct incl.
    + apply list_fmap_ext. intros i q Hq%list_elem_of_lookup_2. apply (slice_transfer m0 m z); [done..|]. apply Hle. by right.
  - apply Forall_forall. intros p Hp. destruct (He p Hp) as (y & Hy & Hyop).
    exists y. split; [|done]. apply (entry_transfer m0 m z); [done..|]. unfold eTS at 1. rewrite Hyop. by apply Hle.
Qed.

(** One more object. *)
Lemma collected_snoc objs m incl H p :
  collected objs m incl H -> objs !! pcObject p = Some (sliceAfter m (pcFrom p) (pcTo p)) -> endIn m p ->
  collected objs m incl (H ++ [p]).
Proof.
  intros (Hne & Hc & He) Hp Hend. split_and!; [by destruct H| |apply Forall_app; by split; [|constructor]].
  rewrite fmap_app, Hc. simpl. rewrite Hp. destruct H as [|q H]; [done|]. simpl. by rewrite !fmap_app.
Qed.

Lemma collected_prefix objs m incl H1 H2 : H1 <> [] -> collected objs m incl (H1 ++ H2) -> collected objs m incl H1.
Proof.
  intros Hne (_ & Hc & [He _]%Forall_app). split_and!; [done| |done]. destruct H1 as [|p H1]; [done|].
  rewrite fmap_app in Hc. unfold contentsOf in *. simpl in Hc. rewrite !fmap_app in Hc. simpl.
  apply (f_equal (take (S (length H1)))) in Hc. simpl in Hc. injection Hc as -> Hc. f_equal.
  rewrite !take_app_length' in Hc; [done|by rewrite !length_fmap..].
Qed.

(** The objects of a run of pieces, one after the other. *)
Lemma contents_concat m incl H start e :
  increasing m -> H <> [] -> path start (pcSpan <$> H) e ->
  concat (contentsOf m incl H) = (if incl then slice else sliceAfter) m start e.
Proof.
  intros Hm Hne Hp. destruct H as [|p H]; [done|]. clear Hne. unfold contentsOf. simpl in Hp. destruct Hp as (-> & Hle & Hp).
  assert (concat ((λ q, sliceAfter m (pcFrom q) (pcTo q)) <$> H) = sliceAfter m (pcTo p) e) as Hrest.
  { revert Hp. generalize (pcTo p). clear -Hm. induction H as [|q H IH]; intros a; rewrite ?fmap_cons; cbn [concat path].
    - intros ->. symmetry. apply elem_of_nil_inv. intros x (? & ? & _)%elem_of_sliceAfter. tslia.
    - cbn [path pcSpan]. intros (-> & Hle & Hp). rewrite (IH _ Hp), (sliceAfter_split m (pcFrom q) (pcTo q) e); [done|done|done|by eapply path_le]. }
  cbn [concat]. rewrite Hrest. destruct incl; symmetry; [apply slice_split|apply sliceAfter_split]; try done; by eapply path_le.
Qed.

(** A chunk that follows the position, read from a member that has the entry there. *)
Lemma chainHist_commit db db' objs objs' c start H p st st' m incl es :
  chainHist db objs c start H ->
  dbStates db !! s = Some st -> stChainID st = c -> pcFrom p = otTS (stLast st) -> tsle (pcFrom p) (pcTo p) ->
  pcSpan p ∉ pcSpan <$> H -> keyed c p -> (incl = true -> H = []) ->
  logs m -> (∃ x, x ∈ m /\ eOp x = stLast st) ->
  es = (if incl then slice else sliceAfter) m (pcFrom p) (pcTo p) -> objs' !! pcObject p = Some es ->
  endIn m p -> stLast st' = mkOpTime (pcTo p) (pcLastTerm p) ->
  Forall (λ p, objs' !! pcObject p = objs !! pcObject p) H ->
  pieces s c db' ≡ₚ p :: pieces s c db -> dbStates db' !! s = Some st' ->
  chainHist db' objs' c start (H ++ [p]).
Proof.
  intros Hh Hst Hc Hfrom Hle Hnew Hkey Hincl Hm (x & Hx & Hop) Hes Hobj Hend Hlast Hobjs Hp' Hst'.
  pose proof Hend as (y & Hy & Hyop). assert (eTS y = pcTo p) as Hyts by (unfold eTS; by rewrite Hyop).
  destruct (chainHist_objects _ _ _ _ _ _ Hobjs Hh) as [Hp Hs Hk (e & Hpath & He & Hd)].
  pose proof (He _ Hst Hc) as Hae. rewrite <- Hfrom in Hae.
  assert (∀ q, q ∈ H -> tsle (pcFrom q) (pcTo q) /\ tsle (pcTo q) (pcFrom p)) as Hb.
  { intros q Hq. rewrite Hae. apply (path_bounds start (pcSpan <$> H) e (pcFrom q) (pcTo q)); [done|].
    apply list_elem_of_fmap. by exists q. }
  split.
  - by rewrite Hp', Hp, Permutation_cons_append.
  - rewrite fmap_app. apply StronglySorted_app_2; [|done|repeat constructor].
    intros x1 x2 (q & -> & Hq)%list_elem_of_fmap ->%list_elem_of_singleton.
    destruct (Hb q Hq). unfold spanlt, pcSpan; simpl. destruct (decide (tslt (pcFrom q) (pcFrom p))) as [|Hnl]; [by left|right].
    assert (pcFrom q = pcFrom p) as Hf by (apply tsle_antisym; tslia). split; [done|].
    assert (pcTo q <> pcTo p).
    { intros Ht. apply Hnew, list_elem_of_fmap. exists q. split; [|done]. unfold pcSpan. congruence. }
    assert (tsle (pcTo q) (pcTo p)) as [?|?]%tsle_lt_eq by tslia; done.
  - apply Forall_app. by split; [|constructor].
  - exists (pcTo p). split_and!.
    + rewrite fmap_app. simpl. unfold pcSpan at 2. rewrite Hae. apply path_snoc; [done|]. by rewrite <- Hae.
    + intros st0. rewrite Hst'. intros [= <-] _. by rewrite Hlast.
    + right. destruct Hd as [->|(m0 & incl0 & Hm0 & Hcol & (y0 & Hy0 & Hys) & z & Hz & Hze & Hzop)].
      * exists m, incl. simpl in Hpath. split_and!; [done| | |by exists y; split_and!; [..|intros st0; rewrite Hst', Hyop; intros [= <-]]].
        { split_and!; [done| |by constructor; [|constructor]]. simpl. by rewrite Hobj, Hes. }
        exists x. split; [done|]. unfold eTS. by rewrite Hop, <- Hfrom, Hpath.
      * assert (incl = false) as -> by (destruct incl; [|done]; by destruct (proj1 Hcol), Hincl).
        assert (∃ x, x ∈ m /\ eOp x = eOp z) as Hxz by (exists x; split; [done|]; by rewrite Hop, (Hzop _ Hst Hc)).
        exists m, incl0. split_and!; [done| | |exists y; split_and!; [done..|]; intros st0; rewrite Hst', Hyop; by intros [= <-]].
        { apply collected_snoc; [|by rewrite Hobj, Hes|done]. apply (collected_transfer _ m0 m z); [done..| |done].
          apply Forall_forall. intros q Hq. rewrite Hze, <- Hae. by apply Hb. }
        exists y0. split; [|done]. apply (entry_transfer m0 m z); [done..|]. rewrite Hys, Hze. by eapply path_le.
Qed.

(** The stored position is on another chain. *)
Lemma chainHist_moved db db' objs c start H :
  pieces s c db' ≡ₚ pieces s c db -> (∀ st, dbStates db' !! s = Some st -> stChainID st <> c) ->
  chainHist db objs c start H -> chainHist db' objs c start H.
Proof.
  intros Hpp Hno [Hp Hs Hk (e & Hpath & Hst & Hd)]. split; [by rewrite Hpp|done..|]. exists e. split_and!; [done| |].
  - intros st H1 H2. by destruct (Hno _ H1).
  - destruct Hd as [->|(m & incl & Hm & Hc & Hx & x & Hx1 & Hx2 & Hx3)]; [by left|right]. exists m, incl. split_and!; [done..|].
    exists x. split_and!; [done..|]. intros st H1 H2. by destruct (Hno _ H1).
Qed.

Lemma chainHist_new db objs c start :
  pieces s c db = [] -> (∀ st, dbStates db !! s = Some st -> stChainID st = c -> otTS (stLast st) = start) ->
  chainHist db objs c start [].
Proof. intros Hp Hst. split; [by rewrite Hp|constructor|constructor|]. exists start. split_and!; [done|done|by left]. Qed.
End History.
