(* ===== verification/CollectorSafety.v ===== *)
(** * The collector keeps histories

    The invariant of the world of a collector, kept by every tick whatever the environment
    answers, and by the rest of the program. Most operations are calm: they neither commit
    chunks nor start chains. The others are proved with a small program logic. *)

From S2P Require Import Prelude Pitr PitrStore PitrChain Oplog ChunkKeys Collector CollectorHistory.

Create HintDb calm discriminated.
Create HintDb keeps discriminated.

Section Safety.
Context (logs : list Entry -> Prop) `{!ReplicaLogs logs} (s : string).

(** ** Environments *)

Definition typedWindow (win : OplogWindow) : Prop := tsValid (owOldest win) /\ tsValid (otTS (owMajority win)).

(** A member reads one of the logs; its positions are [uint32] pairs. *)
Record goodMember (m : Member) : Prop := mkGoodMember {
  gm_find n : ∃ l, logs l /\ findsFrom l (mbFind m n);
  gm_window n win : mbWindow m n = Some win -> typedWindow win;
  gm_after n ts op : mbEntryAtOrAfter m n ts = Some (Some op) -> tsValid (otTS op)
}.

Record goodEnv (E : Env) : Prop := mkGoodEnv {
  ge_pin n ts m : evPin E n ts = Some m -> goodMember m;
  ge_primary : goodMember (evPrimary E);
  ge_rand n : String.length (evRand E n) = 16%nat
}.

(** ** The invariant *)

(** Without the worker's flag that its next chunk is the first of its chain. *)
Record Good' (w : World) : Prop := mkGood {
  gd_inv : Inv (wdDB w);
  gd_id : sID (wkStream (wdW w)) = s;
  gd_member : goodMember (wkM (wdW w)) \/ wkM (wdW w) = nilMember;
  gd_len c ch : dbChains (wdDB w) !! (s, c) = Some ch -> String.length c = 36%nat;
  gd_typed c ch : dbChains (wdDB w) !! (s, c) = Some ch -> tsValid (chStart ch) /\ tsValid (chEnd ch);
  gd_state st : dbStates (wdDB w) !! s = Some st -> tsValid (otTS (stLast st));
  gd_hist c ch : dbChains (wdDB w) !! (s, c) = Some ch ->
    ∃ H, chainHist logs s (wdDB w) (wdObjects w) c (chStart ch) H
}.

Definition inclusiveOk (w : World) : Prop :=
  wkInclusive (wdW w) = true -> ∀ st, dbStates (wdDB w) !! s = Some st -> pieces s (stChainID st) (wdDB w) = [].

Definition Good (w : World) : Prop := Good' w /\ inclusiveOk w.

(** [st] is the stored position. *)
Definition Cur (st : PState) (w : World) : Prop :=
  ∃ st', dbStates (wdDB w) !! s = Some st' /\ stChainID st' = stChainID st /\ stLast st' = stLast st.

Lemma Cur_lookup st w st' :
  Cur st w -> dbStates (wdDB w) !! s = Some st' -> stChainID st' = stChainID st /\ stLast st' = stLast st.
Proof. intros (st0 & Hst & Hc) Hst'. rewrite Hst in Hst'. by injection Hst' as <-. Qed.

Definition withDB (db : DB) (w : World) : World := mkWorld (wdW w) db (wdObjects w) (wdEffects w) (wdN w).

(** ** Calm computations *)

Record calm (w w' : World) : Prop := mkCalm {
  cm_db : Inv (wdDB w) -> Inv (wdDB w') /\ quiet s (wdDB w) (wdDB w');
  cm_state : is_Some (dbStates (wdDB w) !! s) -> is_Some (dbStates (wdDB w') !! s);
  cm_objects : wdObjects w' = wdObjects w;
  cm_id : sID (wkStream (wdW w')) = sID (wkStream (wdW w));
  cm_inclusive : wkInclusive (wdW w') = wkInclusive (wdW w);
  cm_member : goodMember (wkM (wdW w')) \/ wkM (wdW w') = wkM (wdW w)
}.

(** Worlds that differ in the worker, the effects and the call number only. *)
Lemma calm_worker w w' :
  wdDB w' = wdDB w -> wdObjects w' = wdObjects w -> sID (wkStream (wdW w')) = sID (wkStream (wdW w)) ->
  wkInclusive (wdW w') = wkInclusive (wdW w) -> goodMember (wkM (wdW w')) \/ wkM (wdW w') = wkM (wdW w) -> calm w w'.
Proof. intros Hdb. split; [|by rewrite Hdb|done..]. rewrite Hdb. intros Hi. by split. Qed.

#[local] Instance calm_refl : Reflexive calm.
Proof. intros w. apply calm_worker; auto. Qed.

#[local] Instance calm_trans : Transitive calm.
Proof.
  intros a b c [H1 H0 H2 H3 H4 H5] [G1 G0 G2 G3 G4 G5]. split; [|by auto|congruence..|].
  - intros Hi. destruct (H1 Hi) as [Hi1 Hq]. destruct (G1 Hi1). split; [done|]. by etrans.
  - destruct G5 as [?| ->]; auto.
Qed.

(** Changes of the tables by others. *)
Lemma Good'_quiet w db' : Inv db' -> quiet s (wdDB w) db' -> Good' w -> Good' (withDB db' w).
Proof.
  intros Hi Hq [G1 G2 G3 G4 G5 G6 G7]. split; simpl; [done..| | | |].
  - intros c ch' Hch. destruct (q_chain _ _ _ Hq _ _ Hch) as (ch & Hc & _). eauto.
  - intros c ch' Hch. destruct (q_chain _ _ _ Hq _ _ Hch) as (ch & Hc & Hs & _ & He). destruct (G5 _ _ Hc).
    rewrite Hs. auto.
  - intros st' Hst. destruct (q_state _ _ _ Hq _ Hst) as (st & Hst0 & _ & ->). eauto.
  - intros c ch' Hch. destruct (q_chain _ _ _ Hq _ _ Hch) as (ch & Hc & -> & _). destruct (G7 _ _ Hc) as [H Hh].
    exists H. by eapply chainHist_quiet.
Qed.

Lemma inclusiveOk_quiet w db' : Inv db' -> quiet s (wdDB w) db' -> inclusiveOk w -> inclusiveOk (withDB db' w).
Proof.
  intros Hi' Hq Hinc Hf st' Hst. destruct (q_state _ _ _ Hq _ Hst) as (st & Hst0 & Hc & _).
  destruct (inv_state _ Hi' _ _ Hst) as [ch' Hch]. destruct (q_chain _ _ _ Hq _ _ Hch) as (_ & _ & _ & Hp & _).
  simpl in *. rewrite Hc in *. rewrite (Hinc Hf _ Hst0) in Hp. by apply Permutation_nil_r in Hp.
Qed.

(** Changes of the worker. *)
Lemma Good'_worker w w' :
  Good' w -> wdDB w' = wdDB w -> wdObjects w' = wdObjects w -> sID (wkStream (wdW w')) = sID (wkStream (wdW w)) ->
  goodMember (wkM (wdW w')) \/ wkM (wdW w') = wkM (wdW w) -> Good' w'.
Proof.
  intros [G1 G2 G3 G4 G5 G6 G7] H1 H2 H3 H4. split; rewrite ?H1, ?H2, ?H3; try done. destruct H4 as [?| ->]; auto.
Qed.

Lemma Good'_calm w w' : calm w w' -> Good' w -> Good' w'.
Proof.
  intros [H1 _ H2 H3 H4 H5] Hg. destruct (H1 (gd_inv _ Hg)) as [Hi Hq].
  by eapply (Good'_worker (withDB (wdDB w') w)); [apply Good'_quiet|..].
Qed.

Lemma inclusiveOk_calm w w' : calm w w' -> Inv (wdDB w) -> inclusiveOk w -> inclusiveOk w'.
Proof.
  intros [H1 _ _ _ H4 _] Hi Hinc. destruct (H1 Hi) as [Hi' Hq]. pose proof (inclusiveOk_quiet _ _ Hi' Hq Hinc) as H.
  unfold inclusiveOk in *. simpl in H. by rewrite H4.
Qed.

Lemma Good_calm w w' : calm w w' -> Good w -> Good w'.
Proof. intros Hc [Hg Hi]. split; [by eapply Good'_calm|]. eapply inclusiveOk_calm; [done|apply Hg|done]. Qed.

Lemma Cur_calm st w w' : calm w w' -> Good' w -> Cur st w -> Cur st w'.
Proof.
  intros [H1 H0 _ _ _ _] [G1 _ _ _ _ _ _] (st0 & Hst0 & Hc & Hl). destruct (H1 G1) as [_ Hq]. destruct (H0 ltac:(eauto)) as [st' Hst].
  destruct (q_state _ _ _ Hq _ Hst) as (st1 & Hst1 & Hc1 & Hl1). exists st'. split_and!; [done|congruence..].
Qed.

Definition calmly {A} (c : M A) : Prop := ∀ w, calm w (c w).1.

Lemma calm_ret {A} (a : A) : calmly (mret a).
Proof. intros w. done. Qed.

Lemma calm_raise {A} e : calmly (raise (A := A) e).
Proof. intros w. done. Qed.

Lemma calm_bind {A B} (c : M A) (k : A -> M B) : calmly c -> (∀ a, calmly (k a)) -> calmly (c ≫= k).
Proof.
  intros Hc Hk w. unfold mbind, M_bind. specialize (Hc w). destruct (c w) as [w1 [a|e]]; [|done]. simpl in *.
  etrans; [done|]. apply Hk.
Qed.

Lemma calm_getW : calmly getW.
Proof. intros w. done. Qed.

Lemma calm_call : calmly call.
Proof. intros w. apply calm_worker; auto. Qed.

Lemma calm_effect x : calmly (effect x).
Proof. intros w. apply calm_worker; auto. Qed.

Lemma calm_need {A} (x : option A) : calmly (need x).
Proof. destruct x; [apply calm_ret|apply calm_raise]. Qed.

Lemma calm_orFail {A} (x : result (option PitrErr) A) : calmly (orFail x).
Proof. destruct x; [apply calm_ret|apply calm_raise]. Qed.

Lemma calm_orFailUnless e x : calmly (orFailUnless e x).
Proof. destruct x as [a|x]; [apply calm_ret|]. simpl. case_match; [apply calm_ret|apply calm_raise]. Qed.

(** An assignment to other fields of the worker. *)
Lemma calm_modW f :
  (∀ w, sID (wkStream (f w)) = sID (wkStream w) /\ wkInclusive (f w) = wkInclusive w /\
        (goodMember (wkM (f w)) \/ wkM (f w) = wkM w)) -> calmly (modW f).
Proof. intros Hf w. destruct (Hf (wdW w)) as (? & ? & ?). by apply calm_worker. Qed.

Lemma calm_repo {A} E (f : DB -> DB * result PitrErr A) o :
  (∀ db, (f db).1 = apply o db) -> foreign s o -> (∀ id, o <> ODeleteStream id) -> calmly (repo E f).
Proof.
  intros Hf Ho Hdel. unfold repo. apply calm_bind; [apply calm_call|]. intros n. destruct (evFault E n); [apply calm_ret|].
  intros w. specialize (Hf (wdDB w)). destruct (f (wdDB w)) as [db r]. simpl in *. subst db. split; simpl; auto.
  - intros Hi. split; [by apply apply_inv|by apply apply_quiet].
  - by apply apply_state.
Qed.

Lemma calm_query {A} E (f : DB -> result PitrErr A) : calmly (query E f).
Proof.
  unfold query, repo. apply calm_bind; [apply calm_call|]. intros n. destruct (evFault E n); [apply calm_ret|].
  intros w. apply calm_worker; auto.
Qed.

(** ** Every operation but starting chains, committing and the first-chunk flag *)

Context (E : Env) (HE : goodEnv E).

(** Goes through a computation; what is left are the operations it does not know. *)
Ltac calm_step :=
  lazymatch goal with
  | |- ∀ _, _ => intros
  | |- calmly (mbind _ _) => apply calm_bind; [|intros]
  | |- calmly (mret _) => apply calm_ret
  | |- calmly (raise _) => apply calm_raise
  | |- calmly getW => apply calm_getW
  | |- calmly call => apply calm_call
  | |- calmly (effect _) => apply calm_effect
  | |- calmly (publish _) => apply calm_effect
  | |- calmly (need _) => apply calm_need
  | |- calmly (orFail _) => apply calm_orFail
  | |- calmly (orFailUnless _ _) => apply calm_orFailUnless
  | |- calmly (query _ _) => apply calm_query
  | |- calmly (modW _) => apply calm_modW; intros; simpl; by auto
  | |- calmly (match ?x with _ => _ end) => destruct x
  | |- calmly (let '_ := ?x in _) => destruct x
  end.
Ltac calm_auto := repeat first [calm_step | solve [eauto with calm]].

#[local] Hint Extern 0 (calmly (now _)) => unfold now; calm_auto : calm.
#[local] Hint Extern 0 (calmly (random _)) => unfold random; calm_auto : calm.
#[local] Hint Extern 0 (calmly memberWindow) => unfold memberWindow; calm_auto : calm.
#[local] Hint Extern 0 (calmly (memberEntryAt _)) => unfold memberEntryAt; calm_auto : calm.
#[local] Hint Extern 0 (calmly (memberEntryAtOrAfter _)) => unfold memberEntryAtOrAfter; calm_auto : calm.
#[local] Hint Extern 0 (calmly (checkFence _)) => unfold checkFence; calm_auto : calm.

Lemma calm_status id st err lag t : calmly (repo E (SetCollectorStatus id st err lag t)).
Proof. by apply (calm_repo E _ (OSetCollectorStatus id st err lag t)). Qed.

Lemma calm_windowLow id since : calmly (repo E (SetWindowLow id since)).
Proof. by apply (calm_repo E _ (OSetWindowLow id since)). Qed.

Lemma calm_rsID id rs : calmly (repo E (SetReplicaSetID id rs)).
Proof. by apply (calm_repo E _ (OSetReplicaSetID id rs)). Qed.
#[local] Hint Resolve calm_status calm_windowLow calm_rsID : calm.

Lemma calm_setLagSinceDB st : calmly (setLagSinceDB E st).
Proof. unfold setLagSinceDB. calm_auto. Qed.

Lemma calm_setWindowLowDB since : calmly (setWindowLowDB E since).
Proof. unfold setWindowLowDB. calm_auto. Qed.

Lemma calm_adopt id : calmly (adoptReplicaSetID E id).
Proof. unfold adoptReplicaSetID. calm_auto. Qed.
#[local] Hint Resolve calm_setLagSinceDB calm_setWindowLowDB calm_adopt : calm.

Lemma calm_observeLag st win t : calmly (observeLag E st win t).
Proof. unfold observeLag. calm_auto. Qed.

Lemma calm_baseAfterBreak : calmly (baseAfterBreak E).
Proof. unfold baseAfterBreak. calm_auto. Qed.

Lemma calm_lastChunks st : calmly (lastChunks E st).
Proof. unfold lastChunks. calm_auto. Qed.

Lemma calm_chainStartsAt st : calmly (chainStartsAt E st).
Proof. unfold chainStartsAt. calm_auto. Qed.
#[local] Hint Resolve calm_observeLag calm_baseAfterBreak calm_lastChunks calm_chainStartsAt : calm.

Lemma calm_endedChain id : calmly (endedChain E id).
Proof. unfold endedChain. calm_auto. Qed.

Lemma calm_emptyChunkExists st : calmly (emptyChunkExists E st).
Proof. unfold emptyChunkExists. calm_auto. Qed.

Lemma calm_adjustInterval n : calmly (adjustInterval E n).
Proof. unfold adjustInterval. calm_auto. Qed.

Lemma calm_afterBreak : calmly afterBreak.
Proof. unfold afterBreak. calm_auto. Qed.

Lemma calm_newestGood win l : calmly (newestGood win l).
Proof. induction l as [|c l IH]; simpl; calm_auto. Qed.
#[local] Hint Resolve calm_endedChain calm_emptyChunkExists calm_adjustInterval calm_afterBreak calm_newestGood : calm.

Lemma calm_divergencePoint st win : calmly (divergencePoint E st win).
Proof. unfold divergencePoint. calm_auto. Qed.

Lemma calm_rangeEnd a b : calmly (rangeEnd a b).
Proof. unfold rangeEnd. calm_auto. Qed.

Lemma calm_nothingNew st to : calmly (nothingNew E st to).
Proof. unfold nothingNew. calm_auto. Qed.

Lemma calm_produce rng : calmly (produce E rng).
Proof. unfold produce. calm_auto. Qed.
#[local] Hint Resolve calm_divergencePoint calm_rangeEnd calm_nothingNew calm_produce : calm.

Lemma calm_fail msg : calmly (fail E msg).
Proof. unfold fail. calm_auto. Qed.

Lemma calm_recover : calmly (recover E).
Proof. unfold recover. calm_auto. Qed.

(** ** Starting a chain *)

Lemma StartChain_cases c start t db db' r :
  StartChain s c start t db = (db', r) ->
  (db' = db /\ ∃ e, r = Err e) \/
  (r = Ok tt /\ dbChains db !! (s, c) = None /\ dbChunks db' = dbChunks db /\
   dbChains db' = <[(s, c) := mkChain s c (otTS start) zeroTS EndNone None]> (dbChains db) /\
   ∃ st, dbStates db' = <[s := st]> (dbStates db) /\ stChainID st = c /\ stLast st = start).
Proof.
  unfold StartChain. destruct (_ || _); [intros [= <- <-]; left; eauto|]. destruct (negb _); [intros [= <- <-]; left; eauto|].
  destruct (existsb _ _); [intros [= <- <-]; left; eauto|].
  destruct (dbChains db !! (s, c)) eqn:Hc; [intros [= <- <-]; left; eauto|].
  intros [= <- <-]. right. simpl. split_and!; [done..|]. eexists. split; [done|]. by destruct (dbStates db !! s).
Qed.

Lemma StartChain_good c start t w db' :
  String.length c = 36%nat -> tsValid (otTS start) -> Good' w -> StartChain s c start t (wdDB w) = (db', Ok tt) ->
  Good' (withDB db' w) /\ ∀ st, dbStates db' !! s = Some st -> pieces s (stChainID st) db' = [].
Proof.
  intros Hlen Hts [G1 G2 G3 G4 G5 G6 G7] HS.
  pose proof (StartChain_inv s c start t _ G1) as Hinv. rewrite HS in Hinv. simpl in Hinv.
  destruct (StartChain_cases _ _ _ _ _ _ HS) as [(_ & e & [=])|(_ & Hno & Hck & Hch & st & Hst & Hsc & Hsl)].
  assert (∀ c', pieces s c' db' = pieces s c' (wdDB w)) as Hp by (intros; unfold pieces; by rewrite Hck).
  assert (∀ st', dbStates db' !! s = Some st' -> st' = st) as Hst'.
  { intros st'. rewrite Hst, lookup_insert_eq. by intros [= <-]. }
  assert (pieces s c db' = []) as Hnil by (rewrite Hp; by apply view_no_chain).
  split; [|intros st' ->%Hst'; by rewrite Hsc].
  split; simpl; [done|done|done| | | |].
  - intros c' ch. rewrite Hch, lookup_insert. case_decide as Hd; [by injection Hd as <-|eauto].
  - intros c' ch. rewrite Hch, lookup_insert. case_decide as Hd; [|eauto]. intros [= <-]. simpl. split; [done|].
    unfold tsValid; simpl; lia.
  - intros st' ->%Hst'. by rewrite Hsl.
  - intros c' ch. rewrite Hch, lookup_insert. case_decide as Hd.
    + injection Hd as <-. intros [= <-]. simpl. exists []. apply chainHist_new; [done|]. intros st' ->%Hst' _. by rewrite Hsl.
    + intros Hc'. destruct (G7 _ _ Hc') as [H Hh]. exists H. eapply chainHist_moved; [by rewrite Hp| |done].
      intros st' ->%Hst'. rewrite Hsc. by intros ->.
Qed.

(** ** A program logic over the invariant *)

Definition triple {A} (P : World -> Prop) (c : M A) (Q : A -> World -> Prop) : Prop :=
  ∀ w, Good w -> P w -> Good (c w).1 /\ ∀ a, (c w).2 = Ok a -> Q a (c w).1.

(** A property calm computations keep. *)
Class Stable (P : World -> Prop) : Prop := stable w w' : calm w w' -> Good' w -> P w -> P w'.

#[local] Instance Stable_Cur st : Stable (Cur st).
Proof. intros w w'. apply Cur_calm. Qed.

#[local] Instance Stable_const (P : Prop) : Stable (λ _, P).
Proof. by intros w w'. Qed.

#[local] Instance Stable_and P Q `{!Stable P, !Stable Q} : Stable (λ w, P w /\ Q w).
Proof. intros w w' Hc Hg [? ?]. split; by eapply stable. Qed.

Lemma triple_pure {A} P (R : Prop) (c : M A) Q : (R -> triple P c Q) -> triple (λ w, P w /\ R) c Q.
Proof. intros Hc w Hg [HP HR]. by apply Hc. Qed.

Lemma triple_ret {A} P (a : A) : triple P (mret a) (λ b w, b = a /\ P w).
Proof. intros w Hg HP. split; [done|]. by intros b [= <-]. Qed.

Lemma triple_raise {A} P e (Q : A -> World -> Prop) : triple P (raise e) Q.
Proof. by intros w Hg HP. Qed.

Lemma triple_bind {A B} P (c : M A) (k : A -> M B) Q R :
  triple P c Q -> (∀ a, triple (Q a) (k a) R) -> triple P (c ≫= k) R.
Proof.
  intros Hc Hk w Hg HP. unfold mbind, M_bind. destruct (Hc w Hg HP) as [Hg1 HQ].
  destruct (c w) as [w1 [a|e]]; simpl in *; [|done]. by apply Hk; [|apply HQ].
Qed.

Lemma triple_weaken {A} P P' (c : M A) Q Q' :
  triple P c Q -> (∀ w, P' w -> P w) -> (∀ a w, Good w -> Q a w -> Q' a w) -> triple P' c Q'.
Proof. intros Hc HP HQ w Hg H. destruct (Hc w Hg (HP _ H)). split; [done|]. auto. Qed.

(** The worker, with the stream it is for. *)
Lemma triple_getW {B} P (k : worker -> M B) Q :
  (∀ a, sID (wkStream a) = s -> triple (λ w, P w /\ a = wdW w) (k a) Q) -> triple P (getW ≫= k) Q.
Proof. intros Hk w Hg HP. by apply Hk; [apply Hg|..]. Qed.

Lemma triple_calm {A} P `{!Stable P} (c : M A) : calmly c -> triple P c (λ _, P).
Proof.
  intros Hc w Hg HP. specialize (Hc w). split; [by eapply Good_calm|]. intros a _. eapply stable; [done|apply Hg|done].
Qed.

Lemma triple_calm_bind {A B} P `{!Stable P} (c : M A) (k : A -> M B) Q :
  calmly c -> (∀ a, triple P (k a) Q) -> triple P (c ≫= k) Q.
Proof. intros Hc Hk. eapply triple_bind; [by apply triple_calm|done]. Qed.

(** The invariant is kept; nothing is claimed of the result. *)
Definition keeps {A} (c : M A) : Prop := triple (λ _, True) c (λ _ _, True).

Lemma keeps_calm {A} (c : M A) : calmly c -> keeps c.
Proof. intros Hc w Hg HP. split; [|done]. eapply Good_calm; [apply Hc|done]. Qed.

Lemma keeps_bind {A B} (c : M A) (k : A -> M B) : keeps c -> (∀ a, keeps (k a)) -> keeps (c ≫= k).
Proof. apply triple_bind. Qed.

Lemma keeps_weaken {A} P Q (c : M A) : keeps c -> (∀ a w, Q a w) -> triple P c Q.
Proof. intros Hc HQ. by eapply triple_weaken. Qed.

Lemma keeps_startChain start : tsValid (otTS start) -> keeps (startChain E start).
Proof.
  intros Hts. unfold keeps, startChain. apply triple_calm_bind; [apply _|calm_auto|]. intros t1.
  eapply (triple_bind _ _ _ (λ r _, String.length r = 16%nat)).
  { intros w Hg _. split; [eapply Good_calm; [|done]; unfold random; apply calm_bind; [apply calm_call|intros; apply calm_ret]|].
    intros a [= <-]. apply HE. }
  intros r w Hg Hr. cbv beta in Hr. unfold mbind, M_bind, now, call, getW. simpl.
  set (w1 := mkWorld _ _ _ _ _). assert (Good w1) as Hg1 by (eapply Good_calm; [|exact Hg]; apply calm_worker; auto).
  unfold repo, mbind, M_bind, call, mret, M_ret. simpl. destruct (evFault E _); simpl.
  { split; [|done]. eapply Good_calm; [|exact Hg]. apply calm_worker; auto. }
  rewrite (gd_id _ (proj1 Hg)). destruct (StartChain s (newChainID t1 r) start _ (wdDB w)) as [db' x] eqn:HS.
  destruct (StartChain_cases _ _ _ _ _ _ HS) as [(-> & e & ->)|(-> & _)]; simpl.
  { split; [|done]. eapply Good_calm; [|exact Hg]. apply calm_worker; auto. }
  split; [|done].
  destruct (StartChain_good _ _ _ _ _ ltac:(by rewrite newChainID_length, Hr) Hts (proj1 Hg) HS) as [G Hnil].
  split; [|by intros _]. eapply Good'_worker; [exact G|done..|by right].
Qed.

(** Goes through a computation that ends or starts chains. *)
Ltac keeps_auto :=
  repeat first
    [ solve [apply keeps_calm; calm_auto]
    | solve [eauto with keeps]
    | lazymatch goal with
      | |- keeps (mbind _ _) => apply keeps_bind; [|intros]
      | |- keeps (match ?x with _ => _ end) => destruct x
      | |- ∀ _, _ => intros
      end ].

Lemma keeps_startAtOldest win : typedWindow win -> keeps (startAtOldest E win).
Proof.
  intros [Hts _]. unfold startAtOldest. apply keeps_bind; [keeps_auto|]. intros [term|]; [|keeps_auto].
  by apply keeps_startChain.
Qed.

Lemma calm_EndChain id c e r t : tsValid e -> calmly (repo E (EndChain id c e r t)).
Proof. intros He. by apply (calm_repo E _ (OEndChain id c e r t)). Qed.

Lemma calm_UpdateStream t st : calmly (repo E (UpdateStream t st)).
Proof. by apply (calm_repo E _ (OUpdateStream t st)). Qed.

Lemma calm_Supersede id c ts :
  calmly (repo E (λ db, let '(db, n) := SupersedeChunks id c ts db in (db, Ok n))).
Proof. apply (calm_repo E _ (OSupersedeChunks id c ts)); [|done|done]. intros db. simpl. by destruct (SupersedeChunks id c ts db). Qed.
#[local] Hint Resolve calm_UpdateStream calm_Supersede : calm.
#[local] Hint Extern 1 (calmly (repo _ (EndChain _ _ _ _ _))) => apply calm_EndChain; assumption : calm.
#[local] Hint Resolve keeps_startChain keeps_startAtOldest : keeps.

Lemma keeps_getW {B} (k : worker -> M B) : (∀ a, sID (wkStream a) = s -> keeps (k a)) -> keeps (getW ≫= k).
Proof. intros Hk w Hg _. apply Hk; [apply Hg|done|done]. Qed.

Lemma keeps_setStream st : sID st = s -> keeps (modW (setStream st)).
Proof.
  intros Hs w [Hg Hi] _. split; [|done]. split; [|exact Hi]. destruct Hg. by split.
Qed.

Lemma keeps_breakChain st win reason :
  tsValid (otTS (stLast st)) -> typedWindow win -> keeps (breakChain E st win reason).
Proof.
  intros Hst Hwin. unfold breakChain. apply keeps_bind; [keeps_auto|]. intros t. apply keeps_getW. intros w Hid.
  do 2 (apply keeps_bind; [keeps_auto|]; intros ?). apply keeps_bind; [|keeps_auto].
  destruct (_ && _); [|keeps_auto]. do 3 (apply keeps_bind; [keeps_auto|]; intros ?). by apply keeps_setStream.
Qed.

(** *** Divergences *)

Lemma newestGood_elem win l w ts : (newestGood win l w).2 = Ok (Some ts) -> ts ∈ cTo <$> l.
Proof.
  revert w. induction l as [|c l IH]; intros w; simpl; [done|].
  destruct (Compare _ _ <? 0); [intros [= <-]; left|]. unfold mbind, M_bind.
  destruct (memberEntryAt (cTo c) w) as [w1 [e|]]; simpl; [|done]. case_bool_decide; [intros [= <-]; left|].
  intros Ht. right. by eapply IH.
Qed.

Lemma query_ok {A} (f : DB -> result PitrErr A) w a :
  (query E f w).2 = Ok (Ok a) -> f (wdDB w) = Ok a.
Proof.
  unfold query, repo, mbind, M_bind, call, mret, M_ret. simpl. destruct (evFault E (wdN w)); [done|]. simpl.
  by destruct (f (wdDB w)) eqn:Hf; intros [= ->].
Qed.

(** What a query returned, with whatever held before it. *)
Lemma triple_query {A} P `{!Stable P} (f : DB -> result PitrErr A) :
  triple P (query E f) (λ r w, P w /\ ∀ a, r = Ok a -> f (wdDB w) = Ok a).
Proof.
  intros w Hg HP. destruct (triple_calm P _ (calm_query E f) w Hg HP) as [Hg' HP']. split; [done|].
  intros r Hr. split; [by eapply HP'|]. intros a ->. pose proof (query_ok _ _ _ Hr) as Hf.
  unfold query, repo, mbind, M_bind, call, mret, M_ret in *. simpl in *. by destruct (evFault E (wdN w)).
Qed.

Lemma ListChunks_rows q db l :
  ListChunks q db = Ok l -> Forall (λ c, (∃ k, dbChunks db !! k = Some c) /\ inChain (qStreamID q) (qChainID q) c) l.
Proof.
  unfold ListChunks. destruct (_ || _); [done|]. intros [= <-]. apply Forall_forall. intros c.
  unfold selectBy. rewrite elem_of_stable_sort, list_elem_of_filter. intros [Hm%Is_true_true Hc]. unfold chunkMatches in Hm. bool_cases.
  unfold rows in Hc. apply list_elem_of_fmap in Hc as ([k c'] & -> & Hk). apply elem_of_map_to_list in Hk. simpl in *. split; [by exists k|by split].
Qed.

(** The positions of a stream's chunks. *)
Lemma chunk_typed w k c : Good' w -> dbChunks (wdDB w) !! k = Some c -> cStreamID c = s -> tsValid (cFrom c) /\ tsValid (cTo c).
Proof.
  intros [G1 G2 G3 G4 G5 G6 G7] Hk Hs. destruct (inv_chunk _ G1 _ _ Hk) as [_ [ch Hch]]. rewrite Hs in Hch.
  destruct (G7 _ _ Hch) as (H & [Hp _ Hkey _]). rewrite Forall_forall in Hkey.
  destruct (Hkey (piece c)) as (? & ? & _); [|done]. rewrite <- Hp. apply elem_of_view. by exists k, c.
Qed.

(** Passes a calm computation, keeping a pure fact. *)
Ltac calmly_on := apply triple_calm_bind; [apply _|calm_auto|intros ?].

Lemma triple_orFail {A} (P : A -> World -> Prop) (r : result (option PitrErr) A) :
  triple (λ w, ∀ a, r = Ok a -> P a w) (orFail r) P.
Proof. intros w Hg HP. destruct r as [a|]; simpl; [|by split]. split; [done|]. intros b [= <-]. by apply HP. Qed.

Lemma triple_divergencePoint st win :
  tsValid (otTS (stLast st)) -> triple (λ _, True) (divergencePoint E st win) (λ ts _, tsValid ts).
Proof.
  intros Hst. unfold divergencePoint. apply triple_getW. intros a Ha.
  eapply triple_bind.
  { eapply (triple_weaken (λ _, True)); [apply triple_query, _|done|]. intros r w Hg [_ Hr].
    instantiate (1 := λ r _, ∀ l, r = Ok l -> Forall (λ c, tsValid (cTo c)) l). intros l Hl.
    eapply Forall_impl; [apply (ListChunks_rows _ _ _ (Hr l Hl))|]. simpl. intros c ([k Hk] & Hs & _).
    eapply chunk_typed; [apply Hg|done|congruence]. }
  intros r. cbv beta. eapply triple_bind; [apply (triple_orFail (λ l _, Forall (λ c, tsValid (cTo c)) l))|].
  intros chunks. eapply (triple_bind _ _ _ (λ p _, ∀ ts, p = Some ts -> tsValid ts)).
  { intros w Hg Hf. split; [eapply Good_calm; [apply calm_newestGood|done]|]. intros p Hp ts ->.
    apply newestGood_elem in Hp. apply list_elem_of_fmap in Hp as (c & -> & Hc). rewrite elem_of_reverse in Hc.
    rewrite Forall_forall in Hf. by apply Hf. }
  intros [ts|]; cbv beta; [intros w Hg Hts; split; [done|]; intros a' [= <-]; by apply Hts|].
  eapply triple_bind.
  { eapply (triple_weaken (λ _, True)); [apply triple_query, _|done|]. intros r' w Hg [_ Hr].
    instantiate (1 := λ r _, ∀ l, r = Ok l -> Forall (λ c, tsValid (chStart c)) l). intros l Hl.
    specialize (Hr l Hl). injection Hr as <-. apply Forall_forall. intros c Hc. rewrite Ha in Hc.
    eapply gd_typed; [apply Hg|]. apply ListChains_row; [apply Hg|done]. }
  intros r'. cbv beta. eapply triple_bind; [apply (triple_orFail (λ l _, Forall (λ c, tsValid (chStart c)) l))|].
  intros chains w Hg Hf. cbv beta in Hf. destruct (List.find _ chains) as [c|] eqn:Hfind; (split; [done|]); intros a' [= <-]; [|done].
  apply find_some in Hfind as [Hin _]. rewrite Forall_forall in Hf. apply Hf. by apply list_elem_of_In.
Qed.

Lemma keeps_with {A B} (R : A -> Prop) (c : M A) (k : A -> M B) :
  triple (λ _, True) c (λ a _, R a) -> (∀ a, R a -> keeps (k a)) -> keeps (c ≫= k).
Proof. intros Hc Hk. eapply triple_bind; [exact Hc|]. intros a w Hg HR. by apply Hk. Qed.

#[local] Hint Resolve keeps_breakChain : keeps.

Lemma keeps_diverge st win : tsValid (otTS (stLast st)) -> typedWindow win -> keeps (diverge E st win).
Proof.
  intros Hst Hwin. unfold diverge. eapply keeps_with; [by apply triple_divergencePoint|]. intros point Hp.
  apply keeps_bind; [keeps_auto|]. intros w. do 7 (apply keeps_bind; [keeps_auto|]; intros ?).
  apply keeps_bind; [keeps_auto|]. intros e. apply keeps_bind; [|keeps_auto]. destruct e; [by apply keeps_startChain|by apply keeps_startAtOldest].
Qed.
#[local] Hint Resolve keeps_diverge : keeps.

(** The window of the current member is typed, and whatever held still does. *)
Lemma triple_memberWindow P `{!Stable P} : triple P memberWindow (λ win w, P w /\ typedWindow win).
Proof.
  intros w Hg HP. destruct (triple_calm P memberWindow ltac:(unfold memberWindow; calm_auto) w Hg HP) as [Hg' HP'].
  split; [done|]. intros win Hw. split; [by eapply HP'|]. revert Hw. unfold memberWindow, mbind, M_bind, call, getW. simpl.
  destruct (mbWindow _ _) as [win'|] eqn:Hm; simpl; [|done]. intros [= ->].
  destruct (gd_member _ (proj1 Hg)) as [Hgm|Hn]; [by eapply gm_window|]. by rewrite Hn in Hm.
Qed.

(** A chain that ended: nothing is claimed of the position. *)
Lemma triple_handled P P' win (c : M unit) :
  keeps c -> triple P (d ← afterBreak; c;; mret (win, true, d))
    (λ '(win, handled, _) w, handled = false -> P' w /\ typedWindow win).
Proof.
  intros Hc. eapply (triple_bind _ _ _ (λ _ _, True)); [eapply triple_weaken; [apply keeps_calm, calm_afterBreak|done|done]|].
  intros d. eapply triple_bind; [exact Hc|]. intros _ w Hg _. split; [done|]. by intros a [= <-].
Qed.

(** Either the chain was ended, or the tick goes on with the primary. *)
Lemma triple_confirm P `{!Stable P} st :
  tsValid (otTS (stLast st)) ->
  triple P (confirm E st) (λ '(win, handled, _) w, handled = false -> P w /\ typedWindow win).
Proof.
  intros Hst. unfold confirm. apply triple_calm_bind; [apply _| |intros _].
  { apply calm_modW. intros w. simpl. split_and!; [done..|]. left. apply HE. }
  eapply triple_bind; [apply triple_memberWindow, _|]. intros win. cbv beta.
  apply triple_calm_bind; [apply _|apply calm_getW|intros w].
  apply triple_pure. intros Hwin.
  destruct (rsChanged w win); [apply triple_handled; keeps_auto|]. apply triple_calm_bind; [apply _|calm_auto|intros e].
  destruct (_ && _); [apply triple_handled; keeps_auto|]. destruct (negb _); [apply triple_handled; keeps_auto|].
  intros w1 Hg Hcur. split; [done|]. by intros a [= <-].
Qed.

Lemma keeps_resumeEnded c win : tsValid (chEnd c) -> typedWindow win -> keeps (resumeEnded E c win).
Proof.
  intros Hc Hwin. unfold resumeEnded. apply keeps_bind; [keeps_auto|]. intros w. destruct (_ && _); [keeps_auto|].
  apply keeps_bind; [|keeps_auto]. destruct Hwin as [Ho Hm]. destruct (chEndReason c); try (by apply keeps_startAtOldest).
  - apply keeps_bind; [keeps_auto|]. intros [term|]; [by apply keeps_startChain|by apply keeps_startAtOldest].
  - by apply keeps_startChain.
Qed.

(** ** The parts of a step *)

Lemma triple_stepOpen :
  triple (λ _, True) (stepOpen E) (λ '(st, win, _) w, typedWindow win /\
    ∀ st', st = Some st' -> Cur st' w /\ tsValid (otTS (stLast st'))).
Proof.
  unfold stepOpen. apply triple_getW. intros a Ha.
  eapply (triple_bind _ _ _ (λ _ _, True)).
  { eapply triple_weaken; [apply keeps_calm; calm_auto|by intros|by intros]. }
  intros _. eapply triple_bind; [exact (triple_query (λ _, True) _)|]. intros r. cbv beta.
  eapply (triple_bind _ _ _ (λ st w, ∀ st', st = Some st' -> Cur st' w /\ tsValid (otTS (stLast st')))).
  { intros w Hg [_ Hr]. destruct r as [st|e].
    - split; [done|]. intros st0 [= <-] st' [= <-]. specialize (Hr st eq_refl). rewrite Ha in Hr. unfold LoadState in Hr.
      destruct (dbStates (wdDB w) !! s) as [st1|] eqn:Hst; [|done]. injection Hr as ->. split; [|by eapply gd_state; [apply Hg|]].
      by exists st.
    - case_bool_decide; split; try done; by intros st0 [= <-]. }
  intros st. cbv beta.
  assert (Stable (λ w, ∀ st', st = Some st' -> Cur st' w /\ tsValid (otTS (stLast st')))) as HS.
  { intros w w' Hc Hg Hst st' Heq. destruct (Hst _ Heq). split; [by eapply Cur_calm|done]. }
  apply triple_calm_bind; [apply _|apply calm_call|intros n].
  destruct (evPin E n _) as [m|] eqn:Hpin; [|intros w Hg _; by split].
  eapply (triple_bind _ (need (Some m)) _ (λ m' w, (∀ st', st = Some st' -> Cur st' w /\ tsValid (otTS (stLast st'))) /\ m' = m)).
  { intros w Hg H. split; [done|]. by intros m' [= <-]. }
  intros m'. cbv beta. apply triple_pure. intros ->.
  apply triple_calm_bind; [apply _| |intros _].
  { apply calm_modW. intros w. simpl. split_and!; [done..|]. left. by eapply ge_pin. }
  eapply triple_bind; [apply triple_memberWindow, _|]. intros win. cbv beta.
  apply triple_calm_bind; [apply _|calm_auto|intros t]. apply triple_calm_bind; [apply _|calm_auto|intros _].
  intros w Hg [H Hwin]. split; [done|]. by intros a' [= <-].
Qed.

Lemma keeps_stepNew win : typedWindow win -> keeps (stepNew E win).
Proof.
  intros [_ Hm]. unfold stepNew. apply keeps_bind; [keeps_auto|]. intros w. destruct (tsIsZero _); [keeps_auto|].
  apply keeps_bind; [by apply keeps_startChain|keeps_auto].
Qed.

Lemma triple_endedChain P `{!Stable P} id :
  triple P (endedChain E id) (λ c w, P w /\ ∀ c', c = Some c' -> tsValid (chEnd c')).
Proof.
  unfold endedChain. apply triple_getW. intros a Ha.
  eapply triple_bind; [eapply triple_weaken; [exact (triple_query P _)|by intros ? [? _]|]|].
  { intros r w Hg Hr. instantiate (1 := λ r w, ∀ l, r = Ok l -> P w /\ Forall (λ c, tsValid (chEnd c)) l). simpl.
    intros l Hl. destruct Hr as [HP Hr]. split; [done|]. specialize (Hr l Hl). injection Hr as <-. apply Forall_forall.
    intros c Hc. rewrite Ha in Hc. eapply gd_typed; [apply Hg|]. apply ListChains_row; [apply Hg|done]. }
  intros r. cbv beta. eapply triple_bind; [apply (triple_orFail (λ l w, P w /\ Forall (λ c, tsValid (chEnd c)) l))|].
  intros l w Hg [HP Hl]. split; [done|]. intros c [= <-]. split; [done|]. intros c' Hfind.
  apply find_some in Hfind as [Hin _]. rewrite Forall_forall in Hl. apply Hl. by apply list_elem_of_In.
Qed.

Lemma triple_stepRestored st win :
  typedWindow win -> triple (Cur st) (stepRestored E st win) (λ d w, d = None -> Cur st w).
Proof.
  intros Hwin. unfold stepRestored. apply triple_calm_bind; [apply _|apply calm_getW|intros w].
  destruct (wkChecked w); [by intros w0 Hg Hc; split; [|intros a [= <-]]|].
  eapply triple_bind; [apply triple_endedChain, _|]. intros [c|]; cbv beta.
  - apply triple_calm_bind; [apply _|calm_auto|intros _]. apply triple_pure. intros Hend.
    eapply (triple_bind _ _ _ (λ _ _, True)).
    { apply keeps_weaken; [|done]. by apply keeps_resumeEnded; [apply Hend|]. }
    intros d w0 Hg _. split; [done|]. by intros a [= <-].
  - apply triple_calm_bind; [apply _|calm_auto|intros _]. intros w0 Hg [Hc _]. split; [done|]. by intros a [= <-].
Qed.

(** ** Queries leave the world as it is *)

Definition bump (w : World) : World := mkWorld (wdW w) (wdDB w) (wdObjects w) (wdEffects w) (S (wdN w)).

Lemma query_eval {A} (f : DB -> result PitrErr A) w :
  query E f w = (bump w, Ok (if evFault E (wdN w) then Err None
                             else match f (wdDB w) with Ok a => Ok a | Err e => Err (Some e) end)).
Proof.
  unfold query, repo, mbind, M_bind, call, mret, M_ret. simpl. by destruct (evFault E (wdN w)).
Qed.

Lemma calm_bump w : calm w (bump w).
Proof. apply calm_worker; auto. Qed.

Lemma prev_lt ts : tsValid ts -> tsIsZero (prev ts) = true \/ tslt (prev ts) ts.
Proof.
  destruct ts as [t i]. unfold tsValid, prev, tsIsZero, tslt; simpl. intros [? ?].
  destruct (i >? 0) eqn:Hi; simpl; [right; lia|]. destruct (t >? 0) eqn:Ht; simpl; [right; lia|left; lia].
Qed.

(** A chunk of the chain that ends at the position is listed. *)
Lemma lastChunks_lists db st l k c :
  tsValid (otTS (stLast st)) ->
  ListChunks (mkQuery s (stChainID st) (prev (otTS (stLast st))) zeroTS None false) db = Ok l ->
  dbChunks db !! k = Some c -> inChain s (stChainID st) c -> cTo c = otTS (stLast st) -> c ∈ l.
Proof.
  intros Hv. unfold ListChunks. destruct (_ || _); [done|]. intros [= <-] Hk [Hs Hc] Hto. unfold selectBy.
  rewrite elem_of_stable_sort, list_elem_of_filter. split.
  - apply Is_true_true. unfold chunkMatches; simpl. rewrite !bool_decide_true by done. simpl.
    rewrite ?andb_true_r. apply orb_true_iff. rewrite Hto.
    destruct (prev_lt _ Hv) as [?|Hlt]; [by left|right]. rewrite Z.gtb_ltb. apply Z.ltb_lt. by apply Compare_gt.
  - apply list_elem_of_fmap. exists (k, c). split; [done|]. by apply elem_of_map_to_list.
Qed.

(** The chain's position and its pieces, while the state is on it. *)
Lemma position_path w st' :
  Good' w -> dbStates (wdDB w) !! s = Some st' ->
  ∃ ch H, dbChains (wdDB w) !! (s, stChainID st') = Some ch /\ pieces s (stChainID st') (wdDB w) ≡ₚ H /\
    path (chStart ch) (pcSpan <$> H) (otTS (stLast st')).
Proof.
  intros [G1 G2 G3 G4 G5 G6 G7] Hst. destruct (inv_state _ G1 _ _ Hst) as [ch Hch].
  destruct (G7 _ _ Hch) as (H & [Hp _ _ (e & Hpath & He & _)]). exists ch, H. split_and!; [done|done|].
  by rewrite (He _ Hst eq_refl).
Qed.

(** The check at the start of a worker sets the flag only on a chain without chunks. *)
Lemma startChecked_pieces w st st' :
  Good' w -> Cur st w -> tsValid (otTS (stLast st)) ->
  ListChunks (mkQuery s (stChainID st) (prev (otTS (stLast st))) zeroTS None false) (wdDB w) = Ok [] ->
  (∃ c, c ∈ ListChains s (wdDB w) /\ chChainID c = stChainID st /\ chStart c = otTS (stLast st)) ->
  dbStates (wdDB w) !! s = Some st' -> pieces s (stChainID st') (wdDB w) = [].
Proof.
  intros Hg Hcur Hv Hlist (c & Hc & Hid & Hstart) Hst. destruct (Cur_lookup _ _ _ Hcur Hst) as [Hch Hlast].
  destruct (position_path w st' Hg Hst) as (ch & H & Hrow & Hp & Hpath). apply elem_of_nil_inv. intros p Hin.
  apply ListChains_row in Hc; [|apply Hg]. rewrite Hid, <- Hch, Hrow in Hc. injection Hc as ->. rewrite Hlast, Hstart in Hpath.
  destruct (path_bounds _ _ _ (pcFrom p) (pcTo p) Hpath) as (Hge & Hft & Hle).
  { apply list_elem_of_fmap. exists p. split; [done|]. by rewrite <- Hp. }
  apply elem_of_view in Hin as (k & row & Hk & Hrowin & ->). rewrite Hch in Hrowin.
  assert (row ∈ []) as ?%elem_of_nil; [|done]. eapply lastChunks_lists; [done|done|done|done|]. simpl in *.
  apply tsle_antisym; [done|]. by eapply tsle_trans.
Qed.

Lemma triple_startChecked st :
  tsValid (otTS (stLast st)) -> triple (Cur st) (startChecked E st) (λ _, Cur st).
Proof.
  intros Hv w Hg Hcur. unfold startChecked, lastChunks, chainStartsAt, mbind, M_bind, getW. rewrite query_eval. simpl.
  rewrite (gd_id _ (proj1 Hg)).
  set (next b n := mkWorld (setChecked true (setInclusive b (wdW w))) (wdDB w) (wdObjects w) (wdEffects w) n).
  assert (∀ b n, (b = true -> ∀ st', dbStates (wdDB w) !! s = Some st' -> pieces s (stChainID st') (wdDB w) = []) ->
    Good (next b n) /\ ∀ a, Ok (E := CErr) tt = Ok a -> Cur st (next b n)) as Hset.
  { intros b n Hb. split; [|intros _ _; exact Hcur]. split; [eapply Good'_worker; [apply Hg|done..|by right]|exact Hb]. }
  destruct (evFault E (wdN w)); simpl; [split; [|done]; eapply Good_calm; [apply calm_bump|done]|].
  destruct (ListChunks _ (wdDB w)) as [l|] eqn:Hl; simpl; [|split; [|done]; eapply Good_calm; [apply calm_bump|done]].
  destruct l as [|c l]; [|by apply Hset]. rewrite query_eval. simpl.
  destruct (evFault E (S (wdN w))); simpl; [by apply Hset|]. rewrite (gd_id _ (proj1 Hg)).
  destruct (List.find _ _) as [c|] eqn:Hf; simpl; [|by apply Hset]. apply Hset. intros Hb st' Hst. bool_cases.
  apply find_some in Hf as [Hin Hid]. bool_cases. eapply startChecked_pieces; [apply Hg|done|done|done| |done].
  exists c. split; [by apply list_elem_of_In|done].
Qed.

(** A confirmation inside a step. *)
Lemma triple_confirmed st :
  tsValid (otTS (stLast st)) ->
  triple (Cur st) ('(win, handled, d) ← confirm E st; mret (if handled : bool then inl d else inr win))
    (λ r w, ∀ win, r = inr win -> Cur st w /\ typedWindow win).
Proof.
  intros Hv. eapply triple_bind; [by apply (triple_confirm (Cur st))|]. intros [[win handled] d] w Hg H. cbv beta iota in H.
  split; [done|]. intros r [= <-] win' Heq. destruct handled; [done|]. injection Heq as <-. by apply H.
Qed.

Lemma triple_stepPosition st win :
  tsValid (otTS (stLast st)) -> typedWindow win ->
  triple (Cur st) (stepPosition E st win) (λ r w, ∀ win, r = inr win -> Cur st w /\ typedWindow win).
Proof.
  intros Hv Hwin. unfold stepPosition. apply triple_calm_bind; [apply _|apply calm_getW|intros w].
  assert (∀ b win', typedWindow win' -> triple (Cur st)
    (if b : bool then '(win, handled, d) ← confirm E st; mret (if handled : bool then inl d else inr win) else mret (inr win'))
    (λ r w, ∀ win, r = inr win -> Cur st w /\ typedWindow win)) as Hconf.
  { intros b win' Hw'. destruct b; [by apply triple_confirmed|]. intros w0 Hg Hc. split; [done|]. by intros r [= <-] ? [= <-]. }
  eapply triple_bind; [by apply Hconf|]. clear dependent win. intros [d|win]; cbv beta.
  { intros w0 Hg _. split; [done|]. by intros r [= <-]. }
  eapply (triple_weaken (λ w, Cur st w /\ typedWindow win)); [|intros ? Hr; by apply Hr|intros ?? _ Hr; exact Hr].
  apply triple_pure. intros Hwin. apply triple_calm_bind; [apply _|apply calm_getW|intros w1].
  apply triple_calm_bind; [apply _|calm_auto|intros _].
  destruct (wkChecked w1); [intros w0 Hg Hc; split; [done|]; by intros r [= <-] ? [= <-]|].
  apply triple_calm_bind; [apply _|calm_auto|intros e].
  eapply triple_bind; [by apply Hconf|]. clear dependent win. intros [d|win]; cbv beta.
  { intros w0 Hg _. split; [done|]. by intros r [= <-]. }
  eapply (triple_weaken (λ w, Cur st w /\ typedWindow win)); [|intros ? Hr; by apply Hr|intros ?? _ Hr; exact Hr].
  apply triple_pure. intros Hwin. eapply triple_bind; [by apply triple_startChecked|].
  intros _ w0 Hg Hc. split; [done|]. by intros r [= <-] ? [= <-].
Qed.

(** ** The next range *)

Lemma triple_rangeEnd P `{!Stable P} a b :
  tsValid b -> tsle a b -> triple P (rangeEnd a b) (λ '(to, _) w, P w /\ tsValid to /\ tsle a to).
Proof.
  intros Hb Hab w Hg HP.
  destruct (triple_calm P _ (calm_rangeEnd a b) w Hg HP) as [Hg' HP']. split; [done|].
  intros [to cu] Hr. specialize (HP' _ Hr). split; [done|]. revert Hr. unfold rangeEnd, mbind, M_bind, getW. simpl.
  destruct (_ >? _); [|by intros [= <- <-]]. unfold memberEntryAtOrAfter, mbind, M_bind, call, getW. simpl.
  destruct (mbEntryAtOrAfter _ _ _) as [[op|]|] eqn:Hm; simpl; [|by intros [= <- <-]|done].
  destruct (_ && _) eqn:Hc; intros [= <- <-]; [|done]. compare_cases. split.
  - destruct (gd_member _ (proj1 Hg)) as [Hgm|Hn]; [by eapply gm_after|]. by rewrite Hn in Hm.
  - apply tsle_lt_eq. by left.
Qed.

(** The range [(last, to]] is not one of a chunk already. *)
Definition Fresh (st : PState) (to : Timestamp) (w : World) : Prop :=
  ∀ st', dbStates (wdDB w) !! s = Some st' ->
    (otTS (stLast st), to) ∉ pcSpan <$> pieces s (stChainID st') (wdDB w).

#[local] Instance Stable_Fresh st to : Stable (Fresh st to).
Proof.
  intros w w' [H1 _ _ _ _] Hg Hf st' Hst. destruct (H1 (gd_inv _ Hg)) as [Hi' Hq].
  destruct (q_state _ _ _ Hq _ Hst) as (st0 & Hst0 & Hc & _). destruct (inv_state _ Hi' _ _ Hst) as [ch' Hch].
  destruct (q_chain _ _ _ Hq _ _ Hch) as (_ & _ & _ & Hp & _). rewrite Hp, Hc. by apply Hf.
Qed.

Lemma fresh_after st to w : Good' w -> Cur st w -> tslt (otTS (stLast st)) to -> Fresh st to w.
Proof.
  intros Hg Hcur Hlt st' Hst Hin. destruct (position_path w st' Hg Hst) as (ch & H & _ & Hp & Hpath).
  rewrite Hp in Hin. destruct (path_bounds _ _ _ _ _ Hpath Hin) as (_ & _ & Hle). destruct (Cur_lookup _ _ _ Hcur Hst) as [_ Hl].
  rewrite Hl in Hle. tslia.
Qed.

Lemma fresh_empty st w l :
  Cur st w -> tsValid (otTS (stLast st)) ->
  ListChunks (mkQuery s (stChainID st) (prev (otTS (stLast st))) zeroTS None false) (wdDB w) = Ok l ->
  existsb (λ c, bool_decide (cFrom c = otTS (stLast st)) && bool_decide (cTo c = otTS (stLast st))) l = false ->
  Fresh st (otTS (stLast st)) w.
Proof.
  intros Hcur Hv Hl Hex st' Hst (p & Hp & Hin)%list_elem_of_fmap. destruct (Cur_lookup _ _ _ Hcur Hst) as [Hch _].
  apply elem_of_view in Hin as (k & row & Hk & Hrow & ->). injection Hp as Hf Ht. rewrite Hch in Hrow.
  apply not_true_iff_false in Hex. apply Hex. apply existsb_exists. exists row. split.
  - apply list_elem_of_In. by eapply lastChunks_lists.
  - rewrite !bool_decide_true by done. done.
Qed.

Lemma triple_nothingNew st to :
  tsValid (otTS (stLast st)) -> tsle (otTS (stLast st)) to ->
  triple (Cur st) (nothingNew E st to) (λ skip w, Cur st w /\ (skip = false -> Fresh st to w)).
Proof.
  intros Hv Hle w Hg Hcur.
  destruct (triple_calm (Cur st) _ (calm_nothingNew st to) w Hg Hcur) as [Hg' HP']. split; [done|].
  intros skip Hr. specialize (HP' _ Hr). split; [done|]. intros ->. revert Hr HP' Hg'.
  unfold nothingNew, mbind, M_bind, getW. simpl. destruct (bool_decide (to = otTS (stLast st))) eqn:Hto; simpl.
  2:{ intros _ HP' [Hg' _]. bool_cases. apply fresh_after; [done..|]. apply tsle_lt_eq in Hle as [?|Heq]; [done|by destruct Hto]. }
  bool_cases. subst to. destruct (wkInclusive (wdW w)) eqn:Hinc; simpl.
  { intros _ _ _ st' Hst. rewrite (proj2 Hg Hinc _ Hst). apply not_elem_of_nil. }
  case_bool_decide; [done|]. unfold emptyChunkExists, lastChunks, mbind, M_bind, getW. rewrite query_eval. simpl.
  rewrite (gd_id _ (proj1 Hg)). destruct (evFault E (wdN w)); simpl; [done|].
  destruct (ListChunks _ (wdDB w)) as [l|] eqn:Hl; simpl; [|done]. destruct (existsb _ l) eqn:Hex; simpl; [done|].
  intros _ HP' _. by eapply fresh_empty.
Qed.

(** ** Objects *)

(** No chunk of the stream has its object at [k]. *)
Definition Unused (k : string * string) (w : World) : Prop :=
  ∀ c ch p, dbChains (wdDB w) !! (s, c) = Some ch -> p ∈ pieces s c (wdDB w) -> pcObject p <> k.

#[local] Instance Stable_Unused k : Stable (Unused k).
Proof.
  intros w w' [H1 _ _ _ _ _] Hg Hu c ch p Hch Hp. destruct (H1 (gd_inv _ Hg)) as [_ Hq].
  destruct (q_chain _ _ _ Hq _ _ Hch) as (ch0 & Hch0 & _ & Hpp & _). rewrite Hpp in Hp. by eapply Hu.
Qed.

(** The stream's chain has no chunk. *)
Definition NoPieces (w : World) : Prop :=
  ∀ st', dbStates (wdDB w) !! s = Some st' -> pieces s (stChainID st') (wdDB w) = [].

#[local] Instance Stable_NoPieces (R : Prop) : Stable (λ w, R -> NoPieces w).
Proof.
  intros w w' [H1 _ _ _ _ _] Hg Hn HR st' Hst. destruct (H1 (gd_inv _ Hg)) as [Hi' Hq].
  destruct (q_state _ _ _ Hq _ Hst) as (st0 & Hst0 & Hc & _). destruct (inv_state _ Hi' _ _ Hst) as [ch' Hch].
  destruct (q_chain _ _ _ Hq _ _ Hch) as (_ & _ & _ & Hp & _). rewrite Hc in *.
  rewrite (Hn HR _ Hst0) in Hp. by apply Permutation_nil_r in Hp.
Qed.

#[local] Instance Stable_object k es : Stable (λ w, wdObjects w !! k = Some es).
Proof. intros w w' [_ _ H2 _ _ _] _. by rewrite H2. Qed.

#[local] Instance Stable_object_if k R es : Stable (λ w, R -> wdObjects w !! k = Some es).
Proof. intros w w' [_ _ H2 _ _ _] _. by rewrite H2. Qed.

(** The key of the next range names no chunk. *)
Lemma fresh_unused st to st0 target w :
  Good' w -> Cur st w -> Fresh st to w -> tsValid to -> Unused (target, ChunkKey st0 (stChainID st) (otTS (stLast st)) to) w.
Proof.
  intros Hg (st' & Hst & Hc & Hl) Hf Hto c ch p Hch Hp Hk.
  destruct (gd_hist _ Hg _ _ Hch) as (H & [HpH _ Hkeys _]). rewrite Forall_forall in Hkeys.
  destruct (Hkeys p) as (Hv1 & Hv2 & st1 & Hkey); [by rewrite <- HpH|]. unfold pcObject in Hk. injection Hk as _ Hk.
  rewrite Hkey in Hk. pose proof (gd_state _ Hg _ Hst) as Hvl. rewrite Hl in Hvl.
  destruct (inv_state _ (gd_inv _ Hg) _ _ Hst) as [ch1 Hch1]. rewrite Hc in Hch1.
  apply ChunkKey_inj in Hk as (-> & Hfrom & Hto'); [|done..|].
  - apply (Hf _ Hst). rewrite Hc. apply list_elem_of_fmap. exists p. split; [|done]. unfold pcSpan. by rewrite Hfrom, Hto'.
  - by rewrite (gd_len _ Hg _ _ Hch), (gd_len _ Hg _ _ Hch1).
Qed.

Lemma Good_setObject k o w : Unused k w -> Good w -> Good (setObject k o w).1.
Proof.
  intros Hu [[G1 G2 G3 G4 G5 G6 G7] Hi]. split; [|exact Hi]. split; simpl; [done..|].
  intros c ch Hch. destruct (G7 _ _ Hch) as [H Hh]. exists H. eapply chainHist_objects; [|done].
  apply Forall_forall. intros p Hp. apply lookup_partial_alter_ne. intros Hk. symmetry in Hk.
  eapply Hu; [done| |exact Hk]. by rewrite (h_pieces _ _ _ _ _ _ _ Hh).
Qed.

(** A property of the tables only. *)
Class OnDB (P : World -> Prop) : Prop := on_db w w' : wdDB w' = wdDB w -> P w -> P w'.

#[local] Instance OnDB_Cur st : OnDB (Cur st).
Proof. intros w w' H. unfold Cur. by rewrite H. Qed.
#[local] Instance OnDB_Fresh st to : OnDB (Fresh st to).
Proof. intros w w' H. unfold Fresh. by rewrite H. Qed.
#[local] Instance OnDB_Unused k : OnDB (Unused k).
Proof. intros w w' H. unfold Unused. by rewrite H. Qed.
#[local] Instance OnDB_NoPieces (R : Prop) : OnDB (λ w, R -> NoPieces w).
Proof. intros w w' H. unfold NoPieces. by rewrite H. Qed.
#[local] Instance OnDB_and P Q `{!OnDB P, !OnDB Q} : OnDB (λ w, P w /\ Q w).
Proof. intros w w' H [? ?]. split; by eapply on_db. Qed.

Lemma triple_setObject P `{!OnDB P} k o :
  triple (λ w, P w /\ Unused k w) (setObject k o) (λ _ w, (P w /\ Unused k w) /\ wdObjects w !! k = o).
Proof.
  intros w Hg [HP Hu]. split; [by apply Good_setObject|]. intros [] _. split; [|apply lookup_partial_alter_eq].
  split; [by apply (on_db w)|exact Hu].
Qed.

Lemma keeps_removeObject k : triple (Unused k) (removeObject E k) (λ _ _, True).
Proof.
  unfold removeObject. apply triple_calm_bind; [apply _|calm_auto|intros ok]. destruct (negb ok); [by intros w Hg _|].
  apply triple_calm_bind; [apply _|calm_auto|intros n]. destruct (evPurge E n); [|by intros w Hg _].
  intros w Hg Hu. split; [by apply Good_setObject|done].
Qed.

Lemma keeps_abandon {A} P k e : (∀ w, P w -> Unused k w) -> triple P (removeObject E k;; raise (A := A) e) (λ _ _, False).
Proof.
  intros HP. eapply triple_bind; [eapply triple_weaken; [apply keeps_removeObject|exact HP|done]|].
  intros _ w Hg _. by split.
Qed.

Lemma triple_upload P `{!OnDB P, !Stable P} k read :
  triple (λ w, P w /\ Unused k w) (upload E k read)
    (λ r w, (P w /\ Unused k w) /\ ∀ cs saved, read = Ok cs -> r = Some saved -> wdObjects w !! k = Some (cyOut cs)).
Proof.
  unfold upload. apply triple_calm_bind; [apply _|calm_auto|intros ok].
  destruct (negb ok); [intros w Hg HP; split; [done|]; by intros r [= <-]|].
  apply triple_calm_bind; [apply _|apply calm_call|intros n].
  assert (∀ saved : option (option (string * option Z)), (∀ cs, read = Ok cs -> saved = None) -> triple (λ w, P w /\ Unused k w)
    ((match evPartial E n with Some junk => setObject k (Some junk) | None => mret tt end);; mret saved)
    (λ r w, (P w /\ Unused k w) /\ ∀ cs saved, read = Ok cs -> r = Some saved -> wdObjects w !! k = Some (cyOut cs))) as Hpart.
  { intros saved Hread. eapply (triple_bind _ _ _ (λ _ w, P w /\ Unused k w)).
    - destruct (evPartial E n); [|intros w Hg HP; by split].
      eapply triple_weaken; [apply triple_setObject, _|done|]. by intros ?? _ [? _].
    - intros _ w Hg HP. split; [done|]. intros r [= <-]. split; [done|]. intros cs sv Hr. by rewrite (Hread _ Hr). }
  destruct read as [cs|e]; [|by apply Hpart]. destruct (evSave E n) as [saved|]; [|by apply Hpart].
  eapply triple_bind; [apply triple_setObject, _|]. intros _ w Hg [HP Ho]. split; [done|].
  intros r [= <-]. split; [done|]. by intros cs' sv [= <-] _.
Qed.

(** ** Committing *)

Lemma CommitChunk_cases t c db db' r :
  CommitChunk t c db = (db', r) ->
  (db' = db /\ ∃ e, r = Err e) \/
  (r = Ok tt /\ dbChunks db !! cID c = None /\ tsle (cFrom c) (cTo c) /\ dbChains db' = dbChains db /\
   ∃ created st, dbStates db !! cStreamID c = Some st /\ stChainID st = cChainID c /\ otTS (stLast st) = cFrom c /\
     dbChunks db' = <[cID c := committed created c]> (dbChunks db) /\
     dbStates db' = <[cStreamID c := moveState (mkOpTime (cTo c) (cLastTerm c)) created st]> (dbStates db)).
Proof.
  unfold CommitChunk. destruct (_ || _); [intros [= <- <-]; left; eauto|].
  destruct (Compare (cTo c) (cFrom c) <? 0) eqn:Hcmp; [intros [= <- <-]; left; eauto|]. compare_cases.
  destruct (dbStates db !! cStreamID c) as [st|] eqn:Hst; [|intros [= <- <-]; left; eauto].
  destruct (bool_decide (stChainID st = cChainID c)) eqn:Hch; simpl; [|intros [= <- <-]; left; eauto].
  destruct (openChain _ _ _); [|intros [= <- <-]; left; eauto].
  destruct (bool_decide (otTS (stLast st) = cFrom c)) eqn:Hfr; simpl; [|intros [= <- <-]; left; eauto].
  destruct (negb _); [intros [= <- <-]; left; eauto|].
  destruct (bool_decide (is_Some (dbChunks db !! cID c)) || _) eqn:Hk; [intros [= <- <-]; left; eauto|]. bool_cases.
  intros [= <- <-]. right. split_and!; [done|by apply eq_None_not_Some|done|done|]. eexists _, st. by split_and!.
Qed.

(** What a completed read of the range after position [a] up to [to] gave. *)
Definition readOf (a : OpTime) (to : Timestamp) (incl : bool) (lastTerm : Z) (es : list Entry) : Prop :=
  ∃ m, logs m /\ (∃ x, x ∈ m /\ eOp x = a) /\ es = (if incl then slice else sliceAfter) m (otTS a) to /\
    ∃ x, x ∈ m /\ eOp x = mkOpTime to lastTerm.

Lemma CommitChunk_good st t c w db' incl es :
  Good' w -> Cur st w -> Fresh st (cTo c) w -> (incl = true -> NoPieces w) ->
  cStreamID c = s -> tsValid (cTo c) -> cFrom c = otTS (stLast st) ->
  (∃ st0, cStorageKey c = ChunkKey st0 (cChainID c) (cFrom c) (cTo c)) ->
  readOf (stLast st) (cTo c) incl (cLastTerm c) es -> wdObjects w !! (cTargetID c, cStorageKey c) = Some es ->
  CommitChunk t c (wdDB w) = (db', Ok tt) -> Good' (withDB db' w).
Proof.
  intros Hg Hcur Hf Hinc Hs Hto Hfrom Hkey (m & Hm & Hx & Hes & y & Hy & Hyop) Hobj HC.
  pose proof (CommitChunk_inv t c _ (gd_inv _ Hg)) as Hinv. rewrite HC in Hinv. simpl in Hinv.
  destruct (CommitChunk_cases _ _ _ _ _ HC) as [(_ & e & [=])|(_ & Hid & Hle & Hchains & cr & st1 & Hst1 & Hc1 & Hl1 & Hck & Hstates)].
  rewrite Hs in Hst1, Hstates. destruct (Cur_lookup _ _ _ Hcur Hst1) as [Hcc Hll].
  assert (∀ c', pieces s c' db' ≡ₚ (if decide (cChainID c = c') then [piece c] else []) ++ pieces s c' (wdDB w)) as Hp.
  { intros c'. unfold pieces. rewrite Hck, view_insert by done. f_equiv. unfold inChain. simpl.
    destruct (decide (cChainID c = c')); [by rewrite decide_True|]. rewrite decide_False; [done|]. by intros [_ ?]. }
  pose proof Hg as [G1 G2 G3 G4 G5 G6 G7]. split; simpl; rewrite ?Hchains, ?Hstates; [done..| |].
  - intros st'. rewrite lookup_insert_eq. by intros [= <-].
  - intros c' ch Hch. destruct (G7 _ _ Hch) as [H Hh]. destruct (decide (cChainID c = c')) as [<-|Hne].
    + exists (H ++ [piece c]). specialize (Hp (cChainID c)). rewrite decide_True in Hp by done.
      eapply (chainHist_commit logs s (wdDB w) db' _ _ _ _ _ _ st1
        (moveState (mkOpTime (cTo c) (cLastTerm c)) cr st1) m incl es); try done.
      * rewrite <- (h_pieces _ _ _ _ _ _ _ Hh), <- Hc1. unfold pcSpan; simpl. rewrite Hfrom. by apply Hf.
      * split_and!; [|done|done]. simpl. rewrite <- Hl1. by apply G6.
      * intros Hi. specialize (Hinc Hi _ Hst1). rewrite Hc1 in Hinc. pose proof (h_pieces _ _ _ _ _ _ _ Hh) as HpH.
        rewrite Hinc in HpH. by apply Permutation_nil_l in HpH.
      * by rewrite Hll.
      * simpl. by rewrite Hes, Hfrom.
      * by exists y.
      * by apply Forall_forall.
      * by rewrite Hstates, lookup_insert_eq.
    + exists H. eapply chainHist_moved; [|intros st'; rewrite Hstates, lookup_insert_eq; intros [= <-]; simpl|done].
      * rewrite Hp. by rewrite decide_False.
      * by rewrite Hc1.
Qed.

(** ** Writing a chunk *)

(** A successful read, with what was true before it. *)
Lemma triple_produce P `{!Stable P} a to incl :
  triple P (produce E (mkRange (otTS a) to true (otTerm a) incl))
    (λ r w, P w /\ ∀ cs, r = Ok cs -> cyStats cs = statsOf (cyOut cs) /\
       readOf a to incl (if osEntries (cyStats cs) >? 0 then otTerm (osLast (cyStats cs)) else otTerm a) (cyOut cs)).
Proof.
  intros w Hg HP. destruct (triple_calm P _ (calm_produce (mkRange (otTS a) to true (otTerm a) incl)) w Hg HP) as [Hg' HP']. split; [done|].
  intros r Hr. split; [by eapply HP'|]. intros cs ->. revert Hr. unfold produce, mbind, M_bind, call, getW. simpl.
  destruct (ReadOplog _ _ _) as [cs'|] eqn:HR; simpl; [|done]. destruct (evRoom E _); intros [= <-].
  destruct (gd_member _ (proj1 Hg)) as [Hgm|Hn]; [|by rewrite Hn in HR; unfold ReadOplog in HR; simpl in HR; case_match].
  destruct (gm_find _ Hgm (wdN w)) as (m & Hm & Hfind).
  destruct (ReadOplog_exact m _ _ _ _ (logs_increasing _ Hm) Hfind HR) as ((x & Hx & Hxts & Hxt) & Hend & Hle & Ho & Hst).
  simpl in *. assert (eOp x = a) as Hxa by (destruct a; unfold eTS in Hxts; destruct (eOp x); simpl in *; subst; by rewrite Hxt).
  split; [done|]. exists m. split_and!; [done|by exists x|done|].
  destruct (decide (cyOut cs' = [])) as [Hnil|Hnil].
  - rewrite Hst, Hnil. simpl. exists x. split; [done|]. rewrite Hxa, Hend. by destruct a.
  - destruct Hend as (y & Hy & Hyts & Hlast). exists y. split; [done|].
    assert ((osEntries (cyStats cs') >? 0) = true) as ->.
    { rewrite Hst, Z.gtb_ltb. apply Z.ltb_lt. unfold statsOf; simpl. destruct (cyOut cs'); [done|]. simpl. lia. }
    rewrite Hlast, <- Hyts. unfold eTS. by destruct (eOp y).
Qed.

(** A computation that may leave the flag of the first chunk to be reset. *)
Definition wtriple {A} (P : World -> Prop) (c : M A) : Prop :=
  ∀ w, Good w -> P w -> Good' (c w).1 /\ ∀ e, (c w).2 = Err e -> Good (c w).1.

Lemma wtriple_bind {A B} P (c : M A) (k : A -> M B) Q :
  triple P c Q -> (∀ a, wtriple (Q a) (k a)) -> wtriple P (c ≫= k).
Proof.
  intros Hc Hk w Hg HP. unfold mbind, M_bind. destruct (Hc w Hg HP) as [Hg1 HQ].
  destruct (c w) as [w1 [a|e]]; simpl in *; [by apply Hk; [|apply HQ]|]. split; [apply Hg1|done].
Qed.

Lemma wtriple_calm {A B} P `{!Stable P} (c : M A) (k : A -> M B) :
  calmly c -> (∀ a, wtriple P (k a)) -> wtriple P (c ≫= k).
Proof. intros Hc Hk. eapply wtriple_bind; [by apply triple_calm|done]. Qed.

Lemma wtriple_keeps {A} P Q (c : M A) : triple P c Q -> wtriple P c.
Proof. intros Hc w Hg HP. destruct (Hc w Hg HP) as [Hg1 _]. split; [apply Hg1|done]. Qed.

Lemma wtriple_pure {A} P (R : Prop) (c : M A) : (R -> wtriple P c) -> wtriple (λ w, P w /\ R) c.
Proof. intros Hc w Hg [HP HR]. by apply Hc. Qed.

Lemma wtriple_weaken {A} (P P' : World -> Prop) (c : M A) : wtriple P c -> (∀ w, P' w -> P w) -> wtriple P' c.
Proof. intros Hc HP w Hg H. apply Hc; auto. Qed.

Lemma wtriple_getW {B} P (k : worker -> M B) :
  (∀ a, sID (wkStream a) = s -> wtriple (λ w, P w) (k a)) -> wtriple P (getW ≫= k).
Proof. intros Hk w Hg HP. by apply Hk; [apply Hg|..]. Qed.

(** What holds while a chunk is written. *)
Definition Ready (st : PState) (to : Timestamp) (incl : bool) (w : World) : Prop :=
  (Cur st w /\ Fresh st to w) /\ (incl = true -> NoPieces w).

#[local] Instance Stable_Ready st to incl : Stable (Ready st to incl).
Proof. unfold Ready. apply _. Qed.
#[local] Instance OnDB_Ready st to incl : OnDB (Ready st to incl).
Proof. unfold Ready. apply _. Qed.

Lemma bind_ok {A B} (c : M A) (k : A -> M B) w w1 a : c w = (w1, Ok a) -> (c ≫= k) w = k a w1.
Proof. intros Hc. unfold mbind, M_bind. by rewrite Hc. Qed.

Lemma bind_err {A B} (c : M A) (k : A -> M B) w w1 e : c w = (w1, Err e) -> (c ≫= k) w = (w1, Err e).
Proof. intros Hc. unfold mbind, M_bind. by rewrite Hc. Qed.

Lemma repo_eval {A} (f : DB -> DB * result PitrErr A) w :
  repo E f w = (if evFault E (wdN w) then bump w else withDB (f (wdDB w)).1 (bump w),
    Ok (if evFault E (wdN w) then Err None else match (f (wdDB w)).2 with Ok a => Ok a | Err e => Err (Some e) end)).
Proof.
  unfold repo, mbind, M_bind, call, mret, M_ret. simpl. destruct (evFault E (wdN w)); [done|].
  cbn [wdDB wdW wdObjects wdEffects wdN]. by destruct (f (wdDB w)).
Qed.

Lemma wtriple_commit st to incl k es t c (raw : Z) :
  cStreamID c = s -> k = (cTargetID c, cStorageKey c) -> tsValid to -> cTo c = to -> cFrom c = otTS (stLast st) ->
  (∃ st0, cStorageKey c = ChunkKey st0 (cChainID c) (cFrom c) (cTo c)) -> readOf (stLast st) to incl (cLastTerm c) es ->
  wtriple (λ w, (Ready st to incl w /\ Unused k w) /\ wdObjects w !! k = Some es)
    (x ← repo E (CommitChunk t c);
     match x with Err _ => effect WriteErrorReported;; removeObject E k;; raise CFail | Ok _ => mret (c, raw) end).
Proof.
  intros Hs -> Hto <- Hfrom Hkey Hread w Hg [[[[Hcur Hf] Hn] Hu] Ho].
  assert (∀ w', calm w w' -> let r := (effect WriteErrorReported;; removeObject E (cTargetID c, cStorageKey c);;
      raise (A := Chunk * Z) CFail) w' in
    Good' r.1 /\ ∀ e, r.2 = Err e -> Good r.1) as Hab.
  { intros w' Hc. apply (wtriple_keeps (Unused (cTargetID c, cStorageKey c)) (λ _ _, False)); [|by eapply Good_calm|].
    { apply triple_calm_bind; [apply _|apply calm_effect|intros _]. by apply keeps_abandon. }
    eapply stable; [done|apply Hg|done]. }
  rewrite (bind_ok _ _ _ _ _ (repo_eval _ _)). destruct (evFault E (wdN w)); [apply (Hab (bump w)), calm_bump|].
  destruct (CommitChunk t c (wdDB w)) as [db' r] eqn:HC.
  destruct (CommitChunk_cases _ _ _ _ _ HC) as [(-> & e & ->)|(-> & _)]; cbn [fst snd]; [apply (Hab (bump w)), calm_bump|].
  split; [|done]. eapply Good'_worker; [by eapply CommitChunk_good; [apply Hg|..]|done|done|done|by right].
Qed.

Lemma wtriple_writeChunk st to incl :
  tsValid to ->
  wtriple (Ready st to incl) (writeChunk E (stChainID st) (mkRange (otTS (stLast st)) to true (otTerm (stLast st)) incl) (otTerm (stLast st))).
Proof.
  intros Hto. unfold writeChunk. apply wtriple_calm; [apply _|apply calm_call|intros n].
  apply wtriple_calm; [apply _|apply calm_need|intros mode]. apply wtriple_calm; [apply _|apply calm_call|intros n2].
  destruct (negb (evStorage E n2)); [eapply (wtriple_keeps _ (λ _ _, True)); apply triple_raise|].
  apply wtriple_getW. intros wk Hwk. cbv zeta. simpl rgFrom. simpl rgTo.
  set (obj := (sTargetID (wkStream wk), ChunkKey (wkStream wk) (stChainID st) (otTS (stLast st)) to)).
  eapply (wtriple_bind _ _ _ (λ r w, (Ready st to incl w /\ Unused obj w) /\ ∀ cs, r = Ok cs -> cyStats cs = statsOf (cyOut cs) /\
     readOf (stLast st) to incl (if osEntries (cyStats cs) >? 0 then otTerm (osLast (cyStats cs)) else otTerm (stLast st)) (cyOut cs))).
  { eapply triple_weaken; [apply triple_produce, _| |]; [|intros ?? Hg [Hr Hcs]; split; [|exact Hcs]; split; [exact Hr|]].
    - intros w Hw. exact Hw.
    - destruct Hr as [[Hc Hf] _]. apply fresh_unused; [apply Hg|done..]. }
  intros read. cbv beta. apply wtriple_pure. intros Hread.
  eapply wtriple_bind; [apply triple_upload, _|]; [apply _|]. intros saved. cbv beta.
  assert (∀ P (e : CErr), (∀ w, P w -> Unused obj w) -> wtriple P (removeObject E obj;; raise (A := Chunk * Z) e)) as Hab.
  { intros P e HP. eapply (wtriple_keeps _ (λ _ _, False)). by apply keeps_abandon. }
  destruct read as [cs|e]; [|].
  2:{ destruct e, saved; apply Hab; by intros w [[_ ?] _]. }
  destruct saved as [saved|]; [|apply Hab; by intros w [[_ ?] _]].
  destruct (Hread cs eq_refl) as [Hst Hro].
  eapply (wtriple_weaken (λ w, (Ready st to incl w /\ Unused obj w) /\ wdObjects w !! obj = Some (cyOut cs)));
    [|intros w [HP Ho]; split; [exact HP|by eapply Ho]].
  destruct (negb (checkScan E (cyOut cs) (cyStats cs))); [apply Hab; by intros w [[_ ?] _]|].
  apply wtriple_calm; [apply _|calm_auto|intros id]. apply wtriple_calm; [apply _|calm_auto|intros t].
  apply wtriple_calm; [apply _|calm_auto|intros ok]. destruct (negb ok); [apply Hab; by intros w [[_ ?] _]|].
  apply wtriple_calm; [apply _|calm_auto|intros t2]. apply wtriple_commit; simpl; try done. by exists (wkStream wk).
Qed.

(** ** The step *)

Lemma keeps_confirm st : tsValid (otTS (stLast st)) -> keeps (confirm E st).
Proof. intros Hv. eapply triple_weaken; [by apply (triple_confirm (λ _, True))|done|done]. Qed.

(** What follows a committed chunk. *)
Lemma committed_good w (catchUp : bool) (c : Chunk) (raw : Z) :
  Good' w ->
  Good ((modW (λ w, setInclusive false (setBehind 0 w));;
    (if cEntries c =? 0 then modW (setEmptyAt (cTo c)) else mret tt);; adjustInterval E raw;;
    if catchUp then mret 0 else modW (setGapBackoff 0);; w ← getW; mret (wkInterval w)) w).1.
Proof.
  intros Hg. rewrite (bind_ok _ _ _ _ _ eq_refl).
  apply (keeps_calm (((if cEntries c =? 0 then modW (setEmptyAt (cTo c)) else mret tt);; adjustInterval E raw;;
    if catchUp then mret 0 else modW (setGapBackoff 0);; w ← getW; mret (wkInterval w)) : M Z)); [calm_auto| |done].
  split; [eapply Good'_worker; [exact Hg|done..|by right]|done].
Qed.

Lemma keeps_stepWrite st to catchUp :
  tsValid (otTS (stLast st)) -> tsValid to -> triple (λ w, Cur st w /\ Fresh st to w) (stepWrite E st to catchUp) (λ _ _, True).
Proof.
  intros Hv Hto w Hg [Hc Hf]. split; [|done]. unfold stepWrite. rewrite (bind_ok _ _ _ _ _ eq_refl).
  set (rng := mkRange _ _ _ _ _).
  assert (Ready st to (wkInclusive (wdW w)) w) as Hr by (split; [done|]; intros Hi; exact (proj2 Hg Hi)).
  destruct (wtriple_writeChunk st to _ Hto w Hg Hr) as [Hg1 Herr]. fold rng in Hg1, Herr.
  assert (tryWrite E (stChainID st) rng (otTerm (stLast st)) w =
    ((writeChunk E (stChainID st) rng (otTerm (stLast st)) w).1, Ok (writeChunk E (stChainID st) rng (otTerm (stLast st)) w).2)) as Ht
    by (unfold tryWrite; by destruct (writeChunk _ _ _ _ w)).
  rewrite (bind_ok _ _ _ _ _ Ht). destruct (writeChunk E (stChainID st) rng (otTerm (stLast st)) w) as [w1 [[c raw]|e]];
    cbn [fst snd] in *; [by apply committed_good|].
  specialize (Herr e eq_refl). assert (∀ A (k : M A), keeps k -> Good (k w1).1) as Hk by (intros A k Hk; by apply Hk).
  destruct e as [[]|]; apply Hk; keeps_auto; by apply keeps_confirm.
Qed.

Lemma keeps_stepRange st win t :
  tsValid (otTS (stLast st)) -> typedWindow win -> triple (Cur st) (stepRange E st win t) (λ _ _, True).
Proof.
  intros Hv [_ Hb]. unfold stepRange. apply triple_calm_bind; [apply _|calm_auto|intros _].
  apply triple_calm_bind; [apply _|apply calm_getW|intros w]. destruct (_ <? 0) eqn:Hcmp; [by intros w0 Hg _|]. compare_cases.
  eapply triple_bind; [by apply (triple_rangeEnd (Cur st))|]. intros [to cu]. cbv beta iota.
  eapply (triple_weaken (λ w, Cur st w /\ (tsValid to /\ tsle (otTS (stLast st)) to)) _ _ (λ _ _, True)); [|done|done].
  apply triple_pure. intros [Hto Hle]. apply triple_calm_bind; [apply _|calm_auto|intros _].
  eapply triple_bind; [by apply triple_nothingNew|]. intros [|]; cbv beta.
  - apply (triple_weaken (λ _, True) _ _ (λ _ _, True)); [apply keeps_calm; calm_auto|by intros|by intros].
  - eapply triple_weaken; [by apply keeps_stepWrite| |done]. intros w0 [? Hf]. split; [done|by apply Hf].
Qed.

Lemma keeps_step : keeps (step E).
Proof.
  unfold step. eapply triple_bind; [apply triple_stepOpen|]. intros [[[st|] win] t]; cbv beta iota.
  2:{ eapply (triple_weaken (λ _, True /\ typedWindow win) _ _ (λ _ _, True)); [|by intros w [? _]|by intros].
      apply triple_pure. by apply keeps_stepNew. }
  eapply (triple_weaken (λ w, Cur st w /\ (typedWindow win /\ tsValid (otTS (stLast st)))) _ _ (λ _ _, True)); [| |by intros].
  2:{ intros w [Hw Hst]. destruct (Hst _ eq_refl). by split. }
  apply triple_pure. intros [Hwin Hv]. eapply triple_bind; [by apply triple_stepRestored|]. intros [d|]; cbv beta.
  { apply (triple_weaken (λ _, True) _ _ (λ _ _, True)); [apply keeps_calm; calm_auto|by intros|by intros]. }
  eapply (triple_weaken (Cur st) _ _ (λ _ _, True)); [|by intros w H; apply H|done].
  eapply triple_bind; [by apply triple_stepPosition|]. intros [d|win']; cbv beta.
  { apply (triple_weaken (λ _, True) _ _ (λ _ _, True)); [apply keeps_calm; calm_auto|by intros|by intros]. }
  eapply (triple_weaken (λ w, Cur st w /\ typedWindow win') _ _ (λ _ _, True)); [|intros w H; by apply H|done].
  apply triple_pure. intros Hwin'. by apply keeps_stepRange.
Qed.

Lemma tick_good msg w : Good w -> Good (tick E msg w).1.
Proof.
  intros Hg. unfold tick. destruct (keeps_step w Hg I) as [Hg1 _]. destruct (step E w) as [w1 r]. simpl in Hg1.
  destruct (evCancelled E); [done|].
  destruct r as [d|e]; (eapply Good_calm; [|exact Hg1]).
  - pose proof calm_recover as Hr. enough (calmly (recover E;; mret d)) as H by apply H. calm_auto.
  - pose proof (calm_fail (msg e)) as Hf.
    enough (calmly (fail E (msg e);; w ← getW; mret (Z.min (wkInterval w) maxFailureDelay))) as H by apply H. calm_auto.
Qed.
End Safety.

(** ** The worlds a collector reaches *)

(** Ticks in any environment, restarts of the worker (a crash leaves what a tick whose
    later calls fail leaves), and operations of the rest of the program. *)
Inductive reach (logs : list Entry -> Prop) (s : string) : World -> Prop :=
| reach_start st : sID st = s -> reach logs s (mkWorld (newWorker st) emptyDB ∅ [] 0)
| reach_tick E msg w : reach logs s w -> goodEnv logs E -> reach logs s (tick E msg w).1
| reach_restart st w : reach logs s w -> sID st = s ->
    reach logs s (mkWorld (newWorker st) (wdDB w) (wdObjects w) (wdEffects w) (wdN w))
| reach_other o w : reach logs s w -> foreign s o -> reach logs s (withDB (apply o (wdDB w)) w).

Section Reach.
Context (logs : list Entry -> Prop) `{!ReplicaLogs logs} (s : string).

Lemma reach_good w : reach logs s w -> Good logs s w.
Proof.
  induction 1 as [st Hs|E msg w _ IH HE|st w _ [IH _] Hs|o w _ [IH Hi] Ho].
  - split; [split; simpl; [apply emptyDB_inv|done|by right|done..]|done].
  - by apply tick_good.
  - destruct IH. split; [split; simpl; [done..|by right|done|done|done|done]|done].
  - pose proof (apply_inv o _ (gd_inv _ _ _ IH)) as Hinv. pose proof (apply_quiet s o _ (gd_inv _ _ _ IH) Ho) as Hq.
    split; [by apply Good'_quiet|by apply inclusiveOk_quiet].
Qed.

(** Pieces with the same range are the same piece. *)
Lemma spanlt_inj (H : list Piece) p q :
  StronglySorted spanlt (pcSpan <$> H) -> p ∈ H -> q ∈ H -> pcSpan p = pcSpan q -> p = q.
Proof.
  induction H as [|x H IH]; [by intros _ ?%elem_of_nil|]. rewrite fmap_cons. intros [Hs Hf]%StronglySorted_inv.
  rewrite Forall_forall in Hf.
  assert (∀ y, y ∈ H -> pcSpan y <> pcSpan x) as Hne.
  { intros y Hy Heq. assert (spanlt (pcSpan x) (pcSpan y)) as Hlt by (apply Hf, list_elem_of_fmap; by exists y).
    rewrite Heq in Hlt. unfold spanlt in Hlt. tslia. }
  intros [->|Hp]%elem_of_cons [->|Hq]%elem_of_cons E; [done| | |by apply IH].
  - by destruct (Hne _ Hq).
  - by destruct (Hne _ Hp).
Qed.

(** The pieces in the order of the history are the chunks in the order they are listed. *)
Lemma ListChunks_pieces db objs c start H l :
  chainHist logs s db objs c start H -> ListChunks (allChunks s c) db = Ok l -> piece <$> l = H.
Proof.
  intros [Hp Hs _ _] Hl. unfold ListChunks in Hl. destruct (_ || _); [done|]. injection Hl as <-.
  set (l := selectBy (chunkMatches (allChunks s c)) chunkCmp (dbChunks db)).
  assert (piece <$> l ≡ₚ H) as Hperm.
  { rewrite <- Hp. unfold l, selectBy, pieces, view. rewrite stable_sort_Permutation. apply fmap_Permutation, reflexive_eq.
    apply list_filter_iff. intros x. unfold chunkMatches, inChain. simpl. rewrite !andb_true_r, <- bool_decide_and.
    apply bool_decide_spec. }
  apply (StronglySorted_unique_strong (λ p q, spanle (pcSpan p) (pcSpan q))).
  - intros p q Hp1 Hq1 H1 H2. rewrite Hperm in Hp1. apply (spanlt_inj H); [done..|].
    by apply (anti_symm spanle).
  - assert (StronglySorted spanle (span <$> l)) as Hsl by apply selectBy_spans_sorted.
    clear -Hsl. induction l as [|x l IH]; [constructor|]. rewrite !fmap_cons in *. apply StronglySorted_inv in Hsl as [Hs Hf].
    constructor; [by apply IH|]. rewrite Forall_forall in Hf. apply Forall_forall.
    intros p (y & -> & Hy)%list_elem_of_fmap. apply (Hf (span y)), list_elem_of_fmap. by exists y.
  - clear -Hs. induction H as [|x H IH]; [constructor|]. rewrite fmap_cons in Hs. apply StronglySorted_inv in Hs as [Hs Hf].
    constructor; [by apply IH|]. rewrite Forall_forall in Hf. apply Forall_forall. intros y Hy. apply spanle_alt.
    assert (spanlt (pcSpan x) (pcSpan y)) as Hlt by (apply Hf, list_elem_of_fmap; by exists y). destruct Hlt as [?|[? ?]]; [by left|right]. split; [done|]. apply tsle_lt_eq. by left.
  - done.
Qed.

Lemma Forall2_objects {A B} (f : A -> option B) l cs : f <$> l = Some <$> cs -> Forall2 (λ x y, f x = Some y) l cs.
Proof.
  revert cs. induction l as [|x l IH]; intros [|y cs]; simpl; try done. intros [= ? ?]. constructor; auto.
Qed.

(** [C2] What the collector stores is the replica set's history. In every world a collector
    reaches (through any sequence of ticks, failing calls, lagging or rolled back members,
    failed uploads, restarts, and operations of the rest of the program), the objects of
    the chunks of a chain, in the order they are listed, hold an unbroken range of one
    member's log: from the chain's start to the end of its last chunk, with no entry
    missing, repeated or taken from another history. The range starts with the entry at
    the chain's start or right after it, and the stored position is an entry of the same
    log, with its term. The logs are assumed to match up to a common entry with its term,
    and a member's find to return the entries of its log. *)
Theorem collected_history w c ch l :
  reach logs s w -> dbChains (wdDB w) !! (s, c) = Some ch -> ListChunks (allChunks s c) (wdDB w) = Ok l -> l <> [] ->
  ∃ m e contents, logs m /\ path (chStart ch) (span <$> l) e /\
    Forall2 (λ c es, wdObjects w !! (cTargetID c, cStorageKey c) = Some es) l contents /\
    (concat contents = slice m (chStart ch) e \/ concat contents = sliceAfter m (chStart ch) e) /\
    (∃ x, x ∈ m /\ eTS x = chStart ch) /\
    ∃ x, x ∈ m /\ eTS x = e /\ ∀ st, LoadState s (wdDB w) = Ok st -> stChainID st = c -> stLast st = eOp x.
Proof.
  intros Hw Hch Hl Hne. destruct (gd_hist _ _ _ (proj1 (reach_good _ Hw)) _ _ Hch) as (H & Hh).
  pose proof (ListChunks_pieces _ _ _ _ _ _ Hh Hl) as HH. destruct Hh as [_ _ _ (e & Hpath & _ & Hd)].
  destruct Hd as [->|(m & incl & Hm & (Hne' & Hcs & _) & Hstart & x & Hx & Hxe & Hxs)]; [by destruct l|].
  exists m, e, (contentsOf m incl H). split_and!; [done| | | |done|].
  - by rewrite <- HH, <- list_fmap_compose in Hpath.
  - rewrite <- HH, <- list_fmap_compose in Hcs. rewrite <- HH. by apply Forall2_objects.
  - rewrite (contents_concat m incl H (chStart ch) e); [|by apply logs_increasing|done|done]. destruct incl; auto.
  - exists x. split_and!; [done..|]. intros st. unfold LoadState. destruct (dbStates _ !! s) eqn:Hst; [|done]. intros [= <-]. by apply Hxs.
Qed.

(** ** Divergences *)

Lemma memberEntryAt_eval ts w :
  memberEntryAt ts w = (bump w, match mbEntryAt (wkM (wdW w)) (wdN w) ts with Some e => Ok e | None => Err CFail end).
Proof. unfold memberEntryAt, mbind, M_bind, call, getW, need. simpl. by destruct (mbEntryAt _ _ _). Qed.

Lemma memberWindow_eval w :
  memberWindow w = (bump w, match mbWindow (wkM (wdW w)) (wdN w) with Some win => Ok win | None => Err CFail end).
Proof. unfold memberWindow, mbind, M_bind, call, getW, need. simpl. by destruct (mbWindow _ _). Qed.

(** The chunk found is before the window, or the member has the entry it ends at. *)
Lemma newestGood_found win l w ts :
  (newestGood win l w).2 = Ok (Some ts) ->
  ∃ c, c ∈ l /\ cTo c = ts /\ (tslt ts (owOldest win) \/ ∃ n, mbEntryAt (wkM (wdW w)) n ts = Some (Some (cLastTerm c))).
Proof.
  revert w. induction l as [|c l IH]; intros w; simpl; [done|].
  destruct (Compare _ _ <? 0) eqn:Hc; compare_cases.
  { intros [= <-]. exists c. split_and!; [left|done|by left]. }
  unfold mbind, M_bind. rewrite memberEntryAt_eval. destruct (mbEntryAt _ _ _) as [e|] eqn:He; [|done].
  case_bool_decide as Hterm.
  - intros [= <-]. exists c. split_and!; [left|done|right]. exists (wdN w). by rewrite He, Hterm.
  - intros (c' & Hin & Hrest)%(IH (bump w)). exists c'. split; [by right|exact Hrest].
Qed.

Lemma newestGood_db win l w : wdDB (newestGood win l w).1 = wdDB w.
Proof.
  revert w. induction l as [|c l IH]; intros w; simpl; [done|]. destruct (_ <? 0); [done|].
  unfold mbind, M_bind. rewrite memberEntryAt_eval. destruct (mbEntryAt _ _ _) as [e|]; [|done].
  case_bool_decide; [done|]. by rewrite IH.
Qed.

Lemma ListChains_in id c ch db : Inv db -> dbChains db !! (id, c) = Some ch -> ch ∈ ListChains id db.
Proof.
  intros Hi Hch. unfold ListChains, selectBy. rewrite elem_of_stable_sort, list_elem_of_filter. split.
  - apply Is_true_true, bool_decide_eq_true. by destruct (inv_chain_key _ Hi _ _ _ Hch).
  - apply list_elem_of_fmap. exists (id, c, ch). split; [done|]. by apply elem_of_map_to_list.
Qed.

Lemma divergencePoint_found E st win w point ch :
  sID (wkStream (wdW w)) = s -> Inv (wdDB w) -> dbChains (wdDB w) !! (s, stChainID st) = Some ch ->
  (divergencePoint E st win w).2 = Ok point ->
  (∃ k c, dbChunks (wdDB w) !! k = Some c /\ inChain s (stChainID st) c /\ cTo c = point /\
     (tslt point (owOldest win) \/ ∃ n, mbEntryAt (wkM (wdW w)) n point = Some (Some (cLastTerm c)))) \/
  point = chStart ch.
Proof.
  intros Hid Hi Hch. unfold divergencePoint. rewrite (bind_ok _ _ _ _ _ eq_refl), Hid.
  rewrite (bind_ok _ _ _ _ _ (query_eval _ _ _)). destruct (evFault E (wdN w)); [done|].
  destruct (ListChunks _ (wdDB w)) as [chunks|] eqn:Hl; [|done]. rewrite (bind_ok _ _ _ _ _ eq_refl).
  pose proof (newestGood_db win (reverse chunks) (bump w)) as Hdb.
  unfold mbind at 1, M_bind at 1. destruct (newestGood win (reverse chunks) (bump w)) as [w1 [[ts|]|]] eqn:Hn; [| |done].
  - intros [= <-]. left. destruct (newestGood_found win (reverse chunks) (bump w) ts) as (c & Hin & Hto & Hc); [by rewrite Hn|].
    rewrite elem_of_reverse in Hin. pose proof (ListChunks_rows _ _ _ Hl) as Hf. rewrite Forall_forall in Hf.
    destruct (Hf _ Hin) as [[k Hk] Hrow]. by exists k, c.
  - rewrite (bind_ok _ _ _ _ _ (query_eval _ _ _)). destruct (evFault E (wdN w1)); [done|].
    rewrite (bind_ok _ _ _ _ _ eq_refl). intros Hp. right. simpl in Hdb. rewrite Hdb in Hp.
    destruct (List.find _ _) as [c|] eqn:Hfind.
    + apply find_some in Hfind as [Hin Hcid]. bool_cases. apply list_elem_of_In, ListChains_row in Hin; [|done].
      injection Hp as <-. rewrite Hcid, Hch in Hin. by injection Hin as ->.
    + exfalso. assert (In ch (ListChains s (wdDB w))) as Hin by (by eapply list_elem_of_In, ListChains_in).
      pose proof (find_none _ _ Hfind ch Hin) as Hno. apply bool_decide_eq_false in Hno.
      apply Hno. apply (inv_chain_key _ Hi _ _ _ Hch).
Qed.

(** A divergence keeps the primary's history. When the entry at the stored position was
    rolled back, the divergence point the worker computes on the member that denied it cuts
    the chain's chunks in two: those before it hold exactly the range of that member's log
    from the chain's start to the point, and those after it start at the point or later
    (and are the ones superseded, but for empty ranges at the point itself). A point before
    the oldest entry of the member cannot be checked and is left out. *)
Theorem divergence_keeps_primary E w st win point ch m l :
  reach logs s w -> LoadState s (wdDB w) = Ok st -> dbChains (wdDB w) !! (s, stChainID st) = Some ch ->
  logs m -> (∀ n ts term, mbEntryAt (wkM (wdW w)) n ts = Some (Some term) -> ∃ x, x ∈ m /\ eOp x = mkOpTime ts term) ->
  (divergencePoint E st win w).2 = Ok point -> tsle (owOldest win) point -> point <> chStart ch ->
  ListChunks (allChunks s (stChainID st)) (wdDB w) = Ok l ->
  ∃ l1 l2 contents, l = l1 ++ l2 /\ path (chStart ch) (span <$> l1) point /\ Forall (λ c, tsle point (cFrom c)) l2 /\
    Forall2 (λ c es, wdObjects w !! (cTargetID c, cStorageKey c) = Some es) l1 contents /\
    (concat contents = slice m (chStart ch) point \/ concat contents = sliceAfter m (chStart ch) point).
Proof.
  intros Hw Hst Hch Hm Hmem Hpoint Hold Hne Hl. pose proof (proj1 (reach_good _ Hw)) as Hg.
  destruct (divergencePoint_found E st win w point ch (gd_id _ _ _ Hg) (gd_inv _ _ _ Hg) Hch Hpoint)
    as [(k & c & Hk & Hin & Hto & [Hlt|[n Hn]])|?]; [tslia| |done].
  destruct (Hmem _ _ _ Hn) as (x & Hx & Hxop). destruct (gd_hist _ _ _ Hg _ _ Hch) as (H & Hh).
  pose proof (ListChunks_pieces _ _ _ _ _ _ Hh Hl) as HH. destruct Hh as [Hp _ _ (e & Hpath & _ & Hd)].
  assert (piece c ∈ H) as HinH by (rewrite <- Hp; apply elem_of_view; by exists k, c).
  destruct Hd as [->|(m0 & incl & Hm0 & Hcol & _)]; [by apply elem_of_nil in HinH|].
  rewrite <- HH in HinH. apply list_elem_of_fmap in HinH as (c' & Hcc & Hinl).
  apply list_elem_of_split in Hinl as (la & lb & ->). rewrite <- HH in Hcol, Hpath.
  replace (la ++ c' :: lb) with ((la ++ [c']) ++ lb) in * by (by rewrite <- app_assoc).
  rewrite fmap_app in Hcol, Hpath. apply collected_prefix in Hcol; [|by destruct la].
  rewrite fmap_app in Hpath. apply path_app in Hpath as (mid & Hp1 & Hp2).
  assert (mid = point) as ->.
  { rewrite fmap_app, fmap_app in Hp1. apply path_app in Hp1 as (mid' & _ & Hp1). simpl in Hp1.
    apply (f_equal pcTo) in Hcc. simpl in Hcc. destruct Hp1 as (_ & _ & <-). congruence. }
  destruct (proj1 (Forall_forall _ _) (proj2 (proj2 Hcol)) (piece c')) as (z & Hz & Hzop); [set_solver|].
  rewrite <- Hcc in Hzop. simpl in Hzop. rewrite Hto in Hzop.
  assert (eTS z = point) as Hzts by (unfold eTS; by rewrite Hzop).
  apply (collected_transfer logs _ m0 m z) in Hcol; [|done..|by exists x; rewrite Hxop, Hzop|].
  2:{ apply Forall_forall. intros q Hq. rewrite Hzts. eapply path_bounds; [exact Hp1|]. apply list_elem_of_fmap. by exists q. }
  exists (la ++ [c']), lb, (contentsOf m incl (piece <$> la ++ [c'])). split_and!; [done| | | |].
  - by rewrite <- list_fmap_compose in Hp1.
  - apply Forall_forall. intros c2 Hc2. eapply (path_bounds point _ e (cFrom c2) (cTo c2)); [exact Hp2|].
    apply list_elem_of_fmap. exists (piece c2). split; [done|]. apply list_elem_of_fmap. by exists c2.
  - destruct Hcol as (_ & Hcs & _). rewrite <- list_fmap_compose in Hcs. by apply Forall2_objects.
  - rewrite (contents_concat m incl _ (chStart ch) point); [destruct incl; auto|by apply logs_increasing|by destruct la|done].
Qed.
End Reach.
