(* ===== verification/CollectorEffects.v ===== *)
(** * What a tick does to the repository and the worker

    A tick is a run of repository operations, none of which deletes anything; it ends a
    chain only after the primary denied the stored position; its waits are bounded. Each is
    a relation between the worlds before and after, followed through the code. *)

From S2P Require Import Prelude Pitr PitrStore PitrChain Oplog ChunkKeys Collector CollectorHistory CollectorSafety.

(** ** Relations along a computation *)

Section Tracks.
Context (R : World -> World -> Prop) `{!PreOrder R}.

Definition tracks {A} (c : M A) : Prop := ∀ w, R w (c w).1.

Lemma tracks_bind {A B} (c : M A) (k : A -> M B) : tracks c -> (∀ a, tracks (k a)) -> tracks (c ≫= k).
Proof.
  intros Hc Hk w. unfold mbind, M_bind. specialize (Hc w). destruct (c w) as [w1 [a|e]]; [|done]. simpl in *.
  etrans; [done|]. apply Hk.
Qed.

Lemma tracks_refl {A} (c : M A) : (∀ w, (c w).1 = w) -> tracks c.
Proof. intros Hc w. rewrite Hc. reflexivity. Qed.

Lemma tracks_try E c rng t : tracks (writeChunk E c rng t) -> tracks (tryWrite E c rng t).
Proof. intros Hc w. specialize (Hc w). unfold tryWrite. by destruct (writeChunk E c rng t w). Qed.
End Tracks.

(** Follows a computation; [leaf] handles what changes the world. *)
Ltac walk leaf :=
  repeat first
    [ lazymatch goal with
      | |- ∀ _, _ => intro
      | |- tracks _ (mbind _ _) => apply tracks_bind; [exact _| |]
      | |- tracks _ (mret _) => apply tracks_refl; [exact _|reflexivity]
      | |- tracks _ (raise _) => apply tracks_refl; [exact _|reflexivity]
      | |- tracks _ getW => apply tracks_refl; [exact _|reflexivity]
      | |- tracks _ (need ?x) => destruct x; apply tracks_refl; [exact _|reflexivity|exact _|reflexivity]
      | |- tracks _ (orFail ?x) => destruct x; apply tracks_refl; [exact _|reflexivity|exact _|reflexivity]
      | |- tracks _ (tryWrite _ _ _ _) => apply tracks_try
      | |- tracks _ (match ?x with _ => _ end) => destruct x
      | |- tracks _ (let '_ := ?x in _) => destruct x
      end
    | leaf ].

(** ** Runs of repository operations *)

Definition runs (A : op -> Prop) (w w' : World) : Prop := ∃ ops, Forall A ops /\ wdDB w' = run ops (wdDB w).

#[global] Instance runs_preorder A : PreOrder (runs A).
Proof.
  split.
  - intros w. by exists [].
  - intros w1 w2 w3 (o1 & H1 & E1) (o2 & H2 & E2). exists (o1 ++ o2). split; [by apply Forall_app|].
    unfold run in *. by rewrite foldl_app, <- E1.
Qed.

Lemma runs_same A w w' : wdDB w' = wdDB w -> runs A w w'.
Proof. intros H. by exists []. Qed.

Lemma runs_repo A {X} E (f : DB -> DB * result PitrErr X) o :
  (∀ db, (f db).1 = apply o db) -> A o -> tracks (runs A) (repo E f).
Proof.
  intros Hf Ho w. rewrite repo_eval. simpl. destruct (evFault E (wdN w)); [by apply runs_same|].
  exists [o]. split; [by constructor|]. simpl. by rewrite Hf.
Qed.

(** The operations a collector performs. *)
Definition collectorOp (o : op) : Prop :=
  match o with
  | OUpdateStream _ _ | OStartChain _ _ _ _ | OEndChain _ _ _ _ _ | OCommitChunk _ _ | OSupersedeChunks _ _ _
  | OSetCollectorStatus _ _ _ _ _ | OSetWindowLow _ _ | OSetReplicaSetID _ _ => True
  | _ => False
  end.

Ltac runs_leaf :=
  lazymatch goal with
  | |- tracks (runs _) (modW _) => intro; apply runs_same; reflexivity
  | |- tracks (runs _) call => intro; apply runs_same; reflexivity
  | |- tracks (runs _) (effect _) => intro; apply runs_same; reflexivity
  | |- tracks (runs _) (publish _) => intro; apply runs_same; reflexivity
  | |- tracks (runs _) (setObject _ _) => intro; apply runs_same; reflexivity
  | |- tracks (runs _) (query _ _) => intro; apply runs_same; rewrite query_eval; reflexivity
  | |- tracks (runs _) (orFailUnless _ ?x) => destruct x; simpl
  | |- tracks (runs _) (repo _ (SetCollectorStatus ?a ?b ?c ?d ?e)) => apply (runs_repo _ _ _ (OSetCollectorStatus a b c d e)); [reflexivity|first [exact I|auto]]
  | |- tracks (runs _) (repo _ (SetWindowLow ?a ?b)) => apply (runs_repo _ _ _ (OSetWindowLow a b)); [reflexivity|first [exact I|auto]]
  | |- tracks (runs _) (repo _ (SetReplicaSetID ?a ?b)) => apply (runs_repo _ _ _ (OSetReplicaSetID a b)); [reflexivity|first [exact I|auto]]
  | |- tracks (runs _) (repo _ (StartChain ?a ?b ?c ?d)) => apply (runs_repo _ _ _ (OStartChain a b c d)); [reflexivity|first [exact I|auto]]
  | |- tracks (runs _) (repo _ (EndChain ?a ?b ?c ?d ?e)) => apply (runs_repo _ _ _ (OEndChain a b c d e)); [reflexivity|first [exact I|auto]]
  | |- tracks (runs _) (repo _ (UpdateStream ?a ?b)) => apply (runs_repo _ _ _ (OUpdateStream a b)); [reflexivity|first [exact I|auto]]
  | |- tracks (runs _) (repo _ (CommitChunk ?a ?b)) => apply (runs_repo _ _ _ (OCommitChunk a b)); [reflexivity|first [exact I|auto]]
  end.

Section Runs.
Context (E : Env).

Lemma runs_newestGood A win l : tracks (runs A) (newestGood win l).
Proof. induction l as [|c l IH]; simpl; [|unfold memberEntryAt]; walk ltac:(first [exact IH|runs_leaf]). Qed.

Lemma runs_Supersede (A : op -> Prop) id c ts :
  (∀ id c ts, A (OSupersedeChunks id c ts)) ->
  tracks (runs A) (repo E (λ db, let '(db, n) := SupersedeChunks id c ts db in (db, Ok n))).
Proof.
  intros HA. apply (runs_repo _ _ _ (OSupersedeChunks id c ts)); [|done]. intros db. simpl.
  by destruct (SupersedeChunks id c ts db).
Qed.

Lemma runs_writeChunk (A : op -> Prop) c rng t :
  (∀ t c, A (OCommitChunk t c)) -> tracks (runs A) (writeChunk E c rng t).
Proof.
  intros HA. unfold writeChunk, upload, removeObject, produce, checkFence, random, now.
  walk ltac:(idtac; runs_leaf).
Qed.

Lemma runs_step : tracks (runs collectorOp) (step E).
Proof.
  unfold step, stepOpen, stepNew, stepRestored, stepPosition, stepRange, stepWrite, rangeEnd, nothingNew, resumeEnded,
    confirm, diverge, divergencePoint, breakChain, afterBreak, adjustInterval, emptyChunkExists, startChecked, endedChain,
    chainStartsAt, lastChunks, baseAfterBreak, startAtOldest, startChain, observeLag, adoptReplicaSetID, setWindowLowDB,
    setLagSinceDB, memberEntryAtOrAfter, memberEntryAt, memberWindow, random, now.
  walk ltac:(first [apply runs_newestGood | by apply runs_Supersede | by apply runs_writeChunk | runs_leaf]).
Qed.

(** The end of a tick records its outcome. *)
Lemma tracks_tick R `{!PreOrder R} msg :
  tracks R (step E) -> (∀ e, tracks R (fail E (msg e))) -> tracks R (recover E) -> tracks R (tick E msg).
Proof.
  intros Hs Hf Hr w. unfold tick. specialize (Hs w). destruct (step E w) as [w1 r]. simpl in Hs.
  destruct (evCancelled E); [done|]. etrans; [exact Hs|].
  destruct r as [d|e].
  - enough (tracks R (recover E;; mret d)) as H by apply H. walk ltac:(exact Hr).
  - enough (tracks R (fail E (msg e);; w ← getW; mret (Z.min (wkInterval w) maxFailureDelay))) as H by apply H.
    walk ltac:(apply Hf).
Qed.

(** A tick refines the repository: whatever the environment answers, its effect on the
    tables is a run of repository operations, and of the collector's only. It never deletes
    or prunes a chunk, a stream or a verification result; so every property kept by the
    repository's operations, continuity of chains first, is kept by the collector. *)
Theorem tick_refines msg w :
  ∃ ops, Forall collectorOp ops /\ wdDB (tick E msg w).1 = run ops (wdDB w).
Proof.
  apply (tracks_tick (runs collectorOp)); [exact runs_step| |].
  - intros e. unfold fail, now. walk ltac:(idtac; runs_leaf).
  - unfold recover, now. walk ltac:(idtac; runs_leaf).
Qed.
End Runs.

(** ** Waits *)

Create HintDb pace discriminated.

Section Waits.
Context (E : Env) (k : Z) (Hk : MinChunkSeconds <= k <= MaxChunkSeconds).

(** The interval in force is between a second and the configured one. *)
Definition paced (w : worker) : Prop :=
  sChunkSeconds (wkStream w) = k /\ second <= wkInterval w <= k * second /\
  0 <= wkGapBackoff w <= Z.max maxGapBackoff (k * second).

Definition wait (d : Z) : Prop := 0 <= d <= Z.max maxGapBackoff (k * second).

Definition pspec {A} (c : M A) (Q : A -> Prop) : Prop :=
  ∀ w, paced (wdW w) -> paced (wdW (c w).1) /\ ∀ a, (c w).2 = Ok a -> Q a.

Abbreviation keepsPace c := (pspec c (λ _, True)).

Lemma pspec_bind {A B} (c : M A) (f : A -> M B) Q1 Q :
  pspec c Q1 -> (∀ a, Q1 a -> pspec (f a) Q) -> pspec (c ≫= f) Q.
Proof.
  intros Hc Hf w Hw. unfold mbind, M_bind. destruct (Hc w Hw) as [Hw1 HQ].
  destruct (c w) as [w1 [a|e]]; simpl in *; [|done]. by apply Hf; [apply HQ|].
Qed.

Lemma pspec_ret {A} (a : A) (Q : A -> Prop) : Q a -> pspec (mret a) Q.
Proof. intros HQ w Hw. split; [done|]. by intros b [= <-]. Qed.

Lemma pspec_raise {A} e (Q : A -> Prop) : pspec (raise e) Q.
Proof. intros w Hw. by split. Qed.

Lemma pspec_getW : pspec getW paced.
Proof. intros w Hw. split; [done|]. by intros a [= <-]. Qed.

Lemma pspec_same {A} (c : M A) : (∀ w, wdW (c w).1 = wdW w) -> keepsPace c.
Proof. intros Hc w Hw. by rewrite Hc. Qed.

Lemma pspec_modW f : (∀ w, paced w -> paced (f w)) -> keepsPace (modW f).
Proof. intros Hf w Hw. split; [by apply Hf|done]. Qed.

Lemma pspec_weaken {A} (c : M A) (Q Q' : A -> Prop) : pspec c Q -> (∀ a, Q a -> Q' a) -> pspec c Q'.
Proof. intros Hc HQ w Hw. destruct (Hc w Hw). split; [done|]. auto. Qed.

Lemma configured_paced w : paced w -> configured w = k * second.
Proof.
  intros (Hs & _). unfold configured, configuredOf. rewrite Hs. unfold MinChunkSeconds, MaxChunkSeconds in Hk.
  rewrite (proj2 (Z.leb_gt k 0)) by lia. apply i64_small. unfold second, millisecond, nanosecond. lia.
Qed.

Lemma newWorker_paced st : sChunkSeconds st = k -> paced (newWorker st).
Proof.
  intros Hs. assert (configuredOf st = k * second) as Hc.
  { unfold configuredOf. rewrite Hs. unfold MinChunkSeconds, MaxChunkSeconds in Hk.
    rewrite (proj2 (Z.leb_gt k 0)) by lia. apply i64_small. unfold second, millisecond, nanosecond. lia. }
  unfold newWorker, paced. simpl. rewrite Hc. unfold MinChunkSeconds, maxGapBackoff, minute, second, millisecond, nanosecond in *. lia.
Qed.

(** Bounds of a worker, as numbers. *)
Ltac pace_lia :=
  unfold paced, wait, behindDelay, maxFailureDelay, maxGapBackoff, MinChunkSeconds, MaxChunkSeconds, minute, second, millisecond,
    nanosecond in *; simpl in *; lia.

(** The bound of a result, whichever way it was chosen. *)
Ltac pace_result := intros; repeat (case_match || simplify_eq); try done; pace_lia.

(** Follows a computation; the results of the operations in [pace] are remembered. *)
Ltac pwalk :=
  repeat lazymatch goal with
  | |- ∀ _, _ => intro
  | |- pspec (mbind _ _) _ =>
      first [ eapply pspec_bind; [solve [eauto with pace]|cbv beta]
            | apply (pspec_bind _ _ (λ _, True)); [|intros ? _] ]
  | |- pspec (mret _) _ => apply pspec_ret; solve [exact I | assumption | pace_result]
  | |- pspec (raise _) _ => apply pspec_raise
  | |- pspec (need ?x) _ => destruct x; [apply pspec_ret; exact I|apply pspec_raise]
  | |- pspec (orFail ?x) _ => destruct x; [apply pspec_ret; exact I|apply pspec_raise]
  | |- pspec (orFailUnless _ ?x) _ => destruct x; simpl
  | |- pspec (modW _) _ => apply pspec_modW; intros; solve [assumption | pace_lia]
  | |- pspec (match ?x with _ => _ end) _ => destruct x
  | |- pspec (let '_ := ?x in _) _ => destruct x
  | |- pspec call _ => apply pspec_same; reflexivity
  | |- pspec (effect _) _ => apply pspec_same; reflexivity
  | |- pspec (publish _) _ => apply pspec_same; reflexivity
  | |- pspec (setObject _ _) _ => apply pspec_same; reflexivity
  | |- pspec (query _ _) _ => apply pspec_same; intro; rewrite query_eval; reflexivity
  | |- pspec (repo _ _) _ => apply pspec_same; intro; rewrite repo_eval; simpl; by destruct (evFault _ _)
  | |- pspec _ (λ _, True) => solve [eauto with pace]
  end.

#[local] Hint Resolve pspec_getW : pace.

Lemma pace_writeChunk c rng t : keepsPace (writeChunk E c rng t).
Proof. unfold writeChunk, upload, removeObject, produce, checkFence, random, now. pwalk. Qed.

Lemma pace_tryWrite c rng t : keepsPace (tryWrite E c rng t).
Proof.
  intros w Hw. destruct (pace_writeChunk c rng t w Hw) as [Hw1 _]. unfold tryWrite.
  destruct (writeChunk E c rng t w). by split.
Qed.

Lemma pace_newestGood win l : keepsPace (newestGood win l).
Proof. induction l as [|c l IH]; simpl; unfold memberEntryAt; pwalk. Qed.

Lemma pace_afterBreak : pspec afterBreak wait.
Proof.
  unfold afterBreak. eapply (pspec_bind _ _ (λ _, True)).
  - apply pspec_modW. intros w Hw. unfold paced in *. simpl.
    assert (i64 (2 * wkGapBackoff w) = 2 * wkGapBackoff w) as -> by (apply i64_small; pace_lia). pace_lia.
  - pwalk.
Qed.

Lemma pace_adjustInterval n : keepsPace (adjustInterval E n).
Proof.
  unfold adjustInterval. eapply pspec_bind; [apply pspec_getW|]. intros a Ha. rewrite configured_paced by done.
  destruct ((n >? _) && _); [|destruct ((n <? _) && _); [|pwalk]]; apply pspec_modW; intros w Hw.
  - assert (0 <= Z.quot (wkInterval a) 2 <= wkInterval a) by (split; [apply Z.quot_pos|apply Z.quot_le_upper_bound]; pace_lia).
    unfold paced in *. simpl. pace_lia.
  - assert (i64 (wkInterval a * 2) = wkInterval a * 2) as -> by (apply i64_small; pace_lia). pace_lia.
Qed.
#[local] Hint Resolve pace_tryWrite pace_newestGood pace_afterBreak pace_adjustInterval : pace.

Lemma pace_startChain start : keepsPace (startChain E start).
Proof. unfold startChain, now, random. pwalk. Qed.
#[local] Hint Resolve pace_startChain : pace.

Lemma pace_startAtOldest win : keepsPace (startAtOldest E win).
Proof. unfold startAtOldest, memberEntryAt. pwalk. Qed.

Lemma pace_adopt id : keepsPace (adoptReplicaSetID E id).
Proof. unfold adoptReplicaSetID. pwalk. Qed.

Lemma pace_base : keepsPace (baseAfterBreak E).
Proof. unfold baseAfterBreak. pwalk. Qed.
#[local] Hint Resolve pace_startAtOldest pace_adopt pace_base : pace.

Lemma pace_breakChain st win reason : keepsPace (breakChain E st win reason).
Proof. unfold breakChain, now. pwalk. Qed.

Lemma pace_diverge st win : keepsPace (diverge E st win).
Proof. unfold diverge, divergencePoint, memberEntryAt, now. pwalk. Qed.
#[local] Hint Resolve pace_breakChain pace_diverge : pace.

Lemma pace_confirm st : pspec (confirm E st) (λ '(_, _, d), wait d).
Proof. unfold confirm, memberWindow, memberEntryAt. pwalk. Qed.

Lemma pace_observeLag st win t : keepsPace (observeLag E st win t).
Proof. unfold observeLag, setLagSinceDB, setWindowLowDB, now. pwalk. Qed.

Lemma pace_resumeEnded c win : pspec (resumeEnded E c win) wait.
Proof. unfold resumeEnded, memberEntryAt. pwalk. Qed.
#[local] Hint Resolve pace_confirm pace_observeLag pace_resumeEnded : pace.

Lemma pace_stepWrite st to cu : pspec (stepWrite E st to cu) wait.
Proof.
  unfold stepWrite. eapply pspec_bind; [apply pspec_getW|]. intros a Ha. eapply pspec_bind; [apply pace_tryWrite|]. intros r _.
  destruct r as [[c raw]|[[]|]]; pwalk.
Qed.

Lemma pace_stepRange st win t : pspec (stepRange E st win t) wait.
Proof.
  pose proof pace_stepWrite. unfold stepRange, rangeEnd, nothingNew, emptyChunkExists, lastChunks, memberEntryAtOrAfter. pwalk.
  all: eauto with pace.
Qed.

Lemma pace_stepOpen : keepsPace (stepOpen E).
Proof. unfold stepOpen, memberWindow, now. pwalk. Qed.

Lemma pace_stepRestored st win : pspec (stepRestored E st win) (λ d, ∀ d', d = Some d' -> wait d').
Proof. unfold stepRestored, endedChain. pwalk. Qed.

Lemma pace_confirmed st :
  pspec ('(win, handled, d) ← confirm E st; mret (if handled : bool then inl d else inr win)) (λ r, ∀ d, r = inl d -> wait d).
Proof. pwalk. Qed.
#[local] Hint Resolve pace_stepOpen pace_stepRestored pace_confirmed : pace.

Lemma pace_stepPosition st win : pspec (stepPosition E st win) (λ r, ∀ d, r = inl d -> wait d).
Proof.
  unfold stepPosition, startChecked, chainStartsAt, lastChunks, memberEntryAt. eapply pspec_bind; [apply pspec_getW|]. intros a Ha.
  eapply (pspec_bind _ _ (λ r, ∀ d, r = inl d -> wait d)); [destruct (_ || _); [apply pace_confirmed|pwalk]|]. intros [d|w1] Hr; [by apply pspec_ret|].
  eapply pspec_bind; [apply pspec_getW|]. intros b Hb. eapply (pspec_bind _ _ (λ _, True)); [pwalk|]. intros _ _.
  destruct (wkChecked b); [pwalk|]. eapply (pspec_bind _ _ (λ _, True)); [pwalk|]. intros e _.
  eapply (pspec_bind _ _ (λ r, ∀ d, r = inl d -> wait d)); [destruct (negb _); [apply pace_confirmed|pwalk]|].
  intros [d|w2] Hr2; [by apply pspec_ret|pwalk].
Qed.

Lemma pace_step : pspec (step E) wait.
Proof.
  unfold step, stepNew. eapply pspec_bind; [apply pace_stepOpen|]. intros [[[st|] win] t] _; [|pwalk].
  eapply pspec_bind; [apply pace_stepRestored|]. intros [d|] Hd; [by apply pspec_ret, Hd|].
  eapply pspec_bind; [apply pace_stepPosition|]. intros [d|win'] Hr; [by apply pspec_ret, Hr|apply pace_stepRange].
Qed.

(** The pace of a collector. With a chunk interval the service accepts (15 to 900
    seconds), the interval in force stays between one second and the configured one and the
    backoff after breaks at most ten minutes (or one interval, if that is longer), after any
    tick; and the wait a tick returns is never negative nor longer than that. *)
Theorem tick_paced msg w :
  paced (wdW w) -> paced (wdW (tick E msg w).1) /\ ∀ d, (tick E msg w).2 = Ok d -> wait d.
Proof.
  intros Hw. unfold tick. destruct (pace_step w Hw) as [Hw1 Hd]. destruct (step E w) as [w1 r]. simpl in Hw1, Hd.
  destruct (evCancelled E); [split; [done|]; intros d [= <-]; pace_lia|]. destruct r as [d|e].
  - enough (pspec (recover E;; mret d) wait) as H by (by apply H). specialize (Hd d eq_refl). unfold recover, now. pwalk.
  - enough (pspec (fail E (msg e);; w ← getW; mret (Z.min (wkInterval w) maxFailureDelay)) wait) as H by (by apply H).
    unfold fail, now. pwalk.
Qed.
End Waits.

(** ** Ends of chains *)

Definition notEnd (o : op) : Prop := match o with OEndChain _ _ _ _ _ | ODeleteStream _ => False | _ => True end.

Lemma apply_open o db k ch :
  notEnd o -> dbChains db !! k = Some ch -> dbChains (apply o db) !! k = Some ch.
Proof.
  intros Ho Hk. destruct o; try done; cbn [apply];
    unfold CreateStream, UpdateStream, StartChain, CommitChunk, MarkChunkVerified, SetChunkRetainUntil,
      MarkChunkPruned, SupersedeChunks, SetCollectorStatus, SetWindowLow, SetReplicaSetID, updateState;
    rewrite ?execOne_fst, ?DeleteChunks_fst; repeat case_match; simpl; try done.
  all: rewrite lookup_insert_ne; [done|congruence].
Qed.

Lemma run_open ops db k ch : Forall notEnd ops -> dbChains db !! k = Some ch -> dbChains (run ops db) !! k = Some ch.
Proof.
  revert db. induction ops as [|o ops IH]; intros db; [done|]. intros [Ho Hops]%Forall_cons Hk.
  apply (IH (apply o db)); [done|]. by apply apply_open.
Qed.

(** A window some member answered with during the tick. *)
Definition answered (E : Env) (win : OplogWindow) : Prop :=
  ∃ n, mbWindow (evPrimary E) n = Some win \/ ∃ n' ts m, evPin E n' ts = Some m /\ mbWindow m n = Some win.

(** A replica set ID the worker knew, that was stored, or that it saw during the tick. *)
Definition recorded (E : Env) (w : World) (st : PState) (id : string) : Prop :=
  id = wkRsID (wdW w) \/ id = stReplicaSetID st \/ ∃ win, answered E win /\ owReplicaSetID win = id.

(** The primary denies the stored position: it is of another replica set, or has no entry
    there with the stored term. *)
Definition denied (E : Env) (w : World) (st : PState) : Prop :=
  ∃ n win, mbWindow (evPrimary E) n = Some win /\
    (owReplicaSet win <> sReplicaSet (wkStream (wdW w)) \/
     (∃ id, recorded E w st id /\ id <> "" /\ owReplicaSetID win <> "" /\ owReplicaSetID win <> id) \/
     ∃ n' e, mbEntryAt (evPrimary E) n' (otTS (stLast st)) = Some e /\ e <> Some (otTerm (stLast st))).

Create HintDb aside discriminated.

Section Confirmed.
Context (E : Env) (w0 : World) (st : PState).

Definition same (w : World) : Prop := wkStream (wdW w) = wkStream (wdW w0) /\ recorded E w0 st (wkRsID (wdW w)).

Definition cspec {A} (c : M A) (Q : A -> Prop) : Prop :=
  ∀ w, same w -> denied E w0 st \/ (runs notEnd w (c w).1 /\ same (c w).1 /\ ∀ a, (c w).2 = Ok a -> Q a).

Lemma cspec_bind {A B} (c : M A) (f : A -> M B) Q1 Q :
  cspec c Q1 -> (∀ a, Q1 a -> cspec (f a) Q) -> cspec (c ≫= f) Q.
Proof.
  intros Hc Hf w Hw. unfold mbind, M_bind. destruct (Hc w Hw) as [?|(Hr & Hw1 & HQ)]; [by left|].
  destruct (c w) as [w1 [a|e]]; simpl in *; [|by right].
  destruct (Hf a (HQ a eq_refl) w1 Hw1) as [?|(Hr' & ? & ?)]; [by left|right]. split_and!; [by etrans|done..].
Qed.

Lemma cspec_ret {A} (a : A) (Q : A -> Prop) : Q a -> cspec (mret a) Q.
Proof. intros HQ w Hw. right. split_and!; [done|done|]. by intros b [= <-]. Qed.

Lemma cspec_raise {A} e (Q : A -> Prop) : cspec (raise e) Q.
Proof. intros w Hw. right. by split_and!. Qed.

Lemma cspec_getW : cspec getW (λ a, wkStream a = wkStream (wdW w0) /\ recorded E w0 st (wkRsID a)).
Proof. intros w Hw. right. split_and!; [done|done|]. by intros a [= <-]. Qed.

(** A computation that leaves the replica set alone and ends nothing. *)
Definition aside (w w' : World) : Prop :=
  runs notEnd w w' /\ wkStream (wdW w') = wkStream (wdW w) /\ wkRsID (wdW w') = wkRsID (wdW w).

#[local] Instance aside_preorder : PreOrder aside.
Proof.
  split; [by intros w|]. intros w1 w2 w3 (? & ? & ?) (? & ? & ?). split_and!; [by etrans|congruence..].
Qed.

Lemma cspec_aside {A} (c : M A) : tracks aside c -> cspec c (λ _, True).
Proof.
  intros Hr w [Hs1 Hs2]. right. destruct (Hr w) as (? & H1 & H2). split_and!; [done| |done]. split; [congruence|by rewrite H2].
Qed.

Lemma aside_repo {X} (f : DB -> DB * result PitrErr X) : tracks (runs notEnd) (repo E f) -> tracks aside (repo E f).
Proof. intros Hr w. split; [apply Hr|]. rewrite repo_eval. simpl. by destruct (evFault E (wdN w)). Qed.

Ltac aside_leaf :=
  lazymatch goal with
  | |- tracks aside (modW _) => intro; split_and!; [by apply runs_same|reflexivity|reflexivity]
  | |- tracks aside call => intro; split_and!; [by apply runs_same|reflexivity|reflexivity]
  | |- tracks aside (effect _) => intro; split_and!; [by apply runs_same|reflexivity|reflexivity]
  | |- tracks aside (publish _) => intro; split_and!; [by apply runs_same|reflexivity|reflexivity]
  | |- tracks aside (setObject _ _) => intro; split_and!; [by apply runs_same|reflexivity|reflexivity]
  | |- tracks aside (query _ _) => intro; rewrite query_eval; split_and!; [by apply runs_same|reflexivity|reflexivity]
  | |- tracks aside (orFailUnless _ ?x) => destruct x; simpl
  | |- tracks aside (repo _ _) => apply aside_repo; runs_leaf
  end.
Ltac awalk := walk ltac:(idtac; first [by eauto with aside | aside_leaf]).

Lemma aside_writeChunk c rng t : tracks aside (writeChunk E c rng t).
Proof. unfold writeChunk, upload, removeObject, produce, checkFence, random, now. awalk. Qed.

Lemma aside_startChain start : tracks aside (startChain E start).
Proof. unfold startChain, random, now. awalk. Qed.
#[local] Hint Resolve aside_writeChunk aside_startChain : aside.

Lemma aside_startAtOldest win : tracks aside (startAtOldest E win).
Proof. unfold startAtOldest, memberEntryAt. awalk. Qed.

Lemma aside_base : tracks aside (baseAfterBreak E).
Proof. unfold baseAfterBreak. awalk. Qed.

Lemma aside_observeLag win t : tracks aside (observeLag E st win t).
Proof. unfold observeLag, setLagSinceDB, setWindowLowDB, now. awalk. Qed.
#[local] Hint Resolve aside_startAtOldest aside_base aside_observeLag : aside.

Lemma aside_startChecked : tracks aside (startChecked E st).
Proof. unfold startChecked, chainStartsAt, lastChunks. awalk. Qed.

Lemma aside_adjustInterval n : tracks aside (adjustInterval E n).
Proof. unfold adjustInterval. awalk. Qed.

Lemma cspec_adopt id : recorded E w0 st id -> cspec (adoptReplicaSetID E id) (λ _, True).
Proof.
  intros Hid. unfold adoptReplicaSetID. destruct (isEmpty id); [by apply cspec_ret|].
  apply (cspec_bind _ _ (λ _, True)).
  - intros w [Hs _]. right. split_and!; [by apply runs_same|by split|done].
  - intros _ _. apply cspec_aside. awalk.
Qed.

(** The primary is asked before anything ends. *)
Lemma cspec_confirm :
  cspec (confirm E st) (λ '(win, handled, _), handled = false /\ recorded E w0 st (owReplicaSetID win)).
Proof.
  intros w [Hs Hid]. unfold confirm. rewrite (bind_ok _ _ _ _ _ eq_refl).
  set (w1 := mkWorld _ _ _ _ _). pose proof (memberWindow_eval w1) as Hm. simpl in Hm.
  destruct (mbWindow (evPrimary E) (wdN w)) as [win|] eqn:Hwin.
  2:{ rewrite (bind_err _ _ _ _ _ Hm). right. split_and!; [by apply runs_same|by split|done]. }
  rewrite (bind_ok _ _ _ _ _ Hm), (bind_ok _ _ _ _ _ eq_refl). clear Hm. destruct (rsChanged (wdW (bump w1)) win) eqn:Hch.
  { left. exists (wdN w), win. split; [done|]. unfold rsChanged in Hch. simpl in Hch. rewrite Hs in Hch.
    apply orb_prop in Hch as [Hch|Hch]; [left; by bool_cases|right; left]. bool_cases. exists (wkRsID (wdW w)).
    unfold isEmpty in *. bool_cases. by split_and!. }
  pose proof (memberEntryAt_eval (otTS (stLast st)) (bump w1)) as Hm. simpl in Hm.
  destruct (mbEntryAt (evPrimary E) (S (wdN w)) (otTS (stLast st))) as [e|] eqn:He.
  2:{ rewrite (bind_err _ _ _ _ _ Hm). right. split_and!; [by apply runs_same|by split|done]. }
  rewrite (bind_ok _ _ _ _ _ Hm).
  assert (e <> Some (otTerm (stLast st)) -> denied E w0 st) as Hden.
  { intros Hne. exists (wdN w), win. split; [done|]. right; right. eauto. }
  destruct (bool_decide (e = None) && _) eqn:H1; [left; apply Hden; bool_cases; by subst|].
  destruct (negb (bool_decide (e = Some (otTerm (stLast st))))) eqn:H2; [left; apply Hden; by bool_cases|].
  right. split_and!; [by apply runs_same|by split|]. intros a [= <-]. split; [done|]. right; right. exists win. split; [|done].
  exists (wdN w). by left.
Qed.

Lemma cspec_confirmed :
  cspec ('(win, handled, d) ← confirm E st; mret (if handled : bool then inl d else inr win))
    (λ r, ∀ win, r = inr win -> recorded E w0 st (owReplicaSetID win)).
Proof.
  eapply cspec_bind; [apply cspec_confirm|]. intros [[win h] d] [-> Hr]. apply cspec_ret. by intros ? [= <-].
Qed.

Lemma cspec_endedChain id : cspec (endedChain E id) (λ _, True).
Proof. apply cspec_aside. unfold endedChain. awalk. Qed.

Lemma cspec_resumeEnded c win : recorded E w0 st (owReplicaSetID win) -> cspec (resumeEnded E c win) (λ _, True).
Proof.
  intros Hid. unfold resumeEnded. eapply cspec_bind; [apply cspec_getW|]. intros a _. destruct (_ && _); [by apply cspec_ret|].
  eapply cspec_bind; [apply cspec_aside; unfold memberEntryAt; awalk|]. intros _ _.
  eapply cspec_bind; [apply cspec_getW|]. intros b _.
  eapply (cspec_bind _ _ (λ _, True)); [destruct (isEmpty _); [by apply cspec_adopt|by apply cspec_ret]|]. intros _ _.
  apply cspec_aside. awalk.
Qed.

Lemma cspec_stepRestored win : recorded E w0 st (owReplicaSetID win) -> cspec (stepRestored E st win) (λ _, True).
Proof.
  intros Hid. unfold stepRestored. eapply cspec_bind; [apply cspec_getW|]. intros a _. destruct (wkChecked a); [by apply cspec_ret|].
  eapply cspec_bind; [apply cspec_endedChain|]. intros [c|] _.
  - apply (cspec_bind _ _ (λ _, True)).
    { intros w [Hs _]. right. split_and!; [by apply runs_same|split; [exact Hs|right; by left]|done]. }
    intros _ _. eapply cspec_bind; [by apply cspec_resumeEnded|]. intros d _. by apply cspec_ret.
  - apply (cspec_bind _ _ (λ _, True)); [|intros _ _; by apply cspec_ret].
    intros w [Hs _]. right. split_and!; [by apply runs_same|split; [exact Hs|right; by left]|done].
Qed.

Lemma cspec_stepPosition win :
  recorded E w0 st (owReplicaSetID win) -> cspec (stepPosition E st win) (λ _, True).
Proof.
  intros Hid. unfold stepPosition. eapply cspec_bind; [apply cspec_getW|]. intros a _.
  assert (∀ b win', recorded E w0 st (owReplicaSetID win') -> cspec
    (if b : bool then '(win, handled, d) ← confirm E st; mret (if handled : bool then inl d else inr win) else mret (inr win'))
    (λ r, ∀ win, r = inr win -> recorded E w0 st (owReplicaSetID win))) as Hconf.
  { intros b win' Hw'. destruct b; [apply cspec_confirmed|]. apply cspec_ret. by intros ? [= <-]. }
  eapply cspec_bind; [by apply Hconf|]. intros [d|win1] Hr; [by apply cspec_ret|].
  eapply cspec_bind; [apply cspec_getW|]. intros b _.
  eapply (cspec_bind _ _ (λ _, True)); [destruct (isEmpty _); [by apply cspec_adopt, Hr|by apply cspec_ret]|]. intros _ _.
  destruct (wkChecked b); [by apply cspec_ret|]. eapply cspec_bind; [apply cspec_aside; unfold memberEntryAt; awalk|]. intros e _.
  eapply cspec_bind; [by apply Hconf, Hr|]. intros [d|win2] _; [by apply cspec_ret|].
  eapply cspec_bind; [apply cspec_aside, aside_startChecked|]. intros _ _. by apply cspec_ret.
Qed.

Lemma cspec_stepWrite to cu : cspec (stepWrite E st to cu) (λ _, True).
Proof.
  pose proof aside_adjustInterval as Hadj. unfold stepWrite. eapply cspec_bind; [apply cspec_getW|]. intros a _.
  eapply cspec_bind; [apply cspec_aside, tracks_try, aside_writeChunk|]. intros r _.
  destruct r as [[c raw]|[[]|]]; try (by apply cspec_raise).
  - apply cspec_aside. walk ltac:(idtac; first [apply Hadj|aside_leaf]).
  - eapply cspec_bind; [apply cspec_confirm|]. intros [[win h] d] _. by apply cspec_ret.
  - apply cspec_aside. awalk.
Qed.

Lemma cspec_stepRange win t : cspec (stepRange E st win t) (λ _, True).
Proof.
  unfold stepRange. eapply cspec_bind; [apply cspec_aside, aside_observeLag|]. intros _ _.
  eapply cspec_bind; [apply cspec_getW|]. intros a _. destruct (_ <? 0); [by apply cspec_ret|].
  eapply cspec_bind; [apply cspec_aside; unfold rangeEnd, memberEntryAtOrAfter; awalk|]. intros [to cu] _.
  eapply cspec_bind; [apply cspec_aside; awalk|]. intros _ _.
  eapply cspec_bind; [apply cspec_aside; unfold nothingNew, emptyChunkExists, lastChunks; awalk|]. intros [] _.
  - apply cspec_aside. awalk.
  - apply cspec_stepWrite.
Qed.
End Confirmed.

(** The state a step works on is the stored one, and its first window a pinned member's. *)
Lemma stepOpen_answers E w w1 st win t :
  stepOpen E w = (w1, Ok (st, win, t)) ->
  wdDB w1 = wdDB w /\ wkStream (wdW w1) = wkStream (wdW w) /\ wkRsID (wdW w1) = wkRsID (wdW w) /\ answered E win /\
  match st with Some st => LoadState (sID (wkStream (wdW w))) (wdDB w) = Ok st | None => True end.
Proof.
  unfold stepOpen. rewrite (bind_ok _ _ _ _ _ eq_refl).
  set (opened := if wkSess (wdW w) then _ else _).
  assert (wdDB (opened w).1 = wdDB w /\ wkStream (wdW (opened w).1) = wkStream (wdW w) /\ wkRsID (wdW (opened w).1) = wkRsID (wdW w))
    as (Hdb & Hs & Hr).
  { unfold opened. destruct (wkSess (wdW w)); [done|]. rewrite (bind_ok _ _ _ _ _ eq_refl). by destruct (evOpen E _). }
  destruct (opened w) as [wa [[]|e]] eqn:Ho; [rewrite (bind_ok _ _ _ _ _ Ho)|by rewrite (bind_err _ _ _ _ _ Ho)]. simpl in *.
  rewrite (bind_ok _ _ _ _ _ (query_eval _ _ _)). set (x := if evFault E (wdN wa) then _ else _).
  set (load := match x with Ok st => _ | Err e => _ end).
  destruct (load (bump wa)) as [wb [ost|e]] eqn:Hl; [rewrite (bind_ok _ _ _ _ _ Hl)|by rewrite (bind_err _ _ _ _ _ Hl)].
  assert (wb = bump wa /\ match ost with Some st => LoadState (sID (wkStream (wdW w))) (wdDB w) = Ok st | None => True end) as [-> Hload].
  { unfold load, x in Hl. rewrite Hdb in Hl. destruct (evFault E (wdN wa)); [done|].
    destruct (LoadState _ (wdDB w)) as [st0|e0]; [by inversion Hl|]. case_bool_decide; by inversion Hl. }
  rewrite (bind_ok _ _ _ _ _ eq_refl). set (n := wdN (bump wa)).
  destruct (evPin E n _) as [m|] eqn:Hpin; [|done]. rewrite (bind_ok (need (Some m)) _ _ _ _ eq_refl), (bind_ok _ _ _ _ _ eq_refl).
  set (wc := mkWorld (setM m _) _ _ _ _). pose proof (memberWindow_eval wc) as Hm.
  destruct (mbWindow (wkM (wdW wc)) (wdN wc)) as [win'|] eqn:Hwin; [rewrite (bind_ok _ _ _ _ _ Hm)|by rewrite (bind_err _ _ _ _ _ Hm)].
  intros [= <- <- <- <-]. split_and!; [done..| |done]. exists (wdN wc). right. eexists n, _, m. by split.
Qed.

(** [C29] A chain ends only when the primary denies the collector's position. If a chain was
    open before a tick and is not after it, then during the tick the primary answered that
    it belongs to another replica set (another name, or another ID than the one recorded),
    or that it has no entry at the stored position with the stored term. What a pinned
    member says alone, an error of any call, or a failed upload never ends a chain. *)
Theorem chain_ends_confirmed E msg w s c ch ch' :
  dbChains (wdDB w) !! (s, c) = Some ch -> chainOpen ch = true ->
  dbChains (wdDB (tick E msg w).1) !! (s, c) = Some ch' -> chainOpen ch' = false ->
  ∃ st, LoadState (sID (wkStream (wdW w))) (wdDB w) = Ok st /\ denied E w st.
Proof.
  intros Hch Hopen Hch' Hended.
  enough (runs notEnd w (step E w).1 \/ ∃ st, LoadState (sID (wkStream (wdW w))) (wdDB w) = Ok st /\ denied E w st) as [Hr|?]; [|done|].
  { exfalso. assert (runs notEnd w (tick E msg w).1) as (ops & Hops & Hdb).
    { unfold tick. destruct (step E w) as [w1 r]. destruct (evCancelled E); [done|]. etrans; [exact Hr|].
      destruct r as [d|e].
      - enough (tracks (runs notEnd) (recover E;; mret d)) as H by apply H. unfold recover, now. walk ltac:(idtac; runs_leaf).
      - enough (tracks (runs notEnd) (fail E (msg e);; w ← getW; mret (Z.min (wkInterval w) maxFailureDelay))) as H by apply H.
        unfold fail, now. walk ltac:(idtac; runs_leaf). }
    rewrite Hdb, (run_open _ _ _ _ Hops Hch) in Hch'. congruence. }
  unfold step. destruct (stepOpen E w) as [w1 [[[st win] t]|e]] eqn:Ho.
  2:{ rewrite (bind_err _ _ _ _ _ Ho). left. simpl.
      assert (tracks (runs notEnd) (stepOpen E)) as Ht by (unfold stepOpen, memberWindow, now; walk ltac:(idtac; runs_leaf)).
      specialize (Ht w). by rewrite Ho in Ht. }
  rewrite (bind_ok _ _ _ _ _ Ho). destruct (stepOpen_answers _ _ _ _ _ _ Ho) as (Hdb & Hs & Hid & Hwin & Hst).
  destruct st as [st|].
  - assert (recorded E w st (owReplicaSetID win)) as Hrec by (right; right; by exists win).
    assert (cspec E w st (d ← stepRestored E st win;
      match d with
      | Some d => mret d
      | None => r ← stepPosition E st win; match r with inl d => mret d | inr win => stepRange E st win t end
      end) (λ _, True)) as Hc.
    { eapply cspec_bind; [by apply cspec_stepRestored|]. intros [d|] _; [by apply cspec_ret|].
      eapply cspec_bind; [by apply cspec_stepPosition|]. intros [d|win'] _; [by apply cspec_ret|apply cspec_stepRange]. }
    destruct (Hc w1) as [?|(Hr & _)]; [split; [done|left; done]|right; by exists st|left].
    etrans; [|exact Hr]. by apply runs_same.
  - left. etrans; [apply runs_same; exact Hdb|].
    enough (tracks (runs notEnd) (stepNew E win)) as H by apply H.
    unfold stepNew, startChain, adoptReplicaSetID, now, random. walk ltac:(idtac; runs_leaf).
Qed.
