(* ===== verification/CollectorDemo.v ===== *)
(** * Runs of the collector

    Members with concrete logs and environments without failures, on which ticks are
    evaluated; and the instances of the collector's theorems on them. *)

From S2P Require Import Prelude Pitr PitrStore PitrChain Oplog ChunkKeys Calendar Collector CollectorHistory CollectorSafety CollectorEffects.

(** A member that has the whole of log [m], all of it majority-committed. *)
Definition memberOf (m : list Entry) : Member := mkMember
  (λ _, Some (mkOplogWindow (default zeroTS (eTS <$> head m)) (default zeroTS (eTS <$> last m))
                (default zeroOp (eOp <$> last m)) "rs0" "id0"))
  (λ _ ts, Some (otTerm ∘ eOp <$> List.find (λ e, bool_decide (eTS e = ts)) m))
  (λ _ ts, Some (eOp <$> List.find (λ e, bool_decide (tsle ts (eTS e))) m))
  (λ _ lo hi, Some (mkCursor (Some <$> slice m lo hi) false)).

(** Sixteen hexadecimal digits. *)
Definition demoHex (n : nat) : string := padded 16 (Z.of_nat n) "".

(** An environment without failures, pinned to [m], the primary having [p]. *)
Definition calmEnv (m p : list Entry) : Env := mkEnv (λ n, unix_time (1000 + Z.of_nat n)) demoHex
  (λ _, false) (λ _, true) (λ _ _, Some (memberOf m)) (memberOf p) (λ _, Some "age") (λ _, true) (λ _, true)
  (λ e, Some (eOp e)) (λ _, None) (λ _, Some None) (λ _, None) (λ es, Z.of_nat (length es)) (λ es, Z.of_nat (length es))
  (λ _, "sha") (λ _, true) true (λ _, true) DefaultMaxChunkBytes false.

(** The same environment, with a database that fails after call [n]. *)
Definition faulty (n : nat) (E : Env) : Env := mkEnv (evNow E) (evRand E) (λ k, Nat.ltb n k) (evOpen E) (evPin E) (evPrimary E)
  (evEncryptor E) (evStorage E) (evFence E) (evDocPos E) (evRoom E) (evSave E) (evPartial E) (evSize E) (evRaw E) (evSHA E)
  (evPurge E) (evHasBase E) (evStartBase E) (evMaxChunkBytes E) (evCancelled E).

Definition demoEntry (t term : Z) (data : string) : Entry := mkEntry (mkOpTime (mkTS t 1) term) data.

(** The log of a primary, and the log after it failed over: its last entry was rolled back. *)
Definition logA : list Entry := [demoEntry 100 1 "a"; demoEntry 110 1 "b"; demoEntry 120 1 "c"].
Definition logB : list Entry := [demoEntry 100 1 "a"; demoEntry 110 1 "b"; demoEntry 125 2 "d"; demoEntry 130 2 "e"].

Definition demoMsg (e : CErr) : string := "failed".

Definition demoStart : World := mkWorld (newWorker demoStream) emptyDB ∅ [] 0.
Definition demo0 : World := withDB (apply (OCreateStream 5 demoStream) emptyDB) demoStart.
(** The first tick starts a chain, the second collects. *)
Definition demo1 : World := (tick (calmEnv (take 1 logA) logA) demoMsg demo0).1.
Definition demo2 : World := (tick (calmEnv (take 2 logA) logA) demoMsg demo1).1.
Definition demo3 : World := (tick (calmEnv logA logA) demoMsg demo2).1.
(** The failover is seen, then the new history is collected. *)
Definition demo4 : World := (tick (calmEnv logB logB) demoMsg demo3).1.
Definition demo5 : World := (tick (calmEnv logB logB) demoMsg demo4).1.
(** The failover seen by a tick whose database fails once it has read the state. *)
Definition demoFault : World := (tick (faulty (wdN demo3) (calmEnv logB logB)) demoMsg demo3).1.

Definition demoChain1 : string := "ch_19700101T001645Z_0000000000000006".

Definition demoChunks (w : World) : list Chunk :=
  match ListChunks (allChunks "s" demoChain1) (wdDB w) with Ok l => l | Err _ => [] end.

(** ** The logs of the demonstration *)

Definition demoHistory : list (list Entry) := [take 1 logA; take 2 logA; logA; logB].
Definition demoLogs (m : list Entry) : Prop := m ∈ demoHistory.

(** The first of two logs agrees with the other up to every entry they share. *)
Definition agrees (m1 m2 : list Entry) : bool :=
  forallb (λ e, negb (existsb (λ e', bool_decide (eOp e' = eOp e)) m2) ||
    bool_decide (filter (λ x, tsle (eTS x) (eTS e)) m1 = filter (λ x, tsle (eTS x) (eTS e)) m2)) m1.

Lemma demo_increasing : bool_decide (Forall (λ m, StronglySorted (λ a b, tslt (eTS a) (eTS b)) m) demoHistory) = true.
Proof. vm_compute. reflexivity. Qed.

Lemma demo_agrees : forallb (λ m1, forallb (agrees m1) demoHistory) demoHistory = true.
Proof. vm_compute. reflexivity. Qed.

#[global] Instance demoLogs_replica : ReplicaLogs demoLogs.
Proof.
  split.
  - intros m Hm. pose proof (bool_decide_eq_true_1 _ demo_increasing) as H. rewrite Forall_forall in H. by apply H.
  - intros m1 m2 e H1%list_elem_of_In H2%list_elem_of_In He%list_elem_of_In (e' & He'%list_elem_of_In & Hop).
    pose proof demo_agrees as H. rewrite forallb_forall in H. specialize (H _ H1). rewrite forallb_forall in H.
    specialize (H _ H2). unfold agrees in H. rewrite forallb_forall in H. specialize (H _ He).
    apply orb_prop in H as [H|H]; [|by apply bool_decide_eq_true_1 in H]. exfalso. apply negb_true_iff, not_true_iff_false in H.
    apply H, existsb_exists. exists e'. split; [done|]. by apply bool_decide_eq_true_2.
Qed.

Definition typed (m : list Entry) : Prop := Forall (λ e, tsValid (eTS e)) m.

Lemma find_typed (f : Entry -> bool) m e : typed m -> List.find f m = Some e -> tsValid (eTS e).
Proof.
  intros Ht [Hin _]%find_some. unfold typed in Ht. rewrite Forall_forall in Ht. apply Ht. by apply list_elem_of_In.
Qed.

Lemma memberOf_good m : demoLogs m -> typed m -> goodMember demoLogs (memberOf m).
Proof.
  intros Hm Ht. assert (tsValid zeroTS) as Hz by (unfold tsValid, zeroTS; simpl; lia). split.
  - intros n. exists m. split; [done|]. intros lo hi cur [= <-]. exists [], (slice m lo hi). by split.
  - intros n win [= <-]. split; simpl.
    + destruct m as [|e m]; [done|]. simpl. by apply Forall_cons in Ht as [? _].
    + destruct (last m) as [e|] eqn:Hl; [|done]. simpl. apply last_Some_elem_of in Hl. unfold typed in Ht.
      rewrite Forall_forall in Ht. by apply Ht.
  - intros n ts op [= H]. apply fmap_Some in H as (e & He & ->). by eapply find_typed.
Qed.

Lemma demo_typed m : demoLogs m -> typed m.
Proof.
  intros Hm. assert (Forall typed demoHistory) as H.
  { unfold demoHistory, typed, logA, logB. repeat constructor; unfold tsValid; simpl; lia. }
  rewrite Forall_forall in H. by apply H.
Qed.

Lemma demoHex_length n : String.length (demoHex n) = 16%nat.
Proof. unfold demoHex. by rewrite padded_length. Qed.

Lemma calmEnv_good m p : demoLogs m -> demoLogs p -> goodEnv demoLogs (calmEnv m p).
Proof.
  intros Hm Hp. split; simpl.
  - intros n ts m' [= <-]. by apply memberOf_good; [|apply demo_typed].
  - by apply memberOf_good; [|apply demo_typed].
  - apply demoHex_length.
Qed.

Lemma faulty_good n E : goodEnv demoLogs E -> goodEnv demoLogs (faulty n E).
Proof. intros [H1 H2 H3]. by split. Qed.

Lemma demo3_reached : reach demoLogs "s" demo3.
Proof.
  unfold demo3, demo2, demo1. do 3 (apply reach_tick; [|apply calmEnv_good; unfold demoLogs, demoHistory; set_solver]).
  apply reach_other; [|exact I]. by apply reach_start.
Qed.

Lemma demo5_reached : reach demoLogs "s" demo5.
Proof.
  unfold demo5, demo4. do 2 (apply reach_tick; [|apply calmEnv_good; unfold demoLogs, demoHistory; set_solver]).
  apply demo3_reached.
Qed.

Lemma demoFault_reached : reach demoLogs "s" demoFault.
Proof.
  apply reach_tick; [apply demo3_reached|]. apply faulty_good, calmEnv_good; unfold demoLogs, demoHistory; set_solver.
Qed.

(** ** Instances of the theorems *)

Definition demoRow (w : World) : Chain := default (mkChain "" "" zeroTS zeroTS EndNone None) (dbChains (wdDB w) !! ("s", demoChain1)).
Definition demoState (w : World) : PState :=
  default (mkPState "" "" zeroOp CollectorNone "" None None "" 0) (dbStates (wdDB w) !! "s").

(** After the failover, the first chain still holds the history it was read from: the
    superseded chunk is of the rolled back log. *)
Lemma collected_history_witness :
  length (demoChunks demo5) = 2%nat /\
  ∃ m e contents, demoLogs m /\ path (mkTS 100 1) (span <$> demoChunks demo5) e /\
    Forall2 (λ c es, wdObjects demo5 !! (cTargetID c, cStorageKey c) = Some es) (demoChunks demo5) contents /\
    (concat contents = slice m (mkTS 100 1) e \/ concat contents = sliceAfter m (mkTS 100 1) e) /\
    (∃ x, x ∈ m /\ eTS x = mkTS 100 1) /\
    ∃ x, x ∈ m /\ eTS x = e /\ ∀ st, LoadState "s" (wdDB demo5) = Ok st -> stChainID st = demoChain1 -> stLast st = eOp x.
Proof.
  split; [vm_compute; reflexivity|].
  apply (collected_history demoLogs "s" demo5 demoChain1 (mkChain "s" demoChain1 (mkTS 100 1) (mkTS 110 1) EndDiverged (chEndedAt (demoRow demo5))));
    [apply demo5_reached|vm_compute; reflexivity|vm_compute; reflexivity|].
  intros H. apply (f_equal length) in H. vm_compute in H. discriminate.
Defined.

Definition demoWindow : OplogWindow := mkOplogWindow (mkTS 100 1) (mkTS 130 1) (mkOpTime (mkTS 130 1) 2) "rs0" "id0".

Lemma memberOf_entryAt m n ts term : mbEntryAt (memberOf m) n ts = Some (Some term) -> ∃ x, x ∈ m /\ eOp x = mkOpTime ts term.
Proof.
  intros [= H]. apply fmap_Some in H as (e & [Hin Hts]%find_some & ->). bool_cases. exists e.
  split; [by apply list_elem_of_In|]. unfold eTS in Hts. simpl. rewrite <- Hts. by destruct (eOp e).
Qed.

Lemma demoFault_member : wkM (wdW demoFault) = memberOf logB.
Proof. vm_compute. reflexivity. Qed.

Lemma divergence_keeps_primary_witness :
  ∃ l1 l2 contents, demoChunks demoFault = l1 ++ l2 /\ path (mkTS 100 1) (span <$> l1) (mkTS 110 1) /\
    Forall (λ c, tsle (mkTS 110 1) (cFrom c)) l2 /\
    Forall2 (λ c es, wdObjects demoFault !! (cTargetID c, cStorageKey c) = Some es) l1 contents /\
    (concat contents = slice logB (mkTS 100 1) (mkTS 110 1) \/ concat contents = sliceAfter logB (mkTS 100 1) (mkTS 110 1)).
Proof.
  apply (divergence_keeps_primary demoLogs "s" (calmEnv logB logB) demoFault (demoState demoFault) demoWindow (mkTS 110 1)
    (mkChain "s" demoChain1 (mkTS 100 1) zeroTS EndNone None) logB (demoChunks demoFault)).
  - apply demoFault_reached.
  - vm_compute. reflexivity.
  - vm_compute. reflexivity.
  - unfold demoLogs, demoHistory. set_solver.
  - intros n ts term. rewrite demoFault_member. apply memberOf_entryAt.
  - vm_compute. reflexivity.
  - unfold tsle. simpl. lia.
  - discriminate.
  - vm_compute. reflexivity.
Defined.

Lemma tick_paced_witness :
  paced 60 (wdW (tick (calmEnv logB logB) demoMsg demo3).1) /\
  ∀ d, (tick (calmEnv logB logB) demoMsg demo3).2 = Ok d -> wait 60 d.
Proof.
  apply (tick_paced (calmEnv logB logB) 60); [unfold MinChunkSeconds, MaxChunkSeconds; lia|].
  split; [vm_compute; reflexivity|]. split; split; vm_compute; discriminate.
Defined.

Lemma chain_ends_confirmed_witness :
  ∃ st, LoadState "s" (wdDB demo3) = Ok st /\ denied (calmEnv logB logB) demo3 st.
Proof.
  apply (chain_ends_confirmed (calmEnv logB logB) demoMsg demo3 "s" demoChain1
    (mkChain "s" demoChain1 (mkTS 100 1) zeroTS EndNone None)
    (mkChain "s" demoChain1 (mkTS 100 1) (mkTS 110 1) EndDiverged (chEndedAt (demoRow demo4)))); vm_compute; reflexivity.
Defined.

(** ** Two failures *)

(** The worker restarts before the first chunk of its chain, and the database fails on the
    chain list alone: the call after the session, the state, the pin, the window, the clock,
    the ended chains, the position and the last chunks. *)
Definition demoRestarted : World := mkWorld (newWorker demoStream) (wdDB demo1) (wdObjects demo1) (wdEffects demo1) 100.
Definition oneFault (n : nat) (E : Env) : Env := mkEnv (evNow E) (evRand E) (λ k, Nat.eqb n k) (evOpen E) (evPin E) (evPrimary E)
  (evEncryptor E) (evStorage E) (evFence E) (evDocPos E) (evRoom E) (evSave E) (evPartial E) (evSize E) (evRaw E) (evSHA E)
  (evPurge E) (evHasBase E) (evStartBase E) (evMaxChunkBytes E) (evCancelled E).

(** The first chunk of a chain loses the entry the chain starts at when one query fails:
    [chainStartsAt] takes an error for a no. Without the failure the entry is kept. *)
Example start_entry_lost :
  (map_to_list (wdObjects (tick (oneFault 108 (calmEnv logA logA)) demoMsg demoRestarted).1)).*2 = [drop 1 logA] /\
  (map_to_list (wdObjects (tick (calmEnv logA logA) demoMsg demoRestarted).1)).*2 = [logA].
Proof. vm_compute. done. Qed.

Definition renamed (rs : string) (m : Member) : Member := mkMember
  (λ n, (λ win, mkOplogWindow (owOldest win) (owNewest win) (owMajority win) rs (owReplicaSetID win)) <$> mbWindow m n)
  (mbEntryAt m) (mbEntryAtOrAfter m) (mbFind m).

(** The same environment on a replica set that was renamed. *)
Definition movedEnv (E : Env) : Env := mkEnv (evNow E) (evRand E) (evFault E) (evOpen E)
  (λ n ts, renamed "rs1" <$> evPin E n ts) (renamed "rs1" (evPrimary E))
  (evEncryptor E) (evStorage E) (evFence E) (evDocPos E) (evRoom E) (evSave E) (evPartial E) (evSize E) (evRaw E) (evSHA E)
  (evPurge E) (evHasBase E) (evStartBase E) (evMaxChunkBytes E) (evCancelled E).

(** The stream disabled in the database, as [PauseStream] does before it waits for the worker. *)
Definition demoPaused : World :=
  withDB (apply (OUpdateStream 6 (mkStream "s" "conn" "rs0" "target" false "0 3 * * *" 7 0 0 60 true "" "" "" [] 0 0)) (wdDB demo3)) demo3.

(** A worker that meets a renamed replica set writes its own copy of the stream back:
    a stream that was disabled while the worker still ran is enabled again, so a pause in
    progress is undone (and so is any other change of the stream's settings). *)
Example pause_undone :
  (sEnabled <$> dbStreams (wdDB demoPaused) !! "s") = Some false /\
  (sEnabled <$> dbStreams (wdDB (tick (movedEnv (calmEnv logA logA)) demoMsg demoPaused).1) !! "s") = Some true.
Proof. vm_compute. done. Qed.
