(* ===== verification/Json.v ===== *)
(** * Strings in UTF-8 and their JSON (Go's [unicode/utf8], [strings] and [encoding/json])

    A string is cut into the sequences a decoder reads; on them are defined
    [strings.ToValidUTF8], the removal of runes by [strings.Map], cuts at a rune boundary
    and the strings of [encoding/json] without HTML escaping. The JSON of a string tells
    where it ends and, for valid UTF-8, which string it is. *)

From Stdlib Require Import ZifyBool ZifyN.
From S2P Require Import Prelude Glob.

(** ** Sequences *)

(** The sequences of a string: valid ones, and the bytes that start none. *)
Fixpoint pieces (s : string) : list (string + Ascii.ascii) :=
  match s with
  | EmptyString => []
  | String a s1 =>
      if byteIn 0 127 a then inl (String a EmptyString) :: pieces s1
      else match s1 with
      | String b s2 =>
          if lead2 a b then inl (String a (String b EmptyString)) :: pieces s2
          else match s2 with
          | String c s3 =>
              if lead3 a b && cont c then inl (String a (String b (String c EmptyString))) :: pieces s3
              else match s3 with
              | String d s4 =>
                  if lead4 a b && cont c && cont d
                  then inl (String a (String b (String c (String d EmptyString)))) :: pieces s4
                  else inr a :: pieces s1
              | EmptyString => inr a :: pieces s1
              end
          | EmptyString => inr a :: pieces s1
          end
      | EmptyString => [inr a]
      end
  end.

Definition pieceBytes (p : string + Ascii.ascii) : string := match p with inl bs => bs | inr a => String a EmptyString end.
Definition joinPieces (l : list (string + Ascii.ascii)) : string := foldr (λ p r, pieceBytes p +:+ r) EmptyString l.

(** The rune of a sequence. *)
Definition pieceRune (p : string + Ascii.ascii) : Z :=
  match p with inl bs => default RuneError (head (runes bs)) | inr _ => RuneError end.

(** [strings.ToValidUTF8]: each run of bytes that are not UTF-8 becomes one [repl]. *)
Fixpoint toValid (repl : string) (invalid : bool) (l : list (string + Ascii.ascii)) : string :=
  match l with
  | [] => EmptyString
  | inl bs :: l => bs +:+ toValid repl false l
  | inr _ :: l => if invalid then toValid repl true l else repl +:+ toValid repl true l
  end.

Definition ToValidUTF8 (s repl : string) : string := toValid repl false (pieces s).

(** [strings.Map] with a function that keeps a rune or drops it, on a valid string. *)
Definition dropRunes (drop : Z -> bool) (s : string) : string :=
  joinPieces (filter (λ p, negb (drop (pieceRune p))) (pieces s)).

(** [unicode.IsControl]. *)
Definition IsControl (r : Z) : bool := ((0 <=? r) && (r <=? 31)) || ((127 <=? r) && (r <=? 159)).

Definition RuneStart (a : Ascii.ascii) : bool := negb (cont a).

Fixpoint takeBytes (n : nat) (s : string) : string :=
  match n, s with
  | S n, String a s => String a (takeBytes n s)
  | _, _ => EmptyString
  end.

(** The loop that moves a cut back to the start of a rune. *)
Fixpoint cutBack (s : string) (cut : nat) : nat :=
  match cut with
  | O => O
  | S k => match String.get cut s with
           | Some a => if RuneStart a then cut else cutBack s k
           | None => cut
           end
  end.

(** ** JSON *)

Definition chr (n : N) : Ascii.ascii := Ascii.ascii_of_N n.
Definition quote : Ascii.ascii := chr 34.
Definition backslash : Ascii.ascii := chr 92.

Definition hexDigit (n : N) : Ascii.ascii := chr (if (n <? 10)%N then 48 + n else 87 + n)%N.

(** The escapes of an ASCII character. *)
Definition escByte (a : Ascii.ascii) (rest : string) : string :=
  let n := Ascii.N_of_ascii a in
  if byteIs 34 a || byteIs 92 a then String backslash (String a rest)
  else if byteIs 8 a then String backslash (String (chr 98) rest)
  else if byteIs 12 a then String backslash (String (chr 102) rest)
  else if byteIs 10 a then String backslash (String (chr 110) rest)
  else if byteIs 13 a then String backslash (String (chr 114) rest)
  else if byteIs 9 a then String backslash (String (chr 116) rest)
  else if byteIn 0 31 a
  then String backslash ("u00" +:+ String (hexDigit (n / 16)) (String (hexDigit (n mod 16)) rest))
  else String a rest.

(** U+2028 and U+2029 in UTF-8. *)
Definition lineSep : string := String (chr 226) (String (chr 128) (String (chr 168) EmptyString)).
Definition paraSep : string := String (chr 226) (String (chr 128) (String (chr 169) EmptyString)).

Definition escPiece (p : string + Ascii.ascii) (rest : string) : string :=
  match p with
  | inr _ => String backslash ("ufffd" +:+ rest)
  | inl bs =>
      if bool_decide (bs = lineSep) then String backslash ("u2028" +:+ rest)
      else if bool_decide (bs = paraSep) then String backslash ("u2029" +:+ rest)
      else match bs with
      | String a EmptyString => escByte a rest
      | _ => bs +:+ rest
      end
  end.

(** The JSON of a string, followed by [rest]. *)
Definition jsonString (s rest : string) : string :=
  String quote (foldr escPiece (String quote rest) (pieces s)).

Definition jsonInt (n : Z) (rest : string) : string := pretty n +:+ rest.

(** ["key":] *)
Definition jsonKey (k rest : string) : string := jsonString k (":" +:+ rest).

(** The members of an object of strings, a comma between them. *)
Fixpoint jsonMembers (l : list (string * string)) (rest : string) : string :=
  match l with
  | [] => rest
  | [(k, v)] => jsonKey k (jsonString v rest)
  | (k, v) :: l => jsonKey k (jsonString v ("," +:+ jsonMembers l rest))
  end.

(** A [map[string]string]: the keys in the order of their bytes. *)
Definition sortedEntries (m : gmap string string) : list (string * string) :=
  stable_sort (cmpLess (λ a b, strCmp a.1 b.1)) (map_to_list m).

Definition jsonMap (m : gmap string string) (rest : string) : string :=
  "{" +:+ jsonMembers (sortedEntries m) ("}" +:+ rest).

(** ** Sequences: lemmas *)

Definition isASCII (a : Ascii.ascii) : bool := byteIn 0 127 a.

(** The valid sequences. *)
Inductive seq : string -> Prop :=
| seq1 a : isASCII a = true -> seq (String a EmptyString)
| seq2 a b : isASCII a = false -> lead2 a b = true -> seq (String a (String b EmptyString))
| seq3 a b c : isASCII a = false -> lead2 a b = false -> lead3 a b && cont c = true -> seq (String a (String b (String c EmptyString)))
| seq4 a b c d : isASCII a = false -> lead2 a b = false -> lead3 a b && cont c = false ->
    lead4 a b && cont c && cont d = true -> seq (String a (String b (String c (String d EmptyString)))).

Lemma pieces_seq bs s : seq bs -> pieces (bs +:+ s) = inl bs :: pieces s.
Proof. intros [a H|a b H H2|a b c H H2 H3|a b c d H H2 H3 H4]; unfold isASCII in *; rewrite !str_app_cons, str_app_nil;
  cbn -[byteIn lead2 lead3 lead4 cont]; rewrite H, ?H2, ?H3, ?H4; reflexivity. Qed.

(** Induction on the sequences of a string. *)
Lemma pieces_ind (P : string -> Prop) :
  P EmptyString -> (∀ bs s, seq bs -> P s -> P (bs +:+ s)) ->
  (∀ a s, isASCII a = false -> pieces (String a s) = inr a :: pieces s -> P s -> P (String a s)) -> ∀ s, P s.
Proof.
  intros H0 Hseq Hbad s. remember (String.length s) as n eqn:Hn. revert s Hn.
  induction n as [n IH] using lt_wf_ind. intros s ->. destruct s as [|a s1]; [done|].
  assert (∀ t, (String.length t < String.length (String a s1))%nat -> P t) as IHs by (intros t Ht; by eapply IH).
  clear IH. assert (∀ bs t, String a s1 = bs +:+ t -> seq bs -> P (String a s1)) as Hgo.
  { intros bs t E Hs. rewrite E. apply Hseq; [done|]. apply IHs. rewrite E, str_length_app. destruct Hs; cbn [String.length]; lia. }
  destruct (isASCII a) eqn:Ha; [by apply (Hgo (String a EmptyString) s1); [|constructor]|].
  assert (pieces (String a s1) = inr a :: pieces s1 -> P (String a s1)) as Hb.
  { intros Hp. apply Hbad; [done..|]. apply IHs. cbn [String.length]. lia. }
  destruct s1 as [|b s2]; [apply Hb; cbn -[byteIn lead2 lead3 lead4 cont]; unfold isASCII in Ha; by rewrite Ha|].
  destruct (lead2 a b) eqn:H2; [by apply (Hgo (String a (String b EmptyString)) s2); [|constructor]|].
  destruct s2 as [|c s3]; [apply Hb; cbn -[byteIn lead2 lead3 lead4 cont]; unfold isASCII in Ha; by rewrite Ha, H2|].
  destruct (lead3 a b && cont c) eqn:H3; [by apply (Hgo (String a (String b (String c EmptyString))) s3); [|constructor]|].
  destruct s3 as [|d s4]; [apply Hb; cbn -[byteIn lead2 lead3 lead4 cont]; unfold isASCII in Ha; by rewrite Ha, H2, H3|].
  destruct (lead4 a b && cont c && cont d) eqn:H4;
    [by apply (Hgo (String a (String b (String c (String d EmptyString)))) s4); [|constructor]|].
  apply Hb. unfold isASCII in Ha. cbn -[byteIn lead2 lead3 lead4 cont]. by rewrite Ha, H2, H3, H4.
Qed.

Lemma joinPieces_pieces s : joinPieces (pieces s) = s.
Proof.
  induction s as [|bs s Hs IH|a s Ha Hp IH] using pieces_ind; [done| |].
  - rewrite pieces_seq by done. change (bs +:+ joinPieces (pieces s) = bs +:+ s). by rewrite IH.
  - rewrite Hp. change (String a (joinPieces (pieces s)) = String a s). by rewrite IH.
Qed.

Definition seqs (l : list (string + Ascii.ascii)) : Prop := Forall (λ p, ∃ bs, p = inl bs /\ seq bs) l.

Lemma pieces_joinPieces l : seqs l -> pieces (joinPieces l) = l.
Proof.
  induction 1 as [|p l (bs & -> & Hs) _ IH]; [done|].
  change (pieces (bs +:+ joinPieces l) = inl bs :: l). by rewrite pieces_seq, IH.
Qed.

Lemma validUTF8_pieces s : validUTF8 s = true <-> seqs (pieces s).
Proof.
  induction s as [|bs s Hs IH|a s Ha Hp IH] using pieces_ind; [by split; [constructor|]| |].
  - rewrite pieces_seq by done. unfold seqs. rewrite Forall_cons. fold (seqs (pieces s)).
    transitivity (validUTF8 s = true); [|rewrite IH; split; [intros ?; split; [by eexists|done]|by intros [_ ?]]].
    destruct Hs as [a H|a b H H2|a b c H H2 H3|a b c d H H2 H3 H4]; unfold isASCII in *;
      rewrite !str_app_cons, str_app_nil; cbn -[byteIn lead2 lead3 lead4 cont]; rewrite H, ?H2, ?H3, ?H4; done.
  - rewrite Hp. split; [|intros H; apply Forall_cons_1 in H as [(bs & E & _) _]; done].
    unfold isASCII in Ha. revert Hp. cbn -[byteIn lead2 lead3 lead4 cont pieces]. rewrite Ha. cbn -[byteIn lead2 lead3 lead4 cont]. rewrite Ha.
    destruct s as [|b s2]; [done|]. destruct (lead2 a b); [done|]. destruct s2 as [|c s3]; [done|].
    destruct (lead3 a b && cont c); [done|]. destruct s3 as [|d s4]; [done|].
    by destruct (lead4 a b && cont c && cont d).
Qed.

(** ** Reading a JSON string back *)

Definition hexValue (a : Ascii.ascii) : N :=
  let n := Ascii.N_of_ascii a in (if (n <=? 57)%N then n - 48 else n - 87)%N.

(** The bytes an escape stands for; [None] for a byte that was no UTF-8. *)
Definition unescapeU (h1 h3 h4 : Ascii.ascii) : list (option Ascii.ascii) :=
  if byteIs 102 h1 then [None]
  else if byteIs 50 h1 then Some <$> [chr 226; chr 128; chr (if byteIs 56 h4 then 168 else 169)]
  else [Some (chr (16 * hexValue h3 + hexValue h4)%N)].

Definition unescape (b : Ascii.ascii) : Ascii.ascii :=
  if byteIs 98 b then chr 8 else if byteIs 102 b then chr 12 else if byteIs 110 b then chr 10
  else if byteIs 114 b then chr 13 else if byteIs 116 b then chr 9 else b.

(** Reads up to the closing quote: the bytes, and what follows. *)
Fixpoint unquote (s : string) : option (list (option Ascii.ascii) * string) :=
  match s with
  | EmptyString => None
  | String a s1 =>
      if byteIs 34 a then Some ([], s1)
      else if byteIs 92 a then
        match s1 with
        | String b s2 =>
            if byteIs 117 b then
              match s2 with
              | String h1 (String _ (String h3 (String h4 s6))) => prod_map (app (unescapeU h1 h3 h4)) id <$> unquote s6
              | _ => None
              end
            else prod_map (cons (Some (unescape b))) id <$> unquote s2
        | EmptyString => None
        end
      else prod_map (cons (Some a)) id <$> unquote s1
  end.

Fixpoint bytes (s : string) : list Ascii.ascii :=
  match s with EmptyString => [] | String a s => a :: bytes s end.

Lemma bytes_inj s t : bytes s = bytes t -> s = t.
Proof. revert t. induction s as [|a s IH]; intros [|b t] E; simplify_eq/=; [done|]. f_equal. auto. Qed.

Lemma bytes_app s t : bytes (s +:+ t) = bytes s ++ bytes t.
Proof. induction s as [|a s IH]; [done|]. rewrite str_app_cons. simpl. by rewrite IH. Qed.

(** What is read back of a sequence. *)
Definition shown (p : string + Ascii.ascii) : list (option Ascii.ascii) :=
  match p with inl bs => Some <$> bytes bs | inr _ => [None] end.

Lemma unquote_plain a s : isASCII a = false -> unquote (String a s) = prod_map (cons (Some a)) id <$> unquote s.
Proof. destruct a as [[] [] [] [] [] [] [] []]; try discriminate; reflexivity. Qed.

Lemma unquote_escByte a s : isASCII a = true -> unquote (escByte a s) = prod_map (cons (Some a)) id <$> unquote s.
Proof. destruct a as [[] [] [] [] [] [] [] []]; try discriminate; reflexivity. Qed.

Lemma prepend_app (l1 l2 : list (option Ascii.ascii)) (o : option (list (option Ascii.ascii) * string)) :
  prod_map (app l1) id <$> (prod_map (app l2) id <$> o) = prod_map (app (l1 ++ l2)) id <$> o.
Proof. destruct o as [[l r]|]; simpl; [|done]. by rewrite <- app_assoc. Qed.

Lemma lead_cont a b c : (lead2 a b = true -> isASCII b = false) /\ (lead3 a b && cont c = true -> isASCII b = false /\ isASCII c = false) /\
  (∀ d, lead4 a b && cont c && cont d = true -> isASCII b = false /\ isASCII c = false /\ isASCII d = false).
Proof. unfold lead2, lead3, lead4, cont, isASCII, byteIn, byteIs. split_and!; intros; split_and?; lia. Qed.

Lemma unquote_piece p s : (∀ bs, p = inl bs -> seq bs) -> unquote (escPiece p s) = prod_map (app (shown p)) id <$> unquote s.
Proof.
  destruct p as [bs|a]; intros Hp; [|reflexivity]. specialize (Hp bs eq_refl). unfold escPiece.
  case_bool_decide as H1; [by subst bs|]. case_bool_decide as H2; [by subst bs|]. clear H1 H2.
  destruct Hp as [a H|a b H L2|a b c H _ L3|a b c d H _ _ L4].
  - rewrite unquote_escByte by done. by destruct (unquote s) as [[??]|].
  - apply (lead_cont a b b) in L2. rewrite !str_app_cons, str_app_nil, !unquote_plain by done. by destruct (unquote s) as [[??]|].
  - apply lead_cont in L3 as [??]. rewrite !str_app_cons, str_app_nil, !unquote_plain by done. by destruct (unquote s) as [[??]|].
  - apply lead_cont in L4 as (?&?&?). rewrite !str_app_cons, str_app_nil, !unquote_plain by done. by destruct (unquote s) as [[??]|].
Qed.

Lemma unquote_body s rest : unquote (foldr escPiece (String quote rest) (pieces s)) = Some (pieces s ≫= shown, rest).
Proof.
  induction s as [|bs s Hs IH|a s Ha Hp IH] using pieces_ind; [done| |].
  - rewrite pieces_seq by done. cbn [foldr]. rewrite unquote_piece, IH by (by intros ? [= <-]). done.
  - rewrite Hp. cbn [foldr]. rewrite unquote_piece, IH by done. done.
Qed.

Lemma shown_valid s : validUTF8 s = true -> pieces s ≫= shown = Some <$> bytes s.
Proof.
  intros Hv%validUTF8_pieces. rewrite <- (joinPieces_pieces s) at 2. induction Hv as [|p l (bs & -> & _) _ IH]; [done|].
  change (joinPieces (inl bs :: l)) with (bs +:+ joinPieces l). rewrite bytes_app, fmap_app, <- IH. done.
Qed.

Lemma shown_bytes l (bs : list Ascii.ascii) : l ≫= shown = Some <$> bs -> bytes (joinPieces l) = bs.
Proof.
  revert bs. induction l as [|[b|a] l IH]; intros bs E; [by destruct bs| |].
  - change (joinPieces (inl b :: l)) with (b +:+ joinPieces l). rewrite bytes_app. cbn in E. symmetry in E.
    apply fmap_app_inv in E as (l1 & l2 & E1 & E2 & ->). apply (list_fmap_eq_inj Some) in E1; [|apply _]. subst.
    f_equal. auto.
  - destruct bs; discriminate E.
Qed.

(** The JSON of a valid string determines it, and where it ends. *)
Lemma jsonString_inj s t r r' : validUTF8 s = true -> jsonString s r = jsonString t r' -> s = t /\ r = r'.
Proof.
  intros Hs E. injection E as E. apply (f_equal unquote) in E. rewrite !unquote_body, shown_valid in E by done.
  injection E as E ->. split; [|done]. apply bytes_inj. symmetry in E. apply shown_bytes in E.
  by rewrite joinPieces_pieces in E.
Qed.

(** ** Numbers and objects *)

Lemma jsonInt_inj n m a b r r' :
  numeric a = false -> numeric b = false -> jsonInt n (String a r) = jsonInt m (String b r') -> n = m /\ a = b /\ r = r'.
Proof.
  intros Ha Hb E. apply (allBytes_split numeric) in E as (E & -> & ->); [|apply pretty_numeric..|done|done].
  by apply (inj pretty) in E.
Qed.

Definition validPair (kv : string * string) : Prop := validUTF8 kv.1 = true /\ validUTF8 kv.2 = true.

Lemma jsonMembers_cons k v l rest :
  jsonMembers ((k, v) :: l) rest = jsonKey k (jsonString v (match l with [] => rest | _ => "," +:+ jsonMembers l rest end)).
Proof. by destruct l. Qed.

Lemma jsonMembers_inj l1 l2 r1 r2 :
  Forall validPair l1 -> jsonMembers l1 ("}" +:+ r1) = jsonMembers l2 ("}" +:+ r2) -> l1 = l2 /\ r1 = r2.
Proof.
  intros Hl. revert l2. induction Hl as [|[k v] l1 [Hk Hv] Hl IH]; intros [|[k2 v2] l2] E; rewrite ?jsonMembers_cons in E.
  - by apply str_app_inj_l in E.
  - discriminate E.
  - discriminate E.
  - apply jsonString_inj in E as [-> E]; [|done]. apply str_app_inj_l in E. apply jsonString_inj in E as [-> E]; [|done].
    destruct l1 as [|p1 l1], l2 as [|p2 l2]; [by apply str_app_inj_l in E as ->|discriminate E|discriminate E|].
    apply str_app_inj_l in E. destruct (IH (p2 :: l2) E) as [-> ->]. done.
Qed.

Lemma sortedEntries_Permutation m : sortedEntries m ≡ₚ map_to_list m.
Proof. apply stable_sort_Permutation. Qed.

Lemma sortedEntries_map m : list_to_map (sortedEntries m) = m.
Proof.
  rewrite (list_to_map_proper _ (map_to_list m)); [apply list_to_map_to_list| |apply sortedEntries_Permutation].
  rewrite sortedEntries_Permutation. apply NoDup_fst_map_to_list.
Qed.

Definition validMap (m : gmap string string) : Prop := map_Forall (λ k v, validUTF8 k = true /\ validUTF8 v = true) m.

Lemma jsonMap_inj m1 m2 r1 r2 : validMap m1 -> jsonMap m1 r1 = jsonMap m2 r2 -> m1 = m2 /\ r1 = r2.
Proof.
  intros Hm E. apply str_app_inj_l, jsonMembers_inj in E as [E ->].
  - by rewrite <- (sortedEntries_map m1), E, sortedEntries_map.
  - apply Forall_forall. intros [k v]. rewrite sortedEntries_Permutation, elem_of_map_to_list. apply Hm.
Qed.

(** ** Valid strings *)

Lemma seqs_app l1 l2 : seqs (l1 ++ l2) <-> seqs l1 /\ seqs l2.
Proof. apply Forall_app. Qed.

Lemma validUTF8_join l : seqs l -> validUTF8 (joinPieces l) = true.
Proof. intros Hl. apply validUTF8_pieces. by rewrite pieces_joinPieces. Qed.

Lemma validUTF8_seq bs s : seq bs -> validUTF8 (bs +:+ s) = validUTF8 s.
Proof.
  intros Hs. apply eq_iff_eq_true. rewrite !validUTF8_pieces, pieces_seq by done. unfold seqs. rewrite Forall_cons.
  split; [by intros [_ ?]|]. intros ?. split; [by eexists|done].
Qed.

Lemma pieces_wf s : Forall (λ p, ∀ bs, p = inl bs -> seq bs) (pieces s).
Proof.
  induction s as [|bs s Hs IH|a s Ha Hp IH] using pieces_ind; [constructor| |].
  - rewrite pieces_seq by done. constructor; [by intros ? [= <-]|done].
  - rewrite Hp. by constructor.
Qed.

Lemma toValid_valid repl : seq repl -> ∀ l inv, Forall (λ p, ∀ bs, p = inl bs -> seq bs) l -> validUTF8 (toValid repl inv l) = true.
Proof.
  intros Hr l inv Hl. revert inv. induction Hl as [|[bs|a] l Hp _ IH]; intros inv; [done| |]; simpl.
  - rewrite validUTF8_seq; [apply IH|by apply Hp].
  - destruct inv; [apply IH|]. by rewrite validUTF8_seq.
Qed.

Lemma ToValidUTF8_valid s repl : seq repl -> validUTF8 (ToValidUTF8 s repl) = true.
Proof. intros Hr. apply toValid_valid, pieces_wf. done. Qed.

Lemma dropRunes_valid drop s : validUTF8 s = true -> validUTF8 (dropRunes drop s) = true.
Proof.
  intros Hs%validUTF8_pieces. apply validUTF8_join. unfold seqs in *. rewrite Forall_forall in Hs |- *.
  intros p Hp%list_elem_of_filter. apply Hs, Hp.
Qed.

(** The bytes of a sequence after its first continue it. *)
Lemma seq_first bs : seq bs -> ∃ a t, bs = String a t /\ RuneStart a = true /\ ∀ k b, String.get k t = Some b -> RuneStart b = false.
Proof.
  intros [a H|a b H L2|a b c H _ L3|a b c d H _ _ L4]; do 2 eexists; (split; [reflexivity|]);
    unfold RuneStart, isASCII, lead2, lead3, lead4, cont, byteIn, byteIs in *; (split; [lia|]); intros k x Hk;
    repeat (destruct k as [|k]; cbn in Hk; [injection Hk as <-; lia|]); by destruct k.
Qed.

Lemma get_app_l k s t : (k < String.length s)%nat -> String.get k (s +:+ t) = String.get k s.
Proof.
  revert k. induction s as [|a s IH]; intros k Hk; simpl in Hk; [lia|]. rewrite str_app_cons.
  destruct k as [|k]; [done|]. cbn [String.get]. apply IH. lia.
Qed.

Lemma get_app_r k s t : String.get (String.length s + k) (s +:+ t) = String.get k t.
Proof. induction s as [|a s IH]; [done|]. rewrite str_app_cons. exact IH. Qed.

Lemma takeBytes_app k s t : takeBytes (String.length s + k) (s +:+ t) = s +:+ takeBytes k t.
Proof. induction s as [|a s IH]; [done|]. rewrite str_app_cons. cbn [String.length Nat.add takeBytes]. rewrite IH. done. Qed.

(** A cut inside the first sequence goes back to the start. *)
Lemma cutBack_inside bs s n : seq bs -> (n < String.length bs)%nat -> cutBack (bs +:+ s) n = O.
Proof.
  intros Hs. destruct (seq_first bs Hs) as (a & t & -> & _ & Hc). induction n as [|n IH]; intros Hn; [done|].
  cbn [String.length] in Hn. cbn [cutBack]. rewrite get_app_l by (cbn [String.length]; lia). cbn [String.get].
  destruct (String.get n t) as [b|] eqn:Hg.
  - rewrite (Hc _ _ Hg). apply IH. cbn [String.length]. lia.
  - exfalso. clear -Hg Hn. revert n Hg Hn. induction t as [|x t IH]; intros [|n] Hg Hn; simpl in *; try lia; try done.
    apply (IH n); [done|lia].
Qed.

(** A cut after it moves with the rest. *)
Lemma cutBack_after bs s n : seq bs -> validUTF8 s = true ->
  cutBack (bs +:+ s) (String.length bs + n) = (String.length bs + cutBack s n)%nat.
Proof.
  intros Hs Hv. assert (String.length bs = S (pred (String.length bs))) as Hlen by (by destruct Hs).
  induction n as [|n IH].
  - rewrite Nat.add_0_r. cbn [cutBack]. rewrite Nat.add_0_r. rewrite Hlen at 1. cbn [cutBack]. rewrite <- Hlen.
    rewrite <- (Nat.add_0_r (String.length bs)) at 1. rewrite get_app_r.
    destruct s as [|b s]; [done|]. cbn [String.get].
    enough (RuneStart b = true) as -> by done. apply validUTF8_pieces in Hv.
    destruct (pieces (String b s)) as [|p l] eqn:Hp.
    { pose proof (joinPieces_pieces (String b s)) as E. by rewrite Hp in E. }
    apply Forall_cons_1 in Hv as [(bs' & -> & Hs') _]. pose proof (joinPieces_pieces (String b s)) as E. rewrite Hp in E.
    destruct (seq_first _ Hs') as (a & t & -> & Ha & _). by injection E as -> _.
  - rewrite <- plus_n_Sm. cbn [cutBack]. rewrite plus_n_Sm, get_app_r.
    destruct (String.get (S n) s) as [a|] eqn:Hg; [|done]. by destruct (RuneStart a).
Qed.

Lemma cut_valid s n : validUTF8 s = true -> validUTF8 (takeBytes (cutBack s n) s) = true.
Proof.
  revert n. induction s as [|bs s Hs IH|a s Ha Hp IH] using pieces_ind; intros n Hv.
  - by destruct (cutBack _ n).
  - rewrite validUTF8_seq in Hv by done. destruct (decide (n < String.length bs)%nat) as [Hn|Hn].
    + by rewrite cutBack_inside.
    + replace n with (String.length bs + (n - String.length bs))%nat by lia.
      rewrite cutBack_after, takeBytes_app, validUTF8_seq by done. by apply IH.
  - apply validUTF8_pieces in Hv. rewrite Hp in Hv. by apply Forall_cons_1 in Hv as [(? & ? & _) _].
Qed.

Lemma cutBack_le s n : (cutBack s n <= n)%nat.
Proof. induction n as [|n IH]; [done|]. cbn [cutBack]. destruct (String.get _ _) as [a|]; [destruct (RuneStart a)|]; lia. Qed.

Lemma takeBytes_length n s : (String.length (takeBytes n s) <= n)%nat.
Proof. revert s. induction n as [|n IH]; intros [|a s]; simpl; [lia..|]. specialize (IH s). lia. Qed.

Lemma ascii_valid s : allBytes isASCII s = true -> validUTF8 s = true.
Proof.
  induction s as [|a s IH]; [done|]. cbn [allBytes]. intros H. bool_cases.
  change (String a s) with (String a EmptyString +:+ s). rewrite validUTF8_seq by (by constructor). auto.
Qed.
