(* ===== verification/AuditLog.v ===== *)
(** * The audit log (src/internal/auditlog/chain.go, auditlog.go, store/auditlog.go)

    Entries, their canonical JSON and chained hash, the table with its anchor and the
    operations on it, and the walk that verifies the chain. The hash function is an
    argument. *)

From Stdlib Require Import ZifyBool.
From S2P Require Import Prelude Calendar Glob Json.

(** ** Entries *)

Record Event : Type := mkEvent {
  aeID : Z;
  aeTime : Z;
  aeActorKind : string;
  aeActorUserID : string;
  aeActorName : string;
  aeActorKeyID : string;
  aeActorKeyName : string;
  aeAction : string;
  aeTargets : gmap string string;
  aeStatus : Z;
  aeOutcome : string;
  aeClientIP : string;
  aeUserAgent : string;
  aeCount : Z;
  aeHash : string
}.

#[global] Instance Event_eq_dec : EqDecision Event.
Proof. solve_decision. Defined.

(** [GenesisHash]: 64 zeros. *)
Definition GenesisHash : string := padded 64 0 EmptyString.

(** A year in at least four digits. *)
Definition fmtYear (y : Z) (rest : string) : string :=
  if y <? 0 then "-" +:+ (if - y <? 10000 then padded 4 (- y) rest else pretty (- y) +:+ rest)
  else if y <? 10000 then padded 4 y rest else pretty y +:+ rest.

Definition FormatTime (t : Z) : string :=
  let '(y, m, d) := civil (t / day) in
  let ns := t mod day in
  fmtYear y ("-" +:+ padded 2 m ("-" +:+ padded 2 d ("T" +:+
    padded 2 (ns / hour) (":" +:+ padded 2 (ns / minute mod 60) (":" +:+ padded 2 (ns / second mod 60)
      ("." +:+ padded 9 (ns mod second) "Z")))))).

(** [Canonical]: the JSON of an entry without its hash. *)
Definition Canonical (e : Event) : string :=
  "{" +:+ jsonKey "id" (jsonInt (aeID e) (
  "," +:+ jsonKey "time" (jsonString (FormatTime (aeTime e)) (
  "," +:+ jsonKey "actor_kind" (jsonString (aeActorKind e) (
  "," +:+ jsonKey "actor_user_id" (jsonString (aeActorUserID e) (
  "," +:+ jsonKey "actor_name" (jsonString (aeActorName e) (
  "," +:+ jsonKey "actor_key_id" (jsonString (aeActorKeyID e) (
  "," +:+ jsonKey "actor_key_name" (jsonString (aeActorKeyName e) (
  "," +:+ jsonKey "action" (jsonString (aeAction e) (
  "," +:+ jsonKey "targets" (jsonMap (aeTargets e) (
  "," +:+ jsonKey "status" (jsonInt (aeStatus e) (
  "," +:+ jsonKey "outcome" (jsonString (aeOutcome e) (
  "," +:+ jsonKey "client_ip" (jsonString (aeClientIP e) (
  "," +:+ jsonKey "user_agent" (jsonString (aeUserAgent e) (
  "," +:+ jsonKey "count" (jsonInt (aeCount e) "}"))))))))))))))))))))))))))).

(** ** The table and its anchor *)

(** The single row of the anchor table; times as stored. *)
Record AnchorRow : Type := mkAnchorRow { arLastID : Z; arLastHash : string; arLastAt : Z; arPrunedAt : Z }.

(** The rows of [audit_events] in the order of their IDs. *)
Record AuditDB : Type := mkAuditDB { adRows : list Event; adAnchor : AnchorRow }.

Definition emptyAudit : AuditDB := mkAuditDB [] (mkAnchorRow 0 GenesisHash 0 0).

Record Anchor : Type := mkAnchor { anLastID : Z; anLastHash : string; anLastTime : Z; anPrunedAt : Z }.

Definition AuditChainAnchor (db : AuditDB) : Anchor :=
  let a := adAnchor db in
  mkAnchor (arLastID a) (arLastHash a) (if arLastID a =? 0 then 0 else fromKey (arLastAt a))
    (if arPrunedAt a =? 0 then 0 else fromKey (arPrunedAt a)).

Definition setTime (t : Z) (e : Event) : Event :=
  mkEvent (aeID e) t (aeActorKind e) (aeActorUserID e) (aeActorName e) (aeActorKeyID e) (aeActorKeyName e) (aeAction e)
    (aeTargets e) (aeStatus e) (aeOutcome e) (aeClientIP e) (aeUserAgent e) (aeCount e) (aeHash e).

Definition setLink (id : Z) (hash : string) (e : Event) : Event :=
  mkEvent id (aeTime e) (aeActorKind e) (aeActorUserID e) (aeActorName e) (aeActorKeyID e) (aeActorKeyName e) (aeAction e)
    (aeTargets e) (aeStatus e) (aeOutcome e) (aeClientIP e) (aeUserAgent e) (aeCount e) hash.

(** The entry an [INSERT] leaves to be read: its time is stored in nanoseconds. *)
Definition storedEvent (e : Event) : Event := setTime (stored (aeTime e)) e.

(** [INSERT]; [None] when the primary key exists. *)
Fixpoint insertRow (e : Event) (rows : list Event) : option (list Event) :=
  match rows with
  | [] => Some [e]
  | x :: rows =>
      if aeID e <? aeID x then Some (e :: x :: rows)
      else if aeID e =? aeID x then None
      else cons x <$> insertRow e rows
  end.

(** The newest entry's ID and hash, or the anchor's. *)
Definition chainHead (db : AuditDB) : Z * string :=
  match last (adRows db) with
  | Some e => (aeID e, aeHash e)
  | None => (arLastID (adAnchor db), arLastHash (adAnchor db))
  end.

Record Filter : Type := mkFilter {
  flActor : string; flActorKind : string; flAction : string; flOutcome : string;
  flSince : Z; flUntil : Z; flBeforeID : Z; flAfterID : Z; flAscending : bool; flLimit : Z
}.

Definition DefaultListLimit : Z := 100.
Definition MaxListLimit : Z := 1000.

(** SQLite's [LIKE] of a pattern that contains the text between two [%]: the text occurs,
    without regard to the case of ASCII letters. *)
Definition lowerByte (a : Ascii.ascii) : Ascii.ascii := if byteIn 65 90 a then chr (Ascii.N_of_ascii a + 32) else a.

Fixpoint prefixFold (p s : string) : bool :=
  match p, s with
  | EmptyString, _ => true
  | String a p, String b s => bool_decide (lowerByte a = lowerByte b) && prefixFold p s
  | _, _ => false
  end.

Fixpoint containsFold (p s : string) : bool :=
  prefixFold p s || match s with EmptyString => false | String _ s => containsFold p s end.

(** The [WHERE] clause. *)
Definition eventMatches (f : Filter) (e : Event) : bool :=
  (bool_decide (flActor f = "") || bool_decide (aeActorUserID e = flActor f) || bool_decide (aeActorName e = flActor f)
   || bool_decide (aeActorKeyID e = flActor f) || bool_decide (aeActorKeyName e = flActor f))
  && (bool_decide (flActorKind f = "") || bool_decide (aeActorKind e = flActorKind f))
  && (bool_decide (flAction f = "") || containsFold (flAction f) (aeAction e))
  && (bool_decide (flOutcome f = "") || bool_decide (aeOutcome e = flOutcome f))
  && (IsZero (flSince f) || (timeKey (flSince f) <=? timeKey (aeTime e)))
  && (IsZero (flUntil f) || (timeKey (aeTime e) <? timeKey (flUntil f)))
  && ((flBeforeID f <=? 0) || (aeID e <? flBeforeID f))
  && ((flAfterID f <=? 0) || (flAfterID f <? aeID e)).

Definition ListAuditEvents (f : Filter) (db : AuditDB) : list Event :=
  let l := filter (λ e, eventMatches f e) (adRows db) in
  let limit := if flLimit f <=? 0 then DefaultListLimit else flLimit f in
  take (Z.to_nat limit) (if flAscending f then l else reverse l).

(** [checkFilter]; [true] for nil. *)
Definition checkFilter (f : Filter) : bool :=
  negb ((flBeforeID f <? 0) || (flAfterID f <? 0))
  && negb (negb (IsZero (flSince f)) && negb (IsZero (flUntil f)) && negb (flUntil f >? flSince f))
  && negb (Nat.ltb 256 (String.length (flActor f)) || Nat.ltb 256 (String.length (flAction f))
           || Nat.ltb 64 (String.length (flActorKind f)) || Nat.ltb 64 (String.length (flOutcome f))).

Definition setPage (before after : Z) (ascending : bool) (limit : Z) (f : Filter) : Filter :=
  mkFilter (flActor f) (flActorKind f) (flAction f) (flOutcome f) (flSince f) (flUntil f) before after ascending limit.

Record Page : Type := mkPage { pgEvents : list Event; pgNextBeforeID : Z }.

(** [List]: one page, newest first; one entry more than the limit is read to tell whether
    there is another page. *)
Definition ListPage (f : Filter) (db : AuditDB) : result unit Page :=
  if negb (checkFilter f) then Err tt
  else
    let limit := if flLimit f <=? 0 then DefaultListLimit else if flLimit f >? MaxListLimit then MaxListLimit else flLimit f in
    let l := ListAuditEvents (setPage (flBeforeID f) 0 false (limit + 1) f) db in
    if Z.of_nat (length l) =? limit + 1
    then let events := take (Z.to_nat limit) l in Ok (mkPage events (default 0 (aeID <$> last events)))
    else Ok (mkPage l 0).

(** [PruneAuditEvents]: the anchor moves to the newest entry recorded before [cutoff]; the
    anchor's trigger refuses to move it back. [now] is the clock of the update. *)
Definition PruneAuditEvents (cutoff now : Z) (db : AuditDB) : AuditDB * result unit Z :=
  match last (filter (λ e, timeKey (aeTime e) <? timeKey cutoff) (adRows db)) with
  | None => (db, Ok 0)
  | Some e =>
      if aeID e <? arLastID (adAnchor db) then (db, Err tt)
      else
        (mkAuditDB (filter (λ x, negb (aeID x <=? aeID e)) (adRows db))
           (mkAnchorRow (aeID e) (aeHash e) (timeKey (aeTime e)) (timeKey now)),
         Ok (Z.of_nat (length (filter (λ x, aeID x <=? aeID e) (adRows db)))))
  end.

(** ** The chain *)

Inductive Reason : Type := Missing | Changed.

Record Verification : Type := mkVerification {
  vfOK : bool;
  vfChecked : Z;
  vfAnchor : Anchor;
  vfHeadID : Z;
  vfHeadHash : string;
  vfBroken : option (Z * Reason);
  vfWarning : bool;
  vfRetentionDays : Z;
  vfVerifiedAt : Z
}.

Definition walkBatch : Z := 500.
Definition retentionSlack : Z := 24 * hour.
Definition MinRetentionDays : Z := 30.
Definition DefaultRetentionDays : Z := 365.

(** [retentionDays]; [None] for no setting. *)
Definition retentionDays (setting : option Z) : Z := Z.max (default DefaultRetentionDays setting) MinRetentionDays.

(** [Export]: what is visited and whether it failed; [fn] is [true] for an entry it fails on.
    Each page is read from the table as it is then. *)
Fixpoint exportPage (fn : Event -> bool) (l : list Event) : list Event * bool :=
  match l with
  | [] => ([], false)
  | e :: l => if fn e then ([e], true) else let '(v, err) := exportPage fn l in (e :: v, err)
  end.

Fixpoint exportLoop (f : Filter) (fn : Event -> bool) (reads : list (option AuditDB)) (after : Z) : option (list Event * bool) :=
  match reads with
  | [] => None
  | None :: _ => Some ([], true)
  | Some db :: reads =>
      let l := ListAuditEvents (setPage 0 after true walkBatch f) db in
      let '(v, err) := exportPage fn l in
      if err : bool then Some (v, true)
      else if Z.of_nat (length l) <? walkBatch then Some (v, false)
      else (λ r, (v ++ r.1, r.2)) <$> exportLoop f fn reads (default after (aeID <$> last l))
  end.

Definition Export (f : Filter) (fn : Event -> bool) (reads : list (option AuditDB)) : option (list Event * bool) :=
  if negb (checkFilter f) then Some ([], true) else exportLoop f fn reads 0.

Section Chain.
Context (sha : string -> string).

(** [sha] is SHA-256 in lowercase hexadecimal. *)
Definition ChainHash (prev : string) (e : Event) : string := sha (prev +:+ Canonical e).

Definition AppendAuditEvent (e : Event) (db : AuditDB) : AuditDB * result unit Event :=
  let '(prevID, prevHash) := chainHead db in
  let next := setLink (i64 (prevID + 1)) (aeHash e) e in
  let next := setLink (aeID next) (ChainHash prevHash next) next in
  match insertRow (storedEvent next) (adRows db) with
  | None => (db, Err tt)
  | Some rows => (mkAuditDB rows (adAnchor db), Ok next)
  end.

Definition check (prevID : Z) (prevHash : string) (e : Event) : option Reason :=
  if negb (aeID e =? i64 (prevID + 1)) then Some Missing
  else if bool_decide (ChainHash prevHash e = aeHash e) then None
  else Some Changed.

(** The loop over one page: the walk goes on from the entries checked, or ends. *)
Fixpoint verifyPage (l : list Event) (v : Verification) : Verification + Verification :=
  match l with
  | [] => inr v
  | e :: l =>
      match check (vfHeadID v) (vfHeadHash v) e with
      | Some reason =>
          inl (mkVerification (vfOK v) (vfChecked v) (vfAnchor v) (vfHeadID v) (vfHeadHash v) (Some (aeID e, reason))
                 (vfWarning v) (vfRetentionDays v) (vfVerifiedAt v))
      | None =>
          verifyPage l (mkVerification (vfOK v) (vfChecked v + 1) (vfAnchor v) (aeID e) (aeHash e) (vfBroken v)
                          (vfWarning v) (vfRetentionDays v) (vfVerifiedAt v))
      end
  end.

Definition verified (v : Verification) : Verification :=
  mkVerification true (vfChecked v) (vfAnchor v) (vfHeadID v) (vfHeadHash v) (vfBroken v) (vfWarning v) (vfRetentionDays v)
    (vfVerifiedAt v).

Definition noFilter : Filter := mkFilter "" "" "" "" 0 0 0 0 true 0.
Definition pageFilter (after : Z) : Filter := setPage 0 after true walkBatch noFilter.

(** The pages, each read from the table as it is then ([None]: the read fails); no result
    when the reads given are not enough. *)
Fixpoint verifyLoop (reads : list (option AuditDB)) (after : Z) (v : Verification) : option (result unit Verification) :=
  match reads with
  | [] => None
  | None :: _ => Some (Err tt)
  | Some db :: reads =>
      let l := ListAuditEvents (pageFilter after) db in
      match verifyPage l v with
      | inl v => Some (Ok v)
      | inr v =>
          if Z.of_nat (length l) <? walkBatch then Some (Ok (verified v))
          else verifyLoop reads (default after (aeID <$> last l)) v
      end
  end.

(** [Verify]: the anchor is read first ([None]: that read fails), then the pages. *)
Definition Verify (now : Z) (setting : option Z) (first : option AuditDB) (reads : list (option AuditDB))
  : option (result unit Verification) :=
  match first with
  | None => Some (Err tt)
  | Some db =>
      let a := AuditChainAnchor db in
      let days := retentionDays setting in
      let limit := now - days * day + retentionSlack in
      verifyLoop reads (anLastID a)
        (mkVerification false 0 a (anLastID a) (anLastHash a) None
           ((anLastID a >? 0) && (anLastTime a >? limit)) days now)
  end.

(** ** What a verified chain is *)

(** Entries that follow one another from an ID and a hash on. *)
Fixpoint chained (id : Z) (hash : string) (l : list Event) : Prop :=
  match l with
  | [] => True
  | e :: l => aeID e = i64 (id + 1) /\ aeHash e = ChainHash hash e /\ chained (aeID e) (aeHash e) l
  end.

Definition headOf (id : Z) (hash : string) (l : list Event) : Z * string :=
  match last l with Some e => (aeID e, aeHash e) | None => (id, hash) end.

Lemma headOf_cons id hash e l : headOf id hash (e :: l) = headOf (aeID e) (aeHash e) l.
Proof. unfold headOf. rewrite last_cons. by destruct (last l). Qed.

Lemma chained_app l1 : ∀ id hash l2,
  chained id hash (l1 ++ l2) <-> chained id hash l1 /\ chained (headOf id hash l1).1 (headOf id hash l1).2 l2.
Proof.
  induction l1 as [|e l1 IH]; intros id hash l2; [simpl; tauto|].
  rewrite headOf_cons. cbn [app chained]. rewrite IH. tauto.
Qed.

Lemma check_None id hash e : check id hash e = None <-> aeID e = i64 (id + 1) /\ aeHash e = ChainHash hash e.
Proof.
  unfold check. destruct (aeID e =? i64 (id + 1)) eqn:E; bool_cases; simpl; [|by split; [|intros [? _]]].
  case_bool_decide as H; split; [done..| |]; [by intros|intros [_ ?]; congruence].
Qed.

Lemma verifyPage_spec l : ∀ v,
  match verifyPage l v with
  | inr v' => chained (vfHeadID v) (vfHeadHash v) l /\
      v' = mkVerification (vfOK v) (vfChecked v + Z.of_nat (length l)) (vfAnchor v)
             (headOf (vfHeadID v) (vfHeadHash v) l).1 (headOf (vfHeadID v) (vfHeadHash v) l).2
             (vfBroken v) (vfWarning v) (vfRetentionDays v) (vfVerifiedAt v)
  | inl v' => vfOK v' = vfOK v /\ ~ chained (vfHeadID v) (vfHeadHash v) l
  end.
Proof.
  induction l as [|e l IH]; intros v; cbn [verifyPage chained].
  - split; [done|]. unfold headOf. simpl. rewrite Z.add_0_r. by destruct v.
  - destruct (check _ _ e) as [r|] eqn:Hc.
    + split; [done|]. intros (H1 & H2 & _). assert (check (vfHeadID v) (vfHeadHash v) e = None) by (by apply check_None). congruence.
    + apply check_None in Hc as [H1 H2]. set (v1 := mkVerification _ _ _ _ _ _ _ _ _). specialize (IH v1).
      destruct (verifyPage l v1) as [v'|v']; destruct IH as [IH1 IH2]; [split; [done|tauto]|].
      split; [done|]. rewrite IH2, headOf_cons. unfold v1. simpl. f_equal. lia.
Qed.
End Chain.

(** ** The canonical form determines the entry *)

(** Times a column of nanoseconds holds. *)
Definition storable (t : Z) : Prop := - 2 ^ 63 <= t - unix_epoch_seconds * second <= 2 ^ 63 - 1.

Lemma stored_storable t : storable t -> stored t = t.
Proof. unfold storable, stored, fromKey, timeKey. intros H. destruct (_ <? _) eqn:?; [lia|]. destruct (_ >? _) eqn:?; lia. Qed.

Lemma fromKey_storable n : - 2 ^ 63 <= n <= 2 ^ 63 - 1 -> storable (fromKey n).
Proof. unfold storable, fromKey. lia. Qed.

Lemma yearOf_bounds t : storable t -> 1 <= yearOf (t / day) < 10000.
Proof.
  intros Ht. assert (0 <= t / day < 3000000) as Hd.
  { unfold storable, unix_epoch_seconds, day, hour, minute, second, millisecond, nanosecond in *. Z.div_mod_to_equations. lia. }
  pose proof (yearOf_spec (t / day)) as Hs. unfold daysBeforeYear in Hs. Z.div_mod_to_equations. lia.
Qed.

Lemma fmtYear_4 y rest : 0 <= y < 10000 -> fmtYear y rest = padded 4 y rest.
Proof. intros Hy. unfold fmtYear. by rewrite (proj2 (Z.ltb_ge _ _)), (proj2 (Z.ltb_lt _ _)) by lia. Qed.

Lemma FormatTime_inj t u : storable t -> storable u -> FormatTime t = FormatTime u -> t = u.
Proof.
  intros Ht Hu. pose proof (yearOf_bounds t Ht) as Yt. pose proof (yearOf_bounds u Hu) as Yu. unfold FormatTime.
  destruct (civil (t / day)) as [[y m] d] eqn:Ct, (civil (u / day)) as [[y' m'] d'] eqn:Cu.
  apply civil_spec in Ct as (Hm & Hd & Dt & ->), Cu as (Hm' & Hd' & Du & ->).
  pose proof (daysIn_bound (yearOf (t / day)) m). pose proof (daysIn_bound (yearOf (u / day)) m').
  rewrite !fmtYear_4 by lia.
  assert (0 <= d < 100 /\ 0 <= d' < 100) as [Bd Bd'] by lia.
  assert (0 <= m < 100 /\ 0 <= m' < 100) as [Bm Bm'] by lia.
  assert (0 <= yearOf (t / day) < 10000 /\ 0 <= yearOf (u / day) < 10000) as [By By'] by lia.
  assert (0 <= t mod day < day /\ 0 <= u mod day < day) as [Bt Bu] by (split; apply Z.mod_pos_bound; by vm_compute).
  assert (t = day * (t / day) + t mod day) as Et by (apply Z.div_mod; by vm_compute).
  assert (u = day * (u / day) + u mod day) as Eu by (apply Z.div_mod; by vm_compute).
  revert Et Eu Bt Bu. generalize (t mod day) (u mod day). intros a b Et Eu Ba Bb E.
  apply padded_inj in E as [Ey E]; [|done..]. apply str_app_inj_l, padded_inj in E as [<- E]; [|done..].
  apply str_app_inj_l, padded_inj in E as [<- E]; [|done..].
  assert (t / day = u / day) as Ed by (rewrite <- Dt, Ey; exact Du).
  enough (a = b) as Eab by (rewrite Ed, Eab in Et; by etrans; [exact Et|]).
  clear -E Ba Bb. unfold day, hour, minute, second, millisecond, nanosecond in *.
  apply str_app_inj_l, padded_inj in E as [E1 E]; [|clear -Ba Bb; Z.div_mod_to_equations; lia..].
  apply str_app_inj_l, padded_inj in E as [E2 E]; [|clear; Z.div_mod_to_equations; lia..].
  apply str_app_inj_l, padded_inj in E as [E3 E]; [|clear; Z.div_mod_to_equations; lia..].
  apply str_app_inj_l, padded_inj in E as [E4 _]; [|clear; Z.div_mod_to_equations; lia..].
  clear -E1 E2 E3 E4 Ba Bb. Z.div_mod_to_equations. lia.
Qed.

Lemma padded_bytes f w : (∀ n, 0 <= n < 10 -> f (digitChar n) = true) -> ∀ n rest, allBytes f (padded w n rest) = allBytes f rest.
Proof.
  intros Hf. induction w as [|w IH]; intros n rest; [done|]. cbn [padded]. rewrite IH. cbn [allBytes].
  by rewrite Hf by (apply Z.mod_pos_bound; lia).
Qed.

Lemma FormatTime_valid t : storable t -> validUTF8 (FormatTime t) = true.
Proof.
  intros Ht. apply ascii_valid. pose proof (yearOf_bounds t Ht). unfold FormatTime.
  destruct (civil (t / day)) as [[y m] d] eqn:Ct. apply civil_spec in Ct as (_ & _ & _ & ->).
  rewrite fmtYear_4 by lia.
  assert (∀ n, 0 <= n < 10 -> isASCII (digitChar n) = true) as Hdig.
  { intros n. by apply (digit_ind (λ n, isASCII (digitChar n) = true)); repeat constructor. }
  repeat (rewrite (padded_bytes isASCII) by done; rewrite ?str_app_cons, ?str_app_nil; cbn [allBytes]; try (change (isASCII _) with true); cbn [andb]).
  done.
Qed.

(** What [normalize] makes of an entry, as far as the chain needs it. *)
Record validEvent (e : Event) : Prop := mkValidEvent {
  ve_time : storable (aeTime e);
  ve_strings : Forall (λ s, validUTF8 s = true)
    [aeActorKind e; aeActorUserID e; aeActorName e; aeActorKeyID e; aeActorKeyName e; aeAction e; aeOutcome e;
     aeClientIP e; aeUserAgent e];
  ve_targets : validMap (aeTargets e)
}.

(** A comma, a key. *)
Lemma comma_key_inj k r r' : validUTF8 k = true -> "," +:+ jsonKey k r = "," +:+ jsonKey k r' -> r = r'.
Proof. intros Hk E. apply str_app_inj_l, jsonString_inj in E as [_ E]; [|done]. by apply str_app_inj_l in E. Qed.

Ltac json_string E := apply comma_key_inj in E; [|reflexivity]; apply jsonString_inj in E as [? E]; [|done].
Ltac json_int E := apply jsonInt_inj in E as (? & _ & E); [|reflexivity..].

(** Two entries with the same canonical form differ at most in their hash. *)
Lemma Canonical_inj e e' : validEvent e -> storable (aeTime e') -> Canonical e = Canonical e' -> setLink (aeID e) (aeHash e') e = e'.
Proof.
  intros [Ht Hs Hm] Ht' E. rewrite !Forall_cons in Hs. destruct Hs as (H1 & H2 & H3 & H4 & H5 & H6 & H7 & H8 & H9 & _).
  unfold Canonical in E. pose proof (FormatTime_valid _ Ht) as Hf.
  apply str_app_inj_l, jsonString_inj in E as [_ E]; [|reflexivity]. apply str_app_inj_l in E. rewrite !str_app_cons in E.
  json_int E. apply (f_equal (String (chr 44))) in E.
  json_string E. json_string E. json_string E. json_string E. json_string E. json_string E. json_string E.
  apply comma_key_inj in E; [|reflexivity]. apply jsonMap_inj in E as [? E]; [|done].
  apply comma_key_inj in E; [|reflexivity].
  json_int E. apply (f_equal (String (chr 44))) in E.
  json_string E. json_string E. json_string E. apply comma_key_inj in E; [|reflexivity]. json_int E.
  assert (aeTime e = aeTime e') as Htime by (by apply FormatTime_inj).
  clear H1 H2 H3 H4 H5 H6 H7 H8 H9 Hf Ht Ht' Hm E. destruct e, e'. unfold setLink. simpl in *. subst. done.
Qed.
