(* ===== verification/AuditChain.v ===== *)
(** * The audit chain: what verification accepts (src/internal/auditlog, store/auditlog.go)

    The operations of the repository keep one chain from the anchor; [Verify] accepts every
    log they leave, entries appended while it walks included; and a log that verifies up to
    a known head holds what was recorded and nothing else. *)

From Stdlib Require Import ZifyBool.
From S2P Require Import Prelude Calendar Glob Json AuditLog.

Section Chain.
Context (sha : string -> string).
Context (sha_length : ∀ s, String.length (sha s) = 64%nat).

(** ** The invariant of the table *)

Definition ids (l : list Event) : list Z := aeID <$> l.

(** [n] appends were made: the IDs are the numbers after the anchor, the hashes a chain. *)
Record AuditInv (n : Z) (db : AuditDB) : Prop := mkAuditInv {
  ai_anchor : 0 <= arLastID (adAnchor db);
  ai_length : arLastID (adAnchor db) + Z.of_nat (length (adRows db)) <= n;
  ai_ids : ids (adRows db) = seqZ (arLastID (adAnchor db) + 1) (Z.of_nat (length (adRows db)));
  ai_chain : chained sha (arLastID (adAnchor db)) (arLastHash (adAnchor db)) (adRows db);
  ai_hash : String.length (arLastHash (adAnchor db)) = 64%nat;
  ai_valid : Forall validEvent (adRows db)
}.

Lemma emptyAudit_inv : AuditInv 0 emptyAudit.
Proof. by constructor. Qed.

Lemma seqZ_last a n : 0 < n -> last (seqZ a n) = Some (a + n - 1).
Proof. intros Hn. replace n with (n - 1 + 1) by lia. rewrite seqZ_app by lia. rewrite last_app. simpl. f_equal. lia. Qed.

Lemma ids_last a l : ids l = seqZ (a + 1) (Z.of_nat (length l)) -> (default a (aeID <$> last l)) = a + Z.of_nat (length l).
Proof.
  intros Hl. rewrite <- fmap_last. change (aeID <$> l) with (ids l). rewrite Hl.
  destruct l as [|e l]; [simpl; lia|]. rewrite seqZ_last by (simpl; lia). simpl. lia.
Qed.

Lemma chainHead_id n db : AuditInv n db -> (chainHead db).1 = arLastID (adAnchor db) + Z.of_nat (length (adRows db)).
Proof. intros Hi. rewrite <- (ids_last _ _ (ai_ids _ _ Hi)). unfold chainHead. by destruct (last (adRows db)). Qed.

Lemma chainHead_headOf db : chainHead db = headOf (arLastID (adAnchor db)) (arLastHash (adAnchor db)) (adRows db).
Proof. reflexivity. Qed.

Lemma insertRow_last e l : Forall (λ x, aeID x < aeID e) l -> insertRow e l = Some (l ++ [e]).
Proof.
  induction 1 as [|x l Hx _ IH]; [done|]. simpl. rewrite (proj2 (Z.ltb_ge _ _)), (proj2 (Z.eqb_neq _ _)), IH by lia. done.
Qed.

Lemma ids_lookup a l i e : ids l = seqZ (a + 1) (Z.of_nat (length l)) -> l !! i = Some e -> aeID e = a + 1 + Z.of_nat i.
Proof.
  intros Hl He. assert (ids l !! i = Some (aeID e)) as Hi by (unfold ids; by rewrite list_lookup_fmap, He).
  rewrite Hl in Hi. apply lookup_seqZ in Hi as [-> _]. done.
Qed.

Lemma ids_below a l : ids l = seqZ (a + 1) (Z.of_nat (length l)) -> Forall (λ x, a < aeID x < a + Z.of_nat (length l) + 1) l.
Proof.
  intros Hl. apply Forall_lookup. intros i e He. rewrite (ids_lookup _ _ _ _ Hl He). apply lookup_lt_Some in He. lia.
Qed.

Lemma AppendAuditEvent_ok n db e : AuditInv n db -> n < 2 ^ 63 - 1 -> validEvent e ->
  ∃ next, AppendAuditEvent sha e db = (mkAuditDB (adRows db ++ [next]) (adAnchor db), Ok next) /\
    AuditInv (n + 1) (mkAuditDB (adRows db ++ [next]) (adAnchor db)) /\
    next = setLink (aeID next) (aeHash next) e.
Proof.
  intros Hi Hn He. unfold AppendAuditEvent. pose proof (chainHead_id _ _ Hi) as Hid.
  destruct (chainHead db) as [id hash] eqn:Hh. simpl in Hid. destruct Hi as [Ha Hlen Hids Hc Hhash Hv].
  assert (i64 (id + 1) = id + 1) as Hw by (apply i64_small; lia). rewrite Hw. cbn [aeID setLink].
  set (next := setLink (id + 1) (ChainHash sha hash _) _). exists next.
  assert (storedEvent next = next) as Hst by (unfold storedEvent, next; simpl; rewrite stored_storable by apply He; done).
  rewrite Hst, insertRow_last; [|eapply Forall_impl; [by apply ids_below|]; simpl; lia].
  split; [done|]. split; [|done]. constructor; cbn [adRows adAnchor].
  - done.
  - rewrite length_app. simpl. lia.
  - unfold ids in *. rewrite fmap_app, Hids, length_app, Nat2Z.inj_add, seqZ_app by lia. f_equal.
    rewrite seqZ_cons, seqZ_nil by (simpl; lia). cbn [fmap list_fmap]. f_equal. simpl. lia.
  - apply chained_app. split; [done|]. rewrite <- chainHead_headOf, Hh. split; [simpl; by rewrite Hw|]. by split.
  - done.
  - apply Forall_app. split; [done|]. constructor; [|done]. destruct He. by constructor.
Qed.

(** The entries after an ID are a suffix. *)
Lemma filter_after (P : Event -> bool) a k l :
  ids l = seqZ (a + 1) (Z.of_nat (length l)) -> 0 <= k -> (∀ e, e ∈ l -> P e = (a + k <? aeID e)) ->
  filter (λ e, P e) l = drop (Z.to_nat k) l.
Proof.
  intros Hl Hk HP. rewrite <- (take_drop (Z.to_nat k) l) at 1. rewrite filter_app.
  rewrite filter_none, filter_all; [done| |].
  - intros e (i & He)%list_elem_of_lookup. rewrite lookup_drop in He. apply Is_true_true.
    rewrite HP by (by eapply list_elem_of_lookup_2). rewrite (ids_lookup _ _ _ _ Hl He). lia.
  - intros e (i & [He Hi]%lookup_take_Some)%list_elem_of_lookup. rewrite Is_true_true.
    rewrite HP by (by eapply list_elem_of_lookup_2). rewrite (ids_lookup _ _ _ _ Hl He). lia.
Qed.

(** ** Runs of the repository *)

Inductive AuditOp : Type := AAppend (e : Event) | APrune (cutoff now : Z).

Definition auditApply (o : AuditOp) (db : AuditDB) : AuditDB :=
  match o with
  | AAppend e => (AppendAuditEvent sha e db).1
  | APrune cutoff now => (PruneAuditEvents cutoff now db).1
  end.

Definition auditRun (ops : list AuditOp) (db : AuditDB) : AuditDB := foldl (λ db o, auditApply o db) db ops.

Definition validOp (o : AuditOp) : Prop := match o with AAppend e => validEvent e | APrune _ _ => True end.

Lemma AuditInv_weaken n m db : n <= m -> AuditInv n db -> AuditInv m db.
Proof. intros Hnm []. constructor; try done. lia. Qed.

Lemma PruneAuditEvents_inv n cutoff now db : AuditInv n db -> AuditInv n (PruneAuditEvents cutoff now db).1.
Proof.
  intros Hi. unfold PruneAuditEvents. destruct (last (filter _ _)) as [e|] eqn:Hl; [|done].
  apply last_filter_Some in Hl as (l1 & l2 & Hrows & _). destruct Hi as [Ha Hlen Hids Hc Hhash Hv].
  destruct (aeID e <? _) eqn:?; [by constructor|].
  assert (aeID e = arLastID (adAnchor db) + 1 + Z.of_nat (length l1)) as He.
  { apply (ids_lookup _ _ _ _ Hids). rewrite Hrows. by apply list_lookup_middle. }
  rewrite cons_middle, app_assoc in Hrows. rewrite Hrows in *. cbn [fst].
  rewrite (filter_after _ (arLastID (adAnchor db)) (1 + Z.of_nat (length l1))); [|done|lia|intros x _; lia].
  replace (Z.to_nat _) with (length (l1 ++ [e])) by (rewrite length_app; simpl; lia).
  rewrite drop_app_length. rewrite !length_app in Hlen. rewrite !length_app in Hids. simpl in Hlen. apply chained_app in Hc as [Hc1 Hc2]. apply Forall_app in Hv as [Hv1 Hv2].
  unfold headOf in Hc2. rewrite last_snoc in Hc2. constructor; cbn [adAnchor adRows arLastID arLastHash]; try done.
  - lia.
  - lia.
  - unfold ids in *. rewrite fmap_app, !Nat2Z.inj_add, seqZ_app in Hids by lia.
    apply app_inj_1 in Hids as [_ Hids]; [|rewrite length_fmap, length_app, length_seqZ; simpl; lia].
    rewrite Hids. f_equal. simpl. lia.
  - apply chained_app in Hc1 as [_ (_ & -> & _)]. apply sha_length.
Qed.

Lemma auditRun_inv ops n db :
  AuditInv n db -> Forall validOp ops -> n + Z.of_nat (length ops) < 2 ^ 63 - 1 -> AuditInv (n + Z.of_nat (length ops)) (auditRun ops db).
Proof.
  intros Hi Hops. revert n db Hi. induction Hops as [|o ops Ho _ IH]; intros n db Hi Hn; [by rewrite Z.add_0_r|].
  cbn [length] in *. rewrite Nat2Z.inj_succ in *. replace (n + Z.succ (Z.of_nat (length ops))) with (n + 1 + Z.of_nat (length ops)) by lia.
  cbn [auditRun foldl]. apply IH; [|lia]. destruct o as [e|cutoff now]; simpl.
  - destruct (AppendAuditEvent_ok n db e Hi) as (next & -> & H & _); [lia|done|]. done.
  - apply AuditInv_weaken with n; [lia|]. by apply PruneAuditEvents_inv.
Qed.

(** ** Logs that grew by appends verify *)

Lemma page_matches after e : 0 <= after -> (0 < aeID e) -> eventMatches (pageFilter after) e = (after <? aeID e).
Proof. intros Ha He. unfold eventMatches, pageFilter. simpl. lia. Qed.

Lemma page_rows a k db :
  0 <= a -> 0 <= k -> ids (adRows db) = seqZ (a + 1) (Z.of_nat (length (adRows db))) ->
  ListAuditEvents (pageFilter (a + k)) db = take (Z.to_nat walkBatch) (drop (Z.to_nat k) (adRows db)).
Proof.
  intros Ha Hk Hids. unfold ListAuditEvents. cbn [pageFilter flLimit flAscending]. f_equal. apply (filter_after _ a); [done..|].
  intros e He. apply page_matches; [lia|]. pose proof (ids_below _ _ Hids) as Hb. rewrite Forall_forall in Hb. apply Hb in He. lia.
Qed.

Lemma prefix_ids a l all : ids all = seqZ (a + 1) (Z.of_nat (length all)) -> l `prefix_of` all -> ids l = seqZ (a + 1) (Z.of_nat (length l)).
Proof.
  intros Hall (rest & ->). unfold ids in *. rewrite fmap_app, length_app, Nat2Z.inj_add, seqZ_app in Hall by lia.
  apply app_inj_1 in Hall as [-> _]; [done|]. rewrite length_fmap, length_seqZ. lia.
Qed.

Lemma headOf_ids a h l : ids l = seqZ (a + 1) (Z.of_nat (length l)) -> (headOf a h l).1 = a + Z.of_nat (length l).
Proof. intros Hl. rewrite <- (ids_last _ _ Hl). unfold headOf. by destruct (last l). Qed.

Lemma headOf_app a h l1 l2 : headOf a h (l1 ++ l2) = headOf (headOf a h l1).1 (headOf a h l1).2 l2.
Proof. unfold headOf. rewrite last_app. destruct (last l2); [done|]. by destruct (last l1). Qed.

Lemma verifyLoop_prefix a h all m reads :
  0 <= a -> ids all = seqZ (a + 1) (Z.of_nat (length all)) -> chained sha a h all ->
  Forall (λ r, ∃ db, r = Some db /\ adRows db `prefix_of` all /\ (m <= length (adRows db))%nat) reads ->
  ∀ n v, (n <= length all)%nat -> (vfHeadID v, vfHeadHash v) = headOf a h (take n all) -> vfChecked v = Z.of_nat n ->
  (length all - n < Z.to_nat walkBatch * length reads)%nat ->
  ∃ v', verifyLoop sha reads (a + Z.of_nat n) v = Some (Ok v') /\ vfOK v' = true /\ vfBroken v' = vfBroken v /\
    Z.of_nat m <= vfChecked v'.
Proof.
  intros Ha Hids Hc Hreads. induction Hreads as [|r reads (db & -> & Hpre & Hm) _ IH]; intros n v Hn Hv Hk Hlen; [simpl in Hlen; lia|].
  cbn [verifyLoop]. rewrite (page_rows a) by (lia || by eapply prefix_ids). rewrite Nat2Z.id.
  set (page := take (Z.to_nat walkBatch) (drop n (adRows db))).
  assert (∃ rest, all = take n all ++ page ++ rest) as (rest & Hall).
  { destruct Hpre as (tl & Hpre). destruct (decide (n <= length (adRows db))%nat) as [Hle|Hgt].
    - exists (drop (Z.to_nat walkBatch) (drop n (adRows db)) ++ tl). unfold page. rewrite app_assoc, app_assoc, <- (app_assoc (take n all)), take_drop.
      rewrite Hpre, take_app_le, take_drop by done. done.
    - exists (drop n all). unfold page. rewrite (drop_ge (adRows db)), take_nil by lia. simpl. by rewrite take_drop. }
  pose proof Hc as Hc2. rewrite Hall in Hc2. apply chained_app in Hc2 as [_ Hc2]. apply chained_app in Hc2 as [Hc2 _].
  rewrite <- Hv in Hc2. pose proof (verifyPage_spec sha page v) as Hs. destruct (verifyPage sha page v) as [v1|v1]; [by destruct Hs as [_ []]|].
  destruct Hs as [_ ->]. set (v1 := mkVerification _ _ _ _ _ _ _ _ _).
  assert (take (n + length page) all = take n all ++ page) as Htake.
  { rewrite Hall at 1. rewrite app_assoc. apply take_app_length'. rewrite length_app, length_take. lia. }
  assert (length page <= Z.to_nat walkBatch)%nat as Hpl by (unfold page; rewrite length_take; lia).
  destruct (Z.of_nat (length page) <? walkBatch) eqn:Hlast.
  - eexists. split; [done|]. split; [done|]. split; [done|]. unfold v1. cbn [vfChecked verified]. rewrite Hk.
    unfold page in *. rewrite length_take, length_drop in *. unfold walkBatch in *. lia.
  - assert (length page = Z.to_nat walkBatch) as Hfull by (unfold walkBatch in *; lia).
    assert (n + length page <= length all)%nat as Hle.
    { apply (f_equal length) in Hall. rewrite !length_app, length_take in Hall. lia. }
    assert (default (a + Z.of_nat n) (aeID <$> last page) = a + Z.of_nat (n + length page)) as ->.
    { assert ((headOf a h (take (n + length page) all)).1 = a + Z.of_nat (n + length page)) as Hd.
      { rewrite headOf_ids; [rewrite length_take; lia|]. eapply prefix_ids; [done|]. apply prefix_take. }
      rewrite Htake, headOf_app in Hd. rewrite <- Hd. unfold headOf. destruct (last page) eqn:E; [done|].
      apply last_None in E. rewrite E in Hfull. unfold walkBatch in Hfull. simpl in Hfull. lia. }
    destruct (IH (n + length page)%nat v1) as (v' & -> & Hok & Hb & Hck); [done| | | |by exists v'].
    + unfold v1. rewrite Htake, headOf_app. rewrite <- Hv. cbn [vfHeadID vfHeadHash fst snd]. symmetry. apply surjective_pairing.
    + simpl. lia.
    + rewrite Hfull. cbn [length] in Hlen. lia.
Qed.

(** The table as it is after each batch of appends. *)
Fixpoint snapshots (db : AuditDB) (batches : list (list Event)) : list AuditDB :=
  match batches with
  | [] => []
  | b :: batches => let db := auditRun (AAppend <$> b) db in db :: snapshots db batches
  end.

Lemma appends_prefix n l db :
  AuditInv n db -> Forall validEvent l -> n + Z.of_nat (length l) < 2 ^ 63 - 1 ->
  let db' := auditRun (AAppend <$> l) db in
  AuditInv (n + Z.of_nat (length l)) db' /\ adAnchor db' = adAnchor db /\ adRows db `prefix_of` adRows db'.
Proof.
  intros Hi Hl. revert n db Hi. induction Hl as [|e l He _ IH]; intros n db Hi Hn; [by rewrite Z.add_0_r|].
  cbn [length fmap list_fmap auditRun foldl] in *. rewrite Nat2Z.inj_succ in *. cbn [auditApply].
  destruct (AppendAuditEvent_ok n db e Hi) as (next & -> & H & _); [lia|done|]. cbn [fst].
  destruct (IH (n + 1) _ H) as (H1 & H2 & H3); [lia|]. split_and!; [|done|].
  - replace (n + Z.succ (Z.of_nat (length l))) with (n + 1 + Z.of_nat (length l)) by lia. exact H1.
  - etrans; [|exact H3]. by eexists.
Qed.

Lemma snapshots_prefix n db batches :
  AuditInv n db -> Forall (Forall validEvent) batches -> n + Z.of_nat (length (concat batches)) < 2 ^ 63 - 1 ->
  ∃ final, AuditInv (n + Z.of_nat (length (concat batches))) final /\ adAnchor final = adAnchor db /\
    adRows db `prefix_of` adRows final /\
    (length (adRows final) = length (adRows db) + length (concat batches))%nat /\
    Forall (λ x, adRows x `prefix_of` adRows final /\ (length (adRows db) <= length (adRows x))%nat) (snapshots db batches).
Proof.
  intros Hi Hb. revert n db Hi. induction Hb as [|b batches Hb _ IH]; intros n db Hi Hn.
  { exists db. rewrite Z.add_0_r, Nat.add_0_r. split_and!; [done..|constructor]. }
  cbn [concat snapshots] in *. rewrite length_app, Nat2Z.inj_add in *.
  destruct (appends_prefix n b db Hi Hb) as (H1 & H2 & H3); [lia|]. set (db1 := auditRun _ db) in *.
  destruct (IH _ db1 H1) as (final & F1 & F2 & F3 & F4 & F5); [lia|]. exists final.
  pose proof (prefix_length _ _ H3) as Hlen.
  assert (length (adRows db1) = length (adRows db) + length b)%nat as Hlen1.
  { clear -Hi Hb Hn. subst db1. revert n db Hi Hn. induction Hb as [|e b He _ IH]; intros n db Hi Hn; [simpl; lia|].
    cbn [length fmap list_fmap auditRun foldl auditApply] in *. rewrite Nat2Z.inj_succ in Hn.
    destruct (AppendAuditEvent_ok n db e Hi) as (next & -> & H & _); [lia|done|]. cbn [fst].
    unfold auditRun in IH. rewrite (IH (n + 1) _ H) by lia. cbn [adRows]. rewrite length_app. simpl. lia. }
  split_and!; [by rewrite Z.add_assoc|congruence|by etrans|lia|]. constructor; [done|].
  eapply Forall_impl; [exact F5|]. intros x [? ?]. split; [done|lia].
Qed.

(** [C31] Verification accepts every genuine log: after any sequence of appends and prunes,
    with further entries appended before each page [Verify] reads, it ends, reports no
    broken entry and has checked at least the entries there were when it started. The
    reads are enough as soon as they could hold all entries in pages of 500. *)
Theorem audit_verifies now setting ops batches :
  Forall validOp ops -> Forall (Forall validEvent) batches ->
  Z.of_nat (length ops) + Z.of_nat (length (concat batches)) < 2 ^ 63 - 1 ->
  let db := auditRun ops emptyAudit in
  (length (adRows db) + length (concat batches) < Z.to_nat walkBatch * length batches)%nat ->
  ∃ v, Verify sha now setting (Some db) (Some <$> snapshots db batches) = Some (Ok v) /\
    vfOK v = true /\ vfBroken v = None /\ Z.of_nat (length (adRows db)) <= vfChecked v.
Proof.
  intros Hops Hb Hn db Hlen.
  assert (AuditInv (Z.of_nat (length ops)) db) as Hi.
  { apply (auditRun_inv ops 0); [apply emptyAudit_inv|done|lia]. }
  destruct (snapshots_prefix _ db batches Hi Hb) as (final & F1 & F2 & F3 & F4 & F5); [lia|].
  unfold Verify. set (v0 := mkVerification _ _ _ _ _ _ _ _ _).
  edestruct (verifyLoop_prefix (arLastID (adAnchor db)) (arLastHash (adAnchor db)) (adRows final) (length (adRows db))
    (Some <$> snapshots db batches) (ai_anchor _ _ Hi)) with (n := 0%nat) (v := v0) as (v & Hv & H1 & H2 & H3).
  - rewrite <- F2. apply F1.
  - rewrite <- F2. apply F1.
  - apply Forall_fmap. eapply Forall_impl; [exact F5|]. intros x [? ?]. by exists x.
  - lia.
  - done.
  - done.
  - rewrite length_fmap, F4. assert (length (snapshots db batches) = length batches) as ->; [|lia].
    clear. generalize db. induction batches as [|b bs IH]; intros d; simpl; [done|]. by rewrite IH.
  - exists v. by rewrite Z.add_0_r in Hv.
Qed.

(** ** Logs that verify were not changed *)

(** A table read by [ORDER BY id]: any content, IDs in order, times of an integer column. *)
Record readable (db : AuditDB) : Prop := mkReadable {
  rd_sorted : StronglySorted (λ x y, aeID x < aeID y) (adRows db);
  rd_times : Forall (λ e, storable (aeTime e)) (adRows db);
  rd_anchor : arLastID (adAnchor db) < 2 ^ 63;
  rd_hash : String.length (arLastHash (adAnchor db)) = 64%nat
}.

(** The entries after an ID, as a page reads them. *)
Definition entriesAfter (a : Z) (db : AuditDB) : list Event := filter (λ e, eventMatches (pageFilter a) e) (adRows db).

Lemma match_after a e : eventMatches (pageFilter a) e = (a <=? 0) || (a <? aeID e).
Proof. unfold eventMatches, pageFilter. simpl. lia. Qed.

Lemma chained_ids l : ∀ a h, 0 <= a < 2 ^ 63 -> chained sha a h l -> StronglySorted (λ x y, aeID x < aeID y) l ->
  (0 < a -> Forall (λ e, a < aeID e) l) -> ids l = seqZ (a + 1) (Z.of_nat (length l)).
Proof.
  induction l as [|e l IH]; intros a h Ha Hc Hs Hl; [done|]. destruct Hc as (He & _ & Hc). apply StronglySorted_inv in Hs as [Hs Hf].
  assert (aeID e = a + 1 /\ a + 1 < 2 ^ 63) as [He' Ha'].
  { destruct (decide (a + 1 < 2 ^ 63)) as [H|H]; [rewrite i64_small in He by lia; lia|exfalso].
    assert (a + 1 = 2 ^ 63) as Ea by lia. rewrite Ea in He. change (i64 (2 ^ 63)) with (- 2 ^ 63) in He.
    specialize (Hl ltac:(lia)). apply Forall_cons_1 in Hl as [Hl _]. lia. }
  cbn [ids fmap list_fmap length]. rewrite Nat2Z.inj_succ, seqZ_cons by lia. rewrite He' in *. f_equal.
  rewrite Z.pred_succ. rewrite <- Z.add_1_r. apply (IH (a + 1) (aeHash e)); [lia|done|done|done].
Qed.

Lemma StronglySorted_ids a l : ids l = seqZ (a + 1) (Z.of_nat (length l)) -> StronglySorted (λ x y, aeID x < aeID y) l.
Proof.
  revert a. induction l as [|e l IH]; intros a Hl; [constructor|].
  cbn [ids fmap list_fmap length] in Hl. rewrite Nat2Z.inj_succ, seqZ_cons, Z.pred_succ in Hl by lia. injection Hl as He Hl.
  rewrite <- Z.add_1_r in Hl. constructor; [by eapply IH|]. eapply Forall_impl; [by apply (ids_below (a + 1))|]. simpl. lia.
Qed.

Lemma sorted_filter (P : Event -> Prop) `{∀ x, Decision (P x)} l :
  StronglySorted (λ x y, aeID x < aeID y) l -> StronglySorted (λ x y, aeID x < aeID y) (filter P l).
Proof.
  induction 1 as [|e l Hs IH Hf]; [constructor|]. rewrite filter_cons. destruct (decide (P e)); [|done]. constructor; [done|].
  rewrite Forall_forall in Hf |- *. intros x [_ Hx]%list_elem_of_filter. by apply Hf.
Qed.

(** What a page in ascending order selects: what the filter does, after its position. *)
Lemma eventMatches_page f a k e :
  eventMatches (setPage 0 a true k f) e = eventMatches (setPage 0 0 true k f) e && ((a <=? 0) || (a <? aeID e)).
Proof.
  unfold eventMatches. cbn [setPage flActor flActorKind flAction flOutcome flSince flUntil flBeforeID flAfterID].
  change (0 <=? 0) with true. cbn [orb]. by rewrite !andb_true_r.
Qed.

(** The next page starts where this one ended. *)
Lemma next_page f a k db x :
  let L a := filter (λ e, eventMatches (setPage 0 a true walkBatch f) e) (adRows db) in
  StronglySorted (λ x y, aeID x < aeID y) (adRows db) -> last (take k (L a)) = Some x -> 0 < aeID x -> a <= aeID x ->
  L (aeID x) = drop k (L a).
Proof.
  intros L Hs Hx H0 Ha. assert (StronglySorted (λ x y, aeID x < aeID y) (L a)) as HL by (by apply sorted_filter).
  transitivity (filter (λ e, aeID x <? aeID e) (L a)).
  { unfold L. rewrite list_filter_filter. apply list_filter_iff. intros e.
    rewrite !Is_true_true, (eventMatches_page f a), (eventMatches_page f (aeID x)). destruct (eventMatches _ e); cbn [andb]; lia. }
  rewrite <- (take_drop k (L a)) in HL. rewrite <- (take_drop k (L a)) at 1. apply last_Some in Hx as (page & Hp). rewrite Hp in *.
  apply StronglySorted_app in HL as (Hlt & Hpage & _). rewrite filter_app, filter_none, filter_all; [done| |].
  - intros e He. apply Is_true_true. assert (aeID x < aeID e) by (apply Hlt; [apply elem_of_app; right; by left|done]). lia.
  - apply StronglySorted_app in Hpage as (Hle & _). intros e [He| ->%list_elem_of_singleton]%elem_of_app; rewrite Is_true_true; [|lia].
    assert (aeID e < aeID x) by (apply Hle; [done|by left]). lia.
Qed.

(** A static table that verifies is a chain from its anchor. *)
Lemma verifyLoop_chained db n : readable db -> ∀ v v', 0 <= vfHeadID v < 2 ^ 63 -> vfOK v = false ->
  verifyLoop sha (replicate n (Some db)) (vfHeadID v) v = Some (Ok v') -> vfOK v' = true ->
  chained sha (vfHeadID v) (vfHeadHash v) (entriesAfter (vfHeadID v) db) /\
  (vfHeadID v', vfHeadHash v') = headOf (vfHeadID v) (vfHeadHash v) (entriesAfter (vfHeadID v) db).
Proof.
  intros Hr. induction n as [|n IH]; intros v v' Hid Hok Hv Hok'; [done|]. cbn [replicate verifyLoop] in Hv.
  change (ListAuditEvents (pageFilter (vfHeadID v)) db) with (take (Z.to_nat walkBatch) (entriesAfter (vfHeadID v) db)) in Hv.
  set (l := entriesAfter (vfHeadID v) db) in *. set (page := take (Z.to_nat walkBatch) l) in *.
  pose proof (verifyPage_spec sha page v) as Hp. destruct (verifyPage sha page v) as [v1|v1].
  { injection Hv as ->. destruct Hp as [Hp _]. congruence. }
  destruct Hp as [Hc ->]. destruct (_ <? walkBatch) eqn:Hlast.
  - injection Hv as <-. cbn [verified vfHeadID vfHeadHash].
    assert (page = l) as -> by (apply take_ge; unfold page, walkBatch in *; rewrite length_take in Hlast; lia).
    split; [done|]. symmetry. apply surjective_pairing.
  - assert (Forall (λ e, 0 < vfHeadID v -> vfHeadID v < aeID e) l) as Hafter.
    { apply Forall_forall. intros e [He _]%list_elem_of_filter. rewrite match_after, Is_true_true in He. lia. }
    assert (ids page = seqZ (vfHeadID v + 1) (Z.of_nat (length page))) as Hids.
    { apply (chained_ids _ _ (vfHeadHash v)); [done|done| |].
      - assert (StronglySorted (λ x y, aeID x < aeID y) l) as HL by (apply sorted_filter, Hr).
        rewrite <- (take_drop (Z.to_nat walkBatch) l) in HL. by apply StronglySorted_app in HL as (_ & ? & _).
      - intros H0. apply Forall_take. eapply Forall_impl; [exact Hafter|]. auto. }
    destruct (last page) as [x|] eqn:Hx.
    2:{ apply last_None in Hx. rewrite Hx in Hlast. done. }
    assert (aeID x = vfHeadID v + Z.of_nat (length page)) as Hxid by (rewrite <- (ids_last _ _ Hids), Hx; done).
    assert (entriesAfter (aeID x) db = drop (Z.to_nat walkBatch) l) as Hnext.
    { apply (next_page noFilter); [apply Hr|done| |]; unfold walkBatch in *; lia. }
    assert (headOf (vfHeadID v) (vfHeadHash v) page = (aeID x, aeHash x)) as Hhead by (unfold headOf; by rewrite Hx).
    rewrite Hhead in Hv. cbn [fst snd default fmap option_fmap option_map] in Hv.
    set (v1 := mkVerification _ _ _ _ _ _ _ _ _) in Hv. change (aeID x) with (vfHeadID v1) in Hv.
    apply IH in Hv as [IH1 IH2]; [| |done|done].
    + unfold v1 in IH1, IH2. cbn [vfHeadID vfHeadHash] in IH1, IH2. rewrite Hnext in IH1, IH2.
      rewrite <- (take_drop (Z.to_nat walkBatch) l). fold page. rewrite headOf_app, Hhead. split; [|done].
      apply chained_app. by rewrite Hhead.
    + unfold v1. cbn [vfHeadID]. split; [unfold walkBatch in *; lia|].
      assert (x ∈ page) as Hin by (apply last_Some in Hx as (p & ->); apply elem_of_app; right; by left).
      clear -Hc Hin. revert Hc. generalize (vfHeadID v) (vfHeadHash v). induction page as [|e p IH]; intros a h Hc; [by apply elem_of_nil in Hin|].
      destruct Hc as (He & _ & Hc). apply elem_of_cons in Hin as [->|Hin]; [rewrite He; apply i64_range|by eapply IH].
Qed.

(** ** Exports *)

(** The filter without its page. *)
Definition selected (f : Filter) (db : AuditDB) : list Event :=
  filter (λ e, eventMatches (setPage 0 0 true walkBatch f) e) (adRows db).

Lemma exportPage_all fn l : (∀ e, e ∈ l -> fn e = false) -> exportPage fn l = (l, false).
Proof.
  induction l as [|e l IH]; intros Hf; [done|]. simpl. rewrite Hf by (by left). rewrite IH; [done|]. intros x Hx. apply Hf. by right.
Qed.

Lemma exportLoop_static f fn db n :
  StronglySorted (λ x y, aeID x < aeID y) (adRows db) -> Forall (λ e, 0 < aeID e) (adRows db) -> (∀ e, fn e = false) ->
  ∀ a, 0 <= a -> let l := filter (λ e, eventMatches (setPage 0 a true walkBatch f) e) (adRows db) in
  (length l < Z.to_nat walkBatch * n)%nat -> exportLoop f fn (replicate n (Some db)) a = Some (l, false).
Proof.
  intros Hs Hpos Hfn. induction n as [|n IH]; intros a Ha l Hl; [lia|]. cbn [replicate exportLoop].
  change (ListAuditEvents _ db) with (take (Z.to_nat walkBatch) l). set (page := take _ l). rewrite exportPage_all by (intros; apply Hfn).
  destruct (_ <? walkBatch) eqn:Hlast.
  - do 2 f_equal. apply take_ge. unfold page, walkBatch in *. rewrite length_take in Hlast. lia.
  - destruct (last page) as [x|] eqn:Hx; [|apply last_None in Hx; rewrite Hx in Hlast; done]. cbn [fmap option_fmap option_map from_option id].
    assert (x ∈ l) as [Hm Hin]%list_elem_of_filter.
    { apply last_Some in Hx as (p & Hp). rewrite <- (take_drop (Z.to_nat walkBatch) l). fold page. rewrite Hp. set_solver. }
    assert (0 < aeID x) as H0 by (rewrite Forall_forall in Hpos; by apply Hpos).
    assert (a <= aeID x) as Hle.
    { apply Is_true_true in Hm. rewrite eventMatches_page in Hm. apply andb_prop in Hm as [_ Hm]. clear -Hm H0. lia. }
    pose proof (next_page f a (Z.to_nat walkBatch) db x Hs Hx H0 Hle) as Hnext. cbv beta zeta in Hnext. fold l in Hnext.
    specialize (IH (aeID x) ltac:(lia)). cbv zeta in IH. rewrite Hnext in IH. rewrite IH.
    + cbn. unfold page. by rewrite take_drop.
    + rewrite length_drop. unfold page, walkBatch in *. rewrite length_take in Hlast. lia.
Qed.

(** An export is complete: on a log left by any run of appends and prunes, [Export]
    with a filter visits exactly the entries that match it, each once, oldest first, and
    ends without an error. *)
Theorem export_complete ops f fn n :
  Forall validOp ops -> Z.of_nat (length ops) < 2 ^ 63 - 1 -> checkFilter f = true -> (∀ e, fn e = false) ->
  let db := auditRun ops emptyAudit in (length (adRows db) < Z.to_nat walkBatch * n)%nat ->
  Export f fn (replicate n (Some db)) = Some (selected f db, false).
Proof.
  intros Hops Hn Hf Hfn db Hlen. unfold Export. rewrite Hf. cbn [negb].
  assert (AuditInv (Z.of_nat (length ops)) db) as Hi by (apply (auditRun_inv ops 0); [apply emptyAudit_inv|done|lia]).
  apply exportLoop_static; [| |done|done|].
  - pose proof (ai_ids _ _ Hi) as Hids. apply StronglySorted_ids with (arLastID (adAnchor db)). done.
  - pose proof (ids_below _ _ (ai_ids _ _ Hi)) as Hb. eapply Forall_impl; [exact Hb|]. pose proof (ai_anchor _ _ Hi). simpl. lia.
  - eapply Nat.le_lt_trans; [apply length_filter|done].
Qed.

(** The strings hashed along a chain. *)
Fixpoint inputs (h : string) (l : list Event) : list string :=
  match l with [] => [] | e :: l => (h +:+ Canonical e) :: inputs (aeHash e) l end.

(** No two different strings of the list have the same hash. *)
Definition noCollision (l : list string) : Prop := ∀ s t, s ∈ l -> t ∈ l -> sha s = sha t -> s = t.

Lemma inputs_snoc a h l e : inputs h (l ++ [e]) = inputs h l ++ [(headOf a h l).2 +:+ Canonical e].
Proof.
  revert a h. induction l as [|x l IH]; intros a h; [done|]. rewrite headOf_cons. simpl. f_equal. apply IH.
Qed.

Lemma head_length a h l : chained sha a h l -> String.length h = 64%nat -> String.length (headOf a h l).2 = 64%nat.
Proof.
  revert a h. induction l as [|x l IH]; intros a h Hc Hh; [done|]. destruct Hc as (_ & Hx & Hc). rewrite headOf_cons.
  apply IH; [done|]. rewrite Hx. apply sha_length.
Qed.

(** A chain with the same head is a suffix of the genuine one. *)
Lemma chain_unique a1 h1 a2 h2 l2 : ∀ l1,
  chained sha a1 h1 l1 -> chained sha a2 h2 l2 -> String.length h1 = 64%nat -> String.length h2 = 64%nat ->
  Forall validEvent l1 -> Forall (λ e, storable (aeTime e)) l2 -> (length l2 <= length l1)%nat ->
  (headOf a1 h1 l1).2 = (headOf a2 h2 l2).2 -> noCollision (inputs h1 l1 ++ inputs h2 l2) ->
  ∃ l0, l1 = l0 ++ l2 /\ (headOf a1 h1 l0).2 = h2.
Proof.
  induction l2 as [|x l2 IH] using rev_ind; intros l1 Hc1 Hc2 Hh1 Hh2 Hv Ht Hlen Hhead Hno.
  { exists l1. by rewrite app_nil_r. }
  destruct l1 as [|y l1 _] using rev_ind; [rewrite length_app in Hlen; simpl in Hlen; lia|].
  rewrite !length_app in Hlen. simpl in Hlen. unfold headOf in Hhead. rewrite !last_snoc in Hhead. simpl in Hhead.
  apply chained_app in Hc1 as [Hc1 (_ & Hy & _)]. apply chained_app in Hc2 as [Hc2 (_ & Hx & _)].
  apply Forall_app in Hv as [Hv [Hvy _]%Forall_cons_1]. apply Forall_app in Ht as [Ht [Htx _]%Forall_cons_1].
  rewrite (inputs_snoc a1), (inputs_snoc a2) in Hno. pose proof Hhead as Hsame. rewrite Hy, Hx in Hhead.
  apply Hno in Hhead; [|set_solver..].
  assert ((headOf a1 h1 l1).2 = (headOf a2 h2 l2).2 /\ Canonical y = Canonical x) as [Hprev Hcan].
  { apply str_app_inj; [|done]. apply (f_equal String.length) in Hhead. rewrite !str_length_app, !head_length in Hhead by done. lia. }
  pose proof (Canonical_inj y x Hvy Htx Hcan) as Heq. clear Hcan.
  assert (y = x) as -> by (rewrite <- Heq, <- Hsame; by destruct y).
  destruct (IH l1) as (l0 & -> & Hl0); [done|done|done|done|done|done|lia|done| |].
  - intros s t Hs Ht'. apply Hno; set_solver.
  - exists l0. by rewrite app_assoc.
Qed.

(** [C30] The log is tamper-evident. Take a genuine log, left by any sequence of appends and
    prunes, whose head (ID and hash) was noted elsewhere; and any table, however it was
    changed, whose anchor did not move back. If [Verify] accepts that table with the noted
    head, then its entries after its anchor are, field by field, the newest entries of the
    genuine log, none missing, added, reordered or changed, and the anchor holds the hash
    of the entry before them: short of a collision of SHA-256 among the strings hashed. *)
Theorem audit_tamper_evident now setting ops db' n v :
  Forall validOp ops -> Z.of_nat (length ops) < 2 ^ 63 - 1 -> let db := auditRun ops emptyAudit in
  readable db' -> arLastID (adAnchor db) <= arLastID (adAnchor db') ->
  Verify sha now setting (Some db') (replicate n (Some db')) = Some (Ok v) -> vfOK v = true ->
  (vfHeadID v, vfHeadHash v) = chainHead db ->
  noCollision (inputs (arLastHash (adAnchor db)) (adRows db) ++
               inputs (arLastHash (adAnchor db')) (entriesAfter (arLastID (adAnchor db')) db')) ->
  ∃ pruned, adRows db = pruned ++ entriesAfter (arLastID (adAnchor db')) db' /\
    arLastHash (adAnchor db') = (headOf (arLastID (adAnchor db)) (arLastHash (adAnchor db)) pruned).2.
Proof.
  intros Hops Hn db Hr Ha Hv Hok Hhead Hno.
  assert (AuditInv (Z.of_nat (length ops)) db) as Hi by (apply (auditRun_inv ops 0); [apply emptyAudit_inv|done|lia]).
  pose proof (ai_anchor _ _ Hi) as Ha0. pose proof (rd_anchor _ Hr) as Ha1. unfold Verify in Hv. cbn [AuditChainAnchor anLastID anLastHash] in Hv.
  set (v0 := mkVerification _ _ _ _ _ _ _ _ _) in Hv. change (arLastID (adAnchor db')) with (vfHeadID v0) in Hv.
  apply verifyLoop_chained in Hv as [Hc Hh]; [|done|simpl; lia|done|done]. cbn [v0 vfHeadID vfHeadHash] in Hc, Hh.
  set (l2 := entriesAfter (arLastID (adAnchor db')) db') in *. rewrite Hhead, chainHead_headOf in Hh.
  assert (ids l2 = seqZ (arLastID (adAnchor db') + 1) (Z.of_nat (length l2))) as Hids.
  { apply (chained_ids _ _ (arLastHash (adAnchor db'))); [lia|done|apply sorted_filter, Hr|].
    intros H0. apply Forall_forall. intros e [He _]%list_elem_of_filter. rewrite match_after, Is_true_true in He. lia. }
  destruct (chain_unique (arLastID (adAnchor db)) (arLastHash (adAnchor db)) (arLastID (adAnchor db')) (arLastHash (adAnchor db')) l2 (adRows db))
    as (l0 & H1 & H2); [apply Hi|done|apply Hi|apply Hr|apply Hi| | |by rewrite Hh|done|].
  - apply Forall_forall. intros e [_ He]%list_elem_of_filter. pose proof (rd_times _ Hr) as Ht. rewrite Forall_forall in Ht. by apply Ht.
  - apply (f_equal fst) in Hh. rewrite !headOf_ids in Hh by (done || apply Hi). lia.
  - by exists l0.
Qed.
End Chain.
