(* ===== verification/AuditService.v ===== *)
(** * The audit service (src/internal/auditlog/auditlog.go, coalesce.go)

    [Record] with the normalisation of entries, the windows that count repeated refusals,
    the write queue, retention, pages and exports. *)

From Stdlib Require Import ZifyBool.
From S2P Require Import Prelude Calendar Glob Json AuditLog AuditChain.

(** ** Normalisation *)

Definition ActorUser : string := "user".
Definition ActorAPIKey : string := "api_key".
Definition ActorSystem : string := "system".
Definition ActorAnonymous : string := "anonymous".

Definition OutcomeOK : string := "ok".
Definition OutcomeError : string := "error".
Definition OutcomeDenied : string := "denied".
Definition OutcomeRateLimited : string := "rate_limited".

Definition CoalesceWindow : Z := 10 * second.
Definition MaxUserAgentLength : nat := 256.
Definition maxNameLength : nat := 128.
Definition maxActionLength : nat := 256.
Definition maxTargets : nat := 16.
Definition maxTargetKeyLength : nat := 64.
Definition maxTargetValueLength : nat := 256.
Definition maxIPLength : nat := 64.
Definition maxCoalesceKeys : nat := 4096.
Definition MaxSummaryNames : nat := 10.
Definition maxSummaryNameLength : nat := 64.

Definition OutcomeFor (status : Z) : string :=
  if (status =? 401) || (status =? 403) then OutcomeDenied
  else if status =? 429 then OutcomeRateLimited
  else if status >=? 400 then OutcomeError
  else OutcomeOK.

(** [clean]: valid UTF-8 without control characters and U+2028, U+2029, of at most [n]
    bytes. *)
Definition clean (s : string) (n : nat) : string :=
  let s := ToValidUTF8 s "?" in
  let s := dropRunes (λ r, IsControl r || (r =? 8232) || (r =? 8233)) s in
  if Nat.leb (String.length s) n then s else takeBytes (cutBack s n) s.

(** The loop over the sorted keys of the targets. *)
Definition cleanTarget (t : gmap string string) (kv : string * string) : gmap string string :=
  let ck := clean kv.1 maxTargetKeyLength in
  if bool_decide (ck = "") || Nat.leb maxTargets (size t) then t
  else <[ck := clean kv.2 maxTargetValueLength]> t.

Definition normalize (e : Event) : Event :=
  let kind := clean (aeActorKind e) maxNameLength in
  mkEvent 0 (aeTime e)
    (if bool_decide (kind ∈ [ActorUser; ActorAPIKey; ActorSystem; ActorAnonymous]) then kind else ActorAnonymous)
    (clean (aeActorUserID e) maxNameLength) (clean (aeActorName e) maxNameLength)
    (clean (aeActorKeyID e) maxNameLength) (clean (aeActorKeyName e) maxNameLength)
    (clean (aeAction e) maxActionLength)
    (foldl cleanTarget ∅ (sortedEntries (aeTargets e)))
    (aeStatus e)
    (clean (if bool_decide (aeOutcome e = "") then OutcomeFor (aeStatus e) else aeOutcome e) maxNameLength)
    (clean (aeClientIP e) maxIPLength) (clean (aeUserAgent e) MaxUserAgentLength)
    (Z.max (aeCount e) 1) "".

(** ** Windows of refusals *)

Definition TargetCoalescedFrom : string := "coalesced_from".
Definition TargetCoalescedUntil : string := "coalesced_until".
Definition TargetNamePrefix : string := "name_".
Definition TargetNamesMore : string := "names_more".
Definition TargetReason : string := "reason".

Record window : Type := mkWindow {
  wnFirst : Event;
  wnSince : Z;
  wnLast : Z;
  wnSuppressed : Z;
  wnNames : list string;
  wnMoreNames : Z
}.

Definition isRefusal (e : Event) : bool :=
  bool_decide (aeOutcome e = OutcomeDenied) || bool_decide (aeOutcome e = OutcomeRateLimited).

Definition joinNUL (l : list string) : string :=
  match l with [] => "" | s :: l => foldl (λ acc s, acc +:+ String (chr 0) s) s l end.

Definition reasonOf (e : Event) : string := default "" (aeTargets e !! TargetReason).

Definition refusalKey (e : Event) : string :=
  let name := if bool_decide (aeActorKind e = ActorAnonymous) then "" else aeActorName e in
  joinNUL [aeActorKind e; aeActorUserID e; name; aeActorKeyID e; aeClientIP e; aeAction e; aeOutcome e;
           pretty (aeStatus e); reasonOf e].

(** [window.add]. *)
Definition addRefusal (e : Event) (w : window) : window :=
  let last := if aeTime e >? wnLast w then aeTime e else wnLast w in
  let w := mkWindow (wnFirst w) (wnSince w) last (i64 (wnSuppressed w + aeCount e)) (wnNames w) (wnMoreNames w) in
  if negb (bool_decide (aeActorKind e = ActorAnonymous)) || bool_decide (aeActorName e = "") then w
  else
    let name := clean (aeActorName e) maxSummaryNameLength in
    if bool_decide (name ∈ wnNames w) then w
    else if Nat.ltb (length (wnNames w)) MaxSummaryNames
    then mkWindow (wnFirst w) (wnSince w) (wnLast w) (wnSuppressed w) (wnNames w ++ [name]) (wnMoreNames w)
    else mkWindow (wnFirst w) (wnSince w) (wnLast w) (wnSuppressed w) (wnNames w) (i64 (wnMoreNames w + 1)).

(** The targets of a summary. *)
Definition summaryTargets (w : window) : gmap string string :=
  let t := <[TargetCoalescedUntil := FormatTime (wnLast w)]> (<[TargetCoalescedFrom := FormatTime (wnSince w)]> ∅) in
  let t := if bool_decide (reasonOf (wnFirst w) = "") then t else <[TargetReason := reasonOf (wnFirst w)]> t in
  if bool_decide (aeActorKind (wnFirst w) = ActorAnonymous) then
    let t := foldl (λ t ni, <[TargetNamePrefix +:+ pretty (Z.of_nat (S ni.1)) := ni.2]> t) t (imap pair (wnNames w)) in
    if wnMoreNames w >? 0 then <[TargetNamesMore := pretty (wnMoreNames w)]> t else t
  else t.

Definition summary (w : window) : option Event :=
  if wnSuppressed w =? 0 then None
  else
    let e := wnFirst w in
    Some (normalize (mkEvent (aeID e) (wnLast w) (aeActorKind e) (aeActorUserID e)
      (if bool_decide (aeActorKind e = ActorAnonymous) then "" else aeActorName e)
      (aeActorKeyID e) (aeActorKeyName e) (aeAction e) (summaryTargets w) (aeStatus e) (aeOutcome e) (aeClientIP e)
      (aeUserAgent e) (wnSuppressed w) (aeHash e))).

Definition timeCmp (a b : Event) : comparison := aeTime a ?= aeTime b.

(** [takeWindows]: the windows left and the summaries, oldest first. *)
Definition takeWindows (closed : window -> bool) (ws : gmap string window) : gmap string window * list Event :=
  (filter (λ kw, negb (closed kw.2)) ws,
   stable_sort (cmpLess timeCmp) (omap (λ kw, if closed kw.2 : bool then summary kw.2 else None) (map_to_list ws))).

(** ** The service *)

(** The service with its table; [asStored], [asFailed] and [asForwarded] are the entries
    appended, those whose append failed and those given to the forwarder, in order. *)
Record ASvc : Type := mkASvc {
  asWindows : gmap string window;
  asQueue : list Event;
  asRunning : bool;
  asDB : AuditDB;
  asStored : list Event;
  asFailed : list Event;
  asForwarded : list Event;
  asCalls : nat
}.

Definition newASvc : ASvc := mkASvc ∅ [] false emptyAudit [] [] [] 0.

Section Service.
Context (sha : string -> string).
(** Whether the [n]-th call to the database succeeds; the capacity of the queue. *)
Context (dbOK : nat -> bool) (queueSize : nat).

(** [write]. *)
Definition writeEvent (e : Event) (s : ASvc) : ASvc :=
  let calls := S (asCalls s) in
  let failed := mkASvc (asWindows s) (asQueue s) (asRunning s) (asDB s) (asStored s) (asFailed s ++ [e]) (asForwarded s) calls in
  if negb (dbOK (asCalls s)) then failed
  else match AppendAuditEvent sha e (asDB s) with
  | (db, Ok e') => mkASvc (asWindows s) (asQueue s) (asRunning s) db (asStored s ++ [e']) (asFailed s) (asForwarded s ++ [e']) calls
  | (_, Err _) => failed
  end.

Definition submit (e : Event) (s : ASvc) : ASvc :=
  if asRunning s && Nat.ltb (length (asQueue s)) queueSize
  then mkASvc (asWindows s) (asQueue s ++ [e]) (asRunning s) (asDB s) (asStored s) (asFailed s) (asForwarded s) (asCalls s)
  else writeEvent e s.

Definition submitAll (l : list Event) (s : ASvc) : ASvc := foldl (λ s e, submit e s) s l.

Definition setWindows (ws : gmap string window) (s : ASvc) : ASvc :=
  mkASvc ws (asQueue s) (asRunning s) (asDB s) (asStored s) (asFailed s) (asForwarded s) (asCalls s).

(** [coalesce]: whether the entry was counted into a window. *)
Definition coalesce (e : Event) (s : ASvc) : ASvc * bool :=
  if negb (isRefusal e) then (s, false)
  else
    let key := refusalKey e in
    let fresh := mkWindow e (aeTime e) (aeTime e) 0 [] 0 in
    let open := λ ws flush,
      let '(ws, more) := if Nat.leb maxCoalesceKeys (size ws) then takeWindows (λ _, true) ws else (ws, []) in
      (submitAll (flush ++ more) (setWindows (<[key := fresh]> ws) s), false) in
    match asWindows s !! key with
    | Some w =>
        if negb (aeTime e <? wnSince w) && (time_sub (aeTime e) (wnSince w) <? CoalesceWindow)
        then (setWindows (<[key := addRefusal e w]> (asWindows s)) s, true)
        else open (delete key (asWindows s)) (match summary w with Some x => [x] | None => [] end)
    | None => open (asWindows s) []
    end.

(** [Record]; [now] is the clock, [client] the address and user agent of the context. *)
Definition withClient (now : Z) (client : option (string * string)) (e : Event) : Event :=
  let t := if IsZero (aeTime e) then now else aeTime e in
  let ip := match client with Some c => if bool_decide (aeClientIP e = "") then c.1 else aeClientIP e | None => aeClientIP e end in
  let ua := match client with Some c => if bool_decide (aeUserAgent e = "") then c.2 else aeUserAgent e | None => aeUserAgent e end in
  mkEvent (aeID e) t (aeActorKind e) (aeActorUserID e) (aeActorName e) (aeActorKeyID e) (aeActorKeyName e) (aeAction e)
    (aeTargets e) (aeStatus e) (aeOutcome e) ip ua (aeCount e) (aeHash e).

Definition RecordEvent (now : Z) (client : option (string * string)) (e : Event) (s : ASvc) : ASvc :=
  let e := normalize (withClient now client e) in
  let '(s, counted) := coalesce e s in
  if counted : bool then s else submit e s.

Definition flushRefusals (now : Z) (all : bool) (s : ASvc) : ASvc :=
  let '(ws, out) := takeWindows (λ w, all || (time_sub now (wnSince w) >=? CoalesceWindow) || (now <? wnSince w)) (asWindows s) in
  submitAll out (setWindows ws s).

Definition PruneAction : string := "SYSTEM audit.prune".

(** The part of [Prune] on the table; the entry to record when entries were removed. [now]
    is the service's clock, [dbNow] the repository's. *)
Definition pruneTable (now dbNow : Z) (setting : option Z) (s : ASvc) : ASvc * option Event :=
  let n := asCalls s in
  let s := mkASvc (asWindows s) (asQueue s) (asRunning s) (asDB s) (asStored s) (asFailed s) (asForwarded s) (S n) in
  if negb (dbOK n) then (s, None)
  else match PruneAuditEvents (now - retentionDays setting * day) dbNow (asDB s) with
  | (db, Ok removed) =>
      let s := mkASvc (asWindows s) (asQueue s) (asRunning s) db (asStored s) (asFailed s) (asForwarded s) (S (S n)) in
      if removed =? 0 then (s, None)
      else
        let targets := <["removed" := pretty removed]> ∅ in
        let targets := if dbOK (S n)
          then <["anchor_hash" := arLastHash (adAnchor db)]> (<["anchor_id" := pretty (arLastID (adAnchor db))]> targets)
          else targets in
        (s, Some (mkEvent 0 0 ActorSystem "" "retention" "" "" PruneAction targets 0 OutcomeOK "" "" 0 ""))
  | (_, Err _) => (s, None)
  end.

(** [Prune]: the entries older than the retention go, and an entry says so. *)
Definition Prune (now dbNow recNow : Z) (setting : option Z) (s : ASvc) : ASvc :=
  match pruneTable now dbNow setting s with
  | (s, Some e) => RecordEvent recNow None e s
  | (s, None) => s
  end.

(** The steps of [Run] and of its callers. The end of [Run] is [SFlush] of all windows,
    [SClose] and a write of every queued entry. *)
Inductive AStep : Type :=
| SRecord (now : Z) (client : option (string * string)) (e : Event)
| SFlush (now : Z) (all : bool)
| SStart
| SClose
| SWrite
| SPrune (now dbNow recNow : Z) (setting : option Z).

Definition setRunning (b : bool) (s : ASvc) : ASvc :=
  mkASvc (asWindows s) (asQueue s) b (asDB s) (asStored s) (asFailed s) (asForwarded s) (asCalls s).

Definition auditStep (x : AStep) (s : ASvc) : ASvc :=
  match x with
  | SRecord now client e => RecordEvent now client e s
  | SFlush now all => flushRefusals now all s
  | SStart => setRunning true s
  | SClose => setRunning false s
  | SWrite =>
      match asQueue s with
      | [] => s
      | e :: q => writeEvent e (mkASvc (asWindows s) q (asRunning s) (asDB s) (asStored s) (asFailed s) (asForwarded s) (asCalls s))
      end
  | SPrune now dbNow recNow setting => Prune now dbNow recNow setting s
  end.

Definition auditSteps (l : list AStep) (s : ASvc) : ASvc := foldl (λ s x, auditStep x s) s l.
End Service.

(** ** Entries handed to the repository are valid *)

Lemma clean_valid s n : validUTF8 (clean s n) = true.
Proof.
  unfold clean. assert (seq "?") as Hq by (by apply seq1).
  pose proof (dropRunes_valid (λ r, IsControl r || (r =? 8232) || (r =? 8233)) _ (ToValidUTF8_valid s "?" Hq)) as Hv.
  destruct (Nat.leb _ n); [done|]. by apply cut_valid.
Qed.

Lemma clean_length s n : (String.length (clean s n) <= n)%nat.
Proof.
  unfold clean. destruct (Nat.leb _ n) eqn:E; [by apply Nat.leb_le|]. etrans; [apply takeBytes_length|apply cutBack_le].
Qed.

Lemma cleanTarget_valid l t : validMap t -> validMap (foldl cleanTarget t l).
Proof.
  revert t. induction l as [|kv l IH]; intros t Ht; [done|]. cbn [foldl]. apply IH. unfold cleanTarget.
  destruct (_ || _); [done|]. apply map_Forall_insert_2; [split; apply clean_valid|done].
Qed.

Lemma normalize_valid e : storable (aeTime e) -> validEvent (normalize e).
Proof.
  intros Ht. constructor; [done| |apply cleanTarget_valid, map_Forall_empty].
  repeat (constructor; [first [apply clean_valid|unfold normalize; cbn [aeActorKind]; case_bool_decide; [apply clean_valid|done]]|]).
  constructor.
Qed.

Section Refinement.
Context (sha : string -> string) (dbOK : nat -> bool) (queueSize : nat).

(** The times of a service: the queue and the windows hold times the table can store. *)
Record ServiceInv (s : ASvc) : Prop := mkServiceInv {
  si_queue : Forall validEvent (asQueue s);
  si_windows : map_Forall (λ _ w, storable (wnLast w)) (asWindows s);
  si_table : ∃ ops, Forall validOp ops /\ (length ops <= asCalls s)%nat /\ asDB s = auditRun sha ops emptyAudit
}.

Lemma auditRun_snoc ops o db : auditRun sha (ops ++ [o]) db = auditApply sha o (auditRun sha ops db).
Proof. unfold auditRun. by rewrite foldl_app. Qed.

Lemma writeEvent_inv e s : validEvent e -> ServiceInv s -> ServiceInv (writeEvent sha dbOK e s).
Proof.
  intros He [Hq Hw (ops & Hops & Hlen & Hdb)]. unfold writeEvent.
  destruct (negb _); [constructor; [done..|]; exists ops; simpl; split_and!; [done|lia|done]|].
  destruct (AppendAuditEvent sha e (asDB s)) as [db [e'|]] eqn:Ha; constructor; try done; simpl.
  - exists (ops ++ [AAppend e]). split_and!; [by apply Forall_app_2; [|constructor]|rewrite length_app; simpl; lia|].
    rewrite auditRun_snoc, <- Hdb. simpl. by rewrite Ha.
  - exists ops. split_and!; [done|lia|done].
Qed.

Lemma submit_inv e s : validEvent e -> ServiceInv s -> ServiceInv (submit sha dbOK queueSize e s).
Proof.
  intros He Hs. unfold submit. destruct (_ && _); [|by apply writeEvent_inv]. destruct Hs.
  constructor; simpl; [|done..]. by apply Forall_app_2; [|constructor].
Qed.

Lemma submitAll_inv l s : Forall validEvent l -> ServiceInv s -> ServiceInv (submitAll sha dbOK queueSize l s).
Proof. intros Hl. revert s. induction Hl as [|e l He _ IH]; intros s Hs; [done|]. by apply IH, submit_inv. Qed.

Lemma summary_valid w e : storable (wnLast w) -> summary w = Some e -> validEvent e.
Proof. intros Hw. unfold summary. destruct (_ =? _); [done|]. intros [= <-]. by apply normalize_valid. Qed.

Lemma takeWindows_valid closed ws ws' out :
  map_Forall (λ _ w, storable (wnLast w)) ws -> takeWindows closed ws = (ws', out) ->
  map_Forall (λ _ w, storable (wnLast w)) ws' /\ Forall validEvent out.
Proof.
  intros Hw [= <- <-]. split.
  - intros k w [Hk _]%map_lookup_filter_Some. by eapply Hw.
  - apply Forall_forall. intros e He%elem_of_stable_sort. apply list_elem_of_omap in He as ([k w] & Hk%elem_of_map_to_list & Hs).
    simpl in Hs. destruct (closed w); [|done]. eapply summary_valid; [|done]. by eapply Hw.
Qed.

Lemma setWindows_inv ws s : map_Forall (λ _ w, storable (wnLast w)) ws -> ServiceInv s -> ServiceInv (setWindows ws s).
Proof. intros Hw []. by constructor. Qed.

Lemma coalesce_inv e s : validEvent e -> ServiceInv s -> ServiceInv (coalesce sha dbOK queueSize e s).1.
Proof.
  intros He Hs. pose proof (si_windows _ Hs) as Hw. unfold coalesce. destruct (negb _); [done|].
  set (fresh := mkWindow e _ _ _ _ _). assert (storable (wnLast fresh)) as Hf by apply He.
  assert (∀ ws flush, map_Forall (λ _ w, storable (wnLast w)) ws -> Forall validEvent flush ->
    ServiceInv (let '(ws, more) := if Nat.leb maxCoalesceKeys (size ws) then takeWindows (λ _, true) ws else (ws, []) in
      (submitAll sha dbOK queueSize (flush ++ more) (setWindows (<[refusalKey e := fresh]> ws) s), false)).1) as Hopen.
  { intros ws flush Hws Hfl. destruct (if Nat.leb maxCoalesceKeys (size ws) then _ else _) as [ws' more] eqn:E.
    assert (map_Forall (λ _ w, storable (wnLast w)) ws' /\ Forall validEvent more) as [Hws' Hmore].
    { destruct (Nat.leb _ _); [by eapply takeWindows_valid|]. by injection E as <- <-. }
    apply submitAll_inv; [by apply Forall_app|]. apply setWindows_inv; [|done]. by apply map_Forall_insert_2. }
  destruct (asWindows s !! refusalKey e) as [w|] eqn:Hk; [|by apply Hopen].
  pose proof (Hw _ _ Hk) as Hlast. simpl in Hlast. destruct (_ && _).
  - apply setWindows_inv; [|done]. apply map_Forall_insert_2; [|done]. unfold addRefusal.
    repeat (case_match; simpl); first [apply He|done].
  - apply Hopen; [by apply map_Forall_delete|]. destruct (summary w) eqn:Hsum; [|done]. constructor; [|done]. by eapply summary_valid.
Qed.

Lemma RecordEvent_inv now client e s :
  storable (if IsZero (aeTime e) then now else aeTime e) -> ServiceInv s ->
  ServiceInv (RecordEvent sha dbOK queueSize now client e s).
Proof.
  intros Ht Hs. unfold RecordEvent. assert (validEvent (normalize (withClient now client e))) as He by (by apply normalize_valid).
  pose proof (coalesce_inv _ s He Hs) as Hc. destruct (coalesce _ _ _ _ s) as [s' []]; [done|]. by apply submit_inv.
Qed.

(** The times a step brings. *)
Definition stepTimes (x : AStep) : Prop :=
  match x with
  | SRecord now _ e => storable (if IsZero (aeTime e) then now else aeTime e)
  | SPrune _ _ recNow _ => storable recNow
  | _ => True
  end.

Lemma auditStep_inv x s : stepTimes x -> ServiceInv s -> ServiceInv (auditStep sha dbOK queueSize x s).
Proof.
  intros Hx Hs. destruct x as [now client e|now all| | | |now dbNow recNow setting]; cbn [auditStep].
  - by apply RecordEvent_inv.
  - unfold flushRefusals. destruct (takeWindows _ _) as [ws out] eqn:E.
    destruct (takeWindows_valid _ _ _ _ (si_windows _ Hs) E) as [Hw Ho]. by apply submitAll_inv; [|apply setWindows_inv].
  - destruct Hs. by constructor.
  - destruct Hs. by constructor.
  - destruct (asQueue s) as [|e q] eqn:Hq; [done|]. destruct Hs as [Hqu Hw Ht]. rewrite Hq in Hqu.
    apply Forall_cons_1 in Hqu as [He Hqu]. apply writeEvent_inv; [done|]. by constructor.
  - unfold Prune. assert (ServiceInv (pruneTable dbOK now dbNow setting s).1) as Hp.
    { destruct Hs as [Hq Hw (ops & Hops & Hlen & Hdb)]. unfold pruneTable.
      destruct (negb _); [constructor; [done..|]; exists ops; simpl; split_and!; [done|lia|done]|].
      cbn [asDB]. destruct (PruneAuditEvents _ dbNow (asDB s)) as [db [n|]] eqn:E.
      - assert (∃ ops, Forall validOp ops /\ (length ops <= S (S (asCalls s)))%nat /\ db = auditRun sha ops emptyAudit) as Htab.
        { eexists (ops ++ [APrune _ dbNow]). split_and!; [by apply Forall_app_2; [|constructor]|rewrite length_app; simpl; lia|].
          rewrite auditRun_snoc, <- Hdb. simpl. by rewrite E. }
        destruct (n =? 0); by constructor.
      - constructor; [done..|]. exists ops. simpl. split_and!; [done|lia|done]. }
    destruct (pruneTable _ _ _ _ s) as [s' [e|]] eqn:E; [|done].
    apply RecordEvent_inv; [|done]. assert (aeTime e = 0) as ->; [|done]. unfold pruneTable in E.
    repeat (case_match; simplify_eq/=); done.
Qed.
End Refinement.

(** The service refines the repository: whatever is recorded, coalesced, queued,
    flushed or pruned, and whichever database calls fail, the table is the result of a run
    of appends and prunes in which every appended entry is valid (UTF-8 without control
    characters, a time the table stores exactly), at most one per database call. So every
    log the service leaves has the properties proved of such runs. *)
Theorem audit_service_refines sha dbOK queueSize steps :
  Forall stepTimes steps ->
  ∃ ops, Forall validOp ops /\ (length ops <= asCalls (auditSteps sha dbOK queueSize steps newASvc))%nat /\
    asDB (auditSteps sha dbOK queueSize steps newASvc) = auditRun sha ops emptyAudit.
Proof.
  intros Hsteps. enough (∀ s, ServiceInv sha s -> ServiceInv sha (auditSteps sha dbOK queueSize steps s)) as H.
  { apply H. constructor; [constructor|apply map_Forall_empty|]. by exists []. }
  induction Hsteps as [|x steps Hx _ IH]; intros s Hs; [done|]. apply IH. by apply auditStep_inv.
Qed.

(** ** No refusal is lost *)

Definition sumZ (l : list Z) : Z := foldr Z.add 0 l.

Lemma sumZ_cons x l : sumZ (x :: l) = x + sumZ l.
Proof. done. Qed.

Lemma sumZ_app l1 l2 : sumZ (l1 ++ l2) = sumZ l1 + sumZ l2.
Proof. induction l1 as [|x l IH]; simpl; [lia|]. unfold sumZ in *. lia. Qed.

Lemma sumZ_perm l1 l2 : l1 ≡ₚ l2 -> sumZ l1 = sumZ l2.
Proof. unfold sumZ. induction 1; simpl; lia. Qed.

Definition counts (l : list Event) : Z := sumZ (aeCount <$> l).
Definition pending (ws : gmap string window) : Z := sumZ (wnSuppressed <$> (map_to_list ws).*2).

(** The actions stored, failed, queued and counted in windows. *)
Definition accounted (s : ASvc) : Z := counts (asStored s) + counts (asFailed s) + counts (asQueue s) + pending (asWindows s).

Lemma counts_snoc l e : counts (l ++ [e]) = counts l + aeCount e.
Proof. unfold counts. rewrite fmap_app, sumZ_app. simpl. unfold sumZ. simpl. lia. Qed.

Lemma counts_cons e l : counts (e :: l) = aeCount e + counts l.
Proof. done. Qed.

Lemma pending_insert k w ws : ws !! k = None -> pending (<[k := w]> ws) = pending ws + wnSuppressed w.
Proof.
  intros Hk. unfold pending. rewrite (sumZ_perm _ (wnSuppressed <$> ((k, w) :: map_to_list ws).*2)) by (by rewrite map_to_list_insert).
  rewrite !fmap_cons, sumZ_cons. apply Z.add_comm.
Qed.

Lemma pending_delete k w ws : ws !! k = Some w -> pending ws = pending (delete k ws) + wnSuppressed w.
Proof. intros Hk. rewrite <- (insert_delete_id ws k w Hk) at 1. by rewrite pending_insert by (by apply lookup_delete_eq). Qed.

Lemma pending_replace k w w' ws : ws !! k = Some w -> pending (<[k := w']> ws) = pending ws - wnSuppressed w + wnSuppressed w'.
Proof.
  intros Hk. rewrite (pending_delete k w ws Hk), <- insert_delete_eq, pending_insert by (by apply lookup_delete_eq). lia.
Qed.

Lemma summary_count w : 0 <= wnSuppressed w -> match summary w with Some e => aeCount e = wnSuppressed w | None => wnSuppressed w = 0 end.
Proof. intros Hw. unfold summary. destruct (wnSuppressed w =? 0) eqn:E; [lia|]. simpl. lia. Qed.

Definition counted (ws : gmap string window) : Prop := map_Forall (λ _ w, 0 <= wnSuppressed w) ws.

Lemma takeWindows_pending closed ws ws' out :
  counted ws -> takeWindows closed ws = (ws', out) -> pending ws = pending ws' + counts out.
Proof.
  intros Hw [= <- <-]. unfold counts. rewrite (sumZ_perm (aeCount <$> stable_sort _ _) _ (fmap_Permutation _ _ _ (stable_sort_Permutation _ _))).
  revert Hw. induction ws as [|k w m Hk IH] using map_ind; intros Hw; [done|]. apply map_Forall_insert in Hw as [H0 Hw]; [|done].
  specialize (IH Hw). rewrite pending_insert by done.
  rewrite (sumZ_perm (aeCount <$> omap _ (map_to_list (<[k:=w]> m)))
    (aeCount <$> omap (λ kw, if closed kw.2 then summary kw.2 else None) ((k, w) :: map_to_list m))) by (by rewrite map_to_list_insert).
  cbn [omap list_omap fst snd]. rewrite IH. pose proof (summary_count w H0) as Hs. destruct (closed w) eqn:Hc.
  - rewrite map_filter_insert_False by (cbn [snd]; rewrite Is_true_true; by rewrite Hc). rewrite map_filter_delete, delete_id by (apply map_lookup_filter_None; by left).
    destruct (summary w); [|lia]. rewrite fmap_cons, sumZ_cons. lia.
  - rewrite map_filter_insert_True by (cbn [snd]; apply Is_true_true; by rewrite Hc). rewrite pending_insert by (apply map_lookup_filter_None; by left). lia.
Qed.

Lemma takeWindows_counted closed ws : counted ws -> counted (takeWindows closed ws).1.
Proof. intros Hw k w [Hk _]%map_lookup_filter_Some. by eapply Hw. Qed.

Section Counting.
Context (sha : string -> string) (dbOK : nat -> bool) (queueSize : nat).

Lemma writeEvent_accounted e s : accounted (writeEvent sha dbOK e s) = accounted s + aeCount e /\ asWindows (writeEvent sha dbOK e s) = asWindows s.
Proof.
  unfold writeEvent, accounted. destruct (negb _); simpl; [rewrite counts_snoc; split; [lia|done]|].
  destruct (AppendAuditEvent sha e (asDB s)) as [db [e'|]] eqn:E; simpl; rewrite counts_snoc; split; try done; try lia.
  assert (aeCount e' = aeCount e) as ->; [|lia]. unfold AppendAuditEvent in E. destruct (chainHead (asDB s)).
  destruct (insertRow _ _); by simplify_eq/=.
Qed.

Lemma submit_accounted e s : accounted (submit sha dbOK queueSize e s) = accounted s + aeCount e /\ asWindows (submit sha dbOK queueSize e s) = asWindows s.
Proof.
  unfold submit. destruct (_ && _); [|apply writeEvent_accounted]. unfold accounted. simpl. rewrite counts_snoc. split; [lia|done].
Qed.

Lemma submitAll_accounted l s : accounted (submitAll sha dbOK queueSize l s) = accounted s + counts l /\ asWindows (submitAll sha dbOK queueSize l s) = asWindows s.
Proof.
  revert s. induction l as [|e l IH]; intros s; [unfold counts, sumZ; simpl; split; [lia|done]|].
  cbn [submitAll foldl]. destruct (IH (submit sha dbOK queueSize e s)) as [H1 H2]. destruct (submit_accounted e s) as [H3 H4].
  unfold submitAll in H1, H2. rewrite H1, H2, H3, H4, counts_cons. split; [lia|done].
Qed.

Lemma setWindows_accounted ws s : accounted (setWindows ws s) = accounted s - pending (asWindows s) + pending ws.
Proof. unfold accounted. simpl. lia. Qed.

(** What the windows count is never negative, nor what the entries stand for. *)
Record CountInv (s : ASvc) : Prop := mkCountInv {
  ci_windows : counted (asWindows s);
  ci_entries : Forall (λ e, 0 <= aeCount e) (asStored s ++ asFailed s ++ asQueue s)
}.

Lemma counts_nonneg l : Forall (λ e, 0 <= aeCount e) l -> 0 <= counts l.
Proof. induction 1 as [|e l He _ IH]; [done|]. rewrite counts_cons. lia. Qed.

Lemma entries_nonneg s : CountInv s -> 0 <= counts (asStored s) + counts (asFailed s) + counts (asQueue s).
Proof. intros [_ He]. apply counts_nonneg in He. unfold counts in *. rewrite !fmap_app, !sumZ_app in He. lia. Qed.

Lemma writeEvent_entries e s : 0 <= aeCount e -> Forall (λ e, 0 <= aeCount e) (asStored s ++ asFailed s ++ asQueue s) ->
  let s' := writeEvent sha dbOK e s in Forall (λ e, 0 <= aeCount e) (asStored s' ++ asFailed s' ++ asQueue s').
Proof.
  intros He. rewrite !Forall_app. intros (H1 & H2 & H3). unfold writeEvent.
  assert (Forall (λ e, 0 <= aeCount e) (asFailed s ++ [e])) as Hf by (apply Forall_app_2; [done|by constructor]).
  destruct (negb _); [simpl; by rewrite !Forall_app in *|].
  destruct (AppendAuditEvent sha e (asDB s)) as [db [e'|]] eqn:E; [|simpl; by rewrite !Forall_app in *].
  simpl. rewrite !Forall_app. split_and!; [done| |done|done]. constructor; [|done].
  unfold AppendAuditEvent in E. destruct (chainHead (asDB s)). destruct (insertRow _ _); by simplify_eq/=.
Qed.

Lemma submitAll_entries l s : Forall (λ e, 0 <= aeCount e) l -> Forall (λ e, 0 <= aeCount e) (asStored s ++ asFailed s ++ asQueue s) ->
  let s' := submitAll sha dbOK queueSize l s in Forall (λ e, 0 <= aeCount e) (asStored s' ++ asFailed s' ++ asQueue s').
Proof.
  intros Hl. revert s. induction Hl as [|e l He _ IH]; intros s Hs; [done|]. apply IH. unfold submit.
  destruct (_ && _); [|by apply writeEvent_entries]. simpl. rewrite !app_assoc. apply Forall_app_2; [by rewrite <- app_assoc|by constructor].
Qed.

Lemma summary_nonneg w e : summary w = Some e -> 0 <= aeCount e.
Proof. unfold summary. destruct (_ =? _); [done|]. intros [= <-]. simpl. lia. Qed.

Lemma takeWindows_nonneg closed ws : Forall (λ e, 0 <= aeCount e) (takeWindows closed ws).2.
Proof.
  apply Forall_forall. intros e He%elem_of_stable_sort. apply list_elem_of_omap in He as ([k w] & _ & Hs). simpl in Hs.
  destruct (closed w); [by eapply summary_nonneg|done].
Qed.

Lemma pending_nonneg ws : counted ws -> 0 <= pending ws.
Proof.
  induction ws as [|k w m Hk IH] using map_ind; intros Hw; [done|]. apply map_Forall_insert in Hw as [H0 Hw]; [|done].
  rewrite pending_insert by done. specialize (IH Hw). lia.
Qed.

Lemma addRefusal_suppressed e w : wnSuppressed (addRefusal e w) = i64 (wnSuppressed w + aeCount e).
Proof. unfold addRefusal. by repeat (case_match; simpl). Qed.

(** [coalesce] counts an entry once, or leaves it to be stored. *)
Lemma coalesce_accounted e s : CountInv s -> 0 <= aeCount e -> accounted s + aeCount e < 2 ^ 63 ->
  let r := coalesce sha dbOK queueSize e s in
  accounted r.1 = accounted s + (if r.2 then aeCount e else 0) /\ CountInv r.1.
Proof.
  intros Hi He Hb. pose proof (entries_nonneg _ Hi) as He0. destruct Hi as [Hw Hent]. unfold coalesce. destruct (negb _); [simpl; split; [lia|by constructor]|].
  set (fresh := mkWindow e _ _ _ _ _).
  assert (∀ ws flush, counted ws -> pending ws + counts flush = pending (asWindows s) -> ws !! refusalKey e = None ->
    Forall (λ e, 0 <= aeCount e) flush ->
    let r := (let '(ws, more) := if Nat.leb maxCoalesceKeys (size ws) then takeWindows (λ _, true) ws else (ws, []) in
      (submitAll sha dbOK queueSize (flush ++ more) (setWindows (<[refusalKey e := fresh]> ws) s), false)) in
    accounted r.1 = accounted s + (if r.2 : bool then aeCount e else 0) /\ CountInv r.1) as Hopen.
  { intros ws flush Hws Hfl Hnone Hpos. destruct (if Nat.leb maxCoalesceKeys (size ws) then _ else _) as [ws' more] eqn:E.
    assert (counted ws' /\ pending ws = pending ws' + counts more /\ ws' !! refusalKey e = None /\
      Forall (λ e, 0 <= aeCount e) more) as (Hws' & Hsum & Hnone' & Hmore).
    { destruct (Nat.leb _ _); [|injection E as <- <-; split_and!; [done|unfold counts, sumZ; simpl; lia|done|constructor]].
      split_and!; [|by eapply takeWindows_pending| |pose proof (takeWindows_nonneg (λ _, true) ws) as H; by rewrite E in H].
      - pose proof (takeWindows_counted (λ _, true) ws Hws) as H. by rewrite E in H.
      - injection E as <- _. apply map_lookup_filter_None. by left. }
    cbn [fst snd]. destruct (submitAll_accounted (flush ++ more) (setWindows (<[refusalKey e:=fresh]> ws') s)) as [-> Hwin].
    split; [|constructor; [rewrite Hwin; by apply map_Forall_insert_2|apply submitAll_entries; [by apply Forall_app|done]]].
    rewrite setWindows_accounted, pending_insert by done. unfold counts at 1. rewrite fmap_app, sumZ_app.
    change (sumZ (aeCount <$> flush)) with (counts flush). change (sumZ (aeCount <$> more)) with (counts more).
    simpl. lia. }
  destruct (asWindows s !! refusalKey e) as [w|] eqn:Hk.
  2:{ apply Hopen; [done|unfold counts, sumZ; simpl; lia|done|constructor]. }
  pose proof (Hw _ _ Hk) as Hw0. simpl in Hw0. pose proof (pending_delete _ _ _ Hk) as Hd.
  pose proof (pending_nonneg _ (map_Forall_delete _ _ (refusalKey e) Hw)) as Hd0. destruct (_ && _).
  - cbn [fst snd]. rewrite setWindows_accounted, (pending_replace _ w), addRefusal_suppressed by done.
    unfold accounted in Hb. rewrite i64_small by lia. split; [unfold accounted; lia|].
    constructor; [|done]. apply map_Forall_insert_2; [|done]. rewrite addRefusal_suppressed, i64_small; lia.
  - apply Hopen; [by apply map_Forall_delete| |apply lookup_delete_eq|destruct (summary w) eqn:E; [constructor; [by eapply summary_nonneg|done]|done]].
    pose proof (summary_count w Hw0) as Hs. destruct (summary w); rewrite ?counts_cons; unfold counts, sumZ; simpl; lia.
Qed.

(** The actions a step records. *)
Definition recordedBy (x : AStep) (s : ASvc) : Z :=
  match x with
  | SRecord _ _ e => Z.max (aeCount e) 1
  | SPrune now dbNow _ setting => match (pruneTable dbOK now dbNow setting s).2 with Some _ => 1 | None => 0 end
  | _ => 0
  end.

Fixpoint recorded (l : list AStep) (s : ASvc) : Z :=
  match l with [] => 0 | x :: l => recordedBy x s + recorded l (auditStep sha dbOK queueSize x s) end.

Lemma RecordEvent_accounted now client e s :
  CountInv s -> accounted s + Z.max (aeCount e) 1 < 2 ^ 63 ->
  let s' := RecordEvent sha dbOK queueSize now client e s in
  accounted s' = accounted s + Z.max (aeCount e) 1 /\ CountInv s'.
Proof.
  intros Hi Hb. unfold RecordEvent. set (e' := normalize _).
  assert (aeCount e' = Z.max (aeCount e) 1) as He by done. rewrite <- He in *. clearbody e'.
  destruct (coalesce_accounted e' s Hi) as [H1 H2]; [lia|done|]. destruct (coalesce sha dbOK queueSize e' s) as [s' []]; cbn [fst snd] in *; [done|].
  destruct (submitAll_accounted [e'] s') as [H3 H4]. cbn [submitAll foldl] in H3, H4. rewrite H3, H1. unfold counts, sumZ. simpl.
  split; [lia|]. constructor; [rewrite H4; apply H2|]. apply (submitAll_entries [e'] s'); [constructor; [lia|done]|apply H2].
Qed.

Lemma auditStep_accounted x s : CountInv s -> accounted s + recordedBy x s < 2 ^ 63 ->
  let s' := auditStep sha dbOK queueSize x s in accounted s' = accounted s + recordedBy x s /\ CountInv s'.
Proof.
  intros Hi Hb. pose proof Hi as [Hw He]. destruct x as [now client e|now all| | | |now dbNow recNow setting]; cbn [auditStep recordedBy] in *.
  - by apply RecordEvent_accounted.
  - unfold flushRefusals. set (closed := λ w, _). pose proof (takeWindows_counted closed _ Hw) as Hc.
    pose proof (takeWindows_nonneg closed (asWindows s)) as Hn. destruct (takeWindows closed (asWindows s)) as [ws out] eqn:E.
    apply takeWindows_pending in E; [|done]. destruct (submitAll_accounted out (setWindows ws s)) as [-> Hwin].
    rewrite setWindows_accounted. split; [lia|]. constructor; [by rewrite Hwin|by apply submitAll_entries].
  - split; [unfold accounted; simpl; lia|by constructor].
  - split; [unfold accounted; simpl; lia|by constructor].
  - destruct (asQueue s) as [|e q] eqn:Hq; [split; [lia|done]|]. set (s0 := mkASvc _ _ _ _ _ _ _ _).
    rewrite !Forall_app, Forall_cons in He. destruct He as (He1 & He2 & He3 & He4).
    destruct (writeEvent_accounted e s0) as [-> Hwin]. split.
    + unfold accounted, s0. simpl. rewrite Hq, counts_cons. lia.
    + constructor; [by rewrite Hwin|]. apply writeEvent_entries; [done|]. unfold s0. simpl. by rewrite !Forall_app.
  - unfold Prune. assert (accounted (pruneTable dbOK now dbNow setting s).1 = accounted s /\ CountInv (pruneTable dbOK now dbNow setting s).1 /\
      ∀ e, (pruneTable dbOK now dbNow setting s).2 = Some e -> aeCount e = 0) as (H1 & H2 & H3).
    { unfold pruneTable. destruct (negb _); [split_and!; [done|by constructor|done]|]. cbn [asDB].
      destruct (PruneAuditEvents _ dbNow (asDB s)) as [db [n|]]; [|split_and!; [done|by constructor|done]].
      destruct (n =? 0); (split_and!; [done|by constructor|]); intros e E; by simplify_eq/=. }
    destruct (pruneTable _ _ _ _ s) as [s' [e|]]; cbn [fst snd] in *; [|split; [lia|done]].
    specialize (H3 e eq_refl). replace 1 with (Z.max (aeCount e) 1) in * by lia. rewrite <- H1 in *. by apply RecordEvent_accounted.
Qed.

Lemma recorded_nonneg l s : 0 <= recorded l s.
Proof.
  revert s. induction l as [|x l IH]; intros s; [done|]. cbn [recorded]. specialize (IH (auditStep sha dbOK queueSize x s)).
  assert (0 <= recordedBy x s); [|lia]. destruct x; simpl; try lia. by case_match.
Qed.

(** No action is lost: along any run of the service, the actions recorded are exactly
    those the stored entries stand for, those of the entries the database refused, those
    of the queue, and those counted in open windows; each once. (Fewer than 2^63 actions:
    the counters are 64-bit integers.) *)
Theorem audit_counts_conserved steps :
  recorded steps newASvc < 2 ^ 63 ->
  accounted (auditSteps sha dbOK queueSize steps newASvc) = recorded steps newASvc.
Proof.
  enough (∀ s, CountInv s -> accounted s + recorded steps s < 2 ^ 63 ->
    accounted (auditSteps sha dbOK queueSize steps s) = accounted s + recorded steps s) as H.
  { intros Hb. apply (H newASvc); [|done]. constructor; [apply map_Forall_empty|constructor]. }
  induction steps as [|x steps IH]; intros s Hi Hb; [simpl; lia|]. cbn [recorded auditSteps foldl] in *.
  pose proof (recorded_nonneg steps (auditStep sha dbOK queueSize x s)) as H0.
  destruct (auditStep_accounted x s Hi) as [H1 H2]; [lia|]. unfold auditSteps in IH. rewrite IH; [lia|done|lia].
Qed.
End Counting.
