(* ===== verification/AuditDemo.v ===== *)
(** * The audit log on concrete entries

    Instances of the theorems on the audit chain and the audit service with a small hash
    function, and two logs on which [Verify] answers other than the log's documentation
    says. *)

From S2P Require Import Prelude Calendar Glob Json AuditLog AuditChain AuditService.

(** A hash of 64 digits. *)
Definition toySha (s : string) : string :=
  padded 64 (foldr (λ a h, (257 * h + byteZ a + 1) mod 10 ^ 50) 0 (bytes s)) EmptyString.

Lemma toySha_length s : String.length (toySha s) = 64%nat.
Proof. unfold toySha. by rewrite padded_length. Qed.

Definition demoDay (n : Z) : Z := unix_time 1700000000 + n * day.

Definition demoEvent (n : Z) (name action : string) : Event :=
  mkEvent 0 (demoDay n) ActorUser "usr_1" name "" "" action {["id" := "job_1"]} 200 OutcomeOK "192.0.2.1" "ua" 1 "".

Definition demoOps : list AuditOp :=
  [AAppend (demoEvent 0 "ada" "POST /a"); AAppend (demoEvent 1 "bob" "POST /b"); AAppend (demoEvent 2 "ada" "POST /c")].

Definition demoLog : AuditDB := auditRun toySha demoOps emptyAudit.
(** The same log after its first entry expired. *)
Definition demoPruned : AuditDB := auditRun toySha (demoOps ++ [APrune (demoDay 1) (demoDay 40)]) emptyAudit.

Lemma demoEvent_valid n name action :
  storable (demoDay n) -> validUTF8 name = true -> validUTF8 action = true -> validEvent (demoEvent n name action).
Proof. intros Ht Hn Ha. constructor; [done|repeat (constructor; [done|]); constructor|by apply map_Forall_singleton]. Qed.

Lemma demoOps_valid : Forall validOp demoOps.
Proof. repeat (constructor; [apply demoEvent_valid; [split; by vm_compute|done|done]|]). constructor. Qed.

Lemma demoPruned_readable : readable demoPruned.
Proof.
  assert (aeID <$> adRows demoPruned = [2; 3]) as Hids by (by vm_compute).
  assert (aeTime <$> adRows demoPruned = [demoDay 1; demoDay 2]) as Htimes by (by vm_compute).
  constructor.
  - destruct (adRows demoPruned) as [|x [|y [|]]]; simplify_eq/=. repeat constructor; lia.
  - apply Forall_lookup. intros i e He. assert (aeTime e ∈ [demoDay 1; demoDay 2]) as Hin.
    { rewrite <- Htimes. apply list_elem_of_fmap. exists e. split; [done|]. by eapply list_elem_of_lookup_2. }
    apply elem_of_cons in Hin as [-> | ->%list_elem_of_singleton]; split; by vm_compute.
  - by vm_compute.
  - by vm_compute.
Qed.

(** Collisions are searched by computation. *)
Definition collides (sha : string -> string) (l : list string) : bool :=
  existsb (λ s, existsb (λ t, bool_decide (sha s = sha t) && negb (bool_decide (s = t))) l) l.

Lemma collides_false sha l : collides sha l = false -> noCollision sha l.
Proof.
  intros Hc s t Hs Ht Heq. destruct (decide (s = t)) as [|Hne]; [done|exfalso].
  enough (collides sha l = true) by congruence. apply existsb_exists. exists s. split; [by apply list_elem_of_In|].
  apply existsb_exists. exists t. split; [by apply list_elem_of_In|]. by rewrite (bool_decide_true _ Heq), (bool_decide_false _ Hne).
Qed.

Definition demoVerification (db : AuditDB) : Verification :=
  match Verify toySha (demoDay 40) (Some 30) (Some db) [Some db] with Some (Ok v) => v | _ =>
    mkVerification false 0 (AuditChainAnchor db) 0 "" None false 0 0 end.

Lemma audit_tamper_evident_witness :
  ∃ pruned, adRows demoLog = pruned ++ entriesAfter (arLastID (adAnchor demoPruned)) demoPruned /\
    arLastHash (adAnchor demoPruned) = (headOf (arLastID (adAnchor demoLog)) (arLastHash (adAnchor demoLog)) pruned).2.
Proof.
  apply (audit_tamper_evident toySha toySha_length (demoDay 40) (Some 30) demoOps demoPruned 1 (demoVerification demoPruned)).
  - exact demoOps_valid.
  - by vm_compute.
  - exact demoPruned_readable.
  - by vm_compute.
  - by vm_compute.
  - by vm_compute.
  - by vm_compute.
  - apply collides_false. by vm_compute.
Defined.

Lemma audit_verifies_witness :
  ∃ v, Verify toySha (demoDay 40) None (Some demoLog) (Some <$> snapshots toySha demoLog [[demoEvent 3 "eve" "POST /d"]]) = Some (Ok v) /\
    vfOK v = true /\ vfBroken v = None /\ Z.of_nat (length (adRows demoLog)) <= vfChecked v.
Proof.
  apply (audit_verifies toySha toySha_length (demoDay 40) None demoOps [[demoEvent 3 "eve" "POST /d"]]).
  - exact demoOps_valid.
  - constructor; [constructor; [apply demoEvent_valid; [split; by vm_compute|done|done]|constructor]|constructor].
  - by vm_compute.
  - apply Nat.ltb_lt. by vm_compute.
Defined.

(** A prune that runs while [Verify] walks is reported as tampering: [Verify] reads the
    anchor, retention moves it and deletes the entries behind it, and the first page starts
    with an entry whose predecessor is missing. *)
Theorem verify_prune_race :
  ∃ v, Verify toySha (demoDay 40) (Some 30) (Some demoLog) [Some demoPruned] = Some (Ok v) /\
    vfOK v = false /\ vfBroken v = Some (2, Missing).
Proof. eexists. split; [vm_compute; reflexivity|]. by split. Qed.

(** An entry nobody recorded, with an ID behind the anchor. *)
Definition forged : Event := setLink 1 "" (demoEvent 5 "mallory" "POST /forged").
Definition demoForged : AuditDB := mkAuditDB (forged :: adRows demoPruned) (adAnchor demoPruned).

(** A forged entry behind the anchor is not noticed: [Verify] walks from the anchor on
    and accepts the log, while a listing shows the forged entry among the others. *)
Theorem forged_behind_anchor :
  vfOK (demoVerification demoForged) = true /\
  forged ∈ ListAuditEvents (mkFilter "" "" "" "" 0 0 0 0 false 0) demoForged.
Proof. split; [by vm_compute|]. apply (bool_decide_unpack _). vm_compute. done. Qed.

(** ** The service *)

(** Three refusals of one caller within a window, its summary, and a restart of the writer. *)
Definition refusal (t : Z) (name : string) : Event := mkEvent 0 t ActorAnonymous "" name "" "" "POST /login" ∅ 401 "" "192.0.2.9" "" 1 "".

Definition demoSteps : list AStep :=
  [SStart; SRecord 0 None (refusal (demoDay 0) "root"); SRecord 0 None (refusal (demoDay 0 + second) "admin");
   SRecord 0 None (refusal (demoDay 0 + 2 * second) "root"); SWrite; SFlush (demoDay 0 + minute) false; SClose; SWrite].

Lemma demoSteps_summary :
  ((λ e, (aeCount e, aeTargets e !! "name_1", aeTargets e !! "name_2")) <$> asStored (auditSteps toySha (λ _, true) 10 demoSteps newASvc)) =
  [(1, None, None); (2, Some "admin", Some "root")].
Proof. by vm_compute. Qed.

Lemma audit_counts_conserved_witness :
  accounted (auditSteps toySha (λ n, Nat.eqb n 0) 10 demoSteps newASvc) = recorded toySha (λ n, Nat.eqb n 0) 10 demoSteps newASvc /\
  recorded toySha (λ n, Nat.eqb n 0) 10 demoSteps newASvc = 3.
Proof. split; [apply audit_counts_conserved; by vm_compute|by vm_compute]. Defined.

Lemma audit_service_refines_witness :
  ∃ ops, Forall validOp ops /\ (length ops <= asCalls (auditSteps toySha (λ _, true) 10 demoSteps newASvc))%nat /\
    asDB (auditSteps toySha (λ _, true) 10 demoSteps newASvc) = auditRun toySha ops emptyAudit.
Proof. apply audit_service_refines. repeat constructor; by vm_compute. Defined.

Lemma export_complete_witness :
  Export (mkFilter "ada" "" "post" "" 0 0 0 0 false 0) (λ _, false) (replicate 1 (Some demoLog)) =
    Some (selected (mkFilter "ada" "" "post" "" 0 0 0 0 false 0) demoLog, false) /\
  aeID <$> selected (mkFilter "ada" "" "post" "" 0 0 0 0 false 0) demoLog = [1; 3].
Proof.
  split; [|by vm_compute]. apply (export_complete toySha toySha_length demoOps); [exact demoOps_valid|by vm_compute|by vm_compute|done|].
  apply Nat.ltb_lt. by vm_compute.
Defined.
