(* ===== verification/GoStrings.v ===== *)
(** * Go's [strings] functions the oplog filter and the scheduler use

    [strings.Cut], [strings.CutPrefix] and [strings.ContainsAny] on Go strings, which
    are strings of bytes, with the lemmas on names and namespaces. *)

From S2P Require Import Prelude.

(** [strings.Cut(s, sep)] for a one-byte separator: what comes before and after the
    first separator, and whether there is one. *)
Fixpoint Cut (sep : Ascii.ascii) (s : string) : string * string * bool :=
  match s with
  | EmptyString => (EmptyString, EmptyString, false)
  | String a r =>
      if bool_decide (a = sep) then (EmptyString, r, true)
      else let '(before, after, found) := Cut sep r in (String a before, after, found)
  end.

(** [strings.CutPrefix(s, prefix)], [None] when [s] does not start with [prefix]. *)
Fixpoint CutPrefix (s prefix : string) {struct prefix} : option string :=
  match prefix, s with
  | EmptyString, _ => Some s
  | String p prefix', String a s' => if bool_decide (a = p) then CutPrefix s' prefix' else None
  | String _ _, EmptyString => None
  end.

(** Whether a byte is one of [chars]. *)
Fixpoint inChars (chars : string) (a : Ascii.ascii) : bool :=
  match chars with
  | EmptyString => false
  | String c r => bool_decide (a = c) || inChars r a
  end.

(** [strings.ContainsAny(s, chars)] for ASCII [chars]. *)
Definition ContainsAny (s chars : string) : bool := negb (allBytes (λ a, negb (inChars chars a)) s).

(** [strings.HasPrefix]. *)
Definition HasPrefix (s prefix : string) : bool := String.prefix prefix s.

Lemma Cut_found sep s b a : Cut sep s = (b, a, true) -> s = b +:+ String sep a /\ allBytes (λ c, negb (bool_decide (c = sep))) b = true.
Proof.
  revert b a. induction s as [|c s IH]; intros b a; cbn; [done|].
  case_bool_decide as Hc; [intros [= <- <-]; subst; done|].
  destruct (Cut sep s) as [[b' a'] f] eqn:HC. intros [= <- <- ->].
  destruct (IH _ _ eq_refl) as [-> Hb]. rewrite str_app_cons. cbn. by case_bool_decide.
Qed.

Lemma Cut_app sep b a : allBytes (λ c, negb (bool_decide (c = sep))) b = true -> Cut sep (b +:+ String sep a) = (b, a, true).
Proof.
  induction b as [|c b IH]; rewrite ?str_app_nil, ?str_app_cons; cbn; [by case_bool_decide|].
  intros [Hc Hb]%andb_prop. case_bool_decide; [done|]. by rewrite IH.
Qed.

Lemma CutPrefix_Some s p r : CutPrefix s p = Some r <-> s = p +:+ r.
Proof.
  revert s. induction p as [|c p IH]; intros s; cbn; [rewrite str_app_nil; split; congruence|].
  destruct s as [|a s]; [done|]. case_bool_decide as Ha.
  - rewrite IH, str_app_cons, Ha. split; [by intros ->|by intros [= ->]].
  - rewrite str_app_cons. split; [done|by intros [= ? _]].
Qed.


Lemma ContainsAny_false s chars c :
  ContainsAny s chars = false -> inChars chars c = true -> allBytes (λ a, negb (bool_decide (a = c))) s = true.
Proof.
  unfold ContainsAny. intros H%negb_false_iff Hc. revert H. apply allBytes_mono.
  intros a. case_bool_decide; [subst; by rewrite Hc|done].
Qed.

(** ** [strings.TrimSpace] is idempotent *)

Lemma trimLeft_app_space (x q : string) : trimLeft x = EmptyString -> trimLeft (x +:+ q) = trimLeft q.
Proof.
  remember (String.length x) as n eqn:Hn. revert x Hn. induction n as [n IH] using lt_wf_ind. intros x -> H.
  destruct x as [|a x1]; [done|]. rewrite str_app_cons. cbn [trimLeft] in H |- *.
  destruct (space1 a); [apply (IH (String.length x1)); cbn; auto|].
  destruct x1 as [|b x2]; [done|]. rewrite str_app_cons.
  destruct (space2 a b); [apply (IH (String.length x2)); cbn; auto; lia|].
  destruct x2 as [|c x3]; [done|]. rewrite str_app_cons.
  destruct (space3 a b c); [apply (IH (String.length x3)); cbn; auto; lia|done].
Qed.

(** What [trimRight] cuts is white space. *)
Lemma trimRight_split s : ∃ q, s = trimRight s +:+ q /\ trimLeft q = EmptyString.
Proof.
  induction s as [|a s (q & Hs & Hq)]; [by exists EmptyString|]. cbn [trimRight].
  destruct (trimLeft (String a s)) eqn:E; [exists (String a s); by rewrite str_app_nil|].
  exists q. rewrite str_app_cons. by rewrite <- Hs.
Qed.

Lemma trimRight_idem s : trimRight (trimRight s) = trimRight s.
Proof.
  induction s as [|a s IH]; [done|]. cbn [trimRight]. destruct (trimLeft (String a s)) eqn:E; [done|]. cbn [trimRight].
  destruct (trimRight_split s) as (q & Hs & Hq).
  destruct (trimLeft (String a (trimRight s))) eqn:E2; [|by rewrite IH].
  assert (trimLeft (String a s) = trimLeft q) as E3 by (rewrite Hs at 1; rewrite <- str_app_cons; by apply trimLeft_app_space).
  congruence.
Qed.

(** A string that starts with no white space keeps doing so when it is cut short. *)
Lemma trimLeft_length s : (String.length (trimLeft s) <= String.length s)%nat.
Proof.
  remember (String.length s) as n eqn:Hn. revert s Hn. induction n as [n IH] using lt_wf_ind. intros s ->.
  destruct s as [|a s1]; [cbn; lia|]. cbn [trimLeft String.length] in *.
  destruct (space1 a); [specialize (IH (String.length s1) ltac:(lia) s1 eq_refl); lia|].
  destruct s1 as [|b s2]; [cbn; lia|]. cbn [String.length] in *.
  destruct (space2 a b); [specialize (IH (String.length s2) ltac:(lia) s2 eq_refl); lia|].
  destruct s2 as [|c s3]; [cbn; lia|]. cbn [String.length] in *.
  destruct (space3 a b c); [specialize (IH (String.length s3) ltac:(lia) s3 eq_refl); lia|cbn; lia].
Qed.

Lemma trimLeft_prefix p q : trimLeft (p +:+ q) = p +:+ q -> trimLeft p = p.
Proof.
  destruct p as [|a p1]; [done|]. rewrite str_app_cons. cbn [trimLeft].
  assert (∀ t, (String.length t < String.length (String a (p1 +:+ q)))%nat -> trimLeft t <> String a (p1 +:+ q)) as Hshort.
  { intros t Ht E. pose proof (trimLeft_length t). rewrite E in *. lia. }
  destruct (space1 a); [intros E; by apply Hshort in E; [|cbn; lia]|].
  destruct p1 as [|b p2]; [done|]. rewrite str_app_cons in *.
  destruct (space2 a b); [intros E; by apply Hshort in E; [|cbn; lia]|].
  destruct p2 as [|c p3]; [done|]. rewrite str_app_cons in *.
  destruct (space3 a b c); [intros E; by apply Hshort in E; [|cbn; lia]|done].
Qed.

Lemma trimLeft_idem s : trimLeft (trimLeft s) = trimLeft s.
Proof.
  remember (String.length s) as n eqn:Hn. revert s Hn. induction n as [n IH] using lt_wf_ind. intros s ->.
  destruct s as [|a s1]; [done|]. cbn [trimLeft].
  destruct (space1 a) eqn:E1; [apply (IH (String.length s1)); cbn; auto|].
  destruct s1 as [|b s2]; [cbn [trimLeft]; by rewrite E1|].
  destruct (space2 a b) eqn:E2; [apply (IH (String.length s2)); cbn; auto; lia|].
  destruct s2 as [|c s3]; [cbn [trimLeft]; by rewrite E1, E2|].
  destruct (space3 a b c) eqn:E3; [apply (IH (String.length s3)); cbn; auto; lia|].
  cbn [trimLeft]. by rewrite E1, E2, E3.
Qed.

Lemma TrimSpace_idem s : TrimSpace (TrimSpace s) = TrimSpace s.
Proof.
  unfold TrimSpace. destruct (trimRight_split (trimLeft s)) as (q & Hs & _).
  assert (trimLeft (trimRight (trimLeft s)) = trimRight (trimLeft s)) as E.
  { apply (trimLeft_prefix _ q). rewrite <- Hs. apply trimLeft_idem. }
  by rewrite E, trimRight_idem.
Qed.
