(* ===== verification/Bson.v ===== *)
(** * BSON documents (data of src/internal/oplog)

    A document is what the bytes of a BSON document hold: its elements in order, keys
    possibly repeated. Reading and writing the bytes is the MongoDB driver's; the class
    [Driver] has the driver functions the oplog package calls and [DriverLaws] what it
    relies on: [Marshal] writes a framed document that decodes to what was encoded,
    [Lookup] finds the first element with a key. *)

From S2P Require Import Prelude Pitr.

(** A BSON value, with the types the oplog package tells apart; a value of another type
    is its type byte and its bytes. *)
#[warnings="-register-all"]
Inductive value : Type :=
| BString (s : string)
| BDoc (d : list (string * value))
| BArray (a : list value)
| BBool (b : bool)
| BInt32 (n : Z)
| BInt64 (n : Z)
| BTimestamp (ts : Timestamp)
| BOther (ty : Z) (raw : string).

(** [bson.Raw] of a validated document, and [bson.D]. *)
Abbreviation doc := (list (string * value)).

(** Byte slices. *)
Abbreviation bytes := (list Ascii.ascii).

(** ** The accessors of [bson.RawValue] on a value or on none *)

Definition StringValueOK (v : option value) : option string :=
  match v with Some (BString s) => Some s | _ => None end.
Definition DocumentOK (v : option value) : option doc :=
  match v with Some (BDoc d) => Some d | _ => None end.
Definition ArrayOK (v : option value) : option (list value) :=
  match v with Some (BArray a) => Some a | _ => None end.
Definition BooleanOK (v : option value) : option bool :=
  match v with Some (BBool b) => Some b | _ => None end.
Definition TimestampOK (v : option value) : option Timestamp :=
  match v with Some (BTimestamp ts) => Some ts | _ => None end.

(** The string of a Go [s, _ := v.StringValueOK()]: empty when there is none. *)
Definition stringOf (v : option value) : string := default EmptyString (StringValueOK v).

(** ** Length prefixes *)

(** [binary.LittleEndian.Uint32], of the first four bytes. *)
Definition byteZ (a : Ascii.ascii) : Z := Z.of_N (Ascii.N_of_ascii a).
Fixpoint leZ (b : bytes) : Z :=
  match b with
  | [] => 0
  | a :: r => Z.lor (byteZ a) (Z.shiftl (leZ r) 8)
  end.
Definition Uint32 (b : bytes) : Z := leZ (take 4 b).

(** [MaxEntrySize] and [minDocumentSize] (oplog.go). *)
Definition MaxEntrySize : Z := Z.shiftl 16 20 + Z.shiftl 16 10.
Definition minDocumentSize : Z := 5.

(** A complete document: the length prefix counts its bytes and the last is NUL. *)
Definition framed (b : bytes) : bool :=
  (minDocumentSize <=? Z.of_nat (length b)) && (Uint32 b =? Z.of_nat (length b)) &&
  bool_decide (last b = Some Ascii.zero).

(** ** The driver *)

Class Driver := {
  (** [Raw.Validate] and [Raw.Elements]: the document the bytes hold, if valid. *)
  Validate : bytes -> option doc;
  (** [bson.Marshal]. *)
  Marshal : doc -> option bytes;
  (** [Raw.LookupErr] with one key. *)
  Lookup : doc -> string -> option value;
  (** [RawValue.AsInt64OK]. *)
  AsInt64OK : value -> option Z;
  (** [RawValue.Value]: the bytes of a value, without its type. *)
  Value : value -> string
}.

(** The first element of a document with a key. *)
Fixpoint first_elem (d : doc) (k : string) : option value :=
  match d with
  | [] => None
  | (k', v) :: r => if bool_decide (k' = k) then Some v else first_elem r k
  end.

Class DriverLaws `{Driver} : Prop := {
  Marshal_Validate d b : Marshal d = Some b -> Validate b = Some d;
  Marshal_framed d b : Marshal d = Some b -> framed b = true;
  Lookup_first d k : Lookup d k = first_elem d k;
  AsInt64OK_int32 n : AsInt64OK (BInt32 n) = Some n;
  AsInt64OK_int64 n : AsInt64OK (BInt64 n) = Some n
}.

Section Documents.
Context `{Driver}.

(** [Raw.Lookup] with two keys, the second in the document the first names. *)
Definition Lookup2 (d : doc) (k1 k2 : string) : option value :=
  match Lookup d k1 with
  | Some (BDoc d') => Lookup d' k2
  | _ => None
  end.

(** [isTrue]. *)
Definition isTrue (d : doc) (key : string) : bool := default false (BooleanOK (Lookup d key)).

(** [rebuild]: the elements in order through [edit], [None] to leave one out. (The
    elements of a validated document can be read; the edits of the package return no
    error of their own.) *)
Definition rebuild (d : doc) (edit : string -> value -> option value) : doc :=
  omap (λ e, pair (e.1) <$> edit (e.1) (e.2)) d.

End Documents.

(** ** Lookup in a rebuilt document *)

Lemma first_elem_app d1 d2 k :
  first_elem (d1 ++ d2) k = match first_elem d1 k with Some v => Some v | None => first_elem d2 k end.
Proof. induction d1 as [|[k' v] d1 IH]; cbn [app first_elem]; [done|]. by destruct (bool_decide _). Qed.

(** An edit that keeps every element with key [k] edits what is found under [k]. *)
Lemma first_elem_rebuild_kept d k edit :
  (∀ v, is_Some (edit k v)) -> first_elem (rebuild d edit) k = first_elem d k ≫= edit k.
Proof.
  intros Hk. induction d as [|[k' v] d IH]; cbn; [done|]. case_bool_decide as Hkk.
  - subst. destruct (Hk v) as [w Hw]. rewrite Hw. cbn. rewrite Hw. by case_bool_decide.
  - destruct (edit k' v) as [w|]; cbn; [|done]. by case_bool_decide.
Qed.

(** An edit that leaves every element with key [k] out. *)
Lemma first_elem_rebuild_dropped d k edit : (∀ v, edit k v = None) -> first_elem (rebuild d edit) k = None.
Proof.
  intros Hk. induction d as [|[k' v] d IH]; cbn; [done|].
  destruct (edit k' v) as [w|] eqn:He; cbn; [|done]. case_bool_decide; [|done]. subst. by rewrite Hk in He.
Qed.

(** The first key of a rebuilt document whose first element is kept. *)
Lemma rebuild_head d edit k v w :
  head d = Some (k, v) -> edit k v = Some w -> head (rebuild d edit) = Some (k, w).
Proof. destruct d as [|[k' v'] d]; [done|]. cbn. intros [= -> ->] ->. done. Qed.

Lemma rebuild_id d : rebuild d (λ _ v, Some v) = d.
Proof. induction d as [|[k v] d IH]; cbn; [done|]. f_equal. exact IH. Qed.

(** ** Little-endian prefixes *)

Lemma byteZ_range a : 0 <= byteZ a < 256.
Proof. unfold byteZ. pose proof (Ascii.N_ascii_bounded a). lia. Qed.

Lemma leZ_cons a r : leZ (a :: r) = byteZ a + 256 * leZ r.
Proof.
  cbn. rewrite Z.shiftl_mul_pow2 by lia. change (2 ^ 8) with 256.
  pose proof (byteZ_range a) as Ha. pose proof (Z.add_lor_land (byteZ a) (leZ r * 256)) as Hadd.
  assert (Z.land (byteZ a) (leZ r * 256) = 0) as Hl; [|lia].
  replace (leZ r * 256) with (Z.shiftl (leZ r) 8) by (rewrite Z.shiftl_mul_pow2; lia).
  apply Z.bits_inj'. intros n Hn. rewrite Z.bits_0, Z.land_spec. destruct (Z.ltb_spec n 8).
  - rewrite Z.shiftl_spec_low by lia. apply andb_false_r.
  - rewrite (Z.bits_above_log2 (byteZ a)); [done|lia|].
    destruct (decide (byteZ a = 0)) as [->|]; [cbn; lia|]. apply Z.log2_lt_pow2; [lia|].
    apply Z.lt_le_trans with (2 ^ 8); [change (2 ^ 8) with 256; lia|]. apply Z.pow_le_mono_r; lia.
Qed.

Lemma leZ_range b : 0 <= leZ b < 256 ^ Z.of_nat (length b).
Proof.
  induction b as [|a b IH]; [cbn; lia|]. rewrite leZ_cons. pose proof (byteZ_range a).
  cbn [length]. rewrite Nat2Z.inj_succ, Z.pow_succ_r by lia. lia.
Qed.
