(* ===== verification/BsonCodec.v ===== *)
(** * A BSON codec (an instance of the driver interface of Bson.v)

    The binary format of bsonspec.org for the values of [Bson]: the encoder writes
    length prefixes, types, keys and terminators, the decoder reads them back. It shows
    that what the oplog package relies on can hold ([DriverLaws]) and runs the examples.
    Values of other types are those of fixed size (double, ObjectID, datetime, null,
    decimal128, min and max key). *)

From Stdlib Require Import Ascii.
From S2P Require Import Prelude Pitr Bson.

(** Induction over values, through documents and arrays. *)
Lemma value_nested_ind (P : value -> Prop) :
  (∀ s, P (BString s)) -> (∀ d, Forall (λ e, P e.2) d -> P (BDoc d)) -> (∀ a, Forall P a -> P (BArray a)) ->
  (∀ b, P (BBool b)) -> (∀ n, P (BInt32 n)) -> (∀ n, P (BInt64 n)) -> (∀ ts, P (BTimestamp ts)) ->
  (∀ ty raw, P (BOther ty raw)) -> ∀ v, P v.
Proof.
  intros Hs Hd Ha Hb H32 H64 Hts Ho. fix IH 1. intros [s|d|a|b|n|n|ts|ty raw];
    [apply Hs| | |apply Hb|apply H32|apply H64|apply Hts|apply Ho].
  - apply Hd. induction d as [|[k v] d IHd]; constructor; [apply IH|exact IHd].
  - apply Ha. induction a as [|v a IHa]; constructor; [apply IH|exact IHa].
Qed.

(** ** Integers in little-endian order *)

Definition byteOf (z : Z) : ascii := ascii_of_N (Z.to_N (z mod 256)).

Fixpoint le (k : nat) (z : Z) : bytes :=
  match k with
  | O => []
  | S k => byteOf z :: le k (z / 256)
  end.

Lemma byteZ_byteOf z : byteZ (byteOf z) = z mod 256.
Proof. unfold byteZ, byteOf. pose proof (Z.mod_pos_bound z 256 ltac:(lia)). rewrite N_ascii_embedding; lia. Qed.

Lemma length_le k z : length (le k z) = k.
Proof. revert z. induction k as [|k IH]; intros z; cbn; [done|]. by rewrite IH. Qed.

Lemma leZ_le k z : leZ (le k z) = z mod 256 ^ Z.of_nat k.
Proof.
  revert z. induction k as [|k IH]; intros z; [cbn; by rewrite Z.mod_1_r|].
  cbn [le]. rewrite leZ_cons, IH, byteZ_byteOf. rewrite Nat2Z.inj_succ, Z.pow_succ_r by lia.
  rewrite Z.rem_mul_r by lia. lia.
Qed.

(** The two's complement reading of [k] bytes. *)
Definition signed (k : nat) (z : Z) : Z := if z <? 256 ^ Z.of_nat k / 2 then z else z - 256 ^ Z.of_nat k.

(** ** Encoding *)

Definition bytesOf (s : string) : bytes := String.list_ascii_of_string s.

(** The payload of a type of fixed size. *)
Definition fixedSize (ty : Z) : option nat :=
  if ty =? 1 then Some 8%nat else if ty =? 7 then Some 12%nat else if ty =? 9 then Some 8%nat
  else if ty =? 10 then Some 0%nat else if ty =? 19 then Some 16%nat
  else if ty =? 127 then Some 0%nat else if ty =? 255 then Some 0%nat else None.

Definition typeOf (v : value) : Z :=
  match v with
  | BString _ => 2 | BDoc _ => 3 | BArray _ => 4 | BBool _ => 8 | BInt32 _ => 16 | BTimestamp _ => 17 | BInt64 _ => 18
  | BOther ty _ => ty
  end.

(** A document of encoded elements. *)
Definition frame (elems : bytes) : bytes := le 4 (Z.of_nat (length elems) + 5) ++ elems ++ [zero].

Fixpoint encValue (v : value) : bytes :=
  match v with
  | BString s => le 4 (Z.of_nat (length (bytesOf s)) + 1) ++ bytesOf s ++ [zero]
  | BDoc d =>
      frame ((fix elems (d : doc) : bytes :=
                match d with
                | [] => []
                | (k, v) :: r => byteOf (typeOf v) :: bytesOf k ++ [zero] ++ encValue v ++ elems r
                end) d)
  | BArray a =>
      frame ((fix elems (i : nat) (a : list value) : bytes :=
                match a with
                | [] => []
                | v :: r => byteOf (typeOf v) :: bytesOf (pretty (Z.of_nat i)) ++ [zero] ++ encValue v ++ elems (S i) r
                end) O a)
  | BBool b => [byteOf (if b then 1 else 0)]
  | BInt32 n => le 4 n
  | BInt64 n => le 8 n
  | BTimestamp ts => le 4 (tsI ts) ++ le 4 (tsT ts)
  | BOther _ raw => bytesOf raw
  end.

(** The elements of a document, and the keys of an array. *)
Fixpoint encElems (d : doc) : bytes :=
  match d with
  | [] => []
  | (k, v) :: r => byteOf (typeOf v) :: bytesOf k ++ [zero] ++ encValue v ++ encElems r
  end.

Fixpoint indexed (i : nat) (a : list value) : doc :=
  match a with
  | [] => []
  | v :: r => (pretty (Z.of_nat i), v) :: indexed (S i) r
  end.

Definition noNUL (s : string) : bool := forallb (λ a, negb (bool_decide (a = zero))) (bytesOf s).

(** What can be encoded: keys without NUL, integers in range, lengths below 2^31. *)
Fixpoint encodable (v : value) : bool :=
  match v with
  | BString s => Z.of_nat (length (bytesOf s)) + 1 <? 2 ^ 31
  | BDoc d => forallb (λ e, noNUL e.1 && encodable e.2) d && (Z.of_nat (length (encValue (BDoc d))) <? 2 ^ 31)
  | BArray a => forallb encodable a && (Z.of_nat (length (encValue (BArray a))) <? 2 ^ 31)
  | BBool _ => true
  | BInt32 n => (- 2 ^ 31 <=? n) && (n <? 2 ^ 31)
  | BInt64 n => (- 2 ^ 63 <=? n) && (n <? 2 ^ 63)
  | BTimestamp ts => (0 <=? tsT ts) && (tsT ts <? 2 ^ 32) && (0 <=? tsI ts) && (tsI ts <? 2 ^ 32)
  | BOther ty raw => match fixedSize ty with Some k => bool_decide (length (bytesOf raw) = k) | None => false end
  end.

(** ** Decoding *)

(** The first [k] bytes and the rest. *)
Definition takeN (k : nat) (b : bytes) : option (bytes * bytes) :=
  if bool_decide (k <= length b)%nat then Some (take k b, drop k b) else None.

(** A string up to a NUL. *)
Fixpoint cstring (b : bytes) : option (string * bytes) :=
  match b with
  | [] => None
  | a :: r => if bool_decide (a = zero) then Some (EmptyString, r)
              else '(s, r') ← cstring r; Some (String a s, r')
  end.

(** The values that hold no document. *)
Definition decScalar (ty : Z) (b : bytes) : option (value * bytes) :=
  if ty =? 2 then
    '(n, r) ← takeN 4 b;
    guard (1 <= leZ n);;
    '(s, r) ← takeN (Z.to_nat (leZ n - 1)) r;
    '(z, r) ← takeN 1 r;
    guard (z = [zero]);;
    Some (BString (String.string_of_list_ascii s), r)
  else if ty =? 8 then '(n, r) ← takeN 1 b; Some (BBool (leZ n =? 1), r)
  else if ty =? 16 then '(n, r) ← takeN 4 b; Some (BInt32 (signed 4 (leZ n)), r)
  else if ty =? 17 then '(i, r) ← takeN 4 b; '(t, r) ← takeN 4 r; Some (BTimestamp (mkTS (leZ t) (leZ i)), r)
  else if ty =? 18 then '(n, r) ← takeN 8 b; Some (BInt64 (signed 8 (leZ n)), r)
  else k ← fixedSize ty; '(s, r) ← takeN k b; Some (BOther ty (String.string_of_list_ascii s), r).

(** A value, given how to read the elements of a document. *)
Definition decValue (elems : bytes -> option (doc * bytes)) (ty : Z) (b : bytes) : option (value * bytes) :=
  if (ty =? 3) || (ty =? 4) then
    '(n, r1) ← takeN 4 b;
    '(d, r2) ← elems r1;
    guard (leZ n = Z.of_nat (length b) - Z.of_nat (length r2));;
    Some (if ty =? 3 then BDoc d else BArray (snd <$> d), r2)
  else decScalar ty b.

(** The elements up to the end of a document, and what follows it. *)
Fixpoint decElems (fuel : nat) (b : bytes) : option (doc * bytes) :=
  match fuel, b with
  | S fuel, a :: r =>
      if bool_decide (a = zero) then Some ([], r)
      else
        '(k, r1) ← cstring r;
        '(v, r2) ← decValue (decElems fuel) (byteZ a) r1;
        '(d, r3) ← decElems fuel r2;
        Some ((k, v) :: d, r3)
  | _, _ => None
  end.

Definition decode (b : bytes) : option doc :=
  '(n, r) ← takeN 4 b;
  '(d, rest) ← decElems (length b) r;
  guard (leZ n = Z.of_nat (length b) /\ rest = []);;
  Some d.

Definition encode (d : doc) : option bytes := if encodable (BDoc d) then Some (encValue (BDoc d)) else None.

(** ** Round trip *)

Lemma takeN_app k b r : length b = k -> takeN k (b ++ r) = Some (b, r).
Proof.
  intros <-. unfold takeN. rewrite bool_decide_true by (rewrite length_app; lia). by rewrite take_app_length, drop_app_length.
Qed.

Lemma takeN_le k z r : takeN k (le k z ++ r) = Some (le k z, r).
Proof. apply takeN_app, length_le. Qed.

Lemma cstring_app s r : noNUL s = true -> cstring (bytesOf s ++ zero :: r) = Some (s, r).
Proof.
  unfold noNUL. induction s as [|a s IH]; [done|]. change (bytesOf (String a s)) with (a :: bytesOf s).
  cbn [app cstring forallb]. intros [Ha Hs]%andb_prop. case_bool_decide; [done|]. by rewrite (IH Hs).
Qed.

Lemma signed_mod k z : (0 < k)%nat -> - (256 ^ Z.of_nat k / 2) <= z < 256 ^ Z.of_nat k / 2 -> signed k (z mod 256 ^ Z.of_nat k) = z.
Proof.
  intros Hk Hz. unfold signed. assert (256 ^ Z.of_nat k = 2 * (256 ^ Z.of_nat k / 2)) as Hdiv.
  { replace (Z.of_nat k) with (Z.succ (Z.of_nat (pred k))) by lia. rewrite Z.pow_succ_r by lia.
    replace (256 * 256 ^ Z.of_nat (pred k)) with (2 * (128 * 256 ^ Z.of_nat (pred k))) by lia.
    rewrite (Z.mul_comm 2 (128 * _)), Z.div_mul by lia. lia. }
  set (m := 256 ^ Z.of_nat k) in *. destruct (Z.ltb_spec z 0).
  - replace (z mod m) with (z + m) by (symmetry; rewrite <- (Z.mod_small (z + m) m) by lia; by rewrite <- Z.add_mod_idemp_r, Z.mod_same, Z.add_0_r by lia).
    destruct (Z.ltb_spec (z + m) (m / 2)); lia.
  - rewrite Z.mod_small by lia. destruct (Z.ltb_spec z (m / 2)); lia.
Qed.

Lemma bytesOf_id s : String.string_of_list_ascii (bytesOf s) = s.
Proof. apply String.string_of_list_ascii_of_string. Qed.

Lemma fixedSize_scalar ty k : fixedSize ty = Some k ->
  ty mod 256 = ty /\ (ty =? 0) = false /\ (ty =? 2) = false /\ (ty =? 8) = false /\ (ty =? 16) = false /\
  (ty =? 17) = false /\ (ty =? 18) = false /\ (ty =? 3) || (ty =? 4) = false.
Proof.
  unfold fixedSize. intros Hf.
  repeat match type of Hf with (if ?ty =? ?c then _ else _) = _ => destruct (Z.eqb_spec ty c); [subst ty; by split_and!|] end.
  done.
Qed.

(** A scalar is read back. *)
Lemma decScalar_enc v r :
  encodable v = true -> (∀ d, v <> BDoc d) -> (∀ a, v <> BArray a) -> decScalar (typeOf v) (encValue v ++ r) = Some (v, r).
Proof.
  intros He Hd Ha. destruct v as [s|d|a|b|n|n|ts|ty raw]; [|by destruct (Hd d)|by destruct (Ha a)|..]; cbn [encodable] in He.
  - unfold decScalar. cbn [typeOf encValue Z.eqb Pos.eqb]. rewrite <- !app_assoc, takeN_le. cbn [mbind option_bind].
    rewrite leZ_le, Z.mod_small by (bool_cases; change (256 ^ Z.of_nat 4) with (2 ^ 32); lia).
    rewrite option_guard_True by lia. rewrite takeN_app by (rewrite Z.add_simpl_r; lia). cbn [mbind option_bind].
    rewrite (takeN_app 1 [zero]) by done. cbn. by rewrite bytesOf_id.
  - by destruct b.
  - unfold decScalar. cbn [typeOf encValue Z.eqb Pos.eqb]. rewrite takeN_le. cbn [mbind option_bind].
    rewrite leZ_le, signed_mod; [done|lia|]. bool_cases. change (256 ^ Z.of_nat 4 / 2) with (2 ^ 31). lia.
  - unfold decScalar. cbn [typeOf encValue Z.eqb Pos.eqb]. rewrite takeN_le. cbn [mbind option_bind].
    rewrite leZ_le, signed_mod; [done|lia|]. bool_cases. change (256 ^ Z.of_nat 8 / 2) with (2 ^ 63). lia.
  - unfold decScalar. cbn [typeOf encValue Z.eqb Pos.eqb]. rewrite <- app_assoc, takeN_le. cbn [mbind option_bind].
    rewrite takeN_le. cbn [mbind option_bind]. bool_cases. destruct ts as [t i]. cbn [tsT tsI] in *.
    rewrite !leZ_le, !Z.mod_small by (change (256 ^ Z.of_nat 4) with (2 ^ 32); lia). done.
  - destruct (fixedSize ty) as [k|] eqn:Hf; [|done]. bool_cases. unfold decScalar. cbn [typeOf encValue].
    destruct (fixedSize_scalar _ _ Hf) as (_ & _ & -> & -> & -> & -> & -> & _). rewrite Hf. cbn [mbind option_bind].
    rewrite takeN_app by done. cbn. by rewrite bytesOf_id.
Qed.


(** The elements of arrays are those of a document with the indexes as keys. *)
Lemma encValue_array a : encValue (BArray a) = frame (encElems (indexed 0 a)).
Proof.
  cbn [encValue]. f_equal. generalize 0%nat as i. induction a as [|v a IH]; intros i; [done|].
  cbn [indexed encElems]. by rewrite IH.
Qed.

Lemma indexed_values i a : snd <$> indexed i a = a.
Proof. revert i. induction a as [|v a IH]; intros i; [done|]. cbn. f_equal. apply IH. Qed.

Lemma noNUL_index i : noNUL (pretty (Z.of_nat i)) = true.
Proof.
  pose proof (pretty_numeric (Z.of_nat i)) as Hn. revert Hn. generalize (pretty (Z.of_nat i)) as s. unfold noNUL.
  induction s as [|a s IH]; [done|]. change (bytesOf (String a s)) with (a :: bytesOf s). cbn [forallb allBytes].
  intros [Ha Hs]%andb_prop. rewrite (IH Hs), andb_true_r.
  apply negb_true_iff, bool_decide_eq_false. by intros ->.
Qed.

Lemma indexed_encodable i a : forallb encodable a = true -> forallb (λ e, noNUL e.1 && encodable e.2) (indexed i a) = true.
Proof.
  revert i. induction a as [|v a IH]; intros i; [done|]. cbn [indexed forallb fst snd]. intros [Hv Ha]%andb_prop.
  by rewrite noNUL_index, Hv, (IH (S i) Ha).
Qed.

Lemma indexed_Forall (P : value -> Prop) i a : Forall P a -> Forall (λ e, P e.2) (indexed i a).
Proof. intros Hf. revert i. induction Hf; intros i; cbn; constructor; auto. Qed.

Lemma typeOf_byte v : encodable v = true -> byteZ (byteOf (typeOf v)) = typeOf v /\ byteOf (typeOf v) <> zero.
Proof.
  intros He. assert (typeOf v mod 256 = typeOf v /\ (typeOf v =? 0) = false) as [Hm H0].
  { destruct v; try by split_and!. cbn in *. destruct (fixedSize ty) eqn:Hf; [|done].
    destruct (fixedSize_scalar _ _ Hf) as (? & ? & _). done. }
  rewrite byteZ_byteOf, Hm. split; [done|]. intros Hz. apply (f_equal byteZ) in Hz. rewrite byteZ_byteOf, Hm in Hz.
  change (byteZ zero) with 0 in Hz. rewrite Hz in H0. done.
Qed.

Definition readsBack (v : value) : Prop := ∀ fuel r,
  encodable v = true -> (length (encValue v) <= fuel)%nat -> decValue (decElems fuel) (typeOf v) (encValue v ++ r) = Some (v, r).

Lemma decElems_enc d : Forall (λ e, readsBack e.2) d -> forallb (λ e, noNUL e.1 && encodable e.2) d = true ->
  ∀ fuel r, (length (encElems d) < fuel)%nat -> decElems fuel (encElems d ++ zero :: r) = Some (d, r).
Proof.
  induction 1 as [|[k v] d Hv _ IH]; intros He fuel r Hl; (destruct fuel as [|fuel]; [lia|]).
  { cbn. by case_bool_decide. }
  cbn [forallb fst snd] in He. apply andb_prop in He as [He1 He]. apply andb_prop in He1 as [Hk Hev].
  destruct (typeOf_byte v Hev) as [Hb Hnz]. cbn [encElems] in *. rewrite !length_cons, !length_app in Hl.
  cbn [app decElems]. rewrite bool_decide_false by done. rewrite <- !app_assoc. cbn [app]. rewrite cstring_app by done.
  cbn [mbind option_bind]. rewrite Hb. cbn [snd] in Hv. rewrite <- app_assoc, (Hv fuel _ Hev) by lia. cbn [mbind option_bind].
  rewrite IH by (done || lia). done.
Qed.

(** A framed document of readable elements. *)
Lemma decValue_frame ty d fuel r :
  (ty =? 3) || (ty =? 4) = true -> Forall (λ e, readsBack e.2) d -> forallb (λ e, noNUL e.1 && encodable e.2) d = true ->
  Z.of_nat (length (frame (encElems d))) < 2 ^ 31 -> (length (frame (encElems d)) <= fuel)%nat ->
  decValue (decElems fuel) ty (frame (encElems d) ++ r) = Some (if ty =? 3 then BDoc d else BArray (snd <$> d), r).
Proof.
  intros Hty Hd He H31 Hl. unfold decValue. rewrite Hty. unfold frame in *. rewrite <- !app_assoc, takeN_le. cbn [mbind option_bind app].
  rewrite !length_app, length_le in H31, Hl. cbn [length] in H31, Hl. rewrite decElems_enc by (done || lia). cbn [mbind option_bind].
  rewrite leZ_le, Z.mod_small by (change (256 ^ Z.of_nat 4) with (2 ^ 32); lia).
  rewrite option_guard_True; [done|]. rewrite !length_app, length_le, length_cons. lia.
Qed.

Lemma readsBack_all v : readsBack v.
Proof.
  induction v as [s|d IH|a IH|b|n|n|ts|ty raw] using value_nested_ind; intros fuel r He Hl.
  2: { cbn [encodable] in He. apply andb_prop in He as [He Hs]. apply Z.ltb_lt in Hs.
       apply (decValue_frame 3 d); done. }
  2: { cbn [encodable] in He. apply andb_prop in He as [He Hs]. apply Z.ltb_lt in Hs. rewrite encValue_array in *.
       rewrite (decValue_frame 4 (indexed 0 a)); [by cbn; rewrite indexed_values|done|by apply indexed_Forall|by apply indexed_encodable|done..]. }
  all: unfold decValue; lazymatch goal with |- context [if ?b then _ else _] => assert (b = false) as -> end;
    [try done|by apply decScalar_enc].
  cbn in He |- *. destruct (fixedSize ty) eqn:Hf; [|done]. by destruct (fixedSize_scalar _ _ Hf) as (_ & _ & _ & _ & _ & _ & _ & ->).
Qed.

Lemma encode_Some d b : encode d = Some b ->
  b = frame (encElems d) /\ forallb (λ e, noNUL e.1 && encodable e.2) d = true /\ Z.of_nat (length (encElems d)) + 5 < 2 ^ 31.
Proof.
  unfold encode. destruct (encodable (BDoc d)) eqn:He; [|done]. intros Hb.
  assert (b = frame (encElems d)) as -> by (injection Hb; intros <-; reflexivity). split; [done|].
  cbn [encodable] in He. apply andb_prop in He as [He Hs]. apply Z.ltb_lt in Hs. split; [done|].
  change (Z.of_nat (length (frame (encElems d))) < 2 ^ 31) in Hs. unfold frame in Hs.
  rewrite !length_app, length_le in Hs. cbn [length] in Hs. lia.
Qed.

Lemma length_frame e : length (frame e) = (length e + 5)%nat.
Proof. unfold frame. rewrite !length_app, length_le. cbn. lia. Qed.

(** What is encoded is decoded. *)
Lemma bson_decode_encode d b : encode d = Some b -> decode b = Some d.
Proof.
  intros (-> & He & Hs)%encode_Some. unfold decode. rewrite length_frame. unfold frame. rewrite takeN_le. cbn [mbind option_bind].
  rewrite decElems_enc; [|apply Forall_true; intros; apply readsBack_all|done|lia].
  cbn [mbind option_bind]. rewrite leZ_le, Z.mod_small by (change (256 ^ Z.of_nat 4) with (2 ^ 32); lia).
  rewrite option_guard_True; [done|]. split; [lia|done].
Qed.

Lemma encode_framed d b : encode d = Some b -> framed b = true.
Proof.
  intros (-> & _ & Hs)%encode_Some. unfold framed. rewrite length_frame. unfold frame, Uint32, minDocumentSize.
  rewrite take_app_length' by (by rewrite length_le). rewrite leZ_le.
  rewrite Z.mod_small by (change (256 ^ Z.of_nat 4) with (2 ^ 32); lia).
  rewrite app_assoc, last_snoc, (bool_decide_true (Some zero = Some zero)), andb_true_r by done.
  apply andb_true_intro. split; [apply Z.leb_le|apply Z.eqb_eq]; lia.
Qed.

(** ** The instance *)

#[global] Instance codec : Driver := {
  Validate := decode;
  Marshal := encode;
  Lookup := first_elem;
  AsInt64OK := λ v, match v with BInt32 n => Some n | BInt64 n => Some n | _ => None end;
  Value := λ v, String.string_of_list_ascii (encValue v)
}.

#[global] Instance codec_laws : DriverLaws.
Proof. split; [apply bson_decode_encode|apply encode_framed|done..]. Qed.
