(* ===== verification/OplogScan.v ===== *)
(** * Walking the documents of an oplog stream (src/internal/oplog/oplog.go, scanner.go)

    A chunk is a stream of concatenated BSON documents. [Reader] cuts it into documents
    for a replay; [Scanner] sits in a pipeline of writes, walks the same documents
    whatever the boundaries of the writes, and records their count and first and last
    positions. [scanner_walks] shows that both see the same documents. *)

From S2P Require Import Prelude Pitr Bson.

(** The errors of the package, [EOF] of a stream that ended between documents,
    [ErrRead] of another failure of the reader or writer underneath, and [NilCall], the
    panic of calling a nil [Rename]. *)
Inductive OplogErr : Type :=
| ErrTruncated | ErrMalformed | ErrUnknownOp | ErrUnknownCommand | ErrCrossSelectionRename
| ErrNoTarget | ErrBadRename | ErrServerVersion | ErrArchiveClosed
| EOF | ErrRead | NilCall.

#[global] Instance OplogErr_eq_dec : EqDecision OplogErr.
Proof. solve_decision. Defined.

(** [Before]. *)
Definition Before (a b : Timestamp) : bool :=
  (tsT a <? tsT b) || ((tsT a =? tsT b) && (tsI a <? tsI b)).

(** [documentSize]. *)
Definition documentSize (prefix : bytes) : result OplogErr nat :=
  let n := Uint32 prefix in
  if (n <? minDocumentSize) || (MaxEntrySize <? n) then Err ErrMalformed else Ok (Z.to_nat n).

Section Walk.
Context `{Driver}.
Local Open Scope rescue_scope.

(** [entryOpTime]. *)
Definition entryOpTime (b : bytes) : result OplogErr OpTime :=
  match Validate b with
  | None => Err ErrMalformed
  | Some d =>
      match TimestampOK (Lookup d "ts") with
      | None => Err ErrMalformed
      | Some ts => Ok (mkOpTime ts (default (-1) (Lookup d "t" ≫= AsInt64OK)))
      end
  end.

(** ** Reader *)

(** The reader underneath: the bytes it has left, and whether it fails after them
    instead of ending. *)
Record Stream : Type := mkStream { stBytes : bytes; stFails : bool }.

(** [io.ReadFull] of [n] bytes: the bytes, or how many came before the end. *)
Definition ReadFull (n : nat) (r : Stream) : result (nat * OplogErr) (bytes * Stream) :=
  if bool_decide (n <= length (stBytes r))%nat
  then Ok (take n (stBytes r), mkStream (drop n (stBytes r)) (stFails r))
  else Err (length (stBytes r), if stFails r then ErrRead else EOF).

(** [Reader.Next]. *)
Definition Next (r : Stream) : result OplogErr (bytes * Stream) :=
  match ReadFull 4 r with
  | Err (n, EOF) => Err (if bool_decide (n = 0%nat) then EOF else ErrTruncated)
  | Err (_, e) => Err e
  | Ok (prefix, r1) =>
      size <-! documentSize prefix;
      match ReadFull (size - 4) r1 with
      | Err (_, EOF) => Err ErrTruncated
      | Err (_, e) => Err e
      | Ok (body, r2) => Ok (prefix ++ body, r2)
      end
  end.

(** ** Scanner *)

(** [prefix] and [doc] are the bytes received of the current length prefix and
    document, [docLen] the length of the document; [out] is what the writer underneath
    took. *)
Record Scanner : Type := mkScanner {
  scPrefix : bytes;
  scDoc : bytes;
  scDocLen : nat;
  scCount : Z;
  scFirst : OpTime;
  scLast : OpTime;
  scErr : option OplogErr;
  scOut : bytes
}.

Definition noOpTime : OpTime := mkOpTime zeroTS 0.
Definition NewScanner : Scanner := mkScanner [] [] 0 0 noOpTime noOpTime None [].

(** [Scanner.entry]. *)
Definition scanEntry (b : bytes) (s : Scanner) : Scanner * option OplogErr :=
  match entryOpTime b with
  | Err e => (s, Some e)
  | Ok pos =>
      (mkScanner (scPrefix s) (scDoc s) (scDocLen s) (i64 (scCount s + 1))
         (if scCount s =? 0 then pos else scFirst s) pos (scErr s) (scOut s), None)
  end.

(** The bytes of a length prefix: the rest of [p] when the prefix is complete, [None]
    to return without an error. *)
Definition scanPrefix (p : bytes) (s : Scanner) : Scanner * result OplogErr (option bytes) :=
  if bool_decide (length (scPrefix s) < 4)%nat then
    let n := Nat.min (4 - length (scPrefix s)) (length p) in
    let prefix := scPrefix s ++ take n p in
    let s1 := mkScanner prefix (scDoc s) (scDocLen s) (scCount s) (scFirst s) (scLast s) (scErr s) (scOut s) in
    if bool_decide (length prefix < 4)%nat then (s1, Ok None)
    else match documentSize prefix with
         | Err e => (s1, Err e)
         | Ok size =>
             (mkScanner prefix prefix size (scCount s) (scFirst s) (scLast s) (scErr s) (scOut s),
              Ok (Some (drop n p)))
         end
  else (s, Ok (Some p)).

(** The bytes of a document, in the same way. *)
Definition scanDoc (p : bytes) (s : Scanner) : Scanner * result OplogErr (option bytes) :=
  let n := Nat.min (scDocLen s - length (scDoc s)) (length p) in
  let d := scDoc s ++ take n p in
  let s1 := mkScanner (scPrefix s) d (scDocLen s) (scCount s) (scFirst s) (scLast s) (scErr s) (scOut s) in
  if bool_decide (length d < scDocLen s)%nat then (s1, Ok None)
  else match scanEntry d s1 with
       | (s2, Some e) => (s2, Err e)
       | (s2, None) =>
           (mkScanner [] [] (scDocLen s2) (scCount s2) (scFirst s2) (scLast s2) (scErr s2) (scOut s2),
            Ok (Some (drop n p)))
       end.

(** [Scanner.scan]: every turn of the loop takes a byte of [p], so that the length of
    [p] bounds its turns. *)
Fixpoint scanLoop (fuel : nat) (p : bytes) (s : Scanner) : Scanner * option OplogErr :=
  match fuel with
  | O => (s, None)
  | S fuel =>
      if bool_decide (p = []) then (s, None)
      else
        match scanPrefix p s with
        | (s1, Err e) => (s1, Some e)
        | (s1, Ok None) => (s1, None)
        | (s1, Ok (Some p1)) =>
            match scanDoc p1 s1 with
            | (s2, Err e) => (s2, Some e)
            | (s2, Ok None) => (s2, None)
            | (s2, Ok (Some p2)) => scanLoop fuel p2 s2
            end
        end
  end.

Definition scan (p : bytes) (s : Scanner) : Scanner * option OplogErr := scanLoop (length p) p s.

(** The writer underneath: given what it took so far, how many bytes of [p] it takes
    and its error. *)
Definition ByteWriter : Type := bytes -> bytes -> nat * option OplogErr.

Definition failScanner (s : Scanner) (e : OplogErr) : Scanner :=
  mkScanner (scPrefix s) (scDoc s) (scDocLen s) (scCount s) (scFirst s) (scLast s) (Some e) (scOut s).

(** [Scanner.Write]. *)
Definition Write (w : ByteWriter) (p : bytes) (s : Scanner) : nat * option OplogErr * Scanner :=
  match scErr s with
  | Some e => (0%nat, Some e, s)
  | None =>
      match scan p s with
      | (s1, Some e) => (0%nat, Some e, failScanner s1 e)
      | (s1, None) =>
          let '(n, err) := w (scOut s1) p in
          (n, err, mkScanner (scPrefix s1) (scDoc s1) (scDocLen s1) (scCount s1) (scFirst s1) (scLast s1)
                     err (scOut s1 ++ take n p))
      end
  end.

(** [Scanner.Finish]. *)
Definition Finish (s : Scanner) : option OplogErr :=
  match scErr s with
  | Some e => Some e
  | None => if bool_decide (0 < length (scPrefix s))%nat then Some ErrTruncated else None
  end.

(** ** The walk of a whole stream *)

(** What a walk records. *)
Record Walked : Type := mkWalked { wkCount : Z; wkFirst : OpTime; wkLast : OpTime }.

Definition walked0 : Walked := mkWalked 0 noOpTime noOpTime.

Definition walkEntry (pos : OpTime) (w : Walked) : Walked :=
  mkWalked (i64 (wkCount w + 1)) (if wkCount w =? 0 then pos else wkFirst w) pos.

(** The reference: the documents [Reader.Next] gives, one after the other, until the
    stream ends or one is refused. *)
Fixpoint walkFrom (fuel : nat) (b : bytes) (w : Walked) : Walked * option OplogErr :=
  match fuel with
  | O => (w, Some ErrRead)
  | S fuel =>
      match Next (mkStream b false) with
      | Err EOF => (w, None)
      | Err e => (w, Some e)
      | Ok (d, r) =>
          match entryOpTime d with
          | Err e => (w, Some e)
          | Ok pos => walkFrom fuel (stBytes r) (walkEntry pos w)
          end
      end
  end.

Definition walk (b : bytes) : Walked * option OplogErr := walkFrom (S (length b)) b walked0.

Definition walkedOf (s : Scanner) : Walked := mkWalked (scCount s) (scFirst s) (scLast s).

(** A complete document, as [Next] reads one. *)
Definition wholeDoc (d : bytes) : Prop := (4 <= length d)%nat /\ documentSize (take 4 d) = Ok (length d).

Lemma documentSize_min p n : documentSize p = Ok n -> (5 <= n)%nat.
Proof. unfold documentSize, minDocumentSize. destruct (_ || _) eqn:E; [done|]. intros [= <-]. bool_cases. lia. Qed.

Lemma Next_whole d r : wholeDoc d -> Next (mkStream (d ++ r) false) = Ok (d, mkStream r false).
Proof.
  intros [Hl Hs]. pose proof (documentSize_min _ _ Hs). unfold Next, ReadFull. cbn [stBytes stFails].
  rewrite bool_decide_true by (rewrite length_app; lia). cbn [stBytes stFails].
  rewrite take_app_le, Hs by lia. rewrite bool_decide_true by (rewrite length_drop, length_app; lia). cbn.
  rewrite drop_app_le by lia. rewrite take_app_length', drop_app_length' by (rewrite length_drop; lia).
  by rewrite take_drop.
Qed.

Lemma Next_Ok b d r : Next (mkStream b false) = Ok (d, r) -> wholeDoc d /\ b = d ++ stBytes r /\ r = mkStream (stBytes r) false.
Proof.
  unfold Next, ReadFull. cbn [stBytes stFails]. case_bool_decide as H4; [|by case_bool_decide].
  destruct (documentSize (take 4 b)) as [n|] eqn:Hs; [|done]. cbn [stBytes stFails].
  case_bool_decide as Hn; [|done]. intros [= <- <-]. cbn [stBytes]. rewrite length_drop in Hn.
  pose proof (documentSize_min _ _ Hs). repeat split.
  - rewrite length_app, length_take. lia.
  - rewrite take_app_le, take_take by (rewrite length_take; lia).
    rewrite Nat.min_id, Hs, length_app, !length_take, length_drop. f_equal. lia.
  - rewrite <- app_assoc, take_drop. by rewrite take_drop.
Qed.

Lemma walkFrom_whole fuel d r w :
  wholeDoc d ->
  walkFrom (S fuel) (d ++ r) w = match entryOpTime d with Err e => (w, Some e) | Ok pos => walkFrom fuel r (walkEntry pos w) end.
Proof. intros Hd. cbn [walkFrom]. by rewrite Next_whole. Qed.

(** More fuel than bytes changes nothing. *)
Lemma walkFrom_fuel n1 : ∀ n2 b w, (length b < n1)%nat -> (length b < n2)%nat -> walkFrom n1 b w = walkFrom n2 b w.
Proof.
  induction n1 as [|n1 IH]; intros [|n2] b w H1 H2; [lia..|]. cbn [walkFrom].
  destruct (Next _) as [[d r]|] eqn:HN; [|done]. destruct (entryOpTime d); [|done].
  apply Next_Ok in HN as ([Hl _] & -> & _). rewrite length_app in *. apply IH; lia.
Qed.

(** ** The scanner follows the walk *)

(** The bytes of the document in progress. *)
Definition pending (s : Scanner) : bytes :=
  if bool_decide (length (scPrefix s) < 4)%nat then scPrefix s else scDoc s.

(** The invariant of the buffers: a partial length prefix, or a checked one and a
    partial document that starts with it. *)
Definition bufferOk (s : Scanner) : Prop :=
  (length (scPrefix s) < 4)%nat \/
  (length (scPrefix s) = 4%nat /\ take 4 (scDoc s) = scPrefix s /\
   (4 <= length (scDoc s) < scDocLen s)%nat /\ documentSize (scPrefix s) = Ok (scDocLen s)).

(** What is left of the walk when [q] follows what the scanner has received. *)
Definition rest (s : Scanner) (q : bytes) : Walked * option OplogErr :=
  walkFrom (S (length (pending s ++ q))) (pending s ++ q) (walkedOf s).

Lemma rest_eq s q n : (length (pending s ++ q) < n)%nat -> rest s q = walkFrom n (pending s ++ q) (walkedOf s).
Proof. intros Hn. apply walkFrom_fuel; lia. Qed.

Lemma Next_badSize b e :
  (4 <= length b)%nat -> documentSize (take 4 b) = Err e -> e <> EOF /\ Next (mkStream b false) = Err e.
Proof.
  intros Hl Hs. split.
  - revert Hs. unfold documentSize. destruct (_ || _); [|done]. by intros [= <-].
  - unfold Next, ReadFull. cbn [stBytes stFails]. rewrite bool_decide_true by lia. by rewrite Hs.
Qed.

Lemma scanPrefix_ok p s :
  bufferOk s -> p <> [] ->
  match scanPrefix p s with
  | (s1, Ok None) => bufferOk s1 /\ pending s1 = pending s ++ p /\ walkedOf s1 = walkedOf s
  | (s1, Ok (Some p1)) =>
      bufferOk s1 /\ length (scPrefix s1) = 4%nat /\ pending s1 ++ p1 = pending s ++ p /\
      walkedOf s1 = walkedOf s /\ (length p1 <= length p)%nat
  | (s1, Err e) => walkedOf s1 = walkedOf s /\ ∀ q, rest s (p ++ q) = (walkedOf s, Some e)
  end.
Proof.
  intros Hs Hp. unfold scanPrefix. case_bool_decide as H4; cycle 1.
  { destruct Hs as [?|(H4' & Hd & Hlen & Hsz)]; [lia|]. repeat split; try done; try lia. by right. }
  set (n := Nat.min _ _). assert (n <= length p)%nat as Hn by lia.
  assert (length (scPrefix s ++ take n p) = length (scPrefix s) + n)%nat as Hlen
    by (rewrite length_app, length_take; lia).
  assert (scPrefix s ++ take n p ++ drop n p = pending s ++ p) as Happ
    by (unfold pending; rewrite bool_decide_true, take_drop by done; done).
  case_bool_decide as H5.
  { assert (n = length p) as Hnp by lia. split; [by left|]. split; [|done].
    rewrite <- Happ. unfold pending. cbn [scPrefix]. rewrite bool_decide_true by done.
    by rewrite Hnp, drop_all, app_nil_r. }
  destruct (documentSize (scPrefix s ++ take n p)) as [size|e] eqn:Hsz.
  - pose proof (documentSize_min _ _ Hsz).
    assert (pending (mkScanner (scPrefix s ++ take n p) (scPrefix s ++ take n p) size (scCount s) (scFirst s)
      (scLast s) (scErr s) (scOut s)) = scPrefix s ++ take n p) as Hpend
      by (unfold pending; cbn; by rewrite bool_decide_false).
    split; [right; cbn [scPrefix scDoc scDocLen]; repeat split; try lia; [apply take_ge; lia|done]|].
    cbn [scPrefix]. split; [lia|]. split; [rewrite Hpend, <- Happ; by rewrite app_assoc|]. split; [done|].
    rewrite length_drop. lia.
  - split; [done|]. intros q. unfold rest. rewrite app_assoc, <- Happ. cbn [walkFrom].
    edestruct (Next_badSize ((scPrefix s ++ take n p ++ drop n p) ++ q) e) as [He ->].
    + rewrite !length_app, length_take. lia.
    + rewrite !app_assoc, <- app_assoc, take_app_length' by lia. done.
    + by destruct e.
Qed.

Lemma scanDoc_ok p s :
  bufferOk s -> length (scPrefix s) = 4%nat ->
  match scanDoc p s with
  | (s1, Ok None) => bufferOk s1 /\ pending s1 = pending s ++ p /\ walkedOf s1 = walkedOf s
  | (s1, Ok (Some p2)) =>
      bufferOk s1 /\ (length p2 < length p)%nat /\ ∀ q, rest s (p ++ q) = rest s1 (p2 ++ q)
  | (s1, Err e) => walkedOf s1 = walkedOf s /\ ∀ q, rest s (p ++ q) = (walkedOf s, Some e)
  end.
Proof.
  intros [?|(_ & Hd & Hlen & Hsz)] H4; [lia|]. unfold scanDoc. set (n := Nat.min _ _).
  assert (length (scDoc s ++ take n p) = length (scDoc s) + n)%nat as Hl by (rewrite length_app, length_take; lia).
  assert (pending s = scDoc s) as Hpend by (unfold pending; rewrite bool_decide_false by lia; done).
  case_bool_decide as Hlt.
  { assert (n = length p) as Hn by lia. unfold pending. cbn [scPrefix scDoc].
    rewrite bool_decide_false, Hn, take_ge by lia. split; [|rewrite <- Hpend; done]. right. cbn [scPrefix scDoc scDocLen].
    rewrite take_app_le by lia. rewrite Hn, take_ge in Hlt, Hl by lia. repeat split; try done; lia. }
  assert (wholeDoc (scDoc s ++ take n p)) as Hw.
  { split; [lia|]. rewrite take_app_le, Hd, Hsz by lia. f_equal. lia. }
  assert (∀ q, pending s ++ p ++ q = (scDoc s ++ take n p) ++ drop n p ++ q) as Happ.
  { intros q. rewrite Hpend, <- app_assoc. f_equal. by rewrite app_assoc, take_drop. }
  unfold scanEntry. destruct (entryOpTime (scDoc s ++ take n p)) as [pos|e] eqn:He.
  - cbn [scPrefix scDoc scDocLen scCount scFirst scLast scErr scOut]. split; [left; cbn; lia|]. rewrite length_drop. split; [lia|]. intros q.
    unfold rest at 1. rewrite Happ, walkFrom_whole, He by done. rewrite rest_eq with (n := length ((scDoc s ++ take n p) ++ drop n p ++ q)).
    + unfold pending. cbn. done.
    + unfold pending. rewrite (length_app (scDoc s ++ take n p)), Hl. case_bool_decide; cbn -[length take drop]; lia.
  - split; [done|]. intros q. unfold rest. by rewrite Happ, walkFrom_whole, He.
Qed.

(** The scanner keeps in step with the walk, whatever follows. *)
Lemma scanLoop_rest fuel : ∀ p s, bufferOk s -> (length p <= fuel)%nat ->
  match scanLoop fuel p s with
  | (s', None) => bufferOk s' /\ ∀ q, rest s (p ++ q) = rest s' q
  | (s', Some e) => ∀ q, rest s (p ++ q) = (walkedOf s', Some e)
  end.
Proof.
  induction fuel as [|fuel IH]; intros p s Hs Hp; [by destruct p; cbn in Hp; [|lia]|]. cbn [scanLoop].
  case_bool_decide as Hnil; [by subst|].
  assert (∀ s1, pending s1 = pending s ++ p -> walkedOf s1 = walkedOf s -> ∀ q, rest s (p ++ q) = rest s1 q) as Hrest.
  { intros s1 Hp1 Hw q. unfold rest. rewrite Hp1, Hw, app_assoc. done. }
  pose proof (scanPrefix_ok p s Hs Hnil) as HP. destruct (scanPrefix p s) as [s1 [[p1|]|e]]; [|destruct HP as (? & ? & ?); by split; [|apply Hrest]|].
  2: { destruct HP as [Hw HP]. intros q. by rewrite HP, Hw. }
  destruct HP as (Hs1 & H4 & Happ & Hw & Hl).
  assert (∀ q, rest s (p ++ q) = rest s1 (p1 ++ q)) as H1 by (intros q; unfold rest; by rewrite Hw, !app_assoc, Happ).
  pose proof (scanDoc_ok p1 s1 Hs1 H4) as HD. destruct (scanDoc p1 s1) as [s2 [[p2|]|e]].
  - destruct HD as (Hs2 & Hl2 & HD). specialize (IH p2 s2 Hs2 ltac:(lia)).
    destruct (scanLoop fuel p2 s2) as [s' [e|]].
    + intros q. by rewrite H1, HD.
    + destruct IH as [Hs' IH]. split; [done|]. intros q. by rewrite H1, HD.
  - destruct HD as (Hs2 & Hp2 & Hw2). split; [done|]. intros q. rewrite H1. unfold rest. by rewrite Hp2, Hw2, app_assoc.
  - destruct HD as [Hw2 HD]. intros q. by rewrite H1, HD, Hw2.
Qed.

(** A writer underneath that takes everything. *)
Definition takesAll (w : ByteWriter) : Prop := ∀ out p, w out p = (length p, None).

Definition writeAll (w : ByteWriter) (ps : list bytes) (s : Scanner) : Scanner :=
  foldl (λ s p, snd (Write w p s)) s ps.

Lemma scanLoop_frame fuel : ∀ p s, scErr (scanLoop fuel p s).1 = scErr s /\ scOut (scanLoop fuel p s).1 = scOut s.
Proof.
  induction fuel as [|fuel IH]; intros p s; [done|]. cbn [scanLoop]. case_bool_decide; [done|].
  destruct (scanPrefix p s) as [s1 r] eqn:HP. assert (scErr s1 = scErr s /\ scOut s1 = scOut s) as [He Ho].
  { revert HP. unfold scanPrefix. repeat case_bool_decide; try destruct (documentSize _); by intros [= <- <-]. }
  destruct r as [[p1|]|]; [|done..]. destruct (scanDoc p1 s1) as [s2 r] eqn:HD.
  assert (scErr s2 = scErr s1 /\ scOut s2 = scOut s1) as [He2 Ho2].
  { revert HD. unfold scanDoc, scanEntry. case_bool_decide; [by intros [= <- <-]|].
    destruct (entryOpTime _); by intros [= <- <-]. }
  destruct r as [[p2|]|]; cbn [fst]; [destruct (IH p2 s2)|..]; split; congruence.
Qed.

Lemma writeAll_failed w ps s e : scErr s = Some e -> writeAll w ps s = s.
Proof.
  intros He. induction ps as [|p ps IH]; [done|]. cbn. unfold Write. rewrite He. exact IH.
Qed.

(** The scanner's state after a run of writes: stopped where the walk of everything
    written stops, or in step with it. *)
Lemma writeAll_rest w ps : takesAll w -> ∀ s, bufferOk s -> scErr s = None ->
  let s' := writeAll w ps s in
  match scErr s' with
  | Some e => ∀ q, rest s (concat ps ++ q) = (walkedOf s', Some e)
  | None => bufferOk s' /\ scOut s' = scOut s ++ concat ps /\ ∀ q, rest s (concat ps ++ q) = rest s' q
  end.
Proof.
  intros Hw. induction ps as [|p ps IH]; intros s Hs He; cbn [concat].
  - change (writeAll w [] s) with s. rewrite He, app_nil_r. done.
  - change (writeAll w (p :: ps) s) with (writeAll w ps (snd (Write w p s))). unfold Write. rewrite He. unfold scan.
    pose proof (scanLoop_rest (length p) p s Hs ltac:(done)) as HL.
    pose proof (scanLoop_frame (length p) p s) as [Hfe Hfo].
    destruct (scanLoop (length p) p s) as [s1 [e|]]; cbn [fst snd] in *.
    + rewrite (writeAll_failed _ _ _ e) by done. cbn [failScanner scErr].
      intros q. rewrite <- app_assoc, HL. done.
    + rewrite Hw, take_ge by lia. cbn [snd]. destruct HL as [Hs1 HL].
      set (s2 := mkScanner _ _ _ _ _ _ _ _). specialize (IH s2 Hs1 eq_refl).
      assert (∀ q, rest s (p ++ q) = rest s2 q) as H2 by (intros q; rewrite HL; done).
      cbn zeta in IH. destruct (scErr (writeAll w ps s2)).
      * intros q. by rewrite <- app_assoc, H2, IH.
      * destruct IH as (? & Ho & IH). split; [done|]. split; [|intros q; by rewrite <- app_assoc, H2, IH].
        rewrite Ho. subst s2. cbn [scOut]. by rewrite Hfo, <- app_assoc.
Qed.

(** At the end of the stream the walk reports what [Finish] does. *)
Lemma rest_nil s : bufferOk s -> scErr s = None -> rest s [] = (walkedOf s, Finish s).
Proof.
  intros Hs He. unfold rest, Finish. rewrite He, app_nil_r. cbn [walkFrom]. unfold pending.
  destruct Hs as [Hs|(H4 & Hd & Hlen & Hsz)].
  - rewrite (bool_decide_true (length (scPrefix s) < 4)%nat) by done. unfold Next, ReadFull. cbn [stBytes stFails].
    rewrite (bool_decide_false (4 <= _)%nat) by lia.
    destruct (scPrefix s); cbn; [done|]. done.
  - rewrite (bool_decide_false (length (scPrefix s) < 4)%nat) by lia. unfold Next, ReadFull. cbn [stBytes stFails].
    rewrite (bool_decide_true (4 <= _)%nat) by lia. rewrite Hd, Hsz. cbn [stBytes stFails].
    rewrite (bool_decide_false (_ - 4 <= _)%nat) by (rewrite length_drop; lia).
    by rewrite bool_decide_true by lia.
Qed.

(** [C32] The scanner of the chunk pipeline, whatever the boundaries of the writes, ends
    as the walk of [Reader] over all the bytes written ends: same error of [Finish] (a
    document cut short, a bad length prefix, an invalid entry, or none), same count and
    same first and last positions; and when it has not stopped, the writer underneath has
    received exactly the bytes written. *)
Theorem scanner_walks w ps :
  takesAll w ->
  let s := writeAll w ps NewScanner in
  (walkedOf s, Finish s) = walk (concat ps) /\ (scErr s = None -> scOut s = concat ps).
Proof.
  intros Hw s. pose proof (writeAll_rest w ps Hw NewScanner ltac:(left; cbn; lia) eq_refl) as H1.
  cbn zeta in H1. fold s in H1. assert (rest NewScanner (concat ps ++ []) = walk (concat ps)) as Hr
    by (unfold rest, walk; cbn [pending]; unfold pending; cbn -[length walkFrom]; by rewrite app_nil_r).
  destruct (scErr s) as [e|] eqn:He.
  - split; [|done]. rewrite <- Hr, H1. unfold Finish. by rewrite He.
  - destruct H1 as (Hs & Ho & H1). split; [|done]. rewrite <- Hr, H1. symmetry. by apply rest_nil.
Qed.

End Walk.
