(* ===== verification/OplogFilter.v ===== *)
(** * The filter of a replayed oplog (src/internal/oplog/filter.go, indexes.go, views.go)

    [Filter] rewrites the entries of a stream for a replay of some databases under other
    names. Its operations thread the counters, the open transactions and the indexes
    written so far; they run in a state monad whose errors keep the state, as the Go
    methods do. *)

From Stdlib Require Import Ascii.
From S2P Require Import Prelude Pitr GoStrings Bson OplogScan.

(** [maxApplyOpsDepth] and [maxDatabaseName]. *)
Definition maxApplyOpsDepth : nat := 8.
Definition maxDatabaseName : nat := 63.

(** [strippedFields], [txnFields] and [ignoredOps]. *)
Definition strippedFields (key : string) : bool :=
  bool_decide (key ∈ ["ui"; "lsid"; "txnNumber"; "stmtId"; "prevOpTime"; "preImageOpTime"; "postImageOpTime";
                      "needsRetryImage"; "multiOpType"; "fromMigrate"]).
Definition txnFields (key : string) : bool := bool_decide (key ∈ ["lsid"; "txnNumber"; "prevOpTime"]).
Definition ignoredOps (op : string) : bool := bool_decide (op ∈ ["n"; "cd"; "ci"; "cu"; "km"]).

(** [viewsCollection] and [bucketsPrefix] (views.go). *)
Definition viewsCollection : string := "system.views".
Definition bucketsPrefix : string := "system.buckets.".

(** [Filter]: its settings. A Go map read with a missing key is false. *)
Record Filter : Type := mkFilter {
  fSelect : option (gmap string bool);
  fExclude : option (string -> bool);
  fRename : option (string -> string);
  fInPlace : bool;
  fLimit : Timestamp
}.

(** [txnState]. *)
Record txnState : Type := mkTxn { txWritten : Z; txOps : Z; txPending : Z }.

(** [indexSpec]; its [spec] is kept as the document [Marshal] encoded. *)
Record indexSpec : Type := mkSpec { isName : string; isKey : string; isSpec : doc }.

(** [Filter]: its state, with the entries the writer has received. *)
Record FState : Type := mkFState {
  fsOps : Z;
  fsEntries : Z;
  fsLimitReached : bool;
  fsTxns : gmap string txnState;
  fsIndexes : gmap string (list indexSpec);
  fsOut : list bytes
}.

Definition newFState : FState := mkFState 0 0 false ∅ ∅ [].

Definition withTxns (g : gmap string txnState -> gmap string txnState) (s : FState) : FState :=
  mkFState (fsOps s) (fsEntries s) (fsLimitReached s) (g (fsTxns s)) (fsIndexes s) (fsOut s).
Definition withIndexes (g : gmap string (list indexSpec) -> gmap string (list indexSpec)) (s : FState) : FState :=
  mkFState (fsOps s) (fsEntries s) (fsLimitReached s) (fsTxns s) (g (fsIndexes s)) (fsOut s).

(** ** The monad *)

Definition M (A : Type) : Type := FState -> FState * result OplogErr A.
Definition ret {A} (a : A) : M A := λ s, (s, Ok a).
Definition fail {A} (e : OplogErr) : M A := λ s, (s, Err e).
Definition bind {A B} (m : M A) (k : A -> M B) : M B :=
  λ s, match m s with (s1, Ok a) => k a s1 | (s1, Err e) => (s1, Err e) end.
Definition get : M FState := λ s, (s, Ok s).
Definition modify (g : FState -> FState) : M unit := λ s, (g s, Ok tt).
Definition lift {A} (r : result OplogErr A) : M A := λ s, (s, r).
Definition orFail {A} (e : OplogErr) (o : option A) : M A := match o with Some a => ret a | None => fail e end.

#[global] Instance M_ret : MRet M := @ret.
#[global] Instance M_bind : MBind M := λ A B k m, bind m k.

(** ** Names *)

(** [systemDB]. *)
Definition systemDB (db : string) : bool := bool_decide (db ∈ ["admin"; "config"; "local"]).

(** [renameNS]. *)
Definition renameNS (ns from to : string) : string :=
  match CutPrefix ns (from +:+ ".") with
  | Some rest => to +:+ "." +:+ rest
  | None => ns
  end.

(** The characters no database name has: [. / \ space quote $] and NUL. *)
Definition badDBChars : string :=
  String "."%char (String "/"%char (String "\"%char (String " "%char (String (Ascii.ascii_of_nat 34) (String "$"%char (String Ascii.zero EmptyString)))))).

(** [indexKey]. *)
Definition indexKey (db coll : string) : string := db +:+ String Ascii.zero coll.

(** [strings.Cut(ns, ".")]. *)
Definition cutNS (ns : string) : string * string * bool := Cut "."%char ns.

Section Filtering.
Context `{Driver} (f : Filter).

(** [Filter.selected]. *)
Definition selected (db : string) : bool :=
  if systemDB db || match fExclude f with Some ex => ex db | None => false end then false
  else match fSelect f with
       | None => true
       | Some sel => default false (sel !! db)
       end.

(** [Filter.rename]. *)
Definition rename (db : string) : result OplogErr string :=
  if fInPlace f then Ok db
  else match fRename f with
       | None => Err NilCall
       | Some r =>
           let to := r db in
           if bool_decide (to = db) || bool_decide (to = EmptyString) || bool_decide (maxDatabaseName < String.length to)%nat ||
              ContainsAny to badDBChars || systemDB to
           then Err ErrBadRename else Ok to
       end.

(** ** Entries *)

(** [commandName]. *)
Definition commandName (entry : doc) : string :=
  match DocumentOK (Lookup entry "o") with
  | None => EmptyString
  | Some o => default EmptyString (fst <$> head o)
  end.

(** [txnID]. *)
Definition txnID (entry : doc) : option string :=
  if negb (bool_decide (stringOf (Lookup entry "op") = "c")) then None
  else match Lookup entry "lsid", Lookup entry "txnNumber" with
       | Some lsid, Some txn =>
           if bool_decide (Lookup entry "multiOpType" ≫= AsInt64OK = Some 1) then None
           else if bool_decide (commandName entry ∈ ["applyOps"; "commitTransaction"; "abortTransaction"])
                then Some (Value lsid +:+ String Ascii.zero (Value txn))
                else None
       | _, _ => None
       end.

(** [renameSpecNS]. *)
Definition renameSpecNS (spec : doc) (from to : string) : doc :=
  rebuild spec (λ k v,
    match v with
    | BString s => if bool_decide (k = "ns") then Some (BString (renameNS s from to)) else Some v
    | _ => Some v
    end).

(** [commandEntry] (views.go). *)
Definition commandEntry (entry : doc) (to : string) (cmd : doc) : doc :=
  rebuild entry (λ key v,
    if strippedFields key || bool_decide (key = "o2") then None
    else if bool_decide (key = "op") then Some (BString "c")
    else if bool_decide (key = "ns") then Some (BString (to +:+ ".$cmd"))
    else if bool_decide (key = "o") then Some (BDoc cmd)
    else Some v).

(** [Filter.asCommand]. *)
Definition asCommand (entry : doc) (db : string) (cmd : doc) : M doc :=
  to ← lift (rename db);
  ret (commandEntry entry to cmd).

(** The edit of [crud]. *)
Definition crudEntry (d : doc) (ns : string) : doc :=
  rebuild d (λ key v,
    if strippedFields key then None
    else if bool_decide (key = "ns") then Some (BString ns)
    else Some v).

(** [Filter.crud]. *)
Definition crud (d : doc) (db coll : string) : M doc :=
  to ← lift (rename db);
  ret (crudEntry d (to +:+ "." +:+ coll)).

(** The edit of the entry that [ddl], [applyOps], [renameCollection] and
    [commitIndexBuild] share: the stripped fields go, [ns] and [o] are replaced. *)
Definition editEntry (ns : string) (o' : doc) (d : doc) (other : string -> value -> value) : doc :=
  rebuild d (λ key v,
    if strippedFields key then None
    else if bool_decide (key = "ns") then Some (BString ns)
    else if bool_decide (key = "o") then Some (BDoc o')
    else Some (other key v)).

Definition keepValue (_ : string) (v : value) : value := v.

(** [Filter.ddl]. *)
Definition ddl (d o : doc) (db : string) : M doc :=
  to ← lift (rename db);
  let o' := rebuild o (λ k v,
    match v with
    | BString s => if bool_decide (k = "ns") then Some (BString (renameNS s db to)) else Some v
    | BDoc spec => if bool_decide (k = "idIndex") then Some (BDoc (renameSpecNS spec db to)) else Some v
    | _ => Some v
    end) in
  ret (editEntry (to +:+ ".$cmd") o' d (λ key v,
    match v with
    | BDoc spec => if bool_decide (key = "o2") then BDoc (renameSpecNS spec db to) else v
    | _ => v
    end)).

(** ** Indexes (indexes.go) *)

(** [Filter.addIndex]. *)
Definition addIndex (db coll : string) (spec : doc) : M unit :=
  _ ← orFail ErrMalformed (Marshal spec);
  let name := stringOf (Lookup spec "name") in
  let key := match Lookup spec "key" with Some v => Value v | None => EmptyString end in
  modify (withIndexes (λ m, <[indexKey db coll := default [] (m !! indexKey db coll) ++ [mkSpec name key spec]]> m)).

(** The specifications a dropIndexes of [index] leaves. *)
Definition keptSpecs (index : option value) (specs : list indexSpec) : list indexSpec :=
  filter (λ sp,
    let byName := match StringValueOK index with Some s => bool_decide (isName sp = s) | None => false end in
    let byKey := match index with Some (BDoc k) => bool_decide (isKey sp = Value (BDoc k)) | _ => false end in
    negb byName && negb byKey = true) specs.

(** The names of dropIndexes. *)
Definition dropIndexNames : list string := ["dropIndexes"; "dropIndex"; "deleteIndexes"; "deleteIndex"].

(** [Filter.trackIndexes]. *)
Definition trackIndexes (name : string) (o : doc) (db : string) : M unit :=
  let coll := stringOf (Lookup o name) in
  if bool_decide (name = "createIndexes") then
    addIndex db coll (rebuild o (λ k v, if bool_decide (k <> "createIndexes") then Some v else None))
  else if bool_decide (name = "drop") then modify (withIndexes (delete (indexKey db coll)))
  else if bool_decide (name = "dropDatabase") then
    modify (withIndexes (filter (λ kv, HasPrefix kv.1 (indexKey db EmptyString) = false)))
  else if bool_decide (name ∈ dropIndexNames) then
    let k := indexKey db coll in
    s ← get;
    let specs := default [] (fsIndexes s !! k) in
    if bool_decide (specs = []) then ret tt
    else if bool_decide (StringValueOK (Lookup o "index") = Some "*") then modify (withIndexes (delete k))
    else modify (withIndexes (<[k := keptSpecs (Lookup o "index") specs]>))
  else ret tt.

(** [Filter.moveIndexes]. *)
Definition moveIndexes (entry : doc) (fromDB fromColl toDB toColl : string) : M (list doc) :=
  let from := indexKey fromDB fromColl in
  let to := indexKey toDB toColl in
  s ← get;
  let specs := default [] (fsIndexes s !! from) in
  let dropAll db coll := commandEntry entry db [("dropIndexes", BString coll); ("index", BString "*")] in
  out ←
    (if bool_decide (default [] (fsIndexes s !! to) = []) then ret []
     else _ ← modify (withIndexes (delete to)); ret [dropAll toDB toColl]);
  if bool_decide (specs = []) then ret out
  else
    let creates := map (λ sp, commandEntry entry toDB (("createIndexes", BString toColl) :: rebuild (isSpec sp) (λ _ v, Some v))) specs in
    _ ← modify (withIndexes (λ m, delete from (<[to := specs]> m)));
    ret (out ++ creates ++ [dropAll fromDB fromColl]).

(** ** Views and time series (views.go) *)

(** [Filter.viewOp]. *)
Definition viewOp (d : doc) (opType db : string) : M (list doc * Z) :=
  o ← orFail ErrMalformed (DocumentOK (Lookup d "o"));
  let id := match StringValueOK (Lookup o "_id") with
            | Some id => Some id
            | None => StringValueOK (Lookup2 d "o2" "_id")
            end in
  match id ≫= λ id, CutPrefix id (db +:+ ".") with
  | None => fail ErrMalformed
  | Some name =>
      if bool_decide (name = EmptyString) then fail ErrMalformed
      else if bool_decide (opType = "d") then
        d' ← asCommand d db [("drop", BString name)]; ret ([d'], 1)
      else
        match Lookup o "viewOn", Lookup o "pipeline" with
        | Some (BString viewOn), Some (BArray pipeline) =>
            if HasPrefix viewOn bucketsPrefix then ret ([], 0)
            else
              let verb := if bool_decide (opType = "u") then "collMod" else "create" in
              let cmd := [(verb, BString name); ("viewOn", BString viewOn); ("pipeline", BArray pipeline)] ++
                         match Lookup o "collation" with
                         | Some c => if bool_decide (opType = "i") then [("collation", c)] else []
                         | None => []
                         end in
              d' ← asCommand d db cmd; ret ([d'], 1)
        | _, _ => fail ErrUnknownCommand
        end
  end.

(** [timeseriesCreate]. *)
Definition timeseriesCreate (o : doc) : option doc :=
  match CutPrefix (stringOf (Lookup o "create")) bucketsPrefix, DocumentOK (Lookup o "timeseries") with
  | Some name, Some ts =>
      if bool_decide (name = EmptyString) then None
      else
        let hasGranularity := match StringValueOK (Lookup ts "granularity") with Some _ => true | None => false end in
        let options := rebuild ts (λ k v,
          if hasGranularity && bool_decide (k ∈ ["bucketMaxSpanSeconds"; "bucketRoundingSeconds"]) then None else Some v) in
        Some ([("create", BString name); ("timeseries", BDoc options)] ++
              match Lookup o "expireAfterSeconds" with Some e => [("expireAfterSeconds", e)] | None => [] end)
  | _, _ => None
  end.

(** ** Commands *)

(** The result of filtering one operation: what replaces it and its count. *)
Abbreviation filtered := (list doc * Z)%type.

(** The edit of the command of a rename. *)
Definition renamedCommand (o : doc) (from fromDB newFrom to toDB newTo : string) : doc :=
  rebuild o (λ k v,
    if bool_decide (k = "renameCollection") then Some (BString (renameNS from fromDB newFrom))
    else if bool_decide (k = "to") then Some (BString (renameNS to toDB newTo))
    else if bool_decide (k = "dropTarget") then Some (BBool false)
    else Some v).

(** Whether a rename drops its target: a UUID or true. *)
Definition dropsTarget (o : doc) : bool :=
  match Lookup o "dropTarget" with
  | None => false
  | Some (BBool b) => b
  | Some _ => true
  end.

(** The drop of the target, written before the rename. *)
Definition dropTarget (d o : doc) (newTo toColl : string) : M (list doc) :=
  if dropsTarget o then
    let drop := [("drop", BString toColl)] in
    _ ← trackIndexes "drop" drop newTo;
    ret [commandEntry d newTo drop]
  else ret [].

(** [Filter.renameCollection]. *)
Definition renameCollection (d o : doc) : M filtered :=
  match StringValueOK (Lookup o "renameCollection"), StringValueOK (Lookup o "to") with
  | Some from, Some to =>
      let '(fromDB, fromColl, okFrom) := cutNS from in
      let '(toDB, toColl, okTo) := cutNS to in
      if negb okFrom || negb okTo then fail ErrMalformed
      else if negb (eqb (selected fromDB) (selected toDB)) then fail ErrCrossSelectionRename
      else if negb (selected fromDB) then ret ([], 0)
      else
        newFrom ← lift (rename fromDB);
        newTo ← lift (rename toDB);
        let d' := editEntry (newFrom +:+ ".$cmd") (renamedCommand o from fromDB newFrom to toDB newTo) d keepValue in
        drops ← dropTarget d o newTo toColl;
        moves ← moveIndexes d newFrom fromColl newTo toColl;
        let out := drops ++ [d'] ++ moves in
        ret (out, i64 (Z.of_nat (length out)))
  | _, _ => fail ErrMalformed
  end.

(** One index of [commitIndexBuild]. *)
Definition commitIndex (d : doc) (db to coll : string) (spec : value) : M doc :=
  spec ← orFail ErrMalformed (DocumentOK (Some spec));
  let renamed := renameSpecNS spec db to in
  _ ← addIndex to coll renamed;
  ret (editEntry (to +:+ ".$cmd") (("createIndexes", BString coll) :: renamed) d keepValue).

(** A loop whose body returns a value per element. *)
Fixpoint mapMs {A B} (g : A -> M B) (l : list A) : M (list B) :=
  match l with
  | [] => ret []
  | x :: r => y ← g x; ys ← mapMs g r; ret (y :: ys)
  end.

(** [Filter.commitIndexBuild]. *)
Definition commitIndexBuild (d o : doc) (db : string) : M filtered :=
  coll ← orFail ErrMalformed (StringValueOK (Lookup o "commitIndexBuild"));
  specs ← orFail ErrMalformed (ArrayOK (Lookup o "indexes"));
  to ← lift (rename db);
  out ← mapMs (commitIndex d db to coll) specs;
  ret (out, i64 (Z.of_nat (length out))).

(** The commands that [ddl] rewrites. *)
Definition ddlNames : list string :=
  ["create"; "drop"; "collMod"; "createIndexes"; "dropDatabase"; "dropIndexes"; "dropIndex"; "deleteIndexes";
   "deleteIndex"; "convertToCapped"; "emptycapped"].

(** The case of [command] for those commands, on a selected database. *)
Definition ddlCommand (name : string) (d o : doc) (db : string) : M filtered :=
  if bool_decide (name = "create") && bool_decide (stringOf (Lookup o "create") = viewsCollection) then ret ([], 0)
  else match (if bool_decide (name = "create") then timeseriesCreate o else None) with
       | Some cmd => d' ← asCommand d db cmd; ret ([d'], 1)
       | None =>
           d' ← ddl d o db;
           to ← lift (rename db);
           _ ← trackIndexes name o to;
           ret ([d'], 1)
       end.

(** The array [nestedArray] makes. *)
Definition nestedArray (ops : list doc) : value := BArray (map BDoc ops).

(** [Filter.applyOps], with [nested] at its depth. *)
Definition applyOps (nested : doc -> M filtered) (d o : doc) (db : string) : M filtered :=
  '(kept, ops) ← nested o;
  if bool_decide (kept = []) then ret ([], 0)
  else
    ns ← (if selected db then to ← lift (rename db); ret (to +:+ ".$cmd") else ret "admin.$cmd");
    let o' := rebuild o (λ k v, if bool_decide (k = "applyOps") then Some (nestedArray kept) else Some v) in
    ret ([editEntry ns o' d keepValue], i64 (1 + ops)).

(** [Filter.command]. *)
Definition command (nested : doc -> M filtered) (d : doc) (db : string) : M filtered :=
  o ← orFail ErrMalformed (DocumentOK (Lookup d "o"));
  first ← orFail ErrMalformed (head o);
  let name := first.1 in
  if bool_decide (name = "renameCollection") then renameCollection d o
  else if systemDB db && (negb (bool_decide (db = "admin")) || negb (bool_decide (name = "applyOps"))) then ret ([], 0)
  else if bool_decide (name = "applyOps") then applyOps nested d o db
  else if bool_decide (name ∈ ddlNames) then
    if selected db then ddlCommand name d o db else ret ([], 0)
  else if bool_decide (name = "commitIndexBuild") then
    if selected db then commitIndexBuild d o db else ret ([], 0)
  else if bool_decide (name ∈ ["startIndexBuild"; "abortIndexBuild"; "dbCheck"]) then ret ([], 0)
  else fail ErrUnknownCommand.

(** [Filter.op], with [nested] for the operations in it. *)
Definition opWith (nested : doc -> M filtered) (d : doc) : M filtered :=
  opType ← orFail ErrMalformed (StringValueOK (Lookup d "op"));
  if ignoredOps opType then ret ([], 0)
  else
    ns ← orFail ErrMalformed (StringValueOK (Lookup d "ns"));
    let '(db, coll, ok) := cutNS ns in
    if negb ok || bool_decide (db = EmptyString) then fail ErrMalformed
    else if bool_decide (opType ∈ ["i"; "u"; "d"]) then
      if negb (selected db) then ret ([], 0)
      else if bool_decide (coll = viewsCollection) then viewOp d opType db
      else d' ← crud d db coll; ret ([d'], 1)
    else if bool_decide (opType = "c") then command nested d db
    else fail ErrUnknownOp.

(** The loop of [nested]. *)
Fixpoint nestedLoop (op : doc -> M filtered) (values : list value) : M filtered :=
  match values with
  | [] => ret ([], 0)
  | v :: r =>
      d ← orFail ErrMalformed (DocumentOK (Some v));
      '(kept, n) ← op d;
      '(keptR, nR) ← nestedLoop op r;
      ret (kept ++ keptR, i64 (n + nR))
  end.

(** [Filter.nested]; [levels] is [maxApplyOpsDepth] less the depth. *)
Fixpoint nested (levels : nat) (o : doc) : M filtered :=
  match levels with
  | O => fail ErrMalformed
  | S levels =>
      values ← orFail ErrMalformed (ArrayOK (Lookup o "applyOps"));
      nestedLoop (opWith (nested levels)) values
  end.

(** [Filter.op] of a top-level entry. *)
Definition op (d : doc) : M filtered := opWith (nested maxApplyOpsDepth) d.

(** ** Transactions *)

(** [sameIntType]. *)
Definition sameIntType (v : value) (n : Z) : value :=
  match v with
  | BInt32 _ => if n <=? 2 ^ 31 - 1 then BInt32 n else BInt64 n
  | _ => BInt64 n
  end.

(** The fields a transaction entry keeps. *)
Definition txnKeeps (key : string) : bool := negb (strippedFields key) || txnFields key.

(** The entry of a transaction, with the operations kept and their count so far. *)
Definition txnEntry (entry o : doc) (kept : list doc) (count : Z) : doc :=
  let o' := rebuild o (λ k v,
    if bool_decide (k = "applyOps") then Some (nestedArray kept)
    else if bool_decide (k = "count") then Some (sameIntType v count)
    else Some v) in
  rebuild entry (λ key v,
    if bool_decide (key = "o") then Some (BDoc o')
    else if txnKeeps key then Some v else None).

(** The [commitTransaction] or [abortTransaction] of a prepared transaction. *)
Definition txnEnd (entry : doc) (st : option txnState) (id : string) : M filtered :=
  _ ← modify (withTxns (delete id));
  match st with
  | None => ret ([], 0)
  | Some st =>
      if txWritten st =? 0 then ret ([], 0)
      else
        let d := rebuild entry (λ key v, if txnKeeps key then Some v else None) in
        if bool_decide (commandName entry = "abortTransaction") then ret ([d], 0) else ret ([d], txPending st)
  end.

(** [Filter.transaction]. *)
Definition transaction (entry : doc) (id : string) : M filtered :=
  if negb (bool_decide (stringOf (Lookup entry "ns") = "admin.$cmd")) then fail ErrMalformed
  else
    s ← get;
    let st := fsTxns s !! id in
    if bool_decide (commandName entry ∈ ["commitTransaction"; "abortTransaction"]) then txnEnd entry st id
    else
      let o := default [] (DocumentOK (Lookup entry "o")) in
      let commit := negb (isTrue o "partialTxn") && negb (isTrue o "prepare") in
      '(kept, ops) ← nested maxApplyOpsDepth o;
      let st0 := default (mkTxn 0 0 0) st in
      let st1 := mkTxn (txWritten st0) (i64 (txOps st0 + i64 (Z.of_nat (length kept)))) (i64 (txPending st0 + ops)) in
      _ ← modify (withTxns (if commit then delete id else <[id := st1]>));
      if bool_decide (kept = []) && (negb commit || (txWritten st1 =? 0)) then ret ([], 0)
      else
        let st2 := mkTxn (i64 (txWritten st1 + 1)) (txOps st1) (txPending st1) in
        _ ← modify (withTxns (if commit then (λ m, m) else <[id := st2]>));
        let d := txnEntry entry o kept (txOps st2) in
        ret ([d], if commit then txPending st2 else 0).

(** ** Apply and Copy *)

(** The writer: given the entries it has received, its error on another, if any. *)
Definition EntryWriter : Type := list bytes -> bytes -> option OplogErr.

Definition addEntry (b : bytes) (s : FState) : FState :=
  mkFState (fsOps s) (i64 (fsEntries s + 1)) (fsLimitReached s) (fsTxns s) (fsIndexes s) (fsOut s ++ [b]).
Definition addOps (n : Z) (s : FState) : FState :=
  mkFState (i64 (fsOps s + n)) (fsEntries s) (fsLimitReached s) (fsTxns s) (fsIndexes s) (fsOut s).
Definition reachLimit (s : FState) : FState :=
  mkFState (fsOps s) (fsEntries s) true (fsTxns s) (fsIndexes s) (fsOut s).

(** The loop of [Apply] that encodes and emits. *)
Fixpoint emitAll (w : EntryWriter) (out : list doc) : M unit :=
  match out with
  | [] => ret tt
  | d :: r =>
      b ← orFail ErrMalformed (Marshal d);
      s ← get;
      match w (fsOut s) b with
      | Some e => fail e
      | None => _ ← modify (addEntry b); emitAll w r
      end
  end.

(** What [Apply] emits for a document, before it is encoded. *)
Definition filterEntry (d : doc) : M filtered :=
  match txnID d with
  | Some id => transaction d id
  | None => op d
  end.

(** Whether an entry at [ts] is at or after the limit. *)
Definition atLimit (ts : Timestamp) : bool :=
  negb (bool_decide (fLimit f = zeroTS)) && negb (Before ts (fLimit f)).

(** [Filter.Apply]: whether the stream must end here. *)
Definition Apply (w : EntryWriter) (entry : bytes) : M bool :=
  if eqb (match fRename f with None => true | Some _ => false end) (negb (fInPlace f)) then fail ErrNoTarget
  else
    s ← get;
    if fsLimitReached s then ret true
    else
      d ← orFail ErrMalformed (Validate entry);
      ts ← orFail ErrMalformed (TimestampOK (Lookup d "ts"));
      if atLimit ts then _ ← modify reachLimit; ret true
      else
        '(out, ops) ← filterEntry d;
        _ ← emitAll w out;
        _ ← modify (addOps ops);
        ret false.

(** [Filter.Copy] on a context that is not done; a document takes at least five bytes,
    so that the length of the stream bounds the turns of the loop. *)
Fixpoint copyLoop (w : EntryWriter) (fuel : nat) (src : Stream) : M unit :=
  match fuel with
  | O => fail ErrRead
  | S fuel =>
      match Next src with
      | Err EOF => ret tt
      | Err e => fail e
      | Ok (b, src') =>
          stop ← Apply w b;
          if stop : bool then ret tt else copyLoop w fuel src'
      end
  end.

Definition Copy (w : EntryWriter) (src : Stream) : M unit := copyLoop w (S (length (stBytes src))) src.

End Filtering.
