(* ===== verification/OplogReplay.v ===== *)
(** * What a filtered oplog replays (about src/internal/oplog/filter.go)

    The operations an entry stands for, as mongorestore applies them: a write, a
    command, or an applyOps and the operations in it. Against this view the filter is
    shown to write only to the renamed databases, to keep exactly the writes of the
    selected databases, and to count what mongorestore will count. *)

From Stdlib Require Import Ascii.
From S2P Require Import Prelude Pitr GoStrings Bson OplogScan OplogFilter.

(** An operation: its type, its database, the rest of its namespace, the name of its
    command and its documents. *)
Record item : Type := mkItem {
  itOp : string;
  itDB : string;
  itColl : string;
  itName : string;
  itO : option value;
  itO2 : option value
}.

Section Items.
Context `{Driver}.

Definition itemOf (d : doc) : item :=
  let '(db, coll, _) := cutNS (stringOf (Lookup d "ns")) in
  let op := stringOf (Lookup d "op") in
  mkItem op db coll (if bool_decide (op = "c") then commandName d else EmptyString) (Lookup d "o") (Lookup d "o2").

(** The databases whose applyOps carry operations: [config] and [local] have none. *)
Definition carries (db : string) : bool := negb (bool_decide (db ∈ ["config"; "local"])).

(** The operations nested in an applyOps. *)
Definition nestedDocs (o : option value) : list doc :=
  match DocumentOK o with
  | Some o => omap (λ v, DocumentOK (Some v)) (default [] (ArrayOK (Lookup o "applyOps")))
  | None => []
  end.

(** The operations of an entry, an applyOps before those in it; [n] bounds the nesting. *)
Fixpoint items (n : nat) (d : doc) : list item :=
  itemOf d ::
  match n with
  | O => []
  | S n =>
      if bool_decide (itName (itemOf d) = "applyOps") && carries (itDB (itemOf d))
      then flat_map (items n) (nestedDocs (Lookup d "o")) else []
  end.

Definition itemsAll (n : nat) (ds : list doc) : list item := flat_map (items n) ds.

(** The writes to documents. *)
Definition isWrite (it : item) : bool := bool_decide (itOp it ∈ ["i"; "u"; "d"]).

(** The databases an operation changes. An applyOps changes what its operations change;
    on [admin], where MongoDB puts it, it names no other database. *)
Definition touches (it : item) : list string :=
  if isWrite it then [itDB it]
  else if bool_decide (itName it = "renameCollection") then
    match DocumentOK (itO it) with
    | Some o => [itDB it; (cutNS (stringOf (Lookup o "renameCollection"))).1.1; (cutNS (stringOf (Lookup o "to"))).1.1]
    | None => [itDB it]
    end
  else if bool_decide (itName it ∈ ["applyOps"; "commitTransaction"; "abortTransaction"]) && bool_decide (itDB it = "admin")
  then []
  else [itDB it].

Section Spec.
Context (f : Filter).

(** A database the filter writes to. *)
Definition target (t : string) : Prop := ∃ db, selected f db = true /\ rename f db = Ok t.

Definition confined (it : item) : Prop := Forall target (touches it).

(** The writes to replay: those of the selected databases, except of [system.views],
    which become commands. *)
Definition kept (it : item) : Prop :=
  isWrite it = true /\ selected f (itDB it) = true /\ itColl it <> viewsCollection.
#[global] Instance kept_dec it : Decision (kept it).
Proof. unfold kept. apply _. Defined.

Definition renamedItem (it : item) : item :=
  mkItem (itOp it) (match rename f (itDB it) with Ok to => to | Err _ => itDB it end) (itColl it) (itName it) (itO it) (itO2 it).

Definition writesOf (its : list item) : list item := filter (λ it, isWrite it = true) its.

(** What filtering the operation [d] into [out], counted [cnt], must satisfy. *)
Record replaced (n : nat) (d : doc) (r : list doc * Z) : Prop := mkReplaced {
  rp_count : r.2 = i64 (Z.of_nat (length (itemsAll n r.1)));
  rp_writes : writesOf (itemsAll n r.1) = renamedItem <$> filter kept (items n d);
  rp_confined : Forall confined (itemsAll n r.1);
  rp_fields : Forall (λ d', Lookup d' "lsid" = None /\ Lookup d' "ts" = Lookup d "ts") r.1
}.

End Spec.
End Items.

(** ** Post-conditions of the monad *)

(** Every value [m] returns satisfies [P]. *)
Definition yields {A} (m : M A) (P : A -> Prop) : Prop := ∀ s s' a, m s = (s', Ok a) -> P a.

Lemma yields_ret {A} (a : A) (P : A -> Prop) : P a -> yields (ret a) P.
Proof. intros HP s s' a' [= <- <-]. done. Qed.

Lemma yields_fail {A} e (P : A -> Prop) : yields (fail e) P.
Proof. intros s s' a [=]. Qed.

Lemma yields_bind {A B} (m : M A) (k : A -> M B) P Q :
  yields m P -> (∀ a, P a -> yields (k a) Q) -> yields (m ≫= k) Q.
Proof.
  intros Hm Hk s s' b. unfold mbind, M_bind, bind. destruct (m s) as [s1 [a|e]] eqn:Hs; [|done].
  apply Hk. by eapply Hm.
Qed.

Lemma yields_lift {A} (r : result OplogErr A) : yields (lift r) (λ a, r = Ok a).
Proof. intros s s' a. unfold lift. by intros [= <- ->]. Qed.

Lemma yields_orFail {A} e (o : option A) : yields (orFail e o) (λ a, o = Some a).
Proof. intros s s' a. destruct o; cbn; [|done]. by intros [= <- <-]. Qed.

Lemma yields_any {A} (m : M A) : yields m (λ _, True).
Proof. done. Qed.

Lemma yields_impl {A} (m : M A) (P Q : A -> Prop) : (∀ a, P a -> Q a) -> yields m P -> yields m Q.
Proof. intros HPQ Hm s s' a Hs. apply HPQ. by eapply Hm. Qed.

(** One step of a monadic program: a test of an option or a result, an update or a
    return. *)
Ltac ystep :=
  lazymatch goal with
  | |- yields (mbind _ (lift _)) _ => eapply yields_bind; [apply yields_lift|cbn beta; intros ? ?]
  | |- yields (mbind _ (orFail _ _)) _ => eapply yields_bind; [apply yields_orFail|cbn beta; intros ? ?]
  | |- yields (mbind _ (modify _)) _ => eapply yields_bind; [apply yields_any|intros ? _]
  | |- yields (mbind _ get) _ => eapply yields_bind; [apply yields_any|intros ? _]
  | |- yields (ret _) _ => apply yields_ret
  | |- yields (fail _) _ => apply yields_fail
  end.

(** ** The fields of the rewritten entries *)

Section Fields.
Context `{DriverLaws}.

Ltac by_key := intros; repeat (rewrite bool_decide_true by done || rewrite bool_decide_false by done); try done; vm_compute; eauto.

Lemma Lookup_kept d k edit : (∀ v, is_Some (edit k v)) -> Lookup (rebuild d edit) k = Lookup d k ≫= edit k.
Proof. rewrite !Lookup_first. apply first_elem_rebuild_kept. Qed.

Lemma Lookup_dropped d k edit : (∀ v, edit k v = None) -> Lookup (rebuild d edit) k = None.
Proof. rewrite !Lookup_first. apply first_elem_rebuild_dropped. Qed.

Lemma head_Lookup (o : doc) k v : head o = Some (k, v) -> Lookup o k = Some v.
Proof. rewrite Lookup_first. destruct o as [|[k' v'] o]; [done|]. intros [= -> ->]. cbn. by rewrite bool_decide_true. Qed.

(** A document whose fields [k] is rewritten by [g], and not otherwise. *)
Lemma Lookup_same d k edit : (∀ v, edit k v = Some v) -> Lookup (rebuild d edit) k = Lookup d k.
Proof. intros He. rewrite Lookup_kept by (intros v; rewrite He; eauto). by destruct (Lookup d k); cbn. Qed.

Lemma Lookup_set d k edit v w : (∀ v, edit k v = Some w) -> Lookup d k = Some v -> Lookup (rebuild d edit) k = Some w.
Proof. intros He Hl. rewrite Lookup_kept by (intros ?; rewrite He; eauto). by rewrite Hl; cbn. Qed.

Lemma stringOf_string s : stringOf (Some (BString s)) = s.
Proof. done. Qed.

(** A database name has no dot. *)
Definition noDot (db : string) : Prop := allBytes (λ c, negb (bool_decide (c = "."%char))) db = true.

Lemma cutNS_app db coll : noDot db -> cutNS (db +:+ String "."%char coll) = (db, coll, true).
Proof. apply Cut_app. Qed.

Lemma cutNS_true ns db coll : cutNS ns = (db, coll, true) -> ns = db +:+ String "."%char coll /\ noDot db.
Proof. apply Cut_found. Qed.

Lemma rename_noDot f db to : rename f db = Ok to -> noDot db -> noDot to.
Proof.
  unfold rename. destruct (fInPlace f); [by intros [= ->]|]. destruct (fRename f) as [r|]; [|done].
  destruct (_ || _) eqn:E; [done|]. intros [= <-] _. bool_cases. by eapply ContainsAny_false.
Qed.

Lemma itemOf_eq d op db coll :
  Lookup d "op" = Some (BString op) -> Lookup d "ns" = Some (BString (db +:+ String "."%char coll)) -> noDot db ->
  itemOf d = mkItem op db coll (if bool_decide (op = "c") then commandName d else EmptyString) (Lookup d "o") (Lookup d "o2").
Proof. intros Hop Hns Hdb. unfold itemOf. rewrite Hns, Hop, !stringOf_string. by rewrite cutNS_app. Qed.

(** An operation that is no applyOps stands for itself. *)
Lemma items_single n d : itName (itemOf d) <> "applyOps" -> items n d = [itemOf d].
Proof. intros Hn. destruct n; cbn; [done|]. by rewrite bool_decide_false by done. Qed.

Lemma commandEntry_fields d to cmd :
  Lookup (commandEntry d to cmd) "lsid" = None /\ Lookup (commandEntry d to cmd) "ts" = Lookup d "ts".
Proof. split; [by apply Lookup_dropped|by apply Lookup_same]. Qed.

Lemma commandEntry_item d to k v cmd op ns o :
  Lookup d "op" = Some op -> Lookup d "ns" = Some ns -> Lookup d "o" = Some o -> noDot to ->
  itemOf (commandEntry d to ((k, v) :: cmd)) = mkItem "c" to "$cmd" k (Some (BDoc ((k, v) :: cmd))) None.
Proof.
  intros Hop Hns Ho Hto.
  assert (Lookup (commandEntry d to ((k, v) :: cmd)) "o" = Some (BDoc ((k, v) :: cmd))) as Ho' by by eapply Lookup_set.
  erewrite itemOf_eq; [|by eapply Lookup_set|by eapply Lookup_set|done].
  rewrite bool_decide_true by done. unfold commandName. rewrite Ho'. f_equal. by apply Lookup_dropped.
Qed.

Lemma editEntry_fields ns o' d g :
  (∀ v, g "ts" v = v) -> Lookup (editEntry ns o' d g) "lsid" = None /\ Lookup (editEntry ns o' d g) "ts" = Lookup d "ts".
Proof. intros Hg. split; [by apply Lookup_dropped|]. apply Lookup_same. intros v. cbn. by rewrite Hg. Qed.

Lemma editEntry_o ns o' d g o : Lookup d "o" = Some o -> Lookup (editEntry ns o' d g) "o" = Some (BDoc o').
Proof. by apply Lookup_set. Qed.

Lemma editEntry_item db o' d g k v ns o :
  (∀ v, g "op" v = v) ->
  Lookup d "op" = Some (BString "c") -> Lookup d "ns" = Some ns -> Lookup d "o" = Some o -> noDot db -> head o' = Some (k, v) ->
  let d' := editEntry (db +:+ ".$cmd") o' d g in itemOf d' = mkItem "c" db "$cmd" k (Some (BDoc o')) (Lookup d' "o2").
Proof.
  intros Hg Hop Hns Ho Hdb Hh d'. erewrite itemOf_eq; [| |by eapply Lookup_set|done].
  2: { etrans; [|exact Hop]. apply Lookup_same. intros w. cbn. by rewrite Hg. }
  rewrite bool_decide_true by done. unfold commandName. subst d'. rewrite (editEntry_o _ _ _ _ _ Ho). cbn. by rewrite Hh.
Qed.

End Fields.

(** ** Each operation replaces what it filters *)

Section Replaces.
Context `{DriverLaws} (f : Filter).

(** An operation dropped for lack of a kept write in it. *)
Lemma replaced_nothing n d : filter (kept f) (items n d) = [] -> replaced f n d ([], 0).
Proof. intros Hk. split; cbn; [done|by rewrite Hk|constructor..]. Qed.

Lemma not_kept_command it : itOp it = "c" -> ~ kept f it.
Proof. unfold kept, isWrite. intros -> [Hw _]. done. Qed.

Lemma not_kept_db it : selected f (itDB it) = false -> ~ kept f it.
Proof. intros Hs (_ & Hk & _). congruence. Qed.

Lemma filter_kept_single n d : itName (itemOf d) <> "applyOps" -> ~ kept f (itemOf d) -> filter (kept f) (items n d) = [].
Proof. intros Hn Hk. rewrite items_single by done. by rewrite filter_cons_False. Qed.

(** A command written in place of [d]. *)
Definition commandOut (d d' : doc) : Prop :=
  itName (itemOf d') <> "applyOps" /\ isWrite (itemOf d') = false /\ confined f (itemOf d') /\
  Lookup d' "lsid" = None /\ Lookup d' "ts" = Lookup d "ts".

(** Commands written in place of an operation that is no kept write. *)
Lemma replaced_commands n d out :
  filter (kept f) (items n d) = [] ->
  Forall (commandOut d) out ->
  replaced f n d (out, i64 (Z.of_nat (length out))).
Proof.
  intros Hk Hout.
  assert (itemsAll n out = itemOf <$> out) as Hits.
  { induction Hout as [|d' out (Hn & _) _ IH]; [done|]. unfold itemsAll. cbn [flat_map].
    rewrite items_single by done. cbn. f_equal. apply IH. }
  split; cbn [fst snd]; rewrite ?Hits, ?Hk.
  - by rewrite length_fmap.
  - unfold writesOf. apply filter_none. intros it (d' & -> & Hd')%list_elem_of_fmap.
    rewrite Forall_forall in Hout. destruct (Hout d' Hd') as (_ & Hw & _). by rewrite Hw.
  - apply Forall_fmap. eapply Forall_impl; [exact Hout|]. by intros d' (_ & _ & Hc & _).
  - eapply Forall_impl; [exact Hout|]. by intros d' (_ & _ & _ & Hf).
Qed.

(** The context of an operation: what [opWith] has checked of it. *)
Record checked (d : doc) (opType db coll : string) : Prop := mkChecked {
  ck_op : Lookup d "op" = Some (BString opType);
  ck_ns : Lookup d "ns" = Some (BString (db +:+ String "."%char coll));
  ck_db : noDot db
}.

Lemma checked_item d opType db coll :
  checked d opType db coll ->
  itemOf d = mkItem opType db coll (if bool_decide (opType = "c") then commandName d else EmptyString) (Lookup d "o") (Lookup d "o2").
Proof. intros [? ? ?]. by apply itemOf_eq. Qed.

Lemma crud_replaces n d opType db coll :
  checked d opType db coll -> opType ∈ ["i"; "u"; "d"] -> selected f db = true -> coll <> viewsCollection ->
  yields (d' ← crud f d db coll; ret ([d'], 1)) (replaced f n d).
Proof.
  intros Hck Hop Hsel Hcoll. unfold crud. eapply yields_bind with (P := λ d', ∃ to, rename f db = Ok to /\ d' = crudEntry d (to +:+ "." +:+ coll)).
  { ystep. ystep. eauto. }
  cbn beta. intros d' (to & Hto & ->). ystep. set (d' := crudEntry _ _). pose proof (ck_db _ _ _ _ Hck) as Hdb.
  assert (opType <> "c") as Hc by (intros ->; revert Hop; set_solver).
  assert (itemOf d' = renamedItem f (itemOf d)) as Hit.
  { rewrite (checked_item _ _ _ _ Hck). unfold renamedItem. cbn [itDB itOp itColl itName itO itO2]. rewrite Hto.
    erewrite itemOf_eq; [| |by eapply Lookup_set; [|apply Hck]|by eapply rename_noDot].
    2: { etrans; [|apply Hck]. by apply Lookup_same. }
    rewrite bool_decide_false by done. f_equal; by apply Lookup_same. }
  assert (itName (itemOf d) = EmptyString) as Hname
    by (rewrite (checked_item _ _ _ _ Hck); cbn; by rewrite bool_decide_false).
  assert (isWrite (itemOf d) = true) as Hw by (rewrite (checked_item _ _ _ _ Hck); by apply bool_decide_eq_true).
  assert (items n d = [itemOf d]) as Hd by (apply items_single; by rewrite Hname).
  assert (items n d' = [itemOf d']) as Hd' by (apply items_single; rewrite Hit; cbn; by rewrite Hname).
  assert (isWrite (itemOf d') = true) as Hw' by by rewrite Hit.
  assert (kept f (itemOf d)) as Hk by (split; [done|]; rewrite (checked_item _ _ _ _ Hck); done).
  split; cbn [fst snd itemsAll flat_map]; unfold itemsAll; cbn [flat_map]; rewrite ?app_nil_r, ?Hd, ?Hd'; [done|..].
  - unfold writesOf. by rewrite !filter_cons_True, !filter_nil, Hit.
  - constructor; [|constructor]. unfold confined, touches. rewrite Hw'. rewrite Hit, (checked_item _ _ _ _ Hck). cbn. rewrite Hto.
    repeat constructor. by exists db.
  - repeat constructor; [by apply Lookup_dropped|by apply Lookup_same].
Qed.

(** A plain command on [db] touches [db] at most. *)
Lemma confined_command db k o o2 :
  target f db -> k <> "renameCollection" -> confined f (mkItem "c" db "$cmd" k o o2).
Proof.
  intros Hdb Hk. unfold confined, touches, isWrite. cbn [itOp itDB itName].
  rewrite bool_decide_false by (vm_compute; set_solver). rewrite bool_decide_false by done. destruct (_ && _); by repeat constructor.
Qed.

Lemma commandEntry_out d opType db coll to k v cmd o :
  checked d opType db coll -> Lookup d "o" = Some o -> target f to -> noDot to ->
  k <> "applyOps" -> k <> "renameCollection" -> commandOut d (commandEntry d to ((k, v) :: cmd)).
Proof.
  intros Hck Ho Ht Hto Hk1 Hk2. unfold commandOut.
  erewrite commandEntry_item by (try apply Hck; done). cbn [itName]. split; [done|]. split; [done|].
  split; [by apply confined_command|]. apply commandEntry_fields.
Qed.

Lemma editEntry_out d db coll to o' g k v o :
  (∀ v, g "op" v = v) -> (∀ v, g "ts" v = v) ->
  checked d "c" db coll -> Lookup d "o" = Some o -> target f to -> noDot to -> head o' = Some (k, v) ->
  k <> "applyOps" -> k <> "renameCollection" -> commandOut d (editEntry (to +:+ ".$cmd") o' d g).
Proof.
  intros Hg1 Hg2 Hck Ho Ht Hto Hh Hk1 Hk2. unfold commandOut.
  erewrite editEntry_item by (try apply Hck; done). cbn [itName]. split; [done|]. split; [done|].
  split; [by apply confined_command|]. by apply editEntry_fields.
Qed.

Lemma target_rename db to : selected f db = true -> rename f db = Ok to -> target f to.
Proof. by exists db. Qed.

Lemma asCommand_out d opType db coll k v cmd o :
  checked d opType db coll -> Lookup d "o" = Some o -> selected f db = true ->
  k <> "applyOps" -> k <> "renameCollection" -> yields (asCommand f d db ((k, v) :: cmd)) (commandOut d).
Proof.
  intros Hck Ho Hsel Hk1 Hk2. unfold asCommand. ystep. ystep.
  eapply commandEntry_out; eauto using target_rename, rename_noDot, ck_db.
Qed.

(** One command in place of an operation. *)
Lemma replaced_one n d d' : filter (kept f) (items n d) = [] -> commandOut d d' -> replaced f n d ([d'], 1).
Proof. intros Hk Hd. apply (replaced_commands n d [d']); [done|by constructor; [|constructor]]. Qed.

Lemma viewOp_replaces n d opType db :
  checked d opType db viewsCollection -> opType ∈ ["i"; "u"; "d"] -> selected f db = true ->
  yields (viewOp f d opType db) (replaced f n d).
Proof.
  intros Hck Hop Hsel.
  assert (filter (kept f) (items n d) = []) as Hk.
  { assert (opType <> "c") as Hc by (intros ->; revert Hop; set_solver).
    apply filter_kept_single; rewrite (checked_item _ _ _ _ Hck); [cbn; by rewrite bool_decide_false|].
    intros (_ & _ & Hv). by apply Hv. }
  assert (∀ k v cmd o, Lookup d "o" = Some o -> k <> "applyOps" -> k <> "renameCollection" ->
    yields (d' ← asCommand f d db ((k, v) :: cmd); ret ([d'], 1)) (replaced f n d)) as Hcmd.
  { intros k v cmd o Ho Hk1 Hk2. eapply yields_bind; [by eapply asCommand_out|]. intros d' Hd'. ystep. by apply replaced_one. }
  unfold viewOp. ystep. rename a into o. assert (Lookup d "o" = Some (BDoc o)) as Ho
    by (destruct (Lookup d "o") as [[]|]; cbn in *; congruence).
  destruct (mbind _ _) as [name|]; [|ystep]. case_bool_decide; [ystep|]. case_bool_decide; [by eapply Hcmd|].
  destruct (Lookup o "viewOn") as [[viewOn| | | | | | |]|]; try ystep.
  destruct (Lookup o "pipeline") as [[| |pipeline| | | | |]|]; try ystep.
  destruct (HasPrefix _ _); [ystep; by apply replaced_nothing|].
  eapply Hcmd; [done|by case_bool_decide..].
Qed.

(** A command checked: its document and first field. *)
Lemma checked_command d db coll o k v :
  checked d "c" db coll -> Lookup d "o" = Some (BDoc o) -> head o = Some (k, v) ->
  itemOf d = mkItem "c" db coll k (Some (BDoc o)) (Lookup d "o2").
Proof.
  intros Hck Ho Hh. rewrite (checked_item _ _ _ _ Hck), bool_decide_true, Ho by done. f_equal.
  unfold commandName. rewrite Ho. cbn. by rewrite Hh.
Qed.

Lemma rebuild_head_kept (o : doc) edit k v :
  (∀ k v, is_Some (edit k v)) -> head o = Some (k, v) -> ∃ w, head (rebuild o edit) = Some (k, w).
Proof. intros He Hh. destruct (He k v) as [w Hw]. exists w. by eapply rebuild_head. Qed.

Lemma command_not_kept n d db coll o k v :
  checked d "c" db coll -> Lookup d "o" = Some (BDoc o) -> head o = Some (k, v) -> k <> "applyOps" ->
  filter (kept f) (items n d) = [].
Proof.
  intros Hck Ho Hh Hk. pose proof (checked_command _ _ _ _ _ _ Hck Ho Hh) as Hit.
  apply filter_kept_single; [by rewrite Hit|]. apply not_kept_command. by rewrite Hit.
Qed.

Lemma ddl_out d db coll o k v :
  checked d "c" db coll -> Lookup d "o" = Some (BDoc o) -> head o = Some (k, v) -> selected f db = true ->
  k <> "applyOps" -> k <> "renameCollection" -> yields (ddl f d o db) (commandOut d).
Proof.
  intros Hck Ho Hh Hsel Hk1 Hk2. unfold ddl. ystep. rename a into to. ystep.
  set (edit := λ k v, _).
  destruct (rebuild_head_kept o edit k v) as [w Hw]; [|done|].
  { intros k' []; cbn; try case_bool_decide; eauto. }
  eapply editEntry_out; eauto using target_rename, rename_noDot, ck_db.
  - intros []; cbn; try done. - intros []; cbn; done.
Qed.

Lemma ddlCommand_replaces n d db coll o name v :
  checked d "c" db coll -> Lookup d "o" = Some (BDoc o) -> head o = Some (name, v) -> selected f db = true ->
  name ∈ ddlNames -> yields (ddlCommand f name d o db) (replaced f n d).
Proof.
  intros Hck Ho Hh Hsel Hname.
  assert (name <> "applyOps" /\ name <> "renameCollection") as [Hk1 Hk2]
    by (split; intros ->; revert Hname; unfold ddlNames; set_solver).
  pose proof (command_not_kept n _ _ _ _ _ _ Hck Ho Hh Hk1) as Hk. unfold ddlCommand.
  destruct (_ && _); [ystep; by apply replaced_nothing|]. destruct (if bool_decide _ then _ else _) as [cmd|] eqn:Hts.
  - assert (∃ v' cmd', cmd = ("create", v') :: cmd') as (v' & cmd' & ->).
    { revert Hts. case_bool_decide; [|done]. unfold timeseriesCreate.
      destruct (CutPrefix _ _); [|done]. destruct (DocumentOK _); [|done]. case_bool_decide; [done|]. intros [= <-]. cbn. eauto. }
    eapply yields_bind; [by eapply asCommand_out|]. intros d' Hd'. ystep. by apply replaced_one.
  - eapply yields_bind; [by eapply ddl_out|]. intros d' Hd'. ystep.
    eapply yields_bind; [apply yields_any|]. intros _ _. ystep. by apply replaced_one.
Qed.

Lemma commitIndexBuild_replaces n d db coll o v :
  checked d "c" db coll -> Lookup d "o" = Some (BDoc o) -> head o = Some ("commitIndexBuild", v) -> selected f db = true ->
  yields (commitIndexBuild f d o db) (replaced f n d).
Proof.
  intros Hck Ho Hh Hsel. pose proof (command_not_kept n _ _ _ _ _ _ Hck Ho Hh ltac:(done)) as Hk. unfold commitIndexBuild.
  ystep. rename a into c. ystep. rename a into specs. ystep. rename a into to. eapply yields_bind with (P := Forall (commandOut d)).
  - match goal with Ha : ArrayOK _ = Some specs |- _ => clear Ha end.
    induction specs as [|sp specs IH]; cbn [mapMs]; [ystep; constructor|]. eapply yields_bind with (P := commandOut d).
    + unfold commitIndex. ystep. eapply yields_bind; [apply yields_any|]. intros _ _. ystep.
      eapply (editEntry_out d db coll to); eauto using target_rename, rename_noDot, ck_db; done.
    + intros d' Hd'. eapply yields_bind; [|intros ds Hds; ystep; by constructor].
      apply IH.
  - intros out Hout. ystep. by apply replaced_commands.
Qed.

Lemma renameNS_own db coll to : renameNS (db +:+ String "."%char coll) db to = to +:+ String "."%char coll.
Proof.
  unfold renameNS. assert (CutPrefix (db +:+ String "."%char coll) (db +:+ ".") = Some coll) as -> by
    (apply CutPrefix_Some; by rewrite str_app_assoc). done.
Qed.

Lemma moveIndexes_out d opType db coll o fromDB fromColl toDB toColl :
  checked d opType db coll -> Lookup d "o" = Some o -> target f fromDB -> noDot fromDB -> target f toDB -> noDot toDB ->
  yields (moveIndexes d fromDB fromColl toDB toColl) (Forall (commandOut d)).
Proof.
  intros Hck Ho Hf1 Hf2 Ht1 Ht2. unfold moveIndexes. ystep.
  eapply yields_bind with (P := Forall (commandOut d)).
  - case_bool_decide; [ystep; constructor|]. ystep. ystep. constructor; [|constructor]. by eapply commandEntry_out.
  - intros out Hout. case_bool_decide; [by ystep|]. ystep. ystep. apply Forall_app_2; [done|]. apply Forall_app_2.
    + apply Forall_fmap, Forall_true. intros sp. by eapply commandEntry_out.
    + constructor; [|constructor]. by eapply commandEntry_out.
Qed.

Lemma renamed_out d db coll o v fromDB fromColl newFrom toDB toColl newTo :
  checked d "c" db coll -> Lookup d "o" = Some (BDoc o) -> head o = Some ("renameCollection", v) ->
  is_Some (Lookup o "to") -> target f newFrom -> noDot newFrom -> target f newTo -> noDot newTo ->
  commandOut d (editEntry (newFrom +:+ ".$cmd")
    (renamedCommand o (fromDB +:+ String "."%char fromColl) fromDB newFrom (toDB +:+ String "."%char toColl) toDB newTo) d keepValue).
Proof.
  intros Hck Ho Hh [vto Hto] Hf1 Hf2 Ht1 Ht2. unfold commandOut. set (o' := renamedCommand _ _ _ _ _ _ _).
  assert (Lookup o' "renameCollection" = Some (BString (newFrom +:+ String "."%char fromColl))) as H1.
  { rewrite <- renameNS_own with (db := fromDB). eapply Lookup_set; [done|by eapply head_Lookup]. }
  assert (Lookup o' "to" = Some (BString (newTo +:+ String "."%char toColl))) as H2.
  { rewrite <- renameNS_own with (db := toDB). by eapply Lookup_set. }
  erewrite editEntry_item; [|done|apply Hck..|done|done|by eapply rebuild_head]. cbn [itName].
  split; [done|]. split; [done|]. split; [|by apply editEntry_fields].
  unfold confined, touches. cbn -[cutNS Lookup]. rewrite H1, H2, !stringOf_string, !cutNS_app by done. by repeat constructor.
Qed.

Lemma renameCollection_replaces n d db coll o v :
  checked d "c" db coll -> Lookup d "o" = Some (BDoc o) -> head o = Some ("renameCollection", v) ->
  yields (renameCollection f d o) (replaced f n d).
Proof.
  intros Hck Ho Hh. pose proof (command_not_kept n _ _ _ _ _ _ Hck Ho Hh ltac:(done)) as Hk. unfold renameCollection.
  destruct (StringValueOK (Lookup o "renameCollection")) as [from|]; [|ystep].
  destruct (StringValueOK (Lookup o "to")) as [to|] eqn:Hto; [|ystep].
  destruct (cutNS from) as [[fromDB fromColl] okF] eqn:HF. destruct (cutNS to) as [[toDB toColl] okT] eqn:HT.
  destruct okF, okT; cbn [negb orb]; try ystep. apply cutNS_true in HF as [-> HF], HT as [-> HT].
  destruct (selected f fromDB) eqn:HsF, (selected f toDB) eqn:HsT; cbn [negb eqb]; try ystep; [|by apply replaced_nothing].
  rename a into newFrom. ystep. rename a into newTo.
  pose proof (rename_noDot _ _ _ H1 HF). pose proof (rename_noDot _ _ _ H2 HT).
  pose proof (target_rename _ _ HsF H1). pose proof (target_rename _ _ HsT H2).
  eapply yields_bind with (P := Forall (commandOut d)).
  { unfold dropTarget. destruct (dropsTarget o); [|ystep; constructor].
    eapply yields_bind; [apply yields_any|]. intros _ _. ystep. constructor; [|constructor]. by eapply commandEntry_out. }
  intros drops Hdrops. eapply yields_bind; [by eapply moveIndexes_out|]. intros moves Hmoves. ystep.
  apply replaced_commands; [done|]. apply Forall_app_2; [done|]. apply Forall_app_2; [|done]. constructor; [|constructor].
  eapply renamed_out; try done. destruct (Lookup o "to"); [eauto|done].
Qed.

(** ** applyOps and the recursion *)

(** What filtering the operations of an applyOps document must satisfy. *)
Record nestedReplaced (n : nat) (ds : list doc) (r : list doc * Z) : Prop := mkNestedReplaced {
  nr_count : r.2 = i64 (Z.of_nat (length (itemsAll n r.1)));
  nr_writes : writesOf (itemsAll n r.1) = renamedItem f <$> filter (kept f) (itemsAll n ds);
  nr_confined : Forall (confined f) (itemsAll n r.1)
}.

Lemma itemsAll_app n l1 l2 : itemsAll n (l1 ++ l2) = itemsAll n l1 ++ itemsAll n l2.
Proof. apply flat_map_app. Qed.

Lemma omap_docs (k : list doc) : omap (λ v, DocumentOK (Some v)) (map BDoc k) = k.
Proof. induction k as [|d k IH]; [done|]. cbn. f_equal. exact IH. Qed.

Lemma nestedArray_docs o k : Lookup o "applyOps" = Some (nestedArray k) -> nestedDocs (Some (BDoc o)) = k.
Proof. intros Ho. unfold nestedDocs. cbn. rewrite Ho. apply omap_docs. Qed.

Lemma target_carries t : target f t -> carries t = true.
Proof.
  intros (db & Hsel & Hr). assert (systemDB t = false) as Hsys.
  { unfold rename in Hr. destruct (fInPlace f).
    - injection Hr as ->. revert Hsel. unfold selected. by destruct (systemDB t).
    - destruct (fRename f) as [r|]; [|done]. destruct (_ || _) eqn:E; [done|]. injection Hr as <-. by bool_cases. }
  unfold carries, systemDB in *. apply bool_decide_eq_false in Hsys. apply negb_true_iff, bool_decide_eq_false. set_solver.
Qed.

(** The applyOps written in place of one, wherever it is written. *)
Lemma applyOps_item n d o' g db k v ns o :
  (∀ v, g "op" v = v) -> Lookup d "op" = Some (BString "c") -> Lookup d "ns" = Some ns -> Lookup d "o" = Some o ->
  db = "admin" \/ target f db -> noDot db -> head o' = Some ("applyOps", v) -> Lookup o' "applyOps" = Some (nestedArray k) ->
  let d' := editEntry (db +:+ ".$cmd") o' d g in
  items (S n) d' = itemOf d' :: itemsAll n k /\ isWrite (itemOf d') = false /\ confined f (itemOf d').
Proof.
  intros Hg Hop Hns Ho Hdb Hnd Hh Hk d'. unfold d'. cbn [items].
  erewrite editEntry_item by done. cbn [itName itDB]. rewrite (editEntry_o _ _ _ _ _ Ho), (nestedArray_docs _ _ Hk).
  assert (carries db = true) as -> by (destruct Hdb as [->|]; [done|by apply target_carries]).
  rewrite bool_decide_true by done. split; [done|]. split; [done|]. destruct Hdb as [->|Hdb].
  - constructor.
  - by apply confined_command.
Qed.

Lemma applyOps_replaces nested n d db coll o v :
  checked d "c" db coll -> Lookup d "o" = Some (BDoc o) -> head o = Some ("applyOps", v) -> carries db = true ->
  yields (nested o) (nestedReplaced n (nestedDocs (Some (BDoc o)))) ->
  yields (applyOps f nested d o db) (replaced f (S n) d).
Proof.
  intros Hck Ho Hh Hc Hn. unfold applyOps. eapply yields_bind; [exact Hn|]. intros [k ops] [Hcnt Hw Hconf]. cbn [fst snd] in *.
  assert (filter (kept f) (items (S n) d) = filter (kept f) (itemsAll n (nestedDocs (Some (BDoc o))))) as Hin.
  { cbn [items]. rewrite (checked_command _ _ _ _ _ _ Hck Ho Hh). cbn [itName itDB]. rewrite Hc, Ho, bool_decide_true by done.
    rewrite filter_cons_False; [done|]. by apply not_kept_command. }
  case_bool_decide as Hnil.
  { ystep. apply replaced_nothing. subst k. rewrite Hin. cbn in Hw. by apply symmetry, fmap_nil_inv in Hw. }
  eapply yields_bind with (P := λ ns, ∃ t, ns = t +:+ ".$cmd" /\ (t = "admin" \/ target f t) /\ noDot t).
  { destruct (selected f db) eqn:Hsel; [|ystep; exists "admin"; by split_and!; [|left|]]. ystep. ystep. eexists. split; [done|].
    split; [right; by eapply target_rename|]. by eapply rename_noDot; [|apply Hck]. }
  intros ns (t & -> & Ht & Htd). ystep. set (o' := rebuild o _).
  destruct (applyOps_item n d o' keepValue t k (nestedArray k) (BString (db +:+ String "."%char coll)) (BDoc o)) as (Hits & Hnw & Hcf);
    [done|apply Hck..|done|done|done|by eapply rebuild_head|eapply Lookup_set; [done|by eapply head_Lookup]|].
  split; cbn [fst snd]; unfold itemsAll; cbn [flat_map]; rewrite ?app_nil_r, ?Hits.
  - rewrite Hcnt, i64_add_r. cbn [length]. f_equal. lia.
  - unfold writesOf. rewrite filter_cons_False by (by rewrite Hnw). by rewrite Hin.
  - by constructor.
  - constructor; [by apply editEntry_fields|constructor].
Qed.

Lemma command_replaces nested n d db coll :
  checked d "c" db coll ->
  (∀ o, yields (nested o) (nestedReplaced n (nestedDocs (Some (BDoc o))))) ->
  yields (command f nested d db) (replaced f (S n) d).
Proof.
  intros Hck Hn. unfold command. ystep. rename a into o.
  assert (Lookup d "o" = Some (BDoc o)) as Ho by (destruct (Lookup d "o") as [[]|]; cbn in *; congruence).
  ystep. destruct a as [name v]. cbn [fst].
  assert (name <> "applyOps" -> replaced f (S n) d ([], 0)) as Hdrop
    by (intros ?; eapply replaced_nothing, command_not_kept; eauto).
  case_bool_decide; [subst name; by eapply renameCollection_replaces|].
  destruct (systemDB db && _) eqn:Hsys.
  { ystep. destruct (decide (name = "applyOps")) as [->|]; [|auto]. apply replaced_nothing. cbn [items].
    rewrite (checked_command _ _ _ _ _ _ Hck Ho H2). cbn [itName itDB].
    assert (carries db = false) as ->.
    { apply andb_prop in Hsys as [Hsys Hadm]. rewrite (bool_decide_true ("applyOps" = "applyOps")), orb_false_r in Hadm by done.
      unfold systemDB in Hsys. bool_cases. unfold carries. rewrite bool_decide_true; [done|]. set_solver. }
    rewrite andb_false_r. rewrite filter_cons_False; [done|]. by apply not_kept_command. }
  destruct (decide (name = "applyOps")) as [->|Hna]; [rewrite bool_decide_true by done|rewrite (bool_decide_false (name = "applyOps")) by done; clear Hsys].
  { eapply applyOps_replaces; [done..| |done]. rewrite (bool_decide_true ("applyOps" = "applyOps")), orb_false_r in Hsys by done.
    unfold carries. apply negb_true_iff, bool_decide_eq_false. intros Hin. unfold systemDB in Hsys.
    rewrite bool_decide_true in Hsys by set_solver. cbn in Hsys. apply negb_false_iff, bool_decide_eq_true in Hsys. subst. set_solver. }
  case_bool_decide; [destruct (selected f db) eqn:?; [by eapply ddlCommand_replaces|ystep; auto]|].
  case_bool_decide; [destruct (selected f db) eqn:?; [subst name; by eapply commitIndexBuild_replaces|ystep; auto]|].
  case_bool_decide; [ystep; auto|ystep].
Qed.

Lemma opWith_replaces nested n d :
  (∀ o, yields (nested o) (nestedReplaced n (nestedDocs (Some (BDoc o))))) ->
  yields (opWith f nested d) (replaced f (S n) d).
Proof.
  intros Hn. unfold opWith. ystep. rename a into opType.
  assert (Lookup d "op" = Some (BString opType)) as Hop by (destruct (Lookup d "op") as [[]|]; cbn in *; congruence).
  destruct (ignoredOps opType) eqn:Hig.
  { ystep. apply replaced_nothing. unfold ignoredOps in Hig. bool_cases. apply filter_kept_single; unfold itemOf; rewrite Hop;
    destruct (cutNS _) as [[db coll] ok]; cbn [itName].
    - rewrite stringOf_string, bool_decide_false by (intros ->; set_solver). done.
    - unfold kept, isWrite. cbn [itOp]. rewrite stringOf_string. intros [Hw _]. bool_cases. set_solver. }
  ystep. rename a into ns. destruct (cutNS ns) as [[db coll] ok] eqn:HC.
  destruct ok; cbn [negb orb]; [|ystep]. case_bool_decide; [ystep|]. apply cutNS_true in HC as [-> HC].
  assert (checked d opType db coll) as Hck by (split; [done| |done]; destruct (Lookup d "ns") as [[]|]; cbn in *; congruence).
  case_bool_decide as Hiud; [|case_bool_decide; [subst opType; by eapply command_replaces|ystep]].
  destruct (selected f db) eqn:Hsel; cbn [negb]; cycle 1.
  { ystep. apply replaced_nothing, filter_kept_single; rewrite (checked_item _ _ _ _ Hck).
    - cbn. rewrite bool_decide_false by (intros ->; set_solver). done.
    - by apply not_kept_db. }
  case_bool_decide; [subst coll; by apply viewOp_replaces|by eapply crud_replaces].
Qed.

(** The filtered operations of an applyOps, at any depth. *)
Lemma nested_replaces levels : ∀ n o, (levels <= n)%nat ->
  yields (nested f levels o) (nestedReplaced n (nestedDocs (Some (BDoc o)))).
Proof.
  induction levels as [|levels IH]; intros n o Hle; cbn [nested]; [ystep|].
  destruct n as [|n]; [lia|]. ystep. rename a into vs. unfold nestedDocs. change (DocumentOK (Some (BDoc o))) with (Some o).
  cbv iota beta. rewrite H1. change (default [] (Some vs)) with vs.
  clear H1. induction vs as [|v vs IHvs]; cbn [nestedLoop].
  - ystep. split; cbn; [done..|constructor].
  - ystep. rename a into d. assert (v = BDoc d) as -> by (destruct v; cbn in *; congruence).
    eapply yields_bind; [apply (opWith_replaces _ n); intros o'; apply IH; lia|]. intros [k m] [Hc1 Hw1 Hf1 _].
    eapply yields_bind; [exact IHvs|]. intros [kr mr] [Hc2 Hw2 Hf2]. ystep. cbn [fst snd from_option id] in *.
    assert (omap (λ v, DocumentOK (Some v)) (BDoc d :: vs) = d :: omap (λ v, DocumentOK (Some v)) vs) as -> by done.
    split; cbn [fst snd]; rewrite itemsAll_app.
    + rewrite Hc1, Hc2, i64_add_l, i64_add_r, length_app. f_equal. lia.
    + unfold writesOf in *. change (itemsAll (S n) (d :: ?l)) with (items (S n) d ++ itemsAll (S n) l).
      rewrite !filter_app, fmap_app. by rewrite Hw1, Hw2.
    + by apply Forall_app_2.
Qed.

Lemma op_replaces n d : (maxApplyOpsDepth < n)%nat -> yields (op f d) (replaced f n d).
Proof.
  intros Hn. destruct n as [|n]; [lia|]. apply opWith_replaces. intros o. apply nested_replaces. lia.
Qed.

End Replaces.
