(* ===== verification/OplogCopy.v ===== *)
(** * Replaying a stream through the filter (about src/internal/oplog/filter.go)

    The stream-level theorems: whatever happens, every entry written touches renamed
    databases only and lies before the limit; a copy that succeeds has replayed exactly
    the writes of the selected databases before the limit, in order, and its operation
    count is the one mongorestore will report. *)

From Stdlib Require Import Ascii.
From S2P Require Import Prelude Pitr GoStrings Bson OplogScan OplogFilter OplogReplay.

(** ** What the monadic programs leave alone *)

(** [m] does not change what [g] sees of the state, errors included. *)
Definition keeps {A B} (g : FState -> B) (m : M A) : Prop := ∀ s, g (m s).1 = g s.

Section Keeps.
Context {B : Type} (g : FState -> B).

Lemma keeps_ret {A} (a : A) : keeps g (ret a).
Proof. done. Qed.
Lemma keeps_fail {A} e : keeps g (fail (A := A) e).
Proof. done. Qed.
Lemma keeps_lift {A} (r : result OplogErr A) : keeps g (lift r).
Proof. done. Qed.
Lemma keeps_orFail {A} e (o : option A) : keeps g (orFail e o).
Proof. by destruct o. Qed.
Lemma keeps_get : keeps g get.
Proof. done. Qed.
Lemma keeps_modify h : (∀ s, g (h s) = g s) -> keeps g (modify h).
Proof. intros Hh s. apply Hh. Qed.
Lemma keepsM_bind {A C} (m : M A) (k : A -> M C) : keeps g m -> (∀ a, keeps g (k a)) -> keeps g (m ≫= k).
Proof.
  intros Hm Hk s. unfold mbind, M_bind, bind. specialize (Hm s). destruct (m s) as [s1 [a|e]]; [|done].
  by rewrite Hk.
Qed.

End Keeps.

Create HintDb keeps discriminated.
#[export] Hint Resolve keeps_ret keeps_fail keeps_lift keeps_orFail keeps_get keeps_modify : keeps.

(** Descends through binds and tests. *)
Ltac keep :=
  repeat first
    [ solve [eauto with keeps]
    | apply keepsM_bind; [|intros ?]
    | apply keeps_modify; intros ?; reflexivity
    | match goal with |- keeps _ (match ?x with _ => _ end) => destruct x end
    | match goal with |- keeps _ (if ?x then _ else _) => destruct x end ].

(** Everything but the open transactions and the indexes; and the indexes alone. *)
Definition outputs (s : FState) := (fsOps s, fsEntries s, fsLimitReached s, fsOut s).
Definition butIndexes (s : FState) := (outputs s, fsTxns s).

Section Frames.
Context `{Driver} (f : Filter).

Lemma addIndex_keeps db coll spec : keeps butIndexes (addIndex db coll spec).
Proof. unfold addIndex. keep. Qed.
#[local] Hint Resolve addIndex_keeps : keeps.

Lemma trackIndexes_keeps name o db : keeps butIndexes (trackIndexes name o db).
Proof. unfold trackIndexes. keep. Qed.
#[local] Hint Resolve trackIndexes_keeps : keeps.

Lemma mapMs_keeps {A B} (g : A -> M B) l : (∀ x, keeps butIndexes (g x)) -> keeps butIndexes (mapMs g l).
Proof. intros Hg. induction l; cbn [mapMs]; keep. Qed.

Lemma asCommand_keeps d db cmd : keeps butIndexes (asCommand f d db cmd).
Proof. unfold asCommand. keep. Qed.
#[local] Hint Resolve asCommand_keeps : keeps.

Lemma command_keeps nested d db : (∀ o, keeps butIndexes (nested o)) -> keeps butIndexes (command f nested d db).
Proof.
  intros Hn. unfold command, renameCollection, dropTarget, moveIndexes, applyOps, ddlCommand, ddl, commitIndexBuild. keep.
  all: apply mapMs_keeps; intros ?; unfold commitIndex; keep.
Qed.

Lemma opWith_keeps nested d : (∀ o, keeps butIndexes (nested o)) -> keeps butIndexes (opWith f nested d).
Proof. intros Hn. pose proof (command_keeps nested d) as Hc. unfold opWith, viewOp, crud. keep. all: by apply Hc. Qed.

Lemma nested_keeps levels : ∀ o, keeps butIndexes (nested f levels o).
Proof.
  induction levels as [|levels IH]; intros o; cbn [nested]; [keep|]. apply keepsM_bind; [keep|]. intros vs.
  induction vs as [|v vs IHvs]; cbn [nestedLoop]; [keep|]. apply keepsM_bind; [keep|]. intros d.
  apply keepsM_bind; [by apply opWith_keeps|]. intros [k n]. apply keepsM_bind; [done|]. intros [kr nr]. keep.
Qed.

Lemma op_keeps d : keeps butIndexes (op f d).
Proof. apply opWith_keeps, nested_keeps. Qed.

Lemma keeps_outputs {A} (m : M A) : keeps butIndexes m -> keeps outputs m.
Proof. intros Hm s. specialize (Hm s). apply (f_equal fst) in Hm. exact Hm. Qed.

Lemma filterEntry_keeps d : keeps outputs (filterEntry f d).
Proof.
  unfold filterEntry. destruct (txnID d) as [id|]; [|apply keeps_outputs, op_keeps].
  unfold transaction, txnEnd. pose proof (λ o, keeps_outputs _ (nested_keeps maxApplyOpsDepth o)). keep.
Qed.

End Frames.

(** ** Entries of transactions *)

Section Transactions.
Context `{DriverLaws} (f : Filter) (n : nat) (Hdepth : (maxApplyOpsDepth <= n)%nat).

(** What filtering a top-level entry [d] into [out] must satisfy. *)
Record entryReplaced (d : doc) (out : list doc) : Prop := mkEntryReplaced {
  er_writes : writesOf (itemsAll (S n) out) = renamedItem f <$> filter (kept f) (items (S n) d);
  er_confined : Forall (confined f) (itemsAll (S n) out);
  er_ts : Forall (λ d', Lookup d' "ts" = Lookup d "ts") out
}.

Lemma op_entryReplaced d : yields (op f d) (λ r, entryReplaced d r.1).
Proof.
  eapply yields_impl; [|apply (op_replaces f (S n)); lia]. intros r [_ Hw Hc Hf]. split; [done..|].
  eapply Forall_impl; [exact Hf|]. by intros d' [_ ?].
Qed.

(** What [txnID] and the check of the namespace say of an entry. *)
Record txnChecked (d o : doc) (name : string) (v : value) : Prop := mkTxnChecked {
  tc_op : Lookup d "op" = Some (BString "c");
  tc_ns : Lookup d "ns" = Some (BString "admin.$cmd");
  tc_o : Lookup d "o" = Some (BDoc o);
  tc_head : head o = Some (name, v);
  tc_name : name ∈ ["applyOps"; "commitTransaction"; "abortTransaction"]
}.

Lemma stringOf_nonempty v s : stringOf v = s -> s <> EmptyString -> v = Some (BString s).
Proof. destruct v as [[]|]; cbn; congruence. Qed.

Lemma txnID_checked d id :
  txnID d = Some id -> stringOf (Lookup d "ns") = "admin.$cmd" -> ∃ o v, txnChecked d o (commandName d) v.
Proof.
  unfold txnID. intros Hid Hns%stringOf_nonempty; [|done]. case_bool_decide as Hop; [|done]. cbn [negb] in Hid.
  destruct (Lookup d "lsid") as [lsid|]; [|done]. destruct (Lookup d "txnNumber") as [txn|]; [|done].
  case_bool_decide as Hm; [done|]. case_bool_decide as Hc; [|done].
  apply stringOf_nonempty in Hop; [|done]. revert Hc. unfold commandName.
  destruct (Lookup d "o") as [[| o | | | | | |]|] eqn:Ho; cbn; try (intros; set_solver).
  destruct (head o) as [[k v]|] eqn:Hh; cbn; [|intros; set_solver]. intros Hc. by exists o, v.
Qed.

Lemma txnChecked_item d o name v :
  txnChecked d o name v -> itemOf d = mkItem "c" "admin" "$cmd" name (Some (BDoc o)) (Lookup d "o2").
Proof. intros [Hop Hns Ho Hh _]. unfold itemOf, commandName. rewrite Hop, Hns, Ho. cbn. by rewrite Hh. Qed.

Lemma txnChecked_items d o v :
  txnChecked d o "applyOps" v -> items (S n) d = itemOf d :: itemsAll n (nestedDocs (Some (BDoc o))).
Proof.
  intros Hc. cbn [items]. rewrite (txnChecked_item _ _ _ _ Hc). cbn [itName itDB]. by rewrite (tc_o _ _ _ _ Hc).
Qed.

(** A transaction entry on [admin] names no other database. *)
Lemma txnChecked_confined d o name v :
  txnChecked d o name v -> confined f (itemOf d) /\ isWrite (itemOf d) = false /\ ~ kept f (itemOf d).
Proof.
  intros Hc. pose proof (tc_name _ _ _ _ Hc) as Hn. rewrite (txnChecked_item _ _ _ _ Hc).
  split; [|split; [done|by apply not_kept_command]]. unfold confined, touches, isWrite. cbn [itOp itName itDB].
  rewrite (bool_decide_false (name = _)) by (intros ->; set_solver). rewrite (bool_decide_true (name ∈ _)) by done. constructor.
Qed.

(** The fields of what is written for a transaction entry. *)
Lemma txnEntry_checked d o v k c :
  txnChecked d o "applyOps" v ->
  ∃ o' v', txnChecked (txnEntry d o k c) o' "applyOps" v' /\ nestedDocs (Some (BDoc o')) = k /\
    isTrue o' "partialTxn" = isTrue o "partialTxn" /\ isTrue o' "prepare" = isTrue o "prepare" /\
    Lookup (txnEntry d o k c) "ts" = Lookup d "ts".
Proof.
  intros [Hop Hns Ho Hh Hn]. unfold txnEntry. set (o' := rebuild o _). exists o', (nestedArray k).
  assert (head o' = Some ("applyOps", nestedArray k)) as Hh' by by eapply rebuild_head.
  split; [|split; [by apply nestedArray_docs, head_Lookup|]].
  - split; [..|done|set_solver].
    + etrans; [by apply Lookup_same|done]. + etrans; [by apply Lookup_same|done]. + by eapply Lookup_set.
  - split; [unfold isTrue, o'; by rewrite Lookup_same|]. split; [unfold isTrue, o'; by rewrite Lookup_same|by apply Lookup_same].
Qed.

Lemma txnEntry_id d o v k c : txnChecked d o "applyOps" v -> txnID (txnEntry d o k c) = txnID d \/ txnID d = None.
Proof.
  intros Hc. destruct (txnEntry_checked d o v k c Hc) as (o' & v' & Hc' & _).
  destruct (txnID d) as [id|] eqn:Hid; [left|by right]. revert Hid. unfold txnID, commandName.
  rewrite (tc_op _ _ _ _ Hc), (tc_op _ _ _ _ Hc'), (tc_o _ _ _ _ Hc), (tc_o _ _ _ _ Hc').
  cbn [DocumentOK]. rewrite (tc_head _ _ _ _ Hc), (tc_head _ _ _ _ Hc').
  assert (Lookup (txnEntry d o k c) "lsid" = Lookup d "lsid") as -> by by apply Lookup_same.
  assert (Lookup (txnEntry d o k c) "txnNumber" = Lookup d "txnNumber") as -> by by apply Lookup_same.
  assert (Lookup (txnEntry d o k c) "multiOpType" = None) as -> by by apply Lookup_dropped.
  destruct (Lookup d "lsid"); [|done]. destruct (Lookup d "txnNumber"); [|done].
  destruct (bool_decide (Lookup d "multiOpType" ≫= AsInt64OK = Some 1)); done.
Qed.

(** The commit or abort of a prepared transaction keeps the fields that matter. *)
Definition keptEntry (d : doc) : doc := rebuild d (λ key v, if txnKeeps key then Some v else None).

Lemma keptEntry_checked d o name v : txnChecked d o name v -> txnChecked (keptEntry d) o name v.
Proof.
  intros [Hop Hns Ho Hh Hn]. split; [..|done|done].
  - etrans; [by apply Lookup_same|done]. - etrans; [by apply Lookup_same|done]. - etrans; [by apply Lookup_same|done].
Qed.

Lemma keptEntry_id d o name v id : txnChecked d o name v -> txnID d = Some id -> txnID (keptEntry d) = Some id.
Proof.
  intros Hc. pose proof (keptEntry_checked _ _ _ _ Hc) as Hc'. unfold txnID, commandName.
  rewrite (tc_op _ _ _ _ Hc), (tc_op _ _ _ _ Hc'), (tc_o _ _ _ _ Hc), (tc_o _ _ _ _ Hc').
  assert (Lookup (keptEntry d) "lsid" = Lookup d "lsid") as -> by by apply Lookup_same.
  assert (Lookup (keptEntry d) "txnNumber" = Lookup d "txnNumber") as -> by by apply Lookup_same.
  assert (Lookup (keptEntry d) "multiOpType" = None) as -> by by apply Lookup_dropped.
  destruct (Lookup d "lsid"); [|done]. destruct (Lookup d "txnNumber"); [|done].
  destruct (bool_decide (Lookup d "multiOpType" ≫= AsInt64OK = Some 1)); done.
Qed.

(** An entry of a transaction: the operations it keeps, or its end. *)
Lemma transaction_cases s s' d id out ops :
  txnID d = Some id -> transaction f d id s = (s', Ok (out, ops)) ->
  outputs s' = outputs s /\
  ((∃ o v name, txnChecked d o name v /\ name ∈ ["commitTransaction"; "abortTransaction"] /\ fsTxns s' = delete id (fsTxns s) /\
      match fsTxns s !! id with
      | Some st => if txWritten st =? 0 then out = [] /\ ops = 0
                   else out = [keptEntry d] /\ ops = if bool_decide (name = "abortTransaction") then 0 else txPending st
      | None => out = [] /\ ops = 0
      end) \/
   (∃ o v k c, txnChecked d o "applyOps" v /\ nestedReplaced f n (nestedDocs (Some (BDoc o))) (k, c) /\
      let commit := negb (isTrue o "partialTxn") && negb (isTrue o "prepare") in
      let st0 := default (mkTxn 0 0 0) (fsTxns s !! id) in
      let st1 := mkTxn (txWritten st0) (i64 (txOps st0 + i64 (Z.of_nat (length k)))) (i64 (txPending st0 + c)) in
      if bool_decide (k = []) && (negb commit || (txWritten st0 =? 0))
      then out = [] /\ ops = 0 /\ fsTxns s' = (if commit then delete id else <[id := st1]>) (fsTxns s)
      else out = [txnEntry d o k (txOps st1)] /\
           ops = (if commit then txPending st1 else 0) /\
           fsTxns s' = (if commit then delete id
                        else <[id := mkTxn (i64 (txWritten st0 + 1)) (txOps st1) (txPending st1)]>) (fsTxns s))).
Proof.
  intros Hid. unfold transaction. destruct (decide (stringOf (Lookup d "ns") = "admin.$cmd")) as [Hns|Hns];
    [rewrite (bool_decide_true (stringOf _ = _)) by done|rewrite (bool_decide_false (stringOf _ = _)) by done; done].
  destruct (txnID_checked d id Hid Hns) as (o & v & Hc). cbn [negb]. unfold mbind, M_bind, bind, get. cbn beta iota.
  pose proof (tc_name _ _ _ _ Hc) as Hname. case_bool_decide as Hend.
  - unfold txnEnd, mbind, M_bind, bind, modify. cbn beta iota. intros Ht. split.
    + destruct (fsTxns s !! id) as [st|]; [destruct (txWritten st =? 0); [|case_bool_decide]|]; by injection Ht as <- <- <-.
    + left. exists o, v, (commandName d). destruct (fsTxns s !! id) as [st|]; [destruct (txWritten st =? 0); [|case_bool_decide]|];
        by injection Ht as <- <- <-.
  - assert (commandName d = "applyOps") as Hn by (revert Hname Hend; set_solver). rewrite Hn in Hc. clear Hend Hname.
    rewrite (tc_o _ _ _ _ Hc). change (default [] (DocumentOK (Some (BDoc o)))) with o. cbn zeta.
    pose proof (nested_keeps f maxApplyOpsDepth o s) as Hkeep.
    pose proof (nested_replaces f maxApplyOpsDepth n o Hdepth s) as Hrep.
    destruct (nested f maxApplyOpsDepth o s) as [s1 [[k c]|e]]; [|done]. cbn [fst] in Hkeep.
    specialize (Hrep s1 (k, c) eq_refl). injection Hkeep as H1 H2 H3 H4 H5. unfold modify. cbn beta iota.
    cbn [txWritten txOps txPending]. intros Ht.
    split; [|right; exists o, v, k, c; split; [done|]; split; [done|]]; revert Ht; cbn zeta;
      generalize (negb (isTrue o "partialTxn") && negb (isTrue o "prepare")) as commit; intros commit;
      generalize (default (mkTxn 0 0 0) (fsTxns s !! id)) as st0; intros st0; cbn [txWritten txOps txPending];
      destruct (bool_decide (k = []) && _); destruct commit; intros [= <- <- <-];
      unfold outputs; cbn; rewrite ?H5, ?insert_insert_eq; try split_and!; congruence.
Qed.

Lemma entryReplaced_nothing d : filter (kept f) (items (S n) d) = [] -> entryReplaced d [].
Proof. intros Hk. split; [by rewrite Hk|constructor..]. Qed.

(** An entry whose only operation besides nested ones is a transaction wrapper. *)
Lemma entryReplaced_wrapper d d' o o' name v v' ins outs :
  txnChecked d o name v -> txnChecked d' o' name v' -> items (S n) d = itemOf d :: ins -> items (S n) d' = itemOf d' :: outs ->
  writesOf outs = renamedItem f <$> filter (kept f) ins -> Forall (confined f) outs -> Lookup d' "ts" = Lookup d "ts" ->
  entryReplaced d [d'].
Proof.
  intros Hc Hc' Hin Hout Hw Hf Hts. destruct (txnChecked_confined _ _ _ _ Hc) as (_ & _ & Hk).
  destruct (txnChecked_confined _ _ _ _ Hc') as (Hcf & Hnw & _).
  split; unfold itemsAll; cbn [flat_map]; rewrite ?app_nil_r, ?Hout, ?Hin.
  - unfold writesOf in *. rewrite filter_cons_False by by rewrite Hnw. by rewrite filter_cons_False.
  - by constructor.
  - by repeat constructor.
Qed.

Lemma txnEnd_items d o name v :
  txnChecked d o name v -> name ∈ ["commitTransaction"; "abortTransaction"] -> items (S n) d = [itemOf d].
Proof.
  intros Hc Hn. apply items_single. rewrite (txnChecked_item _ _ _ _ Hc). cbn. intros ->. set_solver.
Qed.

Lemma transaction_entryReplaced d id : txnID d = Some id -> yields (transaction f d id) (λ r, entryReplaced d r.1).
Proof.
  intros Hid s s' [out ops] Ht. cbn [fst].
  destruct (transaction_cases _ _ _ _ _ _ Hid Ht) as [_ [(o & v & name & Hc & Hn & _ & Hst)|(o & v & k & c & Hc & Hr & Hst)]].
  - pose proof (txnEnd_items _ _ _ _ Hc Hn) as Hit. assert (entryReplaced d []) as Hnil.
    { apply entryReplaced_nothing. rewrite Hit, filter_cons_False; [done|]. by eapply txnChecked_confined. }
    destruct (fsTxns s !! id) as [st|]; [|by destruct Hst as [-> _]].
    destruct (txWritten st =? 0); [by destruct Hst as [-> _]|]. destruct Hst as [-> _].
    pose proof (keptEntry_checked _ _ _ _ Hc) as Hc'.
    eapply entryReplaced_wrapper; [done..|by eapply txnEnd_items|done|constructor|by apply Lookup_same].
  - destruct Hr as [_ Hw Hf]. cbn [fst] in *. cbn zeta in Hst. pose proof (txnChecked_items _ _ _ Hc) as Hit.
    destruct (bool_decide (k = []) && _) eqn:Hb.
    + destruct Hst as (-> & _). apply andb_prop in Hb as [Hb _]. apply bool_decide_eq_true in Hb as ->.
      apply entryReplaced_nothing. rewrite Hit, filter_cons_False by (by eapply txnChecked_confined).
      cbn in Hw. by apply symmetry, fmap_nil_inv in Hw.
    + destruct Hst as (-> & _). set (c' := txOps _). destruct (txnEntry_checked d o v k c' Hc) as (o' & v' & Hc' & Hk & _ & _ & Hts).
      pose proof (txnChecked_items _ _ _ Hc') as Hit'. rewrite Hk in Hit'. by eapply entryReplaced_wrapper.
Qed.

Lemma filterEntry_entryReplaced d : yields (filterEntry f d) (λ r, entryReplaced d r.1).
Proof. unfold filterEntry. destruct (txnID d) as [id|] eqn:Hid; [by apply transaction_entryReplaced|apply op_entryReplaced]. Qed.

(** ** What mongorestore counts *)

(** mongorestore's "applied N oplog entries": an entry counts its operations, an applyOps
    itself and those in it; a transaction counts its operations when it commits, and
    nothing when it aborts or does not end. [open] are the operations of the open
    transactions. *)
Definition restoreEntry (d : doc) (open : gmap string Z) : Z * gmap string Z :=
  match txnID d with
  | None => (Z.of_nat (length (items (S n) d)), open)
  | Some id =>
      let sofar := default 0 (open !! id) in
      if bool_decide (commandName d = "abortTransaction") then (0, delete id open)
      else if bool_decide (commandName d = "commitTransaction") then (sofar, delete id open)
      else
        let o := default [] (DocumentOK (Lookup d "o")) in
        let total := sofar + Z.of_nat (length (itemsAll n (nestedDocs (Lookup d "o")))) in
        if isTrue o "partialTxn" || isTrue o "prepare" then (0, <[id := total]> open) else (total, delete id open)
  end.

Fixpoint restoreAll (ds : list doc) (open : gmap string Z) : Z * gmap string Z :=
  match ds with
  | [] => (0, open)
  | d :: r =>
      let '(c, open1) := restoreEntry d open in
      let '(cr, open2) := restoreAll r open1 in
      (c + cr, open2)
  end.

Lemma restoreAll_app l1 l2 open :
  restoreAll (l1 ++ l2) open =
  let '(c1, open1) := restoreAll l1 open in let '(c2, open2) := restoreAll l2 open1 in (c1 + c2, open2).
Proof.
  revert open. induction l1 as [|d l1 IH]; intros open; cbn; [by destruct (restoreAll l2 open)|].
  destruct (restoreEntry d open) as [c o1]. rewrite IH. destruct (restoreAll l1 o1) as [c1 o2].
  destruct (restoreAll l2 o2) as [c2 o3]. f_equal. lia.
Qed.

(** The filter's open transactions against mongorestore's, after [k] entries. *)
Definition txnRel (k : Z) (m : gmap string txnState) (open : gmap string Z) : Prop :=
  ∀ id, match m !! id with
        | None => open !! id = None
        | Some st =>
            0 <= txWritten st <= k /\
            if txWritten st =? 0 then open !! id = None /\ txPending st = 0
            else ∃ q, open !! id = Some q /\ txPending st = i64 q
        end.

Lemma txnRel_weaken k k' m open : k <= k' -> txnRel k m open -> txnRel k' m open.
Proof. intros Hk Hr id. specialize (Hr id). destruct (m !! id); [|done]. destruct Hr as [? Hr]. split; [lia|done]. Qed.

Lemma txnRel_delete k m open id : txnRel k m open -> txnRel k (delete id m) (delete id open).
Proof.
  intros Hr id'. specialize (Hr id'). destruct (decide (id = id')) as [->|Hne].
  - by rewrite !lookup_delete_eq.
  - by rewrite !lookup_delete_ne.
Qed.

Lemma txnRel_unopened k m open id : txnRel k m open -> open !! id = None -> txnRel k (delete id m) open.
Proof. intros Hr Ho. rewrite <- (delete_id open id) by done. by apply txnRel_delete. Qed.

Lemma restoreAll_plain ds open :
  Forall (λ d, Lookup d "lsid" = None) ds -> restoreAll ds open = (Z.of_nat (length (itemsAll (S n) ds)), open).
Proof.
  induction 1 as [|d ds Hd _ IH]; [done|]. cbn [restoreAll]. unfold restoreEntry at 1. unfold txnID. rewrite Hd.
  destruct (negb _); rewrite IH; unfold itemsAll; cbn [flat_map]; rewrite length_app, Nat2Z.inj_add; done.
Qed.

Lemma op_counts d : yields (op f d) (λ r, ∀ open, ∃ c, restoreAll r.1 open = (c, open) /\ r.2 = i64 c).
Proof.
  eapply yields_impl; [|apply (op_replaces f (S n)); lia]. intros r [Hc _ _ Hf] open. eexists. split; [|exact Hc].
  apply restoreAll_plain. eapply Forall_impl; [exact Hf|]. by intros d' [? _].
Qed.

Lemma commandName_checked d o name v : txnChecked d o name v -> commandName d = name.
Proof. intros Hc. unfold commandName. rewrite (tc_o _ _ _ _ Hc). cbn. by rewrite (tc_head _ _ _ _ Hc). Qed.

(** What mongorestore counts for the entries written of a transaction. *)
Lemma restoreEntry_end d o name v id open :
  txnID d = Some id -> txnChecked d o name v -> name ∈ ["commitTransaction"; "abortTransaction"] ->
  restoreEntry d open = (if bool_decide (name = "abortTransaction") then 0 else default 0 (open !! id), delete id open).
Proof.
  intros Hid Hc Hn. unfold restoreEntry. rewrite Hid, (commandName_checked _ _ _ _ Hc).
  case_bool_decide; [done|]. rewrite bool_decide_true by set_solver. done.
Qed.

Lemma restoreEntry_ops d o v id open :
  txnID d = Some id -> txnChecked d o "applyOps" v ->
  restoreEntry d open =
  let total := default 0 (open !! id) + Z.of_nat (length (itemsAll n (nestedDocs (Some (BDoc o))))) in
  if negb (isTrue o "partialTxn") && negb (isTrue o "prepare") then (total, delete id open) else (0, <[id := total]> open).
Proof.
  intros Hid Hc. unfold restoreEntry. rewrite Hid, (commandName_checked _ _ _ _ Hc), (tc_o _ _ _ _ Hc).
  rewrite !bool_decide_false by done. change (default [] (DocumentOK (Some (BDoc o)))) with o.
  by destruct (isTrue o "partialTxn"), (isTrue o "prepare").
Qed.

(** What the two sides know of a transaction before an entry. *)
Lemma txnRel_pending k m open id :
  txnRel k m open -> txPending (default (mkTxn 0 0 0) (m !! id)) = i64 (default 0 (open !! id)).
Proof.
  intros Hr. specialize (Hr id). destruct (m !! id) as [st|]; cbn; [|by rewrite Hr].
  destruct Hr as [_ Hr]. destruct (txWritten st =? 0); [by destruct Hr as [-> ->]|]. by destruct Hr as (q & -> & ->).
Qed.

Lemma txnRel_written k m open id :
  0 <= k -> txnRel k m open -> 0 <= txWritten (default (mkTxn 0 0 0) (m !! id)) <= k.
Proof. intros Hk Hr. specialize (Hr id). destruct (m !! id) as [st|]; cbn; [|lia]. by destruct Hr. Qed.

Lemma txnRel_insert k m open id st q :
  txnRel k m open -> 0 < txWritten st <= k -> txPending st = i64 q -> txnRel k (<[id := st]> m) (<[id := q]> open).
Proof.
  intros Hr Hw Hp id'. destruct (decide (id = id')) as [<-|Hne].
  - rewrite !lookup_insert_eq. split; [lia|]. destruct (Z.eqb_spec (txWritten st) 0); [lia|]. eauto.
  - rewrite !lookup_insert_ne by done. apply Hr.
Qed.

Lemma transaction_counts k s s' d id out ops open :
  txnID d = Some id -> transaction f d id s = (s', Ok (out, ops)) -> txnRel k (fsTxns s) open -> 0 <= k -> k + 1 < 2 ^ 63 ->
  ∃ c open', restoreAll out open = (c, open') /\ ops = i64 c /\ txnRel (k + 1) (fsTxns s') open'.
Proof.
  intros Hid Ht Hrel Hk0 Hk. assert (txnRel (k + 1) (fsTxns s) open) as Hrel' by (eapply txnRel_weaken; [|done]; lia).
  destruct (transaction_cases _ _ _ _ _ _ Hid Ht) as [_ [(o & v & name & Hc & Hn & Htx & Hst)|(o & v & l & c & Hc & Hr & Hst)]].
  - rewrite Htx. pose proof (Hrel id) as Hid'. destruct (fsTxns s !! id) as [st|] eqn:Hm; cycle 1.
    { destruct Hst as [-> ->]. exists 0, open. split_and!; [done..|]. by apply txnRel_unopened. }
    destruct Hid' as [_ Hp]. destruct (txWritten st =? 0).
    { destruct Hst as [-> ->]. exists 0, open. split_and!; [done..|]. apply txnRel_unopened; [done|]. by destruct Hp. }
    destruct Hst as [-> ->]. destruct Hp as (q & Hq & Hp). cbn [restoreAll].
    rewrite (restoreEntry_end _ _ _ _ id open (keptEntry_id _ _ _ _ _ Hc Hid) (keptEntry_checked _ _ _ _ Hc) Hn).
    eexists _, _. split; [done|]. split; [|by apply txnRel_delete]. rewrite Hq. cbn. case_bool_decide; [done|]. by rewrite Z.add_0_r.
  - destruct Hr as [Hcnt _ _]. cbn [fst snd] in *. cbn zeta in Hst. pose proof (txnRel_pending _ _ _ id Hrel) as Hp.
    pose proof (txnRel_written _ _ _ id Hk0 Hrel) as Hw. set (st0 := default _ _) in *.
    destruct (bool_decide (l = []) && _) eqn:Hb.
    + destruct Hst as (-> & -> & ->). apply andb_prop in Hb as [Hb Hb2]. apply bool_decide_eq_true in Hb as ->.
      assert (c = 0) as -> by done. exists 0, open. split; [done|]. split; [done|]. destruct (_ && _) eqn:Hcm; cbn [negb orb] in Hb2.
      * apply txnRel_unopened; [done|]. specialize (Hrel id). unfold st0 in *. clear -Hrel Hb2.
        destruct (fsTxns s !! id) as [st|]; [|done]. cbn in Hb2. destruct Hrel as [_ Hrel]. rewrite Hb2 in Hrel. by destruct Hrel.
      * intros id'. destruct (decide (id = id')) as [<-|]; [|rewrite lookup_insert_ne by done; apply Hrel'].
        rewrite lookup_insert_eq. cbn [txWritten txPending]. split; [lia|]. rewrite Z.add_0_r, Hp.
        specialize (Hrel id). unfold st0. destruct (fsTxns s !! id) as [st|]; cbn; [|by rewrite Hrel].
        destruct Hrel as [_ Hrel]. destruct (txWritten st =? 0); [by destruct Hrel as [-> _]|].
        destruct Hrel as (q & -> & _). exists q. split; [done|]. apply i64_idem.
    + destruct Hst as (-> & -> & ->). set (c' := txOps _).
      destruct (txnEntry_checked d o v l c' Hc) as (o' & v' & Hc' & Hl & Hp1 & Hp2 & _).
      assert (txnID (txnEntry d o l c') = Some id) as Hid' by (destruct (txnEntry_id d o v l c' Hc); congruence).
      cbn [restoreAll]. rewrite (restoreEntry_ops _ _ _ id open Hid' Hc'), Hl, Hp1, Hp2. cbn zeta. cbn [txPending].
      destruct (_ && _); cbn zeta.
      * eexists _, _. split; [done|]. split; [|by apply txnRel_delete]. rewrite Hp, Hcnt, i64_add_l, i64_add_r. f_equal. lia.
      * eexists _, _. split; [done|]. split; [done|]. apply txnRel_insert; [done| |]; cbn [txWritten txPending].
        -- rewrite i64_small by lia. lia.
        -- by rewrite Hp, Hcnt, i64_add_l, i64_add_r.
Qed.

Lemma filterEntry_counts k s s' d out ops open :
  filterEntry f d s = (s', Ok (out, ops)) -> txnRel k (fsTxns s) open -> 0 <= k -> k + 1 < 2 ^ 63 ->
  ∃ c open', restoreAll out open = (c, open') /\ ops = i64 c /\ txnRel (k + 1) (fsTxns s') open'.
Proof.
  unfold filterEntry. intros He Hrel Hk0 Hk. destruct (txnID d) as [id|] eqn:Hid; [by eapply transaction_counts|].
  destruct (op_counts d _ _ _ He open) as (c & Hc & Ho). exists c, open. split; [done|]. split; [done|].
  pose proof (op_keeps f d s) as Hkp. rewrite He in Hkp. injection Hkp as _ _ _ _ ->.
  eapply txnRel_weaken; [|done]. lia.
Qed.

End Transactions.

(** ** Apply and Copy *)

Section Stream.
Context `{DriverLaws} (f : Filter) (w : EntryWriter) (n : nat) (Hdepth : (maxApplyOpsDepth <= n)%nat).

Lemma emitAll_spec out : ∀ s s' r, emitAll w out s = (s', r) ->
  fsTxns s' = fsTxns s /\ fsOps s' = fsOps s /\ fsLimitReached s' = fsLimitReached s /\
  ∃ bs, fsOut s' = fsOut s ++ bs /\ Forall (λ b, ∃ d, d ∈ out /\ Marshal d = Some b) bs /\
    (r = Ok tt -> Forall2 (λ d b, Marshal d = Some b) out bs).
Proof.
  induction out as [|d out IH]; intros s s' r; cbn [emitAll].
  - intros [= <- <-]. split_and!; [done..|]. exists []. by rewrite app_nil_r.
  - unfold mbind, M_bind, bind, orFail, get. destruct (Marshal d) as [b|] eqn:Hb; cbn; cycle 1.
    { intros [= <- <-]. split_and!; [done..|]. exists []. rewrite app_nil_r. by split_and!. }
    destruct (w (fsOut s) b) as [e|].
    { intros [= <- <-]. split_and!; [done..|]. exists []. rewrite app_nil_r. by split_and!. }
    intros (Ht & Ho & Hl & bs & Hout & Hbs & Hall)%IH. cbn in Ht, Ho, Hl, Hout. split_and!; [done..|].
    exists (b :: bs). rewrite Hout, <- app_assoc. split; [done|]. split; [|intros ->; constructor; auto].
    constructor; [exists d; split; [left|done]|]. eapply Forall_impl; [exact Hbs|]. intros b' (d' & ? & ?). exists d'. split; [by right|done].
Qed.

(** A written entry that only touches renamed databases and lies before the limit. *)
Definition safeEntry (b : bytes) : Prop :=
  ∃ d ts, Validate b = Some d /\ Forall (confined f) (items (S n) d) /\
    TimestampOK (Lookup d "ts") = Some ts /\ atLimit f ts = false.

Lemma entryReplaced_safe d ts out d' b :
  entryReplaced f n d out -> TimestampOK (Lookup d "ts") = Some ts -> atLimit f ts = false ->
  d' ∈ out -> Marshal d' = Some b -> safeEntry b.
Proof.
  intros [_ Hc Hts] Ht Hl Hd' Hb. exists d', ts. split; [by eapply Marshal_Validate|]. split; [|split; [|done]].
  - rewrite Forall_forall in *. intros it Hit. apply Hc. apply list_elem_of_In, in_flat_map.
    exists d'. by rewrite <- !list_elem_of_In.
  - rewrite Forall_forall in Hts. by rewrite (Hts d' Hd').
Qed.

Lemma Apply_safe b s s' r : Apply f w b s = (s', r) -> ∃ bs, fsOut s' = fsOut s ++ bs /\ Forall safeEntry bs.
Proof.
  unfold Apply. destruct (eqb _ _); [intros [= <- <-]; exists []; by rewrite app_nil_r|].
  unfold mbind, M_bind, bind, get, orFail. destruct (fsLimitReached s); [intros [= <- <-]; exists []; by rewrite app_nil_r|].
  destruct (Validate b) as [d|]; cbn; [|intros [= <- <-]; exists []; by rewrite app_nil_r].
  destruct (TimestampOK (Lookup d "ts")) as [ts|] eqn:Hts; cbn; [|intros [= <- <-]; exists []; by rewrite app_nil_r].
  destruct (atLimit f ts) eqn:Hl; [intros [= <- <-]; exists []; by rewrite app_nil_r|].
  pose proof (filterEntry_keeps f d s) as Hk. destruct (filterEntry f d s) as [s1 [[out ops]|e]] eqn:He; cycle 1.
  { intros [= <- <-]. exists []. rewrite app_nil_r. by injection Hk. }
  destruct (emitAll w out s1) as [s2 r2] eqn:Hem.
  destruct (emitAll_spec _ _ _ _ Hem) as (_ & _ & _ & bs & Hout & Hbs & _). injection Hk as _ _ _ Hk.
  intros Hr. exists bs. split.
  - destruct r2; [destruct a|]; injection Hr as <- <-; cbn; congruence.
  - eapply Forall_impl; [exact Hbs|]. intros b' (d' & Hd' & Hm). eapply entryReplaced_safe; [|done..].
    by apply (filterEntry_entryReplaced f n Hdepth d s s1 (out, ops)).
Qed.

Lemma copyLoop_safe fuel : ∀ src s s' r, copyLoop f w fuel src s = (s', r) ->
  Forall safeEntry (fsOut s) -> Forall safeEntry (fsOut s').
Proof.
  induction fuel as [|fuel IH]; intros src s s' r; cbn [copyLoop]; [by intros [= <- <-]|].
  destruct (Next src) as [[b src']|[]]; try by intros [= <- <-].
  unfold mbind, M_bind, bind. destruct (Apply f w b s) as [s1 [stop|e]] eqn:HA;
    destruct (Apply_safe _ _ _ _ HA) as (bs & Hout & Hbs).
  - intros Hr Hs. assert (Forall safeEntry (fsOut s1)) by (rewrite Hout; by apply Forall_app_2).
    destruct stop; [injection Hr as <- <-; done|]. by eapply IH.
  - intros [= <- <-] Hs. rewrite Hout. by apply Forall_app_2.
Qed.

Lemma Apply_ok b s s' stop : Apply f w b s = (s', Ok stop) -> fsLimitReached s = false ->
  ∃ d ts, Validate b = Some d /\ TimestampOK (Lookup d "ts") = Some ts /\ atLimit f ts = stop /\
  if stop then fsOut s' = fsOut s /\ fsOps s' = fsOps s
  else fsLimitReached s' = false /\ ∃ out ops s1 bs, filterEntry f d s = (s1, Ok (out, ops)) /\ Forall2 (λ d b, Marshal d = Some b) out bs /\
       fsOut s' = fsOut s ++ bs /\ fsOps s' = i64 (fsOps s + ops) /\ fsTxns s' = fsTxns s1.
Proof.
  unfold Apply. destruct (eqb _ _); [done|]. unfold mbind, M_bind, bind, get, orFail. intros HA HL. rewrite HL in HA. revert HA.
  destruct (Validate b) as [d|]; cbn; [|done]. destruct (TimestampOK (Lookup d "ts")) as [ts|] eqn:Hts; cbn; [|done].
  destruct (atLimit f ts) eqn:Hl; [intros [= <- <-]; by exists d, ts|].
  pose proof (filterEntry_keeps f d s) as Hk. destruct (filterEntry f d s) as [s1 [[out ops]|e]] eqn:He; [|done].
  destruct (emitAll w out s1) as [s2 [[]|e]] eqn:Hem; [|done].
  destruct (emitAll_spec _ _ _ _ Hem) as (Ht & Ho & Hlr & bs & Hout & _ & Hbs). injection Hk as Hk1 Hk2 Hk3 Hk4.
  intros [= <- <-]. exists d, ts. split; [done|]. split; [done|]. split; [done|]. cbn. split; [congruence|]. exists out, ops, s1, bs.
  split_and!; [done|auto|congruence..].
Qed.

(** The documents before the limit: the bytes of a stream are [bs], the documents [ds],
    then nothing, or a document at the limit. *)
Definition beforeLimit (src : Stream) (ds : list doc) : Prop :=
  ∃ bs rest, stBytes src = concat bs ++ rest /\ Forall wholeDoc bs /\ Forall2 (λ b d, Validate b = Some d) bs ds /\
    Forall (λ d, ∃ ts, TimestampOK (Lookup d "ts") = Some ts /\ atLimit f ts = false) ds /\
    (rest = [] \/ ∃ b r d ts, Next (mkStream rest (stFails src)) = Ok (b, r) /\ Validate b = Some d /\
                 TimestampOK (Lookup d "ts") = Some ts /\ atLimit f ts = true).

Lemma Next_split src b src' :
  Next src = Ok (b, src') -> stBytes src = b ++ stBytes src' /\ stFails src' = stFails src /\ wholeDoc b.
Proof.
  unfold Next, ReadFull. destruct src as [bs fl]. cbn [stBytes stFails]. case_bool_decide as H4; [|destruct fl; [done|by case_bool_decide]].
  destruct (documentSize (take 4 bs)) as [size|] eqn:Hs; [|done]. cbn [stBytes stFails]. pose proof (documentSize_min _ _ Hs).
  case_bool_decide as Hn; [|by destruct fl]. intros [= <- <-]. cbn [stBytes stFails]. rewrite length_drop in Hn.
  split; [by rewrite <- app_assoc, !take_drop|]. split; [done|]. split.
  - rewrite length_app, length_take. lia.
  - rewrite take_app_le, take_take by (rewrite length_take; lia).
    rewrite Nat.min_id, Hs, length_app, !length_take, length_drop. f_equal. lia.
Qed.

(** The loop of [Copy] never runs out of turns. *)
Lemma copyLoop_fuel n1 : ∀ n2 src s,
  (length (stBytes src) < n1)%nat -> (length (stBytes src) < n2)%nat -> copyLoop f w n1 src s = copyLoop f w n2 src s.
Proof.
  induction n1 as [|n1 IH]; intros [|n2] src s H1 H2; [lia..|]. cbn [copyLoop].
  destruct (Next src) as [[b src']|] eqn:HN; [|done]. destruct (Next_split _ _ _ HN) as (Hb & _ & [Hl _]).
  rewrite Hb, length_app in H1, H2. unfold mbind, M_bind, bind. destruct (Apply f w b s) as [s1 [[]|]]; [done| |done]. apply IH; lia.
Qed.

(** The documents written. *)
Definition wrote (bs : list bytes) (ds : list doc) : Prop := Forall2 (λ b d, Validate b = Some d) bs ds.

Lemma Next_EOF src : Next src = Err EOF -> stBytes src = [].
Proof.
  unfold Next, ReadFull. destruct src as [bs fl]. cbn [stBytes stFails]. case_bool_decide as H4.
  - destruct (documentSize (take 4 bs)) as [size|] eqn:Hs.
    + cbn. case_bool_decide; [done|]. by destruct fl.
    + intros [= ->]. revert Hs. unfold documentSize. by destruct (_ || _).
  - destruct fl; [done|]. case_bool_decide; [|done]. intros _. by apply length_zero_iff_nil.
Qed.

Lemma wrote_marshal out bs : Forall2 (λ d b, Marshal d = Some b) out bs -> wrote bs out.
Proof. intros Hf. apply Forall2_flip. eapply Forall2_impl; [exact Hf|]. intros d b. apply Marshal_Validate. Qed.

(** A copy that succeeds: what it read, wrote and counted. *)
Lemma copyLoop_ok fuel : ∀ src s s' k open, copyLoop f w fuel src s = (s', Ok tt) -> fsLimitReached s = false ->
  i64 (fsOps s) = fsOps s -> txnRel k (fsTxns s) open -> 0 <= k -> k + Z.of_nat (length (stBytes src)) < 2 ^ 63 ->
  ∃ ds nb outs c open', beforeLimit src ds /\ fsOut s' = fsOut s ++ nb /\ wrote nb outs /\
    writesOf (itemsAll (S n) outs) = renamedItem f <$> filter (kept f) (itemsAll (S n) ds) /\
    restoreAll n outs open = (c, open') /\ fsOps s' = i64 (fsOps s + c).
Proof.
  induction fuel as [|fuel IH]; intros src s s' k open; cbn [copyLoop]; [done|].
  destruct (Next src) as [[b src']|e] eqn:HN; cycle 1.
  { destruct e; try done. intros [= <-] HL H64 Hrel Hk Hlen. exists [], [], [], 0, open. split_and!; try done.
    - exists [], []. rewrite (Next_EOF _ HN). split_and!; try done. by left.
    - by rewrite app_nil_r.
    - constructor.
    - by rewrite Z.add_0_r. }
  unfold mbind, M_bind, bind. destruct (Apply f w b s) as [s1 [stop|]] eqn:HA; [|done].
  intros Hc HL H64 Hrel Hk Hlen. destruct (Next_split _ _ _ HN) as (Hb & Hfl & Hwb). pose proof (proj1 Hwb) as Hlb.
  destruct (Apply_ok _ _ _ _ HA HL) as (d & ts & Hv & Hts & Hat & Hcase). destruct stop.
  - injection Hc as <-. destruct Hcase as [Ho Hops]. exists [], [], [], 0, open. split_and!; try done.
    + exists [], (stBytes src). split_and!; try done. right. exists b, src', d, ts. destruct src. by split_and!.
    + by rewrite Ho, app_nil_r.
    + constructor.
    + by rewrite Hops, Z.add_0_r.
  - destruct Hcase as (HL1 & out & ops & s0 & bs & He & Hm & Ho & Hops & Htx).
    destruct (filterEntry_counts f n Hdepth k s s0 d out ops open He Hrel Hk) as (c & open1 & Hr1 & Hops1 & Hrel1);
      [rewrite Hb, length_app in Hlen; lia|].
    rewrite <- Htx in Hrel1. rewrite Hb, length_app in Hlen.
    destruct (IH src' s1 s' (k + 1) open1 Hc HL1 ltac:(by rewrite Hops, i64_idem) Hrel1) as (ds & nb & outs & c2 & open2 & Hbl & Ho2 & Hw2 & Hwr & Hr2 & Hops2); [lia..|].
    pose proof (filterEntry_entryReplaced f n Hdepth d s s0 (out, ops) He) as [Hw1 _ _]. cbn [fst] in Hw1.
    exists (d :: ds), (bs ++ nb), (out ++ outs), (c + c2), open2. split_and!.
    + destruct Hbl as (bs' & rest & Hbs' & Hwh & Hval & Hlim & Hend). exists (b :: bs'), rest.
      split_and!; [by rewrite Hb, Hbs', app_assoc|by constructor|by constructor|constructor; [by exists ts|done]|by rewrite <- Hfl].
    + by rewrite Ho2, Ho, app_assoc.
    + apply Forall2_app; [by apply wrote_marshal|done].
    + rewrite itemsAll_app. unfold writesOf in *. change (itemsAll (S n) (d :: ds)) with (items (S n) d ++ itemsAll (S n) ds).
      rewrite !filter_app, fmap_app. by rewrite Hw1, Hwr.
    + rewrite restoreAll_app by done. by rewrite Hr1, Hr2.
    + rewrite Hops2, Hops, Hops1, i64_add_r, i64_add_l. f_equal. lia.
Qed.

End Stream.

(** ** The theorems *)

Section Theorems.
Context `{DriverLaws} (f : Filter) (w : EntryWriter).

(** [C14] A replay never leaves its targets. Whatever stream is copied, and even when the
    copy fails halfway, every entry handed to the writer is a valid document before the
    limit, and every database it changes - by a write, a command, either side of a rename
    or any operation nested in applyOps or a transaction - is the renamed name of a
    selected database: never a database that was not selected, never [admin], [config] or
    [local]. *)
Theorem copy_confined n src s' r :
  (maxApplyOpsDepth <= n)%nat ->
  Copy f w src newFState = (s', r) ->
  Forall (λ b, ∃ d ts, Validate b = Some d /\ TimestampOK (Lookup d "ts") = Some ts /\ atLimit f ts = false /\
    Forall (λ it, Forall (λ t, ∃ db, selected f db = true /\ systemDB db = false /\ rename f db = Ok t) (touches it)) (items (S n) d))
    (fsOut s').
Proof.
  intros Hn Hc. eapply Forall_impl; [apply (copyLoop_safe f w n Hn _ _ _ _ _ Hc); constructor|].
  intros b (d & ts & Hv & Hit & Hts & Hl). exists d, ts. split_and!; [done..|].
  eapply Forall_impl; [exact Hit|]. intros it Ht. eapply Forall_impl; [exact Ht|].
  intros t (db & Hs & Hr). exists db. split_and!; [done| |done]. revert Hs. unfold selected. by destruct (systemDB db).
Qed.

(** [C15] A copy that succeeds replays exactly the writes of the selected databases. For
    some run of documents that makes up the stream up to its end or to the first document
    at or after the limit, the inserts, updates and deletes in what was written, nested
    ones included, are those of the documents, in order, except of databases not selected
    and of [system.views] (which become commands), with the database renamed and the
    collection and the documents of the operation unchanged. *)
Theorem copy_exact n src s' :
  (maxApplyOpsDepth <= n)%nat ->
  Z.of_nat (length (stBytes src)) < 2 ^ 63 ->
  Copy f w src newFState = (s', Ok tt) ->
  ∃ ds outs, beforeLimit f src ds /\ wrote (fsOut s') outs /\
    writesOf (itemsAll (S n) outs) = renamedItem f <$> filter (kept f) (itemsAll (S n) ds).
Proof.
  intros Hn Hlen Hc.
  destruct (copyLoop_ok f w n Hn _ src newFState s' 0 ∅ Hc) as (ds & nb & outs & c & open' & Hb & Ho & Hw & Hwr & _); try done.
  exists ds, outs. by rewrite Ho.
Qed.

(** The filter's operation count is mongorestore's: after a copy that succeeds,
    [Ops] is the number of operations mongorestore reports for the entries written
    (modulo the width of an [int64]): every entry and every operation nested in a plain
    applyOps, a transaction's operations once it commits in the stream, and nothing for a
    transaction that aborts or does not end. *)
Theorem copy_counts n src s' :
  (maxApplyOpsDepth <= n)%nat ->
  Z.of_nat (length (stBytes src)) < 2 ^ 63 ->
  Copy f w src newFState = (s', Ok tt) ->
  ∃ outs, wrote (fsOut s') outs /\ fsOps s' = i64 (restoreAll n outs ∅).1.
Proof.
  intros Hn Hlen Hc.
  destruct (copyLoop_ok f w n Hn _ src newFState s' 0 ∅ Hc) as (ds & nb & outs & c & open' & _ & Ho & Hw & _ & Hr & Hops); try done.
  exists outs. rewrite Ho, Hops, Hr. done.
Qed.

End Theorems.
