(* ===== verification/OplogCounts.v ===== *)
(** * Document counts from the oplog (src/internal/oplog/counts.go)

    [CountDelta] derives how the document count of a collection changed over a run of
    oplog entries, or says why it cannot. [delta_sound] shows that a count it gives is
    the inserts less the deletes the run made visible, and that nothing in the run that
    the entries do not count touched the collection. *)

From Stdlib Require Import Ascii.
From S2P Require Import Prelude Pitr GoStrings Bson OplogScan OplogFilter OplogReplay.

(** [countOp]: [coN] documents added to [coNS], or with [coWhat] set, a change that makes
    the namespace, or with [coDB] the database [coNS], unknown. *)
Record countOp : Type := mkCountOp { coNS : string; coN : Z; coWhat : string; coDB : bool }.

(** [countTxn]. *)
Record countTxn : Type := mkCountTxn { ctOps : list countOp; ctIncomplete : bool }.

(** [CountDelta]. *)
Record CountDelta : Type := mkCountDelta {
  cdTaintAfter : Timestamp;
  cdDelta : gmap string Z;
  cdUnknown : gmap string string;
  cdDDL : gmap string string;
  cdDBs : gmap string string;
  cdAll : string;
  cdTxns : gmap string countTxn
}.

Definition newCountDelta (taint : Timestamp) : CountDelta := mkCountDelta taint ∅ ∅ ∅ ∅ EmptyString ∅.

(** [countNeutral]. *)
Definition countNeutral (name : string) : bool :=
  bool_decide (name ∈ ["collMod"; "createIndexes"; "dropIndexes"; "dropIndex"; "deleteIndexes"; "deleteIndex";
                       "commitIndexBuild"; "startIndexBuild"; "abortIndexBuild"; "dbCheck"]).

(** [ddlWhat]. *)
Definition ddlWhat (name : string) : option string :=
  if bool_decide (name = "create") then Some "created"
  else if bool_decide (name = "drop") then Some "dropped"
  else if bool_decide (name = "convertToCapped") then Some "converted to capped"
  else if bool_decide (name = "emptycapped") then Some "emptied"
  else None.

(** [tsString]. *)
Definition shellTimestamp (ts : Timestamp) : string :=
  "Timestamp(" +:+ pretty (tsT ts) +:+ ", " +:+ pretty (tsI ts) +:+ ")".

(** [setFirst]. *)
Definition setFirst (key reason : string) (m : gmap string string) : gmap string string :=
  match m !! key with Some _ => m | None => <[key := reason]> m end.

(** One operation of [apply]. *)
Definition applyOne (taint : bool) (at_ : Timestamp) (d : CountDelta) (o : countOp) : CountDelta :=
  if negb (bool_decide (coWhat o = EmptyString)) && coDB o then
    mkCountDelta (cdTaintAfter d) (cdDelta d) (cdUnknown d) (cdDDL d)
      (setFirst (coNS o) ("database " +:+ coNS o +:+ ": " +:+ coWhat o +:+ " at " +:+ shellTimestamp at_) (cdDBs d)) (cdAll d) (cdTxns d)
  else if negb (bool_decide (coWhat o = EmptyString)) then
    let why := coWhat o +:+ " at " +:+ shellTimestamp at_ in
    mkCountDelta (cdTaintAfter d) (cdDelta d) (setFirst (coNS o) why (cdUnknown d)) (setFirst (coNS o) why (cdDDL d))
      (cdDBs d) (cdAll d) (cdTxns d)
  else if taint then
    mkCountDelta (cdTaintAfter d) (cdDelta d)
      (setFirst (coNS o) ("written at " +:+ shellTimestamp at_ +:+ ", while the counts were read") (cdUnknown d))
      (cdDDL d) (cdDBs d) (cdAll d) (cdTxns d)
  else
    mkCountDelta (cdTaintAfter d) (<[coNS o := i64 (default 0 (cdDelta d !! coNS o) + coN o)]> (cdDelta d)) (cdUnknown d) (cdDDL d)
      (cdDBs d) (cdAll d) (cdTxns d).

(** Whether an operation visible from [at_] comes after the counted part of the run. *)
Definition tainted (taintAfter at_ : Timestamp) : bool :=
  negb (bool_decide (taintAfter = zeroTS)) && Before taintAfter at_.

(** [CountDelta.apply]. *)
Definition applyCounts (ops : list countOp) (at_ : Timestamp) (d : CountDelta) : CountDelta :=
  foldl (applyOne (tainted (cdTaintAfter d) at_) at_) d ops.

(** [CountDelta.commit]. *)
Definition commitCounts (missing : bool) (ops : list countOp) (at_ : Timestamp) (d : CountDelta) : CountDelta :=
  if missing then
    if bool_decide (cdAll d = EmptyString) then
      mkCountDelta (cdTaintAfter d) (cdDelta d) (cdUnknown d) (cdDDL d) (cdDBs d)
        ("a transaction committed at " +:+ shellTimestamp at_ +:+ " began before the oplog entries read") (cdTxns d)
    else d
  else applyCounts ops at_ d.

Section Counting.
Context `{Driver}.
Local Open Scope rescue_scope.

(** The loop of [nestedCountOps]. *)
Fixpoint countLoop (countOps : doc -> result OplogErr (list countOp)) (values : list value) : result OplogErr (list countOp) :=
  match values with
  | [] => Ok []
  | v :: r =>
      match v with
      | BDoc d => ops <-! countOps d; rest <-! countLoop countOps r; Ok (ops ++ rest)
      | _ => Err ErrMalformed
      end
  end.

(** [commandCountOps]. *)
Definition commandCountOps (nested : doc -> result OplogErr (list countOp)) (d : doc) (db : string) : result OplogErr (list countOp) :=
  match DocumentOK (Lookup d "o") with
  | None => Err ErrMalformed
  | Some o =>
      match head o with
      | None => Err ErrMalformed
      | Some (name, v) =>
          if bool_decide (name = "applyOps") then nested o
          else if bool_decide (name = "renameCollection") then
            match StringValueOK (Lookup o "renameCollection"), StringValueOK (Lookup o "to") with
            | Some from, Some to => Ok [mkCountOp from 0 ("renamed to " +:+ to) false; mkCountOp to 0 ("renamed from " +:+ from) false]
            | _, _ => Err ErrMalformed
            end
          else
            match ddlWhat name with
            | Some what =>
                match StringValueOK (Some v) with
                | Some coll => Ok [mkCountOp (db +:+ "." +:+ coll) 0 what false]
                | None => Err ErrMalformed
                end
            | None =>
                if bool_decide (name = "dropDatabase") then Ok [mkCountOp db 0 "dropped" true]
                else if countNeutral name then Ok []
                else Ok [mkCountOp db 0 ("command " +:+ name) true]
            end
      end
  end.

(** [countOps], with [nested] for the operations in it. *)
Definition countOpsWith (nested : doc -> result OplogErr (list countOp)) (d : doc) : result OplogErr (list countOp) :=
  match StringValueOK (Lookup d "op") with
  | None => Err ErrMalformed
  | Some opType =>
      if ignoredOps opType || bool_decide (opType = "u") then Ok []
      else
        match StringValueOK (Lookup d "ns") with
        | None => Err ErrMalformed
        | Some ns =>
            let '(db, _, ok) := cutNS ns in
            if negb ok || bool_decide (db = EmptyString) then Err ErrMalformed
            else if bool_decide (opType = "i") then Ok [mkCountOp ns 1 EmptyString false]
            else if bool_decide (opType = "d") then Ok [mkCountOp ns (-1) EmptyString false]
            else if bool_decide (opType = "c") then commandCountOps nested d db
            else Err ErrUnknownOp
        end
  end.

(** [nestedCountOps]; [levels] is [maxApplyOpsDepth] less the depth. *)
Fixpoint nestedCountOps (levels : nat) (o : doc) : result OplogErr (list countOp) :=
  match levels with
  | O => Err ErrMalformed
  | S levels =>
      match ArrayOK (Lookup o "applyOps") with
      | None => Err ErrMalformed
      | Some values => countLoop (countOpsWith (nestedCountOps levels)) values
      end
  end.

Definition countOps (d : doc) : result OplogErr (list countOp) := countOpsWith (nestedCountOps maxApplyOpsDepth) d.

(** [hasPrevOpTime]. *)
Definition hasPrevOpTime (entry : doc) : bool :=
  match TimestampOK (Lookup2 entry "prevOpTime" "ts") with
  | Some ts => negb (tsT ts =? 0) || negb (tsI ts =? 0)
  | None => false
  end.

Definition setCountTxns (g : gmap string countTxn -> gmap string countTxn) (d : CountDelta) : CountDelta :=
  mkCountDelta (cdTaintAfter d) (cdDelta d) (cdUnknown d) (cdDDL d) (cdDBs d) (cdAll d) (g (cdTxns d)).

(** [CountDelta.transaction]. *)
Definition countTransaction (entry : doc) (id : string) (at_ : Timestamp) (d : CountDelta) : result OplogErr CountDelta :=
  let st := cdTxns d !! id in
  if bool_decide (commandName entry = "abortTransaction") then Ok (setCountTxns (delete id) d)
  else if bool_decide (commandName entry = "commitTransaction") then
    Ok (commitCounts (match st with None => true | Some st => ctIncomplete st end) (default [] (ctOps <$> st)) at_ (setCountTxns (delete id) d))
  else
    let o := default [] (DocumentOK (Lookup entry "o")) in
    ops <-! nestedCountOps maxApplyOpsDepth o;
    let st0 := default (mkCountTxn [] (hasPrevOpTime entry)) st in
    let st1 := mkCountTxn (ctOps st0 ++ ops) (ctIncomplete st0) in
    if isTrue o "partialTxn" || isTrue o "prepare" then Ok (setCountTxns (<[id := st1]>) d)
    else Ok (commitCounts (ctIncomplete st1) (ctOps st1) at_ (setCountTxns (delete id) d)).

(** [CountDelta.Add]. *)
Definition Add (entry : bytes) (d : CountDelta) : result OplogErr CountDelta :=
  match Validate entry with
  | None => Err ErrMalformed
  | Some e =>
      match TimestampOK (Lookup e "ts") with
      | None => Err ErrMalformed
      | Some at_ =>
          match txnID e with
          | Some id => countTransaction e id at_ d
          | None => ops <-! countOps e; Ok (applyCounts ops at_ d)
          end
      end
  end.

(** A reason of a map, empty when there is none. *)
Definition reason (m : gmap string string) (k : string) : string := default EmptyString (m !! k).

(** [CountDelta.Delta]. *)
Definition Delta (d : CountDelta) (ns : string) : Z * string :=
  if negb (bool_decide (cdAll d = EmptyString)) then (0, cdAll d)
  else
    let db := (cutNS ns).1.1 in
    if negb (bool_decide (reason (cdDBs d) db = EmptyString)) then (0, reason (cdDBs d) db)
    else if negb (bool_decide (reason (cdUnknown d) ns = EmptyString)) then (0, reason (cdUnknown d) ns)
    else (default 0 (cdDelta d !! ns), EmptyString).

(** [CountDelta.DDL]. *)
Definition DDL (d : CountDelta) (ns : string) : string :=
  let db := (cutNS ns).1.1 in
  if negb (bool_decide (reason (cdDBs d) db = EmptyString)) then reason (cdDBs d) db else reason (cdDDL d) ns.

End Counting.

(** ** The reference: the operations a run makes visible *)

Section Visible.
Context `{Driver} (n : nat).

(** The operations of an entry, an applyOps before those in it; [n] bounds the nesting. *)
Fixpoint flat (n : nat) (d : doc) : list doc :=
  d :: match n with
       | O => []
       | S n => if bool_decide (stringOf (Lookup d "op") = "c") && bool_decide (commandName d = "applyOps")
                then flat_map (flat n) (nestedDocs (Lookup d "o")) else []
       end.

(** The change of the count of [ns] by one operation. *)
Definition change (ns : string) (d : doc) : Z :=
  if bool_decide (stringOf (Lookup d "ns") = ns) then
    if bool_decide (stringOf (Lookup d "op") = "i") then 1
    else if bool_decide (stringOf (Lookup d "op") = "d") then -1 else 0
  else 0.

Definition net (ns : string) (ds : list doc) : Z := foldr (λ d z, change ns d + z) 0 ds.

(** An operation that changes the documents of [ns] other than by inserts and deletes: it
    creates, drops, empties, converts or renames the collection, or drops its database,
    or is a command that is not known to leave counts alone. *)
Definition reshapes (ns : string) (d : doc) : Prop :=
  stringOf (Lookup d "op") = "c" /\
  let db := (cutNS (stringOf (Lookup d "ns"))).1.1 in
  let o := default [] (DocumentOK (Lookup d "o")) in
  let name := commandName d in
  if bool_decide (name = "applyOps") then False
  else if bool_decide (name = "renameCollection") then
    stringOf (Lookup o "renameCollection") = ns \/ stringOf (Lookup o "to") = ns
  else if bool_decide (name ∈ ["create"; "drop"; "convertToCapped"; "emptycapped"]) then
    db +:+ "." +:+ stringOf (Lookup o name) = ns
  else countNeutral name = false /\ db = (cutNS ns).1.1.

(** The operations of the open transactions, and whether their first entries were seen;
    the operations visible so far, with the position they are visible from; and whether
    a transaction committed whose first entries were not seen. *)
Record Visible : Type := mkVisible {
  vsOpen : gmap string (list doc * bool);
  vsLog : list (doc * Timestamp);
  vsMissing : bool
}.

Definition show (ds : list doc) (seen : bool) (at_ : Timestamp) (open : gmap string (list doc * bool)) (v : Visible) : Visible :=
  mkVisible open (vsLog v ++ map (λ d, (d, at_)) ds) (vsMissing v || negb seen).

Definition visibleEntry (v : Visible) (e : doc) : Visible :=
  let at_ := default zeroTS (TimestampOK (Lookup e "ts")) in
  match txnID e with
  | None => show (flat (S n) e) true at_ (vsOpen v) v
  | Some id =>
      if bool_decide (commandName e = "abortTransaction") then mkVisible (delete id (vsOpen v)) (vsLog v) (vsMissing v)
      else if bool_decide (commandName e = "commitTransaction") then
        let '(ds, seen) := default ([], false) (vsOpen v !! id) in show ds seen at_ (delete id (vsOpen v)) v
      else
        let '(ds, seen) := default ([], negb (hasPrevOpTime e)) (vsOpen v !! id) in
        let ds' := ds ++ flat_map (flat n) (nestedDocs (Lookup e "o")) in
        let o := default [] (DocumentOK (Lookup e "o")) in
        if isTrue o "partialTxn" || isTrue o "prepare"
        then mkVisible (<[id := (ds', seen)]> (vsOpen v)) (vsLog v) (vsMissing v)
        else show ds' seen at_ (delete id (vsOpen v)) v
  end.

Definition visible (es : list doc) : Visible := foldl visibleEntry (mkVisible ∅ [] false) es.

End Visible.

(** ** Operations counted *)

(** The sum of what [ops] add to [ns], and what makes [ns] unknown. *)
Definition opsNet (ns : string) (ops : list countOp) : Z :=
  foldr (λ o z, (if bool_decide (coWhat o = EmptyString) && bool_decide (coNS o = ns) then coN o else 0) + z) 0 ops.

Definition marks (ns : string) (o : countOp) : Prop :=
  coWhat o <> EmptyString /\ (if coDB o then coNS o = (cutNS ns).1.1 else coNS o = ns).

Lemma opsNet_app ns l1 l2 : opsNet ns (l1 ++ l2) = opsNet ns l1 + opsNet ns l2.
Proof. induction l1 as [|o l1 IH]; [done|]. unfold opsNet in *. cbn [app foldr]. lia. Qed.

(** What one operation adds. *)
Lemma opsNet_plain ns o : coWhat o = EmptyString -> opsNet ns [o] = if bool_decide (coNS o = ns) then coN o else 0.
Proof. intros Hw. unfold opsNet. cbn [foldr]. rewrite Hw, (bool_decide_true (EmptyString = EmptyString)) by done. cbn [andb]. lia. Qed.

Lemma opsNet_marking ns o : coWhat o <> EmptyString -> opsNet ns [o] = 0.
Proof. intros Hw. unfold opsNet. cbn. by rewrite bool_decide_false. Qed.

Lemma str_app_l_nonempty (a b : string) : a <> EmptyString -> a +:+ b <> EmptyString.
Proof. destruct a; [done|]. by rewrite str_app_cons. Qed.

Lemma str_app_r_nonempty (a b : string) : b <> EmptyString -> a +:+ b <> EmptyString.
Proof. destruct a; [done|]. by rewrite str_app_cons. Qed.

Lemma ddlWhat_cases name :
  match ddlWhat name with
  | Some what => what <> EmptyString /\ bool_decide (name ∈ ["create"; "drop"; "convertToCapped"; "emptycapped"]) = true
  | None => bool_decide (name ∈ ["create"; "drop"; "convertToCapped"; "emptycapped"]) = false
  end.
Proof.
  unfold ddlWhat. repeat (case_bool_decide; [subst name; by split|]). apply bool_decide_eq_false. set_solver.
Qed.

Section Counted.
Context `{DriverLaws}.

Lemma net_app ns l1 l2 : net ns (l1 ++ l2) = net ns l1 + net ns l2.
Proof. induction l1 as [|o l1 IH]; [done|]. unfold net in *. cbn [app foldr]. lia. Qed.

(** The operations [ops] account for the documents [ds]. *)
Record counted (ds : list doc) (ops : list countOp) : Prop := mkCounted {
  cn_net ns : opsNet ns ops = net ns ds;
  cn_marks ns d : d ∈ ds -> reshapes ns d -> Exists (marks ns) ops;
  cn_writes ns d : d ∈ ds -> change ns d <> 0 -> Exists (λ o, coWhat o = EmptyString /\ coNS o = ns) ops
}.

Lemma counted_nil : counted [] [].
Proof. split; [done|intros ns d Hd; by apply not_elem_of_nil in Hd..]. Qed.

Lemma counted_app ds1 ds2 ops1 ops2 : counted ds1 ops1 -> counted ds2 ops2 -> counted (ds1 ++ ds2) (ops1 ++ ops2).
Proof.
  intros [Hn1 Hm1 Hw1] [Hn2 Hm2 Hw2]. split.
  - intros ns. by rewrite opsNet_app, net_app, Hn1, Hn2.
  - intros ns d [Hd|Hd]%elem_of_app Hr; apply Exists_app; [left|right]; eauto.
  - intros ns d [Hd|Hd]%elem_of_app Hr; apply Exists_app; [left|right]; eauto.
Qed.

(** An operation that is no command counts what it is. *)
Lemma counted_single d ops :
  (∀ ns, opsNet ns ops = change ns d) -> (∀ ns, reshapes ns d -> Exists (marks ns) ops) ->
  (∀ ns, change ns d <> 0 -> Exists (λ o, coWhat o = EmptyString /\ coNS o = ns) ops) -> counted [d] ops.
Proof.
  intros Hn Hm Hw. split.
  - intros ns. rewrite Hn. cbn. lia.
  - intros ns d' ->%list_elem_of_singleton. auto.
  - intros ns d' ->%list_elem_of_singleton. auto.
Qed.

Lemma change_command ns d : stringOf (Lookup d "op") = "c" -> change ns d = 0.
Proof. unfold change. intros ->. by case_bool_decide. Qed.

(** A command on [db] other than applyOps. *)
Lemma commandCountOps_counted nested d db coll o name v ops :
  Lookup d "op" = Some (BString "c") -> Lookup d "ns" = Some (BString (db +:+ String "."%char coll)) -> noDot db ->
  Lookup d "o" = Some (BDoc o) -> head o = Some (name, v) -> name <> "applyOps" ->
  commandCountOps nested d db = Ok ops -> counted [d] ops.
Proof.
  intros Hop Hns Hdb Ho Hh Hna. unfold commandCountOps. rewrite Ho. cbn [DocumentOK]. rewrite Hh.
  rewrite (bool_decide_false (name = _)) by done. pose proof (head_Lookup _ _ _ Hh) as Hv. intros Hops.
  apply counted_single; [| |intros ns Hc; by rewrite change_command in Hc by (by rewrite Hop)].
  - intros ns. rewrite change_command by (by rewrite Hop). revert Hops. case_bool_decide.
    + destruct (StringValueOK _) as [from|]; [|done]. destruct (StringValueOK _) as [to|]; [|done]. intros [= <-]. done.
    + pose proof (ddlWhat_cases name) as Hd. destruct (ddlWhat name) as [what|].
      * destruct Hd as [Hw _]. destruct (StringValueOK _); [|done]. intros [= <-]. cbn. by rewrite bool_decide_false.
      * clear Hd. destruct (bool_decide (name = "dropDatabase")); [by intros [= <-]|]. destruct (countNeutral name); by intros [= <-].
  - intros ns [_ Hr]. revert Hr Hops. cbn zeta. assert (commandName d = name) as -> by (unfold commandName; rewrite Ho; cbn; by rewrite Hh).
    rewrite Hns, Ho, stringOf_string, cutNS_app by done. rewrite (bool_decide_false (name = "applyOps")) by done.
    change (default [] (DocumentOK (Some (BDoc o)))) with o. cbn [fst]. clear Hop Hns Ho Hh. case_bool_decide.
    + subst name. rewrite Hv. destruct v as [from| | | | | | |]; try done. cbn [StringValueOK]. intros Hr.
      destruct (StringValueOK (Lookup o "to")) as [to|] eqn:Hto; [|done]. intros [= <-]. revert Hr. rewrite stringOf_string.
      unfold stringOf. rewrite Hto. intros [<-|<-]; [left|right; left]; by split.
    + rewrite Hv. pose proof (ddlWhat_cases name) as Hd. destruct (ddlWhat name) as [what|].
      * destruct Hd as [Hw ->]. destruct v as [c| | | | | | |]; try done. intros <- [= <-]. left. by split.
      * rewrite Hd. intros [Hneu Hdb']. rewrite Hneu. clear Hd. case_bool_decide; intros [= <-]; left; by split.
Qed.

Lemma countOpsWith_counted nested n d ops :
  (∀ o ops, nested o = Ok ops -> counted (flat_map (flat n) (nestedDocs (Some (BDoc o)))) ops) ->
  countOpsWith nested d = Ok ops -> counted (flat (S n) d) ops.
Proof.
  intros Hn. unfold countOpsWith. destruct (StringValueOK (Lookup d "op")) as [opType|] eqn:Hop'; [|done].
  assert (Lookup d "op" = Some (BString opType)) as Hop by (destruct (Lookup d "op") as [[]|]; cbn in *; congruence). clear Hop'.
  assert (∀ s, stringOf (Lookup d "op") = s -> s = opType) as Hstr by (intros s; by rewrite Hop).
  assert (opType <> "c" -> flat (S n) d = [d]) as Hsingle.
  { intros Hc. cbn [flat]. rewrite Hop, stringOf_string, bool_decide_false by done. done. }
  destruct (_ || _) eqn:Hig.
  { intros [= <-]. assert (opType ∈ ["n"; "cd"; "ci"; "cu"; "km"; "u"]) as Hin.
    { apply orb_prop in Hig as [Hig|Hig]; [unfold ignoredOps in Hig|]; bool_cases; subst; set_solver. }
    clear Hig. rewrite Hsingle by (intros ->; set_solver).
    assert (∀ ns, change ns d = 0) as Hch.
    { intros ns. unfold change. case_bool_decide; [|done]. rewrite Hop, stringOf_string.
      rewrite !bool_decide_false by (intros ->; set_solver). done. }
    apply counted_single; [intros ns; by rewrite Hch| |intros ns Hc; by rewrite Hch in Hc].
    intros ns [Hc _]. apply Hstr in Hc. subst. set_solver. }
  destruct (StringValueOK (Lookup d "ns")) as [ns|] eqn:Hns'; [|done].
  assert (Lookup d "ns" = Some (BString ns)) as Hns by (destruct (Lookup d "ns") as [[]|]; cbn in *; congruence). clear Hns' Hig.
  destruct (cutNS ns) as [[db coll] ok] eqn:HC. destruct ok; cbn [negb orb]; [|done]. case_bool_decide; [done|].
  assert (∀ z, (∀ ns', change ns' d = if bool_decide (ns = ns') then z else 0) -> opType <> "c" -> Ok (E := OplogErr) [mkCountOp ns z EmptyString false] = Ok ops ->
    counted (flat (S n) d) ops) as Hwrite.
  { intros z Hch Hc [= <-]. rewrite Hsingle by done. apply counted_single.
    - intros ns'. by rewrite Hch, opsNet_plain.
    - intros ns' [Hc' _]. apply Hstr in Hc'. congruence.
    - intros ns' Hz. rewrite Hch in Hz. case_bool_decide; [|done]. left. by split. }
  assert (∀ ns', change ns' d = if bool_decide (ns = ns') then (if bool_decide (opType = "i") then 1 else if bool_decide (opType = "d") then -1 else 0) else 0) as Hchd.
  { intros ns'. unfold change. by rewrite Hop, Hns, !stringOf_string. }
  destruct (decide (opType = "i")) as [->|Hi]; [rewrite bool_decide_true by done; by apply Hwrite|rewrite (bool_decide_false (opType = "i")) by done].
  destruct (decide (opType = "d")) as [->|Hdel]; [rewrite bool_decide_true by done; by apply Hwrite|rewrite (bool_decide_false (opType = "d")) by done].
  clear Hwrite Hchd. case_bool_decide as Hc; [subst opType|done]. apply cutNS_true in HC as [-> HC]. intros Hops. pose proof Hops as Hops'.
  revert Hops'. unfold commandCountOps. destruct (DocumentOK (Lookup d "o")) as [o|] eqn:Ho'; [|done].
  assert (Lookup d "o" = Some (BDoc o)) as Ho by (destruct (Lookup d "o") as [[]|]; cbn in *; congruence).
  destruct (head o) as [[name v]|] eqn:Hh; [|done]. assert (commandName d = name) as Hname by (unfold commandName; rewrite Ho; cbn; by rewrite Hh).
  destruct (decide (name = "applyOps")) as [->|Hna].
  - rewrite bool_decide_true by done. intros Hnest. cbn [flat]. rewrite Hop, Hname, Ho.
    rewrite !bool_decide_true by done. cbn [andb]. apply (counted_app [d] _ []); [|by apply Hn].
    assert (∀ ns, change ns d = 0) as Hch by (intros ns; apply change_command; by rewrite Hop).
    apply counted_single; [intros ns; by rewrite Hch| |intros ns Hz; by rewrite Hch in Hz].
    intros ns [_ Hr]. by rewrite Hname in Hr.
  - intros _. replace (flat (S n) d) with [d]; [by eapply commandCountOps_counted|]. cbn [flat]. rewrite Hop, Hname.
    rewrite (bool_decide_false (name = _)), andb_false_r by done. done.
Qed.

Lemma nestedCountOps_counted levels : ∀ n o ops, (levels <= n)%nat -> nestedCountOps levels o = Ok ops ->
  counted (flat_map (flat n) (nestedDocs (Some (BDoc o)))) ops.
Proof.
  induction levels as [|levels IH]; intros n o ops Hle; cbn [nestedCountOps]; [done|]. destruct n as [|n]; [lia|].
  unfold nestedDocs. change (DocumentOK (Some (BDoc o))) with (Some o). cbv iota beta.
  destruct (ArrayOK (Lookup o "applyOps")) as [vs|]; [|done]. change (default [] (Some vs)) with vs. revert ops.
  induction vs as [|v vs IHvs]; intros ops; cbn [countLoop]; [intros [= <-]; apply counted_nil|].
  destruct v as [|d| | | | | |]; try done. destruct (countOpsWith _ d) as [ops1|] eqn:H1; [|done].
  destruct (countLoop _ vs) as [ops2|]; [|done]. intros [= <-].
  assert (omap (λ v, DocumentOK (Some v)) (BDoc d :: vs) = d :: omap (λ v, DocumentOK (Some v)) vs) as -> by done.
  cbn [flat_map]. apply counted_app; [|by apply IHvs]. eapply countOpsWith_counted; [|done]. intros o' ops'. apply IH. lia.
Qed.

End Counted.

(** ** The state *)

(** Nothing makes [ns] unknown. *)
Definition known (d : CountDelta) (ns : string) : Prop :=
  reason (cdDBs d) (cutNS ns).1.1 = EmptyString /\ reason (cdUnknown d) ns = EmptyString.

(** Every reason given is a text, every sum an [int64]. *)
Definition reasoned (d : CountDelta) : Prop :=
  (∀ k r, cdDBs d !! k = Some r -> r <> EmptyString) /\ (∀ k r, cdUnknown d !! k = Some r -> r <> EmptyString) /\
  (∀ ns, i64 (default 0 (cdDelta d !! ns)) = default 0 (cdDelta d !! ns)).

Lemma reasoned_setFirst k r (m : gmap string string) :
  r <> EmptyString -> (∀ k r, m !! k = Some r -> r <> EmptyString) -> ∀ k' r', setFirst k r m !! k' = Some r' -> r' <> EmptyString.
Proof.
  intros Hr Hm k' r'. unfold setFirst. destruct (m !! k); [apply Hm|].
  destruct (decide (k = k')) as [<-|]; [rewrite lookup_insert_eq; by intros [= <-]|rewrite lookup_insert_ne by done; apply Hm].
Qed.

(** A key set is unknown from then on, the others are as before. *)
Lemma reason_setFirst k r m k' : r <> EmptyString -> (∀ k r, m !! k = Some r -> r <> EmptyString) ->
  reason (setFirst k r m) k' = EmptyString -> reason m k' = EmptyString /\ k <> k'.
Proof.
  intros Hr Hm. unfold setFirst, reason. destruct (m !! k) as [r'|] eqn:Hk.
  - intros Hk'. split; [done|]. intros ->. rewrite Hk in Hk'. cbn in Hk'. by apply (Hm _ _ Hk).
  - destruct (decide (k = k')) as [<-|Hne]; [rewrite lookup_insert_eq; cbn; congruence|by rewrite lookup_insert_ne].
Qed.

(** What an operation leaves of [ns] when [ns] stays known: it is neither a change that
    makes [ns] unknown nor, after the counted part, a write. *)
Definition spares (t : bool) (ns : string) (o : countOp) : Prop :=
  ~ marks ns o /\ (t = true -> ~ (coWhat o = EmptyString /\ coNS o = ns)).

Lemma applyOne_spec t at_ d o : reasoned d ->
  let d' := applyOne t at_ d o in
  (reasoned d' /\ cdAll d' = cdAll d /\ cdTxns d' = cdTxns d /\ cdTaintAfter d' = cdTaintAfter d) /\
  ∀ ns, known d' ns -> known d ns /\ spares t ns o /\
    default 0 (cdDelta d' !! ns) = i64 (default 0 (cdDelta d !! ns) + opsNet ns [o]).
Proof.
  intros (Hdb & Hun & H64). unfold applyOne, spares, marks, known, reasoned. cbn zeta.
  destruct (bool_decide (coWhat o = EmptyString)) eqn:Hw; cbn [negb andb]; bool_cases; [destruct t|destruct (coDB o)];
    cbn [cdDBs cdUnknown cdDelta cdAll cdTxns cdTaintAfter].
  - set (r := _ +:+ _). assert (r <> EmptyString) as Hr by done. split; [split_and!; try done; by apply reasoned_setFirst|].
    intros ns [H1 H2]. apply reason_setFirst in H2 as [H2 Hne]; [|done..].
    rewrite opsNet_plain, (bool_decide_false (coNS o = ns)), Z.add_0_r, H64 by done. split_and!; tauto.
  - split; [split_and!; try done|].
    { intros ns. destruct (decide (coNS o = ns)) as [->|]; [rewrite lookup_insert_eq; apply i64_idem|by rewrite lookup_insert_ne]. }
    intros ns [H1 H2]. rewrite opsNet_plain by done. split_and!; [tauto..|done|]. destruct (decide (coNS o = ns)) as [<-|Hne].
    + by rewrite lookup_insert_eq, bool_decide_true by done.
    + by rewrite lookup_insert_ne, bool_decide_false, Z.add_0_r, H64 by done.
  - set (r := _ +:+ _). assert (r <> EmptyString) as Hr by done. split; [split_and!; try done; by apply reasoned_setFirst|].
    intros ns [H1 H2]. apply reason_setFirst in H1 as [H1 Hne]; [|done..].
    rewrite opsNet_marking, Z.add_0_r, H64 by done. split_and!; tauto.
  - set (r := _ +:+ _). assert (r <> EmptyString) as Hr by (by apply str_app_l_nonempty).
    split; [split_and!; try done; by apply reasoned_setFirst|].
    intros ns [H1 H2]. apply reason_setFirst in H2 as [H2 Hne]; [|done..].
    rewrite opsNet_marking, Z.add_0_r, H64 by done. split_and!; tauto.
Qed.

Lemma applyCounts_spec ops at_ d : reasoned d ->
  let d' := applyCounts ops at_ d in
  (reasoned d' /\ cdAll d' = cdAll d /\ cdTxns d' = cdTxns d /\ cdTaintAfter d' = cdTaintAfter d) /\
  ∀ ns, known d' ns -> known d ns /\ Forall (spares (tainted (cdTaintAfter d) at_) ns) ops /\
    default 0 (cdDelta d' !! ns) = i64 (default 0 (cdDelta d !! ns) + opsNet ns ops).
Proof.
  unfold applyCounts. generalize (tainted (cdTaintAfter d) at_) as t. intros t. revert d.
  induction ops as [|o ops IH]; intros d Hd; cbn [foldl].
  - split; [done|]. intros ns Hk. split_and!; [done|constructor|]. destruct Hd as (_ & _ & H64). by rewrite Z.add_0_r, H64.
  - destruct (applyOne_spec t at_ d o Hd) as ((Hr & Ha & Htx & Htt) & Hone). cbn zeta in *.
    destruct (IH _ Hr) as ((Hr' & Ha' & Htx' & Htt') & Hall). split; [by rewrite Ha', Htx', Htt'|].
    intros ns (Hk1 & Hs1 & Hd1)%Hall. destruct (Hone ns Hk1) as (Hk0 & Hs0 & Hd0). split_and!; [done|by constructor|].
    rewrite Hd1, Hd0, i64_add_l. f_equal. change (o :: ops) with ([o] ++ ops). rewrite opsNet_app. lia.
Qed.

(** ** The run *)

Section Run.
Context `{DriverLaws} (n : nat) (Hdepth : (maxApplyOpsDepth <= n)%nat).
Local Open Scope rescue_scope.

(** The entries of a run, in order. *)
Fixpoint AddAll (es : list bytes) (d : CountDelta) : result OplogErr CountDelta :=
  match es with
  | [] => Ok d
  | e :: r => d' <-! Add e d; AddAll r d'
  end.

(** The transactions open on both sides. *)
Definition sameOpen (txns : gmap string countTxn) (open : gmap string (list doc * bool)) : Prop :=
  ∀ id, match txns !! id with
        | Some st => ∃ ds, open !! id = Some (ds, negb (ctIncomplete st)) /\ counted ds (ctOps st)
        | None => open !! id = None
        end.

Lemma sameOpen_delete txns open id : sameOpen txns open -> sameOpen (delete id txns) (delete id open).
Proof.
  intros Hs id'. specialize (Hs id').
  destruct (decide (id = id')) as [<-|]; [by rewrite !lookup_delete_eq|by rewrite !lookup_delete_ne].
Qed.

(** What is known of a namespace is its net change, and nothing else happened to it. *)
Definition netKnown (taint : Timestamp) (log : list (doc * Timestamp)) (d : CountDelta) : Prop :=
  ∀ ns, known d ns ->
    default 0 (cdDelta d !! ns) = i64 (net ns log.*1) /\
    Forall (λ e, ~ reshapes ns e.1 /\ (tainted taint e.2 = true -> change ns e.1 = 0)) log.

(** The state accounts for what is visible, unless a transaction began before the run. *)
Definition accounts (taint : Timestamp) (v : Visible) (d : CountDelta) : Prop :=
  reasoned d /\ cdTaintAfter d = taint /\
  (cdAll d = EmptyString -> vsMissing v = false /\ sameOpen (cdTxns d) (vsOpen v) /\ netKnown taint (vsLog v) d).

Lemma counted_spares t ns ds ops : counted ds ops -> Forall (spares t ns) ops ->
  Forall (λ d, ~ reshapes ns d /\ (t = true -> change ns d = 0)) ds.
Proof.
  intros [_ Hm Hw] Hs. rewrite Forall_forall in Hs. apply Forall_forall. intros d Hd. split.
  - intros Hr. destruct (proj1 (Exists_exists _ _) (Hm ns d Hd Hr)) as (o & Ho & Hmk). by destruct (Hs o Ho).
  - intros Ht. destruct (decide (change ns d = 0)) as [|Hc]; [done|].
    destruct (proj1 (Exists_exists _ _) (Hw ns d Hd Hc)) as (o & Ho & Hmk). by destruct (Hs o Ho) as [_ []].
Qed.

(** Operations made visible together. *)
Lemma netKnown_show taint log d ds ops at_ :
  reasoned d -> cdTaintAfter d = taint -> netKnown taint log d -> counted ds ops ->
  netKnown taint (log ++ map (λ x, (x, at_)) ds) (applyCounts ops at_ d).
Proof.
  intros Hr Ht Hns Hc ns. destruct (applyCounts_spec ops at_ d Hr) as (_ & Hk). cbn zeta in Hk.
  intros (Hk0 & Hsp & Hd)%Hk. destruct (Hns ns Hk0) as [Hnet Hlog]. rewrite Ht in Hsp. split.
  - rewrite Hd, Hnet, i64_add_l, fmap_app, net_app, (cn_net _ _ Hc). do 3 f_equal.
    change (map (λ x, (x, at_)) ds) with ((λ x, (x, at_)) <$> ds). rewrite <- list_fmap_compose. symmetry. apply list_fmap_id.
  - apply Forall_app_2; [done|]. apply Forall_fmap. eapply Forall_impl; [by eapply counted_spares|]. done.
Qed.

(** Once a transaction is missing its start, everything is unknown for good. *)
Definition persists (d d' : CountDelta) : Prop :=
  reasoned d' /\ cdTaintAfter d' = cdTaintAfter d /\ (cdAll d <> EmptyString -> cdAll d' <> EmptyString).

Lemma commitCounts_persists missing ops at_ d : reasoned d -> persists d (commitCounts missing ops at_ d).
Proof.
  intros Hr. unfold commitCounts. destruct missing; [by case_bool_decide|].
  destruct (applyCounts_spec ops at_ d Hr) as ((Hr' & Ha' & _ & Htt') & _). cbn zeta in *. split; [done|]. split; [done|]. congruence.
Qed.

Lemma Add_persists e d d' : reasoned d -> Add e d = Ok d' -> persists d d'.
Proof.
  intros Hr. unfold Add. destruct (Validate e) as [x|]; [|done]. destruct (TimestampOK _) as [at_|]; [|done].
  destruct (txnID x) as [id|].
  - unfold countTransaction. case_bool_decide; [by intros [= <-]|]. case_bool_decide.
    + intros [= <-]. by apply (commitCounts_persists _ _ _ (setCountTxns (delete id) d)).
    + destruct (nestedCountOps _ _) as [ops|]; [|done]. destruct (_ || _); [by intros [= <-]|].
      intros [= <-]. by apply (commitCounts_persists _ _ _ (setCountTxns (delete id) d)).
  - destruct (countOps x) as [ops|]; [|done]. intros [= <-]. by apply (commitCounts_persists false).
Qed.

(** The operations of a transaction become visible, unless its start is missing. *)
Lemma commitCounts_accounts taint v d open ds ops missing at_ :
  reasoned d -> cdTaintAfter d = taint -> cdAll d = EmptyString -> vsMissing v = false -> netKnown taint (vsLog v) d ->
  sameOpen (cdTxns d) open -> (missing = false -> counted ds ops) ->
  accounts taint (show ds (negb missing) at_ open v) (commitCounts missing ops at_ d).
Proof.
  intros Hr Ht Ha Hm Hns Hs Hc. unfold commitCounts. destruct missing.
  - rewrite bool_decide_true by done. by split; [|split].
  - destruct (applyCounts_spec ops at_ d Hr) as ((Hr' & Ha' & Htx' & Htt') & _). cbn zeta in *.
    split; [done|]. split; [congruence|]. intros _. cbn. rewrite Hm, Htx'. split_and!; [done..|]. by apply netKnown_show; auto.
Qed.

Lemma countTransaction_accounts taint v d d' e id :
  accounts taint v d -> cdAll d = EmptyString -> txnID e = Some id ->
  countTransaction e id (default zeroTS (TimestampOK (Lookup e "ts"))) d = Ok d' -> accounts taint (visibleEntry n v e) d'.
Proof.
  intros (Hr & Ht & Hin) Ha Hid. set (at_ := default _ _). unfold countTransaction, visibleEntry. fold at_. rewrite Hid.
  destruct (Hin Ha) as (Hm & Hs & Hns). clear Hin. pose proof (sameOpen_delete _ _ id Hs) as Hdel. pose proof (Hs id) as Hst.
  case_bool_decide; [by intros [= <-]; split_and!|]. case_bool_decide.
  - intros [= <-]. destruct (cdTxns d !! id) as [st|].
    + destruct Hst as (ds & -> & Hc).
      by apply (commitCounts_accounts taint v (setCountTxns (delete id) d)).
    + rewrite Hst. by apply (commitCounts_accounts taint v (setCountTxns (delete id) d) _ [] [] true).
  - destruct (nestedCountOps _ _) as [ops|] eqn:Hn; [|done].
    assert (counted (flat_map (flat n) (nestedDocs (Lookup e "o"))) ops) as Hnew.
    { revert Hn. unfold txnID in Hid. destruct (DocumentOK (Lookup e "o")) as [o|] eqn:Ho.
      - assert (Lookup e "o" = Some (BDoc o)) as -> by (destruct (Lookup e "o") as [[]|]; cbn in *; congruence).
        by apply nestedCountOps_counted.
      - cbn. rewrite Lookup_first. cbn. done. }
    set (st0 := default _ (cdTxns d !! id)).
    assert (∃ ds, default ([], negb (hasPrevOpTime e)) (vsOpen v !! id) = (ds, negb (ctIncomplete st0)) /\ counted ds (ctOps st0)) as (ds & -> & Hc).
    { unfold st0. destruct (cdTxns d !! id) as [st|]; [destruct Hst as (ds & -> & Hc); by exists ds|].
      rewrite Hst. exists []. split; [done|apply counted_nil]. }
    pose proof (counted_app _ _ _ _ Hc Hnew) as Hboth. destruct (_ || _).
    + intros [= <-]. split_and!; [done..|]. intros _. split; [done|]. split; [|done]. intros id'. cbn [vsOpen cdTxns setCountTxns].
      destruct (decide (id = id')) as [<-|]; [rewrite !lookup_insert_eq; eauto|rewrite !lookup_insert_ne by done; apply Hs].
    + intros [= <-]. by apply (commitCounts_accounts taint v (setCountTxns (delete id) d)).
Qed.

Lemma Add_accounts taint v d d' b e :
  accounts taint v d -> Validate b = Some e -> Add b d = Ok d' -> accounts taint (visibleEntry n v e) d'.
Proof.
  intros Hacc Hv HA. pose proof Hacc as (Hr & Ht & Hin). destruct (Add_persists _ _ _ Hr HA) as (Hr' & Ht' & Hp).
  destruct (decide (cdAll d = EmptyString)) as [Ha|Ha].
  2: { split; [done|]. split; [congruence|]. intros Ha'. by apply Hp in Ha. }
  revert HA. unfold Add. rewrite Hv. destruct (TimestampOK (Lookup e "ts")) as [at_|] eqn:Hts; [|done].
  destruct (txnID e) as [id|] eqn:Hid; [intros HC; eapply countTransaction_accounts; [done..|by rewrite Hts]|].
  destruct (countOps e) as [ops|] eqn:Hc; [|done]. intros [= <-]. unfold visibleEntry. rewrite Hid, Hts.
  destruct (Hin Ha) as (Hm & Hs & Hns). apply (commitCounts_accounts taint v d (vsOpen v) _ ops false); try done.
  intros _. eapply countOpsWith_counted; [|exact Hc]. intros o ops'. by apply nestedCountOps_counted.
Qed.

Lemma AddAll_accounts taint es : ∀ v d d' ds, accounts taint v d -> Forall2 (λ b e, Validate b = Some e) es ds ->
  AddAll es d = Ok d' -> accounts taint (foldl (visibleEntry n) v ds) d'.
Proof.
  induction es as [|b es IH]; intros v d d' ds Hacc Hds; inversion Hds; subst; cbn [AddAll foldl].
  - by intros [= <-].
  - destruct (Add b d) as [d1|] eqn:HA; [|done]. apply IH; [|done]. by eapply Add_accounts.
Qed.

(** A count that [CountDelta] derives is right. When a run of entries was added and
    [Delta] gives [k] for a namespace without a reason, then over the operations the run
    made visible - nested ones included, a transaction's at its commit, none of an
    aborted or open one - [k] is the inserts less the deletes of the namespace (modulo
    the width of an [int64]), none of them created, dropped, emptied, renamed or converted
    the collection, dropped its database or was an unknown command on it, none of its
    inserts or deletes lies after [TaintAfter], and every transaction that committed was
    seen from its start. *)
Theorem delta_sound taint es ds d ns k :
  Forall2 (λ b e, Validate b = Some e) es ds ->
  AddAll es (newCountDelta taint) = Ok d ->
  Delta d ns = (k, EmptyString) ->
  let v := visible n ds in
  k = i64 (net ns (vsLog v).*1) /\
  Forall (λ e, ~ reshapes ns e.1 /\ (tainted taint e.2 = true -> change ns e.1 = 0)) (vsLog v) /\
  vsMissing v = false.
Proof.
  intros Hds HA HD v. assert (accounts taint (mkVisible ∅ [] false) (newCountDelta taint)) as Hnew.
  { split; [by split_and!|]. split; [done|]. intros _. split; [done|]. split; [intros id; cbn [cdTxns newCountDelta vsOpen]; by rewrite !lookup_empty|].
    intros ns' _. by split; [|constructor]. }
  destruct (AddAll_accounts taint es _ _ _ _ Hnew Hds HA) as (_ & _ & Hacc). fold (visible n ds) in Hacc. fold v in Hacc.
  revert HD. unfold Delta. case_bool_decide as Ha; cbn [negb]; [|intros [= <- Hx]; by rewrite Hx in Ha].
  case_bool_decide as Hb; cbn [negb]; [|intros [= <- Hx]; by rewrite Hx in Hb].
  case_bool_decide as Hu; cbn [negb]; [|intros [= <- Hx]; by rewrite Hx in Hu]. intros [= <-].
  destruct (Hacc Ha) as (Hm & _ & Hns). by destruct (Hns ns (conj Hb Hu)).
Qed.

End Run.
