(* ===== verification/OplogArchive.v ===== *)
(** * The synthetic archive (src/internal/oplog/archive.go)

    [ArchiveWriter] writes a mongodump archive whose only namespace is the oplog. The
    round trip reads it back: the prelude with the reader of MongoArchive.v, the entries
    up to the terminator with [Reader], and the CRC-64 of the EOF header. *)

From Stdlib Require Import Ascii.
From S2P Require Import Prelude Pitr GoStrings Bson BsonCodec OplogScan MongoArchive.

(** ** CRC-64 (hash/crc64, ECMA) *)

Definition ecmaPoly : Z := 0xC96C5795D7870F42.
Definition not64 (z : Z) : Z := Z.lxor z (2 ^ 64 - 1).

Fixpoint crcShift (k : nat) (c : Z) : Z :=
  match k with
  | O => c
  | S k => crcShift k (if Z.testbit c 0 then Z.lxor (Z.shiftr c 1) ecmaPoly else Z.shiftr c 1)
  end.

(** [crcTable[i]]. *)
Definition crcTable (i : Z) : Z := crcShift 8 i.

Definition crcByte (c : Z) (a : ascii) : Z :=
  Z.lxor (crcTable (Z.lxor (Z.land c 255) (byteZ a))) (Z.shiftr c 8).

(** [hash.Write]: the checksum [c] extended by [p]. *)
Definition crcUpdate (c : Z) (p : bytes) : Z := not64 (foldl crcByte (not64 c) p).

Lemma not64_not64 z : not64 (not64 z) = z.
Proof. unfold not64. by rewrite Z.lxor_assoc, Z.lxor_nilpotent, Z.lxor_0_r. Qed.

Lemma crcUpdate_app c p q : crcUpdate (crcUpdate c p) q = crcUpdate c (p ++ q).
Proof. unfold crcUpdate. by rewrite not64_not64, foldl_app. Qed.

(** ** The format *)

Definition archiveFormatVersion : string := "0.1".
Definition oplogCollection : string := "oplog".
Definition DefaultToolVersion : string := "mongorescue".

Definition terminator : bytes := [byteOf 255; byteOf 255; byteOf 255; byteOf 255].

(** [strconv.Atoi] of a string without a sign: digits that fit an [int]. *)
Fixpoint digitsValue (acc : Z) (s : string) : option Z :=
  match s with
  | EmptyString => Some acc
  | String a r => if byteIn 48 57 a then digitsValue (acc * 10 + (byteZ a - 48)) r else None
  end.
Definition atoiOK (s : string) : bool :=
  match s with
  | EmptyString => false
  | String a r =>
      let body := if bool_decide (a ∈ ["+"%char; "-"%char]) then r else s in
      match body, digitsValue 0 body with
      | EmptyString, _ => false
      | _, Some n => n <=? (if bool_decide (a = "-"%char) then 2 ^ 63 else 2 ^ 63 - 1)
      | _, None => false
      end
  end.

(** [v[:i]] for the first byte of [chars], and [strings.Split(v, ".")]. *)
Fixpoint beforeAny (chars s : string) : string :=
  match s with
  | EmptyString => EmptyString
  | String a r => if inChars chars a then EmptyString else String a (beforeAny chars r)
  end.
Fixpoint splitDots (s : string) : list string :=
  match s with
  | EmptyString => [EmptyString]
  | String a r =>
      match splitDots r with
      | part :: rest => if bool_decide (a = "."%char) then EmptyString :: part :: rest else String a part :: rest
      | [] => []
      end
  end.

(** [validServerVersion]. *)
Definition validServerVersion (v : string) : bool :=
  let parts := splitDots (beforeAny "-+" v) in
  bool_decide (length parts = 3%nat) && forallb atoiOK parts.

(** [ArchiveOptions] and [ArchiveWriter]; [out] is what the writer underneath took. *)
Record ArchiveOptions : Type := mkArchiveOptions { aoServerVersion : string; aoToolVersion : string }.
Record ArchiveWriter : Type := mkArchive {
  arOut : bytes; arCrc : Z; arOpen : bool; arClosed : bool; arEntries : Z; arErr : option OplogErr
}.

Section Archive.
Context `{Driver} (w : ByteWriter).
Local Open Scope rescue_scope.

(** The documents of the format. *)
Definition headerDoc (opts : ArchiveOptions) : doc :=
  [("concurrent_collections", BInt32 1); ("version", BString archiveFormatVersion);
   ("server_version", BString (aoServerVersion opts)); ("tool_version", BString (aoToolVersion opts))].
Definition metadataDoc : doc :=
  [("db", BString EmptyString); ("collection", BString oplogCollection); ("metadata", BString EmptyString);
   ("size", BInt32 0); ("type", BString EmptyString)].
(** The CRC is a [uint64] in an int64 field, its bits as they are. *)
Definition namespaceDoc (eof : bool) (crc : Z) : doc :=
  [("db", BString EmptyString); ("collection", BString oplogCollection); ("EOF", BBool eof); ("CRC", BInt64 (i64 crc))].

(** [namespaceHeader]. *)
Definition namespaceHeader (eof : bool) (crc : Z) : result OplogErr bytes :=
  match Marshal (namespaceDoc eof crc) with Some b => Ok b | None => Err ErrMalformed end.

(** [ArchiveWriter.write]. *)
Definition awrite (b : bytes) (a : ArchiveWriter) : ArchiveWriter * option OplogErr :=
  let '(n, err) := w (arOut a) b in
  (mkArchive (arOut a ++ take n b) (arCrc a) (arOpen a) (arClosed a) (arEntries a)
     (match err with Some e => Some e | None => arErr a end), err).

(** A run of writes that stops at the first error. *)
Fixpoint awrites (bs : list bytes) (a : ArchiveWriter) : ArchiveWriter * option OplogErr :=
  match bs with
  | [] => (a, None)
  | b :: r => match awrite b a with (a1, None) => awrites r a1 | (a1, Some e) => (a1, Some e) end
  end.

(** [NewArchiveWriter]. *)
Definition NewArchiveWriter (opts : ArchiveOptions) : result OplogErr ArchiveWriter :=
  if negb (validServerVersion (aoServerVersion opts)) then Err ErrServerVersion
  else
    let opts := mkArchiveOptions (aoServerVersion opts)
                  (if bool_decide (aoToolVersion opts = EmptyString) then DefaultToolVersion else aoToolVersion opts) in
    match Marshal (headerDoc opts), Marshal metadataDoc with
    | Some header, Some metadata =>
        match awrites [le 4 ArchiveMagic; header; metadata; terminator] (mkArchive [] 0 false false 0 None) with
        | (a, None) => Ok a
        | (_, Some e) => Err e
        end
    | _, _ => Err ErrMalformed
    end.

(** [ArchiveWriter.openSegment]. *)
Definition openSegment (a : ArchiveWriter) : ArchiveWriter * option OplogErr :=
  if arOpen a then (a, None)
  else match namespaceHeader false 0 with
       | Err e => (a, Some e)
       | Ok header =>
           match awrite header a with
           | (a1, Some e) => (a1, Some e)
           | (a1, None) => (mkArchive (arOut a1) (arCrc a1) true (arClosed a1) (arEntries a1) (arErr a1), None)
           end
       end.

(** [ArchiveWriter.WriteEntry]. *)
Definition WriteEntry (entry : bytes) (a : ArchiveWriter) : ArchiveWriter * option OplogErr :=
  if arClosed a then (a, Some ErrArchiveClosed)
  else match arErr a with
       | Some e => (a, Some e)
       | None =>
           let n := Z.of_nat (length entry) in
           if (n <? minDocumentSize) || (MaxEntrySize <? n) || negb (Uint32 entry =? n) || negb (bool_decide (last entry = Some zero))
           then (a, Some ErrMalformed)
           else
             match openSegment a with
             | (a1, Some e) => (a1, Some e)
             | (a1, None) =>
                 match awrite entry a1 with
                 | (a2, Some e) => (a2, Some e)
                 | (a2, None) =>
                     (mkArchive (arOut a2) (crcUpdate (arCrc a2) entry) (arOpen a2) (arClosed a2) (i64 (arEntries a2 + 1)) (arErr a2), None)
                 end
             end
       end.

(** [ArchiveWriter.Close]. *)
Definition Close (a : ArchiveWriter) : ArchiveWriter * option OplogErr :=
  if arClosed a then (a, arErr a)
  else
    let a := mkArchive (arOut a) (arCrc a) (arOpen a) true (arEntries a) (arErr a) in
    match arErr a with
    | Some e => (a, Some e)
    | None =>
        match openSegment a with
        | (a1, Some e) => (a1, Some e)
        | (a1, None) =>
            match awrite terminator a1 with
            | (a2, Some e) => (a2, Some e)
            | (a2, None) =>
                match namespaceHeader true (arCrc a2) with
                | Err e => (a2, Some e)
                | Ok eof => awrites [eof; terminator] a2
                end
            end
        end
    end.

(** A whole archive: its entries, written and closed. *)
Fixpoint writeEntries (es : list bytes) (a : ArchiveWriter) : ArchiveWriter * option OplogErr :=
  match es with
  | [] => (a, None)
  | e :: r => match WriteEntry e a with (a1, None) => writeEntries r a1 | (a1, Some x) => (a1, Some x) end
  end.

Definition writeArchive (opts : ArchiveOptions) (es : list bytes) : result OplogErr bytes :=
  a <-! NewArchiveWriter opts;
  match writeEntries es a with
  | (_, Some e) => Err e
  | (a1, None) => match Close a1 with (a2, None) => Ok (arOut a2) | (_, Some e) => Err e end
  end.

End Archive.

(** ** Reading the fields of an encoded document *)

(** What [bsonScalars] keeps of an element. *)
Definition addField (f : bsonFields) (e : string * value) : bsonFields :=
  if preludeFields (e.1) then
    match e.2 with
    | BString s => mkFields (<[e.1 := s]> (bfStrs f)) (bfNums f)
    | BInt32 n => mkFields (bfStrs f) (<[e.1 := n]> (bfNums f))
    | _ => f
    end
  else f.

(** A document of strings and 32-bit integers. *)
Definition flatElem (e : string * value) : Prop :=
  noNUL (e.1) = true /\ encodable (e.2) = true /\ ((∃ s, e.2 = BString s) \/ ∃ n, e.2 = BInt32 n).

Lemma slice_app (a b c : bytes) i j : i = len a -> j = len a + len b -> slice (a ++ b ++ c) i j = Ok b.
Proof.
  intros -> ->. unfold slice. rewrite !length_app.
  rewrite (proj2 (Z.leb_le 0 _)), (proj2 (Z.leb_le (len a) _)), (proj2 (Z.leb_le (len a + len b) _)) by lia. cbn [andb].
  replace (len a + len b - len a) with (len b) by lia. rewrite !Nat2Z.id, drop_app_length, take_app_length. done.
Qed.

Lemma slice_tail (a b : bytes) i j : i = len a -> j = len (a ++ b) -> slice (a ++ b) i j = Ok b.
Proof. intros Hi Hj. rewrite <- (app_nil_r b) at 1. apply slice_app; [done|]. rewrite Hj, length_app. lia. Qed.

Lemma slice_head (a b : bytes) j : j = len a -> slice (a ++ b) 0 j = Ok a.
Proof. intros Hj. apply (slice_app [] a b); [done|]. rewrite Hj. cbn. lia. Qed.

Lemma IndexNUL_cstring s r : noNUL s = true -> IndexNUL (bytesOf s ++ zero :: r) = len (bytesOf s).
Proof.
  unfold noNUL. induction s as [|a s IH]; [done|]. change (bytesOf (String a s)) with (a :: bytesOf s). cbn [forallb app IndexNUL length].
  intros [Ha Hs]%andb_prop. rewrite (IH Hs). case_bool_decide; [done|]. cbn zeta. destruct (_ <? 0) eqn:E; bool_cases; lia.
Qed.

Lemma leInt32_le n r : - 2 ^ 31 <= n < 2 ^ 31 -> leInt32 (le 4 n ++ r) = Ok n.
Proof.
  intros Hn. unfold leInt32. rewrite slice_head by (by rewrite length_le). rewrite leZ_le, signed_mod; [done|lia|].
  change (256 ^ Z.of_nat 4 / 2) with (2 ^ 31). lia.
Qed.

Section RoundTrip.
Context (float64ToInt : Z -> option Z) (unmarshalMeta : string -> option MetaOptions).

Lemma valueSize_flat e r : flatElem e -> bsonValueSize (typeOf (e.2)) (encValue (e.2) ++ r) = Ok (len (encValue (e.2))).
Proof.
  intros (_ & He & [[s Hs]|[n Hn]]); [rewrite Hs in *|rewrite Hn in *]; cbn [encodable] in He.
  - bool_cases. unfold bsonValueSize. cbn [typeOf encValue]. set (v := le 4 (len (bytesOf s) + 1) ++ bytesOf s ++ [zero]).
    assert (len v = len (bytesOf s) + 5) as Hl by (unfold v; rewrite !length_app, length_le; cbn [length]; lia).
    change (bool_decide (2 ∈ [1; 9; 17; 18])) with false. change (bool_decide (2 ∈ [2; 13; 14])) with true. cbv iota.
    assert (prefixed 0 false 1 (v ++ r) = Ok (len v)) as ->.
    { unfold prefixed. rewrite length_app. rewrite (proj2 (Z.ltb_ge _ 4)) by lia. unfold v at 1. rewrite <- app_assoc, leInt32_le by lia.
      rewrite (proj2 (Z.ltb_ge _ 1)) by lia. cbn zeta. rewrite (proj2 (Z.ltb_ge _ _)) by lia. f_equal. lia. }
    assert (index (v ++ r) (len v - 1) = Ok zero) as ->.
    { unfold index. rewrite length_app. rewrite (proj2 (Z.leb_le 0 _)), (proj2 (Z.ltb_lt _ _)) by lia. cbn [andb]. f_equal.
      rewrite app_nth1, Hl by lia. unfold v. rewrite app_assoc. rewrite app_nth2 by (rewrite length_app, length_le; lia).
      rewrite length_app, length_le. replace (_ - _)%nat with 0%nat by lia. done. }
    by rewrite bool_decide_true.
  - unfold bsonValueSize. cbn [typeOf encValue]. unfold fixed. rewrite length_app, length_le.
    change (bool_decide (16 ∈ [1; 9; 17; 18])) with false. change (bool_decide (16 ∈ [2; 13; 14])) with false.
    change (bool_decide (16 ∈ [3; 4])) with false. change (bool_decide (16 ∈ [6; 10; 255; 127])) with false. cbv iota.
    rewrite !bool_decide_false by done. rewrite bool_decide_true by done. rewrite (proj2 (Z.ltb_ge _ 4)) by lia. done.
Qed.

Lemma keepField_flat e f : flatElem e -> preludeFields (e.1) = true ->
  keepField float64ToInt (typeOf (e.2)) (e.1) (encValue (e.2)) f = Ok (addField f e).
Proof.
  intros (_ & He & [[s Hs]|[n Hn]]) Hp; unfold addField; rewrite Hp; [rewrite Hs in *|rewrite Hn in *]; cbn [encodable] in He.
  - unfold keepField. cbn [typeOf encValue Z.eqb Pos.eqb].
    rewrite (slice_app (le 4 _) (bytesOf s) [zero]); [by rewrite bytesOf_id|by rewrite length_le|].
    rewrite !length_app, length_le. cbn [length]. lia.
  - unfold keepField. cbn [typeOf encValue Z.eqb Pos.eqb]. bool_cases. rewrite <- (app_nil_r (le 4 n)), leInt32_le by lia. done.
Qed.

Lemma scalarStep_flat e d f : flatElem e -> scalarStep float64ToInt (encElems (e :: d)) f = Ok (encElems d, addField f e).
Proof.
  intros He. pose proof He as (Hk & Hen & Hty). destruct e as [k v]. cbn [fst snd] in *. cbn [encElems]. cbn [app].
  set (ty := byteOf (typeOf v)). set (rest := encValue v ++ encElems d). unfold scalarStep.
  destruct (typeOf_byte v Hen) as [Hb _]. fold ty in Hb.
  assert (index (ty :: bytesOf k ++ zero :: rest) 0 = Ok ty) as -> by done.
  rewrite (slice_tail [ty] (bytesOf k ++ zero :: rest)) by done. rewrite IndexNUL_cstring by done. cbn zeta.
  rewrite (proj2 (Z.ltb_ge _ 0)) by lia.
  rewrite (slice_app [ty] (bytesOf k) (zero :: rest)) by (cbn [length]; lia).
  replace (ty :: bytesOf k ++ zero :: rest) with ((ty :: bytesOf k ++ [zero]) ++ rest) by (cbn [app]; by rewrite <- app_assoc).
  rewrite slice_tail by (cbn [length]; rewrite ?length_app; cbn [length]; lia). rewrite Hb. unfold rest.
  rewrite (valueSize_flat (k, v)) by done. cbn [snd]. rewrite slice_head, slice_tail by done.
  rewrite bytesOf_id. destruct (preludeFields k) eqn:Hp.
  - by rewrite (keepField_flat (k, v)).
  - unfold addField. cbn [fst]. by rewrite Hp.
Qed.

Lemma scalarLoop_flat d : Forall flatElem d -> ∀ fuel f, (length (encElems d) <= fuel)%nat ->
  scalarLoop float64ToInt fuel (encElems d) f = Ok (foldl addField f d).
Proof.
  induction 1 as [|e d He _ IH]; intros fuel f Hl; [by destruct fuel|].
  assert ((length (encElems d) < length (encElems (e :: d)))%nat) as Hlt.
  { destruct e as [k v]. cbn [encElems length]. rewrite !length_app. lia. }
  destruct fuel as [|fuel]; [lia|]. cbn [scalarLoop]. rewrite bool_decide_false by (intros Hn; rewrite Hn in Hlt; cbn in Hlt; lia).
  rewrite scalarStep_flat by done. cbn [fst snd foldl]. apply IH. lia.
Qed.

Lemma bsonScalars_flat d : Forall flatElem d -> len (frame (encElems d)) < 2 ^ 31 ->
  bsonScalars float64ToInt (frame (encElems d)) = Ok (foldl addField (mkFields ∅ ∅) d).
Proof.
  intros Hd Hl. unfold bsonScalars. rewrite length_frame in *. cbn zeta.
  rewrite (proj2 (Z.ltb_ge _ 5)) by lia. unfold frame, Uint32. rewrite take_app_length' by (by rewrite length_le).
  rewrite leZ_le, Z.mod_small by (change (256 ^ Z.of_nat 4) with (2 ^ 32); lia).
  rewrite (proj2 (Z.eqb_eq _ _)) by lia. cbn [negb].
  assert (index (le 4 (len (encElems d) + 5) ++ encElems d ++ [zero]) (Z.of_nat (length (encElems d) + 5) - 1) = Ok zero) as ->.
  { unfold index. rewrite !length_app, length_le. cbn [length]. rewrite (proj2 (Z.leb_le 0 _)), (proj2 (Z.ltb_lt _ _)) by lia. cbn [andb]. f_equal.
    rewrite app_assoc, app_nth2 by (rewrite length_app, length_le; lia). rewrite length_app, length_le. by replace (_ - _)%nat with 0%nat by lia. }
  rewrite bool_decide_true by done. cbn [negb]. rewrite slice_app; [by apply scalarLoop_flat|by rewrite length_le|rewrite length_le; lia].
Qed.

(** ** The archive read back *)

(** The reference reader of the data after the prelude: a namespace header, the entries
    up to the terminator, the EOF header with the CRC, and the terminator. *)
Fixpoint readSegment (fuel : nat) (b : bytes) : option (list bytes * bytes) :=
  match fuel with
  | O => None
  | S fuel =>
      if bool_decide (take 4 b = terminator) then Some ([], drop 4 b)
      else match Next (mkStream b false) with
           | Ok (d, r) => '(es, rest) ← readSegment fuel (stBytes r); Some (d :: es, rest)
           | Err _ => None
           end
  end.

Definition readHeader `{Driver} (eof : bool) (b : bytes) : option (Z * bytes) :=
  match Next (mkStream b false) with
  | Ok (h, r) =>
      d ← Validate h;
      guard (StringValueOK (Lookup d "collection") = Some oplogCollection /\ BooleanOK (Lookup d "EOF") = Some eof);;
      crc ← Lookup d "CRC" ≫= AsInt64OK;
      Some (crc, stBytes r)
  | Err _ => None
  end.

Definition readOplog `{Driver} (b : bytes) : option (list bytes * Z) :=
  '(_, b1) ← readHeader false b;
  '(es, b2) ← readSegment (length b1) b1;
  '(crc, b3) ← readHeader true b2;
  guard (b3 = terminator);;
  Some (es, crc).

(** What [WriteEntry] accepts, [Next] reads back. *)
Definition goodEntry (e : bytes) : Prop :=
  minDocumentSize <= len e <= MaxEntrySize /\ Uint32 e = len e.

Lemma goodEntry_whole e : goodEntry e -> wholeDoc e.
Proof.
  intros [Hl Hu]. unfold minDocumentSize in Hl. split; [lia|]. unfold documentSize. assert (Uint32 (take 4 e) = len e) as -> by (rewrite <- Hu; unfold Uint32; by rewrite take_take).
  unfold minDocumentSize. rewrite (proj2 (Z.ltb_ge _ 5)), (proj2 (Z.ltb_ge MaxEntrySize _)) by lia. cbn [orb]. by rewrite Nat2Z.id.
Qed.

Lemma goodEntry_terminator e r : goodEntry e -> take 4 (e ++ r) <> terminator.
Proof.
  intros [Hl Hu] Ht. unfold minDocumentSize in Hl. rewrite take_app_le in Ht by lia. unfold Uint32 in Hu. rewrite Ht in Hu.
  assert (leZ terminator = 2 ^ 32 - 1) as Hterm by (vm_compute; done). rewrite Hterm in Hu. unfold MaxEntrySize in Hl.
  change (Z.shiftl 16 20 + Z.shiftl 16 10) with 16793600 in Hl. lia.
Qed.

Lemma readSegment_entries es : Forall goodEntry es -> ∀ fuel r, (length es < fuel)%nat ->
  readSegment fuel (concat es ++ terminator ++ r) = Some (es, r).
Proof.
  induction 1 as [|e es He _ IH]; intros fuel r Hf; (destruct fuel as [|fuel]; [cbn in Hf; lia|]).
  - cbn [concat app readSegment]. by rewrite bool_decide_true.
  - cbn [concat readSegment]. rewrite <- app_assoc. rewrite bool_decide_false by (by apply goodEntry_terminator).
    rewrite Next_whole by (by apply goodEntry_whole). cbn [stBytes]. cbn [length] in Hf. rewrite IH by lia. done.
Qed.

End RoundTrip.

(** ** What the writer wrote *)

Section Written.
Context `{DriverLaws} (w : ByteWriter) (Hw : takesAll w).

Lemma awrite_ok b a : awrite w b a = (mkArchive (arOut a ++ b) (arCrc a) (arOpen a) (arClosed a) (arEntries a) (arErr a), None).
Proof. unfold awrite. by rewrite Hw, take_ge by lia. Qed.

Lemma awrites_ok bs : ∀ a, awrites w bs a = (mkArchive (arOut a ++ concat bs) (arCrc a) (arOpen a) (arClosed a) (arEntries a) (arErr a), None).
Proof.
  induction bs as [|b bs IH]; intros a; cbn [awrites concat]; [by rewrite app_nil_r; destruct a|].
  rewrite awrite_ok, IH. cbn. by rewrite app_assoc.
Qed.

(** The bytes of a segment so far, of the entries [es]. *)
Definition segment (nsh : bytes) (es : list bytes) (open : bool) : bytes := if open then nsh ++ concat es else [].

(** The state of an archive after the prelude [pre] and the entries [es]. *)
Definition holds (pre nsh : bytes) (es : list bytes) (a : ArchiveWriter) : Prop :=
  arOut a = pre ++ segment nsh es (arOpen a) /\ arCrc a = crcUpdate 0 (concat es) /\ arErr a = None /\
  (arOpen a = false -> es = []).

Lemma openSegment_ok nsh pre es a :
  Marshal (namespaceDoc false 0) = Some nsh -> holds pre nsh es a ->
  ∃ a', openSegment w a = (a', None) /\ arOut a' = pre ++ nsh ++ concat es /\ arCrc a' = arCrc a /\ arOpen a' = true /\
    arClosed a' = arClosed a /\ arErr a' = None.
Proof.
  intros Hn (Ho & Hc & He & Hes). unfold openSegment. destruct (arOpen a) eqn:Hop.
  - exists a. rewrite Ho. done.
  - unfold namespaceHeader. rewrite Hn, awrite_ok. eexists. split; [done|]. cbn. rewrite (Hes eq_refl), Ho. cbn. by rewrite !app_nil_r.
Qed.

Lemma WriteEntry_ok nsh pre es a e a' :
  Marshal (namespaceDoc false 0) = Some nsh -> holds pre nsh es a -> arClosed a = false -> WriteEntry w e a = (a', None) ->
  goodEntry e /\ holds pre nsh (es ++ [e]) a' /\ arClosed a' = false.
Proof.
  intros Hn Ha Hcl. pose proof Ha as (Ho & Hc & He & Hes). unfold WriteEntry. rewrite Hcl, He. cbn zeta.
  destruct (_ || _) eqn:Hg; [done|]. bool_cases. destruct (openSegment_ok nsh pre es a Hn Ha) as (a1 & -> & Ho1 & Hc1 & Hop1 & Hcl1 & He1).
  rewrite awrite_ok. intros [= <-]. split; [by repeat split; try lia|].
  split; [|cbn; congruence]. split; [cbn [arOut arOpen]; rewrite Ho1, Hop1; unfold segment; rewrite concat_app; cbn [concat]; by rewrite app_nil_r, !app_assoc|].
  split; [cbn [arCrc]; rewrite Hc1, Hc, crcUpdate_app, concat_app; cbn [concat]; by rewrite app_nil_r|]. cbn. by rewrite He1, Hop1.
Qed.

Lemma writeEntries_ok nsh pre es2 : Marshal (namespaceDoc false 0) = Some nsh ->
  ∀ es a a', holds pre nsh es a -> arClosed a = false -> writeEntries w es2 a = (a', None) ->
  Forall goodEntry es2 /\ holds pre nsh (es ++ es2) a' /\ arClosed a' = false.
Proof.
  intros Hn. induction es2 as [|e es2 IH]; intros es a a' Ha Hcl; cbn [writeEntries].
  - intros [= <-]. rewrite app_nil_r. done.
  - destruct (WriteEntry w e a) as [a1 [x|]] eqn:HW; [done|]. intros Hr.
    destruct (WriteEntry_ok _ _ _ _ _ _ Hn Ha Hcl HW) as (Hg & Ha1 & Hcl1). destruct (IH _ _ _ Ha1 Hcl1 Hr) as (Hgs & Ha2 & Hcl2).
    rewrite <- app_assoc in Ha2. split; [by constructor|done].
Qed.

Lemma writeArchive_bytes opts es out :
  writeArchive w opts es = Ok out -> ∃ header metadata nsh eof,
    let tool := if bool_decide (aoToolVersion opts = EmptyString) then DefaultToolVersion else aoToolVersion opts in
    Marshal (headerDoc (mkArchiveOptions (aoServerVersion opts) tool)) = Some header /\ Marshal metadataDoc = Some metadata /\
    Marshal (namespaceDoc false 0) = Some nsh /\ Marshal (namespaceDoc true (crcUpdate 0 (concat es))) = Some eof /\
    Forall goodEntry es /\
    out = le 4 ArchiveMagic ++ header ++ metadata ++ terminator ++ nsh ++ concat es ++ terminator ++ eof ++ terminator.
Proof.
  unfold writeArchive, NewArchiveWriter. destruct (negb _); [done|]. cbn zeta.
  destruct (Marshal (headerDoc _)) as [header|] eqn:Hh; [|done]. destruct (Marshal metadataDoc) as [metadata|] eqn:Hm; [|done].
  rewrite awrites_ok. cbn [arOut arCrc arOpen arClosed arEntries arErr app]. set (a0 := mkArchive _ _ _ _ _ _).
  destruct (writeEntries w es a0) as [a1 [x|]] eqn:HE; [done|]. destruct (Close w a1) as [a2 [x|]] eqn:HC; [done|]. intros [= <-].
  set (pre := concat _) in *. destruct (Marshal (namespaceDoc false 0)) as [nsh|] eqn:Hn.
  - assert (holds pre nsh [] a0) as Ha0 by (by unfold holds; cbn; rewrite app_nil_r).
    destruct (writeEntries_ok nsh pre es Hn [] a0 a1 Ha0 eq_refl HE) as (Hg & Ha1 & Hcl). cbn [app] in Ha1.
    pose proof Ha1 as (Ho & Hc & He & Hes). revert HC. unfold Close. rewrite Hcl. cbn [arErr]. rewrite He.
    destruct (openSegment_ok nsh pre es (mkArchive (arOut a1) (arCrc a1) (arOpen a1) true (arEntries a1) None))
      as (a3 & -> & Ho3 & Hc3 & _); [done|by split_and!|]. rewrite awrite_ok. cbn [arCrc]. rewrite Hc3. cbn [arCrc]. rewrite Hc.
    unfold namespaceHeader. destruct (Marshal (namespaceDoc true _)) as [eof|] eqn:Hf; [|done]. rewrite awrites_ok. intros [= <-].
    exists header, metadata, nsh, eof. split_and!; try done. cbn [arOut concat]. rewrite Ho3. subst pre. cbn [concat]. by rewrite !app_nil_r, <- !app_assoc.
  - exfalso. assert (∀ a, arOpen a = false -> ∃ e, openSegment w a = (a, Some e)) as Hop.
    { intros a Ha. unfold openSegment, namespaceHeader. rewrite Ha, Hn. eauto. }
    destruct es as [|e es]; cbn [writeEntries] in HE.
    + injection HE as <-. revert HC. unfold Close. subst a0. cbn [arClosed arErr arOut arCrc arOpen arEntries].
      by destruct (Hop (mkArchive pre 0 false true 0 None) eq_refl) as [e ->].
    + revert HE. unfold WriteEntry. cbn [arClosed arErr a0]. cbn zeta. destruct (_ || _); [done|]. by destruct (Hop a0 eq_refl) as [x ->].
Qed.

End Written.

(** ** The round trip *)

Section Theorem_.
Context `{DriverLaws} (float64ToInt : Z -> option Z) (unmarshalMeta : string -> option MetaOptions).

(** [Marshal] writes the BSON format. *)
Definition writesBSON : Prop := ∀ d b, Marshal d = Some b -> b = frame (encElems d).

Lemma readFull_app k (b r : bytes) fl left : length b = k -> Z.of_nat k <= left ->
  readFull k (mkPreludeReader (mkStream (b ++ r) fl) left) = Ok (b, mkPreludeReader (mkStream r fl) (left - Z.of_nat k)).
Proof.
  intros Hk Hl. unfold readFull. cbn [prLeft prStream]. rewrite (proj2 (Z.ltb_ge left _)) by lia.
  unfold ReadFull. cbn [stBytes stFails]. rewrite bool_decide_true by (rewrite length_app; lia).
  by rewrite take_app_length', drop_app_length' by done.
Qed.

(** A document of the prelude is read back. *)
Lemma preludeDoc_flat (first : bool) (d : doc) (r : bytes) (left : Z) (p : ArchivePrelude) :
  Forall flatElem d -> len (frame (encElems d)) <= maxPreludeDocument -> len (frame (encElems d)) <= left ->
  let fields := foldl addField (mkFields ∅ ∅) d in
  ∀ res, (if first then Ok (E := PreludeErr) (mkArchivePrelude (str fields "version") (str fields "server_version") (str fields "tool_version") (apCollections p))
          else match collectionFromMetadata unmarshalMeta fields with
               | Ok c => Ok (mkArchivePrelude (apFormatVersion p) (apServerVersion p) (apToolVersion p) (apCollections p ++ [c]))
               | Err e => Err e
               end) = Ok res ->
  ∀ fuel, preludeLoop float64ToInt unmarshalMeta (S fuel) first (mkPreludeReader (mkStream (frame (encElems d) ++ r) false) left) p =
  preludeLoop float64ToInt unmarshalMeta fuel false (mkPreludeReader (mkStream r false) (left - len (frame (encElems d)))) res.
Proof.
  intros Hd Hmax Hleft fields res Hres fuel. unfold maxPreludeDocument in Hmax. change (Z.shiftl 16 20 + Z.shiftl 16 10) with 16793600 in Hmax.
  set (n := len (encElems d)). assert (len (frame (encElems d)) = n + 5) as Hn by (rewrite length_frame; lia).
  assert (frame (encElems d) = le 4 (n + 5) ++ (encElems d ++ [zero])) as Hf by done.
  assert (Uint32 (le 4 (n + 5)) = n + 5) as Hu.
  { unfold Uint32. rewrite take_ge by (by rewrite length_le). rewrite leZ_le, Z.mod_small; [done|]. change (256 ^ Z.of_nat 4) with (2 ^ 32). lia. }
  cbn [preludeLoop]. rewrite Hf, <- (app_assoc (le 4 _)). rewrite readFull_app by (try apply length_le; lia).
  cbn [fst snd]. rewrite Hu. unfold preludeTerminator. rewrite (proj2 (Z.eqb_neq _ _)) by lia.
  unfold preludeDoc. cbn zeta. rewrite Hu. rewrite (proj2 (Z.ltb_ge _ 5)), (proj2 (Z.ltb_ge maxPreludeDocument _)) by (unfold maxPreludeDocument; change (Z.shiftl 16 20 + Z.shiftl 16 10) with 16793600; lia).
  cbn [orb prLeft]. rewrite (proj2 (Z.ltb_ge _ (n + 5 - 4))) by lia.
  rewrite readFull_app by (rewrite ?length_app; cbn [length]; lia). cbn [fst snd]. rewrite <- Hf, bsonScalars_flat by (done || lia). fold fields.
  assert (left - Z.of_nat 4 - Z.of_nat (Z.to_nat (n + 5) - 4) = left - len (frame (encElems d))) as -> by lia.
  rewrite Hf. destruct first; [by injection Hres as <-|]. destruct (collectionFromMetadata unmarshalMeta fields); [|done]. by injection Hres as <-.
Qed.

Lemma length_encElems k v d : length (encElems ((k, v) :: d)) = (length (bytesOf k) + length (encValue v) + 2 + length (encElems d))%nat.
Proof. cbn [encElems length]. rewrite !length_app. cbn [length]. lia. Qed.

Lemma length_encString s : length (encValue (BString s)) = (length (bytesOf s) + 5)%nat.
Proof. cbn [encValue]. rewrite !length_app, length_le. cbn [length]. lia. Qed.

Lemma flat_string k s : noNUL k = true -> len (bytesOf s) + 1 < 2 ^ 31 -> flatElem (k, BString s).
Proof. intros Hk Hs. split; [done|]. split; [apply Z.ltb_lt; lia|]. left. by exists s. Qed.

Lemma flat_int32 k n : noNUL k = true -> encodable (BInt32 n) = true -> flatElem (k, BInt32 n).
Proof. intros Hk Hn. split; [done|]. split; [done|]. right. by exists n. Qed.

Lemma headerDoc_flat opts :
  len (bytesOf (aoServerVersion opts)) < 2 ^ 20 -> len (bytesOf (aoToolVersion opts)) < 2 ^ 20 -> Forall flatElem (headerDoc opts).
Proof.
  intros Hs Ht. unfold headerDoc. apply Forall_cons_2; [by apply flat_int32|]. apply Forall_cons_2; [by apply flat_string|].
  apply Forall_cons_2; [apply flat_string; [done|lia]|]. apply Forall_cons_2; [apply flat_string; [done|lia]|]. apply Forall_nil_2.
Qed.

Lemma metadataDoc_flat : Forall flatElem metadataDoc.
Proof.
  unfold metadataDoc. repeat (apply Forall_cons_2; [first [by apply flat_string|by apply flat_int32]|]). apply Forall_nil_2.
Qed.

(** The fields kept of the two documents. *)
Lemma headerDoc_fields opts : foldl addField (mkFields ∅ ∅) (headerDoc opts) =
  mkFields (<["tool_version" := aoToolVersion opts]> (<["server_version" := aoServerVersion opts]> (<["version" := archiveFormatVersion]> ∅))) ∅.
Proof.
  unfold headerDoc, addField. cbn [foldl fst snd]. change (preludeFields "concurrent_collections") with false.
  change (preludeFields "version") with true. change (preludeFields "server_version") with true. change (preludeFields "tool_version") with true. done.
Qed.

Lemma headerDoc_prelude opts cs : let fields := foldl addField (mkFields ∅ ∅) (headerDoc opts) in
  mkArchivePrelude (str fields "version") (str fields "server_version") (str fields "tool_version") cs =
  mkArchivePrelude archiveFormatVersion (aoServerVersion opts) (aoToolVersion opts) cs.
Proof.
  cbn zeta. rewrite headerDoc_fields. unfold str. cbn [bfStrs]. rewrite lookup_insert_eq.
  rewrite !(lookup_insert_ne _ "tool_version") by done. rewrite lookup_insert_eq, lookup_insert_ne, lookup_insert_eq by done. done.
Qed.

Lemma metadataDoc_collection : collectionFromMetadata unmarshalMeta (foldl addField (mkFields ∅ ∅) metadataDoc) =
  Ok (mkArchiveCollection EmptyString oplogCollection CollectionTypeCollection EmptyString 0).
Proof. vm_compute. reflexivity. Qed.

(** A namespace header is read back. *)
Lemma readHeader_back eof crc h r :
  writesBSON -> Marshal (namespaceDoc eof crc) = Some h -> readHeader eof (h ++ r) = Some (i64 crc, r).
Proof.
  intros Hfmt Hm. pose proof (Marshal_framed _ _ Hm) as Hf. unfold framed, minDocumentSize in Hf. bool_cases.
  assert (goodEntry h) as Hg.
  { split; [|done]. unfold minDocumentSize, MaxEntrySize. change (Z.shiftl 16 20 + Z.shiftl 16 10) with 16793600.
    assert (len h = 55) as Hl; [|lia]. rewrite (Hfmt _ _ Hm). rewrite length_frame. destruct eof; cbn; rewrite ?length_le; done. }
  unfold readHeader. rewrite Next_whole by (by apply goodEntry_whole). cbn [stBytes]. rewrite (Marshal_Validate _ _ Hm). cbn [mbind option_bind].
  rewrite !Lookup_first. rewrite option_guard_True by done.
  change (first_elem (namespaceDoc eof crc) "CRC") with (Some (BInt64 (i64 crc))). cbn [mbind option_bind]. by rewrite AsInt64OK_int64.
Qed.

(** [C33] The archive handed to mongorestore holds exactly the entries written. When an
    archive is written and closed without an error, [ReadArchivePrelude] reads its prelude
    back - format version, server and tool version, and the oplog as its only namespace -
    and stops at the data, in which the entries up to the terminator are the ones written,
    in order, and the EOF header carries the CRC-64 of their concatenation. *)
Theorem archive_roundtrip w opts es out :
  writesBSON -> takesAll w ->
  len (bytesOf (aoServerVersion opts)) < 2 ^ 20 -> len (bytesOf (aoToolVersion opts)) < 2 ^ 20 ->
  writeArchive w opts es = Ok out ->
  ∃ pr, ReadArchivePrelude float64ToInt unmarshalMeta (mkStream out false) 0 =
    Ok (mkArchivePrelude archiveFormatVersion (aoServerVersion opts)
          (if bool_decide (aoToolVersion opts = EmptyString) then DefaultToolVersion else aoToolVersion opts)
          [mkArchiveCollection EmptyString oplogCollection CollectionTypeCollection EmptyString 0], pr) /\
    readOplog (stBytes (prStream pr)) = Some (es, i64 (crcUpdate 0 (concat es))).
Proof.
  intros Hfmt Hw Hsv Htv HA. destruct (writeArchive_bytes w Hw opts es out HA) as (header & metadata & nsh & eof & Hh & Hm & Hn & He & Hg & ->).
  set (tool := if bool_decide _ then _ else _) in *. assert (len (bytesOf tool) < 2 ^ 20) as Htl by (unfold tool; by case_bool_decide).
  pose proof (Hfmt _ _ Hh) as ->. pose proof (Hfmt _ _ Hm) as ->. clear Hh Hm.
  set (hd := headerDoc _) in *. set (tl := nsh ++ concat es ++ terminator ++ eof ++ terminator).
  assert (len (frame (encElems hd)) < 2 ^ 22) as Hhl.
  { rewrite length_frame. unfold hd, headerDoc. rewrite !length_encElems, !length_encString. cbn [length encElems encValue aoServerVersion aoToolVersion].
    rewrite length_le. change (length (bytesOf "concurrent_collections")) with 22%nat. change (length (bytesOf "version")) with 7%nat.
    change (length (bytesOf archiveFormatVersion)) with 3%nat. change (length (bytesOf "server_version")) with 14%nat.
    change (length (bytesOf "tool_version")) with 12%nat. lia. }
  unfold ReadArchivePrelude. cbn zeta. change (if 0 <=? 0 then DefaultPreludeLimit else 0) with (2 ^ 26).
  rewrite (readFull_app 4 (le 4 ArchiveMagic)) by (done || lia). change (Uint32 (le 4 ArchiveMagic) =? ArchiveMagic) with true. cbn [negb].
  cbn [length]. set (left0 := 2 ^ 26 - Z.of_nat 4).
  assert (∀ fuel, (2 < fuel)%nat ->
    preludeLoop float64ToInt unmarshalMeta fuel true
      (mkPreludeReader (mkStream (frame (encElems hd) ++ frame (encElems metadataDoc) ++ terminator ++ tl) false) left0)
      (mkArchivePrelude EmptyString EmptyString EmptyString []) =
    Ok (mkArchivePrelude archiveFormatVersion (aoServerVersion opts) tool
          [mkArchiveCollection EmptyString oplogCollection CollectionTypeCollection EmptyString 0],
        mkPreludeReader (mkStream tl false) (left0 - len (frame (encElems hd)) - len (frame (encElems metadataDoc)) - 4))) as Hloop.
  { intros fuel Hfu. destruct fuel as [|[|[|fuel]]]; [lia..|].
    erewrite preludeDoc_flat; [|by apply headerDoc_flat
      |unfold maxPreludeDocument; change (Z.shiftl 16 20 + Z.shiftl 16 10) with 16793600; lia|unfold left0; lia|cbn iota; unfold hd; by rewrite headerDoc_prelude].
    erewrite preludeDoc_flat; [|apply metadataDoc_flat
      |by vm_compute|change (len (frame (encElems metadataDoc))) with 72; unfold left0; lia|cbn iota; by rewrite metadataDoc_collection].
    cbn [preludeLoop]. rewrite readFull_app by (try done; change (len (frame (encElems metadataDoc))) with 72; unfold left0; lia). done. }
  rewrite Hloop by (cbn [stBytes]; rewrite !length_app, length_frame; lia). eexists. split; [done|].
  cbn [prStream stBytes]. unfold tl, readOplog. rewrite (readHeader_back false 0) by done. cbn [mbind option_bind].
  rewrite readSegment_entries; [|done|].
  - cbn [mbind option_bind]. rewrite (readHeader_back true (crcUpdate 0 (concat es))) by done. cbn [mbind option_bind]. by rewrite option_guard_True.
  - rewrite !length_app. assert ((length es <= length (concat es))%nat) as Hle; [|change (length terminator) with 4%nat; lia].
    clear -Hg. induction Hg as [|e es [He _] _ IH]; [done|]. cbn [concat length]. rewrite length_app. unfold minDocumentSize in He. lia.
Qed.

End Theorem_.
