(* ===== verification/OplogDemo.v ===== *)
(** * A replay run on bytes (src/internal/oplog)

    A stream with writes of a selected and of another database, a transaction over two
    entries, an index, a rename and an entry at the limit, copied through the filter with
    the codec of BsonCodec.v: the hypotheses of the stream theorems hold, and the entries
    written are the expected ones. *)

From Stdlib Require Import Ascii.
From S2P Require Import Prelude Pitr GoStrings Bson BsonCodec OplogScan OplogFilter OplogReplay OplogCopy OplogCounts MongoArchive OplogArchive.

Definition at_ (t : Z) : string * value := ("ts", BTimestamp (mkTS t 1)).

Definition write (t : Z) (op ns : string) (o : doc) : doc :=
  [at_ t; ("op", BString op); ("ns", BString ns); ("ui", BOther 10 EmptyString); ("o", BDoc o)].

Definition cmd (t : Z) (ns : string) (o : doc) : doc :=
  [at_ t; ("op", BString "c"); ("ns", BString ns); ("o", BDoc o)].

Definition inTxn (d : doc) : doc := d ++ [("lsid", BString "session"); ("txnNumber", BInt64 7)].

Definition demoEntries : list doc :=
  [ write 1 "i" "shop.orders" [("_id", BInt32 1)];
    write 2 "i" "crm.people" [("_id", BInt32 1)];
    inTxn (cmd 3 "admin.$cmd"
      [("applyOps", BArray [BDoc (write 3 "u" "shop.orders" [("_id", BInt32 1)]); BDoc (write 3 "d" "crm.people" [("_id", BInt32 1)])]);
       ("partialTxn", BBool true)]);
    cmd 4 "shop.$cmd" [("createIndexes", BString "orders"); ("name", BString "by_sku"); ("key", BDoc [("sku", BInt32 1)]); ("ns", BString "shop.orders")];
    inTxn (cmd 5 "admin.$cmd" [("applyOps", BArray [BDoc (write 5 "i" "shop.orders" [("_id", BInt32 2)])]); ("count", BInt32 3)]);
    cmd 6 "shop.$cmd" [("renameCollection", BString "shop.orders"); ("to", BString "shop.archive")];
    write 9 "i" "shop.orders" [("_id", BInt32 3)] ].

Definition demoFilter : Filter :=
  mkFilter (Some {["shop" := true]}) None (Some (λ db, db +:+ "_clone")) false (mkTS 9 0).

Definition acceptAll : EntryWriter := λ _ _, None.

Definition encoded (ds : list doc) : list bytes := omap encode ds.
Definition demoStream : Stream := mkStream (concat (encoded demoEntries)) false.

Definition demoEnd : FState := (Copy demoFilter acceptAll demoStream newFState).1.

Lemma demo_copies : Copy demoFilter acceptAll demoStream newFState = (demoEnd, Ok tt).
Proof. rewrite (surjective_pairing (Copy _ _ _ _)). apply (f_equal (pair demoEnd)). vm_compute. reflexivity. Qed.

(** Seven entries are written: the insert, the two entries of the transaction, the
    index, the rename, and the two that move the index; the transaction counts its two
    operations at its commit. *)
Example demo_written :
  omap (λ b, d ← Validate b; Some (stringOf (Lookup d "ns"), commandName d)) (fsOut demoEnd) =
    [("shop_clone.orders", "_id"); ("admin.$cmd", "applyOps"); ("shop_clone.$cmd", "createIndexes");
     ("admin.$cmd", "applyOps"); ("shop_clone.$cmd", "renameCollection"); ("shop_clone.$cmd", "createIndexes");
     ("shop_clone.$cmd", "dropIndexes")] /\
  fsOps demoEnd = 7.
Proof. vm_compute. done. Qed.

(** The index moved by the rename is written with the specification of the source: its
    [ns] field names the source's database, not the clone's, as [trackIndexes] remembers
    the command before it is rewritten. *)
Example moved_index_names_source :
  omap (λ b, d ← Validate b; Lookup2 d "o" "ns") (fsOut demoEnd) = [BString "shop_clone.orders"; BString "shop.orders"].
Proof. vm_compute. done. Qed.

(** Witness of [copy_confined]. *)
Lemma copy_confined_witness :
  fsOut demoEnd <> [] /\
  Forall (λ b, ∃ d ts, Validate b = Some d /\ TimestampOK (Lookup d "ts") = Some ts /\ atLimit demoFilter ts = false /\
    Forall (λ it, Forall (λ t, ∃ db, selected demoFilter db = true /\ systemDB db = false /\ rename demoFilter db = Ok t) (touches it)) (items 9 d))
    (fsOut demoEnd).
Proof.
  split; [vm_compute; done|]. apply (copy_confined demoFilter acceptAll 8 demoStream demoEnd (Ok tt)); [unfold maxApplyOpsDepth; lia|].
  exact demo_copies.
Defined.

(** Witness of [copy_exact]: the three writes of the selected database before the limit. *)
Lemma copy_exact_witness :
  ∃ ds outs, beforeLimit demoFilter demoStream ds /\ wrote (fsOut demoEnd) outs /\
    writesOf (itemsAll 9 outs) = renamedItem demoFilter <$> filter (kept demoFilter) (itemsAll 9 ds).
Proof.
  apply (copy_exact demoFilter acceptAll 8 demoStream demoEnd); [unfold maxApplyOpsDepth; lia|vm_compute; done|exact demo_copies].
Defined.

(** Witness of [copy_counts]. *)
Lemma copy_counts_witness : fsOps demoEnd = 7 /\ ∃ outs, wrote (fsOut demoEnd) outs /\ fsOps demoEnd = i64 (restoreAll 8 outs ∅).1.
Proof.
  split; [vm_compute; done|].
  apply (copy_counts demoFilter acceptAll 8 demoStream demoEnd); [unfold maxApplyOpsDepth; lia|vm_compute; done|exact demo_copies].
Defined.

(** Witness of [scanner_walks]: two entries in writes of seven bytes. *)
Definition inPieces (k : nat) (b : bytes) : list bytes := (fix go (fuel : nat) (b : bytes) : list bytes :=
  match fuel with O => [b] | S fuel => take k b :: go fuel (drop k b) end) (length b / k)%nat b.

Definition discard : ByteWriter := λ _ p, (length p, None).

Lemma scanner_walks_witness :
  let ps := inPieces 7 (concat (encoded (take 2 demoEntries))) in
  walk (concat ps) = (mkWalked 2 (mkOpTime (mkTS 1 1) (-1)) (mkOpTime (mkTS 2 1) (-1)), None) /\
  (walkedOf (writeAll discard ps NewScanner), Finish (writeAll discard ps NewScanner)) = walk (concat ps).
Proof. split; [vm_compute; done|]. apply (scanner_walks discard). intros out p. done. Defined.

(** Witness of [delta_sound]: over the entries before the rename, two documents were
    added to the collection, one of them by the transaction. *)
Definition demoRun : list bytes := encoded (take 5 demoEntries).

Lemma delta_sound_witness : ∃ d, AddAll demoRun (newCountDelta zeroTS) = Ok d /\ Delta d "shop.orders" = (2, EmptyString) /\
  2 = i64 (net "shop.orders" (vsLog (visible 8 (take 5 demoEntries))).*1) /\ vsMissing (visible 8 (take 5 demoEntries)) = false.
Proof.
  destruct (AddAll demoRun (newCountDelta zeroTS)) as [d|e] eqn:HA; [|vm_compute in HA; done].
  assert (Delta d "shop.orders" = (2, EmptyString)) as HD.
  { assert (match AddAll demoRun (newCountDelta zeroTS) with Ok d => Delta d "shop.orders" | Err _ => (0, EmptyString) end = (2, EmptyString)) as HR
      by (vm_compute; reflexivity). by rewrite HA in HR. }
  destruct (delta_sound 8 ltac:(unfold maxApplyOpsDepth; lia) zeroTS demoRun (take 5 demoEntries) d "shop.orders" 2) as (Hk & _ & Hm); [|done|done|].
  - apply mapM_Some. vm_compute. reflexivity.
  - exists d. split_and!; done.
Defined.

(** Witness of [prelude_total] and [archive_roundtrip]: the archive of two entries. *)
Definition demoArchive : result OplogErr bytes := writeArchive discard (mkArchiveOptions "8.0.32" EmptyString) (encoded (take 2 demoEntries)).
Definition demoArchiveBytes : bytes := match demoArchive with Ok b => b | Err _ => [] end.

Lemma codec_writesBSON : writesBSON.
Proof. intros d b (-> & _)%encode_Some. done. Qed.

Lemma archive_roundtrip_witness :
  ∃ pr, ReadArchivePrelude (λ _, None) (λ _, None) (mkStream demoArchiveBytes false) 0 =
    Ok (mkArchivePrelude "0.1" "8.0.32" "mongorescue" [mkArchiveCollection EmptyString "oplog" "collection" EmptyString 0], pr) /\
    readOplog (stBytes (prStream pr)) = Some (encoded (take 2 demoEntries), i64 (crcUpdate 0 (concat (encoded (take 2 demoEntries))))).
Proof.
  apply (archive_roundtrip (λ _, None) (λ _, None) discard (mkArchiveOptions "8.0.32" EmptyString));
    [apply codec_writesBSON|by intros out p|by vm_compute..].
Defined.

