(* ===== verification/Zones.v ===== *)
(** * Time zones of Go's [time] package

    A [time.Location] answers, for an instant, the offset in force and the period it is in
    force; [time.Date] turns a wall clock reading into an instant by guessing the offset
    from the reading itself and correcting the guess once. Instants of a zone are seconds
    (since 1 January of year 1, as everywhere here); the times the callers keep are
    nanoseconds. The zone tables themselves are data of the host: a location is an
    argument, and [ZoneLaws] states what its tables satisfy. *)

From S2P Require Import Prelude Calendar.

Definition daySeconds : Z := 86400.

(** The zone in force over a period: its offset east of UTC and when it starts and ends
    ([None]: no limit). *)
Record Zone : Type := mkZone { zOffset : Z; zStart : option Z; zEnd : option Z }.

(** [Location.lookup]. *)
Definition Location : Type := Z -> Zone.

Definition fixedZone (offset : Z) : Location := λ _, mkZone offset None None.
Definition UTC : Location := fixedZone 0.

(** [s] is before the limit [l], when there is one. *)
Definition beforeLimit (s : Z) (l : option Z) : bool := match l with Some l => s <? l | None => true end.
Definition fromLimit (s : Z) (l : option Z) : bool := match l with Some l => l <=? s | None => true end.
Definition inZone (z : Zone) (s : Z) : bool := fromLimit s (zStart z) && beforeLimit s (zEnd z).

(** ** Fields of a time in a location *)

Definition secOf (t : Z) : Z := t / second.
Definition localSec (loc : Location) (s : Z) : Z := s + zOffset (loc s).
Definition localDay (loc : Location) (t : Z) : Z := localSec loc (secOf t) / daySeconds.
Definition localDate (loc : Location) (t : Z) : Z * Z * Z := civil (localDay loc t).
Definition Hour (loc : Location) (t : Z) : Z := localSec loc (secOf t) mod daySeconds / 3600.
Definition Minute (loc : Location) (t : Z) : Z := localSec loc (secOf t) mod 3600 / 60.
(** Sunday is 0; day 0 of the calendar was a Monday. *)
Definition Weekday (loc : Location) (t : Z) : Z := (localDay loc t + 1) mod 7.

(** [Time.ZoneBounds]: when the zone of [t] starts and ends ([None] for the zero time). *)
Definition ZoneBounds (loc : Location) (t : Z) : option Z * option Z :=
  let z := loc (secOf t) in ((λ s, s * second) <$> zStart z, (λ s, s * second) <$> zEnd z).

(** The second [time.Date] finds for the wall clock reading [wall] (as seconds). *)
Definition resolveWall (loc : Location) (wall : Z) : Z :=
  let z := loc wall in
  if zOffset z =? 0 then wall
  else
    let utc := wall - zOffset z in
    wall - (if inZone z utc then zOffset z else zOffset (loc utc)).

(** [time.Date(y, mo, d, h, m, 0, 0, loc)]: a day, hour or minute out of its range
    overflows into the next. *)
Definition wallSec (y mo d h m : Z) : Z := dateDays y mo d * daySeconds + h * 3600 + m * 60.
Definition Date (y mo d h m : Z) (loc : Location) : Z := resolveWall loc (wallSec y mo d h m) * second.

(** ** What a zone table satisfies *)

(** The period of a zone contains the instants it is looked up for and the table is the
    same over it; offsets are whole minutes below a day and a period lasts two days. *)
Class ZoneLaws (loc : Location) : Prop := {
  zone_in s : inZone (loc s) s = true;
  zone_same s s' : inZone (loc s) s' = true -> loc s' = loc s;
  zone_minutes s : zOffset (loc s) mod 60 = 0;
  zone_offset s : - daySeconds < zOffset (loc s) < daySeconds;
  zone_long s a b : zStart (loc s) = Some a -> zEnd (loc s) = Some b -> 2 * daySeconds <= b - a
}.

#[export] Instance fixedZone_laws o : o mod 60 = 0 -> - daySeconds < o < daySeconds -> ZoneLaws (fixedZone o).
Proof. by split. Qed.

#[export] Instance UTC_laws : ZoneLaws UTC.
Proof. apply fixedZone_laws; unfold daySeconds; [done|lia]. Qed.

(** A zone whose offset changes once, at [T]. *)
Definition stepZone (before after T : Z) : Location := λ s,
  if s <? T then mkZone before None (Some T) else mkZone after (Some T) None.

Lemma stepZone_laws a b T :
  a mod 60 = 0 -> b mod 60 = 0 -> - daySeconds < a < daySeconds -> - daySeconds < b < daySeconds -> ZoneLaws (stepZone a b T).
Proof.
  intros Ha Hb Ra Rb. unfold stepZone. split; intros s; try intros s'; unfold inZone, fromLimit, beforeLimit.
  - destruct (s <? T) eqn:E; cbn [zStart zEnd]; [exact E|]. rewrite andb_true_r. apply Z.leb_le. bool_cases. lia.
  - destruct (s <? T) eqn:E; cbn [zStart zEnd]; [intros H; cbn in H; by rewrite H|]. rewrite andb_true_r. intros H%Z.leb_le.
    destruct (s' <? T) eqn:E'; [bool_cases; lia|done].
  - by destruct (s <? T).
  - by destruct (s <? T).
  - by destruct (s <? T).
Qed.

(** ** Wall clock readings *)

Lemma civil_dateDays n y m d : civil n = (y, m, d) -> dateDays y m d = n.
Proof. intros H%civil_spec. tauto. Qed.

Lemma dateDays_add y m d k : dateDays y m (d + k) = dateDays y m d + k.
Proof. unfold dateDays. lia. Qed.

Lemma secOf_mul s : secOf (s * second) = s.
Proof. unfold secOf. apply Z.div_mul. done. Qed.

Lemma resolveWall_UTC wall : resolveWall UTC wall = wall.
Proof. reflexivity. Qed.

Lemma resolveWall_fixed o wall : resolveWall (fixedZone o) wall = wall - o.
Proof. unfold resolveWall, fixedZone. cbn. destruct (o =? 0) eqn:E; bool_cases; lia. Qed.

(** The wall clock at a time, cut to its minute. *)
Lemma wallSec_clock loc t y m d :
  localDate loc t = (y, m, d) ->
  wallSec y m d (Hour loc t) (Minute loc t) = localSec loc (secOf t) / 60 * 60.
Proof.
  intros Hc%civil_dateDays. unfold wallSec, Hour, Minute, localDay, daySeconds in *. rewrite Hc.
  generalize (localSec loc (secOf t)). intros x. clear. Z.div_mod_to_equations. lia.
Qed.

Section Resolve.
Context (loc : Location) `{!ZoneLaws loc}.

Lemma zone_in_bounds s : (∀ a, zStart (loc s) = Some a -> a <= s) /\ (∀ b, zEnd (loc s) = Some b -> s < b).
Proof.
  pose proof (zone_in s) as H. unfold inZone, fromLimit, beforeLimit in H. apply andb_true_iff in H as [H1 H2].
  split; intros x E; rewrite E in *; bool_cases; lia.
Qed.

Lemma inZone_intro s s' :
  (∀ a, zStart (loc s) = Some a -> a <= s') -> (∀ b, zEnd (loc s) = Some b -> s' < b) -> loc s' = loc s.
Proof.
  intros Ha Hb. apply zone_same. unfold inZone, fromLimit, beforeLimit.
  destruct (zStart (loc s)), (zEnd (loc s)); rewrite ?andb_true_r, ?andb_true_iff, ?Z.leb_le, ?Z.ltb_lt; auto.
Qed.

(** The zone before one that starts at [T] ends there. *)
Lemma zone_before s T : zStart (loc s) = Some T -> zEnd (loc (T - 1)) = Some T.
Proof.
  intros HT. pose proof (zone_in_bounds s) as [Hs1 Hs2]. specialize (Hs1 _ HT).
  assert (loc T = loc s) as ET by (apply inZone_intro; intros x Hx; [simplify_eq; lia|apply Hs2 in Hx; lia]).
  destruct (zone_in_bounds (T - 1)) as [Hp1 Hp2]. destruct (zEnd (loc (T - 1))) as [e|] eqn:He.
  - specialize (Hp2 _ eq_refl). destruct (decide (e = T)) as [->|Hne]; [done|].
    assert (loc T = loc (T - 1)) as E2 by (apply inZone_intro; intros x Hx; [apply Hp1 in Hx; lia|rewrite He in Hx; simplify_eq; lia]).
    rewrite <- E2, ET in Hp1. specialize (Hp1 _ HT). lia.
  - assert (loc T = loc (T - 1)) as E2 by (apply inZone_intro; intros x Hx; [apply Hp1 in Hx; lia|congruence]).
    rewrite <- E2, ET in Hp1. specialize (Hp1 _ HT). lia.
Qed.

(** The zone after one that ends at [T] starts there. *)
Lemma zone_after s T : zEnd (loc s) = Some T -> zStart (loc T) = Some T.
Proof.
  intros HT. pose proof (zone_in_bounds s) as [Hs1 Hs2]. specialize (Hs2 _ HT).
  destruct (zone_in_bounds T) as [Hp1 Hp2]. destruct (zStart (loc T)) as [a|] eqn:Ha.
  - specialize (Hp1 _ eq_refl). destruct (decide (a = T)) as [->|Hne]; [done|]. exfalso.
    assert (∀ x, a <= x -> x <= T -> loc x = loc T) as Hback.
    { intros x Hx Hx'. apply inZone_intro; intros y Hy; [simplify_eq; lia|apply Hp2 in Hy; lia]. }
    assert (loc (Z.max a s) = loc s) as Es.
    { destruct (Z.max_spec a s) as [[? ->]|[? ->]]; [done|]. apply inZone_intro; intros y Hy; [apply Hs1 in Hy; lia|].
      rewrite HT in Hy. simplify_eq. lia. }
    rewrite Hback in Es by lia. rewrite Es in Hp2. specialize (Hp2 _ HT). lia.
  - assert (loc s = loc T) as E by (apply inZone_intro; intros y Hy; [simplify_eq; lia|apply Hp2 in Hy; lia]).
    rewrite E in HT. apply Hp2 in HT. lia.
Qed.

(** The instant [r] at which the wall clock reaches [wall]: it shows [wall], or it jumps
    over [wall] at [r]. *)
Definition reaches (wall r : Z) : Prop :=
  localSec loc r = wall \/
  (zStart (loc r) = Some r /\ r + zOffset (loc (r - 1)) <= wall /\ wall < localSec loc r).

(** What [time.Date] finds: the reading itself, or the other side of the jump over it. *)
Lemma resolveWall_spec wall :
  let t := resolveWall loc wall in
  localSec loc t = wall \/
  (∃ T, zStart (loc t) = Some T /\ wall < localSec loc t /\ reaches wall T) \/
  (∃ T, zEnd (loc t) = Some T /\ localSec loc t < wall /\ reaches wall T).
Proof.
  cbv zeta. unfold resolveWall. destruct (zone_in_bounds wall) as [W1 W2].
  destruct (zOffset (loc wall) =? 0) eqn:E0; bool_cases; [left; unfold localSec; lia|].
  set (o1 := zOffset (loc wall)) in *. pose proof (zone_offset wall) as B1. fold o1 in B1.
  destruct (inZone (loc wall) (wall - o1)) eqn:Hin.
  { left. unfold localSec. rewrite (zone_same _ _ Hin). fold o1. lia. }
  set (u := wall - o1) in *. pose proof (zone_offset u) as B2. set (o2 := zOffset (loc u)) in *.
  unfold inZone in Hin. apply andb_false_iff in Hin as [Hin|Hin].
  - unfold fromLimit in Hin. destruct (zStart (loc wall)) as [T|] eqn:HT; [|done]. bool_cases.
    pose proof (zone_before _ _ HT) as HP. destruct (zone_in_bounds (T - 1)) as [P1 P2].
    assert (∀ x, T - 2 * daySeconds <= x -> x < T -> loc x = loc (T - 1)) as HL.
    { intros x Hx Hx'. apply inZone_intro; intros y Hy; [pose proof (zone_long _ _ _ Hy HP); lia|].
      rewrite HP in Hy. simplify_eq. lia. }
    assert (∀ x, T <= x -> x < T + 2 * daySeconds -> loc x = loc wall) as HR.
    { intros x Hx Hx'. apply inZone_intro; intros y Hy; [simplify_eq; lia|].
      pose proof (zone_long _ _ _ HT Hy). lia. }
    specialize (W1 _ eq_refl). assert (loc u = loc (T - 1)) as Eu by (apply HL; lia).
    destruct (decide (wall - o2 < T)) as [Hlt|Hge].
    + left. unfold localSec. rewrite (HL (wall - o2)) by lia. rewrite <- Eu. fold o2. lia.
    + right. left. exists T. rewrite (HR (wall - o2)) by lia. split; [done|].
      unfold localSec. rewrite (HR (wall - o2)) by lia. fold o1. split; [lia|]. right.
      unfold localSec. rewrite (HR T) by (unfold daySeconds; lia). rewrite <- Eu. fold o1 o2. split_and!; [done|lia|lia].
  - unfold beforeLimit in Hin. destruct (zEnd (loc wall)) as [T|] eqn:HT; [|done]. bool_cases.
    pose proof (zone_after _ _ HT) as HP.
    assert (∀ x, T <= x -> x < T + 2 * daySeconds -> loc x = loc T) as HR.
    { intros x Hx Hx'. apply inZone_intro; intros y Hy; [simplify_eq; lia|]. pose proof (zone_long _ _ _ HP Hy). lia. }
    assert (∀ x, T - 2 * daySeconds <= x -> x < T -> loc x = loc wall) as HL.
    { intros x Hx Hx'. apply inZone_intro; intros y Hy; [pose proof (zone_long _ _ _ Hy HT); lia|].
      rewrite HT in Hy. simplify_eq. lia. }
    specialize (W2 _ eq_refl). assert (loc u = loc T) as Eu by (apply HR; lia).
    destruct (decide (wall - o2 < T)) as [Hlt|Hge].
    + right. right. exists T. rewrite (HL (wall - o2)) by lia. split; [done|].
      unfold localSec. rewrite (HL (wall - o2)) by lia. fold o1. split; [lia|]. right.
      unfold localSec. rewrite (HL (T - 1)) by (unfold daySeconds; lia). rewrite <- Eu. fold o1 o2. split_and!; [by rewrite Eu|lia|lia].
    + left. unfold localSec. rewrite (HR (wall - o2)) by lia. rewrite <- Eu. fold o2. lia.
Qed.

(** Wall clocks of whole minutes stay whole minutes. *)
Lemma localSec_minutes s : localSec loc s mod 60 = s mod 60.
Proof. unfold localSec. pose proof (zone_minutes s) as H. revert H. generalize (zOffset (loc s)). intros o H. Z.div_mod_to_equations. lia. Qed.

Lemma resolveWall_minutes wall : wall mod 60 = 0 -> resolveWall loc wall mod 60 = 0.
Proof.
  intros H. unfold resolveWall. destruct (_ =? 0); [done|].
  assert (∀ s, (wall - zOffset (loc s)) mod 60 = 0) as Hm.
  { intros s. pose proof (zone_minutes s) as H2. revert H2. generalize (zOffset (loc s)). intros o H2. Z.div_mod_to_equations. lia. }
  destruct (inZone _ _); apply Hm.
Qed.
End Resolve.
