(* ===== verification/BackupWindow.v ===== *)
(** * Backup windows ([internal/models/window.go])

    When the scheduled runs of a job may start: the days a window opens on, its wall
    clock times in a time zone, and the occurrence that contains an instant. The zone
    tables are an argument ([LoadLocation]). *)

From S2P Require Import Prelude GoStrings Calendar Zones Backup.
From Stdlib Require Import Ascii.

Definition WindowDays : list string := ["mon"; "tue"; "wed"; "thu"; "fri"; "sat"; "sun"].

Record BackupWindow : Type := mkWindow {
  wTimezone : string;
  wDays : list string;
  wStart : string;
  wEnd : string;
  wCancelAtEnd : bool
}.

#[export] Instance BackupWindow_eq_dec : EqDecision BackupWindow.
Proof. solve_decision. Defined.

(** [BackupWindow.IsZero] ([None] is the nil window). *)
Definition windowIsZero (w : option BackupWindow) : bool :=
  match w with
  | None => true
  | Some w => bool_decide (wTimezone w = "") && bool_decide (wDays w = []) && bool_decide (wStart w = "")
              && bool_decide (wEnd w = "") && negb (wCancelAtEnd w)
  end.

(** ** Clock times *)

Fixpoint digitsValue (acc : Z) (s : string) : option Z :=
  match s with
  | EmptyString => Some acc
  | String a s => v ← digitValue a; digitsValue (10 * acc + v) s
  end.

(** [strconv.Atoi] on the two-character strings it is called with: an optional sign and
    at least one digit. *)
Definition Atoi (s : string) : option Z :=
  match s with
  | EmptyString => None
  | String a r =>
      if byteIs 45 a then (if bool_decide (r = EmptyString) then None else Z.opp <$> digitsValue 0 r)
      else if byteIs 43 a then (if bool_decide (r = EmptyString) then None else digitsValue 0 r)
      else digitsValue 0 s
  end.

Definition clockMinutes (s : string) (allow24 : bool) : option Z :=
  let '(hh, mm, ok) := Cut ":"%char s in
  if negb ok || negb (Nat.eqb (String.length hh) 2) || negb (Nat.eqb (String.length mm) 2) then None
  else match Atoi hh, Atoi mm with
  | Some h, Some m =>
      if (h <? 0) || (m <? 0) || (59 <? m) then None
      else if h <? 24 then Some (h * 60 + m)
      else if (h =? 24) && (m =? 0) && allow24 then Some (24 * 60)
      else None
  | _, _ => None
  end.

(** [strings.ToLower] where it can yield a day name: the ASCII letters, and the two other
    runes whose lower case is an ASCII letter (U+0130 and U+212A). *)
Fixpoint ToLower (s : string) : string :=
  match s with
  | EmptyString => EmptyString
  | String a s1 =>
      match s1 with
      | String b s2 =>
          if byteIs 196 a && byteIs 176 b then String "i" (ToLower s2)
          else match s2 with
          | String c s3 =>
              if byteIs 226 a && byteIs 132 b && byteIs 170 c then String "k" (ToLower s3)
              else String (lowerByte a) (ToLower s1)
          | EmptyString => String (lowerByte a) (ToLower s1)
          end
      | EmptyString => String (lowerByte a) (ToLower s1)
      end
  end.

(** [(y, mo, d)] at [minutes] after midnight in [loc] ([wallTime]). *)
Definition wallTime (y mo d minutes : Z) (loc : Location) : Z :=
  let t := Date y mo d (minutes / 60) (minutes mod 60) loc in
  let want := Date y mo d (minutes / 60) (minutes mod 60) UTC in
  let '(ly, lmo, ld) := localDate loc t in
  let got := Date ly lmo ld (Hour loc t) (Minute loc t) UTC in
  let '(zoneStart, zoneEnd) := ZoneBounds loc t in
  match got <? want, zoneEnd, want <? got, zoneStart with
  | true, Some e, _, _ => e
  | _, _, true, Some s => s
  | _, _, _, _ => t
  end.

(** Whether the window opens on weekday [d] (Sunday 0). *)
Definition opensOn (w : BackupWindow) (d : Z) : bool :=
  match wDays w with
  | [] => true
  | _ => bool_decide (default "" (WindowDays !! Z.to_nat ((d + 6) mod 7)) ∈ wDays w)
  end.

(** The window that opens on the day of [day] in [loc]. *)
Definition occurrence (w : BackupWindow) (day : Z) (loc : Location) : Z * Z :=
  let sm := default 0 (clockMinutes (wStart w) false) in
  let em := default 0 (clockMinutes (wEnd w) true) in
  let '(y, mo, d) := localDate loc day in
  let endDay := if em <=? sm then d + 1 else d in
  (wallTime y mo d sm loc, wallTime y mo endDay em loc).

Inductive WindowErr : Type := UnknownTimezone | UnknownDay | BadStart | BadEnd | EmptyWindow.

Local Open Scope rescue_scope.

Section Windows.
Variable LoadLocation : string -> option Location.

Definition loadZone (name : string) : option Location :=
  if bool_decide (name = "") || bool_decide (name = "UTC") then Some UTC
  else if EqualFold name "local" then None
  else LoadLocation name.

Definition location (w : BackupWindow) : Location := default UTC (loadZone (wTimezone w)).

(** The occurrence that opened [offset] days after the day of [t], when it contains [t]. *)
Definition openAt (w : BackupWindow) (loc : Location) (t offset : Z) : option (Z * Z) :=
  let '(y, mo, d) := localDate loc t in
  let day := Date y mo (d + offset) 12 0 loc in
  if opensOn w (Weekday loc day) then
    let '(s, e) := occurrence w day loc in
    if (s <=? t) && (t <? e) then Some (s, e) else None
  else None.

(** [BackupWindow.Open]; the nil window is never open. *)
Definition Open (w : option BackupWindow) (t : Z) : option (Z * Z) :=
  match w with
  | None => None
  | Some w =>
      let loc := location w in
      match openAt w loc t (-1) with
      | Some o => Some o
      | None => openAt w loc t 0
      end
  end.

Definition Contains (w : option BackupWindow) (t : Z) : bool :=
  match w with None => true | Some _ => bool_decide (is_Some (Open w t)) end.

(** The loop of [Normalize] over the days: the set of days seen. *)
Fixpoint seenDays (days : list string) (seen : gset string) : result WindowErr (gset string) :=
  match days with
  | [] => Ok seen
  | d :: days =>
      let d := ToLower (TrimSpace d) in
      if bool_decide (d ∈ WindowDays) then seenDays days ({[d]} ∪ seen) else Err UnknownDay
  end.

(** [BackupWindow.Normalize]; the callers refuse the window on an error. *)
Definition windowNormalize (w : BackupWindow) : result WindowErr BackupWindow :=
  let tz := TrimSpace (wTimezone w) in
  let st := TrimSpace (wStart w) in
  let en := TrimSpace (wEnd w) in
  match loadZone tz with
  | None => Err UnknownTimezone
  | Some _ =>
      seen <-! seenDays (wDays w) ∅;
      let days := filter (λ d, d ∈ seen) WindowDays in
      let days := if Nat.eqb (length days) (length WindowDays) then [] else days in
      match clockMinutes st false, clockMinutes en true with
      | None, _ => Err BadStart
      | Some _, None => Err BadEnd
      | Some start, Some end_ =>
          if start =? end_ then Err EmptyWindow else Ok (mkWindow tz days st en (wCancelAtEnd w))
      end
  end.

(** What a normalized window satisfies. *)
Record WellFormed (w : BackupWindow) : Prop := mkWellFormed {
  wf_zone : is_Some (loadZone (wTimezone w));
  wf_days : wDays w `sublist_of` WindowDays /\ wDays w <> WindowDays;
  wf_times : ∃ s e, clockMinutes (wStart w) false = Some s /\ clockMinutes (wEnd w) true = Some e /\
                    0 <= s < 24 * 60 /\ 0 <= e <= 24 * 60 /\ s <> e
}.
End Windows.

(** [BackupWindow.String]. *)
Definition windowString (w : option BackupWindow) : string :=
  match w with
  | None => ""
  | Some w =>
      let days := match wDays w with [] => "daily" | _ => String.concat "," (wDays w) end in
      let tz := if bool_decide (wTimezone w = "") then "UTC" else wTimezone w in
      days +:+ " " +:+ wStart w +:+ "-" +:+ wEnd w +:+ " " +:+ tz
  end.

(** ** Clock times and days *)

Lemma clockMinutes_range s a n : clockMinutes s a = Some n -> 0 <= n <= 24 * 60 /\ (a = false -> n < 24 * 60).
Proof.
  unfold clockMinutes. destruct (Cut _ s) as [[hh mm] ok]. destruct (_ || _); [done|].
  destruct (Atoi hh) as [h|]; [|done]. destruct (Atoi mm) as [m|]; [|done].
  destruct (_ || _) eqn:E; [done|]. apply orb_false_iff in E as [E E3]. apply orb_false_iff in E as [E1 E2]. bool_cases.
  destruct (h <? 24) eqn:E4; bool_cases; [intros [= <-]; lia|].
  destruct (_ && _) eqn:E5; [|done]. intros [= <-]. apply andb_true_iff in E5 as [_ E5]. split; [lia|congruence].
Qed.

Lemma WindowDays_lower d : d ∈ WindowDays -> ToLower (TrimSpace d) = d.
Proof. intros H. repeat (apply list_elem_of_In in H; destruct H as [<-|H]; [reflexivity|apply list_elem_of_In in H]). set_solver. Qed.

Lemma seenDays_known days : ∀ seen, (∀ d, d ∈ days -> d ∈ WindowDays) -> seenDays days seen = Ok (list_to_set days ∪ seen).
Proof.
  induction days as [|d days IH]; intros seen Hd; cbn [seenDays list_to_set]; [f_equal; set_solver|].
  rewrite WindowDays_lower by set_solver. rewrite bool_decide_true by set_solver. rewrite IH by set_solver. f_equal. by rewrite (assoc_L (∪)), (comm_L (∪) {[d]}).
Qed.

Section Normalized.
Variable LoadLocation : string -> option Location.

(** What [Normalize] returns, when it returns a window. *)
Lemma windowNormalize_inv w w' :
  windowNormalize LoadLocation w = Ok w' ->
  ∃ seen s e,
    wTimezone w' = TrimSpace (wTimezone w) /\ wStart w' = TrimSpace (wStart w) /\ wEnd w' = TrimSpace (wEnd w) /\
    wCancelAtEnd w' = wCancelAtEnd w /\
    is_Some (loadZone LoadLocation (wTimezone w')) /\ seenDays (wDays w) ∅ = Ok seen /\
    wDays w' = (let days := filter (λ d, d ∈ seen) WindowDays in
                if Nat.eqb (length days) (length WindowDays) then [] else days) /\
    clockMinutes (wStart w') false = Some s /\ clockMinutes (wEnd w') true = Some e /\ s <> e.
Proof.
  unfold windowNormalize. destruct (loadZone _ _) as [loc|] eqn:Hz; [|done].
  destruct (seenDays _ _) as [seen|] eqn:Hs; [|done].
  destruct (clockMinutes (TrimSpace (wStart w)) false) as [s|] eqn:H1; [|done].
  destruct (clockMinutes (TrimSpace (wEnd w)) true) as [e|] eqn:H2; [|done].
  destruct (s =? e) eqn:E; [done|]. intros [= <-]. bool_cases. exists seen, s, e. cbn [wTimezone wDays wStart wEnd wCancelAtEnd].
  split_and!; eauto.
Qed.

Lemma windowNormalize_days (seen : gset string) :
  let days := filter (λ d, d ∈ seen) WindowDays in
  let days := if Nat.eqb (length days) (length WindowDays) then [] else days in
  days `sublist_of` WindowDays /\ days <> WindowDays.
Proof.
  cbv zeta. destruct (Nat.eqb _ _) eqn:E; [split; [apply sublist_nil_l|done]|].
  split; [apply sublist_filter|]. intros H. rewrite H in E. by vm_compute in E.
Qed.

(** [C34] [Normalize] accepts only well-formed windows: a zone that loads, known days in
    order and not all seven, a start within the day and an end within 24:00 that differs
    from it. *)
Theorem window_normalized w w' : windowNormalize LoadLocation w = Ok w' -> WellFormed LoadLocation w'.
Proof.
  intros (seen & s & e & _ & _ & _ & _ & Hz & _ & Hd & Hs & He & Hne)%windowNormalize_inv.
  split; [done|rewrite Hd; apply windowNormalize_days|].
  exists s, e. pose proof (clockMinutes_range _ _ _ Hs) as [? Hs']. pose proof (clockMinutes_range _ _ _ He) as [? _].
  specialize (Hs' eq_refl). split_and!; auto; lia.
Qed.

(** Normalizing twice changes nothing. *)
Lemma windowNormalize_idem w w' : windowNormalize LoadLocation w = Ok w' -> windowNormalize LoadLocation w' = Ok w'.
Proof.
  intros (seen & s & e & Htz & Hst & Hen & _ & [loc Hz] & _ & Hd & Hs & He & Hne)%windowNormalize_inv.
  unfold windowNormalize. rewrite Htz, Hst, Hen, !TrimSpace_idem, <- Htz, <- Hst, <- Hen, Hz, Hs, He.
  rewrite (proj2 (Z.eqb_neq s e) Hne). pose proof (windowNormalize_days seen) as [Hsub _]. cbv zeta in Hsub, Hd.
  rewrite <- Hd in Hsub. rewrite seenDays_known by (intros d Hin; by eapply elem_of_sublist).
  assert (filter (λ d, d ∈ (list_to_set (wDays w') ∪ ∅ : gset string)) WindowDays = wDays w') as Hf.
  { rewrite Hd. destruct (Nat.eqb _ _) eqn:E; [vm_compute; reflexivity|].
    apply list_filter_agree. intros d Hin. rewrite elem_of_union, elem_of_list_to_set, list_elem_of_filter. split; [intros [[? ?]|[]%not_elem_of_empty]; done|by left]. }
  rewrite Hf. assert (Nat.eqb (length (wDays w')) (length WindowDays) = false) as ->.
  { rewrite Hd. destruct (Nat.eqb _ _) eqn:E; [done|exact E]. }
  by destruct w'.
Qed.
End Normalized.

(** ** Wall clock times in a zone *)

Lemma wallSec_minutes y mo d m : wallSec y mo d (m / 60) (m mod 60) = dateDays y mo d * daySeconds + m * 60.
Proof. unfold wallSec. Z.div_mod_to_equations. lia. Qed.

(** [wallTime] is the instant the wall clock reaches the reading. *)
Lemma wallTime_reaches loc `{!ZoneLaws loc} y mo d m :
  let r := secOf (wallTime y mo d m loc) in
  wallTime y mo d m loc = r * second /\ reaches loc (dateDays y mo d * daySeconds + m * 60) r.
Proof.
  cbv zeta. unfold wallTime, Date. rewrite !wallSec_minutes. set (wall := dateDays y mo d * daySeconds + m * 60).
  assert (wall mod 60 = 0) as Hw by (subst wall; unfold daySeconds; Z.div_mod_to_equations; lia).
  pose proof (resolveWall_spec loc wall) as Hspec. cbv zeta in Hspec.
  pose proof (resolveWall_minutes loc wall Hw) as Hm. set (r := resolveWall loc wall) in *.
  destruct (localDate loc (r * second)) as [[ly lmo] ld] eqn:Hl. rewrite (wallSec_clock _ _ _ _ _ Hl), !resolveWall_UTC.
  unfold ZoneBounds. rewrite secOf_mul.
  assert (localSec loc r / 60 * 60 = localSec loc r) as ->.
  { pose proof (localSec_minutes loc r) as E. rewrite Hm in E. Z.div_mod_to_equations. lia. }
  assert (∀ a b, (a * second <? b * second) = (a <? b)) as Hlt.
  { intros a b. unfold second, millisecond, nanosecond. destruct (a <? b) eqn:E; bool_cases; [apply Z.ltb_lt|apply Z.ltb_ge]; lia. }
  rewrite !Hlt. destruct Hspec as [E|[(T & HT & Hs & Hr)|(T & HT & Hs & Hr)]].
  - rewrite E, Z.ltb_irrefl. destruct (zEnd (loc r)), (zStart (loc r)); cbn [fmap option_fmap option_map]; rewrite secOf_mul; (split; [done|by left]).
  - rewrite (proj2 (Z.ltb_ge _ _)) by lia. rewrite (proj2 (Z.ltb_lt _ _)) by lia. rewrite HT.
    destruct (zEnd (loc r)); cbn [fmap option_fmap option_map]; rewrite secOf_mul; (split; [done|exact Hr]).
  - rewrite (proj2 (Z.ltb_lt (localSec loc r) wall)) by lia. rewrite HT.
    cbn [fmap option_fmap option_map]. rewrite secOf_mul. split; [done|exact Hr].
Qed.

Lemma wallTime_fixed o y mo d m :
  wallTime y mo d m (fixedZone o) = (dateDays y mo d * daySeconds + m * 60 - o) * second.
Proof.
  unfold wallTime, Date, ZoneBounds. cbn [zStart zEnd fixedZone]. destruct (localDate _ _) as [[ly lmo] ld].
  cbn [fmap option_fmap option_map]. rewrite wallSec_minutes, resolveWall_fixed.
  repeat case_match; done.
Qed.

(** ** What [Open] returns *)

(** Whether the window opens on calendar day [n] (day 0 was a Monday). *)
Definition opensDay (w : BackupWindow) (n : Z) : bool :=
  match wDays w with [] => true | _ => bool_decide (default "" (WindowDays !! Z.to_nat (n mod 7)) ∈ wDays w) end.

Lemma opensOn_day w n : opensOn w ((n + 1) mod 7) = opensDay w n.
Proof.
  unfold opensOn, opensDay. replace (((n + 1) mod 7 + 6) mod 7) with (n mod 7) by (Z.div_mod_to_equations; lia). done.
Qed.

Definition startMinute (w : BackupWindow) : Z := default 0 (clockMinutes (wStart w) false).
Definition endMinute (w : BackupWindow) : Z := default 0 (clockMinutes (wEnd w) true).

(** The wall clock readings at which the occurrence that opens on day [n] starts and ends. *)
Definition opensAt (w : BackupWindow) (n : Z) : Z := n * daySeconds + startMinute w * 60.
Definition closesAt (w : BackupWindow) (n : Z) : Z :=
  (if endMinute w <=? startMinute w then n + 1 else n) * daySeconds + endMinute w * 60.

Lemma openAt_inv w loc t k s e :
  openAt w loc t k = Some (s, e) ->
  s <= t < e /\ ∃ day, opensDay w (localDay loc day) = true /\ occurrence w day loc = (s, e).
Proof.
  unfold openAt. destruct (localDate loc t) as [[y mo] d]. destruct (opensOn _ _) eqn:Ho; [|done].
  destruct (occurrence _ _ _) as [s' e'] eqn:Hoc. destruct (_ && _) eqn:Hin; [|done]. intros [= -> ->].
  apply andb_true_iff in Hin as [H1 H2]. bool_cases. split; [lia|]. eexists. split; [|exact Hoc].
  rewrite <- Ho. symmetry. apply opensOn_day.
Qed.

Lemma occurrence_spec w day loc `{!ZoneLaws loc} s e :
  occurrence w day loc = (s, e) ->
  s = secOf s * second /\ e = secOf e * second /\
  reaches loc (opensAt w (localDay loc day)) (secOf s) /\ reaches loc (closesAt w (localDay loc day)) (secOf e).
Proof.
  unfold occurrence, opensAt, closesAt. fold (startMinute w) (endMinute w).
  destruct (localDate loc day) as [[y mo] d] eqn:Hd. apply civil_dateDays in Hd. intros [= <- <-].
  destruct (wallTime_reaches loc y mo d (startMinute w)) as [E1 R1].
  destruct (wallTime_reaches loc y mo (if endMinute w <=? startMinute w then d + 1 else d) (endMinute w)) as [E2 R2].
  split_and!; [exact E1|exact E2|by rewrite <- Hd|].
  assert (dateDays y mo (if endMinute w <=? startMinute w then d + 1 else d) =
          (if endMinute w <=? startMinute w then localDay loc day + 1 else localDay loc day)) as E.
  { rewrite <- Hd. destruct (_ <=? _); [apply dateDays_add|done]. }
  rewrite E in R2. exact R2.
Qed.

Section Opening.
Variable LoadLocation : string -> option Location.

(** An open window is read by the wall clock of its zone: the occurrence [Open]
    returns contains [t]; it starts when the wall clock reaches the window's start on a
    day the window opens on and ends when the wall clock reaches its end, on that day or
    the next. Where a change of the offset skips the reading, the occurrence starts or
    ends at the change: never before the reading. *)
Theorem open_by_wall_clock w t s e :
  ZoneLaws (location LoadLocation w) ->
  Open LoadLocation (Some w) t = Some (s, e) ->
  s <= t < e /\ ∃ n, opensDay w n = true /\
    reaches (location LoadLocation w) (opensAt w n) (secOf s) /\
    reaches (location LoadLocation w) (closesAt w n) (secOf e).
Proof.
  intros Hl Ho. assert (∃ k, openAt w (location LoadLocation w) t k = Some (s, e)) as [k Hk].
  { cbn [Open] in Ho. destruct (openAt w _ t (-1)) eqn:E; [exists (-1); congruence|by exists 0]. }
  apply openAt_inv in Hk as (Ht & day & Hd & Hoc). split; [done|].
  apply occurrence_spec in Hoc as (_ & _ & R1 & R2); [|done]. eauto.
Qed.

(** The reference in a zone of fixed offset [o]: the local day and time of day decide. *)
Definition openRef (w : BackupWindow) (o t : Z) : bool :=
  let n := (secOf t + o) / daySeconds in
  let m := t + o * second - n * day in
  if startMinute w <? endMinute w
  then opensDay w n && (startMinute w * minute <=? m) && (m <? endMinute w * minute)
  else (opensDay w n && (startMinute w * minute <=? m)) || (opensDay w (n - 1) && (m <? endMinute w * minute)).

Lemma openAt_fixed w o t k :
  let n := (secOf t + o) / daySeconds + k in
  openAt w (fixedZone o) t k =
  if opensDay w n && ((opensAt w n - o) * second <=? t) && (t <? (closesAt w n - o) * second)
  then Some ((opensAt w n - o) * second, (closesAt w n - o) * second) else None.
Proof.
  cbv zeta. unfold openAt. destruct (localDate _ t) as [[y mo] d] eqn:Hd. apply civil_dateDays in Hd.
  set (n := (secOf t + o) / daySeconds + k).
  assert (localDay (fixedZone o) (Date y mo (d + k) 12 0 (fixedZone o)) = n) as Hday.
  { unfold localDay, Date, localSec. rewrite secOf_mul, resolveWall_fixed. unfold wallSec. rewrite dateDays_add, Hd.
    change (localDay (fixedZone o) t) with ((secOf t + o) / daySeconds). cbn [fixedZone zOffset]. subst n.
    unfold daySeconds. Z.div_mod_to_equations. lia. }
  unfold Weekday. rewrite Hday, opensOn_day. destruct (opensDay w n); [|done]. cbn [andb].
  unfold occurrence. destruct (localDate _ (Date _ _ _ _ _ _)) as [[y' mo'] d'] eqn:Hd'. apply civil_dateDays in Hd'.
  rewrite Hday in Hd'. rewrite !wallTime_fixed. fold (startMinute w) (endMinute w).
  assert (dateDays y' mo' (if endMinute w <=? startMinute w then d' + 1 else d') =
          (if endMinute w <=? startMinute w then n + 1 else n)) as E.
  { rewrite <- Hd'. destruct (_ <=? _); [apply dateDays_add|done]. }
  rewrite E, Hd'. reflexivity.
Qed.

(** In a zone of fixed offset (UTC, Istanbul) [Contains] is the plain test on the
    local day and time of day: from the start to the end of a day the window opens on,
    and for a window that crosses midnight from its start on such a day or until its end
    on the day after one. *)
Theorem contains_fixed_zone w o t :
  location LoadLocation w = fixedZone o -> Contains LoadLocation (Some w) t = openRef w o t.
Proof.
  intros Hl. assert (0 <= startMinute w < 24 * 60 /\ 0 <= endMinute w <= 24 * 60) as [Hs He].
  { unfold startMinute, endMinute. split.
    - destruct (clockMinutes (wStart w) false) eqn:E; cbn; [|lia]. apply clockMinutes_range in E as [? E]. specialize (E eq_refl). lia.
    - destruct (clockMinutes (wEnd w) true) eqn:E; cbn; [|lia]. apply clockMinutes_range in E. lia. }
  unfold Contains, Open. rewrite Hl, !openAt_fixed. unfold openRef. set (n := (secOf t + o) / daySeconds).
  replace (n + -1) with (n - 1) by lia. replace (n + 0) with n by lia.
  assert (0 <= t + o * second - n * day < day) as Hn.
  { subst n. unfold secOf, day, hour, minute, second, millisecond, nanosecond, daySeconds. Z.div_mod_to_equations. lia. }
  unfold opensAt, closesAt. revert Hn. clearbody n. unfold day, hour, minute, second, millisecond, nanosecond, daySeconds. intros Hn.
  destruct (endMinute w <=? startMinute w) eqn:E; bool_cases.
  - rewrite (proj2 (Z.ltb_ge (startMinute w) (endMinute w))) by lia.
    rewrite (proj2 (Z.leb_le (((n - 1) * _ + _ - o) * _) t)) by lia. rewrite (proj2 (Z.ltb_lt t (((n + 1) * _ + _ - o) * _))) by lia.
    rewrite !andb_true_r. destruct (opensDay w n), (opensDay w (n - 1)); cbn [andb orb];
      repeat (destruct (_ <? _) eqn:?; bool_cases); repeat (destruct (_ <=? _) eqn:?; bool_cases); cbn [andb orb];
      first [rewrite bool_decide_true by eauto; lia || reflexivity | rewrite bool_decide_false by (intros [? ?]; done); lia || reflexivity | lia].
  - rewrite (proj2 (Z.ltb_lt (startMinute w) (endMinute w))) by lia.
    rewrite (proj2 (Z.ltb_ge t (((n - 1) * _ + _ - o) * _))) by lia. rewrite andb_false_r.
    destruct (opensDay w n); cbn [andb]; [|by rewrite bool_decide_false by (intros [? ?]; done)].
    repeat (destruct (_ <? _) eqn:?; bool_cases); repeat (destruct (_ <=? _) eqn:?; bool_cases); cbn [andb];
      first [rewrite bool_decide_true by eauto; lia || reflexivity | rewrite bool_decide_false by (intros [? ?]; done); lia || reflexivity | lia].
Qed.
End Opening.

(** ** Concrete windows *)

Definition utcTime (y mo d h m : Z) : Z := Date y mo d h m UTC.

(** New York around the change of 8 March 2026 and Berlin around that of 25 October 2026. *)
Definition newYork2026 : Location := stepZone (-5 * 3600) (-4 * 3600) (wallSec 2026 3 8 7 0).
Definition berlin2026 : Location := stepZone (2 * 3600) 3600 (wallSec 2026 10 25 1 0).

Definition demoZones (name : string) : option Location :=
  if bool_decide (name = "America/New_York") then Some newYork2026
  else if bool_decide (name = "Europe/Berlin") then Some berlin2026
  else if bool_decide (name = "Europe/Istanbul") then Some (fixedZone (3 * 3600))
  else None.

#[export] Instance newYork2026_laws : ZoneLaws newYork2026.
Proof. apply stepZone_laws; unfold daySeconds; done || lia. Qed.

#[export] Instance berlin2026_laws : ZoneLaws berlin2026.
Proof. apply stepZone_laws; unfold daySeconds; done || lia. Qed.

Definition nightWindow : BackupWindow := mkWindow "America/New_York" [] "01:00" "04:00" false.
Definition gapWindow : BackupWindow := mkWindow "America/New_York" [] "02:30" "04:00" false.
Definition mondayNight : BackupWindow := mkWindow "" ["mon"] "22:00" "02:00" true.

Lemma window_normalized_witness :
  WellFormed demoZones (mkWindow "Europe/Istanbul" ["mon"; "sun"] "22:00" "02:00" false).
Proof. apply (window_normalized demoZones (mkWindow " Europe/Istanbul " ["SUN"; "mon"; "mon"] "22:00" "02:00" false)). vm_compute. reflexivity. Defined.

(** The window 01:00 to 04:00 lasts two hours on the day the clocks go forward. *)
Lemma open_by_wall_clock_witness :
  let s := utcTime 2026 3 8 6 0 in let e := utcTime 2026 3 8 8 0 in
  s <= utcTime 2026 3 8 6 30 < e /\ ∃ n, opensDay nightWindow n = true /\
    reaches newYork2026 (opensAt nightWindow n) (secOf s) /\ reaches newYork2026 (closesAt nightWindow n) (secOf e).
Proof.
  apply (open_by_wall_clock demoZones nightWindow (utcTime 2026 3 8 6 30)); [exact newYork2026_laws|].
  vm_compute. reflexivity.
Defined.

Lemma contains_fixed_zone_witness :
  Contains demoZones (Some (mkWindow "Europe/Istanbul" [] "01:00" "05:00" false)) (utcTime 2026 10 5 23 30) =
  openRef (mkWindow "Europe/Istanbul" [] "01:00" "05:00" false) (3 * 3600) (utcTime 2026 10 5 23 30).
Proof. apply (contains_fixed_zone demoZones _ (3 * 3600)). reflexivity. Defined.

Example monday_night_window :
  Contains demoZones (Some mondayNight) (utcTime 2026 10 6 1 0) = true /\
  Contains demoZones (Some mondayNight) (utcTime 2026 10 5 1 0) = false.
Proof. vm_compute. done. Qed.

Example skipped_start_opens_after_the_gap :
  Contains demoZones (Some gapWindow) (utcTime 2026 3 8 6 59) = false /\
  Contains demoZones (Some gapWindow) (utcTime 2026 3 8 7 45) = true.
Proof. vm_compute. done. Qed.

(** Where the clocks go back, the reading 02:30 comes twice in Berlin, at 00:30 and at
    01:30 UTC: the window that ends at it stays open until the second. *)
Example repeated_reading_is_the_second :
  wallTime 2026 10 25 150 berlin2026 = utcTime 2026 10 25 1 30 /\
  localSec berlin2026 (secOf (utcTime 2026 10 25 0 30)) = wallSec 2026 10 25 2 30 /\
  localSec berlin2026 (secOf (utcTime 2026 10 25 1 30)) = wallSec 2026 10 25 2 30.
Proof. vm_compute. done. Qed.

(** A signed hour of one digit passes for HH. *)
Example signed_clock_accepted : clockMinutes "+9:-0" false = Some 540.
Proof. vm_compute. done. Qed.
