(* ===== verification/Jobs.v ===== *)
(** * Jobs and their runs ([internal/models/job.go], [internal/models/jobrun.go])

    A job with the fields the scheduler reads, the run that groups the backups one run of
    a job took, and the outcome a run gets from its databases. *)

From S2P Require Import Prelude Glob Selection Backup BackupWindow.

(** ** Jobs *)

(** [jKnown] is [None] for a nil list: the job's databases were never recorded. *)
Record Job : Type := mkJob {
  jID : string;
  jName : string;
  jCron : string;
  jDatabase : string;
  jSelection : DatabaseSelection;
  jKnown : option (list string);
  jParallelism : Z;
  jTarget : string;
  jEnabled : bool;
  jPausedUntil : option Z;
  jConnection : string;
  jLastRun : option Z;
  jNextRun : option Z;
  jCreatedAt : Z;
  jRPOMinutes : Z;
  jWindow : option BackupWindow;
  jRetentionDays : Z;
  jRetentionCount : Z
}.

Definition withKnown (known : option (list string)) (j : Job) : Job :=
  mkJob (jID j) (jName j) (jCron j) (jDatabase j) (jSelection j) known (jParallelism j) (jTarget j) (jEnabled j) (jPausedUntil j)
    (jConnection j) (jLastRun j) (jNextRun j) (jCreatedAt j) (jRPOMinutes j) (jWindow j) (jRetentionDays j) (jRetentionCount j).
Definition withEnabled (enabled : bool) (until : option Z) (j : Job) : Job :=
  mkJob (jID j) (jName j) (jCron j) (jDatabase j) (jSelection j) (jKnown j) (jParallelism j) (jTarget j) enabled until
    (jConnection j) (jLastRun j) (jNextRun j) (jCreatedAt j) (jRPOMinutes j) (jWindow j) (jRetentionDays j) (jRetentionCount j).
Definition withRuns (last next : option Z) (j : Job) : Job :=
  mkJob (jID j) (jName j) (jCron j) (jDatabase j) (jSelection j) (jKnown j) (jParallelism j) (jTarget j) (jEnabled j) (jPausedUntil j)
    (jConnection j) last next (jCreatedAt j) (jRPOMinutes j) (jWindow j) (jRetentionDays j) (jRetentionCount j).

(** [Job.Selection]. *)
Definition jobSelection (j : Job) : DatabaseSelection :=
  if bool_decide (selMode (jSelection j) = SelectionNone)
  then mkSelection SelectionSingle (if bool_decide (jDatabase j = "") then [] else [jDatabase j]) [] [] [] false
  else jSelection j.

Definition MultiDatabase (j : Job) : bool := Multi (jobSelection j).

Definition MaxJobParallelism : Z := 4.
Definition EffectiveParallelism (j : Job) : Z := Z.min (Z.max (jParallelism j) 1) MaxJobParallelism.

(** [Job.Covers]. *)
Definition jobCovers (name : string) (j : Job) : bool :=
  negb (bool_decide (name = "")) && (Matches name (jobSelection j) || bool_decide (name ∈ default [] (jKnown j))).

Definition SameSource (j o : Job) : bool :=
  let a := jobSelection j in let b := jobSelection o in
  bool_decide (jConnection j = jConnection o) && SameMatch a b && eqb (selAutoIncludeNew a) (selAutoIncludeNew b).

(** ** Recovery point objectives *)

Definition DefaultRPOFloor : Z := 6 * hour.
Definition DefaultRPOSlack : Z := hour.
Definition FallbackRPOInterval : Z := 24 * hour.

Definition DefaultRPO (interval : Z) : Z :=
  let interval := if interval <=? 0 then FallbackRPOInterval else interval in
  Z.max (i64 (2 * interval + DefaultRPOSlack)) DefaultRPOFloor.

Definition RPO (j : Job) (interval : Z) : Z * bool :=
  if 0 <? jRPOMinutes j then (i64 (jRPOMinutes j * minute), false) else (DefaultRPO interval, true).

(** ** Job runs *)

Inductive JobRunStatus : Type :=
| JobRunRunning | JobRunOK | JobRunPartial | JobRunFailed | JobRunCancelled | JobRunSkipped.

#[export] Instance JobRunStatus_eq_dec : EqDecision JobRunStatus.
Proof. solve_decision. Defined.

Record JobRunDatabase : Type := mkRunDB {
  dbName : string;
  dbBackup : string;
  dbStatus : BackupStatus;
  dbError : string
}.

#[export] Instance JobRunDatabase_eq_dec : EqDecision JobRunDatabase.
Proof. solve_decision. Defined.

Record JobRun : Type := mkRun {
  runID : string;
  runJob : string;
  runTrigger : BackupTrigger;
  runEpoch : Z;
  runStatus : JobRunStatus;
  runStarted : Z;
  runCompleted : option Z;
  runDatabases : list JobRunDatabase;
  runNew : list string;
  runAdded : list string;
  runError : string;
  runSkipReason : string;
  runSkipped : Z
}.

#[export] Instance JobRun_eq_dec : EqDecision JobRun.
Proof. solve_decision. Defined.

(** The most runs a listing of the store returns: a limit outside 1 to [MaxJobRunList] means it. *)
Definition MaxJobRunList : nat := 200.
Definition runLimit (limit : nat) : nat := if (limit <=? 0)%nat || (MaxJobRunList <? limit)%nat then MaxJobRunList else limit.

Definition withOutcomeOf (st : JobRunStatus) (at_ : Z) (r : JobRun) : JobRun :=
  mkRun (runID r) (runJob r) (runTrigger r) (runEpoch r) st (runStarted r) (Some at_) (runDatabases r) (runNew r)
    (runAdded r) (runError r) (runSkipReason r) (runSkipped r).
Definition withDatabases (l : list JobRunDatabase) (r : JobRun) : JobRun :=
  mkRun (runID r) (runJob r) (runTrigger r) (runEpoch r) (runStatus r) (runStarted r) (runCompleted r) l (runNew r)
    (runAdded r) (runError r) (runSkipReason r) (runSkipped r).
Definition withFound (new added : list string) (r : JobRun) : JobRun :=
  mkRun (runID r) (runJob r) (runTrigger r) (runEpoch r) (runStatus r) (runStarted r) (runCompleted r) (runDatabases r) new
    added (runError r) (runSkipReason r) (runSkipped r).
Definition withRunError (msg : string) (r : JobRun) : JobRun :=
  mkRun (runID r) (runJob r) (runTrigger r) (runEpoch r) (runStatus r) (runStarted r) (runCompleted r) (runDatabases r)
    (runNew r) (runAdded r) msg (runSkipReason r) (runSkipped r).
Definition withStart (at_ : Z) (r : JobRun) : JobRun :=
  mkRun (runID r) (runJob r) (runTrigger r) (runEpoch r) (runStatus r) at_ (runCompleted r) (runDatabases r)
    (runNew r) (runAdded r) (runError r) (runSkipReason r) (runSkipped r).
Definition withEpoch (e : Z) (r : JobRun) : JobRun :=
  mkRun (runID r) (runJob r) (runTrigger r) e (runStatus r) (runStarted r) (runCompleted r) (runDatabases r)
    (runNew r) (runAdded r) (runError r) (runSkipReason r) (runSkipped r).

(** [JobRun.Skip]. *)
Definition Skip (reason : string) (at_ : Z) (r : JobRun) : JobRun :=
  mkRun (runID r) (runJob r) (runTrigger r) (runEpoch r) JobRunSkipped (runStarted r) (Some at_) (runDatabases r)
    (runNew r) (runAdded r) (runError r) reason (i64 (Z.max (runSkipped r) 0 + 1)).

Record Tally : Type := mkTally { tlOK : Z; tlFailed : Z; tlCancelled : Z; tlRunning : Z }.

Definition tally (c : Tally) (d : JobRunDatabase) : Tally :=
  match dbStatus d with
  | StatusCompleted => mkTally (tlOK c + 1) (tlFailed c) (tlCancelled c) (tlRunning c)
  | StatusCancelled => mkTally (tlOK c) (tlFailed c) (tlCancelled c + 1) (tlRunning c)
  | StatusInProgress | StatusPending => mkTally (tlOK c) (tlFailed c) (tlCancelled c) (tlRunning c + 1)
  | StatusSkipped => c
  | _ => mkTally (tlOK c) (tlFailed c + 1) (tlCancelled c) (tlRunning c)
  end.

(** [JobRun.Counts]. *)
Definition Counts (r : JobRun) : Tally := foldl tally (mkTally 0 0 0 0) (runDatabases r).

(** [JobRun.Finish]; the duration, which nothing reads back, is left out. *)
Definition Finish (at_ : Z) (r : JobRun) : JobRun :=
  let '(mkTally ok failed cancelled _) := Counts r in
  withOutcomeOf
    (if negb (bool_decide (runError r = "")) && (ok =? 0) then JobRunFailed
     else if (failed =? 0) && (cancelled =? 0) && (0 <? ok) then JobRunOK
     else if (failed =? 0) && (0 <? cancelled) then JobRunCancelled
     else if 0 <? ok then JobRunPartial
     else JobRunFailed) at_ r.

Definition isFailedStatus (st : BackupStatus) : bool :=
  match st with
  | StatusCompleted | StatusCancelled | StatusInProgress | StatusPending | StatusSkipped => false
  | _ => true
  end.

Definition FailedDatabases (r : JobRun) : list string := dbName <$> filter (λ d, isFailedStatus (dbStatus d)) (runDatabases r).
Definition SkippedDatabases (r : JobRun) : list string := dbName <$> filter (λ d, dbStatus d = StatusSkipped) (runDatabases r).

(** ** Outcomes *)

(** How many databases of a run have a status that satisfies [f]. *)
Definition having (f : BackupStatus -> bool) (r : JobRun) : Z :=
  Z.of_nat (length (filter (λ d, f (dbStatus d)) (runDatabases r))).

Definition isOK (st : BackupStatus) : bool := bool_decide (st = StatusCompleted).
Definition isCancelled (st : BackupStatus) : bool := bool_decide (st = StatusCancelled).
Definition isRunning (st : BackupStatus) : bool := bool_decide (st = StatusInProgress) || bool_decide (st = StatusPending).

Lemma tally_fold l : ∀ c,
  foldl tally c l =
  mkTally (tlOK c + Z.of_nat (length (filter (λ d, isOK (dbStatus d)) l)))
          (tlFailed c + Z.of_nat (length (filter (λ d, isFailedStatus (dbStatus d)) l)))
          (tlCancelled c + Z.of_nat (length (filter (λ d, isCancelled (dbStatus d)) l)))
          (tlRunning c + Z.of_nat (length (filter (λ d, isRunning (dbStatus d)) l))).
Proof.
  induction l as [|d l IH]; intros [a b c' e]; cbn [foldl]; [cbn; f_equal; lia|].
  rewrite IH. unfold tally. rewrite !filter_cons.
  destruct (dbStatus d); simpl; f_equal; lia.
Qed.

Lemma Counts_having r : Counts r = mkTally (having isOK r) (having isFailedStatus r) (having isCancelled r) (having isRunning r).
Proof. unfold Counts. rewrite tally_fold. f_equal; cbn; lia. Qed.
