(* ===== verification/Schedule.v ===== *)
(** * Schedules and recovery point objectives ([internal/scheduler/scheduler.go], [rpo.go])

    The cron parser is a third-party package (robfig/cron): [cronParse] is an argument,
    and [CronLaws] states that the next activation it finds is later than the time it is
    asked about. A schedule without a time zone of its own reads its hours in the zone of
    the time it is given, so a time carries its zone: the server's, or UTC. *)

From S2P Require Import Prelude GoStrings Calendar Zones Glob Selection Backup BackupWindow Jobs Json.
From Stdlib Require Import Ascii.

(** The zone a time value carries. *)
Inductive zone : Type := ZLocal | ZUTC.

(** [cron.Schedule.Next]; 0 is the zero time: no further activation. *)
Definition Schedule : Type := zone -> Z -> Z.

(** What the third-party parser does with an expression. *)
Inductive Parsed : Type := PSchedule (s : Schedule) | PError | PPanic.

(** [strings.Contains(s, " ")]. *)
Fixpoint hasSpace (s : string) : bool :=
  match s with EmptyString => false | String a s => byteIs 32 a || hasSpace s end.

Definition intervalWindow : Z := 8 * day.
Definition intervalLongWindow : Z := 366 * day.
Definition maxIntervalRuns : nat := Z.to_nat 20000.
#[global] Opaque maxIntervalRuns.

(** ** Quoted strings ([strconv.Quote], the verb %q)

    [IsPrint] is [unicode.IsPrint] on runes beyond ASCII. *)

Section Quote.
Variable IsPrint : Z -> bool.

Fixpoint hexPadded (w : nat) (n : Z) (rest : string) : string :=
  match w with
  | O => rest
  | S w => hexPadded w (n / 16) (String (hexDigit (Z.to_N (n mod 16))) rest)
  end.

(** An ASCII byte or a byte that is not UTF-8. *)
Definition quoteByte (a : ascii) (rest : string) : string :=
  if byteIs 34 a || byteIs 92 a then String backslash (String a rest)
  else if byteIn 32 126 a then String a rest
  else if byteIn 7 13 a then
    String backslash (String (match N_of_ascii a with
                              | 7 => "a" | 8 => "b" | 9 => "t" | 10 => "n" | 11 => "v" | 12 => "f" | _ => "r" end%N%char) rest)
  else String backslash (String "x"%char (hexPadded 2 (Z.of_N (N_of_ascii a)) rest)).

Definition quotePiece (p : string + ascii) (rest : string) : string :=
  match p with
  | inr a => String backslash (String "x"%char (hexPadded 2 (Z.of_N (N_of_ascii a)) rest))
  | inl (String a EmptyString) => quoteByte a rest
  | inl bs =>
      let r := pieceRune p in
      if IsPrint r then bs +:+ rest
      else if r <? 65536 then String backslash (String "u"%char (hexPadded 4 r rest))
      else String backslash (String "U"%char (hexPadded 8 r rest))
  end.

Definition Quote (s rest : string) : string := String quote (foldr quotePiece (String quote rest) (pieces s)).
End Quote.

Section Schedules.
Context (cronParse : string -> Parsed) (LoadLocation : string -> option Location) (IsPrint : Z -> bool).

(** [safeParser.Parse]: a panic of the parser is an error. *)
Definition safeParse (spec : string) : option Schedule :=
  if (HasPrefix spec "TZ=" || HasPrefix spec "CRON_TZ=") && negb (hasSpace spec) then None
  else match cronParse spec with PSchedule s => Some s | PError | PPanic => None end.

Definition ValidateCron (expr : string) : bool := bool_decide (is_Some (safeParse expr)).

(** The loop of [NextRuns]: [n] more activations. *)
Fixpoint runsLoop (sched : Schedule) (z : zone) (n : nat) (next : Z) : list Z :=
  match n with
  | O => []
  | S n => let next := sched z next in if IsZero next then [] else next :: runsLoop sched z n next
  end.

Definition NextRuns (expr : string) (z : zone) (from n : Z) : list Z :=
  if n <=? 0 then []
  else match safeParse expr with
  | None => []
  | Some sched => runsLoop sched z (Z.to_nat n) from
  end.

Definition nextRun (expr : string) (z : zone) (from : Z) : option Z := head (NextRuns expr z from 1).

(** [Activations] with the consumer [yield], for at most [fuel] activations. *)
Fixpoint yieldLoop {St} (sched : Schedule) (z : zone) (yield : Z -> St -> St * bool) (fuel : nat) (next : Z) (st : St) : St :=
  match fuel with
  | O => st
  | S fuel =>
      let next := sched z next in
      if IsZero next then st
      else let '(st, more) := yield next st in if more then yieldLoop sched z yield fuel next st else st
  end.

Definition Activations {St} (expr : string) (z : zone) (from : Z) (yield : Z -> St -> St * bool) (fuel : nat) (st : St) : St :=
  match safeParse expr with None => st | Some sched => yieldLoop sched z yield fuel from st end.

(** ** Intervals *)

(** The closure [next] of [WindowedInterval] with [rest] reads left: the first allowed
    activation after [t] (0: none) and the reads left after it. *)
Fixpoint nextAllowed (sched : Schedule) (window : option BackupWindow) (rest : nat) (t : Z) : Z * nat :=
  match rest with
  | O => (0, O)
  | S rest =>
      let t := sched ZLocal t in
      if IsZero t || Contains LoadLocation window t then (t, rest) else nextAllowed sched window rest t
  end.

(** The loop over the allowed activations; each turn uses at least one read, so [fuel]
    reads are enough. *)
Fixpoint gapLoop (sched : Schedule) (window : option BackupWindow) (start : Z) (fuel rest : nat) (end_ prev gap : Z) : Z :=
  match fuel, rest with
  | S fuel, S _ =>
      let '(n, rest) := nextAllowed sched window rest prev in
      if IsZero n then gap
      else
        let gap := Z.max gap (time_sub n prev) in
        if end_ <? n then
          if (gap <=? intervalWindow) || (intervalLongWindow <=? time_sub end_ start) then gap
          else gapLoop sched window start fuel rest (start + intervalLongWindow) n gap
        else gapLoop sched window start fuel rest end_ n gap
  | _, _ => gap
  end.

Definition WindowedInterval (expr : string) (window : option BackupWindow) (from : Z) : Z :=
  match safeParse expr with
  | None => 0
  | Some sched =>
      let start := from - intervalWindow in
      let '(prev, rest) := nextAllowed sched window maxIntervalRuns start in
      if IsZero prev then 0
      else gapLoop sched window start maxIntervalRuns rest (start + intervalWindow) prev 0
  end.

Definition Interval (expr : string) (from : Z) : Z := WindowedInterval expr None from.

(** [DefaultRPO] of the scheduler: that of a schedule's interval. *)
Definition scheduleRPO (expr : string) (from : Z) : Z := DefaultRPO (Interval expr from).

Definition EffectiveRPO (j : Job) (from : Z) : Z * bool :=
  if 0 <? jRPOMinutes j then RPO j 0 else RPO j (WindowedInterval (jCron j) (jWindow j) from).

(** ** The cache of intervals ([RPOs]) *)

Definition rpoKey (j : Job) : string * string :=
  (jCron j,
   match jWindow j with
   | None => EmptyString
   | Some w => Quote IsPrint (wTimezone w) (String " "%char (Quote IsPrint (String.concat "," (wDays w))
                 (String " "%char (Quote IsPrint (wStart w) (String " "%char (Quote IsPrint (wEnd w) EmptyString))))))
   end).

Record RPOs : Type := mkRPOs { rpFrom : Z; rpIntervals : gmap (string * string) Z }.

Definition NewRPOs (from : Z) : RPOs := mkRPOs from ∅.

(** [RPOs.Effective]. *)
Definition Effective (j : Job) (r : RPOs) : (Z * bool) * RPOs :=
  if 0 <? jRPOMinutes j then (RPO j 0, r)
  else
    let k := rpoKey j in
    match rpIntervals r !! k with
    | Some interval => (RPO j interval, r)
    | None =>
        let interval := WindowedInterval (jCron j) (jWindow j) (rpFrom r) in
        (RPO j interval, mkRPOs (rpFrom r) (<[k := interval]> (rpIntervals r)))
    end.

(** The objectives of many jobs, one after the other. *)
Fixpoint effectiveAll (jobs : list Job) (r : RPOs) : list (Z * bool) :=
  match jobs with
  | [] => []
  | j :: jobs => let '(x, r) := Effective j r in x :: effectiveAll jobs r
  end.
End Schedules.

(** A schedule's next activation, when there is one, is later than the time asked about. *)
Class CronLaws (cronParse : string -> Parsed) : Prop := {
  cron_later expr sched z t : cronParse expr = PSchedule sched -> sched z t = 0 \/ t < sched z t
}.

(** ** Activations *)

(** [l] goes up from [t]. *)
Fixpoint ascending (t : Z) (l : list Z) : Prop := match l with [] => True | x :: l => t < x /\ ascending x l end.

Lemma ascending_weaken t u l : u <= t -> ascending t l -> ascending u l.
Proof. destruct l; cbn; [done|]. intros ? [? ?]. split; [lia|done]. Qed.

Lemma ascending_filter (P : Z -> Prop) `{∀ x, Decision (P x)} l : ∀ t, ascending t l -> ascending t (filter P l).
Proof.
  induction l as [|x l IH]; intros t; cbn [ascending]; [done|]. intros [Hx Hl]. rewrite filter_cons. case_decide.
  - split; [done|]. by apply IH.
  - apply IH. apply (ascending_weaken x); [lia|done].
Qed.

Lemma ascending_gt l : ∀ t x, ascending t l -> x ∈ l -> t < x.
Proof.
  induction l as [|y l IH]; intros t x; cbn [ascending]; [set_solver|]. intros [Hy Hl] [->|Hx]%elem_of_cons; [done|].
  specialize (IH _ _ Hl Hx). lia.
Qed.

Section Laws.
Context (cronParse : string -> Parsed) `{!CronLaws cronParse} (LoadLocation : string -> option Location).

Lemma safeParse_later expr sched z t : safeParse cronParse expr = Some sched -> sched z t = 0 \/ t < sched z t.
Proof.
  unfold safeParse. destruct (_ && _); [done|]. destruct (cronParse expr) eqn:E; [|done|done].
  intros [= <-]. by eapply cron_later.
Qed.

Lemma runsLoop_ascending expr sched z n : safeParse cronParse expr = Some sched -> ∀ t, ascending t (runsLoop sched z n t).
Proof.
  intros Hs. induction n as [|n IH]; intros t; cbn [runsLoop]; [done|].
  destruct (IsZero (sched z t)) eqn:E; [done|]. split; [|apply IH].
  unfold IsZero in E. bool_cases. by destruct (safeParse_later _ _ z t Hs).
Qed.

(** [NextRuns] lists activations after [from], in order. *)
Lemma NextRuns_ascending expr z from n : ascending from (NextRuns cronParse expr z from n).
Proof.
  unfold NextRuns. destruct (_ <=? _); [done|]. destruct (safeParse cronParse expr) eqn:E; [|done]. by eapply runsLoop_ascending.
Qed.

(** An iterator stopped after [n] activations has yielded those of [NextRuns]. *)
Lemma Activations_NextRuns expr z from (n : nat) :
  (0 < n)%nat ->
  Activations cronParse expr z from (λ t l, (l ++ [t], bool_decide (length l + 1 < n)%nat)) n [] =
  NextRuns cronParse expr z from (Z.of_nat n).
Proof.
  intros Hn. unfold Activations, NextRuns. destruct (Z.of_nat n <=? 0) eqn:E; [bool_cases; lia|]. clear E.
  destruct (safeParse cronParse expr) as [sched|]; [|done]. rewrite Nat2Z.id.
  assert (∀ k t l, (length l + k = n)%nat -> (0 < k)%nat ->
            yieldLoop sched z (λ t l, (l ++ [t], bool_decide (length l + 1 < n)%nat)) k t l = l ++ runsLoop sched z k t) as H.
  { induction k as [|k IH]; intros t l Hl Hk; [lia|]. cbn [yieldLoop runsLoop].
    destruct (IsZero (sched z t)); [by rewrite app_nil_r|]. case_bool_decide as Hlt.
    - rewrite IH by (rewrite ?length_app; cbn; lia). by rewrite <- (assoc_L (++)).
    - assert (k = O) as -> by lia. done. }
  by rewrite (H n from []).
Qed.

(** ** The largest gap *)

Section Gap.
Context (sched : Schedule) (window : option BackupWindow).

(** The activations after [t] that the window lets start, among the next [n]. *)
Definition allowedRuns (n : nat) (t : Z) : list Z :=
  filter (λ x, Contains LoadLocation window x) (runsLoop sched ZLocal n t).

Lemma nextAllowed_spec n : ∀ t x n',
  nextAllowed LoadLocation sched window n t = (x, n') ->
  if IsZero x then allowedRuns n t = [] else (n' < n)%nat /\ allowedRuns n t = x :: allowedRuns n' x.
Proof.
  unfold allowedRuns. induction n as [|n IH]; intros t x n'; cbn [nextAllowed runsLoop]; [by intros [= <- <-]|].
  destruct (IsZero (sched ZLocal t)) eqn:E.
  { cbn [orb]. intros [= <- <-]. by rewrite E. }
  cbn [orb]. rewrite filter_cons. destruct (Contains _ _ _) eqn:C.
  - intros [= <- <-]. rewrite E. rewrite decide_True by done. split; [lia|done].
  - rewrite decide_False by (by intros []). intros H%IH. destruct (IsZero x); [done|]. destruct H. split; [lia|done].
Qed.

(** The loop on the list of the allowed activations. *)
Fixpoint gapList (start end_ prev gap : Z) (l : list Z) : Z :=
  match l with
  | [] => gap
  | n :: l =>
      let gap := Z.max gap (time_sub n prev) in
      if end_ <? n then
        if (gap <=? intervalWindow) || (intervalLongWindow <=? time_sub end_ start) then gap
        else gapList start (start + intervalLongWindow) n gap l
      else gapList start end_ n gap l
  end.

Lemma gapLoop_list start fuel : ∀ rest end_ prev gap,
  (rest <= fuel)%nat ->
  gapLoop LoadLocation sched window start fuel rest end_ prev gap = gapList start end_ prev gap (allowedRuns rest prev).
Proof.
  induction fuel as [|fuel IH]; intros rest end_ prev gap Hr.
  { assert (rest = O) as -> by lia. reflexivity. }
  destruct rest as [|rest]; [reflexivity|]. cbn [gapLoop].
  destruct (nextAllowed _ _ _ _ _) as [x n'] eqn:Hx. apply nextAllowed_spec in Hx.
  destruct (IsZero x); [by rewrite Hx|]. destruct Hx as [Hn ->]. cbn [gapList].
  destruct (end_ <? x); [destruct (_ || _); [done|]|]; apply IH; lia.
Qed.

(** [p] and [n] follow each other in [l]. *)
Definition follow (l : list Z) (p n : Z) : Prop := ∃ l1 l2, l = l1 ++ p :: n :: l2.

Lemma follow_cons x y l p n : follow (x :: y :: l) p n <-> (p = x /\ n = y) \/ follow (y :: l) p n.
Proof.
  split.
  - intros (l1 & l2 & E). destruct l1 as [|z l1]; [left; by injection E|]. right. injection E as _ E. eexists _, _. exact E.
  - intros [[-> ->]|(l1 & l2 & E)]; [by exists [], l|]. exists (x :: l1), l2. by rewrite E.
Qed.

Lemma follow_ge x l p n : ascending x l -> follow (x :: l) p n -> x <= p.
Proof.
  intros Ha (l1 & l2 & E). assert (p ∈ x :: l) as [->|Hp]%elem_of_cons by (rewrite E; set_solver); [lia|].
  pose proof (ascending_gt _ _ _ Ha Hp). lia.
Qed.

Lemma gapList_ge start l : ∀ end_ prev gap, gap <= gapList start end_ prev gap l.
Proof.
  induction l as [|n l IH]; intros end_ prev gap; cbn [gapList]; [lia|].
  assert (∀ e, gap <= gapList start e n (Z.max gap (time_sub n prev)) l) as H.
  { intros e. etrans; [|apply IH]. lia. }
  destruct (end_ <? n); [destruct (_ || _); [lia|apply H]|apply H].
Qed.

(** Every gap that begins by [lim] is counted, when the loop does not stop before [lim]. *)
Lemma gapList_covers start lim l : ∀ end_ prev gap p n,
  ascending prev l -> lim <= end_ -> lim <= start + intervalLongWindow ->
  follow (prev :: l) p n -> p <= lim -> time_sub n p <= gapList start end_ prev gap l.
Proof.
  induction l as [|x l IH]; intros end_ prev gap p n Ha He Hl Hf Hp.
  { destruct Hf as (l1 & l2 & E). destruct l1 as [|? [|]]; simplify_list_eq. }
  cbn [ascending] in Ha. destruct Ha as [Hx Ha]. cbn [gapList].
  apply follow_cons in Hf as [[-> ->]|Hf].
  - destruct (end_ <? x); [destruct (_ || _); [lia|]|]; (etrans; [|apply gapList_ge]; lia).
  - destruct (end_ <? x) eqn:E.
    + bool_cases. pose proof (follow_ge _ _ _ _ Ha Hf). lia.
    + by apply IH.
Qed.

(** The result is one of the gaps. *)
Lemma gapList_attained start l : ∀ end_ prev gap,
  gapList start end_ prev gap l = gap \/ ∃ p n, follow (prev :: l) p n /\ gapList start end_ prev gap l = time_sub n p.
Proof.
  induction l as [|x l IH]; intros end_ prev gap; cbn [gapList]; [by left|].
  assert (∀ r, (r = Z.max gap (time_sub x prev) \/ ∃ p n, follow (x :: l) p n /\ r = time_sub n p) ->
               r = gap \/ ∃ p n, follow (prev :: x :: l) p n /\ r = time_sub n p) as H.
  { intros r [->|(p & n & Hf & ->)]; [|right; exists p, n; rewrite follow_cons; auto].
    destruct (Z.max_spec gap (time_sub x prev)) as [[_ ->]|[_ ->]]; [right|by left].
    exists prev, x. rewrite follow_cons. auto. }
  destruct (end_ <? x); [destruct (_ || _)|]; apply H; auto.
Qed.

(** A result beyond the short window was looked for over the long one. *)
Lemma gapList_long start l : ∀ prev gap p n,
  ascending prev l -> intervalWindow < gapList start (start + intervalWindow) prev gap l ->
  follow (prev :: l) p n -> p <= start + intervalLongWindow ->
  time_sub n p <= gapList start (start + intervalWindow) prev gap l.
Proof.
  induction l as [|x l IH]; intros prev gap p n Ha Hg Hf Hp.
  { destruct Hf as (l1 & l2 & E). destruct l1 as [|? [|]]; simplify_list_eq. }
  cbn [ascending] in Ha. destruct Ha as [Hx Ha]. cbn [gapList] in *.
  destruct (start + intervalWindow <? x) eqn:E.
  - replace (intervalLongWindow <=? time_sub (start + intervalWindow) start) with false in *.
    2: { symmetry. apply Z.leb_gt. unfold time_sub, intervalLongWindow, intervalWindow, day, hour, minute, second, millisecond, nanosecond. lia. }
    rewrite orb_false_r in *. destruct (_ <=? intervalWindow) eqn:E2; [bool_cases; lia|].
    apply follow_cons in Hf as [[-> ->]|Hf]; [etrans; [|apply gapList_ge]; lia|].
    eapply gapList_covers; eauto; lia.
  - apply follow_cons in Hf as [[-> ->]|Hf]; [etrans; [|apply gapList_ge]; lia|]. by apply IH.
Qed.
End Gap.

Lemma WindowedInterval_list expr window from sched :
  safeParse cronParse expr = Some sched ->
  WindowedInterval cronParse LoadLocation expr window from =
  let start := from - intervalWindow in
  match allowedRuns sched window maxIntervalRuns start with
  | [] => 0
  | p :: l => gapList start from p 0 l
  end.
Proof.
  intros Hs. unfold WindowedInterval. rewrite Hs. cbv zeta.
  destruct (nextAllowed _ _ _ _ _) as [p n'] eqn:Hp. apply nextAllowed_spec in Hp.
  destruct (IsZero p); [by rewrite Hp|]. destruct Hp as [Hn ->].
  rewrite gapLoop_list by lia. f_equal. lia.
Qed.

(** The interval of a schedule is the largest gap between the activations its window
    lets start: no two consecutive ones of the last 8 days are further apart; the interval
    is the gap of two consecutive ones, or 0 when there are fewer than two; and an interval
    of more than 8 days is the largest gap of the whole year that follows. *)
Theorem interval_is_largest_gap expr window from sched :
  safeParse cronParse expr = Some sched ->
  let start := from - intervalWindow in
  let runs := allowedRuns sched window maxIntervalRuns start in
  let interval := WindowedInterval cronParse LoadLocation expr window from in
  (∀ p n, follow runs p n -> p <= from \/ (intervalWindow < interval /\ p <= start + intervalLongWindow) ->
          time_sub n p <= interval) /\
  (interval = 0 \/ ∃ p n, follow runs p n /\ interval = time_sub n p).
Proof.
  intros Hs. cbv zeta. rewrite (WindowedInterval_list _ _ _ _ Hs). cbv zeta.
  assert (ascending (from - intervalWindow) (allowedRuns sched window maxIntervalRuns (from - intervalWindow))) as Ha.
  { apply ascending_filter. by eapply runsLoop_ascending. }
  destruct (allowedRuns _ _ _ _) as [|p0 l]; [split; [|by left]; intros p n ([] & l2 & E); done|].
  cbn [ascending] in Ha. destruct Ha as [_ Ha]. split.
  - intros p n Hf [Hp|[Hg Hp]].
    + eapply (gapList_covers _ from); eauto; [lia|].
      unfold intervalLongWindow, intervalWindow, day, hour, minute, second, millisecond, nanosecond. lia.
    + replace (gapList (from - intervalWindow) from p0 0 l)
        with (gapList (from - intervalWindow) (from - intervalWindow + intervalWindow) p0 0 l) in * by (f_equal; lia).
      by apply gapList_long.
  - destruct (gapList_attained (from - intervalWindow) l from p0 0) as [H|H]; [by left|by right].
Qed.
End Laws.

(** ** The cache of intervals *)

(** Reads one byte of a quoted ASCII string; [None] inside is the closing quote. *)
Definition unquoteByte (s : string) : option (option ascii * string) :=
  match s with
  | EmptyString => None
  | String a r =>
      if byteIs 34 a then Some (None, r)
      else if byteIs 92 a then
        match r with
        | String b r' =>
            if byteIs 34 b || byteIs 92 b then Some (Some b, r')
            else if byteIs 120 b then
              match r' with
              | String h (String l r'') => Some (Some (ascii_of_N (16 * hexValue h + hexValue l)), r'')
              | _ => None
              end
            else Some (Some (ascii_of_N (match N_of_ascii b with 97 => 7 | 98 => 8 | 116 => 9 | 110 => 10 | 118 => 11 | 102 => 12 | _ => 13 end)%N), r')
        | EmptyString => None
        end
      else Some (Some a, r)
  end.

Lemma unquoteByte_quote a rest : isASCII a = true -> unquoteByte (quoteByte a rest) = Some (Some a, rest).
Proof. destruct a as [[] [] [] [] [] [] [] []]; first [reflexivity|discriminate]. Qed.

Lemma pieces_ascii a s : isASCII a = true -> pieces (String a s) = inl (String a EmptyString) :: pieces s.
Proof. intros H. cbn [pieces]. unfold isASCII in H. by rewrite H. Qed.

Lemma quote_body_inj IsPrint s : ∀ t r r',
  allBytes isASCII s = true -> allBytes isASCII t = true ->
  foldr (quotePiece IsPrint) (String quote r) (pieces s) = foldr (quotePiece IsPrint) (String quote r') (pieces t) -> s = t /\ r = r'.
Proof.
  induction s as [|a s IH]; intros [|b t] r r'; cbn [allBytes]; rewrite ?andb_true_iff.
  - intros _ _ [= ->]. done.
  - intros _ [Hb _]. rewrite (pieces_ascii b) by done. cbn [foldr pieces quotePiece]. intros E%(f_equal unquoteByte).
    by rewrite (unquoteByte_quote b) in E by done.
  - intros [Ha _] _. rewrite (pieces_ascii a) by done. cbn [foldr pieces quotePiece]. intros E%(f_equal unquoteByte).
    by rewrite (unquoteByte_quote a) in E by done.
  - intros [Ha Hs] [Hb Ht]. rewrite !pieces_ascii by done. cbn [foldr quotePiece]. intros E%(f_equal unquoteByte).
    rewrite !unquoteByte_quote in E by done. injection E as -> E. by destruct (IH _ _ _ Hs Ht E) as [-> ->].
Qed.

Lemma Quote_inj IsPrint s t r r' :
  allBytes isASCII s = true -> allBytes isASCII t = true -> Quote IsPrint s r = Quote IsPrint t r' -> s = t /\ r = r'.
Proof. intros Hs Ht [= E]. by eapply quote_body_inj. Qed.

Lemma Quote_sep_inj IsPrint c s t r r' :
  allBytes isASCII s = true -> allBytes isASCII t = true ->
  Quote IsPrint s (String c r) = Quote IsPrint t (String c r') -> s = t /\ r = r'.
Proof. intros Hs Ht [-> [= ->]]%Quote_inj; done. Qed.

(** Names without a comma, none empty, are told apart by the list of them. *)
Definition plainName (s : string) : Prop := s <> EmptyString /\ allBytes (λ c, negb (bool_decide (c = ","%char))) s = true.

Lemma Cut_none sep s : allBytes (λ c, negb (bool_decide (c = sep))) s = true -> Cut sep s = (s, EmptyString, false).
Proof.
  induction s as [|c s IH]; cbn; [done|]. intros [Hc Hs]%andb_prop. case_bool_decide; [done|]. by rewrite IH.
Qed.

Lemma concat_cons d e l : String.concat "," (d :: e :: l) = d +:+ String ","%char (String.concat "," (e :: l)).
Proof. reflexivity. Qed.

Lemma concat_nonempty d l : plainName d -> String.concat "," (d :: l) <> EmptyString.
Proof. intros [Hd _] E. destruct l; [done|]. rewrite concat_cons in E. by destruct d. Qed.

Lemma concat_inj l : ∀ m, Forall plainName l -> Forall plainName m -> String.concat "," l = String.concat "," m -> l = m.
Proof.
  assert (∀ d l, Forall plainName (d :: l) ->
            Cut ","%char (String.concat "," (d :: l)) =
            (d, match l with [] => EmptyString | _ => String.concat "," l end, negb (Nat.eqb (length l) 0))) as HC.
  { intros d [|e k] Hf; inversion Hf as [|?? [_ Hd]]; subst; [by apply Cut_none|]. rewrite concat_cons. by apply Cut_app. }
  induction l as [|d l IH]; intros m Hl Hm E.
  - destruct m as [|e m]; [done|]. inversion Hm; subst. symmetry in E. by apply concat_nonempty in E.
  - destruct m as [|e m]; [inversion Hl; subst; by apply concat_nonempty in E|].
    pose proof (HC _ _ Hl) as H1. pose proof (HC _ _ Hm) as H2. rewrite E, H2 in H1. injection H1 as -> Hr Hn.
    f_equal. inversion Hl; inversion Hm; subst. destruct l, m; try done. by apply IH.
Qed.

Lemma WindowDays_plain : Forall (λ d, plainName d /\ allBytes isASCII d = true) WindowDays.
Proof. repeat constructor; done. Qed.

Lemma allBytes_app f s t : allBytes f (s +:+ t) = allBytes f s && allBytes f t.
Proof. induction s as [|a s IH]; [done|]. rewrite str_app_cons. cbn. by rewrite IH, andb_assoc. Qed.

Lemma concat_ascii l : Forall (λ d, allBytes isASCII d = true) l -> allBytes isASCII (String.concat "," l) = true.
Proof.
  induction 1 as [|d l Hd Hl IH]; [done|]. destruct l; [done|]. rewrite concat_cons, allBytes_app, Hd. exact IH.
Qed.

Lemma digitsValue_ascii s : ∀ acc n, digitsValue acc s = Some n -> allBytes isASCII s = true.
Proof.
  induction s as [|a s IH]; intros acc n; cbn; [done|]. unfold digitValue. destruct (byteIn 48 57 a) eqn:E; [|done]. cbn.
  intros H%IH. rewrite H, andb_true_r. revert E. unfold isASCII, byteIn. rewrite !andb_true_iff, !N.leb_le. lia.
Qed.

Lemma Atoi_ascii s n : Atoi s = Some n -> allBytes isASCII s = true.
Proof.
  destruct s as [|a r]; [done|]. cbn [Atoi]. assert (∀ k, (k < 128)%N -> byteIs k a = true -> isASCII a = true) as Ha.
  { intros k Hk. unfold isASCII, byteIs, byteIn. rewrite andb_true_iff, N.eqb_eq, !N.leb_le. lia. }
  destruct (byteIs 45 a) eqn:E1; [|destruct (byteIs 43 a) eqn:E2].
  - case_bool_decide; [done|]. destruct (digitsValue 0 r) eqn:E; [|done]. intros _. cbn. rewrite (Ha 45%N) by done. by eapply digitsValue_ascii.
  - case_bool_decide; [done|]. intros Hr. cbn. rewrite (Ha 43%N) by done. by eapply digitsValue_ascii.
  - apply digitsValue_ascii.
Qed.

Lemma clockMinutes_ascii s b n : clockMinutes s b = Some n -> allBytes isASCII s = true.
Proof.
  unfold clockMinutes. destruct (Cut _ s) as [[hh mm] ok] eqn:HC. destruct ok; [|done]. destruct (_ || _); [done|].
  apply Cut_found in HC as [-> _]. destruct (Atoi hh) eqn:Hh; [|done]. destruct (Atoi mm) eqn:Hm; [|done]. intros _.
  rewrite allBytes_app. cbn. by rewrite (Atoi_ascii _ _ Hh), (Atoi_ascii _ _ Hm).
Qed.

Section Cache.
Context (cronParse : string -> Parsed) (LoadLocation : string -> option Location) (IsPrint : Z -> bool).

(** The window of a saved job: normalized, in a zone whose name is ASCII. *)
Definition savedWindow (j : Job) : Prop :=
  ∀ w, jWindow j = Some w -> WellFormed LoadLocation w /\ allBytes isASCII (wTimezone w) = true.

(** What the interval reads of a window. *)
Definition sameHours (w v : option BackupWindow) : Prop :=
  match w, v with
  | None, None => True
  | Some w, Some v => wTimezone w = wTimezone v /\ wDays w = wDays v /\ wStart w = wStart v /\ wEnd w = wEnd v
  | _, _ => False
  end.

Lemma sameHours_Contains w v t : sameHours w v -> Contains LoadLocation w t = Contains LoadLocation v t.
Proof.
  destruct w as [[tz d s e c]|], v as [[tz' d' s' e' c']|]; cbn [sameHours]; try done.
  cbn [wTimezone wDays wStart wEnd]. intros (-> & -> & -> & ->).
  unfold Contains, Open, location, openAt, opensOn, occurrence. cbn [wTimezone wDays wStart wEnd]. reflexivity.
Qed.

Lemma sameHours_interval expr w v from :
  sameHours w v -> WindowedInterval cronParse LoadLocation expr w from = WindowedInterval cronParse LoadLocation expr v from.
Proof.
  intros H. unfold WindowedInterval. destruct (safeParse cronParse expr) as [sched|]; [|done].
  assert (∀ n t, nextAllowed LoadLocation sched w n t = nextAllowed LoadLocation sched v n t) as Hn.
  { induction n as [|n IH]; intros t; cbn [nextAllowed]; [done|]. rewrite (sameHours_Contains _ _ _ H). by rewrite IH. }
  rewrite Hn. destruct (nextAllowed _ _ _ _ _) as [p n']. destruct (IsZero p); [done|].
  generalize (from - intervalWindow + intervalWindow) 0 maxIntervalRuns. intros e g k. revert n' e p g.
  induction k as [|k IH]; intros n' e p g; cbn [gapLoop]; [done|]. destruct n' as [|n']; [done|]. rewrite Hn.
  destruct (nextAllowed _ _ _ _ _) as [x m]. destruct (IsZero x); [done|].
  destruct (e <? x); [destruct (_ || _); [done|]|]; apply IH.
Qed.

Lemma rpoKey_window i j :
  savedWindow i -> savedWindow j -> rpoKey IsPrint i = rpoKey IsPrint j -> jCron i = jCron j /\ sameHours (jWindow i) (jWindow j).
Proof.
  unfold savedWindow, rpoKey. intros Hi Hj [= Hc E]. split; [done|]. revert E.
  destruct (jWindow i) as [w|], (jWindow j) as [v|]; try done. cbn [sameHours].
  destruct (Hi _ eq_refl) as [[_ [Dw _] (a & b & Sw & Ew & _)] Tw]. destruct (Hj _ eq_refl) as [[_ [Dv _] (a' & b' & Sv & Ev & _)] Tv].
  assert (∀ l, l `sublist_of` WindowDays -> Forall plainName l /\ allBytes isASCII (String.concat "," l) = true) as Hd.
  { intros l Hl. assert (Forall (λ d, plainName d /\ allBytes isASCII d = true) l) as HP.
    { apply Forall_forall. intros d Hin. pose proof WindowDays_plain as HP. rewrite Forall_forall in HP. apply HP. by eapply elem_of_sublist. }
    apply Forall_and in HP as [? ?]. split; [done|by apply concat_ascii]. }
  destruct (Hd _ Dw) as [Pw Aw]. destruct (Hd _ Dv) as [Pv Av].
  apply clockMinutes_ascii in Sw, Ew, Sv, Ev. intros E.
  apply Quote_sep_inj in E as [-> E]; [|done..]. apply Quote_sep_inj in E as [E1 E]; [|done..].
  apply Quote_sep_inj in E as [-> E]; [|done..]. apply Quote_inj in E as [-> _]; [|done..].
  split_and!; [done| |done|done]. by apply concat_inj.
Qed.

(** What the cache holds: the interval of a job with the key. *)
Definition cacheOK (r : RPOs) : Prop :=
  ∀ k v, rpIntervals r !! k = Some v ->
    ∃ j, savedWindow j /\ rpoKey IsPrint j = k /\ v = WindowedInterval cronParse LoadLocation (jCron j) (jWindow j) (rpFrom r).

Lemma Effective_spec j r :
  savedWindow j -> cacheOK r ->
  (Effective cronParse LoadLocation IsPrint j r).1 = EffectiveRPO cronParse LoadLocation j (rpFrom r) /\
  cacheOK (Effective cronParse LoadLocation IsPrint j r).2 /\ rpFrom (Effective cronParse LoadLocation IsPrint j r).2 = rpFrom r.
Proof.
  intros Hj Hr. unfold Effective, EffectiveRPO. destruct (0 <? jRPOMinutes j); [done|].
  destruct (rpIntervals r !! rpoKey IsPrint j) as [v|] eqn:E.
  - cbn. split; [|done]. destruct (Hr _ _ E) as (i & Hi & Hk & ->). f_equal.
    destruct (rpoKey_window _ _ Hi Hj Hk) as [Ec Hw]. rewrite Ec. by apply sameHours_interval.
  - cbn. split; [done|]. split; [|done]. intros k v. cbn [rpIntervals rpFrom]. rewrite lookup_insert_Some.
    intros [[<- <-]|[_ H]]; [by exists j|]. by apply Hr.
Qed.

(** The cache changes no objective: whatever jobs were evaluated before, [RPOs]
    gives every job the recovery point objective [EffectiveRPO] computes from its own
    schedule and window. *)
Theorem rpos_cache_exact jobs from :
  (∀ j, j ∈ jobs -> savedWindow j) ->
  effectiveAll cronParse LoadLocation IsPrint jobs (NewRPOs from) =
  (λ j, EffectiveRPO cronParse LoadLocation j from) <$> jobs.
Proof.
  assert (cacheOK (NewRPOs from) /\ rpFrom (NewRPOs from) = from) as [H0 Hf] by done. revert H0 Hf.
  generalize (NewRPOs from). induction jobs as [|j jobs IH]; intros r Hr Hf Hj; [done|]. cbn [effectiveAll].
  destruct (Effective_spec j r) as (E & Hr' & Hf'); [apply Hj; set_solver|done|].
  destruct (Effective _ _ _ j r) as [x r']. cbn [fst snd] in *. rewrite fmap_cons, E, Hf. f_equal.
  apply IH; [done|congruence|]. intros i Hi. apply Hj. set_solver.
Qed.
End Cache.

(** ** A concrete parser *)

(** Every day at [times] (after midnight) in the zone of the time given; the server is
    [offset] east of UTC. *)
Definition dailyAt (offset : Z) (times : list Z) : Schedule := λ z t,
  let o := match z with ZLocal => offset | ZUTC => 0 end in
  let d := (t + o) / day in
  default 0 (head (filter (λ x, t < x) ((λ h, d * day + h - o) <$> times ++ ((λ h, day + h) <$> times)))).

Definition demoCron (offset : Z) (spec : string) : Parsed :=
  if bool_decide (spec = "TZ=UTC") then PPanic
  else if bool_decide (spec = "0 2 * * *") then PSchedule (dailyAt offset [2 * hour])
  else if bool_decide (spec = "0 9,10 * * *") then PSchedule (dailyAt offset [9 * hour; 10 * hour])
  else if bool_decide (spec = "0 9,17 * * *") then PSchedule (dailyAt offset [9 * hour; 17 * hour])
  else if bool_decide (spec = "@hourly") then PSchedule (dailyAt offset ((λ h, h * hour) <$> seqZ 0 24))
  else PError.

#[export] Instance demoCron_laws offset : CronLaws (demoCron offset).
Proof.
  split. intros expr sched z t. unfold demoCron.
  assert (∀ times, dailyAt offset times z t = 0 \/ t < dailyAt offset times z t) as H.
  { intros times. unfold dailyAt. destruct (head _) as [x|] eqn:E; [|by left]. right. cbn.
    apply head_Some_elem_of in E. by apply list_elem_of_filter in E as [? _]. }
  repeat (case_bool_decide; [by intros [= <-] || done|]). done.
Qed.

Definition demoJob (id cron : string) (w : option BackupWindow) : Job :=
  mkJob id "nightly" cron "app" (mkSelection SelectionSingle ["app"] [] [] [] false) None 1 "t1" true None "c1" None None
    (utcTime 2026 9 1 0 0) 0 w 7 0.

(** "0 9,17 * * *" is 16 hours, also at noon. *)
Lemma interval_is_largest_gap_witness :
  let from := utcTime 2026 10 5 12 0 in
  let start := from - intervalWindow in
  let runs := allowedRuns demoZones (dailyAt (3 * hour) [9 * hour; 17 * hour]) None maxIntervalRuns start in
  let interval := WindowedInterval (demoCron (3 * hour)) demoZones "0 9,17 * * *" None from in
  (∀ p n, follow runs p n -> p <= from \/ (intervalWindow < interval /\ p <= start + intervalLongWindow) ->
          time_sub n p <= interval) /\
  (interval = 0 \/ ∃ p n, follow runs p n /\ interval = time_sub n p).
Proof. apply (interval_is_largest_gap (demoCron (3 * hour)) demoZones "0 9,17 * * *" None). reflexivity. Defined.

Example interval_of_two_a_day :
  Interval (demoCron (3 * hour)) demoZones "0 9,17 * * *" (utcTime 2026 10 5 12 0) = 16 * hour /\
  WindowedInterval (demoCron (3 * hour)) demoZones "@hourly" (Some (mkWindow "" [] "01:00" "05:00" false)) (utcTime 2026 10 5 12 0) = 21 * hour.
Proof. vm_compute. done. Qed.

Lemma rpos_cache_exact_witness :
  let jobs := [demoJob "a" "0 2 * * *" (Some mondayNight); demoJob "b" "0 2 * * *" None] in
  effectiveAll (demoCron 0) demoZones (λ _, true) jobs (NewRPOs (utcTime 2026 10 5 12 0)) =
  (λ j, EffectiveRPO (demoCron 0) demoZones j (utcTime 2026 10 5 12 0)) <$> jobs.
Proof.
  apply (rpos_cache_exact (demoCron 0) demoZones (λ _, true)). intros j Hj w Hw.
  repeat (apply elem_of_cons in Hj as [->|Hj]); [| |by apply not_elem_of_nil in Hj]; cbn in Hw; [|done].
  injection Hw as <-. split; [|reflexivity]. split; [eexists; reflexivity| |].
  - split; [|done]. cbn. apply sublist_skip, sublist_nil_l.
  - exists 1320, 120. split_and!; (reflexivity || lia).
Defined.

Example zone_prefix_without_schedule : safeParse (demoCron 0) "TZ=UTC" = None /\ ValidateCron (demoCron 0) "0 2 * * *" = true.
Proof. vm_compute. done. Qed.
