(* ===== verification/Scheduler.v ===== *)
(** * The scheduler: registration, triggers and liveness
    ([internal/scheduler/scheduler.go], [clockstep.go], [pause.go])

    The cron runner (robfig/cron) holds entries under IDs of its own; the scheduler keeps
    the entry of each job, the latest trigger of each job and its life cycle flags. The
    operations that take the scheduler's lock are single steps; the load of the jobs that
    is retried in the background lists the store without the lock, in steps of its own. *)

From S2P Require Import Prelude GoStrings Zones Glob Selection Backup BackupWindow Jobs Schedule.

(** A reading of [time.Now]: the wall clock and the monotonic clock. *)
Record Clock : Type := mkClock { ckWall : Z; ckMono : Z }.

(** What a cron entry runs. *)
Inductive callback : Type := CJob (id : string) | CResumeDue | CMaintenance.

Record cronEntry : Type := mkEntry { ceCall : callback; ceSched : Schedule }.

Record Sched : Type := mkSched {
  scCron : gmap nat cronEntry;
  scNextID : nat;
  scEntries : gmap string nat;
  scLastTrigger : gmap string Clock;
  scStarted : bool;
  scStopped : bool;
  scPaused : bool;
  scChanges : Z;
  scLastTick : option Z;
  scClockRef : option Clock
}.

Definition withCron (c : gmap nat cronEntry) (next : nat) (e : gmap string nat) (s : Sched) : Sched :=
  mkSched c next e (scLastTrigger s) (scStarted s) (scStopped s) (scPaused s) (scChanges s) (scLastTick s) (scClockRef s).
Definition withTrigger (t : gmap string Clock) (s : Sched) : Sched :=
  mkSched (scCron s) (scNextID s) (scEntries s) t (scStarted s) (scStopped s) (scPaused s) (scChanges s) (scLastTick s) (scClockRef s).
Definition withLife (started stopped paused : bool) (s : Sched) : Sched :=
  mkSched (scCron s) (scNextID s) (scEntries s) (scLastTrigger s) started stopped paused (scChanges s) (scLastTick s) (scClockRef s).
Definition withTick (t : option Z) (s : Sched) : Sched :=
  mkSched (scCron s) (scNextID s) (scEntries s) (scLastTrigger s) (scStarted s) (scStopped s) (scPaused s) (scChanges s) t (scClockRef s).
Definition withRef (r : option Clock) (s : Sched) : Sched :=
  mkSched (scCron s) (scNextID s) (scEntries s) (scLastTrigger s) (scStarted s) (scStopped s) (scPaused s) (scChanges s) (scLastTick s) r.
(** [s.changes++]; the counter has 64 bits and counts registrations. *)
Definition changed (s : Sched) : Sched :=
  mkSched (scCron s) (scNextID s) (scEntries s) (scLastTrigger s) (scStarted s) (scStopped s) (scPaused s) (scChanges s + 1)
    (scLastTick s) (scClockRef s).

(** [NewScheduler]. *)
Definition NewScheduler : Sched := mkSched ∅ 0 ∅ ∅ false false false 0 None None.

Definition ActiveJobCount (s : Sched) : nat := size (scEntries s).

(** ** The jobs of the store *)

Notation Jobs := (gmap string Job).

Definition jobCmp (a b : Job) : comparison := cmpThen (strCmp (jName a) (jName b)) (strCmp (jID a) (jID b)).

(** [ListJobs]: by name, then ID. *)
Definition ListJobs (db : Jobs) : list Job := stable_sort (cmpLess jobCmp) ((map_to_list db).*2).

(** [UpdateJobRunTimes]; [None] keeps a time. *)
Definition UpdateJobRunTimes (id : string) (last next : option Z) (db : Jobs) : Jobs :=
  match db !! id with
  | None => db
  | Some j => <[id := withRuns (match last with Some _ => last | None => jLastRun j end)
                               (match next with Some _ => next | None => jNextRun j end) j]> db
  end.

Section Scheduler.
Context (cronParse : string -> Parsed).

(** [cron.AddFunc]: [None] when the expression cannot be parsed. *)
Definition AddFunc (expr : string) (call : callback) (s : Sched) : option (nat * Sched) :=
  sched ← safeParse cronParse expr;
  Some (scNextID s, withCron (<[scNextID s := mkEntry call sched]> (scCron s)) (S (scNextID s)) (scEntries s) s).

(** Removes the cron entry of job [id], when it has one. *)
Definition removeEntry (id : string) (s : Sched) : Sched :=
  match scEntries s !! id with
  | Some e => withCron (delete e (scCron s)) (scNextID s) (delete id (scEntries s)) s
  | None => s
  end.

(** [registerJobLocked] at the local time [now]; [saved] tells whether the store accepts
    the job's next run. The result tells whether the job was registered (or removed). *)
Definition registerJobLocked (now : Z) (saved : bool) (j : Job) (s : Sched) (db : Jobs) : bool * Sched * Jobs :=
  if bool_decide (jID j = "") then (false, s, db)
  else
    let s := removeEntry (jID j) (changed s) in
    if negb (jEnabled j) then (true, s, db)
    else match AddFunc (jCron j) (CJob (jID j)) s with
    | None => (false, s, db)
    | Some (e, s) =>
        let s := withCron (scCron s) (scNextID s) (<[jID j := e]> (scEntries s)) s in
        let db := if saved then UpdateJobRunTimes (jID j) None (nextRun cronParse (jCron j) ZLocal now) db else db in
        (true, s, db)
    end.

Definition UnregisterJob (id : string) (s : Sched) : Sched :=
  let s := changed s in
  removeEntry id (withTrigger (delete id (scLastTrigger s)) s).

(** [ApplyJobUpdate] whose [persist] stores [j] ([stored]: the store accepts it). *)
Definition ApplyJobUpdate (now : Z) (stored saved : bool) (j : Job) (s : Sched) (db : Jobs) : bool * Sched * Jobs :=
  if negb stored then (false, s, db)
  else let '(_, s, db) := registerJobLocked now saved j s (<[jID j := j]> db) in (true, s, db).

(** [saved] tells for which jobs the store accepts the next run. *)
Fixpoint registerJobsLocked (now : Z) (saved : string -> bool) (jobs : list Job) (s : Sched) (db : Jobs) : Sched * Jobs :=
  match jobs with
  | [] => (s, db)
  | j :: jobs =>
      if jEnabled j
      then let '(_, s, db) := registerJobLocked now (saved (jID j)) j s db in registerJobsLocked now saved jobs s db
      else registerJobsLocked now saved jobs s db
  end.

(** ** Paused jobs *)

Definition dueToResume (now : Z) (j : Job) : bool :=
  negb (jEnabled j) && match jPausedUntil j with Some u => u <=? now | None => false end.

(** One turn of [resumeDueJobs]: the job is read again under the lock. *)
Definition resumeJob (now : Z) (stored saved : bool) (id : string) (s : Sched) (db : Jobs) : Sched * Jobs :=
  match db !! id with
  | None => (s, db)
  | Some current =>
      if dueToResume now current
      then let '(_, s, db) := ApplyJobUpdate now stored saved (withEnabled true None current) s db in (s, db)
      else (s, db)
  end.

Fixpoint resumeJobs (now : Z) (stored saved : string -> bool) (jobs : list Job) (s : Sched) (db : Jobs) : Sched * Jobs :=
  match jobs with
  | [] => (s, db)
  | j :: jobs =>
      if dueToResume now j
      then let '(s, db) := resumeJob now (stored (jID j)) (saved (jID j)) (jID j) s db in resumeJobs now stored saved jobs s db
      else resumeJobs now stored saved jobs s db
  end.

Definition resumeDueJobs (now : Z) (listed : bool) (stored saved : string -> bool) (s : Sched) (db : Jobs) : Sched * Jobs :=
  if scStopped s || negb listed then (s, db) else resumeJobs now stored saved (ListJobs db) s db.

(** ** Life cycle *)

Inductive StartErr : Type := ErrStopped | ErrAlreadyStarted.

Definition resumeCheckSchedule : string := "@every 1m".
Definition maintenanceSchedule : string := "@every 10m".

Definition recordTick (now : Clock) (s : Sched) : Sched := withTick (Some (ckMono now)) s.

(** Adds an entry of the scheduler's own; one that cannot be added is logged. *)
Definition addOwn (expr : string) (call : callback) (s : Sched) : Sched :=
  match AddFunc expr call s with Some (_, s) => s | None => s end.

(** [Start]; [listed] tells whether the jobs can be listed. The last component tells
    whether a retry of the load was started. *)
Definition Start (now : Clock) (listed : bool) (saved : string -> bool) (s : Sched) (db : Jobs) : result StartErr (Sched * Jobs * bool) :=
  if scStopped s then Err ErrStopped
  else if scStarted s then Err ErrAlreadyStarted
  else
    let s := withRef (Some now) (withLife true (scStopped s) (scPaused s) s) in
    let '(s, db) := if listed then registerJobsLocked (ckWall now) saved (ListJobs db) s db else (s, db) in
    let s := addOwn resumeCheckSchedule CResumeDue s in
    let s := recordTick now s in
    let s := addOwn maintenanceSchedule CMaintenance s in
    Ok (s, db, negb listed).

Definition Stop (s : Sched) : Sched := withLife (scStarted s) true (scPaused s) s.
Definition Pause (s : Sched) : Sched := withLife (scStarted s) (scStopped s) true s.
Definition Resume (s : Sched) : Sched := withLife (scStarted s) (scStopped s) false s.

(** ** Liveness *)

Definition TickInterval : Z := 30 * second.
Definition StaleAfter : Z := 3 * TickInterval.

Definition tick (now : Clock) (s : Sched) : Sched := if scStopped s then s else recordTick now s.

Definition Stale (now : Clock) (s : Sched) : bool :=
  match scLastTick s with Some t => StaleAfter <? ckMono now - t | None => false end.

(** ** Triggers *)

Definition clockJumpThreshold : Z := 30 * second.

(** [fenceAllows]: [fence] is [None] without HA, else the answer of [Check], given
    whether the lease was renewed first. The result also tells whether it was. *)
Definition fenceAllows (now : Clock) (fence : option (bool -> bool)) (s : Sched) : bool * bool * Sched :=
  match fence with
  | None => (true, false, s)
  | Some check =>
      let ref := scClockRef s in
      let s := withRef (Some now) s in
      let renewed :=
        match ref with
        | None => false
        | Some ref =>
            let drift := (ckWall now - ckWall ref) - (ckMono now - ckMono ref) in
            (clockJumpThreshold <? drift) || (drift <? - clockJumpThreshold)
        end in
      (check renewed, renewed, s)
  end.

(** Half the time from [prev], which carries zone [z], to the schedule's next time. *)
Definition halfInterval (sched : Schedule) (z : zone) (prev : Z) : Z := Z.quot (time_sub (sched z prev) prev) 2.

(** [lastScheduledStart] on the newest executed runs of the job ([None]: unreadable). *)
Definition lastScheduledStart (runs : option (list JobRun)) : option Z :=
  runs ← runs;
  runStarted <$> head (filter (λ r, runTrigger r = TriggerScheduled /\ IsZero (runStarted r) = false) runs).

Definition entrySchedule (id : string) (s : Sched) : option Schedule := e ← scEntries s !! id; ceSched <$> scCron s !! e.

(** [repeatedTrigger]: the time of a recorded run carries UTC, that of a trigger the
    server's zone. *)
Definition repeatedTrigger (now : Clock) (id : string) (executed : option (list JobRun)) (s : Sched) : bool * Sched :=
  match (if scStopped s then None else entrySchedule id s) with
  | None => (false, s)
  | Some sched =>
      let seen := scLastTrigger s !! id in
      let repeated :=
        match seen with
        | Some prev => ckMono now - ckMono prev <? halfInterval sched ZLocal (ckWall prev)
        | None =>
            match lastScheduledStart executed with
            | Some prevStart => time_sub (ckWall now) prevStart <? halfInterval sched ZUTC prevStart
            | None => false
            end
        end in
      (repeated,
       if negb repeated || negb (bool_decide (is_Some seen)) then withTrigger (<[id := now]> (scLastTrigger s)) s else s)
  end.

(** [recordNextRun] after [at_], a local time: keeps the job's last run. *)
Definition recordNextRun (id : string) (at_ : Z) (saved : bool) (s : Sched) (db : Jobs) : Jobs :=
  match entrySchedule id s with
  | None => db
  | Some sched => if saved then UpdateJobRunTimes id None (Some (sched ZLocal at_)) db else db
  end.

(** [recordRunTimes]: the run ended [now], in UTC. *)
Definition recordRunTimes (id : string) (now : Z) (saved : bool) (s : Sched) (db : Jobs) : Jobs :=
  if saved then UpdateJobRunTimes id (Some now) ((λ sched, sched ZUTC now) <$> entrySchedule id s) db else db.

(** What a cron trigger of a job leads to. *)
Inductive Fired : Type := FireFenced | FireRepeated | FireStopped | FirePaused | FireRun.

(** [runScheduled], up to the execution of the job. *)
Definition runScheduled (s : Sched) : Fired :=
  if scStopped s then FireStopped else if scPaused s then FirePaused else FireRun.

Definition cronFire (now : Clock) (fence : option (bool -> bool)) (id : string) (executed : option (list JobRun)) (saved : bool)
    (s : Sched) (db : Jobs) : Fired * Sched * Jobs :=
  let '(allowed, _, s) := fenceAllows now fence s in
  if negb allowed then (FireFenced, s, db)
  else
    let '(repeated, s) := repeatedTrigger now id executed s in
    if repeated then (FireRepeated, s, recordNextRun id (ckWall now) saved s db)
    else (runScheduled s, s, db).

(** [startCatchUp]: counts as the job's latest trigger; the second component is what the
    run in the background finds. *)
Definition startCatchUp (now : Clock) (id : string) (s : Sched) : bool * Sched :=
  if scStopped s || negb (scStarted s) then (false, s)
  else (true, withTrigger (<[id := now]> (scLastTrigger s)) s).

(** ** The scheduler with its store *)

(** Where the background load stands: none, waiting for its timer, after it read the
    counter of changes, and after it listed the jobs. *)
Inductive retry : Type := RNone | RWaiting | RSeen (seen : Z) | RListed (seen : Z) (jobs : list Job).

Record World : Type := mkWorld { wSched : Sched; wJobs : Jobs; wRetry : retry }.

Definition start : World := mkWorld NewScheduler ∅ RNone.

(** The delay of the next load after a failed one. *)
Definition nextDelay (limit delay : Z) : Z := Z.min (2 * delay) limit.

(** The steps of [retryLoad]. *)
Definition retrySeen (w : World) : World :=
  match wRetry w with
  | RWaiting => mkWorld (wSched w) (wJobs w) (if scStopped (wSched w) then RNone else RSeen (scChanges (wSched w)))
  | _ => w
  end.

Definition retryList (listed : bool) (w : World) : World :=
  match wRetry w with
  | RSeen seen => mkWorld (wSched w) (wJobs w) (if listed then RListed seen (ListJobs (wJobs w)) else RWaiting)
  | _ => w
  end.

Definition retryRegister (now : Z) (saved : string -> bool) (w : World) : World :=
  match wRetry w with
  | RListed seen jobs =>
      if scStopped (wSched w) then mkWorld (wSched w) (wJobs w) RNone
      else if negb (scChanges (wSched w) =? seen) then mkWorld (wSched w) (wJobs w) RWaiting
      else let '(s, db) := registerJobsLocked now saved jobs (wSched w) (wJobs w) in mkWorld s db RNone
  | _ => w
  end.

(** The steps: job writes through the scheduler, the two halves of a deletion
    ([operations.DeleteJob]: the job is unregistered, then deleted from the store), the
    turns of the resumption of paused jobs, triggers, and the life cycle. *)
Inductive op : Type :=
| OApply (now : Z) (stored saved : bool) (j : Job)
| OUnregister (id : string)
| OStoreDelete (id : string) (ok : bool)
| OResumeJob (now : Z) (stored saved : bool) (id : string)
| OStart (now : Clock) (listed : bool) (saved : string -> bool)
| ORetrySeen
| ORetryList (listed : bool)
| ORetryRegister (now : Z) (saved : string -> bool)
| OFire (now : Clock) (fence : option (bool -> bool)) (id : string) (executed : option (list JobRun)) (saved : bool)
| OCatchUp (now : Clock) (id : string)
| ORunTimes (id : string) (now : Z) (saved : bool)
| OTick (now : Clock)
| OPause
| OResume
| OStop.

Definition onSched (r : Sched * Jobs) (w : World) : World := mkWorld r.1 r.2 (wRetry w).

(** The store refuses a job without an ID. *)
Definition exec (w : World) (o : op) : World :=
  let s := wSched w in
  let db := wJobs w in
  match o with
  | OApply now stored saved j =>
      let '(_, s, db) := ApplyJobUpdate now (stored && negb (bool_decide (jID j = ""))) saved j s db in onSched (s, db) w
  | OUnregister id => onSched (UnregisterJob id s, db) w
  | OStoreDelete id ok => onSched (s, if ok then delete id db else db) w
  | OResumeJob now stored saved id => onSched (resumeJob now stored saved id s db) w
  | OStart now listed saved =>
      match Start now listed saved s db with
      | Err _ => w
      | Ok (s, db, retrying) => mkWorld s db (if retrying then RWaiting else RNone)
      end
  | ORetrySeen => retrySeen w
  | ORetryList listed => retryList listed w
  | ORetryRegister now saved => retryRegister now saved w
  | OFire now fence id executed saved => let '(_, s, db) := cronFire now fence id executed saved s db in onSched (s, db) w
  | OCatchUp now id => onSched ((startCatchUp now id s).2, db) w
  | ORunTimes id now saved => onSched (s, recordRunTimes id now saved s db) w
  | OTick now => onSched (tick now s, db) w
  | OPause => onSched (Pause s, db) w
  | OResume => onSched (Resume s, db) w
  | OStop => onSched (Stop s, db) w
  end.

Definition run (ops : list op) : World := foldl exec start ops.
End Scheduler.
