(* ===== verification/SchedulerSync.v ===== *)
(** * The scheduler keeps one entry per job, in step with the store

    The invariant of the cron entries over every sequence of job writes, deletions,
    resumptions, triggers and loads, with the loads retried in the background, and what it
    means for the schedules that run. *)

From S2P Require Import Prelude GoStrings Zones Glob Selection Backup BackupWindow Jobs Schedule Scheduler.

(** The entries of the scheduler are the job entries of the cron runner. *)
Record EntriesOK (s : Sched) : Prop := mkEntriesOK {
  ent_cron id e : scEntries s !! id = Some e -> ∃ sched, scCron s !! e = Some (mkEntry (CJob id) sched);
  ent_back id e sched : scCron s !! e = Some (mkEntry (CJob id) sched) -> scEntries s !! id = Some e;
  ent_fresh e : is_Some (scCron s !! e) -> (e < scNextID s)%nat
}.

(** What the steps that register nothing leave alone. *)
Definition sameEntries (s s' : Sched) : Prop :=
  scCron s' = scCron s /\ scNextID s' = scNextID s /\ scEntries s' = scEntries s.

Lemma sameEntries_OK s s' : sameEntries s s' -> EntriesOK s -> EntriesOK s'.
Proof. intros (Hc & Hn & He) [H1 H2 H3]. split; rewrite ?Hc, ?Hn, ?He; auto. Qed.

Lemma sameEntries_schedule s s' id : sameEntries s s' -> entrySchedule id s' = entrySchedule id s.
Proof. intros (Hc & _ & He). unfold entrySchedule. by rewrite Hc, He. Qed.

(** The part of a job the entries depend on. *)
Definition shape (j : Job) : bool * string := (jEnabled j, jCron j).

(** The stored jobs are the same, but for their run times. *)
Definition sameJobs (db db' : Jobs) : Prop := ∀ id, (λ j, (jID j, shape j)) <$> db' !! id = (λ j, (jID j, shape j)) <$> db !! id.

#[export] Instance sameJobs_preorder : PreOrder sameJobs.
Proof. split; [by intros db id|]. intros a b c H1 H2 id. by rewrite H2. Qed.

Lemma UpdateJobRunTimes_same id last next db : sameJobs db (UpdateJobRunTimes id last next db).
Proof.
  intros k. unfold UpdateJobRunTimes. destruct (db !! id) as [j|] eqn:E; [|done].
  destruct (decide (k = id)) as [->|Hk]; [by rewrite lookup_insert_eq, E|by rewrite lookup_insert_ne].
Qed.

(** ** Registering a job *)

Lemma removeEntry_spec id s :
  EntriesOK s ->
  EntriesOK (removeEntry id s) /\ entrySchedule id (removeEntry id s) = None /\
  (∀ k, k <> id -> entrySchedule k (removeEntry id s) = entrySchedule k s) /\
  scChanges (removeEntry id s) = scChanges s.
Proof.
  intros [H1 H2 H3]. unfold removeEntry. destruct (scEntries s !! id) as [e|] eqn:E.
  - split; [split; cbn [withCron scCron scEntries scNextID]|split_and!].
    + intros k x. rewrite lookup_delete_Some. intros [Hk Hx]. destruct (H1 _ _ Hx) as [sched Hs]. exists sched.
      rewrite lookup_delete_ne; [done|]. intros <-. destruct (H1 _ _ E). congruence.
    + intros k x sched. rewrite lookup_delete_Some. intros [Hx Hs]. apply H2 in Hs as Hk.
      rewrite lookup_delete_ne; [done|]. intros <-. congruence.
    + intros x [c Hc%lookup_delete_Some]. apply H3. exists c. tauto.
    + unfold entrySchedule. cbn. by rewrite lookup_delete_eq.
    + intros k Hk. unfold entrySchedule. cbn. rewrite lookup_delete_ne by done. destruct (scEntries s !! k) as [x|] eqn:Ek; [|done].
      cbn. rewrite lookup_delete_ne; [done|]. intros <-. destruct (H1 _ _ Ek), (H1 _ _ E). congruence.
    + done.
  - split_and!; [done| |done|done]. unfold entrySchedule. by rewrite E.
Qed.

Lemma AddFunc_spec cronParse expr call s e s' :
  EntriesOK s -> AddFunc cronParse expr call s = Some (e, s') ->
  ∃ sched, safeParse cronParse expr = Some sched /\ e = scNextID s /\
    s' = withCron (<[scNextID s := mkEntry call sched]> (scCron s)) (S (scNextID s)) (scEntries s) s /\ scCron s !! e = None.
Proof.
  intros HE. unfold AddFunc. destruct (safeParse cronParse expr) as [sched|]; [|done]. intros [= <- <-].
  exists sched. split_and!; [done..|]. apply eq_None_not_Some. intros H%(ent_fresh _ HE). lia.
Qed.

Section Sync.
Context (cronParse : string -> Parsed).

(** The schedule a stored job should run on. *)
Definition target (j : Job) : option Schedule := if jEnabled j then safeParse cronParse (jCron j) else None.

(** What registering job [j] leaves. *)
Record Registered (j : Job) (s : Sched) (db : Jobs) (s' : Sched) (db' : Jobs) : Prop := mkRegistered {
  rg_ok : EntriesOK s';
  rg_self : entrySchedule (jID j) s' = target j;
  rg_other k : k <> jID j -> entrySchedule k s' = entrySchedule k s;
  rg_changes : scChanges s' = scChanges s + 1;
  rg_life : scStarted s' = scStarted s /\ scStopped s' = scStopped s;
  rg_jobs : sameJobs db db'
}.

Lemma registerJobLocked_spec now saved j s db ok s' db' :
  EntriesOK s -> jID j <> "" -> registerJobLocked cronParse now saved j s db = (ok, s', db') -> Registered j s db s' db'.
Proof.
  intros HE Hid. unfold registerJobLocked. rewrite bool_decide_false by done.
  assert (EntriesOK (changed s)) as HE' by (by apply (sameEntries_OK s)).
  destruct (removeEntry_spec (jID j) _ HE') as (HR & Hself & Hoth & Hch).
  assert (scStarted (removeEntry (jID j) (changed s)) = scStarted s /\ scStopped (removeEntry (jID j) (changed s)) = scStopped s) as Hlife.
  { unfold removeEntry. by destruct (_ !! _). }
  set (r := removeEntry (jID j) (changed s)) in *.
  assert (∀ k, k <> jID j -> entrySchedule k r = entrySchedule k s) as Hoth' by exact Hoth. clear Hoth. rename Hoth' into Hoth.
  destruct (jEnabled j) eqn:En; cbn [negb].
  - destruct (AddFunc cronParse (jCron j) (CJob (jID j)) r) as [[e s1]|] eqn:HA.
    + destruct (AddFunc_spec _ _ _ _ _ _ HR HA) as (sched & Hp & He & -> & Hn). intros [= <- <- <-].
      assert (scEntries r !! jID j = None) as Hnone.
      { destruct (scEntries r !! jID j) as [x|] eqn:Ex; [|done]. unfold entrySchedule in Hself. rewrite Ex in Hself.
        destruct (ent_cron _ HR _ _ Ex) as [sc Hsc]. cbn in Hself. by rewrite Hsc in Hself. }
      split; cbn [withCron scCron scNextID scEntries scChanges scStarted scStopped].
      * rewrite He in *. split; cbn [withCron scCron scNextID scEntries].
        -- intros k x [[<- <-]|[Hk Hx]]%lookup_insert_Some; [exists sched; by rewrite lookup_insert_eq|].
           destruct (ent_cron _ HR _ _ Hx) as [sc Hsc]. exists sc. rewrite lookup_insert_ne; [done|]. intros <-. congruence.
        -- intros k x sc [[<- [= <- <-]]|[Hx Hsc]]%lookup_insert_Some; [by rewrite lookup_insert_eq|].
           apply (ent_back _ HR) in Hsc as Hk. rewrite lookup_insert_ne; [done|]. intros <-. congruence.
        -- intros x [c [[<- _]|[_ Hc]]%lookup_insert_Some]; [lia|]. pose proof (ent_fresh _ HR x (ex_intro _ c Hc)). lia.
      * rewrite He. unfold entrySchedule. cbn. rewrite lookup_insert_eq. cbn. rewrite lookup_insert_eq. unfold target. by rewrite En, Hp.
      * intros k Hk. rewrite <- (Hoth k Hk). unfold entrySchedule. cbn. rewrite lookup_insert_ne by done.
        destruct (scEntries r !! k) as [x|] eqn:Ex; [|done]. cbn. rewrite lookup_insert_ne; [done|].
        intros <-. destruct (ent_cron _ HR _ _ Ex). rewrite <- He in *. congruence.
      * by rewrite Hch.
      * done.
      * destruct saved; [apply UpdateJobRunTimes_same|done].
    + intros [= <- <- <-]. assert (safeParse cronParse (jCron j) = None) as Hp.
      { unfold AddFunc in HA. by destruct (safeParse cronParse (jCron j)). }
      split; auto; [unfold target; by rewrite En, Hp|done].
  - intros [= <- <- <-]. split; auto; [unfold target; by rewrite En|done].
Qed.

(** ** Registering a listing *)

Lemma ListJobs_elem db j : j ∈ ListJobs db <-> ∃ id, db !! id = Some j.
Proof.
  unfold ListJobs. rewrite elem_of_stable_sort, list_elem_of_fmap. split.
  - intros ([id x] & -> & H). apply elem_of_map_to_list in H. by exists id.
  - intros [id H]. exists (id, j). by rewrite elem_of_map_to_list.
Qed.

(** Every stored job is kept under its ID. *)
Definition keyed (db : Jobs) : Prop := ∀ id j, db !! id = Some j -> jID j = id /\ id <> "".

Lemma ListJobs_NoDup db : keyed db -> NoDup (jID <$> ListJobs db).
Proof.
  intros Hk. unfold ListJobs. rewrite (fmap_Permutation _ _ _ (stable_sort_Permutation _ _)).
  rewrite <- list_fmap_compose. rewrite (list_fmap_ext _ fst (map_to_list db)); [apply NoDup_fst_map_to_list|].
  intros i [id j] H. cbn. apply list_elem_of_lookup_2, elem_of_map_to_list in H. by apply Hk in H as [-> _].
Qed.

Lemma registerJobsLocked_spec now saved jobs : ∀ s db s' db',
  EntriesOK s -> NoDup (jID <$> jobs) -> (∀ j, j ∈ jobs -> jID j <> "") ->
  registerJobsLocked cronParse now saved jobs s db = (s', db') ->
  EntriesOK s' /\ sameJobs db db' /\ scChanges s <= scChanges s' /\
  scStarted s' = scStarted s /\ scStopped s' = scStopped s /\
  (∀ j, j ∈ jobs -> jEnabled j = true -> entrySchedule (jID j) s' = target j) /\
  (∀ id, (∀ j, j ∈ jobs -> jID j = id -> jEnabled j = false) -> entrySchedule id s' = entrySchedule id s).
Proof.
  induction jobs as [|j jobs IH]; intros s db s' db' HE Hnd Hid; cbn [registerJobsLocked].
  { intros [= <- <-]. split_and!; try done; set_solver. }
  rewrite fmap_cons, NoDup_cons in Hnd. destruct Hnd as [Hj Hnd].
  assert (∀ j', j' ∈ jobs -> jID j' <> jID j) as Hne by (intros j' Hin E; apply Hj; rewrite <- E; by apply list_elem_of_fmap_2).
  destruct (jEnabled j) eqn:En.
  - destruct (registerJobLocked _ _ _ j s db) as [[ok s1] db1] eqn:HR.
    apply registerJobLocked_spec in HR as [R1 R2 R3 R4 [R5 R6] R7]; [|done|apply Hid; set_solver].
    intros H. apply IH in H as (I1 & I2 & I3 & I4 & I5 & I6 & I7); [|done|done|intros ? ?; apply Hid; set_solver].
    split_and!; [done|by etrans|lia|congruence|congruence| |].
    + intros x [->|Hx]%elem_of_cons Hen; [|by apply I6]. rewrite I7; [done|]. intros y Hy E. by apply Hne in Hy.
    + intros id Hno. rewrite I7 by (intros y Hy; apply Hno; set_solver). apply R3. intros ->.
      specialize (Hno j ltac:(set_solver) eq_refl). congruence.
  - intros H. apply IH in H as (I1 & I2 & I3 & I4 & I5 & I6 & I7); [|done|done|intros ? ?; apply Hid; set_solver].
    split_and!; try done.
    + intros x [->|Hx]%elem_of_cons Hen; [congruence|by apply I6].
    + intros id Hno. apply I7. intros y Hy. apply Hno. set_solver.
Qed.

(** ** The invariant *)

(** The jobs that a deletion unregistered and that were not written since: the deletion is
    under way, or it failed and left the job stored without an entry. *)
Definition dangle (U : gset string) (o : op) : gset string :=
  match o with
  | OUnregister id => U ∪ {[id]}
  | OApply _ stored _ j => if stored && negb (bool_decide (jID j = "")) then U ∖ {[jID j]} else U
  | _ => U
  end.
Definition dangling (ops : list op) : gset string := foldl dangle ∅ ops.

Definition loaded (w : World) : Prop :=
  scStarted (wSched w) = true /\ scStopped (wSched w) = false /\ wRetry w = RNone.

Record Inv (U : gset string) (w : World) : Prop := mkInv {
  iv_entries : EntriesOK (wSched w);
  iv_keyed : keyed (wJobs w);
  iv_current id j : wJobs w !! id = Some j -> entrySchedule id (wSched w) = None \/ entrySchedule id (wSched w) = target j;
  iv_sync id j : loaded w -> wJobs w !! id = Some j -> id ∉ U -> entrySchedule id (wSched w) = target j;
  iv_seen seen : wRetry w = RSeen seen -> seen <= scChanges (wSched w);
  iv_listed seen jobs : wRetry w = RListed seen jobs ->
    seen <= scChanges (wSched w) /\ NoDup (jID <$> jobs) /\ (∀ j, j ∈ jobs -> jID j <> "") /\
    (scChanges (wSched w) = seen -> ∀ id j, wJobs w !! id = Some j -> ∃ j', j' ∈ jobs /\ jID j' = id /\ shape j' = shape j);
  iv_unstarted : scStarted (wSched w) = false -> wRetry w = RNone
}.

Lemma target_shape i j : shape i = shape j -> target i = target j.
Proof. unfold shape, target. by intros [= -> ->]. Qed.

Lemma sameJobs_lookup db db' id j' :
  sameJobs db db' -> db' !! id = Some j' -> ∃ j, db !! id = Some j /\ jID j' = jID j /\ shape j' = shape j.
Proof. intros H E. specialize (H id). rewrite E in H. destruct (db !! id) as [j|]; [|done]. cbn in H. exists j. unfold shape in *. split_and!; congruence. Qed.

(** Steps that touch no entry and no job. *)
Lemma Inv_calm U w s db :
  Inv U w -> sameEntries (wSched w) s -> sameJobs (wJobs w) db -> scChanges s = scChanges (wSched w) ->
  scStarted s = scStarted (wSched w) -> (scStopped s = false -> scStopped (wSched w) = false) ->
  Inv U (mkWorld s db (wRetry w)).
Proof.
  intros [I1 I2 I3 I4 I5 I6 I7] He Hj Hc Hs Hp. split; cbn [wSched wJobs wRetry].
  - by eapply sameEntries_OK.
  - intros id j' H. destruct (sameJobs_lookup _ _ _ _ Hj H) as (j & Hl & -> & _). eauto.
  - intros id j' H. destruct (sameJobs_lookup _ _ _ _ Hj H) as (j & Hl & _ & Hsh).
    rewrite (sameEntries_schedule _ _ _ He), (target_shape _ _ Hsh). eauto.
  - intros id j' (L1 & L2 & L3) H Hu. destruct (sameJobs_lookup _ _ _ _ Hj H) as (j & Hl & _ & Hsh).
    rewrite (sameEntries_schedule _ _ _ He), (target_shape _ _ Hsh). cbn in *. apply I4; [|done|done]. split_and!; [congruence|auto|done].
  - rewrite Hc. auto.
  - intros seen jobs H. destruct (I6 _ _ H) as (J1 & J2 & J3 & J4). rewrite Hc. split_and!; auto.
    intros E id j' Hl. destruct (sameJobs_lookup _ _ _ _ Hj Hl) as (j & Hl' & _ & ->). eauto.
  - rewrite Hs. done.
Qed.

Lemma Inv_delete U w id : Inv U w -> Inv U (mkWorld (wSched w) (delete id (wJobs w)) (wRetry w)).
Proof.
  intros [I1 I2 I3 I4 I5 I6 I7].
  assert (∀ k j, delete id (wJobs w) !! k = Some j -> wJobs w !! k = Some j) as Hd by (intros k j [_ H]%lookup_delete_Some; done).
  split; cbn [wSched wJobs wRetry].
  - done.
  - intros k j H%Hd. by apply I2.
  - intros k j H%Hd. eauto.
  - intros k j L H%Hd. eauto.
  - done.
  - intros seen jobs H. destruct (I6 _ _ H) as (J1 & J2 & J3 & J4). split_and!; [done..|]. intros E k j Hk%Hd. eauto.
  - done.
Qed.

(** A job is stored and registered. *)
Lemma Inv_apply U w now saved j ok s db :
  Inv U w -> jID j <> "" -> registerJobLocked cronParse now saved j (wSched w) (<[jID j := j]> (wJobs w)) = (ok, s, db) ->
  Inv (U ∖ {[jID j]}) (mkWorld s db (wRetry w)) /\ Inv U (mkWorld s db (wRetry w)).
Proof.
  intros [I1 I2 I3 I4 I5 I6 I7] Hid HR. apply registerJobLocked_spec in HR as [R1 R2 R3 R4 [R5 R6] R7]; [|done|done].
  assert (∀ id j', db !! id = Some j' -> ∃ i, <[jID j := j]> (wJobs w) !! id = Some i /\ jID j' = jID i /\ shape j' = shape i) as Hl.
  { intros id j' H. by eapply sameJobs_lookup. }
  assert (∀ V, (∀ id, id ∉ V -> id <> jID j -> id ∉ U) -> Inv V (mkWorld s db (wRetry w))) as HI; [|split; apply HI; set_solver].
  intros V HV. split; cbn [wSched wJobs wRetry]; auto.
  - intros id j' H. destruct (Hl _ _ H) as (i & Hi & -> & _). apply lookup_insert_Some in Hi as [[<- <-]|[_ Hi]]; eauto.
  - intros id j' H. destruct (Hl _ _ H) as (i & Hi & _ & Hsh). rewrite (target_shape _ _ Hsh).
    apply lookup_insert_Some in Hi as [[<- <-]|[Hne Hi]]; [by right|]. rewrite R3 by done. eauto.
  - intros id j' (L1 & L2 & L3) H Hu. destruct (Hl _ _ H) as (i & Hi & _ & Hsh). rewrite (target_shape _ _ Hsh).
    apply lookup_insert_Some in Hi as [[<- <-]|[Hne Hi]]; [done|]. rewrite R3 by done. cbn in *. apply I4; [|done|apply HV; done].
    split_and!; congruence.
  - intros seen H. specialize (I5 _ H). lia.
  - intros seen jobs H. destruct (I6 _ _ H) as (J1 & J2 & J3 & J4). split_and!; auto; lia.
  - rewrite R5. done.
Qed.

(** A listing is registered, at once or after the load was retried. *)
Lemma Inv_register U w now saved jobs s db :
  Inv U w -> NoDup (jID <$> jobs) -> (∀ j, j ∈ jobs -> jID j <> "") ->
  (∀ id j, wJobs w !! id = Some j -> ∃ j', j' ∈ jobs /\ jID j' = id /\ shape j' = shape j) ->
  registerJobsLocked cronParse now saved jobs (wSched w) (wJobs w) = (s, db) -> Inv U (mkWorld s db RNone).
Proof.
  intros [I1 I2 I3 I4 I5 I6 I7] Hnd Hid Hall HR.
  apply registerJobsLocked_spec in HR as (R1 & R2 & R3 & R4 & R5 & R6 & R7); [|done..].
  assert (∀ id j', db !! id = Some j' -> entrySchedule id s = target j') as Hsync.
  { intros id j' H. destruct (sameJobs_lookup _ _ _ _ R2 H) as (j & Hl & _ & Hsh). destruct (Hall _ _ Hl) as (i & Hin & Hi & Hs).
    rewrite (target_shape _ _ Hsh), <- (target_shape _ _ Hs). destruct (jEnabled i) eqn:En.
    - rewrite <- Hi. by apply R6.
    - rewrite R7.
      + unfold target. rewrite En. destruct (I3 _ _ Hl) as [-> | ->]; [done|]. rewrite <- (target_shape _ _ Hs). unfold target. by rewrite En.
      + intros k Hk Ek. assert (k = i) as ->; [|done]. eapply NoDup_fmap_inj_elem; eauto. congruence. }
  split; cbn [wSched wJobs wRetry]; auto; try done.
  intros id j' H. destruct (sameJobs_lookup _ _ _ _ R2 H) as (j & Hl & -> & _). eauto.
Qed.

Lemma Inv_unregister U w id : Inv U w -> Inv (U ∪ {[id]}) (mkWorld (UnregisterJob id (wSched w)) (wJobs w) (wRetry w)).
Proof.
  intros [I1 I2 I3 I4 I5 I6 I7]. unfold UnregisterJob. set (s0 := withTrigger _ _).
  assert (EntriesOK s0) as H0 by (by apply (sameEntries_OK (wSched w))).
  destruct (removeEntry_spec id _ H0) as (R1 & R2 & R3 & R4).
  assert (scStarted (removeEntry id s0) = scStarted (wSched w) /\ scStopped (removeEntry id s0) = scStopped (wSched w)) as [L1 L2].
  { unfold removeEntry. by destruct (_ !! _). }
  assert (∀ k, k <> id -> entrySchedule k (removeEntry id s0) = entrySchedule k (wSched w)) as R3' by exact R3.
  assert (scChanges (removeEntry id s0) = scChanges (wSched w) + 1) as R4' by exact R4.
  split; cbn [wSched wJobs wRetry]; auto.
  - intros k j H. destruct (decide (k = id)) as [->|Hk]; [by left|]. rewrite R3' by done. eauto.
  - intros k j (A & B & C) H Hu. rewrite R3' by set_solver. cbn in *. apply I4; [split_and!; congruence|done|set_solver].
  - intros seen H. specialize (I5 _ H). lia.
  - intros seen jobs H. destruct (I6 _ _ H) as (J1 & J2 & J3 & J4). split_and!; auto; lia.
  - rewrite L1. done.
Qed.

(** ** Every step *)

Lemma fenceAllows_same now fence s a r s' :
  fenceAllows now fence s = (a, r, s') ->
  sameEntries s s' /\ scChanges s' = scChanges s /\ scStarted s' = scStarted s /\ scStopped s' = scStopped s.
Proof. unfold fenceAllows. destruct fence; intros [= <- <- <-]; done. Qed.

Lemma repeatedTrigger_same now id executed s b s' :
  repeatedTrigger now id executed s = (b, s') ->
  sameEntries s s' /\ scChanges s' = scChanges s /\ scStarted s' = scStarted s /\ scStopped s' = scStopped s.
Proof.
  unfold repeatedTrigger. destruct (if scStopped s then _ else _); [|intros [= <- <-]; done].
  intros [= <- <-]. by destruct (_ || _).
Qed.

Lemma recordNextRun_same id at_ saved s db : sameJobs db (recordNextRun id at_ saved s db).
Proof. unfold recordNextRun. destruct (entrySchedule id s), saved; try done. apply UpdateJobRunTimes_same. Qed.

Lemma recordRunTimes_same id now saved s db : sameJobs db (recordRunTimes id now saved s db).
Proof. unfold recordRunTimes. destruct saved; [apply UpdateJobRunTimes_same|done]. Qed.

Lemma Inv_fire U w now fence id executed saved f s db :
  Inv U w -> cronFire now fence id executed saved (wSched w) (wJobs w) = (f, s, db) -> Inv U (mkWorld s db (wRetry w)).
Proof.
  intros HI. unfold cronFire. destruct (fenceAllows _ _ _) as [[a r] s1] eqn:HF.
  apply fenceAllows_same in HF as (F1 & F2 & F3 & F4). destruct a; cbn [negb].
  - destruct (repeatedTrigger _ _ _ _) as [b s2] eqn:HT. apply repeatedTrigger_same in HT as ((T1 & T2 & T3) & T4 & T5 & T6).
    destruct F1 as (F1 & F1' & F1''). assert (sameEntries (wSched w) s2) by (split_and!; congruence).
    destruct b; intros [= <- <- <-]; (apply Inv_calm; [done|done| |congruence|congruence|intros; congruence]); [apply recordNextRun_same|done].
  - intros [= <- <- <-]. apply Inv_calm; try done. congruence.
Qed.

Lemma addOwn_same expr call s :
  (∀ id, call <> CJob id) -> EntriesOK s ->
  EntriesOK (addOwn cronParse expr call s) /\ (∀ id, entrySchedule id (addOwn cronParse expr call s) = entrySchedule id s) /\
  scChanges (addOwn cronParse expr call s) = scChanges s /\ scStarted (addOwn cronParse expr call s) = scStarted s /\
  scStopped (addOwn cronParse expr call s) = scStopped s.
Proof.
  intros Hc HE. unfold addOwn. destruct (AddFunc _ _ _ _) as [[e s']|] eqn:HA; [|done].
  destruct (AddFunc_spec _ _ _ _ _ _ HE HA) as (sched & _ & He & -> & Hn). split_and!; [|..|done|done|done].
  - split; cbn [withCron scCron scNextID scEntries].
    + intros id x Hx. destruct (ent_cron _ HE _ _ Hx) as [sc Hsc]. exists sc. rewrite lookup_insert_ne; [done|]. intros <-. congruence.
    + intros id x sc [[<- [= E _]]|[_ H]]%lookup_insert_Some; [by apply Hc in E|by eapply ent_back].
    + intros x [c [[<- _]|[_ H]]%lookup_insert_Some]; [lia|]. pose proof (ent_fresh _ HE x (ex_intro _ c H)). lia.
  - intros id. unfold entrySchedule. cbn. destruct (scEntries s !! id) as [x|] eqn:Ex; [|done]. cbn.
    rewrite lookup_insert_ne; [done|]. intros <-. destruct (ent_cron _ HE _ _ Ex). congruence.
Qed.

(** The scheduler's own entries do not disturb the invariant. *)
Lemma Inv_entries U w s :
  Inv U w -> EntriesOK s -> (∀ id, entrySchedule id s = entrySchedule id (wSched w)) -> scChanges s = scChanges (wSched w) ->
  scStarted s = scStarted (wSched w) -> scStopped s = scStopped (wSched w) -> Inv U (mkWorld s (wJobs w) (wRetry w)).
Proof.
  intros [I1 I2 I3 I4 I5 I6 I7] HE Hs Hc H1 H2. split; cbn [wSched wJobs wRetry]; rewrite ?Hc, ?H1; auto.
  - intros id j H. rewrite Hs. eauto.
  - intros id j (L1 & L2 & L3) H Hu. rewrite Hs. cbn in *. apply I4; [split_and!; congruence|done|done].
Qed.

Lemma Inv_start U w now listed saved s db retrying :
  Inv U w -> Start cronParse now listed saved (wSched w) (wJobs w) = Ok (s, db, retrying) ->
  Inv U (mkWorld s db (if retrying then RWaiting else RNone)).
Proof.
  intros HI. unfold Start. destruct (scStopped (wSched w)) eqn:Est; [done|]. destruct (scStarted (wSched w)) eqn:Esd; [done|].
  set (s0 := withRef _ _).
  destruct (if listed then _ else _) as [s1 db1] eqn:HL. intros [= <- <- <-].
  assert (Inv U (mkWorld s1 db1 (if negb listed then RWaiting else RNone))) as H1.
  { destruct HI as [I1 I2 I3 I4 I5 I6 I7].
    assert (Inv U (mkWorld s0 (wJobs w) RWaiting)) as H0.
    { split; cbn [wSched wJobs wRetry]; try done; [by apply (sameEntries_OK (wSched w))|intros id j [? [? ?]]; done]. }
    destruct listed; cbn [negb]; [|injection HL as <- <-; exact H0].
    apply (Inv_register U _ (ckWall now) saved (ListJobs (wJobs w)) s1 db1) in H0; [done|by apply ListJobs_NoDup| | |exact HL].
    - intros j [id Hj]%ListJobs_elem. apply I2 in Hj as [-> ?]. done.
    - intros id j Hj. exists j. split; [rewrite ListJobs_elem; eauto|]. by apply I2 in Hj as [-> _]. }
  destruct (addOwn_same resumeCheckSchedule CResumeDue s1 ltac:(done) (iv_entries _ _ H1)) as (A1 & A2 & A3 & A4 & A5).
  set (s2 := recordTick now (addOwn cronParse resumeCheckSchedule CResumeDue s1)).
  assert (EntriesOK s2) as E2 by (by apply (sameEntries_OK (addOwn cronParse resumeCheckSchedule CResumeDue s1))).
  destruct (addOwn_same maintenanceSchedule CMaintenance s2 ltac:(done) E2) as (B1 & B2 & B3 & B4 & B5).
  apply (Inv_entries U _ _ H1 B1); cbn [wSched].
  - intros id. rewrite B2. exact (A2 id).
  - rewrite B3. exact A3.
  - rewrite B4. exact A4.
  - rewrite B5. exact A5.
Qed.

Lemma Inv_exec U w o : Inv U w -> Inv (dangle U o) (exec cronParse w o).
Proof.
  intros HI. destruct o; cbn [exec dangle]; unfold onSched.
  - unfold ApplyJobUpdate. destruct (stored && negb (bool_decide (jID j = ""))) eqn:E; cbn [negb].
    + apply andb_true_iff in E as [_ E]. apply negb_true_iff, bool_decide_eq_false in E. destruct (registerJobLocked _ _ _ _ _ _) as [[ok s] db] eqn:HR.
      eapply Inv_apply in HR as [HR _]; [exact HR|exact HI|exact E].
    + cbn. by destruct w.
  - by apply Inv_unregister.
  - cbn. destruct ok; [by apply Inv_delete|by destruct w].
  - unfold resumeJob. destruct (wJobs w !! id) as [cur|] eqn:El; [|by destruct w].
    destruct (dueToResume now cur); [|by destruct w]. unfold ApplyJobUpdate. destruct stored; cbn [negb]; [|by destruct w].
    destruct (registerJobLocked _ _ _ _ _ _) as [[ok s] db] eqn:HR. cbn [fst snd].
    destruct (iv_keyed _ _ HI _ _ El) as [Hid Hne]. eapply Inv_apply in HR; [apply HR|done|cbn; congruence].
  - destruct (Start _ _ _ _ _ _) as [[[s db] r]|] eqn:HS; [|done]. by eapply Inv_start.
  - unfold retrySeen. destruct (wRetry w) eqn:E; try done. destruct HI as [I1 I2 I3 I4 I5 I6 I7].
    destruct (scStopped (wSched w)) eqn:Es; split; cbn [wSched wJobs wRetry]; try done.
    + intros id j (? & ? & ?). cbn in *; congruence.
    + intros id j (? & ? & ?). done.
    + by intros seen [= <-].
    + intros H. by apply I7 in H; rewrite E in H.
  - unfold retryList. destruct (wRetry w) eqn:E; try done. destruct HI as [I1 I2 I3 I4 I5 I6 I7].
    destruct listed; split; cbn [wSched wJobs wRetry]; try done.
    + intros id j (? & ? & ?). done.
    + intros n jobs [= <- <-]. split_and!; [by apply I5|by apply ListJobs_NoDup| |].
      * intros j [id Hj]%ListJobs_elem. apply I2 in Hj as [-> ?]. done.
      * intros _ id j Hj. exists j. split; [rewrite ListJobs_elem; eauto|]. by apply I2 in Hj as [-> _].
    + intros H. by apply I7 in H; rewrite E in H.
    + intros id j (? & ? & ?). done.
    + intros H. by apply I7 in H; rewrite E in H.
  - unfold retryRegister. destruct (wRetry w) as [| | |seen jobs] eqn:E; try done.
    destruct (iv_listed _ _ HI _ _ E) as (J1 & J2 & J3 & J4).
    destruct (scStopped (wSched w)) eqn:Es; [|destruct (negb _) eqn:En].
    + destruct HI as [I1 I2 I3 I4 I5 I6 I7]. split; cbn [wSched wJobs wRetry]; try done. intros id j (? & ? & ?). cbn in *. congruence.
    + destruct HI as [I1 I2 I3 I4 I5 I6 I7]. split; cbn [wSched wJobs wRetry]; try done; [intros id j (? & ? & ?); done|].
      intros H. by apply I7 in H; rewrite E in H.
    + destruct (registerJobsLocked _ _ _ _ _ _) as [s db] eqn:HR. apply negb_false_iff, Z.eqb_eq in En.
      eapply Inv_register; eauto.
  - destruct (cronFire _ _ _ _ _ _ _) as [[f s] db] eqn:HF. by eapply Inv_fire.
  - unfold startCatchUp. destruct (_ || _); [by destruct w|]. by apply Inv_calm.
  - apply Inv_calm; try done. apply recordRunTimes_same.
  - unfold tick. cbn. destruct (scStopped (wSched w)) eqn:E; [by destruct w|]. by apply Inv_calm.
  - by apply Inv_calm.
  - by apply Inv_calm.
  - apply Inv_calm; done.
Qed.

Lemma Inv_run ops : Inv (dangling ops) (run cronParse ops).
Proof.
  unfold dangling, run. assert (Inv ∅ start) as H0.
  { split; cbn [start wSched wJobs wRetry]; try done.
    split; cbn [NewScheduler scCron scEntries scNextID]; [intros id e H|intros id e sc H|intros e [c H]]; by rewrite lookup_empty in H. }
  revert H0. generalize (∅ : gset string) start. induction ops as [|o ops IH]; intros U w HI; [done|]. apply IH. by apply Inv_exec.
Qed.

(** A job never has two cron entries, whatever edits, deletions, pauses, resumptions
    and loads came before: two entries of the cron runner that run the same job are the
    same entry, and it is the one the scheduler keeps for the job. *)
Theorem one_entry_per_job ops id e1 e2 sched1 sched2 :
  let s := wSched (run cronParse ops) in
  scCron s !! e1 = Some (mkEntry (CJob id) sched1) -> scCron s !! e2 = Some (mkEntry (CJob id) sched2) ->
  e1 = e2 /\ scEntries s !! id = Some e1.
Proof.
  intros s H1 H2. pose proof (iv_entries _ _ (Inv_run ops)) as HE.
  apply (ent_back _ HE) in H1, H2. split; [congruence|done].
Qed.

End Sync.
