(* ===== verification/CatchUp.v ===== *)
(** * Triggers after a clock step and missed schedules ([internal/scheduler/clockstep.go], [catchup.go])

    The guard that drops a trigger repeated by a clock that was set back, and the runs an
    instance starts after a takeover for the fires nobody ran. What the scheduler reads of
    the store goes through [Reads]; [StoreReads] states what an answer of the store is. *)

From S2P Require Import Prelude GoStrings Zones Glob Selection Backup Retention BackupWindow Jobs Schedule Scheduler SchedulerSync.

(** ** What is read of the store *)

Record BackupRow : Type := mkRow { brRecord : BackupRecord; brImported : bool }.

Record Store : Type := mkStore { stJobs : Jobs; stRuns : list JobRun; stBackups : list BackupRow }.

(** A read that fails answers [None]. [rdBackups] takes the job ([None]: any) and the
    earliest start. *)
Record Reads : Type := mkReads {
  rdJobs : option (list Job);
  rdExecuted : string -> nat -> option (list JobRun);
  rdBackups : option string -> Z -> option (list BackupRow)
}.

Definition newestRun (a b : JobRun) : comparison :=
  cmpThen (timeKey (runStarted b) ?= timeKey (runStarted a)) (strCmp (runID b) (runID a)).

#[export] Instance newestRun_TotalCmp : TotalCmp newestRun.
Proof.
  pose proof (TotalCmp_key (λ r : JobRun, timeKey (runStarted r)) Z.compare) as H1. pose proof (TotalCmp_key runID strCmp) as H2.
  exact (TotalCmp_then _ _ (TotalCmp_flip _ (TotalCmp0 := H1)) (TotalCmp_flip _ (TotalCmp0 := H2))).
Qed.

(** [ListExecutedJobRuns]: newest first, without the skipped ones. *)
Definition executedRuns (id : string) (runs : list JobRun) : list JobRun :=
  stable_sort (cmpLess newestRun) (filter (λ r, runJob r = id /\ runStatus r <> JobRunSkipped) runs).

Definition ListExecutedJobRuns (id : string) (limit : nat) (runs : list JobRun) : list JobRun :=
  take (runLimit limit) (executedRuns id runs).

(** [QueryBackupRecords] with a job and an earliest start. *)
Definition QueryBackupRecords (job : option string) (from : Z) (rows : list BackupRow) : list BackupRow :=
  filter (λ r, match job with Some id => bool_decide (JobID (rIdent (brRecord r)) = id) | None => true end
               && (IsZero from || (timeKey from <=? timeKey (StartedAt (rIdent (brRecord r)))))) rows.

(** An answer is what the store holds. *)
Class StoreReads (db : Store) (rd : Reads) : Prop := {
  reads_jobs l : rdJobs rd = Some l -> l = ListJobs (stJobs db);
  reads_executed id n l : rdExecuted rd id n = Some l -> l = ListExecutedJobRuns id n (stRuns db);
  reads_backups job from l : rdBackups rd job from = Some l -> ∀ r, r ∈ l <-> r ∈ QueryBackupRecords job from (stBackups db)
}.

(** The store's answers; [up] tells which reads succeed. *)
Definition storeReads (upJobs : bool) (upRuns upBackups : string -> bool) (db : Store) : Reads :=
  mkReads (if upJobs then Some (ListJobs (stJobs db)) else None)
    (λ id n, if upRuns id then Some (ListExecutedJobRuns id n (stRuns db)) else None)
    (λ job from, if upBackups (default "" job) then Some (QueryBackupRecords job from (stBackups db)) else None).

#[export] Instance storeReads_laws a b c db : StoreReads db (storeReads a b c db).
Proof.
  split; cbn.
  - by destruct a; intros l [= <-].
  - intros id n l. by destruct (b id); intros [= <-].
  - intros job from l. by destruct (c _); intros [= <-].
Qed.

(** ** Catching up *)

Definition maxCatchUpFires : nat := Z.to_nat 100000.
#[global] Opaque maxCatchUpFires.

Definition jobDatabases (j : Job) : list string :=
  if bool_decide (jDatabase j = "") then default [] (jKnown j) else [jDatabase j].

(** The loop of [missedFire]: the last activation after [t] that is not after [now]. *)
Fixpoint fireLoop (sched : Schedule) (now : Z) (fuel : nat) (t fire : Z) : Z :=
  match fuel with
  | O => fire
  | S fuel => let next := sched ZLocal t in if IsZero next || (now <? next) then fire else fireLoop sched now fuel next next
  end.

Section CatchUp.
Context (cronParse : string -> Parsed).

Definition missedFire (rd : Reads) (now : Z) (j : Job) : option Z :=
  match safeParse cronParse (jCron j) with
  | None => None
  | Some sched =>
      let from := default (jCreatedAt j) (lastScheduledStart (rdExecuted rd (jID j) 10)) in
      if IsZero from || negb (from <? now) then None
      else
        let fire := fireLoop sched now maxCatchUpFires from 0 in
        if IsZero fire then None
        else
          let next := sched ZLocal now in
          if negb (IsZero next) && (time_sub next now <? Z.quot (time_sub next fire) 2) then None else Some fire
  end.

(** [imports] is [None] without an import check, else whether a target was checked. *)
Definition unverifiable (imports : option (string -> bool)) (j : Job) : bool :=
  match imports with
  | None => true
  | Some checked => negb (checked (jTarget j)) || bool_decide (jobDatabases j = [])
  end.

(** A backup that did not fail. *)
Definition liveRow (r : BackupRow) : bool :=
  match rStatus (brRecord r) with StatusFailed | StatusCancelled => false | _ => true end.

Definition coveredSince (rd : Reads) (j : Job) (fire : Z) : bool :=
  match rdBackups rd (Some (jID j)) fire with
  | None => true
  | Some own =>
      if existsb liveRow own then true
      else match rdBackups rd None fire with
      | None => true
      | Some rows =>
          existsb (λ r, liveRow r && (brImported r && bool_decide (Database (rIdent (brRecord r)) ∈ jobDatabases j))) rows
      end
  end.

(** One turn of [CatchUp]: the jobs started and the fires reported as not caught up. *)
Definition catchUpJob (clk : Clock) (now : Z) (imports : option (string -> bool)) (rd : Reads) (alive : string -> bool) (j : Job)
    (acc : list string * list (string * Z) * Sched) : list string * list (string * Z) * Sched :=
  let '(started, skipped, s) := acc in
  if negb (jEnabled j) || negb (alive (jID j)) then acc
  else match missedFire rd now j with
  | None => acc
  | Some fire =>
      if unverifiable imports j then (started, skipped ++ [(jID j, fire)], s)
      else if coveredSince rd j fire then acc
      else let '(ok, s) := startCatchUp clk (jID j) s in
           (if ok then started ++ [jID j] else started, skipped, s)
  end.

(** [CatchUp]; [alive] tells whether the context still runs when a job's turn comes. *)
Definition CatchUp (clk : Clock) (now : Z) (fence : option (bool -> bool)) (imports : option (string -> bool)) (rd : Reads)
    (alive : string -> bool) (s : Sched) : list string * list (string * Z) * Sched :=
  let '(allowed, _, s) := fenceAllows clk fence s in
  if negb allowed then ([], [], s)
  else match rdJobs rd with
  | None => ([], [], s)
  | Some jobs => foldl (λ acc j, catchUpJob clk now imports rd alive j acc) ([], [], s) jobs
  end.
End CatchUp.

(** ** A trigger at its time is not dropped *)

(** The two clocks move together. *)
Definition steady (a b : Clock) : Prop := ckMono b - ckMono a = ckWall b - ckWall a /\ ckMono a <= ckMono b.

Lemma halfInterval_le sched z prev t : sched z prev <= t -> prev <= t -> halfInterval sched z prev <= t - prev.
Proof.
  intros Hn Hp. unfold halfInterval, time_sub. set (d := Z.max _ _). assert (d <= t - prev) as Hd by (subst d; lia).
  clearbody d. destruct (Z.le_gt_cases 0 d) as [H0|H0].
  - rewrite Z.quot_div_nonneg by lia. Z.div_mod_to_equations. lia.
  - assert (d ÷ 2 <= 0); [|lia]. rewrite <- (Z.opp_involutive d), Z.quot_opp_l by lia. rewrite Z.quot_div_nonneg by lia.
    Z.div_mod_to_equations. lia.
Qed.

(** A trigger at or after the next time after the previous trigger is no repetition. *)
Lemma regular_trigger now id executed s sched prev :
  entrySchedule id s = Some sched -> scLastTrigger s !! id = Some prev -> steady prev now ->
  sched ZLocal (ckWall prev) <= ckWall now ->
  repeatedTrigger now id executed s = (false, if scStopped s then s else withTrigger (<[id := now]> (scLastTrigger s)) s).
Proof.
  intros Hs Hp [H1 H2] Hn. unfold repeatedTrigger. destruct (scStopped s); [done|]. rewrite Hs, Hp.
  pose proof (halfInterval_le sched ZLocal (ckWall prev) (ckWall now) Hn ltac:(lia)).
  rewrite (proj2 (Z.ltb_ge _ _)) by lia. done.
Qed.

(** The answers of the guard to triggers of a job one after the other. *)
Fixpoint triggers (id : string) (executed : option (list JobRun)) (l : list Clock) (s : Sched) : list bool :=
  match l with
  | [] => []
  | now :: l => let '(b, s) := repeatedTrigger now id executed s in b :: triggers id executed l s
  end.

(** Each trigger comes at or after the next time of the schedule after the one before. *)
Fixpoint onTime (sched : Schedule) (prev : Clock) (l : list Clock) : Prop :=
  match l with
  | [] => True
  | now :: l => steady prev now /\ sched ZLocal (ckWall prev) <= ckWall now /\ onTime sched now l
  end.

Lemma triggers_regular id executed sched l : ∀ s prev,
  entrySchedule id s = Some sched -> scStopped s = false -> scLastTrigger s !! id = Some prev -> onTime sched prev l ->
  triggers id executed l s = replicate (length l) false.
Proof.
  induction l as [|now l IH]; intros s prev Hs Hst Hp; [done|]. cbn [onTime triggers]. intros (Hsteady & Hn & Hl).
  rewrite (regular_trigger _ _ _ _ _ _ Hs Hp Hsteady Hn), Hst. cbn. f_equal. apply (IH _ now); [|done| |done].
  - by rewrite (sameEntries_schedule s).
  - cbn. by rewrite lookup_insert_eq.
Qed.

(** While the clocks run steadily, the guard against repeated triggers drops at most
    the first trigger after a start: every later one, coming at its scheduled time, runs. *)
Theorem steady_triggers_run id executed sched s first l :
  entrySchedule id s = Some sched -> scStopped s = false -> scLastTrigger s !! id = None -> onTime sched first l ->
  ∃ b, triggers id executed (first :: l) s = b :: replicate (length l) false.
Proof.
  intros Hs Hst Hn Hl. cbn [triggers]. destruct (repeatedTrigger first id executed s) as [b s'] eqn:HR. exists b. f_equal.
  unfold repeatedTrigger in HR. rewrite Hst, Hs, Hn in HR. rewrite (bool_decide_false (is_Some None)) in HR by (by intros []).
  rewrite orb_true_r in HR. injection HR as _ <-. apply (triggers_regular _ _ sched _ _ first); [by rewrite (sameEntries_schedule s)|done| |done].
  cbn. by rewrite lookup_insert_eq.
Qed.

(** ** What is caught up *)

Section Fold.
Context (cronParse : string -> Parsed).

(** Whether [CatchUp] starts a job. *)
Definition caught (now : Z) (imports : option (string -> bool)) (rd : Reads) (alive : string -> bool) (j : Job) : bool :=
  jEnabled j && alive (jID j) &&
  match missedFire cronParse rd now j with
  | None => false
  | Some fire => negb (unverifiable imports j) && negb (coveredSince rd j fire)
  end.

Lemma catchUp_fold clk now imports rd alive jobs : ∀ st sk s,
  ∃ sk' s', foldl (λ acc j, catchUpJob cronParse clk now imports rd alive j acc) (st, sk, s) jobs =
    (st ++ (if scStopped s || negb (scStarted s) then [] else jID <$> filter (λ j, caught now imports rd alive j) jobs), sk', s') /\
    sameEntries s s' /\ scStarted s' = scStarted s /\ scStopped s' = scStopped s /\
    (∀ j, j ∈ jobs -> scStopped s || negb (scStarted s) = false -> caught now imports rd alive j = true -> scLastTrigger s' !! jID j = Some clk) /\
    (∀ id, scLastTrigger s !! id = Some clk -> scLastTrigger s' !! id = Some clk).
Proof.
  induction jobs as [|j jobs IH]; intros st sk s; cbn [foldl].
  { exists sk, s. split_and!; try done; [destruct (_ || _); by rewrite app_nil_r|set_solver]. }
  rewrite filter_cons. destruct (caught now imports rd alive j) eqn:Hc.
  - rewrite decide_True by done. unfold caught in Hc. apply andb_true_iff in Hc as [Hc1 Hc2]. apply andb_true_iff in Hc1 as [Hen Hal].
    unfold catchUpJob at 2. rewrite Hen, Hal. cbn [negb orb].
    destruct (missedFire cronParse rd now j) as [fire|]; [|done]. apply andb_true_iff in Hc2 as [Hu Hcov].
    apply negb_true_iff in Hu, Hcov. rewrite Hu, Hcov. unfold startCatchUp. destruct (scStopped s || negb (scStarted s)) eqn:Er.
    + destruct (IH st sk s) as (sk' & s' & E & I1 & I2 & I3 & I4 & I5). exists sk', s'. rewrite Er in *. split_and!; auto. set_solver.
    + destruct (IH (st ++ [jID j]) sk (withTrigger (<[jID j := clk]> (scLastTrigger s)) s)) as (sk' & s' & E & I1 & I2 & I3 & I4 & I5).
      exists sk', s'. rewrite E. cbn [withTrigger scStopped scStarted scLastTrigger] in *. rewrite Er in *. split_and!; auto.
      * rewrite fmap_cons, <- (assoc_L (++)). done.
      * intros x [->|Hx]%elem_of_cons _ Hcx; [apply I5; by rewrite lookup_insert_eq|by apply I4].
      * intros id Hid. apply I5. destruct (decide (id = jID j)) as [->|Hne]; [by rewrite lookup_insert_eq|by rewrite lookup_insert_ne].
  - rewrite decide_False by (intros H%Is_true_true; congruence). assert (∃ sk1, catchUpJob cronParse clk now imports rd alive j (st, sk, s) = (st, sk1, s)) as [sk1 ->].
    { unfold catchUpJob. unfold caught in Hc. destruct (jEnabled j), (alive (jID j)); cbn [negb orb andb] in *; eauto.
      destruct (missedFire cronParse rd now j) as [fire|]; [|eauto]. destruct (unverifiable imports j); [eauto|].
      destruct (coveredSince rd j fire); [eauto|done]. }
    destruct (IH st sk1 s) as (sk' & s' & E & I1 & I2 & I3 & I4 & I5). exists sk', s'. split_and!; auto.
    intros x [->|Hx]%elem_of_cons Hr Hcx; [congruence|by apply I4].
Qed.
End Fold.

Section CaughtUp.
Context (cronParse : string -> Parsed) `{!CronLaws cronParse}.

Lemma fireLoop_spec expr sched now fuel :
  safeParse cronParse expr = Some sched -> ∀ t fire,
  let f := fireLoop sched now fuel t fire in
  let l := runsLoop sched ZLocal fuel t in
  (f = fire /\ ∀ g, g ∈ l -> now < g) \/ (f ∈ l /\ f <= now /\ ∀ g, g ∈ l -> g <= now -> g <= f).
Proof.
  intros Hs. induction fuel as [|fuel IH]; intros t fire; cbn [fireLoop runsLoop]; [left; set_solver|].
  destruct (IsZero (sched ZLocal t)) eqn:E; cbn [orb]; [left; set_solver|].
  pose proof (runsLoop_ascending cronParse _ _ ZLocal fuel Hs (sched ZLocal t)) as Ha.
  destruct (now <? sched ZLocal t) eqn:E2; bool_cases.
  - left. split; [done|]. intros g [->|Hg]%elem_of_cons; [done|]. pose proof (ascending_gt _ _ _ Ha Hg). lia.
  - right. destruct (IH (sched ZLocal t) (sched ZLocal t)) as [[-> Hall]|(Hin & Hle & Hall)].
    + split_and!; [set_solver|done|]. intros g [->|Hg]%elem_of_cons Hg'; [lia|]. specialize (Hall _ Hg). lia.
    + split_and!; [set_solver|done|]. intros g [->|Hg]%elem_of_cons Hg'; [|auto]. pose proof (ascending_gt _ _ _ Ha Hin). lia.
Qed.

(** [f] is the latest of the next activations after [from] that is not after [now]. *)
Definition latestFire (sched : Schedule) (from now f : Z) : Prop :=
  let l := runsLoop sched ZLocal maxCatchUpFires from in
  f ∈ l /\ f <= now /\ ∀ g, g ∈ l -> g <= now -> g <= f.

(** Where the walk over the fires starts. *)
Definition walkFrom (rd : Reads) (j : Job) : Z := default (jCreatedAt j) (lastScheduledStart (rdExecuted rd (jID j) 10)).

(** An executed scheduled run. *)
Definition scheduledRun (r : JobRun) : Prop := runTrigger r = TriggerScheduled /\ IsZero (runStarted r) = false.
Definition scheduledRunOf (id : string) (r : JobRun) : Prop := runJob r = id /\ runStatus r <> JobRunSkipped /\ scheduledRun r.

(** [from] is the start of the newest scheduled run of the job that is stored, or its
    creation: when no such run is stored, when the ten newest executed runs are all
    others (on demand), which hides an older one, or when the history was not read. *)
Definition newestStart (db : Store) (rd : Reads) (j : Job) (from : Z) : Prop :=
  (∃ r, r ∈ stRuns db /\ scheduledRunOf (jID j) r /\ from = runStarted r /\
     ∀ r', r' ∈ stRuns db -> scheduledRunOf (jID j) r' -> timeKey (runStarted r') <= timeKey from) \/
  from = jCreatedAt j /\
  ((∀ r, r ∈ stRuns db -> ~ scheduledRunOf (jID j) r) \/
   (length (ListExecutedJobRuns (jID j) 10 (stRuns db)) = 10%nat /\
    ∀ r, r ∈ ListExecutedJobRuns (jID j) 10 (stRuns db) -> ~ scheduledRun r) \/
   rdExecuted rd (jID j) 10 = None).

Lemma executedRuns_elem id runs r : r ∈ executedRuns id runs <-> r ∈ runs /\ runJob r = id /\ runStatus r <> JobRunSkipped.
Proof. unfold executedRuns. rewrite elem_of_stable_sort, list_elem_of_filter. tauto. Qed.

(** The first run of a kind among the newest is the newest of that kind. *)
Lemma executedRuns_newest id runs n (K : JobRun -> Prop) `{∀ r, Decision (K r)} r :
  head (filter K (take n (executedRuns id runs))) = Some r ->
  ∀ r', r' ∈ executedRuns id runs -> K r' -> timeKey (runStarted r') <= timeKey (runStarted r).
Proof.
  intros Hh. assert (StronglySorted (λ a b, newestRun a b <> Gt) (filter K (executedRuns id runs))) as Hs.
  { unfold executedRuns. rewrite cmp_sort_filter by apply newestRun_TotalCmp. apply cmp_sort_sorted, newestRun_TotalCmp. }
  intros r' Hr' HK. assert (r' ∈ filter K (executedRuns id runs)) as Hin by by apply list_elem_of_filter.
  rewrite <- (take_drop n (executedRuns id runs)), filter_app in Hs, Hin.
  destruct (filter K (take n _)) as [|r0 l]; [done|]. injection Hh as ->. simpl in Hs, Hin.
  apply StronglySorted_inv in Hs as [_ Hall]. apply elem_of_cons in Hin as [->|Hin]; [done|].
  rewrite Forall_forall in Hall. apply Hall in Hin. unfold newestRun, cmpThen in Hin.
  destruct (Z.compare_spec (timeKey (runStarted r')) (timeKey (runStarted r))); [lia..|done].
Qed.

Lemma walkFrom_newest db rd j : StoreReads db rd -> newestStart db rd j (walkFrom rd j).
Proof.
  intros HR. unfold newestStart, walkFrom, lastScheduledStart. destruct (rdExecuted rd (jID j) 10) as [l|] eqn:El; [|cbn; auto 6].
  pose proof (reads_executed _ _ _ El) as ->. cbn. unfold ListExecutedJobRuns. change (runLimit 10) with 10%nat.
  destruct (filter _ (take 10 _)) as [|r l] eqn:Ef; cbn.
  - right. split; [done|]. assert (∀ r, r ∈ take 10 (executedRuns (jID j) (stRuns db)) -> ~ scheduledRun r) as Hno.
    { intros r Hr Hs. assert (r ∈ []); [|set_solver]. rewrite <- Ef. by apply list_elem_of_filter. }
    destruct (decide (10 <= length (executedRuns (jID j) (stRuns db)))%nat) as [Hle|Hgt].
    + right. left. split; [|done]. rewrite length_take. lia.
    + left. intros r Hr (H1 & H2 & H3). apply (Hno r); [|done]. rewrite take_ge by lia. by apply executedRuns_elem.
  - left. assert (r ∈ filter (λ r, runTrigger r = TriggerScheduled /\ IsZero (runStarted r) = false) (take 10 (executedRuns (jID j) (stRuns db)))) as Hr
      by (rewrite Ef; by left).
    apply list_elem_of_filter in Hr as [Hk Hr]. assert (r ∈ executedRuns (jID j) (stRuns db)) as (H1 & H2 & H3)%executedRuns_elem by by eapply subseteq_take.
    exists r. split_and!; [done..|]. intros r' Hr' (H1' & H2' & H3').
    eapply executedRuns_newest; [by rewrite Ef|by apply executedRuns_elem|done].
Qed.

Lemma missedFire_spec rd now j f :
  missedFire cronParse rd now j = Some f ->
  f <> 0 /\ ∃ sched, safeParse cronParse (jCron j) = Some sched /\ walkFrom rd j < f /\ latestFire sched (walkFrom rd j) now f /\
    (sched ZLocal now = 0 \/ Z.quot (time_sub (sched ZLocal now) f) 2 <= time_sub (sched ZLocal now) now).
Proof.
  unfold missedFire. destruct (safeParse cronParse (jCron j)) as [sched|] eqn:Hs; [|done]. fold (walkFrom rd j).
  destruct (_ || _); [done|]. destruct (fireLoop_spec _ _ now maxCatchUpFires Hs (walkFrom rd j) 0) as [[Hz _]|Hl].
  { by rewrite Hz. }
  set (fire := fireLoop _ _ _ _ _) in *. destruct (IsZero fire) eqn:Ez; [done|].
  destruct (negb _ && _) eqn:E; [done|]. intros [= <-]. split; [unfold IsZero in Ez; bool_cases; lia|]. exists sched. split_and!; [done| |done|].
  - pose proof (runsLoop_ascending cronParse _ _ ZLocal maxCatchUpFires Hs (walkFrom rd j)) as Ha.
    by eapply ascending_gt; [|apply Hl].
  - apply andb_false_iff in E as [E|E]; [left|right].
    + unfold IsZero in E. apply negb_false_iff, Z.eqb_eq in E. done.
    + bool_cases. lia.
Qed.

Lemma coveredSince_false db rd j fire :
  StoreReads db rd -> coveredSince rd j fire = false -> fire <> 0 ->
  ∀ row, row ∈ stBackups db -> timeKey fire <= timeKey (StartedAt (rIdent (brRecord row))) -> liveRow row = true ->
    JobID (rIdent (brRecord row)) <> jID j /\ ~ (brImported row = true /\ Database (rIdent (brRecord row)) ∈ jobDatabases j).
Proof.
  intros HR. unfold coveredSince. destruct (rdBackups rd (Some (jID j)) fire) as [own|] eqn:E1; [|done].
  destruct (existsb liveRow own) eqn:Eo; [done|]. destruct (rdBackups rd None fire) as [rows|] eqn:E2; [|done].
  intros Er Hf row Hin Ht Hlive. unfold IsZero.
  assert ((fire =? 0) = false) as Hz by (by apply Z.eqb_neq).
  split.
  - intros Hid. assert (existsb liveRow own = true) as Hc; [|congruence]. apply existsb_exists. exists row. split; [|done].
    apply list_elem_of_In. apply (reads_backups _ _ _ E1). unfold QueryBackupRecords, IsZero. apply list_elem_of_filter. split; [|done].
    rewrite Hz. rewrite bool_decide_true by done. cbn. apply Is_true_true, Z.leb_le. done.
  - intros [Hi Hd]. eassert (existsb _ rows = true) as Hc; [|rewrite Er in Hc; done]. apply existsb_exists. exists row. split.
    + apply list_elem_of_In. apply (reads_backups _ _ _ E2). unfold QueryBackupRecords, IsZero. apply list_elem_of_filter. split; [|done].
      rewrite Hz. cbn. apply Is_true_true, Z.leb_le. done.
    + rewrite Hlive, Hi. cbn. by apply bool_decide_eq_true.
Qed.

(** [C17] What is caught up, each job at most once. A job [CatchUp] starts is stored and
    enabled; the fire it is started for is its latest up to now (of the first
    [maxCatchUpFires] after [from]) and came after [from], the start of its newest stored
    scheduled run, so every stored scheduled run started before the fire. [from] is instead
    the creation of the job when no scheduled run is stored, and also when its ten newest
    executed runs are all on demand or its history could not be read: there a fire that did
    run is taken for missed (reported). In every case the archives of its storage target
    were checked, its databases are known, and since that fire no backup of the job and no
    imported archive of one of its databases is recorded that did not fail. *)
Theorem catch_up_certain db rd clk now fence imports alive s started skipped s' :
  StoreReads db rd -> keyed (stJobs db) ->
  CatchUp cronParse clk now fence imports rd alive s = (started, skipped, s') ->
  NoDup started /\ ∀ id, id ∈ started -> ∃ j sched from fire,
    stJobs db !! id = Some j /\ jEnabled j = true /\
    safeParse cronParse (jCron j) = Some sched /\ newestStart db rd j from /\ from < fire /\ latestFire sched from now fire /\
    (∃ checked, imports = Some checked /\ checked (jTarget j) = true) /\ jobDatabases j <> [] /\
    ∀ row, row ∈ stBackups db -> timeKey fire <= timeKey (StartedAt (rIdent (brRecord row))) -> liveRow row = true ->
      JobID (rIdent (brRecord row)) <> id /\ ~ (brImported row = true /\ Database (rIdent (brRecord row)) ∈ jobDatabases j).
Proof.
  intros HR Hk. unfold CatchUp. destruct (fenceAllows clk fence s) as [[a r] s1]. destruct a; cbn [negb]; [|intros [= <- <- <-]; split; [constructor|set_solver]].
  destruct (rdJobs rd) as [jobs|] eqn:Ej; [|intros [= <- <- <-]; split; [constructor|set_solver]].
  apply (reads_jobs (db := db)) in Ej as ->.
  destruct (catchUp_fold cronParse clk now imports rd alive (ListJobs (stJobs db)) [] [] s1) as (sk' & s2 & E & _). rewrite E. cbn [app].
  intros [= <- <- <-]. destruct (_ || _); [split; [constructor|set_solver]|]. split.
  - eapply sublist_NoDup; [by apply ListJobs_NoDup|]. apply fmap_sublist, sublist_filter.
  - intros id (j & -> & Hj)%list_elem_of_fmap. apply list_elem_of_filter in Hj as [Hc [k Hj]%(proj1 (ListJobs_elem _ _))].
    apply Is_true_true in Hc. unfold caught in Hc. apply andb_true_iff in Hc as [Hc1 Hc2]. apply andb_true_iff in Hc1 as [Hen _].
    destruct (missedFire cronParse rd now j) as [fire|] eqn:Hm; [|done]. apply andb_true_iff in Hc2 as [Hu Hcov]. apply negb_true_iff in Hu, Hcov.
    destruct (missedFire_spec _ _ _ _ Hm) as (Hf & sched & Hs & Hlt & Hl & _). destruct (Hk _ _ Hj) as [Hid _].
    exists j, sched, (walkFrom rd j), fire. unfold unverifiable in Hu. destruct imports as [checked|]; [|done].
    apply orb_false_iff in Hu as [Hu1 Hu2]. apply negb_false_iff in Hu1. apply bool_decide_eq_false in Hu2.
    split_and!; eauto; [by rewrite Hid|by apply walkFrom_newest|]. eapply coveredSince_false; eauto.
Qed.
End CaughtUp.

(** A run that was caught up never costs the next regular one: whatever the schedule
    and however soon it comes, the trigger at the next time of the schedule is not taken
    for a repetition of the run [CatchUp] started. *)
Theorem caught_up_job_fires_next cronParse clk now fence imports rd alive s started skipped s' id sched next executed :
  CatchUp cronParse clk now fence imports rd alive s = (started, skipped, s') -> id ∈ started ->
  entrySchedule id s' = Some sched -> steady clk next -> sched ZLocal (ckWall clk) <= ckWall next ->
  (repeatedTrigger next id executed s').1 = false.
Proof.
  unfold CatchUp. destruct (fenceAllows clk fence s) as [[a r] s1]. destruct a; cbn [negb]; [|intros [= <- <- <-]; set_solver].
  destruct (rdJobs rd) as [jobs|]; [|intros [= <- <- <-]; set_solver].
  destruct (catchUp_fold cronParse clk now imports rd alive jobs [] [] s1) as (sk' & s2 & E & _ & _ & _ & Ht & _). rewrite E. cbn [app].
  intros [= <- <- <-]. destruct (_ || _) eqn:Er; [set_solver|]. intros (j & -> & Hj)%list_elem_of_fmap Hs Hst Hn.
  apply list_elem_of_filter in Hj as [Hc Hj]. apply Is_true_true in Hc.
  by rewrite (regular_trigger next _ executed s2 sched clk Hs (Ht _ Hj eq_refl Hc) Hst Hn).
Qed.

(** ** Fenced triggers *)

(** The wall clock moved apart from the monotonic clock since the last check. *)
Definition jumped (now : Clock) (s : Sched) : Prop :=
  ∃ ref, scClockRef s = Some ref /\ clockJumpThreshold < Z.abs ((ckWall now - ckWall ref) - (ckMono now - ckMono ref)).

(** With HA, a scheduled run starts only under the lease: the fence passed, and when
    the wall clock had jumped since the last check, it passed after the lease was renewed. *)
Theorem scheduled_run_fenced now check id executed saved s db s' db' :
  cronFire now (Some check) id executed saved s db = (FireRun, s', db') ->
  scStopped s = false /\ scPaused s = false /\ ∃ renewed, check renewed = true /\ (jumped now s <-> renewed = true).
Proof.
  unfold cronFire. destruct (fenceAllows now (Some check) s) as [[a r] s1] eqn:HF.
  unfold fenceAllows in HF. injection HF as Ha Hr <-. destruct a; cbn [negb]; [|done].
  destruct (repeatedTrigger now id executed _) as [b s2] eqn:HT.
  assert (scStopped s2 = scStopped s /\ scPaused s2 = scPaused s) as [E1 E2].
  { unfold repeatedTrigger in HT. destruct (if scStopped _ then _ else _); injection HT as <- <-; [|done]. by destruct (_ || _). }
  destruct b; [done|]. unfold runScheduled. rewrite E1, E2. destruct (scStopped s), (scPaused s); try done.
  intros _. split_and!; [done..|]. exists r. split; [congruence|]. subst r. unfold jumped. destruct (scClockRef s) as [ref|].
  - split.
    + intros (ref' & [= <-] & H). apply orb_true_iff. rewrite !Z.ltb_lt. unfold clockJumpThreshold in *. lia.
    + intros H%orb_true_iff. rewrite !Z.ltb_lt in H. exists ref. split; [done|]. unfold clockJumpThreshold in *. lia.
  - split; [by intros (? & ? & _)|done].
Qed.

(** ** Concrete schedulers *)

(** A server three hours east of UTC with the job "two" registered. *)
Definition demoOffset : Z := 3 * hour.
Definition twoADay : Job := demoJob "two" "0 9,10 * * *" None.
Definition nightly : Job := demoJob "nightly" "0 2 * * *" None.

Definition clockAt (y mo d h m : Z) : Clock := mkClock (utcTime y mo d h m) (utcTime y mo d h m).

Definition demoOps : list op :=
  [OApply (utcTime 2026 10 4 0 0) true true twoADay; OApply (utcTime 2026 10 4 0 0) true true nightly;
   OStart (clockAt 2026 10 5 6 30) true (λ _, true)].
Definition demoWorld : World := run (demoCron demoOffset) demoOps.

Definition demoRun (id job : string) (st : JobRunStatus) (at_ : Z) : JobRun :=
  mkRun id job TriggerScheduled 0 st at_ (Some at_) [] [] [] "" "" 0.

Lemma steady_triggers_run_witness :
  ∃ b, triggers "two" None [clockAt 2026 10 5 7 0; clockAt 2026 10 6 6 0; clockAt 2026 10 6 7 0] (wSched demoWorld) = b :: replicate 2 false.
Proof.
  apply (steady_triggers_run "two" None (dailyAt demoOffset [9 * hour; 10 * hour])); [reflexivity..|].
  repeat split; vm_compute; congruence.
Defined.

(** The job ran at 09:00 and the server restarted: the trigger at 10:00 is dropped. The
    time of the recorded run is in UTC, so the schedule is asked for its next time in UTC
    (12:00 local): half of the three hours until then have not passed. *)
Example restart_drops_regular_trigger :
  let executed := Some [demoRun "r1" "two" JobRunOK (utcTime 2026 10 5 6 0)] in
  (repeatedTrigger (clockAt 2026 10 5 7 0) "two" executed (wSched demoWorld)).1 = true /\
  dailyAt demoOffset [9 * hour; 10 * hour] ZLocal (utcTime 2026 10 5 6 0) = utcTime 2026 10 5 7 0 /\
  halfInterval (dailyAt demoOffset [9 * hour; 10 * hour]) ZUTC (utcTime 2026 10 5 6 0) = 90 * minute.
Proof. vm_compute. done. Qed.

(** After a run of the job scheduled at 02:00 local (23:00 UTC), its next run is recorded
    as 02:00 UTC; the entry runs at 23:00 UTC. *)
Example next_run_recorded_in_utc :
  let now := utcTime 2026 10 5 23 5 in
  (jNextRun <$> recordRunTimes "nightly" now true (wSched demoWorld) (wJobs demoWorld) !! "nightly") = Some (Some (utcTime 2026 10 6 2 0)) /\
  (λ sched, sched ZLocal now) <$> entrySchedule "nightly" (wSched demoWorld) = Some (utcTime 2026 10 6 23 0).
Proof. vm_compute. done. Qed.

(** A deletion whose store write fails leaves the job stored and enabled, without an entry. *)
Example failed_deletion_unschedules :
  let w := run (demoCron demoOffset) (demoOps ++ [OUnregister "nightly"; OStoreDelete "nightly" false]) in
  (jEnabled <$> wJobs w !! "nightly") = Some true /\ bool_decide (scEntries (wSched w) !! "nightly" = None) = true.
Proof. vm_compute. done. Qed.


Lemma one_entry_per_job_witness :
  (2 = 2)%nat /\ scEntries (wSched (run (demoCron demoOffset) demoOps)) !! "nightly" = Some 2%nat.
Proof.
  assert (ceCall <$> scCron (wSched (run (demoCron demoOffset) demoOps)) !! 2%nat = Some (CJob "nightly")) as Hc by (vm_compute; reflexivity).
  destruct (scCron (wSched (run (demoCron demoOffset) demoOps)) !! 2%nat) as [[c sched]|] eqn:E; [|discriminate Hc].
  injection Hc as ->. exact (one_entry_per_job (demoCron demoOffset) demoOps "nightly" 2 2 sched sched E E).
Defined.

(** The archives of 5 October were written by an instance that died before its run was
    recorded; the standby takes over at 07:30 local, after the 02:00 fire. *)
Definition demoStore : Store := mkStore (wJobs demoWorld) [demoRun "r0" "nightly" JobRunOK (utcTime 2026 10 3 23 0)] [].
Definition demoTakeover : Clock := clockAt 2026 10 5 4 30.

Lemma catch_up_certain_witness :
  let rd := storeReads true (λ _, true) (λ _, true) demoStore in
  NoDup ["nightly"] /\ ∀ id, id ∈ ["nightly"] -> ∃ j sched from fire,
    stJobs demoStore !! id = Some j /\ jEnabled j = true /\
    safeParse (demoCron demoOffset) (jCron j) = Some sched /\ newestStart demoStore rd j from /\ from < fire /\
    latestFire sched from (ckWall demoTakeover) fire /\
    (∃ checked, Some (λ _ : string, true) = Some checked /\ checked (jTarget j) = true) /\ jobDatabases j <> [] /\
    ∀ row, row ∈ stBackups demoStore -> timeKey fire <= timeKey (StartedAt (rIdent (brRecord row))) -> liveRow row = true ->
      JobID (rIdent (brRecord row)) <> id /\ ~ (brImported row = true /\ Database (rIdent (brRecord row)) ∈ jobDatabases j).
Proof.
  cbv zeta.
  set (out := CatchUp (demoCron demoOffset) demoTakeover (ckWall demoTakeover) None (Some (λ _, true))
                (storeReads true (λ _, true) (λ _, true) demoStore) (λ id, bool_decide (id = "nightly")) (wSched demoWorld)).
  assert (out.1.1 = ["nightly"]) as Hout by (vm_compute; reflexivity).
  pose proof (catch_up_certain (demoCron demoOffset) demoStore (storeReads true (λ _, true) (λ _, true) demoStore) demoTakeover
    (ckWall demoTakeover) None (Some (λ _, true)) (λ id, bool_decide (id = "nightly")) (wSched demoWorld) out.1.1 out.1.2 out.2) as H.
  rewrite Hout in H. apply H.
  - apply storeReads_laws.
  - apply (iv_keyed (demoCron demoOffset) (dangling demoOps)). apply Inv_run.
  - rewrite <- Hout. unfold out. by destruct (CatchUp _ _ _ _ _ _ _ _) as [[? ?] ?].
Defined.

(** The fire of 02:00 local did run and failed, and its run is stored. A takeover that reads
    the history leaves it; one that cannot read it, or sees only ten newer runs on demand,
    starts the job for that fire again. *)
Definition failedFire : JobRun := demoRun "r1" "nightly" JobRunFailed (utcTime 2026 10 4 23 0).
Definition onDemand (k : Z) : JobRun :=
  mkRun "m" "nightly" TriggerManual 0 JobRunFailed (utcTime 2026 10 5 0 k) (Some (utcTime 2026 10 5 0 k)) [] [] [] "" "" 0.
Definition takeover (readable : bool) (runs : list JobRun) : list string :=
  (CatchUp (demoCron demoOffset) demoTakeover (ckWall demoTakeover) None (Some (λ _, true))
     (storeReads true (λ _, readable) (λ _, true) (mkStore (wJobs demoWorld) runs [])) (λ id, bool_decide (id = "nightly")) (wSched demoWorld)).1.1.

Example executed_fire_caught_up :
  takeover true [failedFire] = [] /\ takeover false [failedFire] = ["nightly"] /\
  takeover true (failedFire :: (onDemand <$> seqZ 1 10)) = ["nightly"].
Proof. vm_compute. done. Qed.

Lemma caught_up_job_fires_next_witness :
  let s := (CatchUp (demoCron demoOffset) demoTakeover (ckWall demoTakeover) None (Some (λ _, true))
              (storeReads true (λ _, true) (λ _, true) demoStore) (λ id, bool_decide (id = "nightly")) (wSched demoWorld)).2 in
  (repeatedTrigger (clockAt 2026 10 5 23 0) "nightly" None s).1 = false.
Proof.
  cbv zeta.
  set (out := CatchUp (demoCron demoOffset) demoTakeover (ckWall demoTakeover) None (Some (λ _, true))
                (storeReads true (λ _, true) (λ _, true) demoStore) (λ id, bool_decide (id = "nightly")) (wSched demoWorld)).
  assert (out.1.1 = ["nightly"]) as Hout by (vm_compute; reflexivity).
  assert (sched_at : (λ sched, sched ZLocal (ckWall demoTakeover) <=? utcTime 2026 10 5 23 0) <$> entrySchedule "nightly" out.2 = Some true)
    by (vm_compute; reflexivity).
  destruct (entrySchedule "nightly" out.2) as [sched|] eqn:Hs; [|discriminate sched_at].
  apply (caught_up_job_fires_next (demoCron demoOffset) demoTakeover (ckWall demoTakeover) None (Some (λ _, true))
    (storeReads true (λ _, true) (λ _, true) demoStore) (λ id, bool_decide (id = "nightly")) (wSched demoWorld) out.1.1 out.1.2 out.2 "nightly" sched).
  - unfold out. by destruct (CatchUp _ _ _ _ _ _ _ _) as [[? ?] ?].
  - rewrite Hout. by left.
  - exact Hs.
  - split; [reflexivity|vm_compute; congruence].
  - injection sched_at as E. by apply Z.leb_le in E.
Defined.

Lemma scheduled_run_fenced_witness :
  scStopped (wSched demoWorld) = false /\ scPaused (wSched demoWorld) = false /\
  ∃ renewed, (λ r : bool, r) renewed = true /\ (jumped (mkClock (utcTime 2026 10 5 23 0) (utcTime 2026 10 5 7 0)) (wSched demoWorld) <-> renewed = true).
Proof.
  set (now := mkClock (utcTime 2026 10 5 23 0) (utcTime 2026 10 5 7 0)).
  assert ((cronFire now (Some (λ r, r)) "nightly" None true (wSched demoWorld) (wJobs demoWorld)).1.1 = FireRun) as H by (vm_compute; reflexivity).
  destruct (cronFire _ _ _ _ _ _ _) as [[f s'] db'] eqn:E. cbn in H. subst f.
  exact (scheduled_run_fenced now (λ r, r) "nightly" None true (wSched demoWorld) (wJobs demoWorld) s' db' E).
Defined.
