(* ===== verification/JobRuns.v ===== *)
(** * Runs of jobs ([internal/scheduler/jobrun.go], [window.go])

    The backup window of a scheduled run and the records of skipped runs; the plan of a
    multi-database run, the outcome of each of its databases in whatever order they end,
    the run's summary and the databases the job knows afterwards. A backup itself is the
    engine's: what it returns for a record is an argument. Error texts are kept as they
    are: the redaction of secrets in them is not modelled. *)

From S2P Require Import Prelude GoStrings Zones Glob Selection Backup BackupWindow Jobs Schedule Scheduler.

(** ** Stored runs *)

Definition Runs : Type := gmap string JobRun.

(** [ORDER BY started_at DESC, id DESC]. *)
Definition newestFirst (a b : JobRun) : comparison :=
  cmpThen (timeKey (runStarted b) ?= timeKey (runStarted a)) (strCmp (runID b) (runID a)).

Definition ListJobRuns (id : string) (limit : nat) (runs : gmap string JobRun) : list JobRun :=
  take (runLimit limit) (stable_sort (cmpLess newestFirst) (filter (λ r, runJob r = id) ((map_to_list runs).*2))).

(** [SaveJobRun]; a run without an ID or a job is refused. *)
Definition SaveJobRun (r : JobRun) (runs : gmap string JobRun) : gmap string JobRun :=
  if bool_decide (runID r = "") || bool_decide (runJob r = "") then runs else <[runID r := r]> runs.

(** [stampEpoch]: [fence] is the epoch of the HA lease, [None] without HA. *)
Definition stampEpoch (fence : option Z) (r : JobRun) : JobRun :=
  match fence with
  | Some e => if runEpoch r =? 0 then withEpoch e r else r
  | None => r
  end.

(** [saveRun]; a failed save is logged. *)
Definition saveRun (fence : option Z) (ok : bool) (r : JobRun) (runs : gmap string JobRun) : gmap string JobRun :=
  if ok then SaveJobRun (stampEpoch fence r) runs else runs.

(** [newRunOf]: the ID is generated. *)
Definition newRunOf (id job : string) (trigger : BackupTrigger) (now : Z) : JobRun :=
  mkRun id job trigger 0 JobRunRunning now None [] [] [] "" "" 0.

Definition newRun (id : string) (j : Job) (trigger : BackupTrigger) (now : Z) : JobRun := newRunOf id (jID j) trigger now.

(** [newScheduledRun] starts by the scheduler's clock. *)
Definition newScheduledRun (id : string) (j : Job) (now clock : Z) : JobRun := withStart clock (newRun id j TriggerScheduled now).

(** ** Windows *)

Definition SkipOutsideWindow : string := "outside window".

(** What a skipped run touches: the stored runs and the events published. *)
Record SkipState : Type := mkSkip { skRuns : gmap string JobRun; skEvents : list string }.

(** [skipRun] of job [j] at [at_]: [newID] is the ID a new record would get, [read] and
    [ok] whether the store answers and saves; the job's next run is [recordNextRun]'s. *)
Definition skipRun (fence : option Z) (newID : string) (read ok : bool) (j : Job) (reason : string) (at_ : Z) (st : SkipState) : SkipState :=
  match (if read then ListJobRuns (jID j) 1 (skRuns st) else []) with
  | [latest] =>
      if bool_decide (runStatus latest = JobRunSkipped) && bool_decide (runSkipReason latest = reason)
      then mkSkip (saveRun fence ok (Skip reason at_ latest) (skRuns st)) (skEvents st)
      else
        let run := Skip reason at_ (newScheduledRun newID j at_ at_) in
        mkSkip (saveRun fence ok run (skRuns st)) (skEvents st ++ [newID])
  | _ =>
      let run := Skip reason at_ (newScheduledRun newID j at_ at_) in
      mkSkip (saveRun fence ok run (skRuns st)) (skEvents st ++ [newID])
  end.

Section Window.
Context (LoadLocation : string -> option Location).

(** [checkWindow] at [now]: [None] when the run must not start, else when to cancel it
    ([None]: never). *)
Definition checkWindow (j : Job) (now : Z) : option (option Z) :=
  match jWindow j with
  | None => Some None
  | Some w =>
      match Open LoadLocation (Some w) now with
      | None => None
      | Some (_, e) => Some (if wCancelAtEnd w then Some e else None)
      end
  end.
End Window.

(** ** The active run of a job *)

(** [claimJobRun]: [None] is ErrJobRunning. *)
Definition claimJobRun (job run : string) (active : gmap string string) : option (gmap string string) :=
  match active !! job with
  | Some current => if bool_decide (current = run) then Some (<[job := run]> active) else None
  | None => Some (<[job := run]> active)
  end.

Definition releaseJobRun (job run : string) (active : gmap string string) : gmap string string :=
  if bool_decide (active !! job = Some run) then delete job active else active.

Definition ActiveJobRun (job : string) (active : gmap string string) : string := default "" (active !! job).

(** ** Databases of a run *)

(** A record that could not be saved: transient, or the disk is full. *)
Inductive SaveOutcome : Type := SaveOK | SaveTransient | SaveFull (cause : string).

(** [diskguard.Guard.FinishBackup]: the record as it is now, and whether it was stored,
    left to be saved in the background, and failed because of the save. *)
Definition FinishBackup (o : SaveOutcome) (now : Z) (rec : BackupRecord) : BackupRecord * bool * bool * bool :=
  match o with
  | SaveOK => (rec, true, false, false)
  | SaveTransient => (rec, false, true, false)
  | SaveFull cause => (FailUnsaved cause now rec, false, true, true)
  end.

(** Why the run lock of a database was not taken. *)
Inductive LockErr : Type := LockBusy | LockLowSpace (msg : string) | LockOther (msg : string).

(** How one database of a run went: whether its lock was taken, what the engine returned,
    whether the run's context had ended (and why), and the save of the record. *)
Record Attempt : Type := mkAttempt {
  atLock : option LockErr;
  atExecute : BackupRecord -> BackupRecord;
  atEnded : option string;
  atSave : SaveOutcome;
  atNow : Z
}.

Definition withError (status : BackupStatus) (msg : string) (completed : option Z) (r : BackupRecord) : BackupRecord :=
  withOutcome (mkOutcome completed msg (MissingSince (rOutcome r)) (ArchiveCleanupPending (rOutcome r)))
    (withStatus status (rDeletion r) r).

(** The error of a database whose lock was not taken. *)
Definition lockMessage (e : LockErr) (db : string) : string :=
  match e with
  | LockBusy => "another backup of database " +:+ db +:+ " was still running after 30m0s; skipped by this job run"
  | LockLowSpace msg => "backup not started: " +:+ msg
  | LockOther msg => "the run lock of database " +:+ db +:+ " could not be taken: " +:+ msg
  end.

(** A record a shutdown left in progress is failed. *)
Definition settleEnded (ended : option string) (r : BackupRecord) : BackupRecord :=
  match ended with
  | Some why =>
      if bool_decide (rStatus r = StatusInProgress)
      then withError StatusFailed
             (if bool_decide (ErrorMessage (rOutcome r) = "") then "backup cancelled: " +:+ why else ErrorMessage (rOutcome r))
             (CompletedAt (rOutcome r)) r
      else r
  | None => r
  end.

(** The record of a database before it is saved. *)
Definition attempted (a : Attempt) (rec : BackupRecord) : BackupRecord :=
  match atLock a with
  | Some e => withError StatusFailed (lockMessage e (Database (rIdent rec))) (Some (atNow a)) rec
  | None => settleEnded (atEnded a) (atExecute a rec)
  end.

(** [setDatabase]: the outcome of [rec] in the run's entry of its backup. *)
Fixpoint setEntry (rec : BackupRecord) (l : list JobRunDatabase) : list JobRunDatabase :=
  match l with
  | [] => []
  | d :: l =>
      if bool_decide (dbBackup d = rID rec)
      then mkRunDB (dbName d) (dbBackup d) (rStatus rec)
             (if bool_decide (rStatus rec = StatusCompleted) then "" else ErrorMessage (rOutcome rec)) :: l
      else d :: setEntry rec l
  end.
Definition setDatabase (rec : BackupRecord) (r : JobRun) : JobRun := withDatabases (setEntry rec (runDatabases r)) r.

(** A run in progress: its plan, the records the store holds and those left to be saved. *)
Record Progress : Type := mkProgress {
  pgRun : JobRun;
  pgRecords : list BackupRecord;
  pgStored : gmap string BackupRecord;
  pgDeferred : gmap string BackupRecord
}.

(** [runDatabase] of database [i]. *)
Definition runDatabase (attempts : nat -> Attempt) (p : Progress) (i : nat) : Progress :=
  match pgRecords p !! i with
  | None => p
  | Some rec =>
      let a := attempts i in
      let '(rec, stored, deferred, _) := FinishBackup (atSave a) (atNow a) (attempted a rec) in
      mkProgress (setDatabase rec (pgRun p)) (<[i := rec]> (pgRecords p))
        (if stored then <[rID rec := rec]> (pgStored p) else pgStored p)
        (if deferred then <[rID rec := rec]> (pgDeferred p) else pgDeferred p)
  end.

(** The databases of a run, in the order they end, and its summary ([runMulti],
    [finishMulti]). *)
Definition runDatabases_ (attempts : nat -> Attempt) (order : list nat) (p : Progress) : Progress :=
  foldl (runDatabase attempts) p order.

Definition finishMulti (now : Z) (p : Progress) : Progress :=
  mkProgress (Finish now (pgRun p)) (pgRecords p) (pgStored p) (pgDeferred p).

Definition runMulti (attempts : nat -> Attempt) (order : list nat) (now : Z) (p : Progress) : Progress :=
  finishMulti now (runDatabases_ attempts order p).

(** ** Known databases *)

(** [slices.Sort] and [slices.Compact]. *)
Definition sorted (l : list string) : list string := stable_sort (cmpLess strCmp) l.

(** The candidates of [storeKnownDatabases] for the job as it is stored, [None] when
    nothing is written. *)
Definition knownCandidates (planned current : Job) (known completed : list string) : option (list string) :=
  let sel := jobSelection current in
  if negb (Discovers sel) then None
  else if SameSource current planned then
    Some (match jKnown current with None => known | Some k => k ++ known end)
  else match jKnown current with
  | None => None
  | Some k => Some (k ++ filter (λ db, Matches db sel) completed)
  end.

(** [storeKnownDatabases] on the stored job, [known] being what the run resolved ([None]:
    nothing to record): the job afterwards and the databases added for the first time. *)
Definition storeKnownDatabases (planned : Job) (known : option (list string)) (completed added : list string) (current : Job)
    : Job * list string :=
  match known with
  | None => (current, added)
  | Some known =>
  match knownCandidates planned current known completed with
  | None => (current, [])
  | Some candidates =>
      let k := compact (sorted candidates) in
      let new := filter (λ db, db ∈ k /\ db ∉ default [] (jKnown current)) added in
      let write := bool_decide (jKnown current = None) || negb (bool_decide (k = sorted (default [] (jKnown current)))) in
      (if write then withKnown (Some k) current else current, new)
  end
  end.

(** ** Known databases are never lost *)

Lemma elem_of_compact x l : x ∈ compact l <-> x ∈ l.
Proof.
  induction l as [|y l IH]; [done|]. cbn [compact]. destruct l as [|z l]; [done|]. case_bool_decide as E; [|by rewrite !elem_of_cons, IH, elem_of_cons].
  rewrite IH, !elem_of_cons. subst. tauto.
Qed.

Lemma elem_of_known x l : x ∈ compact (sorted l) <-> x ∈ l.
Proof. unfold sorted. by rewrite elem_of_compact, elem_of_stable_sort. Qed.

(** What the known databases [k] of a job and those reported as [new] are after a run that
    resolved [known] and completed [completed], when the job knew [old]. *)
Record KnownKept (planned current : Job) (known completed added old k new : list string) : Prop := mkKnownKept {
  kk_old db : db ∈ old -> db ∈ k;
  kk_from db : db ∈ k -> db ∈ old \/ (SameSource current planned = true /\ db ∈ known) \/
                         (db ∈ completed /\ Matches db (jobSelection current) = true);
  kk_all db : Discovers (jobSelection current) = true -> SameSource current planned = true -> db ∈ known -> db ∈ k;
  kk_new db : db ∈ new -> db ∈ added /\ db ∈ k /\ db ∉ old
}.

Lemma knownCandidates_spec planned current known completed old c :
  jKnown current = Some old -> knownCandidates planned current known completed = Some c ->
  (∀ db, db ∈ old -> db ∈ c) /\
  (∀ db, db ∈ c -> db ∈ old \/ (SameSource current planned = true /\ db ∈ known) \/ (db ∈ completed /\ Matches db (jobSelection current) = true)) /\
  (SameSource current planned = true -> ∀ db, db ∈ known -> db ∈ c).
Proof.
  intros Hk. unfold knownCandidates. destruct (negb _); [done|]. rewrite Hk. destruct (SameSource current planned); intros [= <-].
  - split_and!; intros; rewrite ?elem_of_app in *; naive_solver.
  - split_and!; [intros; apply elem_of_app; by left| |done]. intros db [?|[Hm ?]%list_elem_of_filter]%elem_of_app; [by left|].
    apply Is_true_true in Hm. auto.
Qed.

(** Recording the databases a run resolved never forgets one the job already knew,
    not even when the job was edited while the run went on: the known databases stay known;
    a run of the unchanged job adds all it resolved, a run of a job whose source changed
    only databases it backed up that the new selection matches; and what is reported as
    added for the first time is known now and was not before. *)
Theorem known_databases_kept planned known completed added current j new old :
  storeKnownDatabases planned (Some known) completed added current = (j, new) ->
  jKnown current = Some old ->
  ∃ k, jKnown j = Some k /\ KnownKept planned current known completed added old k new.
Proof.
  unfold storeKnownDatabases. intros H Hk. destruct (knownCandidates planned current known completed) as [c|] eqn:Hc.
  - destruct (knownCandidates_spec _ _ _ _ _ _ Hk Hc) as (C1 & C2 & C3). rewrite Hk in H. cbn [default] in H. cbv zeta in H.
    assert (∃ k, jKnown j = Some k /\ ∀ x, x ∈ k <-> x ∈ c) as (k & Hj & Hx).
    { destruct (_ || _) eqn:E; injection H as <- _; [exists (compact (sorted c)); split; [done|intros; apply elem_of_known]|].
      exists old. split; [done|]. apply orb_false_iff in E as [_ E]. apply negb_false_iff, bool_decide_eq_true in E.
      intros x. rewrite <- (elem_of_known x c), E. unfold sorted. by rewrite elem_of_stable_sort. }
    exists k. split; [done|]. injection H as _ <-. split.
    + intros db Hd. by apply Hx, C1.
    + intros db Hd%Hx. by apply C2.
    + intros db _ Hs Hd. by apply Hx, C3.
    + intros db [[Hd Hn] Ha]%list_elem_of_filter. rewrite elem_of_known in Hd. by rewrite Hx.
  - injection H as <- <-. exists old. split; [done|]. split; auto; [|set_solver].
    intros db Hd. unfold knownCandidates in Hc. rewrite Hd in Hc. cbn in Hc. rewrite Hk in Hc. by destruct (SameSource current planned).
Qed.

(** ** Skipped runs share a record *)

#[export] Instance newestFirst_TotalCmp : TotalCmp newestFirst.
Proof.
  pose proof (TotalCmp_key (λ r : JobRun, timeKey (runStarted r)) Z.compare) as H1. pose proof (TotalCmp_key runID strCmp) as H2.
  pose proof (TotalCmp_flip _ (TotalCmp0 := H1)) as F1. pose proof (TotalCmp_flip _ (TotalCmp0 := H2)) as F2. exact (TotalCmp_then _ _ F1 F2).
Qed.

(** The newest run comes first. *)
Lemma ListJobRuns_newest id runs k r :
  runs !! k = Some r -> runJob r = id ->
  (∀ k' r', runs !! k' = Some r' -> runJob r' = id -> k' <> k -> timeKey (runStarted r') < timeKey (runStarted r)) ->
  ListJobRuns id 1 runs = [r].
Proof.
  intros Hr Hj Hmax. unfold ListJobRuns. change (runLimit 1) with 1%nat. set (l := filter _ _).
  assert (r ∈ stable_sort (cmpLess newestFirst) l) as Hin.
  { rewrite elem_of_stable_sort. subst l. apply list_elem_of_filter. split; [done|]. apply list_elem_of_fmap. exists (k, r). by rewrite elem_of_map_to_list. }
  pose proof (cmp_sort_sorted newestFirst l) as Hs.
  assert (∀ x, x ∈ stable_sort (cmpLess newestFirst) l -> x = r \/ timeKey (runStarted x) < timeKey (runStarted r)) as Hall.
  { intros x. rewrite elem_of_stable_sort. subst l. rewrite list_elem_of_filter, list_elem_of_fmap. intros [Hx ([k' y] & -> & Hy)].
    rewrite elem_of_map_to_list in Hy. cbn in *. destruct (decide (k' = k)) as [->|Hne]; [left; congruence|right; eauto]. }
  destruct (stable_sort _ l) as [|h t]; [by apply not_elem_of_nil in Hin|]. cbn. rewrite take_0. f_equal.
  destruct (Hall h ltac:(by left)) as [->|Hlt]; [done|]. exfalso.
  apply elem_of_cons in Hin as [->|Hin]; [lia|]. inversion Hs as [|?? _ Hf]; subst. rewrite Forall_forall in Hf. apply (Hf _ Hin).
  unfold newestFirst. rewrite (proj2 (Z.compare_gt_iff _ _)) by lia. done.
Qed.

(** Skipped activations of a job, one after the other: the ID a new record would get and
    the time. *)
Definition skips (fence : option Z) (j : Job) (reason : string) (l : list (string * Z)) (st : SkipState) : SkipState :=
  foldl (λ st p, skipRun fence p.1 true true j reason p.2 st) st l.

(** The record of [n] activations from [first] to [last]. *)
Definition skipRecord (fence : option Z) (id : string) (j : Job) (reason : string) (first last n : Z) : JobRun :=
  stampEpoch fence (mkRun id (jID j) TriggerScheduled 0 JobRunSkipped first (Some last) [] [] [] "" reason n).

Lemma Skip_record fence id j reason first last n at_ :
  0 <= n < 2 ^ 63 - 1 ->
  stampEpoch fence (Skip reason at_ (skipRecord fence id j reason first last n)) = skipRecord fence id j reason first at_ (n + 1).
Proof.
  intros Hn. unfold skipRecord, stampEpoch, Skip. assert (i64 (Z.max n 0 + 1) = n + 1) as E by (rewrite i64_small; lia).
  destruct fence as [e|]; cbn; rewrite ?E; [|done]. by destruct (e =? 0).
Qed.

Lemma skipRecord_fields fence id j reason first last n :
  let r := skipRecord fence id j reason first last n in
  runID r = id /\ runJob r = jID j /\ runStatus r = JobRunSkipped /\ runSkipReason r = reason /\ runStarted r = first.
Proof. unfold skipRecord, stampEpoch. by destruct fence. Qed.

Lemma last_cons_default {A} (l : list A) : ∀ a d, List.last (a :: l) d = List.last l a.
Proof. induction l as [|b l IH]; intros a d; [done|]. change (List.last (b :: l) d = List.last (b :: l) a). by rewrite !IH. Qed.

Lemma skips_join fence j reason id first l : ∀ last n runs events,
  jID j <> "" -> id <> "" -> 0 <= n -> n + Z.of_nat (length l) < 2 ^ 63 ->
  runs !! id = Some (skipRecord fence id j reason first last n) ->
  (∀ k r, runs !! k = Some r -> runJob r = jID j -> k <> id -> timeKey (runStarted r) < timeKey first) ->
  skips fence j reason l (mkSkip runs events) =
  mkSkip (<[id := skipRecord fence id j reason first (List.last (l.*2) last) (n + Z.of_nat (length l))]> runs) events.
Proof.
  induction l as [|[id' at_] l IH]; intros last n runs events Hj Hid Hn Hlen Hr Hmax.
  { cbn. rewrite Z.add_0_r, insert_id by done. done. }
  destruct (skipRecord_fields fence id j reason first last n) as (F1 & F2 & F3 & F4 & F5). unfold skips. cbn [foldl fst snd].
  unfold skipRun at 2. cbn [skRuns skEvents].
  rewrite (ListJobRuns_newest (jID j) runs id _ Hr F2) by (rewrite F5; exact Hmax).
  rewrite F3, F4, !bool_decide_true by done. cbn [andb]. unfold saveRun, SaveJobRun. cbn [length] in Hlen.
  rewrite Skip_record by lia. destruct (skipRecord_fields fence id j reason first at_ (n + 1)) as (G1 & G2 & G3 & G4 & G5).
  rewrite G1, G2, !bool_decide_false by done. cbn [orb].
  fold (skips fence j reason l (mkSkip (<[id := skipRecord fence id j reason first at_ (n + 1)]> runs) events)).
  rewrite (IH at_ (n + 1)); [|done|done|lia|lia|by rewrite lookup_insert_eq|].
  - rewrite insert_insert_eq. cbn [length]. rewrite fmap_cons, last_cons_default. do 3 f_equal. lia.
  - intros k r [[<- <-]|[Hk Hl]]%lookup_insert_Some ? ?; [done|eauto].
Qed.

(** Skipped activations coalesce: however often in a row the window of a job skips
    its schedule, since its last run one record is written, which counts the activations
    from the first to the last, and one event is published. *)
Theorem skips_coalesce fence j reason id first l runs events :
  jID j <> "" -> id <> "" -> Z.of_nat (length l) < 2 ^ 63 - 1 ->
  (∀ k r, runs !! k = Some r -> runJob r = jID j -> k <> id /\ timeKey (runStarted r) < timeKey first) ->
  (∀ r, ListJobRuns (jID j) 1 runs = [r] -> ~ (runStatus r = JobRunSkipped /\ runSkipReason r = reason)) ->
  skips fence j reason ((id, first) :: l) (mkSkip runs events) =
  mkSkip (<[id := skipRecord fence id j reason first (List.last (l.*2) first) (1 + Z.of_nat (length l))]> runs) (events ++ [id]).
Proof.
  intros Hj Hid Hlen Hmax Hlatest. unfold skips. cbn [foldl fst snd].
  assert (skipRun fence id true true j reason first (mkSkip runs events) =
          mkSkip (<[id := skipRecord fence id j reason first first 1]> runs) (events ++ [id])) as ->.
  { assert (saveRun fence true (Skip reason first (newScheduledRun id j first first)) runs =
            <[id := skipRecord fence id j reason first first 1]> runs) as Hsave.
    { unfold saveRun, SaveJobRun. assert (stampEpoch fence (Skip reason first (newScheduledRun id j first first)) = skipRecord fence id j reason first first 1) as -> by done.
      destruct (skipRecord_fields fence id j reason first first 1) as (G1 & G2 & _). rewrite G1, G2, !bool_decide_false by done. done. }
    unfold skipRun. cbn [skRuns skEvents]. rewrite Hsave. destruct (ListJobRuns (jID j) 1 runs) as [|r [|]] eqn:E; [done| |done].
    destruct (_ && _) eqn:Eb; [|done]. exfalso. apply andb_true_iff in Eb as [E1 E2]. apply bool_decide_eq_true in E1, E2. by apply (Hlatest r). }
  fold (skips fence j reason l (mkSkip (<[id := skipRecord fence id j reason first first 1]> runs) (events ++ [id]))).
  rewrite (skips_join fence j reason id first l first 1); [|done|done|lia|lia|by rewrite lookup_insert_eq|].
  - by rewrite insert_insert_eq.
  - intros k r [[<- <-]|[Hk Hl]]%lookup_insert_Some ? ?; [done|by eapply Hmax].
Qed.

(** ** Databases in any order *)

Lemma withError_ID st msg c r : rID (withError st msg c r) = rID r.
Proof. done. Qed.

Lemma FailUnsaved_ID cause now r : rID (FailUnsaved cause now r) = rID r.
Proof. unfold FailUnsaved. by destruct (bool_decide _ && negb _). Qed.

Section Order.
Context (attempts : nat -> Attempt).
Hypothesis engine_keeps_ID : ∀ i r, rID (atExecute (attempts i) r) = rID r.

Lemma attempted_ID i r : rID (attempted (attempts i) r) = rID r.
Proof using All.
  unfold attempted. destruct (atLock _); [done|]. unfold settleEnded. destruct (atEnded _); [|apply engine_keeps_ID].
  destruct (bool_decide _); apply engine_keeps_ID.
Qed.

(** The record of database [i] once it ended. *)
Definition final (i : nat) (rec : BackupRecord) : BackupRecord :=
  (FinishBackup (atSave (attempts i)) (atNow (attempts i)) (attempted (attempts i) rec)).1.1.1.

Lemma final_ID i r : rID (final i r) = rID r.
Proof using All. unfold final, FinishBackup. destruct (atSave _); cbn; rewrite ?FailUnsaved_ID; apply attempted_ID. Qed.

Definition savedNow (i : nat) : bool := match atSave (attempts i) with SaveOK => true | _ => false end.

Lemma runDatabase_final p i rec :
  pgRecords p !! i = Some rec ->
  runDatabase attempts p i =
  mkProgress (setDatabase (final i rec) (pgRun p)) (<[i := final i rec]> (pgRecords p))
    (if savedNow i then <[rID rec := final i rec]> (pgStored p) else pgStored p)
    (if savedNow i then pgDeferred p else <[rID rec := final i rec]> (pgDeferred p)).
Proof using All.
  intros Hi. unfold runDatabase, savedNow. rewrite Hi. rewrite <- (final_ID i rec). unfold final, FinishBackup. by destruct (atSave (attempts i)).
Qed.

(** Every record of the run has an ID of its own. *)
Definition distinct (p : Progress) : Prop := NoDup (rID <$> pgRecords p).

Lemma distinct_step p i : distinct p -> distinct (runDatabase attempts p i).
Proof using All.
  unfold distinct. intros H. destruct (pgRecords p !! i) as [rec|] eqn:Hi; [|unfold runDatabase; by rewrite Hi].
  rewrite (runDatabase_final _ _ _ Hi). cbn [pgRecords]. rewrite list_fmap_insert, final_ID.
  rewrite list_insert_id; [done|]. by rewrite list_lookup_fmap, Hi.
Qed.

Lemma distinct_ne p i j a b : distinct p -> i <> j -> pgRecords p !! i = Some a -> pgRecords p !! j = Some b -> rID a <> rID b.
Proof using All.
  intros H Hij Ha Hb E. apply Hij. apply (NoDup_lookup (rID <$> pgRecords p) i j (rID a)); [done| |]; rewrite list_lookup_fmap; [by rewrite Ha|by rewrite Hb, E].
Qed.

Lemma setEntry_comm a b l : rID a <> rID b -> setEntry a (setEntry b l) = setEntry b (setEntry a l).
Proof using All.
  intros H. induction l as [|d l IH]; [done|]. cbn [setEntry].
  destruct (decide (dbBackup d = rID a)) as [Ea|Ea], (decide (dbBackup d = rID b)) as [Eb|Eb];
    rewrite ?(bool_decide_true _ Ea), ?(bool_decide_true _ Eb), ?(bool_decide_false _ Ea), ?(bool_decide_false _ Eb);
    cbn [setEntry dbBackup]; rewrite ?(bool_decide_true _ Ea), ?(bool_decide_true _ Eb), ?(bool_decide_false _ Ea), ?(bool_decide_false _ Eb);
    [congruence|done|done|by rewrite IH].
Qed.

(** Two databases may end in either order. *)
Lemma runDatabase_comm p i j : distinct p -> runDatabase attempts (runDatabase attempts p i) j = runDatabase attempts (runDatabase attempts p j) i.
Proof using All.
  intros Hd. destruct (decide (i = j)) as [->|Hij]; [done|].
  assert (∀ q k, pgRecords q !! k = None -> runDatabase attempts q k = q) as Hnone by (intros q k H; unfold runDatabase; by rewrite H).
  destruct (pgRecords p !! i) as [a|] eqn:Ha; destruct (pgRecords p !! j) as [b|] eqn:Hb.
  - pose proof (distinct_ne _ _ _ _ _ Hd Hij Ha Hb) as Hne.
    rewrite (runDatabase_final _ _ _ Ha), (runDatabase_final _ _ _ Hb).
    rewrite (runDatabase_final _ j b) by (cbn; by rewrite list_lookup_insert_ne). rewrite (runDatabase_final _ i a) by (cbn; by rewrite list_lookup_insert_ne).
    cbn [pgRun pgRecords pgStored pgDeferred]. f_equal.
    + unfold setDatabase, withDatabases. cbn. f_equal. symmetry. apply setEntry_comm. by rewrite !final_ID.
    + by apply list_insert_insert_ne.
    + destruct (savedNow i), (savedNow j); try done. by apply insert_insert_ne.
    + destruct (savedNow i), (savedNow j); try done. by apply insert_insert_ne.
  - rewrite (Hnone p j Hb). apply Hnone. rewrite (runDatabase_final _ _ _ Ha). cbn. by rewrite list_lookup_insert_ne.
  - rewrite (Hnone p i Ha). symmetry. apply Hnone. rewrite (runDatabase_final _ _ _ Hb). cbn. by rewrite list_lookup_insert_ne.
  - by rewrite (Hnone p i Ha), (Hnone p j Hb), (Hnone p i Ha).
Qed.

Lemma runDatabases_perm order order' p :
  distinct p -> order ≡ₚ order' -> runDatabases_ attempts order p = runDatabases_ attempts order' p.
Proof using All.
  intros Hd Hp. unfold runDatabases_. revert p Hd.
  induction Hp as [|i l l' _ IH|i j l|l1 l2 l3 _ IH1 _ IH2]; intros p Hd; cbn [foldl].
  - done.
  - apply IH. by apply distinct_step.
  - by rewrite runDatabase_comm.
  - rewrite IH1 by done. by apply IH2.
Qed.

(** The outcome of a run does not depend on how its databases were interleaved:
    however many ran at once and in whatever order they ended, the run, its records and
    what is stored are the same. *)
Theorem run_outcome_order_free now order order' p :
  distinct p -> order ≡ₚ order' -> runMulti attempts order now p = runMulti attempts order' now p.
Proof using All. intros Hd Hp. unfold runMulti. f_equal. by apply runDatabases_perm. Qed.

(** ** A run that is reported ok *)

Lemma setEntry_backups rec l : dbBackup <$> setEntry rec l = dbBackup <$> l.
Proof using All. induction l as [|d l IH]; [done|]. cbn [setEntry]. destruct (bool_decide _); [done|]. rewrite !fmap_cons. by rewrite IH. Qed.

Lemma setEntry_set rec l : rID rec ∈ dbBackup <$> l -> ∃ d, d ∈ setEntry rec l /\ dbBackup d = rID rec /\ dbStatus d = rStatus rec.
Proof using All.
  induction l as [|d l IH]; [by intros ?%not_elem_of_nil|]. rewrite fmap_cons, elem_of_cons. cbn [setEntry]. intros H.
  destruct (decide (dbBackup d = rID rec)) as [E|E].
  - rewrite (bool_decide_true _ E). eexists. split; [by left|]. done.
  - rewrite (bool_decide_false _ E). destruct H as [H|H]; [congruence|]. destruct (IH H) as (x & Hx & ? & ?). exists x. split; [by right|done].
Qed.

Lemma runDatabases_other order i : ∀ p, distinct p -> i ∉ order ->
  let q := runDatabases_ attempts order p in
  distinct q /\ pgRecords q !! i = pgRecords p !! i /\ dbBackup <$> runDatabases (pgRun q) = dbBackup <$> runDatabases (pgRun p).
Proof using All.
  unfold runDatabases_. induction order as [|k order IH]; intros p Hd Hi; [done|]. cbn [foldl].
  apply not_elem_of_cons in Hi as [Hk Hi].
  assert (pgRecords (runDatabase attempts p k) !! i = pgRecords p !! i /\
          dbBackup <$> runDatabases (pgRun (runDatabase attempts p k)) = dbBackup <$> runDatabases (pgRun p)) as [E1 E2].
  { destruct (pgRecords p !! k) as [rec|] eqn:Ek; [|unfold runDatabase; by rewrite Ek].
    rewrite (runDatabase_final _ _ _ Ek). cbn. rewrite list_lookup_insert_ne by done. split; [done|apply setEntry_backups]. }
  destruct (IH _ (distinct_step p k Hd) Hi) as (I1 & I2 & I3). cbv zeta. rewrite I2, I3, E1, E2. done.
Qed.

(** What a run leaves of database [i]. *)
Lemma runDatabases_record order i p rec :
  distinct p -> NoDup order -> i ∈ order -> pgRecords p !! i = Some rec -> rID rec ∈ dbBackup <$> runDatabases (pgRun p) ->
  let q := runDatabases_ attempts order p in
  pgRecords q !! i = Some (final i rec) /\
  (if savedNow i then pgStored q !! rID rec = Some (final i rec) else pgDeferred q !! rID rec = Some (final i rec)) /\
  ∃ d, d ∈ runDatabases (pgRun q) /\ dbBackup d = rID rec /\ dbStatus d = rStatus (final i rec).
Proof using All.
  intros Hd Hnd Hi Hr Hl. cbv zeta. destruct (elem_of_Permutation order i) as [HP _]. destruct (HP Hi) as [k Hk].
  assert (order ≡ₚ k ++ [i]) as Hk' by (rewrite Hk; apply Permutation_cons_append).
  rewrite (runDatabases_perm _ _ _ Hd Hk'). unfold runDatabases_. rewrite foldl_app. cbn [foldl].
  rewrite Hk in Hnd. apply NoDup_cons in Hnd as [Hik _].
  destruct (runDatabases_other k i p Hd Hik) as (Q1 & Q2 & Q3). cbv zeta in *. unfold runDatabases_ in *.
  set (q := foldl (runDatabase attempts) p k) in *. rewrite Hr in Q2. rewrite (runDatabase_final _ _ _ Q2).
  cbn [pgRecords pgStored pgDeferred pgRun]. split_and!.
  - rewrite list_lookup_insert_eq; [done|]. by eapply lookup_lt_Some.
  - destruct (savedNow i); by rewrite lookup_insert_eq.
  - cbn [setDatabase withDatabases runDatabases]. rewrite <- (final_ID i rec). apply setEntry_set. rewrite final_ID, Q3. done.
Qed.

(** A backup the engine has finished with. *)
Definition settled (st : BackupStatus) : bool :=
  match st with StatusCompleted | StatusFailed | StatusCancelled => true | _ => false end.

Lemma final_settled i rec :
  settled (rStatus (attempted (attempts i) rec)) = true -> isFailedStatus (rStatus (final i rec)) = false ->
  isCancelled (rStatus (final i rec)) = false -> rStatus (final i rec) = StatusCompleted.
Proof using All.
  unfold final, FinishBackup. set (r := attempted _ _). destruct (atSave _); cbn [fst].
  1-2: by destruct (rStatus r).
  assert (rStatus (FailUnsaved cause (atNow (attempts i)) r) = if bool_decide (rStatus r = StatusCancelled) then StatusCancelled else StatusFailed) as ->.
  { unfold FailUnsaved. by destruct (bool_decide (rStatus r = StatusCompleted) && _). }
  by destruct (bool_decide _).
Qed.

Lemma Finish_ok now r :
  runStatus (Finish now r) = JobRunOK -> ∀ d, d ∈ runDatabases r -> isFailedStatus (dbStatus d) = false /\ isCancelled (dbStatus d) = false.
Proof using All.
  unfold Finish. rewrite Counts_having. cbn [runStatus withOutcomeOf].
  destruct (_ && (having isOK r =? 0)); [done|]. destruct (_ && _ && _) eqn:E.
  2: { repeat case_match; done. }
  apply andb_true_iff in E as [E _]. apply andb_true_iff in E as [E1 E2]. apply Z.eqb_eq in E1, E2. intros _ d Hd.
  assert (∀ f, having f r = 0 -> f (dbStatus d) = false) as H; [|by split; apply H].
  intros f Hf. destruct (f (dbStatus d)) eqn:Ef; [|done]. unfold having in Hf.
  assert (d ∈ filter (λ d, f (dbStatus d)) (runDatabases r)) as Hin by (apply list_elem_of_filter; split; [by rewrite Ef|done]).
  destruct (filter _ _); [by apply not_elem_of_nil in Hin|cbn in Hf; lia].
Qed.

(** [C18] A run is reported ok only when its backups are: with every database run once and
    every backup settled by the engine, a run whose status is ok has all its records
    completed, and each of them is stored as completed or queued to be saved so; a record
    the full disk did not take makes the run fail. *)
Theorem ok_run_is_recorded now order p :
  distinct p -> NoDup order -> (∀ i, i ∈ order <-> (i < length (pgRecords p))%nat) ->
  (∀ rec, rec ∈ pgRecords p -> rID rec ∈ dbBackup <$> runDatabases (pgRun p)) ->
  (∀ i rec, settled (rStatus (attempted (attempts i) rec)) = true) ->
  let q := runMulti attempts order now p in
  runStatus (pgRun q) = JobRunOK ->
  ∀ i rec, pgRecords p !! i = Some rec ->
    ∃ done, pgRecords q !! i = Some done /\ rID done = rID rec /\ rStatus done = StatusCompleted /\
      (pgStored q !! rID rec = Some done \/ pgDeferred q !! rID rec = Some done).
Proof using All.
  intros Hd Hnd Hall Hlisted Hset q Hok i rec Hi.
  assert (i ∈ order) as Hin by (apply Hall; by eapply lookup_lt_Some).
  destruct (runDatabases_record order i p rec Hd Hnd Hin Hi (Hlisted _ (list_elem_of_lookup_2 _ _ _ Hi))) as (R1 & R2 & d & D1 & D2 & D3).
  exists (final i rec). subst q. unfold runMulti, finishMulti in *. cbn [pgRun pgRecords pgStored pgDeferred] in *.
  destruct (Finish_ok _ _ Hok _ D1) as [F1 F2]. rewrite D3 in F1, F2. split_and!; [done|apply final_ID|by apply final_settled|].
  destruct (savedNow i); auto.
Qed.
End Order.

(** ** A run of two databases *)

Definition runRecord (id db : string) : BackupRecord :=
  mkRecord (mkIdent id "nightly" TriggerScheduled db "c1" ScopeDatabase 5) StatusInProgress (rStored demoRecord) ""
    (mkOutcome None "" None false) notVerified false false notDeleted [] CopyModeNone.

Definition demoPlan : Progress :=
  mkProgress (withDatabases [mkRunDB "a" "b1" StatusInProgress ""; mkRunDB "b" "b2" StatusInProgress ""] (newRunOf "run1" "nightly" TriggerScheduled 5))
    [runRecord "b1" "a"; runRecord "b2" "b"] ∅ ∅.

(** Both complete; the record of the second is saved in the background. *)
Definition demoAttempts (i : nat) : Attempt :=
  mkAttempt None (withError StatusCompleted "" (Some 9)) None (match i with O => SaveOK | _ => SaveTransient end) 9.

Lemma demo_distinct : distinct demoPlan.
Proof. apply (bool_decide_unpack _). vm_compute. exact I. Qed.

Lemma run_outcome_order_free_witness : runMulti demoAttempts [0; 1]%nat 10 demoPlan = runMulti demoAttempts [1; 0]%nat 10 demoPlan.
Proof. apply run_outcome_order_free; [done|exact demo_distinct|apply (Permutation_swap 1%nat 0%nat [])]. Defined.

Lemma ok_run_is_recorded_witness :
  ∃ done, pgRecords (runMulti demoAttempts [1; 0]%nat 10 demoPlan) !! 1%nat = Some done /\ rID done = "b2" /\ rStatus done = StatusCompleted /\
    (pgStored (runMulti demoAttempts [1; 0]%nat 10 demoPlan) !! "b2" = Some done \/
     pgDeferred (runMulti demoAttempts [1; 0]%nat 10 demoPlan) !! "b2" = Some done).
Proof.
  refine (ok_run_is_recorded demoAttempts _ 10 [1; 0]%nat demoPlan demo_distinct _ _ _ _ _ 1%nat (runRecord "b2" "b") _); [done| | | | |reflexivity|reflexivity].
  - apply (bool_decide_unpack _). vm_compute. exact I.
  - intros i. cbn. rewrite !elem_of_cons, elem_of_nil. lia.
  - intros rec Hrec. cbn in Hrec. repeat (apply elem_of_cons in Hrec as [->|Hrec]); [| |by apply not_elem_of_nil in Hrec]; apply (bool_decide_unpack _); vm_compute; exact I.
  - by destruct i.
Defined.

Definition patternJob (known : option (list string)) : Job :=
  withKnown known (mkJob "p" "patterns" "0 2 * * *" "" (mkSelection SelectionPattern [] [] ["app_*"] [] true) None 1 "t1" true None "c1" None None 0 0 None 7 0).

Lemma known_databases_kept_witness :
  ∃ k, jKnown (patternJob (Some ["app_a"; "app_b"])) = Some k /\
    KnownKept (patternJob None) (patternJob (Some ["app_a"])) ["app_b"] ["app_b"] ["app_b"] ["app_a"] k ["app_b"].
Proof. apply (known_databases_kept (patternJob None) ["app_b"] ["app_b"] ["app_b"] (patternJob (Some ["app_a"]))); reflexivity. Defined.

Lemma skips_coalesce_witness :
  skips None (patternJob None) SkipOutsideWindow [("r1", 10); ("r2", 20); ("r3", 30)] (mkSkip ∅ []) =
  mkSkip (<["r1" := skipRecord None "r1" (patternJob None) SkipOutsideWindow 10 30 3]> ∅) (["r1"]).
Proof.
  apply (skips_coalesce None (patternJob None) SkipOutsideWindow "r1" 10 [("r2", 20); ("r3", 30)] ∅ []); [done|done|done| |done].
  intros k r H. by rewrite lookup_empty in H.
Defined.
