(* ===== verification/KeyLocks.v ===== *)
(** * The deletion locks ([internal/runs/locks.go])

    [KeyLocks] is a set of mutexes by key; the mutex of a key is an object of its own that
    exists while somebody holds or awaits it. Callers keep its pointer while they wait. The
    parts of a call that run under [KeyLocks.mu], and the send on the mutex's channel, are
    one step each; between them other callers run. *)

From S2P Require Import Prelude.

Definition DeletionKey (jobID connectionID database : string) : string :=
  if bool_decide (jobID = "") then "delete:db:" +:+ connectionID +:+ "/" +:+ database else "delete:job:" +:+ jobID.

Definition ArchiveKey (targetID key : string) : string :=
  "archive:" +:+ targetID +:+ String (Ascii.ascii_of_nat 0) key.

(** The one-slot channel (full: taken) and the number of holders and waiters. *)
Record keyLock : Type := mkLock { klTaken : bool; klRefs : Z }.

(** Where a call is: it goes on with the keys left; it waits for a key's mutex; it holds
    all its keys; it releases them, the last taken first. *)
Inductive phase : Type := Taking | Waiting (key : string) (p : nat) | Holding | Releasing.

Record caller : Type := mkCaller { caTodo : list string; caTaken : list string; caPhase : phase }.

Record KeyLocks : Type := mkLocks {
  kHeld : gmap string nat;
  kHeap : gmap nat keyLock;
  kNext : nat;
  kCallers : gmap nat caller
}.

Definition NewKeyLocks : KeyLocks := mkLocks ∅ ∅ 0 ∅.

Definition withCaller (c : nat) (x : caller) (k : KeyLocks) : KeyLocks :=
  mkLocks (kHeld k) (kHeap k) (kNext k) (<[c := x]> (kCallers k)).
Definition withLock (p : nat) (l : keyLock) (k : KeyLocks) : KeyLocks :=
  mkLocks (kHeld k) (<[p := l]> (kHeap k)) (kNext k) (kCallers k).

(** [k.held[key]], created when absent. *)
Definition lockOf (key : string) (k : KeyLocks) : nat * KeyLocks :=
  match kHeld k !! key with
  | Some p => (p, k)
  | None => (kNext k, mkLocks (<[key := kNext k]> (kHeld k)) (<[kNext k := mkLock false 0]> (kHeap k)) (S (kNext k)) (kCallers k))
  end.

Definition dropRef (key : string) (p : nat) (k : KeyLocks) : KeyLocks :=
  match kHeap k !! p with
  | None => k
  | Some l =>
      let refs := klRefs l - 1 in
      let k := withLock p (mkLock (klTaken l) refs) k in
      if refs =? 0 then mkLocks (delete key (kHeld k)) (kHeap k) (kNext k) (kCallers k) else k
  end.

(** The start of [lock]: the entry of the key and a reference to it. *)
Definition lockEnter (c : nat) (k : KeyLocks) : KeyLocks :=
  match kCallers k !! c with
  | Some (mkCaller [] taken Taking) => withCaller c (mkCaller [] taken Holding) k
  | Some (mkCaller (key :: todo) taken Taking) =>
      if bool_decide (key ∈ taken) then withCaller c (mkCaller todo taken Taking) k
      else
        let '(p, k) := lockOf key k in
        match kHeap k !! p with
        | None => k
        | Some l => withCaller c (mkCaller todo taken (Waiting key p)) (withLock p (mkLock (klTaken l) (klRefs l + 1)) k)
        end
  | _ => k
  end.

(** The send on the channel, possible while it is empty. *)
Definition lockSend (c : nat) (k : KeyLocks) : KeyLocks :=
  match kCallers k !! c with
  | Some (mkCaller todo taken (Waiting key p)) =>
      match kHeap k !! p with
      | Some (mkLock false refs) => withCaller c (mkCaller todo (taken ++ [key]) Taking) (withLock p (mkLock true refs) k)
      | _ => k
      end
  | _ => k
  end.

(** The context ended first: the caller releases what it took. *)
Definition lockCancel (c : nat) (k : KeyLocks) : KeyLocks :=
  match kCallers k !! c with
  | Some (mkCaller todo taken (Waiting key p)) => withCaller c (mkCaller [] taken Releasing) (dropRef key p k)
  | _ => k
  end.

(** The release function, called once. *)
Definition release (c : nat) (k : KeyLocks) : KeyLocks :=
  match kCallers k !! c with
  | Some (mkCaller todo taken Holding) => withCaller c (mkCaller [] taken Releasing) k
  | _ => k
  end.

(** [unlock] of the last key taken; [None] when it would dereference a missing entry or
    wait for an empty channel while it holds [KeyLocks.mu]. *)
Definition unlock (c : nat) (k : KeyLocks) : option KeyLocks :=
  match kCallers k !! c with
  | Some (mkCaller todo taken Releasing) =>
      match last taken with
      | None => Some k
      | Some key =>
          match kHeld k !! key with
          | None => None
          | Some p =>
              match kHeap k !! p with
              | Some (mkLock true refs) =>
                  Some (withCaller c (mkCaller todo (removelast taken) Releasing) (dropRef key p (withLock p (mkLock false refs) k)))
              | _ => None
              end
          end
      end
  | _ => Some k
  end.

Definition DeletionLockUsers (key : string) (k : KeyLocks) : Z :=
  match kHeld k !! key ≫= λ p, kHeap k !! p with Some l => klRefs l | None => 0 end.

(** A new call with [keys]. *)
Definition call (c : nat) (keys : list string) (k : KeyLocks) : KeyLocks :=
  match kCallers k !! c with Some _ => k | None => withCaller c (mkCaller keys [] Taking) k end.

Inductive op : Type :=
| OCall (c : nat) (keys : list string)
| OEnter (c : nat)
| OSend (c : nat)
| OCancel (c : nat)
| ORelease (c : nat)
| OUnlock (c : nat).

(** [None] once an [unlock] went wrong. *)
Definition exec (k : option KeyLocks) (o : op) : option KeyLocks :=
  k ← k;
  match o with
  | OCall c keys => Some (call c keys k)
  | OEnter c => Some (lockEnter c k)
  | OSend c => Some (lockSend c k)
  | OCancel c => Some (lockCancel c k)
  | ORelease c => Some (release c k)
  | OUnlock c => unlock c k
  end.

Definition run (ops : list op) : option KeyLocks := foldl exec (Some NewKeyLocks) ops.

(** ** The invariant *)

Definition holds (key : string) (x : caller) : bool := bool_decide (key ∈ caTaken x).

Definition awaits (key : string) (x : caller) : bool :=
  match caPhase x with Waiting key' _ => bool_decide (key' = key) | _ => false end.

Definition uses (key : string) (x : caller) : bool := holds key x || awaits key x.

(** The mutex of [key] counts its users and is taken exactly when one holds it. *)
Definition Counted (key : string) (k : KeyLocks) : Prop :=
  match kHeld k !! key with
  | None => countIf (uses key) (kCallers k) = 0
  | Some p => ∃ l, kHeap k !! p = Some l /\ 0 < klRefs l /\
      klRefs l = countIf (uses key) (kCallers k) /\ b2z (klTaken l) = countIf (holds key) (kCallers k)
  end.

Record Inv (k : KeyLocks) : Prop := {
  iv_counted key : Counted key k;
  iv_waits c x key p : kCallers k !! c = Some x -> caPhase x = Waiting key p -> kHeld k !! key = Some p /\ key ∉ caTaken x;
  iv_nodup c x : kCallers k !! c = Some x -> NoDup (caTaken x);
  iv_fresh key p : kHeld k !! key = Some p -> (p < kNext k)%nat;
  iv_inj key key' p : kHeld k !! key = Some p -> kHeld k !! key' = Some p -> key = key'
}.

Lemma Inv_new : Inv NewKeyLocks.
Proof. split; cbn; done. Qed.

(** A step of caller [c] that concerns the mutex of [key0] only. *)
Lemma Inv_step k k' c y key0 :
  Inv k -> kCallers k' = <[c := y]> (kCallers k) -> (kNext k <= kNext k')%nat ->
  (∀ key, key <> key0 -> kHeld k' !! key = kHeld k !! key /\ (∀ p, kHeld k !! key = Some p -> kHeap k' !! p = kHeap k !! p) /\
     b2z (uses key y) = share (uses key) (kCallers k !! c) /\ b2z (holds key y) = share (holds key) (kCallers k !! c)) ->
  Counted key0 k' ->
  (∀ key p, caPhase y = Waiting key p -> kHeld k' !! key = Some p /\ key ∉ caTaken y) -> NoDup (caTaken y) ->
  (∀ c' x p, c' <> c -> kCallers k !! c' = Some x -> caPhase x = Waiting key0 p -> kHeld k' !! key0 = Some p) ->
  (∀ p, kHeld k' !! key0 = Some p -> (p < kNext k')%nat /\ (kHeld k !! key0 = Some p \/ p = kNext k)) ->
  Inv k'.
Proof.
  intros [I1 I2 I3 I4 I5] Ec En Hk H0 Hy Hn Hw Hp. split.
  - intros key. destruct (decide (key = key0)) as [->|Hne]; [done|]. destruct (Hk _ Hne) as (E1 & E2 & E3 & E4).
    specialize (I1 key). unfold Counted in *. rewrite E1, Ec.
    destruct (kHeld k !! key) as [p|] eqn:E; [|rewrite countIf_share; lia].
    destruct I1 as (l & Hl & H1 & H2 & H3). exists l. rewrite (E2 p eq_refl), !countIf_share. split_and!; [done|lia..].
  - intros c' x key p. rewrite Ec. intros [[<- <-]|[Hne Hx]]%lookup_insert_Some Hph; [by apply Hy|].
    destruct (I2 _ _ _ _ Hx Hph) as [E1 E2]. split; [|done]. destruct (decide (key = key0)) as [->|Hk0]; [by apply (Hw c' x)|].
    by rewrite (proj1 (Hk _ Hk0)).
  - intros c' x. rewrite Ec. intros [[<- <-]|[_ Hx]]%lookup_insert_Some; [done|by eapply I3].
  - intros key p Hh. destruct (decide (key = key0)) as [->|Hk0]; [by apply Hp|].
    rewrite (proj1 (Hk _ Hk0)) in Hh. apply I4 in Hh. lia.
  - assert (∀ key key' p, key = key0 -> key' <> key0 -> kHeld k' !! key = Some p -> kHeld k' !! key' = Some p -> False) as Hx.
    { intros key key' p -> Hk' H1 H2. rewrite (proj1 (Hk _ Hk')) in H2. destruct (Hp _ H1) as [_ [H3| ->]]; [by apply Hk', (I5 _ _ p)|].
      apply I4 in H2. lia. }
    intros key key' p H1 H2. destruct (decide (key = key0)) as [E|E], (decide (key' = key0)) as [E'|E']; [congruence|exfalso; eauto..|].
    rewrite (proj1 (Hk _ E)) in H1. rewrite (proj1 (Hk _ E')) in H2. by eapply I5.
Qed.

(** A step that changes no mutex. *)
Lemma Inv_caller k c y :
  Inv k -> (∀ key, b2z (uses key y) = share (uses key) (kCallers k !! c) /\ b2z (holds key y) = share (holds key) (kCallers k !! c)) ->
  (∀ key p, caPhase y <> Waiting key p) -> NoDup (caTaken y) -> Inv (withCaller c y k).
Proof.
  intros HI Hy Hw Hn. apply (Inv_step k (withCaller c y k) c y EmptyString HI eq_refl (le_n _)); [intros; split_and!; try done; apply Hy| |by intros ? ? ?%Hw|done| |].
  - pose proof (iv_counted _ HI EmptyString) as H. unfold Counted in *. cbn. destruct (Hy EmptyString) as [E1 E2].
    destruct (kHeld k !! EmptyString); [destruct H as (l & H1 & H2 & H3 & H4); exists l; rewrite !countIf_share; split_and!; [done|lia..]|rewrite countIf_share; lia].
  - intros c' x p _ Hx Hp. apply (iv_waits _ HI _ _ _ _ Hx Hp).
  - cbn. intros p H. split; [by eapply iv_fresh|by left].
Qed.

(** The users of a mutex that nobody waits for or holds. *)
Lemma uses_other key x : key ∉ caTaken x -> (∀ p, caPhase x <> Waiting key p) -> uses key x = false.
Proof.
  intros H1 H2. unfold uses, holds, awaits. rewrite bool_decide_false by done. cbn. destruct (caPhase x) as [|key' p| |]; try done.
  apply bool_decide_false. intros ->. by eapply H2.
Qed.

Lemma Inv_call c keys k : Inv k -> Inv (call c keys k).
Proof.
  intros HI. unfold call. destruct (kCallers k !! c) as [x|] eqn:E; [done|].
  apply Inv_caller; [done| |done|constructor]. intros key. by rewrite E.
Qed.

Lemma Inv_release c k : Inv k -> Inv (release c k).
Proof.
  intros HI. unfold release. destruct (kCallers k !! c) as [[todo taken []]|] eqn:E; try done.
  apply Inv_caller; [done| |done|by apply (iv_nodup _ HI c _ E)]. intros key. by rewrite E.
Qed.

Lemma Inv_lockSend c k : Inv k -> Inv (lockSend c k).
Proof.
  intros HI. unfold lockSend. destruct (kCallers k !! c) as [[todo taken [|key p| |]]|] eqn:E; try done.
  destruct (kHeap k !! p) as [[[] refs]|] eqn:Ep; try done.
  destruct (iv_waits _ HI _ _ _ _ E eq_refl) as [Hh Hn]. cbn [caTaken] in Hn.
  eapply (Inv_step k _ c (mkCaller todo (taken ++ [key]) Taking) key HI); [reflexivity|apply le_n|..].
  - intros key' Hne. cbn. split_and!; [done| | |].
    + intros p' Hp'. rewrite lookup_insert_ne; [done|]. intros <-. by apply Hne, (iv_inj _ HI _ _ p).
    + rewrite E. cbn. unfold uses, holds, awaits. cbn. rewrite (bool_decide_false (key = key')) by congruence.
      rewrite (bool_decide_ext (key' ∈ taken ++ [key]) (key' ∈ taken)) by set_solver. done.
    + rewrite E. cbn. unfold holds. cbn. by rewrite (bool_decide_ext (key' ∈ taken ++ [key]) (key' ∈ taken)) by set_solver.
  - pose proof (iv_counted _ HI key) as HC. unfold Counted in *. cbn. rewrite Hh in HC |- *. destruct HC as (l & Hl & H1 & H2 & H3).
    rewrite Ep in Hl. injection Hl as <-. cbn [klRefs klTaken] in *. exists (mkLock true refs). rewrite lookup_insert_eq, !countIf_share, E.
    cbn. unfold uses, holds, awaits. cbn. rewrite (bool_decide_true (key ∈ taken ++ [key])), (bool_decide_false (key ∈ taken)), (bool_decide_true (key = key)) by set_solver.
    cbn. unfold uses, holds, awaits in H2, H3. cbn in H3. split_and!; [done|lia..].
  - done.
  - cbn. apply NoDup_app. split_and!; [apply (iv_nodup _ HI c _ E)|set_solver|apply NoDup_singleton].
  - cbn. intros c' x p' _ Hx Hp'. apply (iv_waits _ HI _ _ _ _ Hx Hp').
  - cbn. intros p' Hp'. split; [by eapply iv_fresh|by left].
Qed.

(** The entry of a key that is not in use is new. *)
Lemma Inv_lockEnter c k : Inv k -> Inv (lockEnter c k).
Proof.
  intros HI. unfold lockEnter. destruct (kCallers k !! c) as [[[|key todo] taken []]|] eqn:E; try done.
  { apply Inv_caller; [done| |done|apply (iv_nodup _ HI c _ E)]. intros key. by rewrite E. }
  case_bool_decide as Hin.
  { apply Inv_caller; [done| |done|apply (iv_nodup _ HI c _ E)]. intros key'. by rewrite E. }
  assert (∀ p key', key' <> key -> b2z (uses key' (mkCaller todo taken (Waiting key p))) = share (uses key') (kCallers k !! c) /\ b2z (holds key' (mkCaller todo taken (Waiting key p))) = share (holds key') (kCallers k !! c)) as Hy.
  { intros p key' Hne. rewrite E. split; [|done].  unfold uses, awaits. cbn. by rewrite (bool_decide_false (key = key')), !orb_false_r by congruence. }
  assert (∀ p, countIf (uses key) (<[c := mkCaller todo taken (Waiting key p)]> (kCallers k)) = countIf (uses key) (kCallers k) + 1 /\
               countIf (holds key) (<[c := mkCaller todo taken (Waiting key p)]> (kCallers k)) = countIf (holds key) (kCallers k)) as Hc.
  { intros p. rewrite !countIf_share, E.  unfold uses, holds, awaits. cbn.
    rewrite (bool_decide_false (key ∈ taken)), (bool_decide_true (key = key)) by done. cbn. lia. }
  pose proof (iv_counted _ HI key) as HC. unfold lockOf, Counted in HC |- *. destruct (kHeld k !! key) as [p|] eqn:Eh.
  - destruct HC as (l & Hl & H1 & H2 & H3). rewrite Hl. eapply (Inv_step k _ c (mkCaller todo taken (Waiting key p)) key HI); [reflexivity|apply le_n|..].
    + intros key' Hne. cbn. split_and!; [done| |apply Hy; done..]. intros p' Hp'. rewrite lookup_insert_ne; [done|].
      intros <-. by apply Hne, (iv_inj _ HI _ _ p).
    + unfold Counted. cbn [kHeld kHeap kCallers withCaller withLock]. rewrite Eh. eexists. rewrite lookup_insert_eq. destruct (Hc p) as [-> ->]. split_and!; [done|cbn; lia..].
    + cbn. by intros ? ? [= <- <-].
    + apply (iv_nodup _ HI c _ E).
    + cbn. intros c' x p' _ Hx Hp'. apply (iv_waits _ HI _ _ _ _ Hx Hp').
    + cbn. intros p' Hp'. split; [by eapply iv_fresh|by left].
  - cbn [kHeap]. rewrite lookup_insert_eq. eapply (Inv_step k _ c (mkCaller todo taken (Waiting key (kNext k))) key HI); [reflexivity|cbn; lia|..].
    + intros key' Hne. cbn. rewrite lookup_insert_ne by done. split_and!; [done| |apply Hy; done..]. intros p' Hp'.
      apply (iv_fresh _ HI) in Hp'. rewrite !lookup_insert_ne by lia. done.
    + unfold Counted. cbn [kHeld kHeap kCallers withCaller withLock]. rewrite lookup_insert_eq. eexists. rewrite lookup_insert_eq. destruct (Hc (kNext k)) as [-> ->].
      assert (countIf (holds key) (kCallers k) = 0) as ->; [|split_and!; [done|cbn; lia..]].
      apply Z.le_antisymm; [|apply countIf_nonneg]. apply Z.nlt_ge. intros (i & x & Hx & Hh)%countIf_pos.
      assert (uses key x = true) as Hu by (unfold uses; by rewrite Hh). pose proof (countIf_elem _ _ _ _ Hx Hu). lia.
    + cbn. intros ? ? [= <- <-]. by rewrite lookup_insert_eq.
    + apply (iv_nodup _ HI c _ E).
    + cbn. intros c' x p' _ Hx Hp'. destruct (iv_waits _ HI _ _ _ _ Hx Hp'). congruence.
    + cbn. rewrite lookup_insert_eq. intros p' [= <-]. split; [lia|by right].
Qed.

(** One reference less: the entry goes with the last one. *)
Lemma Inv_dropRef c x y key p k l taken' :
  Inv k -> kCallers k !! c = Some x -> kHeld k !! key = Some p -> kHeap k !! p = Some l ->
  uses key x = true -> uses key y = false ->
  (∀ key', key' <> key -> uses key' y = uses key' x /\ holds key' y = holds key' x) ->
  b2z taken' = countIf (holds key) (<[c := y]> (kCallers k)) ->
  (∀ key p, caPhase y <> Waiting key p) -> NoDup (caTaken y) ->
  Inv (withCaller c y (dropRef key p (withLock p (mkLock taken' (klRefs l)) k))).
Proof.
  intros HI E Hh Hl Hx Hy Ho Ht Hw Hn. unfold dropRef. cbn [kHeap withLock]. rewrite lookup_insert_eq. cbn [klRefs klTaken].
  pose proof (iv_counted _ HI key) as HC. unfold Counted in HC. rewrite Hh in HC. destruct HC as (l' & Hl' & H1 & H2 & H3).
  rewrite Hl in Hl'. injection Hl' as <-.
  assert (countIf (uses key) (<[c := y]> (kCallers k)) = klRefs l - 1) as Hu by (rewrite countIf_share, E; cbn; rewrite Hx, Hy; cbn; lia).
  destruct (klRefs l - 1 =? 0) eqn:Ez; bool_cases; (eapply (Inv_step k _ c y key HI); [reflexivity|apply le_n|..]).
  all: try (by intros ? ? ?%Hw); try done.
  - intros key' Hne. cbn. rewrite lookup_delete_ne by done. rewrite E. destruct (Ho _ Hne) as [-> ->]. split_and!; try done. intros p' Hp'.
    rewrite !lookup_insert_ne; [done|..]; intros <-; by apply Hne, (iv_inj _ HI _ _ p).
  - unfold Counted. cbn. rewrite lookup_delete_eq. lia.
  - cbn. intros c' z p' Hc' Hz Hp'. exfalso. assert (uses key z = true) as Huz.
    { unfold uses, awaits. rewrite Hp'. by rewrite bool_decide_true, orb_true_r. }
    assert (<[c := y]> (kCallers k) !! c' = Some z) as Hz' by (by rewrite lookup_insert_ne). pose proof (countIf_elem _ _ _ _ Hz' Huz). lia.
  - cbn. by rewrite lookup_delete_eq.
  - intros key' Hne. cbn. rewrite E. destruct (Ho _ Hne) as [-> ->]. split_and!; try done. intros p' Hp'.
    rewrite !lookup_insert_ne; [done|..]; intros <-; by apply Hne, (iv_inj _ HI _ _ p).
  - unfold Counted. cbn. rewrite Hh. eexists. rewrite lookup_insert_eq. split_and!; [done|cbn; pose proof (countIf_nonneg (uses key) (<[c := y]> (kCallers k))); lia|done|done].
  - cbn. intros c' z p' _ Hz Hp'. apply (iv_waits _ HI _ _ _ _ Hz Hp').
  - cbn. intros p' Hp'. split; [by eapply iv_fresh|by left].
Qed.

Lemma withLock_same p l k : kHeap k !! p = Some l -> withLock p (mkLock (klTaken l) (klRefs l)) k = k.
Proof. intros H. destruct k as [held heap next callers]. unfold withLock. cbn in *. f_equal. apply insert_id. by destruct l. Qed.

Lemma Inv_lockCancel c k : Inv k -> Inv (lockCancel c k).
Proof.
  intros HI. unfold lockCancel. destruct (kCallers k !! c) as [[todo taken [|key p| |]]|] eqn:E; try done.
  destruct (iv_waits _ HI _ _ _ _ E eq_refl) as [Hh Hn]. cbn [caTaken] in Hn.
  pose proof (iv_counted _ HI key) as HC. unfold Counted in HC. rewrite Hh in HC. destruct HC as (l & Hl & H1 & H2 & H3).
  rewrite <- (withLock_same p l k Hl) at 1. apply (Inv_dropRef c (mkCaller todo taken (Waiting key p))); try done.
  - unfold uses, awaits. cbn. by rewrite bool_decide_true, orb_true_r.
  - by apply uses_other.
  - intros key' Hne. split; [|done]. unfold uses, awaits. cbn. by rewrite (bool_decide_false (key = key')), !orb_false_r by congruence.
  - rewrite countIf_share, E. cbn. unfold holds. cbn. unfold holds in H3. lia.
  - apply (iv_nodup _ HI c _ E).
Qed.

Lemma last_removelast (l : list string) x : last l = Some x -> l = removelast l ++ [x].
Proof. intros H. apply last_Some in H as [l' ->]. by rewrite removelast_last. Qed.

(** An [unlock] finds its mutex, taken. *)
Lemma unlock_Inv c k : Inv k -> ∃ k', unlock c k = Some k' /\ Inv k'.
Proof.
  intros HI. unfold unlock. destruct (kCallers k !! c) as [[todo taken []]|] eqn:E; [by eexists..| |by eexists].
  destruct (last taken) as [key|] eqn:El; [|by eexists]. apply last_removelast in El.
  pose proof (iv_nodup _ HI c _ E) as Hnd. cbn in Hnd. rewrite El in Hnd. apply NoDup_app in Hnd as (N1 & N2 & _).
  set (x := mkCaller todo taken Releasing) in *. assert (holds key x = true) as Hx by (apply bool_decide_true; cbn; rewrite El; set_solver).
  assert (uses key x = true) as Hu by (unfold uses; by rewrite Hx).
  pose proof (iv_counted _ HI key) as HC. unfold Counted in HC. pose proof (countIf_elem _ _ _ _ E Hu) as H4. pose proof (countIf_elem _ _ _ _ E Hx) as H5.
  destruct (kHeld k !! key) as [p|] eqn:Hh; [|lia]. destruct HC as ([taken' refs] & Hl & H1 & H2 & H3). rewrite Hl.
  destruct taken'; cbn [b2z klTaken klRefs] in *; [|lia]. eexists. split; [done|].
  assert (key ∉ removelast taken) as Hk by (intros H; apply (N2 _ H); by left).
  apply (Inv_dropRef c x _ key p k (mkLock true refs) false); try done.
  - by apply uses_other.
  - intros key' Hne. assert (holds key' (mkCaller todo (removelast taken) Releasing) = holds key' x) as Eq; [|by unfold uses; rewrite Eq].
    apply bool_decide_ext. cbn. rewrite El at 2. set_solver.
  - rewrite countIf_share, E. cbn [share]. rewrite Hx. unfold holds at 2. cbn [caTaken]. rewrite (bool_decide_false (key ∈ removelast taken)) by done. cbn. lia.
Qed.

Lemma locks_Inv_run ops : ∃ k, run ops = Some k /\ Inv k.
Proof.
  unfold run. assert (∃ k, Some NewKeyLocks = Some k /\ Inv k) as H by (eexists; split; [done|apply Inv_new]).
  revert H. generalize (Some NewKeyLocks). induction ops as [|o ops IH]; intros s H; [done|]. cbn [foldl]. apply IH.
  destruct H as (k & -> & HI). destruct o; cbn.
  - eexists. split; [done|by apply Inv_call].
  - eexists. split; [done|by apply Inv_lockEnter].
  - eexists. split; [done|by apply Inv_lockSend].
  - eexists. split; [done|by apply Inv_lockCancel].
  - eexists. split; [done|by apply Inv_release].
  - by apply unlock_Inv.
Qed.

(** [C21] The deletion locks exclude: whatever calls wait, are cancelled and release in
    whatever order, two callers never hold a key at once, the number of its users is exact,
    so an entry is dropped with its last user and never before, and no release finds its
    entry missing or waits. *)
Theorem deletion_locks_exclusive ops :
  ∃ k, run ops = Some k /\ (∀ key, DeletionLockUsers key k = countIf (uses key) (kCallers k)) /\
    ∀ key c1 c2 x1 x2, kCallers k !! c1 = Some x1 -> kCallers k !! c2 = Some x2 -> key ∈ caTaken x1 -> key ∈ caTaken x2 -> c1 = c2.
Proof.
  destruct (locks_Inv_run ops) as (k & Hk & HI). exists k. split; [done|]. split.
  - intros key. pose proof (iv_counted _ HI key) as HC. unfold Counted, DeletionLockUsers in *. destruct (kHeld k !! key); cbn; [|done].
    destruct HC as (l & -> & _ & H & _). done.
  - intros key c1 c2 x1 x2 H1 H2 K1 K2. pose proof (iv_counted _ HI key) as HC. unfold Counted in HC.
    assert (holds key x1 = true /\ holds key x2 = true) as [B1 B2] by (split; by apply bool_decide_true).
    assert (countIf (holds key) (kCallers k) <= 1) as Hle.
    { destruct (kHeld k !! key); [destruct HC as (l & _ & _ & _ & H); destruct (klTaken l); cbn in H; lia|].
      assert (uses key x1 = true) as Hu by (unfold uses; by rewrite B1). pose proof (countIf_elem _ _ _ _ H1 Hu). lia. }
    by eapply (countIf_unique (holds key)).
Qed.

(** ** No deadlock *)

Definition finished (x : caller) : Prop := caPhase x = Releasing /\ caTaken x = [].

(** The caller waits for a mutex that is taken. *)
Definition blocked (k : KeyLocks) (x : caller) : Prop :=
  ∃ key p refs, caPhase x = Waiting key p /\ kHeap k !! p = Some (mkLock true refs).

Section Deadlock.
Context (rank : string -> Z) (task : nat -> nat).

(** The discipline of [LockDeletion]: the calls of one goroutine may nest, it waits for one
    mutex at a time, and only for a key ranked above every key it holds. *)
Record LockOrder (k : KeyLocks) : Prop := {
  lo_one c1 c2 x1 x2 key1 key2 p1 p2 : kCallers k !! c1 = Some x1 -> kCallers k !! c2 = Some x2 -> task c1 = task c2 ->
    caPhase x1 = Waiting key1 p1 -> caPhase x2 = Waiting key2 p2 -> c1 = c2;
  lo_above c1 c2 x1 x2 key1 key2 p2 : kCallers k !! c1 = Some x1 -> kCallers k !! c2 = Some x2 -> task c1 = task c2 ->
    key1 ∈ caTaken x1 -> caPhase x2 = Waiting key2 p2 -> rank key1 < rank key2
}.

(** The goroutine of call [c] is not stuck: none of its calls waits for a taken mutex. *)
Definition runnable (k : KeyLocks) (c : nat) : Prop :=
  ∀ c' x', task c' = task c -> kCallers k !! c' = Some x' -> ~ blocked k x'.

Lemma rank_bound (m : gmap nat caller) : ∃ M, ∀ c x key p, m !! c = Some x -> caPhase x = Waiting key p -> rank key <= M.
Proof.
  induction m as [|c x m Hc [M IH]] using map_ind; [by exists 0|].
  exists (Z.max M match caPhase x with Waiting key _ => rank key | _ => 0 end). intros c' y key p [[<- <-]|[_ H]]%lookup_insert_Some Hp.
  - rewrite Hp. lia.
  - specialize (IH _ _ _ _ H Hp). lia.
Qed.

Definition isWaiting (x : caller) : bool := match caPhase x with Waiting _ _ => true | _ => false end.

(** Either a goroutine waits for a mutex or none of its calls does. *)
Lemma task_waits k c :
  (∃ c' x' key p, task c' = task c /\ kCallers k !! c' = Some x' /\ caPhase x' = Waiting key p) \/ runnable k c.
Proof.
  destruct (decide (map_Exists (λ c' x', task c' = task c /\ isWaiting x' = true) (kCallers k))) as [(c' & x' & Hx & Ht & Hw)|Hn].
  - left. unfold isWaiting in Hw. destruct (caPhase x') as [|key p| |] eqn:E; try done. by exists c', x', key, p.
  - right. intros c' x' Ht Hx (key & p & r & E & _). apply Hn. exists c', x'. unfold isWaiting. by rewrite E.
Qed.

(** A waiting call leads to a goroutine that can go on. *)
Lemma unblocked k M : Inv k -> LockOrder k -> (∀ c x key p, kCallers k !! c = Some x -> caPhase x = Waiting key p -> rank key <= M) ->
  ∀ n c x key p, kCallers k !! c = Some x -> caPhase x = Waiting key p -> M - rank key < Z.of_nat n ->
  ∃ c' x', kCallers k !! c' = Some x' /\ ~ finished x' /\ runnable k c'.
Proof.
  intros HI HO HM. induction n as [|n IH]; intros c x key p Hx Hp Hn; [specialize (HM _ _ _ _ Hx Hp); lia|].
  destruct (iv_waits _ HI _ _ _ _ Hx Hp) as [Hh _]. pose proof (iv_counted _ HI key) as HC. unfold Counted in HC. rewrite Hh in HC.
  destruct HC as ([[] refs] & Hl & _ & _ & Ht); cbn in Ht.
  2: { exists c, x. split_and!; [done|by intros [E _]; rewrite Hp in E|]. intros c' x' Htask Hx' (key' & p' & r & E & E').
       assert (c' = c) as -> by (by eapply (lo_one _ HO c' c)). rewrite Hx in Hx'. injection Hx' as <-. rewrite Hp in E. injection E as <- <-. congruence. }
  destruct (countIf_pos (holds key) (kCallers k)) as (h & y & Hy & Hhold); [lia|]. apply bool_decide_eq_true in Hhold.
  destruct (task_waits k h) as [(c' & x' & key' & p' & Htask & Hx' & Hp')|Hrun].
  - apply (IH c' x' key' p' Hx' Hp'). pose proof (lo_above _ HO h c' y x' key key' p' Hy Hx' (eq_sym Htask) Hhold Hp'). lia.
  - exists h, y. split_and!; [done| |done]. intros [_ E]. rewrite E in Hhold. by apply not_elem_of_nil in Hhold.
Qed.

(** [C22] Goroutines that keep the order of the deletion locks never deadlock, also with
    nested calls: while a call is not finished, the goroutine of some unfinished call is
    not stuck. *)
Theorem ordered_locks_progress ops k c x :
  run ops = Some k -> LockOrder k -> kCallers k !! c = Some x -> ~ finished x ->
  ∃ c' x', kCallers k !! c' = Some x' /\ ~ finished x' /\ runnable k c'.
Proof.
  intros Hr HO Hx Hf. destruct (locks_Inv_run ops) as (k' & Hk' & HI). rewrite Hr in Hk'. injection Hk' as <-.
  destruct (rank_bound (kCallers k)) as [M HM]. destruct (task_waits k c) as [(c' & x' & key & p & _ & Hx' & Hp)|Hrun]; [|by exists c, x].
  apply (unblocked k M HI HO HM (S (Z.to_nat (M - rank key))) c' x' key p Hx' Hp). lia.
Qed.
End Deadlock.

(** ** The order of the deletion locks *)

(** The deletion lock of a job or database comes before those of archives. *)
Definition lockRank (key : string) : Z := if String.prefix "archive:" key then 1 else 0.

(** Two goroutines hold the deletion locks of a job and of a database (calls 0 and 2); both
    want the same archive in a nested call (1 and 3). *)
Definition demoLocks : list op :=
  [OCall 0 [DeletionKey "j" "c" "db"]; OEnter 0; OSend 0; OEnter 0; OCall 1 [ArchiveKey "t" "a"]; OEnter 1; OSend 1; OEnter 1;
   OCall 2 [DeletionKey "" "c" "db"]; OEnter 2; OSend 2; OEnter 2; OCall 3 [ArchiveKey "t" "a"]; OEnter 3].

Definition demoState : KeyLocks := Eval vm_compute in default NewKeyLocks (run demoLocks).

Definition demoTask (c : nat) : nat := (c / 2)%nat.

Lemma demo_callers c x : kCallers demoState !! c = Some x ->
  (c = 0%nat /\ x = mkCaller [] [DeletionKey "j" "c" "db"] Holding) \/ (c = 1%nat /\ x = mkCaller [] [ArchiveKey "t" "a"] Holding) \/
  (c = 2%nat /\ x = mkCaller [] [DeletionKey "" "c" "db"] Holding) \/ (c = 3%nat /\ x = mkCaller [] [] (Waiting (ArchiveKey "t" "a") 1)).
Proof.
  intros H. apply elem_of_map_to_list in H. vm_compute in H.
  repeat (apply elem_of_cons in H as [H|H]; [injection H as -> ->; vm_compute; tauto|]). by apply elem_of_nil in H.
Qed.

Lemma demo_order : LockOrder lockRank demoTask demoState.
Proof.
  split.
  - intros c1 c2 x1 x2 key1 key2 p1 p2 [[-> ->]|[[-> ->]|[[-> ->]|[-> ->]]]]%demo_callers [[-> ->]|[[-> ->]|[[-> ->]|[-> ->]]]]%demo_callers; done.
  - intros c1 c2 x1 x2 key1 key2 p2 [[-> ->]|[[-> ->]|[[-> ->]|[-> ->]]]]%demo_callers [[-> ->]|[[-> ->]|[[-> ->]|[-> ->]]]]%demo_callers; try done.
    + intros _ ->%list_elem_of_singleton [= <- _]. vm_compute. done.
    + intros _ []%not_elem_of_nil.
Qed.

Lemma ordered_locks_progress_witness :
  ∃ c' x', kCallers demoState !! c' = Some x' /\ ~ finished x' /\ runnable demoTask demoState c'.
Proof.
  eapply (ordered_locks_progress lockRank demoTask demoLocks demoState 3%nat).
  - vm_compute. reflexivity.
  - exact demo_order.
  - vm_compute. reflexivity.
  - by intros [].
Defined.

Example demo_waits : DeletionLockUsers (ArchiveKey "t" "a") demoState = 2.
Proof. vm_compute. reflexivity. Qed.
