(* ===== verification/ObjectStorage.v ===== *)
(** * Objects with versions and locks ([internal/storage/s3_lock.go])

    What a purge removes of an object: on a target with Object Lock every version, and
    only once none is under a retention; elsewhere the key. An object is kept under the
    place it is physically stored at. *)

From S2P Require Import Prelude.

Record Version : Type := mkVersion { vID : string; vMarker : bool; vRetain : option Z; vHold : bool }.

#[export] Instance Version_eq_dec : EqDecision Version.
Proof. solve_decision. Defined.

Abbreviation Objects := (gmap string (list Version)).

(** A target's driver: whether it supports Object Lock (S3), whether it locks its uploads,
    and whether its bucket keeps versions, which Object Lock requires. *)
Record Driver : Type := mkDriver { drLocker : bool; drLock : bool; drVersioned : bool }.

(** How the requests fail: the listing or a read of a version, and the deletion of the
    versions after a number of them. *)
Record Fault : Type := mkFault { ftRead : bool; ftDelete : option nat }.
Definition noFault : Fault := mkFault false None.

Inductive Purged : Type := PgDone | PgLocked (until : Z) | PgNotFound | PgFailed.

(** The loop over the versions: [None] when one is held, else the latest retention. *)
Fixpoint lockScan (now : Z) (wait : option Z) (l : list Version) : option (option Z) :=
  match l with
  | [] => Some wait
  | v :: l =>
      if vMarker v then lockScan now wait l
      else if vHold v then None
      else
        lockScan now
          (match vRetain v with
           | Some u => if (now <? u) && match wait with None => true | Some w => w <? u end then Some u else wait
           | None => wait
           end) l
  end.

Definition PurgeVersions (f : Fault) (place : string) (now : Z) (objs : Objects) : Purged * Objects :=
  let versions := default [] (objs !! place) in
  if ftRead f then (PgFailed, objs)
  else if bool_decide (versions = []) then (PgNotFound, objs)
  else match lockScan now None versions with
  | None => (PgFailed, objs)
  | Some (Some until) => (PgLocked until, objs)
  | Some None =>
      match ftDelete f with
      | Some n => (PgFailed, <[place := drop n versions]> objs)
      | None => (PgDone, delete place objs)
      end
  end.

(** [S3Storage.Delete], where a bucket does not tell a missing key and one with versions
    adds a delete marker, and [LocalStorage.Delete]. The newest version is the first. *)
Definition Delete (d : Driver) (f : Fault) (place : string) (objs : Objects) : Purged * Objects :=
  if ftRead f || bool_decide (is_Some (ftDelete f)) then (PgFailed, objs)
  else if drLocker d && drVersioned d then
    (PgDone, <[place := mkVersion "" true None false :: default [] (objs !! place)]> objs)
  else match objs !! place with
  | None => (if drLocker d then PgDone else PgNotFound, objs)
  | Some _ => (PgDone, delete place objs)
  end.

(** [storage.Purge]. *)
Definition Purge (d : Driver) (f : Fault) (place version : string) (now : Z) (objs : Objects) : Purged * Objects :=
  if drLocker d && (drLock d || negb (bool_decide (version = ""))) then PurgeVersions f place now objs
  else Delete d f place objs.

(** [storage.SetLegalHold] to off, of the current version for the empty one. *)
Definition clearHold (d : Driver) (f : Fault) (place version : string) (objs : Objects) : Purged * Objects :=
  if negb (drLocker d) || ftRead f then (PgFailed, objs)
  else match objs !! place with
  | None | Some [] => (PgNotFound, objs)
  | Some ((v :: _) as all) =>
      let id := if bool_decide (version = "") then vID v else version in
      (PgDone, <[place := (λ v, if bool_decide (vID v = id) then mkVersion (vID v) (vMarker v) (vRetain v) false else v) <$> all]> objs)
  end.

(** ** What is left alone *)

Lemma Purge_other d f place version now objs q : q <> place -> (Purge d f place version now objs).2 !! q = objs !! q.
Proof.
  intros Hq. unfold Purge, PurgeVersions, Delete.
  destruct (_ && _).
  - destruct (ftRead f); [done|]. destruct (bool_decide _); [done|]. destruct (lockScan _ _ _) as [[u|]|]; [done| |done].
    destruct (ftDelete f); cbn; [by rewrite lookup_insert_ne|by rewrite lookup_delete_ne].
  - destruct (_ || _); [done|]. destruct (_ && _); [cbn; by rewrite lookup_insert_ne|].
    destruct (objs !! place); cbn; [by rewrite lookup_delete_ne|by destruct (drLocker d)].
Qed.

Lemma clearHold_other d f place version objs q : q <> place -> (clearHold d f place version objs).2 !! q = objs !! q.
Proof.
  intros Hq. unfold clearHold. destruct (_ || _); [done|]. destruct (objs !! place) as [[|]|]; cbn; [done|by rewrite lookup_insert_ne|done].
Qed.

(** Version [v] is under a retention. *)
Definition retained (now : Z) (v : Version) : bool :=
  negb (vMarker v) && match vRetain v with Some u => now <? u | None => false end.

(** A version under a retention of the object stored at [place]. *)
Definition retains (now : Z) (place id : string) (u : Z) (objs : Objects) : Prop :=
  now < u /\ ∃ vs v, objs !! place = Some vs /\ v ∈ vs /\ vID v = id /\ vMarker v = false /\ vRetain v = Some u.

Lemma lockScan_retained now l : ∀ wait,
  (is_Some wait \/ ∃ v, v ∈ l /\ retained now v = true) -> lockScan now wait l = None \/ ∃ u, lockScan now wait l = Some (Some u).
Proof.
  induction l as [|v l IH]; intros wait H; cbn [lockScan].
  - right. destruct H as [[u ->]|(v & Hv & _)]; [by exists u|by apply not_elem_of_nil in Hv].
  - destruct (vMarker v) eqn:Em.
    { apply IH. destruct H as [H|(x & [->|Hx]%elem_of_cons & Hr)]; [by left| |eauto]. unfold retained in Hr. by rewrite Em in Hr. }
    destruct (vHold v); [by left|]. apply IH.
    destruct H as [[w ->]|(x & [->|Hx]%elem_of_cons & Hr)].
    + left. destruct (vRetain v); [|eauto]. destruct (_ && _); eauto.
    + left. unfold retained in Hr. rewrite Em in Hr. cbn in Hr. destruct (vRetain v) as [u|]; [|done]. rewrite Hr. cbn.
      destruct wait as [w|]; [|eauto]. destruct (w <? u); eauto.
    + right. eauto.
Qed.

(** A purge of an object in a bucket with versions removes no retained one. *)
Lemma Purge_retains d f place version now objs q id u :
  (q = place -> drLocker d = true /\ drVersioned d = true) -> retains now q id u objs ->
  retains now q id u (Purge d f place version now objs).2.
Proof.
  intros Hd [Hu H]. split; [done|]. destruct (decide (q = place)) as [->|Hne]; [|by rewrite Purge_other].
  destruct (Hd eq_refl) as [E1 E2]. unfold Purge. rewrite E1. cbn [andb].
  destruct H as (vs & v & Hvs & Hv & Hid & Hm & Hr). destruct (_ || _).
  - unfold PurgeVersions. rewrite Hvs. cbn [default].
    destruct (ftRead f); [by exists vs, v|].
    rewrite bool_decide_eq_false_2 by (intros E; cbn in E; rewrite E in Hv; by apply not_elem_of_nil in Hv).
    destruct (lockScan_retained now vs None) as [E|[w E]];
      [right; exists v; split; [done|]; unfold retained; rewrite Hm, Hr; cbn; by apply Z.ltb_lt| |];
      cbn; rewrite E; by exists vs, v.
  - unfold Delete. rewrite E1, E2. cbn [andb]. destruct (_ || _); [by exists vs, v|]. cbn. rewrite lookup_insert_eq, Hvs.
    eexists _, v. split; [done|]. split; [by apply elem_of_cons; right|done].
Qed.

Lemma clearHold_retains d f place version now objs q id u :
  retains now q id u objs -> retains now q id u (clearHold d f place version objs).2.
Proof.
  intros [Hu (vs & v & Hvs & Hv & Hid & Hm & Hr)]. split; [done|].
  destruct (decide (q = place)) as [->|Hne]; [|rewrite clearHold_other by done; eauto 10].
  unfold clearHold. destruct (_ || _); [by exists vs, v|]. rewrite Hvs. destruct vs as [|w vs]; [by exists [], v|].
  cbn -[fmap]. rewrite lookup_insert_eq.
  set (n := if bool_decide (version = "") then vID w else version).
  exists ((λ v, if bool_decide (vID v = n) then mkVersion (vID v) (vMarker v) (vRetain v) false else v) <$> w :: vs),
    (if bool_decide (vID v = n) then mkVersion (vID v) (vMarker v) (vRetain v) false else v).
  split; [reflexivity|]. split; [|by case_bool_decide]. by apply (list_elem_of_fmap_2' _ _ v).
Qed.
