(* ===== verification/Purge.v ===== *)
(** * The purge of deleted backups ([internal/scheduler/purge.go], [purgecopies.go])

    Every ten minutes the scheduler removes the archives of the deleted backups whose
    grace period has passed, with their copies, unless another record holds them, and the
    artifacts of failed backups whose Object Lock has ended. A record is read again before
    it is purged, so a listing may be out of date. *)

From S2P Require Import Prelude Backup Pins KeyLocks ObjectStorage.

Definition holdsArchive (st : BackupStatus) : bool :=
  match st with
  | StatusCompleted | StatusMissing | StatusInProgress | StatusPending | StatusDeleted => true
  | _ => false
  end.

(** ** The store *)

(** A row of the backups table: the columns and fields SQL reads, and the record, [None]
    when it does not decode. *)
Record ArchiveRow : Type := mkARow {
  rwStatus : BackupStatus;
  rwTarget : string;
  rwKey : string;
  rwRecord : option BackupRecord
}.

(** [putBackup]. *)
Definition rowOf (r : BackupRecord) : ArchiveRow :=
  mkARow (rStatus r) (TargetID (rStored r)) (StorageKey (rStored r)) (Some r).

Abbreviation Rows := (gmap string ArchiveRow).

(** The index of a run: the IDs by location, those that could not be located and those
    purged since it was built. *)
Record holderIndex : Type := mkIndex {
  byLocation : gmap string (list string);
  unlocated : list string;
  gone : gset string
}.

Record World : Type := mkWorld { pwRows : Rows; pwObjects : Objects; pwIndex : option holderIndex }.

Definition withRows (rows : Rows) (w : World) : World := mkWorld rows (pwObjects w) (pwIndex w).
Definition withObjects (objs : Objects) (w : World) : World := mkWorld (pwRows w) objs (pwIndex w).
Definition withIndex (x : option holderIndex) (w : World) : World := mkWorld (pwRows w) (pwObjects w) x.

(** The writes of a purge, by what they record. *)
Inductive Write : Type := WCopy (id target : string) | WPurged (id : string) | WLock (id : string) | WCleanup (id : string).

(** What a run is given: the time and the grace period read for each backup, the pins, the
    storage targets' drivers, where a key of a target physically is, the locator, which
    locks, reads and writes succeed, how the storage requests fail and whether the context
    still is alive when a backup is reached. *)
Record Env : Type := mkEnv {
  evNow : Z;
  evGrace : string -> Z;
  evPins : PinSnapshot;
  evDriver : string -> option Driver;
  evPhys : string -> string -> string;
  evLocate : option (string -> string -> option string);
  evFault : string -> Fault;
  evLock : string -> bool;
  evList : bool;
  evGet : string -> bool;
  evRefs : string -> bool;
  evAllRefs : bool;
  evPending : bool;
  evSave : Write -> bool;
  evAlive : string -> bool
}.

Inductive Got : Type := GotRecord (r : BackupRecord) | GotNotFound | GotErr.

Definition GetBackupRecord (e : Env) (id : string) (rows : Rows) : Got :=
  if negb (evGet e id) then GotErr
  else match rows !! id with
  | None => GotNotFound
  | Some row => match rwRecord row with Some r => GotRecord r | None => GotErr end
  end.

Inductive Updated : Type := UpdRecord (r : BackupRecord) | UpdNotFound | UpdRefused | UpdErr.

(** [UpdateBackupRecord]; [fn] refuses with [None]. *)
Definition UpdateBackupRecord (e : Env) (what : Write) (id : string) (fn : BackupRecord -> option BackupRecord) (rows : Rows) : Updated * Rows :=
  if negb (evSave e what) then (UpdErr, rows)
  else match rows !! id with
  | None => (UpdNotFound, rows)
  | Some row =>
      match rwRecord row with
      | None => (UpdErr, rows)
      | Some r =>
          match fn r with
          | None => (UpdRefused, rows)
          | Some r' => if bool_decide (rID r' = id) then (UpdRecord r', <[id := rowOf r']> rows) else (UpdErr, rows)
          end
      end
  end.

(** The IDs in order. *)
Definition rowIDs (rows : Rows) : list string := stable_sort (cmpLess strCmp) (elements (dom rows)).

Definition rowIs (P : ArchiveRow -> bool) (rows : Rows) (id : string) : bool :=
  match rows !! id with Some row => P row | None => false end.

Definition ArchiveReferenceIDs (e : Env) (targetID key : string) (rows : Rows) : option (list string) :=
  if evRefs e (ArchiveKey targetID key) then
    Some (filter (λ id, rowIs (λ row, bool_decide (rwTarget row = targetID) && bool_decide (rwKey row = key)) rows id) (rowIDs rows))
  else None.

(** [ArchiveRefs]. *)
Definition isRef (row : ArchiveRow) : bool :=
  negb (bool_decide (rwStatus row = StatusPurged)) && negb (bool_decide (rwStatus row = StatusPruned))
  && negb (bool_decide (rwKey row = "")).

Definition ArchiveRefs (e : Env) (rows : Rows) : option (list (string * ArchiveRow)) :=
  if evAllRefs e then
    Some (omap (λ id, row ← rows !! id; if isRef row then Some (id, row) else None) (rowIDs rows))
  else None.

Definition oldest (a b : BackupRecord) : bool :=
  cmpLess (λ a b, cmpThen (timeKey (StartedAt (rIdent a)) ?= timeKey (StartedAt (rIdent b))) (strCmp (rID a) (rID b))) a b.

Definition records (P : BackupRecord -> bool) (rows : Rows) : list BackupRecord :=
  stable_sort oldest (omap (λ id, row ← rows !! id; r ← rwRecord row; if P r then Some r else None) (rowIDs rows)).

(** [QueryBackupRecords] with the status deleted, oldest first. *)
Definition deletedBackups (rows : Rows) : list BackupRecord :=
  records (λ r, bool_decide (rStatus r = StatusDeleted)) rows.

Definition cleanupPending (r : BackupRecord) : bool :=
  (bool_decide (rStatus r = StatusFailed) || bool_decide (rStatus r = StatusCancelled)) && ArchiveCleanupPending (rOutcome r).

Definition PendingArchiveCleanups (e : Env) (rows : Rows) : option (list BackupRecord) :=
  if evPending e then Some (records cleanupPending rows) else None.

(** ** The holders of an archive *)

Definition addRef (locate : string -> string -> option string) (x : holderIndex) (ref : string * ArchiveRow) : holderIndex :=
  let '(id, row) := ref in
  if negb (holdsArchive (rwStatus row)) then x
  else match locate (rwTarget row) (rwKey row) with
  | None => mkIndex (byLocation x) (unlocated x ++ [id]) (gone x)
  | Some loc => mkIndex (<[loc := default [] (byLocation x !! loc) ++ [id]]> (byLocation x)) (unlocated x) (gone x)
  end.

(** [holderIndex.build]; an index already built is kept. *)
Definition build (e : Env) (locate : string -> string -> option string) (rows : Rows) (x : option holderIndex) : option holderIndex :=
  match x with
  | Some x => Some x
  | None => refs ← ArchiveRefs e rows; Some (foldl (addRef locate) (mkIndex ∅ [] ∅) refs)
  end.

(** [holderIndex.holder]; [None] without one. *)
Definition holder (x : holderIndex) (loc self : string) : option string :=
  head (filter (λ id, id <> self /\ id ∉ gone x) (default [] (byLocation x !! loc) ++ unlocated x)).

Definition forget (id : string) (x : option holderIndex) : option holderIndex :=
  x ← x; Some (mkIndex (byLocation x) (unlocated x) ({[id]} ∪ gone x)).

Inductive Held : Type := HeldErr | HeldBy (id : option string).

Definition physicalHolder (e : Env) (locate : string -> string -> option string) (rec : BackupRecord) (w : World) : Held * World :=
  match locate (TargetID (rStored rec)) (StorageKey (rStored rec)) with
  | None => (HeldErr, w)
  | Some mine =>
      match build e locate (pwRows w) (pwIndex w) with
      | None => (HeldErr, w)
      | Some x => (HeldBy (holder x mine (rID rec)), withIndex (Some x) w)
      end
  end.

(** The loop over the references; a record that cannot be read holds the archive. *)
Fixpoint holderLoop (e : Env) (rows : Rows) (self : string) (ids : list string) : option string :=
  match ids with
  | [] => None
  | id :: ids =>
      if bool_decide (id = self) then holderLoop e rows self ids
      else match GetBackupRecord e id rows with
      | GotNotFound => holderLoop e rows self ids
      | GotErr => Some id
      | GotRecord o => if holdsArchive (rStatus o) then Some id else holderLoop e rows self ids
      end
  end.

Definition archiveHolder (e : Env) (rec : BackupRecord) (rows : Rows) : Held :=
  match ArchiveReferenceIDs e (TargetID (rStored rec)) (StorageKey (rStored rec)) rows with
  | None => HeldErr
  | Some ids => HeldBy (holderLoop e rows (rID rec) ids)
  end.

(** ** The copies *)

(** [fn] applied to the copy [BackupRecord.Copy] finds. *)
Fixpoint updateCopy (targetID : string) (fn : BackupCopy -> BackupCopy) (l : list BackupCopy) : list BackupCopy :=
  match l with
  | [] => []
  | c :: l => if bool_decide (TargetID (cpAt c) = targetID) then fn c :: l else c :: updateCopy targetID fn l
  end.

Definition recordCopy (e : Env) (id targetID : string) (fn : BackupCopy -> BackupCopy) (w : World) : World :=
  withRows (UpdateBackupRecord e (WCopy id targetID) id (λ r, Some (withCopies (updateCopy targetID fn (rCopies r)) (rCopyMode r) r)) (pwRows w)).2 w.

Definition retainCopy (until : Z) (c : BackupCopy) : BackupCopy :=
  let s := cpAt c in
  mkCopy (mkStored (TargetID s) (TargetName s) (StorageKey s) (VersionID s) (ObjectLockMode s) (Some until))
    (cpStatus c) (cpSHA256OK c) (cpSHA256 c) (cpError c) (cpWritten c) (cpCopiedAt c) (cpAttempts c) (cpNextAttemptAt c)
    (cpVerified c) (cpPurgedAt c).

Definition purgedCopy (at_ : Z) (c : BackupCopy) : BackupCopy :=
  mkCopy (cpAt c) CopyPurged (cpSHA256OK c) (cpSHA256 c) (cpError c) (cpWritten c) (cpCopiedAt c) (cpAttempts c)
    (cpNextAttemptAt c) (cpVerified c) (Some at_).

(** The end of a lock still in force, or an error. *)
Abbreviation Waiting := (result unit (option Z)).

(** [storage.Purge] through the driver of target [targetID]. *)
Definition purgeObject (e : Env) (targetID key version : string) (objs : Objects) : Purged * Objects :=
  match evDriver e targetID with
  | None => (PgFailed, objs)
  | Some d => let place := evPhys e targetID key in Purge d (evFault e place) place version (evNow e) objs
  end.

Definition purgeCopy (e : Env) (c : BackupCopy) (w : World) : Waiting * World :=
  let s := cpAt c in
  if negb (evLock e (ArchiveKey (TargetID s) (StorageKey s))) then (Err tt, w)
  else
    let '(out, objs) := purgeObject e (TargetID s) (StorageKey s) (VersionID s) (pwObjects w) in
    (match out with
     | PgDone | PgNotFound => Ok None
     | PgLocked until => Ok (Some until)
     | PgFailed => Err tt
     end, withObjects objs w).

Definition laterLock (u : Z) (locked : option Z) : option Z :=
  match locked with Some l => if l <? u then Some u else locked | None => Some u end.

Fixpoint copiesLoop (e : Env) (id : string) (l : list BackupCopy) (locked : option Z) (w : World) : Waiting * World :=
  match l with
  | [] => (Ok locked, w)
  | c :: l =>
      if negb (MayExist c) then copiesLoop e id l locked w
      else
        let '(out, w) := purgeCopy e c w in
        match out with
        | Err _ => (Err tt, w)
        | Ok (Some until) =>
            copiesLoop e id l (laterLock until locked) (recordCopy e id (TargetID (cpAt c)) (retainCopy until) w)
        | Ok None => copiesLoop e id l locked (recordCopy e id (TargetID (cpAt c)) (purgedCopy (evNow e)) w)
        end
  end.

Definition purgeCopies (e : Env) (rec : BackupRecord) (w : World) : Waiting * World :=
  copiesLoop e (rID rec) (rCopies rec) None w.

(** ** One backup *)

(** [purgeRun.pinned]. *)
Definition pinned (e : Env) (r : BackupRecord) : bool :=
  pinsBase (evPins e) (rID r)
  || (negb (bool_decide (StorageKey (rStored r) = "")) && pinsArchive (evPins e) (TargetID (rStored r)) (StorageKey (rStored r))).

Definition retainRecord (until : Z) (r : BackupRecord) : BackupRecord :=
  let s := rStored r in
  withStored (mkStored (TargetID s) (TargetName s) (StorageKey s) (VersionID s) (ObjectLockMode s) (Some until)) r.

Definition waitForLock (e : Env) (id : string) (until : Z) (w : World) : World :=
  withRows (UpdateBackupRecord e (WLock id) id (λ r, Some (retainRecord until r)) (pwRows w)).2 w.

Definition purgedRecord (at_ : Z) (r : BackupRecord) : BackupRecord :=
  let d := rDeletion r in
  let d := mkDeletion (DeletedAt d) (DeletedBy d) (DeleteApprovedBy d) (DeleteReason d) (PurgeAfter d) (StatusBeforeDelete d) (Some at_) in
  mkRecord (rIdent r) StatusPurged (rStored r) (rSHA256 r) (rOutcome r) (rVerified r) (rPinned r) false d (rCopies r) (rCopyMode r).

Definition markPurged (now grace : Z) (r : BackupRecord) : option BackupRecord :=
  if PurgeDue now grace r then Some (purgedRecord now r) else None.

(** [ArchiveDeleted] and [ArchiveKept] of a [PurgeOutcome]. *)
Inductive Outcome : Type := Skipped | Failed | Done (backup : BackupRecord) (deleted : bool) (kept : option string).

(** What becomes of the archive: [None] when the purge ends here. *)
Inductive Archive : Type := ArcSkip | ArcErr | ArcDone (deleted : bool) (kept : option string).

Definition heldBy (e : Env) (current : BackupRecord) (w : World) : Held * World :=
  match archiveHolder e current (pwRows w), evLocate e with
  | HeldBy None, Some locate => physicalHolder e locate current w
  | h, _ => (h, w)
  end.

(** The legal hold of an unpinned record ends with its purge. *)
Definition liftHold (e : Env) (current : BackupRecord) (objs : Objects) : bool * Objects :=
  let s := rStored current in
  match evDriver e (TargetID s) with
  | None => (false, objs)
  | Some d =>
      if rLegalHold current && negb (rPinned current) then
        let place := evPhys e (TargetID s) (StorageKey s) in
        let '(out, objs) := clearHold d (evFault e place) place (VersionID s) objs in
        (match out with PgFailed => false | _ => true end, objs)
      else (true, objs)
  end.

Definition purgeArchive (e : Env) (current : BackupRecord) (w : World) : Archive * World :=
  let s := rStored current in
  if bool_decide (StorageKey s = "") then (ArcDone false None, w)
  else if negb (evLock e (ArchiveKey (TargetID s) (StorageKey s))) then (ArcErr, w)
  else match heldBy e current w with
  | (HeldErr, w) => (ArcErr, w)
  | (HeldBy (Some id), w) => (ArcDone false (Some id), w)
  | (HeldBy None, w) =>
      match liftHold e current (pwObjects w) with
      | (false, objs) => (ArcErr, withObjects objs w)
      | (true, objs) =>
          let '(out, objs) := purgeObject e (TargetID s) (StorageKey s) (VersionID s) objs in
          let w := withObjects objs w in
          match out with
          | PgLocked until => (ArcSkip, waitForLock e (rID current) until w)
          | PgDone => (ArcDone true None, w)
          | PgNotFound => (ArcDone false None, w)
          | PgFailed => (ArcErr, w)
          end
      end
  end.

(** The purge of the listed backup [rec], which decides on the record read under its lock. *)
Definition purgeOne (e : Env) (rec : BackupRecord) (w : World) : Outcome * World :=
  let i := rIdent rec in
  if negb (evLock e (DeletionKey (JobID i) (ConnectionID i) (Database i))) then (Failed, w)
  else
    let grace := evGrace e (rID rec) in
    match GetBackupRecord e (rID rec) (pwRows w) with
    | GotNotFound => (Skipped, w)
    | GotErr => (Failed, w)
    | GotRecord current =>
        if negb (PurgeDue (evNow e) grace current) then (Skipped, w)
        else if pinned e current then (Skipped, w)
        else match purgeCopies e current w with
        | (Err _, w) => (Failed, w)
        | (Ok (Some _), w) => (Skipped, w)
        | (Ok None, w) =>
            match purgeArchive e current w with
            | (ArcSkip, w) => (Skipped, w)
            | (ArcErr, w) => (Failed, w)
            | (ArcDone deleted kept, w) =>
                match UpdateBackupRecord e (WPurged (rID current)) (rID current) (markPurged (evNow e) grace) (pwRows w) with
                | (UpdRecord r, rows) => (Done r deleted kept, mkWorld rows (pwObjects w) (forget (rID r) (pwIndex w)))
                | (UpdErr, rows) => (Failed, withRows rows w)
                | (_, rows) => (Skipped, withRows rows w)
                end
            end
        end
    end.

(** ** The artifacts of failed backups *)

Definition cleanedRecord (until : option Z) (r : BackupRecord) : BackupRecord :=
  match until with
  | Some u => retainRecord u r
  | None =>
      let o := rOutcome r in
      withOutcome (mkOutcome (CompletedAt o) (ErrorMessage o) (MissingSince o) false) r
  end.

Definition cleanupOne (e : Env) (rec : BackupRecord) (w : World) : bool * World :=
  let s := rStored rec in
  if negb (evLock e (ArchiveKey (TargetID s) (StorageKey s))) then (false, w)
  else match purgeCopies e rec w with
  | (Err _, w) => (false, w)
  | (Ok (Some _), w) => (true, w)
  | (Ok None, w) =>
      match archiveHolder e rec (pwRows w) with
      | HeldErr => (false, w)
      | HeldBy (Some _) => (true, w)
      | HeldBy None =>
          let '(out, objs) := purgeObject e (TargetID s) (StorageKey s) (VersionID s) (pwObjects w) in
          let w := withObjects objs w in
          match out with
          | PgFailed => (false, w)
          | _ =>
              let until := match out with PgLocked u => Some u | _ => None end in
              let '(upd, rows) := UpdateBackupRecord e (WCleanup (rID rec)) (rID rec) (λ r, Some (cleanedRecord until r)) (pwRows w) in
              (match upd with UpdRecord _ => true | _ => false end, withRows rows w)
          end
      end
  end.

Fixpoint cleanupLoop (e : Env) (l : list BackupRecord) (ok : bool) (w : World) : bool * World :=
  match l with
  | [] => (ok, w)
  | rec :: l =>
      if LockedAt (evNow e) rec || bool_decide (StorageKey (rStored rec) = "") then cleanupLoop e l ok w
      else if negb (evAlive e (rID rec)) then (false, w)
      else let '(done, w) := cleanupOne e rec w in cleanupLoop e l (ok && done) w
  end.

Definition cleanupLockedArtifacts (e : Env) (w : World) : bool * World :=
  match PendingArchiveCleanups e (pwRows w) with
  | None => (false, w)
  | Some l => cleanupLoop e l true w
  end.

(** ** A run *)

(** The loop over the listed backups: the purged IDs and whether none failed; [None] when
    the context ended. *)
Fixpoint purgeLoop (e : Env) (rows : list BackupRecord) (w : World) : (list string * option bool) * World :=
  match rows with
  | [] => (([], Some true), w)
  | row :: rows =>
      if negb (PurgeDue (evNow e) (evGrace e (rID row)) row) then purgeLoop e rows w
      else if negb (evAlive e (rID row)) then (([], None), w)
      else
        let '(o, w) := purgeOne e row w in
        let '((ids, ok), w) := purgeLoop e rows w in
        match o with
        | Done r _ _ => ((rID r :: ids, ok), w)
        | Skipped => ((ids, ok), w)
        | Failed => ((ids, (λ _, false) <$> ok), w)
        end
  end.

(** [purgeRun.run] over the listed [rows]: the purged IDs and whether nothing failed. *)
Definition purgeListed (e : Env) (rows : list BackupRecord) (w : World) : (list string * bool) * World :=
  let '((ids, ok), w) := purgeLoop e rows (withIndex None w) in
  match ok with
  | None => ((ids, false), w)
  | Some ok => let '(cleaned, w) := cleanupLockedArtifacts e w in ((ids, ok && cleaned), w)
  end.

Definition run (e : Env) (w : World) : (list string * bool) * World :=
  if evList e then purgeListed e (deletedBackups (pwRows w)) w else (([], false), w).

(** [Maintain] without the maintenance hooks. *)
Definition Maintain (fence : bool) (e : Env) (w : World) : World := if fence then (run e w).2 else w.
