(* ===== verification/PurgeSafety.v ===== *)
(** * What a purge leaves alone

    The invariant of a purge around one live archive, carried through every operation of
    [Purge]; then what a purge removes, and that its index of holders is always current. *)

From S2P Require Import Prelude Backup Pins ObjectStorage Purge.

(** What the locator promises (targets' [ObjectLocation]): two keys of one physical object
    have the same location. *)
Class Located (e : Env) : Prop := {
  located locate t k t' k' p p' :
    evLocate e = Some locate -> locate t k = Some p -> locate t' k' = Some p' -> evPhys e t k = evPhys e t' k' -> p = p'
}.

(** A row carries the columns of its record, under the record's ID. *)
Definition wfRow (id : string) (row : ArchiveRow) : Prop := ∀ r, rwRecord row = Some r -> row = rowOf r /\ rID r = id.
Definition wfRows (rows : Rows) : Prop := ∀ id row, rows !! id = Some row -> wfRow id row.

Definition placeOf (e : Env) (s : Stored) : string := evPhys e (TargetID s) (StorageKey s).

(** ** The locations of the holders *)

Definition holdsAt (locate : string -> string -> option string) (loc : option string) (ref : string * ArchiveRow) : Prop :=
  holdsArchive (rwStatus ref.2) = true /\ locate (rwTarget ref.2) (rwKey ref.2) = loc.

#[export] Instance holdsAt_dec locate loc ref : Decision (holdsAt locate loc ref).
Proof. unfold holdsAt. apply _. Defined.

Lemma foldl_addRef locate refs : ∀ x,
  let y := foldl (addRef locate) x refs in
  (∀ p, default [] (byLocation y !! p) = default [] (byLocation x !! p) ++ (filter (holdsAt locate (Some p)) refs).*1) /\
  unlocated y = unlocated x ++ (filter (holdsAt locate None) refs).*1 /\ gone y = gone x.
Proof.
  induction refs as [|[id row] refs IH]; intros x; cbn [foldl]; [by setoid_rewrite app_nil_r|].
  destruct (IH (addRef locate x (id, row))) as (I1 & I2 & I3). cbv zeta. rewrite I2, I3. clear I2 I3.
  setoid_rewrite I1. clear I1 IH. setoid_rewrite filter_cons. unfold addRef.
  destruct (holdsArchive (rwStatus row)) eqn:Eh; cbn [negb].
  2: { rewrite decide_False by (by intros [H _]; cbn in H; rewrite Eh in H).
       split_and!; try done. intros p. by rewrite decide_False by (by intros [H _]; cbn in H; rewrite Eh in H). }
  destruct (locate (rwTarget row) (rwKey row)) as [l|] eqn:El; cbn [byLocation unlocated gone].
  - rewrite decide_False by (by intros [_ H]; cbn in H; rewrite El in H). split_and!; try done. intros p.
    destruct (decide (l = p)) as [->|Hne].
    + rewrite lookup_insert_eq, decide_True by done. rewrite fmap_cons. cbn [from_option Datatypes.id fst]. by rewrite <- app_assoc.
    + rewrite lookup_insert_ne, decide_False by (done || (intros [_ H]; cbn in H; congruence)). done.
  - rewrite decide_True by done. rewrite fmap_cons, <- app_assoc. split_and!; try done.
    intros p. by rewrite decide_False by (by intros [_ H]; cbn in H; rewrite El in H).
Qed.

(** The references a fresh index is built from. *)
Definition refsOf (rows : Rows) : list (string * ArchiveRow) :=
  omap (λ id, row ← rows !! id; if isRef row then Some (id, row) else None) (rowIDs rows).

Lemma elem_of_rowIDs rows id : id ∈ rowIDs rows <-> is_Some (rows !! id).
Proof. unfold rowIDs. rewrite elem_of_stable_sort, elem_of_elements, elem_of_dom. done. Qed.

Lemma elem_of_refsOf rows id row : (id, row) ∈ refsOf rows <-> rows !! id = Some row /\ isRef row = true.
Proof.
  unfold refsOf. rewrite list_elem_of_omap. split.
  - intros (i & _ & H). destruct (rows !! i) as [r|] eqn:E; cbn in H; [|done]. destruct (isRef r) eqn:Er; [|done]. by injection H as -> ->.
  - intros [H Hr]. exists id. split; [apply elem_of_rowIDs; eauto|]. by rewrite H, Hr || (rewrite H; cbn; rewrite Hr).
Qed.

Lemma build_fresh e locate rows x :
  build e locate rows None = Some x -> x = foldl (addRef locate) (mkIndex ∅ [] ∅) (refsOf rows).
Proof. unfold build, ArchiveRefs. destruct (evAllRefs e); cbn; [|done]. by intros [= <-]. Qed.

Lemma holder_is_Some x loc self id :
  id ∈ default [] (byLocation x !! loc) ++ unlocated x -> id <> self -> id ∉ gone x -> is_Some (holder x loc self).
Proof.
  intros H1 H2 H3. unfold holder. destruct (filter _ _) as [|i l] eqn:E; [|by exists i].
  exfalso. apply (not_elem_of_nil id). rewrite <- E. by apply list_elem_of_filter.
Qed.

Lemma holdsArchive_isRef row : holdsArchive (rwStatus row) = true -> rwKey row <> "" -> isRef row = true.
Proof. intros H Hk. unfold isRef. destruct (rwStatus row); try done; by rewrite (bool_decide_false _ Hk). Qed.

(** ** Updates of a row *)

Lemma Update_lookup_ne e what id fn rows i :
  i <> id -> (UpdateBackupRecord e what id fn rows).2 !! i = rows !! i.
Proof.
  intros Hi. unfold UpdateBackupRecord. destruct (negb _); [done|]. destruct (rows !! id) as [row|]; [|done].
  destruct (rwRecord row); [|done]. destruct (fn b); [|done]. destruct (bool_decide _); [|done]. cbn. by rewrite lookup_insert_ne.
Qed.

(** The row after an update is the old one or that of the new record. *)
Lemma Update_cases e what id fn rows :
  (∃ u, (∀ r, u <> UpdRecord r) /\ UpdateBackupRecord e what id fn rows = (u, rows)) \/
  ∃ row r r', rows !! id = Some row /\ rwRecord row = Some r /\ fn r = Some r' /\ rID r' = id /\
    UpdateBackupRecord e what id fn rows = (UpdRecord r', <[id := rowOf r']> rows).
Proof.
  unfold UpdateBackupRecord. destruct (negb _); [left; eexists; by split; [|reflexivity]|]. destruct (rows !! id) as [row|] eqn:E; [|left; eexists; by split; [|reflexivity]].
  destruct (rwRecord row) as [r|] eqn:Er; [|left; eexists; by split; [|reflexivity]]. destruct (fn r) as [r'|] eqn:Ef; [|left; eexists; by split; [|reflexivity]].
  case_bool_decide; [|left; eexists; by split; [|reflexivity]]. right. by exists row, r, r'.
Qed.

Lemma Update_wf e what id fn rows : wfRows rows -> wfRows (UpdateBackupRecord e what id fn rows).2.
Proof.
  intros Hw. destruct (Update_cases e what id fn rows) as [(u & _ & ->)|(row & r & r' & _ & _ & _ & Hid & ->)]; [done|].
  cbn [snd]. intros i x [[<- <-]|[_ H]]%lookup_insert_Some; [|by apply Hw]. by intros y [= <-].
Qed.

Lemma purgeObject_other e t k v objs q : evPhys e t k <> q -> (purgeObject e t k v objs).2 !! q = objs !! q.
Proof. intros H. unfold purgeObject. destruct (evDriver e t); [|done]. by apply Purge_other. Qed.

Lemma liftHold_other e r objs q : placeOf e (rStored r) <> q -> (liftHold e r objs).2 !! q = objs !! q.
Proof.
  intros H. unfold liftHold, placeOf in *. destruct (evDriver e _) as [d|]; [|done]. destruct (_ && _); [|done].
  pose proof (clearHold_other d (evFault e (evPhys e (TargetID (rStored r)) (StorageKey (rStored r)))) _ (VersionID (rStored r)) objs q (not_eq_sym H)) as Hc.
  destruct (clearHold _ _ _ _ _) as [out o]. done.
Qed.

(** ** A live archive *)

(** Record [r] does not reach the place of target [t]'s key [k] through its copies, its
    artifact or, without a locator, another key. *)
Record Apart (e : Env) (t k : string) (r : BackupRecord) : Prop := {
  apart_copies c : c ∈ rCopies r -> cpStatus c <> CopyPurged -> placeOf e (cpAt c) <> evPhys e t k;
  apart_artifact : cleanupPending r = true -> placeOf e (rStored r) = evPhys e t k ->
    TargetID (rStored r) = t /\ StorageKey (rStored r) = k;
  apart_keys : evLocate e = None -> placeOf e (rStored r) = evPhys e t k -> TargetID (rStored r) = t /\ StorageKey (rStored r) = k
}.

(** The backup stays: it is not due, or a restore reads it. *)
Definition Stays (e : Env) (id : string) (row : ArchiveRow) : Prop :=
  ∀ r, rwRecord row = Some r -> PurgeDue (evNow e) (evGrace e id) r = false \/ pinned e r = true.

Section Keep.
Context (e : Env) `{!Located e} (id : string) (row : ArchiveRow).
Hypothesis holds : holdsArchive (rwStatus row) = true.
Hypothesis named : rwKey row <> "".
Hypothesis stays : Stays e id row.

Abbreviation q := (evPhys e (rwTarget row) (rwKey row)).
Abbreviation Away := (Apart e (rwTarget row) (rwKey row)).

(** The index of holders knows the record. *)
Definition Covers (x : option holderIndex) : Prop :=
  ∀ ix locate, x = Some ix -> evLocate e = Some locate -> (id ∉ gone ix) /\
    match locate (rwTarget row) (rwKey row) with
    | Some p => id ∈ default [] (byLocation ix !! p)
    | None => id ∈ unlocated ix
    end.

Record Inv (w : World) : Prop := {
  iv_wf : wfRows (pwRows w);
  iv_row : pwRows w !! id = Some row;
  iv_away i x r : pwRows w !! i = Some x -> i <> id -> rwRecord x = Some r -> Away r;
  iv_index : Covers (pwIndex w)
}.

(** The invariant holds after, and the object is untouched. *)
Definition Keeps (w w' : World) : Prop := Inv w' /\ pwObjects w' !! q = pwObjects w !! q.

Lemma Keeps_trans w1 w2 w3 : Keeps w1 w2 -> (Inv w2 -> Keeps w2 w3) -> Keeps w1 w3.
Proof using All. intros [H1 E1] H. destruct (H H1) as [H2 E2]. split; [done|congruence]. Qed.

Lemma Keeps_refl w : Inv w -> Keeps w w.
Proof using All. by split. Qed.

Lemma Keeps_rows what i fn w :
  i <> id -> (∀ r r', fn r = Some r' -> Away r -> Away r') -> Inv w -> Keeps w (withRows (UpdateBackupRecord e what i fn (pwRows w)).2 w).
Proof using All.
  intros Hi Hfn [W1 W2 W3 W4]. split; [|done]. split; cbn; [by apply Update_wf|by rewrite Update_lookup_ne| |done].
  destruct (Update_cases e what i fn (pwRows w)) as [(u & _ & ->)|(x & r & r' & Hx & Hr & Hf & Hid & ->)]; [done|].
  cbn [snd]. intros j y z [[<- <-]|[_ H]]%lookup_insert_Some; [|by apply W3]. intros Hj [= <-]. apply (Hfn r); [done|]. by eapply W3.
Qed.

Lemma Keeps_objects objs w : objs !! q = pwObjects w !! q -> Inv w -> Keeps w (withObjects objs w).
Proof using All. by intros H [W1 W2 W3 W4]. Qed.

Lemma Away_copies r (l : list BackupCopy) m :
  (∀ c, c ∈ l -> cpStatus c <> CopyPurged -> placeOf e (cpAt c) <> q) -> Away r -> Away (withCopies l m r).
Proof using All. intros H [A1 A2 A3]. by split. Qed.

Lemma updateCopy_away tgt fn (l : list BackupCopy) :
  (∀ c, (cpStatus (fn c) = cpStatus c \/ cpStatus (fn c) = CopyPurged) /\ placeOf e (cpAt (fn c)) = placeOf e (cpAt c)) ->
  (∀ c, c ∈ l -> cpStatus c <> CopyPurged -> placeOf e (cpAt c) <> q) ->
  ∀ c, c ∈ updateCopy tgt fn l -> cpStatus c <> CopyPurged -> placeOf e (cpAt c) <> q.
Proof using All.
  intros Hfn. induction l as [|x l IH]; cbn [updateCopy]; [done|]. intros H c.
  assert (∀ c, c ∈ l -> cpStatus c <> CopyPurged -> placeOf e (cpAt c) <> q) as Hl by (intros; apply H; [by right|done]).
  destruct (bool_decide _).
  - intros [->|Hc]%elem_of_cons Hs; [|by apply Hl]. destruct (Hfn x) as [[E|E] ->]; [|congruence].
    apply H; [by left|congruence].
  - intros [->|Hc]%elem_of_cons Hs; [apply H; [by left|done]|]. by apply IH.
Qed.

Lemma recordCopy_keeps i tgt fn w :
  i <> id -> (∀ c, (cpStatus (fn c) = cpStatus c \/ cpStatus (fn c) = CopyPurged) /\ placeOf e (cpAt (fn c)) = placeOf e (cpAt c)) ->
  Inv w -> Keeps w (recordCopy e i tgt fn w).
Proof using All.
  intros Hi Hfn. apply Keeps_rows; [done|]. intros r r' [= <-] Ha. apply Away_copies; [|done].
  apply updateCopy_away; [done|]. apply Ha.
Qed.

Lemma purgeCopy_keeps c w : placeOf e (cpAt c) <> q -> Inv w -> Keeps w (purgeCopy e c w).2.
Proof using All.
  intros Hq Hw. unfold purgeCopy. destruct (negb _); [by apply Keeps_refl|].
  pose proof (purgeObject_other e _ _ (VersionID (cpAt c)) (pwObjects w) _ Hq) as Ho.
  destruct (purgeObject _ _ _ _ _) as [out objs]. by apply Keeps_objects.
Qed.

Lemma copiesLoop_keeps i l : ∀ locked w,
  i <> id -> (∀ c, c ∈ l -> cpStatus c <> CopyPurged -> placeOf e (cpAt c) <> q) -> Inv w -> Keeps w (copiesLoop e i l locked w).2.
Proof using All.
  induction l as [|c l IH]; intros locked w Hi Hl Hw; cbn [copiesLoop]; [by apply Keeps_refl|].
  assert (∀ c, c ∈ l -> cpStatus c <> CopyPurged -> placeOf e (cpAt c) <> q) as Hl' by (intros; apply Hl; [by right|done]).
  destruct (MayExist c) eqn:Em; cbn [negb]; [|by apply IH].
  assert (placeOf e (cpAt c) <> q) as Hc by (apply Hl; [by left|]; intros E; unfold MayExist in Em; by rewrite E in Em).
  pose proof (purgeCopy_keeps c w Hc Hw) as Hp. destruct (purgeCopy e c w) as [out w1]. cbn [snd] in Hp.
  destruct out as [[u|]|]; [| |done]; (eapply Keeps_trans; [exact Hp|]; intros H1; eapply Keeps_trans; [|intros H2; by apply IH]).
  - apply recordCopy_keeps; [done| |done]. intros x. split; [by left|done].
  - apply recordCopy_keeps; [done| |done]. intros x. split; [by right|done].
Qed.

(** ** Its holders *)

Lemma holderLoop_finds w self ids : Inv w -> id <> self -> id ∈ ids -> is_Some (holderLoop e (pwRows w) self ids).
Proof using All.
  intros [W1 W2 _ _] Hs. induction ids as [|i ids IH]; [by intros ?%not_elem_of_nil|]. cbn [holderLoop]. intros Hin.
  destruct (decide (i = id)) as [->|Hne].
  - rewrite (bool_decide_false _ Hs). unfold GetBackupRecord. destruct (evGet e id); cbn [negb]; [|by eexists]. rewrite W2.
    destruct (rwRecord row) as [o|] eqn:Eo; [|by eexists]. destruct (W1 _ _ W2 o Eo) as [E _].
    assert (holdsArchive (rStatus o) = true) as -> by (rewrite E in holds; exact holds). by eexists.
  - assert (id ∈ ids) as Hi by (apply elem_of_cons in Hin as [->|]; done). specialize (IH Hi).
    destruct (bool_decide _); [done|]. destruct (GetBackupRecord e i (pwRows w)); [|done|by eexists]. destruct (holdsArchive (rStatus _)); [by eexists|done].
Qed.

Lemma archiveHolder_other rec w :
  Inv w -> rID rec <> id -> archiveHolder e rec (pwRows w) = HeldBy None ->
  ~ (TargetID (rStored rec) = rwTarget row /\ StorageKey (rStored rec) = rwKey row).
Proof using All.
  intros Hw Hi H [Et Ek]. unfold archiveHolder, ArchiveReferenceIDs in H. destruct (evRefs e _); [|done]. injection H as H.
  edestruct (holderLoop_finds w (rID rec)) as [x Hx]; [done|by apply not_eq_sym| |by rewrite Hx in H].
  apply list_elem_of_filter. split; [|apply elem_of_rowIDs; rewrite (iv_row _ Hw); eauto].
  unfold rowIs. rewrite (iv_row _ Hw), !bool_decide_true by congruence. done.
Qed.

Lemma build_covers locate w x :
  Inv w -> evLocate e = Some locate -> build e locate (pwRows w) (pwIndex w) = Some x -> Covers (Some x).
Proof using All.
  intros Hw El Hb. destruct (pwIndex w) as [y|] eqn:Ex; [cbn in Hb; rewrite <- Hb, <- Ex; apply Hw|].
  apply build_fresh in Hb. intros ix loc [= <-] El'. rewrite El in El'. injection El' as <-.
  destruct (foldl_addRef locate (refsOf (pwRows w)) (mkIndex ∅ [] ∅)) as (F1 & F2 & F3). cbv zeta in F1, F2, F3. rewrite <- Hb in F1, F2, F3.
  rewrite F3. split; [set_solver|].
  assert (∀ loc, locate (rwTarget row) (rwKey row) = loc -> id ∈ (filter (holdsAt locate loc) (refsOf (pwRows w))).*1) as HF.
  { intros loc Hl. apply list_elem_of_fmap. exists (id, row). split; [done|]. apply list_elem_of_filter. split; [done|].
    apply elem_of_refsOf. split; [apply Hw|by apply holdsArchive_isRef]. }
  destruct (locate (rwTarget row) (rwKey row)) as [p|] eqn:Ep.
  - rewrite F1. apply elem_of_app. right. by apply HF.
  - rewrite F2. apply elem_of_app. right. by apply HF.
Qed.

Lemma heldBy_keeps rec w : Inv w -> Keeps w (heldBy e rec w).2.
Proof using All.
  intros Hw. unfold heldBy. destruct (archiveHolder e rec (pwRows w)) as [|[i|]]; [by apply Keeps_refl..|].
  destruct (evLocate e) as [locate|] eqn:El; [|by apply Keeps_refl]. unfold physicalHolder.
  destruct (locate _ _); [|by apply Keeps_refl]. destruct (build e locate (pwRows w) (pwIndex w)) as [x|] eqn:Eb; [|by apply Keeps_refl].
  pose proof (build_covers locate w x Hw El Eb) as Hc. destruct Hw as [W1 W2 W3 W4]. by split.
Qed.

(** An archive that nothing holds is not the live one. *)
Lemma heldBy_none rec w w' :
  Inv w -> rID rec <> id -> Away rec -> heldBy e rec w = (HeldBy None, w') -> placeOf e (rStored rec) <> q.
Proof using All.
  intros Hw Hi Ha H Hq. unfold heldBy in H.
  destruct (archiveHolder e rec (pwRows w)) as [|[i|]] eqn:Eh; [done..|].
  pose proof (archiveHolder_other rec w Hw Hi Eh) as Hne.
  destruct (evLocate e) as [locate|] eqn:El; [|by apply Hne, (apart_keys _ _ _ _ Ha)].
  unfold physicalHolder in H. destruct (locate _ _) as [mine|] eqn:Em; [|done].
  destruct (build e locate (pwRows w) (pwIndex w)) as [x|] eqn:Eb; [|done]. injection H as H _.
  destruct (build_covers locate w x Hw El Eb x locate eq_refl El) as [Hg Hc].
  edestruct (holder_is_Some x mine (rID rec) id) as [y Hy]; [|by apply not_eq_sym|done|by rewrite Hy in H].
  apply elem_of_app. destruct (locate (rwTarget row) (rwKey row)) as [p|] eqn:Ep; [left|by right].
  assert (p = mine) as <-; [|done]. by eapply (located locate); [exact El|exact Ep|exact Em|].
Qed.

(** ** The operations *)

Lemma Away_purged at_ r : Away r -> Away (purgedRecord at_ r).
Proof using All. intros [A1 A2 A3]. split; [done|by intros|done]. Qed.

Lemma Away_retained u r : Away r -> Away (retainRecord u r).
Proof using All. intros [A1 A2 A3]. by split. Qed.

Lemma Away_cleaned u r : Away r -> Away (cleanedRecord u r).
Proof using All.
  destruct u; [apply Away_retained|]. intros [A1 A2 A3]. split; [done| |done]. unfold cleanupPending. cbn. by rewrite andb_false_r.
Qed.

Lemma purgeArchive_keeps rec w : rID rec <> id -> Away rec -> Inv w -> Keeps w (purgeArchive e rec w).2.
Proof using All.
  intros Hi Ha Hw. unfold purgeArchive. destruct (bool_decide _); [by apply Keeps_refl|]. destruct (negb _); [by apply Keeps_refl|].
  pose proof (heldBy_keeps rec w Hw) as Hk. destruct (heldBy e rec w) as [[|[i|]] w1] eqn:Eh; [done..|]. cbn [snd] in Hk.
  pose proof (heldBy_none rec w w1 Hw Hi Ha Eh) as Hq. eapply Keeps_trans; [exact Hk|]. intros H1.
  pose proof (liftHold_other e rec (pwObjects w1) _ Hq) as Hl.
  destruct (liftHold e rec (pwObjects w1)) as [[|] objs]; cbn [snd] in Hl; [|by apply Keeps_objects].
  pose proof (purgeObject_other e _ _ (VersionID (rStored rec)) objs _ Hq) as Ho.
  destruct (purgeObject _ _ _ _ objs) as [out objs']. cbn [snd] in Ho. cbv zeta.
  assert (Keeps w1 (withObjects objs' w1)) as Hk1 by (apply Keeps_objects; [congruence|done]).
  destruct out; [done| |done..]. eapply Keeps_trans; [exact Hk1|]. intros H2. apply Keeps_rows; [done| |done].
  intros r r' [= <-]. apply Away_retained.
Qed.

Lemma Covers_forget i x : i <> id -> Covers x -> Covers (forget i x).
Proof using All.
  intros Hi Hc ix locate Hx El. destruct x as [x|]; [|done]. cbn in Hx. injection Hx as <-. cbn [gone byLocation unlocated].
  destruct (Hc x locate eq_refl El) as [Hg Hl]. split; [set_solver|done].
Qed.

Lemma purgeOne_keeps rec w : Inv w -> Keeps w (purgeOne e rec w).2.
Proof using All.
  intros Hw. unfold purgeOne. destruct (negb _); [by apply Keeps_refl|]. unfold GetBackupRecord.
  destruct (negb _); [by apply Keeps_refl|]. destruct (pwRows w !! rID rec) as [x|] eqn:Ex; [|by apply Keeps_refl].
  destruct (rwRecord x) as [cur|] eqn:Ec; [|by apply Keeps_refl]. destruct (iv_wf _ Hw _ _ Ex cur Ec) as [_ Ei].
  destruct (PurgeDue _ _ cur) eqn:Ed; cbn [negb]; [|by apply Keeps_refl]. destruct (pinned e cur) eqn:Ep; [by apply Keeps_refl|].
  assert (rID cur <> id) as Hi.
  { intros Hi. rewrite <- Ei, Hi, (iv_row _ Hw) in Ex. injection Ex as <-. destruct (stays _ Ec); congruence. }
  assert (Away cur) as Ha by (by eapply iv_away; [exact Hw|exact Ex|congruence|]).
  pose proof (copiesLoop_keeps (rID cur) (rCopies cur) None w Hi (apart_copies _ _ _ _ Ha) Hw) as Hk.
  unfold purgeCopies. destruct (copiesLoop _ _ _ _ w) as [[[u|]|] w1]; cbn [snd] in Hk; [done| |done].
  eapply Keeps_trans; [exact Hk|]. intros H1. pose proof (purgeArchive_keeps cur w1 Hi Ha H1) as Hk1.
  destruct (purgeArchive e cur w1) as [[| |deleted kept] w2]; cbn [snd] in Hk1; [done..|].
  eapply Keeps_trans; [exact Hk1|]. intros H2.
  set (fn := markPurged (evNow e) (evGrace e (rID rec))).
  assert (∀ r r', fn r = Some r' -> Away r -> Away r') as Hfn.
  { intros r r' Hf. subst fn. unfold markPurged in Hf. destruct (PurgeDue _ _ r); [|done]. injection Hf as <-. apply Away_purged. }
  pose proof (Keeps_rows (WPurged (rID cur)) (rID cur) fn w2 Hi Hfn H2) as Hk2.
  destruct (Update_cases e (WPurged (rID cur)) (rID cur) fn (pwRows w2)) as [(u & Hu & E)|(y & r & r' & _ & _ & _ & Hr & E)]; rewrite E in *; cbn [snd] in Hk2.
  - destruct u; [by destruct (Hu r)|done..].
  - destruct Hk2 as [[K1 K2 K3 K4] K5]. split; [|done].
    split; [done..|]. cbn [pwIndex withRows] in *. rewrite Hr. by apply Covers_forget.
Qed.

Lemma purgeLoop_keeps l : ∀ w, Inv w -> Keeps w (purgeLoop e l w).2.
Proof using All.
  induction l as [|rec l IH]; intros w Hw; cbn [purgeLoop]; [by apply Keeps_refl|].
  destruct (negb _); [by apply IH|]. destruct (negb _); [by apply Keeps_refl|].
  pose proof (purgeOne_keeps rec w Hw) as Hk. destruct (purgeOne e rec w) as [o w1]. cbn [snd] in Hk.
  assert (Keeps w (purgeLoop e l w1).2) as Hl by (eapply Keeps_trans; [exact Hk|apply IH]).
  destruct (purgeLoop e l w1) as [[ids ok] w2]. by destruct o.
Qed.

Lemma cleanupOne_keeps rec w : rID rec <> id -> Away rec -> cleanupPending rec = true -> Inv w -> Keeps w (cleanupOne e rec w).2.
Proof using All.
  intros Hi Ha Hc Hw. unfold cleanupOne. destruct (negb _); [by apply Keeps_refl|].
  pose proof (copiesLoop_keeps (rID rec) (rCopies rec) None w Hi (apart_copies _ _ _ _ Ha) Hw) as Hk.
  unfold purgeCopies. destruct (copiesLoop _ _ _ _ w) as [[[u|]|] w1]; cbn [snd] in Hk; [done| |done].
  eapply Keeps_trans; [exact Hk|]. intros H1. destruct (archiveHolder e rec (pwRows w1)) as [|[i|]] eqn:Eh; [by apply Keeps_refl..|].
  pose proof (archiveHolder_other rec w1 H1 Hi Eh) as Hne.
  assert (placeOf e (rStored rec) <> q) as Hq by (intros H; by apply Hne, (apart_artifact _ _ _ _ Ha)).
  pose proof (purgeObject_other e _ _ (VersionID (rStored rec)) (pwObjects w1) _ Hq) as Ho.
  destruct (purgeObject _ _ _ _ (pwObjects w1)) as [out objs]. cbn [snd] in Ho. cbv zeta.
  assert (Keeps w1 (withObjects objs w1)) as Hk1 by (by apply Keeps_objects).
  assert (∀ v, Keeps w1 (withRows (UpdateBackupRecord e (WCleanup (rID rec)) (rID rec) (λ r, Some (cleanedRecord v r)) (pwRows (withObjects objs w1))).2 (withObjects objs w1))) as Hk2.
  { intros v. eapply Keeps_trans; [exact Hk1|]. intros H2. apply Keeps_rows; [done| |done]. intros r r' [= <-]. apply Away_cleaned. }
  destruct out as [|u| |]; [specialize (Hk2 None)|specialize (Hk2 (Some u))|specialize (Hk2 None)|done];
    by destruct (UpdateBackupRecord _ _ _ _ _) as [upd rows].
Qed.

Lemma cleanupLoop_keeps l : ∀ ok w,
  (∀ rec, rec ∈ l -> rID rec <> id /\ Away rec /\ cleanupPending rec = true) -> Inv w -> Keeps w (cleanupLoop e l ok w).2.
Proof using All.
  induction l as [|rec l IH]; intros ok w Hl Hw; cbn [cleanupLoop]; [by apply Keeps_refl|].
  assert (∀ rec, rec ∈ l -> rID rec <> id /\ Away rec /\ cleanupPending rec = true) as Hl' by (intros; apply Hl; by right).
  destruct (_ || _); [by apply IH|]. destruct (negb _); [by apply Keeps_refl|].
  destruct (Hl rec) as (Hi & Ha & Hc); [by left|]. pose proof (cleanupOne_keeps rec w Hi Ha Hc Hw) as Hk.
  destruct (cleanupOne e rec w) as [done_ w1]. eapply Keeps_trans; [exact Hk|]. intros H1. by apply IH.
Qed.

Lemma elem_of_records P rows rec : rec ∈ records P rows -> P rec = true /\ ∃ i x, rows !! i = Some x /\ rwRecord x = Some rec.
Proof using.
  unfold records. rewrite elem_of_stable_sort, list_elem_of_omap. intros (i & _ & H).
  destruct (rows !! i) as [x|] eqn:Ex; cbn in H; [|done]. destruct (rwRecord x) as [r|] eqn:Er; cbn in H; [|done].
  destruct (P r) eqn:Ep; [|done]. injection H as <-. eauto 6.
Qed.

Lemma cleanup_keeps w : Inv w -> Keeps w (cleanupLockedArtifacts e w).2.
Proof using All.
  intros Hw. unfold cleanupLockedArtifacts, PendingArchiveCleanups. destruct (evPending e); [|by apply Keeps_refl].
  apply cleanupLoop_keeps; [|done]. intros rec (Hc & i & x & Hx & Hr)%elem_of_records. destruct (iv_wf _ Hw _ _ Hx _ Hr) as [Ex Ei].
  assert (i <> id) as Hi.
  { intros ->. rewrite (iv_row _ Hw) in Hx. injection Hx as <-. rewrite Ex in holds. cbn in holds. unfold cleanupPending in Hc.
    by destruct (rStatus rec). }
  split_and!; [congruence|by eapply iv_away|done].
Qed.

Lemma purgeListed_keeps l w : Inv (withIndex None w) -> Keeps w (purgeListed e l w).2.
Proof using All.
  intros Hw. unfold purgeListed. pose proof (purgeLoop_keeps l _ Hw) as Hk.
  destruct (purgeLoop e l (withIndex None w)) as [[ids ok] w1]. cbn [snd] in Hk. change (Keeps w w1) in Hk.
  destruct ok as [ok|]; [|done]. eapply Keeps_trans; [exact Hk|]. intros H1. pose proof (cleanup_keeps w1 H1) as Hc.
  by destruct (cleanupLockedArtifacts e w1) as [cl w2].
Qed.
End Keep.

(** [C13] A purge never touches a live archive: whatever records were listed for it, and
    whatever fails on its way, a record that owns its archive and is not due for its purge
    (its grace period, a pin, an Object Lock), or that a point-in-time restore reads, keeps
    its row and its object, also when other records name the same object under the same
    key or through another storage target; unless a copy of another record or the
    artifact of a failed backup on another key lies at the same place (both reported), or
    another key names it where no locator is configured. *)
Theorem purge_keeps_live_archives e `{!Located e} l w id row :
  wfRows (pwRows w) -> pwRows w !! id = Some row ->
  holdsArchive (rwStatus row) = true -> rwKey row <> "" -> Stays e id row ->
  (∀ i x r, pwRows w !! i = Some x -> i <> id -> rwRecord x = Some r -> Apart e (rwTarget row) (rwKey row) r) ->
  let w' := (purgeListed e l w).2 in
  pwRows w' !! id = Some row /\
  pwObjects w' !! evPhys e (rwTarget row) (rwKey row) = pwObjects w !! evPhys e (rwTarget row) (rwKey row).
Proof.
  intros Hwf Hr Hh Hk Hs Ha w'. destruct (purgeListed_keeps e id row Hh Hk Hs l w) as [[_ H _ _] Ho]; [|by split].
  split; [done..|]. intros ix locate. done.
Qed.

(** ** Retained versions *)

Section Objects.
Context (e : Env) (P : Objects -> Prop).
Hypothesis purge_ok : ∀ t k v objs, P objs -> P (purgeObject e t k v objs).2.
Hypothesis lift_ok : ∀ r objs, P objs -> P (liftHold e r objs).2.

(** What every request to the storage preserves, a purge preserves. *)
Lemma copiesLoop_objects i l : ∀ locked w, P (pwObjects w) -> P (pwObjects (copiesLoop e i l locked w).2).
Proof using All.
  induction l as [|c l IH]; intros locked w Hw; cbn [copiesLoop]; [done|]. destruct (negb _); [by apply IH|].
  unfold purgeCopy. destruct (negb _); [done|].
  pose proof (purge_ok (TargetID (cpAt c)) (StorageKey (cpAt c)) (VersionID (cpAt c)) _ Hw) as Hp.
  destruct (purgeObject _ _ _ _ _) as [out objs]. destruct out; [by apply IH..|done].
Qed.

Lemma heldBy_objects rec w : pwObjects (heldBy e rec w).2 = pwObjects w.
Proof using.
  unfold heldBy. destruct (archiveHolder e rec (pwRows w)) as [|[i|]]; [done..|]. destruct (evLocate e) as [locate|]; [|done].
  unfold physicalHolder. destruct (locate _ _); [|done]. by destruct (build _ _ _ _).
Qed.

Lemma heldBy_rows rec w : pwRows (heldBy e rec w).2 = pwRows w.
Proof using.
  unfold heldBy. destruct (archiveHolder e rec (pwRows w)) as [|[i|]]; [done..|]. destruct (evLocate e) as [locate|]; [|done].
  unfold physicalHolder. destruct (locate _ _); [|done]. by destruct (build _ _ _ _).
Qed.

Lemma purgeArchive_objects rec w : P (pwObjects w) -> P (pwObjects (purgeArchive e rec w).2).
Proof using All.
  intros Hw. unfold purgeArchive. destruct (bool_decide _); [done|]. destruct (negb _); [done|].
  rewrite <- (heldBy_objects rec w) in Hw. destruct (heldBy e rec w) as [[|[i|]] w1]; [done..|]. cbn [snd] in Hw.
  pose proof (lift_ok rec _ Hw) as Hl. destruct (liftHold e rec (pwObjects w1)) as [[|] objs]; [|done].
  pose proof (purge_ok (TargetID (rStored rec)) (StorageKey (rStored rec)) (VersionID (rStored rec)) _ Hl) as Hp. cbn [snd] in Hp.
  destruct (purgeObject _ _ _ _ objs) as [out objs']. by destruct out.
Qed.

Lemma purgeOne_objects rec w : P (pwObjects w) -> P (pwObjects (purgeOne e rec w).2).
Proof using All.
  intros Hw. unfold purgeOne. destruct (negb _); [done|]. destruct (GetBackupRecord _ _ _) as [cur| |]; [|done..].
  destruct (negb _); [done|]. destruct (pinned e cur); [done|]. unfold purgeCopies.
  pose proof (copiesLoop_objects (rID cur) (rCopies cur) None w Hw) as Hc. destruct (copiesLoop _ _ _ _ w) as [[[u|]|] w1]; [done| |done].
  pose proof (purgeArchive_objects cur w1 Hc) as Ha. destruct (purgeArchive e cur w1) as [[| |del kept] w2]; [done..|].
  by destruct (UpdateBackupRecord _ _ _ _ _) as [[] rows].
Qed.

Lemma cleanupOne_objects rec w : P (pwObjects w) -> P (pwObjects (cleanupOne e rec w).2).
Proof using All.
  intros Hw. unfold cleanupOne. destruct (negb _); [done|]. unfold purgeCopies.
  pose proof (copiesLoop_objects (rID rec) (rCopies rec) None w Hw) as Hc. destruct (copiesLoop _ _ _ _ w) as [[[u|]|] w1]; [done| |done].
  destruct (archiveHolder _ _ _) as [|[i|]]; [done..|]. cbn [snd] in Hc.
  pose proof (purge_ok (TargetID (rStored rec)) (StorageKey (rStored rec)) (VersionID (rStored rec)) _ Hc) as Hp.
  destruct (purgeObject _ _ _ _ (pwObjects w1)) as [out objs]. destruct out; [..|done]; by destruct (UpdateBackupRecord _ _ _ _ _).
Qed.

Lemma purgeLoop_objects l : ∀ w, P (pwObjects w) -> P (pwObjects (purgeLoop e l w).2).
Proof using All.
  induction l as [|rec l IH]; intros w Hw; cbn [purgeLoop]; [done|]. destruct (negb _); [by apply IH|]. destruct (negb _); [done|].
  pose proof (purgeOne_objects rec w Hw) as Ho. destruct (purgeOne e rec w) as [o w1]. specialize (IH _ Ho). cbn [snd] in IH.
  destruct (purgeLoop e l w1) as [[ids ok] w2]. by destruct o.
Qed.

Lemma cleanupLoop_objects l : ∀ ok w, P (pwObjects w) -> P (pwObjects (cleanupLoop e l ok w).2).
Proof using All.
  induction l as [|rec l IH]; intros ok w Hw; cbn [cleanupLoop]; [done|]. destruct (_ || _); [by apply IH|]. destruct (negb _); [done|].
  pose proof (cleanupOne_objects rec w Hw) as Ho. destruct (cleanupOne e rec w) as [d w1]. by apply IH.
Qed.

Lemma purgeListed_objects l w : P (pwObjects w) -> P (pwObjects (purgeListed e l w).2).
Proof using All.
  intros Hw. unfold purgeListed. pose proof (purgeLoop_objects l (withIndex None w) Hw) as Hl.
  destruct (purgeLoop e l _) as [[ids [ok|]] w1]; [|done]. unfold cleanupLockedArtifacts.
  destruct (PendingArchiveCleanups _ _) as [p|]; [|done]. pose proof (cleanupLoop_objects p true w1 Hl) as Hc.
  by destruct (cleanupLoop e p true w1).
Qed.
End Objects.

(** [C25] A purge never removes a version under a retention: in a bucket with versions, as
    Object Lock needs, a version retained until after now is still there, with its
    retention, when the purge ends, whatever records are due. *)
Theorem purge_respects_retention e l w place id u :
  (∀ t k d, evPhys e t k = place -> evDriver e t = Some d -> drLocker d = true /\ drVersioned d = true) ->
  retains (evNow e) place id u (pwObjects w) ->
  retains (evNow e) place id u (pwObjects (purgeListed e l w).2).
Proof.
  intros Hd. apply purgeListed_objects.
  - intros t k v objs H. unfold purgeObject. destruct (evDriver e t) as [d|] eqn:Ed; [|done].
    apply Purge_retains; [|done]. intros ->. by eapply Hd.
  - intros r objs H. unfold liftHold. destruct (evDriver e _) as [d|] eqn:Ed; [|done]. destruct (_ && _); [|done].
    pose proof (clearHold_retains d (evFault e (evPhys e (TargetID (rStored r)) (StorageKey (rStored r)))) (evPhys e (TargetID (rStored r)) (StorageKey (rStored r))) (VersionID (rStored r)) _ _ _ _ _ H) as Hc.
    by destruct (clearHold _ _ _ _ _).
Qed.

(** ** What is left of an object *)

(** No version with data is left at [place]. *)
Definition noData (objs : Objects) (place : string) : Prop := ∀ v, v ∈ default [] (objs !! place) -> vMarker v = true.

(** A reader finds no object at [place]: there is none, or a delete marker is the newest. *)
Definition hidden (objs : Objects) (place : string) : Prop :=
  match objs !! place with None | Some [] => True | Some (v :: _) => vMarker v = true end.

(** A purge of [s] adds a delete marker and keeps the versions: [s] names no version and its
    target is a bucket with versions that does not lock its uploads. *)
Definition marksOnly (e : Env) (s : Stored) : bool :=
  match evDriver e (TargetID s) with
  | Some d => drLocker d && drVersioned d && negb (drLock d) && bool_decide (VersionID s = "")
  | None => false
  end.

(** Every version is gone, or where a purge only marks, no reader finds the object. *)
Definition removed (e : Env) (objs : Objects) (s : Stored) : Prop :=
  if marksOnly e s then hidden objs (placeOf e s) else noData objs (placeOf e s).

Lemma noData_hidden objs p : noData objs p -> hidden objs p.
Proof. unfold noData, hidden. destruct (objs !! p) as [[|v l]|]; [done| |done]. intros H. apply H. cbn. by left. Qed.

Lemma Purge_removed d f place version now objs out objs' :
  Purge d f place version now objs = (out, objs') -> out = PgDone \/ out = PgNotFound ->
  if drLocker d && drVersioned d && negb (drLock d) && bool_decide (version = "") then hidden objs' place else noData objs' place.
Proof.
  unfold Purge, PurgeVersions, Delete, noData. intros H Ho.
  destruct (drLocker d && (drLock d || negb (bool_decide (version = "")))) eqn:Em.
  - assert (drLocker d && drVersioned d && negb (drLock d) && bool_decide (version = "") = false) as ->.
    { destruct (drLocker d), (drVersioned d), (drLock d), (bool_decide (version = "")); done. }
    destruct (ftRead f); [by injection H as <- <-; destruct Ho|]. case_bool_decide as E; [injection H as <- <-; rewrite E; set_solver|].
    destruct (lockScan _ _ _) as [[u|]|]; [by injection H as <- <-; destruct Ho| |by injection H as <- <-; destruct Ho].
    destruct (ftDelete f); injection H as <- <-; [by destruct Ho|]. rewrite lookup_delete_eq. set_solver.
  - destruct (ftRead f || _); [by injection H as <- <-; destruct Ho|]. destruct (drLocker d && drVersioned d) eqn:Ev.
    + apply andb_true_iff in Ev as [E1 E2]. rewrite E1 in Em. cbn [andb] in Em. apply orb_false_iff in Em as [-> Hv].
      apply negb_false_iff in Hv. rewrite Hv. injection H as _ <-. cbn. unfold hidden. by rewrite lookup_insert_eq.
    + cbn [andb]. destruct (objs !! place) eqn:E; injection H as <- <-; [rewrite lookup_delete_eq|rewrite E]; set_solver.
Qed.

Lemma Purge_noData d f place version now objs p : noData objs p -> noData (Purge d f place version now objs).2 p.
Proof.
  intros Hn. destruct (decide (p = place)) as [->|Hne]; [|unfold noData; by rewrite Purge_other].
  unfold Purge, PurgeVersions, Delete. destruct (_ && (_ || _)).
  - destruct (ftRead f); [done|]. destruct (bool_decide _); [done|]. destruct (lockScan _ _ _) as [[u|]|]; [done| |done].
    destruct (ftDelete f) as [n|]; unfold noData in *; cbn.
    + rewrite lookup_insert_eq. cbn. intros v Hv. apply Hn. by eapply subseteq_drop.
    + rewrite lookup_delete_eq. set_solver.
  - destruct (_ || _); [done|]. destruct (_ && _); unfold noData in *; cbn.
    + rewrite lookup_insert_eq. cbn. intros v [->|Hv]%elem_of_cons; [done|by apply Hn].
    + destruct (objs !! place) eqn:E; cbn; [rewrite lookup_delete_eq; set_solver|]. by rewrite E.
Qed.

Lemma purgeObject_removed e s objs out objs' s' :
  purgeObject e (TargetID s) (StorageKey s) (VersionID s) objs = (out, objs') -> out = PgDone \/ out = PgNotFound ->
  removed e objs' s /\ (removed e objs s' -> removed e objs' s').
Proof.
  unfold purgeObject. intros H Ho. assert (removed e objs' s) as Hs.
  { unfold removed, marksOnly, placeOf. destruct (evDriver e (TargetID s)) as [d|]; [|by injection H as <- _; destruct Ho]. by eapply Purge_removed. }
  split; [done|]. destruct (evDriver e (TargetID s)) as [d|]; [|by injection H as <- _; destruct Ho].
  set (p := evPhys e (TargetID s) (StorageKey s)) in *. unfold removed at 1 2.
  pose proof (Purge_noData d (evFault e p) p (VersionID s) (evNow e) objs (placeOf e s')) as Hn. rewrite H in Hn.
  destruct (marksOnly e s'); [|by apply Hn]. destruct (decide (placeOf e s' = p)) as [->|Hne].
  - intros _. unfold removed in Hs. destruct (marksOnly e s); [done|by apply noData_hidden].
  - unfold hidden. replace (objs' !! placeOf e s') with (objs !! placeOf e s'); [done|]. symmetry.
    by rewrite <- (Purge_other d (evFault e p) p (VersionID s) (evNow e) objs _ Hne), H.
Qed.

Lemma liftHold_removed e r objs s : removed e objs s -> removed e (liftHold e r objs).2 s.
Proof.
  intros Ha. destruct (decide (placeOf e s = placeOf e (rStored r))) as [E|Hne].
  2: { unfold removed, noData, hidden. by rewrite liftHold_other by (by apply not_eq_sym). }
  unfold liftHold. destruct (evDriver e _) as [d|]; [|done]. destruct (_ && _); [|done]. unfold clearHold.
  change (evPhys e (TargetID (rStored r)) (StorageKey (rStored r))) with (placeOf e (rStored r)). rewrite <- E.
  destruct (_ || _); [done|]. destruct (objs !! placeOf e s) as [[|v vs]|] eqn:Eo; [done| |done].
  cbn -[fmap]. unfold removed, hidden, noData in *. rewrite lookup_insert_eq, Eo in *. cbn -[fmap] in *. destruct (marksOnly e s).
  - rewrite fmap_cons. by case_bool_decide.
  - intros x (y & -> & Hy)%list_elem_of_fmap. case_bool_decide; cbn; by apply Ha.
Qed.

Lemma copiesLoop_removed e i l : ∀ locked w w',
  copiesLoop e i l locked w = (Ok None, w') ->
  locked = None /\ (∀ c, c ∈ l -> MayExist c = true -> removed e (pwObjects w') (cpAt c)) /\
  ∀ s, removed e (pwObjects w) s -> removed e (pwObjects w') s.
Proof.
  induction l as [|c l IH]; intros locked w w'; cbn [copiesLoop].
  { intros [= -> <-]. split_and!; [done|by intros ? ?%not_elem_of_nil|done]. }
  destruct (MayExist c) eqn:Em; cbn [negb].
  2: { intros (-> & H1 & H2)%IH. split_and!; [done| |done]. intros x [->|Hx]%elem_of_cons; [congruence|by apply H1]. }
  unfold purgeCopy. destruct (negb _); [done|]. destruct (purgeObject _ _ _ _ _) as [out objs] eqn:Ep.
  destruct out as [|u| |]; [| | |done]; intros (E & H1 & H2)%IH; [|by destruct locked; cbn in E; [destruct (_ <? _)|]|].
  all: pose proof (λ Ho s', purgeObject_removed e (cpAt c) _ _ _ s' Ep Ho) as Hp; specialize (Hp ltac:(by (by left) || by right)).
  all: split_and!; [done|intros x [->|Hx]%elem_of_cons Hm; [apply H2, (proj1 (Hp (cpAt c)))|by apply H1]|].
  all: intros s Hs; by apply H2, (proj2 (Hp s)).
Qed.

(** What is left of the archive when [purgeArchive] lets the purge go on. *)
Lemma purgeArchive_done e rec w deleted kept w' :
  purgeArchive e rec w = (ArcDone deleted kept, w') ->
  (∀ s, removed e (pwObjects w) s -> removed e (pwObjects w') s) /\
  (StorageKey (rStored rec) <> "" ->
   match kept with Some h => ∃ w1, heldBy e rec w = (HeldBy (Some h), w1) | None => removed e (pwObjects w') (rStored rec) end).
Proof.
  unfold purgeArchive. case_bool_decide as Ek; [by intros [= _ <- <-]|]. destruct (negb _); [done|].
  pose proof (heldBy_objects e rec w) as Eo. destruct (heldBy e rec w) as [[|[i|]] w1] eqn:Eh; [done| |]; cbn [snd] in Eo.
  { intros [= _ <- <-]. rewrite Eo. split; [done|eauto]. }
  pose proof (λ s, liftHold_removed e rec (pwObjects w1) s) as Hl. destruct (liftHold e rec (pwObjects w1)) as [[|] objs]; [|done].
  destruct (purgeObject _ _ _ _ objs) as [out objs'] eqn:Ep. cbn [snd] in Hl. rewrite Eo in Hl.
  pose proof (λ Ho s', purgeObject_removed e (rStored rec) _ _ _ s' Ep Ho) as Hp.
  destruct out; [|done| |done]; intros [= _ <- <-]; specialize (Hp ltac:(by (by left) || by right));
    (split; [intros s Hs; by apply (proj2 (Hp s)), Hl|intros _; apply (proj1 (Hp (rStored rec)))]).
Qed.

(** ** The index of holders *)

(** The columns the index depends on. *)
Definition cols (row : ArchiveRow) : BackupStatus * string * string := (rwStatus row, rwTarget row, rwKey row).

Section Index.
Context (e : Env) (locate : string -> string -> option string).
Hypothesis located_by : evLocate e = Some locate.

Definition listAt (x : holderIndex) (loc : option string) : list string :=
  match loc with Some p => default [] (byLocation x !! p) | None => unlocated x end.

Definition refAt (loc : option string) (c : BackupStatus * string * string) : bool :=
  let '(st, t, k) := c in
  isRef (mkARow st t k None) && holdsArchive st && bool_decide (locate t k = loc).

(** The IDs of a fresh index at [loc]. *)
Definition refHere (cs : gmap string (BackupStatus * string * string)) (loc : option string) (id : string) : bool :=
  match cs !! id with Some c => refAt loc c | None => false end.
Definition freshAt (rows : Rows) (loc : option string) : list string := filter (λ id, refHere (cols <$> rows) loc id) (rowIDs rows).

Lemma build_listAt rows x loc : build e locate rows None = Some x -> listAt x loc = freshAt rows loc /\ gone x = ∅.
Proof using.
  intros ->%build_fresh. destruct (foldl_addRef locate (refsOf rows) (mkIndex ∅ [] ∅)) as (F1 & F2 & F3). cbv zeta in *.
  split; [|exact F3]. assert (listAt (foldl (addRef locate) (mkIndex ∅ [] ∅) (refsOf rows)) loc = (filter (holdsAt locate loc) (refsOf rows)).*1) as ->.
  { destruct loc as [p|]; cbn [listAt]; [by rewrite F1|by rewrite F2]. }
  unfold freshAt, refsOf. induction (rowIDs rows) as [|i l IH]; [done|]. rewrite filter_cons. cbn [omap list_omap].
  assert (refHere (cols <$> rows) loc i = match cols <$> rows !! i with Some c => refAt loc c | None => false end) as -> by (unfold refHere; by rewrite lookup_fmap).
  destruct (rows !! i) as [[st t k rec]|]; cbn [fmap option_fmap option_map mbind option_bind from_option]; [|rewrite decide_False by (by intros []); exact IH].
  cbn [cols rwStatus rwTarget rwKey refAt]. change (isRef (mkARow st t k None)) with (isRef (mkARow st t k rec)).
  destruct (isRef _); cbn [andb]; [|rewrite decide_False by (by intros []); exact IH]. rewrite filter_cons. cbn [holdsAt snd rwStatus rwTarget rwKey].
  destruct (holdsArchive st) eqn:Eh; cbn [andb].
  - destruct (decide (locate t k = loc)) as [Hl|Hl].
    + rewrite (decide_True (P := holdsAt _ _ _)) by done. rewrite decide_True by (by apply bool_decide_pack). rewrite fmap_cons. by rewrite IH.
    + rewrite (decide_False (P := holdsAt _ _ _)) by (by intros [_ ?]). rewrite decide_False by (by intros ?%bool_decide_unpack). done.
  - rewrite (decide_False (P := holdsAt _ _ _)) by (intros [H _]; cbn in H; congruence). rewrite decide_False by (by intros []). exact IH.
Qed.

Lemma freshAt_cols rows rows' loc : cols <$> rows' = cols <$> rows -> freshAt rows' loc = freshAt rows loc.
Proof using.
  intros H. unfold freshAt. rewrite H. unfold rowIDs. assert (dom rows' = dom rows) as ->; [|done].
  by rewrite <- (dom_fmap_L cols rows'), H, dom_fmap_L.
Qed.

(** The index answers as a fresh one would. *)
Definition Exact (w : World) : Prop :=
  wfRows (pwRows w) /\ ∀ ix loc, pwIndex w = Some ix -> filter (λ i, i ∉ gone ix) (listAt ix loc) = freshAt (pwRows w) loc.

Lemma Exact_rows rows objs w : wfRows rows -> cols <$> rows = cols <$> pwRows w -> Exact w -> Exact (mkWorld rows objs (pwIndex w)).
Proof using. intros Hw Hc [W1 W2]. split; [done|]. intros ix loc Hx. rewrite (freshAt_cols _ _ _ Hc). by apply W2. Qed.

Lemma Update_cols what i fn rows :
  wfRows rows -> (∀ r r', fn r = Some r' -> cols (rowOf r') = cols (rowOf r)) ->
  cols <$> (UpdateBackupRecord e what i fn rows).2 = cols <$> rows.
Proof using.
  intros Hw Hfn. destruct (Update_cases e what i fn rows) as [(u & _ & ->)|(row & r & r' & Hr & Hx & Hf & _ & ->)]; [done|]. cbn [snd].
  rewrite fmap_insert, (Hfn r r' Hf). destruct (Hw _ _ Hr r Hx) as [<- _]. apply insert_id. by rewrite lookup_fmap, Hr.
Qed.

Lemma Exact_update what i fn w :
  (∀ r r', fn r = Some r' -> cols (rowOf r') = cols (rowOf r)) -> Exact w ->
  Exact (withRows (UpdateBackupRecord e what i fn (pwRows w)).2 w).
Proof using. intros Hfn Hw. apply Exact_rows; [apply Update_wf, Hw|apply Update_cols; [apply Hw|done]|done]. Qed.

Lemma copiesLoop_exact i l : ∀ locked w, Exact w -> Exact (copiesLoop e i l locked w).2.
Proof using.
  induction l as [|c l IH]; intros locked w Hw; cbn [copiesLoop]; [done|]. destruct (negb _); [by apply IH|].
  unfold purgeCopy. destruct (negb _); [done|]. destruct (purgeObject _ _ _ _ _) as [out objs].
  assert (Exact (withObjects objs w)) as Ho by (by destruct Hw).
  destruct out; [..|done]; apply IH, Exact_update; try done; by intros r r' [= <-].
Qed.

Lemma heldBy_exact rec w : Exact w -> Exact (heldBy e rec w).2.
Proof using All.
  intros [W1 W2]. unfold heldBy. destruct (archiveHolder e rec (pwRows w)) as [|[j|]]; [done..|]. rewrite located_by.
  unfold physicalHolder. destruct (locate _ _); [|done]. destruct (build e locate (pwRows w) (pwIndex w)) as [x|] eqn:Eb; [|done].
  split; [done|]. cbn. intros ix loc [= <-]. destruct (pwIndex w) as [y|] eqn:Ey; [injection Eb as <-; by apply W2|].
  destruct (build_listAt _ _ loc Eb) as [-> ->]. apply filter_all. set_solver.
Qed.

Lemma purgeArchive_exact rec w : Exact w -> Exact (purgeArchive e rec w).2.
Proof using All.
  intros Hw. unfold purgeArchive. destruct (bool_decide _); [done|]. destruct (negb _); [done|].
  pose proof (heldBy_exact rec w Hw) as H1. destruct (heldBy e rec w) as [[|[j|]] w1]; [done..|]. cbn [snd] in H1.
  destruct (liftHold _ _ _) as [[|] objs]; [|by destruct H1]. destruct (purgeObject _ _ _ _ _) as [out objs'].
  assert (Exact (withObjects objs' w1)) as Ho by (by destruct H1). destruct out; try done. apply Exact_update; [|done]. by intros r r' [= <-].
Qed.

(** The purged record leaves the fresh index too. *)
Lemma freshAt_purged rows i row loc :
  rows !! i = Some row -> ∀ row', rwStatus row' = StatusPurged -> freshAt (<[i := row']> rows) loc = filter (λ j, j <> i) (freshAt rows loc).
Proof using.
  intros Hi row' Hs. unfold freshAt. assert (rowIDs (<[i := row']> rows) = rowIDs rows) as ->.
  { unfold rowIDs. by rewrite dom_insert_lookup_L by eauto. }
  rewrite list_filter_filter. apply list_filter_iff. intros j. unfold refHere. rewrite !lookup_fmap. destruct (decide (i = j)) as [->|Hne].
  - rewrite lookup_insert_eq. cbn. rewrite Hs. split; [done|by intros []].
  - rewrite lookup_insert_ne by done. split; [by split|by intros []].
Qed.

Lemma purgeOne_exact rec w : Exact w -> Exact (purgeOne e rec w).2.
Proof using All.
  intros Hw. unfold purgeOne. destruct (negb _); [done|]. destruct (GetBackupRecord _ _ _) as [cur| |]; [|done..].
  destruct (negb _); [done|]. destruct (pinned e cur); [done|]. unfold purgeCopies.
  pose proof (copiesLoop_exact (rID cur) (rCopies cur) None w Hw) as Hc. destruct (copiesLoop _ _ _ _ w) as [[[u|]|] w1]; [done| |done].
  pose proof (purgeArchive_exact cur w1 Hc) as Ha. destruct (purgeArchive e cur w1) as [[| |del kept] w2]; [done..|]. cbn [snd] in Ha.
  destruct (Update_cases e (WPurged (rID cur)) (rID cur) (markPurged (evNow e) (evGrace e (rID rec))) (pwRows w2))
    as [(u & Hu & E)|(y & o & o' & Hy & Ho & Hf & Hid & E)].
  - rewrite E. destruct u; [by destruct (Hu r)|by destruct Ha..].
  - destruct Ha as [W1 W2]. pose proof (Update_wf e (WPurged (rID cur)) (rID cur) (markPurged (evNow e) (evGrace e (rID rec))) _ W1) as Hwf.
    rewrite E in *. split; [done|]. cbn. intros ix loc Hx. destruct (pwIndex w2) as [x|] eqn:Ex; [|done]. cbn in Hx. injection Hx as <-.
    unfold markPurged in Hf. destruct (PurgeDue _ _ o); [|done]. injection Hf as <-. rewrite (freshAt_purged _ _ _ _ Hy) by done.
    rewrite <- (W2 x loc eq_refl), list_filter_filter. rewrite Hid. change (listAt (mkIndex _ _ _) loc) with (listAt x loc).
    apply list_filter_iff. cbn [gone]. intros j. set_solver.
Qed.

Lemma purgeLoop_exact l : ∀ w, Exact w -> Exact (purgeLoop e l w).2.
Proof using All.
  induction l as [|rec l IH]; intros w Hw; cbn [purgeLoop]; [done|]. destruct (negb _); [by apply IH|]. destruct (negb _); [done|].
  pose proof (purgeOne_exact rec w Hw) as Ho. destruct (purgeOne e rec w) as [o w1]. specialize (IH _ Ho). cbn [snd] in IH.
  destruct (purgeLoop e l w1) as [[ids ok] w2]. by destruct o.
Qed.
End Index.

(** The index of holders built once per run is as good as a fresh one: after any
    number of backups purged by the run, it names the same holder of every place as an
    index built from the table as it is then. *)
Theorem holder_index_current e locate l w ix fresh :
  evLocate e = Some locate -> wfRows (pwRows w) ->
  let w' := (purgeLoop e l (withIndex None w)).2 in
  pwIndex w' = Some ix -> build e locate (pwRows w') None = Some fresh ->
  ∀ loc self, holder ix loc self = holder fresh loc self.
Proof.
  intros El Hwf w' Hx Hb loc self.
  destruct (purgeLoop_exact e locate El l (withIndex None w)) as [_ H]; [by split|]. change (purgeLoop e l (withIndex None w)).2 with w' in H.
  unfold holder. change (default [] (byLocation ix !! loc)) with (listAt ix (Some loc)). change (unlocated ix) with (listAt ix None).
  change (default [] (byLocation fresh !! loc)) with (listAt fresh (Some loc)). change (unlocated fresh) with (listAt fresh None).
  destruct (build_listAt e locate _ _ (Some loc) Hb) as [-> Hg]. destruct (build_listAt e locate _ _ None Hb) as [-> _].
  rewrite <- (H ix (Some loc) Hx), <- (H ix None Hx), <- filter_app, list_filter_filter. f_equal. apply list_filter_iff.
  intros i. rewrite Hg. set_solver.
Qed.

(** ** The rows *)

Section Rows.
Context (e : Env) (P : Rows -> Prop).
Hypothesis update_ok : ∀ what i fn rows, P rows -> P (UpdateBackupRecord e what i fn rows).2.

(** What every update of a record preserves, a purge preserves. *)
Lemma copiesLoop_rows i l : ∀ locked w, P (pwRows w) -> P (pwRows (copiesLoop e i l locked w).2).
Proof using All.
  induction l as [|c l IH]; intros locked w Hw; cbn [copiesLoop]; [done|]. destruct (negb _); [by apply IH|].
  unfold purgeCopy. destruct (negb _); [done|]. destruct (purgeObject _ _ _ _ _) as [out objs].
  destruct out; [..|done]; by apply IH, update_ok.
Qed.

Lemma purgeArchive_rows rec w : P (pwRows w) -> P (pwRows (purgeArchive e rec w).2).
Proof using All.
  intros Hw. unfold purgeArchive. destruct (bool_decide _); [done|]. destruct (negb _); [done|].
  rewrite <- (heldBy_rows e rec w) in Hw. destruct (heldBy e rec w) as [[|[i|]] w1]; [done..|]. cbn [snd] in Hw.
  destruct (liftHold e rec (pwObjects w1)) as [[|] objs]; [|done].
  destruct (purgeObject _ _ _ _ objs) as [out objs']. destruct out; try done. by apply update_ok.
Qed.

Lemma purgeLoop_rows l : ∀ w, P (pwRows w) -> P (pwRows (purgeLoop e l w).2).
Proof using All.
  induction l as [|rec l IH]; intros w Hw; cbn [purgeLoop]; [done|]. destruct (negb _); [by apply IH|]. destruct (negb _); [done|].
  assert (P (pwRows (purgeOne e rec w).2)) as Ho.
  { unfold purgeOne. destruct (negb _); [done|]. destruct (GetBackupRecord _ _ _) as [cur| |]; [|done..].
    destruct (negb _); [done|]. destruct (pinned e cur); [done|]. unfold purgeCopies.
    pose proof (copiesLoop_rows (rID cur) (rCopies cur) None w Hw) as Hc. destruct (copiesLoop _ _ _ _ w) as [[[u|]|] w1]; [done| |done].
    pose proof (purgeArchive_rows cur w1 Hc) as Ha. destruct (purgeArchive e cur w1) as [[| |del kept] w2]; [done..|]. cbn [snd] in Ha.
    pose proof (update_ok (WPurged (rID cur)) (rID cur) (markPurged (evNow e) (evGrace e (rID rec))) _ Ha) as Hu.
    by destruct (UpdateBackupRecord _ _ _ _ _) as [[] rows]. }
  destruct (purgeOne e rec w) as [o w1]. specialize (IH _ Ho). cbn [snd] in IH. destruct (purgeLoop e l w1) as [[ids ok] w2]. by destruct o.
Qed.
End Rows.

(** ** A purged backup *)

(** Row [h] is of another record that holds the archive of [rec]: it names the same target
    and key, and its status holds an archive or it could not be read; or it holds an archive
    whose location is that of [rec]'s, or is not known. *)
Definition holdsArchiveOf (e : Env) (rows : Rows) (rec : BackupRecord) (h : string) : Prop :=
  h <> rID rec /\ ∃ row, rows !! h = Some row /\
    ((rwTarget row = TargetID (rStored rec) /\ rwKey row = StorageKey (rStored rec) /\
      (holdsArchive (rwStatus row) = true \/ GetBackupRecord e h rows = GotErr)) \/
     ∃ locate place, evLocate e = Some locate /\ locate (TargetID (rStored rec)) (StorageKey (rStored rec)) = Some place /\
       holdsArchive (rwStatus row) = true /\
       (locate (rwTarget row) (rwKey row) = Some place \/ locate (rwTarget row) (rwKey row) = None)).

Lemma holderLoop_holds e rows rec ids h :
  wfRows rows -> holderLoop e rows (rID rec) ids = Some h ->
  h ∈ ids /\ h <> rID rec /\ (GetBackupRecord e h rows = GotErr \/ ∃ row, rows !! h = Some row /\ holdsArchive (rwStatus row) = true).
Proof.
  intros Hwf. induction ids as [|i ids IH]; cbn [holderLoop]; [done|].
  assert (holderLoop e rows (rID rec) ids = Some h -> h ∈ i :: ids /\ h <> rID rec /\
    (GetBackupRecord e h rows = GotErr \/ ∃ row, rows !! h = Some row /\ holdsArchive (rwStatus row) = true)) as IH'.
  { intros (? & ? & ?)%IH. split; [by right|done]. }
  case_bool_decide as E; [done|]. destruct (GetBackupRecord e i rows) as [o| |] eqn:Eg; [|done|].
  - destruct (holdsArchive (rStatus o)) eqn:Eh; [|done]. intros [= <-]. split_and!; [by left|done|right].
    unfold GetBackupRecord in Eg. destruct (negb _); [done|]. destruct (rows !! i) as [row|] eqn:Er; [|done].
    destruct (rwRecord row) as [r|] eqn:Ec; [|done]. injection Eg as ->. exists row. split; [done|].
    by destruct (Hwf _ _ Er _ Ec) as [-> _].
  - intros [= <-]. split_and!; [by left|done|by left].
Qed.

(** The index of a run names a row that holds the archive now. *)
Lemma holder_holds e locate w x loc self h :
  evLocate e = Some locate -> Exact locate w -> build e locate (pwRows w) (pwIndex w) = Some x -> holder x loc self = Some h ->
  h <> self /\ ∃ row, pwRows w !! h = Some row /\ holdsArchive (rwStatus row) = true /\
    (locate (rwTarget row) (rwKey row) = Some loc \/ locate (rwTarget row) (rwKey row) = None).
Proof.
  intros El [Hwf Hx] Hb Hh. assert (∀ loc, filter (λ i, i ∉ gone x) (listAt x loc) = freshAt locate (pwRows w) loc) as Hfresh.
  { intros l. destruct (pwIndex w) as [y|] eqn:Ey; [injection Hb as <-; by apply Hx|].
    destruct (build_listAt e locate _ _ l Hb) as [-> ->]. apply filter_all. set_solver. }
  unfold holder in Hh. destruct (filter _ _) as [|y l] eqn:Ef; [done|]. injection Hh as ->.
  assert (h ∈ h :: l) as Hin by (by left). rewrite <- Ef in Hin. apply list_elem_of_filter in Hin as [[Hne Hg] Hin].
  split; [done|]. assert (∀ loc, h ∈ listAt x loc -> ∃ row, pwRows w !! h = Some row /\ holdsArchive (rwStatus row) = true /\
    locate (rwTarget row) (rwKey row) = loc) as Hat.
  { intros lc Hl. assert (h ∈ freshAt locate (pwRows w) lc) as Hf by (rewrite <- Hfresh; by apply list_elem_of_filter).
    apply list_elem_of_filter in Hf as [Hr%Is_true_true _]. unfold refHere in Hr. rewrite lookup_fmap in Hr.
    destruct (pwRows w !! h) as [row|]; [|done]. cbn in Hr. apply andb_true_iff in Hr as [Hr Hl'%bool_decide_eq_true].
    apply andb_true_iff in Hr as [_ Hr]. eauto. }
  apply elem_of_app in Hin as [Hin|Hin]; [destruct (Hat (Some loc) Hin) as (row & ? & ? & ?)|destruct (Hat None Hin) as (row & ? & ? & ?)]; eauto 10.
Qed.

Lemma heldBy_holds e rec w h w' :
  wfRows (pwRows w) -> (∀ locate, evLocate e = Some locate -> Exact locate w) ->
  heldBy e rec w = (HeldBy (Some h), w') -> holdsArchiveOf e (pwRows w) rec h.
Proof.
  intros Hwf Hx. unfold heldBy, archiveHolder, holdsArchiveOf. destruct (ArchiveReferenceIDs _ _ _ _) as [ids|] eqn:Ei; [|done].
  destruct (holderLoop _ _ _ _) as [i|] eqn:E.
  - intros [= <- _]. destruct (holderLoop_holds _ _ _ _ _ Hwf E) as (Hin & Hne & Hh). split; [done|].
    unfold ArchiveReferenceIDs in Ei. destruct (evRefs e _); [|done]. injection Ei as <-.
    apply list_elem_of_filter in Hin as [Hr%Is_true_true _]. unfold rowIs in Hr. destruct (pwRows w !! i) as [row|] eqn:Er; [|done].
    apply andb_true_iff in Hr as [Ht%bool_decide_eq_true Hk%bool_decide_eq_true]. exists row. split; [done|]. left. split_and!; [done..|].
    destruct Hh as [?|(row' & [= <-] & ?)]; [by right|by left].
  - destruct (evLocate e) as [locate|] eqn:El; [|done]. unfold physicalHolder. destruct (locate _ _) as [mine|] eqn:Em; [|done].
    destruct (build _ _ _ _) as [x|] eqn:Eb; [|done]. intros [= H _].
    destruct (holder_holds e locate w x mine (rID rec) h El (Hx _ eq_refl) Eb H) as (Hne & row & Hr & Hs & Hl). split; [done|].
    exists row. split; [done|]. right. exists locate, mine. done.
Qed.

Lemma copiesLoop_row e i j l : ∀ locked w, j <> i -> pwRows (copiesLoop e i l locked w).2 !! j = pwRows w !! j.
Proof.
  induction l as [|c l IH]; intros locked w Hj; cbn [copiesLoop]; [done|]. destruct (negb _); [by apply IH|].
  unfold purgeCopy. destruct (negb _); [done|]. destruct (purgeObject _ _ _ _ _) as [out objs].
  destruct out; [..|done]; rewrite IH by done; unfold recordCopy; cbn [pwRows withRows]; by apply Update_lookup_ne.
Qed.

Lemma holdsArchiveOf_rows e rows rows' rec h :
  (∀ j, j <> rID rec -> rows' !! j = rows !! j) -> holdsArchiveOf e rows' rec h -> holdsArchiveOf e rows rec h.
Proof.
  intros He (Hne & row & Hr & H). split; [done|]. exists row. rewrite <- (He _ Hne). split; [done|].
  destruct H as [(? & ? & H)|?]; [left|by right]. split_and!; [done..|]. unfold GetBackupRecord in *. by rewrite <- (He _ Hne).
Qed.

Lemma purgeOne_gone e rec w r deleted kept w' :
  wfRows (pwRows w) -> (∀ locate, evLocate e = Some locate -> Exact locate w) -> purgeOne e rec w = (Done r deleted kept, w') ->
  ∃ row cur, pwRows w !! rID rec = Some row /\ rwRecord row = Some cur /\
    PurgeDue (evNow e) (evGrace e (rID rec)) cur = true /\ pinned e cur = false /\
    (∀ c, c ∈ rCopies cur -> MayExist c = true -> removed e (pwObjects w') (cpAt c)) /\
    (StorageKey (rStored cur) <> "" ->
     match kept with Some h => holdsArchiveOf e (pwRows w) cur h | None => removed e (pwObjects w') (rStored cur) end) /\
    pwRows w' !! rID rec = Some (rowOf r) /\ rStatus r = StatusPurged.
Proof.
  intros Hwf Hx. unfold purgeOne. destruct (negb _); [done|]. unfold GetBackupRecord. destruct (negb _); [done|].
  destruct (pwRows w !! rID rec) as [row|] eqn:Er; [|done]. destruct (rwRecord row) as [cur|] eqn:Ec; [|done].
  destruct (Hwf _ _ Er cur Ec) as [_ Ei]. destruct (PurgeDue _ _ cur) eqn:Ed; cbn [negb]; [|done]. destruct (pinned e cur) eqn:Ep; [done|].
  pose proof (λ locate El, copiesLoop_exact e locate (rID cur) (rCopies cur) None w (Hx locate El)) as Hx1.
  pose proof (λ j, copiesLoop_row e (rID cur) j (rCopies cur) None w) as Hrow.
  pose proof (copiesLoop_rows e wfRows (Update_wf e) (rID cur) (rCopies cur) None w Hwf) as Hwf1.
  unfold purgeCopies. destruct (copiesLoop _ _ _ _ w) as [[[u|]|] w1] eqn:E1; [done| |done]. cbn [snd] in Hx1, Hrow, Hwf1.
  apply copiesLoop_removed in E1 as (_ & C1 & C2). destruct (purgeArchive e cur w1) as [[| |del kp] w2] eqn:E2; [done..|].
  apply purgeArchive_done in E2 as [A1 A2]. rewrite <- Ei in *.
  destruct (Update_cases e (WPurged (rID cur)) (rID cur) (markPurged (evNow e) (evGrace e (rID cur))) (pwRows w2))
    as [(u & Hu & E)|(y & o & o' & _ & _ & Hf & Hid & E)]; rewrite E.
  { destruct u; [by destruct (Hu r0)|done..]. }
  intros [= <- <- <- <-]. exists row, cur. unfold markPurged in Hf. destruct (PurgeDue _ _ o); [|done]. injection Hf as <-.
  cbn [pwObjects pwRows]. rewrite lookup_insert_eq. split_and!; try done; [intros c Hc Hm; by apply A1, C1|].
  intros Hk. specialize (A2 Hk). destruct kp as [h|]; [|done]. destruct A2 as [w3 A2].
  apply (holdsArchiveOf_rows e _ (pwRows w1)); [done|]. by eapply heldBy_holds.
Qed.

(** [C26] What a purge marks as purged is really gone. In any run, after any number of
    backups, the record a purge was decided on was due and read by no restore; of every copy
    that might have existed no version with data is left, and none of the archive, unless
    another record holds it: then the row named as its keeper is of a record that is not
    purged and names the same target and key or lies at the same location (one that cannot
    be read or located counts). Only where the target is a bucket with versions that does
    not lock its uploads and the record names no version is the object put under a delete
    marker instead, so that no reader finds it. The row then says purged. *)
Theorem purged_backup_is_gone e l w0 rec r deleted kept w' :
  wfRows (pwRows w0) ->
  let w := (purgeLoop e l (withIndex None w0)).2 in
  purgeOne e rec w = (Done r deleted kept, w') ->
  ∃ row cur, pwRows w !! rID rec = Some row /\ rwRecord row = Some cur /\
    PurgeDue (evNow e) (evGrace e (rID rec)) cur = true /\ pinned e cur = false /\
    (∀ c, c ∈ rCopies cur -> MayExist c = true -> removed e (pwObjects w') (cpAt c)) /\
    (StorageKey (rStored cur) <> "" ->
     match kept with Some h => holdsArchiveOf e (pwRows w) cur h | None => removed e (pwObjects w') (rStored cur) end) /\
    pwRows w' !! rID rec = Some (rowOf r) /\ rStatus r = StatusPurged.
Proof.
  intros Hwf w. apply purgeOne_gone.
  - apply (purgeLoop_rows e wfRows); [apply Update_wf|done].
  - intros locate El. by apply purgeLoop_exact.
Qed.
