(* ===== verification/PurgeDemo.v ===== *)
(** * A purge on two disks and a bucket

    Targets [disk] and [nas] name one directory, [s3] a bucket with Object Lock. *)

From S2P Require Import Prelude Backup Pins ObjectStorage Purge PurgeSafety.

Definition demoPhys (t k : string) : string := (if bool_decide (t = "s3") then "bucket/" else "dir/") +:+ k.

Definition demoEnv (locate : option (string -> string -> option string)) : Env :=
  mkEnv (100 * day) (λ _, 7 * day) emptySnapshot
    (λ t, Some (if bool_decide (t = "s3") then mkDriver true true true else mkDriver false false false))
    demoPhys locate (λ _, noFault) (λ _, true) true (λ _, true) (λ _, true) true true (λ _, true) (λ _, true).

Definition demoE : Env := demoEnv (Some (λ t k, Some (demoPhys t k))).

#[export] Instance demoE_Located : Located demoE.
Proof. split. intros locate t k t' k' p p' [= <-] [= <-] [= <-] H. exact H. Qed.

Definition storedAt (t k : string) : Stored := mkStored t t k "" "" None.

Definition demoRec (id : string) (st : BackupStatus) (s : Stored) (cleanup : bool) (copies : list BackupCopy) : BackupRecord :=
  mkRecord (mkIdent id "job" TriggerScheduled "db" "c" ScopeDatabase (10 * day)) st s "" (mkOutcome None "" None cleanup) notVerified false false
    (match st with StatusDeleted => mkDeletion (Some (80 * day)) "u" "" "" (Some (87 * day)) StatusCompleted None | _ => notDeleted end)
    copies CopyAsync.

Definition copyAt (t k : string) : BackupCopy := mkCopy (storedAt t k) CopyDone true "" "" true None 0 None notVerified None.

(** [shared] is deleted and due, and names the object of the live [kept] through the other
    target; [solo] is deleted and due, with a copy in the bucket. *)
Definition demoKept : BackupRecord := demoRec "kept" StatusCompleted (storedAt "disk" "a") false [].
Definition demoShared : BackupRecord := demoRec "shared" StatusDeleted (storedAt "nas" "a") false [].
Definition demoSolo : BackupRecord := demoRec "solo" StatusDeleted (storedAt "disk" "b") false [copyAt "s3" "b"].

Definition rowsOf (l : list BackupRecord) : Rows := list_to_map ((λ r, (rID r, rowOf r)) <$> l).

Definition plain : Version := mkVersion "v1" false None false.
Definition locked : Version := mkVersion "v2" false (Some (200 * day)) false.

Definition demoW : World :=
  mkWorld (rowsOf [demoKept; demoShared; demoSolo])
    (list_to_map [("dir/a", [plain]); ("dir/b", [plain]); ("bucket/b", [plain]); ("bucket/z", [locked; plain])]) None.

Lemma demoW_rows i x r : pwRows demoW !! i = Some x -> rwRecord x = Some r -> x = rowOf r /\ rID r = i /\ r ∈ [demoKept; demoShared; demoSolo].
Proof.
  intros H Hr. apply elem_of_list_to_map_2 in H. cbn in H. rewrite !elem_of_cons, elem_of_nil in H.
  destruct H as [[= -> ->]|[[= -> ->]|[[= -> ->]|[]]]]; injection Hr as <-; (split_and!; [done|done|set_solver]).
Qed.

Lemma demoW_wf : wfRows (pwRows demoW).
Proof. intros i x H r Hr. destruct (demoW_rows i x r H Hr) as (H1 & H2 & _). by split. Qed.

Lemma purge_keeps_live_archives_witness :
  let w' := (purgeListed demoE [demoShared; demoSolo] demoW).2 in
  pwRows w' !! "kept" = Some (rowOf demoKept) /\ pwObjects w' !! "dir/a" = pwObjects demoW !! "dir/a".
Proof.
  apply (purge_keeps_live_archives demoE [demoShared; demoSolo] demoW "kept" (rowOf demoKept)); [exact demoW_wf|reflexivity|reflexivity|done| |].
  - intros r [= <-]. left. reflexivity.
  - intros i x r Hi Hne Hr. destruct (demoW_rows i x r Hi Hr) as (_ & <- & Hin). rewrite !elem_of_cons, elem_of_nil in Hin.
    destruct Hin as [->|[->|[->|[]]]]; [done| |]; split; try done; cbn; [by intros c ?%not_elem_of_nil|].
    intros c [->|?%not_elem_of_nil]%elem_of_cons _; done.
Defined.

(** Both were purged; the object they share stays, the others are gone. *)
Example demo_purged :
  let '((ids, ok), w') := run demoE demoW in
  ids = ["shared"; "solo"] /\ ok = true /\ pwObjects w' !! "dir/a" = Some [plain] /\ pwObjects w' !! "dir/b" = None /\
  pwObjects w' !! "bucket/b" = None.
Proof. vm_compute. done. Qed.

Lemma purge_respects_retention_witness :
  retains (evNow demoE) "bucket/z" "v2" (200 * day)
    (pwObjects (purgeListed demoE [demoRec "z" StatusDeleted (storedAt "s3" "z") false []]
       (mkWorld (rowsOf [demoRec "z" StatusDeleted (storedAt "s3" "z") false []]) (pwObjects demoW) None)).2).
Proof.
  apply (purge_respects_retention demoE); cbn [pwObjects].
  - intros t k d Hp [= <-]. change (demoPhys t k = "bucket/z") in Hp. unfold demoPhys in Hp. case_bool_decide; [done|]. discriminate Hp.
  - split; [reflexivity|]. exists [locked; plain], locked. split_and!; try reflexivity. by left.
Defined.

(** After [solo], the run comes to [shared], whose archive [kept] holds; the other way
    round, [solo] and its copy are gone. *)
Lemma purged_backup_is_gone_witness :
  (let w := (purgeLoop demoE [demoSolo] (withIndex None demoW)).2 in
   holdsArchiveOf demoE (pwRows w) demoShared "kept") /\
  (let w := (purgeLoop demoE [demoShared] (withIndex None demoW)).2 in let w' := (purgeOne demoE demoSolo w).2 in
   removed demoE (pwObjects w') (storedAt "s3" "b") /\ removed demoE (pwObjects w') (storedAt "disk" "b")).
Proof.
  split.
  - pose proof (purged_backup_is_gone demoE [demoSolo] demoW demoShared) as H. cbv zeta in *.
    set (w := (purgeLoop demoE [demoSolo] (withIndex None demoW)).2) in *.
    assert (pwRows w !! "shared" = Some (rowOf demoShared)) as Hrow by (vm_compute; reflexivity).
    assert (match (purgeOne demoE demoShared w).1 with Done _ _ k => bool_decide (k = Some "kept") | _ => false end = true) as Hk
      by (vm_compute; reflexivity).
    destruct (purgeOne demoE demoShared w) as [[| |r deleted kept] w']; [discriminate Hk..|]. apply bool_decide_eq_true in Hk as ->.
    destruct (H r deleted (Some "kept") w' demoW_wf eq_refl) as (row & cur & H1 & H2 & _ & _ & _ & H3 & _).
    change (rID demoShared) with "shared" in H1. rewrite Hrow in H1. injection H1 as <-. injection H2 as <-. apply H3. discriminate.
  - pose proof (purged_backup_is_gone demoE [demoShared] demoW demoSolo) as H. cbv zeta in *.
    set (w := (purgeLoop demoE [demoShared] (withIndex None demoW)).2) in *.
    assert (pwRows w !! "solo" = Some (rowOf demoSolo)) as Hrow by (vm_compute; reflexivity).
    assert (match (purgeOne demoE demoSolo w).1 with Done _ _ k => bool_decide (k = None) | _ => false end = true) as Hk
      by (vm_compute; reflexivity).
    destruct (purgeOne demoE demoSolo w) as [[| |r deleted kept] w']; [discriminate Hk..|]. apply bool_decide_eq_true in Hk as ->.
    destruct (H r deleted None w' demoW_wf eq_refl) as (row & cur & H1 & H2 & _ & _ & H4 & H3 & _).
    change (rID demoSolo) with "solo" in H1. rewrite Hrow in H1. injection H1 as <-. injection H2 as <-. split.
    + apply (H4 (copyAt "s3" "b")); [by left|reflexivity].
    + apply H3. discriminate.
Defined.

Lemma holder_index_current_witness :
  let w' := (purgeLoop demoE [demoShared; demoSolo] (withIndex None demoW)).2 in
  match pwIndex w', build demoE (λ t k, Some (demoPhys t k)) (pwRows w') None with
  | Some ix, Some fresh => holder ix "dir/a" "shared" = holder fresh "dir/a" "shared"
  | _, _ => False
  end.
Proof.
  intros w'. destruct (pwIndex w') as [ix|] eqn:Ex; [|by vm_compute in Ex].
  destruct (build demoE (λ t k, Some (demoPhys t k)) (pwRows w') None) as [fresh|] eqn:Ef; [|by vm_compute in Ef].
  by apply (holder_index_current demoE (λ t k, Some (demoPhys t k)) [demoShared; demoSolo] demoW ix fresh eq_refl demoW_wf).
Defined.

(** ** What the checks leave out *)

(** A copy is purged although a live record names its object as its own archive, as an
    archive imported from the copy's target does. *)
Example copy_of_live_archive_purged :
  let live := demoRec "imported" StatusCompleted (storedAt "s3" "b") false [] in
  let w := mkWorld (rowsOf [live; demoSolo]) (pwObjects demoW) None in
  let w' := (run demoE w).2 in
  pwObjects w !! "bucket/b" = Some [plain] /\ pwRows w' !! "imported" = Some (rowOf live) /\ pwObjects w' !! "bucket/b" = None.
Proof. vm_compute. done. Qed.

(** The artifact of a failed backup is removed although a live record names the same
    object through another target. *)
Example artifact_of_live_archive_removed :
  let failed := demoRec "failed" StatusFailed (storedAt "nas" "a") true [] in
  let w := mkWorld (rowsOf [demoKept; failed]) (pwObjects demoW) None in
  let w' := (run demoE w).2 in
  pwRows w' !! "kept" = Some (rowOf demoKept) /\ pwObjects w' !! "dir/a" = None.
Proof. vm_compute. done. Qed.
