(* ===== verification/Outbox.v ===== *)
(** * The notification outbox ([internal/notify/outbox.go], [internal/store/outbox.go])

    Deliveries are rows of a table, sent one at a time per channel, oldest first, and
    removed once delivered or given up. The dispatcher reads the oldest row of every
    channel and hands the due ones to workers; a worker sends, writes the outcome to the
    table and takes its channel out of flight, in separate steps, so a read of the
    dispatcher may be out of date. The process may crash at any moment. The log records
    what left the system. *)

From S2P Require Import Prelude.

Record OutboxEntry : Type := mkEntry {
  enID : Z;
  enChannel : string;
  enReadable : bool;
  enAttempts : Z;
  enNext : Z;
  enCreated : Z
}.

(** The settings of the service. *)
Record Config : Type := mkConfig {
  cfLimit : Z;
  cfAttempts : Z;
  cfBackoff : Z;
  cfMaxBackoff : Z;
  cfMaxAge : Z;
  cfHeldBackoff : Z;
  cfHeldMaxBackoff : Z
}.

Definition DefaultOutboxLimit : Z := 10000.
Definition DefaultOutboxAttempts : Z := 8.
Definition DefaultOutboxBackoff : Z := minute.
Definition DefaultOutboxMaxBackoff : Z := hour.
Definition DefaultOutboxMaxAge : Z := 24 * hour.
Definition outboxIdle : Z := minute.
Definition defaultHeldBackoff : Z := second.
Definition defaultHeldMaxBackoff : Z := 5 * minute.

Definition defaultConfig : Config :=
  mkConfig DefaultOutboxLimit DefaultOutboxAttempts DefaultOutboxBackoff DefaultOutboxMaxBackoff DefaultOutboxMaxAge
    defaultHeldBackoff defaultHeldMaxBackoff.

(** The state of an entry whose last write failed. *)
Record heldDelivery : Type := mkHeld { hdRemoveOnly : bool; hdAttempts : Z; hdNext : Z; hdBackoff : Z }.

(** What a delivery handed to a worker goes through: it is being sent; its outcome is
    known; it is written to the table. *)
Inductive Outcome : Type := OutSent | OutShutdown | OutPermanent | OutFailed.
Inductive stage : Type := Sending | Sent (o : Outcome) | Written.

Record delivery : Type := mkDelivery { dvID : Z; dvAttempts : Z; dvStage : stage }.

(** What the dispatcher does: it waits, has read the counters, or looks at the heads. *)
Inductive dispatcher : Type :=
| DIdle
| DSnapshot (settled : gmap string Z)
| DLooping (settled : gmap string Z) (heads : list OutboxEntry) (now : Z) (wait : Z).

(** Why an entry left the outbox, the sends that succeeded and the crashes. *)
Inductive event : Type :=
| LSent (channel : string) (id : Z)
| LGivenUp (id : Z)
| LExpired (id : Z)
| LDiscarded (id : Z)
| LDropped (id : Z)
| LCrash.

#[export] Instance event_eq_dec : EqDecision event.
Proof. solve_decision. Defined.

Record Outbox : Type := mkOutbox {
  oRows : gmap Z OutboxEntry;
  oNextID : Z;
  oFlight : gmap string delivery;
  oSettled : gmap string Z;
  oHeld : gmap Z heldDelivery;
  oDispatch : dispatcher;
  oLog : list event
}.

Definition emptyOutbox : Outbox := mkOutbox ∅ 1 ∅ ∅ ∅ DIdle [].

Definition withRows (r : gmap Z OutboxEntry) (s : Outbox) : Outbox :=
  mkOutbox r (oNextID s) (oFlight s) (oSettled s) (oHeld s) (oDispatch s) (oLog s).
Definition withHeld (h : gmap Z heldDelivery) (s : Outbox) : Outbox :=
  mkOutbox (oRows s) (oNextID s) (oFlight s) (oSettled s) h (oDispatch s) (oLog s).
Definition withFlight (f : gmap string delivery) (s : Outbox) : Outbox :=
  mkOutbox (oRows s) (oNextID s) f (oSettled s) (oHeld s) (oDispatch s) (oLog s).
Definition withDispatch (d : dispatcher) (s : Outbox) : Outbox :=
  mkOutbox (oRows s) (oNextID s) (oFlight s) (oSettled s) (oHeld s) d (oLog s).
Definition logged (l : list event) (s : Outbox) : Outbox :=
  mkOutbox (oRows s) (oNextID s) (oFlight s) (oSettled s) (oHeld s) (oDispatch s) (oLog s ++ l).

(** ** The table *)

(** The IDs in order. *)
Definition rowIDs (rows : gmap Z OutboxEntry) : list Z := stable_sort Z.ltb (elements (dom rows)).

(** The insert of one entry: the ID is never reused. *)
Definition insertEntry (e : OutboxEntry) (s : Outbox) : Outbox :=
  let id := oNextID s in
  mkOutbox (<[id := mkEntry id (enChannel e) (enReadable e) (enAttempts e) (stored (enNext e)) (stored (enCreated e))]> (oRows s)) (id + 1)
    (oFlight s) (oSettled s) (oHeld s) (oDispatch s) (oLog s).

Definition deleteRow (id : Z) (s : Outbox) : Outbox := withRows (delete id (oRows s)) s.

(** [EnqueueDeliveries]: the inserts and the trim are one transaction. *)
Definition EnqueueDeliveries (entries : list OutboxEntry) (limit : Z) (s : Outbox) : Outbox :=
  let s := foldl (λ s e, insertEntry e s) s entries in
  let n := Z.of_nat (size (oRows s)) in
  if (limit <=? 0) || (n <=? limit) then s
  else
    let dropped := take (Z.to_nat (n - limit)) (rowIDs (oRows s)) in
    logged (LDropped <$> dropped) (foldl (λ s id, deleteRow id s) s dropped).

(** The entry is the oldest of its channel. *)
Definition isHead (rows : gmap Z OutboxEntry) (e : OutboxEntry) : bool :=
  forallb (λ i : Z * OutboxEntry, negb (bool_decide (enChannel i.2 = enChannel e)) || (enID e <=? i.1)) (map_to_list rows).

Definition OutboxHeads (rows : gmap Z OutboxEntry) : list OutboxEntry :=
  filter (λ e, isHead rows e) (omap (λ id, rows !! id) (rowIDs rows)).

(** [RetryDelivery]; the row keeps its event. *)
Definition RetryDelivery (id attempts next : Z) (s : Outbox) : Outbox :=
  match oRows s !! id with
  | None => s
  | Some e => withRows (<[id := mkEntry (enID e) (enChannel e) (enReadable e) attempts (stored next) (enCreated e)]> (oRows s)) s
  end.

(** ** Writes that may fail *)

Section Outbox.
Context (cf : Config).

Definition outboxDelay (attempts : Z) : Z :=
  let fix go (fuel : nat) (d : Z) : Z :=
    match fuel with
    | O => d
    | S fuel => if d <? cfMaxBackoff cf then go fuel (i64 (d * 2)) else d
    end in
  Z.min (go (Z.to_nat (attempts - 1)) (cfBackoff cf)) (cfMaxBackoff cf).

(** [remove]: whether the delete succeeds, and the clock. The result is the wait. *)
Definition remove (ok : bool) (now id : Z) (s : Outbox) : Z * Outbox :=
  if ok then (0, withHeld (delete id (oHeld s)) (deleteRow id s))
  else
    let h := match oHeld s !! id with
             | Some h => if hdRemoveOnly h then h else mkHeld true 0 0 0
             | None => mkHeld true 0 0 0
             end in
    let backoff := if hdBackoff h =? 0 then cfHeldBackoff cf else Z.min (i64 (2 * hdBackoff h)) (cfHeldMaxBackoff cf) in
    (backoff, withHeld (<[id := mkHeld true (hdAttempts h) (now + backoff) backoff]> (oHeld s)) s).

Definition reschedule (ok : bool) (now id attempts : Z) (s : Outbox) : Outbox :=
  let next := now + outboxDelay attempts in
  if ok then withHeld (delete id (oHeld s)) (RetryDelivery id attempts next s)
  else withHeld (<[id := mkHeld false attempts next 0]> (oHeld s)) s.

(** ** The dispatcher *)

(** What the repository answers for a channel; [ChStopped]: the context ended. *)
Inductive Channel : Type := ChGone | ChError | ChStopped | ChDisabled | ChReady.

Definition counter (settled : gmap string Z) (channel : string) : Z := default 0 (settled !! channel).

Definition idle (channel : string) (seen : Z) (s : Outbox) : bool :=
  negb (bool_decide (is_Some (oFlight s !! channel))) && (counter (oSettled s) channel =? seen).

(** [claim]: [None] when a delivery is in flight or settled since. *)
Definition claim (channel : string) (seen : Z) (d : delivery) (s : Outbox) : option Outbox :=
  if idle channel seen s then Some (withFlight (<[channel := d]> (oFlight s)) s) else None.

Definition unclaim (channel : string) (s : Outbox) : Outbox :=
  mkOutbox (oRows s) (oNextID s) (delete channel (oFlight s))
    (<[channel := u64 (counter (oSettled s) channel + 1)]> (oSettled s)) (oHeld s) (oDispatch s) (oLog s).

(** [unreadableChannel]. *)
Definition unreadableChannel (ok : bool) (now : Z) (h : OutboxEntry) (s : Outbox) : Z * Outbox :=
  let attempts := enAttempts h + 1 in
  if cfAttempts cf <=? attempts then remove ok now (enID h) (logged [LGivenUp (enID h)] s)
  else (outboxDelay attempts, reschedule ok now (enID h) attempts s).

(** One turn of [dispatchDue] for head [h]: the wait ([None]: the loop returns at once)
    and the state. [clock] is the time of the writes; [queued] tells that the queue took the
    delivery before the context ended. *)
Definition headTurn (ch : Channel) (ok queued : bool) (clock : Z) (seen now : Z) (h : OutboxEntry) (s : Outbox) : option (option Z) * Outbox :=
  if negb (idle (enChannel h) seen s) then (Some None, s)
  else
    let held := oHeld s !! enID h in
    let early := match held with Some d => now <? hdNext d | None => false end in
    if early then (Some ((λ d, time_sub (hdNext d) now) <$> held), s)
    else if match held with Some d => hdRemoveOnly d | None => false end then
      let '(w, s) := remove ok clock (enID h) s in (Some (Some w), s)
    else
      let h := match held with
               | Some d => mkEntry (enID h) (enChannel h) (enReadable h) (hdAttempts d) (hdNext d) (enCreated h)
               | None => h
               end in
      if negb (IsZero (enCreated h)) && (cfMaxAge cf <? time_sub now (enCreated h)) then
        let '(w, s) := remove ok clock (enID h) (logged [LExpired (enID h)] s) in (Some (Some w), s)
      else if negb (enReadable h) then
        let '(w, s) := remove ok clock (enID h) (logged [LDiscarded (enID h)] s) in (Some (Some w), s)
      else if now <? enNext h then (Some (Some (time_sub (enNext h) now)), s)
      else match ch with
      | ChGone | ChDisabled => let '(w, s) := remove ok clock (enID h) (logged [LDiscarded (enID h)] s) in (Some (Some w), s)
      | ChStopped => (None, s)
      | ChError => let '(w, s) := unreadableChannel ok clock h s in (Some (Some w), s)
      | ChReady =>
          match claim (enChannel h) seen (mkDelivery (enID h) (enAttempts h) Sending) s with
          | None => (Some None, s)
          | Some s => if queued then (Some None, s) else (None, unclaim (enChannel h) s)
          end
      end.

(** The steps of [dispatchDue]. *)
Definition dispatchSnapshot (s : Outbox) : Outbox :=
  match oDispatch s with DIdle => withDispatch (DSnapshot (oSettled s)) s | _ => s end.

Definition dispatchRead (ok : bool) (now : Z) (s : Outbox) : Outbox :=
  match oDispatch s with
  | DSnapshot settled => withDispatch (if ok then DLooping settled (OutboxHeads (oRows s)) now outboxIdle else DIdle) s
  | _ => s
  end.

Definition dispatchHead (ch : Channel) (ok queued : bool) (clock : Z) (s : Outbox) : Outbox :=
  match oDispatch s with
  | DLooping settled (h :: heads) now wait =>
      let '(w, s) := headTurn ch ok queued clock (counter settled (enChannel h)) now h s in
      match w with
      | None => withDispatch DIdle s
      | Some w => withDispatch (DLooping settled heads now (match w with Some w => Z.min wait w | None => wait end)) s
      end
  | DLooping _ [] _ _ => withDispatch DIdle s
  | _ => s
  end.

(** ** The workers *)

(** The send of the delivery of [channel] ends. *)
Definition sendDone (channel : string) (o : Outcome) (s : Outbox) : Outbox :=
  match oFlight s !! channel with
  | Some (mkDelivery id attempts Sending) =>
      let s := withFlight (<[channel := mkDelivery id attempts (Sent o)]> (oFlight s)) s in
      match o with OutSent => logged [LSent channel id] s | _ => s end
  | _ => s
  end.

(** The writes of [settle]. *)
Definition settleWrite (channel : string) (ok : bool) (clock : Z) (s : Outbox) : Outbox :=
  match oFlight s !! channel with
  | Some (mkDelivery id attempts (Sent o)) =>
      let s := withFlight (<[channel := mkDelivery id attempts Written]> (oFlight s)) s in
      match o with
      | OutSent => (remove ok clock id s).2
      | OutShutdown => s
      | OutPermanent => (remove ok clock id (logged [LGivenUp id] s)).2
      | OutFailed =>
          if cfAttempts cf <=? attempts + 1 then (remove ok clock id (logged [LGivenUp id] s)).2
          else reschedule ok clock id (attempts + 1) s
      end
  | _ => s
  end.

(** The end of [settle]: its outcome is written, the channel leaves flight. *)
Definition settleDone (channel : string) (s : Outbox) : Outbox :=
  match oFlight s !! channel with
  | Some (mkDelivery _ _ Written) => unclaim channel s
  | _ => s
  end.

(** The process dies and starts again: only the table is left. *)
Definition crash (s : Outbox) : Outbox := mkOutbox (oRows s) (oNextID s) ∅ ∅ ∅ DIdle (oLog s ++ [LCrash]).

Inductive op : Type :=
| OEnqueue (entries : list OutboxEntry)
| OSnapshot
| ORead (ok : bool) (now : Z)
| OHead (ch : Channel) (ok queued : bool) (clock : Z)
| OSend (channel : string) (o : Outcome)
| OWrite (channel : string) (ok : bool) (clock : Z)
| ODone (channel : string)
| OCrash.

Definition exec (s : Outbox) (o : op) : Outbox :=
  match o with
  | OEnqueue entries => EnqueueDeliveries entries (cfLimit cf) s
  | OSnapshot => dispatchSnapshot s
  | ORead ok now => dispatchRead ok now s
  | OHead ch ok queued clock => dispatchHead ch ok queued clock s
  | OSend channel o => sendDone channel o s
  | OWrite channel ok clock => settleWrite channel ok clock s
  | ODone channel => settleDone channel s
  | OCrash => crash s
  end.

Definition run (ops : list op) : Outbox := foldl exec emptyOutbox ops.
End Outbox.
