(* ===== verification/OutboxSafety.v ===== *)
(** * What the outbox guarantees

    The invariant of the outbox through every interleaving of enqueues, reads of the
    dispatcher, sends, writes and crashes: the order of the deliveries of a channel, at
    most one delivery of an entry between two crashes, and no entry lost. *)

From S2P Require Import Prelude Outbox.

(** ** The sends of a log *)

Definition isSend (e : event) : bool := match e with LSent _ _ | LCrash => true | _ => false end.

Definition core (l : list event) : list event := filter (λ e, isSend e) l.

(** The events since the last crash. *)
Definition recent (l : list event) : list event := foldl (λ acc e, if bool_decide (e = LCrash) then [] else acc ++ [e]) [] l.

Lemma recent_snoc l e : recent (l ++ [e]) = if bool_decide (e = LCrash) then [] else recent l ++ [e].
Proof. unfold recent. by rewrite foldl_app. Qed.

Lemma elem_of_recent l e : e ∈ recent l -> e ∈ l.
Proof.
  induction l as [|x l IH] using rev_ind; [done|]. rewrite recent_snoc. destruct (bool_decide _); set_solver.
Qed.

(** An event without a crash behind it is recent. *)
Lemma recent_after l1 e l2 : e <> LCrash -> LCrash ∉ l2 -> e ∈ recent (l1 ++ e :: l2).
Proof.
  intros He. induction l2 as [|x l2 IH] using rev_ind; intros Hl.
  - rewrite recent_snoc, bool_decide_false by done. set_solver.
  - rewrite app_comm_cons, app_assoc, recent_snoc, bool_decide_false by set_solver. apply elem_of_app. left. apply IH. set_solver.
Qed.

Definition Ordered (l : list event) : Prop :=
  ∀ l1 l2 l3 c i j, l = l1 ++ LSent c i :: l2 ++ LSent c j :: l3 -> i < j \/ (i = j /\ LCrash ∈ l2).

Lemma snoc_split {A} (l : list A) x l1 a l2 : l ++ [x] = l1 ++ a :: l2 -> (l2 = [] /\ l = l1 /\ x = a) \/ ∃ l2', l2 = l2' ++ [x] /\ l = l1 ++ a :: l2'.
Proof.
  intros H. destruct l2 as [|y l2 _] using rev_ind.
  - left. apply app_inj_tail in H as [-> ->]. done.
  - right. rewrite app_comm_cons, app_assoc in H. apply app_inj_tail in H as [-> ->]. by exists l2.
Qed.

Lemma Ordered_sent l c j :
  Ordered l -> (∀ i, LSent c i ∈ l -> i <= j) -> LSent c j ∉ recent l -> Ordered (l ++ [LSent c j]).
Proof.
  intros Ho Hle Hr l1 l2 l3 c' i i' H. rewrite app_comm_cons, app_assoc in H.
  apply snoc_split in H as [(-> & E & [= <- <-])|(l3' & -> & E)].
  2: { apply (Ho l1 l2 l3' c' i i'). by rewrite E, <- app_assoc. }
  assert (i <= j) by (apply Hle; rewrite E; set_solver). destruct (decide (i = j)) as [->|Hne]; [|left; lia].
  right. split; [done|]. destruct (decide (LCrash ∈ l2)) as [|Hn]; [done|]. destruct Hr. rewrite E. by apply recent_after.
Qed.

Lemma Ordered_crash l : Ordered l -> Ordered (l ++ [LCrash]).
Proof.
  intros Ho l1 l2 l3 c i j H. rewrite app_comm_cons, app_assoc in H.
  apply snoc_split in H as [(_ & _ & [=])|(l3' & -> & E)]. apply (Ho l1 l2 l3' c i j). by rewrite E, <- app_assoc.
Qed.

(** ** The invariant *)

(** What the dispatcher works on: the counters it read and the heads left. *)
Definition dispData (d : dispatcher) : option (gmap string Z * list OutboxEntry) :=
  match d with
  | DIdle => None
  | DSnapshot m => Some (m, [])
  | DLooping m hs _ _ => Some (m, hs)
  end.

Definition removing (held : gmap Z heldDelivery) (id : Z) : Prop := ∃ h, held !! id = Some h /\ hdRemoveOnly h = true.

(** The send of a delivery has not succeeded so far. *)
Definition unsent (st : stage) : Prop := match st with Sending => True | Sent o => o <> OutSent | Written => False end.

(** [i] is not behind the rows of channel [c]. *)
Definition first (rows : gmap Z OutboxEntry) (c : string) (i : Z) : Prop :=
  ∀ id e, rows !! id = Some e -> enChannel e = c -> i <= id.

(** [chan] is the channel each ID was queued for. *)
Record Inv (chan : Z -> string) (n : Z) (D : option (gmap string Z * list OutboxEntry)) (s : Outbox) : Prop := {
  iv_row id e : oRows s !! id = Some e -> enID e = id /\ enChannel e = chan id /\ id < oNextID s;
  iv_flight c d : oFlight s !! c = Some d -> chan (dvID d) = c /\ dvID d < oNextID s /\ first (oRows s) c (dvID d);
  iv_sent c i : LSent c i ∈ core (oLog s) -> i < oNextID s;
  iv_behind id e j : oRows s !! id = Some e -> LSent (enChannel e) j ∈ core (oLog s) -> j <= id;
  iv_once id e : oRows s !! id = Some e -> LSent (enChannel e) id ∈ recent (core (oLog s)) ->
    removing (oHeld s) id \/ ∃ d, oFlight s !! enChannel e = Some d /\ dvID d = id /\ dvStage d = Sent OutSent;
  iv_flight_log c d j : oFlight s !! c = Some d -> LSent c j ∈ core (oLog s) -> j <= dvID d;
  iv_unsent c d : oFlight s !! c = Some d -> unsent (dvStage d) -> LSent c (dvID d) ∉ recent (core (oLog s));
  iv_heads m hs : D = Some (m, hs) -> NoDup (enID <$> hs);
  iv_head m hs h : D = Some (m, hs) -> h ∈ hs -> chan (enID h) = enChannel h /\ enID h < oNextID s;
  iv_current m hs h : D = Some (m, hs) -> h ∈ hs -> oFlight s !! enChannel h = None ->
    counter (oSettled s) (enChannel h) = counter m (enChannel h) ->
    first (oRows s) (enChannel h) (enID h) /\ (∀ j, LSent (enChannel h) j ∈ core (oLog s) -> j <= enID h) /\
    (LSent (enChannel h) (enID h) ∈ recent (core (oLog s)) -> removing (oHeld s) (enID h));
  iv_counts c : 0 <= counter (oSettled s) c <= n;
  iv_seen m hs c : D = Some (m, hs) -> 0 <= counter m c <= counter (oSettled s) c;
  iv_ordered : Ordered (core (oLog s))
}.

Lemma core_app l l' : core (l ++ l') = core l ++ core l'.
Proof. apply filter_app. Qed.

(** An entry of the log that is no send. *)
Lemma Inv_logged chan n D s l : core l = [] -> Inv chan n D s -> Inv chan n D (logged l s).
Proof.
  intros Hl H. assert (core (oLog (logged l s)) = core (oLog s)) as E by (cbn; by rewrite core_app, Hl, app_nil_r).
  destruct H. by split; rewrite ?E.
Qed.

Lemma Inv_mono chan n n' D s : n <= n' -> Inv chan n D s -> Inv chan n' D s.
Proof. intros Hn H. destruct H. split; try done. intros c. specialize (iv_counts0 c). lia. Qed.

Lemma Inv_nodata chan n D s : Inv chan n D s -> Inv chan n None s.
Proof. intros H. destruct H. by split. Qed.

Lemma Inv_dispatch chan n D d s : Inv chan n D s -> Inv chan n D (withDispatch d s).
Proof. intros H. destruct H. by split. Qed.

(** ** Writes *)

(** Removing an entry none of the heads left is about, or whose channel is in flight. *)
Lemma Inv_remove chan n D cf ok now id s :
  (∀ m hs h, D = Some (m, hs) -> h ∈ hs -> enID h = id -> oFlight s !! enChannel h <> None) ->
  Inv chan n D s -> Inv chan n D (remove cf ok now id s).2.
Proof.
  intros HD H. unfold remove. destruct ok; cbn [snd].
  - destruct H. split; cbn; try done.
    + intros i e [_ Hi]%lookup_delete_Some. eauto.
    + intros c d Hd. destruct (iv_flight0 c d Hd) as (? & ? & Hf). split_and!; try done. intros i e [_ Hi]%lookup_delete_Some. eauto.
    + intros i e j [_ Hi]%lookup_delete_Some. eauto.
    + intros i e [Hne Hi]%lookup_delete_Some Hr. destruct (iv_once0 i e Hi Hr) as [(h & Hh & ?)|]; [|by right].
      left. exists h. by rewrite lookup_delete_ne.
    + intros m hs h ED Hh Hf Hc. destruct (iv_current0 m hs h ED Hh Hf Hc) as (F & L & R). split_and!; [|done|].
      * intros i e [_ Hi]%lookup_delete_Some. eauto.
      * intros Hr. destruct (R Hr) as (x & Hx & ?). exists x. rewrite lookup_delete_ne; [done|]. intros ->. by destruct (HD m hs h ED Hh eq_refl).
  - set (held' := <[id := _]> (oHeld s)). assert (∀ i, removing (oHeld s) i -> removing held' i) as Hm.
    { intros i (h & Hh & Hr). destruct (decide (i = id)) as [->|Hne].
      - eexists. unfold held'. by rewrite lookup_insert_eq.
      - exists h. unfold held'. by rewrite lookup_insert_ne. }
    destruct H. split; cbn; try done.
    + intros i e Hi Hr. destruct (iv_once0 i e Hi Hr); [left; by apply Hm|by right].
    + intros m hs h ED Hh Hf Hc. destruct (iv_current0 m hs h ED Hh Hf Hc) as (F & L & R). split_and!; [done|done|]. intros Hr. by apply Hm, R.
Qed.

(** Rescheduling an entry that was not sent. *)
Lemma Inv_reschedule chan n D cf ok now id attempts s :
  LSent (chan id) id ∉ recent (core (oLog s)) -> Inv chan n D s -> Inv chan n D (reschedule cf ok now id attempts s).
Proof.
  intros Hu H.
  assert (∀ i, LSent (chan i) i ∈ recent (core (oLog s)) -> i <> id) as Hne by (by intros i Hi ->).
  assert (∀ held', (∀ i, i <> id -> held' !! i = oHeld s !! i) -> Inv chan n D (withHeld held' s)) as Hheld.
  { intros held' Hh. assert (∀ i, i <> id -> removing (oHeld s) i -> removing held' i) as Hm.
    { intros i Hi (h & Hx & Hr). exists h. by rewrite Hh. }
    destruct H. split; cbn; try done.
    - intros i e Hi Hr. destruct (iv_once0 i e Hi Hr); [left; apply Hm; [|done]|by right].
      apply Hne. by destruct (iv_row0 i e Hi) as (_ & <- & _).
    - intros m hs h ED Hx Hf Hc. destruct (iv_current0 m hs h ED Hx Hf Hc) as (F & L & R). split_and!; [done|done|]. intros Hr. apply Hm, R; [|done].
      apply Hne. by destruct (iv_head0 m hs h ED Hx) as (-> & _). }
  unfold reschedule. destruct ok.
  2: { apply Hheld. intros i Hi. by rewrite lookup_insert_ne. }
  unfold RetryDelivery. destruct (oRows s !! id) as [e|] eqn:Er.
  2: { apply Hheld. intros i Hi. by rewrite lookup_delete_ne. }
  specialize (Hheld (delete id (oHeld s)) (λ i Hi, lookup_delete_ne _ _ _ (not_eq_sym Hi))).
  assert (∀ i x, <[id := mkEntry (enID e) (enChannel e) (enReadable e) attempts (stored (now + outboxDelay cf attempts)) (enCreated e)]> (oRows s) !! i = Some x ->
    ∃ y, oRows s !! i = Some y /\ enID y = enID x /\ enChannel y = enChannel x) as Hrow.
  { intros i x [[<- <-]|[_ Hi]]%lookup_insert_Some; eauto. }
  destruct Hheld. split; cbn in *; try done.
  - intros i x (y & Hy & <- & <-)%Hrow. eauto.
  - intros c d Hd. destruct (iv_flight0 c d Hd) as (? & ? & Hf). split_and!; try done. intros i x (y & Hy & _ & <-)%Hrow. eauto.
  - intros i x j (y & Hy & _ & <-)%Hrow. eauto.
  - intros i x (y & Hy & _ & <-)%Hrow. eauto.
  - intros m hs h ED Hh Hf Hc. destruct (iv_current0 m hs h ED Hh Hf Hc) as (F & L & R). split_and!; [|done|done].
    intros i x (y & Hy & _ & <-)%Hrow. eauto.
Qed.

(** ** The queue *)

Definition queuedFor (id : Z) (c : string) (chan : Z -> string) : Z -> string := λ i, if decide (i = id) then c else chan i.

Lemma queuedFor_ne id c chan i : i <> id -> queuedFor id c chan i = chan i.
Proof. intros H. unfold queuedFor. by rewrite decide_False. Qed.

Lemma Inv_insert chan n D e s :
  Inv chan n D s -> Inv (queuedFor (oNextID s) (enChannel e) chan) n D (insertEntry e s).
Proof.
  intros H. set (chan' := queuedFor _ _ _).
  assert (∀ i, i < oNextID s -> chan' i = chan i) as Hc by (intros i Hi; apply queuedFor_ne; lia).
  assert (chan' (oNextID s) = enChannel e) as Hn by (unfold chan', queuedFor; by rewrite decide_True).
  destruct H. split; cbn -[stored]; try done.
  - intros i x [[<- <-]|[Hne Hi]]%lookup_insert_Some; cbn; [split_and!; [done|done|lia]|].
    destruct (iv_row0 i x Hi) as (? & ? & ?). rewrite Hc by lia. split_and!; [done|done|lia].
  - intros c d Hd. destruct (iv_flight0 c d Hd) as (? & ? & Hf). rewrite Hc by done. split_and!; [done|lia|].
    intros i x [[<- <-]|[Hne Hi]]%lookup_insert_Some; [intros; lia|eauto].
  - intros c i Hi. specialize (iv_sent0 c i Hi). lia.
  - intros i x j [[<- <-]|[Hne Hi]]%lookup_insert_Some Hj; [|eauto]. specialize (iv_sent0 _ j Hj). lia.
  - intros i x [[<- <-]|[Hne Hi]]%lookup_insert_Some Hr; [|eauto].
    specialize (iv_sent0 _ _ (elem_of_recent _ _ Hr)). lia.
  - intros m hs h ED Hh. destruct (iv_head0 m hs h ED Hh) as [? ?]. rewrite Hc by done. split; [done|lia].
  - intros m hs h ED Hh Hf Hs. destruct (iv_current0 m hs h ED Hh Hf Hs) as (F & L & R). split_and!; [|done|done].
    intros i x [[<- <-]|[Hne Hi]]%lookup_insert_Some; [|eauto]. destruct (iv_head0 m hs h ED Hh). intros; lia.
Qed.

Lemma Inv_inserts chan n D es s : Inv chan n D s -> ∃ chan', Inv chan' n D (foldl (λ s e, insertEntry e s) s es).
Proof. revert chan s. induction es as [|e es IH]; cbn; intros chan s H; [eauto|]. by eapply IH, Inv_insert. Qed.

Lemma Inv_deleteRow chan n D id s : Inv chan n D s -> Inv chan n D (deleteRow id s).
Proof.
  intros H. destruct H. split; cbn; try done.
  - intros i e [_ Hi]%lookup_delete_Some. eauto.
  - intros c d Hd. destruct (iv_flight0 c d Hd) as (? & ? & Hf). split_and!; try done. intros i e [_ Hi]%lookup_delete_Some. eauto.
  - intros i e j [_ Hi]%lookup_delete_Some. eauto.
  - intros i e [Hne Hi]%lookup_delete_Some Hr. eauto.
  - intros m hs h ED Hh Hf Hc. destruct (iv_current0 m hs h ED Hh Hf Hc) as (F & L & R). split_and!; [|done|done].
    intros i e [_ Hi]%lookup_delete_Some. eauto.
Qed.

Lemma Inv_deletes chan n D ids s : Inv chan n D s -> Inv chan n D (foldl (λ s id, deleteRow id s) s ids).
Proof. revert s. induction ids as [|id ids IH]; cbn; intros s H; [done|]. by apply IH, Inv_deleteRow. Qed.

Lemma core_dropped ids : core (LDropped <$> ids) = [].
Proof. by induction ids. Qed.

Lemma Inv_enqueue chan n D es limit s : Inv chan n D s -> ∃ chan', Inv chan' n D (EnqueueDeliveries es limit s).
Proof.
  intros H. destruct (Inv_inserts _ _ _ es s H) as [chan' H']. exists chan'. unfold EnqueueDeliveries.
  case_match; [done|]. apply Inv_logged; [apply core_dropped|]. by apply Inv_deletes.
Qed.

(** ** The dispatcher *)

Lemma elem_of_outboxIDs rows id : id ∈ rowIDs rows <-> is_Some (rows !! id).
Proof. unfold rowIDs. by rewrite stable_sort_Permutation, elem_of_elements, elem_of_dom. Qed.

Lemma elem_of_OutboxHeads rows h :
  h ∈ OutboxHeads rows -> ∃ id, rows !! id = Some h /\ isHead rows h = true.
Proof.
  unfold OutboxHeads. intros [Hh (id & _ & Hid)%list_elem_of_omap]%list_elem_of_filter. exists id. split; [done|]. by apply Is_true_true.
Qed.

Lemma isHead_first rows h : isHead rows h = true -> first rows (enChannel h) (enID h).
Proof.
  intros H id e He Hc. unfold isHead in H. rewrite forallb_forall in H.
  specialize (H (id, e)). rewrite <- list_elem_of_In, elem_of_map_to_list in H. specialize (H He). cbn in H.
  rewrite bool_decide_true in H by done. cbn in H. lia.
Qed.

Lemma heads_sublist (rows : gmap Z OutboxEntry) (P : OutboxEntry -> Prop) `{∀ e, Decision (P e)} ids :
  (∀ id e, rows !! id = Some e -> enID e = id) ->
  (enID <$> filter P (omap (λ id, rows !! id) ids)) `sublist_of` ids.
Proof.
  intros Hr. induction ids as [|id ids IH]; [done|]. cbn. destruct (rows !! id) as [e|] eqn:E; [|by apply sublist_cons].
  rewrite filter_cons. destruct (decide (P e)); [|by apply sublist_cons]. rewrite fmap_cons, (Hr _ _ E). by apply sublist_skip.
Qed.

Lemma OutboxHeads_NoDup (rows : gmap Z OutboxEntry) : (∀ id e, rows !! id = Some e -> enID e = id) -> NoDup (enID <$> OutboxHeads rows).
Proof.
  intros Hr. eapply sublist_NoDup; [|by apply heads_sublist]. unfold rowIDs. rewrite stable_sort_Permutation. apply NoDup_elements.
Qed.

Lemma Inv_snapshot chan n s : Inv chan n None s -> Inv chan n (Some (oSettled s, [])) s.
Proof.
  intros H. destruct H. split; try done.
  - intros m hs [= <- <-]. constructor.
  - intros m hs h [= <- <-]. set_solver.
  - intros m hs h [= <- <-]. set_solver.
  - intros m hs c [= <- <-]. specialize (iv_counts0 c). lia.
Qed.

Lemma Inv_read chan n m hs s : Inv chan n (Some (m, hs)) s -> Inv chan n (Some (m, OutboxHeads (oRows s))) s.
Proof.
  intros H. destruct H. assert (∀ h, h ∈ OutboxHeads (oRows s) -> oRows s !! enID h = Some h /\ isHead (oRows s) h = true) as Hrow.
  { intros h (id & Hid & ?)%elem_of_OutboxHeads. destruct (iv_row0 id h Hid) as (-> & _). done. }
  split; try done.
  - intros m' hs' [= <- <-]. apply OutboxHeads_NoDup. intros id e He. by destruct (iv_row0 id e He).
  - intros m' hs' h [= <- <-] [Hh _]%Hrow. by destruct (iv_row0 _ _ Hh) as (_ & ? & ?).
  - intros m' hs' h [= <- <-] [Hh Hf]%Hrow Hn _. split_and!; [by apply isHead_first|intros j; by apply iv_behind0|].
    intros Hr. destruct (iv_once0 _ _ Hh Hr) as [|(d & Hd & _)]; congruence.
  - intros m' hs' c [= <- <-]. by eapply iv_seen0.
Qed.

(** A head that is left out of the loop. *)
Lemma Inv_head_tail chan n m h hs s : Inv chan n (Some (m, h :: hs)) s -> Inv chan n (Some (m, hs)) s.
Proof.
  intros H. destruct H. split; try done.
  - intros m' hs' [= <- <-]. specialize (iv_heads0 m _ eq_refl). by apply NoDup_cons in iv_heads0 as [_ ?].
  - intros m' hs' h' [= <- <-] Hh. eapply iv_head0; [done|]. set_solver.
  - intros m' hs' h' [= <- <-] Hh. eapply iv_current0; [done|]. set_solver.
  - intros m' hs' c [= <- <-]. by eapply iv_seen0.
Qed.

(** What is known of the head the dispatcher looks at, when its channel is idle. *)
Record Current (chan : Z -> string) (m : gmap string Z) (h : OutboxEntry) (hs : list OutboxEntry) (s : Outbox) : Prop := {
  cu_chan : chan (enID h) = enChannel h;
  cu_next : enID h < oNextID s;
  cu_flight : oFlight s !! enChannel h = None;
  cu_other h' : h' ∈ hs -> enID h' <> enID h;
  cu_first : first (oRows s) (enChannel h) (enID h);
  cu_log j : LSent (enChannel h) j ∈ core (oLog s) -> j <= enID h;
  cu_once : LSent (enChannel h) (enID h) ∈ recent (core (oLog s)) -> removing (oHeld s) (enID h)
}.

Lemma Inv_current chan n m h hs s :
  Inv chan n (Some (m, h :: hs)) s -> idle (enChannel h) (counter m (enChannel h)) s = true -> Current chan m h hs s.
Proof.
  intros H Hi. unfold idle in Hi. apply andb_true_iff in Hi as [Hf Hs]. apply negb_true_iff, bool_decide_eq_false in Hf.
  apply eq_None_not_Some in Hf. assert (h ∈ h :: hs) as Hh by set_solver. destruct H.
  destruct (iv_head0 m _ h eq_refl Hh). destruct (iv_current0 m _ h eq_refl Hh Hf) as (? & ? & ?); [lia|].
  split; try done. intros h' Hh' E. specialize (iv_heads0 m _ eq_refl). apply NoDup_cons in iv_heads0 as [Hn _]. apply Hn.
  rewrite <- E. apply list_elem_of_fmap. eauto.
Qed.

(** The head is put in flight. *)
Lemma Inv_claim chan n m h hs a s :
  Current chan m h hs s -> ~ removing (oHeld s) (enID h) -> Inv chan n (Some (m, hs)) s ->
  Inv chan n (Some (m, hs)) (withFlight (<[enChannel h := mkDelivery (enID h) a Sending]> (oFlight s)) s).
Proof.
  intros C Hr H. destruct C, H. split; cbn; try done.
  - intros c d [[<- <-]|[_ Hd]]%lookup_insert_Some; [done|eauto].
  - intros i e Hi Hl. destruct (iv_once0 i e Hi Hl) as [|(d & Hd & ?)]; [by left|right].
    exists d. rewrite lookup_insert_ne; [done|]. intros E. congruence.
  - intros c d j [[<- <-]|[_ Hd]]%lookup_insert_Some; [cbn; eauto|eauto].
  - intros c d [[<- <-]|[_ Hd]]%lookup_insert_Some; [cbn; eauto|eauto].
  - intros m' hs' h' ED Hh [Hf _]%lookup_insert_None. eauto.
Qed.

Lemma counter_insert c x m c' : counter (<[c := x]> m) c' = if decide (c = c') then x else counter m c'.
Proof. unfold counter. destruct (decide (c = c')) as [->|]; [by rewrite lookup_insert_eq|by rewrite lookup_insert_ne]. Qed.

(** A channel leaves flight. *)
Lemma Inv_unclaimed chan n D c s :
  n + 1 < 2 ^ 64 -> (∀ d, oFlight s !! c = Some d -> dvStage d <> Sent OutSent) -> Inv chan n D s -> Inv chan (n + 1) D (unclaim c s).
Proof.
  intros Hn Hst H. destruct H. unfold unclaim. pose proof (iv_counts0 c). rewrite u64_small by lia.
  split; cbn; try done.
  - intros c' d [_ Hd]%lookup_delete_Some. eauto.
  - intros i e Hi Hl. destruct (iv_once0 i e Hi Hl) as [|(d & Hd & Hx & Hs)]; [by left|right].
    exists d. rewrite lookup_delete_ne; [done|]. intros ->. by apply (Hst d).
  - intros c' d j [_ Hd]%lookup_delete_Some. eauto.
  - intros c' d [_ Hd]%lookup_delete_Some. eauto.
  - intros m hs h ED Hh. rewrite counter_insert. destruct (decide (c = enChannel h)) as [->|Hne].
    + pose proof (iv_seen0 m hs (enChannel h) ED). lia.
    + rewrite lookup_delete_ne by done. eauto.
  - intros c'. rewrite counter_insert. pose proof (iv_counts0 c'). case_decide; lia.
  - intros m hs c' ED. rewrite counter_insert. pose proof (iv_seen0 m hs c' ED). case_decide; subst; lia.
Qed.

Lemma Inv_remove_head chan n m h hs cf ok now l s :
  core l = [] -> Current chan m h hs s -> Inv chan n (Some (m, hs)) s -> Inv chan n (Some (m, hs)) (remove cf ok now (enID h) (logged l s)).2.
Proof.
  intros Hl C H. apply Inv_remove; [|by apply Inv_logged]. intros m' hs' h' [= <- <-] Hh E. by destruct (cu_other _ _ _ _ _ C h' Hh).
Qed.

Lemma logged_nil s : logged [] s = s.
Proof. destruct s. unfold logged. cbn. by rewrite app_nil_r. Qed.

Lemma Inv_unreadable chan n m h hs h' cf ok now s :
  enID h' = enID h -> Current chan m h hs s -> LSent (chan (enID h)) (enID h) ∉ recent (core (oLog s)) -> Inv chan n (Some (m, hs)) s ->
  Inv chan n (Some (m, hs)) (unreadableChannel cf ok now h' s).2.
Proof.
  intros E C Hu H. unfold unreadableChannel. rewrite E. destruct (_ <=? _); [by apply Inv_remove_head|]. by apply Inv_reschedule.
Qed.

Lemma Inv_headTurn chan n m h hs cf ch ok queued clock now s :
  n + 1 < 2 ^ 64 -> Inv chan n (Some (m, h :: hs)) s ->
  Inv chan (n + 1) (Some (m, hs)) (headTurn cf ch ok queued clock (counter m (enChannel h)) now h s).2.
Proof.
  intros Hn H0. pose proof (Inv_head_tail _ _ _ _ _ _ H0) as H.
  assert (∀ s', Inv chan n (Some (m, hs)) s' -> Inv chan (n + 1) (Some (m, hs)) s') as Hup by (intros s'; apply Inv_mono; lia).
  unfold headTurn. destruct (idle _ _ _) eqn:Ei; cbn [negb]; [|by apply Hup].
  apply (Inv_current _ _ _ _ _ _ H0) in Ei as C. clear H0.
  pose proof (λ l, Inv_remove_head chan n m h hs cf ok clock l s) as Hrm.
  destruct (oHeld s !! enID h) as [d|] eqn:Eh; cycle 1.
  1: assert (~ removing (oHeld s) (enID h)) as Hnr by (intros (d & Hd & _); congruence).
  2: case_match; [by apply Hup|]; destruct (hdRemoveOnly d) eqn:Ero;
     [specialize (Hrm [] eq_refl C H); rewrite logged_nil in Hrm; destruct (remove _ _ _ _ _); by apply Hup|];
     assert (~ removing (oHeld s) (enID h)) as Hnr by (intros (d' & Hd & ?); congruence).
  all: assert (LSent (chan (enID h)) (enID h) ∉ recent (core (oLog s))) as Hu
         by (rewrite (cu_chan _ _ _ _ _ C); intros Hl; by apply Hnr, (cu_once _ _ _ _ _ C)).
  all: cbn [enID enChannel enReadable enAttempts enNext enCreated].
  all: case_match; [specialize (Hrm [LExpired (enID h)] eq_refl C H); destruct (remove _ _ _ _ _); by apply Hup|].
  all: case_match; [specialize (Hrm [LDiscarded (enID h)] eq_refl C H); destruct (remove _ _ _ _ _); by apply Hup|].
  all: case_match; [by apply Hup|].
  all: destruct ch; [| | by apply Hup | |].
  all: try (specialize (Hrm [LDiscarded (enID h)] eq_refl C H); destruct (remove _ _ _ _ _); by apply Hup).
  all: try (match goal with |- context [unreadableChannel _ _ _ ?h' _] =>
              pose proof (Inv_unreadable chan n m h hs h' cf ok clock s eq_refl C Hu H) as Hun end;
            destruct (unreadableChannel _ _ _ _ _); by apply Hup).
  all: unfold claim; cbn [enID enChannel enAttempts]; rewrite Ei.
  all: assert (∀ a, Inv chan n (Some (m, hs)) (withFlight (<[enChannel h := mkDelivery (enID h) a Sending]> (oFlight s)) s)) as Hcl
         by (intros a; by apply (Inv_claim chan n m h hs)).
  all: destruct queued; cbn [snd]; [by apply Hup|].
  all: apply Inv_unclaimed; [done| |done]; cbn; intros x; rewrite lookup_insert_eq; by intros [= <-].
Qed.

(** ** The workers *)

(** A delivery in flight reaches the next stage. *)
Lemma Inv_stage chan n D c id a st st' s :
  oFlight s !! c = Some (mkDelivery id a st) -> (unsent st' -> unsent st) ->
  (st = Sent OutSent -> removing (oHeld s) id \/ oRows s !! id = None) -> Inv chan n D s ->
  Inv chan n D (withFlight (<[c := mkDelivery id a st']> (oFlight s)) s).
Proof.
  intros Hf Hu Hs H. destruct H. split; cbn; try done.
  - intros c' d [[<- <-]|[_ Hd]]%lookup_insert_Some; [by apply (iv_flight0 _ _ Hf)|eauto].
  - intros i e Hi Hl. destruct (iv_once0 i e Hi Hl) as [|(d & Hd & Ed & Est)]; [by left|].
    destruct (decide (c = enChannel e)) as [->|Hne]; [|right; exists d; by rewrite lookup_insert_ne].
    rewrite Hf in Hd. injection Hd as <-. cbn in *. subst. destruct (Hs eq_refl); [by left|congruence].
  - intros c' d j [[<- <-]|[_ Hd]]%lookup_insert_Some; [by apply (iv_flight_log0 _ _ _ Hf)|eauto].
  - intros c' d [[<- <-]|[_ Hd]]%lookup_insert_Some Hun; [apply (iv_unsent0 _ _ Hf); by apply Hu|eauto].
  - intros m hs h ED Hh [Hn _]%lookup_insert_None. eauto.
Qed.

(** The log of a delivery in flight whose send succeeded. *)
Lemma Inv_log_sent chan n D c d s :
  oFlight s !! c = Some d -> dvStage d = Sent OutSent -> LSent c (dvID d) ∉ recent (core (oLog s)) ->
  Inv chan n D s -> Inv chan n D (logged [LSent c (dvID d)] s).
Proof.
  intros Hf Hs Hr H. assert (core (oLog (logged [LSent c (dvID d)] s)) = core (oLog s) ++ [LSent c (dvID d)]) as E by (cbn; by rewrite core_app).
  assert (∀ l e, e ∈ l ++ [LSent c (dvID d)] <-> e ∈ l \/ e = LSent c (dvID d)) as Hin by (intros; set_solver).
  destruct H. destruct (iv_flight0 c d Hf) as (Hch & Hlt & Hfirst).
  split; try done; rewrite ?E, ?recent_snoc, ?bool_decide_false by done; cbn.
  - intros c' i [Hl|[= -> ->]]%Hin; eauto.
  - intros i e j Hi [Hl|[= Ec ->]]%Hin; eauto.
  - intros i e Hi [Hl|[= Ec ->]]%Hin; [eauto|]. right. exists d. by rewrite Ec.
  - intros c' d' j Hd' [Hl|[= -> ->]]%Hin; [eauto|]. rewrite Hf in Hd'. by injection Hd' as <-.
  - intros c' d' Hd' Hun [Hl|[= -> Hj]]%Hin; [by eapply iv_unsent0|]. rewrite Hf in Hd'. injection Hd' as <-. by rewrite Hs in Hun.
  - intros m hs h ED Hh Hn Hc. destruct (iv_current0 m hs h ED Hh Hn Hc) as (F & L & R). split_and!; [done| |].
    + intros j [Hl|[= Ec ->]]%Hin; [eauto|congruence].
    + intros [Hl|[= Ec _]]%Hin; [eauto|congruence].
  - apply Ordered_sent; [done| |done]. intros i Hi. by apply (iv_flight_log0 c).
Qed.

Lemma Inv_sendDone chan n D c o s : Inv chan n D s -> Inv chan n D (sendDone c o s).
Proof.
  intros H. unfold sendDone. destruct (oFlight s !! c) as [[id a st]|] eqn:Ef; [|done]. destruct st; [|done|done].
  pose proof (iv_unsent _ _ _ _ H _ _ Ef I) as Hu.
  pose proof (Inv_stage _ _ _ c id a Sending (Sent o) s Ef (λ _, I) ltac:(done) H) as H'.
  destruct o; [|done|done|done].
  apply (Inv_log_sent chan n D c (mkDelivery id a (Sent OutSent))); [apply lookup_insert_eq|done|exact Hu|exact H'].
Qed.

Lemma remove_flight cf ok now id f s : (remove cf ok now id (withFlight f s)).2 = withFlight f (remove cf ok now id s).2.
Proof. by destruct ok. Qed.

Lemma reschedule_flight cf ok now id a f s : reschedule cf ok now id a (withFlight f s) = withFlight f (reschedule cf ok now id a s).
Proof. unfold reschedule, RetryDelivery. destruct ok; [|done]. cbn. by destruct (oRows s !! id). Qed.

Lemma remove_done cf ok now id s : removing (oHeld (remove cf ok now id s).2) id \/ oRows (remove cf ok now id s).2 !! id = None.
Proof. destruct ok; cbn; [right; by rewrite lookup_delete_eq|left; eexists; by rewrite lookup_insert_eq]. Qed.

Lemma remove_same cf ok now id s : oFlight (remove cf ok now id s).2 = oFlight s.
Proof. by destruct ok. Qed.

Lemma reschedule_same cf ok now id a s : oFlight (reschedule cf ok now id a s) = oFlight s.
Proof. unfold reschedule, RetryDelivery. destruct ok; [|done]. cbn. by destruct (oRows s !! id). Qed.

Lemma Inv_settleWrite chan n D cf c ok clock s : Inv chan n D s -> Inv chan n D (settleWrite cf c ok clock s).
Proof.
  intros H. unfold settleWrite. destruct (oFlight s !! c) as [[id a st]|] eqn:Ef; [|done]. destruct st as [|o|]; [done| |done].
  assert (∀ l, core l = [] -> Inv chan n D (remove cf ok clock id (logged l (withFlight (<[c := mkDelivery id a Written]> (oFlight s)) s))).2) as Hrm.
  { intros l Hl. change (logged l (withFlight ?f s)) with (withFlight f (logged l s)). rewrite remove_flight.
    assert (oFlight s = oFlight (remove cf ok clock id (logged l s)).2) as E' by (by rewrite remove_same). rewrite E'.
    eapply Inv_stage; [by rewrite remove_same|done|intros _; apply remove_done|]. apply Inv_remove; [|by apply Inv_logged].
    intros m hs h ED Hh Ei. destruct H. destruct (iv_head0 m hs h ED Hh) as [E _]. cbn.
    destruct (iv_flight0 _ _ Ef) as (E2 & _). cbn in E2. rewrite <- E, Ei, E2, Ef. done. }
  destruct o.
  - rewrite <- (logged_nil (withFlight _ _)). by apply Hrm.
  - by eapply Inv_stage.
  - by apply Hrm.
  - case_match; [by apply Hrm|]. rewrite reschedule_flight, <- (reschedule_same cf ok clock id (a + 1) s).
    eapply Inv_stage; [by rewrite reschedule_same|done|done|]. apply Inv_reschedule; [|done].
    destruct H. destruct (iv_flight0 _ _ Ef) as (E2 & _). cbn in E2. rewrite E2. by apply (iv_unsent0 _ _ Ef).
Qed.

Lemma Inv_crash chan n s : 0 <= n -> Inv chan n None s -> Inv chan n None (crash s).
Proof.
  intros Hn H. assert (core (oLog (crash s)) = core (oLog s) ++ [LCrash]) as E by (cbn; by rewrite core_app).
  destruct H. split; try done; rewrite ?E, ?recent_snoc; cbn.
  - intros c i Hi. apply (iv_sent0 c). set_solver.
  - intros id e j Hi Hj. eapply iv_behind0; [done|]. set_solver.
  - intros id e Hi Hj. set_solver.
  - by apply Ordered_crash.
Qed.

(** ** Every run *)

(** Only the steps of the dispatcher change what it works on. *)
Lemma enqueue_dispatch es limit s : oDispatch (EnqueueDeliveries es limit s) = oDispatch s.
Proof.
  unfold EnqueueDeliveries.
  assert (∀ s, oDispatch (foldl (λ s e, insertEntry e s) s es) = oDispatch s) as E by (induction es as [|e es IH]; intros s'; [done|]; cbn; by rewrite IH).
  case_match; [apply E|]. cbn. rewrite <- (E s). generalize (foldl (λ s e, insertEntry e s) s es). intros s'.
  generalize (take (Z.to_nat (Z.of_nat (size (oRows s')) - limit)) (rowIDs (oRows s'))). intros ids. revert s'. by induction ids as [|id ids IH]; intros s'; [|cbn; rewrite IH].
Qed.

Lemma remove_dispatch cf ok now id s : oDispatch (remove cf ok now id s).2 = oDispatch s.
Proof. by destruct ok. Qed.

Lemma reschedule_dispatch cf ok now id a s : oDispatch (reschedule cf ok now id a s) = oDispatch s.
Proof. unfold reschedule, RetryDelivery. destruct ok; [|done]. cbn. by destruct (oRows s !! id). Qed.

Lemma sendDone_dispatch c o s : oDispatch (sendDone c o s) = oDispatch s.
Proof. unfold sendDone. repeat case_match; done. Qed.

Lemma settleWrite_dispatch cf c ok clock s : oDispatch (settleWrite cf c ok clock s) = oDispatch s.
Proof. unfold settleWrite. repeat case_match; rewrite ?remove_dispatch, ?reschedule_dispatch; done. Qed.

Lemma settleDone_dispatch c s : oDispatch (settleDone c s) = oDispatch s.
Proof. unfold settleDone. repeat case_match; done. Qed.

Lemma Inv_settleDone chan n D c s : n + 1 < 2 ^ 64 -> Inv chan n D s -> Inv chan (n + 1) D (settleDone c s).
Proof.
  intros Hn H. unfold settleDone. destruct (oFlight s !! c) as [[id a [| |]]|] eqn:Ef; try (eapply Inv_mono; [|done]; lia).
  apply Inv_unclaimed; [done| |done]. intros d Hd. rewrite Ef in Hd. by injection Hd as <-.
Qed.

Lemma Inv_dispatchHead chan n cf ch ok queued clock s :
  n + 1 < 2 ^ 64 -> Inv chan n (dispData (oDispatch s)) s ->
  Inv chan (n + 1) (dispData (oDispatch (dispatchHead cf ch ok queued clock s))) (dispatchHead cf ch ok queued clock s).
Proof.
  intros Hn H. unfold dispatchHead. destruct (oDispatch s) as [|m|m [|h hs] now wait] eqn:Ed; rewrite ?Ed.
  1,2: eapply Inv_mono; [|done]; lia.
  1: apply Inv_dispatch; eapply Inv_nodata, Inv_mono; [|done]; lia.
  pose proof (Inv_headTurn chan n m h hs cf ch ok queued clock now s Hn H) as Ht. destruct (headTurn _ _ _ _ _ _ _ _ _) as [[w|] s']; cbn.
  - by apply Inv_dispatch.
  - by eapply Inv_dispatch, Inv_nodata.
Qed.

Lemma outbox_Inv_exec cf o n s :
  0 <= n -> n + 1 < 2 ^ 64 -> (∃ chan, Inv chan n (dispData (oDispatch s)) s) ->
  ∃ chan, Inv chan (n + 1) (dispData (oDispatch (exec cf s o))) (exec cf s o).
Proof.
  intros H0 Hn [chan H]. assert (∀ D s', Inv chan n D s' -> Inv chan (n + 1) D s') as Hup by (intros D s'; apply Inv_mono; lia).
  destruct o as [es| |ok now|ch ok q clock|c o|c ok clock|c|]; cbn [exec].
  - rewrite enqueue_dispatch. eapply Inv_enqueue, Hup, H.
  - exists chan. unfold dispatchSnapshot. destruct (oDispatch s) eqn:Ed; rewrite ?Ed; [|by apply Hup..].
    apply Hup, Inv_dispatch. by apply Inv_snapshot.
  - exists chan. unfold dispatchRead. destruct (oDispatch s) eqn:Ed; rewrite ?Ed; [by apply Hup| |by apply Hup].
    apply Hup, Inv_dispatch. destruct ok; [by eapply Inv_read|by eapply Inv_nodata].
  - exists chan. by apply Inv_dispatchHead.
  - exists chan. rewrite sendDone_dispatch. by apply Hup, Inv_sendDone.
  - exists chan. rewrite settleWrite_dispatch. by apply Hup, Inv_settleWrite.
  - exists chan. rewrite settleDone_dispatch. by apply Inv_settleDone.
  - exists chan. apply Hup, Inv_crash; [done|]. by eapply Inv_nodata.
Qed.

Lemma Inv_empty chan : Inv chan 0 None emptyOutbox.
Proof.
  split; cbn; try done.
  - intros c i Hi. by apply elem_of_nil in Hi.
  - intros l1 l2 l3 c i j H. by destruct l1.
Qed.

Lemma outbox_Inv_run cf ops : Z.of_nat (length ops) < 2 ^ 64 ->
  ∃ chan, Inv chan (Z.of_nat (length ops)) (dispData (oDispatch (run cf ops))) (run cf ops).
Proof.
  induction ops as [|o ops IH] using rev_ind; intros Hn.
  - exists (λ _, EmptyString). apply Inv_empty.
  - rewrite length_app in Hn |- *. cbn in Hn |- *. unfold run. rewrite foldl_app. cbn.
    replace (Z.of_nat (length ops + 1)) with (Z.of_nat (length ops) + 1) by lia. apply outbox_Inv_exec; [lia|lia|]. apply IH. lia.
Qed.

Lemma core_elem e l : e ∈ core l -> e ∈ l.
Proof. unfold core. rewrite list_elem_of_filter. tauto. Qed.

(** [C19] The deliveries of a channel leave in the order they were queued, one at a time, whatever the interleaving of
    enqueues, reads of the dispatcher, sends, failed and successful writes, shutdowns and crashes (runs of fewer than
    [2^64] steps): of two successful sends the later one is of a younger entry, or of the same entry with a crash in
    between, so an entry is delivered again only after a crash, also when the removal of its row keeps failing. *)
Theorem outbox_order cf ops c i j l1 l2 l3 :
  Z.of_nat (length ops) < 2 ^ 64 ->
  oLog (run cf ops) = l1 ++ LSent c i :: l2 ++ LSent c j :: l3 -> i < j \/ (i = j /\ LCrash ∈ l2).
Proof.
  intros Hn El. destruct (outbox_Inv_run cf ops Hn) as [chan H]. apply iv_ordered in H.
  destruct (H (core l1) (core l2) (core l3) c i j) as [|[-> Hc]]; [|by left|].
  - rewrite El, core_app. change (LSent c i :: ?l) with ([LSent c i] ++ l). rewrite !core_app. change (LSent c j :: l3) with ([LSent c j] ++ l3). by rewrite core_app.
  - right. split; [done|]. by apply core_elem.
Qed.

(** ** Nothing is lost *)

Definition closes (id : Z) (e : event) : bool :=
  match e with LSent _ i | LGivenUp i | LExpired i | LDiscarded i | LDropped i => i =? id | LCrash => false end.

(** The log says why the entry left. *)
Definition closed (id : Z) (l : list event) : Prop := Exists (λ e, closes id e = true) l.

Lemma closed_app id l l' : closed id l \/ closed id l' -> closed id (l ++ l').
Proof. intros H. by apply Exists_app. Qed.

Record Kept (s : Outbox) : Prop := {
  kp_rows id : 1 <= id < oNextID s -> is_Some (oRows s !! id) \/ closed id (oLog s);
  kp_held id : removing (oHeld s) id -> closed id (oLog s);
  kp_flight c d : oFlight s !! c = Some d -> dvStage d = Sent OutSent -> closed (dvID d) (oLog s)
}.

Lemma Kept_logged l s : Kept s -> Kept (logged l s).
Proof.
  intros [Kr Kh Kf]. split; cbn.
  - intros id Hid. destruct (Kr id Hid); [by left|right; apply closed_app; by left].
  - intros id Hid. apply closed_app. left. by apply Kh.
  - intros c d Hd Hs. apply closed_app. left. by eapply Kf.
Qed.

Lemma Kept_dispatch d s : Kept s -> Kept (withDispatch d s).
Proof. by intros [Kr Kh Kf]. Qed.

Lemma Kept_delete id s : closed id (oLog s) -> Kept s -> Kept (deleteRow id s).
Proof.
  intros Hc [Kr Kh Kf]. split; cbn; try done. intros i Hi.
  destruct (decide (id = i)) as [->|Hne]; [by right|]. rewrite lookup_delete_ne by done. by apply Kr.
Qed.

Lemma Kept_remove cf ok now id s : closed id (oLog s) -> Kept s -> Kept (remove cf ok now id s).2.
Proof.
  intros Hc K. destruct ok; cbn.
  - apply (Kept_delete id) in K; [|done]. destruct K as [Kr Kh Kf]. split; cbn; try done.
    intros i (h & [_ Hh]%lookup_delete_Some & Hr). apply Kh. by exists h.
  - destruct K as [Kr Kh Kf]. split; cbn; try done. intros i (h & [[<- _]|[_ Hh]]%lookup_insert_Some & Hr); [done|]. apply Kh. by exists h.
Qed.

Lemma Kept_reschedule cf ok now id a s : Kept s -> Kept (reschedule cf ok now id a s).
Proof.
  intros [Kr Kh Kf]. unfold reschedule. destruct ok.
  - unfold RetryDelivery. assert (∀ i, removing (delete id (oHeld s)) i -> closed i (oLog s)) as Hh.
    { intros i (h & [_ Hh]%lookup_delete_Some & Hr). apply Kh. by exists h. }
    destruct (oRows s !! id) as [e|] eqn:E; split; cbn; try done.
    intros i Hi. destruct (decide (id = i)) as [->|Hne]; [left; by rewrite lookup_insert_eq|]. rewrite lookup_insert_ne by done. by apply Kr.
  - split; cbn; try done. intros i (h & [[_ <-]|[_ Hh]]%lookup_insert_Some & Hr); [done|]. apply Kh. by exists h.
Qed.

Lemma closed_here id e l : closes id e = true -> closed id (l ++ [e]).
Proof. intros He. apply closed_app. right. by constructor. Qed.

Lemma Kept_close cf ok now id e s : closes id e = true -> Kept s -> Kept (remove cf ok now id (logged [e] s)).2.
Proof. intros He K. apply Kept_remove; [by apply closed_here|by apply Kept_logged]. Qed.

Lemma Kept_inserts es s : Kept s -> Kept (foldl (λ s e, insertEntry e s) s es).
Proof.
  revert s. induction es as [|e es IH]; cbn; intros s [Kr Kh Kf]; [done|]. apply IH. split; cbn; try done.
  intros id Hid. destruct (decide (oNextID s = id)) as [<-|]; [left; by rewrite lookup_insert_eq|]. rewrite lookup_insert_ne by done. apply Kr. lia.
Qed.

Lemma Kept_deletes ids s :
  Forall (λ id, closed id (oLog s)) ids -> Kept s -> Kept (foldl (λ s id, deleteRow id s) s ids).
Proof.
  revert s. induction ids as [|id ids IH]; intros s Ha K; [done|]. cbn. apply Forall_cons in Ha as [H1 H2].
  apply IH; [done|by apply Kept_delete].
Qed.

Lemma logged_deletes l ids s : logged l (foldl (λ s id, deleteRow id s) s ids) = foldl (λ s id, deleteRow id s) (logged l s) ids.
Proof. revert s. induction ids as [|id ids' IH]; intros s; [done|]. cbn. by rewrite IH. Qed.

Lemma closed_dropped ids l : Forall (λ id, closed id (l ++ (LDropped <$> ids))) ids.
Proof.
  apply Forall_forall. intros id Hid. apply closed_app. right. apply Exists_exists. exists (LDropped id). cbn.
  rewrite Z.eqb_refl. split; [|done]. by apply list_elem_of_fmap_2.
Qed.

Lemma Kept_enqueue es limit s : Kept s -> Kept (EnqueueDeliveries es limit s).
Proof.
  intros K. unfold EnqueueDeliveries. apply (Kept_inserts es) in K. case_match; [done|].
  rewrite logged_deletes. apply Kept_deletes; [apply closed_dropped|by apply Kept_logged].
Qed.

Lemma Kept_claim c id a s : Kept s -> Kept (withFlight (<[c := mkDelivery id a Sending]> (oFlight s)) s).
Proof. intros [Kr Kh Kf]. split; cbn; try done. intros c' d [[<- <-]|[_ Hd]]%lookup_insert_Some; [done|eauto]. Qed.

Lemma Kept_unclaim c s : Kept s -> Kept (unclaim c s).
Proof. intros [Kr Kh Kf]. split; cbn; try done. intros c' d [_ Hd]%lookup_delete_Some. eauto. Qed.

Lemma Kept_settleDone c s : Kept s -> Kept (settleDone c s).
Proof. intros K. unfold settleDone. destruct (oFlight s !! c) as [[id a [| |]]|]; try done. by apply Kept_unclaim. Qed.

Lemma Kept_unreadable cf ok now h s : Kept s -> Kept (unreadableChannel cf ok now h s).2.
Proof. intros K. unfold unreadableChannel. destruct (_ <=? _); [apply Kept_close; [cbn; lia|done]|by apply Kept_reschedule]. Qed.

Lemma snd_let {A B C} (p : A * B) (f : A -> C) : (let '(w, s) := p in (f w, s)).2 = p.2.
Proof. by destruct p. Qed.

Lemma Kept_headTurn cf ch ok queued clock seen now h s : Kept s -> Kept (headTurn cf ch ok queued clock seen now h s).2.
Proof.
  intros K. unfold headTurn. case_match; [done|]. destruct (oHeld s !! enID h) as [d|] eqn:Eh.
  1: case_match; [done|]; destruct (hdRemoveOnly d) eqn:Er;
     [rewrite snd_let; apply Kept_remove; [|done]; apply K; by exists d|].
  all: cbn [enID enChannel enReadable enAttempts enNext enCreated].
  all: case_match; [rewrite snd_let; apply Kept_close; [cbn; lia|done]|].
  all: case_match; [rewrite snd_let; apply Kept_close; [cbn; lia|done]|].
  all: case_match; [done|].
  all: destruct ch; [rewrite snd_let; apply Kept_close; [cbn; lia|done]|rewrite snd_let; by apply Kept_unreadable|done
                    |rewrite snd_let; apply Kept_close; [cbn; lia|done]|].
  all: unfold claim; case_match; [|done]; simplify_eq/=; destruct (idle _ _ _); simplify_eq/=.
  all: destruct queued; [by apply Kept_claim|]; by apply Kept_unclaim, Kept_claim.
Qed.

Lemma Kept_dispatchHead cf ch ok queued clock s : Kept s -> Kept (dispatchHead cf ch ok queued clock s).
Proof.
  intros K. unfold dispatchHead. destruct (oDispatch s) as [|m|m [|h hs] now wait]; [done|done|by apply Kept_dispatch|].
  pose proof (Kept_headTurn cf ch ok queued clock (counter m (enChannel h)) now h s K) as K'.
  destruct (headTurn _ _ _ _ _ _ _ _ _) as [[w|] s']; by apply Kept_dispatch.
Qed.

Lemma Kept_sendDone c o s : Kept s -> Kept (sendDone c o s).
Proof.
  intros K. unfold sendDone. destruct (oFlight s !! c) as [[id a [| |]]|] eqn:Ef; [|done|done|done].
  destruct K as [Kr Kh Kf]. destruct o.
  2-4: split; cbn; try done; intros c' d [[<- <-]|[_ Hd]]%lookup_insert_Some; [done|eauto].
  split; cbn.
  - intros i Hi. destruct (Kr i Hi); [by left|right; apply closed_app; by left].
  - intros i Hi. apply closed_app. left. by apply Kh.
  - intros c' d [[<- <-]|[_ Hd]]%lookup_insert_Some Hs; [apply closed_here; cbn; lia|]. apply closed_app. left. by eapply Kf.
Qed.

Lemma Kept_settleWrite cf c ok clock s : Kept s -> Kept (settleWrite cf c ok clock s).
Proof.
  intros K. unfold settleWrite. destruct (oFlight s !! c) as [[id a [| o |]]|] eqn:Ef; [done| |done|done].
  assert (Kept (withFlight (<[c := mkDelivery id a Written]> (oFlight s)) s)) as K'.
  { destruct K as [Kr Kh Kf]. split; cbn; try done. intros c' d [[<- <-]|[_ Hd]]%lookup_insert_Some; [done|eauto]. }
  destruct o; [|done| |].
  - apply Kept_remove; [|done]. by apply (kp_flight _ K _ _ Ef).
  - apply Kept_close; [cbn; lia|done].
  - case_match; [apply Kept_close; [cbn; lia|done]|by apply Kept_reschedule].
Qed.


Lemma Kept_crash s : Kept s -> Kept (crash s).
Proof.
  intros [Kr Kh Kf]. split; cbn; [|by intros id (h & Hh & _)|done].
  intros i Hi. destruct (Kr i Hi); [by left|right; apply closed_app; by left].
Qed.

Lemma Kept_exec cf o s : Kept s -> Kept (exec cf s o).
Proof.
  intros K. destruct o; cbn [exec].
  - by apply Kept_enqueue.
  - unfold dispatchSnapshot. by destruct (oDispatch s); [apply Kept_dispatch|..].
  - unfold dispatchRead. by destruct (oDispatch s); [|apply Kept_dispatch|].
  - by apply Kept_dispatchHead.
  - by apply Kept_sendDone.
  - by apply Kept_settleWrite.
  - by apply Kept_settleDone.
  - by apply Kept_crash.
Qed.

(** [C20] No queued notification is lost: through every interleaving and crash, each entry that was ever stored is in the
    table, or the log says why it left it: it was sent, given up after its rounds, expired, discarded with its channel,
    or dropped as the oldest of a full outbox. *)
Theorem outbox_never_loses cf ops id :
  1 <= id < oNextID (run cf ops) -> is_Some (oRows (run cf ops) !! id) \/ closed id (oLog (run cf ops)).
Proof.
  revert id. apply kp_rows. unfold run. induction ops as [|o ops IH] using rev_ind.
  - split; cbn; [intros id Hid; lia|by intros id (h & Hh & _)|done].
  - rewrite foldl_app. by apply Kept_exec.
Qed.

(** ** A run *)

Section Demo.
Let t0 : Z := fromKey (1000 * hour).
Let e (c : string) : OutboxEntry := mkEntry 0 c true 0 t0 t0.
Let turn (q : bool) : list op := [OSnapshot; ORead true (t0 + second); OHead ChReady true q (t0 + second); OHead ChReady true q (t0 + second); OHead ChReady true q (t0 + second)].

(** Two channels; the removal of the first delivery fails, is not sent again, then the process crashes and sends it
    again; the third delivery of channel [a] follows. *)
Definition demoOps : list op :=
  [OEnqueue [e "a"; e "b"; e "a"]] ++ turn true ++
  [OSend "a" OutSent; OSend "b" OutFailed; OWrite "a" false (t0 + 2 * second); OWrite "b" true (t0 + 2 * second); ODone "a"; ODone "b"] ++
  turn true ++ [OCrash] ++ turn true ++ [OSend "a" OutSent; OWrite "a" true (t0 + 2 * second); ODone "a"] ++
  turn true ++ [OSend "a" OutSent; OWrite "a" true (t0 + 2 * second); ODone "a"].
End Demo.

Example demo_log : oLog (run defaultConfig demoOps) = [LSent "a" 1; LCrash; LSent "a" 1; LSent "a" 3].
Proof. by vm_compute. Qed.

Lemma outbox_order_witness : 1 < 3 \/ (1 = 3 /\ LCrash ∈ @nil event).
Proof.
  apply (outbox_order defaultConfig demoOps "a" 1 3 [LSent "a" 1; LCrash] [] []); [vm_compute; done|by vm_compute].
Defined.

Lemma outbox_never_loses_witness :
  is_Some (oRows (run defaultConfig demoOps) !! 2) \/ closed 2 (oLog (run defaultConfig demoOps)).
Proof. apply outbox_never_loses. by vm_compute. Defined.
