(* ===== verification/Protection.v ===== *)
(** * Delete protection ([internal/operations/protection.go], [internal/settings/protection.go])

    Lowered protections wait for the delete grace period, and with the two-person rule
    destructive actions wait for a second administrator. Requests, changes, settings and
    jobs as their stores keep them; the calls of the service run in steps between which
    other calls run: a settings update reads, commits and follows up; an approval is
    decided, executed and recorded; a sweep takes and applies due changes; a job edit
    reads, stores and holds back a shorter retention. Names of requesters, single sign-on
    settings and the payload of actions other components run are left out; whether a store
    or such an action succeeds, the clock and new random IDs are arguments. *)

From S2P Require Import Prelude Glob Selection Access.

(** ** Data ([internal/models/protection.go]) *)

Definition MinDeleteGraceDays : Z := 1.
Definition MaxDeleteGraceDays : Z := 90.
Definition MaxMetadataBackupRetention : Z := 1000.
Definition ApprovalTTL : Z := 72 * hour.

Definition GraceDuration (days : Z) : Z := Z.max MinDeleteGraceDays (Z.min days MaxDeleteGraceDays) * 24 * hour.

Inductive PendingChangeKind : Type :=
| PendingRetention | PendingDeleteGrace | PendingMetadataRetention | PendingDisableSecondApprover
| PendingObjectLock | PendingDisableLockedCopies | PendingJobLockedCopies.

#[export] Instance PendingChangeKind_eq_dec : EqDecision PendingChangeKind.
Proof. solve_decision. Defined.

Record PendingChange : Type := mkChange {
  pcID : string;
  pcKind : PendingChangeKind;
  pcJobID : string;
  pcJobCreatedAt : option Z;
  pcRetentionDays : option Z;
  pcRetentionCount : option Z;
  pcDeleteGraceDays : option Z;
  pcMetadataRetentionCount : option Z;
  pcTargetID : string;
  pcAdmins : list string;
  pcCreatedAt : Z;
  pcEffectiveAt : Z
}.

Definition Subject (c : PendingChange) : string :=
  match pcKind c with
  | PendingRetention | PendingJobLockedCopies => pcJobID c
  | PendingObjectLock => pcTargetID c
  | _ => ""
  end.

(** A change of [kind] without its values. *)
Definition newChange (kind : PendingChangeKind) : PendingChange :=
  mkChange "" kind "" None None None None None "" [] 0 0.

Definition retentionChange (job : string) (created : option Z) (days count : option Z) : PendingChange :=
  mkChange "" PendingRetention job created days count None None "" [] 0 0.
Definition graceChange (days : Z) : PendingChange :=
  mkChange "" PendingDeleteGrace "" None None None (Some days) None "" [] 0 0.
Definition metadataChange (n : Z) : PendingChange :=
  mkChange "" PendingMetadataRetention "" None None None None (Some n) "" [] 0 0.
Definition jobCopiesChange (job : string) (created : option Z) : PendingChange :=
  mkChange "" PendingJobLockedCopies job created None None None None "" [] 0 0.
Definition approverChange (admins : list string) : PendingChange :=
  mkChange "" PendingDisableSecondApprover "" None None None None None "" admins 0 0.

Definition withAdmins (admins : list string) (c : PendingChange) : PendingChange :=
  mkChange (pcID c) (pcKind c) (pcJobID c) (pcJobCreatedAt c) (pcRetentionDays c) (pcRetentionCount c) (pcDeleteGraceDays c)
    (pcMetadataRetentionCount c) (pcTargetID c) admins (pcCreatedAt c) (pcEffectiveAt c).

Inductive ApprovalAction : Type :=
| ApprovalDeleteBackup | ApprovalBulkDeleteBackups | ApprovalUnpinBackup | ApprovalBulkUnpinBackups | ApprovalDeleteTarget
| ApprovalShortenRetention | ApprovalLowerGrace | ApprovalDisableSecondApprover | ApprovalGrantAdminRole | ApprovalGrantAdminKey
| ApprovalOIDCAdminMapping | ApprovalResetPassword | ApprovalChangeAdminRole | ApprovalDeleteAdmin | ApprovalSSODemoteAdmin
| ApprovalShortenMetadataRetention | ApprovalRestoreDropTarget | ApprovalPITRInPlace | ApprovalRotateSecretKey
| ApprovalPostRestoreCommands | ApprovalLowerObjectLock | ApprovalDisableLockedCopies | ApprovalJobLockedCopies
| ApprovalPlaintextRecoveryKit.

Inductive ApprovalStatus : Type := ApprovalPending | ApprovalApproved | ApprovalFailed | ApprovalRejected | ApprovalExpired.

#[export] Instance ApprovalStatus_eq_dec : EqDecision ApprovalStatus.
Proof. solve_decision. Defined.

(** What a request asks for; the values of actions of other components are left out. *)
Record ask : Type := mkAsk {
  asAction : ApprovalAction;
  asSubject : string;
  asRetentionDays : option Z;
  asRetentionCount : option Z;
  asDeleteGraceDays : option Z;
  asMetadataRetentionCount : option Z;
  asSubjectCreatedAt : option Z
}.

Record Approval : Type := mkApproval {
  apID : string;
  apAsk : ask;
  apStatus : ApprovalStatus;
  apRequestedByUserID : string;
  apRequestedVia : Method;
  apCreatedAt : Z;
  apExpiresAt : Z;
  apDecidedByUserID : string;
  apDecidedAt : option Z
}.

Definition withStatus (st : ApprovalStatus) (a : Approval) : Approval :=
  mkApproval (apID a) (apAsk a) st (apRequestedByUserID a) (apRequestedVia a) (apCreatedAt a) (apExpiresAt a) (apDecidedByUserID a) (apDecidedAt a).

Definition decided (st : ApprovalStatus) (by_ : string) (at_ : Z) (a : Approval) : Approval :=
  mkApproval (apID a) (apAsk a) st (apRequestedByUserID a) (apRequestedVia a) (apCreatedAt a) (apExpiresAt a) by_ (Some at_).

Definition Open (now : Z) (a : Approval) : bool := bool_decide (apStatus a = ApprovalPending) && (now <? apExpiresAt a).

(** ** Settings ([internal/settings]) *)

Record Settings : Type := mkSettings { stGraceDays : Z; stSecondApprover : bool; stLockedCopies : bool; stMetadataCount : Z }.
Record Patch : Type := mkPatch { paGraceDays : option Z; paSecondApprover : option bool; paLockedCopies : option bool; paMetadataCount : option Z }.

Definition applyPatch (p : Patch) (s : Settings) : Settings :=
  mkSettings (default (stGraceDays s) (paGraceDays p)) (default (stSecondApprover s) (paSecondApprover p))
    (default (stLockedCopies s) (paLockedCopies p)) (default (stMetadataCount s) (paMetadataCount p)).

Definition LowersProtection (cur next : Settings) : bool * bool :=
  (stGraceDays next <? stGraceDays cur, stSecondApprover cur && negb (stSecondApprover next)).

Definition LowersLockedCopies (cur next : Settings) : bool := stLockedCopies cur && negb (stLockedCopies next).

Definition checkProtection (allowed : bool) (cur next : Settings) : bool :=
  let '(grace, approver) := LowersProtection cur next in
  negb ((grace || approver || LowersLockedCopies cur next) && negb allowed).

Definition checkMetadataRetention (allowed : bool) (cur next : Settings) : bool :=
  negb ((stMetadataCount next <? stMetadataCount cur) && negb allowed).

(** The bounds [validate] checks. *)
Definition validSettings (s : Settings) : bool :=
  (MinDeleteGraceDays <=? stGraceDays s) && (stGraceDays s <=? MaxDeleteGraceDays) &&
  (1 <=? stMetadataCount s) && (stMetadataCount s <=? MaxMetadataBackupRetention).

(** [UpdateChanged]; [ok]: the other keys are valid and the save succeeds. *)
Definition UpdateChanged (ok allowed : bool) (p : Patch) (cur : Settings) : option Settings :=
  let next := applyPatch p cur in
  if checkProtection allowed cur next && validSettings next && checkMetadataRetention allowed cur next && ok then Some next else None.

(** ** State *)

(** The retention of a job (0 keeps forever) and when it was created. *)
Record JobRetention : Type := mkJobR { jrDays : Z; jrCount : Z; jrCreatedAt : Z }.

(** What an update of the settings still has to do once it is committed. *)
Inductive follow : Type :=
| FCancel (kind : PendingChangeKind)
| FLowerGrace (days : Z)
| FLowerMetadata (n : Z)
| FLowerLocked
| FDisable.

Record update : Type := mkUpdate {
  upPrincipal : option Principal;
  upPatch : Patch;
  upCur : Settings;
  upLowerGrace : option Z;
  upDisable : bool;
  upLowerLocked : bool;
  upLowerMetadata : option Z
}.

Inductive settingsCall : Type := CReading (u : update) | CFollowing (p : option Principal) (todo : list follow).

(** An approval being executed by [p]: decided, then run, then its outcome is recorded;
    administrators it demoted are forgotten one change at a time. *)
Inductive approveCall : Type :=
| CDecided (a : Approval) (p : Principal)
| CForget (a : Approval) (changes : list PendingChange)
| CRan (a : Approval) (failed : bool).

(** A sweep of [ApplyDueChanges]: the changes left of its list and the one it took. *)
Record sweep : Type := mkSweep { swNow : Z; swList : list PendingChange; swTaken : option PendingChange }.

(** A job edit: the job as read ([None]: a new one), what is to be stored, the held back
    retention. *)
Record RetentionHold : Type := mkHold { rhDays : option Z; rhCount : option Z }.
Record edit : Type := mkEdit { edPrincipal : option Principal; edJob : string; edExisting : option JobRetention; edDays : Z; edCount : Z; edHold : option RetentionHold }.
Inductive jobCall : Type := CEditing (e : edit) | CStored (e : edit).

(** What happened: a change was scheduled (with the grace period, the two-person rule and
    the users in force, and the approved request it was scheduled for), a request was made,
    an approved action ran, an administrator was forgotten. *)
Inductive event : Type :=
| EvScheduled (c : PendingChange) (grace : Z) (second : bool) (users : list User) (approval : option string)
| EvRequested (a : Approval)
| EvExecuted (a : Approval) (p : Principal)
| EvForgot (user : string) (a : Approval).

Record State : Type := mkState {
  vSettings : Settings;
  vUsers : list User;
  vJobs : gmap string JobRetention;
  vApprovals : gmap string Approval;
  vChanges : gmap string PendingChange;
  vUpdates : gmap nat settingsCall;
  vApproving : gmap nat approveCall;
  vSweeps : gmap nat sweep;
  vEdits : gmap nat jobCall;
  vLog : list event
}.

Definition initState (st : Settings) (users : list User) (jobs : gmap string JobRetention) : State :=
  mkState st users jobs ∅ ∅ ∅ ∅ ∅ ∅ [].

Definition setSettings x s := mkState x (vUsers s) (vJobs s) (vApprovals s) (vChanges s) (vUpdates s) (vApproving s) (vSweeps s) (vEdits s) (vLog s).
Definition setUsers x s := mkState (vSettings s) x (vJobs s) (vApprovals s) (vChanges s) (vUpdates s) (vApproving s) (vSweeps s) (vEdits s) (vLog s).
Definition setJobs x s := mkState (vSettings s) (vUsers s) x (vApprovals s) (vChanges s) (vUpdates s) (vApproving s) (vSweeps s) (vEdits s) (vLog s).
Definition setApprovals x s := mkState (vSettings s) (vUsers s) (vJobs s) x (vChanges s) (vUpdates s) (vApproving s) (vSweeps s) (vEdits s) (vLog s).
Definition setChanges x s := mkState (vSettings s) (vUsers s) (vJobs s) (vApprovals s) x (vUpdates s) (vApproving s) (vSweeps s) (vEdits s) (vLog s).
Definition setUpdates x s := mkState (vSettings s) (vUsers s) (vJobs s) (vApprovals s) (vChanges s) x (vApproving s) (vSweeps s) (vEdits s) (vLog s).
Definition setApproving x s := mkState (vSettings s) (vUsers s) (vJobs s) (vApprovals s) (vChanges s) (vUpdates s) x (vSweeps s) (vEdits s) (vLog s).
Definition setSweeps x s := mkState (vSettings s) (vUsers s) (vJobs s) (vApprovals s) (vChanges s) (vUpdates s) (vApproving s) x (vEdits s) (vLog s).
Definition setEdits x s := mkState (vSettings s) (vUsers s) (vJobs s) (vApprovals s) (vChanges s) (vUpdates s) (vApproving s) (vSweeps s) x (vLog s).
Definition happened e s := mkState (vSettings s) (vUsers s) (vJobs s) (vApprovals s) (vChanges s) (vUpdates s) (vApproving s) (vSweeps s) (vEdits s) (vLog s ++ [e]).

(** ** The stores ([internal/store/protection.go]) *)

Definition sameSlot (c d : PendingChange) : Prop := pcKind d = pcKind c /\ Subject d = Subject c.

#[export] Instance sameSlot_dec c d : Decision (sameSlot c d).
Proof. unfold sameSlot. apply _. Defined.

Definition DeletePendingChangesOf (kind : PendingChangeKind) (subject : string) (s : State) : State :=
  setChanges (filter (λ i : string * PendingChange, ~ (pcKind i.2 = kind /\ Subject i.2 = subject)) (vChanges s)) s.

(** [None]: the ID is taken by a change of another kind or subject. *)
Definition ReplacePendingChange (c : PendingChange) (s : State) : option State :=
  let s := DeletePendingChangesOf (pcKind c) (Subject c) s in
  match vChanges s !! pcID c with Some _ => None | None => Some (setChanges (<[pcID c := c]> (vChanges s)) s) end.

Definition changeBefore (a b : PendingChange) : bool :=
  (pcEffectiveAt a <? pcEffectiveAt b) || ((pcEffectiveAt a =? pcEffectiveAt b) && stringLess (pcID a) (pcID b)).

Definition ListPendingChanges (s : State) : list PendingChange := stable_sort changeBefore (map_to_list (vChanges s)).*2.

(** [DeletePendingChange]; [None]: it is gone. *)
Definition DeletePendingChange (id : string) (s : State) : option State :=
  match vChanges s !! id with None => None | Some _ => Some (setChanges (delete id (vChanges s)) s) end.

Definition CreateApproval (a : Approval) (s : State) : option State :=
  match vApprovals s !! apID a with Some _ => None | None => Some (setApprovals (<[apID a := a]> (vApprovals s)) s) end.

(** ** Requests and schedules *)

Definition UserID (p : option Principal) : string := match p ≫= pUser with Some u => uID u | None => "" end.

Definition deleteGrace (s : State) : Z := GraceDuration (stGraceDays (vSettings s)).

(** [ctx] is the approved request an action runs for. *)
Definition needsApproval (ctx : option Approval) (s : State) : bool := stSecondApprover (vSettings s) && negb (bool_decide (is_Some ctx)).

(** An API key without a creator cannot request anything. *)
Definition requesterKnown (p : option Principal) : bool :=
  match p with
  | Some pr => negb (bool_decide (pMethod pr = MethodAPIKey) && negb (bool_decide (is_Some (pUser pr))))
  | None => true
  end.

Definition storeApproval (p : option Principal) (id : string) (now : Z) (ok : bool) (q : ask) (s : State) : option State :=
  if negb (requesterKnown p && ok) then None
  else
    let a := mkApproval id q ApprovalPending (UserID p) (match p with Some pr => pMethod pr | None => MethodSystem end)
               now (now + ApprovalTTL) "" None in
    happened (EvRequested a) <$> CreateApproval a s.

(** [schedulePending]: the change takes effect after the grace period in force. *)
Definition schedulePending (ctx : option Approval) (id : string) (now : Z) (ok : bool) (c : PendingChange) (s : State) : option State :=
  let c := mkChange id (pcKind c) (pcJobID c) (pcJobCreatedAt c) (pcRetentionDays c) (pcRetentionCount c) (pcDeleteGraceDays c)
             (pcMetadataRetentionCount c) (pcTargetID c) (pcAdmins c) now (now + deleteGrace s) in
  if ok then
    happened (EvScheduled c (stGraceDays (vSettings s)) (stSecondApprover (vSettings s)) (vUsers s) (apID <$> ctx)) <$> ReplacePendingChange c s
  else None.

Definition scheduleRetention (ctx : option Approval) (id : string) (now : Z) (ok : bool) (job : string) (days count bound : option Z) (s : State) : option State :=
  match vJobs s !! job with
  | None => None
  | Some j =>
      if match bound with Some b => negb (jrCreatedAt j =? b) | None => false end then None
      else schedulePending ctx id now ok (retentionChange job (Some (jrCreatedAt j)) days count) s
  end.

(** The flag of the job itself is not modelled. *)
Definition scheduleJobLockedCopies (ctx : option Approval) (id : string) (now : Z) (ok : bool) (job : string) (bound : option Z) (s : State) : option State :=
  match vJobs s !! job with
  | None => None
  | Some j =>
      if match bound with Some b => negb (jrCreatedAt j =? b) | None => false end then None
      else schedulePending ctx id now ok (jobCopiesChange job (Some (jrCreatedAt j))) s
  end.

Definition adminIDs (users : list User) : list string := uID <$> filter (λ u, uRole u = RoleAdmin) users.

(** An administrator of the change who no longer is one. *)
Definition adminLost (users : list User) (c : PendingChange) : option string :=
  find (λ id, negb (bool_decide (id ∈ adminIDs users))) (pcAdmins c).

(** ** Settings updates *)

Definition simpleAsk (action : ApprovalAction) : ask := mkAsk action "" None None None None None.

(** The start of [UpdateSettings]: what the patch lowers is taken out of it. *)
Definition UpdateSettings (p : option Principal) (pa : Patch) (s : State) : option update :=
  let cur := vSettings s in
  let lowerGrace := match paGraceDays pa with Some v => if v <? stGraceDays cur then Some v else None | None => None end in
  if match lowerGrace with Some v => (v <? MinDeleteGraceDays) || (v >? MaxDeleteGraceDays) | None => false end then None
  else if bool_decide (paSecondApprover pa = Some true) && negb (stSecondApprover cur) &&
          negb (is_ok (CheckSecondApproverPossible (vUsers s))) then None
  else
    let disable := bool_decide (paSecondApprover pa = Some false) && stSecondApprover cur in
    let lowerLocked := bool_decide (paLockedCopies pa = Some false) && stLockedCopies cur in
    let lowerMeta := match paMetadataCount pa with Some v => if v <? stMetadataCount cur then Some v else None | None => None end in
    if match lowerMeta with Some v => (v <? 1) || (v >? MaxMetadataBackupRetention) | None => false end then None
    else
      let pa := mkPatch (if lowerGrace then None else paGraceDays pa) (if disable then None else paSecondApprover pa)
                  (if lowerLocked then None else paLockedCopies pa) (if lowerMeta then None else paMetadataCount pa) in
      Some (mkUpdate p pa cur lowerGrace disable lowerLocked lowerMeta).

(** What follows once the settings are [next]. *)
Definition follows (u : update) (next : Settings) : list follow :=
  (if stGraceDays (upCur u) <? stGraceDays next then [FCancel PendingDeleteGrace] else []) ++
  match upLowerGrace u with Some d => [FLowerGrace d] | None => [] end ++
  (if stMetadataCount (upCur u) <? stMetadataCount next then [FCancel PendingMetadataRetention] else []) ++
  match upLowerMetadata u with Some n => [FLowerMetadata n] | None => [] end ++
  (if stLockedCopies next && negb (stLockedCopies (upCur u)) then [FCancel PendingDisableLockedCopies] else []) ++
  (if upLowerLocked u then [FLowerLocked] else []) ++
  (if upDisable u then [FDisable] else []).

Definition commitUpdate (n : nat) (ok : bool) (s : State) : State :=
  match vUpdates s !! n with
  | Some (CReading u) =>
      match UpdateChanged ok false (upPatch u) (vSettings s) with
      | None => setUpdates (delete n (vUpdates s)) s
      | Some next => setUpdates (<[n := CFollowing (upPrincipal u) (follows u next)]> (vUpdates s)) (setSettings next s)
      end
  | _ => s
  end.

(** One follow-up; [None]: the update fails. [read]: the users could be read. *)
Definition followUp (p : option Principal) (f : follow) (id : string) (now : Z) (ok read : bool) (s : State) : option State :=
  let held q c := if needsApproval None s then storeApproval p id now ok q s else schedulePending None id now ok c s in
  match f with
  | FCancel kind => if ok then Some (DeletePendingChangesOf kind "" s) else None
  | FLowerGrace d => held (mkAsk ApprovalLowerGrace "" None None (Some d) None None) (graceChange d)
  | FLowerMetadata n => held (mkAsk ApprovalShortenMetadataRetention "" None None None (Some n) None) (metadataChange n)
  | FLowerLocked => held (simpleAsk ApprovalDisableLockedCopies) (newChange PendingDisableLockedCopies)
  | FDisable =>
      if read && negb (is_ok (CheckSecondApproverPossible (vUsers s)))
      then schedulePending None id now ok (approverChange (adminIDs (vUsers s))) s
      else storeApproval p id now ok (simpleAsk ApprovalDisableSecondApprover) s
  end.

Definition followStep (n : nat) (id : string) (now : Z) (ok read : bool) (s : State) : State :=
  match vUpdates s !! n with
  | Some (CFollowing p (f :: todo)) =>
      match followUp p f id now ok read s with
      | Some s => setUpdates (<[n := CFollowing p todo]> (vUpdates s)) s
      | None => setUpdates (delete n (vUpdates s)) s
      end
  | _ => s
  end.

(** ** Approvals *)

(** [UpdateApproval]. *)
Definition UpdateApproval (id : string) (fn : Approval -> option Approval) (s : State) : option (Approval * State) :=
  a ← vApprovals s !! id; a' ← fn a; Some (a', setApprovals (<[id := a']> (vApprovals s)) s).

(** [decide]: an expired request is stored as expired; the flag tells that it was decided. *)
Definition decide_ (p : option Principal) (id : string) (st : ApprovalStatus) (check : Approval -> bool) (now : Z) (s : State) : option (Approval * State) :=
  UpdateApproval id (λ a,
    if negb (bool_decide (apStatus a = ApprovalPending)) then None
    else if negb (Open now a) then Some (withStatus ApprovalExpired a)
    else if negb (check a) then None
    else Some (decided st (UserID p) now a)) s.

(** [Approve] up to the decision. *)
Definition Approve (n : nat) (p : Principal) (id : string) (now : Z) (s : State) : State :=
  if negb (is_ok (CheckApprover (Some p) "" 0)) || bool_decide (is_Some (vApproving s !! n)) then s
  else match decide_ (Some p) id ApprovalApproved (λ a, is_ok (CheckApprover (Some p) (apRequestedByUserID a) (apCreatedAt a))) now s with
       | Some (a, s) => if bool_decide (apStatus a = ApprovalApproved) then setApproving (<[n := CDecided a p]> (vApproving s)) s else s
       | None => s
       end.

Definition Reject (p : option Principal) (id : string) (now : Z) (s : State) : State :=
  if principalAllows p ScopeAdmin then
    match decide_ p id ApprovalRejected (λ _, true) now s with Some (_, s) => s | None => s end
  else s.

(** One turn of [ExpireApprovals]. *)
Definition expireApproval (id : string) (now : Z) (s : State) : State :=
  match UpdateApproval id (λ a, if negb (bool_decide (apStatus a = ApprovalPending)) || Open now a then None
                                else Some (withStatus ApprovalExpired a)) s with
  | Some (_, s) => s
  | None => s
  end.

(** [executeApproval]: the state when the action succeeded, and the administrator to
    forget. [ok]: the store and the components that run the other actions succeed. *)
Definition executeApproval (a : Approval) (id : string) (now : Z) (ok : bool) (s : State) : option State * option string :=
  let q := apAsk a in
  let ctx := Some a in
  match asAction q with
  | ApprovalShortenRetention =>
      (match asSubjectCreatedAt q with
       | None => None
       | Some b => scheduleRetention ctx id now ok (asSubject q) (asRetentionDays q) (asRetentionCount q) (Some b) s
       end, None)
  | ApprovalLowerGrace =>
      (match asDeleteGraceDays q with None => None | Some d => schedulePending ctx id now ok (graceChange d) s end, None)
  | ApprovalDisableSecondApprover =>
      ((λ st, setSettings st s) <$> UpdateChanged ok true (mkPatch None (Some false) None None) (vSettings s), None)
  | ApprovalShortenMetadataRetention =>
      (match asMetadataRetentionCount q with None => None | Some n => schedulePending ctx id now ok (metadataChange n) s end, None)
  | ApprovalDisableLockedCopies => (schedulePending ctx id now ok (newChange PendingDisableLockedCopies) s, None)
  | ApprovalJobLockedCopies =>
      (match asSubjectCreatedAt q with
       | None => None
       | Some b => scheduleJobLockedCopies ctx id now ok (asSubject q) (Some b) s
       end, None)
  | ApprovalChangeAdminRole | ApprovalSSODemoteAdmin | ApprovalDeleteAdmin => if ok then (Some s, Some (asSubject q)) else (None, None)
  | _ => (if ok then Some s else None, None)
  end.

(** The pending changes [forgetAdmin] rewrites. *)
Definition forgetAdmin (user : string) (s : State) : list PendingChange :=
  (λ c, withAdmins (filter (λ id, id <> user) (pcAdmins c)) c) <$>
  filter (λ c, pcKind c = PendingDisableSecondApprover /\ user ∈ pcAdmins c) (ListPendingChanges s).

Definition executeStep (n : nat) (id : string) (now : Z) (ok : bool) (s : State) : State :=
  match vApproving s !! n with
  | Some (CDecided a p) =>
      let s := happened (EvExecuted a p) s in
      let '(r, forget) := executeApproval a id now ok s in
      match r with
      | None => setApproving (<[n := CRan a true]> (vApproving s)) s
      | Some s =>
          match forget with
          | None => setApproving (<[n := CRan a false]> (vApproving s)) s
          | Some user =>
              let s := happened (EvForgot user a) s in
              setApproving (<[n := CForget a (forgetAdmin user s)]> (vApproving s)) s
          end
      end
  | _ => s
  end.

Definition forgetStep (n : nat) (ok : bool) (s : State) : State :=
  match vApproving s !! n with
  | Some (CForget a (c :: changes)) =>
      let s := setApproving (<[n := CForget a changes]> (vApproving s)) s in
      if ok then default s (ReplacePendingChange c s) else s
  | Some (CForget a []) => setApproving (<[n := CRan a false]> (vApproving s)) s
  | _ => s
  end.

Definition recordStep (n : nat) (s : State) : State :=
  match vApproving s !! n with
  | Some (CRan a failed) =>
      let s := setApproving (delete n (vApproving s)) s in
      match UpdateApproval (apID a) (λ r, Some (if failed then withStatus ApprovalFailed r else r)) s with
      | Some (_, s) => s
      | None => s
      end
  | _ => s
  end.

(** ** Due changes *)

Definition CancelPendingChange (p : option Principal) (id : string) (s : State) : State :=
  if principalAllows p ScopeAdmin then default s (DeletePendingChange id s) else s.

(** [ApplyDueChanges] reads the list. *)
Definition sweepStart (n : nat) (now : Z) (s : State) : State :=
  if bool_decide (is_Some (vSweeps s !! n)) then s
  else setSweeps (<[n := mkSweep now (ListPendingChanges s) None]> (vSweeps s)) s.

(** The next change of the list is taken, unless it is not due or gone. *)
Definition sweepTake (n : nat) (s : State) : State :=
  match vSweeps s !! n with
  | Some (mkSweep now (c :: l) None) =>
      if now <? pcEffectiveAt c then setSweeps (<[n := mkSweep now l None]> (vSweeps s)) s
      else match DeletePendingChange (pcID c) s with
           | None => setSweeps (<[n := mkSweep now l None]> (vSweeps s)) s
           | Some s => setSweeps (<[n := mkSweep now l (Some c)]> (vSweeps s)) s
           end
  | Some (mkSweep _ [] None) => setSweeps (delete n (vSweeps s)) s
  | _ => s
  end.

Definition lowerSettings (ok : bool) (p : Patch) (s : State) : State :=
  match UpdateChanged ok true p (vSettings s) with Some st => setSettings st s | None => s end.

Definition applyRetentionChange (ok : bool) (c : PendingChange) (s : State) : State :=
  match vJobs s !! pcJobID c with
  | None => s
  | Some j =>
      if match pcJobCreatedAt c with Some b => negb (jrCreatedAt j =? b) | None => false end || negb ok then s
      else setJobs (<[pcJobID c := mkJobR (default (jrDays j) (pcRetentionDays c)) (default (jrCount j) (pcRetentionCount c)) (jrCreatedAt j)]> (vJobs s)) s
  end.

Definition applyGraceChange (ok : bool) (c : PendingChange) (s : State) : State :=
  match pcDeleteGraceDays c with
  | Some d => if stGraceDays (vSettings s) <=? d then s else lowerSettings ok (mkPatch (Some d) None None None) s
  | None => s
  end.

Definition applyMetadataRetentionChange (ok : bool) (c : PendingChange) (s : State) : State :=
  match pcMetadataRetentionCount c with
  | Some n => if stMetadataCount (vSettings s) <=? n then s else lowerSettings ok (mkPatch None None None (Some n)) s
  | None => s
  end.

Definition applyDisableLockedCopies (ok : bool) (s : State) : State :=
  if stLockedCopies (vSettings s) then lowerSettings ok (mkPatch None None (Some false) None) s else s.

(** [read1] and [read2]: the users could be read for the two checks. *)
Definition applyDisableSecondApprover (ok read1 read2 : bool) (c : PendingChange) (s : State) : State :=
  if read1 && is_ok (CheckSecondApproverPossible (vUsers s)) then s
  else if negb (bool_decide (pcAdmins c = [])) && negb read2 then s
  else match adminLost (vUsers s) c with
       | Some _ => s
       | None => lowerSettings ok (mkPatch None (Some false) None None) s
       end.

(** The taken change is applied; object locks and the locked copies of jobs belong to
    other components. *)
Definition applyChange (ok read1 read2 : bool) (c : PendingChange) (s : State) : State :=
  match pcKind c with
  | PendingRetention => applyRetentionChange ok c s
  | PendingDeleteGrace => applyGraceChange ok c s
  | PendingMetadataRetention => applyMetadataRetentionChange ok c s
  | PendingDisableLockedCopies => applyDisableLockedCopies ok s
  | PendingDisableSecondApprover => applyDisableSecondApprover ok read1 read2 c s
  | PendingObjectLock | PendingJobLockedCopies => s
  end.

Definition sweepApply (n : nat) (ok read1 read2 : bool) (s : State) : State :=
  match vSweeps s !! n with
  | Some (mkSweep now l (Some c)) => applyChange ok read1 read2 c (setSweeps (<[n := mkSweep now l None]> (vSweeps s)) s)
  | _ => s
  end.

(** ** Job edits *)

Definition shorter (v old : Z) : bool := (v >? 0) && ((old =? 0) || (v <? old)).

(** [HoldRetention] against the retention [(days0, count0)]: what is stored and held. *)
Definition HoldRetention (days0 count0 days count : Z) : Z * Z * option RetentionHold :=
  let hd := if shorter days days0 then Some days else None in
  let hc := if shorter count count0 then Some count else None in
  (if hd then days0 else days, if hc then count0 else count,
   match hd, hc with None, None => None | _, _ => Some (mkHold hd hc) end).

(** The read of an edit, or of a new job; [backups]: its ID already names some. *)
Definition editStart (n : nat) (p : option Principal) (job : string) (days count : option Z) (backups : bool) (s : State) : State :=
  if bool_decide (is_Some (vEdits s !! n)) then s
  else
    match vJobs s !! job with
    | Some j =>
        let '(d, c, h) := HoldRetention (jrDays j) (jrCount j) (default (jrDays j) days) (default (jrCount j) count) in
        setEdits (<[n := CEditing (mkEdit p job (Some j) d c h)]> (vEdits s)) s
    | None =>
        let '(d, c, h) := if backups then HoldRetention 0 0 (default 0 days) (default 0 count) else (default 0 days, default 0 count, None) in
        setEdits (<[n := CEditing (mkEdit p job None d c h)]> (vEdits s)) s
    end.

(** The store of an edit keeps the creation time of the row. *)
Definition editStore (n : nat) (now : Z) (ok : bool) (s : State) : State :=
  match vEdits s !! n with
  | Some (CEditing e) =>
      let fail := setEdits (delete n (vEdits s)) s in
      let store created := setEdits (<[n := CStored e]> (vEdits s)) (setJobs (<[edJob e := mkJobR (edDays e) (edCount e) created]> (vJobs s)) s) in
      if negb ok then fail
      else match edExisting e, vJobs s !! edJob e with
           | Some _, Some current => store (jrCreatedAt current)
           | None, None => store now
           | _, _ => fail
           end
  | _ => s
  end.

(** [ApplyRetentionHold]. *)
Definition editHold (n : nat) (id : string) (now : Z) (ok : bool) (s : State) : State :=
  match vEdits s !! n with
  | Some (CStored e) =>
      let s := setEdits (delete n (vEdits s)) s in
      match edHold e with
      | None =>
          let changed := match edExisting e with Some j => negb (edDays e =? jrDays j) || negb (edCount e =? jrCount j) | None => false end in
          if changed && ok then DeletePendingChangesOf PendingRetention (edJob e) s else s
      | Some h =>
          let r := if needsApproval None s
                   then storeApproval (edPrincipal e) id now ok
                          (mkAsk ApprovalShortenRetention (edJob e) (rhDays h) (rhCount h) None None (jrCreatedAt <$> vJobs s !! edJob e)) s
                   else scheduleRetention None id now ok (edJob e) (rhDays h) (rhCount h) None s in
          default s r
      end
  | _ => s
  end.

Definition DeleteJob (id : string) (s : State) : State :=
  match vJobs s !! id with
  | None => s
  | Some _ => DeletePendingChangesOf PendingRetention id (setJobs (delete id (vJobs s)) s)
  end.

(** ** Runs *)

Inductive op : Type :=
| OUsers (users : list User)
| ORequest (p : option Principal) (id : string) (now : Z) (q : ask)
| OUpdate (n : nat) (p : option Principal) (pa : Patch)
| OCommit (n : nat) (ok : bool)
| OFollow (n : nat) (id : string) (now : Z) (ok read : bool)
| OApprove (n : nat) (p : Principal) (id : string) (now : Z)
| OReject (p : option Principal) (id : string) (now : Z)
| OExpire (id : string) (now : Z)
| OExecute (n : nat) (id : string) (now : Z) (ok : bool)
| OForget (n : nat) (ok : bool)
| ORecord (n : nat)
| OCancel (p : option Principal) (id : string)
| OSweep (n : nat) (now : Z)
| OTake (n : nat)
| OApply (n : nat) (ok read1 read2 : bool)
| OEdit (n : nat) (p : option Principal) (job : string) (days count : option Z) (backups : bool)
| OStore (n : nat) (now : Z) (ok : bool)
| OHold (n : nat) (id : string) (now : Z) (ok : bool)
| ODeleteJob (id : string).

Definition exec (s : State) (o : op) : State :=
  match o with
  | OUsers users => setUsers users s
  | ORequest p id now q => default s (storeApproval p id now true q s)
  | OUpdate n p pa =>
      if bool_decide (is_Some (vUpdates s !! n)) then s
      else match UpdateSettings p pa s with Some u => setUpdates (<[n := CReading u]> (vUpdates s)) s | None => s end
  | OCommit n ok => commitUpdate n ok s
  | OFollow n id now ok read => followStep n id now ok read s
  | OApprove n p id now => Approve n p id now s
  | OReject p id now => Reject p id now s
  | OExpire id now => expireApproval id now s
  | OExecute n id now ok => executeStep n id now ok s
  | OForget n ok => forgetStep n ok s
  | ORecord n => recordStep n s
  | OCancel p id => CancelPendingChange p id s
  | OSweep n now => sweepStart n now s
  | OTake n => sweepTake n s
  | OApply n ok read1 read2 => sweepApply n ok read1 read2 s
  | OEdit n p job days count backups => editStart n p job days count backups s
  | OStore n now ok => editStore n now ok s
  | OHold n id now ok => editHold n id now ok s
  | ODeleteJob id => DeleteJob id s
  end.

Definition run (ops : list op) (s : State) : State := foldl exec s ops.
