(* ===== verification/ProtectionSafety.v ===== *)
(** * What the delete protection guarantees

    Two invariants of every interleaving: of the requests (who decided them, each executed
    at most once) and of the pending changes (each scheduled with its grace period). *)

From S2P Require Import Prelude Glob Selection Access Protection.

(** ** Requests *)

(** The approver of an executed request. *)
Definition Sound (a : Approval) (p : Principal) : Prop :=
  is_ok (CheckApprover (Some p) (apRequestedByUserID a) (apCreatedAt a)) = true /\
  ∃ t, apDecidedAt a = Some t /\ t < apExpiresAt a.

(** The request as it was made. *)
Definition asked (a0 a : Approval) : Prop :=
  apID a0 = apID a /\ apAsk a0 = apAsk a /\ apRequestedByUserID a0 = apRequestedByUserID a /\
  apCreatedAt a0 = apCreatedAt a /\ apExpiresAt a0 = apExpiresAt a.

Definition Requested (a : Approval) (l : list event) : Prop :=
  apExpiresAt a = apCreatedAt a + ApprovalTTL /\ ∃ a0, EvRequested a0 ∈ l /\ asked a0 a.

Definition executedID (e : event) : option string := match e with EvExecuted a _ => Some (apID a) | _ => None end.

Definition executedIDs (l : list event) : list string := omap executedID l.

Definition ranStatus (st : ApprovalStatus) : Prop := st = ApprovalApproved \/ st = ApprovalFailed.

Definition callOf (c : approveCall) : Approval := match c with CDecided a _ | CForget a _ | CRan a _ => a end.

Record AInv (ap : gmap string Approval) (calls : gmap nat approveCall) (l : list event) : Prop := {
  ai_row id a : ap !! id = Some a -> apID a = id /\ Requested a l;
  ai_call n c : calls !! n = Some c -> ∃ a, ap !! apID (callOf c) = Some a /\ ranStatus (apStatus a) /\ Requested (callOf c) l;
  ai_decided n a p : calls !! n = Some (CDecided a p) -> Sound a p /\ apID a ∉ executedIDs l;
  ai_once n1 n2 a1 a2 p1 p2 : calls !! n1 = Some (CDecided a1 p1) -> calls !! n2 = Some (CDecided a2 p2) -> apID a1 = apID a2 -> n1 = n2;
  ai_executed a p : EvExecuted a p ∈ l -> Sound a p /\ Requested a l /\ ∃ a', ap !! apID a = Some a' /\ ranStatus (apStatus a');
  ai_nodup : NoDup (executedIDs l)
}.

Definition AI (s : State) : Prop := AInv (vApprovals s) (vApproving s) (vLog s).

Lemma executedIDs_app l l' : executedIDs (l ++ l') = executedIDs l ++ executedIDs l'.
Proof. apply omap_app. Qed.

Lemma elem_of_executedIDs id l : id ∈ executedIDs l <-> ∃ a p, EvExecuted a p ∈ l /\ apID a = id.
Proof.
  unfold executedIDs. rewrite list_elem_of_omap. split.
  - intros (e & He & Hid). destruct e; try done. injection Hid as <-. eauto.
  - intros (a & p & Ha & <-). by exists (EvExecuted a p).
Qed.

Lemma Requested_mono a l l' : Requested a l -> Requested a (l ++ l').
Proof. intros [H (a0 & H0 & Ha)]. split; [done|]. exists a0. split; [|done]. apply elem_of_app. by left. Qed.

(** Events that are no executions. *)
Lemma AInv_log ap calls l e : executedID e = None -> AInv ap calls l -> AInv ap calls (l ++ [e]).
Proof.
  intros He H. assert (executedIDs (l ++ [e]) = executedIDs l) as E by (rewrite executedIDs_app; cbn; by rewrite He, app_nil_r).
  destruct H. split; rewrite ?E; try done.
  - intros id a Ha. destruct (ai_row0 id a Ha). split; [done|by apply Requested_mono].
  - intros n c Hc. destruct (ai_call0 n c Hc) as (a & ? & ? & ?). exists a. split_and!; [done|done|by apply Requested_mono].
  - intros a p [Ha|Ha]%elem_of_app; [|apply list_elem_of_singleton in Ha; subst; done].
    destruct (ai_executed0 a p Ha) as (? & ? & ?). split_and!; [done|by apply Requested_mono|done].
Qed.

Lemma AInv_insert ap calls l a : ap !! apID a = None -> Requested a l -> AInv ap calls l -> AInv (<[apID a := a]> ap) calls l.
Proof.
  intros Hf Hr H. assert (∀ id x, ap !! id = Some x -> <[apID a := a]> ap !! id = Some x) as Hk.
  { intros id x Hx. rewrite lookup_insert_ne; [done|]. intros <-. congruence. }
  destruct H. split; try done.
  - intros id x [[<- <-]|[_ Hx]]%lookup_insert_Some; [done|eauto].
  - intros n c Hc. destruct (ai_call0 n c Hc) as (x & Hx & ?). exists x. split; [by apply Hk|done].
  - intros x p Hx. destruct (ai_executed0 x p Hx) as (? & ? & x' & Hx' & ?). split_and!; [done|done|]. exists x'. split; [by apply Hk|done].
Qed.

(** A row changes its status or decision. *)
Lemma AInv_row ap calls l id a a' :
  ap !! id = Some a -> asked a a' -> (ranStatus (apStatus a) -> ranStatus (apStatus a')) -> AInv ap calls l -> AInv (<[id := a']> ap) calls l.
Proof.
  intros Ha (E1 & E2 & E3 & E4 & E5) Hst H.
  assert (∀ i x, ap !! i = Some x -> ranStatus (apStatus x) -> ∃ y, <[id := a']> ap !! i = Some y /\ ranStatus (apStatus y)) as Hk.
  { intros i x Hx Hr. destruct (decide (i = id)) as [->|Hne].
    - exists a'. rewrite lookup_insert_eq. split; [done|]. apply Hst. congruence.
    - exists x. by rewrite lookup_insert_ne. }
  destruct H. split; try done.
  - intros i x [[<- <-]|[_ Hx]]%lookup_insert_Some; [|eauto]. destruct (ai_row0 _ _ Ha) as [Hi [Ht (a0 & H0 & Hq)]].
    split; [congruence|]. split; [congruence|]. exists a0. split; [done|]. unfold asked in *. destruct Hq as (? & ? & ? & ? & ?). split_and!; congruence.
  - intros n c Hc. destruct (ai_call0 n c Hc) as (x & Hx & Hr & Hq). destruct (Hk _ x Hx Hr) as (y & Hy & Hry). exists y. done.
  - intros x p Hx. destruct (ai_executed0 x p Hx) as (? & ? & x' & Hx' & Hr). split_and!; [done|done|]. by apply (Hk _ x').
Qed.

(** A call goes on to a later phase, or ends. *)
Lemma AInv_call ap calls l n c : (∀ a p, c <> CDecided a p) -> (∃ c', calls !! n = Some c' /\ callOf c' = callOf c) -> AInv ap calls l -> AInv ap (<[n := c]> calls) l.
Proof.
  intros Hc (c' & Hc' & E) H. destruct H. split; try done.
  - intros m x [[<- <-]|[_ Hx]]%lookup_insert_Some; [rewrite <- E; eauto|eauto].
  - intros m a p [[<- Hx]|[_ Hx]]%lookup_insert_Some; [by destruct (Hc a p)|eauto].
  - intros n1 n2 a1 a2 p1 p2 [[<- Hx]|[_ Hx]]%lookup_insert_Some; [by destruct (Hc a1 p1)|].
    intros [[<- Hy]|[_ Hy]]%lookup_insert_Some; [by destruct (Hc a2 p2)|eauto].
Qed.

Lemma AInv_end ap calls l n : AInv ap calls l -> AInv ap (delete n calls) l.
Proof.
  intros H. destruct H. split; try done.
  - intros m x [_ Hx]%lookup_delete_Some. eauto.
  - intros m a p [_ Hx]%lookup_delete_Some. eauto.
  - intros n1 n2 a1 a2 p1 p2 [_ Hx]%lookup_delete_Some [_ Hy]%lookup_delete_Some. eauto.
Qed.

(** The decided action runs. *)
Lemma AInv_execute ap calls l n a p failed :
  calls !! n = Some (CDecided a p) -> AInv ap calls l -> AInv ap (<[n := CRan a failed]> calls) (l ++ [EvExecuted a p]).
Proof.
  intros Hn H. destruct (ai_decided _ _ _ H n a p Hn) as [Hs Hx]. destruct (ai_call _ _ _ H n _ Hn) as (a' & Ha' & Hr & Hq). cbn in *.
  assert (executedIDs (l ++ [EvExecuted a p]) = executedIDs l ++ [apID a]) as E by (by rewrite executedIDs_app).
  destruct H. split; rewrite ?E.
  - intros id x Hid. destruct (ai_row0 id x Hid). split; [done|by apply Requested_mono].
  - intros m c [[<- <-]|[_ Hc]]%lookup_insert_Some; [exists a'; split_and!; [done|done|by apply Requested_mono]|].
    destruct (ai_call0 m c Hc) as (x & ? & ? & ?). exists x. split_and!; [done|done|by apply Requested_mono].
  - intros m b q [[<- Hc]|[Hne Hc]]%lookup_insert_Some; [done|]. destruct (ai_decided0 m b q Hc). split; [done|].
    intros [Hin|Hin]%elem_of_app; [done|]. apply list_elem_of_singleton in Hin. by apply Hne, (ai_once0 n m a b p q Hn Hc).
  - intros n1 n2 a1 a2 p1 p2 [[<- Hc]|[_ Hc]]%lookup_insert_Some; [done|].
    intros [[<- Hy]|[_ Hy]]%lookup_insert_Some; [done|eauto].
  - intros b q [Hin|Hin]%elem_of_app.
    + destruct (ai_executed0 b q Hin) as (? & ? & ?). split_and!; [done|by apply Requested_mono|done].
    + apply list_elem_of_singleton in Hin. injection Hin as -> ->. split_and!; [done|by apply Requested_mono|by exists a'].
  - apply NoDup_app. split_and!; [done| |apply NoDup_singleton]. intros id Hid ->%list_elem_of_singleton. done.
Qed.

(** An open request is approved. *)
Lemma AInv_approve ap calls l n id a0 p by_ t :
  ap !! id = Some a0 -> apStatus a0 = ApprovalPending -> t < apExpiresAt a0 -> calls !! n = None ->
  is_ok (CheckApprover (Some p) (apRequestedByUserID a0) (apCreatedAt a0)) = true ->
  AInv ap calls l ->
  AInv (<[id := decided ApprovalApproved by_ t a0]> ap) (<[n := CDecided (decided ApprovalApproved by_ t a0) p]> calls) l.
Proof.
  intros Ha Hp Ht Hn Hc H. set (a := decided _ _ _ _).
  assert (∀ x, ap !! apID x = Some a0 -> ranStatus (apStatus a0) -> False) as Hno by (intros x _ [E|E]; congruence).
  pose proof (AInv_row ap calls l id a0 a Ha ltac:(by split_and!) ltac:(by left) H) as H'.
  destruct (ai_row _ _ _ H id a0 Ha) as [Hid Hq]. destruct H' as [R C D O X N]. split.
  - done.
  - intros m c [[<- <-]|[_ Hm]]%lookup_insert_Some; [|eauto]. exists a. cbn. rewrite Hid, lookup_insert_eq. split_and!; [done|by left|].
    destruct Hq as [? (b & ? & ?)]. split; [done|]. by exists b.
  - intros m b q [[<- [= <- <-]]|[_ Hm]]%lookup_insert_Some; [|eauto]. split; [split; [done|]; by exists t|].
    intros (b & q & Hb & Eb)%elem_of_executedIDs. destruct (ai_executed _ _ _ H b q Hb) as (_ & _ & b' & Hb' & Hr).
    cbn in Eb. rewrite Eb, Hid, Ha in Hb'. injection Hb' as <-. by destruct Hr as [E|E]; congruence.
  - assert (∀ m b q, calls !! m = Some (CDecided b q) -> apID b = apID a -> False) as Hun.
    { intros m b q Hm Eb. destruct (ai_call _ _ _ H m _ Hm) as (b' & Hb' & Hr & _). cbn in Hb', Eb. rewrite Eb, Hid, Ha in Hb'.
      injection Hb' as <-. by destruct Hr as [E|E]; congruence. }
    intros n1 n2 a1 a2 p1 p2 [[<- [= <- <-]]|[Hn1 H1]]%lookup_insert_Some [[<- [= <- <-]]|[Hn2 H2]]%lookup_insert_Some E; [done| | |eauto].
    + exfalso. by eapply Hun.
    + exfalso. by eapply Hun.
  - done.
  - done.
Qed.

(** ** Every step keeps the requests in order *)

Lemma ReplacePendingChange_Some c s s' : ReplacePendingChange c s = Some s' ->
  s' = setChanges (<[pcID c := c]> (vChanges (DeletePendingChangesOf (pcKind c) (Subject c) s))) s.
Proof. unfold ReplacePendingChange. cbn. case_match; [done|]. by intros [= <-]. Qed.

(** The change as it is scheduled. *)
Definition stamped (id : string) (now grace : Z) (c : PendingChange) : PendingChange :=
  mkChange id (pcKind c) (pcJobID c) (pcJobCreatedAt c) (pcRetentionDays c) (pcRetentionCount c) (pcDeleteGraceDays c)
    (pcMetadataRetentionCount c) (pcTargetID c) (pcAdmins c) now (now + GraceDuration grace).

Lemma schedulePending_Some ctx id now ok c s s' : schedulePending ctx id now ok c s = Some s' ->
  let c' := stamped id now (stGraceDays (vSettings s)) c in
  s' = happened (EvScheduled c' (stGraceDays (vSettings s)) (stSecondApprover (vSettings s)) (vUsers s) (apID <$> ctx))
         (setChanges (<[id := c']> (vChanges (DeletePendingChangesOf (pcKind c') (Subject c') s))) s).
Proof.
  unfold schedulePending. destruct ok; [|done]. intros (t & Ht & ->)%fmap_Some. apply ReplacePendingChange_Some in Ht. by rewrite Ht.
Qed.

Lemma AI_schedule ctx id now ok c s s' : schedulePending ctx id now ok c s = Some s' -> AI s -> AI s'.
Proof. intros ->%schedulePending_Some H. by apply AInv_log. Qed.

Lemma scheduleRetention_Some ctx id now ok job days count bound s s' : scheduleRetention ctx id now ok job days count bound s = Some s' ->
  ∃ j, vJobs s !! job = Some j /\ schedulePending ctx id now ok (retentionChange job (Some (jrCreatedAt j)) days count) s = Some s'.
Proof. unfold scheduleRetention. destruct (vJobs s !! job) as [j|]; [|done]. case_match; [done|]. eauto. Qed.

Lemma scheduleJobLockedCopies_Some ctx id now ok job bound s s' : scheduleJobLockedCopies ctx id now ok job bound s = Some s' ->
  ∃ j, vJobs s !! job = Some j /\ schedulePending ctx id now ok (jobCopiesChange job (Some (jrCreatedAt j))) s = Some s'.
Proof. unfold scheduleJobLockedCopies. destruct (vJobs s !! job) as [j|]; [|done]. case_match; [done|]. eauto. Qed.

Lemma storeApproval_Some p id now ok q s s' : storeApproval p id now ok q s = Some s' ->
  ∃ a, apID a = id /\ apExpiresAt a = apCreatedAt a + ApprovalTTL /\ vApprovals s !! id = None /\
    s' = happened (EvRequested a) (setApprovals (<[id := a]> (vApprovals s)) s).
Proof.
  unfold storeApproval, CreateApproval. case_match; [done|]. cbn. intros (t & Ht & ->)%fmap_Some.
  destruct (vApprovals s !! id) eqn:E; [done|]. injection Ht as <-. eexists. split_and!; [..|done|reflexivity]; done.
Qed.

Lemma AI_store p id now ok q s s' : storeApproval p id now ok q s = Some s' -> AI s -> AI s'.
Proof.
  intros (a & <- & Ht & Hf & ->)%storeApproval_Some H. apply AInv_insert; [done| |by apply AInv_log].
  split; [done|]. exists a. split; [set_solver|by split_and!].
Qed.

Lemma AI_followUp p f id now ok read s s' : followUp p f id now ok read s = Some s' -> AI s -> AI s'.
Proof.
  intros Hf H. destruct f; cbn in Hf.
  - destruct ok; [|done]. by injection Hf as <-.
  - destruct (needsApproval None s); [by eapply AI_store|by eapply AI_schedule].
  - destruct (needsApproval None s); [by eapply AI_store|by eapply AI_schedule].
  - destruct (needsApproval None s); [by eapply AI_store|by eapply AI_schedule].
  - destruct (_ && _); [by eapply AI_schedule|by eapply AI_store].
Qed.

Lemma UpdateApproval_Some id fn s a' s' : UpdateApproval id fn s = Some (a', s') ->
  ∃ a, vApprovals s !! id = Some a /\ fn a = Some a' /\ s' = setApprovals (<[id := a']> (vApprovals s)) s.
Proof.
  unfold UpdateApproval. intros (a & Ha & Hf)%bind_Some. apply bind_Some in Hf as (b & Hb & [= <- <-]). eauto.
Qed.

Lemma AI_update id fn s a' s' :
  (∀ a, fn a = Some a' -> asked a a' /\ (ranStatus (apStatus a) -> ranStatus (apStatus a'))) ->
  UpdateApproval id fn s = Some (a', s') -> AI s -> AI s'.
Proof. intros Hfn (a & Ha & Hf & ->)%UpdateApproval_Some H. destruct (Hfn a Hf). by eapply AInv_row. Qed.

Lemma AI_Approve n p id now s : AI s -> AI (Approve n p id now s).
Proof.
  intros H. unfold Approve. case_match eqn:Eg; [done|]. apply orb_false_iff in Eg as [_ Hn].
  apply bool_decide_eq_false, eq_None_not_Some in Hn. destruct (decide_ _ _ _ _ _ _) as [[a s']|] eqn:Ed; [|done].
  apply UpdateApproval_Some in Ed as (a0 & Ha & Hf & ->). case_bool_decide as Hp; cbn in Hf; [|done].
  destruct (negb (Open now a0)) eqn:Eo.
  - injection Hf as <-. cbn. apply (AInv_row _ _ _ id a0); [done|by split_and!| |done]. intros [E|E]; congruence.
  - destruct (negb (is_ok _)) eqn:Ec; [done|]. injection Hf as <-. rewrite bool_decide_true by done. cbn.
    apply negb_false_iff in Eo. unfold Open in Eo. apply andb_true_iff in Eo as [_ Ho]. apply negb_false_iff in Ec.
    apply AInv_approve; [done|done|lia|done|done|done].
Qed.

Lemma AI_Reject p id now s : AI s -> AI (Reject p id now s).
Proof.
  intros H. unfold Reject. case_match; [|done]. destruct (decide_ _ _ _ _ _ _) as [[a s']|] eqn:Ed; [|done].
  eapply AI_update; [|exact Ed|done]. intros a0. cbv beta. case_bool_decide as Hp; [|done]. cbn [negb].
  destruct (negb (Open now a0)); intros [= <-]; (split; [by split_and!|]; intros [E|E]; congruence).
Qed.

Lemma AI_expire id now s : AI s -> AI (expireApproval id now s).
Proof.
  intros H. unfold expireApproval. destruct (UpdateApproval _ _ _) as [[a s']|] eqn:Ed; [|done].
  eapply AI_update; [|exact Ed|done]. intros a0. cbv beta. case_bool_decide as Hp; cbn; [|done]. destruct (Open now a0); [done|].
  intros [= <-]. split; [by split_and!|]. intros [E|E]; congruence.
Qed.

(** What a scheduled change leaves alone. *)
Record framed (s s' : State) : Prop := {
  fr_approvals : vApprovals s' = vApprovals s;
  fr_approving : vApproving s' = vApproving s;
  fr_log : ∃ l, vLog s' = vLog s ++ l /\ Forall (λ e, executedID e = None) l
}.

Lemma framed_refl s : framed s s.
Proof. split; [done|done|]. exists []. by rewrite app_nil_r. Qed.

Lemma framed_settings st s : framed s (setSettings st s).
Proof. split; [done|done|]. exists []. by rewrite app_nil_r. Qed.

Lemma framed_schedule ctx id now ok c s s' : schedulePending ctx id now ok c s = Some s' -> framed s s'.
Proof. intros ->%schedulePending_Some. split; [done|done|]. eexists. split; [reflexivity|]. by repeat constructor. Qed.

Lemma framed_execute a id now ok s s' f : executeApproval a id now ok s = (Some s', f) -> framed s s'.
Proof.
  intros He. unfold executeApproval in He.
  destruct (asAction (apAsk a)); try (destruct ok; simplify_eq; by apply framed_refl).
  - destruct (asSubjectCreatedAt _); [|done]. injection He as He _. apply scheduleRetention_Some in He as (j & _ & He). by eapply framed_schedule.
  - destruct (asDeleteGraceDays _); [|done]. injection He as He _. by eapply framed_schedule.
  - injection He as He _. apply fmap_Some in He as (st & _ & ->). apply framed_settings.
  - destruct (asMetadataRetentionCount _); [|done]. injection He as He _. by eapply framed_schedule.
  - injection He as He _. by eapply framed_schedule.
  - destruct (asSubjectCreatedAt _); [|done]. injection He as He _. apply scheduleJobLockedCopies_Some in He as (j & _ & He). by eapply framed_schedule.
Qed.

Lemma AInv_logs ap calls l l' : Forall (λ e, executedID e = None) l' -> AInv ap calls l -> AInv ap calls (l ++ l').
Proof.
  revert l. induction l' as [|e l' IH]; intros l Hl H; [by rewrite app_nil_r|]. apply Forall_cons in Hl as [He Hl].
  rewrite cons_middle, app_assoc. by apply IH, AInv_log.
Qed.

Lemma AI_executeStep n id now ok s : AI s -> AI (executeStep n id now ok s).
Proof.
  intros H. unfold executeStep. destruct (vApproving s !! n) as [[a p| |]|] eqn:En; [|done|done|done].
  destruct (executeApproval a id now ok (happened (EvExecuted a p) s)) as [[s'|] f] eqn:Ex.
  2: by apply (AInv_execute _ _ _ n a p true).
  destruct (framed_execute _ _ _ _ _ _ _ Ex) as [E1 E2 (l & E3 & Hl)]. cbn in E1, E2, E3.
  pose proof (AInv_logs _ _ _ l Hl (AInv_execute _ _ _ n a p false En H)) as H'.
  destruct f as [user|]; unfold AI; cbn; rewrite E1, E2, E3.
  - apply AInv_log; [done|].
    pose proof (AInv_call _ _ _ n (CForget a (forgetAdmin user (happened (EvForgot user a) s'))) ltac:(done)
      (ex_intro _ (CRan a false) (conj (lookup_insert_eq _ _ _) eq_refl)) H') as H2. by rewrite insert_insert_eq in H2.
  - exact H'.
Qed.

Lemma AI_forgetStep n ok s : AI s -> AI (forgetStep n ok s).
Proof.
  intros H. unfold forgetStep. destruct (vApproving s !! n) as [[a p|a [|c cs]|]|] eqn:En; [done| | |done|done].
  - apply AInv_call; [done| |done]. by eexists.
  - assert (AI (setApproving (<[n := CForget a cs]> (vApproving s)) s)) as H' by (apply AInv_call; [done|by eexists|done]).
    destruct ok; [|done]. destruct (ReplacePendingChange _ _) as [s'|] eqn:Er; [|done]. cbn.
    apply ReplacePendingChange_Some in Er as ->. exact H'.
Qed.

Lemma AI_recordStep n s : AI s -> AI (recordStep n s).
Proof.
  intros H. unfold recordStep. destruct (vApproving s !! n) as [[a p|a cs|a failed]|] eqn:En; [done|done| |done].
  assert (AI (setApproving (delete n (vApproving s)) s)) as H' by (by apply AInv_end).
  destruct (UpdateApproval _ _ _) as [[a' s']|] eqn:Ed; [|done]. eapply AI_update; [|exact Ed|done].
  intros r [= <-]. destruct failed; [|by split]. split; [by split_and!|]. intros _. by right.
Qed.

Lemma AI_lower ok p s : AI s -> AI (lowerSettings ok p s).
Proof. intros H. unfold lowerSettings. by destruct (UpdateChanged _ _ _ _). Qed.

Lemma AI_apply ok r1 r2 c s : AI s -> AI (applyChange ok r1 r2 c s).
Proof.
  intros H. unfold applyChange. destruct (pcKind c); [unfold applyRetentionChange|unfold applyGraceChange|unfold applyMetadataRetentionChange
    |unfold applyDisableSecondApprover|done|unfold applyDisableLockedCopies|done]; repeat case_match; (done || by apply AI_lower).
Qed.

Lemma AI_exec s o : AI s -> AI (exec s o).
Proof.
  intros H. destruct o as [us|p id now q|n p pa|n ok|n id now ok rd|n p id now|p id now|id now|n id now ok|n ok|n|p id|n now|n|n ok r1 r2|n p j d c b|n now ok|n id now ok|id]; cbn [exec].
  - done.
  - destruct (storeApproval _ _ _ _ _ _) as [s'|] eqn:E; [|done]. by eapply AI_store.
  - case_match; [done|]. by destruct (UpdateSettings _ _ _).
  - unfold commitUpdate. repeat case_match; done.
  - unfold followStep. destruct (vUpdates s !! n) as [[u|p [|f todo]]|]; try done.
    destruct (followUp _ _ _ _ _ _ _) as [s'|] eqn:E; [|done]. by eapply (AI_followUp p f id now ok rd s) in E.
  - by apply AI_Approve.
  - by apply AI_Reject.
  - by apply AI_expire.
  - by apply AI_executeStep.
  - by apply AI_forgetStep.
  - by apply AI_recordStep.
  - unfold CancelPendingChange, DeletePendingChange. repeat case_match; done.
  - unfold sweepStart. by case_match.
  - unfold sweepTake, DeletePendingChange. repeat case_match; simplify_eq; done.
  - unfold sweepApply. destruct (vSweeps s !! n) as [[now l [c|]]|]; try done. by apply AI_apply.
  - unfold editStart. repeat case_match; done.
  - unfold editStore. repeat case_match; done.
  - unfold editHold. destruct (vEdits s !! n) as [[e|e]|]; try done. destruct (edHold e) as [h|]; [|by case_match].
    destruct (needsApproval None _).
    + destruct (storeApproval _ _ _ _ _ _) as [s'|] eqn:E; [|done]. by eapply AI_store in E.
    + destruct (scheduleRetention _ _ _ _ _ _ _ _ _) as [s'|] eqn:E; [|done]. apply scheduleRetention_Some in E as (j & _ & E). by eapply AI_schedule in E.
  - unfold DeleteJob. by case_match.
Qed.

Lemma AI_run ops s : AI s -> AI (run ops s).
Proof. revert s. induction ops as [|o ops IH]; intros s H; [done|]. by apply IH, AI_exec. Qed.

Lemma AI_init st users jobs : AI (initState st users jobs).
Proof. split; cbn; try done; [intros a p []%not_elem_of_nil|constructor]. Qed.

(** [C4] The two-person rule: whatever requests, decisions, executions and expiries interleave, an approved action ran for
    a request that was made and was open, with the rights of a signed-in administrator other than the requester whose role
    is older than the request; it never ran twice, and the request is stored as approved or failed, never as rejected or
    expired. *)
Theorem two_person_rule st users jobs ops a p :
  EvExecuted a p ∈ vLog (run ops (initState st users jobs)) ->
  (∃ u, pUser p = Some u /\ pMethod p = MethodSession /\ pScope p = ScopeAdmin /\
     (apRequestedByUserID a = "" \/ uID u <> apRequestedByUserID a) /\
     (apCreatedAt a = 0 \/ (uRoleChangedAt u <> 0 /\ uRoleChangedAt u < apCreatedAt a))) /\
  (∃ t, apDecidedAt a = Some t /\ t < apCreatedAt a + ApprovalTTL) /\
  (∃ a0, EvRequested a0 ∈ vLog (run ops (initState st users jobs)) /\ asked a0 a) /\
  (∃ a', vApprovals (run ops (initState st users jobs)) !! apID a = Some a' /\ ranStatus (apStatus a')) /\
  NoDup (executedIDs (vLog (run ops (initState st users jobs)))).
Proof.
  intros He. destruct (AI_run ops _ (AI_init st users jobs)) as [_ _ _ _ X N].
  destruct (X a p He) as ((Hc & t & Ht & Hlt) & [Hx Hq] & Hr). split_and!; try done; [|exists t; split; [done|lia]].
  destruct (CheckApprover _ _ _) as [[]|] eqn:E; [|done]. apply approver_sound in E as (q & u & [= <-] & ?). by exists u.
Qed.

(** ** Pending changes *)

(** The change was scheduled with its grace period, for an approved request when the
    two-person rule was on; turning that rule off was scheduled when too few
    administrators could approve it, and administrators missing since were forgotten by
    an approved request. *)
Definition Announced (c : PendingChange) (l : list event) : Prop :=
  ∃ c0 g second us ap, EvScheduled c0 g second us ap ∈ l /\ c = withAdmins (pcAdmins c) c0 /\
    pcEffectiveAt c0 = pcCreatedAt c0 + GraceDuration g /\
    (∀ id, id ∈ pcAdmins c0 -> id ∈ pcAdmins c \/ ∃ a p, EvForgot id a ∈ l /\ EvExecuted a p ∈ l) /\
    (pcKind c0 = PendingDisableSecondApprover -> (CountAdmins us < MinApprovalAdmins)%nat /\ pcAdmins c0 = adminIDs us) /\
    (second = true -> pcKind c0 <> PendingDisableSecondApprover -> ∃ a p, ap = Some (apID a) /\ EvExecuted a p ∈ l).

Lemma Announced_mono c l l' : Announced c l -> Announced c (l ++ l').
Proof.
  intros (c0 & g & sec & us & ap & H1 & H2 & H3 & H4 & H5 & H6). exists c0, g, sec, us, ap.
  assert (∀ e, e ∈ l -> e ∈ l ++ l') as Hin by (intros e He; apply elem_of_app; by left). split_and!; try done; [by apply Hin| |].
  - intros id Hid. destruct (H4 id Hid) as [|(a & p & Ha & Hp)]; [by left|right]. exists a, p. by split; apply Hin.
  - intros Hs Hk. destruct (H6 Hs Hk) as (a & p & ? & ?). exists a, p. split; [done|by apply Hin].
Qed.

Record CI (s : State) : Prop := {
  ci_row id c : vChanges s !! id = Some c -> Announced c (vLog s);
  ci_forget n a cs c : vApproving s !! n = Some (CForget a cs) -> c ∈ cs -> Announced c (vLog s);
  ci_list n w c : vSweeps s !! n = Some w -> c ∈ swList w -> Announced c (vLog s);
  ci_taken n w c : vSweeps s !! n = Some w -> swTaken w = Some c -> Announced c (vLog s) /\ pcEffectiveAt c <= swNow w
}.

(** A step keeps or announces what it adds. *)
Lemma CI_step s s' :
  CI s -> (∃ l, vLog s' = vLog s ++ l) ->
  (∀ id c, vChanges s' !! id = Some c -> (∃ i, vChanges s !! i = Some c) \/ Announced c (vLog s')) ->
  (∀ n a cs c, vApproving s' !! n = Some (CForget a cs) -> c ∈ cs ->
     (∃ n a cs, vApproving s !! n = Some (CForget a cs) /\ c ∈ cs) \/ Announced c (vLog s')) ->
  (∀ n w c, vSweeps s' !! n = Some w -> c ∈ swList w -> (∃ n w, vSweeps s !! n = Some w /\ c ∈ swList w) \/ Announced c (vLog s')) ->
  (∀ n w c, vSweeps s' !! n = Some w -> swTaken w = Some c -> vSweeps s !! n = Some w \/ (Announced c (vLog s') /\ pcEffectiveAt c <= swNow w)) ->
  CI s'.
Proof.
  intros [R F L T] [l El] HR HF HL HT.
  assert (∀ c, Announced c (vLog s) -> Announced c (vLog s')) as Hm by (intros c; rewrite El; apply Announced_mono). split.
  - intros id c Hc. destruct (HR id c Hc) as [(i & Hi)|]; [by eapply Hm, R|done].
  - intros n a cs c Hn Hc. destruct (HF n a cs c Hn Hc) as [(m & b & ds & Hm' & Hd)|]; [by eapply Hm, F|done].
  - intros n w c Hn Hc. destruct (HL n w c Hn Hc) as [(m & v & Hm' & Hd)|]; [by eapply Hm, L|done].
  - intros n w c Hn Hc. destruct (HT n w c Hn Hc) as [Hw|]; [|done]. destruct (T n w c Hw Hc). split; [by apply Hm|done].
Qed.

(** A step that concerns the changes in the table only. *)
Lemma CI_same s s' :
  CI s -> (∃ l, vLog s' = vLog s ++ l) -> (∀ id c, vChanges s' !! id = Some c -> vChanges s !! id = Some c \/ Announced c (vLog s')) ->
  vApproving s' = vApproving s -> vSweeps s' = vSweeps s -> CI s'.
Proof.
  intros H Hl Hc Ha Hs. apply (CI_step s s' H Hl); rewrite ?Ha, ?Hs.
  - intros id c Hi. destruct (Hc id c Hi); eauto.
  - intros n a cs c Hn Hcs. left. by exists n, a, cs.
  - intros n w c Hn Hcs. left. by exists n, w.
  - by left.
Qed.

Lemma log_refl (l : list event) : ∃ l', l = l ++ l'.
Proof. exists []. by rewrite app_nil_r. Qed.

Lemma log_one (l : list event) e : ∃ l', l ++ [e] = l ++ l'.
Proof. by eexists. Qed.

#[local] Hint Resolve log_refl log_one : core.

Lemma DeletePendingChangesOf_sub kind sub s id c : vChanges (DeletePendingChangesOf kind sub s) !! id = Some c -> vChanges s !! id = Some c.
Proof. cbn. intros [? _]%map_lookup_filter_Some. done. Qed.

Lemma CI_cancel kind sub s : CI s -> CI (DeletePendingChangesOf kind sub s).
Proof. intros H. apply (CI_same s); [done|apply log_refl| |done|done]. intros i c Hi. left. by apply DeletePendingChangesOf_sub in Hi. Qed.

(** Scheduling: allowed without an approval when the rule is off or, for the rule itself,
    when too few could approve. *)
Definition mayschedule (ctx : option Approval) (c : PendingChange) (s : State) : Prop :=
  (pcKind c = PendingDisableSecondApprover -> (CountAdmins (vUsers s) < MinApprovalAdmins)%nat /\ pcAdmins c = adminIDs (vUsers s)) /\
  (stSecondApprover (vSettings s) = true -> pcKind c <> PendingDisableSecondApprover -> ∃ a p, ctx = Some a /\ EvExecuted a p ∈ vLog s).

Lemma CI_schedule ctx id now ok c s s' : mayschedule ctx c s -> schedulePending ctx id now ok c s = Some s' -> CI s -> CI s'.
Proof.
  intros [M1 M2] Hs H. apply schedulePending_Some in Hs. cbn zeta in Hs. set (c' := stamped _ _ _ _) in Hs. subst s'.
  apply (CI_same s); [done|apply log_one| |done|done].
  cbn. intros i d [[<- <-]|[_ Hd]]%lookup_insert_Some; [right|left; by apply DeletePendingChangesOf_sub in Hd].
  do 5 eexists. split_and!; [apply elem_of_app; right; by apply list_elem_of_singleton|done|done|by left|done|].
  intros Hsec Hk. destruct (M2 Hsec Hk) as (a & p & -> & Hp). exists a, p. split; [done|]. apply elem_of_app. by left.
Qed.

Lemma CI_store p id now ok q s s' : storeApproval p id now ok q s = Some s' -> CI s -> CI s'.
Proof. intros (a & _ & _ & _ & ->)%storeApproval_Some H. apply (CI_same s); [done|apply log_one|by left|done|done]. Qed.

Lemma needs_off s : needsApproval None s = false -> stSecondApprover (vSettings s) = false.
Proof. unfold needsApproval. cbn. by rewrite andb_true_r. Qed.

Lemma may_off c s : pcKind c <> PendingDisableSecondApprover -> needsApproval None s = false -> mayschedule None c s.
Proof. intros Hk Hn. apply needs_off in Hn. split; [done|]. congruence. Qed.

Lemma CI_followUp p f id now ok read s s' : followUp p f id now ok read s = Some s' -> CI s -> CI s'.
Proof.
  intros Hf H. destruct f; cbn in Hf.
  - destruct ok; [|done]. injection Hf as <-. by apply CI_cancel.
  - destruct (needsApproval None s) eqn:En; [by eapply CI_store|]. eapply CI_schedule; [|exact Hf|done]. by apply may_off.
  - destruct (needsApproval None s) eqn:En; [by eapply CI_store|]. eapply CI_schedule; [|exact Hf|done]. by apply may_off.
  - destruct (needsApproval None s) eqn:En; [by eapply CI_store|]. eapply CI_schedule; [|exact Hf|done]. by apply may_off.
  - destruct (_ && _) eqn:Eb; [|by eapply CI_store]. eapply CI_schedule; [|exact Hf|done]. split; [|done]. intros _. split; [|done].
    apply andb_true_iff in Eb as [_ Eb]. unfold CheckSecondApproverPossible in Eb. destruct (Nat.ltb _ _) eqn:El; [|done]. by apply Nat.ltb_lt.
Qed.

Lemma may_executed a p c s : EvExecuted a p ∈ vLog s -> pcKind c <> PendingDisableSecondApprover -> mayschedule (Some a) c s.
Proof. intros He Hk. split; [done|]. intros _ _. by exists a, p. Qed.

Lemma CI_execute a p id now ok s s' f : EvExecuted a p ∈ vLog s -> executeApproval a id now ok s = (Some s', f) -> CI s -> CI s'.
Proof.
  intros Hp He H. unfold executeApproval in He.
  assert (∀ c, pcKind c <> PendingDisableSecondApprover -> schedulePending (Some a) id now ok c s = Some s' -> CI s') as Hs.
  { intros c Hk E. eapply CI_schedule; [|exact E|done]. by eapply may_executed. }
  destruct (asAction (apAsk a)); try (destruct ok; by simplify_eq).
  - destruct (asSubjectCreatedAt _); [|done]. injection He as He _. apply scheduleRetention_Some in He as (j & _ & He). by eapply Hs in He.
  - destruct (asDeleteGraceDays _); [|done]. injection He as He _. by eapply Hs in He.
  - injection He as He _. apply fmap_Some in He as (st & _ & ->). apply (CI_same s); [done|apply log_refl|by left|done|done].
  - destruct (asMetadataRetentionCount _); [|done]. injection He as He _. by eapply Hs in He.
  - injection He as He _. by eapply Hs in He.
  - destruct (asSubjectCreatedAt _); [|done]. injection He as He _. apply scheduleJobLockedCopies_Some in He as (j & _ & He). by eapply Hs in He.
Qed.

Lemma elem_of_ListPendingChanges c s : c ∈ ListPendingChanges s -> ∃ id, vChanges s !! id = Some c.
Proof.
  unfold ListPendingChanges. rewrite stable_sort_Permutation. intros ([id d] & -> & Hd)%list_elem_of_fmap. exists id. by apply elem_of_map_to_list in Hd.
Qed.

(** The changes an approved loss of the admin role rewrites. *)
Lemma forgetAdmin_Announced user a p c s :
  CI s -> EvForgot user a ∈ vLog s -> EvExecuted a p ∈ vLog s -> c ∈ forgetAdmin user s -> Announced c (vLog s).
Proof.
  intros H Hf He (d & -> & [[Hk _] Hd]%list_elem_of_filter)%list_elem_of_fmap.
  apply elem_of_ListPendingChanges in Hd as [id Hid]. destruct (ci_row _ H _ _ Hid) as (c0 & g & sec & us & ap & H1 & H2 & H3 & H4 & H5 & H6).
  exists c0, g, sec, us, ap. split_and!; try done.
  - rewrite H2 at 2. done.
  - intros i Hi. destruct (decide (i = user)) as [->|Hne]; [right; by exists a, p|]. destruct (H4 i Hi) as [Hin|]; [|by right].
    left. cbn. by apply list_elem_of_filter.
Qed.

(** A call moves to a phase with no changes of its own. *)
Lemma CI_calls s n c : (∀ a cs, c = CForget a cs -> ∀ x, x ∈ cs -> Announced x (vLog s)) -> CI s -> CI (setApproving (<[n := c]> (vApproving s)) s).
Proof.
  intros Hc H. apply (CI_step s); [done|apply log_refl|by eauto| |by eauto|by left].
  cbn. intros m a cs x [[<- Ec]|[_ Hm]]%lookup_insert_Some Hx; [right; by eapply Hc|left; by exists m, a, cs].
Qed.

Lemma CI_log e s : CI s -> CI (happened e s).
Proof. intros H. apply (CI_same s); [done|apply log_one|by left|done|done]. Qed.

Lemma CI_executeStep n id now ok s : CI s -> CI (executeStep n id now ok s).
Proof.
  intros H. unfold executeStep. destruct (vApproving s !! n) as [[a p| |]|] eqn:En; [|done|done|done].
  set (s1 := happened (EvExecuted a p) s). assert (CI s1) as H1 by (by apply CI_log).
  assert (EvExecuted a p ∈ vLog s1) as He by (cbn; set_solver).
  destruct (executeApproval a id now ok s1) as [[s'|] f] eqn:Ex; [|by apply CI_calls].
  pose proof (CI_execute _ _ _ _ _ _ _ _ He Ex H1) as H2. destruct (framed_execute _ _ _ _ _ _ _ Ex) as [_ _ (l & El & _)].
  destruct f as [user|]; [|by apply CI_calls]. apply CI_calls; [|by apply CI_log].
  intros b cs [= <- <-] x Hx. eapply (forgetAdmin_Announced user a p); [by apply CI_log|cbn; set_solver| |exact Hx].
  cbn. rewrite El. set_solver.
Qed.

Lemma CI_forgetStep n ok s : CI s -> CI (forgetStep n ok s).
Proof.
  intros H. unfold forgetStep. destruct (vApproving s !! n) as [[a p|a [|c cs]|]|] eqn:En; [done| | |done|done].
  - by apply CI_calls.
  - assert (CI (setApproving (<[n := CForget a cs]> (vApproving s)) s)) as H'.
    { apply CI_calls; [|done]. intros b ds [= <- <-] x Hx. eapply ci_forget; [done..|]. by right. }
    destruct ok; [|done]. destruct (ReplacePendingChange _ _) as [s'|] eqn:Er; [|done]. cbn. apply ReplacePendingChange_Some in Er as ->.
    apply (CI_same _ _ H'); [apply log_refl| |done|done]. cbn. intros i d [[<- <-]|[_ Hd]]%lookup_insert_Some.
    + right. eapply (ci_forget _ H); [done|by left].
    + left. by apply map_lookup_filter_Some in Hd as [? _].
Qed.

Lemma CI_approvals s ap : CI s -> CI (setApprovals ap s).
Proof. intros H. apply (CI_same s); [done|apply log_refl|by left|done|done]. Qed.

Lemma CI_UpdateApproval id fn s a s' : UpdateApproval id fn s = Some (a, s') -> CI s -> CI s'.
Proof. intros (? & _ & _ & ->)%UpdateApproval_Some. apply CI_approvals. Qed.

Lemma CI_settings s st : CI s -> CI (setSettings st s).
Proof. intros H. apply (CI_same s); [done|apply log_refl|by left|done|done]. Qed.

Lemma CI_jobs s js : CI s -> CI (setJobs js s).
Proof. intros H. apply (CI_same s); [done|apply log_refl|by left|done|done]. Qed.

Lemma CI_updates s x : CI s -> CI (setUpdates x s).
Proof. intros H. apply (CI_same s); [done|apply log_refl|by left|done|done]. Qed.

Lemma CI_edits s x : CI s -> CI (setEdits x s).
Proof. intros H. apply (CI_same s); [done|apply log_refl|by left|done|done]. Qed.

Lemma CI_sweeps s n w :
  (∀ c, c ∈ swList w -> Announced c (vLog s)) -> (∀ c, swTaken w = Some c -> Announced c (vLog s) /\ pcEffectiveAt c <= swNow w) ->
  CI s -> CI (setSweeps (<[n := w]> (vSweeps s)) s).
Proof.
  intros Hl Ht H. apply (CI_step s); [done|apply log_refl|by eauto|by eauto 6| |]; cbn.
  - intros m v c [[<- <-]|[_ Hm]]%lookup_insert_Some Hc; [right; by apply Hl|left; by exists m, v].
  - intros m v c [[<- <-]|[_ Hm]]%lookup_insert_Some Hc; [right; by apply Ht|by left].
Qed.

Lemma CI_lower ok p s : CI s -> CI (lowerSettings ok p s).
Proof. intros H. unfold lowerSettings. destruct (UpdateChanged _ _ _ _); [by apply CI_settings|done]. Qed.

Lemma CI_apply ok r1 r2 c s : CI s -> CI (applyChange ok r1 r2 c s).
Proof.
  intros H. unfold applyChange. destruct (pcKind c); [unfold applyRetentionChange|unfold applyGraceChange|unfold applyMetadataRetentionChange
    |unfold applyDisableSecondApprover|done|unfold applyDisableLockedCopies|done]; repeat case_match; (done || by apply CI_lower || by apply CI_jobs).
Qed.

Lemma CI_take n s : CI s -> CI (sweepTake n s).
Proof.
  intros H. unfold sweepTake. destruct (vSweeps s !! n) as [[now [|c l] [t|]]|] eqn:En; [done| |done| |done].
  - apply (CI_step s); [done|apply log_refl|by eauto|by eauto 6| |]; cbn; intros m w c [_ Hm]%lookup_delete_Some Hc; [left; by exists m, w|by left].
  - assert (∀ x, x ∈ c :: l -> Announced x (vLog s)) as Ha by (intros x Hx; by eapply (ci_list _ H n _ x En)).
    assert (CI (setSweeps (<[n := mkSweep now l None]> (vSweeps s)) s)) as Hs by (apply CI_sweeps; [intros x Hx; apply Ha; by right|done|done]).
    destruct (now <? pcEffectiveAt c) eqn:Et; [done|]. unfold DeletePendingChange. destruct (vChanges s !! pcID c); [|done].
    apply (CI_sweeps (setChanges (delete (pcID c) (vChanges s)) s)); cbn.
    + intros x Hx. apply Ha. by right.
    + intros x [= <-]. split; [apply Ha; by left|lia].
    + apply (CI_same s); [done|apply log_refl| |done|done]. cbn. intros i d [_ Hd]%lookup_delete_Some. by left.
Qed.

Lemma CI_exec s o : CI s -> CI (exec s o).
Proof.
  intros H. destruct o as [us|p id now q|n p pa|n ok|n id now ok rd|n p id now|p id now|id now|n id now ok|n ok|n|p id|n now|n|n ok r1 r2|n p j d c b|n now ok|n id now ok|id]; cbn [exec].
  - apply (CI_same s); [done|apply log_refl|by left|done|done].
  - destruct (storeApproval _ _ _ _ _ _) as [s'|] eqn:E; [|done]. by eapply CI_store.
  - case_match; [done|]. destruct (UpdateSettings _ _ _); [by apply CI_updates|done].
  - unfold commitUpdate. destruct (vUpdates s !! n) as [[u|p todo]|]; try done.
    destruct (UpdateChanged _ _ _ _); [by apply CI_updates, CI_settings|by apply CI_updates].
  - unfold followStep. destruct (vUpdates s !! n) as [[u|p [|f todo]]|]; try done.
    destruct (followUp _ _ _ _ _ _ _) as [s'|] eqn:E; [|by apply CI_updates]. apply CI_updates. by eapply CI_followUp.
  - unfold Approve. case_match; [done|]. destruct (decide_ _ _ _ _ _ _) as [[a s']|] eqn:E; [|done]. apply CI_UpdateApproval in E; [|done].
    case_match; [by apply CI_calls|done].
  - unfold Reject. case_match; [|done]. destruct (decide_ _ _ _ _ _ _) as [[a s']|] eqn:E; [|done]. by apply CI_UpdateApproval in E.
  - unfold expireApproval. destruct (UpdateApproval _ _ _) as [[a s']|] eqn:E; [|done]. by apply CI_UpdateApproval in E.
  - by apply CI_executeStep.
  - by apply CI_forgetStep.
  - unfold recordStep. destruct (vApproving s !! n) as [[a p|a cs|a failed]|]; try done.
    assert (CI (setApproving (delete n (vApproving s)) s)) as H'.
    { apply (CI_step s); [done|apply log_refl|by eauto| |by eauto|by left]. cbn. intros m b cs x [_ Hm]%lookup_delete_Some Hx. left. by exists m, b, cs. }
    destruct (UpdateApproval _ _ _) as [[a' s']|] eqn:E; [|done]. by apply CI_UpdateApproval in E.
  - unfold CancelPendingChange, DeletePendingChange. case_match; [|done]. destruct (vChanges s !! id); [|done].
    apply (CI_same s); [done|apply log_refl| |done|done]. cbn. intros i d [_ Hd]%lookup_delete_Some. by left.
  - unfold sweepStart. case_match; [done|]. apply CI_sweeps; cbn; [|done|done]. intros x [i Hi]%elem_of_ListPendingChanges. by eapply ci_row.
  - by apply CI_take.
  - unfold sweepApply. destruct (vSweeps s !! n) as [[now l [c|]]|] eqn:En; try done. apply CI_apply, CI_sweeps; cbn; [|done|done].
    intros x Hx. by eapply (ci_list _ H n _ x En).
  - unfold editStart. repeat case_match; (done || by apply CI_edits).
  - unfold editStore. destruct (vEdits s !! n) as [[e|e]|]; try done. destruct ok; [|by apply CI_edits]. cbn.
    destruct (edExisting e), (vJobs s !! edJob e); (by apply CI_edits, CI_jobs) || by apply CI_edits.
  - unfold editHold. destruct (vEdits s !! n) as [[e|e]|]; try done. destruct (edHold e) as [h|].
    2: { destruct (_ && _); [by apply CI_cancel, CI_edits|by apply CI_edits]. }
    destruct (needsApproval None _) eqn:En.
    + destruct (storeApproval _ _ _ _ _ _) as [s'|] eqn:E; [|by apply CI_edits]. eapply CI_store; [exact E|by apply CI_edits].
    + destruct (scheduleRetention _ _ _ _ _ _ _ _ _) as [s'|] eqn:E; [|by apply CI_edits]. apply scheduleRetention_Some in E as (j & _ & E).
      eapply CI_schedule; [|exact E|by apply CI_edits]. by apply may_off.
  - unfold DeleteJob. case_match; [by apply CI_cancel, CI_jobs|done].
Qed.

Lemma CI_run ops s : CI s -> CI (run ops s).
Proof. revert s. induction ops as [|o ops IH]; intros s H; [done|]. by apply IH, CI_exec. Qed.

Lemma CI_init st users jobs : CI (initState st users jobs).
Proof. split; cbn; done. Qed.

(** ** What lowers a protection *)

Lemma UpdateChanged_kept ok p cur next : UpdateChanged ok false p cur = Some next ->
  stGraceDays cur <= stGraceDays next /\ stMetadataCount cur <= stMetadataCount next /\
  (stLockedCopies cur = true -> stLockedCopies next = true) /\ (stSecondApprover cur = true -> stSecondApprover next = true).
Proof.
  unfold UpdateChanged, checkProtection, LowersProtection, LowersLockedCopies, checkMetadataRetention. set (nx := applyPatch p cur).
  destruct (_ && ok) eqn:E; [|done]. intros [= <-]. rewrite !andb_true_r in E.
  apply andb_true_iff in E as [E _]. apply andb_true_iff in E as [E Em]. apply andb_true_iff in E as [Ep _].
  apply negb_true_iff in Ep, Em. apply orb_false_iff in Ep as [Ep El]. apply orb_false_iff in Ep as [Eg Es].
  split_and!; [lia|lia| |]; intros Ht; [rewrite Ht in El; by apply negb_false_iff in El|rewrite Ht in Es; by apply negb_false_iff in Es].
Qed.

Lemma followUp_settings p f id now ok read s s' : followUp p f id now ok read s = Some s' -> vSettings s' = vSettings s /\ vJobs s' = vJobs s.
Proof.
  intros Hf. assert (∀ q, storeApproval p id now ok q s = Some s' -> vSettings s' = vSettings s /\ vJobs s' = vJobs s) as Hs
    by (by intros q (a & _ & _ & _ & ->)%storeApproval_Some).
  assert (∀ c, schedulePending None id now ok c s = Some s' -> vSettings s' = vSettings s /\ vJobs s' = vJobs s) as Hc
    by (by intros c ->%schedulePending_Some).
  destruct f; cbn in Hf; [destruct ok; [|done]; by injection Hf as <-|destruct (needsApproval None s); eauto..|].
  destruct (_ && _); eauto.
Qed.

(** Of the approved actions only turning the two-person rule off changes the settings. *)
Lemma execute_settings a id now ok s s' f : executeApproval a id now ok s = (Some s', f) ->
  vJobs s' = vJobs s /\ (vSettings s' = vSettings s \/
    (asAction (apAsk a) = ApprovalDisableSecondApprover /\ UpdateChanged ok true (mkPatch None (Some false) None None) (vSettings s) = Some (vSettings s'))).
Proof.
  intros He. unfold executeApproval in He.
  assert (∀ c, schedulePending (Some a) id now ok c s = Some s' -> vSettings s' = vSettings s /\ vJobs s' = vJobs s) as Hs
    by (by intros c ->%schedulePending_Some).
  destruct (asAction (apAsk a)) eqn:Ea; try (destruct ok; simplify_eq; by auto).
  - destruct (asSubjectCreatedAt _); [|done]. injection He as He _. apply scheduleRetention_Some in He as (j & _ & He). destruct (Hs _ He). auto.
  - destruct (asDeleteGraceDays _); [|done]. injection He as He _. destruct (Hs _ He). auto.
  - injection He as He _. apply fmap_Some in He as (st & E & ->). cbn. auto.
  - destruct (asMetadataRetentionCount _); [|done]. injection He as He _. destruct (Hs _ He). auto.
  - injection He as He _. destruct (Hs _ He). auto.
  - destruct (asSubjectCreatedAt _); [|done]. injection He as He _. apply scheduleJobLockedCopies_Some in He as (j & _ & He). destruct (Hs _ He). auto.
Qed.

Lemma executeStep_settings n id now ok s : vJobs (executeStep n id now ok s) = vJobs s /\
  (vSettings (executeStep n id now ok s) = vSettings s \/
   ∃ a p, vApproving s !! n = Some (CDecided a p) /\ asAction (apAsk a) = ApprovalDisableSecondApprover /\
     UpdateChanged ok true (mkPatch None (Some false) None None) (vSettings s) = Some (vSettings (executeStep n id now ok s))).
Proof.
  unfold executeStep. destruct (vApproving s !! n) as [[a p| |]|] eqn:En; [|by auto..].
  destruct (executeApproval _ _ _ _ _) as [[s'|] f] eqn:Ex; [|by auto].
  apply execute_settings in Ex as [Ej Hs]. cbn in Ej, Hs. destruct f; cbn; (split; [done|]; destruct Hs as [?|[? ?]]; [by left|right; by exists a, p]).
Qed.

(** A step that is not a commit, an execution or the application of a taken change keeps
    the settings; one that is not the store of an edit either keeps the jobs that stay. *)
Definition quiet (s s' : State) : Prop := vSettings s' = vSettings s /\ ∀ id j, vJobs s' !! id = Some j -> vJobs s !! id = Some j.

Lemma quiet_eq s s' : vSettings s' = vSettings s -> vJobs s' = vJobs s -> quiet s s'.
Proof. intros E1 E2. split; [done|]. by rewrite E2. Qed.

Definition loud (o : op) : bool := match o with OCommit _ _ | OExecute _ _ _ _ | OApply _ _ _ _ | OStore _ _ _ => true | _ => false end.

Lemma UpdateApproval_quiet id fn s a s' : UpdateApproval id fn s = Some (a, s') -> quiet s s'.
Proof. intros (? & _ & _ & ->)%UpdateApproval_Some. by apply quiet_eq. Qed.

Lemma exec_quiet s o : loud o = false -> quiet s (exec s o).
Proof.
  assert (quiet s s) as Hr by (by apply quiet_eq).
  destruct o as [us|p id now q|n p pa|n ok|n id now ok rd|n p id now|p id now|id now|n id now ok|n ok|n|p id|n now|n|n ok r1 r2|n p j d c b|n now ok|n id now ok|id]; cbn [exec loud]; try done; intros _.
  - destruct (storeApproval _ _ _ _ _ _) as [s'|] eqn:E; [|done]. apply storeApproval_Some in E as (a & _ & _ & _ & ->). by apply quiet_eq.
  - case_match; [done|]. by destruct (UpdateSettings _ _ _).
  - unfold followStep. destruct (vUpdates s !! n) as [[u|p [|f todo]]|]; try done.
    destruct (followUp _ _ _ _ _ _ _) as [s'|] eqn:E; [|done]. apply followUp_settings in E as [E1 E2]. by apply quiet_eq.
  - unfold Approve. case_match; [done|]. destruct (decide_ _ _ _ _ _ _) as [[a s']|] eqn:E; [|done]. apply UpdateApproval_quiet in E. by case_match.
  - unfold Reject. case_match; [|done]. destruct (decide_ _ _ _ _ _ _) as [[a s']|] eqn:E; [|done]. by apply UpdateApproval_quiet in E.
  - unfold expireApproval. destruct (UpdateApproval _ _ _) as [[a s']|] eqn:E; [|done]. by apply UpdateApproval_quiet in E.
  - unfold forgetStep. destruct (vApproving s !! n) as [[a p|a [|c cs]|]|]; try done. destruct ok; [|done].
    destruct (ReplacePendingChange _ _) as [s'|] eqn:E; [|done]. apply ReplacePendingChange_Some in E as ->. by apply quiet_eq.
  - unfold recordStep. destruct (vApproving s !! n) as [[a p|a cs|a failed]|]; try done.
    destruct (UpdateApproval _ _ _) as [[a' s']|] eqn:E; [|done]. by apply UpdateApproval_quiet in E.
  - unfold CancelPendingChange, DeletePendingChange. repeat case_match; done.
  - unfold sweepStart. by case_match.
  - unfold sweepTake, DeletePendingChange. repeat case_match; simplify_eq; done.
  - unfold editStart. repeat case_match; done.
  - unfold editHold. destruct (vEdits s !! n) as [[e|e]|]; try done. destruct (edHold e) as [h|]; [|by case_match].
    destruct (needsApproval None _).
    + destruct (storeApproval _ _ _ _ _ _) as [s'|] eqn:E; [|done]. apply storeApproval_Some in E as (a & _ & _ & _ & ->). by apply quiet_eq.
    + destruct (scheduleRetention _ _ _ _ _ _ _ _ _) as [s'|] eqn:E; [|done]. apply scheduleRetention_Some in E as (j & _ & E).
      apply schedulePending_Some in E as ->. by apply quiet_eq.
  - unfold DeleteJob. case_match; [|done]. split; [done|]. cbn. by intros i x [_ ?]%lookup_delete_Some.
Qed.

(** A protection of the settings is lowered. *)
Definition lowered (k : PendingChangeKind) (st st' : Settings) : Prop :=
  match k with
  | PendingDeleteGrace => stGraceDays st' < stGraceDays st
  | PendingMetadataRetention => stMetadataCount st' < stMetadataCount st
  | PendingDisableLockedCopies => stLockedCopies st = true /\ stLockedCopies st' = false
  | _ => False
  end.

(** The step applies change [c], due at [now], scheduled as [c0]. *)
Definition dueNow (c c0 : PendingChange) (now : Z) (o : op) (s : State) : Prop :=
  ∃ n ok r1 r2 l, o = OApply n ok r1 r2 /\ vSweeps s !! n = Some (mkSweep now l (Some c)) /\ c = withAdmins (pcAdmins c) c0.

Lemma lowered_irrefl k st : ~ lowered k st st.
Proof. destruct k; cbn; [tauto|lia|lia|tauto|tauto|intros [? ?]; congruence|tauto]. Qed.

Lemma lowerSettings_cases ok p s : lowerSettings ok p s = s \/ lowerSettings ok p s = setSettings (applyPatch p (vSettings s)) s.
Proof. unfold lowerSettings, UpdateChanged. case_match eqn:E; [|by left]. case_match; [|done]. injection E as <-. by right. Qed.

(** A due change lowers what its kind names and nothing else. *)
Lemma apply_lowers k ok r1 r2 c s : lowered k (vSettings s) (vSettings (applyChange ok r1 r2 c s)) -> pcKind c = k.
Proof.
  unfold applyChange. destruct (pcKind c).
  - unfold applyRetentionChange. repeat case_match; by intros ?%lowered_irrefl.
  - unfold applyGraceChange. destruct (pcDeleteGraceDays c) as [d|]; [|by intros ?%lowered_irrefl]. case_match; [by intros ?%lowered_irrefl|].
    destruct (lowerSettings_cases ok (mkPatch (Some d) None None None) s) as [->| ->]; [by intros ?%lowered_irrefl|].
    destruct k; cbn; try done; [lia|]. intros [? ?]. congruence.
  - unfold applyMetadataRetentionChange. destruct (pcMetadataRetentionCount c) as [d|]; [|by intros ?%lowered_irrefl]. case_match; [by intros ?%lowered_irrefl|].
    destruct (lowerSettings_cases ok (mkPatch None None None (Some d)) s) as [->| ->]; [by intros ?%lowered_irrefl|].
    destruct k; cbn; try done; [lia|]. intros [? ?]. congruence.
  - unfold applyDisableSecondApprover. repeat (case_match; [by intros ?%lowered_irrefl|]).
    destruct (lowerSettings_cases ok (mkPatch None (Some false) None None) s) as [->| ->]; [by intros ?%lowered_irrefl|].
    destruct k; cbn; try done; [lia|lia|]. intros [? ?]. congruence.
  - by intros ?%lowered_irrefl.
  - unfold applyDisableLockedCopies. case_match; [|by intros ?%lowered_irrefl].
    destruct (lowerSettings_cases ok (mkPatch None None (Some false) None) s) as [->| ->]; [by intros ?%lowered_irrefl|].
    destruct k; cbn; try done; lia.
  - by intros ?%lowered_irrefl.
Qed.

Lemma patch_second_keeps k ok st st' : UpdateChanged ok true (mkPatch None (Some false) None None) st = Some st' -> ~ lowered k st st'.
Proof. unfold UpdateChanged. case_match; [|done]. intros [= <-]. destruct k; cbn; try tauto; [lia|lia|]. intros [? ?]. congruence. Qed.

Lemma sweepApply_lowers k n ok r1 r2 s : lowered k (vSettings s) (vSettings (sweepApply n ok r1 r2 s)) ->
  ∃ now l c, vSweeps s !! n = Some (mkSweep now l (Some c)) /\ pcKind c = k.
Proof.
  unfold sweepApply. destruct (vSweeps s !! n) as [[now l [c|]]|]; [|by intros ?%lowered_irrefl..].
  intros H. exists now, l, c. split; [done|]. exact (apply_lowers _ _ _ _ _ (setSweeps _ s) H).
Qed.

Lemma commitUpdate_keeps k n ok s : ~ lowered k (vSettings s) (vSettings (commitUpdate n ok s)).
Proof.
  unfold commitUpdate. destruct (vUpdates s !! n) as [[u|p todo]|]; try apply lowered_irrefl.
  destruct (UpdateChanged ok false (upPatch u) (vSettings s)) as [st|] eqn:E; [|apply lowered_irrefl].
  apply UpdateChanged_kept in E as (? & ? & Hl & _). destruct k; cbn; try tauto; [lia|lia|]. intros [H1 H2]. apply Hl in H1. congruence.
Qed.

Lemma editStore_settings n now ok s : vSettings (editStore n now ok s) = vSettings s.
Proof. unfold editStore. destruct (vEdits s !! n) as [[e|e]|]; try done. destruct ok; [|done]. cbn. by destruct (edExisting e), (vJobs s !! edJob e). Qed.

(** [C5] The grace period, the number of metadata snapshots and the requirement of locked copies are lowered only by a
    change that was announced and has waited the grace period then in force (a day at least), and that a second
    administrator had approved if the two-person rule was on; an update of the settings never lowers them at once, also
    when it races with another one. *)
Theorem protections_lowered_late st users jobs ops o k :
  lowered k (vSettings (run ops (initState st users jobs))) (vSettings (exec (run ops (initState st users jobs)) o)) ->
  ∃ c c0 now g second us ap, dueNow c c0 now o (run ops (initState st users jobs)) /\ pcKind c0 = k /\
    EvScheduled c0 g second us ap ∈ vLog (run ops (initState st users jobs)) /\ pcCreatedAt c0 + GraceDuration g <= now /\
    (second = true -> ∃ a p, ap = Some (apID a) /\ EvExecuted a p ∈ vLog (run ops (initState st users jobs))).
Proof.
  pose proof (CI_run ops _ (CI_init st users jobs)) as HC. set (s := run ops _) in *. intros Hl. destruct (loud o) eqn:Eo.
  2: { destruct (exec_quiet s o Eo) as [E _]. rewrite E in Hl. by apply lowered_irrefl in Hl. }
  destruct o as [| | |n ok| | | | |n id now ok| | | | | |n ok r1 r2| |n now ok| |]; try done; cbn [exec] in Hl.
  - by apply commitUpdate_keeps in Hl.
  - destruct (executeStep_settings n id now ok s) as [_ [E|(a & p & _ & _ & E)]]; [rewrite E in Hl; by apply lowered_irrefl in Hl|].
    by apply (patch_second_keeps k) in E.
  - assert (k <> PendingDisableSecondApprover) as Hk by (by intros ->). apply sweepApply_lowers in Hl as (now & l & c & En & Ek).
    destruct (ci_taken _ HC n _ c En eq_refl) as [(c0 & g & second & us & ap & H1 & H2 & H3 & _ & _ & H6) Ht]. cbn in Ht.
    assert (pcKind c0 = k /\ pcEffectiveAt c = pcEffectiveAt c0) as [Ek0 Ee] by (rewrite H2 in Ek |- *; done).
    exists c, c0, now, g, second, us, ap. split_and!; [by exists n, ok, r1, r2, l|done|done|lia|].
    intros Hs. apply H6; [done|]. by rewrite Ek0.
  - rewrite editStore_settings in Hl. by apply lowered_irrefl in Hl.
Qed.

Lemma lower_second ok p s : stSecondApprover (vSettings s) = true -> stSecondApprover (vSettings (lowerSettings ok p s)) = false -> paSecondApprover p = Some false.
Proof.
  intros Hs Hf. destruct (lowerSettings_cases ok p s) as [E|E]; rewrite E in Hf; [congruence|]. cbn in Hf.
  destruct (paSecondApprover p) as [[]|]; cbn in Hf; congruence.
Qed.

Lemma adminLost_None users c id : adminLost users c = None -> id ∈ pcAdmins c -> id ∈ adminIDs users.
Proof.
  unfold adminLost. intros Hf Hid. apply list_elem_of_In in Hid. pose proof (find_none _ _ Hf id Hid) as H.
  apply negb_false_iff in H. by apply bool_decide_eq_true in H.
Qed.

(** The due change that turns the rule off passed its checks. *)
Lemma apply_second ok r1 r2 c s :
  stSecondApprover (vSettings s) = true -> stSecondApprover (vSettings (applyChange ok r1 r2 c s)) = false ->
  pcKind c = PendingDisableSecondApprover /\ (r1 = true -> (CountAdmins (vUsers s) < MinApprovalAdmins)%nat) /\ adminLost (vUsers s) c = None.
Proof.
  intros Hs. unfold applyChange. destruct (pcKind c).
  - unfold applyRetentionChange. repeat case_match; cbn; congruence.
  - unfold applyGraceChange. repeat case_match; try congruence. by intros ?%lower_second.
  - unfold applyMetadataRetentionChange. repeat case_match; try congruence. by intros ?%lower_second.
  - unfold applyDisableSecondApprover. destruct (r1 && _) eqn:E1; [congruence|]. destruct (_ && negb r2); [congruence|].
    destruct (adminLost (vUsers s) c) eqn:El; [congruence|]. intros _. split_and!; [done| |done].
    intros ->. unfold CheckSecondApproverPossible in E1. destruct (Nat.ltb _ _) eqn:E; [by apply Nat.ltb_lt|done].
  - congruence.
  - unfold applyDisableLockedCopies. case_match; [|congruence]. by intros ?%lower_second.
  - congruence.
Qed.


(** ** Retention of jobs *)

(** What an edit stores is not shorter than what it read. *)
Definition EI (s : State) : Prop :=
  ∀ n e j, vEdits s !! n = Some (CEditing e) -> edExisting e = Some j ->
    shorter (edDays e) (jrDays j) = false /\ shorter (edCount e) (jrCount j) = false.

Lemma shorter_irrefl v : shorter v v = false.
Proof. unfold shorter. destruct (v >? 0) eqn:E1, (v =? 0) eqn:E2, (v <? v) eqn:E3; cbn; lia || done. Qed.

Lemma HoldRetention_kept d0 c0 d c : 
  shorter (HoldRetention d0 c0 d c).1.1 d0 = false /\ shorter (HoldRetention d0 c0 d c).1.2 c0 = false.
Proof.
  unfold HoldRetention. destruct (shorter d d0) eqn:E1, (shorter c c0) eqn:E2; cbn; rewrite ?shorter_irrefl; done.
Qed.

Lemma EI_edits s s' : (∀ n c, vEdits s' !! n = Some c -> vEdits s !! n = Some c) -> EI s -> EI s'.
Proof. intros He H n e j Hn. by apply (H n), He. Qed.

Lemma EI_insert s n c : (∀ e j, c = CEditing e -> edExisting e = Some j -> shorter (edDays e) (jrDays j) = false /\ shorter (edCount e) (jrCount j) = false) ->
  EI s -> EI (setEdits (<[n := c]> (vEdits s)) s).
Proof. intros Hc H m e j. cbn. intros [[<- E]|[_ Hm]]%lookup_insert_Some Hj; [by eapply Hc|by eapply H]. Qed.

Lemma vEdits_schedule ctx id now ok c s s' : schedulePending ctx id now ok c s = Some s' -> vEdits s' = vEdits s.
Proof. by intros ->%schedulePending_Some. Qed.

Lemma vEdits_store p id now ok q s s' : storeApproval p id now ok q s = Some s' -> vEdits s' = vEdits s.
Proof. by intros (a & _ & _ & _ & ->)%storeApproval_Some. Qed.

Lemma vEdits_update id fn s a s' : UpdateApproval id fn s = Some (a, s') -> vEdits s' = vEdits s.
Proof. by intros (? & _ & _ & ->)%UpdateApproval_Some. Qed.

Lemma vEdits_followUp p f id now ok read s s' : followUp p f id now ok read s = Some s' -> vEdits s' = vEdits s.
Proof.
  intros Hf. destruct f; cbn in Hf; [destruct ok; [|done]; by injection Hf as <-|destruct (needsApproval None s)..|destruct (_ && _)];
    eauto using vEdits_store, vEdits_schedule.
Qed.

Lemma vEdits_execute a id now ok s s' f : executeApproval a id now ok s = (Some s', f) -> vEdits s' = vEdits s.
Proof.
  intros He. unfold executeApproval in He.
  destruct (asAction (apAsk a)); try (destruct ok; by simplify_eq).
  - destruct (asSubjectCreatedAt _); [|done]. injection He as He _. apply scheduleRetention_Some in He as (j & _ & He). by apply vEdits_schedule in He.
  - destruct (asDeleteGraceDays _); [|done]. injection He as He _. by apply vEdits_schedule in He.
  - injection He as He _. by apply fmap_Some in He as (st & _ & ->).
  - destruct (asMetadataRetentionCount _); [|done]. injection He as He _. by apply vEdits_schedule in He.
  - injection He as He _. by apply vEdits_schedule in He.
  - destruct (asSubjectCreatedAt _); [|done]. injection He as He _. apply scheduleJobLockedCopies_Some in He as (j & _ & He). by apply vEdits_schedule in He.
Qed.

Lemma vEdits_apply ok r1 r2 c s : vEdits (applyChange ok r1 r2 c s) = vEdits s.
Proof.
  assert (∀ p, vEdits (lowerSettings ok p s) = vEdits s) as Hl by (intros p; destruct (lowerSettings_cases ok p s) as [->| ->]; done).
  unfold applyChange, applyRetentionChange, applyGraceChange, applyMetadataRetentionChange, applyDisableSecondApprover, applyDisableLockedCopies.
  repeat case_match; (done || apply Hl).
Qed.

Lemma EI_exec s o : EI s -> EI (exec s o).
Proof.
  intros H. assert (∀ s', vEdits s' = vEdits s -> EI s') as Hs by (intros s' E; apply (EI_edits s); [by rewrite E|done]).
  assert (∀ n, EI (setEdits (delete n (vEdits s)) s)) as Hd by (intros n; apply (EI_edits s); [cbn; by intros m c [_ ?]%lookup_delete_Some|done]).
  destruct o as [us|p id now q|n p pa|n ok|n id now ok rd|n p id now|p id now|id now|n id now ok|n ok|n|p id|n now|n|n ok r1 r2|n p j d c b|n now ok|n id now ok|id]; cbn [exec].
  - done.
  - destruct (storeApproval _ _ _ _ _ _) as [s'|] eqn:E; [|done]. by apply Hs, (vEdits_store _ _ _ _ _ _ _ E).
  - case_match; [done|]. by destruct (UpdateSettings _ _ _).
  - unfold commitUpdate. destruct (vUpdates s !! n) as [[u|p todo]|]; try done. by destruct (UpdateChanged _ _ _ _).
  - unfold followStep. destruct (vUpdates s !! n) as [[u|p [|f todo]]|]; try done.
    destruct (followUp _ _ _ _ _ _ _) as [s'|] eqn:E; [|done]. apply Hs. cbn. by apply vEdits_followUp in E.
  - unfold Approve. case_match; [done|]. destruct (decide_ _ _ _ _ _ _) as [[a s']|] eqn:E; [|done]. apply vEdits_update in E. case_match; by apply Hs.
  - unfold Reject. case_match; [|done]. destruct (decide_ _ _ _ _ _ _) as [[a s']|] eqn:E; [|done]. by apply Hs, (vEdits_update _ _ _ _ _ E).
  - unfold expireApproval. destruct (UpdateApproval _ _ _) as [[a s']|] eqn:E; [|done]. by apply Hs, (vEdits_update _ _ _ _ _ E).
  - unfold executeStep. destruct (vApproving s !! n) as [[a p| |]|]; try done.
    destruct (executeApproval _ _ _ _ _) as [[s'|] f] eqn:E; [|done]. apply vEdits_execute in E. destruct f; by apply Hs.
  - unfold forgetStep. destruct (vApproving s !! n) as [[a p|a [|c cs]|]|]; try done. destruct ok; [|done].
    destruct (ReplacePendingChange _ _) as [s'|] eqn:E; [|done]. apply ReplacePendingChange_Some in E as ->. by apply Hs.
  - unfold recordStep. destruct (vApproving s !! n) as [[a p|a cs|a failed]|]; try done.
    destruct (UpdateApproval _ _ _) as [[a' s']|] eqn:E; [|done]. by apply Hs, (vEdits_update _ _ _ _ _ E).
  - unfold CancelPendingChange, DeletePendingChange. repeat case_match; done.
  - unfold sweepStart. by case_match.
  - unfold sweepTake, DeletePendingChange. repeat case_match; simplify_eq; done.
  - unfold sweepApply. destruct (vSweeps s !! n) as [[now l [c|]]|]; try done. apply Hs. by rewrite vEdits_apply.
  - unfold editStart. case_match; [done|]. destruct (vJobs s !! j) as [x|].
    + pose proof (HoldRetention_kept (jrDays x) (jrCount x) (default (jrDays x) d) (default (jrCount x) c)) as Hk.
      destruct (HoldRetention _ _ _ _) as [[d' c'] h]. apply EI_insert; [|done]. by intros e y [= <-] [= <-].
    + destruct (if b then _ else _) as [[d' c'] h]. apply EI_insert; [|done]. by intros e y [= <-].
  - unfold editStore. destruct (vEdits s !! n) as [[e|e]|]; try done. destruct ok; [|apply Hd]. cbn.
    destruct (edExisting e), (vJobs s !! edJob e); try apply Hd; by apply (EI_insert (setJobs _ s)).
  - unfold editHold. destruct (vEdits s !! n) as [[e|e]|]; try done. destruct (edHold e) as [h|]; [|case_match; apply Hd].
    destruct (needsApproval None _).
    + destruct (storeApproval _ _ _ _ _ _) as [s'|] eqn:E; [|apply Hd]. apply vEdits_store in E. apply (EI_edits _ _ ltac:(by rewrite E) (Hd n)).
    + destruct (scheduleRetention _ _ _ _ _ _ _ _ _) as [s'|] eqn:E; [|apply Hd]. apply scheduleRetention_Some in E as (j & _ & E).
      apply vEdits_schedule in E. apply (EI_edits _ _ ltac:(by rewrite E) (Hd n)).
  - unfold DeleteJob. by case_match.
Qed.

Lemma EI_run ops s : EI s -> EI (run ops s).
Proof. revert s. induction ops as [|o ops IH]; intros s H; [done|]. by apply IH, EI_exec. Qed.

(** The retention of a job gets shorter. *)
Definition shortened (job : string) (s s' : State) : Prop :=
  ∃ j j', vJobs s !! job = Some j /\ vJobs s' !! job = Some j' /\ (shorter (jrDays j') (jrDays j) = true \/ shorter (jrCount j') (jrCount j) = true).

Lemma not_shortened job s s' : (∀ j', vJobs s' !! job = Some j' -> vJobs s !! job = Some j') -> ~ shortened job s s'.
Proof. intros H (j & j' & Hj & Hj' & Hs). apply H in Hj'. rewrite Hj in Hj'. injection Hj' as <-. by rewrite !shorter_irrefl in Hs; destruct Hs. Qed.

Lemma lowerSettings_jobs ok p s : vJobs (lowerSettings ok p s) = vJobs s.
Proof. by destruct (lowerSettings_cases ok p s) as [->| ->]. Qed.

Lemma apply_shortens job ok r1 r2 c s : shortened job s (applyChange ok r1 r2 c s) -> pcKind c = PendingRetention /\ pcJobID c = job.
Proof.
  unfold applyChange. destruct (pcKind c) eqn:Ek.
  2-7: intros H; exfalso; revert H; apply not_shortened; intros j';
       unfold applyGraceChange, applyMetadataRetentionChange, applyDisableSecondApprover, applyDisableLockedCopies;
       repeat case_match; rewrite ?lowerSettings_jobs; done.
  intros H. split; [done|]. destruct (decide (pcJobID c = job)) as [|Hne]; [done|]. exfalso. revert H. apply not_shortened. intros j'.
  unfold applyRetentionChange. repeat case_match; try done; cbn; by rewrite lookup_insert_ne.
Qed.

(** [C24] The retention of a job gets shorter only by a change that was announced and has waited the grace period then in
    force, and that a second administrator had approved if the two-person rule was on, or by the store of an edit that had
    read another retention of the job than the stored one. *)
Theorem retention_shortened_late st users jobs ops o job :
  shortened job (run ops (initState st users jobs)) (exec (run ops (initState st users jobs)) o) ->
  (∃ c c0 now g second us ap, dueNow c c0 now o (run ops (initState st users jobs)) /\ pcKind c0 = PendingRetention /\ pcJobID c0 = job /\
    EvScheduled c0 g second us ap ∈ vLog (run ops (initState st users jobs)) /\ pcCreatedAt c0 + GraceDuration g <= now /\
    (second = true -> ∃ a p, ap = Some (apID a) /\ EvExecuted a p ∈ vLog (run ops (initState st users jobs)))) \/
  (∃ n now e j0 j, o = OStore n now true /\ vEdits (run ops (initState st users jobs)) !! n = Some (CEditing e) /\ edJob e = job /\
    edExisting e = Some j0 /\ vJobs (run ops (initState st users jobs)) !! job = Some j /\ (jrDays j0 <> jrDays j \/ jrCount j0 <> jrCount j)).
Proof.
  pose proof (CI_run ops _ (CI_init st users jobs)) as HC.
  assert (EI (run ops (initState st users jobs))) as HE by (apply EI_run; by intros n e j).
  set (s := run ops _) in *. intros Hl. destruct (loud o) eqn:Eo.
  2: { destruct (exec_quiet s o Eo) as [_ E]. exfalso. revert Hl. apply not_shortened. apply E. }
  destruct o as [| | |n ok| | | | |n id now ok| | | | | |n ok r1 r2| |n now ok| |]; try done; cbn [exec] in Hl.
  - exfalso. revert Hl. apply not_shortened. intros j'. unfold commitUpdate. destruct (vUpdates s !! n) as [[u|p todo]|]; try done. by destruct (UpdateChanged _ _ _ _).
  - exfalso. revert Hl. apply not_shortened. intros j'. by destruct (executeStep_settings n id now ok s) as [-> _].
  - left. unfold sweepApply in Hl. destruct (vSweeps s !! n) as [[now l [c|]]|] eqn:En; [|exfalso; revert Hl; by apply not_shortened..].
    apply (apply_shortens job ok r1 r2 c (setSweeps _ s)) in Hl as [Ek Ej].
    destruct (ci_taken _ HC n _ c En eq_refl) as [(c0 & g & second & us & ap & H1 & H2 & H3 & _ & _ & H6) Ht]. cbn in Ht.
    assert (pcKind c0 = PendingRetention /\ pcJobID c0 = job /\ pcEffectiveAt c = pcEffectiveAt c0) as (Ek0 & Ej0 & Ee) by (rewrite H2 in Ek, Ej |- *; done).
    exists c, c0, now, g, second, us, ap. split_and!; [by exists n, ok, r1, r2, l|done|done|done|lia|].
    intros Hs. apply H6; [done|]. by rewrite Ek0.
  - right. unfold editStore in Hl. destruct (vEdits s !! n) as [[e|e]|] eqn:En; [|exfalso; revert Hl; by apply not_shortened..].
    destruct ok; [|exfalso; revert Hl; by apply not_shortened]. cbn in Hl. destruct (edExisting e) as [j0|] eqn:Ee, (vJobs s !! edJob e) as [cur|] eqn:Ec.
    2: { exfalso. revert Hl. by apply not_shortened. }
    2: { exfalso. revert Hl. by apply not_shortened. }
    2: { exfalso. destruct Hl as (j & j' & Hj & Hj' & Hs). cbn in Hj, Hj'. apply lookup_insert_Some in Hj' as [[<- <-]|[_ Hj']]; [congruence|].
         rewrite Hj in Hj'. injection Hj' as <-. rewrite !shorter_irrefl in Hs. by destruct Hs. }
    destruct Hl as (j & j' & Hj & Hj' & Hs). cbn in Hj, Hj'. apply lookup_insert_Some in Hj' as [[<- <-]|[_ Hj']].
    2: { rewrite Hj in Hj'. injection Hj' as <-. rewrite !shorter_irrefl in Hs. by destruct Hs. }
    destruct (HE n e j0 En Ee) as [K1 K2]. exists n, now, e, j0, j. split_and!; try done. cbn in Hs.
    destruct (decide (jrDays j0 = jrDays j)) as [E1|]; [|by left]. destruct (decide (jrCount j0 = jrCount j)) as [E2|]; [|by right].
    rewrite <- E1, <- E2, K1, K2 in Hs. by destruct Hs.
Qed.
