(* ===== verification/ProtectionDemo.v ===== *)
(** * The delete protection on concrete runs

    Two administrators lower the grace period and turn the two-person rule off; and three
    interleavings that show what the code does not guard. *)

From S2P Require Import Prelude Glob Selection Access Protection ProtectionSafety.

Definition anna : User := mkUser "anna" RoleAdmin 5.
Definition bert : User := mkUser "bert" RoleAdmin 6.
Definition session (u : User) : Principal := mkPrincipal (Some u) MethodSession ScopeAdmin RoleAdmin ScopeRead None.
Definition strict : Settings := mkSettings 7 true true 14.
Definition week : Z := 7 * day.

(** Anna asks for a grace period of 3 days, Bert approves, and a week later it is due. *)
Definition graceRun : list op :=
  [OUpdate 0 (Some (session anna)) (mkPatch (Some 3) None None None); OCommit 0 true; OFollow 0 "apr_1" 100 true true;
   OApprove 0 (session anna) "apr_1" 150; OApprove 0 (session bert) "apr_1" 200; OApprove 1 (session bert) "apr_1" 210;
   OExecute 0 "chg_1" 300 true; ORecord 0; OSweep 0 (300 + week); OTake 0].

Definition graceState : State := run graceRun (initState strict [anna; bert] ∅).

Definition graceAsk : ask := mkAsk ApprovalLowerGrace "" None None (Some 3) None None.
Definition graceApproval : Approval :=
  mkApproval "apr_1" graceAsk ApprovalApproved "anna" MethodSession 100 (100 + ApprovalTTL) "bert" (Some 200).

Example grace_lowered :
  stGraceDays (vSettings graceState) = 7 /\ stGraceDays (vSettings (exec graceState (OApply 0 true true true))) = 3 /\
  executedIDs (vLog graceState) = ["apr_1"].
Proof. vm_compute. done. Qed.

Lemma two_person_rule_witness :
  (∃ u, pUser (session bert) = Some u /\ pMethod (session bert) = MethodSession /\ pScope (session bert) = ScopeAdmin /\
     (apRequestedByUserID graceApproval = "" \/ uID u <> apRequestedByUserID graceApproval) /\
     (apCreatedAt graceApproval = 0 \/ (uRoleChangedAt u <> 0 /\ uRoleChangedAt u < apCreatedAt graceApproval))) /\
  (∃ t, apDecidedAt graceApproval = Some t /\ t < apCreatedAt graceApproval + ApprovalTTL) /\
  (∃ a0, EvRequested a0 ∈ vLog (run graceRun (initState strict [anna; bert] ∅)) /\ asked a0 graceApproval) /\
  (∃ a', vApprovals (run graceRun (initState strict [anna; bert] ∅)) !! apID graceApproval = Some a' /\ ranStatus (apStatus a')) /\
  NoDup (executedIDs (vLog (run graceRun (initState strict [anna; bert] ∅)))).
Proof.
  apply (two_person_rule strict [anna; bert] ∅ graceRun graceApproval (session bert)).
  apply (list_elem_of_lookup_2 _ 1). vm_compute. reflexivity.
Defined.

Lemma protections_lowered_late_witness :
  ∃ c c0 now g second us ap, dueNow c c0 now (OApply 0 true true true) (run graceRun (initState strict [anna; bert] ∅)) /\
    pcKind c0 = PendingDeleteGrace /\
    EvScheduled c0 g second us ap ∈ vLog (run graceRun (initState strict [anna; bert] ∅)) /\ pcCreatedAt c0 + GraceDuration g <= now /\
    (second = true -> ∃ a p, ap = Some (apID a) /\ EvExecuted a p ∈ vLog (run graceRun (initState strict [anna; bert] ∅))).
Proof. apply protections_lowered_late. vm_compute. reflexivity. Defined.

(** Anna asks to turn the rule off, Bert approves. *)
Definition offRun : list op :=
  [OUpdate 0 (Some (session anna)) (mkPatch None (Some false) None None); OCommit 0 true; OFollow 0 "apr_1" 100 true true;
   OApprove 0 (session bert) "apr_1" 200].


(** Two edits read a retention of 7 days; one lengthens it to 30, the other to 14. *)
Definition raceRun : list op :=
  [OEdit 0 None "j" (Some 30) None false; OEdit 1 None "j" (Some 14) None false; OStore 0 50 true; OHold 0 "chg_1" 50 true].
Definition raceInit : State := initState strict [anna; bert] {["j" := mkJobR 7 0 1]}.

Example edit_race_shortens :
  (jrDays <$> vJobs (run raceRun raceInit) !! "j") = Some 30 /\
  (jrDays <$> vJobs (exec (run raceRun raceInit) (OStore 1 60 true)) !! "j") = Some 14 /\ vLog (run raceRun raceInit) = [].
Proof. vm_compute. done. Qed.

Lemma retention_shortened_late_witness :
  (∃ c c0 now g second us ap, dueNow c c0 now (OStore 1 60 true) (run raceRun raceInit) /\ pcKind c0 = PendingRetention /\ pcJobID c0 = "j" /\
    EvScheduled c0 g second us ap ∈ vLog (run raceRun raceInit) /\ pcCreatedAt c0 + GraceDuration g <= now /\
    (second = true -> ∃ a p, ap = Some (apID a) /\ EvExecuted a p ∈ vLog (run raceRun raceInit))) \/
  (∃ n now e j0 j, OStore 1 60 true = OStore n now true /\ vEdits (run raceRun raceInit) !! n = Some (CEditing e) /\ edJob e = "j" /\
    edExisting e = Some j0 /\ vJobs (run raceRun raceInit) !! "j" = Some j /\ (jrDays j0 <> jrDays j \/ jrCount j0 <> jrCount j)).
Proof.
  apply retention_shortened_late. eexists _, _. split_and!; [vm_compute; reflexivity|vm_compute; reflexivity|left; reflexivity].
Defined.

(** The only administrator asks to turn the rule off; a second one joins while the change
    waits; the check that would drop the change cannot read the users. *)
Definition unreadRun : list op :=
  [OUpdate 0 (Some (session anna)) (mkPatch None (Some false) None None); OCommit 0 true; OFollow 0 "chg_1" 100 true true;
   OUsers [anna; bert]; OSweep 0 (100 + week); OTake 0].

Example unreadable_users_end_the_rule :
  let s := run unreadRun (initState strict [anna] ∅) in
  (stSecondApprover (vSettings (exec s (OApply 0 true true true))), stSecondApprover (vSettings (exec s (OApply 0 true false true)))) = (true, false).
Proof. vm_compute. done. Qed.

(** Anna, the only administrator, asks to turn the rule off. While her demotion, approved by
    Carl, is executed, Bert cancels the change: it is stored again. *)
Definition carl : User := mkUser "carl" RoleAdmin 7.
Definition returnRun : list op :=
  [OUsers [anna]; OUpdate 0 (Some (session anna)) (mkPatch None (Some false) None None); OCommit 0 true; OFollow 0 "chg_1" 100 true true;
   OUsers [anna; bert; carl]; ORequest (Some (session bert)) "apr_9" 110 (mkAsk ApprovalChangeAdminRole "anna" None None None None None);
   OApprove 0 (session carl) "apr_9" 120; OExecute 0 "x" 130 true; OCancel (Some (session bert)) "chg_1"].

Example cancelled_change_returns :
  let s := run returnRun (initState strict [anna; bert] ∅) in
  (bool_decide (vChanges s !! "chg_1" = None), bool_decide (is_Some (vChanges (exec s (OForget 0 true)) !! "chg_1"))) = (true, true).
Proof. vm_compute. done. Qed.
