(* ===== verification/AccountStore.v ===== *)
(** * Accounts in the database ([internal/store/auth.go], [internal/auth/types.go])

    Users, sessions and API keys as the tables of the store keep them, and every
    transaction on them. A transaction is a function on the tables that fails with an
    error; [withTx] keeps the tables of a failed one. SQLite runs write transactions one
    after the other. Times are kept as they are, connection IDs are valid UTF-8; rows that
    cannot be read and failures of the database are left out here and added where the
    transactions are called. *)

From S2P Require Import Prelude Glob Selection Access.

Local Open Scope rescue_scope.

(** ** Data *)

(** [ProviderNone] is the empty provider, which counts as local. *)
Inductive Provider : Type := ProviderLocal | ProviderOIDC | ProviderNone | ProviderOther (name : string).

#[export] Instance Provider_eq_dec : EqDecision Provider.
Proof. solve_decision. Defined.

Record Account : Type := mkAccount {
  acID : string;
  acUsername : string;
  acRole : Role;
  acProvider : Provider;
  acSubject : string;
  acHash : string;
  acCreatedAt : Z;
  acUpdatedAt : Z;
  acLastLogin : option Z;
  acRoleChangedAt : Z;
  acMustChange : bool;
  acAccess : ConnectionAccess
}.

Definition Local_ (u : Account) : bool :=
  match acProvider u with ProviderNone | ProviderLocal => true | _ => false end.

Record Session : Type := mkSession {
  seHash : string;
  seUserID : string;
  seCSRF : string;
  seCreatedAt : Z;
  seLastSeen : Z;
  seExpiresAt : Z
}.

Record APIKey : Type := mkKey {
  kyID : string;
  kyName : string;
  kyPrefix : string;
  kyScope : Scope;
  kyHash : string;
  kyCreatedBy : string;
  kyCreatedAt : Z;
  kyLastUsed : option Z;
  kyExpiresAt : option Z;
  kyMaxDays : Z;
  kyImported : bool;
  kyCreatedByKey : string;
  kyAccess : ConnectionAccess
}.

(** Errors of the package; [ErrInternal]: the database, the context or the source of
    randomness failed, or an identity is inconsistent. *)
Inductive AccErr : Type :=
| EAccess (e : AuthErr)
| ErrInvalidCredentials | ErrSetupCompleted | ErrInvalidSetupCode | ErrThrottled (wait : Z)
| ErrInvalidPassword | ErrInvalidUsername | ErrUserExists | ErrUserNotFound | ErrLastUser | ErrLastAdmin
| ErrLastLocalAdmin | ErrDeleteSelf | ErrChangeOwnRole | ErrCurrentPassword | ErrSessionRequired
| ErrAPIKeyNotFound | ErrAPIKeyExpired (id : string) | ErrSessionNotFound | ErrNoPassword | ErrPasswordChangeRequired
| ErrLocalLoginDisabled | ErrRoleManagedByProvider | ErrAdminConnections | ErrAwaitingApproval
| ErrAccountConflict | ErrUnknownExternalUser | ErrNoRole | ErrInvalidIdentity | ErrOIDCDisabled | ErrDomainNotAllowed
| ErrInvalidName | ErrInvalidExpiry | ErrScopeExceedsRole | ErrConnectionsExceedAccess
| ErrCSRF | ErrInternal.

#[export] Instance AuthErr_eq_dec : EqDecision AuthErr.
Proof. solve_decision. Defined.
#[export] Instance AccErr_eq_dec : EqDecision AccErr.
Proof. solve_decision. Defined.

(** The tables; [dbOIDC] is the stored value of [oidc.enabled], [dbLocalLogin] whether
    [oidc.local_login] is [admins_only]. *)
Record DB : Type := mkDB {
  dbUsers : gmap string Account;
  dbSessions : gmap string Session;
  dbKeys : gmap string APIKey;
  dbOIDC : option string;
  dbLocalLogin : bool
}.

Definition emptyDB : DB := mkDB ∅ ∅ ∅ None false.

Definition setUsers (us : gmap string Account) (db : DB) : DB :=
  mkDB us (dbSessions db) (dbKeys db) (dbOIDC db) (dbLocalLogin db).
Definition setSessions (ss : gmap string Session) (db : DB) : DB :=
  mkDB (dbUsers db) ss (dbKeys db) (dbOIDC db) (dbLocalLogin db).
Definition setKeys (ks : gmap string APIKey) (db : DB) : DB :=
  mkDB (dbUsers db) (dbSessions db) ks (dbOIDC db) (dbLocalLogin db).

(** A transaction that fails leaves the tables as they were. *)
Definition withTx {A} (f : DB -> result AccErr (DB * A)) (db : DB) : DB * result AccErr A :=
  match f db with Ok (db', a) => (db', Ok a) | Err e => (db, Err e) end.

(** ** Rows *)

(** The NOCASE collation of the username column: ASCII letters only. *)
Fixpoint nocase (s : string) : string :=
  match s with
  | EmptyString => EmptyString
  | String a s' => String (if byteIn 65 90 a then Ascii.ascii_of_N (Ascii.N_of_ascii a + 32) else a) (nocase s')
  end.

Definition sameName (name : string) (p : string * Account) : Prop := nocase (acUsername p.2) = nocase name.
Definition sameSubject (subject : string) (p : string * Account) : Prop := acSubject p.2 = subject.
Definition isAdmin (p : string * Account) : Prop := acRole p.2 = RoleAdmin.
Definition isLocalAdmin (p : string * Account) : Prop := acRole p.2 = RoleAdmin /\ acProvider p.2 = ProviderLocal.

#[export] Instance sameName_dec name p : Decision (sameName name p).
Proof. unfold sameName. apply _. Defined.
#[export] Instance sameSubject_dec subject p : Decision (sameSubject subject p).
Proof. unfold sameSubject. apply _. Defined.
#[export] Instance isAdmin_dec p : Decision (isAdmin p).
Proof. unfold isAdmin. apply _. Defined.
#[export] Instance isLocalAdmin_dec p : Decision (isLocalAdmin p).
Proof. unfold isLocalAdmin. apply _. Defined.

Definition countAdmins (db : DB) : nat := size (filter isAdmin (dbUsers db)).
Definition countLocalAdmins (db : DB) : nat := size (filter isLocalAdmin (dbUsers db)).

(** The first row that satisfies [P]. *)
Definition pick {A} (P : string * A -> Prop) `{∀ p, Decision (P p)} (m : gmap string A) : option A :=
  snd <$> head (map_to_list (filter P m)).

Definition checkIdentity (u : Account) : result AccErr unit :=
  let oidc := bool_decide (acProvider u = ProviderOIDC) in
  if negb (bool_decide (acProvider u = ProviderLocal)) && negb oidc then Err ErrInternal
  else if negb (eqb oidc (negb (bool_decide (acSubject u = "")))) || negb (eqb oidc (bool_decide (acHash u = ""))) then Err ErrInternal
  else Ok tt.

(** What the columns of an access hold, read back ([accessColumns], [parseAccess]). *)
Definition storedAccess (a : ConnectionAccess) : ConnectionAccess :=
  if AllConnections a then EveryConnection else mkAccess false (ConnectionIDs a).

(** The fields [insertUser] fills in. *)
Definition filledIn (u : Account) : Account :=
  mkAccount (acID u) (acUsername u) (acRole u)
    (match acProvider u with ProviderNone => ProviderLocal | p => p end)
    (acSubject u) (acHash u) (acCreatedAt u) (acUpdatedAt u) (acLastLogin u)
    (if IsZero (acRoleChangedAt u) then acCreatedAt u else acRoleChangedAt u)
    (acMustChange u)
    (if bool_decide (acRole u = RoleAdmin) then EveryConnection else storedAccess (acAccess u)).

(** The unique columns: id, username, subject (when set). *)
Definition clashes (u : Account) (db : DB) : bool :=
  match dbUsers db !! acID u with
  | Some _ => true
  | None =>
      negb (bool_decide (filter (sameName (acUsername u)) (dbUsers db) = ∅)) ||
      (negb (bool_decide (acSubject u = "")) && negb (bool_decide (filter (sameSubject (acSubject u)) (dbUsers db) = ∅)))
  end.

Definition insertUser (u : Account) (db : DB) : result AccErr (DB * Account) :=
  if negb (roleValid (acRole u)) then Err (EAccess ErrInvalidRole)
  else
    let u := filledIn u in
    _ <-! checkIdentity u;
    if clashes u db then Err ErrUserExists
    else Ok (setUsers (<[acID u := u]> (dbUsers db)) db, u).

(** [execOne] with an UPDATE of one user. *)
Definition updateUser (id : string) (f : Account -> Account) (db : DB) : result AccErr DB :=
  match dbUsers db !! id with
  | Some u => Ok (setUsers (<[id := f u]> (dbUsers db)) db)
  | None => Err ErrUserNotFound
  end.

(** DELETE FROM sessions WHERE [P]. *)
Definition dropSessions (P : string * Session -> Prop) `{∀ p, Decision (P p)} (db : DB) : DB :=
  setSessions (filter (λ p, ~ P p) (dbSessions db)) db.

Definition ofUser (id : string) (p : string * Session) : Prop := seUserID p.2 = id.
Definition ofUserBut (id keep : string) (p : string * Session) : Prop := seUserID p.2 = id /\ p.1 <> keep.

#[export] Instance ofUser_dec id p : Decision (ofUser id p).
Proof. unfold ofUser. apply _. Defined.
#[export] Instance ofUserBut_dec id keep p : Decision (ofUserBut id keep p).
Proof. unfold ofUserBut. apply _. Defined.

Definition userProvider (id : string) (db : DB) : result AccErr Provider :=
  match dbUsers db !! id with Some u => Ok (acProvider u) | None => Err ErrUserNotFound end.

Definition userRole (id : string) (db : DB) : result AccErr Role :=
  match dbUsers db !! id with Some u => Ok (acRole u) | None => Err ErrUserNotFound end.

(** A refusal is a scope error. *)
Definition requireAdminRole (actor : string) (db : DB) : result AccErr unit :=
  match userRole actor db with
  | Ok role => if bool_decide (role = RoleAdmin) then Ok tt else Err (EAccess ErrForbidden)
  | Err _ => Err (EAccess ErrUnauthenticated)
  end.

Definition refuseLastAdmin (db : DB) : result AccErr unit :=
  if Nat.leb (countAdmins db) 1 then Err ErrLastAdmin else Ok tt.

Definition refuseLastLocalAdmin (id : string) (db : DB) : result AccErr unit :=
  p <-! userProvider id db;
  if negb (bool_decide (p = ProviderLocal)) then Ok tt
  else if Nat.leb (countLocalAdmins db) 1 then Err ErrLastLocalAdmin else Ok tt.

Definition storedOIDCEnabled (db : DB) : bool :=
  match dbOIDC db with Some v => bool_decide (TrimSpace v = "true") | None => false end.

Definition guardLocalAdmin (id : string) (keep : bool) (db : DB) : result AccErr unit :=
  if negb (keep || storedOIDCEnabled db) then Ok tt else refuseLastLocalAdmin id db.

(** The checks before an administrator loses the role or is deleted. *)
Definition guardAdmin (role : Role) (id : string) (keep : bool) (db : DB) : result AccErr unit :=
  if bool_decide (role = RoleAdmin) then _ <-! refuseLastAdmin db; guardLocalAdmin id keep db else Ok tt.

Definition actorIsAdmin (actor : string) (db : DB) : result AccErr unit :=
  if bool_decide (actor = "") then Ok tt else requireAdminRole actor db.

(** ** Transactions on users *)

Definition CountUsers (db : DB) : nat := size (dbUsers db).

Definition CreateFirstUser (u : Account) : DB -> DB * result AccErr Account :=
  withTx (λ db, if Nat.ltb 0 (CountUsers db) then Err ErrSetupCompleted else insertUser u db).

Definition CreateUser (u : Account) : DB -> DB * result AccErr Account := withTx (insertUser u).

Definition GetUser (id : string) (db : DB) : result AccErr Account :=
  match dbUsers db !! id with Some u => Ok u | None => Err ErrUserNotFound end.

Definition GetUserByUsername (name : string) (db : DB) : result AccErr Account :=
  match pick (sameName name) (dbUsers db) with Some u => Ok u | None => Err ErrUserNotFound end.

Definition passwordSet (hash : string) (at_ : Z) (u : Account) : Account :=
  mkAccount (acID u) (acUsername u) (acRole u) (acProvider u) (acSubject u) hash (acCreatedAt u) at_ (acLastLogin u)
    (acRoleChangedAt u) false (acAccess u).

Definition passwordReset (hash : string) (at_ : Z) (u : Account) : Account :=
  mkAccount (acID u) (acUsername u) (acRole u) (acProvider u) (acSubject u) hash (acCreatedAt u) at_ (acLastLogin u)
    at_ true (acAccess u).

Definition UpdatePassword (id hash : string) (at_ : Z) (keep : string) (db : DB) : DB * result AccErr unit :=
  if bool_decide (hash = "") then (db, Err ErrInternal)
  else withTx (λ db,
    p <-! userProvider id db;
    if negb (bool_decide (p = ProviderLocal)) then Err ErrNoPassword
    else db1 <-! updateUser id (passwordSet hash at_) db; Ok (dropSessions (ofUserBut id keep) db1, tt)) db.

Definition ResetPassword (id hash : string) (at_ : Z) (db : DB) : DB * result AccErr unit :=
  if bool_decide (hash = "") then (db, Err ErrInternal)
  else withTx (λ db,
    p <-! userProvider id db;
    if negb (bool_decide (p = ProviderLocal)) then Err ErrNoPassword
    else db1 <-! updateUser id (passwordReset hash at_) db; Ok (dropSessions (ofUser id) db1, tt)) db.

Definition signedIn (at_ : Z) (u : Account) : Account :=
  mkAccount (acID u) (acUsername u) (acRole u) (acProvider u) (acSubject u) (acHash u) (acCreatedAt u) (acUpdatedAt u) (Some at_)
    (acRoleChangedAt u) (acMustChange u) (acAccess u).

Definition RecordLogin (id : string) (at_ : Z) : DB -> DB * result AccErr unit :=
  withTx (λ db, db1 <-! updateUser id (signedIn at_) db; Ok (db1, tt)).

(** The API keys a user created go with the user. *)
Definition createdBy (id : string) (p : string * APIKey) : Prop := kyCreatedBy p.2 = id.

#[export] Instance createdBy_dec id p : Decision (createdBy id p).
Proof. unfold createdBy. apply _. Defined.

Definition DeleteUser (actor id : string) (keep : bool) : DB -> DB * result AccErr unit :=
  withTx (λ db,
    _ <-! actorIsAdmin actor db;
    role <-! userRole id db;
    if Nat.leb (CountUsers db) 1 then Err ErrLastUser
    else
      _ <-! guardAdmin role id keep db;
      let db1 := dropSessions (ofUser id) db in
      let db2 := setKeys (filter (λ p, ~ createdBy id p) (dbKeys db1)) db1 in
      Ok (setUsers (delete id (dbUsers db2)) db2, tt)).

Definition withRole (role : Role) (at_ : Z) (u : Account) : Account :=
  mkAccount (acID u) (acUsername u) role (acProvider u) (acSubject u) (acHash u) (acCreatedAt u) at_ (acLastLogin u)
    at_ (acMustChange u) (if bool_decide (role = RoleAdmin) then EveryConnection else acAccess u).

Definition setRole (id : string) (role : Role) (at_ : Z) (db : DB) : result AccErr DB :=
  db1 <-! updateUser id (withRole role at_) db; Ok (dropSessions (ofUser id) db1).

Definition UpdateUserRole (actor id : string) (role : Role) (at_ : Z) (keep : bool) (db : DB) : DB * result AccErr Role :=
  if negb (roleValid role) then (db, Err (EAccess ErrInvalidRole))
  else withTx (λ db,
    _ <-! actorIsAdmin actor db;
    current <-! userRole id db;
    if bool_decide (current = role) then Ok (db, current)
    else
      _ <-! guardAdmin current id keep db;
      db1 <-! setRole id role at_ db; Ok (db1, current)) db.

Definition withAccess (a : ConnectionAccess) (at_ : option Z) (u : Account) : Account :=
  mkAccount (acID u) (acUsername u) (acRole u) (acProvider u) (acSubject u) (acHash u) (acCreatedAt u)
    (default (acUpdatedAt u) at_) (acLastLogin u) (acRoleChangedAt u) (acMustChange u) (storedAccess a).

Definition UpdateUserConnections (actor id : string) (a : ConnectionAccess) (at_ : Z) : DB -> DB * result AccErr unit :=
  withTx (λ db,
    _ <-! actorIsAdmin actor db;
    role <-! userRole id db;
    if bool_decide (role = RoleAdmin) && negb (AllConnections a) then Err ErrAdminConnections
    else db1 <-! updateUser id (withAccess a (Some at_)) db; Ok (db1, tt)).

(** *** Single sign-on *)

Record ExternalSignIn : Type := mkSignIn {
  exSubject : string;
  exNewUserID : string;
  exUsername : string;
  exRole : option Role;
  exRoleOnCreate : bool;
  exConnections : ConnectionAccess;
  exAutoCreate : bool;
  exKeepAdmin : bool;
  exAt : Z
}.

Record ExternalSignInResult : Type := mkSignedIn {
  xrUser : Account;
  xrCreated : bool;
  xrRoleFrom : option Role;
  xrRoleKept : bool;
  xrDemotionHeld : bool
}.

(** A role that is set is a known one; none is accepted for new users only. *)
Definition signInRoleOK (i : ExternalSignIn) : bool :=
  match exRole i with Some r => roleValid r | None => exRoleOnCreate i end.

Definition newExternalUser (i : ExternalSignIn) (role : Role) : Account :=
  mkAccount (exNewUserID i) (exUsername i) role ProviderOIDC (exSubject i) "" (exAt i) (exAt i) (Some (exAt i)) 0 false
    (if exRoleOnCreate i then EveryConnection else exConnections i).

Definition createExternal (i : ExternalSignIn) (db : DB) : result AccErr (DB * ExternalSignInResult) :=
  if negb (exAutoCreate i) then Err ErrUnknownExternalUser
  else match exRole i with
  | None => Err ErrNoRole
  | Some role =>
      match insertUser (newExternalUser i role) db with
      | Ok (db1, u) => Ok (db1, mkSignedIn u true None false false)
      | Err ErrUserExists => Err ErrAccountConflict
      | Err e => Err e
      end
  end.

(** The role of an existing user after a sign-in: applied, or kept to keep the last
    administrator or (held) for a second administrator. *)
Definition signInRole (i : ExternalSignIn) (u : Account) (db : DB) : result AccErr (DB * Role * bool * bool) :=
  match exRole i with
  | Some role =>
      if exRoleOnCreate i || bool_decide (acRole u = role) then Ok (db, acRole u, false, false)
      else if bool_decide (acRole u = RoleAdmin) && exKeepAdmin i then Ok (db, acRole u, true, true)
      else if bool_decide (acRole u = RoleAdmin) && negb (is_ok (refuseLastAdmin db)) then Ok (db, acRole u, true, false)
      else db1 <-! setRole (acID u) role (exAt i) db; Ok (db1, role, false, false)
  | None => Ok (db, acRole u, false, false)
  end.

Definition stamped (at_ : Z) (u : Account) : Account :=
  mkAccount (acID u) (acUsername u) (acRole u) (acProvider u) (acSubject u) (acHash u) (acCreatedAt u) at_ (Some at_)
    (acRoleChangedAt u) (acMustChange u) (acAccess u).

Definition signInAccess (i : ExternalSignIn) (role : Role) (u : Account) : Account :=
  if exRoleOnCreate i then u
  else withAccess (if bool_decide (role = RoleAdmin) then EveryConnection else exConnections i) None u.

(** [RoleChangedAt] of the returned user stays as it was read. *)
Definition signedInUser (i : ExternalSignIn) (role : Role) (u : Account) : Account :=
  let a := if exRoleOnCreate i then acAccess u
           else storedAccess (if bool_decide (role = RoleAdmin) then EveryConnection else exConnections i) in
  mkAccount (acID u) (acUsername u) role (acProvider u) (acSubject u) (acHash u) (acCreatedAt u) (exAt i) (Some (exAt i))
    (acRoleChangedAt u) (acMustChange u) a.

Definition SignInExternalUser (i : ExternalSignIn) (db : DB) : DB * result AccErr ExternalSignInResult :=
  if bool_decide (exSubject i = "") || negb (signInRoleOK i) then (db, Err ErrInvalidIdentity)
  else withTx (λ db,
    match pick (sameSubject (exSubject i)) (dbUsers db) with
    | None => createExternal i db
    | Some u =>
        if negb (bool_decide (acProvider u = ProviderOIDC)) then Err ErrInternal
        else
          r <-! signInRole i u db;
          let '(db1, role, kept, held) := r in
          db2 <-! updateUser (acID u) (λ v, signInAccess i role (stamped (exAt i) v)) db1;
          Ok (db2, mkSignedIn (signedInUser i role u) false (Some (acRole u)) kept held)
    end) db.

(** ** Sessions *)

(** A foreign key: the user must exist. *)
Definition CreateSession (s : Session) (db : DB) : DB * result AccErr unit :=
  match dbSessions db !! seHash s, dbUsers db !! seUserID s with
  | None, Some _ => (setSessions (<[seHash s := s]> (dbSessions db)) db, Ok tt)
  | _, _ => (db, Err ErrInternal)
  end.

Definition GetSession (hash : string) (db : DB) : result AccErr Session :=
  match dbSessions db !! hash with Some s => Ok s | None => Err ErrSessionNotFound end.

Definition seen (at_ : Z) (s : Session) : Session :=
  mkSession (seHash s) (seUserID s) (seCSRF s) (seCreatedAt s) at_ (seExpiresAt s).

Definition TouchSession (hash : string) (at_ : Z) (db : DB) : DB :=
  setSessions (alter (seen at_) hash (dbSessions db)) db.

Definition DeleteSession (hash : string) (db : DB) : DB := setSessions (delete hash (dbSessions db)) db.

Definition lapsed (now idle : Z) (p : string * Session) : Prop :=
  seExpiresAt p.2 <= now \/ seLastSeen p.2 <= now - idle.

#[export] Instance lapsed_dec now idle p : Decision (lapsed now idle p).
Proof. unfold lapsed. apply _. Defined.

Definition DeleteExpiredSessions (now idle : Z) (db : DB) : DB := dropSessions (lapsed now idle) db.

Definition ofLocalNonAdmin (db : DB) (p : string * Session) : Prop :=
  match dbUsers db !! seUserID p.2 with
  | Some u => acProvider u = ProviderLocal /\ acRole u <> RoleAdmin
  | None => False
  end.

#[export] Instance ofLocalNonAdmin_dec db p : Decision (ofLocalNonAdmin db p).
Proof. unfold ofLocalNonAdmin. destruct (_ !! _); apply _. Defined.

Definition DeleteLocalNonAdminSessions (db : DB) : DB := dropSessions (ofLocalNonAdmin db) db.

(** A rotation of the secret key ends every session. *)
Definition rotateSessions (db : DB) : DB := setSessions ∅ db.

(** ** API keys *)

Definition samePrefix (prefix : string) (p : string * APIKey) : Prop := kyPrefix p.2 = prefix.

#[export] Instance samePrefix_dec prefix p : Decision (samePrefix prefix p).
Proof. unfold samePrefix. apply _. Defined.

(** A failed INSERT is any error of the database. *)
Definition CreateAPIKey (k : APIKey) (db : DB) : DB * result AccErr unit :=
  match dbKeys db !! kyID k with
  | Some _ => (db, Err ErrInternal)
  | None =>
      if bool_decide (filter (samePrefix (kyPrefix k)) (dbKeys db) = ∅)
      then (setKeys (<[kyID k := k]> (dbKeys db)) db, Ok tt) else (db, Err ErrInternal)
  end.

Definition GetAPIKeyByPrefix (prefix : string) (db : DB) : result AccErr APIKey :=
  match pick (samePrefix prefix) (dbKeys db) with Some k => Ok k | None => Err ErrAPIKeyNotFound end.

Definition keyWithScope (s : Scope) (k : APIKey) : APIKey :=
  mkKey (kyID k) (kyName k) (kyPrefix k) s (kyHash k) (kyCreatedBy k) (kyCreatedAt k) (kyLastUsed k) (kyExpiresAt k)
    (kyMaxDays k) (kyImported k) (kyCreatedByKey k) (kyAccess k).
Definition keyUsed (at_ : Z) (k : APIKey) : APIKey :=
  mkKey (kyID k) (kyName k) (kyPrefix k) (kyScope k) (kyHash k) (kyCreatedBy k) (kyCreatedAt k) (Some at_) (kyExpiresAt k)
    (kyMaxDays k) (kyImported k) (kyCreatedByKey k) (kyAccess k).
Definition keyRehashed (prefix hash : string) (k : APIKey) : APIKey :=
  mkKey (kyID k) (kyName k) prefix (kyScope k) hash (kyCreatedBy k) (kyCreatedAt k) (kyLastUsed k) (kyExpiresAt k)
    (kyMaxDays k) (kyImported k) (kyCreatedByKey k) (kyAccess k).
Definition keyCapped (deadline maxDays : Z) (k : APIKey) : APIKey :=
  mkKey (kyID k) (kyName k) (kyPrefix k) (kyScope k) (kyHash k) (kyCreatedBy k) (kyCreatedAt k) (kyLastUsed k) (Some deadline)
    maxDays (kyImported k) (kyCreatedByKey k) (kyAccess k).

Definition UpdateAPIKeyScope (id : string) (s : Scope) (db : DB) : DB * result AccErr unit :=
  if negb (scopeValid s) then (db, Err (EAccess ErrInvalidScope))
  else match dbKeys db !! id with
  | Some k => (setKeys (<[id := keyWithScope s k]> (dbKeys db)) db, Ok tt)
  | None => (db, Err ErrAPIKeyNotFound)
  end.

Definition TouchAPIKey (id : string) (at_ : Z) (db : DB) : DB := setKeys (alter (keyUsed at_) id (dbKeys db)) db.

(** A prefix that is taken fails the UPDATE. *)
Definition RehashAPIKey (id prefix hash : string) (db : DB) : DB * result AccErr unit :=
  match dbKeys db !! id with
  | Some k =>
      if bool_decide (filter (samePrefix prefix) (delete id (dbKeys db)) = ∅)
      then (setKeys (<[id := keyRehashed prefix hash k]> (dbKeys db)) db, Ok tt) else (db, Err ErrInternal)
  | None => (db, Err ErrAPIKeyNotFound)
  end.

Definition DeleteAPIKey (id : string) (db : DB) : DB * result AccErr unit :=
  match dbKeys db !! id with
  | Some _ => (setKeys (delete id (dbKeys db)) db, Ok tt)
  | None => (db, Err ErrAPIKeyNotFound)
  end.

(** [capWhere]; a maximum of 0 days is the NULL of the column. *)
Definition toCap (deadline maxDays : Z) (k : APIKey) : bool :=
  negb (kyImported k) &&
  match kyExpiresAt k with
  | None => true
  | Some e => (e >? deadline) && negb (kyMaxDays k =? maxDays)
  end.

Definition CapAPIKeyExpiry (deadline maxDays : Z) (db : DB) : DB :=
  setKeys ((λ k, if toCap deadline maxDays k then keyCapped deadline maxDays k else k) <$> dbKeys db) db.

(** ** Settings of single sign-on *)

(** [OIDCChangeNeedsLocalAdmin] of the policies' [Enabled] and [LocalLogin]. *)
Definition OIDCChangeNeedsLocalAdmin (prev next : bool * bool) : bool :=
  (next.1 && negb prev.1) || (next.2 && negb prev.2).

(** The precondition is checked in the transaction that saves the values. *)
Definition SaveSettingsWith (pre : bool) (enabled adminsOnly : bool) : DB -> DB * result AccErr unit :=
  withTx (λ db,
    if pre && Nat.eqb (countLocalAdmins db) 0 then Err ErrLastLocalAdmin
    else Ok (mkDB (dbUsers db) (dbSessions db) (dbKeys db) (Some (if enabled then "true" else "false")) adminsOnly, tt)).

(** [UpdateChanged] on these settings: the current ones are the stored ones, for changes
    of settings run one after the other ([writeMu]). *)
Definition saveOIDC (enabled adminsOnly : bool) (db : DB) : DB * result AccErr unit :=
  SaveSettingsWith (OIDCChangeNeedsLocalAdmin (storedOIDCEnabled db, dbLocalLogin db) (enabled, adminsOnly)) enabled adminsOnly db.
