(* ===== verification/AccountInvariant.v ===== *)
(** * The account tables keep their invariant

    Any sequence of transactions of AccountStore, as the handlers of concurrent requests
    commit them, from the empty database. *)

From S2P Require Import Prelude Glob Selection Access AccountStore.

Local Open Scope rescue_scope.

Inductive txn : Type :=
| TCreateFirstUser (u : Account)
| TCreateUser (u : Account)
| TUpdatePassword (id hash : string) (at_ : Z) (keep : string)
| TResetPassword (id hash : string) (at_ : Z)
| TRecordLogin (id : string) (at_ : Z)
| TDeleteUser (actor id : string) (keep : bool)
| TUpdateUserRole (actor id : string) (role : Role) (at_ : Z) (keep : bool)
| TUpdateUserConnections (actor id : string) (a : ConnectionAccess) (at_ : Z)
| TSignInExternalUser (i : ExternalSignIn)
| TCreateSession (s : Session)
| TTouchSession (hash : string) (at_ : Z)
| TDeleteSession (hash : string)
| TDeleteExpiredSessions (now idle : Z)
| TDeleteLocalNonAdminSessions
| TRotate
| TCreateAPIKey (k : APIKey)
| TUpdateAPIKeyScope (id : string) (s : Scope)
| TTouchAPIKey (id : string) (at_ : Z)
| TRehashAPIKey (id prefix hash : string)
| TDeleteAPIKey (id : string)
| TCapAPIKeyExpiry (deadline maxDays : Z)
| TSaveOIDC (enabled adminsOnly : bool).

Definition commit (t : txn) (db : DB) : DB :=
  match t with
  | TCreateFirstUser u => fst (CreateFirstUser u db)
  | TCreateUser u => fst (CreateUser u db)
  | TUpdatePassword id hash at_ keep => fst (UpdatePassword id hash at_ keep db)
  | TResetPassword id hash at_ => fst (ResetPassword id hash at_ db)
  | TRecordLogin id at_ => fst (RecordLogin id at_ db)
  | TDeleteUser actor id keep => fst (DeleteUser actor id keep db)
  | TUpdateUserRole actor id role at_ keep => fst (UpdateUserRole actor id role at_ keep db)
  | TUpdateUserConnections actor id a at_ => fst (UpdateUserConnections actor id a at_ db)
  | TSignInExternalUser i => fst (SignInExternalUser i db)
  | TCreateSession s => fst (CreateSession s db)
  | TTouchSession h at_ => TouchSession h at_ db
  | TDeleteSession h => DeleteSession h db
  | TDeleteExpiredSessions now idle => DeleteExpiredSessions now idle db
  | TDeleteLocalNonAdminSessions => DeleteLocalNonAdminSessions db
  | TRotate => rotateSessions db
  | TCreateAPIKey k => fst (CreateAPIKey k db)
  | TUpdateAPIKeyScope id s => fst (UpdateAPIKeyScope id s db)
  | TTouchAPIKey id at_ => TouchAPIKey id at_ db
  | TRehashAPIKey id p h => fst (RehashAPIKey id p h db)
  | TDeleteAPIKey id => fst (DeleteAPIKey id db)
  | TCapAPIKeyExpiry d n => CapAPIKeyExpiry d n db
  | TSaveOIDC e a => fst (saveOIDC e a db)
  end.

Definition commits (ts : list txn) (db : DB) : DB := foldl (λ db t, commit t db) db ts.

(** How the service calls them: the first user of a setup is an administrator; users are
    created by an administrator, or by a single sign-on (which a local administrator
    turned on), so not in an empty table. *)
Definition allowed (t : txn) (db : DB) : Prop :=
  match t with
  | TCreateFirstUser u => acRole u = RoleAdmin
  | TCreateUser _ => dbUsers db <> ∅
  | TSignInExternalUser i => exAutoCreate i = true -> dbUsers db <> ∅
  | _ => True
  end.

Fixpoint allAllowed (ts : list txn) (db : DB) : Prop :=
  match ts with
  | [] => True
  | t :: ts' => allowed t db /\ allAllowed ts' (commit t db)
  end.

(** A row of the users table. *)
Definition goodUser (id : string) (u : Account) : Prop :=
  acID u = id /\ roleValid (acRole u) = true /\ checkIdentity u = Ok tt /\
  (acRole u = RoleAdmin -> acAccess u = EveryConnection).

Record Inv (db : DB) : Prop := mkInv {
  inv_users : map_Forall goodUser (dbUsers db);
  inv_names : ∀ i j u v, dbUsers db !! i = Some u -> dbUsers db !! j = Some v ->
    nocase (acUsername u) = nocase (acUsername v) -> i = j;
  inv_subjects : ∀ i j u v, dbUsers db !! i = Some u -> dbUsers db !! j = Some v ->
    acSubject u = acSubject v -> acSubject u <> "" -> i = j;
  inv_sessions : map_Forall (λ h s, seHash s = h /\ is_Some (dbUsers db !! seUserID s)) (dbSessions db);
  inv_admin : dbUsers db <> ∅ -> ∃ id u, dbUsers db !! id = Some u /\ acRole u = RoleAdmin;
  inv_local : storedOIDCEnabled db = true ->
    ∃ id u, dbUsers db !! id = Some u /\ acRole u = RoleAdmin /\ acProvider u = ProviderLocal
}.

(** ** Tables *)

Lemma size_other {A} (m : gmap string A) i : (1 < size m)%nat -> ∃ j x, j <> i /\ m !! j = Some x.
Proof.
  intros Hs. destruct (map_choose (delete i m)) as (j & x & Hj%lookup_delete_Some); [|by exists j, x; naive_solver].
  intros He%map_size_empty_iff. pose proof (map_size_delete i m) as Hd. rewrite He in Hd. destruct (m !! i); simpl in *; lia.
Qed.

Lemma other_row (P : string * Account -> Prop) `{∀ p, Decision (P p)} (m : gmap string Account) i :
  (1 < size (filter P m))%nat -> ∃ j u, j <> i /\ m !! j = Some u /\ P (j, u).
Proof. intros (j & u & Hj & [Hu HP]%map_lookup_filter_Some)%(λ H, size_other _ i H). eauto 6. Qed.

Lemma pick_Some {A} (P : string * A -> Prop) `{∀ p, Decision (P p)} (m : gmap string A) u :
  pick P m = Some u -> ∃ i, m !! i = Some u /\ P (i, u).
Proof.
  unfold pick. intros ([i v] & Hh & ->)%fmap_Some. exists i. simpl.
  assert ((i, v) ∈ map_to_list (filter P m)) as Hin; [|by apply elem_of_map_to_list, map_lookup_filter_Some in Hin].
  destruct (map_to_list _); simplify_eq/=. left.
Qed.

Lemma pick_unique {A} (P : string * A -> Prop) `{∀ p, Decision (P p)} (m : gmap string A) i u :
  m !! i = Some u -> P (i, u) -> (∀ j v, m !! j = Some v -> P (j, v) -> j = i) -> pick P m = Some u.
Proof.
  intros Hi HP Hu. unfold pick. replace (filter P m) with ({[ i := u ]} : gmap string A).
  - by rewrite map_to_list_singleton.
  - apply map_eq. intros j. apply option_eq. intros v. rewrite lookup_singleton_Some, map_lookup_filter_Some. split.
    + by intros [<- <-].
    + intros [Hj HPj]. pose proof (Hu _ _ Hj HPj) as ->. split; congruence.
Qed.

Lemma no_rows (P : string * Account -> Prop) `{∀ p, Decision (P p)} (m : gmap string Account) i u :
  filter P m = ∅ -> m !! i = Some u -> ~ P (i, u).
Proof. intros He Hi HP. apply (map_filter_empty_not_lookup _ _ _ _ He HP Hi). Qed.

(** ** Preservation *)

(** Besides [id], an administrator remains, and a local one while single sign-on is on. *)
Definition others (id : string) (db : DB) : Prop :=
  (∃ j v, j <> id /\ dbUsers db !! j = Some v /\ acRole v = RoleAdmin) /\
  (storedOIDCEnabled db = true ->
   ∃ j v, j <> id /\ dbUsers db !! j = Some v /\ acRole v = RoleAdmin /\ acProvider v = ProviderLocal).

Lemma refuseLastAdmin_other db id :
  refuseLastAdmin db = Ok tt -> ∃ j v, j <> id /\ dbUsers db !! j = Some v /\ acRole v = RoleAdmin.
Proof.
  unfold refuseLastAdmin, countAdmins. destruct (Nat.leb _ _) eqn:E; [done|]. intros _. apply Nat.leb_gt in E.
  apply (other_row isAdmin _ id) in E as (j & v & ? & ? & ?). eauto.
Qed.

Lemma guard_others db id u keep :
  Inv db -> dbUsers db !! id = Some u -> guardAdmin (acRole u) id keep db = Ok tt -> others id db.
Proof.
  intros HI Hu. unfold guardAdmin. case_bool_decide as Hr.
  - destruct (refuseLastAdmin db) as [[]|] eqn:E; [|done]. intros Hg. split; [by apply refuseLastAdmin_other|].
    intros Ho. unfold guardLocalAdmin, refuseLastLocalAdmin, userProvider in Hg. rewrite Ho, orb_true_r, Hu in Hg. simpl in Hg.
    case_bool_decide as Hp; simpl in Hg.
    + destruct (Nat.leb _ _) eqn:E2; [done|]. apply Nat.leb_gt, (other_row isLocalAdmin _ id) in E2 as (j & v & ? & ? & ?).
      eauto 6.
    + destruct (inv_local db HI Ho) as (j & v & Hj & ? & ?). exists j, v. split; [|done]. intros ->. congruence.
  - intros _. split.
    + destruct (inv_admin db HI) as (j & v & Hj & ?); [by intros He; rewrite He in Hu|]. exists j, v. split; [|done]. intros ->. congruence.
    + intros Ho. destruct (inv_local db HI Ho) as (j & v & Hj & ? & ?). exists j, v. split; [|done]. intros ->. congruence.
Qed.

(** Sessions that were there before, perhaps changed. *)
Definition fewer (ss : gmap string Session) (db : DB) : Prop :=
  ∀ h s, ss !! h = Some s -> ∃ s', dbSessions db !! h = Some s' /\ seHash s = seHash s' /\ seUserID s = seUserID s'.

Lemma fewer_same db : fewer (dbSessions db) db.
Proof. intros h s. eauto. Qed.

Lemma fewer_filter (P : string * Session -> Prop) `{∀ p, Decision (P p)} db : fewer (filter P (dbSessions db)) db.
Proof. intros h s [? _]%map_lookup_filter_Some. eauto. Qed.

(** A transaction that keeps the users. *)
Lemma Inv_sessions_only db db' :
  Inv db -> dbUsers db' = dbUsers db -> dbOIDC db' = dbOIDC db -> fewer (dbSessions db') db -> Inv db'.
Proof.
  intros [H1 H2 H3 H4 H5 H6] Hu Ho Hs. split; unfold storedOIDCEnabled in *; rewrite ?Hu, ?Ho; try done.
  intros h s (s' & Hs' & -> & ->)%Hs. exact (H4 h s' Hs').
Qed.

(** A transaction that changes one user, who keeps name and identity. *)
Lemma Inv_replace db id u v ss :
  Inv db -> dbUsers db !! id = Some u -> goodUser id v ->
  acUsername v = acUsername u -> acSubject v = acSubject u -> acProvider v = acProvider u ->
  (acRole v = acRole u \/ acRole v = RoleAdmin \/ others id db) -> fewer ss db ->
  Inv (setSessions ss (setUsers (<[id := v]> (dbUsers db)) db)).
Proof.
  intros HI Hu Hv En Es Ep Hr Hs.
  assert (∀ (P : Account -> Prop), (∃ j x, j <> id /\ dbUsers db !! j = Some x /\ P x) -> ∃ j x, <[id := v]> (dbUsers db) !! j = Some x /\ P x) as Hoth.
  { intros P (j & x & Hj & Hx & HP). exists j, x. by rewrite lookup_insert_ne. }
  assert (∀ P : Account -> Prop, (P u -> P v) -> (∃ j x, dbUsers db !! j = Some x /\ P x) -> ∃ j x, <[id := v]> (dbUsers db) !! j = Some x /\ P x) as Hsame.
  { intros P HP (j & x & Hx & HPx). destruct (decide (j = id)) as [->|Hj].
    - exists id, v. rewrite lookup_insert, decide_True by done. split; [done|]. apply HP. congruence.
    - exists j, x. by rewrite lookup_insert_ne. }
  split; simpl.
  - apply map_Forall_insert_2; [done|apply HI].
  - intros i j x y Hx%lookup_insert_Some Hy%lookup_insert_Some E.
    destruct Hx as [[<- <-]|[? Hx]], Hy as [[<- <-]|[? Hy]]; rewrite ?En in E; try done; by eapply (inv_names db HI).
  - intros i j x y Hx%lookup_insert_Some Hy%lookup_insert_Some E Hne.
    destruct Hx as [[<- <-]|[? Hx]], Hy as [[<- <-]|[? Hy]]; rewrite ?Es in *; try done; by eapply (inv_subjects db HI).
  - intros h s (s' & Hs' & -> & ->)%Hs. destruct (inv_sessions db HI h s' Hs') as [? [x Hx]]. split; [done|].
    destruct (decide (id = seUserID s')) as [<-|]; [by rewrite lookup_insert, decide_True|by rewrite lookup_insert_ne].
  - intros _. destruct Hr as [Hr|[Hr|[Ha _]]]; [|by exists id, v; rewrite lookup_insert, decide_True|by apply (Hoth (λ x, acRole x = RoleAdmin))].
    apply (Hsame (λ x, acRole x = RoleAdmin)); [congruence|]. apply (inv_admin db HI). intros He. by rewrite He in Hu.
  - intros Ho. unfold storedOIDCEnabled in *. simpl in Ho.
    destruct Hr as [Hr|[Hr|[_ Hl]]].
    + apply (Hsame (λ x, acRole x = RoleAdmin /\ acProvider x = ProviderLocal)); [naive_solver congruence|]. by apply (inv_local db HI).
    + apply (Hsame (λ x, acRole x = RoleAdmin /\ acProvider x = ProviderLocal)); [naive_solver congruence|]. by apply (inv_local db HI).
    + by apply (Hoth (λ x, acRole x = RoleAdmin /\ acProvider x = ProviderLocal)), Hl.
Qed.

(** The first fields of a row decide whether it is good. *)
Lemma goodUser_ext id u v :
  goodUser id u -> acID v = acID u -> acRole v = acRole u -> acProvider v = acProvider u -> acSubject v = acSubject u ->
  (acHash v = "" <-> acHash u = "") -> (acRole u = RoleAdmin -> acAccess v = EveryConnection) -> goodUser id v.
Proof.
  intros (? & ? & Hc & ?) Ei Er Ep Es Eh Ha. unfold goodUser. rewrite Ei, Er. split_and!; [done..| |done].
  unfold checkIdentity in *. rewrite Ep, Es. by rewrite (bool_decide_ext _ _ Eh).
Qed.

Lemma local_has_hash id u : goodUser id u -> acProvider u = ProviderLocal -> acHash u <> "".
Proof.
  intros (_ & _ & Hc & _) Hp He. unfold checkIdentity in Hc. rewrite Hp, He in Hc. simpl in Hc.
  destruct (bool_decide (acSubject u = "")); done.
Qed.

Lemma insertUser_Inv db u db' v :
  Inv db -> insertUser u db = Ok (db', v) -> (dbUsers db <> ∅ \/ acRole u = RoleAdmin) -> Inv db'.
Proof.
  intros HI. unfold insertUser. destruct (roleValid (acRole u)) eqn:Hr; simpl; [|done].
  destruct (checkIdentity (filledIn u)) as [[]|] eqn:Hc; [|done]. unfold clashes. simpl.
  destruct (dbUsers db !! acID u) eqn:Hid; [done|].
  destruct (bool_decide (filter (sameName _) _ = ∅)) eqn:Hn; simpl; [|done]. apply bool_decide_eq_true in Hn.
  destruct (_ && _) eqn:Hs; [done|]. intros [= <- <-] Hne. split; simpl.
  - apply map_Forall_insert_2; [|apply HI]. split_and!; try done. intros Ha. simpl in *. by rewrite bool_decide_true.
  - intros i j x y Hx%lookup_insert_Some Hy%lookup_insert_Some E.
    destruct Hx as [[<- <-]|[? Hx]], Hy as [[<- <-]|[? Hy]]; try done; [| |by eapply (inv_names db HI)].
    + by destruct (no_rows _ _ _ _ Hn Hy).
    + by destruct (no_rows _ _ _ _ Hn Hx).
  - intros i j x y Hx%lookup_insert_Some Hy%lookup_insert_Some E Hsub.
    destruct Hx as [[<- <-]|[? Hx]], Hy as [[<- <-]|[? Hy]]; try done; [| |by eapply (inv_subjects db HI)]; simpl in *.
    + apply andb_false_iff in Hs as [Hs|Hs]; [by apply negb_false_iff, bool_decide_eq_true in Hs|].
      apply negb_false_iff, bool_decide_eq_true in Hs. by destruct (no_rows _ _ _ _ Hs Hy).
    + apply andb_false_iff in Hs as [Hs|Hs]; [apply negb_false_iff, bool_decide_eq_true in Hs; congruence|].
      apply negb_false_iff, bool_decide_eq_true in Hs. by destruct (no_rows _ _ _ _ Hs Hx).
  - intros h s Hh. destruct (inv_sessions db HI h s Hh) as [? [x Hx]]. split; [done|].
    destruct (decide (acID u = seUserID s)) as [<-|]; [by rewrite lookup_insert, decide_True|by rewrite lookup_insert_ne].
  - intros _. destruct Hne as [Hne|Hne].
    + destruct (inv_admin db HI Hne) as (j & x & Hj & ?). exists j, x. rewrite lookup_insert_ne by (intros <-; congruence). done.
    + exists (acID u), (filledIn u). by rewrite lookup_insert, decide_True.
  - intros Ho. destruct (inv_local db HI Ho) as (j & x & Hj & ?). exists j, x. rewrite lookup_insert_ne by (intros <-; congruence). done.
Qed.

(** A change of one user that keeps role and identity. *)
Lemma Inv_touch db id u v ss :
  Inv db -> dbUsers db !! id = Some u -> acID v = acID u -> acUsername v = acUsername u -> acRole v = acRole u ->
  acProvider v = acProvider u -> acSubject v = acSubject u -> (acHash v = "" <-> acHash u = "") ->
  (acRole u = RoleAdmin -> acAccess v = EveryConnection) -> fewer ss db ->
  Inv (setSessions ss (setUsers (<[id := v]> (dbUsers db)) db)).
Proof.
  intros HI Hu ? ? ? ? ? ? ? ?. apply Inv_replace with u; auto. apply goodUser_ext with u; auto. by apply (inv_users db HI).
Qed.

Lemma withTx_Inv {A} (f : DB -> result AccErr (DB * A)) db :
  Inv db -> (∀ db' a, f db = Ok (db', a) -> Inv db') -> Inv (fst (withTx f db)).
Proof. intros HI Hf. unfold withTx. destruct (f db) as [[db' a]|] eqn:E; [by eapply Hf|done]. Qed.

Lemma updateUser_Ok id f db db' :
  updateUser id f db = Ok db' -> ∃ u, dbUsers db !! id = Some u /\ db' = setUsers (<[id := f u]> (dbUsers db)) db.
Proof. unfold updateUser. destruct (dbUsers db !! id); naive_solver. Qed.

(** Setting the hash of a local user. *)
Lemma password_Inv db id hash (f : Account -> Account) (P : string * Session -> Prop) `{∀ p, Decision (P p)} :
  Inv db -> hash <> "" ->
  (∀ u, acID (f u) = acID u /\ acUsername (f u) = acUsername u /\ acRole (f u) = acRole u /\ acProvider (f u) = acProvider u /\
    acSubject (f u) = acSubject u /\ acHash (f u) = hash /\ acAccess (f u) = acAccess u) ->
  Inv (fst (withTx (λ db,
    p <-! userProvider id db;
    if negb (bool_decide (p = ProviderLocal)) then Err ErrNoPassword
    else db1 <-! updateUser id f db; Ok (dropSessions P db1, tt)) db)).
Proof.
  intros HI Hh Hf. apply withTx_Inv; [done|]. intros db' [] E. unfold userProvider in E.
  destruct (dbUsers db !! id) as [u|] eqn:Hu; [|done]. case_bool_decide as Hp; simpl in E; [|done].
  destruct (updateUser id f db) as [db1|] eqn:E1; [|done]. apply updateUser_Ok in E1 as (u' & Hu' & ->). simplify_eq.
  destruct (Hf u) as (? & ? & ? & ? & ? & Hfh & Hfa). pose proof (inv_users db HI _ _ Hu) as Hg.
  apply (Inv_touch db id u); auto.
  - rewrite Hfh. pose proof (local_has_hash _ _ Hg Hp). tauto.
  - rewrite Hfa. apply Hg.
  - exact (fewer_filter _ db).
Qed.

Lemma delete_Inv db id u ss ks :
  Inv db -> dbUsers db !! id = Some u -> others id db -> fewer ss db -> (∀ h s, ss !! h = Some s -> seUserID s <> id) ->
  Inv (setUsers (delete id (dbUsers db)) (setKeys ks (setSessions ss db))).
Proof.
  intros HI Hu [Ha Hl] Hs Hid. split; simpl.
  - apply map_Forall_delete, HI.
  - intros i j x y [_ Hx]%lookup_delete_Some [_ Hy]%lookup_delete_Some. by apply (inv_names db HI).
  - intros i j x y [_ Hx]%lookup_delete_Some [_ Hy]%lookup_delete_Some. by apply (inv_subjects db HI).
  - intros h s Hh. pose proof (Hid h s Hh) as Hne. destruct (Hs h s Hh) as (s' & Hs' & Eh & Eu). rewrite Eh, Eu in *.
    destruct (inv_sessions db HI h s' Hs') as [? ?]. rewrite lookup_delete_ne; auto.
  - intros _. destruct Ha as (j & v & ? & ? & ?). exists j, v. by rewrite lookup_delete_ne.
  - intros Ho. destruct (Hl Ho) as (j & v & ? & ? & ?). exists j, v. by rewrite lookup_delete_ne.
Qed.

Lemma withRole_good id u role at_ : goodUser id u -> roleValid role = true -> goodUser id (withRole role at_ u).
Proof.
  intros (? & ? & Hc & ?) Hr. split_and!; try done. intros Ha. simpl in *. by rewrite bool_decide_true.
Qed.

Lemma setRole_Inv db id u role at_ db' :
  Inv db -> dbUsers db !! id = Some u -> roleValid role = true -> others id db ->
  setRole id role at_ db = Ok db' -> Inv db'.
Proof.
  intros HI Hu Hr Ho. unfold setRole. destruct (updateUser _ _ _) as [db1|] eqn:E; [|done].
  apply updateUser_Ok in E as (u' & Hu' & ->). intros [= <-]. simplify_eq.
  apply (Inv_replace db id u); auto.
  - apply withRole_good; [by apply (inv_users db HI)|done].
  - exact (fewer_filter _ db).
Qed.

Lemma signIn_Inv db i :
  Inv db -> (exAutoCreate i = true -> dbUsers db <> ∅) -> Inv (fst (SignInExternalUser i db)).
Proof.
  intros HI Hne. unfold SignInExternalUser. destruct (_ || _) eqn:Hok; [done|].
  apply orb_false_iff in Hok as [_ Hok%negb_false_iff]. apply withTx_Inv; [done|]. intros db' r E.
  destruct (pick _ _) as [u|] eqn:Hp.
  - apply pick_Some in Hp as (id & Hu & _). pose proof (inv_users db HI _ _ Hu) as Hg.
    pose proof (proj1 Hg) as Eid. subst id. case_bool_decide as Hprov; simpl in E; [|done].
    destruct (signInRole i u db) as [[[[db1 role] kept] held]|] eqn:Er; [|done].
    destruct (updateUser _ _ db1) as [db2|] eqn:E2; [|done]. injection E as <- <-.
    assert (Inv db1 /\ (∀ v, dbUsers db1 !! acID u = Some v -> acRole v = role)) as [HI1 Hrole].
    { unfold signInRole in Er. destruct (exRole i) as [nr|] eqn:Hnr; [|naive_solver].
      unfold signInRoleOK in Hok. rewrite Hnr in Hok.
      destruct (_ || bool_decide (acRole u = nr)); [naive_solver|].
      destruct (_ && exKeepAdmin i); [naive_solver|].
      destruct (bool_decide (acRole u = RoleAdmin) && negb (is_ok (refuseLastAdmin db))) eqn:Hlast; [naive_solver|].
      destruct (setRole _ _ _ _) as [db1'|] eqn:Es; [|done]. injection Er as <- <- <- <-. split.
      - eapply setRole_Inv; try done. split.
        + apply andb_false_iff in Hlast as [Hlast|Hlast].
          * apply bool_decide_eq_false in Hlast. destruct (inv_admin db HI) as (j & v & Hj & ?); [by intros He; rewrite He in Hu|].
            exists j, v. split; [|done]. intros ->. congruence.
          * apply refuseLastAdmin_other. apply negb_false_iff in Hlast. destruct (refuseLastAdmin db) as [[]|]; done.
        + intros Ho. destruct (inv_local db HI Ho) as (j & v & Hj & ? & ?). exists j, v. split; [|done]. intros ->. congruence.
      - unfold setRole in Es. destruct (updateUser _ _ _) eqn:Eu; [|done]. apply updateUser_Ok in Eu as (u' & Hu' & ->).
        injection Es as <-. simpl. intros v. rewrite lookup_insert, decide_True by done. intros [= <-]. done. }
    apply updateUser_Ok in E2 as (v & Hv & ->). pose proof (Hrole v Hv) as Erole.
    apply (Inv_touch db1 (acID u) v); unfold signInAccess; destruct (exRoleOnCreate i); try done; simpl.
    + apply (inv_users db1 HI1 _ _ Hv).
    + intros Ha. rewrite bool_decide_true by congruence. done.
    + apply fewer_same.
    + apply fewer_same.
  - unfold createExternal in E. destruct (exAutoCreate i) eqn:Hac; simpl in E; [|done]. destruct (exRole i) as [nr|]; [|done].
    destruct (insertUser _ db) as [[db1 u]|e] eqn:Ei; [|by destruct e]. injection E as <- <-.
    eapply insertUser_Inv; [done|done|]. left. by apply Hne.
Qed.

Lemma saveOIDC_Inv db e a : Inv db -> Inv (fst (saveOIDC e a db)).
Proof.
  intros HI. unfold saveOIDC, SaveSettingsWith. apply withTx_Inv; [done|]. intros db' [] E.
  destruct (_ && _) eqn:Hp; [done|]. injection E as <-. split; simpl; try apply HI. unfold storedOIDCEnabled. simpl.
  destruct e; [|done]. intros _. destruct (storedOIDCEnabled db) eqn:Ho; [by apply (inv_local db HI)|].
  unfold OIDCChangeNeedsLocalAdmin in Hp. simpl in Hp. apply Nat.eqb_neq in Hp.
  destruct (map_choose (filter isLocalAdmin (dbUsers db))) as (j & v & [Hj Hl]%map_lookup_filter_Some).
  - intros He. apply Hp. unfold countLocalAdmins. by rewrite He.
  - exists j, v. done.
Qed.

(** A transaction on the API keys. *)
Lemma Inv_keys_only db ks : Inv db -> Inv (setKeys ks db).
Proof. intros HI. apply (Inv_sessions_only db); [done..|]. exact (fewer_same db). Qed.

Lemma commit_Inv t db : Inv db -> allowed t db -> Inv (commit t db).
Proof.
  intros HI Ha. destruct t; simpl in *.
  - apply withTx_Inv; [done|]. intros db' v. destruct (Nat.ltb _ _); [done|]. intros E. eapply insertUser_Inv; eauto.
  - apply withTx_Inv; [done|]. intros db' v E. eapply insertUser_Inv; eauto.
  - unfold UpdatePassword. case_bool_decide; [done|]. by apply (password_Inv db id hash).
  - unfold ResetPassword. case_bool_decide; [done|]. by apply (password_Inv db id hash).
  - apply withTx_Inv; [done|]. intros db' [] E. destruct (updateUser _ _ _) eqn:Eu; [|done]. injection E as <-.
    apply updateUser_Ok in Eu as (u & Hu & ->). apply (Inv_touch db id u); try done; [|apply fewer_same].
    apply (inv_users db HI _ _ Hu).
  - apply withTx_Inv; [done|]. intros db' [] E. destruct (actorIsAdmin _ _) as [[]|]; [|done]. unfold userRole in E.
    destruct (dbUsers db !! id) as [u|] eqn:Hu; [|done]. destruct (Nat.leb _ _); [done|].
    destruct (guardAdmin _ _ _ _) as [[]|] eqn:Eg; [|done]. injection E as <-.
    apply (delete_Inv db id u); [done|done|by eapply guard_others|exact (fewer_filter _ db)|].
    by intros h s [_ ?]%map_lookup_filter_Some.
  - unfold UpdateUserRole. destruct (roleValid role) eqn:Hr; [|done]. apply withTx_Inv; [done|]. intros db' r E.
    destruct (actorIsAdmin _ _) as [[]|]; [|done]. unfold userRole in E.
    destruct (dbUsers db !! id) as [u|] eqn:Hu; [|done]. case_bool_decide; [by injection E as <- <-|].
    destruct (guardAdmin _ _ _ _) as [[]|] eqn:Eg; [|done]. destruct (setRole _ _ _ _) eqn:Es; [|done]. injection E as <- <-.
    eapply setRole_Inv; eauto. by eapply guard_others.
  - apply withTx_Inv; [done|]. intros db' [] E. destruct (actorIsAdmin _ _) as [[]|]; [|done]. unfold userRole in E.
    destruct (dbUsers db !! id) as [u|] eqn:Hu; [|done]. destruct (_ && _) eqn:Hlim; [done|].
    destruct (updateUser _ _ _) eqn:Eu; [|done]. injection E as <-. apply updateUser_Ok in Eu as (u' & Hu' & ->). simplify_eq.
    apply (Inv_touch db id u); try done; [|apply fewer_same]. simpl. intros Hadm. rewrite bool_decide_true in Hlim by done.
    simpl in Hlim. apply negb_false_iff in Hlim. unfold storedAccess. by rewrite Hlim.
  - by apply signIn_Inv.
  - unfold CreateSession. destruct (dbSessions db !! _); [done|]. destruct (dbUsers db !! _) eqn:Hu; [|done].
    split; simpl; try apply HI. apply map_Forall_insert_2; [split; [done|by eexists]|apply HI].
  - apply (Inv_sessions_only db); try done. intros h x. unfold TouchSession. simpl. rewrite lookup_alter. case_decide; [|eauto].
    subst. intros (s' & Hs' & ->)%fmap_Some. eauto.
  - apply (Inv_sessions_only db); try done. intros h x. unfold DeleteSession. simpl. intros [_ ?]%lookup_delete_Some. eauto.
  - apply (Inv_sessions_only db); try done. exact (fewer_filter _ db).
  - apply (Inv_sessions_only db); try done. exact (fewer_filter _ db).
  - by apply (Inv_sessions_only db).
  - unfold CreateAPIKey. destruct (dbKeys db !! _); [done|]. case_bool_decide; [|done]. by apply Inv_keys_only.
  - unfold UpdateAPIKeyScope. destruct (scopeValid s); [|done]. destruct (dbKeys db !! _); [|done]. by apply Inv_keys_only.
  - by apply Inv_keys_only.
  - unfold RehashAPIKey. destruct (dbKeys db !! _); [|done]. case_bool_decide; [|done]. by apply Inv_keys_only.
  - unfold DeleteAPIKey. destruct (dbKeys db !! _); [|done]. by apply Inv_keys_only.
  - by apply Inv_keys_only.
  - by apply saveOIDC_Inv.
Qed.

Lemma commits_Inv ts db : Inv db -> allAllowed ts db -> Inv (commits ts db).
Proof. revert db. induction ts as [|t ts IH]; intros db HI; [done|]. intros [Ha Hs]. apply IH; [by apply commit_Inv|done]. Qed.

Lemma emptyDB_Inv : Inv emptyDB.
Proof. split; try done. Qed.
