(* ===== verification/Accounts.v ===== *)
(** * The authentication service ([internal/auth/service.go], external.go, sessions.go, approval.go)

    The handlers of the service as programs over the calls they make: the transactions of
    AccountStore, the throttle, the clock, random bytes, the live settings and the gate of
    the two-person rule. [run] executes a program against an environment that says, for
    every call, what other requests did before it, whether it fails, and what it answers;
    so every property holds with any interleaving of other requests. bcrypt, SHA-256 and
    Go's case tables are parameters. Log lines are left out. *)

From S2P Require Import Prelude Glob Selection Json Throttle Access AccountStore AccountInvariant.

Local Open Scope rescue_scope.

(** ** Calls *)

(** [OIDCPolicy]. *)
Record RoleMapping : Type := mkMapping { rmGroup : string; rmRole : Role; rmAccess : ConnectionAccess }.

Record OIDCPolicy : Type := mkPolicy {
  plEnabled : bool;
  plAdminsOnly : bool;
  plMappings : list RoleMapping;
  plDefaultRole : option Role;
  plDomains : list string;
  plAutoCreate : bool
}.

Definition AdminsOnly (p : OIDCPolicy) : bool := plEnabled p && plAdminsOnly p.

Inductive AdminGrant : Type :=
| GrantAdminRole (id : string) (created : bool)
| ResetUserPassword (id hash : string)
| DemoteAdmin (id : string) (role : Role)
| DeleteAdmin (id : string)
| GrantAdminKey (id : string) (created : bool).

(** What a transaction answers. *)
Definition answer (t : txn) : Type :=
  match t with
  | TCreateFirstUser _ | TCreateUser _ => Account
  | TUpdateUserRole _ _ _ _ _ => Role
  | TSignInExternalUser _ => ExternalSignInResult
  | _ => unit
  end.

Definition exec (t : txn) (db : DB) : DB * result AccErr (answer t) :=
  match t return DB * result AccErr (answer t) with
  | TCreateFirstUser u => CreateFirstUser u db
  | TCreateUser u => CreateUser u db
  | TUpdatePassword id hash at_ keep => UpdatePassword id hash at_ keep db
  | TResetPassword id hash at_ => ResetPassword id hash at_ db
  | TRecordLogin id at_ => RecordLogin id at_ db
  | TDeleteUser actor id keep => DeleteUser actor id keep db
  | TUpdateUserRole actor id role at_ keep => UpdateUserRole actor id role at_ keep db
  | TUpdateUserConnections actor id a at_ => UpdateUserConnections actor id a at_ db
  | TSignInExternalUser i => SignInExternalUser i db
  | TCreateSession s => CreateSession s db
  | TTouchSession h at_ => (TouchSession h at_ db, Ok tt)
  | TDeleteSession h => (DeleteSession h db, Ok tt)
  | TDeleteExpiredSessions now idle => (DeleteExpiredSessions now idle db, Ok tt)
  | TDeleteLocalNonAdminSessions => (DeleteLocalNonAdminSessions db, Ok tt)
  | TRotate => (rotateSessions db, Ok tt)
  | TCreateAPIKey k => CreateAPIKey k db
  | TUpdateAPIKeyScope id s => UpdateAPIKeyScope id s db
  | TTouchAPIKey id at_ => (TouchAPIKey id at_ db, Ok tt)
  | TRehashAPIKey id p h => RehashAPIKey id p h db
  | TDeleteAPIKey id => DeleteAPIKey id db
  | TCapAPIKeyExpiry d n => (CapAPIKeyExpiry d n db, Ok tt)
  | TSaveOIDC e a => saveOIDC e a db
  end.

Lemma exec_commit t db : fst (exec t db) = commit t db.
Proof. by destruct t. Qed.

Inductive call : Type -> Type :=
| CRead {X : Type} (f : DB -> result AccErr X) : call X
| CDo (t : txn) : call (answer t)
| CNow : call Z
| CRandom : call string
| CCompare (hash password : string) : call bool
| CReserve (pk ip : string) : call unit
| CFailed (pk ip : string) : call unit
| CSucceeded (pk ip : string) : call unit
| CReleased (pk ip : string) : call unit
| CCount (key : string) (free window : Z) : call Z
| CPolicy : call OIDCPolicy
| CTimeouts : call (Z * Z)
| CKeyPolicy : call Z
| CSetupCode : call string
| CClearSetup (code : string) : call unit
| CGate : call bool
| CRequest (g : AdminGrant) : call unit.

(** A program: a result, or a call and what to do with its answer. *)
Inductive prog (A : Type) : Type :=
| Ret (a : A)
| Do {X : Type} (c : call X) (k : result AccErr X -> prog A).
Arguments Ret {A} a.
Arguments Do {A X} c k.

Abbreviation handler A := (prog (result AccErr A)).

Definition fail {A} (e : AccErr) : handler A := Ret (Err e).
Definition done_ {A} (a : A) : handler A := Ret (Ok a).

(** Calls whose error ends the handler, and pure checks. *)
Notation "x <~ c ; k" := (Do c (λ r, match r with Ok x => k | Err e => fail e end))
  (at level 60, c at next level, right associativity) : rescue_scope.
Notation "c ;~ k" := (Do c (λ _, k)) (at level 60, right associativity) : rescue_scope.
Notation "'check' c ; k" := (match c with Ok _ => k | Err e => fail e end)
  (at level 60, c at next level, right associativity) : rescue_scope.

Fixpoint bind {A B} (p : prog A) (f : A -> prog B) : prog B :=
  match p with
  | Ret a => f a
  | Do c k => Do c (λ r, bind (k r) f)
  end.

(** ** The environment *)

(** What happens at one call: the transactions other requests committed before it, what
    they did to the throttle, whether the call fails, the clock, the random bytes, the order
    in which a map is walked, and the settings and the gate at that time. *)
Record slot : Type := mkSlot {
  slBefore : list txn;
  slThrottle : Throttle -> Throttle;
  slFails : bool;
  slNow : Z;
  slRandom : string;
  slOrder : list string;
  slPolicy : OIDCPolicy;
  slTimeouts : Z * Z;
  slMaxLifetime : Z;
  slGate : bool;
  slRequested : bool;
  slSetup : option string
}.

Record World : Type := mkWorld { wDB : DB; wThrottle : Throttle; wSetup : string }.

Section Service.
(** bcrypt's comparison and hash (with its salt), SHA-256 in hexadecimal, the case tables,
    the hash compared for unknown users, the ID shown for a session. *)
Context (matches : string -> string -> bool) (bcryptHash : string -> string -> string).
Context (HashToken toLower toUpper sessionID : string -> string) (dummyHash : string).

Definition setDB (db : DB) (w : World) : World := mkWorld db (wThrottle w) (wSetup w).
Definition setThrottle (t : Throttle) (w : World) : World := mkWorld (wDB w) t (wSetup w).

(** What other requests did before the call. *)
Definition interfere (s : slot) (w : World) : World :=
  mkWorld (commits (slBefore s) (wDB w)) (slThrottle s (wThrottle w)) (default (wSetup w) (slSetup s)).

(** The answer of a call. Reading the clock, the settings, the throttle and the gate never
    fails; a failed comparison found no slot in time. *)
Definition perform {X} (c : call X) (s : slot) (w : World) : World * result AccErr X :=
  let w := interfere s w in
  match c in call X return World * result AccErr X with
  | CRead f => (w, if slFails s then Err ErrInternal else f (wDB w))
  | CDo t => if slFails s then (w, Err ErrInternal) else let '(db, r) := exec t (wDB w) in (setDB db w, r)
  | CNow => (w, Ok (slNow s))
  | CRandom => (w, if slFails s then Err ErrInternal else Ok (slRandom s))
  | CCompare hash password => (w, if slFails s then Err (ErrThrottled busyRetry) else Ok (matches hash password))
  | CReserve pk ip =>
      let '(t, r) := Reserve (slNow s) (slOrder s) pk ip (wThrottle w) in
      (setThrottle t w, match r with Ok _ => Ok tt | Err wait => Err (ErrThrottled wait) end)
  | CFailed pk ip => (setThrottle (Failed (slNow s) pk ip (wThrottle w)) w, Ok tt)
  | CSucceeded pk ip => (setThrottle (Succeeded pk ip (wThrottle w)) w, Ok tt)
  | CReleased pk ip => (setThrottle (Released pk ip (wThrottle w)) w, Ok tt)
  | CCount key free window =>
      let '(t, wait) := CountFailure (slNow s) (slOrder s) key free window (wThrottle w) in (setThrottle t w, Ok wait)
  | CPolicy => (w, Ok (slPolicy s))
  | CTimeouts => (w, Ok (slTimeouts s))
  | CKeyPolicy => (w, Ok (Z.max 0 (slMaxLifetime s)))
  | CSetupCode => (w, Ok (wSetup w))
  | CClearSetup code => (if bool_decide (wSetup w = code) then mkWorld (wDB w) (wThrottle w) "" else w, Ok tt)
  | CGate => (w, Ok (slGate s))
  | CRequest _ => (w, Err (if slRequested s then ErrAwaitingApproval else ErrInternal))
  end.

Fixpoint run {A} (p : prog A) (env : nat -> slot) (n : nat) (w : World) : World * A :=
  match p with
  | Ret a => (w, a)
  | Do c k => let '(w', r) := perform c (env n) w in run (k r) env (S n) w'
  end.

(** ** Passwords and names *)

Definition MinPasswordLength : nat := 12.
Definition MaxPasswordBytes : nat := 72.
Definition maxUsernameLength : nat := 64.

(** [utf8.RuneCountInString] counts a byte that starts no sequence as one. *)
Definition ValidatePassword (pw : string) : result AccErr unit :=
  if Nat.ltb (length (pieces pw)) MinPasswordLength then Err ErrInvalidPassword
  else if Nat.ltb MaxPasswordBytes (String.length pw) then Err ErrInvalidPassword
  else if negb (validUTF8 pw) then Err ErrInvalidPassword else Ok tt.

Definition usernameByte (a : Ascii.ascii) : bool :=
  byteIn 97 122 a || byteIn 65 90 a || byteIn 48 57 a || byteIs 46 a || byteIs 95 a || byteIs 64 a || byteIs 45 a.

(** Other runes have bytes above 127. *)
Definition ValidateUsername (name : string) : result AccErr unit :=
  if bool_decide (name = "") || Nat.ltb maxUsernameLength (String.length name) then Err ErrInvalidUsername
  else if allBytes usernameByte name then Ok tt else Err ErrInvalidUsername.

(** Spaces and dashes are dropped; the runes dropped are single bytes. *)
Fixpoint dropSeparators (s : string) : string :=
  match s with
  | EmptyString => EmptyString
  | String a s' => if byteIs 45 a || byteIs 32 a || byteIs 9 a then dropSeparators s' else String a (dropSeparators s')
  end.

Definition normalizeSetupCode (code : string) : string := dropSeparators (toUpper code).

(** ** Callers *)

(** The acting user as it was read when the request authenticated. *)
Record Caller : Type := mkCaller {
  caPrincipal : Principal;
  caUser : option Account;
  caSession : string;
  caCSRF : string;
  caKeyID : string
}.

Definition asUser (u : Account) : User := mkUser (acID u) (acRole u) (acRoleChangedAt u).

Definition callerUserID (c : Caller) : string := match caUser c with Some u => acID u | None => "" end.

Definition PasswordChangeRequired (c : Caller) : bool :=
  bool_decide (pMethod (caPrincipal c) = MethodSession) && match caUser c with Some u => acMustChange u | None => false end.

(** [actor.Require]: a nil actor is refused. *)
Definition mustHave (c : option Caller) (need : Scope) : result AccErr unit :=
  match Require_ (caPrincipal <$> c) need with Ok _ => Ok tt | Err e => Err (EAccess e) end.

Definition actorID (c : option Caller) : string := match c with Some c => callerUserID c | None => "" end.

(** ** Sessions *)

Record LoginResult : Type := mkLogin { lrUser : Account; lrToken : string; lrCSRF : string; lrExpiresAt : Z }.

Definition touchInterval : Z := minute.

Definition sessionExpired (timeouts : Z * Z) (s : Session) (now : Z) : bool :=
  let '(idle, absolute) := timeouts in
  negb (now <? seExpiresAt s) || negb (now <? seCreatedAt s + absolute) || (time_sub now (seLastSeen s) >=? idle).

Definition sessionEnd (timeouts : Z * Z) (s : Session) : Z :=
  let '(idle, absolute) := timeouts in
  foldl (λ e t, if t <? e then t else e) (seExpiresAt s) [seCreatedAt s + absolute; seLastSeen s + idle].

Definition startSession (u : Account) : handler LoginResult :=
  token <~ CRandom;
  csrf <~ CRandom;
  now <~ CNow;
  timeouts <~ CTimeouts;
  _ <~ CDo (TCreateSession (mkSession (HashToken token) (acID u) csrf now now (now + timeouts.2)));
  done_ (mkLogin u token csrf (now + timeouts.2)).

Definition Logout (token : string) : handler unit :=
  if bool_decide (token = "") then done_ tt
  else _ <~ CDo (TDeleteSession (HashToken token)); done_ tt.

Definition sessionCaller (u : Account) (s : Session) (hash : string) : Caller :=
  let a := effectiveAccess MethodSession (acRole u) (ScopeOther "") true (connectionSet (acAccess u)) None in
  mkCaller (mkPrincipal (Some (asUser u)) MethodSession (aScope a) (acRole u) (ScopeOther "") (aConnections a))
    (Some u) hash (seCSRF s) "".

Definition AuthenticateSession (token : string) : handler Caller :=
  if bool_decide (token = "") then fail (EAccess ErrUnauthenticated)
  else
    let hash := HashToken token in
    Do (CRead (GetSession hash)) (λ r,
      match r with
      | Err ErrSessionNotFound => fail (EAccess ErrUnauthenticated)
      | Err e => fail e
      | Ok s =>
          now <~ CNow;
          timeouts <~ CTimeouts;
          if sessionExpired timeouts s now then
            CDo (TDeleteSession hash) ;~ fail (EAccess ErrUnauthenticated)
          else
            Do (CRead (GetUser (seUserID s))) (λ r,
              match r with
              | Err ErrUserNotFound => fail (EAccess ErrUnauthenticated)
              | Err e => fail e
              | Ok u =>
                  if time_sub now (seLastSeen s) >=? touchInterval
                  then CDo (TTouchSession hash now) ;~ done_ (sessionCaller u s hash)
                  else done_ (sessionCaller u s hash)
              end)
      end).

(** Requests of a browser session that change something need the session's token. *)
Definition CheckCSRF (c : option Caller) (method token : string) : result AccErr unit :=
  match c with
  | Some c =>
      if negb (bool_decide (pMethod (caPrincipal c) = MethodSession)) || bool_decide (method ∈ ["GET"; "HEAD"; "OPTIONS"]) then Ok tt
      else if bool_decide (token = "") || bool_decide (caCSRF c = "") || negb (bool_decide (token = caCSRF c)) then Err ErrCSRF
      else Ok tt
  | None => Ok tt
  end.

(** The sessions of a user, or of all with "", the most recently active first. *)
Definition moreRecent (a b : Session) : bool :=
  (seLastSeen b <? seLastSeen a) || ((seLastSeen a =? seLastSeen b) && (seCreatedAt b <? seCreatedAt a)).

Definition ListSessions (id : string) (db : DB) : list Session :=
  stable_sort moreRecent (filter (λ s, id = "" \/ seUserID s = id) (snd <$> map_to_list (dbSessions db))).

Definition isCurrentSession (c : Caller) (s : Session) : bool :=
  bool_decide (pMethod (caPrincipal c) = MethodSession) && negb (bool_decide (caSession c = "")) && bool_decide (seHash s = caSession c).

Definition sessionIDLength : nat := 4 + 24.

Fixpoint revokeFirst (c : Caller) (id : string) (ss : list Session) : handler bool :=
  match ss with
  | [] => fail ErrSessionNotFound
  | s :: ss' =>
      if negb (bool_decide (sessionID (seHash s) = id)) then revokeFirst c id ss'
      else
        let own := negb (bool_decide (callerUserID c = "")) && bool_decide (seUserID s = callerUserID c) in
        check (if own then Ok tt else mustHave (Some c) ScopeAdmin);
        _ <~ CDo (TDeleteSession (seHash s)); done_ (isCurrentSession c s)
  end.

Definition RevokeSession (actor : option Caller) (id : string) : handler bool :=
  check mustHave actor ScopeRead;
  match actor with
  | None => fail (EAccess ErrForbidden)
  | Some c =>
      check (if bool_decide (pMethod (caPrincipal c) = MethodSession) then Ok tt else mustHave actor ScopeAdmin);
      if negb (Nat.eqb (String.length id) sessionIDLength) then fail ErrSessionNotFound
      else ss <~ CRead (λ db, Ok (ListSessions "" db)); revokeFirst c id ss
  end.

(** ** Setup and sign-in *)

Definition SetupFreeAttempts : Z := 100.
Definition SetupWindow : Z := 15 * minute.

Definition newUser (username password : string) (role : Role) : handler Account :=
  let username := TrimSpace username in
  check ValidateUsername username;
  check ValidatePassword password;
  salt <~ CRandom;
  id <~ CRandom;
  now <~ CNow;
  done_ (mkAccount id username role ProviderLocal "" (bcryptHash salt password) now now None 0 false EveryConnection).

Definition Setup (clientIP code username password : string) : handler LoginResult :=
  n <~ CRead (λ db, Ok (CountUsers db));
  if Nat.ltb 0 n then fail ErrSetupCompleted
  else
    expected <~ CSetupCode;
    if bool_decide (expected = "") || negb (bool_decide (normalizeSetupCode code = normalizeSetupCode expected)) then
      wait <~ CCount ("setup|" +:+ clientIP) SetupFreeAttempts SetupWindow;
      if wait >? 0 then fail (ErrThrottled wait) else fail ErrInvalidSetupCode
    else
      bind (newUser username password RoleAdmin) (λ r,
        match r with
        | Err e => fail e
        | Ok u =>
            u <~ CDo (TCreateFirstUser u);
            CClearSetup expected ;~ startSession u
        end).

(** A failed deletion of expired sessions is logged only. *)
Definition purgeAndStart (now : Z) (u : Account) : handler LoginResult :=
  timeouts <~ CTimeouts;
  CDo (TDeleteExpiredSessions now timeouts.1) ;~ startSession u.

Definition withLogin (u : Account) (now : Z) : Account := signedIn now u.

(** The password of [user] (none: unknown, or without a password) is compared. *)
Definition checkLogin (pk ip password : string) (user : option Account) : handler LoginResult :=
  Do (CCompare (match user with Some u => acHash u | None => dummyHash end) password) (λ r,
    match r with
    | Err e => CReleased pk ip ;~ fail e
    | Ok matched =>
        match matched, user with
        | true, Some u =>
            CSucceeded pk ip ;~
            policy <~ CPolicy;
            if negb (bool_decide (acRole u = RoleAdmin)) && AdminsOnly policy then fail ErrLocalLoginDisabled
            else
              now <~ CNow;
              _ <~ CDo (TRecordLogin (acID u) now);
              purgeAndStart now (withLogin u now)
        | _, _ => CFailed pk ip ;~ fail ErrInvalidCredentials
        end
    end).

Definition loginPair (clientIP username : string) : string := "login|" +:+ clientIP +:+ "|" +:+ toLower username.
Definition loginIP (clientIP : string) : string := "ip|" +:+ clientIP.

Definition Login (clientIP username password : string) : handler LoginResult :=
  let pk := loginPair clientIP username in
  let ip := loginIP clientIP in
  _ <~ CReserve pk ip;
  if Nat.ltb MaxPasswordBytes (String.length password) then CFailed pk ip ;~ fail ErrInvalidCredentials
  else
    Do (CRead (GetUserByUsername username)) (λ r,
      match r with
      | Ok u => checkLogin pk ip password (if Local_ u then Some u else None)
      | Err ErrUserNotFound => checkLogin pk ip password None
      | Err e => CReleased pk ip ;~ fail e
      end).

(** ** Users *)

(** [rollbackUnrequested] of a held grant: the user goes again when no request was stored.
    [errors.Join] keeps the first error here. *)
Definition requestOrUndo (u : Account) : handler Account :=
  Do (CRequest (GrantAdminRole (acID u) true)) (λ r,
    match r with
    | Err ErrAwaitingApproval => fail ErrAwaitingApproval
    | Err e => CDo (TDeleteUser "" (acID u) false) ;~ fail e
    | Ok _ => done_ u
    end).

Definition withConnections (a : ConnectionAccess) (u : Account) : Account :=
  mkAccount (acID u) (acUsername u) (acRole u) (acProvider u) (acSubject u) (acHash u) (acCreatedAt u) (acUpdatedAt u)
    (acLastLogin u) (acRoleChangedAt u) (acMustChange u) a.

(** [role]: [None] is the empty role, a viewer. *)
Definition CreateUserWithConnections (actor : option Caller) (username password : string) (role : option Role)
    (access : ConnectionAccess) : handler Account :=
  check mustHave actor ScopeAdmin;
  let role := default RoleViewer role in
  if negb (roleValid role) then fail (EAccess ErrInvalidRole)
  else match Normalized access with
  | Err e => fail (EAccess e)
  | Ok access =>
      if bool_decide (role = RoleAdmin) && negb (AllConnections access) then fail ErrAdminConnections
      else
        gate <~ CGate;
        let held := bool_decide (role = RoleAdmin) && gate in
        bind (newUser username password (if held then RoleViewer else role)) (λ r,
          match r with
          | Err e => fail e
          | Ok u =>
              u <~ CDo (TCreateUser (withConnections access u));
              if held then requestOrUndo u else done_ u
          end)
  end.

(** Deletes unless the two-person rule holds the deletion of an administrator. *)
Definition DeleteUser_ (actor : option Caller) (id : string) : handler unit :=
  check mustHave actor ScopeAdmin;
  if bool_decide (actorID actor = id) then fail ErrDeleteSelf
  else
    let go := policy <~ CPolicy; _ <~ CDo (TDeleteUser (actorID actor) id (plEnabled policy)); done_ tt in
    gate <~ CGate;
    if (gate : bool) then
      target <~ CRead (GetUser id);
      if bool_decide (acRole target = RoleAdmin) then _ <~ CRequest (DeleteAdmin id); done_ tt else go
    else go.

(** While group mappings decide roles, a single sign-on user is left to them. *)
Definition managed (policy : OIDCPolicy) (id : string) {A} (k : handler A) : handler A :=
  if Nat.ltb 0 (length (plMappings policy)) then
    target <~ CRead (GetUser id);
    if negb (Local_ target) then fail ErrRoleManagedByProvider else k
  else k.

Definition SetUserRole (actor : option Caller) (id : string) (role : Role) : handler (Account * Role) :=
  check mustHave actor ScopeAdmin;
  if negb (roleValid role) then fail (EAccess ErrInvalidRole)
  else if bool_decide (actorID actor = id) then fail ErrChangeOwnRole
  else
    policy <~ CPolicy;
    managed policy id (
      let go :=
        now <~ CNow;
        from <~ CDo (TUpdateUserRole (actorID actor) id role now (plEnabled policy));
        u <~ CRead (GetUser id); done_ (u, from : Role) in
      gate <~ CGate;
      if (gate : bool) then
        target <~ CRead (GetUser id);
        if bool_decide (role = RoleAdmin) && negb (bool_decide (acRole target = RoleAdmin))
        then _ <~ CRequest (GrantAdminRole id false); fail ErrInternal
        else if negb (bool_decide (role = RoleAdmin)) && bool_decide (acRole target = RoleAdmin)
        then _ <~ CRequest (DemoteAdmin id role); fail ErrInternal
        else go
      else go).

Definition SetUserConnections (actor : option Caller) (id : string) (access : ConnectionAccess) : handler Account :=
  check mustHave actor ScopeAdmin;
  match Normalized access with
  | Err e => fail (EAccess e)
  | Ok access =>
      policy <~ CPolicy;
      managed policy id (
        now <~ CNow;
        _ <~ CDo (TUpdateUserConnections (actorID actor) id access now);
        u <~ CRead (GetUser id); done_ u)
  end.

(** A password the user gave: compared under the budget of the user. *)
Definition provePassword {A} (u : Account) (current : string) (empty : bool) (k : handler A) : handler A :=
  let pk := "password|" +:+ acID u in
  _ <~ CReserve pk "";
  if (empty && bool_decide (current = "")) || Nat.ltb MaxPasswordBytes (String.length current)
  then CFailed pk "" ;~ fail ErrCurrentPassword
  else
    Do (CCompare (acHash u) current) (λ r,
      match r with
      | Err e => CReleased pk "" ;~ fail e
      | Ok false => CFailed pk "" ;~ fail ErrCurrentPassword
      | Ok true => CSucceeded pk "" ;~ k
      end).

Definition ChangePassword (actor : option Caller) (id current new : string) : handler unit :=
  match actor with
  | None => fail (EAccess ErrUnauthenticated)
  | Some c =>
      let self := negb (bool_decide (callerUserID c = "")) && bool_decide (callerUserID c = id) in
      let session := bool_decide (pMethod (caPrincipal c) = MethodSession) in
      if negb self && PasswordChangeRequired c then fail ErrPasswordChangeRequired
      else
        gate <~ CGate;
        if self && negb session then fail ErrSessionRequired
        else
          check (if self then Ok tt else mustHave actor ScopeAdmin);
          if negb self && gate && negb session then fail ErrSessionRequired
          else
            u <~ CRead (GetUser id);
            if negb (Local_ u) then fail ErrNoPassword
            else
              let store :=
                check ValidatePassword new;
                salt <~ CRandom;
                let hash := bcryptHash salt new in
                if self then now <~ CNow; _ <~ CDo (TUpdatePassword id hash now (caSession c)); done_ tt
                else if (gate : bool) then _ <~ CRequest (ResetUserPassword id hash); done_ tt
                else now <~ CNow; _ <~ CDo (TResetPassword id hash now); done_ tt in
              if self then provePassword u current false store else store
  end.

Definition ConfirmPassword (actor : option Caller) (password : string) : handler unit :=
  match actor with
  | None => fail (EAccess ErrUnauthenticated)
  | Some c =>
      match pMethod (caPrincipal c), caUser c with
      | MethodSession, Some v =>
          check mustHave actor ScopeAdmin;
          u <~ CRead (GetUser (acID v));
          if negb (Local_ u) then fail ErrNoPassword else provePassword u password true (done_ tt)
      | _, _ => fail ErrSessionRequired
      end
  end.

(** The approved halves of held changes. *)
Definition ApplyPasswordReset (actor : option Caller) (id hash : string) : handler unit :=
  check mustHave actor ScopeAdmin;
  gate <~ CGate;
  if (gate : bool) then _ <~ CRequest (ResetUserPassword id hash); done_ tt
  else now <~ CNow; _ <~ CDo (TResetPassword id hash now); done_ tt.

Definition ApplyProviderRole (actor : option Caller) (id : string) (role : Role) : handler (Account * Role) :=
  check mustHave actor ScopeAdmin;
  if negb (roleValid role) then fail (EAccess ErrInvalidRole)
  else
    target <~ CRead (GetUser id);
    if Local_ target then fail (EAccess ErrInvalidRole)
    else
      gate <~ CGate;
      if gate && bool_decide (acRole target = RoleAdmin) && negb (bool_decide (role = RoleAdmin))
      then _ <~ CRequest (DemoteAdmin id role); fail ErrInternal
      else
        now <~ CNow;
        policy <~ CPolicy;
        from <~ CDo (TUpdateUserRole (actorID actor) id role now (plEnabled policy));
        u <~ CRead (GetUser id); done_ (u, from : Role).

(** [ApplyOIDCChange]: the password form became limited to administrators. *)
Definition ApplyOIDCChange (prev next : OIDCPolicy) : handler unit :=
  if negb (AdminsOnly next) || AdminsOnly prev then done_ tt
  else _ <~ CDo TDeleteLocalNonAdminSessions; done_ tt.

(** ** Single sign-on *)

Definition roleRank (r : Role) : Z :=
  match r with RoleViewer => 1 | RoleOperator => 2 | RoleAdmin => 3 | RoleOther _ => 0 end.

Definition optRank (r : option Role) : Z := match r with Some r => roleRank r | None => 0 end.

Definition MapRole (p : OIDCPolicy) (groups : list string) : option Role :=
  let best := foldl (λ best m,
    if negb (bool_decide (rmGroup m = "")) && (roleRank (rmRole m) >? optRank best) && bool_decide (rmGroup m ∈ groups)
    then Some (rmRole m) else best) None (plMappings p) in
  match best with
  | Some r => Some r
  | None =>
      match plDefaultRole p with
      | Some RoleViewer => Some RoleViewer
      | Some RoleOperator => Some RoleOperator
      | _ => None
      end
  end.

(** The union of the connections of the matching mappings; [None]: one has all of them. *)
Fixpoint unionConnections (groups : list string) (role : Role) (ms : list RoleMapping) (matched : bool) (acc : list string) :
    option (bool * list string) :=
  match ms with
  | [] => Some (matched, acc)
  | m :: ms' =>
      if bool_decide (rmGroup m = "") || negb (bool_decide (rmRole m = role)) || negb (bool_decide (rmGroup m ∈ groups))
      then unionConnections groups role ms' matched acc
      else if AllConnections (rmAccess m) then None
      else unionConnections groups role ms' true (acc ++ ConnectionIDs (rmAccess m))
  end.

Definition MapConnections (p : OIDCPolicy) (groups : list string) (role : option Role) : ConnectionAccess :=
  match role with
  | None => EveryConnection
  | Some role =>
      if bool_decide (role = RoleAdmin) then EveryConnection
      else match unionConnections groups role (plMappings p) false [] with
      | None | Some (false, _) => EveryConnection
      | Some (true, ids) => mkAccess false (compact (stable_sort stringLess ids))
      end
  end.

(** The part after the last "@". *)
Fixpoint afterLastAt (s : string) : option (bool * string) :=
  match s with
  | EmptyString => None
  | String a s' =>
      match afterLastAt s' with
      | Some (_, d) => Some (true, d)
      | None => if byteIs 64 a then Some (false, s') else None
      end
  end.

Definition EmailDomainAllowed (p : OIDCPolicy) (email : string) (verified : bool) : bool :=
  match plDomains p with
  | [] => true
  | ds =>
      verified &&
      match afterLastAt email with
      | Some (true, String a d) => existsb (λ x, negb (bool_decide (x = "")) && bool_decide (toLower (TrimSpace x) = toLower (String a d))) ds
      | _ => false
      end
  end.

Record ExternalIdentity : Type := mkIdentity {
  eiIssuer : string;
  eiSubject : string;
  eiUsername : string;
  eiEmail : string;
  eiVerified : bool;
  eiGroups : list string
}.

Definition maxSubjectLength : nat := 255.
Definition maxIssuerLength : nat := 2048.

Definition ExternalSubject (issuer subject : string) : string := issuer +:+ "#" +:+ subject.

Definition badIdentity (i : ExternalIdentity) : bool :=
  bool_decide (eiIssuer i = "") || bool_decide (eiSubject i = "") ||
  Nat.ltb maxIssuerLength (String.length (eiIssuer i)) || Nat.ltb maxSubjectLength (String.length (eiSubject i)).

Definition LoginOIDC (i : ExternalIdentity) : handler (LoginResult * ExternalSignInResult) :=
  policy <~ CPolicy;
  let role := MapRole policy (eiGroups i) in
  let onCreate := Nat.eqb (length (plMappings policy)) 0 in
  let username := TrimSpace (eiUsername i) in
  if negb (plEnabled policy) then fail ErrOIDCDisabled
  else if badIdentity i then fail ErrInvalidIdentity
  else if negb (EmailDomainAllowed policy (eiEmail i) (eiVerified i)) then fail ErrDomainNotAllowed
  else if match role with None => negb onCreate | Some _ => false end then fail ErrNoRole
  else if negb (is_ok (ValidateUsername username)) then fail ErrInvalidIdentity
  else
    id <~ CRandom;
    now <~ CNow;
    gate <~ CGate;
    res <~ CDo (TSignInExternalUser (mkSignIn (ExternalSubject (eiIssuer i) (eiSubject i)) id username role onCreate
      (MapConnections policy (eiGroups i) role) (plAutoCreate policy) gate now));
    let start :=
      bind (purgeAndStart now (xrUser res)) (λ r,
        match r with Ok l => done_ (l, res : ExternalSignInResult) | Err e => fail e end) in
    if xrDemotionHeld res && gate
    then CRequest (DemoteAdmin (acID (xrUser res)) (default RoleViewer role)) ;~ start
    else start.

End Service.
