(* ===== verification/AccountSafety.v ===== *)
(** * What the authentication service keeps

    The handlers of Accounts against any interference of other requests. *)

From S2P Require Import Prelude Glob Selection Json Throttle Access AccountStore AccountInvariant Accounts.

Local Open Scope rescue_scope.

(** ** What a transaction does to a user *)

(** The password of [id] is set by [t]. *)
Definition setsPassword (t : txn) (id : string) : bool :=
  match t with
  | TUpdatePassword i _ _ _ | TResetPassword i _ _ => bool_decide (i = id)
  | _ => false
  end.

Definition deletes (t : txn) (id : string) : bool :=
  match t with TDeleteUser _ i _ => bool_decide (i = id) | _ => false end.

(** The same account, with the same password unless [set]. *)
Definition sameAccount (set : bool) (u v : Account) : Prop :=
  acUsername v = acUsername u /\ acProvider v = acProvider u /\ (set = false -> acHash v = acHash u).

(** The rows of [db] are in [db'], changed at most as [sameAccount] says. *)
Definition keepsRow (set : bool) (id : string) (db db' : DB) : Prop :=
  ∀ u, dbUsers db !! id = Some u -> ∃ v, dbUsers db' !! id = Some v /\ sameAccount set u v.

Lemma keepsRow_refl set id db db' : dbUsers db' = dbUsers db -> keepsRow set id db db'.
Proof. intros E u Hu. exists u. by rewrite E. Qed.

Lemma keepsRow_withTx {A} set id (f : DB -> result AccErr (DB * A)) db :
  (∀ db' a, f db = Ok (db', a) -> keepsRow set id db db') -> keepsRow set id db (fst (withTx f db)).
Proof. intros Hf. unfold withTx. destruct (f db) as [[db' a]|] eqn:E; [by eapply Hf|by apply keepsRow_refl]. Qed.

Lemma keepsRow_update set i f id db db' :
  (∀ u, sameAccount (set || negb (bool_decide (i = id))) u (f u)) -> updateUser i f db = Ok db' -> keepsRow set id db db'.
Proof.
  intros Hf (u & Hu & ->)%updateUser_Ok v Hv. simpl. destruct (decide (i = id)) as [->|Hne].
  - exists (f u). rewrite lookup_insert, decide_True by done. split; [done|]. assert (v = u) as -> by congruence.
    destruct (Hf u) as (? & ? & Hh). split_and!; try done. intros ->. apply Hh. by rewrite bool_decide_true.
  - exists v. rewrite lookup_insert_ne by done. done.
Qed.

Lemma keepsRow_insert set id u db db' v : insertUser u db = Ok (db', v) -> keepsRow set id db db'.
Proof.
  unfold insertUser. destruct (roleValid _); simpl; [|done]. destruct (checkIdentity _); [|done].
  unfold clashes. simpl. destruct (dbUsers db !! acID u) eqn:Hid; [done|]. destruct (_ || _); [done|].
  intros [= <- <-] w Hw. exists w. simpl. rewrite lookup_insert_ne by congruence. done.
Qed.

Lemma keepsRow_trans set id db db1 db2 : keepsRow set id db db1 -> keepsRow set id db1 db2 -> keepsRow set id db db2.
Proof.
  intros H1 H2 u Hu. destruct (H1 u Hu) as (v & Hv & ? & ? & ?). destruct (H2 v Hv) as (w & Hw & ? & ? & Hh).
  exists w. split; [done|]. split_and!; [congruence..|]. intros Hs. rewrite Hh by done. auto.
Qed.

Lemma keepsRow_signIn set id i db : keepsRow set id db (fst (SignInExternalUser i db)).
Proof.
  unfold SignInExternalUser. destruct (_ || _); [by apply keepsRow_refl|]. apply keepsRow_withTx. intros db' r E.
  destruct (pick _ _) as [u|].
  - destruct (negb _); [done|]. destruct (signInRole i u db) as [[[[db1 role] kept] held]|] eqn:Er; [|done].
    destruct (updateUser _ _ db1) as [db2|] eqn:E2; [|done]. injection E as <- <-. apply keepsRow_trans with db1.
    + unfold signInRole in Er. destruct (exRole i); [|by injection Er as <- <- <- <-; apply keepsRow_refl].
      destruct (_ || _); [by injection Er as <- <- <- <-; apply keepsRow_refl|].
      destruct (_ && exKeepAdmin i); [by injection Er as <- <- <- <-; apply keepsRow_refl|].
      destruct (_ && _); [by injection Er as <- <- <- <-; apply keepsRow_refl|].
      unfold setRole in Er. destruct (updateUser _ _ db) as [d|] eqn:Eu; [|done]. injection Er as <- <- <- <-.
      apply keepsRow_trans with d; [by eapply keepsRow_update; [|done]|by apply keepsRow_refl].
    + eapply keepsRow_update; [|done]. intros v. unfold signInAccess. by destruct (exRoleOnCreate i).
  - unfold createExternal in E. destruct (negb _); [done|]. destruct (exRole i); [|done].
    destruct (insertUser _ db) as [[d u]|e] eqn:Ei; [|by destruct e]. injection E as <- <-. by eapply keepsRow_insert.
Qed.

(** Setting a password. *)
Lemma keepsRow_password i id f (P : string * Session -> Prop) `{∀ p, Decision (P p)} db :
  (∀ u, sameAccount true u (f u)) ->
  keepsRow (bool_decide (i = id)) id db (fst (withTx (λ db,
    p <-! userProvider i db;
    if negb (bool_decide (p = ProviderLocal)) then Err ErrNoPassword
    else db1 <-! updateUser i f db; Ok (dropSessions P db1, tt)) db)).
Proof.
  intros Hf. apply keepsRow_withTx. intros db' [] E. destruct (userProvider _ _); [|done]. destruct (negb _); [done|].
  destruct (updateUser _ _ _) as [d|] eqn:Eu; [|done]. injection E as <-. apply keepsRow_trans with d; [|by apply keepsRow_refl].
  eapply keepsRow_update; [|done]. intros u. by rewrite orb_negb_r.
Qed.

Lemma commit_keepsRow t db id : deletes t id = false -> keepsRow (setsPassword t id) id db (commit t db).
Proof.
  intros Hd. destruct t; simpl in *; try by apply keepsRow_refl.
  - apply keepsRow_withTx. intros db' v. destruct (Nat.ltb _ _); [done|]. apply keepsRow_insert.
  - apply keepsRow_withTx. intros db' v. apply keepsRow_insert.
  - unfold UpdatePassword. destruct (bool_decide (hash = "")); [by apply keepsRow_refl|]. by apply keepsRow_password.
  - unfold ResetPassword. destruct (bool_decide (hash = "")); [by apply keepsRow_refl|]. by apply keepsRow_password.
  - apply keepsRow_withTx. intros db' [] E. destruct (updateUser _ _ _) eqn:Eu; [|done]. injection E as <-.
    by eapply keepsRow_update; [|done].
  - apply keepsRow_withTx. intros db' [] E. apply bool_decide_eq_false in Hd.
    destruct (actorIsAdmin _ _); [|done]. destruct (userRole _ _); [|done]. destruct (Nat.leb _ _); [done|].
    destruct (guardAdmin _ _ _ _); [|done]. injection E as <-. intros u Hu. exists u. simpl. by rewrite lookup_delete_ne.
  - unfold UpdateUserRole. destruct (negb _); [by apply keepsRow_refl|]. apply keepsRow_withTx. intros db' r E.
    destruct (actorIsAdmin _ _); [|done]. destruct (userRole _ _); [|done].
    case_bool_decide; [injection E as <- <-; by apply keepsRow_refl|]. destruct (guardAdmin _ _ _ _); [|done].
    unfold setRole in E. destruct (updateUser _ _ _) as [d|] eqn:Eu; [|done]. injection E as <- <-.
    apply keepsRow_trans with d; [by eapply keepsRow_update; [|done]|by apply keepsRow_refl].
  - apply keepsRow_withTx. intros db' [] E. destruct (actorIsAdmin _ _); [|done]. destruct (userRole _ _); [|done].
    destruct (_ && _); [done|]. destruct (updateUser _ _ _) eqn:Eu; [|done]. injection E as <-. by eapply keepsRow_update; [|done].
  - apply keepsRow_signIn.
  - unfold CreateSession. destruct (dbSessions db !! _); [by apply keepsRow_refl|].
    destruct (dbUsers db !! _); by apply keepsRow_refl.
  - unfold CreateAPIKey. destruct (dbKeys db !! _); [by apply keepsRow_refl|]. case_bool_decide; by apply keepsRow_refl.
  - unfold UpdateAPIKeyScope. destruct (negb _); [by apply keepsRow_refl|]. destruct (dbKeys db !! _); by apply keepsRow_refl.
  - unfold RehashAPIKey. destruct (dbKeys db !! _); [|by apply keepsRow_refl]. case_bool_decide; by apply keepsRow_refl.
  - unfold DeleteAPIKey. destruct (dbKeys db !! _); by apply keepsRow_refl.
  - unfold saveOIDC, SaveSettingsWith. apply keepsRow_withTx. intros db' [] E. destruct (_ && _); [done|].
    injection E as <-. by apply keepsRow_refl.
Qed.

(** ** After the setup *)

(** The invariant, and a user exists. *)
Definition Ready (db : DB) : Prop := Inv db /\ dbUsers db <> ∅.

Lemma Ready_user db id u : Inv db -> dbUsers db !! id = Some u -> Ready db.
Proof. intros HI Hu. split; [done|]. intros He. by rewrite He in Hu. Qed.

Lemma Ready_CreateFirstUser u db : Ready db -> commit (TCreateFirstUser u) db = db.
Proof.
  intros [_ Hne]. simpl. unfold CreateFirstUser, withTx, CountUsers.
  destruct (Nat.ltb 0 (size (dbUsers db))) eqn:E; [done|]. apply Nat.ltb_ge in E. exfalso. apply Hne, map_size_empty_iff. lia.
Qed.

Lemma Ready_Inv t db : Ready db -> Inv (commit t db).
Proof.
  intros HR. destruct HR as [HI Hne] eqn:EHR. destruct t;
    [by rewrite Ready_CreateFirstUser|apply commit_Inv; simpl; auto..].
Qed.

(** Once there is a user, no sequence of transactions leaves what the setup made. *)
Lemma Ready_commit t db : Ready db -> Ready (commit t db).
Proof.
  intros HR. pose proof (Ready_Inv t db HR) as HI.
  destruct (map_choose (dbUsers db)) as (i & u & Hi); [apply HR|].
  destruct (deletes t i) eqn:Hd.
  - destruct t; try done. simpl in Hd. apply bool_decide_eq_true in Hd as ->. simpl in *.
    unfold DeleteUser, withTx in *. destruct (actorIsAdmin _ _) as [[]|]; [|done]. unfold userRole in *. rewrite Hi in *.
    destruct (Nat.leb _ _); [done|]. destruct (guardAdmin _ _ _ _) as [[]|] eqn:Eg; [|done].
    destruct (guard_others db i u keep) as [(j & v & Hj & Hv & _) _]; [apply HR|done|done|].
    apply Ready_user with j v; [done|]. simpl. by rewrite lookup_delete_ne.
  - destruct (commit_keepsRow t db i Hd u Hi) as (v & Hv & _). by apply Ready_user with i v.
Qed.

Lemma Ready_commits ts db : Ready db -> Ready (commits ts db).
Proof. revert db. induction ts as [|t ts IH]; intros db HR; [done|]. by apply IH, Ready_commit. Qed.

Lemma commits_app ts ts' db : commits (ts ++ ts') db = commits ts' (commits ts db).
Proof. apply foldl_app. Qed.

Lemma commits_keepsRow ts db id :
  Forall (λ t, deletes t id = false /\ setsPassword t id = false) ts -> keepsRow false id db (commits ts db).
Proof.
  intros Hts. revert db. induction Hts as [|t ts [Hd Hp] _ IH]; intros db; [by apply keepsRow_refl|].
  apply keepsRow_trans with (commit t db); [|apply IH]. pose proof (commit_keepsRow t db id Hd) as Hk. by rewrite Hp in Hk.
Qed.

(** A user is found by its name. *)
Lemma Ready_byName db id u name :
  Ready db -> dbUsers db !! id = Some u -> nocase (acUsername u) = nocase name -> GetUserByUsername name db = Ok u.
Proof.
  intros [HI _] Hu En. unfold GetUserByUsername.
  rewrite (pick_unique (sameName name) (dbUsers db) id u Hu); [done|done|].
  intros j v Hj Hn. unfold sameName in Hn. simpl in Hn. eapply (inv_names db HI); eauto. congruence.
Qed.

(** ** Sessions *)

Definition createsSession (t : txn) (h : string) : bool :=
  match t with TCreateSession s => bool_decide (seHash s = h) | _ => false end.

(** A session that is not there stays away. *)
Definition staysAway (h : string) (db db' : DB) : Prop := dbSessions db !! h = None -> dbSessions db' !! h = None.

Lemma staysAway_refl h db db' : dbSessions db' = dbSessions db -> staysAway h db db'.
Proof. unfold staysAway. by intros ->. Qed.

Lemma staysAway_drop h (P : string * Session -> Prop) `{∀ p, Decision (P p)} db : staysAway h db (dropSessions P db).
Proof. intros Hn. simpl. rewrite map_lookup_filter, Hn. done. Qed.

Lemma staysAway_withTx {A} h (f : DB -> result AccErr (DB * A)) db :
  (∀ db' a, f db = Ok (db', a) -> staysAway h db db') -> staysAway h db (fst (withTx f db)).
Proof. intros Hf. unfold withTx. destruct (f db) as [[db' a]|] eqn:E; [by eapply Hf|by apply staysAway_refl]. Qed.

Lemma updateUser_sessions i f db db' : updateUser i f db = Ok db' -> dbSessions db' = dbSessions db.
Proof. by intros (u & _ & ->)%updateUser_Ok. Qed.

Lemma insertUser_sessions u db db' v : insertUser u db = Ok (db', v) -> dbSessions db' = dbSessions db.
Proof.
  unfold insertUser. destruct (roleValid _); simpl; [|done]. destruct (checkIdentity _); [|done]. destruct (clashes _ _); [done|].
  by intros [= <- <-].
Qed.

Lemma setRole_away h i role at_ db db' : setRole i role at_ db = Ok db' -> staysAway h db db'.
Proof.
  unfold setRole. destruct (updateUser _ _ _) as [d|] eqn:E; [|done]. intros [= <-] Hn. apply staysAway_drop.
  by rewrite (updateUser_sessions _ _ _ _ E).
Qed.

Lemma password_away h i f (P : string * Session -> Prop) `{∀ p, Decision (P p)} db :
  staysAway h db (fst (withTx (λ db,
    p <-! userProvider i db;
    if negb (bool_decide (p = ProviderLocal)) then Err ErrNoPassword
    else db1 <-! updateUser i f db; Ok (dropSessions P db1, tt)) db)).
Proof.
  apply staysAway_withTx. intros db' [] E. destruct (userProvider _ _); [|done]. destruct (negb _); [done|].
  destruct (updateUser _ _ _) as [d|] eqn:Eu; [|done]. injection E as <-. intros Hn. apply staysAway_drop.
  by rewrite (updateUser_sessions _ _ _ _ Eu).
Qed.

Lemma signIn_away h i db : staysAway h db (fst (SignInExternalUser i db)).
Proof.
  unfold SignInExternalUser. destruct (_ || _); [by apply staysAway_refl|]. apply staysAway_withTx. intros db' r E.
  destruct (pick _ _) as [u|].
  - destruct (negb _); [done|]. destruct (signInRole i u db) as [[[[db1 role] kept] held]|] eqn:Er; [|done].
    destruct (updateUser _ _ db1) as [db2|] eqn:E2; [|done]. injection E as <- <-. intros Hn.
    rewrite (updateUser_sessions _ _ _ _ E2). unfold signInRole in Er.
    destruct (exRole i); [|by injection Er as <- <- <- <-].
    destruct (_ || _); [by injection Er as <- <- <- <-|]. destruct (_ && exKeepAdmin i); [by injection Er as <- <- <- <-|].
    destruct (_ && _); [by injection Er as <- <- <- <-|]. destruct (setRole _ _ _ db) as [d|] eqn:Es; [|done].
    injection Er as <- <- <- <-. by eapply setRole_away.
  - unfold createExternal in E. destruct (negb _); [done|]. destruct (exRole i); [|done].
    destruct (insertUser _ db) as [[d u]|e] eqn:Ei; [|by destruct e]. injection E as <- <-.
    by apply staysAway_refl, (insertUser_sessions _ _ _ _ Ei).
Qed.

Lemma commit_away t h db : createsSession t h = false -> staysAway h db (commit t db).
Proof.
  intros Hc. destruct t; simpl in *; try by apply staysAway_refl.
  - apply staysAway_withTx. intros db' v. destruct (Nat.ltb _ _); [done|]. intros E. by apply staysAway_refl, (insertUser_sessions _ _ _ _ E).
  - apply staysAway_withTx. intros db' v E. by apply staysAway_refl, (insertUser_sessions _ _ _ _ E).
  - unfold UpdatePassword. destruct (bool_decide _); [by apply staysAway_refl|]. apply password_away.
  - unfold ResetPassword. destruct (bool_decide _); [by apply staysAway_refl|]. apply password_away.
  - apply staysAway_withTx. intros db' [] E. destruct (updateUser _ _ _) eqn:Eu; [|done]. injection E as <-.
    by apply staysAway_refl, (updateUser_sessions _ _ _ _ Eu).
  - apply staysAway_withTx. intros db' [] E. destruct (actorIsAdmin _ _); [|done]. destruct (userRole _ _); [|done].
    destruct (Nat.leb _ _); [done|]. destruct (guardAdmin _ _ _ _); [|done]. injection E as <-. exact (staysAway_drop h _ db).
  - unfold UpdateUserRole. destruct (negb _); [by apply staysAway_refl|]. apply staysAway_withTx. intros db' r E.
    destruct (actorIsAdmin _ _); [|done]. destruct (userRole _ _); [|done].
    case_bool_decide; [injection E as <- <-; by apply staysAway_refl|]. destruct (guardAdmin _ _ _ _); [|done].
    destruct (setRole _ _ _ _) eqn:Es; [|done]. injection E as <- <-. by eapply setRole_away.
  - apply staysAway_withTx. intros db' [] E. destruct (actorIsAdmin _ _); [|done]. destruct (userRole _ _); [|done].
    destruct (_ && _); [done|]. destruct (updateUser _ _ _) eqn:Eu; [|done]. injection E as <-.
    by apply staysAway_refl, (updateUser_sessions _ _ _ _ Eu).
  - apply signIn_away.
  - apply bool_decide_eq_false in Hc. unfold CreateSession. destruct (dbSessions db !! seHash s); [by apply staysAway_refl|].
    destruct (dbUsers db !! _); [|by apply staysAway_refl]. intros Hn. simpl. by rewrite lookup_insert_ne.
  - intros Hn. simpl. rewrite lookup_alter. case_decide; [subst; by rewrite Hn|done].
  - intros Hn. simpl. apply lookup_delete_None. by right.
  - apply staysAway_drop.
  - apply staysAway_drop.
  - intros Hn. apply lookup_empty.
  - unfold CreateAPIKey. destruct (dbKeys db !! _); [by apply staysAway_refl|]. case_bool_decide; by apply staysAway_refl.
  - unfold UpdateAPIKeyScope. destruct (negb _); [by apply staysAway_refl|]. destruct (dbKeys db !! _); by apply staysAway_refl.
  - unfold RehashAPIKey. destruct (dbKeys db !! _); [|by apply staysAway_refl]. case_bool_decide; by apply staysAway_refl.
  - unfold DeleteAPIKey. destruct (dbKeys db !! _); by apply staysAway_refl.
  - unfold saveOIDC, SaveSettingsWith. apply staysAway_withTx. intros db' [] E. destruct (_ && _); [done|].
    injection E as <-. by apply staysAway_refl.
Qed.

Lemma commits_away ts h db :
  Forall (λ t, createsSession t h = false) ts -> dbSessions db !! h = None -> dbSessions (commits ts db) !! h = None.
Proof.
  intros Hts. revert db. induction Hts as [|t ts Ht _ IH]; intros db Hn; [done|]. by apply IH, commit_away.
Qed.

(** [t] ends session [s] (stored under [h]): a password set or reset by the user elsewhere
    or by another, a changed role, by hand or by the identity provider, a deletion of the
    user, a sign-out, a limit of the password form, a rotated secret key, or its time. *)
Definition revokes (t : txn) (h : string) (s : Session) (db : DB) : Prop :=
  match t with
  | TResetPassword id _ _ => seUserID s = id /\ is_ok (snd (exec t db)) = true
  | TUpdatePassword id _ _ keep => seUserID s = id /\ h <> keep /\ is_ok (snd (exec t db)) = true
  | TDeleteUser _ id _ => seUserID s = id /\ is_ok (snd (exec t db)) = true
  | TUpdateUserRole actor id role at_ keep =>
      seUserID s = id /\ ∃ from, snd (UpdateUserRole actor id role at_ keep db) = Ok from /\ from <> role
  | TSignInExternalUser i =>
      ∃ r, snd (SignInExternalUser i db) = Ok r /\ seUserID s = acID (xrUser r) /\
        xrCreated r = false /\ xrRoleFrom r <> Some (acRole (xrUser r))
  | TDeleteSession h' => h' = h
  | TDeleteExpiredSessions now idle => lapsed now idle (h, s)
  | TDeleteLocalNonAdminSessions => ofLocalNonAdmin db (h, s)
  | TRotate => True
  | _ => False
  end.

Lemma drop_gone h s (P : string * Session -> Prop) `{∀ p, Decision (P p)} db :
  dbSessions db !! h = Some s -> P (h, s) -> dbSessions (dropSessions P db) !! h = None.
Proof. intros Hs HP. simpl. apply map_lookup_filter_None. right. intros x Hx. naive_solver. Qed.

Lemma password_gone i f (P : string * Session -> Prop) `{∀ p, Decision (P p)} db h s :
  let r := withTx (λ db,
    p <-! userProvider i db;
    if negb (bool_decide (p = ProviderLocal)) then Err ErrNoPassword
    else db1 <-! updateUser i f db; Ok (dropSessions P db1, tt)) db in
  dbSessions db !! h = Some s -> P (h, s) -> is_ok (snd r) = true -> dbSessions (fst r) !! h = None.
Proof.
  unfold withTx. destruct (userProvider _ _); [|done]. destruct (negb _); [done|].
  destruct (updateUser _ _ _) as [d|] eqn:Eu; [|done]. simpl. intros Hs HP _. eapply (drop_gone h s P); [|done].
  by rewrite (updateUser_sessions _ _ _ _ Eu).
Qed.

Lemma setRole_gone h s i role at_ db db' :
  dbSessions db !! h = Some s -> seUserID s = i -> setRole i role at_ db = Ok db' -> dbSessions db' !! h = None.
Proof.
  unfold setRole. destruct (updateUser _ _ _) as [d|] eqn:Eu; [|done]. intros Hs Hi [= <-]. eapply (drop_gone h s); [|exact Hi].
  by rewrite (updateUser_sessions _ _ _ _ Eu).
Qed.

Lemma signIn_gone h s i db r :
  dbSessions db !! h = Some s -> snd (SignInExternalUser i db) = Ok r -> seUserID s = acID (xrUser r) ->
  xrCreated r = false -> xrRoleFrom r <> Some (acRole (xrUser r)) -> dbSessions (fst (SignInExternalUser i db)) !! h = None.
Proof.
  intros Hs. unfold SignInExternalUser. destruct (_ || _); [done|]. unfold withTx.
  destruct (pick _ _) as [u|].
  - destruct (negb _); [done|]. destruct (signInRole i u db) as [[[[db1 role] kept] held]|] eqn:Er; [|done].
    destruct (updateUser _ _ db1) as [db2|] eqn:E2; [|done]. simpl. intros [= <-] Hid _ Hrole. simpl in *.
    rewrite (updateUser_sessions _ _ _ _ E2). unfold signInRole in Er. destruct (exRole i); [|naive_solver].
    destruct (_ || _); [naive_solver|]. destruct (_ && exKeepAdmin i); [naive_solver|]. destruct (_ && _); [naive_solver|].
    destruct (setRole _ _ _ db) as [d|] eqn:Es; [|done]. injection Er as <- <- <- <-. by eapply setRole_gone.
  - unfold createExternal. destruct (negb _); [done|]. destruct (exRole i); [|done].
    destruct (insertUser _ db) as [[d u]|e] eqn:Ei; [|by destruct e]. simpl. by intros [= <-].
Qed.

Lemma revokes_gone t h s db : dbSessions db !! h = Some s -> revokes t h s db -> dbSessions (commit t db) !! h = None.
Proof.
  intros Hs. destruct t; simpl; try done.
  - intros (Hid & Hk & Hok). unfold UpdatePassword in *. destruct (bool_decide _); [done|]. by apply (password_gone id _ _ db h s).
  - intros (Hid & Hok). unfold ResetPassword in *. destruct (bool_decide _); [done|]. by apply (password_gone id _ _ db h s).
  - intros (Hid & Hok). unfold DeleteUser, withTx in *. destruct (actorIsAdmin _ _); [|done]. destruct (userRole _ _); [|done].
    destruct (Nat.leb _ _); [done|]. destruct (guardAdmin _ _ _ _); [|done]. simpl. exact (drop_gone h s (ofUser id) db Hs Hid).
  - intros (Hid & from & Hok & Hne). unfold UpdateUserRole in *. destruct (negb _); [done|]. unfold withTx in *.
    destruct (actorIsAdmin _ _); [|done]. destruct (userRole _ _); [|done]. case_bool_decide; [naive_solver|].
    destruct (guardAdmin _ _ _ _); [|done]. destruct (setRole _ _ _ _) eqn:Es; [|done]. by eapply setRole_gone.
  - intros (r & Hr & Hid & Hc & Hf). by eapply signIn_gone.
  - intros ->. apply lookup_delete_None. by left.
  - intros Hl. by eapply (drop_gone h s).
  - intros Hl. by eapply (drop_gone h s).
Qed.

Section Safety.
Context (matches : string -> string -> bool) (HashToken toLower : string -> string) (dummyHash : string).

(** The tables after a call are reached by transactions. *)
Lemma perform_commits {X} (c : call X) s w :
  ∃ ts, wDB (fst (perform matches c s w)) = commits (slBefore s ++ ts) (wDB w) /\
    ts = match c with CDo t => if slFails s then [] else [t] | _ => [] end.
Proof.
  eexists. split; [|done]. rewrite commits_app.
  destruct c; simpl; try done.
  - destruct (slFails s); [done|]. pose proof (exec_commit t (commits (slBefore s) (wDB w))) as E. by destruct (exec _ _).
  - by destruct (Reserve _ _ _ _ _).
  - by destruct (CountFailure _ _ _ _ _ _).
  - by case_bool_decide.
Qed.

(** Whatever a handler does, and other requests meanwhile, are transactions. *)
Lemma run_commits {A} (p : prog A) env n w : ∃ ts, wDB (fst (run matches p env n w)) = commits ts (wDB w).
Proof.
  revert n w. induction p as [a|X c k IH]; intros n w; simpl; [by exists []|].
  destruct (perform matches c (env n) w) as [w' r] eqn:E. destruct (IH r (S n) w') as [ts ->].
  destruct (perform_commits c (env n) w) as (ts' & Hts' & _). rewrite E in Hts'. simpl in Hts'.
  exists ((slBefore (env n) ++ ts') ++ ts). by rewrite commits_app, <- Hts'.
Qed.

(** [C6] No request, and no interleaving of requests, leaves the installation without an
    administrator. From the tables after the setup, whatever a handler does while other
    requests commit what they like between its calls: an administrator exists; while single
    sign-on is stored as on, a local administrator with a password exists; every session
    belongs to a user that exists; and no two users share a name up to case. *)
Theorem administrator_remains {A} (u : Account) (p : prog A) env n w :
  acRole u = RoleAdmin -> wDB w = commit (TCreateFirstUser u) emptyDB -> dbUsers (wDB w) <> ∅ ->
  let db := wDB (fst (run matches p env n w)) in
  (∃ id v, dbUsers db !! id = Some v /\ acRole v = RoleAdmin) /\
  (storedOIDCEnabled db = true ->
   ∃ id v, dbUsers db !! id = Some v /\ acRole v = RoleAdmin /\ acProvider v = ProviderLocal /\ acHash v <> "") /\
  (∀ h s, dbSessions db !! h = Some s -> is_Some (dbUsers db !! seUserID s)) /\
  (∀ i j x y, dbUsers db !! i = Some x -> dbUsers db !! j = Some y -> nocase (acUsername x) = nocase (acUsername y) -> i = j).
Proof.
  intros Hr Hw Hne db.
  assert (Ready db) as [HI Hdb].
  { destruct (run_commits p env n w) as [ts Hts]. unfold db. rewrite Hts. apply Ready_commits. split; [|done].
    rewrite Hw. apply commit_Inv; [apply emptyDB_Inv|done]. }
  split_and!.
  - by apply (inv_admin db HI).
  - intros Ho. destruct (inv_local db HI Ho) as (id & v & Hv & ? & Hp). exists id, v. split_and!; try done.
    apply (local_has_hash id); [by apply (inv_users db HI)|done].
  - intros h s Hs. apply (inv_sessions db HI h s Hs).
  - apply (inv_names db HI).
Qed.

(** ** Passwords *)

Lemma checkLogin_refused pk ip pw user env n w :
  match user with Some u => matches (acHash u) pw = false | None => True end ->
  is_ok (snd (run matches (checkLogin HashToken dummyHash pk ip pw user) env n w)) = false.
Proof.
  intros Hm. simpl. destruct (slFails (env n)); [done|]. destruct user as [u|]; simpl.
  - by rewrite Hm.
  - by destruct (matches dummyHash pw).
Qed.


(** [C8] A revoked session is over for good. Once a transaction that ends a session has
    committed (see [revokes]), its token authenticates no request, after whatever
    transactions and whatever other requests do while the request is handled, unless the
    same token is issued again. *)
Theorem revoked_session_refused token s t db ts env n w :
  dbSessions db !! HashToken token = Some s -> revokes t (HashToken token) s db ->
  wDB w = commits ts (commit t db) -> Forall (λ t, createsSession t (HashToken token) = false) ts ->
  (∀ k, Forall (λ t, createsSession t (HashToken token) = false) (slBefore (env k))) ->
  is_ok (snd (run matches (AuthenticateSession HashToken token) env n w)) = false.
Proof.
  intros Hs Hr Hw Hts Henv. unfold AuthenticateSession. destruct (bool_decide _); [done|]. cbn [run perform].
  destruct (slFails (env n)); [done|]. unfold GetSession. simpl.
  by rewrite (commits_away (slBefore (env n)) _ (wDB w)); [|done|rewrite Hw; apply commits_away; [done|]; by eapply revokes_gone].
Qed.

(** An accepted session is stored, within its time by the settings of the request, and its
    user is the one stored now. *)
Lemma session_sound token env n w c :
  snd (run matches (AuthenticateSession HashToken token) env n w) = Ok c ->
  let db := commits (slBefore (env n)) (wDB w) in
  let db' := commits (slBefore (env (3 + n)%nat)) (commits (slBefore (env (2 + n)%nat)) (commits (slBefore (env (1 + n)%nat)) db)) in
  ∃ s u, token <> "" /\ dbSessions db !! HashToken token = Some s /\
    sessionExpired (slTimeouts (env (2 + n)%nat)) s (slNow (env (1 + n)%nat)) = false /\
    dbUsers db' !! seUserID s = Some u /\ c = sessionCaller u s (HashToken token).
Proof.
  unfold AuthenticateSession. case_bool_decide as Ht; [done|]. cbn [run perform].
  destruct (slFails (env n)); [done|]. unfold GetSession. simpl.
  destruct (dbSessions _ !! HashToken token) as [s|] eqn:Hs; [|done]. simpl.
  destruct (sessionExpired _ s _) eqn:Hx; [by simpl; destruct (slFails _)|]. simpl.
  destruct (slFails _); [done|]. unfold GetUser. destruct (dbUsers _ !! seUserID s) as [u|] eqn:Hu; [|done].
  intros Hc. exists s, u. split_and!; try done. revert Hc. destruct (_ >=? _); simpl; [destruct (slFails _)|]; simpl; by intros [= <-].
Qed.

(** ** The way in *)

(** No other request interferes and no call fails. *)
Definition quiet (env : nat -> slot) : Prop := ∀ k, (∀ w, interfere (env k) w = w) /\ slFails (env k) = false.

Lemma RecordLogin_known id u at_ db :
  dbUsers db !! id = Some u -> RecordLogin id at_ db = (setUsers (<[id := signedIn at_ u]> (dbUsers db)) db, Ok tt).
Proof. intros Hu. unfold RecordLogin, withTx, updateUser. by rewrite Hu. Qed.

(** The world after a quiet sign-in. *)
Lemma login_quiet clientIP name pw id u env w t :
  quiet env -> Ready (wDB w) -> dbUsers (wDB w) !! id = Some u -> nocase (acUsername u) = nocase name ->
  acProvider u = ProviderLocal -> acRole u = RoleAdmin -> matches (acHash u) pw = true -> (String.length pw <= MaxPasswordBytes)%nat ->
  Reserve (slNow (env 0%nat)) (slOrder (env 0%nat)) (loginPair toLower clientIP name) (loginIP clientIP) (wThrottle w) = (t, Ok tt) ->
  dbSessions (wDB w) !! HashToken (slRandom (env 9%nat)) = None ->
  let s := mkSession (HashToken (slRandom (env 9%nat))) id (slRandom (env 10%nat)) (slNow (env 11%nat)) (slNow (env 11%nat))
             (slNow (env 11%nat) + (slTimeouts (env 12%nat)).2) in
  let r := run matches (Login HashToken toLower dummyHash clientIP name pw) env 0 w in
  (∃ l, snd r = Ok l /\ lrToken l = slRandom (env 9%nat)) /\
  dbSessions (wDB (fst r)) !! HashToken (slRandom (env 9%nat)) = Some s /\
  dbUsers (wDB (fst r)) !! id = Some (signedIn (slNow (env 5%nat)) u).
Proof.
  intros Hq HR Hu Hn Hp Ha Hm Hlen HRes Hnew s r. subst r. unfold Login, checkLogin, purgeAndStart, startSession.
  assert (∀ k w, interfere (env k) w = w) as Hi by apply Hq. assert (∀ k, slFails (env k) = false) as Hf by apply Hq.
  pose proof (proj1 (inv_users _ (proj1 HR) _ _ Hu)) as Eid.
  cbn [run perform]. rewrite Hi, HRes, (proj2 (Nat.ltb_ge _ _) Hlen). cbn [run perform]. rewrite !Hi, !Hf. simpl wDB.
  rewrite (Ready_byName _ id u name) by done. unfold Local_. rewrite Hp. cbn [run perform]. rewrite !Hi, !Hf, Hm.
  cbn [run perform]. rewrite !Hi. cbn [run perform]. rewrite bool_decide_true by done. simpl negb. cbn [andb run perform].
  rewrite !Hi, !Hf. cbn [exec]. simpl wDB. rewrite Eid, (RecordLogin_known id u) by done.
  cbn [run perform]. rewrite !Hi, !Hf. cbn [exec run perform]. rewrite !Hi, !Hf. cbn [exec run perform]. rewrite !Hi, !Hf.
  cbn [exec run perform]. unfold CreateSession. simpl.
  rewrite (map_lookup_filter_None_2 _ _ _ (or_introl Hnew)), Eid, lookup_insert, decide_True by done.
  simpl. split_and!; [by eexists|by rewrite lookup_insert, decide_True|by rewrite lookup_insert, decide_True].
Qed.

Lemma authenticate_quiet token env w s u :
  quiet env -> token <> "" -> dbSessions (wDB w) !! HashToken token = Some s -> dbUsers (wDB w) !! seUserID s = Some u ->
  sessionExpired (slTimeouts (env 2%nat)) s (slNow (env 1%nat)) = false ->
  snd (run matches (AuthenticateSession HashToken token) env 0 w) = Ok (sessionCaller u s (HashToken token)).
Proof.
  intros Hq Ht Hs Hu Hx. unfold AuthenticateSession. rewrite bool_decide_false by done.
  assert (∀ k w, interfere (env k) w = w) as Hi by apply Hq. assert (∀ k, slFails (env k) = false) as Hf by apply Hq.
  cbn [run perform]. rewrite !Hi, !Hf. unfold GetSession. rewrite Hs. cbn [run perform]. rewrite !Hi, Hx.
  cbn [run perform]. rewrite !Hi, !Hf. unfold GetUser. rewrite Hu. destruct (_ >=? _); [|done].
  cbn [run perform]. rewrite !Hi, !Hf. done.
Qed.

(** [C10] The way in stays open. Once the setup is done, whatever requests were served, while
    single sign-on is stored as on there is a user who gets in without it: anyone who knows
    a password matching that user's hash signs in (also when the password form is limited
    to administrators), and the token authenticates requests with the admin scope until an
    idle or absolute timeout passes. The sign-in must not be throttled, its random token
    must be new, and no call may fail or be interfered with. *)
Theorem break_glass {A} (first : Account) (p : prog A) env0 w0 :
  acRole first = RoleAdmin -> wDB w0 = commit (TCreateFirstUser first) emptyDB -> dbUsers (wDB w0) <> ∅ ->
  let w := fst (run matches p env0 0 w0) in
  storedOIDCEnabled (wDB w) = true ->
  ∃ id u, dbUsers (wDB w) !! id = Some u /\ acRole u = RoleAdmin /\
    ∀ clientIP password env t env',
      matches (acHash u) password = true -> (String.length password <= MaxPasswordBytes)%nat -> quiet env -> quiet env' ->
      Reserve (slNow (env 0%nat)) (slOrder (env 0%nat)) (loginPair toLower clientIP (acUsername u)) (loginIP clientIP) (wThrottle w) = (t, Ok tt) ->
      dbSessions (wDB w) !! HashToken (slRandom (env 9%nat)) = None -> slRandom (env 9%nat) <> "" ->
      0 <= slNow (env' 1%nat) - slNow (env 11%nat) < 2 ^ 62 ->
      slNow (env' 1%nat) - slNow (env 11%nat) < (slTimeouts (env 12%nat)).2 ->
      slNow (env' 1%nat) - slNow (env 11%nat) < (slTimeouts (env' 2%nat)).2 ->
      slNow (env' 1%nat) - slNow (env 11%nat) < (slTimeouts (env' 2%nat)).1 ->
      let r := run matches (Login HashToken toLower dummyHash clientIP (acUsername u) password) env 0 w in
      ∃ l c, snd r = Ok l /\ snd (run matches (AuthenticateSession HashToken (lrToken l)) env' 0 (fst r)) = Ok c /\
        callerUserID c = id /\ mustHave (Some c) ScopeAdmin = Ok tt.
Proof.
  intros Hr Hw0 Hne w Ho. assert (Ready (wDB w)) as HR.
  { destruct (run_commits p env0 0 w0) as [ts Hts]. unfold w. rewrite Hts. apply Ready_commits. split; [|done].
    rewrite Hw0. apply commit_Inv; [apply emptyDB_Inv|done]. }
  destruct (inv_local _ (proj1 HR) Ho) as (id & u & Hu & Ha & Hp). exists id, u. split; [done|]. split; [done|].
  intros clientIP pw env t env' Hm Hlen Hq Hq' HRes Hnew Htok H0 H1 H2 H3 r.
  destruct (login_quiet clientIP (acUsername u) pw id u env w t) as ((l & Hl & Et) & Hs & Hu'); try done.
  fold r in Hl, Hs, Hu'. exists l. eexists. rewrite Et. split_and!; [done| | |].
  - eapply authenticate_quiet; [done|done|exact Hs|exact Hu'|]. unfold sessionExpired. simpl.
    destruct (slTimeouts (env' 2%nat)) as [idle absolute]. simpl in *. rewrite time_sub_small by lia.
    rewrite !(proj2 (Z.ltb_lt _ _)) by lia. simpl. rewrite Z.geb_leb. apply Z.leb_gt. lia.
  - simpl. apply (inv_users _ (proj1 HR) _ _ Hu).
  - unfold mustHave, Require_, sessionCaller, effectiveAccess. simpl. rewrite Ha. done.
Qed.

End Safety.
