(* ===== verification/ApiKeys.v ===== *)
(** * API keys ([internal/auth/service.go], credentials.go, expiry.go)

    Creating, finding, checking, importing and revoking API keys, as handlers of Accounts.
    Keys made here are looked up by their public prefix and stored as a digest; a key
    imported from the environment is stored under a MAC, with the MAC keys of earlier secret
    keys still accepted and replaced on use. The digests and MACs, the current MAC key and
    the reading of the retired ones are parameters. *)

From S2P Require Import Prelude Glob Selection Json GoStrings Throttle Access AccountStore AccountInvariant Accounts.

Local Open Scope rescue_scope.

Definition keyScheme : string := "mr_".
Definition apiKeyPrefixLen : nat := 8.
Definition apiKeySecretLen : nat := 32.
Definition maxKeyNameLength : nat := 100.
Definition minImportedKeyLength : nat := 16.
Definition maxAPIKeyLength : nat := 512.
Definition importedKeyMACScheme : string := "hmac-sha256:".
Definition MaxAPIKeyLifetime : Z := 3650 * 24 * hour.

(** The bytes of a generated key: base32 in lower case. *)
Definition base32Byte (a : Ascii.ascii) : bool := byteIn 97 122 a || byteIn 50 55 a.

Definition parseAPIKey (key : string) : option string :=
  match CutPrefix key keyScheme with
  | None => None
  | Some rest =>
      if negb (Nat.eqb (String.length rest) (apiKeyPrefixLen + 1 + apiKeySecretLen)) ||
         negb (match String.get apiKeyPrefixLen rest with Some a => byteIs 95 a | None => false end)
      then None
      else if allBytes base32Byte (String.substring 0 apiKeyPrefixLen rest) &&
              allBytes base32Byte (String.substring (apiKeyPrefixLen + 1) apiKeySecretLen rest)
      then Some (String.substring 0 apiKeyPrefixLen rest) else None
  end.

(** A key and its prefix, from 40 random base32 characters. *)
Definition newGeneratedKey (random : string) : string * string :=
  let prefix := String.substring 0 apiKeyPrefixLen random in
  (keyScheme +:+ prefix +:+ "_" +:+ String.substring apiKeyPrefixLen apiKeySecretLen random, prefix).

Section Keys.
Context (HashToken : string -> string) (mac : string -> string -> string) (ImportedKeyMACID : string -> string).
Context (macKey : string) (retiredMACs : DB -> result AccErr (list string)).

Definition importedKeyPrefixWith (mk key : string) : string := "K" +:+ String.substring 0 (apiKeyPrefixLen - 1) (mac mk key).
Definition legacyImportedKeyPrefix (key : string) : string := "L" +:+ String.substring 0 (apiKeyPrefixLen - 1) (HashToken key).
Definition importedKeyHash (mk key : string) : string :=
  importedKeyMACScheme +:+ ImportedKeyMACID mk +:+ ":" +:+ mac mk key.

(** The MAC key [mk] the record was found under; [None]: the current one. *)
Definition importedKeyMatches (key stored : string) (mk : option string) : bool :=
  match CutPrefix stored importedKeyMACScheme with
  | None => false
  | Some rest =>
      let mk := default macKey mk in
      let '(kid, m, found) := Cut (Ascii.ascii_of_N 58) rest in
      if found then bool_decide (kid = ImportedKeyMACID mk) && bool_decide (mac mk key = m)
      else bool_decide (mac mk key = rest)
  end.

Definition apiKeyMatches (key stored : string) (mk : option string) : bool :=
  if HasPrefix stored importedKeyMACScheme then importedKeyMatches key stored mk
  else bool_decide (HashToken key = stored).

(** The retired MAC keys are tried in turn. *)
Fixpoint findRetired (key : string) (mks : list string) : handler (APIKey * option string) :=
  match mks with
  | [] => fail ErrAPIKeyNotFound
  | mk :: mks' =>
      Do (CRead (GetAPIKeyByPrefix (importedKeyPrefixWith mk key))) (λ r,
        match r with
        | Err ErrAPIKeyNotFound => findRetired key mks'
        | Err e => fail e
        | Ok k => done_ (k, Some mk)
        end)
  end.

Definition findImportedKey (key : string) : handler (APIKey * option string) :=
  Do (CRead (GetAPIKeyByPrefix (importedKeyPrefixWith macKey key))) (λ r,
    match r with
    | Err ErrAPIKeyNotFound => mks <~ CRead retiredMACs; findRetired key mks
    | Err e => fail e
    | Ok k => done_ (k, Some macKey)
    end).

Definition lookupAPIKey (key : string) : handler (APIKey * option string) :=
  match parseAPIKey key with
  | Some prefix => k <~ CRead (GetAPIKeyByPrefix prefix); done_ (k, None)
  | None =>
      if Nat.ltb (String.length key) minImportedKeyLength then fail ErrAPIKeyNotFound
      else bind (findImportedKey key) (λ r,
        match r with
        | Err ErrAPIKeyNotFound => k <~ CRead (GetAPIKeyByPrefix (legacyImportedKeyPrefix key)); done_ (k, None)
        | Err e => fail e
        | Ok km => done_ km
        end)
  end.

(** A key that verified under a retired MAC key is stored under the current one; a failure
    is logged. *)
Definition rehashImportedKey {A} (k : APIKey) (key : string) (mk : option string) (next : handler A) : handler A :=
  match mk with
  | Some mk =>
      if bool_decide (mk = macKey) || negb (HasPrefix (kyHash k) importedKeyMACScheme) then next
      else CDo (TRehashAPIKey (kyID k) (importedKeyPrefixWith macKey key) (importedKeyHash macKey key)) ;~ next
  | None => next
  end.

(** The caller of a key: capped by its creator, if it has one. *)
Definition keyCaller (k : APIKey) (creator : option Account) : Caller :=
  let scope := if scopeValid (kyScope k) then kyScope k else ScopeRead in
  let role := match creator with Some u => acRole u | None => RoleOther "" end in
  let a := effectiveAccess MethodAPIKey role scope (match creator with Some _ => true | None => false end)
             (match creator with Some u => connectionSet (acAccess u) | None => None end) (connectionSet (kyAccess k)) in
  mkCaller (mkPrincipal (asUser <$> creator) MethodAPIKey (aScope a) role scope (aConnections a)) creator "" "" (kyID k).

Definition AuthenticateAPIKey (key : string) : handler Caller :=
  if bool_decide (key = "") || Nat.ltb maxAPIKeyLength (String.length key) then fail (EAccess ErrUnauthenticated)
  else bind (lookupAPIKey key) (λ r,
    match r with
    | Err ErrAPIKeyNotFound => fail (EAccess ErrUnauthenticated)
    | Err e => fail e
    | Ok (k, mk) =>
        if negb (apiKeyMatches key (kyHash k) mk) then fail (EAccess ErrUnauthenticated)
        else
          now <~ CNow;
          if match kyExpiresAt k with Some e => negb (now <? e) | None => false end then fail (ErrAPIKeyExpired (kyID k))
          else
            rehashImportedKey k key mk (
              let known :=
                if bool_decide (kyCreatedBy k = "") then done_ (keyCaller k None)
                else
                  Do (CRead (GetUser (kyCreatedBy k))) (λ r,
                    match r with
                    | Err ErrUserNotFound => fail (EAccess ErrUnauthenticated)
                    | Err e => fail e
                    | Ok u => done_ (keyCaller k (Some u))
                    end) in
              if match kyLastUsed k with None => true | Some t => time_sub now t >=? touchInterval end
              then CDo (TTouchAPIKey (kyID k) now) ;~ known else known)
    end).

(** ** Creating, importing and revoking *)

Definition checkExpiry (maxLifetime now : Z) (at_ : option Z) : result AccErr (option Z) :=
  match at_ with
  | None => if maxLifetime >? 0 then Err ErrInvalidExpiry else Ok None
  | Some e =>
      let limit := if (maxLifetime >? 0) && (maxLifetime <? MaxAPIKeyLifetime) then maxLifetime else MaxAPIKeyLifetime in
      if negb (e >? now) then Err ErrInvalidExpiry
      else if e >? now + limit then Err ErrInvalidExpiry else Ok (Some e)
  end.

Definition maxDays (d : Z) : Z := Z.quot d (24 * hour).

Definition keyName (name : string) : bool :=
  let name := TrimSpace name in
  negb (bool_decide (name = "")) && Nat.leb (String.length name) maxKeyNameLength && negb (hasControl name).

Definition requestKeyOrUndo (k : APIKey) (plain : string) : handler (APIKey * string) :=
  Do (CRequest (GrantAdminKey (kyID k) true)) (λ r,
    match r with
    | Err ErrAwaitingApproval => fail ErrAwaitingApproval
    | Err e => CDo (TDeleteAPIKey (kyID k)) ;~ fail e
    | Ok _ => done_ (k, plain)
    end).

Definition CreateAPIKeyWithOptions (actor : option Caller) (name scopeName : string) (access : ConnectionAccess) (expires : option Z) :
    handler (APIKey * string) :=
  match RequireKeyCreator (caPrincipal <$> actor), actor with
  | Err e, _ => fail (EAccess e)
  | Ok _, None => fail (EAccess ErrUnauthenticated)
  | Ok _, Some c =>
      if negb (keyName name) then fail ErrInvalidName
      else match ParseScope scopeName, Normalized access with
      | Err e, _ => fail (EAccess e)
      | Ok scope, access =>
          if negb (Allows (pScope (caPrincipal c)) scope) then fail ErrScopeExceedsRole
          else match access with
          | Err e => fail (EAccess e)
          | Ok access =>
              let mine := pConnections (caPrincipal c) in
              if negb (AllConnections access) && bool_decide (scope = ScopeAdmin) then fail ErrAdminConnections
              else if negb (AllConnections access) && negb (Covers mine (connectionSet access)) then fail ErrConnectionsExceedAccess
              else if Limited mine && bool_decide (callerUserID c = "") then fail ErrConnectionsExceedAccess
              else
                maxLifetime <~ CKeyPolicy;
                now <~ CNow;
                match checkExpiry maxLifetime now expires with
                | Err e => fail e
                | Ok expires =>
                    gate <~ CGate;
                    let held := bool_decide (scope = ScopeAdmin) && gate in
                    random <~ CRandom;
                    let '(plain, prefix) := newGeneratedKey random in
                    id <~ CRandom;
                    created <~ CNow;
                    maxLifetime <~ CKeyPolicy;
                    let k := mkKey id (TrimSpace name) prefix (if held then ScopeOperator else scope) (HashToken plain)
                               (callerUserID c) created None expires (maxDays maxLifetime) false (caKeyID c) access in
                    _ <~ CDo (TCreateAPIKey k);
                    if held then requestKeyOrUndo k plain else done_ (k, plain)
                end
          end
      end
  end.

(** The keys, as the dashboard lists them. *)
Definition newerKey (a b : APIKey) : bool :=
  (kyCreatedAt b <? kyCreatedAt a) || ((kyCreatedAt a =? kyCreatedAt b) && stringLess (kyID a) (kyID b)).

Definition ListAPIKeys (db : DB) : list APIKey := stable_sort newerKey (snd <$> map_to_list (dbKeys db)).

Definition findAPIKey (id : string) (db : DB) : result AccErr APIKey :=
  match head (filter (λ k, kyID k = id) (ListAPIKeys db)) with Some k => Ok k | None => Err ErrAPIKeyNotFound end.

Definition DeleteAPIKey_ (actor : option Caller) (id : string) : handler unit :=
  check mustHave actor ScopeRead;
  let go := _ <~ CDo (TDeleteAPIKey id); done_ tt in
  match actor with
  | None => fail (EAccess ErrForbidden)
  | Some c =>
      if principalAllows (Some (caPrincipal c)) ScopeAdmin then go
      else
        k <~ CRead (findAPIKey id);
        let allowed :=
          match pMethod (caPrincipal c) with
          | MethodSession => negb (bool_decide (callerUserID c = "")) && bool_decide (kyCreatedBy k = callerUserID c)
          | MethodAPIKey => negb (bool_decide (caKeyID c = "")) && bool_decide (kyID k = caKeyID c)
          | _ => false
          end in
        if allowed then go else fail (EAccess ErrForbidden)
  end.

Definition GrantAPIKeyAdmin (actor : option Caller) (id : string) : handler APIKey :=
  check mustHave actor ScopeAdmin;
  k <~ CRead (findAPIKey id);
  gate <~ CGate;
  if (gate : bool) then _ <~ CRequest (GrantAdminKey (kyID k) false); fail ErrInternal
  else _ <~ CDo (TUpdateAPIKeyScope id ScopeAdmin); done_ (keyWithScope ScopeAdmin k).

(** A record imported by an earlier release. *)
Definition legacyRecord (k : APIKey) : bool :=
  Nat.eqb (String.length (kyPrefix k)) apiKeyPrefixLen && HasPrefix (kyPrefix k) "L" && bool_decide (kyCreatedBy k = "") &&
  negb (HasPrefix (kyHash k) importedKeyMACScheme).

Definition importedKeyName : string := "Imported from MONGORESCUE_API_KEY".

Definition importNew (prefix key : string) : handler bool :=
  keys <~ CRead (λ db, Ok (ListAPIKeys db));
  if existsb legacyRecord keys then done_ false
  else
    id <~ CRandom;
    now <~ CNow;
    _ <~ CDo (TCreateAPIKey (mkKey id importedKeyName prefix ScopeAdmin (importedKeyHash macKey key) "" now None None 0 true "" EveryConnection));
    done_ true.

Definition ImportAPIKey (key : string) : handler bool :=
  if Nat.ltb (String.length key) minImportedKeyLength || Nat.ltb maxAPIKeyLength (String.length key) then fail ErrInvalidName
  else match parseAPIKey key with
  | Some prefix =>
      Do (CRead (GetAPIKeyByPrefix prefix)) (λ r,
        match r with
        | Ok _ => done_ false
        | Err ErrAPIKeyNotFound => importNew prefix key
        | Err e => fail e
        end)
  | None =>
      bind (findImportedKey key) (λ r,
        match r with
        | Ok (k, mk) =>
            if importedKeyMatches key (kyHash k) mk then rehashImportedKey k key mk (done_ false) else done_ false
        | Err ErrAPIKeyNotFound => importNew (importedKeyPrefixWith macKey key) key
        | Err e => fail e
        end)
  end.

(** The deadline of a maximum lifetime ([CheckAPIKeyExpiry], without its reports). *)
Definition capExpiries : handler unit :=
  maxLifetime <~ CKeyPolicy;
  if maxLifetime >? 0 then
    now <~ CNow;
    _ <~ CDo (TCapAPIKeyExpiry (now + maxLifetime) (maxDays maxLifetime)); done_ tt
  else done_ tt.

End Keys.
