(* ===== verification/AccountAccess.v ===== *)
(** * Who gets in

    A program logic for the handlers of Accounts, in which other requests may commit any
    transaction between two calls, and what it shows of callers: a deleted user is out, and
    an API key stands for its creator. *)

From S2P Require Import Prelude Glob Selection Json Throttle Access AccountStore AccountInvariant Accounts AccountSafety ApiKeys.

Local Open Scope rescue_scope.

(** ** Rely and guarantee *)

Section Logic.
Context (matches : string -> string -> bool).
(** An invariant of the tables, the transactions that keep it, the times of the clock. *)
Context (I : DB -> Prop) (P : txn -> Prop) (T : Z -> Prop).

(** [p] makes only transactions in [P] and ends in [Q], if it reads tables in [I]. *)
Fixpoint post {A} (Q : A -> Prop) (p : prog A) : Prop :=
  match p with
  | Ret a => Q a
  | Do c k =>
      match c in call X return (result AccErr X -> Prop) -> Prop with
      | CRead f => λ next, (∀ db, I db -> next (f db)) /\ next (Err ErrInternal)
      | CDo t => λ next, P t /\ ∀ r, next r
      | CNow => λ next, ∀ now, T now -> next (Ok now)
      | _ => λ next, ∀ r, next r
      end (λ r, post Q (k r))
  end.

Lemma post_mono {A} (Q Q' : A -> Prop) p : (∀ a, Q a -> Q' a) -> post Q p -> post Q' p.
Proof.
  intros HQ. induction p as [a|X c k IH]; simpl; [apply HQ|]. destruct c; simpl; try (by intros H r; apply IH, H).
  - intros [H1 H2]. split; [by intros db Hdb; apply IH, H1|by apply IH].
  - intros [H1 H2]. split; [done|]. intros r. by apply IH.
  - intros H now Hn. by apply IH, H.
Qed.

Lemma post_bind {A B} (Q' : A -> Prop) (Q : B -> Prop) p f :
  post Q' p -> (∀ a, Q' a -> post Q (f a)) -> post Q (bind p f).
Proof.
  intros Hp Hf. revert Hp. induction p as [a|X c k IH]; simpl; [apply Hf|]. destruct c; simpl; try (by intros H r; apply IH, H).
  - intros [H1 H2]. split; [by intros db Hdb; apply IH, H1|by apply IH].
  - intros [H1 H2]. split; [done|]. intros r. by apply IH.
  - intros H now Hn. by apply IH, H.
Qed.

Hypothesis keep : ∀ t db, P t -> I db -> I (commit t db).

Lemma commits_keep ts db : Forall P ts -> I db -> I (commits ts db).
Proof. intros Hts. revert db. induction Hts; intros db Hdb; [done|]. simpl. auto. Qed.

(** What a handler shown correct by [post] ends in, with any interference in [P]. *)
Lemma run_post {A} (Q : A -> Prop) (p : prog A) env n w :
  (∀ k, Forall P (slBefore (env k))) -> (∀ k, T (slNow (env k))) -> post Q p -> I (wDB w) ->
  Q (snd (run matches p env n w)) /\ I (wDB (fst (run matches p env n w))).
Proof.
  intros Henv Hnow. revert n w. induction p as [a|X c k IH]; intros n w; simpl; [done|].
  intros Hp Hw. destruct (perform matches c (env n) w) as [w' r] eqn:E.
  assert (I (wDB (interfere (env n) w))) as Hi by by apply commits_keep.
  assert (post Q (k r) /\ I (wDB w')) as [Hk Hw']; [|by apply IH].
  unfold perform in E. destruct c; simpl in *;
    try (injection E as <- <-; split; [by apply Hp|done]).
  - destruct Hp as [Hp Hf]. injection E as <- <-. split; [|done]. destruct (slFails _); auto.
  - destruct Hp as [HP Hp]. destruct (slFails _); [injection E as <- <-; auto|].
    pose proof (exec_commit t (commits (slBefore (env n)) (wDB w))) as Ec. destruct (exec _ _) as [db' r'] eqn:Ex.
    injection E as <- <-. split; [apply Hp|]. simpl in *. rewrite Ec. by apply keep.
  - destruct (Reserve _ _ _ _ _). injection E as <- <-. auto.
  - destruct (CountFailure _ _ _ _ _ _). injection E as <- <-. auto.
  - injection E as <- <-. split; [apply Hp|]. by case_bool_decide.
Qed.

(** A sequence runs its first part, then the rest where that part left off. *)
Lemma run_bind {A B} (p : prog A) (f : A -> prog B) env : ∀ n w,
  ∃ m, run matches (bind p f) env n w = run matches (f (snd (run matches p env n w))) env m (fst (run matches p env n w)).
Proof.
  induction p as [a|X c k IH]; intros n w; simpl; [by exists n|].
  destruct (perform matches c (env n) w) as [w' r]. apply IH.
Qed.

(** What a sequence ends in, from what its first part returned in the same run. *)
Lemma run_bind_post {A B} (Q' : A -> Prop) (Q : B -> Prop) (p : prog A) (f : A -> prog B) env n w :
  (∀ k, Forall P (slBefore (env k))) -> (∀ k, T (slNow (env k))) -> post Q' p -> I (wDB w) ->
  (Q' (snd (run matches p env n w)) -> post Q (f (snd (run matches p env n w)))) ->
  Q (snd (run matches (bind p f) env n w)).
Proof.
  intros Henv Hnow Hp Hw Hf. destruct (run_post Q' p env n w Henv Hnow Hp Hw) as [HQ HI].
  destruct (run_bind p f env n w) as [m ->]. by apply run_post; [..|apply Hf|].
Qed.

End Logic.

(** ** A user that does not exist *)

(** [t] may create user [id]. *)
Definition createsUser (t : txn) (id : string) : bool :=
  match t with
  | TCreateFirstUser u | TCreateUser u => bool_decide (acID u = id)
  | TSignInExternalUser i => bool_decide (exNewUserID i = id)
  | _ => false
  end.

Definition noUser (id : string) (db : DB) : Prop := Ready db /\ dbUsers db !! id = None.

Lemma withTx_absent {A} id (f : DB -> result AccErr (DB * A)) db :
  dbUsers db !! id = None -> (∀ db' a, f db = Ok (db', a) -> dbUsers db' !! id = None) -> dbUsers (fst (withTx f db)) !! id = None.
Proof. intros Hn Hf. unfold withTx. destruct (f db) as [[db' a]|] eqn:E; [by eapply Hf|done]. Qed.

Lemma updateUser_absent i f id db db' : dbUsers db !! id = None -> updateUser i f db = Ok db' -> dbUsers db' !! id = None.
Proof. intros Hn (u & Hu & ->)%updateUser_Ok. simpl. rewrite lookup_insert_ne; [done|congruence]. Qed.

Lemma insertUser_absent u id db db' v :
  dbUsers db !! id = None -> acID u <> id -> insertUser u db = Ok (db', v) -> dbUsers db' !! id = None.
Proof.
  intros Hn Hid. unfold insertUser. destruct (roleValid _); simpl; [|done]. destruct (checkIdentity _); [|done].
  destruct (clashes _ _); [done|]. intros [= <- <-]. simpl. by rewrite lookup_insert_ne.
Qed.

Lemma signIn_absent i id db :
  dbUsers db !! id = None -> exNewUserID i <> id -> dbUsers (fst (SignInExternalUser i db)) !! id = None.
Proof.
  intros Hn Hid. unfold SignInExternalUser. destruct (_ || _); [done|]. apply withTx_absent; [done|]. intros db' r E.
  destruct (pick _ _) as [u|].
  - destruct (negb _); [done|]. destruct (signInRole i u db) as [[[[db1 role] kept] held]|] eqn:Er; [|done].
    destruct (updateUser _ _ db1) as [db2|] eqn:E2; [|done]. injection E as <- <-.
    eapply updateUser_absent; [|exact E2]. unfold signInRole in Er. destruct (exRole i); [|by injection Er as <- <- <- <-].
    destruct (_ || _); [by injection Er as <- <- <- <-|]. destruct (_ && exKeepAdmin i); [by injection Er as <- <- <- <-|].
    destruct (_ && _); [by injection Er as <- <- <- <-|]. unfold setRole in Er.
    destruct (updateUser _ _ db) as [d|] eqn:Eu; [|done]. injection Er as <- <- <- <-. simpl. by eapply updateUser_absent.
  - unfold createExternal in E. destruct (negb _); [done|]. destruct (exRole i); [|done].
    destruct (insertUser _ db) as [[d u]|e] eqn:Ei; [|by destruct e]. injection E as <- <-. by eapply insertUser_absent; [| |exact Ei].
Qed.

Lemma password_absent i f (P : string * Session -> Prop) `{∀ p, Decision (P p)} id db :
  dbUsers db !! id = None ->
  dbUsers (fst (withTx (λ db,
    p <-! userProvider i db;
    if negb (bool_decide (p = ProviderLocal)) then Err ErrNoPassword
    else db1 <-! updateUser i f db; Ok (dropSessions P db1, tt)) db)) !! id = None.
Proof.
  intros Hn. apply withTx_absent; [done|]. intros db' [] E. destruct (userProvider _ _); [|done]. destruct (negb _); [done|].
  destruct (updateUser _ _ _) eqn:Eu; [|done]. injection E as <-. simpl. by eapply updateUser_absent.
Qed.

Lemma commit_absent t db id : createsUser t id = false -> noUser id db -> noUser id (commit t db).
Proof.
  intros Hc [HR Hn]. split; [by apply Ready_commit|]. destruct t; simpl in *; try done.
  - apply withTx_absent; [done|]. intros db' v. destruct (Nat.ltb _ _); [done|]. apply insertUser_absent; [done|by apply bool_decide_eq_false in Hc].
  - apply withTx_absent; [done|]. intros db' v. apply insertUser_absent; [done|by apply bool_decide_eq_false in Hc].
  - unfold UpdatePassword. destruct (bool_decide _); [done|]. by apply password_absent.
  - unfold ResetPassword. destruct (bool_decide _); [done|]. by apply password_absent.
  - apply withTx_absent; [done|]. intros db' [] E. destruct (updateUser _ _ _) eqn:Eu; [|done]. injection E as <-. by eapply updateUser_absent.
  - apply withTx_absent; [done|]. intros db' [] E. destruct (actorIsAdmin _ _); [|done]. destruct (userRole _ _); [|done].
    destruct (Nat.leb _ _); [done|]. destruct (guardAdmin _ _ _ _); [|done]. injection E as <-. simpl. apply lookup_delete_None. by right.
  - unfold UpdateUserRole. destruct (negb _); [done|]. apply withTx_absent; [done|]. intros db' r E.
    destruct (actorIsAdmin _ _); [|done]. destruct (userRole _ _); [|done]. case_bool_decide; [by injection E as <- <-|].
    destruct (guardAdmin _ _ _ _); [|done]. unfold setRole in E. destruct (updateUser _ _ _) eqn:Eu; [|done].
    injection E as <- <-. simpl. by eapply updateUser_absent.
  - apply withTx_absent; [done|]. intros db' [] E. destruct (actorIsAdmin _ _); [|done]. destruct (userRole _ _); [|done].
    destruct (_ && _); [done|]. destruct (updateUser _ _ _) eqn:Eu; [|done]. injection E as <-. by eapply updateUser_absent.
  - apply signIn_absent; [done|by apply bool_decide_eq_false in Hc].
  - unfold CreateSession. destruct (dbSessions db !! _); [done|]. by destruct (dbUsers db !! seUserID s).
  - unfold CreateAPIKey. destruct (dbKeys db !! _); [done|]. by case_bool_decide.
  - unfold UpdateAPIKeyScope. destruct (negb _); [done|]. by destruct (dbKeys db !! _).
  - unfold RehashAPIKey. destruct (dbKeys db !! _); [|done]. by case_bool_decide.
  - unfold DeleteAPIKey. by destruct (dbKeys db !! _).
  - unfold saveOIDC, SaveSettingsWith. apply withTx_absent; [done|]. intros db' [] E. destruct (_ && _); [done|]. by injection E as <-.
Qed.

Lemma deleted_absent actor id keep db db' :
  Ready db -> exec (TDeleteUser actor id keep) db = (db', Ok tt) -> noUser id db'.
Proof.
  intros HR E. assert (db' = commit (TDeleteUser actor id keep) db) as -> by by rewrite <- exec_commit, E.
  split; [by apply Ready_commit|]. revert E. simpl. unfold DeleteUser, withTx. destruct (actorIsAdmin _ _); [|done].
  destruct (userRole _ _); [|done]. destruct (Nat.leb _ _); [done|]. destruct (guardAdmin _ _ _ _); [|done].
  intros _. simpl. apply lookup_delete_None. by left.
Qed.

(** A row that is read is the row of its own ID. *)
Lemma noUser_GetUser id i db u : noUser id db -> GetUser i db = Ok u -> acID u <> id.
Proof.
  intros [[HI _] Hn]. unfold GetUser. destruct (dbUsers db !! i) as [v|] eqn:Hi; [|done]. intros [= ->].
  pose proof (proj1 (inv_users db HI _ _ Hi)). congruence.
Qed.

Lemma noUser_byName id name db u : noUser id db -> GetUserByUsername name db = Ok u -> acID u <> id.
Proof.
  intros [[HI _] Hn]. unfold GetUserByUsername. destruct (pick _ _) as [v|] eqn:Hp; [|done]. intros [= ->].
  apply pick_Some in Hp as (i & Hi & _). pose proof (proj1 (inv_users db HI _ _ Hi)). congruence.
Qed.

Section Access.
Context (matches : string -> string -> bool).
Context (HashToken toLower : string -> string) (dummyHash : string).
Context (mac : string -> string -> string) (MACID : string -> string) (macKey : string) (retired : DB -> result AccErr (list string)).

(** ** Keys *)

Section Found.
Context (I : DB -> Prop) (P : txn -> Prop) (T : Z -> Prop).

(** A key that was found is stored. *)
Definition storedKey (r : result AccErr (APIKey * option string)) : Prop :=
  ∀ k mk, r = Ok (k, mk) -> ∃ db i, I db /\ dbKeys db !! i = Some k.

Lemma GetAPIKeyByPrefix_stored prefix db k : GetAPIKeyByPrefix prefix db = Ok k -> ∃ i, dbKeys db !! i = Some k.
Proof. unfold GetAPIKeyByPrefix. destruct (pick _ _) eqn:E; [|done]. intros [= ->]. apply pick_Some in E as (i & ? & _). eauto. Qed.

Lemma stored_ok db prefix k mk : I db -> GetAPIKeyByPrefix prefix db = Ok k -> storedKey (Ok (k, mk)).
Proof. intros Hdb (i & Hi)%GetAPIKeyByPrefix_stored k' mk' [= <- <-]. eauto. Qed.

Lemma findRetired_post key mks : post I P T storedKey (findRetired mac key mks).
Proof.
  induction mks as [|mk mks IH]; cbn; [done|]. split; [|done]. intros db Hdb.
  destruct (GetAPIKeyByPrefix _ db) as [k|e] eqn:E; [by eapply stored_ok|]. by destruct e.
Qed.

Lemma findImportedKey_post key : post I P T storedKey (findImportedKey mac macKey retired key).
Proof.
  cbn. split; [|done]. intros db Hdb. destruct (GetAPIKeyByPrefix _ db) as [k|e] eqn:E; [by eapply stored_ok|].
  destruct e; try done. cbn. split; [|done]. intros db' Hdb'. destruct (retired db'); [apply findRetired_post|done].
Qed.

Lemma lookupAPIKey_post key : post I P T storedKey (lookupAPIKey HashToken mac macKey retired key).
Proof.
  unfold lookupAPIKey. destruct (parseAPIKey key) as [prefix|].
  - cbn. split; [|done]. intros db Hdb. destruct (GetAPIKeyByPrefix _ db) as [k|e] eqn:E; [by eapply stored_ok|done].
  - destruct (Nat.ltb _ _); [done|]. eapply post_bind; [apply findImportedKey_post|]. intros [[k mk]|e] Hr; [done|].
    destruct e; try done. cbn. split; [|done]. intros db Hdb.
    destruct (GetAPIKeyByPrefix _ db) as [k|e] eqn:E; [by eapply stored_ok|done].
Qed.

(** An accepted key: stored, matching, within its time; its creator is stored now. *)
Definition acceptedKey (key : string) (r : result AccErr Caller) : Prop :=
  ∀ c, r = Ok c -> ∃ db i k mk now,
    I db /\ dbKeys db !! i = Some k /\ apiKeyMatches HashToken mac MACID macKey key (kyHash k) mk = true /\
    T now /\ (∀ e, kyExpiresAt k = Some e -> now < e) /\
    ((kyCreatedBy k = "" /\ c = keyCaller k None) \/
     ∃ db' u, I db' /\ kyCreatedBy k <> "" /\ dbUsers db' !! kyCreatedBy k = Some u /\ c = keyCaller k (Some u)).

Lemma AuthenticateAPIKey_post key :
  (∀ id p h, P (TRehashAPIKey id p h)) -> (∀ id at_, P (TTouchAPIKey id at_)) ->
  post I P T (acceptedKey key) (AuthenticateAPIKey HashToken mac MACID macKey retired key).
Proof.
  intros HP1 HP2. unfold AuthenticateAPIKey. destruct (_ || _); [done|]. eapply post_bind; [apply lookupAPIKey_post|].
  intros [[k mk]|e] Hr; [|by destruct e]. destruct (Hr k mk eq_refl) as (db & i & Hdb & Hk).
  destruct (apiKeyMatches _ _ _ _ _ _ _) eqn:Em; cbn; [|done]. intros now Hnow.
  destruct (match kyExpiresAt k with Some e => negb (now <? e) | None => false end) eqn:Ex; [done|].
  assert (∀ e, kyExpiresAt k = Some e -> now < e) as Hexp.
  { intros e He. rewrite He in Ex. by apply negb_false_iff, Z.ltb_lt in Ex. }
  set (known := if bool_decide (kyCreatedBy k = "") then _ else _).
  assert (post I P T (acceptedKey key) known) as Hknown.
  { unfold known. case_bool_decide as Hc; cbn.
    - intros c [= <-]. exists db, i, k, mk, now. split_and!; auto.
    - split; [|done]. intros db' Hdb'. unfold GetUser. destruct (dbUsers db' !! kyCreatedBy k) as [u|] eqn:Hu; [|done].
      cbn. intros c [= <-]. exists db, i, k, mk, now. split_and!; auto. right. eauto 6. }
  unfold rehashImportedKey. destruct mk as [mk|]; [destruct (_ || _)|]; cbn.
  all: try (split; [done|]; intros _).
  all: destruct (match kyLastUsed k with None => true | Some t => _ end); cbn; [split; [done|]; by intros _|done].
Qed.

End Found.

Section Out.
Context (id : string).

Let I := noUser id.
Let P := λ t, createsUser t id = false.
Let T : Z -> Prop := λ _, True.

(** A result that is not [id]. *)
Definition notLogin (r : result AccErr LoginResult) : Prop := ∀ l, r = Ok l -> acID (lrUser l) <> id.
Definition notCaller (r : result AccErr Caller) : Prop := ∀ c u, r = Ok c -> caUser c = Some u -> acID u <> id.

Lemma startSession_post u : acID u <> id -> post I P T notLogin (startSession HashToken u).
Proof.
  intros Hu. cbn. intros [token|e]; [|done]. intros [csrf|e]; [|done]. intros now _ [timeouts|e]; [|done].
  split; [done|]. intros [[]|e]; [|done]. by intros l [= <-].
Qed.

Lemma purgeAndStart_post now u : acID u <> id -> post I P T notLogin (purgeAndStart HashToken now u).
Proof. intros Hu. cbn. intros [timeouts|e]; [|done]. split; [done|]. intros _. by apply startSession_post. Qed.

Lemma checkLogin_post pk ip pw user :
  (∀ u, user = Some u -> acID u <> id) -> post I P T notLogin (checkLogin HashToken dummyHash pk ip pw user).
Proof.
  intros Hu. cbn. intros [[]|e]; [|by cbn..]. destruct user as [u|]; [|by cbn]. cbn. intros _ [policy|e]; [|done].
  destruct (_ && _); [done|]. cbn. intros now _. split; [done|]. intros [[]|e]; [|done]. apply purgeAndStart_post. by apply (Hu u).
Qed.

Lemma Login_post clientIP name pw : post I P T notLogin (Login HashToken toLower dummyHash clientIP name pw).
Proof.
  unfold Login. cbn [post]. intros [[]|e]; [|done]. destruct (Nat.ltb _ _); [by cbn|]. cbn [post]. split; [|by cbn].
  intros db Hdb. destruct (GetUserByUsername name db) as [u|e] eqn:E.
  - apply checkLogin_post. intros v. destruct (Local_ u); [|done]. intros [= <-]. by eapply noUser_byName.
  - destruct e; try by cbn. by apply checkLogin_post.
Qed.

Lemma AuthenticateSession_post token : post I P T notCaller (AuthenticateSession HashToken token).
Proof.
  unfold AuthenticateSession. destruct (bool_decide _); [done|]. cbn. split; [|done]. intros db Hdb.
  destruct (GetSession _ db) as [s|e]; [|by destruct e]. cbn. intros now _ [timeouts|e]; [|done].
  destruct (sessionExpired _ _ _); [by cbn|]. cbn. split; [|done]. intros db' Hdb'.
  destruct (GetUser _ db') as [u|e] eqn:E; [|by destruct e]. pose proof (noUser_GetUser _ _ _ _ Hdb' E) as Hu.
  destruct (_ >=? _); cbn; [split; [done|]; intros _|]; by intros c v [= <-] [= <-].
Qed.

End Out.

(** An accepted key is the record the request [found], and one [id] did not create, of a
    caller who is not [id]. *)
Definition notKeyOf (id : string) (found : result AccErr (APIKey * option string)) (r : result AccErr Caller) : Prop :=
  ∀ c, r = Ok c -> (∀ u, caUser c = Some u -> acID u <> id) /\
    ∃ k mk, found = Ok (k, mk) /\ caKeyID c = kyID k /\ (id <> "" -> kyCreatedBy k <> id).

Lemma AuthenticateAPIKey_notKeyOf id key env n w :
  (∀ t db, createsUser t id = false -> noUser id db -> noUser id (commit t db)) ->
  (∀ k, Forall (λ t, createsUser t id = false) (slBefore (env k))) -> noUser id (wDB w) ->
  notKeyOf id (snd (run matches (lookupAPIKey HashToken mac macKey retired key) env n w))
    (snd (run matches (AuthenticateAPIKey HashToken mac MACID macKey retired key) env n w)).
Proof.
  intros Hkeep Henv HI. unfold AuthenticateAPIKey. destruct (_ || _); [done|].
  apply (run_bind_post matches (noUser id) (λ t, createsUser t id = false) (λ _, True)) with (Q' := λ _, True); [exact Hkeep|done|done| |done|].
  { eapply post_mono; [|apply lookupAPIKey_post]. done. }
  intros _. generalize (snd (run matches (lookupAPIKey HashToken mac macKey retired key) env n w)).
  intros [[k mk]|e]; [|by destruct e].
  destruct (apiKeyMatches _ _ _ _ _ _ _); cbn; [|done]. intros now _. destruct (match kyExpiresAt k with Some e => _ | None => _ end); [done|].
  set (known := if bool_decide (kyCreatedBy k = "") then _ else _).
  assert (post (noUser id) (λ t, createsUser t id = false) (λ _, True) (notKeyOf id (Ok (k, mk))) known) as Hknown.
  { unfold known. case_bool_decide as Hc; cbn.
    - intros c [= <-]. split; [done|]. exists k, mk. split_and!; [done..|congruence].
    - split; [|done]. intros db Hdb. destruct (GetUser (kyCreatedBy k) db) as [u|e] eqn:Hu; [|by destruct e]. cbn. intros c [= <-].
      split; [intros v [= <-]; by eapply noUser_GetUser|]. exists k, mk. split_and!; [done..|]. intros _ E.
      unfold GetUser in Hu. rewrite E, (proj2 Hdb) in Hu. done. }
  unfold rehashImportedKey. destruct mk as [mk|]; [destruct (_ || _)|]; cbn.
  all: try (split; [done|]; intros _).
  all: destruct (match kyLastUsed k with None => true | Some t => _ end); cbn; [split; [done|]; by intros _|done].
Qed.

(** [C9] A deleted user is out. Once the deletion of user [id] has committed, and while no
    user is created under that ID again, whatever other requests do: no session token and no
    password gives a caller who is that user. No API key does either, and a key that user
    created is refused, also when it was stored after the deletion: whenever a presented key
    is accepted, the record its lookup found in that same run names another creator (or
    none), and the caller carries that record's ID. *)
Theorem deleted_user_out actor id keep db db' ts env n w :
  Ready db -> exec (TDeleteUser actor id keep) db = (db', Ok tt) ->
  wDB w = commits ts db' -> Forall (λ t, createsUser t id = false) ts ->
  (∀ k, Forall (λ t, createsUser t id = false) (slBefore (env k))) ->
  (∀ token, notCaller id (snd (run matches (AuthenticateSession HashToken token) env n w))) /\
  (∀ key, notKeyOf id (snd (run matches (lookupAPIKey HashToken mac macKey retired key) env n w))
            (snd (run matches (AuthenticateAPIKey HashToken mac MACID macKey retired key) env n w))) /\
  (∀ clientIP name password, notLogin id (snd (run matches (Login HashToken toLower dummyHash clientIP name password) env n w))).
Proof.
  intros HR Hd Hw Hts Henv. pose proof (deleted_absent _ _ _ _ _ HR Hd) as H0.
  assert (∀ t db, createsUser t id = false -> noUser id db -> noUser id (commit t db)) as Hkeep by (intros; by apply commit_absent).
  assert (noUser id (wDB w)) as HI by (rewrite Hw; by apply (commits_keep _ _ Hkeep)).
  split_and!.
  - intros token. apply (run_post matches (noUser id) (λ t, createsUser t id = false) (λ _, True)); [exact Hkeep|done|done|apply AuthenticateSession_post|done].
  - intros key. by apply AuthenticateAPIKey_notKeyOf.
  - intros clientIP name pw. apply (run_post matches (noUser id) (λ t, createsUser t id = false) (λ _, True)); [exact Hkeep|done|done|apply Login_post|done].
Qed.

(** An accepted API key is stored, matches what was presented, has not expired, and stands
    for a creator that is stored now: every scope and every connection it is granted is
    granted to a session of that creator. *)
Theorem api_key_stands_for_creator key env n w c :
  snd (run matches (AuthenticateAPIKey HashToken mac MACID macKey retired key) env n w) = Ok c ->
  ∃ ts i k mk now, dbKeys (commits ts (wDB w)) !! i = Some k /\ caKeyID c = kyID k /\
    apiKeyMatches HashToken mac MACID macKey key (kyHash k) mk = true /\ (∀ e, kyExpiresAt k = Some e -> now < e) /\
    (∃ m, now = slNow (env m)) /\
    (kyCreatedBy k <> "" -> ∃ ts' u, dbUsers (commits ts' (wDB w)) !! kyCreatedBy k = Some u /\ caUser c = Some u /\
       let session := caPrincipal (sessionCaller u (mkSession "" "" "" 0 0 0) "") in
       (∀ need, Allows (pScope (caPrincipal c)) need = true -> Allows (pScope session) need = true) /\
       (∀ conn, allowsConn (pConnections (caPrincipal c)) conn = true -> allowsConn (pConnections session) conn = true)).
Proof.
  intros Hc.
  destruct (run_post matches (λ db, ∃ ts, db = commits ts (wDB w)) (λ _, True) (λ now, ∃ m, now = slNow (env m))) with
    (Q := acceptedKey (λ db, ∃ ts, db = commits ts (wDB w)) (λ now, ∃ m, now = slNow (env m)) key)
    (p := AuthenticateAPIKey HashToken mac MACID macKey retired key) (env := env) (n := n) (w := w) as [HQ _].
  - intros t db _ [ts ->]. exists (ts ++ [t]). by rewrite commits_app.
  - intros k. by apply Forall_true.
  - eauto.
  - by apply AuthenticateAPIKey_post.
  - by exists [].
  - destruct (HQ c Hc) as (db & i & k & mk & now & [ts ->] & Hk & Hm & Hnow & Hexp & Hcr).
    exists ts, i, k, mk, now. split_and!; try done; [by destruct Hcr as [[_ ->]|(? & ? & _ & _ & _ & ->)]|].
    intros Hcb. destruct Hcr as [[? _]|(db' & u & [ts' ->] & _ & Hu & ->)]; [done|].
    exists ts', u. split; [done|]. split; [done|]. split; simpl.
    + intros need Hn. by apply (key_within_creator (acRole u) (if scopeValid (kyScope k) then kyScope k else ScopeRead)
        (connectionSet (acAccess u)) (connectionSet (kyAccess k)) need "").
    + intros conn Hn. by apply (key_within_creator (acRole u) (if scopeValid (kyScope k) then kyScope k else ScopeRead)
        (connectionSet (acAccess u)) (connectionSet (kyAccess k)) ScopeRead conn).
Qed.

End Access.
