(* ===== verification/AccountDemo.v ===== *)
(** * Concrete runs of the authentication service

    Witnesses of the theorems of AccountSafety and AccountAccess, and three races: a
    sign-in that outlives a password reset, a demotion that skips the second
    administrator, and a first user who is no administrator. *)

From S2P Require Import Prelude Glob Selection Json Throttle Access AccountStore AccountInvariant Accounts AccountSafety ApiKeys AccountAccess.

(** Passwords and tokens are hashed by marking them. *)
Definition demoHash (salt pw : string) : string := "h:" +:+ pw.
Definition demoMatches (hash pw : string) : bool := bool_decide (hash = "h:" +:+ pw).
Definition demoToken (t : string) : string := "#" +:+ t.
Definition demoMac (key s : string) : string := key +:+ "/" +:+ s.

Definition demoPolicy : OIDCPolicy := mkPolicy true true [] None [] false.

Definition at_ (now : Z) (random : string) (before : list txn) (gate : bool) : slot :=
  mkSlot before (λ t, t) false now random [] demoPolicy (12 * hour, 7 * day) 0 gate true None.

(** A quiet environment whose clock stands still and whose tokens are numbered. *)
Definition calm (now : Z) (k : nat) : slot := at_ now ("tok" +:+ pretty k) [] false.

Lemma calm_quiet now : quiet (calm now).
Proof. intros k. split; [by intros []|done]. Qed.

(** Between the calls [busy k] of the same environment another request commits [ts]. *)
Definition busy (gate : bool) (now : Z) (n : nat) (ts : list txn) (k : nat) : slot :=
  at_ now ("tok" +:+ pretty k) (if Nat.eqb k n then ts else []) gate.

Definition local (id name : string) (role : Role) (pw : string) : Account :=
  mkAccount id name role ProviderLocal "" (demoHash "" pw) 10 10 None 0 false EveryConnection.

Definition ada : Account := local "usr_ada" "Ada" RoleAdmin "first password".
Definition bob : Account := local "usr_bob" "bob" RoleAdmin "second password".
Definition eve : Account := local "usr_eve" "eve" RoleViewer "third password".

Definition setupDB : DB := commit (TCreateFirstUser ada) emptyDB.
Definition twoAdmins : DB := commits [TCreateUser bob; TCreateUser eve] setupDB.

Lemma setupDB_Ready : Ready setupDB.
Proof. split; [|done]. by apply commit_Inv; [apply emptyDB_Inv|]. Qed.

Lemma twoAdmins_Ready : Ready twoAdmins.
Proof. apply Ready_commits, setupDB_Ready. Qed.

Definition world (db : DB) : World := mkWorld db ∅ "".

(** The caller of a session of [u]. *)
Definition asCaller (u : Account) : option Caller := Some (sessionCaller u (mkSession "" (acID u) "" 0 0 0) "#own").

(** ** An administrator remains *)

(** Bob is demoted by Ada between Bob's request to demote her and its transaction. *)
Definition ripostes : nat -> slot := busy false 100 2 [TUpdateUserRole "usr_ada" "usr_bob" RoleViewer 90 false].

Definition bobDemotesAda : World * result AccErr (Account * Role) :=
  run demoMatches (SetUserRole (asCaller bob) "usr_ada" RoleViewer) ripostes 0 (world twoAdmins).

Example mutual_demotion_stops :
  snd bobDemotesAda = Err (EAccess ErrForbidden) /\
  (acRole <$> dbUsers (wDB (fst bobDemotesAda)) !! "usr_ada") = Some RoleAdmin.
Proof. vm_compute. done. Qed.

Lemma administrator_remains_witness :
  ∃ id v, dbUsers (wDB (fst (run demoMatches (SetUserRole (asCaller bob) "usr_ada" RoleViewer)
    (busy false 100 0 [TCreateUser bob; TSaveOIDC true true; TDeleteUser "" "usr_ada" true]) 0 (world setupDB)))) !! id = Some v /\
    acRole v = RoleAdmin.
Proof.
  refine (proj1 (administrator_remains demoMatches ada (SetUserRole (asCaller bob) "usr_ada" RoleViewer)
    (busy false 100 0 [TCreateUser bob; TSaveOIDC true true; TDeleteUser "" "usr_ada" true]) 0 (world setupDB) _ _ _)).
  - reflexivity.
  - reflexivity.
  - done.
Defined.

(** ** Passwords *)

Definition resetDB : DB := commits [TResetPassword "usr_bob" (demoHash "" "a fresh password") 50] twoAdmins.


(** The new password gets in. *)
Example new_password_accepted :
  is_ok (snd (run demoMatches (Login demoToken nocase "dummy" "10.0.0.1" "BOB" "a fresh password") (calm 100) 0 (world resetDB))) = true.
Proof. vm_compute. done. Qed.

(** A sign-in with the old password that read the user before the reset stores its session
    after it: the reset revokes the sessions it finds, and this one is not there yet. *)
Definition racingLogin : World * result AccErr LoginResult :=
  run demoMatches (Login demoToken nocase "dummy" "10.0.0.1" "bob" "second password")
    (busy false 100 2 [TResetPassword "usr_bob" (demoHash "" "a fresh password") 50]) 0 (world twoAdmins).

Example login_outlives_reset :
  (acHash <$> dbUsers (wDB (fst racingLogin)) !! "usr_bob") = Some "h:a fresh password" /\
  (∃ l, snd racingLogin = Ok l) /\
  (callerUserID <$> match snd (run demoMatches (AuthenticateSession demoToken "tok9") (calm 200) 0 (fst racingLogin)) with
                    | Ok c => Some c | Err _ => None end) = Some "usr_bob".
Proof. split; [vm_compute; done|]. split; [eexists; vm_compute; done|vm_compute; done]. Qed.

(** ** Sessions *)

Definition signedInDB : DB := wDB (fst (run demoMatches (Login demoToken nocase "dummy" "10.0.0.1" "bob" "second password") (calm 100) 0 (world twoAdmins))).

Example session_accepted :
  is_ok (snd (run demoMatches (AuthenticateSession demoToken "tok9") (calm 200) 0 (world signedInDB))) = true.
Proof. vm_compute. done. Qed.

Lemma revoked_session_refused_witness :
  is_ok (snd (run demoMatches (AuthenticateSession demoToken "tok9") (calm 200) 0
    (world (commits [TDeleteExpiredSessions 120 10] (commit (TUpdateUserRole "usr_ada" "usr_bob" RoleOperator 110 true) signedInDB))))) = false.
Proof.
  eapply (revoked_session_refused demoMatches demoToken "tok9" _ (TUpdateUserRole "usr_ada" "usr_bob" RoleOperator 110 true) signedInDB
    [TDeleteExpiredSessions 120 10]).
  - vm_compute. reflexivity.
  - split; [reflexivity|]. exists RoleAdmin. split; [vm_compute; reflexivity|discriminate].
  - reflexivity.
  - repeat constructor.
  - intros k. constructor.
Defined.

(** ** The way in *)

Definition ssoWorld : World :=
  fst (run demoMatches (SetUserRole (asCaller ada) "usr_eve" RoleOperator)
    (busy false 100 0 [TCreateUser eve; TSaveOIDC true true]) 0 (world setupDB)).

(** Ada is the only administrator. *)
Lemma sso_admin id u :
  dbUsers (wDB ssoWorld) !! id = Some u -> acRole u = RoleAdmin -> acUsername u = "Ada" /\ acHash u = "h:first password".
Proof.
  intros Hu. revert id u Hu.
  change (map_Forall (λ _ u, acRole u = RoleAdmin -> acUsername u = "Ada" /\ acHash u = "h:first password") (dbUsers (wDB ssoWorld))).
  apply (bool_decide_unpack _). vm_compute. exact Logic.I.
Qed.

Lemma break_glass_witness :
  ∃ id l c, let r := run demoMatches (Login demoToken nocase "dummy" "10.0.0.1" "Ada" "first password") (calm 100) 0 ssoWorld in
    snd r = Ok l /\ snd (run demoMatches (AuthenticateSession demoToken (lrToken l)) (calm 200) 0 (fst r)) = Ok c /\
    callerUserID c = id /\ mustHave (Some c) ScopeAdmin = Ok tt.
Proof.
  assert (acRole ada = RoleAdmin) as Ha by reflexivity.
  assert (dbUsers (wDB (world setupDB)) <> ∅) as Hne by done.
  assert (storedOIDCEnabled (wDB ssoWorld) = true) as Ho by (vm_compute; reflexivity).
  destruct (break_glass demoMatches demoToken nocase "dummy" ada (SetUserRole (asCaller ada) "usr_eve" RoleOperator)
    (busy false 100 0 [TCreateUser eve; TSaveOIDC true true]) (world setupDB) Ha eq_refl Hne Ho) as (id & u & Hu & Hr & Hin).
  destruct (sso_admin id u Hu Hr) as [En Eh]. exists id. rewrite En, Eh in Hin.
  refine (Hin "10.0.0.1" "first password" (calm 100) (fst (Reserve 100 [] (loginPair nocase "10.0.0.1" "Ada") (loginIP "10.0.0.1") ∅))
    (calm 200) _ _ (calm_quiet 100) (calm_quiet 200) _ _ _ _ _ _ _); try (vm_compute; reflexivity).
  - vm_compute. lia.
  - vm_compute. discriminate.
  - vm_compute. split; [discriminate|reflexivity].
Defined.

(** ** Deleted users *)

Definition eveGone : DB := fst (exec (TDeleteUser "usr_ada" "usr_eve" true) twoAdmins).

(** A key of the deleted user that was stored after the deletion. *)
Definition lateKey : APIKey :=
  mkKey "key_1" "late" "abcdefgh" ScopeAdmin (demoToken "mr_abcdefgh_abcdefghabcdefghabcdefghabcdefgh") "usr_eve" 100 None None 0 false "" EveryConnection.

Definition demoRetired (db : DB) : result AccErr (list string) := Ok [].

(** The lookup finds the late key, so the key is refused. *)
Lemma deleted_user_out_witness :
  let w := world (commits [TCreateAPIKey lateKey] eveGone) in
  let key := "mr_abcdefgh_abcdefghabcdefghabcdefghabcdefgh" in
  snd (run demoMatches (lookupAPIKey demoToken demoMac "k" demoRetired key) (calm 200) 0 w) = Ok (lateKey, None) /\
  ~ ∃ c, snd (run demoMatches (AuthenticateAPIKey demoToken demoMac demoToken "k" demoRetired key) (calm 200) 0 w) = Ok c.
Proof.
  cbv zeta. set (w := world (commits [TCreateAPIKey lateKey] eveGone)). set (key := "mr_abcdefgh_abcdefghabcdefghabcdefghabcdefgh").
  assert (exec (TDeleteUser "usr_ada" "usr_eve" true) twoAdmins = (eveGone, Ok tt)) as Hd by (vm_compute; reflexivity).
  pose proof (proj1 (proj2 (deleted_user_out demoMatches demoToken nocase "dummy" demoMac demoToken "k" demoRetired
    "usr_ada" "usr_eve" true twoAdmins eveGone [TCreateAPIKey lateKey] (calm 200) 0 w
    twoAdmins_Ready Hd eq_refl ltac:(repeat constructor) (λ _, List.Forall_nil _))) key) as H.
  assert (snd (run demoMatches (lookupAPIKey demoToken demoMac "k" demoRetired key) (calm 200) 0 w) = Ok (lateKey, None)) as Hf
    by (vm_compute; reflexivity).
  split; [exact Hf|]. intros [c Hc]. destruct (H c Hc) as [_ (k & mk & Hk & _ & Hne)]. rewrite Hf in Hk.
  injection Hk as <- _. by apply Hne.
Defined.

(** The key is refused; with its creator still there it would be read only. *)
Example late_key_refused :
  snd (run demoMatches (AuthenticateAPIKey demoToken demoMac demoToken "k" demoRetired
    "mr_abcdefgh_abcdefghabcdefghabcdefghabcdefgh") (calm 200) 0 (world (commits [TCreateAPIKey lateKey] eveGone))) =
  Err (EAccess ErrUnauthenticated) /\
  match snd (run demoMatches (AuthenticateAPIKey demoToken demoMac demoToken "k" demoRetired
    "mr_abcdefgh_abcdefghabcdefghabcdefghabcdefgh") (calm 200) 0 (world (commits [TCreateAPIKey lateKey] twoAdmins))) with
  | Ok c => pScope (caPrincipal c) = ScopeRead
  | Err _ => False
  end.
Proof. vm_compute. done. Qed.

(** ** Two races and an early key *)

(** With the two-person rule on, demoting an administrator waits for a second one. The rule
    looks at the role before the transaction: a user promoted in between (by an approved
    request) is demoted at once. *)
Example demoted_without_approval :
  let r := run demoMatches (SetUserRole (asCaller ada) "usr_eve" RoleOperator)
    (busy true 100 3 [TUpdateUserRole "usr_bob" "usr_eve" RoleAdmin 90 false]) 0 (world twoAdmins) in
  match snd r with Ok (u, from) => from = RoleAdmin /\ acRole u = RoleOperator | Err _ => False end.
Proof. vm_compute. done. Qed.

(** Without the race the same request waits. *)
Example demotion_waits :
  snd (run demoMatches (SetUserRole (asCaller ada) "usr_bob" RoleOperator) (busy true 100 0 []) 0 (world twoAdmins)) =
  Err ErrAwaitingApproval.
Proof. vm_compute. done. Qed.

(** The key imported from the environment is an administrator without a user. Before the
    setup it creates a viewer, which completes the setup: there is no administrator, and
    the setup code is refused. *)
Definition envKey : Caller := keyCaller (mkKey "key_0" "" "K1234567" ScopeAdmin "" "" 0 None None 0 true "" EveryConnection) None.

Example first_user_is_viewer :
  let r := run demoMatches (CreateUserWithConnections demoHash (Some envKey) "carol" "a long password" None EveryConnection)
    (busy false 100 0 []) 0 (mkWorld emptyDB ∅ "CODE") in
  is_ok (snd r) = true /\ countAdmins (wDB (fst r)) = 0%nat /\
  snd (run demoMatches (Setup demoHash demoToken nocase "10.0.0.1" "CODE" "root" "a long password") (calm 200) 0 (fst r)) = Err ErrSetupCompleted.
Proof. vm_compute. done. Qed.
